(* ===== verification/_CoqProject ===== *)
-Q . S2P
Prelude.v
Cmem.v
Hoare.v
PbTypes.v
PbEncode.v
PbWire.v
PbEncodeSpec.v
PbEmits.v
PbEncodeRefine.v
PbEncodeThms.v
PbIstream.v
PbDecodePrim.v
PbDecode.v
PbFields.v
PbDecodeThms.v
PbItems.v
PbDecodeRecords.v
PbValue.v
PbStore.v
PbWireValue.v
PbMessageThms.v
Cbs.v
Cbb.v
Asn1Text.v
ConstTime.v
Base64.v
CbsThms.v
CbbThms.v
CbbSafety.v
Base64Thms.v
Unicode.v
Heap.v
HeapThms.v
Queue.v
Timer.v
TimerOps.v
TimerLife.v
TimerThms.v
GmTime.v
BioPair.v
BioPairThms.v
LHash.v
LHashThms.v
LdbCoding.v
LdbCrc.v
LdbCodingThms.v
Conc.v
LdbEnv.v
LdbLog.v
LdbLogRead.v
LdbLogThms.v
LdbComparator.v
LdbFormat.v
LdbFormatThms.v
LdbVersionEdit.v
LdbVersionEditThms.v
LdbSkipList.v
LdbSkipListThms.v
LdbSkipListSpec.v
LdbMemTable.v
LdbMemTableThms.v
LdbVersion.v
LdbVersionThms.v
LdbVersionSpec.v
LdbVersionBuild.v
LdbManifest.v
LdbWriteBatch.v
LdbWriteBatchThms.v
LdbWrite.v
LdbWriteInv.v
LdbWriteThms.v
LdbWriteSpec.v
LdbGet.v
LdbRecover.v
LdbRecoverThms.v
LdbBlock.v
LdbBlockIter.v
LdbBlockThms.v
LdbFilter.v
LdbFilterThms.v
