(* ===== verification/Prelude.v ===== *)
(** * The C and C++ libraries under mock_project: nanopb, BoringSSL, libuv, LevelDB

    The repository is an iOS application over Firebase and gRPC.  Its own code is Swift
    user interface code; the C and C++ code it is built from is in [src/mock_project/Pods].
    This library models the parts of that code that carry self-contained program logic, and
    proves what they promise to their callers.  File names below are relative to [Pods].

    ** The parts and how they interact

    - nanopb ([nanopb/pb.h], [pb_common], [pb_encode], [pb_decode]): the protocol buffers
      library with which Firestore and the diagnostics SDK serialise their messages.  A
      message is a C struct in memory, described by a table of fields; the encoder walks
      the table and writes to a stream, the decoder reads a stream and stores into the
      struct.  Streams may call back into the application, callbacks are parameters.
    - BoringSSL's byte strings ([BoringSSL-GRPC/src/crypto/bytestring]): the parser [CBS]
      and the builder [CBB] that all of its ASN.1 and TLS code uses; ber.c converts BER to
      DER with both.  [crypto/base64] and the constant-time helpers of
      [crypto/internal.h] are its other users of plain byte arithmetic.
    - Three more parts of BoringSSL ([BoringSSL-GRPC/src/crypto]): the date arithmetic under
      the ASN.1 times (asn1/time_support.c), the in-memory pipes that connect TLS to gRPC
      (bio/pair.c, used through bio/bio.c) and the hash table of its object and session
      caches (lhash/lhash.c).
    - libuv ([Libuv-gRPC/src]): timer.c keeps the active timers in the binary heap of
      heap-inl.h and every handle in the queue of queue.h; uv-common.h and unix/core.c
      count the active handles, close handles and compute how long the loop may poll.

    - LevelDB ([leveldb-library]), in which Firestore keeps its documents: the encodings,
      the hash and the checksum of util/; the write-ahead log (db/log_writer.cc,
      db/log_reader.cc) that makes a write survive a crash; the comparators and the
      internal keys of db/dbformat.cc; the skip list of db/skiplist.h, which one thread
      writes while others read, the table in memory over it (db/memtable.cc) and the
      batches that are logged and inserted there (db/write_batch.cc); the write path of
      db/db_impl.cc, which brings these together: threads queue up, one of them logs and
      inserts for a group, the table in memory is switched and written out; the recovery
      of the logs when the database is opened; the versions of the database, each the table
      files of seven levels (db/version_set.cc), how lookups go through them, and the edits
      in which the manifest records them (db/version_edit.cc); and of the table format the blocks of sorted pairs
      (table/block_builder.cc, table/block.cc) and the filters that spare reading them
      (util/bloom.cc, table/filter_block.cc).

    ** The machine

    [Prelude]: integers of a width are [Z] with [u8] .. [u64], [s8] .. [s64] written at
    every place where C reduces; bytes and their little- and big-endian words; tactics
    ([norm_pow2], [zdiv_lia], [bool_cases]) and the hint databases.  [Cmem]: the memory of
    a C program ([world]) and the monad [SM T A] of a function that owns one struct of
    type [T]: it returns ([Ok]), reports failure ([Err]), has undefined behaviour ([UB]:
    an access outside every object, a double free, a failed assertion) or runs out of
    fuel ([NoFuel]).  [Hoare]: evaluation lemmas and an invariant logic for the monad.
    A theorem that says [m s w = Ok a s' w'] thus also says that [m] ends, that it has no
    undefined behaviour, and how the memory changed.  [Conc]: threads.  A [prog] is a
    tree of atomic accesses, each a function of the monad; a configuration is a pool of
    them over one struct, a step is one access of one of them, and a rely-guarantee logic
    proves programs that others interfere with.  Memory is sequentially consistent.

    ** Files

    nanopb: [PbTypes] (pb.h and pb_common.c: descriptors, streams, the field
    iterator), [PbEncode] (pb_encode.c), [PbIstream] (pb_decode.c up to the primitive
    readers), [PbDecode] (the rest of pb_decode.c).  Theorems: [PbWire] (the wire format as
    a grammar), [PbEncodeSpec] (what a message encodes to, as a function of the memory),
    [PbEmits] and [PbEncodeRefine] (the encoder refines it),
    [PbEncodeThms] (buffers, sizing, framing, well-formedness, a message for the witnesses),
    [PbDecodePrim] (the primitive readers on every input, their round trips), [PbFields] (the
    iterator), [PbDecodeThms] (field lookup, required fields, unknown fields).
    The decoder as a whole: [PbItems] (a
    logic of decoders that store what they read, and every field decoder)
    and [PbDecodeRecords] (any sequence of tagged values), [PbValue] (the
    value of a struct), [PbStore] (storing the records of a value gives
    the value, initialisation), [PbWireValue] (the encoder sends the
    records of the value), [PbMessageThms] (the round trip and a message to try it on).

    BoringSSL: [Cbs] (cbs.c), [Cbb] (cbb.c), [Unicode] (unicode.c), [Asn1Text] (OIDs as
    text, SET OF, ber.c), [ConstTime] (internal.h), [Base64] (base64.c).  Theorems:
    [CbsThms] (what the parser accepts), [CbbThms] (what the builder writes), [CbbSafety] (any sequence of calls),
    [Base64Thms]; those of [Unicode] follow its definitions, and so do those of [GmTime]
    (time_support.c); [BioPair]
    (pair.c, bio.c) with [BioPairThms]; [LHash] (lhash.c) with [LHashThms] (the table's
    invariant, every operation, the table as a finite map).

    libuv: [Heap] (heap-inl.h), [Queue] (queue.h), [Timer] (timer.c, the handle macros of
    uv-common.h, closing and the poll timeout of unix/core.c).  Theorems: [HeapThms] (the
    linked heap as an array, and its order); [Queue] (the links as lists); [TimerOps] (the
    invariant of a loop, each operation), [TimerLife], [TimerThms].

    LevelDB: [LdbCoding] (coding.cc, hash.cc), [LdbCrc] (crc32c.cc), [LdbEnv] (status, the
    interfaces of files, and of env_posix.cc the files that are written), [LdbLog] (log_writer.cc, log_reader.cc, the loop of
    dumpfile.cc), [LdbComparator] (comparator.cc), [LdbFormat] (dbformat.cc),
    [LdbVersionEdit] (version_edit.cc), [LdbVersion] (of version_set.cc the searches in a
    version and [VersionSet::Builder]), [LdbManifest] (LogAndApply and Recover of
    version_set.cc, and their theorems), [LdbSkipList]
    (skiplist.h, arena.cc, random.h), [LdbMemTable] (memtable.cc), [LdbWriteBatch]
    (write_batch.cc), [LdbWrite] (Write, BuildBatchGroup, MakeRoomForWrite and Get of
    db_impl.cc), [LdbRecover] (RecoverLogFile and Recover of db_impl.cc), [LdbBlock]
    (block_builder.cc, block.cc), [LdbFilter] (bloom.cc, filter_block.cc).  Theorems:
    [LdbCodingThms] (round trips, checksums); [LdbLogRead] (the bytes that a record is laid
    out as, reading them, whole and cut), [LdbLogThms] (crashes,
    damaged files, examples); [LdbFormatThms]; [LdbVersionEditThms]; [LdbSkipListThms] (the list's invariant and
    the searches under interference), [LdbSkipListSpec] (insertion, access by access, the
    list as a set, readers beside a writer); [LdbMemTableThms]; [LdbVersionThms] (files that
    overlap a range), [LdbVersionSpec] (the order of files and levels, what Get finds),
    [LdbVersionBuild] (what edits make of a version);
    [LdbWriteBatchThms] (batches, and batches in a table); [LdbWriteInv] (the invariant of
    the log and the tables in memory), [LdbWriteThms] (the queue of writers, every step
    keeps the invariant), [LdbWriteSpec] (who is going to wake whom, what follows for
    callers, and a run), [LdbGet] (reading while others write); [LdbRecoverThms] (recovery,
    crashes);
    [LdbBlockIter] (what the builder writes, each operation of the iterator),
    [LdbBlockThms]; [LdbFilterThms].

    ** What the theorems show

    - Refinement: the encoder against the wire format and against the bytes an abstract
      message has ([pb_encode_well_formed], for the messages that the byte specification defines and
      callbacks that write whole fields; [pb_encode_to_buffer]); the linked heap against
      a set with a least element ([heap_refines_queue]); the linked queues against lists
      ([queue_refines_lists]); the timers, which use both, against a plain table of timers
      ([timer_ops_refine]); a pair of ring buffers against two bounded pipes
      ([bio_pair_refines], their counters included), whose streams no interleaving reorders or loses
      ([bio_pair_stream]); the hash table against a finite map ([lh_refines_map]).  The
      client proofs use the interfaces [WeakOrder] of the heap's comparison, which the
      timers instantiate, and [LHashLaws] of the hash table's two functions.  A block of a
      LevelDB table is a sorted list with a cursor ([block_refines_list]), for every
      [Comparator] with [ComparatorLaws]; bytewise and internal comparators are instances.
    - Safety: after a crash the log gives back a prefix of the records, and all that were
      acknowledged if what was flushed is there ([log_crash_safe], for every
      [WritableFile] and [SequentialFile] that keep their laws, whose calls may fail); a
      filter never hides a key
      ([filter_block_no_false_negatives], for every [FilterPolicy] with [FilterLaws], which
      Bloom filters satisfy by [bloom_no_false_negatives]).  The example [trailer_error_lost]
      shows what the log writer does not tell its caller, if Append of a few bytes to a file
      without data in its buffer can fail.  Readers of the skip list
      take no lock: beside a writer, in every interleaving, they get what the set held at
      moments of their run ([skiplist_linearizable]), after a bounded number of their own
      accesses ([readers_wait_free]); on its own the list is a set with a cursor
      ([skiplist_refines_set]), for every comparison with a [KeyOrder].
    - The database under concurrent writers, in every order of their steps, of the
      background thread's and of failures of files: groups of writes take effect as wholes,
      in the order of the queue ([group_commit_serial]); nobody waits for ever
      ([writers_never_stuck]); Get at a snapshot sees whole groups only, although it reads
      without the mutex and the leader inserts its group record by record
      ([db_snapshot_reads]); after a crash at any moment, recovery finds every acknowledged
      write if the process died, and every synced one if the machine did
      ([crash_recovery]), as long as nothing was written to a log behind a record whose
      AddRecord failed; the error of a BuildTable that fails is the one that Recover returns.
      The files are any that keep [WritableLaws] and [SyncLaws]: they are buffered, a call that
      fails may lose what was in the buffer, what was flushed or synced stays; any call, but
      for an Append of a few bytes to an empty buffer, may fail, and later ones succeed.  [PosixWritableFile] keeps these laws, whatever the calls of
      write and fsync return ([posix_writable_laws], [posix_sync_laws]).  Numbers stay below their bounds
      (2^56 for sequence numbers, 2^64 for files).  The example [failed_append_forgotten] runs
      the code on such a file after one write that failed: Write goes on behind the torn
      record, and later writes are acknowledged and lost.  An Add to the table in memory is one
      step here; that readers may run between its accesses is [skiplist_linearizable].
    - The files of the database: Get finds the newest entry of all files
      ([version_get_newest]) if levels and files are in the order that [tree_ok] states,
      which the output of a table in memory keeps at the level that is picked for it
      ([memtable_output_keeps_order]); a compaction of level 0 takes the least set of files
      that shares no key with the rest ([compaction_inputs]); and the manifest gives back
      the version that was current ([manifest_recovery]).  They hold for every
      [Comparator] with [ComparatorLaws]; what reading a table returns is a parameter with
      the hypothesis [table_read], which [read_table] satisfies on sorted entries.
    - Functional behaviour on every input, failures included: DER elements and integers,
      varints, UTF-8, required and unknown fields, closing of handles; due timers fire in
      order whatever their callbacks do, as long as they make no timer due
      ([run_timers_fires_due]); moving a
      date ([gmtime_adj_spec], on the Gregorian calendar by [julian_day_calendar], for
      offsets that keep the products in an [int]); a
      lookup in the table in memory at any snapshot gets the last update of its key up to
      it ([memtable_snapshot_reads]); a walk over the hash table meets every object once
      ([doall_visits]); any bytes are a batch or refused
      ([iterate_any_bytes]).
    - Round trips between each writer and its reader, that of whole nanopb messages
      included ([pb_roundtrip]: static fields of every type, with required, optional and
      repeated presence, nested to any depth; [pb_decode_records] covers the input that
      the encoder would not produce: any order, repetitions, unknown fields), and that of
      LevelDB's batches ([write_batch_roundtrip]) and version edits
      ([version_edit_roundtrip], where Clear leaves the compaction pointers as they were).
    - Bounds: no sequence of builder calls leaves a fixed buffer ([cbb_fixed_stays_inside]),
      the encoder never writes outside of its stream ([pb_encode_buffer_full]), the poll
      timeout fits an [int]; the lemma [gmtime_adj_overflow] shows an [int] product that
      overflows, the example [block_value_overflow] a sum of two lengths.
    - Termination: every loop has a bound in terms of its input, except where the
      application's callbacks decide ([log_reading_ends] for any file); there [zero_timeout_restart_never_ends] shows that
      [uv__run_timers] may run for ever.

    ** Bounds and fuel

    Loops over the input recurse on it.  [loop] and the recursive functions take fuel that
    their callers compute from the input (bytes left, entries of the field table, size of
    the heap, open builders, handles of the loop, fragments of a record, bytes of a file,
    restart points of a block; a search of the skip list needs a round for each key and
    each of the twelve levels; a write looks for room twice, because a round switches the
    table in memory at most once), or a depth where the recursion follows
    pointers (submessages and extensions in nanopb, at most the nesting of the message;
    [kMaxDepth] in ber.c); the theorems show that no run ends in [NoFuel] when the fuel
    is at least the stated bound.  Sizes are 64-bit; offsets are those of a 64-bit system.

    ** Not modelled

    gRPC core, Firestore core and abseil are C++ over threads, sockets and completion queues.
    Of LevelDB, the choice and the running of compactions, the table files, iterators over
    versions, the caches and the POSIX environment but for the files that are written are not modelled; [LdbWrite] takes the
    background thread as the changes that writers see of it, [LdbRecover] the manifest's
    version and the result of BuildTable as given, [LdbManifest] the writing of the
    manifest's file; manual compactions, the destructor, the list of snapshots and the
    properties of the database are left out.  Of [CBB], discarding a child that has an open
    child itself: C leaves the handles below it usable, and the model stops.
    The rest of BoringSSL, its cryptography and TLS, needs the
    mathematics of the algorithms or calls the operating system.  The rest of
    libuv consists of system calls.  The generated nanopb tables are data.  The memory
    allocator, the callbacks of the application and the contents of fresh memory are
    parameters ([CEnv], [PbEnv], [LoopEnv]).  Pointers are integers: conversions between
    pointer types and the provenance of pointers are not checked. *)
From stdpp Require Import base list numbers sorting.
From Stdlib Require Import ZArith Lia Bool.

#[global] Open Scope Z_scope.

(** * Machine integers

    A C integer of width [w] is a [Z]; every place where the C code reduces
    modulo [2^w] writes the reduction out. *)

Definition u8 (x : Z) : Z := x mod 2 ^ 8.
Definition u16 (x : Z) : Z := x mod 2 ^ 16.
Definition u32 (x : Z) : Z := x mod 2 ^ 32.
Definition u64 (x : Z) : Z := x mod 2 ^ 64.

(** Conversion of an unsigned [w]-bit value to the signed type of that width. *)
Definition to_signed (w x : Z) : Z :=
  if x mod 2 ^ w <? 2 ^ (w - 1) then x mod 2 ^ w else x mod 2 ^ w - 2 ^ w.

Definition s8 (x : Z) : Z := to_signed 8 x.
Definition s16 (x : Z) : Z := to_signed 16 x.
Definition s32 (x : Z) : Z := to_signed 32 x.
Definition s64 (x : Z) : Z := to_signed 64 x.

Notation is_byte b := (0 <= b < 256).
Notation is_bytes := (Forall (fun b : Z => 0 <= b < 256)).

(** A C [bool] or [int] used as a truth value. *)
Definition b2z (b : bool) : Z := if b then 1 else 0.

(** * Little-endian and big-endian byte strings *)

Fixpoint le_bytes (n : nat) (v : Z) : list Z :=
  match n with
  | O => []
  | S n => v mod 256 :: le_bytes n (v / 256)
  end.

Fixpoint le_val (l : list Z) : Z :=
  match l with
  | [] => 0
  | b :: l => b + 256 * le_val l
  end.

Fixpoint be_val_acc (acc : Z) (l : list Z) : Z :=
  match l with
  | [] => acc
  | b :: l => be_val_acc (256 * acc + b) l
  end.

Definition be_val (l : list Z) : Z := be_val_acc 0 l.

Definition be_bytes (n : nat) (v : Z) : list Z := rev (le_bytes n v).

(** * Automation *)

Create HintDb cbytes.

(** Reduces the literal powers of two that come from the word widths. *)
Ltac norm_pow2 :=
  change (2 ^ 8) with 256 in *;
  change (2 ^ 16) with 65536 in *;
  change (2 ^ 32) with 4294967296 in *;
  change (2 ^ 64) with 18446744073709551616 in *.

(** Linear arithmetic with division and remainder by literals. *)
Ltac zdiv_lia := norm_pow2; Z.div_mod_to_equations; lia.

(** Decides the boolean comparisons a definition branches on. *)
Ltac bool_cases :=
  repeat match goal with
  | |- context [?a <? ?b] => destruct (Z.ltb_spec a b)
  | |- context [?a <=? ?b] => destruct (Z.leb_spec a b)
  | |- context [?a =? ?b] => destruct (Z.eqb_spec a b)
  end.

(** Boolean comparison hypotheses as arithmetic. *)
Ltac to_prop :=
  repeat match goal with
  | H : _ && _ = true |- _ => apply andb_true_iff in H; destruct H
  | H : _ || _ = false |- _ => apply orb_false_iff in H; destruct H
  | H : negb _ = true |- _ => apply negb_true_iff in H
  | H : negb _ = false |- _ => apply negb_false_iff in H
  | H : (_ <? _) = true |- _ => apply Z.ltb_lt in H
  | H : (_ <? _) = false |- _ => apply Z.ltb_ge in H
  | H : (_ <=? _) = true |- _ => apply Z.leb_le in H
  | H : (_ <=? _) = false |- _ => apply Z.leb_gt in H
  | H : (_ =? _) = true |- _ => apply Z.eqb_eq in H
  | H : (_ =? _) = false |- _ => apply Z.eqb_neq in H
  end.

(** * Lemmas on words *)

Lemma u64_small x : 0 <= x < 2 ^ 64 -> u64 x = x.
Proof. intros; unfold u64; apply Z.mod_small; lia. Qed.

Lemma u32_small x : 0 <= x < 2 ^ 32 -> u32 x = x.
Proof. intros; unfold u32; apply Z.mod_small; lia. Qed.

Lemma u8_small x : 0 <= x < 256 -> u8 x = x.
Proof. intros; unfold u8; apply Z.mod_small; lia. Qed.

Lemma u64_range x : 0 <= u64 x < 2 ^ 64.
Proof. unfold u64; apply Z.mod_pos_bound; lia. Qed.

Lemma u32_range x : 0 <= u32 x < 2 ^ 32.
Proof. unfold u32; apply Z.mod_pos_bound; lia. Qed.

Lemma u8_range x : is_byte (u8 x).
Proof. unfold u8; apply Z.mod_pos_bound; lia. Qed.

Lemma to_signed_mod w x : 0 < w -> (to_signed w x) mod 2 ^ w = x mod 2 ^ w.
Proof.
  intros Hw. unfold to_signed. pose proof (Z.pow_pos_nonneg 2 w ltac:(lia) ltac:(lia)).
  destruct (x mod 2 ^ w <? 2 ^ (w - 1)).
  - apply Z.mod_mod; lia.
  - rewrite <- (Z_mod_plus_full (x mod 2 ^ w - 2 ^ w) 1 (2 ^ w)).
    replace (x mod 2 ^ w - 2 ^ w + 1 * 2 ^ w) with (x mod 2 ^ w) by lia.
    apply Z.mod_mod; lia.
Qed.

Lemma to_signed_id w x : 0 < w -> - 2 ^ (w - 1) <= x < 2 ^ (w - 1) -> to_signed w x = x.
Proof.
  intros Hw Hx. unfold to_signed.
  assert (E : 2 ^ w = 2 * 2 ^ (w - 1)) by (rewrite <- Z.pow_succ_r by lia; f_equal; lia).
  destruct (Z_lt_dec x 0).
  - rewrite <- (Z_mod_plus_full x 1 (2 ^ w)), Z.mod_small by lia.
    destruct (Z.ltb_spec (x + 1 * 2 ^ w) (2 ^ (w - 1))); lia.
  - rewrite Z.mod_small by lia. destruct (Z.ltb_spec x (2 ^ (w - 1))); lia.
Qed.

Lemma s32_small x : - 2 ^ 31 <= x < 2 ^ 31 -> s32 x = x.
Proof. intros H. by apply to_signed_id. Qed.

Lemma s64_small x : - 2 ^ 63 <= x < 2 ^ 63 -> s64 x = x.
Proof. intros H. by apply to_signed_id. Qed.

Lemma to_signed_range w x : 0 < w -> - 2 ^ (w - 1) <= to_signed w x < 2 ^ (w - 1).
Proof.
  intros Hw. unfold to_signed.
  assert (E : 2 ^ w = 2 * 2 ^ (w - 1)) by (rewrite <- Z.pow_succ_r by lia; f_equal; lia).
  pose proof (Z.pow_pos_nonneg 2 (w - 1) ltac:(lia) ltac:(lia)).
  pose proof (Z.mod_pos_bound x (2 ^ w) ltac:(lia)).
  destruct (Z.ltb_spec (x mod 2 ^ w) (2 ^ (w - 1))); lia.
Qed.

(** Disjoint bit ranges: or is addition. *)
Lemma lor_shiftl_add a b n :
  0 <= n -> 0 <= a < 2 ^ n -> Z.lor a (Z.shiftl b n) = a + b * 2 ^ n.
Proof.
  intros Hn Ha. rewrite <- Z.shiftl_mul_pow2 by lia.
  symmetry.
  rewrite <- Z.lxor_lor.
  - apply Z.add_nocarry_lxor. apply Z.bits_inj'. intros i Hi.
    rewrite Z.land_spec, Z.bits_0.
    destruct (Z_lt_dec i n).
    + rewrite Z.shiftl_spec_low by lia. apply andb_false_r.
    + rewrite <- (Z.mod_small a (2 ^ n)) by lia.
      rewrite Z.mod_pow2_bits_high by lia. reflexivity.
  - apply Z.bits_inj'. intros i Hi.
    rewrite Z.land_spec, Z.bits_0.
    destruct (Z_lt_dec i n).
    + rewrite Z.shiftl_spec_low by lia. apply andb_false_r.
    + rewrite <- (Z.mod_small a (2 ^ n)) by lia.
      rewrite Z.mod_pow2_bits_high by lia. reflexivity.
Qed.

(** Masks and shifts as arithmetic. *)
Lemma land_0x7F x : Z.land x 0x7F = x mod 128.
Proof. change 0x7F with (Z.ones 7). by rewrite Z.land_ones by lia. Qed.

Lemma land_0xFF x : Z.land x 0xFF = x mod 256.
Proof. change 0xFF with (Z.ones 8). by rewrite Z.land_ones by lia. Qed.

Lemma shiftr_div x n : 0 <= n -> Z.shiftr x n = x / 2 ^ n.
Proof. intros. by rewrite Z.shiftr_div_pow2. Qed.

Lemma lor_add_shifted a b n :
  0 <= n -> 0 <= a < 2 ^ n -> Z.lor a (b * 2 ^ n) = a + b * 2 ^ n.
Proof. intros. rewrite <- (Z.shiftl_mul_pow2 b n) at 1 by lia. by apply lor_shiftl_add. Qed.

Lemma lor_range a b n : 0 <= n -> 0 <= a < 2 ^ n -> 0 <= b < 2 ^ n -> 0 <= Z.lor a b < 2 ^ n.
Proof.
  intros Hn Ha Hb. assert (H0 : 0 <= Z.lor a b) by (apply Z.lor_nonneg; lia).
  split; [done|]. destruct (Z.eq_dec (Z.lor a b) 0) as [-> |]; [lia|].
  apply Z.log2_lt_pow2; [lia|]. rewrite Z.log2_lor by lia.
  apply Z.max_lub_lt.
  - destruct (Z.eq_dec a 0) as [-> |]; [|apply Z.log2_lt_pow2; lia].
    destruct (Z.eq_dec n 0) as [-> |]; [|cbn; lia]. change (2 ^ 0) with 1 in *.
    assert (b = 0) as -> by lia. done.
  - destruct (Z.eq_dec b 0) as [-> |]; [|apply Z.log2_lt_pow2; lia].
    destruct (Z.eq_dec n 0) as [-> |]; [|cbn; lia]. change (2 ^ 0) with 1 in *.
    assert (a = 0) as -> by lia. done.
Qed.

(** The top bit of a byte. *)
Lemma land_0x80 b : is_byte b -> (Z.land b 0x80 =? 0) = (b <? 128).
Proof.
  intros Hb.
  assert (E : forall n, (n < 256)%nat ->
    (Z.land (Z.of_nat n) 0x80 =? 0) = (Z.of_nat n <? 128)).
  { intros n Hn. do 256 (destruct n as [|n]; [reflexivity|]). lia. }
  rewrite <- (Z2Nat.id b) by lia. apply E. lia.
Qed.

(** * Lemmas on byte strings *)

Lemma pow_128_succ n : 128 ^ Z.of_nat (S n) = 128 * 128 ^ Z.of_nat n.
Proof. by rewrite Nat2Z.inj_succ, Z.pow_succ_r by lia. Qed.

Lemma le_bytes_length n v : length (le_bytes n v) = n.
Proof. revert v. induction n as [|n IH]; intros v; cbn; [done|]. by rewrite IH. Qed.

Lemma le_bytes_bytes n v : is_bytes (le_bytes n v).
Proof. revert v. induction n; intros v; cbn; constructor; auto. apply Z.mod_pos_bound. lia. Qed.

Lemma le_val_range l : is_bytes l -> 0 <= le_val l < 256 ^ Z.of_nat (length l).
Proof.
  induction 1 as [|b l Hb Hl IH]; [cbn; lia|]. cbn [le_val length].
  rewrite Nat2Z.inj_succ, Z.pow_succ_r by lia. lia.
Qed.

Lemma fixed_bytes n l : length l = n -> is_bytes l -> le_bytes n (le_val l) = l.
Proof.
  intros <- Hl. induction Hl as [|b l Hb Hl IH]; [done|]. cbn [length le_val le_bytes].
  replace ((b + 256 * le_val l) / 256) with (le_val l) by zdiv_lia.
  rewrite IH. f_equal. zdiv_lia.
Qed.

Lemma le_val_le_bytes n v : 0 <= v < 256 ^ Z.of_nat n -> le_val (le_bytes n v) = v.
Proof.
  revert v. induction n as [|n IH]; intros v Hv.
  - change (256 ^ Z.of_nat 0) with 1 in Hv. cbn. lia.
  - rewrite Nat2Z.inj_succ, Z.pow_succ_r in Hv by lia. cbn [le_bytes le_val]. rewrite IH.
    + zdiv_lia.
    + split; [apply Z.div_pos|apply Z.div_lt_upper_bound]; lia.
Qed.

Lemma le_val_app l1 l2 : le_val (l1 ++ l2) = le_val l1 + 256 ^ Z.of_nat (length l1) * le_val l2.
Proof.
  induction l1 as [|b l1 IH]; cbn [app le_val length].
  - change (256 ^ Z.of_nat 0) with 1. lia.
  - rewrite IH, Nat2Z.inj_succ, Z.pow_succ_r by lia. ring.
Qed.

Lemma be_val_acc_le acc l :
  be_val_acc acc l = acc * 256 ^ Z.of_nat (length l) + le_val (rev l).
Proof.
  revert acc. induction l as [|b l IH]; intros acc; cbn [be_val_acc rev length].
  - change (256 ^ Z.of_nat 0) with 1. cbn. lia.
  - rewrite IH, le_val_app, length_rev, Nat2Z.inj_succ, Z.pow_succ_r by lia. cbn [le_val]. ring.
Qed.

Lemma be_val_rev l : be_val l = le_val (rev l).
Proof. unfold be_val. rewrite be_val_acc_le. lia. Qed.

Lemma is_bytes_rev l : is_bytes l -> is_bytes (rev l).
Proof. intros Hl. apply List.Forall_rev, Hl. Qed.

Lemma be_val_range l : is_bytes l -> 0 <= be_val l < 256 ^ Z.of_nat (length l).
Proof.
  intros Hl. rewrite be_val_rev, <- length_rev. by apply le_val_range, is_bytes_rev.
Qed.

Lemma be_bytes_length n v : length (be_bytes n v) = n.
Proof. unfold be_bytes. by rewrite length_rev, le_bytes_length. Qed.

Lemma be_bytes_bytes n v : is_bytes (be_bytes n v).
Proof. apply is_bytes_rev, le_bytes_bytes. Qed.

Lemma be_bytes_be_val l : is_bytes l -> be_bytes (length l) (be_val l) = l.
Proof.
  intros Hl. unfold be_bytes. rewrite be_val_rev, fixed_bytes.
  - apply rev_involutive.
  - apply length_rev.
  - by apply is_bytes_rev.
Qed.

Lemma be_val_be_bytes n v : 0 <= v < 256 ^ Z.of_nat n -> be_val (be_bytes n v) = v.
Proof.
  intros Hv. unfold be_bytes. rewrite be_val_rev, rev_involutive. by apply le_val_le_bytes.
Qed.

(** * Facts about every byte, by evaluation *)

Definition all_bytes : list Z := seqZ 0 256.

Lemma byte_in b : is_byte b -> In b all_bytes.
Proof. intros Hb. apply list_elem_of_In. by apply elem_of_seqZ. Qed.

Lemma forall_bytes (P : Z -> bool) : forallb P all_bytes = true -> forall b, is_byte b -> P b = true.
Proof. intros H b Hb. by apply (proj1 (forallb_forall P all_bytes) H b), byte_in. Qed.

#[export] Hint Resolve le_bytes_bytes be_bytes_bytes is_bytes_rev u8_range : cbytes.
#[export] Hint Rewrite le_bytes_length be_bytes_length : cbytes.

(** ** Sorted and filtered lists *)

Lemma sorted_lookup {A} (R : A -> A -> Prop) l : forall i j a b, StronglySorted R l -> (i < j)%nat -> l !! i = Some a -> l !! j = Some b -> R a b.
Proof.
  induction l as [|x l IH]; intros i j a b Hs Hij Hi Hj; [done|]. apply StronglySorted_inv in Hs as [Hs Hf].
  destruct i as [|i], j as [|j]; cbn in *; [lia| |lia|by apply (IH i j); [|lia| |]]. injection Hi as <-. by apply (Forall_lookup_1 _ _ _ _ Hf Hj).
Qed.

Lemma sorted_from_lookup {A} (R : A -> A -> Prop) l : (forall i j a b, (i < j)%nat -> l !! i = Some a -> l !! j = Some b -> R a b) -> StronglySorted R l.
Proof.
  induction l as [|x l IH]; intros H; [constructor|]. constructor; [apply IH; intros i j a b Hij; apply (H (S i) (S j)); lia|].
  apply Forall_forall. intros y Hy. apply list_elem_of_lookup in Hy as [j Ej]. apply (H 0%nat (S j)); [lia|done|done].
Qed.

Lemma filter_sorted {A} (R : A -> A -> Prop) (P : A -> Prop) `{!forall x, Decision (P x)} l : StronglySorted R l -> StronglySorted R (filter P l).
Proof.
  induction 1 as [|x l _ IH Hx]; [constructor|]. rewrite filter_cons. destruct (decide (P x)); [|done]. constructor; [done|]. rewrite Forall_forall in *. intros y [_ Hy]%list_elem_of_filter. by apply Hx.
Qed.

Lemma filter_keeps {A} (P : A -> Prop) `{!forall x, Decision (P x)} l : Forall P l -> filter P l = l.
Proof. induction 1 as [|x l Hx _ IH]; [done|]. by rewrite filter_cons_True, IH. Qed.

Lemma filter_ext_in {A} (P Q : A -> Prop) `{!forall x, Decision (P x)} `{!forall x, Decision (Q x)} (l : list A) : (forall x, x ∈ l -> P x <-> Q x) -> filter P l = filter Q l.
Proof.
  induction l as [|x l IH]; intros Hpq; [done|]. rewrite !filter_cons, IH by (intros y Hy; apply Hpq; by right). pose proof (Hpq x ltac:(by left)). by do 2 case_decide; try tauto.
Qed.
