(* ===== verification/Cmem.v ===== *)
(** The C machine under nanopb: a byte-addressed memory with [malloc]ed blocks,
    and the state-and-error monad the C functions are translated into.

    - [world]: the memory ([mem], a partial map from addresses to bytes, so that
      an access outside every live object is visible), the live [malloc] blocks
      ([blocks], base address to size) and the first address never handed out
      ([brk]).
    - [SM T A]: a computation that owns one C struct of type [T] (the stream a
      nanopb function gets by pointer), reads and writes the [world], and either
      produces a value ([Ok]), makes the C function return [false] ([Err], which
      keeps the struct and the world as the C code leaves them), has undefined
      behaviour ([UB]) or runs out of fuel ([NoFuel]).
    - [loop]: the loops of the C code, with one induction principle for them all. *)
From stdpp Require Import base gmap list numbers.
From Stdlib Require Import ZArith Lia.
From S2P Require Import Prelude.

(** * Memory *)

Record world := World {
  mem : gmap Z Z;
  blocks : gmap Z Z;
  brk : Z;
}.

(** The C library's allocator, as far as the code can see it: the bytes a fresh
    block holds and whether a request succeeds are up to the library. *)
Class CEnv := {
  junk : Z -> Z;
  alloc_ok : Z -> Z -> bool;
}.

Definition NULL : Z := 0.

Fixpoint mem_load (m : gmap Z Z) (p : Z) (n : nat) : option (list Z) :=
  match n with
  | O => Some []
  | S n => match m !! p, mem_load m (p + 1) n with
           | Some b, Some l => Some (b :: l)
           | _, _ => None
           end
  end.

Fixpoint mem_store (m : gmap Z Z) (p : Z) (l : list Z) : option (gmap Z Z) :=
  match l with
  | [] => Some m
  | b :: l => match m !! p with
              | Some _ => mem_store (<[p := b]> m) (p + 1) l
              | None => None
              end
  end.

(** Bytes of a new object at [p], and the removal of an object. *)
Fixpoint mem_fill (m : gmap Z Z) (p : Z) (l : list Z) : gmap Z Z :=
  match l with
  | [] => m
  | b :: l => mem_fill (<[p := b]> m) (p + 1) l
  end.

Fixpoint mem_clear (m : gmap Z Z) (p : Z) (n : nat) : gmap Z Z :=
  match n with
  | O => m
  | S n => mem_clear (delete p m) (p + 1) n
  end.

(** * The monad *)

Inductive res (T A : Type) : Type :=
| Ok (a : A) (s : T) (w : world)
| Err (s : T) (w : world)
| UB
| NoFuel.
Arguments Ok {T A} _ _ _.
Arguments Err {T A} _ _.
Arguments UB {T A}.
Arguments NoFuel {T A}.

Definition SM (T A : Type) : Type := T -> world -> res T A.

Definition ret {T A} (a : A) : SM T A := fun s w => Ok a s w.

Definition bind {T A B} (m : SM T A) (k : A -> SM T B) : SM T B := fun s w =>
  match m s w with
  | Ok a s w => k a s w
  | Err s w => Err s w
  | UB => UB
  | NoFuel => NoFuel
  end.

Declare Scope sm_scope.
Delimit Scope sm_scope with sm.
Notation "'let*' x ':=' m 'in' k" := (bind m (fun x => k))
  (at level 10, x pattern, m at level 100, k at level 200) : sm_scope.
Notation "m ;; k" := (bind m (fun _ => k))
  (at level 100, k at level 200, right associativity) : sm_scope.
#[global] Open Scope sm_scope.

(** [return false;] *)
Definition fail {T A} : SM T A := fun s w => Err s w.
Definition ub {T A} : SM T A := fun _ _ => UB.
Definition nofuel {T A} : SM T A := fun _ _ => NoFuel.

Definition get {T} : SM T T := fun s w => Ok s s w.
Definition put {T} (s : T) : SM T unit := fun _ w => Ok tt s w.
Definition modify {T} (f : T -> T) : SM T unit := fun s w => Ok tt (f s) w.

(** [if (!c) return false;] *)
Definition guard {T} (c : bool) : SM T unit := if c then ret tt else fail.

(** [assert(c)]: a failed assertion ends the program. *)
Definition assert_ {T} (c : bool) : SM T unit := if c then ret tt else ub.

(** A value that is there unless an assertion fails or a read leaves its object. *)
Definition must {T A} (o : option A) : SM T A := match o with Some a => ret a | None => ub end.

(** A call whose result the caller tests: [None] is [false]. *)
Definition attempt {T A} (m : SM T A) : SM T (option A) := fun s w =>
  match m s w with
  | Ok a s w => Ok (Some a) s w
  | Err s w => Ok None s w
  | UB => UB
  | NoFuel => NoFuel
  end.

(** A call on another struct (a local substream): the caller gets the result and
    the struct the callee leaves. *)
Definition on_stream {T T' A} (sub : T') (m : SM T' A) : SM T (option A * T') := fun s w =>
  match m sub w with
  | Ok a sub w => Ok (Some a, sub) s w
  | Err sub w => Ok (None, sub) s w
  | UB => UB
  | NoFuel => NoFuel
  end.

(** A call of a function that takes no stream. *)
Definition no_stream {T A} (m : SM unit A) : SM T A := fun s w =>
  match m tt w with
  | Ok a _ w => Ok a s w
  | Err _ w => Err s w
  | UB => UB
  | NoFuel => NoFuel
  end.

(** The loops of the C code: [body] returns the next state or leaves the loop. *)
Fixpoint loop {T St R} (fuel : nat) (body : St -> SM T (St + R)) (st : St) : SM T R :=
  match fuel with
  | O => nofuel
  | S fuel => let* x := body st in
              match x with
              | inl st => loop fuel body st
              | inr r => ret r
              end
  end.

Lemma loop_more {T St R} (body : St -> SM T (St + R)) n : forall m st s w x s' w',
  loop n body st s w = Ok x s' w' -> (n <= m)%nat -> loop m body st s w = Ok x s' w'.
Proof.
  induction n as [|n IH]; intros [|m] st s w x s' w' Hrun Hm; [done..|lia|]. cbn in *. unfold bind in *.
  destruct (body st s w) as [[st1|r1] s1 w1| | |]; try done. eapply IH; [exact Hrun|lia].
Qed.

(** Fully applied operations compute. *)
Arguments ret {T A} a s w /.
Arguments bind {T A B} m k s w /.
Arguments fail {T A} s w /.
Arguments ub {T A} s w /.
Arguments nofuel {T A} s w /.
Arguments get {T} s w /.
Arguments put {T} s _ w /.
Arguments modify {T} f s w /.
Arguments attempt {T A} m s w /.
Arguments on_stream {T T' A} sub m s w /.

(** * Memory accesses *)

Definition load_bytes {T} (p n : Z) : SM T (list Z) := fun s w =>
  match mem_load (mem w) p (Z.to_nat n) with
  | Some l => Ok l s w
  | None => UB
  end.

Definition store_bytes {T} (p : Z) (l : list Z) : SM T unit := fun s w =>
  match mem_store (mem w) p l with
  | Some m => Ok tt s (World m (blocks w) (brk w))
  | None => UB
  end.

(** An [n]-byte unsigned little-endian integer (or pointer, or [bool]). *)
Definition load_u {T} (n : nat) (p : Z) : SM T Z :=
  let* l := load_bytes p (Z.of_nat n) in ret (le_val l).

Definition store_u {T} (n : nat) (p v : Z) : SM T unit := store_bytes p (le_bytes n v).

Definition load_ptr {T} : Z -> SM T Z := load_u 8.
Definition store_ptr {T} : Z -> Z -> SM T unit := store_u 8.

Definition memset {T} (p b n : Z) : SM T unit := store_bytes p (repeat b (Z.to_nat n)).

Definition memcpy {T} (dst src n : Z) : SM T unit :=
  let* l := load_bytes src n in store_bytes dst l.

Definition align16 (n : Z) : Z := (n + 15) / 16 * 16.

(** The bytes a fresh [n]-byte object at [p] holds. *)
Definition junk_bytes `{CEnv} (p : Z) (n : nat) : list Z :=
  map (fun i => u8 (junk (p + Z.of_nat i))) (seq 0 n).

(** [realloc(ptr, size)] for [size > 0]: a new block that keeps the common prefix
    of the old one, or NULL with the old block untouched.  A pointer that is not
    the base of a live block is undefined behaviour. *)
Definition realloc `{CEnv} {T} (p size : Z) : SM T Z := fun s w =>
  if negb (alloc_ok (brk w) size)
  then if (p =? NULL) || bool_decide (is_Some (blocks w !! p)) then Ok NULL s w else UB
  else
    let base := brk w in
    let fresh := junk_bytes base (Z.to_nat size) in
    let brk' := base + Z.max 16 (align16 size) in
    if p =? NULL
    then Ok base s (World (mem_fill (mem w) base fresh) (<[base := size]> (blocks w)) brk')
    else match blocks w !! p with
         | None => UB
         | Some old =>
             match mem_load (mem w) p (Z.to_nat (Z.min old size)) with
             | None => UB
             | Some keep =>
                 let data := keep ++ drop (length keep) fresh in
                 Ok base s (World (mem_fill (mem_clear (mem w) p (Z.to_nat old)) base data)
                                  (<[base := size]> (delete p (blocks w))) brk')
             end
         end.

(** An allocation whose bytes a structured state keeps: the address of the block, or
    NULL. *)
Definition OPENSSL_malloc `{CEnv} {T} (n : Z) : SM T Z := fun s w =>
  if alloc_ok (brk w) n then Ok (brk w) s (World (mem w) (blocks w) (brk w + Z.max 16 (align16 n)))
  else Ok NULL s w.

(** [free(ptr)]: NULL is ignored; a pointer that is not the base of a live block
    (a double free) is undefined behaviour. *)
Definition free {T} (p : Z) : SM T unit := fun s w =>
  if p =? NULL then Ok tt s w
  else match blocks w !! p with
       | None => UB
       | Some n => Ok tt s (World (mem_clear (mem w) p (Z.to_nat n)) (delete p (blocks w)) (brk w))
       end.

(** A local variable of [n] bytes whose address the code takes: a fresh object
    that lives for the call of [k]. *)
Definition with_local {T A} (n : nat) (init : Z) (k : Z -> SM T A) : SM T A := fun s w =>
  let p := brk w in
  let drop w := World (mem_clear (mem w) p n) (blocks w) (brk w) in
  match k p s (World (mem_fill (mem w) p (le_bytes n init)) (blocks w) (p + 16)) with
  | Ok a s w => Ok a s (drop w)
  | Err s w => Err s (drop w)
  | UB => UB
  | NoFuel => NoFuel
  end.
