(* ===== verification/Hoare.v ===== *)
(** Reasoning principles for the monad of [Cmem]: evaluation lemmas for its
    operations, a two-relation invariant logic ([keeps]) closed under every
    construct of the monad, and memory lemmas (load after store, framing). *)
From stdpp Require Import base gmap list numbers.
From Stdlib Require Import ZArith Lia.
From S2P Require Import Prelude Cmem.

(** * Invariants

    A [step_rel] relates the stream and world before a call to those after it, for
    a call that returns normally ([rok]) and one that returns false ([rerr]). *)
Record step_rel (T : Type) := mk_step_rel {
  rok : T -> world -> T -> world -> Prop;
  rerr : T -> world -> T -> world -> Prop;
}.
Arguments mk_step_rel {T} _ _.
Arguments rok {T} _ _ _ _ _.
Arguments rerr {T} _ _ _ _ _.

Class StepRel {T} (R : step_rel T) := {
  step_refl s w : rok R s w s w;
  step_trans s w s1 w1 s2 w2 : rok R s w s1 w1 -> rok R s1 w1 s2 w2 -> rok R s w s2 w2;
  step_err s w s1 w1 s2 w2 : rok R s w s1 w1 -> rerr R s1 w1 s2 w2 -> rerr R s w s2 w2;
  step_fail s w : rerr R s w s w;
}.

Section keeps.
Context {T : Type} (R : step_rel T).

Definition keeps_at {A} (m : SM T A) (s : T) (w : world) : Prop :=
  match m s w with
  | Ok _ s' w' => rok R s w s' w'
  | Err s' w' => rerr R s w s' w'
  | UB | NoFuel => True
  end.

Definition keeps {A} (m : SM T A) : Prop := forall s w, keeps_at m s w.

Context `{!StepRel R}.

Lemma keeps_ret {A} (a : A) : keeps (ret a).
Proof. intros s w. apply step_refl. Qed.

Lemma keeps_fail {A} : keeps (fail (A := A)).
Proof. intros s w. apply step_fail. Qed.

Lemma keeps_ub {A} : keeps (ub (A := A)).
Proof. intros s w. exact I. Qed.

Lemma keeps_nofuel {A} : keeps (nofuel (A := A)).
Proof. intros s w. exact I. Qed.

Lemma keeps_get : keeps get.
Proof. intros s w. apply step_refl. Qed.

Lemma keeps_bind {A B} (m : SM T A) (k : A -> SM T B) :
  keeps m -> (forall a, keeps (k a)) -> keeps (bind m k).
Proof.
  intros Hm Hk s w. specialize (Hm s w). unfold keeps_at, bind in *.
  destruct (m s w) as [a s1 w1|s1 w1| |]; [|exact Hm|exact I|exact I].
  specialize (Hk a s1 w1). unfold keeps_at in Hk.
  destruct (k a s1 w1); eauto using step_trans, step_err.
Qed.

Lemma keeps_loop {St X} fuel (body : St -> SM T (St + X)) st :
  (forall st, keeps (body st)) -> keeps (loop fuel body st).
Proof.
  intros Hb. revert st. induction fuel as [|fuel IH]; intros st; [apply keeps_nofuel|].
  apply keeps_bind; [apply Hb|]. intros [st'|r]; [apply IH|apply keeps_ret].
Qed.

(** A failing call whose result is tested: the continuation must still return
    false in the relation. *)
Lemma keeps_attempt {A B} (m : SM T A) (k : option A -> SM T B) :
  keeps m -> (forall a, keeps (k (Some a))) ->
  (forall s0 w0 s w, rerr R s0 w0 s w ->
     match k None s w with
     | Ok _ s' w' => rok R s0 w0 s' w'
     | Err s' w' => rerr R s0 w0 s' w'
     | _ => True
     end) ->
  keeps (bind (attempt m) k).
Proof.
  intros Hm Hk Hn s w. specialize (Hm s w). unfold keeps_at, bind, attempt in *.
  destruct (m s w) as [a s1 w1|s1 w1| |]; [|apply Hn, Hm|exact I|exact I].
  specialize (Hk a s1 w1). unfold keeps_at in Hk.
  destruct (k (Some a) s1 w1); eauto using step_trans, step_err.
Qed.

Lemma keeps_ext {A} (m m' : SM T A) :
  (forall s w, m s w = m' s w) -> keeps m' -> keeps m.
Proof. intros E Hm s w. unfold keeps_at. rewrite E. apply Hm. Qed.

End keeps.

Create HintDb keeps.
#[export] Hint Resolve keeps_ret keeps_fail keeps_ub keeps_nofuel keeps_get : keeps.

(** Operations that leave the stream and the world alone keep every invariant. *)
Lemma keeps_load_bytes {T} (R : step_rel T) `{!StepRel R} p n :
  keeps R (load_bytes p n).
Proof.
  intros s w. unfold keeps_at, load_bytes.
  destruct (mem_load (mem w) p (Z.to_nat n)); [apply step_refl|exact I].
Qed.

Lemma keeps_load_u {T} (R : step_rel T) `{!StepRel R} n p :
  keeps R (load_u n p).
Proof. apply keeps_bind; [apply _|apply keeps_load_bytes, _|intros; apply keeps_ret, _]. Qed.

Lemma keeps_load_ptr {T} (R : step_rel T) `{!StepRel R} p :
  keeps R (load_ptr p).
Proof. apply keeps_load_u, _. Qed.

#[export] Hint Resolve keeps_load_bytes keeps_load_u keeps_load_ptr : keeps.

(** One step of the walk through a function's body. *)
Ltac keeps_step :=
  match goal with
  | |- keeps _ (bind (attempt _) _) => apply keeps_attempt; [apply _| | |]
  | |- keeps _ (bind _ _) => apply keeps_bind; [apply _| |intros]
  | |- keeps _ (loop _ _ _) => apply keeps_loop; [apply _|intros]
  | |- keeps _ (if ?b then _ else _) => destruct b
  | |- keeps _ (match ?x with _ => _ end) => destruct x
  | |- keeps _ (let _ := _ in _) => cbv zeta
  | |- keeps _ _ => solve [auto with keeps typeclass_instances]
  end.
Ltac keeps := repeat keeps_step.

(** * Memory lemmas *)

Lemma mem_load_length m p n l : mem_load m p n = Some l -> length l = n.
Proof.
  revert p l. induction n as [|n IH]; intros p l; cbn.
  - intros [= <-]. reflexivity.
  - destruct (m !! p); [|done]. destruct (mem_load m (p + 1) n) eqn:E; [|done].
    intros [= <-]. cbn. f_equal. eauto.
Qed.

Lemma mem_load_eq m m' p n :
  (forall a, p <= a < p + Z.of_nat n -> m !! a = m' !! a) -> mem_load m p n = mem_load m' p n.
Proof.
  revert p. induction n as [|n IH]; intros p Hm; [done|]. cbn.
  rewrite (Hm p) by lia. rewrite (IH (p + 1)); [done|]. intros; apply Hm; lia.
Qed.

Lemma mem_load_sub m m' p n l : m ⊆ m' -> mem_load m p n = Some l -> mem_load m' p n = Some l.
Proof.
  intros Hsub. revert p l. induction n as [|n IH]; intros p l; cbn; [done|].
  destruct (m !! p) as [b|] eqn:Eb; [|done]. rewrite (lookup_weaken _ _ _ _ Eb Hsub).
  destruct (mem_load m (p + 1) n) eqn:E; [|done]. rewrite (IH _ _ E). done.
Qed.

Lemma mem_load_app m p l1 l2 :
  mem_load m p (length (l1 ++ l2)) = Some (l1 ++ l2) <->
  mem_load m p (length l1) = Some l1 /\
  mem_load m (p + Z.of_nat (length l1)) (length l2) = Some l2.
Proof.
  revert p. induction l1 as [|b l1 IH]; intros p; cbn [app length mem_load].
  - rewrite Z.add_0_r. split; [intros ->; done|intros [_ ->]; done].
  - specialize (IH (p + 1)).
    replace (p + Z.of_nat (S (length l1))) with (p + 1 + Z.of_nat (length l1)) by lia.
    destruct (m !! p) as [c|]; [|split; [done|intros []; done]].
    destruct (mem_load m (p + 1) (length (l1 ++ l2))) as [l|].
    + destruct (mem_load m (p + 1) (length l1)) as [l'|].
      * split.
        -- intros E. injection E as -> ->. destruct IH as [IH _].
           destruct (IH eq_refl) as [E1 E2]. injection E1 as ->. done.
        -- intros [E1 E2]. injection E1 as -> ->. destruct IH as [_ IH].
           specialize (IH (conj eq_refl E2)). injection IH as ->. done.
      * split; [|intros []; done]. intros E. injection E as -> ->. destruct IH as [IH _].
        destruct (IH eq_refl). done.
    + split; [done|]. destruct (mem_load m (p + 1) (length l1)) as [l'|]; [|intros []; done].
      intros [E1 E2]. injection E1 as -> ->. destruct IH as [_ IH].
      specialize (IH (conj eq_refl E2)). done.
Qed.

Lemma mem_store_lookup_ne m p l m' a :
  mem_store m p l = Some m' -> ~ (p <= a < p + Z.of_nat (length l)) -> m' !! a = m !! a.
Proof.
  revert m p. induction l as [|b l IH]; intros m p; cbn; [by intros [= <-]|].
  destruct (m !! p); [|done]. intros E Ha. rewrite (IH _ _ E) by lia.
  apply lookup_insert_ne. lia.
Qed.

Lemma mem_store_dom m p l m' : mem_store m p l = Some m' -> dom m' = dom m.
Proof.
  revert m p. induction l as [|b l IH]; intros m p; cbn; [by intros [= <-]|].
  destruct (m !! p) eqn:Ep; [|done]. intros E. rewrite (IH _ _ E), dom_insert_L.
  apply elem_of_dom_2 in Ep. set_solver.
Qed.

Lemma mem_store_some m p l :
  (forall a, p <= a < p + Z.of_nat (length l) -> is_Some (m !! a)) ->
  exists m', mem_store m p l = Some m'.
Proof.
  revert m p. induction l as [|b l IH]; intros m p Hm; cbn; [eauto|].
  destruct (Hm p) as [c ->]; [cbn; lia|]. apply IH. intros a Ha.
  rewrite lookup_insert_ne by lia. apply Hm. cbn; lia.
Qed.

Lemma mem_load_store m p l m' :
  mem_store m p l = Some m' -> mem_load m' p (length l) = Some l.
Proof.
  revert m p. induction l as [|b l IH]; intros m p; cbn; [done|].
  destruct (m !! p); [|done]. intros E.
  rewrite (IH _ _ E). rewrite (mem_store_lookup_ne _ _ _ _ _ E) by lia.
  by rewrite lookup_insert_eq.
Qed.

Lemma mem_load_store_ne m p l m' q n :
  mem_store m p l = Some m' ->
  q + Z.of_nat n <= p \/ p + Z.of_nat (length l) <= q ->
  mem_load m' q n = mem_load m q n.
Proof.
  intros E Hd. apply mem_load_eq. intros a Ha. apply (mem_store_lookup_ne _ _ _ _ _ E). lia.
Qed.

Lemma mem_load_dom m p n l :
  mem_load m p n = Some l -> forall a, p <= a < p + Z.of_nat n -> is_Some (m !! a).
Proof.
  revert p l. induction n as [|n IH]; intros p l; cbn [mem_load]; [intros _ a Ha; lia|].
  destruct (m !! p) eqn:Ep; [|done]. destruct (mem_load m (p + 1) n) eqn:E; [|done].
  intros _ a Ha. destruct (decide (a = p)) as [->|]; [by eexists|]. apply (IH _ _ E). lia.
Qed.

Lemma mem_fill_lookup_ne m p l a :
  ~ (p <= a < p + Z.of_nat (length l)) -> mem_fill m p l !! a = m !! a.
Proof.
  revert m p. induction l as [|b l IH]; intros m p Ha; [done|]. cbn [mem_fill length] in *.
  rewrite IH by lia. apply lookup_insert_ne. lia.
Qed.

Lemma mem_clear_lookup m p n a :
  mem_clear m p n !! a = if decide (p <= a < p + Z.of_nat n) then None else m !! a.
Proof.
  revert m p. induction n as [|n IH]; intros m p; cbn [mem_clear].
  - destruct (decide _); [lia|done].
  - rewrite IH. destruct (decide (p + 1 <= a < p + 1 + Z.of_nat n)).
    + destruct (decide _); [done|lia].
    + destruct (decide (a = p)) as [->|].
      * rewrite lookup_delete_eq. destruct (decide _); [done|]. lia.
      * rewrite lookup_delete_ne by done. destruct (decide _); [lia|done].
Qed.

(** A fresh object that is dropped again leaves the memory as it was. *)
Lemma mem_clear_fill m p l :
  (forall a, p <= a < p + Z.of_nat (length l) -> m !! a = None) ->
  mem_clear (mem_fill m p l) p (length l) = m.
Proof.
  intros Hm. apply map_eq. intros a. rewrite mem_clear_lookup.
  destruct (decide _); [by rewrite Hm|by apply mem_fill_lookup_ne].
Qed.

(** Every object lies below the first address never handed out. *)
Definition below_brk (w : world) : Prop := forall a, is_Some (mem w !! a) -> a < brk w.

(** The world a call with a local variable starts in. *)
Definition local_world (n : nat) (init : Z) (w : world) : world :=
  World (mem_fill (mem w) (brk w) (le_bytes n init)) (blocks w) (brk w + 16).

(** A callee that leaves the memory alone: only the address of the variable is
    used up. *)
Lemma with_local_same {T A} n init (k : Z -> SM T A) s w r :
  below_brk w -> k (brk w) s (local_world n init w) = r (local_world n init w) ->
  (exists a s', r = fun w => Ok a s' w) \/ (exists s', r = fun w => Err s' w) ->
  with_local n init k s w = r (World (mem w) (blocks w) (brk w + 16)).
Proof.
  intros Hb E Hr. unfold with_local. cbv zeta. fold (local_world n init w). rewrite E.
  assert (Em : mem_clear (mem (local_world n init w)) (brk w) n = mem w).
  { cbn. rewrite <- (le_bytes_length n init) at 2. apply mem_clear_fill. intros a Ha.
    destruct (mem w !! a) eqn:Ea; [|done]. specialize (Hb a (ex_intro _ _ Ea)). lia. }
  destruct Hr as [(a & s' & ->)|(s' & ->)]; by rewrite Em.
Qed.

(** * Evaluation of memory operations *)

Lemma load_bytes_ok {T} (s : T) w p l :
  mem_load (mem w) p (length l) = Some l ->
  load_bytes p (Z.of_nat (length l)) s w = Ok l s w.
Proof. intros E. unfold load_bytes. by rewrite Nat2Z.id, E. Qed.

Lemma store_bytes_ok {T} (s : T) w p l :
  (forall a, p <= a < p + Z.of_nat (length l) -> is_Some (mem w !! a)) ->
  exists m', mem_store (mem w) p l = Some m' /\
             store_bytes p l s w = Ok tt s (World m' (blocks w) (brk w)).
Proof.
  intros Hm. destruct (mem_store_some _ _ _ Hm) as [m' E]. exists m'. split; [done|].
  unfold store_bytes. by rewrite E.
Qed.
