(* ===== verification/PbTypes.v ===== *)
(** nanopb's data (pb.h, pb_common.h, pb_encode.h, pb_decode.h) and the iterator over the
    fields of a message (pb_common.c), in the
    configuration the pod is built with: PB_FIELD_32BIT, PB_ENABLE_MALLOC,
    PB_NO_PACKED_STRUCTS, 64-bit integers and pointers, error messages on.

    Field tables ([pb_field_t] arrays) are constant data: [rodata] maps the
    address of each entry to the entry, so [iter->pos++] is [pos + 32] and
    dereferencing a pointer that is not an entry of a table is undefined.
    Messages, callbacks and extensions live in the memory of [Cmem]. *)
From stdpp Require Import base gmap list strings numbers.
From Stdlib Require Import ZArith Lia.
From S2P Require Import Prelude Cmem.

(** * pb.h: field types *)

Definition PB_LTYPE_BOOL := 0x00.
Definition PB_LTYPE_VARINT := 0x01.
Definition PB_LTYPE_UVARINT := 0x02.
Definition PB_LTYPE_SVARINT := 0x03.
Definition PB_LTYPE_FIXED32 := 0x04.
Definition PB_LTYPE_FIXED64 := 0x05.
Definition PB_LTYPE_LAST_PACKABLE := 0x05.
Definition PB_LTYPE_BYTES := 0x06.
Definition PB_LTYPE_STRING := 0x07.
Definition PB_LTYPE_SUBMESSAGE := 0x08.
Definition PB_LTYPE_EXTENSION := 0x09.
Definition PB_LTYPE_FIXED_LENGTH_BYTES := 0x0A.
Definition PB_LTYPE_MASK := 0x0F.

Definition PB_HTYPE_REQUIRED := 0x00.
Definition PB_HTYPE_OPTIONAL := 0x10.
Definition PB_HTYPE_REPEATED := 0x20.
Definition PB_HTYPE_ONEOF := 0x30.
Definition PB_HTYPE_MASK := 0x30.

Definition PB_ATYPE_STATIC := 0x00.
Definition PB_ATYPE_POINTER := 0x80.
Definition PB_ATYPE_CALLBACK := 0x40.
Definition PB_ATYPE_MASK := 0xC0.

Definition PB_ATYPE (x : Z) : Z := Z.land x PB_ATYPE_MASK.
Definition PB_HTYPE (x : Z) : Z := Z.land x PB_HTYPE_MASK.
Definition PB_LTYPE (x : Z) : Z := Z.land x PB_LTYPE_MASK.

(** [pb_size_t] is [uint32_t]. *)
Definition PB_SIZE_MAX : Z := 2 ^ 32 - 1.
Definition PB_MAX_REQUIRED_FIELDS : Z := 64.
Definition SIZE_MAX : Z := 2 ^ 64 - 1.

(** [sizeof(pb_field_t)]: four-byte tag, one-byte type (padded to four), four
    four-byte members and an eight-byte pointer. *)
Definition sizeof_pb_field_t : Z := 32.

Record pb_field_t := mk_field {
  tag : Z;
  type_ : Z;
  data_offset : Z;
  size_offset : Z;
  data_size : Z;
  array_size : Z;
  ptr : Z;
}.

(** [PB_LAST_FIELD] *)
Definition PB_LAST_FIELD : pb_field_t := mk_field 0 0 0 0 0 0 NULL.

(** Wire types. *)
Definition PB_WT_VARINT : Z := 0.
Definition PB_WT_64BIT : Z := 1.
Definition PB_WT_STRING : Z := 2.
Definition PB_WT_32BIT : Z := 5.

(** Member offsets of the structs that live in memory:
    [pb_bytes_array_t] (size, bytes), [pb_callback_t] (funcs, arg),
    [pb_extension_type_t] (decode, encode, arg) and
    [pb_extension_t] (type, dest, next, found). *)
Definition offsetof_bytes : Z := 4.
Definition PB_BYTES_ARRAY_T_ALLOCSIZE (n : Z) : Z := u64 (n + offsetof_bytes).
Definition callback_funcs (p : Z) : Z := p.
Definition callback_arg (p : Z) : Z := p + 8.
Definition exttype_decode (p : Z) : Z := p.
Definition exttype_encode (p : Z) : Z := p + 8.
Definition exttype_arg (p : Z) : Z := p + 16.
Definition ext_type (p : Z) : Z := p.
Definition ext_dest (p : Z) : Z := p + 8.
Definition ext_next (p : Z) : Z := p + 16.
Definition ext_found (p : Z) : Z := p + 24.

(** * pb_common.h: the field iterator *)

Record pb_field_iter_t := mk_iter {
  start : Z;
  pos : Z;
  required_field_index : Z;
  dest_struct : Z;
  pData : Z;
  pSize : Z;
}.

(** * Streams *)

(** [callback] of an input stream: [buf_read] or a function of the application. *)
Inductive icallback := buf_read_cb | user_read_cb (f : Z).

(** [callback] of an output stream: NULL (a sizing stream), [buf_write] or a
    function of the application. *)
Inductive ocallback := null_cb | buf_write_cb | user_write_cb (f : Z).

Record pb_istream_t := mk_istream {
  icb : icallback;
  istate : Z;
  bytes_left : Z;
  ierrmsg : option string;
}.

Record pb_ostream_t := mk_ostream {
  ocb : ocallback;
  ostate : Z;
  max_size : Z;
  bytes_written : Z;
  oerrmsg : option string;
}.

Definition PB_OSTREAM_SIZING : pb_ostream_t := mk_ostream null_cb NULL 0 0 None.

(** The input and output streams both carry an error message. *)
Class HasErrmsg (T : Type) := {
  errmsg : T -> option string;
  set_errmsg : option string -> T -> T;
}.

#[export] Instance istream_errmsg : HasErrmsg pb_istream_t := {
  errmsg := ierrmsg;
  set_errmsg e s := mk_istream (icb s) (istate s) (bytes_left s) e;
}.

#[export] Instance ostream_errmsg : HasErrmsg pb_ostream_t := {
  errmsg := oerrmsg;
  set_errmsg e s := mk_ostream (ocb s) (ostate s) (max_size s) (bytes_written s) e;
}.

(** [PB_SET_ERROR]: the first message is kept. *)
Definition PB_SET_ERROR `{HasErrmsg T} (msg : string) (s : T) : T :=
  set_errmsg (match errmsg s with Some e => Some e | None => Some msg end) s.

(** [PB_RETURN_ERROR] *)
Definition PB_RETURN_ERROR `{HasErrmsg T} {A} (msg : string) : SM T A :=
  modify (PB_SET_ERROR msg);; fail.

(** * What the application supplies

    The constant field tables and the functions that nanopb calls through
    pointers: stream callbacks, field callbacks and extension handlers. *)
Class PbEnv := {
  pb_cenv :: CEnv;
  rodata : gmap Z pb_field_t;
  user_read : Z -> Z -> SM pb_istream_t (list Z);
  user_write : Z -> list Z -> SM pb_ostream_t unit;
  user_decode : Z -> Z -> Z -> SM pb_istream_t unit;
  user_encode : Z -> Z -> Z -> SM pb_ostream_t unit;
  user_ext_decode : Z -> Z -> Z -> Z -> SM pb_istream_t unit;
  user_ext_encode : Z -> Z -> SM pb_ostream_t unit;
}.

(** [*p] for [p : const pb_field_t *]. *)
Definition field_at `{PbEnv} {T} (p : Z) : SM T pb_field_t :=
  match rodata !! p with
  | Some f => ret f
  | None => ub
  end.

(** A bound on the length of any walk through a table without a repetition. *)
Definition table_fuel `{PbEnv} : nat := S (size rodata).

(** * pb_common.c: the iterator over a message's field table. *)

Section common.
Context `{PbEnv}.

(** The iterator's [pData]/[pSize] are updated together. *)
Definition pb_field_iter_begin {T} (fields dest : Z) : SM T (bool * pb_field_iter_t) :=
  let* f := field_at fields in
  let pdata := if dest =? NULL then NULL else dest + data_offset f in
  let psize := if dest =? NULL then NULL else pdata + size_offset f in
  ret (negb (tag f =? 0), mk_iter fields fields 0 dest pdata psize).

Definition pb_field_iter_next {T} (iter : pb_field_iter_t) : SM T (bool * pb_field_iter_t) :=
  let* prev_field := field_at (pos iter) in
  if tag prev_field =? 0 then ret (false, iter)
  else
    let pos' := pos iter + sizeof_pb_field_t in
    let* f := field_at pos' in
    if tag f =? 0 then
      let* (_, iter) := pb_field_iter_begin (start iter) (dest_struct iter) in
      ret (false, iter)
    else
      let prev_size := data_size prev_field in
      if (PB_HTYPE (type_ prev_field) =? PB_HTYPE_ONEOF) &&
         (PB_HTYPE (type_ f) =? PB_HTYPE_ONEOF) &&
         (data_offset f =? PB_SIZE_MAX)
      then
        ret (true, mk_iter (start iter) pos' (required_field_index iter)
                           (dest_struct iter) (pData iter) (pSize iter))
      else
        let prev_size :=
          if (PB_ATYPE (type_ prev_field) =? PB_ATYPE_STATIC) &&
             (PB_HTYPE (type_ prev_field) =? PB_HTYPE_REPEATED)
          then u64 (prev_size * array_size prev_field)
          else if PB_ATYPE (type_ prev_field) =? PB_ATYPE_POINTER then 8
          else prev_size in
        let index :=
          if PB_HTYPE (type_ prev_field) =? PB_HTYPE_REQUIRED
          then u32 (required_field_index iter + 1) else required_field_index iter in
        let pdata := pData iter + prev_size + data_offset f in
        ret (true, mk_iter (start iter) pos' index (dest_struct iter)
                           pdata (pdata + size_offset f)).

(** The do-while loop leaves when the iterator is back where it started. *)
Definition pb_field_iter_find {T} (iter : pb_field_iter_t) (tag_ : Z)
  : SM T (bool * pb_field_iter_t) :=
  let start := pos iter in
  loop table_fuel (fun iter =>
    let* f := field_at (pos iter) in
    if (tag f =? tag_) && negb (PB_LTYPE (type_ f) =? PB_LTYPE_EXTENSION)
    then ret (inr (true, iter))
    else
      let* (_, iter) := pb_field_iter_next iter in
      if negb (pos iter =? start) then ret (inl iter) else ret (inr (false, iter))) iter.

End common.
