(* ===== verification/PbEncode.v ===== *)
(** pb_encode.c: output streams, the primitive encoders, the field encoders and
    the message encoder.  The recursion through submessages ([pb_encode] calls
    [encode_field], which calls [pb_enc_submessage], which calls [pb_encode]) is
    tied in [pb_encode] on an explicit nesting depth. *)
From stdpp Require Import base gmap list strings numbers.
From Stdlib Require Import ZArith Lia.
From S2P Require Import Prelude Cmem PbTypes.

(** Where the [buf] argument of [pb_write] points: NULL, the message (memory), or
    a local array of the caller. *)
Inductive wsrc := WNull | WMem (p : Z) | WLocal (l : list Z).

Section encode.
Context `{PbEnv}.

Definition read_src {T} (buf : wsrc) (count : Z) : SM T (list Z) :=
  match buf with
  | WNull => ub
  | WMem p => load_bytes p count
  | WLocal l => ret (take (Z.to_nat count) l)
  end.

(** * pb_ostream_t implementation *)

Definition set_ostate (p : Z) (s : pb_ostream_t) : pb_ostream_t :=
  mk_ostream (ocb s) p (max_size s) (bytes_written s) (oerrmsg s).

Definition set_bytes_written (n : Z) (s : pb_ostream_t) : pb_ostream_t :=
  mk_ostream (ocb s) (ostate s) (max_size s) n (oerrmsg s).

Definition buf_write (buf : wsrc) (count : Z) : SM pb_ostream_t unit :=
  let* s := get in
  let dest := ostate s in
  modify (set_ostate (dest + count));;
  let* l := read_src buf count in
  store_bytes dest l.

Definition pb_ostream_from_buffer (buf bufsize : Z) : pb_ostream_t :=
  mk_ostream buf_write_cb buf bufsize 0 None.

(** [stream->callback(stream, buf, count)] *)
Definition call_ocallback (buf : wsrc) (count : Z) : SM pb_ostream_t unit :=
  let* s := get in
  match ocb s with
  | null_cb => ub
  | buf_write_cb => buf_write buf count
  | user_write_cb f => let* l := read_src buf count in user_write f l
  end.

Definition is_null_cb (c : ocallback) : bool :=
  match c with null_cb => true | _ => false end.

(** [count] is a [size_t]. *)
Definition pb_write (buf : wsrc) (count : Z) : SM pb_ostream_t unit :=
  let count := u64 count in
  let* s := get in
  (if (0 <? count) && negb (is_null_cb (ocb s)) then
     if (u64 (bytes_written s + count) <? bytes_written s)
        || (max_size s <? u64 (bytes_written s + count))
     then PB_RETURN_ERROR "stream full"
     else
       let* r := attempt (call_ocallback buf count) in
       match r with
       | Some _ => ret tt
       | None => PB_RETURN_ERROR "io error"
       end
   else ret tt);;
  modify (fun s => set_bytes_written (u64 (bytes_written s + count)) s).

(** * Primitive encoders *)

Definition pb_encode_varint (value : Z) : SM pb_ostream_t unit :=
  if value <=? 0x7F then pb_write (WLocal [u8 value]) 1
  else
    let* buffer := loop 11 (fun vb : Z * list Z =>
      let (value, buffer) := vb in
      if value =? 0 then ret (inr buffer)
      else ret (inl (Z.shiftr value 7,
                     buffer ++ [u8 (Z.lor (Z.land value 0x7F) 0x80)]))) (value, []) in
    let i := length buffer in
    let buffer := alter (fun b => Z.land b 0x7F) (i - 1)%nat buffer in
    pb_write (WLocal buffer) (Z.of_nat i).

Definition pb_encode_svarint (value : Z) : SM pb_ostream_t unit :=
  let zigzagged :=
    if value <? 0 then u64 (Z.lnot (u64 (Z.shiftl (u64 value) 1)))
    else u64 (Z.shiftl (u64 value) 1) in
  pb_encode_varint zigzagged.

Definition pb_encode_fixed32 (value : Z) : SM pb_ostream_t unit :=
  let* val := load_u 4 value in
  let bytes := [u8 (Z.land val 0xFF); u8 (Z.land (Z.shiftr val 8) 0xFF);
                u8 (Z.land (Z.shiftr val 16) 0xFF); u8 (Z.land (Z.shiftr val 24) 0xFF)] in
  pb_write (WLocal bytes) 4.

Definition pb_encode_fixed64 (value : Z) : SM pb_ostream_t unit :=
  let* val := load_u 8 value in
  let bytes := [u8 (Z.land val 0xFF); u8 (Z.land (Z.shiftr val 8) 0xFF);
                u8 (Z.land (Z.shiftr val 16) 0xFF); u8 (Z.land (Z.shiftr val 24) 0xFF);
                u8 (Z.land (Z.shiftr val 32) 0xFF); u8 (Z.land (Z.shiftr val 40) 0xFF);
                u8 (Z.land (Z.shiftr val 48) 0xFF); u8 (Z.land (Z.shiftr val 56) 0xFF)] in
  pb_write (WLocal bytes) 8.

Definition pb_encode_tag (wiretype field_number : Z) : SM pb_ostream_t unit :=
  let tag := Z.lor (u64 (Z.shiftl field_number 3)) wiretype in
  pb_encode_varint tag.

(** The switch of [pb_encode_tag_for_field]; [None] is its [default]. *)
Definition wiretype_of_ltype (ltype : Z) : option Z :=
  if (ltype =? PB_LTYPE_BOOL) || (ltype =? PB_LTYPE_VARINT)
     || (ltype =? PB_LTYPE_UVARINT) || (ltype =? PB_LTYPE_SVARINT) then Some PB_WT_VARINT
  else if ltype =? PB_LTYPE_FIXED32 then Some PB_WT_32BIT
  else if ltype =? PB_LTYPE_FIXED64 then Some PB_WT_64BIT
  else if (ltype =? PB_LTYPE_BYTES) || (ltype =? PB_LTYPE_STRING)
          || (ltype =? PB_LTYPE_SUBMESSAGE)
          || (ltype =? PB_LTYPE_FIXED_LENGTH_BYTES) then Some PB_WT_STRING
  else None.

Definition pb_encode_tag_for_field (field : pb_field_t) : SM pb_ostream_t unit :=
  match wiretype_of_ltype (PB_LTYPE (type_ field)) with
  | Some wiretype => pb_encode_tag wiretype (tag field)
  | None => PB_RETURN_ERROR "invalid field type"
  end.

Definition pb_encode_string (buffer : wsrc) (size : Z) : SM pb_ostream_t unit :=
  pb_encode_varint size;;
  pb_write buffer size.

(** * Field encoders *)

Definition safe_read_bool {T} (p : Z) : SM T bool :=
  let* b := load_u 1 p in ret (negb (b =? 0)).

(** The integer of [data_size] bytes at [src], read with the given signedness. *)
Definition load_int (signed : bool) (data_size : Z) (src : Z) : SM pb_ostream_t Z :=
  let view w v := if signed then to_signed w v else v in
  if data_size =? 1 then let* v := load_u 1 src in ret (view 8 v)
  else if data_size =? 2 then let* v := load_u 2 src in ret (view 16 v)
  else if data_size =? 4 then let* v := load_u 4 src in ret (view 32 v)
  else if data_size =? 8 then let* v := load_u 8 src in ret (view 64 v)
  else PB_RETURN_ERROR "invalid data_size".

Definition pb_enc_bool (field : pb_field_t) (src : Z) : SM pb_ostream_t unit :=
  let* b := safe_read_bool src in
  pb_encode_varint (b2z b).

Definition pb_enc_varint (field : pb_field_t) (src : Z) : SM pb_ostream_t unit :=
  let* value := load_int true (data_size field) src in
  pb_encode_varint (u64 value).

Definition pb_enc_uvarint (field : pb_field_t) (src : Z) : SM pb_ostream_t unit :=
  let* value := load_int false (data_size field) src in
  pb_encode_varint value.

Definition pb_enc_svarint (field : pb_field_t) (src : Z) : SM pb_ostream_t unit :=
  let* value := load_int true (data_size field) src in
  pb_encode_svarint value.

Definition pb_enc_fixed64 (field : pb_field_t) (src : Z) : SM pb_ostream_t unit :=
  pb_encode_fixed64 src.

Definition pb_enc_fixed32 (field : pb_field_t) (src : Z) : SM pb_ostream_t unit :=
  pb_encode_fixed32 src.

Definition pb_enc_bytes (field : pb_field_t) (src : Z) : SM pb_ostream_t unit :=
  if src =? NULL then pb_encode_string WNull 0
  else
    let* size := load_u 4 src in
    if (PB_ATYPE (type_ field) =? PB_ATYPE_STATIC)
       && (u64 (data_size field - offsetof_bytes) <? size)
    then PB_RETURN_ERROR "bytes size exceeded"
    else pb_encode_string (WMem (src + offsetof_bytes)) size.

(** One round of the bounded [strlen] loop. *)
Definition string_step {T} (max_size p size : Z) : SM T (Z + Z) :=
  if size <? max_size then
    let* c := load_u 1 (p + size) in
    if c =? 0 then ret (inr size) else ret (inl (size + 1))
  else ret (inr size).

(** The fuel bounds the length of any string the memory can hold. *)
Definition string_size {T} (max_size p : Z) : SM T Z := fun s w =>
  loop (S (S (size (mem w)))) (string_step max_size p) 0 s w.

Definition pb_enc_string (field : pb_field_t) (src : Z) : SM pb_ostream_t unit :=
  let max_size := if PB_ATYPE (type_ field) =? PB_ATYPE_POINTER then SIZE_MAX
                  else data_size field in
  if src =? NULL then pb_encode_string WNull 0
  else
    let* size := string_size max_size src in
    pb_encode_string (WMem src) size.

Definition pb_enc_fixed_length_bytes (field : pb_field_t) (src : Z) : SM pb_ostream_t unit :=
  pb_encode_string (WMem src) (data_size field).

(** * Everything that can reach a submessage *)

Section with_pb_encode.
(** [pb_encode(stream, fields, src_struct)], one nesting level down. *)
Variable pb_encode : Z -> Z -> SM pb_ostream_t unit.

(** [substream] after the second call: [bytes_written], [state] and [errmsg] go
    back to the parent stream. *)
Definition copy_back (sub s : pb_ostream_t) : pb_ostream_t :=
  mk_ostream (ocb s) (ostate sub) (max_size s)
             (u64 (bytes_written s + bytes_written sub)) (oerrmsg sub).

Definition pb_encode_submessage (fields src_struct : Z) : SM pb_ostream_t unit :=
  let* (r, substream) := on_stream PB_OSTREAM_SIZING (pb_encode fields src_struct) in
  match r with
  | None => modify (set_errmsg (oerrmsg substream));; fail
  | Some _ =>
      let size := bytes_written substream in
      pb_encode_varint size;;
      let* s := get in
      if is_null_cb (ocb s) then pb_write WNull size
      else if max_size s <? u64 (bytes_written s + size) then PB_RETURN_ERROR "stream full"
      else
        let* (status, substream) :=
          on_stream (mk_ostream (ocb s) (ostate s) size 0 None) (pb_encode fields src_struct) in
        modify (copy_back substream);;
        if negb (bytes_written substream =? size)
        then PB_RETURN_ERROR "submsg size changed"
        else match status with Some _ => ret tt | None => fail end
  end.

Definition pb_enc_submessage (field : pb_field_t) (src : Z) : SM pb_ostream_t unit :=
  if ptr field =? NULL then PB_RETURN_ERROR "invalid field descriptor"
  else pb_encode_submessage (ptr field) src.

(** The table of field encoders; [None] is the NULL entry of extensions. *)
Definition PB_ENCODERS : list (option (pb_field_t -> Z -> SM pb_ostream_t unit)) := [
  Some pb_enc_bool; Some pb_enc_varint; Some pb_enc_uvarint; Some pb_enc_svarint;
  Some pb_enc_fixed32; Some pb_enc_fixed64; Some pb_enc_bytes; Some pb_enc_string;
  Some pb_enc_submessage; None; Some pb_enc_fixed_length_bytes ].

(** [for (i = 0; i < count; i++) { func(stream, field, p); p += data_size; }] *)
Definition for_each_item (item : Z -> SM pb_ostream_t unit) (pdata data_size count : Z)
  : SM pb_ostream_t unit :=
  loop (S (Z.to_nat count)) (fun ip : Z * Z =>
    let (i, p) := ip in
    if i <? count then item p;; ret (inl (i + 1, p + data_size))
    else ret (inr tt)) (0, pdata).

Definition encode_array (field : pb_field_t) (pdata count : Z)
    (func : pb_field_t -> Z -> SM pb_ostream_t unit) : SM pb_ostream_t unit :=
  if count =? 0 then ret tt
  else if negb (PB_ATYPE (type_ field) =? PB_ATYPE_POINTER) && (array_size field <? count)
  then PB_RETURN_ERROR "array max size exceeded"
  else if PB_LTYPE (type_ field) <=? PB_LTYPE_LAST_PACKABLE then
    pb_encode_tag PB_WT_STRING (tag field);;
    let* size :=
      if PB_LTYPE (type_ field) =? PB_LTYPE_FIXED32 then ret (u64 (4 * count))
      else if PB_LTYPE (type_ field) =? PB_LTYPE_FIXED64 then ret (u64 (8 * count))
      else
        let* (r, sizestream) :=
          on_stream PB_OSTREAM_SIZING (for_each_item (func field) pdata (data_size field) count) in
        match r with
        | Some _ => ret (bytes_written sizestream)
        | None => fail
        end in
    pb_encode_varint size;;
    let* s := get in
    if is_null_cb (ocb s) then pb_write WNull size
    else for_each_item (func field) pdata (data_size field) count
  else
    for_each_item (fun p =>
      pb_encode_tag_for_field field;;
      if (PB_ATYPE (type_ field) =? PB_ATYPE_POINTER)
         && ((PB_LTYPE (type_ field) =? PB_LTYPE_STRING)
             || (PB_LTYPE (type_ field) =? PB_LTYPE_BYTES))
      then let* q := load_ptr p in func field q
      else func field p) pdata (data_size field) count.

(** All bytes of the field are zero (the catch-all comparison). *)
Definition all_zero {T} (pdata data_size : Z) : SM T bool :=
  loop (S (Z.to_nat data_size)) (fun i : Z =>
    if i <? data_size then
      let* b := load_u 1 (pdata + i) in
      if negb (b =? 0) then ret (inr false) else ret (inl (i + 1))
    else ret (inr true)) 0.

(** A message struct is nested in its parent's bytes, so [depth] bounds the
    nesting of static submessages. *)
Fixpoint pb_check_proto3_default_value {T} (depth : nat) (field : pb_field_t) (pdata : Z)
  : SM T bool :=
  match depth with
  | O => nofuel
  | S depth =>
      let type := type_ field in
      let psize := pdata + size_offset field in
      let singular : SM T bool :=
        if (PB_ATYPE type =? PB_ATYPE_STATIC) && (PB_LTYPE type =? PB_LTYPE_BYTES) then
          let* size := load_u 4 pdata in ret (size =? 0)
        else if (PB_ATYPE type =? PB_ATYPE_STATIC) && (PB_LTYPE type =? PB_LTYPE_STRING) then
          let* c := load_u 1 pdata in ret (c =? 0)
        else if (PB_ATYPE type =? PB_ATYPE_STATIC)
                && (PB_LTYPE type =? PB_LTYPE_FIXED_LENGTH_BYTES) then
          ret (data_size field =? 0)
        else if (PB_ATYPE type =? PB_ATYPE_STATIC)
                && (PB_LTYPE type =? PB_LTYPE_SUBMESSAGE) then
          let* (more, iter) := pb_field_iter_begin (ptr field) pdata in
          if negb more then ret true
          else loop table_fuel (fun iter =>
            let* f := field_at (pos iter) in
            let* z := pb_check_proto3_default_value depth f (pData iter) in
            if negb z then ret (inr false)
            else let* (more, iter) := pb_field_iter_next iter in
                 if more then ret (inl iter) else ret (inr true)) iter
        else if (PB_ATYPE type =? PB_ATYPE_POINTER)
                && (PB_LTYPE_LAST_PACKABLE <? PB_LTYPE type) then
          let* p := load_ptr pdata in ret (p =? NULL)
        else all_zero pdata (data_size field) in
      if PB_HTYPE type =? PB_HTYPE_REQUIRED then ret false
      else if PB_HTYPE type =? PB_HTYPE_REPEATED then
        if negb (size_offset field =? 0) then
          let* n := load_u 4 psize in ret (n =? 0)
        else if PB_ATYPE type =? PB_ATYPE_STATIC then ret false
        else singular
      else if PB_HTYPE type =? PB_HTYPE_ONEOF then
        let* n := load_u 4 psize in ret (n =? 0)
      else if (PB_HTYPE type =? PB_HTYPE_OPTIONAL) && negb (size_offset field =? 0) then
        let* b := safe_read_bool psize in ret (negb b)
      else singular
  end.

(** [func(stream, field, p)]; calling the NULL entry is undefined. *)
Definition call_encoder (func : option (pb_field_t -> Z -> SM pb_ostream_t unit))
  (field : pb_field_t) (p : Z) : SM pb_ostream_t unit :=
  match func with Some f => f field p | None => ub end.

Variable depth : nat.

(** [pSize] is [None] while it points at the local [implicit_has]. *)
Definition encode_basic_field (field : pb_field_t) (pdata : Z) : SM pb_ostream_t unit :=
  let* func := match PB_ENCODERS !! Z.to_nat (PB_LTYPE (type_ field)) with
               | Some f => ret f
               | None => ub
               end in
  let psize := if negb (size_offset field =? 0) then Some (pdata + size_offset field) else None in
  let* implicit_has :=
    if negb (size_offset field =? 0) then ret false
    else if PB_HTYPE (type_ field) =? PB_HTYPE_OPTIONAL then
      let* z := pb_check_proto3_default_value depth field pdata in ret (negb z)
    else ret true in
  let* (pdata, implicit_has) :=
    if PB_ATYPE (type_ field) =? PB_ATYPE_POINTER then
      let* p := load_ptr pdata in ret (p, negb (p =? NULL))
    else ret (pdata, implicit_has) in
  let htype := PB_HTYPE (type_ field) in
  if htype =? PB_HTYPE_REQUIRED then
    if pdata =? NULL then PB_RETURN_ERROR "missing required field"
    else pb_encode_tag_for_field field;; call_encoder func field pdata
  else if htype =? PB_HTYPE_OPTIONAL then
    let* has := match psize with
                | Some p => safe_read_bool p
                | None => ret implicit_has
                end in
    if has then pb_encode_tag_for_field field;; call_encoder func field pdata else ret tt
  else if htype =? PB_HTYPE_REPEATED then
    let* count := match psize with
                  | Some p => load_u 4 p
                  | None => ret (array_size field)
                  end in
    encode_array field pdata count (call_encoder func)
  else if htype =? PB_HTYPE_ONEOF then
    let* which := match psize with
                  | Some p => load_u 4 p
                  | None => ub
                  end in
    if which =? tag field then
      pb_encode_tag_for_field field;; call_encoder func field pdata
    else ret tt
  else PB_RETURN_ERROR "invalid field type".

Definition encode_callback_field (fp pdata : Z) : SM pb_ostream_t unit :=
  let* encode := load_ptr (callback_funcs pdata) in
  if negb (encode =? NULL) then
    let* r := attempt (user_encode encode fp (callback_arg pdata)) in
    match r with
    | Some _ => ret tt
    | None => PB_RETURN_ERROR "callback error"
    end
  else ret tt.

Definition encode_field (fp pdata : Z) : SM pb_ostream_t unit :=
  let* field := field_at fp in
  let atype := PB_ATYPE (type_ field) in
  if (atype =? PB_ATYPE_STATIC) || (atype =? PB_ATYPE_POINTER)
  then encode_basic_field field pdata
  else if atype =? PB_ATYPE_CALLBACK then encode_callback_field fp pdata
  else PB_RETURN_ERROR "invalid field type".

Definition default_extension_encoder (extension : Z) : SM pb_ostream_t unit :=
  let* type := load_ptr (ext_type extension) in
  let* fp := load_ptr (exttype_arg type) in
  let* field := field_at fp in
  if PB_ATYPE (type_ field) =? PB_ATYPE_POINTER
  then encode_field fp (ext_dest extension)
  else let* dest := load_ptr (ext_dest extension) in encode_field fp dest.

(** Linked lists of extensions live in memory: no acyclic one is longer. *)
Definition chain_fuel {T} : SM T nat := fun s w => Ok (S (size (mem w))) s w.

Definition encode_extension_field (pdata : Z) : SM pb_ostream_t unit :=
  let* extension := load_ptr pdata in
  let* fuel := chain_fuel in
  loop fuel (fun extension =>
    if negb (extension =? NULL) then
      let* type := load_ptr (ext_type extension) in
      let* encode := load_ptr (exttype_encode type) in
      (if negb (encode =? NULL) then user_ext_encode encode extension
       else default_extension_encoder extension);;
      let* next := load_ptr (ext_next extension) in
      ret (inl next)
    else ret (inr tt)) extension.

(** The body of [pb_encode]. *)
Definition pb_encode_fields (fields src_struct : Z) : SM pb_ostream_t unit :=
  let* (more, iter) := pb_field_iter_begin fields src_struct in
  if negb more then ret tt
  else loop table_fuel (fun iter =>
    let* field := field_at (pos iter) in
    (if PB_LTYPE (type_ field) =? PB_LTYPE_EXTENSION
     then encode_extension_field (pData iter)
     else encode_field (pos iter) (pData iter));;
    let* (more, iter) := pb_field_iter_next iter in
    if more then ret (inl iter) else ret (inr tt)) iter.

End with_pb_encode.

(** [depth] is one more than the nesting of submessages in the message. *)
Fixpoint pb_encode (depth : nat) (fields src_struct : Z) : SM pb_ostream_t unit :=
  match depth with
  | O => nofuel
  | S depth => pb_encode_fields (pb_encode depth) depth fields src_struct
  end.

Definition pb_encode_delimited (depth : nat) (fields src_struct : Z) : SM pb_ostream_t unit :=
  pb_encode_submessage (pb_encode depth) fields src_struct.

Definition pb_encode_nullterminated (depth : nat) (fields src_struct : Z) : SM pb_ostream_t unit :=
  pb_encode depth fields src_struct;;
  pb_write (WLocal [0]) 1.

Definition pb_get_encoded_size {T} (depth : nat) (fields src_struct : Z) : SM T Z :=
  let* (r, stream) := on_stream PB_OSTREAM_SIZING (pb_encode depth fields src_struct) in
  match r with
  | Some _ => ret (bytes_written stream)
  | None => fail
  end.

End encode.
