(* ===== verification/PbWire.v ===== *)
(** The wire format as pure functions on byte strings: the specification the
    primitive encoders and decoders are proved against. *)
From stdpp Require Import base list numbers.
From Stdlib Require Import ZArith Lia.
From S2P Require Import Prelude.

(** * Varints: seven bits a byte, least significant group first *)

Fixpoint varint_groups (n : nat) (v : Z) : list Z :=
  match n with
  | O => []
  | S n => if v <? 128 then [v] else (v mod 128 + 128) :: varint_groups n (v / 128)
  end.

Definition varint (v : Z) : list Z := varint_groups 10 v.

Definition zigzag (v : Z) : Z := if v <? 0 then - 2 * v - 1 else 2 * v.

Definition tag_bytes (wiretype field_number : Z) : list Z := varint (8 * field_number + wiretype).

Definition length_delimited (l : list Z) : list Z := varint (Z.of_nat (length l)) ++ l.

(** What a parser of a varint reads back from the groups. *)
Fixpoint groups_val (l : list Z) : Z :=
  match l with
  | [] => 0
  | b :: l => b mod 128 + 128 * groups_val l
  end.

(** A complete varint: all bytes but the last have the top bit. *)
Fixpoint is_varint (l : list Z) : Prop :=
  match l with
  | [] => False
  | [b] => 0 <= b < 128
  | b :: l => 128 <= b < 256 /\ is_varint l
  end.

Lemma div_128_bound n v :
  0 <= v < 128 ^ Z.of_nat (S n) -> 0 <= v / 128 < 128 ^ Z.of_nat n.
Proof.
  rewrite pow_128_succ. intros. split; [apply Z.div_pos|apply Z.div_lt_upper_bound]; lia.
Qed.

Lemma varint_groups_is_varint n v :
  0 <= v < 128 ^ Z.of_nat (S n) -> is_varint (varint_groups (S n) v).
Proof.
  revert v. induction n as [|n IH]; intros v Hv; cbn [varint_groups];
    (destruct (Z.ltb_spec v 128); [cbn; lia|]).
  - change (128 ^ Z.of_nat 1) with 128 in Hv. lia.
  - specialize (IH (v / 128) (div_128_bound _ _ Hv)).
    pose proof (Z.mod_pos_bound v 128 ltac:(lia)).
    destruct (varint_groups (S n) (v / 128)) eqn:E; [done|].
    cbn [varint_groups] in E. rewrite E. cbn [is_varint]. split; [lia|done].
Qed.

Lemma varint_groups_val n v :
  0 <= v < 128 ^ Z.of_nat n -> groups_val (varint_groups n v) = v.
Proof.
  revert v. induction n as [|n IH]; intros v Hv.
  - change (128 ^ Z.of_nat 0) with 1 in Hv. cbn. lia.
  - cbn [varint_groups]. destruct (Z.ltb_spec v 128).
    + cbn. rewrite Z.mod_small; lia.
    + cbn [groups_val]. rewrite IH by (by apply div_128_bound). zdiv_lia.
Qed.

Lemma varint_groups_length n v : (length (varint_groups n v) <= n)%nat.
Proof.
  revert v. induction n as [|n IH]; intros v; cbn; [lia|].
  destruct (v <? 128); cbn; [lia|]. specialize (IH (v / 128)). lia.
Qed.

Lemma pow_128_10 : 2 ^ 64 <= 128 ^ Z.of_nat 10.
Proof. vm_compute. discriminate. Qed.

Lemma varint_is_varint v : 0 <= v < 2 ^ 64 -> is_varint (varint v).
Proof. intros. apply varint_groups_is_varint. pose proof pow_128_10. lia. Qed.

Lemma varint_val v : 0 <= v < 2 ^ 64 -> groups_val (varint v) = v.
Proof. intros. apply varint_groups_val. pose proof pow_128_10. lia. Qed.

Lemma varint_length_max v : (length (varint v) <= 10)%nat.
Proof. apply varint_groups_length. Qed.

Lemma varint_length_min v : (1 <= length (varint v))%nat.
Proof. unfold varint. cbn. destruct (v <? 128); cbn; lia. Qed.

Lemma is_varint_bytes l : is_varint l -> is_bytes l.
Proof.
  induction l as [|b l IH]; [done|]. destruct l as [|c l]; cbn [is_varint].
  - intros. repeat constructor; lia.
  - intros [H1 H2]. constructor; [lia|auto].
Qed.

Lemma varint_bytes v : 0 <= v < 2 ^ 64 -> is_bytes (varint v).
Proof. intros. by apply is_varint_bytes, varint_is_varint. Qed.

(** Shorter values take shorter encodings. *)
Lemma varint_groups_length_bound n k v :
  (0 < k)%nat -> 0 <= v < 128 ^ Z.of_nat k -> (length (varint_groups n v) <= k)%nat.
Proof.
  revert k v. induction n as [|n IH]; intros k v Hk Hv; cbn; [lia|].
  destruct (Z.ltb_spec v 128); cbn; [lia|].
  destruct k as [|[|k]]; [lia|change (128 ^ Z.of_nat 1) with 128 in Hv; lia|].
  specialize (IH (S k) (v / 128) ltac:(lia) (div_128_bound _ _ Hv)). lia.
Qed.

Lemma zigzag_range v : - 2 ^ 63 <= v < 2 ^ 63 -> 0 <= zigzag v < 2 ^ 64.
Proof. unfold zigzag. intros. bool_cases; lia. Qed.

(** * Messages *)

(** The bytes of one field's value for a wire type. *)
Inductive wire_payload : Z -> list Z -> Prop :=
| payload_varint p : is_varint p -> (length p <= 10)%nat -> wire_payload 0 p
| payload_64 l : length l = 8%nat -> wire_payload 1 l
| payload_string l : Z.of_nat (length l) < 2 ^ 32 -> wire_payload 2 (length_delimited l)
| payload_32 l : length l = 4%nat -> wire_payload 5 l.

(** A message: a sequence of tagged values; the index lists the field numbers. *)
Inductive wire_message : list Z -> list Z -> Prop :=
| wire_nil : wire_message [] []
| wire_cons wt n l ns r :
    0 < n < 2 ^ 29 -> wire_payload wt l -> wire_message ns r ->
    wire_message (n :: ns) (tag_bytes wt n ++ l ++ r).

Lemma wire_message_app ns1 ns2 l1 l2 :
  wire_message ns1 l1 -> wire_message ns2 l2 -> wire_message (ns1 ++ ns2) (l1 ++ l2).
Proof.
  induction 1 as [|wt n l ns r Hn Hp Hr IH]; [done|]. intros H2.
  rewrite <- !app_assoc. by apply wire_cons, IH.
Qed.

Lemma wire_message_one wt n l :
  0 < n < 2 ^ 29 -> wire_payload wt l -> wire_message [n] (tag_bytes wt n ++ l).
Proof.
  intros Hn Hp. rewrite <- (app_nil_r l). apply wire_cons; [done|done|constructor].
Qed.

Lemma wire_payload_range wt l : wire_payload wt l -> 0 <= wt < 8.
Proof. destruct 1; lia. Qed.

(** * Varints at the head of a string *)

(** The bytes of a varint of at most [n] bytes at the head of [l]. *)
Inductive vprefix := VDone (p : list Z) | VOverflow | VEof.

Fixpoint varint_prefix (n : nat) (l : list Z) : vprefix :=
  match n with
  | O => VOverflow
  | S n =>
      match l with
      | [] => VEof
      | b :: l => if b <? 128 then VDone [b]
                  else match varint_prefix n l with
                       | VDone p => VDone (b :: p)
                       | e => e
                       end
      end
  end.

Lemma varint_prefix_app n p r :
  is_varint p -> (length p <= n)%nat -> varint_prefix n (p ++ r) = VDone p.
Proof.
  revert n. induction p as [|b p IH]; intros n Hp Hn; [done|].
  destruct n as [|n]; [cbn in Hn; lia|]. cbn [app varint_prefix]. destruct p as [|c p].
  - cbn in Hp. destruct (Z.ltb_spec b 128); [done|lia].
  - destruct Hp as [Hb Hp]. destruct (Z.ltb_spec b 128); [lia|].
    rewrite IH by (done || (cbn in *; lia)). done.
Qed.

Lemma varint_prefix_varint n p : is_varint p -> (length p <= n)%nat -> varint_prefix n p = VDone p.
Proof. intros. rewrite <- (app_nil_r p) at 1. by apply varint_prefix_app. Qed.

(** Adding the next group: or, shift and truncation are one modular addition. *)
Lemma lor_shiftl_mod w acc x k :
  0 <= k <= w -> 0 <= acc < 2 ^ k ->
  Z.lor acc (Z.shiftl x k mod 2 ^ w) = (acc + x * 2 ^ k) mod 2 ^ w.
Proof.
  intros Hk Ha. rewrite Z.shiftl_mul_pow2 by lia.
  assert (Ew : 2 ^ w = 2 ^ (w - k) * 2 ^ k) by (rewrite <- Z.pow_add_r by lia; f_equal; lia).
  pose proof (Z.pow_pos_nonneg 2 k ltac:(lia) ltac:(lia)).
  pose proof (Z.pow_pos_nonneg 2 (w - k) ltac:(lia) ltac:(lia)).
  rewrite Ew, Z.mul_mod_distr_r by lia. rewrite lor_add_shifted by lia.
  pose proof (Z.mod_pos_bound x (2 ^ (w - k)) ltac:(lia)).
  apply Z.mod_unique_pos with (q := x / 2 ^ (w - k)); [nia|].
  pose proof (Z.div_mod x (2 ^ (w - k)) ltac:(lia)). nia.
Qed.

Lemma lor_shiftl_u64 acc x k :
  0 <= k <= 64 -> 0 <= acc < 2 ^ k ->
  Z.lor acc (u64 (Z.shiftl x k)) = u64 (acc + x * 2 ^ k).
Proof. apply lor_shiftl_mod. Qed.

Lemma lor_shiftl_u32 acc x k :
  0 <= k <= 32 -> 0 <= acc < 2 ^ k ->
  Z.lor acc (u32 (Z.shiftl x k)) = u32 (acc + x * 2 ^ k).
Proof. apply lor_shiftl_mod. Qed.

Lemma pow_7_succ i : 2 ^ (7 * (i + 1)) = 128 * 2 ^ (7 * i) \/ i < 0.
Proof.
  destruct (Z_lt_dec i 0); [by right|left]. replace (7 * (i + 1)) with (7 + 7 * i) by lia.
  rewrite Z.pow_add_r by lia. done.
Qed.
