(* ===== verification/PbEncodeSpec.v ===== *)
(** The abstract specification of the encoder: the byte string a message stands
    for, as a pure function of the memory that holds it.  No streams, no sizes
    computed beforehand, no buffers: a tag and a value for each present field, a
    length in front of every delimited value. *)
From stdpp Require Import base gmap list strings numbers option.
From Stdlib Require Import ZArith Lia.
From S2P Require Import Prelude Cmem PbTypes PbEncode PbWire.

(** What the application's encoding callbacks promise to emit. *)
Class EncCallbacks := {
  encode_bytes : world -> Z -> Z -> Z -> option (list Z);
  ext_encode_bytes : world -> Z -> Z -> option (list Z);
}.

Section spec.
Context `{PbEnv, EncCallbacks} (wz : world).

(** The value a read-only function of the C code returns in [wz]. *)
Definition peek {A} (c : SM unit A) : option A :=
  match c tt wz with
  | Ok a _ _ => Some a
  | _ => None
  end.

Definition spec_load (p n : Z) : option (list Z) := mem_load (mem wz) p (Z.to_nat n).

Definition spec_uint (n : nat) (p : Z) : option Z := peek (load_u n p).

Definition spec_int (signed : bool) (size p : Z) : option Z :=
  if (size =? 1) || (size =? 2) || (size =? 4) || (size =? 8) then
    v ← spec_uint (Z.to_nat size) p;
    Some (if signed then to_signed (8 * size) v else v)
  else None.

Definition is_pointer (f : pb_field_t) : bool := PB_ATYPE (type_ f) =? PB_ATYPE_POINTER.

Section message.
(** The bytes of a submessage. *)
Variable sub : Z -> Z -> option (list Z).
Variable depth : nat.

(** The value of one item, without its tag. *)
Definition spec_item (f : pb_field_t) (p : Z) : option (list Z) :=
  let ltype := PB_LTYPE (type_ f) in
  if ltype =? PB_LTYPE_BOOL then b ← peek (safe_read_bool p); Some (varint (b2z b))
  else if ltype =? PB_LTYPE_VARINT then
    v ← spec_int true (data_size f) p; Some (varint (u64 v))
  else if ltype =? PB_LTYPE_UVARINT then
    v ← spec_int false (data_size f) p; Some (varint v)
  else if ltype =? PB_LTYPE_SVARINT then
    v ← spec_int true (data_size f) p; Some (varint (zigzag v))
  else if ltype =? PB_LTYPE_FIXED32 then spec_load p 4
  else if ltype =? PB_LTYPE_FIXED64 then spec_load p 8
  else if ltype =? PB_LTYPE_BYTES then
    if p =? NULL then Some (length_delimited [])
    else
      n ← spec_uint 4 p;
      if (PB_ATYPE (type_ f) =? PB_ATYPE_STATIC) && (u64 (data_size f - offsetof_bytes) <? n)
      then None
      else l ← spec_load (p + offsetof_bytes) n; Some (length_delimited l)
  else if ltype =? PB_LTYPE_STRING then
    if p =? NULL then Some (length_delimited [])
    else
      n ← peek (string_size (if is_pointer f then SIZE_MAX else data_size f) p);
      l ← spec_load p n; Some (length_delimited l)
  else if ltype =? PB_LTYPE_SUBMESSAGE then
    if ptr f =? NULL then None
    else l ← sub (ptr f) p; Some (length_delimited l)
  else if ltype =? PB_LTYPE_FIXED_LENGTH_BYTES then
    l ← spec_load p (data_size f); Some (length_delimited l)
  else None.

Definition spec_tagged (f : pb_field_t) (p : Z) : option (list Z) :=
  wt ← wiretype_of_ltype (PB_LTYPE (type_ f));
  l ← spec_item f p;
  Some (tag_bytes wt (tag f) ++ l).

Fixpoint spec_items (item : Z -> option (list Z)) (p step : Z) (n : nat) : option (list Z) :=
  match n with
  | O => Some []
  | S n => l ← item p; r ← spec_items item (p + step) step n; Some (l ++ r)
  end.

(** Arrays are packed when the item type allows it. *)
Definition spec_array (f : pb_field_t) (p count : Z) : option (list Z) :=
  if count =? 0 then Some []
  else if negb (is_pointer f) && (array_size f <? count) then None
  else if PB_LTYPE (type_ f) <=? PB_LTYPE_LAST_PACKABLE then
    l ← spec_items (spec_item f) p (data_size f) (Z.to_nat count);
    Some (tag_bytes PB_WT_STRING (tag f) ++ length_delimited l)
  else
    spec_items (fun p =>
      q ← (if is_pointer f && ((PB_LTYPE (type_ f) =? PB_LTYPE_STRING)
                               || (PB_LTYPE (type_ f) =? PB_LTYPE_BYTES))
           then spec_uint 8 p else Some p);
      spec_tagged f q) p (data_size f) (Z.to_nat count).

(** Presence: required, by [has_] flag or non-default value, by count, by the
    [which_] member. *)
Definition spec_basic (f : pb_field_t) (p : Z) : option (list Z) :=
  let htype := PB_HTYPE (type_ f) in
  let counted := negb (size_offset f =? 0) in
  if 10 <? PB_LTYPE (type_ f) then None
  else
    implicit_has ← (if counted then Some false
                    else if htype =? PB_HTYPE_OPTIONAL
                    then z ← peek (pb_check_proto3_default_value depth f p); Some (negb z)
                    else Some true);
    '(q, implicit_has) ← (if is_pointer f
                          then q ← spec_uint 8 p; Some (q, negb (q =? NULL))
                          else Some (p, implicit_has));
    if htype =? PB_HTYPE_REQUIRED then if q =? NULL then None else spec_tagged f q
    else if htype =? PB_HTYPE_OPTIONAL then
      has ← (if counted then peek (safe_read_bool (p + size_offset f)) else Some implicit_has);
      if has : bool then spec_tagged f q else Some []
    else if htype =? PB_HTYPE_REPEATED then
      count ← (if counted then spec_uint 4 (p + size_offset f) else Some (array_size f));
      spec_array f q count
    else if htype =? PB_HTYPE_ONEOF then
      which ← (if counted then spec_uint 4 (p + size_offset f) else None);
      if which =? tag f then spec_tagged f q else Some []
    else None.

Definition spec_field (fp p : Z) : option (list Z) :=
  f ← rodata !! fp;
  let atype := PB_ATYPE (type_ f) in
  if (atype =? PB_ATYPE_STATIC) || (atype =? PB_ATYPE_POINTER) then spec_basic f p
  else if atype =? PB_ATYPE_CALLBACK then
    fn ← spec_uint 8 (callback_funcs p);
    if negb (fn =? NULL) then encode_bytes wz fn fp (callback_arg p) else Some []
  else None.

Definition spec_default_extension (e : Z) : option (list Z) :=
  type ← spec_uint 8 (ext_type e);
  fp ← spec_uint 8 (exttype_arg type);
  f ← rodata !! fp;
  if is_pointer f then spec_field fp (ext_dest e)
  else dest ← spec_uint 8 (ext_dest e); spec_field fp dest.

Fixpoint spec_extensions (fuel : nat) (e : Z) : option (list Z) :=
  match fuel with
  | O => None
  | S fuel =>
      if negb (e =? NULL) then
        type ← spec_uint 8 (ext_type e);
        fn ← spec_uint 8 (exttype_encode type);
        l ← (if negb (fn =? NULL) then ext_encode_bytes wz fn e else spec_default_extension e);
        next ← spec_uint 8 (ext_next e);
        r ← spec_extensions fuel next;
        Some (l ++ r)
      else Some []
  end.

Fixpoint spec_fields (fuel : nat) (it : pb_field_iter_t) : option (list Z) :=
  match fuel with
  | O => None
  | S fuel =>
      f ← rodata !! pos it;
      l ← (if PB_LTYPE (type_ f) =? PB_LTYPE_EXTENSION
           then e ← spec_uint 8 (pData it); spec_extensions (S (size (mem wz))) e
           else spec_field (pos it) (pData it));
      '(more, it) ← peek (pb_field_iter_next it);
      if more : bool then r ← spec_fields fuel it; Some (l ++ r) else Some l
  end.

End message.

(** The bytes of the message at [src] with field table [fields]; [None] when the
    message is not encodable (a missing required field, an array longer than its
    bound, memory that is not there). *)
Fixpoint message_bytes (depth : nat) (fields src : Z) : option (list Z) :=
  match depth with
  | O => None
  | S depth =>
      '(more, it) ← peek (pb_field_iter_begin fields src);
      if more : bool then spec_fields (message_bytes depth) depth table_fuel it else Some []
  end.

End spec.
