(* ===== verification/PbEmits.v ===== *)
(** The refinement relation between the encoder's code and byte strings.

    [emits m a l]: on a sizing stream [m] adds [length l] to [bytes_written] and
    changes nothing else; on a buffer stream it stores [l] at the write position
    when there is room, and otherwise returns false with everything outside the
    buffer intact.  The relation is closed under sequencing and loops, so each
    function of pb_encode.c is related to its specification by following its
    text. *)
From stdpp Require Import base gmap list strings numbers option.
From Stdlib Require Import ZArith Lia.
From S2P Require Import Prelude Cmem Hoare PbTypes PbEncode PbWire PbEncodeSpec.

Lemma mem_store_app m p l1 l2 :
  mem_store m p (l1 ++ l2) =
  match mem_store m p l1 with
  | Some m1 => mem_store m1 (p + Z.of_nat (length l1)) l2
  | None => None
  end.
Proof.
  revert m p. induction l1 as [|b l1 IH]; intros m p; cbn.
  - by rewrite Z.add_0_r.
  - destruct (m !! p); [|done]. rewrite IH.
    destruct (mem_store _ _ l1); [|done]. f_equal. lia.
Qed.

(** * Read-only calls

    [rd c1 c2]: whatever [c1] reads in [wz] without changing it, [c2] reads in
    every world that extends [wz]'s memory. *)
Section rd.
Variable wz : world.

Definition rd {T A} (c1 : SM unit A) (c2 : SM T A) : Prop :=
  forall a u w', c1 tt wz = Ok a u w' ->
    w' = wz /\ forall s w, mem wz ⊆ mem w -> c2 s w = Ok a s w.

Context {T : Type}.

Lemma rd_ret {A} (a : A) : rd (ret a) (ret (T := T) a).
Proof. intros a' u w' [= <- <- <-]. done. Qed.

Lemma rd_fail {A} (c : SM T A) : rd fail c.
Proof. done. Qed.

Lemma rd_ub {A} (c : SM T A) : rd ub c.
Proof. done. Qed.

Lemma rd_nofuel {A} (c : SM T A) : rd nofuel c.
Proof. done. Qed.

Lemma rd_bind {A B} (c1 : SM unit A) (c2 : SM T A) (k1 : A -> SM unit B) (k2 : A -> SM T B) :
  rd c1 c2 -> (forall a, rd (k1 a) (k2 a)) -> rd (bind c1 k1) (bind c2 k2).
Proof.
  intros Hc Hk b u w' E. cbn in E.
  destruct (c1 tt wz) as [a [] w1|? ?| |] eqn:E1; try done.
  destruct (Hc _ _ _ E1) as [-> Hc2]. destruct (Hk a _ _ _ E) as [-> Hk2].
  split; [done|]. intros s w Hs. cbn. rewrite Hc2 by done. by apply Hk2.
Qed.

Lemma rd_loop {St X} f1 f2 (b1 : St -> SM unit (St + X)) (b2 : St -> SM T (St + X)) st :
  (f1 <= f2)%nat -> (forall st, rd (b1 st) (b2 st)) -> rd (loop f1 b1 st) (loop f2 b2 st).
Proof.
  intros Hf Hb. revert f2 st Hf. induction f1 as [|f1 IH]; intros f2 st Hf; [apply rd_nofuel|].
  destruct f2 as [|f2]; [lia|]. apply rd_bind; [apply Hb|].
  intros [st'|r]; [apply IH; lia|apply rd_ret].
Qed.

Lemma rd_load_bytes p n : rd (load_bytes p n) (load_bytes (T := T) p n).
Proof.
  intros l u w'. unfold load_bytes. destruct (mem_load (mem wz) p (Z.to_nat n)) eqn:E; [|done].
  intros [= <- <- <-]. split; [done|]. intros s w Hs. by rewrite (mem_load_sub _ _ _ _ _ Hs E).
Qed.

Lemma rd_load_u n p : rd (load_u n p) (load_u (T := T) n p).
Proof. apply rd_bind; [apply rd_load_bytes|intros; apply rd_ret]. Qed.

End rd.

Create HintDb rd.
#[export] Hint Resolve rd_ret rd_fail rd_ub rd_nofuel rd_load_bytes rd_load_u : rd.

Ltac rd_step :=
  match goal with
  | |- rd _ (bind _ _) (bind _ _) => apply rd_bind; [|intros]
  | |- rd _ (loop _ _ _) (loop _ _ _) => apply rd_loop; [lia|intros]
  | |- rd _ (if ?b then _ else _) _ => destruct b
  | |- rd _ (match ?x with _ => _ end) _ => destruct x
  | |- rd _ _ _ => solve [auto with rd]
  end.
Ltac rd := repeat rd_step.

Section readers.
Context `{PbEnv} (wz : world) {T : Type}.
Notation rd := (rd wz (T := T)).

Lemma rd_load_ptr p : rd (load_ptr p) (load_ptr p).
Proof. apply rd_load_u. Qed.

Lemma rd_safe_read_bool p : rd (safe_read_bool p) (safe_read_bool p).
Proof. unfold safe_read_bool. rd. Qed.

Lemma rd_field_at p : rd (field_at p) (field_at p).
Proof. unfold field_at. rd. Qed.

#[local] Hint Resolve rd_load_ptr rd_safe_read_bool rd_field_at : rd.

Lemma rd_iter_begin fields p : rd (pb_field_iter_begin fields p) (pb_field_iter_begin fields p).
Proof. unfold pb_field_iter_begin. rd. Qed.

#[local] Hint Resolve rd_iter_begin : rd.

Lemma rd_iter_next it : rd (pb_field_iter_next it) (pb_field_iter_next it).
Proof. unfold pb_field_iter_next. rd. Qed.

Lemma rd_all_zero p n : rd (all_zero p n) (all_zero p n).
Proof. unfold all_zero. rd. Qed.

#[local] Hint Resolve rd_iter_next rd_all_zero : rd.

Lemma size_mono w : mem wz ⊆ mem w -> (size (mem wz) <= size (mem w))%nat.
Proof. apply map_subseteq_size. Qed.

Lemma rd_string_loop f1 f2 n p :
  (f1 <= f2)%nat -> rd (loop f1 (string_step n p) 0) (loop f2 (string_step n p) 0).
Proof. intros Hf. apply rd_loop; [done|]. intros st. unfold string_step. rd. Qed.

Lemma rd_string_size n p : rd (string_size n p) (string_size n p).
Proof.
  intros a u w' E. unfold string_size in *. split.
  - by destruct (rd_string_loop _ _ n p (le_n _) _ _ _ E).
  - intros s w Hs. pose proof (size_mono w Hs).
    assert (Hf : (S (S (size (mem wz))) <= S (S (size (mem w))))%nat) by lia.
    by apply (rd_string_loop _ _ n p Hf _ _ _ E).
Qed.

Lemma rd_check_default depth f p :
  rd (pb_check_proto3_default_value depth f p) (pb_check_proto3_default_value depth f p).
Proof.
  revert f p. induction depth as [|depth IH]; intros f p;
    cbn [pb_check_proto3_default_value]; cbv zeta; rd.
Qed.

End readers.

#[export] Hint Resolve rd_load_ptr rd_safe_read_bool rd_field_at rd_iter_begin rd_iter_next
  rd_all_zero rd_string_size rd_check_default : rd.

(** * Emission *)

Section emits.
Context `{PbEnv} (wz : world) (lo hi : Z).

(** Worlds that differ from [wz] only by the contents of the buffer [lo, hi),
    which [wz] does not have at all. *)
Definition agree (w : world) : Prop :=
  (forall a, ~ (lo <= a < hi) -> mem w !! a = mem wz !! a) /\
  (forall a, lo <= a < hi -> mem wz !! a = None /\ is_Some (mem w !! a)).

(** A buffer stream inside [lo, hi). *)
Definition in_buffer (s : pb_ostream_t) : Prop :=
  ocb s = buf_write_cb /\ 0 <= bytes_written s <= max_size s /\ max_size s < 2 ^ 63 /\
  lo <= ostate s /\ ostate s + (max_size s - bytes_written s) <= hi /\ oerrmsg s = None.

Definition sizing (s : pb_ostream_t) : Prop :=
  ocb s = null_cb /\ 0 <= bytes_written s < 2 ^ 64.

Definition len (l : list Z) : Z := Z.of_nat (length l).

(** The stream after [l] was written. *)
Definition advanced (s : pb_ostream_t) (l : list Z) : pb_ostream_t :=
  mk_ostream (ocb s) (ostate s + len l) (max_size s) (bytes_written s + len l) (oerrmsg s).

Definition sized (s : pb_ostream_t) (l : list Z) : pb_ostream_t :=
  set_bytes_written (u64 (bytes_written s + len l)) s.

Definition emits_null {A} (m : SM pb_ostream_t A) (a : A) (l : list Z) : Prop :=
  forall s w, sizing s -> mem wz ⊆ mem w -> m s w = Ok a (sized s l) w.

Definition emits_buf {A} (m : SM pb_ostream_t A) (a : A) (l : list Z) : Prop :=
  forall s w, in_buffer s -> agree w ->
    (bytes_written s + len l <= max_size s ->
       exists m', mem_store (mem w) (ostate s) l = Some m' /\
                  m s w = Ok a (advanced s l) (World m' (blocks w) (brk w))) /\
    (max_size s < bytes_written s + len l ->
       exists s' w', m s w = Err s' w' /\ agree w').

Definition emits {A} (m : SM pb_ostream_t A) (a : A) (l : list Z) : Prop :=
  len l < 2 ^ 63 -> emits_null m a l /\ emits_buf m a l.

Lemma len_app l1 l2 : len (l1 ++ l2) = len l1 + len l2.
Proof. unfold len. rewrite length_app. lia. Qed.

Lemma len_nonneg l : 0 <= len l.
Proof. unfold len. lia. Qed.

Lemma agree_sub w : agree w -> mem wz ⊆ mem w.
Proof.
  intros [H1 H2]. apply map_subseteq_spec. intros a b Ha.
  destruct (decide (lo <= a < hi)) as [Hin|Hout].
  - destruct (H2 a Hin) as [E _]. congruence.
  - by rewrite H1.
Qed.

Lemma agree_store w p l m' :
  agree w -> lo <= p -> p + len l <= hi -> mem_store (mem w) p l = Some m' ->
  agree (World m' (blocks w) (brk w)).
Proof.
  intros [H1 H2] Hlo Hhi E. unfold len in *. split; cbn; intros a Ha.
  - rewrite (mem_store_lookup_ne _ _ _ _ _ E) by lia. by apply H1.
  - destruct (H2 a Ha) as [H3 H4]. split; [done|].
    apply elem_of_dom. rewrite (mem_store_dom _ _ _ _ E). by apply elem_of_dom.
Qed.

Lemma in_buffer_advanced s l :
  in_buffer s -> bytes_written s + len l <= max_size s -> in_buffer (advanced s l).
Proof.
  intros (E & Hb & Hm & Hlo & Hhi & Er) Hl. pose proof (len_nonneg l).
  unfold in_buffer, advanced; cbn. split_and!; try done; lia.
Qed.

Lemma sizing_sized s l : sizing s -> sizing (sized s l).
Proof. intros [E Hb]. split; [done|]. cbn. apply u64_range. Qed.

Lemma sized_nil s : sizing s -> sized s [] = s.
Proof.
  intros [E Hb]. unfold sized, len; cbn. rewrite Z.add_0_r, u64_small by lia. by destruct s.
Qed.

Lemma sized_app s l1 l2 : sized (sized s l1) l2 = sized s (l1 ++ l2).
Proof.
  unfold sized, set_bytes_written; cbn. rewrite len_app, Z.add_assoc. f_equal.
  unfold u64. by rewrite Zplus_mod_idemp_l.
Qed.

Lemma advanced_app s l1 l2 : advanced (advanced s l1) l2 = advanced s (l1 ++ l2).
Proof. unfold advanced; cbn. rewrite len_app. f_equal; lia. Qed.

Lemma world_eta w : World (mem w) (blocks w) (brk w) = w.
Proof. by destruct w. Qed.

Lemma emits_null_ret {A} (a : A) : emits_null (ret a) a [].
Proof. intros s w Hs Hw. cbn. by rewrite sized_nil. Qed.

Lemma emits_buf_ret {A} (a : A) : emits_buf (ret a) a [].
Proof.
  intros s w Hs Hw. split.
  - intros _. exists (mem w). split; [done|]. cbn. rewrite world_eta.
    unfold advanced, len; cbn. rewrite !Z.add_0_r. by destruct s.
  - destruct Hs as (_ & ? & _). unfold len; cbn. lia.
Qed.

Lemma emits_ret {A} (a : A) : emits (ret a) a [].
Proof. intros _. split; [apply emits_null_ret|apply emits_buf_ret]. Qed.

Lemma emits_null_bind {A B} (m : SM pb_ostream_t A) (k : A -> SM pb_ostream_t B) a b l1 l2 :
  emits_null m a l1 -> emits_null (k a) b l2 -> emits_null (bind m k) b (l1 ++ l2).
Proof.
  intros Hm Hk s w Hs Hw. cbn. rewrite (Hm s w Hs Hw).
  rewrite (Hk _ w (sizing_sized _ _ Hs) Hw). by rewrite sized_app.
Qed.

Lemma emits_buf_bind {A B} (m : SM pb_ostream_t A) (k : A -> SM pb_ostream_t B) a b l1 l2 :
  emits_buf m a l1 -> emits_buf (k a) b l2 -> emits_buf (bind m k) b (l1 ++ l2).
Proof.
  intros Hm Hk s w Hs Hw. rewrite len_app. pose proof (len_nonneg l2).
  destruct (Hm s w Hs Hw) as [Hm1 Hm2]. cbn.
  destruct (Z_le_gt_dec (bytes_written s + len l1) (max_size s)) as [Hfit|Hfull].
  - destruct (Hm1 Hfit) as (m1 & E1 & ->).
    pose proof Hs as (Ecb & Hb & Hmax & Hlo & Hhi & Eerr).
    assert (Hw1 : agree (World m1 (blocks w) (brk w))) by (eapply agree_store; eauto; lia).
    assert (Hs1 : in_buffer (advanced s l1)) by (by apply in_buffer_advanced).
    destruct (Hk _ _ Hs1 Hw1) as [Hk1 Hk2]. cbn in Hk1, Hk2. split.
    + intros Hl. destruct (Hk1 ltac:(lia)) as (m2 & E2 & ->). exists m2.
      rewrite mem_store_app, E1, advanced_app. done.
    + intros Hl. apply Hk2. lia.
  - destruct (Hm2 ltac:(lia)) as (s' & w' & -> & Hw'). split; [lia|eauto].
Qed.

Lemma emits_bind {A B} (m : SM pb_ostream_t A) (k : A -> SM pb_ostream_t B) a b l1 l2 :
  emits m a l1 -> emits (k a) b l2 -> emits (bind m k) b (l1 ++ l2).
Proof.
  intros Hm Hk Hl. rewrite len_app in Hl. pose proof (len_nonneg l1). pose proof (len_nonneg l2).
  destruct (Hm ltac:(lia)), (Hk ltac:(lia)).
  split; [eapply emits_null_bind|eapply emits_buf_bind]; eauto.
Qed.

(** A read-only call first. *)
Lemma emits_read {A B} (c1 : SM unit A) (c2 : SM pb_ostream_t A) k a (b : B) l :
  rd wz c1 c2 -> peek wz c1 = Some a -> emits (k a) b l -> emits (bind c2 k) b l.
Proof.
  intros Hr Hp Hk Hl. unfold peek in Hp.
  destruct (c1 tt wz) as [a' u w'|? ?| |] eqn:E; try done. injection Hp as ->.
  destruct (Hr _ _ _ E) as [_ Hc]. destruct (Hk Hl) as [Hn Hb]. split.
  - intros s w Hs Hw. cbn. rewrite Hc by done. by apply Hn.
  - intros s w Hs Hw. cbn. rewrite Hc by (by apply agree_sub). by apply Hb.
Qed.

Lemma emits_ext {A} (m m' : SM pb_ostream_t A) a l :
  (forall s w, m s w = m' s w) -> emits m' a l -> emits m a l.
Proof.
  intros E Hm Hl. destruct (Hm Hl) as [Hn Hb]. split.
  - intros s w Hs Hw. rewrite E. by apply Hn.
  - intros s w Hs Hw. rewrite E. by apply Hb.
Qed.

(** Where the code asks whether the stream is only sizing. *)
Lemma emits_cases {A} (m1 m2 : pb_ostream_t -> SM pb_ostream_t A) a l :
  (len l < 2 ^ 63 -> emits_null (bind get m1) a l) ->
  (len l < 2 ^ 63 -> emits_buf (bind get m2) a l) ->
  emits (let* s := get in if is_null_cb (ocb s) then m1 s else m2 s) a l.
Proof.
  intros H1 H2 Hl. split.
  - intros s w [E Hs] Hw. cbn. rewrite E. by apply (H1 Hl s w).
  - intros s w Hs Hw. destruct (H2 Hl s w Hs Hw) as [H3 H4]. cbn in *.
    destruct Hs as [E Hs]. rewrite E. cbn. done.
Qed.

(** A local sizing stream measures without writing. *)
Lemma emits_measure {A B} (m : SM pb_ostream_t A) k a (b : B) l r :
  len l < 2 ^ 63 -> emits m a l ->
  emits (k (Some a, sized PB_OSTREAM_SIZING l)) b r ->
  emits (bind (on_stream PB_OSTREAM_SIZING m) k) b r.
Proof.
  intros Hl Hm Hk. destruct (Hm Hl) as [Hn _].
  assert (Hz : sizing PB_OSTREAM_SIZING) by (split; [done|cbn; lia]).
  intros Hr. destruct (Hk Hr) as [Hkn Hkb]. split.
  - intros s w Hs Hw. cbn. rewrite (Hn _ _ Hz Hw). by apply Hkn.
  - intros s w Hs Hw. cbn. rewrite (Hn _ _ Hz (agree_sub _ Hw)). by apply Hkb.
Qed.

(** * pb_write *)

(** The bytes a call of [pb_write] takes from its source. *)
Definition src_bytes (buf : wsrc) (l : list Z) : Prop :=
  match buf with
  | WNull => l = []
  | WMem p => mem_load (mem wz) p (length l) = Some l
  | WLocal l' => l' = l
  end.

Lemma read_src_ok {T} buf l (s : T) w :
  src_bytes buf l -> buf <> WNull -> mem wz ⊆ mem w -> read_src buf (len l) s w = Ok l s w.
Proof.
  unfold len. destruct buf as [|p|l']; cbn; [done| |].
  - intros E _ Hw. apply load_bytes_ok. by eapply mem_load_sub.
  - intros -> _ Hw. by rewrite Nat2Z.id, take_ge by lia.
Qed.

Lemma pb_write_null buf n s w :
  sizing s -> 0 <= n < 2 ^ 64 ->
  pb_write buf n s w = Ok tt (set_bytes_written (u64 (bytes_written s + n)) s) w.
Proof.
  intros [E Hb] Hn. unfold pb_write. rewrite (u64_small n) by lia. cbn.
  by rewrite E, andb_false_r.
Qed.

Lemma pb_write_buf_fits buf l s w :
  src_bytes buf l -> in_buffer s -> agree w -> bytes_written s + len l <= max_size s ->
  exists m', mem_store (mem w) (ostate s) l = Some m' /\
             pb_write buf (len l) s w = Ok tt (advanced s l) (World m' (blocks w) (brk w)).
Proof.
  intros Hsrc (E & Hb & Hmax & Hlo & Hhi & Eerr) Hw Hfit.
  pose proof (len_nonneg l). unfold pb_write. rewrite (u64_small (len l)) by lia. cbn.
  rewrite E, andb_true_r. destruct (Z.ltb_spec 0 (len l)) as [Hpos|Hz].
  - rewrite !(u64_small (_ + _)) by lia.
    destruct (Z.ltb_spec (bytes_written s + len l) (bytes_written s)); [lia|].
    destruct (Z.ltb_spec (max_size s) (bytes_written s + len l)); [lia|].
    cbn. unfold call_ocallback. cbn. rewrite E. unfold buf_write. cbn.
    rewrite read_src_ok; [|done|by destruct buf; cbn in Hsrc; subst|by apply agree_sub].
    destruct (store_bytes_ok (set_ostate (ostate s + len l) s) w (ostate s) l) as (m' & Em & ->).
    { intros a Ha. apply Hw. unfold len in *. lia. }
    exists m'. split; [done|]. cbn. rewrite u64_small by lia. done.
  - assert (l = []) as -> by (destruct l; [done|unfold len in *; cbn in *; lia]).
    exists (mem w). split; [done|]. cbn. rewrite Z.add_0_r, u64_small by lia.
    rewrite world_eta. unfold advanced, set_bytes_written, len; cbn. by rewrite !Z.add_0_r.
Qed.

Lemma pb_write_buf_full buf n s w :
  in_buffer s -> 0 <= n < 2 ^ 63 -> max_size s < bytes_written s + n ->
  exists s', pb_write buf n s w = Err s' w.
Proof.
  intros (E & Hb & Hmax & Hlo & Hhi & Eerr) Hn Hfull.
  unfold pb_write. rewrite (u64_small n) by lia. cbn. rewrite E, andb_true_r.
  destruct (Z.ltb_spec 0 n); [|lia]. rewrite !(u64_small (_ + _)) by lia.
  destruct (Z.ltb_spec (max_size s) (bytes_written s + n)); [|lia].
  rewrite orb_true_r. cbn. eauto.
Qed.

Lemma emits_pb_write buf l : src_bytes buf l -> emits (pb_write buf (len l)) tt l.
Proof.
  intros Hsrc Hl. pose proof (len_nonneg l). split.
  - intros s w Hs Hw. by rewrite pb_write_null by (done || lia).
  - intros s w Hs Hw. split; intros Hfit.
    + by apply pb_write_buf_fits.
    + destruct (pb_write_buf_full buf (len l) s w) as [s' ->]; [done|lia|done|]. eauto.
Qed.

Lemma emits_pb_write_local l : emits (pb_write (WLocal l) (len l)) tt l.
Proof. by apply emits_pb_write. Qed.

End emits.

(** * The primitive encoders refine the wire format of [PbWire]. *)

(** * The loop of [pb_encode_varint] *)

(** The groups before the top bit of the last one is cleared. *)
Fixpoint marked_groups (n : nat) (v : Z) : list Z :=
  match n with
  | O => []
  | S n => if v =? 0 then [] else (v mod 128 + 128) :: marked_groups n (v / 128)
  end.

Lemma marked_byte v : u8 (Z.lor (Z.land v 0x7F) 0x80) = v mod 128 + 128.
Proof.
  rewrite land_0x7F. change (Z.lor (v mod 128) 0x80) with (Z.lor (v mod 128) (1 * 2 ^ 7)).
  pose proof (Z.mod_pos_bound v 128 ltac:(lia)).
  rewrite lor_add_shifted by lia. apply u8_small. lia.
Qed.

Lemma cleared_byte v : Z.land (v mod 128 + 128) 0x7F = v mod 128.
Proof.
  rewrite land_0x7F. pose proof (Z.mod_pos_bound v 128 ltac:(lia)). zdiv_lia.
Qed.

Lemma marked_groups_zero n : marked_groups n 0 = [].
Proof. by destruct n. Qed.

Lemma clear_last n v :
  0 < v < 128 ^ Z.of_nat n ->
  alter (fun b => Z.land b 0x7F) (length (marked_groups n v) - 1)%nat (marked_groups n v)
  = varint_groups n v.
Proof.
  revert v. induction n as [|n IH]; intros v Hv.
  - change (128 ^ Z.of_nat 0) with 1 in Hv. lia.
  - cbn [marked_groups varint_groups]. destruct (Z.eqb_spec v 0); [lia|].
    destruct (Z.ltb_spec v 128) as [Hsmall|Hbig].
    + rewrite Z.div_small, marked_groups_zero by lia. cbn [length Nat.sub].
      change (alter ?f 0%nat [?x]) with [f x]. cbv beta. rewrite cleared_byte, Z.mod_small by lia. done.
    + pose proof (div_128_bound n v ltac:(lia)).
      assert (Hd : 0 < v / 128) by (apply Z.div_str_pos; lia).
      rewrite <- (IH (v / 128)) by lia. cbn [length].
      destruct (marked_groups n (v / 128)) as [|b l] eqn:El.
      * destruct n; cbn in El; [change (128 ^ Z.of_nat 0) with 1 in *; lia|].
        destruct (Z.eqb_spec (v / 128) 0); [lia|done].
      * cbn [length]. replace (S (S (length l)) - 1)%nat with (S (S (length l) - 1)) by lia. done.
Qed.

Section prim.
Context `{PbEnv} (wz : world) (lo hi : Z).
Notation emits := (emits wz lo hi).

Lemma varint_loop {T} n fuel v acc (s : T) w :
  0 <= v < 128 ^ Z.of_nat n -> (n < fuel)%nat ->
  loop fuel (fun vb : Z * list Z =>
    let (value, buffer) := vb in
    if value =? 0 then ret (inr buffer)
    else ret (inl (Z.shiftr value 7,
                   buffer ++ [u8 (Z.lor (Z.land value 0x7F) 0x80)]))) (v, acc) s w
  = Ok (acc ++ marked_groups n v) s w.
Proof.
  revert fuel v acc. induction n as [|n IH]; intros fuel v acc Hv Hf.
  - change (128 ^ Z.of_nat 0) with 1 in Hv. assert (v = 0) as -> by lia.
    destruct fuel; [lia|]. cbn. by rewrite app_nil_r.
  - destruct fuel as [|fuel]; [lia|]. cbn. destruct (Z.eqb_spec v 0) as [->|Hnz]; cbn.
    + by rewrite app_nil_r.
    + rewrite shiftr_div by lia. change (2 ^ 7) with 128.
      rewrite (IH fuel (v / 128)) by (apply div_128_bound || lia; lia).
      rewrite marked_byte, <- app_assoc. done.
Qed.

Lemma emits_varint v : 0 <= v < 2 ^ 64 -> emits (pb_encode_varint v) tt (varint v).
Proof.
  intros Hv. unfold pb_encode_varint. destruct (Z.leb_spec v 0x7F) as [Hs|Hb].
  - rewrite u8_small by lia. replace (varint v) with [v].
    + apply emits_pb_write_local.
    + unfold varint. cbn. by destruct (Z.ltb_spec v 128); [|lia].
  - eapply emits_ext; [intros s w; cbn [bind]; rewrite (varint_loop 10) by (pose proof pow_128_10; lia); reflexivity|].
    cbn [app]. cbv zeta. rewrite clear_last by (pose proof pow_128_10; lia).
    replace (Z.of_nat (length (marked_groups 10 v))) with (len (varint v)).
    + apply emits_pb_write_local.
    + unfold len, varint. rewrite <- (clear_last 10 v) by (pose proof pow_128_10; lia).
      by rewrite length_alter.
Qed.

Lemma zigzag_bits v :
  - 2 ^ 63 <= v < 2 ^ 63 ->
  (if v <? 0 then u64 (Z.lnot (u64 (Z.shiftl (u64 v) 1))) else u64 (Z.shiftl (u64 v) 1)) = zigzag v.
Proof.
  intros Hv. unfold zigzag, u64, Z.lnot, Z.pred. rewrite Z.shiftl_mul_pow2 by lia.
  change (2 ^ 1) with 2. norm_pow2. destruct (Z.ltb_spec v 0).
  - assert (E1 : v mod 18446744073709551616 = v + 18446744073709551616) by
      (symmetry; apply (Z.mod_unique_pos _ _ (-1)); lia).
    rewrite E1.
    assert (E2 : ((v + 18446744073709551616) * 2) mod 18446744073709551616
                 = 2 * v + 18446744073709551616)
      by (symmetry; apply (Z.mod_unique_pos _ _ 1); lia).
    rewrite E2. symmetry. apply (Z.mod_unique_pos _ _ (-1)); lia.
  - rewrite (Z.mod_small v) by lia. rewrite Z.mod_small; lia.
Qed.

Lemma emits_svarint v :
  - 2 ^ 63 <= v < 2 ^ 63 -> emits (pb_encode_svarint v) tt (varint (zigzag v)).
Proof.
  intros Hv. unfold pb_encode_svarint. rewrite zigzag_bits by done.
  apply emits_varint, zigzag_range; lia.
Qed.

Lemma emits_tag wt n :
  0 <= wt < 8 -> 0 <= n < 2 ^ 32 -> emits (pb_encode_tag wt n) tt (tag_bytes wt n).
Proof.
  intros Hw Hn. unfold pb_encode_tag, tag_bytes.
  rewrite Z.shiftl_mul_pow2, u64_small by lia.
  rewrite Z.lor_comm, lor_add_shifted by lia.
  replace (wt + n * 2 ^ 3) with (8 * n + wt) by lia. apply emits_varint. lia.
Qed.

(** A length and the bytes themselves. *)
Lemma emits_string buf l :
  src_bytes wz buf l -> emits (pb_encode_string buf (len l)) tt (length_delimited l).
Proof.
  intros Hs Hl. unfold length_delimited in Hl. rewrite len_app in Hl. pose proof (len_nonneg l).
  pose proof (len_nonneg (varint (Z.of_nat (length l)))).
  unfold pb_encode_string, length_delimited.
  eapply emits_bind; [apply emits_varint; unfold len in *; lia|by apply emits_pb_write|].
  by rewrite len_app.
Qed.

(** The fixed-width encoders copy the bytes of the value. *)
Lemma shiftr_byte v k : 0 <= k -> u8 (Z.land (Z.shiftr v k) 0xFF) = v / 2 ^ k mod 256.
Proof.
  intros. rewrite land_0xFF, shiftr_div by done. unfold u8. change (2 ^ 8) with 256.
  apply Z.mod_mod. lia.
Qed.

Lemma bytes4 v :
  [u8 (Z.land v 0xFF); u8 (Z.land (Z.shiftr v 8) 0xFF);
   u8 (Z.land (Z.shiftr v 16) 0xFF); u8 (Z.land (Z.shiftr v 24) 0xFF)] = le_bytes 4 v.
Proof.
  rewrite <- (Z.shiftr_0_r v) at 1. rewrite !shiftr_byte by lia. cbn [le_bytes].
  rewrite !Z.div_div by lia. by rewrite Z.div_1_r.
Qed.

Lemma bytes8 v :
  [u8 (Z.land v 0xFF); u8 (Z.land (Z.shiftr v 8) 0xFF);
   u8 (Z.land (Z.shiftr v 16) 0xFF); u8 (Z.land (Z.shiftr v 24) 0xFF);
   u8 (Z.land (Z.shiftr v 32) 0xFF); u8 (Z.land (Z.shiftr v 40) 0xFF);
   u8 (Z.land (Z.shiftr v 48) 0xFF); u8 (Z.land (Z.shiftr v 56) 0xFF)] = le_bytes 8 v.
Proof.
  rewrite <- (Z.shiftr_0_r v) at 1. rewrite !shiftr_byte by lia. cbn [le_bytes].
  rewrite !Z.div_div by lia. by rewrite Z.div_1_r.
Qed.

End prim.
