(* ===== verification/PbEncodeRefine.v ===== *)
(** The encoder of pb_encode.c refines the specification of [PbEncodeSpec]: every
    field encoder, arrays, optional and oneof fields, extensions and nested
    messages emit exactly the specified bytes. *)
From stdpp Require Import base gmap list strings numbers option.
From Stdlib Require Import ZArith Lia.
From S2P Require Import Prelude Cmem Hoare PbTypes PbEncode PbWire PbEncodeSpec PbEmits.

(** A field descriptor whose members have the width of their C type. *)
Definition field_ok (f : pb_field_t) : Prop :=
  0 <= tag f < 2 ^ 32 /\ 0 <= data_size f < 2 ^ 32 /\ 0 <= array_size f < 2 ^ 32.

(** Takes apart [x ← o; k = Some l]. *)
Ltac inv_bind :=
  repeat match goal with
  | H : (_ ≫= _) = Some _ |- _ => apply bind_Some in H as (? & ? & H)
  | H : Some _ = Some _ |- _ => injection H as H
  | x : _ * _ |- _ => destruct x
  end.

Section refine.
Context `{PbEnv, EncCallbacks} (wz : world) (lo hi : Z).
Notation emits := (emits wz lo hi).
Notation emits_null := (emits_null wz).
Notation emits_buf := (emits_buf wz lo hi).
Notation peek := (peek wz).

Hypothesis tables_ok : forall p f, rodata !! p = Some f -> field_ok f.
Hypothesis bytes_ok : forall a b, mem wz !! a = Some b -> is_byte b.

Lemma spec_load_bytes p n l :
  mem_load (mem wz) p n = Some l -> is_bytes l.
Proof using bytes_ok.
  revert p l. induction n as [|n IH]; intros p l; cbn; [by intros [= <-]|].
  destruct (mem wz !! p) eqn:E; [|done].
  destruct (mem_load (mem wz) (p + 1) n) eqn:El; [|done]. intros [= <-]. constructor; eauto.
Qed.

Lemma spec_load_len p n l : spec_load wz p n = Some l -> 0 <= n -> n = len l.
Proof. intros E Hn. apply mem_load_length in E. unfold len. lia. Qed.

Lemma spec_load_src p n l : spec_load wz p n = Some l -> src_bytes wz (WMem p) l.
Proof. intros E. cbn. pose proof (mem_load_length _ _ _ _ E) as ->. exact E. Qed.

Lemma spec_uint_inv n p v :
  spec_uint wz n p = Some v ->
  exists l, mem_load (mem wz) p n = Some l /\ v = le_val l /\ 0 <= v < 256 ^ Z.of_nat n.
Proof using bytes_ok.
  unfold spec_uint, PbEncodeSpec.peek, load_u, load_bytes. cbn. rewrite Nat2Z.id.
  destruct (mem_load (mem wz) p n) as [l|] eqn:E; [|done]. intros [= <-].
  exists l. pose proof (le_val_range l (spec_load_bytes _ _ _ E)) as Hr.
  rewrite (mem_load_length _ _ _ _ E) in Hr. done.
Qed.

(** A memory read at the head of the code. *)
Lemma emits_load {B} n p v (k : Z -> SM pb_ostream_t B) b l :
  spec_uint wz n p = Some v -> emits (k v) b l -> emits (bind (load_u n p) k) b l.
Proof. intros E. eapply emits_read; [apply rd_load_u|exact E]. Qed.

Lemma emits_ret_bind {A B} (a : A) (k : A -> SM pb_ostream_t B) b l :
  emits (k a) b l -> emits (bind (ret a) k) b l.
Proof. done. Qed.

Lemma emits_assoc {A B C} (m : SM pb_ostream_t A) (g : A -> SM pb_ostream_t B)
    (k : B -> SM pb_ostream_t C) c l :
  emits (let* x := m in bind (g x) k) c l -> emits (bind (bind m g) k) c l.
Proof. apply emits_ext. intros s w. cbn. by destruct (m s w). Qed.

(** The length bound may be assumed. *)
Lemma emits_given_len {A} (m : SM pb_ostream_t A) a l :
  (len l < 2 ^ 63 -> emits m a l) -> emits m a l.
Proof. intros Hm Hl. by apply (Hm Hl). Qed.

Lemma emits_field_at {B} p f (k : pb_field_t -> SM pb_ostream_t B) b l :
  rodata !! p = Some f -> emits (k f) b l -> emits (bind (field_at p) k) b l.
Proof. intros E. unfold field_at. by rewrite E. Qed.

(** * Items *)

Lemma emits_load_int {B} signed size p v (k : Z -> SM pb_ostream_t B) b l :
  spec_int wz signed size p = Some v -> emits (k v) b l ->
  emits (bind (load_int signed size p) k) b l.
Proof.
  unfold spec_int, load_int. intros E Hk.
  destruct (Z.eqb_spec size 1) as [->|]; [|destruct (Z.eqb_spec size 2) as [->|];
    [|destruct (Z.eqb_spec size 4) as [->|]; [|destruct (Z.eqb_spec size 8) as [->|]; [|done]]]];
    cbn in E; inv_bind; subst;
    apply emits_assoc; (eapply emits_load; [eassumption|]); exact Hk.
Qed.

Lemma spec_int_range signed size p v :
  spec_int wz signed size p = Some v ->
  if signed : bool then - 2 ^ 63 <= v < 2 ^ 63 else 0 <= v < 2 ^ 64.
Proof using bytes_ok.
  unfold spec_int. intros E. destruct (_ || _) eqn:Es; [|done]. inv_bind. subst.
  match goal with Hu : spec_uint _ _ _ = Some _ |- _ =>
    apply spec_uint_inv in Hu as (l & _ & -> & Hr) end.
  rewrite !orb_true_iff, !Z.eqb_eq in Es.
  pose proof (to_signed_range (8 * size) (le_val l)) as Hs.
  destruct Es as [[[-> | ->] | ->] | ->], signed; specialize (Hs ltac:(lia)); revert Hr Hs;
    match goal with |- context [256 ^ ?k] => let x := eval vm_compute in (256 ^ k) in
      change (256 ^ k) with x end;
    match goal with |- context [2 ^ ?k <= _] => let x := eval vm_compute in (2 ^ k) in
      change (2 ^ k) with x | |- _ => idtac end; cbn [Z.mul Z.sub] ; intros; lia.
Qed.

Lemma emits_fixed n p l (k : list Z -> SM pb_ostream_t unit) :
  mem_load (mem wz) p n = Some l ->
  (forall v, le_bytes n v = le_bytes n (le_val l) -> emits (k (le_bytes n v)) tt l) ->
  emits (let* v := load_u n p in k (le_bytes n v)) tt l.
Proof.
  intros E Hk. apply emits_load with (v := le_val l); [|by apply Hk].
  unfold spec_uint, PbEncodeSpec.peek, load_u, load_bytes. cbn. by rewrite Nat2Z.id, E.
Qed.

Lemma emits_fixed32 p l : spec_load wz p 4 = Some l -> emits (pb_encode_fixed32 p) tt l.
Proof using bytes_ok.
  intros E. eapply emits_ext with
    (m' := let* v := load_u 4 p in pb_write (WLocal (le_bytes 4 v)) 4).
  { intros s w. unfold pb_encode_fixed32. cbn [bind].
    destruct (load_u 4 p s w); [|done..]. by rewrite bytes4. }
  pose proof (mem_load_length _ _ _ _ E) as El.
  apply (emits_fixed 4 p l (fun b => pb_write (WLocal b) 4)); [exact E|]. intros v ->.
  rewrite fixed_bytes by (done || by eapply spec_load_bytes).
  replace 4 with (len l) by (unfold len; rewrite El; done). apply emits_pb_write_local.
Qed.

Lemma emits_fixed64 p l : spec_load wz p 8 = Some l -> emits (pb_encode_fixed64 p) tt l.
Proof using bytes_ok.
  intros E. eapply emits_ext with
    (m' := let* v := load_u 8 p in pb_write (WLocal (le_bytes 8 v)) 8).
  { intros s w. unfold pb_encode_fixed64. cbn [bind].
    destruct (load_u 8 p s w); [|done..]. by rewrite bytes8. }
  pose proof (mem_load_length _ _ _ _ E) as El.
  apply (emits_fixed 8 p l (fun b => pb_write (WLocal b) 8)); [exact E|]. intros v ->.
  rewrite fixed_bytes by (done || by eapply spec_load_bytes).
  replace 8 with (len l) by (unfold len; rewrite El; done). apply emits_pb_write_local.
Qed.

(** A length-prefixed copy of [n] bytes of memory. *)
Lemma emits_string_mem p n l :
  spec_load wz p n = Some l -> 0 <= n -> emits (pb_encode_string (WMem p) n) tt (length_delimited l).
Proof.
  intros E Hn. rewrite (spec_load_len _ _ _ E Hn). apply emits_string. by eapply spec_load_src.
Qed.

Lemma emits_string_empty : emits (pb_encode_string WNull 0) tt (length_delimited []).
Proof. by apply (emits_string wz lo hi WNull []). Qed.

Lemma string_size_nonneg n p v : peek (string_size n p) = Some v -> 0 <= v.
Proof.
  unfold PbEncodeSpec.peek, string_size. generalize (S (S (size (mem wz)))). intros fuel.
  enough (Hg : forall st, 0 <= st -> match loop fuel (string_step n p) st tt wz with
    | Ok v _ _ => 0 <= v | _ => True end).
  { specialize (Hg 0 ltac:(lia)). destruct (loop _ _ _ _ _); [|done..]. intros [= <-]. done. }
  induction fuel as [|fuel IH]; intros st Hst; [done|]. cbn. unfold string_step at 1.
  destruct (st <? n); [|done]. cbn. destruct (load_u 1 (p + st) tt wz) as [c [] w|? ?| |] eqn:E; try done.
  assert (w = wz) as -> by (by apply (rd_load_u wz (T := unit) 1 (p + st)) in E as [-> _]).
  destruct (c =? 0); [done|]. apply IH. lia.
Qed.

Lemma emits_error {A} msg (a : A) l : False -> emits (PB_RETURN_ERROR msg) a l.
Proof. done. Qed.

Lemma ltype_range t : 0 <= PB_LTYPE t < 16.
Proof.
  unfold PB_LTYPE, PB_LTYPE_MASK. change 0x0F with (Z.ones 4).
  rewrite Z.land_ones by lia. apply Z.mod_pos_bound. lia.
Qed.

Section message.
Variable enc : Z -> Z -> SM pb_ostream_t unit.
Variable sub : Z -> Z -> option (list Z).
Variable depth : nat.
Hypothesis enc_emits : forall fields src l, sub fields src = Some l -> emits (enc fields src) tt l.
Hypothesis user_encode_emits : forall fn fp arg l,
  encode_bytes wz fn fp arg = Some l -> emits (user_encode fn fp arg) tt l.
Hypothesis user_ext_encode_emits : forall fn e l,
  ext_encode_bytes wz fn e = Some l -> emits (user_ext_encode fn e) tt l.

(** ** Submessages: measured, then written through a bounded substream *)

Lemma emits_submessage fields src l :
  sub fields src = Some l ->
  emits (pb_encode_submessage enc fields src) tt (length_delimited l).
Proof using enc_emits.
  intros E Hl. pose proof Hl as Hl'. unfold length_delimited in Hl'. rewrite len_app in Hl'.
  pose proof (len_nonneg l). pose proof (len_nonneg (varint (Z.of_nat (length l)))).
  specialize (enc_emits _ _ _ E).
  assert (Esize : u64 (0 + len l) = len l) by (rewrite u64_small; lia).
  unfold pb_encode_submessage.
  refine (emits_measure wz lo hi _ _ tt _ l _ ltac:(lia) enc_emits _ Hl). cbv beta iota zeta.
  cbn [sized set_bytes_written bytes_written PB_OSTREAM_SIZING]. rewrite Esize.
  unfold length_delimited. eapply emits_bind; [apply emits_varint; unfold len in *; lia|].
  apply emits_cases; intros _.
  - intros s w Hs Hw. cbn [bind get]. by rewrite pb_write_null by (done || lia).
  - destruct (enc_emits ltac:(lia)) as [_ Hbuf]. intros s w Hs Hw.
    destruct Hs as (Ecb & Hb & Hmax & Hlo & Hhi & Eerr).
    cbn [bind get]. rewrite u64_small by lia.
    split; intros Hfit; (destruct (Z.ltb_spec (max_size s) (bytes_written s + len l)) as [|]; [|try lia]).
    + lia.
    + set (s2 := mk_ostream (ocb s) (ostate s) (len l) 0 None).
      assert (Hs2 : in_buffer lo hi s2) by (unfold in_buffer, s2; cbn; split_and!; (done || lia)).
      destruct (Hbuf s2 w Hs2 Hw) as [Hok _]. destruct Hok as (m' & Em & Er); [cbn; lia|].
      exists m'. split; [done|]. cbn. rewrite Er. cbn. rewrite Z.eqb_refl. cbn.
      unfold copy_back, advanced. cbn. rewrite u64_small by lia. rewrite Ecb, Eerr. done.
    + cbn. eauto.
Qed.

(** ** One item *)

Lemma emits_item f p l func :
  0 <= data_size f ->
  PB_ENCODERS enc !! Z.to_nat (PB_LTYPE (type_ f)) = Some func ->
  spec_item wz sub f p = Some l -> emits (call_encoder func f p) tt l.
Proof using enc_emits bytes_ok tables_ok.
  unfold spec_item. pose proof (ltype_range (type_ f)) as Hlt.
  generalize (PB_LTYPE (type_ f)), Hlt. clear Hlt. intros lt Hlt fsize Hf E.
  assert (Hc : lt = 0 \/ lt = 1 \/ lt = 2 \/ lt = 3 \/ lt = 4 \/ lt = 5 \/ lt = 6 \/ lt = 7 \/
    lt = 8 \/ lt = 9 \/ lt = 10 \/ 10 < lt) by lia.
  destruct Hc as [-> | [-> | [-> | [-> | [-> | [-> | [-> | [-> | [-> | [-> | [-> | Hbig]]]]]]]]]]];
    try (injection Hf as <-; cbn [call_encoder]; cbn -[data_size] in E).
  - inv_bind. subst. unfold pb_enc_bool. eapply emits_read; [apply rd_safe_read_bool|eassumption|].
    apply emits_varint. match goal with |- context [b2z ?b] => destruct b end; cbn; lia.
  - inv_bind. subst. unfold pb_enc_varint. eapply emits_load_int; [eassumption|].
    apply emits_varint, u64_range.
  - inv_bind. subst. unfold pb_enc_uvarint. eapply emits_load_int; [eassumption|].
    apply emits_varint. by apply (spec_int_range false (data_size f) p).
  - inv_bind. subst. unfold pb_enc_svarint. eapply emits_load_int; [eassumption|].
    apply emits_svarint. by apply (spec_int_range true (data_size f) p).
  - by apply emits_fixed32.
  - by apply emits_fixed64.
  - unfold pb_enc_bytes. destruct (p =? NULL); [injection E as <-; apply emits_string_empty|].
    inv_bind. destruct (_ && _) eqn:Eb; [done|]. inv_bind. subst.
    eapply emits_load; [eassumption|]. rewrite Eb. apply emits_string_mem; [done|].
    match goal with Hu : spec_uint _ _ _ = Some _ |- _ => apply spec_uint_inv in Hu as (? & _ & _ & ?) end.
    lia.
  - unfold pb_enc_string. cbv zeta. fold (is_pointer f).
    destruct (p =? NULL); [injection E as <-; apply emits_string_empty|].
    inv_bind. subst.
    eapply emits_read; [apply rd_string_size|eassumption|]. apply emits_string_mem; [done|].
    by eapply string_size_nonneg.
  - unfold pb_enc_submessage. destruct (ptr f =? NULL); [done|]. inv_bind. subst.
    by apply emits_submessage.
  - done.
  - inv_bind. subst. by apply emits_string_mem.
  - exfalso. revert Hf. unfold PB_ENCODERS. rewrite lookup_ge_None_2; [done|].
    cbn. lia.
Qed.

(** ** Tagged items and arrays *)

Lemma wiretype_range t wt : wiretype_of_ltype t = Some wt -> 0 <= wt < 8.
Proof.
  unfold wiretype_of_ltype, PB_WT_VARINT, PB_WT_32BIT, PB_WT_64BIT, PB_WT_STRING.
  intros E. repeat case_match; simplify_eq; lia.
Qed.

Lemma emits_tag_for_field f wt :
  wiretype_of_ltype (PB_LTYPE (type_ f)) = Some wt -> field_ok f ->
  emits (pb_encode_tag_for_field f) tt (tag_bytes wt (tag f)).
Proof.
  intros E (Ht & _). unfold pb_encode_tag_for_field. rewrite E.
  apply emits_tag; [by eapply wiretype_range|done].
Qed.

Lemma emits_tagged f p l func :
  field_ok f -> PB_ENCODERS enc !! Z.to_nat (PB_LTYPE (type_ f)) = Some func ->
  spec_tagged wz sub f p = Some l ->
  emits (pb_encode_tag_for_field f;; call_encoder func f p) tt l.
Proof using enc_emits bytes_ok tables_ok.
  intros Hf Hfun E. unfold spec_tagged in E. inv_bind. subst.
  eapply emits_bind; [by apply emits_tag_for_field|].
  apply emits_item; [apply Hf|done|done].
Qed.

Lemma emits_items_loop item spec step count n i p l :
  (forall q r, spec q = Some r -> emits (item q) tt r) ->
  count - i = Z.of_nat n -> 0 <= i ->
  spec_items spec p step n = Some l ->
  emits (loop (S n) (fun ip : Z * Z =>
    let (i, p) := ip in
    if i <? count then item p;; ret (inl (i + 1, p + step)) else ret (inr tt)) (i, p)) tt l.
Proof.
  intros Hitem. revert i p l. induction n as [|n IH]; intros i p l Hc Hi E; cbn in E.
  - injection E as <-. cbn [loop]. destruct (Z.ltb_spec i count); [lia|].
    apply (emits_ret wz lo hi tt).
  - inv_bind. subst. cbn [loop]. destruct (Z.ltb_spec i count); [|lia].
    apply emits_assoc. eapply emits_bind; [by apply Hitem|].
    apply emits_ret_bind. apply IH; [lia|lia|done].
Qed.

Lemma emits_for_each_item item spec step count p l :
  (forall q r, spec q = Some r -> emits (item q) tt r) -> 0 <= count ->
  spec_items spec p step (Z.to_nat count) = Some l ->
  emits (for_each_item item p step count) tt l.
Proof. intros Hi Hc E. eapply emits_items_loop; [exact Hi|lia|lia|done]. Qed.

Lemma spec_items_length spec k step n p l :
  (forall q r, spec q = Some r -> len r = k) ->
  spec_items spec p step n = Some l -> len l = k * Z.of_nat n.
Proof.
  intros Hk. revert p l. induction n as [|n IH]; intros p l E; cbn in E; [injection E as <-; unfold len; cbn; lia|].
  inv_bind. subst. rewrite len_app.
  match goal with H1 : spec p = Some _, H2 : spec_items _ _ _ n = Some _ |- _ =>
    rewrite (Hk _ _ H1), (IH _ _ H2) end. lia.
Qed.

(** The size the encoder announces for a packed array, by multiplication for the
    fixed-width types and by measuring otherwise, is the size of its items. *)
Lemma emits_packed_size {B} f p count func l (k : Z -> SM pb_ostream_t B) b r :
  0 <= data_size f -> 0 <= count -> len l < 2 ^ 63 ->
  PB_ENCODERS enc !! Z.to_nat (PB_LTYPE (type_ f)) = Some func ->
  spec_items (spec_item wz sub f) p (data_size f) (Z.to_nat count) = Some l ->
  emits (k (len l)) b r ->
  emits (bind (if PB_LTYPE (type_ f) =? PB_LTYPE_FIXED32 then ret (u64 (4 * count))
      else if PB_LTYPE (type_ f) =? PB_LTYPE_FIXED64 then ret (u64 (8 * count))
      else
        let* (r, sizestream) :=
          on_stream PB_OSTREAM_SIZING
            (for_each_item (call_encoder func f) p (data_size f) count) in
        match r with
        | Some _ => ret (bytes_written sizestream)
        | None => fail
        end) k) b r.
Proof using enc_emits bytes_ok tables_ok.
  intros Hd Hc Hl Hfun E Hk. pose proof (len_nonneg l).
  destruct (Z.eqb_spec (PB_LTYPE (type_ f)) PB_LTYPE_FIXED32) as [E4|];
    [|destruct (Z.eqb_spec (PB_LTYPE (type_ f)) PB_LTYPE_FIXED64) as [E8|]].
  - apply emits_ret_bind. replace (u64 (4 * count)) with (len l); [done|].
    assert (El : len l = 4 * Z.of_nat (Z.to_nat count)).
    { eapply spec_items_length; [|exact E]. intros q r' Eq. unfold spec_item in Eq.
      rewrite E4 in Eq. symmetry. apply (spec_load_len _ _ _ Eq). lia. }
    rewrite u64_small; lia.
  - apply emits_ret_bind. replace (u64 (8 * count)) with (len l); [done|].
    assert (El : len l = 8 * Z.of_nat (Z.to_nat count)).
    { eapply spec_items_length; [|exact E]. intros q r' Eq. unfold spec_item in Eq.
      rewrite E8 in Eq. symmetry. apply (spec_load_len _ _ _ Eq). lia. }
    rewrite u64_small; lia.
  - apply emits_assoc. refine (emits_measure wz lo hi _ _ tt _ l _ Hl _ _).
    + eapply emits_for_each_item; [|done|done]. intros q r' Eq. by apply emits_item.
    + cbn. rewrite u64_small by lia. exact Hk.
Qed.

Lemma emits_array f p count func l :
  field_ok f -> 0 <= count ->
  PB_ENCODERS enc !! Z.to_nat (PB_LTYPE (type_ f)) = Some func ->
  spec_array wz sub f p count = Some l ->
  emits (encode_array f p count (call_encoder func)) tt l.
Proof using enc_emits bytes_ok tables_ok.
  intros Hf Hc Hfun E. pose proof Hf as (Ht & Hd & _).
  unfold spec_array in E. unfold encode_array. fold (is_pointer f).
  destruct (count =? 0); [injection E as <-; apply emits_ret|].
  destruct (negb (is_pointer f) && _); [done|].
  destruct (PB_LTYPE (type_ f) <=? PB_LTYPE_LAST_PACKABLE).
  - apply bind_Some in E as (items & Ei & E). injection E as <-. apply emits_given_len. intros Hl.
    unfold length_delimited in Hl. rewrite !len_app in Hl.
    pose proof (len_nonneg items). pose proof (len_nonneg (varint (Z.of_nat (length items)))).
    pose proof (len_nonneg (tag_bytes PB_WT_STRING (tag f))).
    eapply emits_bind; [apply emits_tag; [done|done]|].
    eapply (emits_packed_size f p count func items); [lia|done|lia|done|done|].
    unfold length_delimited. eapply emits_bind; [apply emits_varint; unfold len in *; lia|].
    apply emits_cases; intros Hi.
    + intros s w Hs Hw. cbn [bind get]. by rewrite pb_write_null by (done || lia).
    + assert (Hitems : emits (for_each_item (call_encoder func f) p (data_size f) count) tt items).
      { eapply emits_for_each_item; [|done|done]. intros q r' Eq. apply emits_item; [lia|done|done]. }
      apply (Hitems Hi).
  - eapply emits_for_each_item; [|done|done]. cbn beta. intros q r Eq.
    destruct (is_pointer f && _) eqn:Eptr.
    + inv_bind. unfold spec_tagged in Eq. inv_bind. subst.
      eapply emits_bind; [by apply emits_tag_for_field|].
      eapply emits_load; [eassumption|]. apply emits_item; [lia|done|done].
    + cbn in Eq. by eapply emits_tagged.
Qed.

(** ** Fields *)

Lemma encoders_lookup t :
  PB_LTYPE t <= 10 -> exists func, PB_ENCODERS enc !! Z.to_nat (PB_LTYPE t) = Some func.
Proof.
  intros Ht. pose proof (ltype_range t). apply lookup_lt_is_Some_2. cbn. lia.
Qed.

Lemma uint32_nonneg p v : spec_uint wz 4 p = Some v -> 0 <= v.
Proof using bytes_ok. intros E. apply spec_uint_inv in E as (? & _ & _ & ?). lia. Qed.

Lemma emits_basic f p l :
  field_ok f -> spec_basic wz sub depth f p = Some l ->
  emits (encode_basic_field enc depth f p) tt l.
Proof using enc_emits bytes_ok tables_ok.
  intros Hf E. unfold spec_basic in E. unfold encode_basic_field.
  destruct (Z.ltb_spec 10 (PB_LTYPE (type_ f))) as [|Hlt]; [done|].
  destruct (encoders_lookup _ Hlt) as [func Hfun]. rewrite Hfun. apply emits_ret_bind.
  apply bind_Some in E as (implicit & Eimp & E).
  apply bind_Some in E as ([q implicit'] & Eq & E). cbv beta iota zeta in E |- *.
  fold (is_pointer f) in *.
  (* the proto3 presence test *)
  assert (Himp : forall (k : bool -> SM pb_ostream_t unit), emits (k implicit) tt l ->
    emits (bind (if negb (size_offset f =? 0) then ret false
      else if PB_HTYPE (type_ f) =? PB_HTYPE_OPTIONAL
      then let* z := pb_check_proto3_default_value depth f p in ret (negb z)
      else ret true) k) tt l).
  { intros k Hk. destruct (negb (size_offset f =? 0)); [injection Eimp as <-; exact Hk|].
    destruct (_ =? PB_HTYPE_OPTIONAL); [|injection Eimp as <-; exact Hk].
    inv_bind. subst. apply emits_assoc.
    eapply emits_read; [apply rd_check_default|eassumption|exact Hk]. }
  apply Himp. clear Himp.
  assert (Hptr : forall (k : Z * bool -> SM pb_ostream_t unit), emits (k (q, implicit')) tt l ->
    emits (bind (if is_pointer f then let* p := load_ptr p in ret (p, negb (p =? NULL))
                 else ret (p, implicit)) k) tt l).
  { intros k Hk. destruct (is_pointer f); [|injection Eq as <- <-; exact Hk].
    inv_bind. subst. apply emits_assoc. eapply emits_load; [eassumption|exact Hk]. }
  apply Hptr. clear Hptr. cbv beta iota.
  destruct (_ =? PB_HTYPE_REQUIRED).
  { destruct (q =? NULL); [done|]. by apply emits_tagged. }
  destruct (_ =? PB_HTYPE_OPTIONAL).
  { apply bind_Some in E as (has & Ehas & E).
    assert (Hk : emits (if has then pb_encode_tag_for_field f;; call_encoder func f q
                        else ret tt) tt l).
    { destruct has; [by apply emits_tagged|injection E as <-; apply emits_ret]. }
    destruct (negb (size_offset f =? 0)); [|injection Ehas as <-; exact Hk].
    eapply emits_read; [apply rd_safe_read_bool|exact Ehas|exact Hk]. }
  destruct (_ =? PB_HTYPE_REPEATED).
  { apply bind_Some in E as (count & Ecount & E). destruct (negb (size_offset f =? 0)).
    - eapply emits_load; [exact Ecount|]. apply emits_array; try done. by eapply uint32_nonneg.
    - injection Ecount as <-. apply emits_ret_bind. apply emits_array; try done. apply Hf. }
  destruct (_ =? PB_HTYPE_ONEOF); [|done].
  apply bind_Some in E as (which & Ewhich & E). destruct (negb (size_offset f =? 0)); [|done].
  eapply emits_load; [exact Ewhich|].
  destruct (which =? tag f); [by apply emits_tagged|injection E as <-; apply emits_ret].
Qed.

(** A callback of the application whose failure the caller turns into an error. *)
Lemma emits_attempt (m : SM pb_ostream_t unit) msg l :
  emits m tt l ->
  emits (let* r := attempt m in
         match r with Some _ => ret tt | None => PB_RETURN_ERROR msg end) tt l.
Proof.
  intros Hm Hl. destruct (Hm Hl) as [Hn Hb]. split.
  - intros s w Hs Hw. cbn. by rewrite (Hn s w Hs Hw).
  - intros s w Hs Hw. destruct (Hb s w Hs Hw) as [H1 H2]. split; intros Hfit.
    + destruct (H1 Hfit) as (m' & E & Er). exists m'. split; [done|]. cbn. by rewrite Er.
    + destruct (H2 Hfit) as (s' & w' & Er & Ha). cbn. rewrite Er. cbn. eauto.
Qed.

Lemma emits_field fp p l :
  spec_field wz sub depth fp p = Some l -> emits (encode_field enc depth fp p) tt l.
Proof using enc_emits bytes_ok tables_ok user_encode_emits.
  unfold spec_field, encode_field. intros E. apply bind_Some in E as (f & Ef & E).
  eapply emits_field_at; [exact Ef|]. cbv zeta in *. destruct (_ || _).
  { apply emits_basic; [by eapply tables_ok|done]. }
  destruct (_ =? PB_ATYPE_CALLBACK); [|done].
  apply bind_Some in E as (fn & Efn & E). unfold encode_callback_field.
  eapply emits_load; [exact Efn|]. destruct (negb (fn =? NULL)).
  - apply emits_attempt. by apply user_encode_emits.
  - injection E as <-. apply emits_ret.
Qed.

(** ** Extensions *)

Lemma emits_default_extension e l :
  spec_default_extension wz sub depth e = Some l ->
  emits (default_extension_encoder enc depth e) tt l.
Proof using enc_emits bytes_ok tables_ok user_encode_emits.
  unfold spec_default_extension, default_extension_encoder. intros E.
  apply bind_Some in E as (type & Et & E). apply bind_Some in E as (fp & Efp & E).
  apply bind_Some in E as (f & Ef & E).
  eapply emits_load; [exact Et|]. eapply emits_load; [exact Efp|].
  eapply emits_field_at; [exact Ef|]. fold (is_pointer f). destruct (is_pointer f).
  - by apply emits_field.
  - apply bind_Some in E as (dest & Ed & E). eapply emits_load; [exact Ed|]. by apply emits_field.
Qed.

Lemma emits_extensions_loop n fuel e l :
  (n <= fuel)%nat -> spec_extensions wz sub depth n e = Some l ->
  emits (loop fuel (fun extension =>
    if negb (extension =? NULL) then
      let* type := load_ptr (ext_type extension) in
      let* encode := load_ptr (exttype_encode type) in
      (if negb (encode =? NULL) then user_ext_encode encode extension
       else default_extension_encoder enc depth extension);;
      let* next := load_ptr (ext_next extension) in
      ret (inl next)
    else ret (inr tt)) e) tt l.
Proof using enc_emits bytes_ok tables_ok user_encode_emits user_ext_encode_emits.
  revert fuel e l. induction n as [|n IH]; intros fuel e l Hf E; [done|].
  destruct fuel as [|fuel]; [lia|]. cbn [loop spec_extensions] in *.
  destruct (negb (e =? NULL)); [|injection E as <-; apply (emits_ret wz lo hi tt)].
  apply bind_Some in E as (type & Et & E). apply bind_Some in E as (fn & Efn & E).
  apply bind_Some in E as (l1 & E1 & E). apply bind_Some in E as (next & En & E).
  apply bind_Some in E as (l2 & E2 & E). injection E as <-.
  apply emits_assoc. eapply emits_load; [exact Et|].
  apply emits_assoc. eapply emits_load; [exact Efn|].
  apply emits_assoc. eapply emits_bind.
  { destruct (negb (fn =? NULL)); [by apply user_ext_encode_emits|by apply emits_default_extension]. }
  apply emits_assoc. eapply emits_load; [exact En|]. apply emits_ret_bind. apply IH; [lia|done].
Qed.

Lemma emits_chain_fuel (k : nat -> SM pb_ostream_t unit) l :
  (forall fuel, (S (size (mem wz)) <= fuel)%nat -> emits (k fuel) tt l) ->
  emits (bind chain_fuel k) tt l.
Proof.
  intros Hk Hl. split.
  - intros s w Hs Hw. cbn. pose proof (size_mono wz w Hw).
    by apply (Hk (S (size (mem w))) ltac:(lia) Hl).
  - intros s w Hs Hw. cbn. pose proof (size_mono wz w (agree_sub _ _ _ _ Hw)).
    by apply (Hk (S (size (mem w))) ltac:(lia) Hl).
Qed.

(** ** The loop over the field table *)

Lemma emits_fields_loop n it l :
  spec_fields wz sub depth n it = Some l ->
  emits (loop n (fun iter =>
    let* field := field_at (pos iter) in
    (if PB_LTYPE (type_ field) =? PB_LTYPE_EXTENSION
     then encode_extension_field enc depth (pData iter)
     else encode_field enc depth (pos iter) (pData iter));;
    let* (more, iter) := pb_field_iter_next iter in
    if more then ret (inl iter) else ret (inr tt)) it) tt l.
Proof using enc_emits bytes_ok tables_ok user_encode_emits user_ext_encode_emits.
  revert it l. induction n as [|n IH]; intros it l E; [done|]. cbn [loop spec_fields] in *.
  apply bind_Some in E as (f & Ef & E). apply bind_Some in E as (l1 & E1 & E).
  apply bind_Some in E as ([more it'] & En & E). cbv beta iota in E.
  apply emits_assoc. eapply emits_field_at; [exact Ef|]. apply emits_assoc.
  assert (exists l2, l = l1 ++ l2 /\
    if more then spec_fields wz sub depth n it' = Some l2 else l2 = []) as (l2 & El & E2).
  { destruct more; [|injection E as <-; exists []; by rewrite app_nil_r].
    apply bind_Some in E as (l2 & E2 & E). injection E as <-. eauto. }
  subst l. eapply emits_bind.
  { destruct (_ =? PB_LTYPE_EXTENSION); [|by apply emits_field].
    apply bind_Some in E1 as (e & Ee & E1). unfold encode_extension_field.
    eapply emits_load; [exact Ee|]. apply emits_chain_fuel. intros fuel Hf.
    by eapply emits_extensions_loop. }
  apply emits_assoc. eapply emits_read; [apply rd_iter_next|exact En|]. cbv beta iota.
  destruct more; apply emits_ret_bind; [by apply IH|]. subst. apply (emits_ret wz lo hi tt).
Qed.

End message.

(** ** The message *)

Hypothesis user_encode_emits : forall fn fp arg l,
  encode_bytes wz fn fp arg = Some l -> emits (user_encode fn fp arg) tt l.
Hypothesis user_ext_encode_emits : forall fn e l,
  ext_encode_bytes wz fn e = Some l -> emits (user_ext_encode fn e) tt l.

Lemma emits_message depth fields src l :
  message_bytes wz depth fields src = Some l -> emits (pb_encode depth fields src) tt l.
Proof using bytes_ok tables_ok user_encode_emits user_ext_encode_emits.
  revert fields src l. induction depth as [|depth IH]; intros fields src l E; [done|].
  cbn [message_bytes pb_encode] in *. unfold pb_encode_fields.
  apply bind_Some in E as ([more it] & Eb & E). cbv beta iota in E.
  eapply emits_read; [apply rd_iter_begin|exact Eb|]. cbv beta iota.
  destruct more; cbn [negb]; [|injection E as <-; apply emits_ret].
  eapply emits_fields_loop; eauto.
Qed.

End refine.
