(* ===== verification/PbEncodeThms.v ===== *)
(** A concrete program for the instances of the theorems: two message types, a
    message in memory, an output buffer and an application without callbacks.

    The outer message has a required int32 (1), an optional string (2), a repeated
    packed int32 (3) and an optional pointer to a submessage (4) with one required
    sint32. *)
From stdpp Require Import base gmap list strings numbers option.
From Stdlib Require Import ZArith Lia.
From S2P Require Import Prelude Cmem Hoare PbTypes PbEncode PbWire PbEncodeSpec PbEmits PbEncodeRefine.

Definition ex_table : gmap Z pb_field_t :=
  list_to_map [
    (1000, mk_field 1 (PB_HTYPE_REQUIRED + PB_LTYPE_VARINT) 0 0 4 0 0);
    (1032, mk_field 2 (PB_HTYPE_OPTIONAL + PB_LTYPE_STRING) 1 (-1) 10 0 0);
    (1064, mk_field 3 (PB_HTYPE_REPEATED + PB_LTYPE_VARINT) 5 (-4) 4 3 0);
    (1096, mk_field 4 (PB_ATYPE_POINTER + PB_HTYPE_OPTIONAL + PB_LTYPE_SUBMESSAGE) 0 0 4 0 1160);
    (1128, PB_LAST_FIELD);
    (1160, mk_field 1 (PB_HTYPE_REQUIRED + PB_LTYPE_SVARINT) 0 0 4 0 0);
    (1192, PB_LAST_FIELD)].

#[export] Instance ex_cenv : CEnv := {|
  junk := fun _ => 170;
  alloc_ok := fun _ _ => true;
|}.

#[export] Instance ex_env : PbEnv := {|
  pb_cenv := ex_cenv;
  rodata := ex_table;
  user_read := fun _ _ => ub;
  user_write := fun _ _ => ub;
  user_decode := fun _ _ _ => ub;
  user_encode := fun _ _ _ => ub;
  user_ext_decode := fun _ _ _ _ => ub;
  user_ext_encode := fun _ _ => ub;
|}.

#[export] Instance ex_callbacks : EncCallbacks := {|
  encode_bytes := fun _ _ _ _ => None;
  ext_encode_bytes := fun _ _ _ => None;
|}.

(** The message struct is at 100, the submessage at 200, the buffer at 300. *)
Definition ex_struct : list Z :=
  le_bytes 4 150 ++ [1] ++ [65; 66; 0; 0; 0; 0; 0; 0; 0; 0] ++ [0] ++
  le_bytes 4 2 ++ le_bytes 4 3 ++ le_bytes 4 (-1) ++ le_bytes 4 0 ++ le_bytes 8 200.

Definition ex_message : gmap Z Z :=
  mem_fill (mem_fill ∅ 100 ex_struct) 200 (le_bytes 4 (-2)).

Definition ex_world : world := World (mem_fill ex_message 300 (repeat 0 64)) ∅ 4000.

(** The bytes of the message on the wire. *)
Definition ex_wire : list Z :=
  [8; 150; 1; 18; 2; 65; 66; 26; 11; 3; 255; 255; 255; 255; 255; 255; 255; 255; 255; 1;
   34; 2; 8; 3].

Lemma ex_memory_bytes l p m :
  (forall a b, m !! a = Some b -> 0 <= b < 256) -> Forall (fun b => 0 <= b < 256) l ->
  forall a b, mem_fill m p l !! a = Some b -> 0 <= b < 256.
Proof.
  intros Hm Hl. revert m p Hm. induction Hl as [|c l Hc Hl IH]; intros m p Hm; [exact Hm|].
  cbn. apply IH. intros a b. rewrite lookup_insert_Some. intros [[_ <-]|[_ E]]; eauto.
Qed.

(** * The contract of pb_encode.c's entry points, from the refinement of
    [PbEncodeRefine]: what the encoder writes, how much it announces, what happens
    when the buffer is too small, and which framings it can add. *)

(** What the encoder relies on: field tables whose members have their C widths, and
    callbacks that write the same bytes each time they are called. *)
Class EncodeEnvOk `{PbEnv, EncCallbacks} : Prop := {
  tables_ok : forall p f, rodata !! p = Some f -> field_ok f;
  user_encode_ok : forall wz lo hi fn fp arg l,
    encode_bytes wz fn fp arg = Some l -> emits wz lo hi (user_encode fn fp arg) tt l;
  user_ext_encode_ok : forall wz lo hi fn e l,
    ext_encode_bytes wz fn e = Some l -> emits wz lo hi (user_ext_encode fn e) tt l;
}.

(** The world without the [n] bytes at [p]: the message may not lie in the buffer it
    is encoded to. *)
Definition without (p n : Z) (w : world) : world :=
  World (filter (fun ab => ~ (p <= ab.1 < p + n)) (mem w)) (blocks w) (brk w).

(** The [n] bytes at [p] exist. *)
Definition has_object (p n : Z) (w : world) : Prop :=
  forall a, p <= a < p + n -> is_Some (mem w !! a).

Definition byte_memory (w : world) : Prop :=
  forall a b, mem w !! a = Some b -> is_byte b.

(** Outside the [n] bytes at [p] the two memories are equal. *)
Definition same_outside (p n : Z) (w w' : world) : Prop :=
  forall a, ~ (p <= a < p + n) -> mem w' !! a = mem w !! a.

Lemma without_lookup p n w a :
  mem (without p n w) !! a = if decide (p <= a < p + n) then None else mem w !! a.
Proof.
  cbn. destruct (decide (p <= a < p + n)) as [Hin|Hout].
  - rewrite map_lookup_filter_None. right. intros b _. cbn. tauto.
  - destruct (mem w !! a) as [b|] eqn:E.
    + rewrite map_lookup_filter_Some. done.
    + rewrite map_lookup_filter_None. by left.
Qed.

Lemma without_agree p n w : has_object p n w -> agree (without p n w) p (p + n) w.
Proof.
  intros Hb. split; intros a Ha; rewrite without_lookup; destruct (decide _); try tauto.
  split; [done|]. by apply Hb.
Qed.

Lemma without_bytes p n w : byte_memory w -> byte_memory (without p n w).
Proof. intros Hw a b. rewrite without_lookup. destruct (decide _); [done|apply Hw]. Qed.

Lemma agree_same_outside p n w w' :
  agree (without p n w) p (p + n) w' -> same_outside p n w w'.
Proof.
  intros [Ha _] a Hout. rewrite (Ha a Hout), without_lookup. by destruct (decide _).
Qed.

Section thms.
Context `{EncodeEnvOk}.

Lemma message_emits w lo hi depth fields src l :
  byte_memory w -> message_bytes w depth fields src = Some l ->
  emits w lo hi (pb_encode depth fields src) tt l.
Proof.
  intros Hw. apply emits_message; [exact tables_ok|exact Hw| |];
    intros; [by apply user_encode_ok|by apply user_ext_encode_ok].
Qed.

(** What [emits] says of a stream over a whole buffer. *)
Lemma emits_buffer m buf n w l :
  0 <= n < 2 ^ 63 -> has_object buf n w ->
  emits (without buf n w) buf (buf + n) m tt l -> len l < 2 ^ 63 ->
  (len l <= n ->
     exists m', mem_store (mem w) buf l = Some m' /\
       m (pb_ostream_from_buffer buf n) w
       = Ok tt (mk_ostream buf_write_cb (buf + len l) n (len l) None)
               (World m' (blocks w) (brk w))) /\
  (n < len l -> exists s' w',
     m (pb_ostream_from_buffer buf n) w = Err s' w' /\ same_outside buf n w w').
Proof.
  intros Hn Hb Hm Hl. destruct (Hm Hl) as [_ Hbuf].
  assert (Hs : in_buffer buf (buf + n) (pb_ostream_from_buffer buf n))
    by (unfold in_buffer; cbn; split_and!; (done || lia)).
  destruct (Hbuf _ _ Hs (without_agree _ _ _ Hb)) as [Hfit Hfull]. cbn in Hfit, Hfull. split.
  - exact Hfit.
  - intros Hlt. destruct (Hfull Hlt) as (s' & w' & E & Ha). exists s', w'. split; [done|].
    by apply agree_same_outside.
Qed.

(** The sizing pass announces exactly the length of the message. *)
Lemma emits_sized {T} m w l (s : T) :
  emits w 0 0 m tt l -> len l < 2 ^ 63 ->
  (let* (r, stream) := on_stream PB_OSTREAM_SIZING m in
   match r with Some _ => ret (bytes_written stream) | None => fail end) s w = Ok (len l) s w.
Proof.
  intros Hm Hl. destruct (Hm Hl) as [Hn _]. cbn. rewrite Hn; [|split; [done|cbn; lia]|done].
  cbn. rewrite u64_small; [done|]. pose proof (len_nonneg l). lia.
Qed.

Lemma delimited_emits w lo hi depth fields src l :
  byte_memory w -> message_bytes w depth fields src = Some l ->
  emits w lo hi (pb_encode_delimited depth fields src) tt (length_delimited l).
Proof.
  intros Hw E. apply (emits_submessage w lo hi (pb_encode depth) (message_bytes w depth)); [|exact E].
  intros. by apply message_emits.
Qed.

Lemma nullterminated_emits w lo hi depth fields src l :
  byte_memory w -> message_bytes w depth fields src = Some l ->
  emits w lo hi (pb_encode_nullterminated depth fields src) tt (l ++ [0]).
Proof.
  intros Hw E. eapply emits_bind; [by apply message_emits|].
  apply (emits_pb_write_local w lo hi [0]).
Qed.

(** * The contract of [pb_encode] *)

(** C16: encoding a message to a buffer that has room for it succeeds, and stores the
    specified bytes of the message at the start of the buffer and nothing anywhere
    else; the stream counts exactly those bytes. *)
Theorem pb_encode_to_buffer depth fields src buf n w l :
  0 <= n < 2 ^ 63 -> has_object buf n w -> byte_memory w ->
  message_bytes (without buf n w) depth fields src = Some l -> len l <= n ->
  exists m', mem_store (mem w) buf l = Some m' /\
    pb_encode depth fields src (pb_ostream_from_buffer buf n) w
    = Ok tt (mk_ostream buf_write_cb (buf + len l) n (len l) None) (World m' (blocks w) (brk w)).
Proof.
  intros Hn Hb Hw E Hl.
  apply (emits_buffer (pb_encode depth fields src)); [done|done| |lia|done].
  apply message_emits; [by apply without_bytes|done].
Qed.

(** C17: A buffer that is too small makes [pb_encode] return false, and no byte
    outside the buffer has changed. *)
Theorem pb_encode_buffer_full depth fields src buf n w l :
  0 <= n < 2 ^ 63 -> has_object buf n w -> byte_memory w ->
  message_bytes (without buf n w) depth fields src = Some l -> n < len l < 2 ^ 63 ->
  exists s' w', pb_encode depth fields src (pb_ostream_from_buffer buf n) w = Err s' w' /\
    same_outside buf n w w'.
Proof.
  intros Hn Hb Hw E Hl.
  apply (emits_buffer (pb_encode depth fields src) buf n w l); [done|done| |lia|lia].
  apply message_emits; [by apply without_bytes|done].
Qed.

(** [pb_get_encoded_size] is the number of bytes of the message, and leaves the
    memory alone. *)
Theorem pb_get_encoded_size_exact depth fields src w l :
  byte_memory w -> message_bytes w depth fields src = Some l -> len l < 2 ^ 63 ->
  pb_get_encoded_size depth fields src tt w = Ok (len l) tt w.
Proof.
  intros Hw E Hl. apply (emits_sized (pb_encode depth fields src) w l tt); [|exact Hl].
  by apply message_emits.
Qed.

(** A length-delimited message is its length as a varint and the message, and
    the null-terminated one is the message and a zero byte. *)
Theorem pb_encode_framings depth fields src buf n w l :
  0 <= n < 2 ^ 63 -> has_object buf n w -> byte_memory w ->
  message_bytes (without buf n w) depth fields src = Some l -> len l + 10 <= n ->
  (exists m', mem_store (mem w) buf (length_delimited l) = Some m' /\
    pb_encode_delimited depth fields src (pb_ostream_from_buffer buf n) w
    = Ok tt (mk_ostream buf_write_cb (buf + len (length_delimited l)) n
               (len (length_delimited l)) None) (World m' (blocks w) (brk w))) /\
  (exists m', mem_store (mem w) buf (l ++ [0]) = Some m' /\
    pb_encode_nullterminated depth fields src (pb_ostream_from_buffer buf n) w
    = Ok tt (mk_ostream buf_write_cb (buf + (len l + 1)) n (len l + 1) None)
            (World m' (blocks w) (brk w))).
Proof.
  intros Hn Hb Hw E Hl. pose proof (varint_length_max (Z.of_nat (length l))) as Hv.
  assert (Hd : len (length_delimited l) <= n) by (unfold length_delimited, len in *; rewrite length_app; lia).
  assert (Hz : len (l ++ [0]) = len l + 1) by (rewrite len_app; done). split.
  - apply (emits_buffer (pb_encode_delimited depth fields src)); [done|done| |lia|done].
    apply delimited_emits; [by apply without_bytes|done].
  - rewrite <- Hz. apply (emits_buffer (pb_encode_nullterminated depth fields src));
      [done|done| |lia|lia].
    apply nullterminated_emits; [by apply without_bytes|done].
Qed.

End thms.

(** * Instances *)

#[export] Instance ex_encode_ok : EncodeEnvOk.
Proof.
  split; [|done|done]. intros p f E.
  apply elem_of_list_to_map_2 in E. unfold field_ok.
  repeat (apply elem_of_cons in E as [E|E]; [injection E as -> ->; cbn; lia|]). set_solver.
Qed.

Lemma ex_world_bytes : byte_memory ex_world.
Proof.
  unfold byte_memory, ex_world, ex_message; cbn [mem].
  apply ex_memory_bytes; [|by repeat constructor].
  apply ex_memory_bytes; [|apply le_bytes_bytes].
  apply ex_memory_bytes; [done|].
  unfold ex_struct. repeat apply Forall_app_2; try apply le_bytes_bytes; repeat constructor; done.
Qed.

Lemma ex_world_buffer : has_object 300 64 ex_world.
Proof.
  intros a Ha. apply elem_of_dom.
  assert (E : forallb (fun i => bool_decide (300 + Z.of_nat i ∈ dom (mem ex_world))) (seq 0 64) = true)
    by (vm_compute; reflexivity).
  rewrite forallb_forall in E. specialize (E (Z.to_nat (a - 300))).
  rewrite in_seq in E. specialize (E ltac:(lia)). apply bool_decide_eq_true in E.
  by replace (300 + Z.of_nat (Z.to_nat (a - 300))) with a in E by lia.
Qed.

Lemma ex_message_bytes : message_bytes (without 300 64 ex_world) 2 1000 100 = Some ex_wire.
Proof. vm_compute. reflexivity. Qed.

Lemma ex_has_object n : n <= 64 -> has_object 300 n ex_world.
Proof. intros Hn a Ha. apply ex_world_buffer. lia. Qed.

Lemma pb_encode_to_buffer_witness :
  exists m', mem_store (mem ex_world) 300 ex_wire = Some m' /\
    pb_encode 2 1000 100 (pb_ostream_from_buffer 300 64) ex_world
    = Ok tt (mk_ostream buf_write_cb (300 + len ex_wire) 64 (len ex_wire) None)
            (World m' (blocks ex_world) (brk ex_world)).
Proof.
  apply (pb_encode_to_buffer 2 1000 100 300 64 ex_world ex_wire).
  - lia.
  - exact ex_world_buffer.
  - exact ex_world_bytes.
  - exact ex_message_bytes.
  - vm_compute. discriminate.
Defined.

Lemma pb_encode_buffer_full_witness :
  exists s' w', pb_encode 2 1000 100 (pb_ostream_from_buffer 300 23) ex_world = Err s' w' /\
    same_outside 300 23 ex_world w'.
Proof.
  apply (pb_encode_buffer_full 2 1000 100 300 23 ex_world ex_wire).
  - lia.
  - apply ex_has_object. lia.
  - exact ex_world_bytes.
  - vm_compute. reflexivity.
  - split; vm_compute; reflexivity.
Defined.

Lemma pb_get_encoded_size_exact_witness :
  pb_get_encoded_size 2 1000 100 tt ex_world = Ok 24 tt ex_world.
Proof.
  apply (pb_get_encoded_size_exact 2 1000 100 ex_world ex_wire).
  - exact ex_world_bytes.
  - vm_compute. reflexivity.
  - vm_compute. reflexivity.
Defined.

Lemma pb_encode_framings_witness :
  (exists m', mem_store (mem ex_world) 300 (length_delimited ex_wire) = Some m' /\
    pb_encode_delimited 2 1000 100 (pb_ostream_from_buffer 300 64) ex_world
    = Ok tt (mk_ostream buf_write_cb (300 + len (length_delimited ex_wire)) 64
               (len (length_delimited ex_wire)) None)
            (World m' (blocks ex_world) (brk ex_world))) /\
  (exists m', mem_store (mem ex_world) 300 (ex_wire ++ [0]) = Some m' /\
    pb_encode_nullterminated 2 1000 100 (pb_ostream_from_buffer 300 64) ex_world
    = Ok tt (mk_ostream buf_write_cb (300 + (len ex_wire + 1)) 64 (len ex_wire + 1) None)
            (World m' (blocks ex_world) (brk ex_world))).
Proof.
  apply (pb_encode_framings 2 1000 100 300 64 ex_world ex_wire).
  - lia.
  - exact ex_world_buffer.
  - exact ex_world_bytes.
  - exact ex_message_bytes.
  - vm_compute. discriminate.
Defined.

(** * What the encoder emits is always well-formed wire format: a sequence of tagged
    values whose payloads agree with their wire types. *)

Section wire.
Context `{PbEnv, EncCallbacks} (wz : world).

(** Field numbers are in the range of the wire format. *)
Definition numbers_ok : Prop := forall p f, rodata !! p = Some f ->
  0 <= tag f < 2 ^ 29 /\ 0 <= data_size f < 2 ^ 32.

Hypothesis tables : numbers_ok.
Hypothesis bytes : byte_memory wz.

Notation well_formed l := (exists ns, wire_message ns l).

(** Callbacks, those of fields and of extensions, write whole fields; the default encoder
    of an extension is given a field, not the end of a table. *)
Record callbacks_ok : Prop := {
  co_field fn fp arg l : encode_bytes wz fn fp arg = Some l -> len l < 2 ^ 32 -> well_formed l;
  co_ext fn e l : ext_encode_bytes wz fn e = Some l -> len l < 2 ^ 32 -> well_formed l;
  co_type e type fp f : spec_uint wz 8 (ext_type e) = Some type -> spec_uint wz 8 (exttype_arg type) = Some fp ->
    rodata !! fp = Some f -> tag f <> 0;
}.
Hypothesis callbacks : callbacks_ok.

Lemma well_formed_app l1 l2 : well_formed l1 -> well_formed l2 -> well_formed (l1 ++ l2).
Proof. intros [n1 H1] [n2 H2]. exists (n1 ++ n2). by apply wire_message_app. Qed.

Lemma well_formed_nil : well_formed [].
Proof. exists []. constructor. Qed.

Section message.
Variable sub : Z -> Z -> option (list Z).
Variable depth : nat.

Lemma varint_payload v : 0 <= v < 2 ^ 64 -> wire_payload 0 (varint v).
Proof. intros. constructor; [by apply varint_is_varint|apply varint_length_max]. Qed.

Lemma delimited_payload l : len (length_delimited l) < 2 ^ 32 -> wire_payload 2 (length_delimited l).
Proof.
  intros Hl. constructor. unfold length_delimited in Hl. rewrite len_app in Hl.
  pose proof (len_nonneg (varint (Z.of_nat (length l)))). unfold len in *. lia.
Qed.

(** The value of an item fits the wire type of its tag. *)
Lemma item_payload f p l wt :
  0 <= data_size f < 2 ^ 32 -> wiretype_of_ltype (PB_LTYPE (type_ f)) = Some wt ->
  spec_item wz sub f p = Some l -> len l < 2 ^ 32 -> wire_payload wt l.
Proof using bytes.
  unfold spec_item, wiretype_of_ltype. generalize (PB_LTYPE (type_ f)). intros lt Hd Hwt E Hl.
  assert (Hf : forall n, spec_load wz p (Z.of_nat n) = Some l -> length l = n).
  { intros n En. apply mem_load_length in En. lia. }
  destruct (Z.eqb_spec lt PB_LTYPE_BOOL) as [-> |]; [injection Hwt as <-; inv_bind; subst;
    apply varint_payload; match goal with |- context [b2z ?b] => destruct b end; cbn; lia|].
  destruct (Z.eqb_spec lt PB_LTYPE_VARINT) as [-> |]; [injection Hwt as <-; inv_bind; subst;
    apply varint_payload, u64_range|].
  destruct (Z.eqb_spec lt PB_LTYPE_UVARINT) as [-> |]; [injection Hwt as <-; inv_bind; subst;
    apply varint_payload; by apply (spec_int_range wz bytes false (data_size f) p)|].
  destruct (Z.eqb_spec lt PB_LTYPE_SVARINT) as [-> |]; [injection Hwt as <-; inv_bind; subst;
    apply varint_payload, zigzag_range; by apply (spec_int_range wz bytes true (data_size f) p)|].
  cbn [orb] in Hwt.
  destruct (Z.eqb_spec lt PB_LTYPE_FIXED32) as [-> |]; [injection Hwt as <-; constructor;
    by apply (Hf 4%nat)|].
  destruct (Z.eqb_spec lt PB_LTYPE_FIXED64) as [-> |]; [injection Hwt as <-; constructor;
    by apply (Hf 8%nat)|].
  assert (Ewt : wt = 2) by (destruct (_ || _); [by injection Hwt|done]). subst wt. clear Hwt.
  repeat match goal with
  | H : (if ?b then _ else _) = Some _ |- _ => destruct b
  end; try done; inv_bind; subst; repeat case_match; inv_bind; subst; try done;
    by apply delimited_payload.
Qed.

Lemma tagged_well_formed f p l :
  0 < tag f < 2 ^ 29 -> 0 <= data_size f < 2 ^ 32 ->
  spec_tagged wz sub f p = Some l -> len l < 2 ^ 32 -> well_formed l.
Proof using bytes.
  intros Ht Hd E Hl. unfold spec_tagged in E. inv_bind. subst. rewrite len_app in Hl.
  pose proof (len_nonneg (tag_bytes x (tag f))).
  exists [tag f]. apply wire_message_one; [done|]. eapply item_payload; [done|done|eassumption|lia].
Qed.

Lemma items_well_formed item step n p l :
  (forall q r, item q = Some r -> len r < 2 ^ 32 -> well_formed r) ->
  spec_items item p step n = Some l -> len l < 2 ^ 32 -> well_formed l.
Proof.
  intros Hi. revert p l. induction n as [|n IH]; intros p l E Hl; cbn in E.
  - injection E as <-. apply well_formed_nil.
  - inv_bind. subst. rewrite len_app in Hl.
    match type of Hl with len ?x + len ?y < _ => pose proof (len_nonneg x); pose proof (len_nonneg y) end.
    apply well_formed_app; [eapply Hi; [eassumption|lia]|eapply IH; [eassumption|lia]].
Qed.

Lemma array_well_formed f p count l :
  0 < tag f < 2 ^ 29 -> 0 <= data_size f < 2 ^ 32 ->
  spec_array wz sub f p count = Some l -> len l < 2 ^ 32 -> well_formed l.
Proof using bytes.
  intros Ht Hd E Hl. unfold spec_array in E.
  destruct (count =? 0); [injection E as <-; apply well_formed_nil|].
  destruct (_ && _); [done|]. destruct (_ <=? PB_LTYPE_LAST_PACKABLE).
  - inv_bind. subst. rewrite len_app in Hl. pose proof (len_nonneg (tag_bytes PB_WT_STRING (tag f))).
    exists [tag f]. apply wire_message_one; [done|]. apply delimited_payload. lia.
  - eapply items_well_formed; [|exact E|exact Hl]. cbn beta. intros q r Eq Hr. inv_bind.
    by eapply tagged_well_formed.
Qed.

Lemma basic_well_formed f p l :
  0 < tag f < 2 ^ 29 -> 0 <= data_size f < 2 ^ 32 ->
  spec_basic wz sub depth f p = Some l -> len l < 2 ^ 32 -> well_formed l.
Proof using bytes.
  intros Ht Hd E Hl. unfold spec_basic in E. destruct (10 <? _); [done|].
  apply bind_Some in E as (imp & _ & E). apply bind_Some in E as ([q imp'] & _ & E).
  cbv beta iota zeta in E.
  destruct (_ =? PB_HTYPE_REQUIRED); [destruct (q =? NULL); [done|by eapply tagged_well_formed]|].
  destruct (_ =? PB_HTYPE_OPTIONAL).
  { apply bind_Some in E as (has & _ & E). destruct has; [by eapply tagged_well_formed|].
    injection E as <-. apply well_formed_nil. }
  destruct (_ =? PB_HTYPE_REPEATED).
  { apply bind_Some in E as (count & _ & E). by eapply array_well_formed. }
  destruct (_ =? PB_HTYPE_ONEOF); [|done].
  apply bind_Some in E as (which & _ & E). destruct (which =? tag f); [by eapply tagged_well_formed|].
  injection E as <-. apply well_formed_nil.
Qed.

Lemma field_well_formed fp f p l :
  rodata !! fp = Some f -> tag f <> 0 ->
  spec_field wz sub depth fp p = Some l -> len l < 2 ^ 32 -> well_formed l.
Proof using bytes tables callbacks.
  intros Ef Ht E Hl. destruct (tables fp f Ef) as (H1 & H2). unfold spec_field in E.
  rewrite Ef in E. cbn [mbind option_bind] in E. destruct (_ || _).
  - eapply basic_well_formed; [|exact H2|exact E|exact Hl]. lia.
  - destruct (_ =? PB_ATYPE_CALLBACK); [|done]. apply bind_Some in E as (fn & _ & E).
    destruct (negb (fn =? NULL)); [by eapply co_field|]. injection E as <-. apply well_formed_nil.
Qed.

Lemma extensions_well_formed n : forall e l,
  spec_extensions wz sub depth n e = Some l -> len l < 2 ^ 32 -> well_formed l.
Proof using bytes tables callbacks.
  induction n as [|n IH]; intros e l E Hl; [done|]. cbn [spec_extensions] in E.
  destruct (negb (e =? NULL)); [|injection E as <-; apply well_formed_nil].
  apply bind_Some in E as (type & Et & E). apply bind_Some in E as (fn & _ & E).
  apply bind_Some in E as (l1 & E1 & E). apply bind_Some in E as (next & _ & E).
  apply bind_Some in E as (l2 & E2 & E). injection E as <-. rewrite len_app in Hl.
  pose proof (len_nonneg l1). pose proof (len_nonneg l2).
  apply well_formed_app; [|by eapply IH; [exact E2|lia]].
  destruct (negb (fn =? NULL)); [by eapply co_ext; [done|exact E1|lia]|].
  unfold spec_default_extension in E1. rewrite Et in E1. apply bind_Some in E1 as (type' & [= <-] & E1).
  apply bind_Some in E1 as (fp & Efp & E1). apply bind_Some in E1 as (f & Ef & E1).
  pose proof (co_type callbacks _ _ _ _ Et Efp Ef).
  destruct (is_pointer f); [eapply field_well_formed; done || lia|].
  apply bind_Some in E1 as (dest & _ & E1). eapply field_well_formed; done || lia.
Qed.

(** The iterator only rests on entries with a field number. *)
Lemma next_has_number it it' :
  peek wz (pb_field_iter_next it) = Some (true, it') ->
  exists f, rodata !! pos it' = Some f /\ tag f <> 0.
Proof.
  unfold peek, pb_field_iter_next, field_at. cbn [bind].
  destruct (rodata !! pos it) as [f|]; [|done]. cbn [ret bind].
  destruct (tag f =? 0); [done|]. cbn [bind].
  destruct (rodata !! (pos it + sizeof_pb_field_t)) as [g|] eqn:Eg; [|done]. cbn [ret bind].
  destruct (Z.eqb_spec (tag g) 0) as [|Hg]; cbn [bind].
  - unfold pb_field_iter_begin, field_at. destruct (rodata !! start it); done.
  - destruct (_ && _); intros [= <-]; cbn [pos]; eauto.
Qed.

Lemma fields_well_formed n it f l :
  rodata !! pos it = Some f -> tag f <> 0 ->
  spec_fields wz sub depth n it = Some l -> len l < 2 ^ 32 -> well_formed l.
Proof using bytes tables callbacks.
  revert it f l. induction n as [|n IH]; intros it f l Ef Ht E Hl; [done|].
  cbn [spec_fields] in E. rewrite Ef in E. cbn [mbind option_bind] in E.
  apply bind_Some in E as (l1 & E1 & E). apply bind_Some in E as ([more it'] & En & E).
  cbv beta iota in E.
  assert (H1 : len l1 < 2 ^ 32 -> well_formed l1).
  { intros Hl1. destruct (PB_LTYPE (type_ f) =? PB_LTYPE_EXTENSION); [|by eapply field_well_formed].
    apply bind_Some in E1 as (e & _ & E1). by eapply extensions_well_formed. }
  destruct more.
  - apply bind_Some in E as (l2 & E2 & E). injection E as <-. rewrite len_app in Hl.
    pose proof (len_nonneg l1). pose proof (len_nonneg l2).
    destruct (next_has_number _ _ En) as (g & Eg & Hg).
    apply well_formed_app; [apply H1; lia|]. eapply IH; [exact Eg|done|exact E2|lia].
  - injection E as <-. by apply H1.
Qed.

End message.

Lemma message_well_formed depth fields src l :
  message_bytes wz depth fields src = Some l -> len l < 2 ^ 32 -> well_formed l.
Proof using bytes tables callbacks.
  destruct depth as [|depth]; [done|]. cbn [message_bytes]. intros E Hl.
  apply bind_Some in E as ([more it] & Eb & E). cbv beta iota in E.
  destruct more; [|injection E as <-; apply well_formed_nil].
  unfold peek, pb_field_iter_begin, field_at in Eb. cbn [bind] in Eb.
  destruct (rodata !! fields) as [f|] eqn:Ef; [|done]. cbn [ret] in Eb.
  injection Eb as Ht <-. apply negb_true_iff, Z.eqb_neq in Ht.
  eapply fields_well_formed; [|exact Ht|exact E|exact Hl]. exact Ef.
Qed.

End wire.

(** C15: let the byte specification [message_bytes] (to which [pb_encode_to_buffer] refines the encoder) give
    bytes for a message: its memory can be read without the buffer, its required pointers
    are there and its counts are in bounds.  Let field numbers be below [2 ^ 29], and let the
    callbacks of fields and extensions write whole fields.  Then [pb_encode] into a buffer
    that is large enough succeeds, and the bytes it stores are a sequence of tagged values
    of the wire format: field numbers in range, each payload of its wire type. *)
Theorem pb_encode_well_formed `{EncodeEnvOk} depth fields src buf n w l :
  numbers_ok -> 0 <= n < 2 ^ 63 -> has_object buf n w -> byte_memory w ->
  callbacks_ok (without buf n w) ->
  message_bytes (without buf n w) depth fields src = Some l -> len l <= n -> len l < 2 ^ 32 ->
  exists ns s' w' out, pb_encode depth fields src (pb_ostream_from_buffer buf n) w = Ok tt s' w' /\
    mem_load (mem w') buf (Z.to_nat (bytes_written s')) = Some out /\ wire_message ns out.
Proof.
  intros Hnum Hn Hb Hw Hcb E Hl Hl32.
  destruct (message_well_formed _ Hnum (without_bytes buf n w Hw) Hcb _ _ _ _ E Hl32) as [ns Hm].
  destruct (emits_buffer (pb_encode depth fields src) buf n w l Hn Hb) as [Hfit _]; [|lia|].
  { apply message_emits; [by apply without_bytes|done]. }
  destruct (Hfit Hl) as (m' & Em & Ee). eexists ns, _, _, l. split; [exact Ee|].
  cbn [mem bytes_written]. unfold len. rewrite Nat2Z.id. split; [|done].
  by apply (mem_load_store _ _ _ _ Em).
Qed.

Lemma ex_numbers_ok : numbers_ok.
Proof.
  intros p f E. apply elem_of_list_to_map_2 in E.
  repeat (apply elem_of_cons in E as [E|E];
    [injection E as -> ->; split_and!; first [vm_compute; discriminate|cbn; lia]|]).
  by apply not_elem_of_nil in E.
Qed.

(** No pointer in the memory of the example points at the end of a table. *)
Lemma ex_no_end p fp f :
  spec_uint (without 300 64 ex_world) 8 p = Some fp -> rodata !! fp = Some f -> tag f <> 0.
Proof.
  intros E Ef. set (m := mem (without 300 64 ex_world)).
  assert (Hall : (fun wz => forallb (fun p => match spec_uint wz 8 p with
                                   | Some fp => match rodata !! fp with Some f => negb (tag f =? 0) | None => true end
                                   | None => true
                                   end) (map_to_list (mem wz)).*1) (without 300 64 ex_world) = true) by (vm_compute; reflexivity).
  cbv beta in Hall. fold m in Hall.
  destruct (m !! p) as [b|] eqn:Eb.
  - rewrite forallb_forall in Hall. specialize (Hall p). rewrite E, Ef in Hall.
    apply Z.eqb_neq, negb_true_iff, Hall, list_elem_of_In, list_elem_of_fmap.
    exists (p, b). split; [done|]. by apply elem_of_map_to_list.
  - unfold spec_uint, peek, load_u, load_bytes in E. cbn [bind] in E. fold m in E. cbn [mem_load] in E.
    change (Z.to_nat (Z.of_nat 8)) with 8%nat in E. cbn [mem_load] in E. rewrite Eb in E. clear -E. discriminate E.
Qed.

Lemma ex_callbacks_ok : callbacks_ok (without 300 64 ex_world).
Proof. split; [discriminate|discriminate|]. intros e type fp f _. apply ex_no_end. Qed.

Lemma pb_encode_well_formed_witness :
  exists ns s' w' out,
    pb_encode 2 1000 100 (pb_ostream_from_buffer 300 64) ex_world = Ok tt s' w' /\
    mem_load (mem w') 300 (Z.to_nat (bytes_written s')) = Some out /\ wire_message ns out.
Proof.
  apply (pb_encode_well_formed 2 1000 100 300 64 ex_world ex_wire).
  - exact ex_numbers_ok.
  - lia.
  - exact ex_world_buffer.
  - exact ex_world_bytes.
  - exact ex_callbacks_ok.
  - exact ex_message_bytes.
  - vm_compute. discriminate.
  - vm_compute. reflexivity.
Defined.
