(* ===== verification/PbIstream.v ===== *)
(** pb_decode.c, first half: input streams, varints, tags, skipping and
    substreams, and the decoders of the fixed-width and variable-width integers
    that need no field description. *)
From stdpp Require Import base gmap list strings numbers.
From Stdlib Require Import ZArith Lia.
From S2P Require Import Prelude Cmem PbTypes.

(** Where the [buf] argument of [pb_read] points: NULL, an object in memory, or a
    local variable of the caller (which gets the bytes as a list). *)
Inductive rdst := RNull | RMem (p : Z) | RLocal.

Section istream.
Context `{PbEnv}.

(** * pb_istream_t implementation *)

Definition set_istate (p : Z) (s : pb_istream_t) : pb_istream_t :=
  mk_istream (icb s) p (bytes_left s) (ierrmsg s).

Definition set_bytes_left (n : Z) (s : pb_istream_t) : pb_istream_t :=
  mk_istream (icb s) (istate s) n (ierrmsg s).

Definition write_dst {T} (buf : rdst) (l : list Z) : SM T unit :=
  match buf with
  | RMem p => store_bytes p l
  | _ => ret tt
  end.

Definition buf_read (buf : rdst) (count : Z) : SM pb_istream_t (list Z) :=
  let* s := get in
  let source := istate s in
  modify (set_istate (source + count));;
  match buf with
  | RNull => ret []
  | _ => let* l := load_bytes source count in
         write_dst buf l;; ret l
  end.

(** [stream->callback(stream, buf, count)] *)
Definition call_icallback (buf : rdst) (count : Z) : SM pb_istream_t (list Z) :=
  let* s := get in
  match icb s with
  | buf_read_cb => buf_read buf count
  | user_read_cb f => let* l := user_read f count in
                      write_dst buf l;; ret l
  end.

Definition is_buf_read (c : icallback) : bool :=
  match c with buf_read_cb => true | _ => false end.

(** [pb_read] once the skipping case is out of the way. *)
Definition pb_read_direct (buf : rdst) (count : Z) : SM pb_istream_t (list Z) :=
  if count =? 0 then ret []
  else
    let* s := get in
    if bytes_left s <? count then PB_RETURN_ERROR "end-of-stream"
    else
      let* r := attempt (call_icallback buf count) in
      match r with
      | None => PB_RETURN_ERROR "io error"
      | Some l => modify (fun s => set_bytes_left (u64 (bytes_left s - count)) s);; ret l
      end.

(** Reads and drops [count] bytes sixteen at a time. *)
Definition skip_input (count : Z) : SM pb_istream_t (list Z) :=
  let* s := get in
  loop (S (Z.to_nat (Z.min count (bytes_left s)))) (fun count =>
    if 16 <? count then pb_read_direct RLocal 16;; ret (inl (count - 16))
    else pb_read_direct RLocal count;; ret (inr [])) count.

Definition pb_read (buf : rdst) (count : Z) : SM pb_istream_t (list Z) :=
  if count =? 0 then ret []
  else
    let* s := get in
    match buf with
    | RNull => if is_buf_read (icb s) then pb_read_direct RNull count else skip_input count
    | _ => pb_read_direct buf count
    end.

(** The byte a one-byte read stored. *)
Definition the_byte {T} (l : list Z) : SM T Z :=
  match l with
  | b :: _ => ret b
  | [] => ub
  end.

Definition pb_readbyte : SM pb_istream_t Z :=
  let* s := get in
  if bytes_left s =? 0 then PB_RETURN_ERROR "end-of-stream"
  else
    let* r := attempt (call_icallback RLocal 1) in
    match r with
    | None => PB_RETURN_ERROR "io error"
    | Some l => modify (fun s => set_bytes_left (u64 (bytes_left s - 1)) s);; the_byte l
    end.

Definition pb_istream_from_buffer (buf bufsize : Z) : pb_istream_t :=
  mk_istream buf_read_cb buf bufsize None.

(** * Varints *)

(** One round of the multi-byte loop of [pb_decode_varint32_eof]; [bitpos] is a
    [uint_fast8_t], one byte wide on the platforms of the app. *)
Definition varint32_step (st : Z * Z) : SM pb_istream_t ((Z * Z) + (Z * Z * Z)) :=
  let (bitpos, result) := st in
  let* byte := pb_readbyte in
  let* result :=
    if 32 <=? bitpos then
      let sign_extension := if bitpos <? 63 then 0xFF else 0x01 in
      if negb (Z.land byte 0x7F =? 0)
         && ((Z.shiftr result 31 =? 0) || negb (byte =? sign_extension))
      then PB_RETURN_ERROR "varint overflow"
      else ret result
    else ret (Z.lor result (u32 (Z.shiftl (Z.land byte 0x7F) bitpos))) in
  let bitpos := u8 (bitpos + 7) in
  if negb (Z.land byte 0x80 =? 0) then ret (inl (bitpos, result))
  else ret (inr (bitpos, result, byte)).

(** The result is [None] when the C function returns false; the flag is [*eof]. *)
Definition pb_decode_varint32_eof : SM pb_istream_t (option Z * bool) :=
  let* r := attempt pb_readbyte in
  match r with
  | None => let* s := get in ret (None, bytes_left s =? 0)
  | Some byte =>
      let* r := attempt (
        if Z.land byte 0x80 =? 0 then ret byte
        else
          let* s := get in
          let* (bitpos, result, byte) :=
            loop (S (Z.to_nat (bytes_left s))) varint32_step (7, Z.land byte 0x7F) in
          if (bitpos =? 35) && negb (Z.land byte 0x70 =? 0)
          then PB_RETURN_ERROR "varint overflow"
          else ret result) in
      ret (r, false)
  end.

Definition pb_decode_varint32 : SM pb_istream_t Z :=
  let* (r, _) := pb_decode_varint32_eof in
  match r with Some v => ret v | None => fail end.

Definition pb_decode_varint : SM pb_istream_t Z :=
  loop 11 (fun st : Z * Z =>
    let (bitpos, result) := st in
    if 64 <=? bitpos then PB_RETURN_ERROR "varint overflow"
    else
      let* byte := pb_readbyte in
      let result := Z.lor result (u64 (Z.shiftl (Z.land byte 0x7F) bitpos)) in
      let bitpos := u8 (bitpos + 7) in
      if negb (Z.land byte 0x80 =? 0) then ret (inl (bitpos, result))
      else ret (inr result)) (0, 0).

Definition pb_skip_varint : SM pb_istream_t unit :=
  let* s := get in
  loop (S (Z.to_nat (bytes_left s))) (fun _ : unit =>
    let* l := pb_read RLocal 1 in
    let* byte := the_byte l in
    if negb (Z.land byte 0x80 =? 0) then ret (inl tt) else ret (inr tt)) tt.

Definition pb_skip_string : SM pb_istream_t unit :=
  let* length := pb_decode_varint32 in
  pb_read RNull length;; ret tt.

(** What [pb_decode_tag] stores through its out-parameters, and its result. *)
Record tag_result := mk_tag { tag_ok : bool; wire_type : Z; tag_no : Z; eof : bool }.

Definition pb_decode_tag : SM pb_istream_t tag_result :=
  let* (r, eof) := pb_decode_varint32_eof in
  match r with
  | None => ret (mk_tag false 0 0 eof)
  | Some temp =>
      if temp =? 0 then ret (mk_tag false 0 0 true)
      else ret (mk_tag true (Z.land temp 7) (Z.shiftr temp 3) eof)
  end.

Definition pb_skip_field (wire_type : Z) : SM pb_istream_t unit :=
  if wire_type =? PB_WT_VARINT then pb_skip_varint
  else if wire_type =? PB_WT_64BIT then pb_read RNull 8;; ret tt
  else if wire_type =? PB_WT_STRING then pb_skip_string
  else if wire_type =? PB_WT_32BIT then pb_read RNull 4;; ret tt
  else PB_RETURN_ERROR "invalid wire_type".

(** The bytes go to [buf]; the result is [*size] on return. *)
Definition read_raw_value (wire_type buf max_size : Z) : SM pb_istream_t Z :=
  if wire_type =? PB_WT_VARINT then
    loop (S (Z.to_nat max_size)) (fun st : Z * Z =>
      let (size, buf) := st in
      let size := size + 1 in
      if max_size <? size then fail
      else
        let* l := pb_read (RMem buf) 1 in
        let* byte := the_byte l in
        if negb (Z.land byte 0x80 =? 0) then ret (inl (size, buf + 1))
        else ret (inr size)) (0, buf)
  else if wire_type =? PB_WT_64BIT then pb_read (RMem buf) 8;; ret 8
  else if wire_type =? PB_WT_32BIT then pb_read (RMem buf) 4;; ret 4
  else PB_RETURN_ERROR "invalid wire_type".

(** * Substreams *)

Definition pb_make_string_substream : SM pb_istream_t pb_istream_t :=
  let* size := pb_decode_varint32 in
  let* substream := get in
  if bytes_left substream <? size then PB_RETURN_ERROR "parent stream too short"
  else
    modify (fun s => set_bytes_left (bytes_left s - size) s);;
    ret (set_bytes_left size substream).

Definition pb_close_string_substream (substream : pb_istream_t) : SM pb_istream_t unit :=
  let* (r, substream) :=
    if negb (bytes_left substream =? 0)
    then on_stream substream (pb_read RNull (bytes_left substream))
    else ret (Some [], substream) in
  match r with
  | None => fail
  | Some _ =>
      modify (fun s => mk_istream (icb s) (istate substream) (bytes_left s) (ierrmsg substream))
  end.

(** * Integers without a field description *)

(** [pb_decode_bool] and [pb_dec_bool] store the result at [dest]. *)
Definition pb_decode_bool (dest : Z) : SM pb_istream_t unit :=
  let* value := pb_decode_varint32 in
  store_u 1 dest (b2z (negb (value =? 0))).

Definition pb_decode_svarint : SM pb_istream_t Z :=
  let* value := pb_decode_varint in
  if negb (Z.land value 1 =? 0) then ret (s64 (Z.lnot (Z.shiftr value 1)))
  else ret (s64 (Z.shiftr value 1)).

(** [bytes[i] << 8*i] for each byte of the local array, or-ed together. *)
Definition pb_decode_fixed32 (dest : Z) : SM pb_istream_t unit :=
  let* bytes := pb_read RLocal 4 in
  match bytes with
  | [b0; b1; b2; b3] =>
      store_u 4 dest (Z.lor (Z.lor (Z.lor (Z.shiftl b0 0) (Z.shiftl b1 8))
                                   (Z.shiftl b2 16)) (Z.shiftl b3 24))
  | _ => ub
  end.

Definition pb_decode_fixed64 (dest : Z) : SM pb_istream_t unit :=
  let* bytes := pb_read RLocal 8 in
  match bytes with
  | [b0; b1; b2; b3; b4; b5; b6; b7] =>
      store_u 8 dest
        (Z.lor (Z.lor (Z.lor (Z.lor (Z.lor (Z.lor (Z.lor
           (Z.shiftl b0 0) (Z.shiftl b1 8)) (Z.shiftl b2 16)) (Z.shiftl b3 24))
           (Z.shiftl b4 32)) (Z.shiftl b5 40)) (Z.shiftl b6 48)) (Z.shiftl b7 56))
  | _ => ub
  end.

End istream.
