(* ===== verification/PbDecodePrim.v ===== *)
(** The primitive decoders on buffer streams, related to the wire format of
    [PbWire].

    [reads m a l]: when the stream's next bytes are [l], [m] returns [a] and the
    stream stands after them; the memory is unchanged.  Varints are described on
    every input by [varint_prefix], which finds the bytes a varint parser takes.  At the
    end, the round trips with the primitive encoders. *)
From stdpp Require Import base gmap list strings numbers option.
From Stdlib Require Import ZArith Lia.
From S2P Require Import Prelude Cmem Hoare PbTypes PbEncode PbWire PbEncodeSpec PbEmits PbEncodeThms PbIstream.

Section prim.
Context `{PbEnv}.

(** The next bytes of the stream are [l]. *)
Definition at_input (s : pb_istream_t) (w : world) (l : list Z) : Prop :=
  icb s = buf_read_cb /\ Z.of_nat (length l) <= bytes_left s < 2 ^ 64 /\
  mem_load (mem w) (istate s) (length l) = Some l.

Definition consumed (s : pb_istream_t) (l : list Z) : pb_istream_t :=
  mk_istream (icb s) (istate s + Z.of_nat (length l)) (bytes_left s - Z.of_nat (length l))
             (ierrmsg s).

Definition reads {A} (m : SM pb_istream_t A) (a : A) (l : list Z) : Prop :=
  forall s w, at_input s w l -> m s w = Ok a (consumed s l) w.

Lemma consumed_nil s : consumed s [] = s.
Proof. destruct s. unfold consumed; cbn. f_equal; lia. Qed.

Lemma consumed_app s l1 l2 : consumed (consumed s l1) l2 = consumed s (l1 ++ l2).
Proof. unfold consumed; cbn. rewrite length_app. f_equal; lia. Qed.

Lemma at_input_app s w l1 l2 :
  at_input s w (l1 ++ l2) -> at_input s w l1 /\ at_input (consumed s l1) w l2.
Proof.
  intros (E & Hb & Hm). apply mem_load_app in Hm as [H1 H2]. rewrite length_app in Hb.
  split; (split; [exact E|split; [cbn; lia|done]]).
Qed.

Lemma reads_ret {A} (a : A) : reads (ret a) a [].
Proof. intros s w _. by rewrite consumed_nil. Qed.

Lemma reads_bind {A B} (m : SM pb_istream_t A) (k : A -> SM pb_istream_t B) a b l1 l2 :
  reads m a l1 -> reads (k a) b l2 -> reads (bind m k) b (l1 ++ l2).
Proof.
  intros Hm Hk s w Hs. apply at_input_app in Hs as [H1 H2].
  cbn. rewrite (Hm s w H1), (Hk _ w H2). by rewrite consumed_app.
Qed.

Lemma reads_ext {A} (m m' : SM pb_istream_t A) a l :
  (forall s w, m s w = m' s w) -> reads m' a l -> reads m a l.
Proof. intros E Hm s w Hs. rewrite E. by apply Hm. Qed.

(** A call whose failure the code tests. *)
Lemma reads_attempt {A B} (m : SM pb_istream_t A) (k : option A -> SM pb_istream_t B) a b l1 l2 :
  reads m a l1 -> reads (k (Some a)) b l2 -> reads (bind (attempt m) k) b (l1 ++ l2).
Proof.
  intros Hm Hk s w Hs. apply at_input_app in Hs as [H1 H2].
  cbn. rewrite (Hm s w H1), (Hk _ w H2). by rewrite consumed_app.
Qed.

(** ** Bytes *)

Lemma reads_readbyte b : reads pb_readbyte b [b].
Proof.
  intros s w (E & Hb & Hm). unfold pb_readbyte. cbn [bind get].
  cbn [length] in *. destruct (Z.eqb_spec (bytes_left s) 0) as [|_]; [lia|].
  unfold call_icallback. cbn. rewrite E. cbn.
  pose proof (load_bytes_ok (set_istate (istate s + 1) s) w (istate s) [b] Hm) as El.
  cbn [length] in El. change (Z.of_nat 1) with 1 in El. rewrite El. cbn.
  rewrite u64_small by lia. done.
Qed.

Lemma readbyte_eof s w :
  bytes_left s = 0 -> pb_readbyte s w = Err (PB_SET_ERROR "end-of-stream" s) w.
Proof. intros E. unfold pb_readbyte. cbn [bind get]. rewrite E. reflexivity. Qed.

End prim.

Section varint.
Context `{PbEnv}.

(** What [pb_decode_varint] does from the point where [i] groups are read. *)
Definition varint_outcome (acc i : Z) (n : nat) (l : list Z) (s : pb_istream_t) (w : world)
  : res pb_istream_t Z :=
  match varint_prefix n l with
  | VDone p => Ok (u64 (acc + groups_val p * 2 ^ (7 * i))) (consumed s p) w
  | VOverflow => Err (PB_SET_ERROR "varint overflow" (consumed s (take n l))) w
  | VEof => Err (PB_SET_ERROR "end-of-stream" (consumed s l)) w
  end.

Lemma decode_varint_loop n : forall fuel i acc l s w,
  i + Z.of_nat n = 10 -> 0 <= i -> (n < fuel)%nat -> 0 <= acc < 2 ^ (7 * i) -> acc < 2 ^ 64 ->
  is_bytes l -> at_input s w l ->
  (varint_prefix n l = VEof -> bytes_left s = Z.of_nat (length l)) ->
  loop fuel (fun st : Z * Z =>
    let (bitpos, result) := st in
    if 64 <=? bitpos then PB_RETURN_ERROR "varint overflow"
    else
      let* byte := pb_readbyte in
      let result := Z.lor result (u64 (Z.shiftl (Z.land byte 0x7F) bitpos)) in
      let bitpos := u8 (bitpos + 7) in
      if negb (Z.land byte 0x80 =? 0) then ret (inl (bitpos, result))
      else ret (inr result)) (7 * i, acc) s w
  = varint_outcome acc i n l s w.
Proof.
  induction n as [|n IH]; intros fuel i acc l s w Hi Hi0 Hf Hacc Ha64 Hl Hs Hleft;
    (destruct fuel as [|fuel]; [lia|]); cbn [loop]; unfold varint_outcome; cbn [varint_prefix take].
  - cbn [bind]. destruct (Z.leb_spec 64 (7 * i)); [|lia].
    rewrite take_0, consumed_nil. reflexivity.
  - cbn [bind]. destruct (Z.leb_spec 64 (7 * i)); [lia|]. cbn [bind].
    destruct l as [|b l].
    { rewrite readbyte_eof by (by apply Hleft). rewrite consumed_nil. reflexivity. }
    pose proof (at_input_app s w [b] l Hs) as [Hb Hs']. apply Forall_cons_1 in Hl as [Hbr Hl].
    rewrite (reads_readbyte b s w Hb). cbn [bind].
    rewrite land_0x80, land_0x7F by done. rewrite lor_shiftl_u64 by lia.
    rewrite u8_small by lia.
    pose proof (pow_7_succ i) as [Ep|]; [|lia].
    pose proof (Z.mod_pos_bound b 128 ltac:(lia)) as Hm.
    destruct (Z.ltb_spec b 128) as [Hlast|Hmore]; cbn [negb].
    + cbn [ret groups_val]. by rewrite Z.mul_0_r, Z.add_0_r.
    + assert (Hi9 : n = O \/ 7 * (i + 1) <= 63) by lia.
      assert (Ebit : 7 * i + 7 = 7 * (i + 1)) by lia. rewrite Ebit. cbn [ret bind].
      destruct Hi9 as [-> | Hi9].
      { destruct fuel; [lia|]. cbn [loop bind varint_prefix].
        destruct (Z.leb_spec 64 (7 * (i + 1))); [|lia]. reflexivity. }
      assert (Hle : 2 ^ (7 * (i + 1)) <= 2 ^ 63) by (apply Z.pow_le_mono_r; lia).
      rewrite u64_small by nia.
      rewrite (IH fuel (i + 1) _ l); [|lia|lia|lia|nia|nia|done|done|].
      2: { intros E. cbn [consumed bytes_left length]. rewrite Hleft; [cbn [length]; lia|].
           cbn [varint_prefix]. destruct (Z.ltb_spec b 128); [lia|]. by rewrite E. }
      unfold varint_outcome. destruct (varint_prefix n l) as [p| |].
      * rewrite consumed_app. cbn [app]. f_equal. cbn [groups_val]. f_equal. rewrite Ep. ring.
      * by rewrite consumed_app.
      * by rewrite consumed_app.
Qed.

Lemma decode_varint_total l s w :
  is_bytes l -> at_input s w l ->
  (varint_prefix 10 l = VEof -> bytes_left s = Z.of_nat (length l)) ->
  pb_decode_varint s w = varint_outcome 0 0 10 l s w.
Proof.
  intros Hl Hs Hleft. apply (decode_varint_loop 10 11 0 0); try done; try lia.
Qed.

Lemma reads_varint_groups p :
  is_varint p -> (length p <= 10)%nat -> reads pb_decode_varint (u64 (groups_val p)) p.
Proof.
  intros Hp Hl s w Hs. pose proof (varint_prefix_varint 10 p Hp Hl) as E.
  rewrite (decode_varint_total p); [|by apply is_varint_bytes|done|by rewrite E].
  unfold varint_outcome. rewrite E. do 2 f_equal. change (2 ^ (7 * 0)) with 1. lia.
Qed.

Lemma reads_varint v : 0 <= v < 2 ^ 64 -> reads pb_decode_varint v (varint v).
Proof.
  intros Hv. rewrite <- (u64_small v) at 1 by lia. rewrite <- (varint_val v) at 1 by done.
  apply reads_varint_groups; [by apply varint_is_varint|apply varint_length_max].
Qed.

(** ** Signed varints *)

Lemma unzigzag v :
  - 2 ^ 63 <= v < 2 ^ 63 ->
  (if negb (Z.land (zigzag v) 1 =? 0) then s64 (Z.lnot (Z.shiftr (zigzag v) 1))
   else s64 (Z.shiftr (zigzag v) 1)) = v.
Proof.
  intros Hv. change 1 with (Z.ones 1) at 1. rewrite Z.land_ones by lia.
  rewrite shiftr_div by lia. change (2 ^ 1) with 2. unfold zigzag, Z.lnot, Z.pred.
  destruct (Z.ltb_spec v 0).
  - replace ((- 2 * v - 1) mod 2) with 1 by (apply (Z.mod_unique_pos _ _ (- v - 1)); lia).
    replace ((- 2 * v - 1) / 2) with (- v - 1) by (apply (Z.div_unique_pos _ _ _ 1); lia).
    cbn [Z.eqb negb]. replace (- (- v - 1) + -1) with v by lia. apply to_signed_id; lia.
  - replace ((2 * v) mod 2) with 0 by (apply (Z.mod_unique_pos _ _ v); lia).
    replace (2 * v / 2) with v by (apply (Z.div_unique_pos _ _ _ 0); lia).
    cbn [Z.eqb negb]. apply to_signed_id; lia.
Qed.

Lemma reads_bind_ret {A B} (m : SM pb_istream_t A) (f : A -> SM pb_istream_t B) a b l :
  reads m a l -> (forall s w, f a s w = Ok b s w) -> reads (bind m f) b l.
Proof. intros Hm Hf s w Hs. cbn. by rewrite (Hm s w Hs), Hf. Qed.

Lemma reads_svarint v :
  - 2 ^ 63 <= v < 2 ^ 63 -> reads pb_decode_svarint v (varint (zigzag v)).
Proof.
  intros Hv. pose proof (zigzag_range v Hv). unfold pb_decode_svarint.
  eapply reads_bind_ret; [by apply reads_varint|]. intros s w.
  pose proof (unzigzag v Hv) as E. destruct (negb _); cbn; by rewrite E.
Qed.

(** ** 32-bit varints *)

Notation continued := (Forall (fun b : Z => 128 <= b < 256)).

Lemma is_varint_snoc p : is_varint p -> exists p1 b, p = p1 ++ [b] /\ continued p1 /\ 0 <= b < 128.
Proof.
  induction p as [|c p IH]; [done|]. destruct p as [|d p].
  - intros Hc. exists [], c. done.
  - intros [Hc Hp]. destruct (IH Hp) as (p1 & b & E & H1 & H2). exists (c :: p1), b.
    rewrite E. split_and!; [done|by constructor|lia|lia].
Qed.

Lemma groups_val_app p1 p2 :
  groups_val (p1 ++ p2) = groups_val p1 + groups_val p2 * 2 ^ (7 * Z.of_nat (length p1)).
Proof.
  induction p1 as [|b p1 IH]; [cbn; lia|]. cbn [app groups_val length]. rewrite IH.
  replace (7 * Z.of_nat (S (length p1))) with (7 * (Z.of_nat (length p1) + 1)) by lia.
  destruct (pow_7_succ (Z.of_nat (length p1))) as [->|]; lia.
Qed.

Lemma groups_val_range p : 0 <= groups_val p < 2 ^ (7 * Z.of_nat (length p)).
Proof.
  induction p as [|b p IH]; [cbn; lia|]. cbn [groups_val length].
  pose proof (Z.mod_pos_bound b 128 ltac:(lia)).
  replace (7 * Z.of_nat (S (length p))) with (7 * (Z.of_nat (length p) + 1)) by lia.
  destruct (pow_7_succ (Z.of_nat (length p))) as [->|]; lia.
Qed.

(** A round of the loop below the 32nd bit. *)
Lemma varint32_step_low i acc b s w :
  0 <= i <= 4 -> 0 <= acc < 2 ^ (7 * i) -> is_byte b -> at_input s w [b] ->
  varint32_step (7 * i, acc) s w =
  let acc' := u32 (acc + b mod 128 * 2 ^ (7 * i)) in
  Ok (if b <? 128 then inr (7 * (i + 1), acc', b) else inl (7 * (i + 1), acc')) (consumed s [b]) w.
Proof.
  intros Hi Ha Hb Hs. unfold varint32_step. cbn [bind]. rewrite (reads_readbyte b s w Hs).
  cbn [bind]. destruct (Z.leb_spec 32 (7 * i)); [lia|]. cbn [ret bind].
  rewrite land_0x80, land_0x7F, lor_shiftl_u32, u8_small by (done || lia).
  replace (7 * i + 7) with (7 * (i + 1)) by lia. by destruct (b <? 128).
Qed.

(** The rounds over continued bytes below the 32nd bit. *)
Lemma varint32_loop_low p1 : forall i acc fuel p s w,
  continued p1 -> 1 <= i -> i + Z.of_nat (length p1) <= 5 ->
  0 <= acc < 2 ^ (7 * i) -> acc < 2 ^ 32 -> at_input s w (p1 ++ p) ->
  loop (length p1 + fuel) varint32_step (7 * i, acc) s w
  = loop fuel varint32_step (7 * (i + Z.of_nat (length p1)),
      u32 (acc + groups_val p1 * 2 ^ (7 * i))) (consumed s p1) w.
Proof.
  induction p1 as [|b p1 IH]; intros i acc fuel p s w Hc Hi Hl Ha Ha32 Hs.
  - cbn [length Nat.add groups_val]. rewrite consumed_nil, u32_small by lia.
    rewrite Z.mul_0_l, !Z.add_0_r. done.
  - apply Forall_cons_1 in Hc as [Hb Hc]. cbn [length] in *.
    pose proof (at_input_app s w [b] (p1 ++ p) Hs) as [Hb1 Hs'].
    cbn [Nat.add loop bind]. rewrite (varint32_step_low i acc b) by (done || lia).
    destruct (Z.ltb_spec b 128); [lia|]. cbn zeta iota beta.
    destruct (pow_7_succ i) as [Ep|]; [|lia]. pose proof (Z.mod_pos_bound b 128 ltac:(lia)).
    set (acc' := u32 (acc + b mod 128 * 2 ^ (7 * i))).
    assert (Hacc' : 0 <= acc' < 2 ^ (7 * (i + 1))).
    { unfold acc'. pose proof (u32_range (acc + b mod 128 * 2 ^ (7 * i))). split; [lia|].
      eapply Z.le_lt_trans; [apply Z.mod_le; [nia|lia]|]. nia. }
    rewrite (IH (i + 1) acc' fuel p); [|done|lia|lia|done|apply u32_range|done].
    rewrite consumed_app. cbn [app groups_val]. f_equal; [|done..].
    f_equal; [lia|]. unfold acc', u32. rewrite Zplus_mod_idemp_l. f_equal. rewrite Ep. ring.
Qed.

(** Past the 32nd bit a continued byte of the sign extension changes nothing. *)
Lemma varint32_step_sign i acc b s w :
  5 <= i <= 9 -> 2 ^ 31 <= acc < 2 ^ 32 -> b = (if 7 * i <? 63 then 0xFF else 0x01) ->
  at_input s w [b] ->
  varint32_step (7 * i, acc) s w =
  Ok (if b <? 128 then inr (7 * (i + 1), acc, b) else inl (7 * (i + 1), acc)) (consumed s [b]) w.
Proof.
  intros Hi Ha Eb Hs. assert (Hb : is_byte b) by (destruct (7 * i <? 63); lia).
  unfold varint32_step. cbn [bind]. rewrite (reads_readbyte b s w Hs).
  cbn [bind]. destruct (Z.leb_spec 32 (7 * i)); [|lia]. cbv zeta. rewrite <- Eb, Z.eqb_refl.
  rewrite shiftr_div by lia.
  replace (acc / 2 ^ 31) with 1 by (apply (Z.div_unique_pos _ _ _ (acc - 2 ^ 31)); lia).
  change (1 =? 0) with false. cbn [orb negb]. rewrite andb_false_r. cbn [ret bind].
  rewrite land_0x80, u8_small by (done || lia).
  replace (7 * i + 7) with (7 * (i + 1)) by lia. by destruct (b <? 128).
Qed.

Lemma varint32_eof_first b p1 b2 s w :
  128 <= b < 256 -> at_input s w (b :: p1 ++ [b2]) ->
  pb_decode_varint32_eof s w =
  (let* r := attempt (
     let* (bitpos, result, byte) :=
       loop (S (Z.to_nat (bytes_left s - 1))) varint32_step (7, b mod 128) in
     if (bitpos =? 35) && negb (Z.land byte 0x70 =? 0)
     then PB_RETURN_ERROR "varint overflow" else ret result) in
   ret (r, false)) (consumed s [b]) w.
Proof.
  intros Hb Hs. apply (at_input_app s w [b]) in Hs as [Hb1 _].
  unfold pb_decode_varint32_eof. cbn [bind attempt]. rewrite (reads_readbyte b s w Hb1).
  cbn [bind attempt]. rewrite land_0x80, land_0x7F by lia.
  by destruct (Z.ltb_spec b 128); [lia|].
Qed.

Lemma varint32_eof_byte b s w :
  0 <= b < 128 -> at_input s w [b] ->
  pb_decode_varint32_eof s w = Ok (Some b, false) (consumed s [b]) w.
Proof.
  intros Hb Hs. unfold pb_decode_varint32_eof. cbn [bind attempt].
  rewrite (reads_readbyte b s w Hs). cbn [bind attempt]. rewrite land_0x80 by lia.
  by destruct (Z.ltb_spec b 128); [|lia].
Qed.

(** Canonical encodings of 32-bit values. *)
Lemma reads_varint32_eof v :
  0 <= v < 2 ^ 32 -> reads pb_decode_varint32_eof (Some v, false) (varint v).
Proof.
  intros Hv s w Hs.
  assert (Hlen : (length (varint v) <= 5)%nat).
  { apply varint_groups_length_bound; [lia|]. change (128 ^ Z.of_nat 5) with (2 ^ 35). lia. }
  pose proof (varint_val v ltac:(lia)) as Ev.
  destruct (is_varint_snoc _ (varint_is_varint v ltac:(lia))) as (p1 & b2 & E & Hc & Hb2).
  rewrite E in *. destruct p1 as [|b p1].
  - cbn in Ev. rewrite Z.mod_small in Ev by lia. assert (b2 = v) as -> by lia.
    by apply varint32_eof_byte.
  - apply Forall_cons_1 in Hc as [Hb Hc]. cbn [app length] in *. rewrite length_app in Hlen.
    cbn [length] in Hlen. rewrite (varint32_eof_first b p1 b2) by done.
    pose proof (at_input_app s w [b] (p1 ++ [b2]) Hs) as [_ Hs1].
    pose proof (at_input_app _ w p1 [b2] Hs1) as [_ Hs2].
    assert (Hleft : exists k, S (Z.to_nat (bytes_left s - 1)) = (length p1 + S k)%nat).
    { destruct Hs as (_ & Hle & _). cbn [length] in Hle. rewrite length_app in Hle. cbn [length] in Hle.
      exists (Z.to_nat (bytes_left s - 1) - length p1)%nat. lia. }
    destruct Hleft as [k ->]. pose proof (Z.mod_pos_bound b 128 ltac:(lia)) as Hm.
    change (b :: p1 ++ [b2]) with ([b] ++ p1 ++ [b2]) in Ev.
    rewrite !groups_val_app in Ev. cbn [groups_val length] in Ev.
    rewrite (Z.mod_small b2) in Ev by lia. rewrite !Z.mul_0_r, !Z.add_0_r in Ev.
    change (2 ^ (7 * Z.of_nat 1)) with (2 ^ (7 * 1)) in Ev.
    pose proof (groups_val_range p1) as Hg.
    set (n := Z.of_nat (length p1)) in *. assert (Hn : 0 <= n <= 3) by lia.
    pose proof (Z.pow_pos_nonneg 2 (7 * n) ltac:(lia) ltac:(lia)).
    cbn [bind attempt]. rewrite (varint32_loop_low p1 1 (b mod 128) (S k) [b2]) by (done || lia).
    fold n. cbn [loop bind].
    assert (Hacc : 0 <= b mod 128 + groups_val p1 * 2 ^ (7 * 1) < 2 ^ (7 * (1 + n))).
    { replace (7 * (1 + n)) with (7 * 1 + 7 * n) by lia. rewrite Z.pow_add_r by lia. nia. }
    assert (2 ^ (7 * (1 + n)) <= 2 ^ 28) by (apply Z.pow_le_mono_r; lia).
    assert (Ev' : b mod 128 + groups_val p1 * 2 ^ (7 * 1) + b2 * 2 ^ (7 * (1 + n)) = v).
    { rewrite <- Ev. replace (7 * (1 + n)) with (7 * 1 + 7 * n) by lia.
      rewrite Z.pow_add_r by lia. ring. }
    rewrite u32_small by lia. rewrite (varint32_step_low _ _ b2) by (done || lia).
    destruct (Z.ltb_spec b2 128); [|lia]. cbn zeta iota beta. cbn [ret bind].
    rewrite (Z.mod_small b2), Ev', u32_small by lia.
    rewrite !consumed_app.
    destruct (Z.eqb_spec (7 * (1 + n + 1)) 35) as [E35|]; [|done]. cbn [andb].
    assert (En : n = 3) by lia. rewrite En in Ev'. change (2 ^ (7 * (1 + 3))) with (2 ^ 28) in Ev'.
    assert (Hb16 : 0 <= b2 < 16) by lia.
    replace (Z.land b2 0x70) with 0; [done|].
    rewrite <- (Z.mod_small b2 16) by lia. change 16 with (2 ^ 4).
    rewrite <- Z.land_ones by lia. rewrite <- Z.land_assoc. by rewrite Z.land_0_r.
Qed.

Lemma varint_groups_split k : forall n v,
  128 ^ Z.of_nat k <= v ->
  exists p, varint_groups (k + n) v = p ++ varint_groups n (v / 128 ^ Z.of_nat k) /\
            length p = k /\ continued p /\ groups_val p = v mod 128 ^ Z.of_nat k.
Proof.
  induction k as [|k IH]; intros n v Hv.
  - exists []. change (128 ^ Z.of_nat 0) with 1. rewrite Z.div_1_r, Z.mod_1_r. done.
  - rewrite pow_128_succ in *. pose proof (Z.pow_pos_nonneg 128 (Z.of_nat k) ltac:(lia) ltac:(lia)).
    assert (Hv' : 128 ^ Z.of_nat k <= v / 128) by (apply Z.div_le_lower_bound; lia).
    destruct (IH n (v / 128) Hv') as (p & E & El & Hc & Eg).
    exists ((v mod 128 + 128) :: p). pose proof (Z.mod_pos_bound v 128 ltac:(lia)).
    cbn [Nat.add varint_groups length groups_val app].
    destruct (Z.ltb_spec v 128); [lia|]. rewrite E, El, Eg, Z.div_div by lia. split_and!; try done.
    + constructor; [lia|done].
    + rewrite Z.rem_mul_r by lia. f_equal. zdiv_lia.
Qed.

(** A ten-byte varint whose bits from the 35th on are ones. *)
Lemma varint_ten_bytes v :
  (2 ^ 29 - 1) * 2 ^ 35 <= v < 2 ^ 64 ->
  exists b p1, varint v = b :: p1 ++ [255; 255; 255; 255; 1] /\
    length p1 = 4%nat /\ 128 <= b < 256 /\ continued p1 /\
    u32 (b mod 128 + groups_val p1 * 2 ^ (7 * 1)) = u32 v.
Proof.
  intros Hv. destruct (varint_groups_split 5 5 v) as (p & E & El & Hc & Eg).
  { change (128 ^ Z.of_nat 5) with (2 ^ 35). lia. }
  change (128 ^ Z.of_nat 5) with (2 ^ 35) in *.
  replace (v / 2 ^ 35) with (2 ^ 29 - 1) in E.
  2: { apply (Z.div_unique_pos _ _ _ (v - (2 ^ 29 - 1) * 2 ^ 35)); lia. }
  change (varint_groups 5 (2 ^ 29 - 1)) with [255; 255; 255; 255; 1] in E.
  destruct p as [|b p1]; [done|]. apply Forall_cons_1 in Hc as [Hb Hc].
  exists b, p1. cbn [length groups_val] in *. split_and!; [exact E|lia|lia|lia|done|].
  change (2 ^ (7 * 1)) with 128. replace (groups_val p1 * 128) with (128 * groups_val p1) by lia.
  rewrite Eg. unfold u32. norm_pow2. change (2 ^ 35) with (8 * 4294967296). zdiv_lia.
Qed.

Lemma at_input_step s w b p :
  at_input s w (b :: p) -> at_input s w [b] /\ at_input (consumed s [b]) w p.
Proof. apply (at_input_app s w [b] p). Qed.

(** The loop takes it for the sign extension of the 32-bit value. *)
Lemma reads_varint32_wide v :
  (2 ^ 29 - 1) * 2 ^ 35 <= v < 2 ^ 64 -> 2 ^ 31 <= u32 v ->
  reads pb_decode_varint32_eof (Some (u32 v), false) (varint v).
Proof.
  intros Hv Hu31 s w. destruct (varint_ten_bytes v Hv) as (b & p1 & -> & El & Hb & Hc & Eu). intros Hs.
  assert (Hleft : exists k, S (Z.to_nat (bytes_left s - 1)) = (length p1 + S (S (S (S (S k)))))%nat).
  { destruct Hs as (_ & Hle & _). cbn [length] in Hle. rewrite length_app, El in Hle.
    cbn [length] in Hle. exists (Z.to_nat (bytes_left s - 1) - 8)%nat. lia. }
  change [255; 255; 255; 255; 1] with ([255; 255; 255; 255] ++ [1]) in *.
  rewrite app_assoc in *. rewrite (varint32_eof_first b (p1 ++ [255; 255; 255; 255]) 1) by done.
  rewrite <- app_assoc in *. cbn [app] in *. apply at_input_step in Hs as [_ Hs].
  pose proof (at_input_app _ w p1 _ Hs) as [_ Hs1].
  destruct Hleft as [k ->]. cbn [bind attempt].
  pose proof (Z.mod_pos_bound b 128 ltac:(lia)) as Hm.
  rewrite (varint32_loop_low p1 1 (b mod 128) _ [255; 255; 255; 255; 1]) by (done || lia).
  rewrite Eu, El. change (7 * (1 + Z.of_nat 4)) with (7 * 5).
  assert (Hu : 2 ^ 31 <= u32 v < 2 ^ 32) by (split; [done|apply u32_range]).
  do 4 (apply at_input_step in Hs1 as [? Hs1]; cbn [loop bind];
        rewrite varint32_step_sign with (b := 255) by (done || lia);
        change (255 <? 128) with false; cbv iota).
  cbn [loop bind]. rewrite varint32_step_sign with (b := 1) by (done || lia).
  change (1 <? 128) with true. cbn [ret bind]. rewrite !consumed_app. done.
Qed.

(** A negative 32-bit value is sent as the 64-bit one, ten bytes. *)
Lemma reads_varint32_negative v :
  - 2 ^ 31 <= v < 0 -> reads pb_decode_varint32_eof (Some (u32 v), false) (varint (u64 v)).
Proof.
  intros Hv. assert (E64 : u64 v = 2 ^ 64 + v).
  { unfold u64. symmetry. apply (Z.mod_unique_pos _ _ (-1)); lia. }
  assert (E32 : u32 v = v + 2 ^ 32).
  { unfold u32. symmetry. apply (Z.mod_unique_pos _ _ (-1)); lia. }
  assert (E : u32 (u64 v) = u32 v).
  { unfold u32. rewrite E64. norm_pow2. zdiv_lia. }
  rewrite <- E. apply reads_varint32_wide; lia.
Qed.

Lemma reads_varint32 v p :
  reads pb_decode_varint32_eof (Some v, false) p -> reads pb_decode_varint32 v p.
Proof. intros Hp. eapply reads_bind_ret; [exact Hp|done]. Qed.

(** ** Tags *)

Lemma reads_tag wt n :
  0 <= wt < 8 -> 0 < n < 2 ^ 29 ->
  reads pb_decode_tag (mk_tag true wt n false) (tag_bytes wt n).
Proof.
  intros Hw Hn. unfold tag_bytes, pb_decode_tag.
  eapply reads_bind_ret; [apply reads_varint32_eof; lia|]. intros s w. cbv beta iota.
  destruct (Z.eqb_spec (8 * n + wt) 0); [lia|]. cbn [ret].
  change 7 with (Z.ones 3). rewrite Z.land_ones, shiftr_div by lia. change (2 ^ 3) with 8.
  do 3 f_equal; zdiv_lia.
Qed.

(** At the end of the stream a tag read reports the end, not an error. *)
Lemma decode_tag_eof s w :
  bytes_left s = 0 -> exists s', pb_decode_tag s w = Ok (mk_tag false 0 0 true) s' w.
Proof.
  intros E. unfold pb_decode_tag, pb_decode_varint32_eof. cbn [bind attempt].
  rewrite readbyte_eof by done. cbn. rewrite E. eauto.
Qed.

(** ** Reading and skipping bytes *)

Lemma reads_read_null l : reads (pb_read RNull (Z.of_nat (length l))) [] l.
Proof.
  intros s w (E & Hb & Hm). unfold pb_read. destruct (Z.eqb_spec (Z.of_nat (length l)) 0) as [E0|Hne].
  - destruct l; [|cbn in E0; lia]. by rewrite consumed_nil.
  - cbn [bind get]. rewrite E. cbn [is_buf_read]. unfold pb_read_direct.
    destruct (Z.eqb_spec (Z.of_nat (length l)) 0); [lia|]. cbn [bind get].
    destruct (Z.ltb_spec (bytes_left s) (Z.of_nat (length l))); [lia|].
    unfold call_icallback. cbn [bind get attempt]. rewrite E. cbn. rewrite u64_small by lia.
    reflexivity.
Qed.

(** Reading into memory copies the bytes and touches nothing else. *)
Lemma read_mem p l s w :
  at_input s w l -> (forall a, p <= a < p + Z.of_nat (length l) -> is_Some (mem w !! a)) ->
  exists m', mem_store (mem w) p l = Some m' /\
    pb_read (RMem p) (Z.of_nat (length l)) s w = Ok l (consumed s l) (World m' (blocks w) (brk w)).
Proof.
  intros (E & Hb & Hm) Hp. unfold pb_read.
  destruct (Z.eqb_spec (Z.of_nat (length l)) 0) as [E0|Hne].
  - destruct l; [|cbn in E0; lia]. exists (mem w). rewrite consumed_nil. by destruct w.
  - cbn [bind get]. unfold pb_read_direct.
    destruct (Z.eqb_spec (Z.of_nat (length l)) 0); [lia|]. cbn [bind get].
    destruct (Z.ltb_spec (bytes_left s) (Z.of_nat (length l))); [lia|].
    unfold call_icallback. cbn [bind get attempt]. rewrite E. cbn [buf_read bind get modify].
    destruct (store_bytes_ok (set_istate (istate s + Z.of_nat (length l)) s) w p l Hp)
      as (m' & Em & Est).
    exists m'. split; [done|]. unfold buf_read. cbn [bind get modify].
    rewrite load_bytes_ok by done. cbn [bind write_dst]. rewrite Est. cbn.
    rewrite u64_small by lia. reflexivity.
Qed.

Lemma reads_read_local l : reads (pb_read RLocal (Z.of_nat (length l))) l l.
Proof.
  intros s w (E & Hb & Hm). unfold pb_read. destruct (Z.eqb_spec (Z.of_nat (length l)) 0) as [E0|Hne].
  - destruct l; [|cbn in E0; lia]. by rewrite consumed_nil.
  - cbn [bind get]. unfold pb_read_direct.
    destruct (Z.eqb_spec (Z.of_nat (length l)) 0); [lia|]. cbn [bind get].
    destruct (Z.ltb_spec (bytes_left s) (Z.of_nat (length l))); [lia|].
    unfold call_icallback. cbn [bind get attempt]. rewrite E. unfold buf_read. cbn [bind get modify].
    rewrite load_bytes_ok by done. cbn. rewrite u64_small by lia. reflexivity.
Qed.

Lemma reads_skip_varint p : is_varint p -> reads pb_skip_varint tt p.
Proof.
  intros Hp s w Hs. unfold pb_skip_varint. cbn [bind get].
  assert (Hf : (length p < S (Z.to_nat (bytes_left s)))%nat) by (destruct Hs as (_ & ? & _); lia).
  revert Hf. generalize (S (Z.to_nat (bytes_left s))). intros fuel Hf.
  revert s Hs fuel Hf. induction p as [|b p IH]; [done|]. intros s Hs fuel Hf.
  destruct fuel as [|fuel]; [lia|]. cbn [loop bind].
  pose proof Hs as [Hb Hs']%at_input_step.
  rewrite (reads_read_local [b] s w Hb : pb_read RLocal 1 s w = _). cbn [bind the_byte ret].
  destruct p as [|c p].
  - cbn in Hp. rewrite land_0x80 by lia. by destruct (Z.ltb_spec b 128); [|lia].
  - destruct Hp as [Hbr Hp]. rewrite land_0x80 by lia. destruct (Z.ltb_spec b 128); [lia|].
    cbn [negb ret bind]. rewrite (IH Hp _ Hs') by (cbn in Hf |- *; lia).
    by rewrite consumed_app.
Qed.

Lemma reads_skip_string l :
  Z.of_nat (length l) < 2 ^ 32 -> reads pb_skip_string tt (length_delimited l).
Proof.
  intros Hl. unfold pb_skip_string, length_delimited. eapply reads_bind.
  - apply reads_varint32, reads_varint32_eof. lia.
  - eapply reads_bind_ret; [apply reads_read_null|done].
Qed.

End varint.

(** * Encoder and decoder together: what the primitive encoders write to a buffer,
    the primitive decoders read back from it. *)

Section roundtrip.
Context `{PbEnv}.

(** [enc] writes to the [n]-byte buffer at [buf]; [dec], run on a stream over the
    bytes written, returns [v] and stops exactly at their end. *)
Definition reads_back {V} (enc : SM pb_ostream_t unit) (dec : SM pb_istream_t V) (v : V)
    (buf n : Z) (w : world) : Prop :=
  exists k w', 0 <= k <= n /\ same_outside buf n w w' /\
    enc (pb_ostream_from_buffer buf n) w = Ok tt (mk_ostream buf_write_cb (buf + k) n k None) w' /\
    dec (pb_istream_from_buffer buf k) w' = Ok v (mk_istream buf_read_cb (buf + k) 0 None) w'.

Lemma emits_reads_back {V} (enc : SM pb_ostream_t unit) (dec : SM pb_istream_t V) v l buf n w :
  0 <= n < 2 ^ 63 -> has_object buf n w -> len l <= n ->
  (forall wz lo hi, emits wz lo hi enc tt l) -> reads dec v l -> reads_back enc dec v buf n w.
Proof.
  intros Hn Hb Hl He Hr. pose proof (len_nonneg l).
  destruct (emits_buffer enc buf n w l Hn Hb (He _ _ _) ltac:(lia)) as [Hfit _].
  destruct (Hfit Hl) as (m' & Em & Ee). exists (len l), (World m' (blocks w) (brk w)).
  split_and!; [lia|lia| |exact Ee|].
  - intros a Ha. cbn. apply (mem_store_lookup_ne _ _ _ _ _ Em). unfold len in *. lia.
  - rewrite Hr; [unfold consumed; cbn; unfold len; do 2 f_equal; lia|].
    split_and!; [done|cbn; unfold len in *; lia|cbn; unfold len in *; lia|].
    apply (mem_load_store _ _ _ _ Em).
Qed.

Lemma len_varint v : len (varint v) <= 10.
Proof. unfold len. pose proof (varint_length_max v). lia. Qed.

(** every 64-bit unsigned value survives [pb_encode_varint] followed by
    [pb_decode_varint]. *)
Theorem varint_roundtrip v buf n w :
  0 <= v < 2 ^ 64 -> 10 <= n < 2 ^ 63 -> has_object buf n w ->
  reads_back (pb_encode_varint v) pb_decode_varint v buf n w.
Proof.
  intros Hv Hn Hb. pose proof (len_varint v).
  apply (emits_reads_back _ _ _ (varint v)); [lia|done|lia| |by apply reads_varint].
  intros. by apply emits_varint.
Qed.

(** every 64-bit signed value survives the zigzag encoding. *)
Theorem svarint_roundtrip v buf n w :
  - 2 ^ 63 <= v < 2 ^ 63 -> 10 <= n < 2 ^ 63 -> has_object buf n w ->
  reads_back (pb_encode_svarint v) pb_decode_svarint v buf n w.
Proof.
  intros Hv Hn Hb. pose proof (len_varint (zigzag v)).
  apply (emits_reads_back _ _ _ (varint (zigzag v))); [lia|done|lia| |by apply reads_svarint].
  intros. by apply emits_svarint.
Qed.

(** [pb_decode_varint32] reads back 32-bit values, also the negative ones that
    the encoder sign-extends to ten bytes. *)
Theorem varint32_roundtrip v buf n w :
  - 2 ^ 31 <= v < 2 ^ 32 -> 10 <= n < 2 ^ 63 -> has_object buf n w ->
  reads_back (pb_encode_varint (u64 v)) pb_decode_varint32 (u32 v) buf n w.
Proof.
  intros Hv Hn Hb. pose proof (len_varint (u64 v)).
  apply (emits_reads_back _ _ _ (varint (u64 v))); [lia|done|lia| |].
  - intros. apply emits_varint, u64_range.
  - apply reads_varint32. destruct (Z_lt_dec v 0); [apply reads_varint32_negative; lia|].
    rewrite u64_small, u32_small by lia. apply reads_varint32_eof. lia.
Qed.

(** the tag written for a field is read back as its wire type and number. *)
Theorem tag_roundtrip wt n buf k w :
  0 <= wt < 8 -> 0 < n < 2 ^ 29 -> 10 <= k < 2 ^ 63 -> has_object buf k w ->
  reads_back (pb_encode_tag wt n) pb_decode_tag (mk_tag true wt n false) buf k w.
Proof.
  intros Hw Hn Hk Hb. pose proof (len_varint (8 * n + wt)).
  apply (emits_reads_back _ _ _ (tag_bytes wt n)); [lia|done|unfold tag_bytes; lia| |by apply reads_tag].
  intros. apply emits_tag; lia.
Qed.

End roundtrip.

Lemma varint_roundtrip_witness :
  reads_back (pb_encode_varint (2 ^ 64 - 1)) pb_decode_varint (2 ^ 64 - 1) 300 64 ex_world.
Proof. apply varint_roundtrip; [lia|lia|exact ex_world_buffer]. Defined.

Lemma svarint_roundtrip_witness :
  reads_back (pb_encode_svarint (- 2 ^ 63)) pb_decode_svarint (- 2 ^ 63) 300 64 ex_world.
Proof. apply svarint_roundtrip; [lia|lia|exact ex_world_buffer]. Defined.

Lemma varint32_roundtrip_witness :
  reads_back (pb_encode_varint (u64 (-1))) pb_decode_varint32 (u32 (-1)) 300 64 ex_world.
Proof. apply (varint32_roundtrip (-1)); [lia|lia|exact ex_world_buffer]. Defined.

Lemma tag_roundtrip_witness :
  reads_back (pb_encode_tag 2 100000) pb_decode_tag (mk_tag true 2 100000 false) 300 64 ex_world.
Proof. apply tag_roundtrip; [lia|lia|lia|exact ex_world_buffer]. Defined.
