(* ===== verification/PbDecode.v ===== *)
(** pb_decode.c, second half: the field decoders, default values, release of
    allocated fields, and the message decoder.  [pb_message_set_to_defaults] and
    [pb_release] recurse through submessages and extensions on an explicit depth;
    [pb_decode_noinit] ties the recursion of the decoder on the same depth. *)
From stdpp Require Import base gmap list strings numbers.
From Stdlib Require Import ZArith Lia.
From S2P Require Import Prelude Cmem PbTypes PbIstream.

Section decode.
Context `{PbEnv}.

#[local] Existing Instance pb_cenv.

Definition set_iter_data (pdata psize : Z) (iter : pb_field_iter_t) : pb_field_iter_t :=
  mk_iter (start iter) (pos iter) (required_field_index iter) (dest_struct iter) pdata psize.

(** Linked lists of extensions live in memory: no acyclic one is longer. *)
Definition list_fuel {T} : SM T nat := fun s w => Ok (S (size (mem w))) s w.

(** * Iterators for extensions *)

Definition iter_from_extension {T} (extension : Z) : SM T pb_field_iter_t :=
  let* type := load_ptr (ext_type extension) in
  let* fp := load_ptr (exttype_arg type) in
  let* dest := load_ptr (ext_dest extension) in
  let* (_, iter) := pb_field_iter_begin fp dest in
  let* field := field_at fp in
  let pdata := if PB_ATYPE (type_ field) =? PB_ATYPE_POINTER
               then ext_dest extension else dest in
  ret (set_iter_data pdata (ext_found extension) iter).

Definition find_extension_field {T} (iter : pb_field_iter_t) : SM T (bool * pb_field_iter_t) :=
  let start := pos iter in
  loop table_fuel (fun iter =>
    let* f := field_at (pos iter) in
    if PB_LTYPE (type_ f) =? PB_LTYPE_EXTENSION then ret (inr (true, iter))
    else
      let* (_, iter) := pb_field_iter_next iter in
      if negb (pos iter =? start) then ret (inl iter) else ret (inr (false, iter))) iter.

(** * Default values *)

(** Walks a message's fields, with the given action on each. *)
Definition for_each_field {T} (act : pb_field_iter_t -> SM T unit) (fields dest : Z)
  : SM T unit :=
  let* (more, iter) := pb_field_iter_begin fields dest in
  if negb more then ret tt
  else loop table_fuel (fun iter =>
    act iter;;
    let* (more, iter) := pb_field_iter_next iter in
    if more then ret (inl iter) else ret (inr tt)) iter.

Fixpoint pb_field_set_to_default {T} (depth : nat) (iter : pb_field_iter_t) : SM T unit :=
  match depth with
  | O => nofuel
  | S depth =>
      let* f := field_at (pos iter) in
      let type := type_ f in
      if PB_LTYPE type =? PB_LTYPE_EXTENSION then
        let* ext := load_ptr (pData iter) in
        let* fuel := list_fuel in
        loop fuel (fun ext =>
          if ext =? NULL then ret (inr tt)
          else
            store_u 1 (ext_found ext) 0;;
            let* ext_iter := iter_from_extension ext in
            pb_field_set_to_default depth ext_iter;;
            let* next := load_ptr (ext_next ext) in
            ret (inl next)) ext
      else if PB_ATYPE type =? PB_ATYPE_STATIC then
        let* init_data :=
          if (PB_HTYPE type =? PB_HTYPE_OPTIONAL) && negb (pSize iter =? pData iter) then
            store_u 1 (pSize iter) 0;; ret true
          else if (PB_HTYPE type =? PB_HTYPE_REPEATED) || (PB_HTYPE type =? PB_HTYPE_ONEOF) then
            store_u 4 (pSize iter) 0;; ret false
          else ret true in
        if init_data : bool then
          if PB_LTYPE type =? PB_LTYPE_SUBMESSAGE then
            for_each_field (pb_field_set_to_default depth) (ptr f) (pData iter)
          else if negb (ptr f =? NULL) then memcpy (pData iter) (ptr f) (data_size f)
          else memset (pData iter) 0 (data_size f)
        else ret tt
      else if PB_ATYPE type =? PB_ATYPE_POINTER then
        store_ptr (pData iter) NULL;;
        if (PB_HTYPE type =? PB_HTYPE_REPEATED) || (PB_HTYPE type =? PB_HTYPE_ONEOF)
        then store_u 4 (pSize iter) 0
        else ret tt
      else ret tt
  end.

Definition pb_message_set_to_defaults {T} (depth : nat) (fields dest : Z) : SM T unit :=
  for_each_field (pb_field_set_to_default depth) fields dest.

(** * Dynamic allocation *)

Definition allocate_field (pdata data_size array_size : Z) : SM pb_istream_t unit :=
  let* p := load_ptr pdata in
  if (data_size =? 0) || (array_size =? 0) then PB_RETURN_ERROR "invalid size"
  else
    let check_limit := 2 ^ 32 in
    if ((check_limit <=? data_size) || (check_limit <=? array_size))
       && (SIZE_MAX / array_size <? data_size)
    then PB_RETURN_ERROR "size too large"
    else
      let* p := realloc p (u64 (array_size * data_size)) in
      if p =? NULL then PB_RETURN_ERROR "realloc failed"
      else store_ptr pdata p.

Definition initialize_pointer_field (depth : nat) (pitem : Z) (iter : pb_field_iter_t)
  : SM pb_istream_t unit :=
  let* f := field_at (pos iter) in
  let ltype := PB_LTYPE (type_ f) in
  if (ltype =? PB_LTYPE_STRING) || (ltype =? PB_LTYPE_BYTES) then store_ptr pitem NULL
  else if ltype =? PB_LTYPE_SUBMESSAGE then
    memset pitem 0 (data_size f);;
    pb_message_set_to_defaults depth (ptr f) pitem
  else ret tt.

(** [for (; count > 0; count--) { act(p); p += step; }] *)
Definition for_count {T} (count : Z) (act : Z -> SM T unit) (p step : Z) : SM T unit :=
  loop (S (Z.to_nat count)) (fun cp : Z * Z =>
    let (count, p) := cp in
    if 0 <? count then act p;; ret (inl (count - 1, p + step)) else ret (inr tt)) (count, p).

Fixpoint pb_release_single_field {T} (depth : nat) (iter : pb_field_iter_t) : SM T unit :=
  match depth with
  | O => nofuel
  | S depth =>
      let* f := field_at (pos iter) in
      let type := type_ f in
      let pb_release fields dest :=
        if dest =? NULL then ret tt
        else for_each_field (pb_release_single_field depth) fields dest in
      let* other :=
        if PB_HTYPE type =? PB_HTYPE_ONEOF then
          let* which := load_u 4 (pSize iter) in ret (negb (which =? tag f))
        else ret false in
      if other : bool then ret tt
      else
        (if PB_LTYPE type =? PB_LTYPE_EXTENSION then
           let* ext := load_ptr (pData iter) in
           let* fuel := list_fuel in
           loop fuel (fun ext =>
             if ext =? NULL then ret (inr tt)
             else
               let* ext_iter := iter_from_extension ext in
               pb_release_single_field depth ext_iter;;
               let* next := load_ptr (ext_next ext) in
               ret (inl next)) ext
         else if (PB_LTYPE type =? PB_LTYPE_SUBMESSAGE)
                 && negb (PB_ATYPE type =? PB_ATYPE_CALLBACK) then
           let* pitem := if PB_ATYPE type =? PB_ATYPE_POINTER
                         then load_ptr (pData iter) else ret (pData iter) in
           let* count :=
             if PB_HTYPE type =? PB_HTYPE_REPEATED then
               let* count :=
                 if (PB_ATYPE type =? PB_ATYPE_STATIC) && (pSize iter =? pData iter)
                 then ret (array_size f) else load_u 4 (pSize iter) in
               ret (if (PB_ATYPE type =? PB_ATYPE_STATIC) && (array_size f <? count)
                    then array_size f else count)
             else ret 1 in
           if negb (pitem =? NULL)
           then for_count count (pb_release (ptr f)) pitem (data_size f)
           else ret tt
         else ret tt);;
        if PB_ATYPE type =? PB_ATYPE_POINTER then
          (if (PB_HTYPE type =? PB_HTYPE_REPEATED)
              && ((PB_LTYPE type =? PB_LTYPE_STRING) || (PB_LTYPE type =? PB_LTYPE_BYTES))
           then
             let* pitem := load_ptr (pData iter) in
             let* count := load_u 4 (pSize iter) in
             for_count count (fun p =>
               let* item := load_ptr p in free item;; store_ptr p NULL) pitem 8
           else ret tt);;
          (if PB_HTYPE type =? PB_HTYPE_REPEATED then store_u 4 (pSize iter) 0 else ret tt);;
          let* p := load_ptr (pData iter) in
          free p;;
          store_ptr (pData iter) NULL
        else ret tt
  end.

Definition pb_release {T} (depth : nat) (fields dest : Z) : SM T unit :=
  if dest =? NULL then ret tt
  else for_each_field (pb_release_single_field depth) fields dest.

Definition pb_release_union_field (depth : nat) (iter : pb_field_iter_t)
  : SM pb_istream_t pb_field_iter_t :=
  let* old_tag := load_u 4 (pSize iter) in
  let* f := field_at (pos iter) in
  let new_tag := tag f in
  if old_tag =? 0 then ret iter
  else if old_tag =? new_tag then ret iter
  else
    let* (found, iter) := pb_field_iter_find iter old_tag in
    if negb found then PB_RETURN_ERROR "invalid union tag"
    else
      pb_release_single_field depth iter;;
      let* (found, iter) := pb_field_iter_find iter new_tag in
      if negb found then PB_RETURN_ERROR "iterator error"
      else
        let* f := field_at (pos iter) in
        (if PB_ATYPE (type_ f) =? PB_ATYPE_POINTER then store_ptr (pData iter) NULL else ret tt);;
        ret iter.

(** * Field decoders *)

Definition pb_dec_bool (field : pb_field_t) (dest : Z) : SM pb_istream_t unit :=
  pb_decode_bool dest.

(** Stores [value] in the integer of [data_size] bytes at [dest]; the result is the
    value the narrowed variable holds. *)
Definition store_int (signed : bool) (data_size dest value : Z) : SM pb_istream_t Z :=
  let view w v := if signed then to_signed w v else v mod 2 ^ w in
  if data_size =? 8 then store_u 8 dest (u64 value);; ret (view 64 value)
  else if data_size =? 4 then store_u 4 dest (u32 value);; ret (view 32 value)
  else if data_size =? 2 then store_u 2 dest (u16 value);; ret (view 16 value)
  else if data_size =? 1 then store_u 1 dest (u8 value);; ret (view 8 value)
  else PB_RETURN_ERROR "invalid data_size".

Definition pb_dec_varint (field : pb_field_t) (dest : Z) : SM pb_istream_t unit :=
  let* value := pb_decode_varint in
  let svalue := if data_size field =? 8 then s64 value else s32 value in
  let* clamped := store_int true (data_size field) dest svalue in
  if negb (clamped =? svalue) then PB_RETURN_ERROR "integer too large" else ret tt.

Definition pb_dec_uvarint (field : pb_field_t) (dest : Z) : SM pb_istream_t unit :=
  let* value := pb_decode_varint in
  let* clamped := store_int false (data_size field) dest value in
  if negb (clamped =? value) then PB_RETURN_ERROR "integer too large" else ret tt.

Definition pb_dec_svarint (field : pb_field_t) (dest : Z) : SM pb_istream_t unit :=
  let* value := pb_decode_svarint in
  let* clamped := store_int true (data_size field) dest value in
  if negb (clamped =? value) then PB_RETURN_ERROR "integer too large" else ret tt.

Definition pb_dec_fixed32 (field : pb_field_t) (dest : Z) : SM pb_istream_t unit :=
  pb_decode_fixed32 dest.

Definition pb_dec_fixed64 (field : pb_field_t) (dest : Z) : SM pb_istream_t unit :=
  pb_decode_fixed64 dest.

Definition pb_dec_bytes (field : pb_field_t) (dest : Z) : SM pb_istream_t unit :=
  let* size := pb_decode_varint32 in
  if PB_SIZE_MAX <? size then PB_RETURN_ERROR "bytes overflow"
  else
    let alloc_size := PB_BYTES_ARRAY_T_ALLOCSIZE size in
    if alloc_size <? size then PB_RETURN_ERROR "size too large"
    else
      let* bdest :=
        if PB_ATYPE (type_ field) =? PB_ATYPE_POINTER then
          let* s := get in
          if bytes_left s <? size then PB_RETURN_ERROR "end-of-stream"
          else allocate_field dest alloc_size 1;; load_ptr dest
        else if data_size field <? alloc_size then PB_RETURN_ERROR "bytes overflow"
        else ret dest in
      store_u 4 bdest size;;
      pb_read (RMem (bdest + offsetof_bytes)) size;; ret tt.

(** [size + 1] is computed in 32 bits. *)
Definition pb_dec_string (field : pb_field_t) (dest : Z) : SM pb_istream_t unit :=
  let* size := pb_decode_varint32 in
  let alloc_size := u32 (size + 1) in
  if alloc_size <? size then PB_RETURN_ERROR "size too large"
  else
    let* dest :=
      if PB_ATYPE (type_ field) =? PB_ATYPE_POINTER then
        let* s := get in
        if bytes_left s <? size then PB_RETURN_ERROR "end-of-stream"
        else allocate_field dest alloc_size 1;; load_ptr dest
      else if data_size field <? alloc_size then PB_RETURN_ERROR "string overflow"
      else ret dest in
    let* status := attempt (pb_read (RMem dest) size) in
    store_u 1 (dest + size) 0;;
    match status with Some _ => ret tt | None => fail end.

Definition pb_dec_fixed_length_bytes (field : pb_field_t) (dest : Z) : SM pb_istream_t unit :=
  let* size := pb_decode_varint32 in
  if PB_SIZE_MAX <? size then PB_RETURN_ERROR "bytes overflow"
  else if size =? 0 then memset dest 0 (data_size field)
  else if negb (size =? data_size field)
  then PB_RETURN_ERROR "incorrect fixed length bytes size"
  else pb_read (RMem dest) (data_size field);; ret tt.

(** * Everything that can reach a submessage *)

Section with_pb_decode.
(** [pb_decode_noinit] one nesting level down, and the depth left for it. *)
Variable pb_decode_noinit : Z -> Z -> SM pb_istream_t unit.
Variable depth : nat.

Definition decode_with_defaults (fields dest : Z) : SM pb_istream_t unit :=
  pb_message_set_to_defaults depth fields dest;;
  let* status := attempt (pb_decode_noinit fields dest) in
  match status with
  | Some _ => ret tt
  | None => pb_release depth fields dest;; fail
  end.

Definition pb_dec_submessage (field : pb_field_t) (dest : Z) : SM pb_istream_t unit :=
  let* substream := pb_make_string_substream in
  if ptr field =? NULL then PB_RETURN_ERROR "invalid field descriptor"
  else
    let* (status, substream) :=
      on_stream substream
        (if PB_HTYPE (type_ field) =? PB_HTYPE_REPEATED
         then decode_with_defaults (ptr field) dest
         else pb_decode_noinit (ptr field) dest) in
    pb_close_string_substream substream;;
    match status with Some _ => ret tt | None => fail end.

(** The table of field decoders; [None] is the NULL entry of extensions. *)
Definition PB_DECODERS : list (option (pb_field_t -> Z -> SM pb_istream_t unit)) := [
  Some pb_dec_bool; Some pb_dec_varint; Some pb_dec_uvarint; Some pb_dec_svarint;
  Some pb_dec_fixed32; Some pb_dec_fixed64; Some pb_dec_bytes; Some pb_dec_string;
  Some pb_dec_submessage; None; Some pb_dec_fixed_length_bytes ].

(** [func = PB_DECODERS[ltype]]; calling the NULL entry is undefined. *)
Definition decoder_for (ltype : Z) : SM pb_istream_t (pb_field_t -> Z -> SM pb_istream_t unit) :=
  match PB_DECODERS !! Z.to_nat ltype with
  | Some (Some f) => ret f
  | Some None => ret (fun _ _ => ub)
  | None => ub
  end.

Definition decode_static_field (wire_type : Z) (iter : pb_field_iter_t) : SM pb_istream_t unit :=
  let* f := field_at (pos iter) in
  let type := type_ f in
  let* func := decoder_for (PB_LTYPE type) in
  let htype := PB_HTYPE type in
  if htype =? PB_HTYPE_REQUIRED then func f (pData iter)
  else if htype =? PB_HTYPE_OPTIONAL then
    (if negb (pSize iter =? pData iter) then store_u 1 (pSize iter) 1 else ret tt);;
    func f (pData iter)
  else if htype =? PB_HTYPE_REPEATED then
    if (wire_type =? PB_WT_STRING) && (PB_LTYPE type <=? PB_LTYPE_LAST_PACKABLE) then
      let* substream := pb_make_string_substream in
      let* (status, substream) :=
        on_stream substream (loop (S (Z.to_nat (bytes_left substream))) (fun _ : unit =>
          let* s := get in
          let* size := load_u 4 (pSize iter) in
          if (0 <? bytes_left s) && (size <? array_size f) then
            func f (pData iter + u32 (data_size f * size));;
            let* size := load_u 4 (pSize iter) in
            store_u 4 (pSize iter) (u32 (size + 1));;
            ret (inl tt)
          else ret (inr tt)) tt) in
      if negb (bytes_left substream =? 0) then PB_RETURN_ERROR "array overflow"
      else
        pb_close_string_substream substream;;
        match status with Some _ => ret tt | None => fail end
    else
      let* size := load_u 4 (pSize iter) in
      let pitem := pData iter + u32 (data_size f * size) in
      store_u 4 (pSize iter) (u32 (size + 1));;
      if array_size f <=? size then PB_RETURN_ERROR "array overflow"
      else func f pitem
  else if htype =? PB_HTYPE_ONEOF then
    (if PB_LTYPE type =? PB_LTYPE_SUBMESSAGE then
       let* which := load_u 4 (pSize iter) in
       if negb (which =? tag f) then
         memset (pData iter) 0 (data_size f);;
         pb_message_set_to_defaults depth (ptr f) (pData iter)
       else ret tt
     else ret tt);;
    store_u 4 (pSize iter) (tag f);;
    func f (pData iter)
  else PB_RETURN_ERROR "invalid field type".

(** The packed loop of [decode_pointer_field]; the flag says that the substream's
    entries were all decoded ([status]), the message is the one set on the parent
    stream. *)
Definition packed_pointer_item (f : pb_field_t) (iter : pb_field_iter_t)
    (func : pb_field_t -> Z -> SM pb_istream_t unit) (allocated_size : Z)
  : SM pb_istream_t (Z + (bool * option string)) :=
  let* s := get in
  if bytes_left s =? 0 then ret (inr (true, None))
  else
    let* size := load_u 4 (pSize iter) in
    if size =? PB_SIZE_MAX then ret (inr (false, Some "too many array entries"))
    else
      let* allocated :=
        if allocated_size <? u64 (size + 1) then
          if data_size f =? 0 then ub
          else
            let remain := (bytes_left s - 1) / data_size f + 1 in
            let allocated_size :=
              if remain <? u64 (PB_SIZE_MAX - allocated_size)
              then u64 (allocated_size + remain) else u64 (allocated_size + 1) in
            let* r := attempt (allocate_field (pData iter) (data_size f) allocated_size) in
            ret (match r with Some _ => Some allocated_size | None => None end)
        else ret (Some allocated_size) in
      match allocated with
      | None => ret (inr (false, None))
      | Some allocated_size =>
          let* base := load_ptr (pData iter) in
          let pitem := base + u32 (data_size f * size) in
          if pitem =? NULL then ret (inr (false, None))
          else
            initialize_pointer_field depth pitem iter;;
            let* r := attempt (func f pitem) in
            match r with
            | None => ret (inr (false, None))
            | Some _ =>
                let* size := load_u 4 (pSize iter) in
                store_u 4 (pSize iter) (u32 (size + 1));;
                ret (inl allocated_size)
            end
      end.

Definition decode_pointer_field (wire_type : Z) (iter : pb_field_iter_t) : SM pb_istream_t unit :=
  let* f := field_at (pos iter) in
  let type := type_ f in
  let* func := decoder_for (PB_LTYPE type) in
  let htype := PB_HTYPE type in
  if (htype =? PB_HTYPE_REQUIRED) || (htype =? PB_HTYPE_OPTIONAL) || (htype =? PB_HTYPE_ONEOF) then
    (if PB_LTYPE type =? PB_LTYPE_SUBMESSAGE then
       let* p := load_ptr (pData iter) in
       if negb (p =? NULL) then pb_release_single_field depth iter else ret tt
     else ret tt);;
    (if htype =? PB_HTYPE_ONEOF then store_u 4 (pSize iter) (tag f) else ret tt);;
    if (PB_LTYPE type =? PB_LTYPE_STRING) || (PB_LTYPE type =? PB_LTYPE_BYTES) then
      func f (pData iter)
    else
      allocate_field (pData iter) (data_size f) 1;;
      let* p := load_ptr (pData iter) in
      initialize_pointer_field depth p iter;;
      let* p := load_ptr (pData iter) in
      func f p
  else if htype =? PB_HTYPE_REPEATED then
    if (wire_type =? PB_WT_STRING) && (PB_LTYPE type <=? PB_LTYPE_LAST_PACKABLE) then
      let* allocated_size := load_u 4 (pSize iter) in
      let* substream := pb_make_string_substream in
      let* (r, substream) :=
        on_stream substream (loop (S (Z.to_nat (bytes_left substream)))
                                  (packed_pointer_item f iter func) allocated_size) in
      match r with
      | None => fail
      | Some (status, msg) =>
          (match msg with Some _ => modify (set_errmsg msg) | None => ret tt end);;
          pb_close_string_substream substream;;
          if status : bool then ret tt else fail
      end
    else
      let* size := load_u 4 (pSize iter) in
      if size =? PB_SIZE_MAX then PB_RETURN_ERROR "too many array entries"
      else
        allocate_field (pData iter) (data_size f) (u32 (size + 1));;
        let* base := load_ptr (pData iter) in
        let pitem := base + u32 (data_size f * size) in
        store_u 4 (pSize iter) (u32 (size + 1));;
        initialize_pointer_field depth pitem iter;;
        func f pitem
  else PB_RETURN_ERROR "invalid field type".

Definition decode_callback_field (wire_type : Z) (iter : pb_field_iter_t) : SM pb_istream_t unit :=
  let pcallback := pData iter in
  let* decode := if pcallback =? NULL then ret NULL else load_ptr (callback_funcs pcallback) in
  if decode =? NULL then pb_skip_field wire_type
  else
    let arg := callback_arg pcallback in
    if wire_type =? PB_WT_STRING then
      let* substream := pb_make_string_substream in
      let* (r, substream) :=
        on_stream substream (loop (S (Z.to_nat (bytes_left substream))) (fun _ : unit =>
          user_decode decode (pos iter) arg;;
          let* s := get in
          if negb (bytes_left s =? 0) then ret (inl tt) else ret (inr tt)) tt) in
      match r with
      | None => PB_RETURN_ERROR "callback failed"
      | Some _ => pb_close_string_substream substream
      end
    else
      with_local 10 0 (fun buffer =>
        let* size := read_raw_value wire_type buffer 10 in
        let* (r, _) :=
          on_stream (pb_istream_from_buffer buffer size) (user_decode decode (pos iter) arg) in
        match r with Some _ => ret tt | None => fail end).

(** The iterator may come back moved (and restored) by [pb_release_union_field]. *)
Definition decode_field (wire_type : Z) (iter : pb_field_iter_t)
  : SM pb_istream_t pb_field_iter_t :=
  let* f := field_at (pos iter) in
  let* iter := if PB_HTYPE (type_ f) =? PB_HTYPE_ONEOF
               then pb_release_union_field depth iter else ret iter in
  let* f := field_at (pos iter) in
  let atype := PB_ATYPE (type_ f) in
  (if atype =? PB_ATYPE_STATIC then decode_static_field wire_type iter
   else if atype =? PB_ATYPE_POINTER then decode_pointer_field wire_type iter
   else if atype =? PB_ATYPE_CALLBACK then decode_callback_field wire_type iter
   else PB_RETURN_ERROR "invalid field type");;
  ret iter.

Definition default_extension_decoder (extension tag_ wire_type : Z) : SM pb_istream_t unit :=
  let* type := load_ptr (ext_type extension) in
  let* fp := load_ptr (exttype_arg type) in
  let* field := field_at fp in
  if negb (tag field =? tag_) then ret tt
  else
    let* iter := iter_from_extension extension in
    store_u 1 (ext_found extension) 1;;
    decode_field wire_type iter;; ret tt.

Definition decode_extension (tag_ wire_type : Z) (iter : pb_field_iter_t) : SM pb_istream_t unit :=
  let* extension := load_ptr (pData iter) in
  let* s := get in
  let start_left := bytes_left s in
  let* fuel := list_fuel in
  loop fuel (fun extension =>
    let* s := get in
    if negb (extension =? NULL) && (start_left =? bytes_left s) then
      let* type := load_ptr (ext_type extension) in
      let* decode := load_ptr (exttype_decode type) in
      (if negb (decode =? NULL) then user_ext_decode decode extension tag_ wire_type
       else default_extension_decoder extension tag_ wire_type);;
      let* next := load_ptr (ext_next extension) in
      ret (inl next)
    else ret (inr tt)) extension.

(** * Decode all fields *)

(** The locals of [pb_decode_noinit]; [fixed_count_size] lives in memory, because
    the iterator's [pSize] may point at it. *)
Record noinit_state := mk_state {
  fields_seen : list Z;
  extension_range_start : Z;
  iter : pb_field_iter_t;
  fixed_count_field : Z;
}.

(** The check that the fixed-count array received so far is complete. *)
Definition fixed_count_complete (fixed_count_field fixed_count_size : Z) : SM pb_istream_t bool :=
  if fixed_count_field =? NULL then ret true
  else
    let* size := load_u 4 fixed_count_size in
    let* f := field_at fixed_count_field in
    ret (size =? array_size f).

(** The handling of a tag that names no field of the message. *)
Definition decode_unknown_field (st : noinit_state) (tag_ wire_type : Z) (it : pb_field_iter_t)
  : SM pb_istream_t noinit_state :=
  let skip range it :=
    pb_skip_field wire_type;;
    ret (mk_state (fields_seen st) range it (fixed_count_field st)) in
  if extension_range_start st <=? tag_ then
    let* (found, it) := find_extension_field it in
    let* f := field_at (pos it) in
    let range := if negb found then 2 ^ 32 - 1 else tag f in
    if range <=? tag_ then
      let* s := get in
      decode_extension tag_ wire_type it;;
      let* s' := get in
      if negb (bytes_left s =? bytes_left s')
      then ret (mk_state (fields_seen st) range it (fixed_count_field st))
      else skip range it
    else skip range it
  else skip (extension_range_start st) it.

(** The bit of [fields_seen] that a required field sets. *)
Definition mark_seen (seen : list Z) (index : Z) : list Z :=
  alter (fun w => Z.lor w (u32 (Z.shiftl 1 (Z.land index 31)))) (Z.to_nat (Z.shiftr index 5)) seen.

(** The handling of a tag that names the field under the iterator. *)
Definition decode_known_field (st : noinit_state) (fixed_count_size wire_type : Z)
    (it : pb_field_iter_t) : SM pb_istream_t noinit_state :=
  let* f := field_at (pos it) in
  let* (it, fcf) :=
    if (PB_HTYPE (type_ f) =? PB_HTYPE_REPEATED) && (pSize it =? pData it) then
      (if negb (fixed_count_field st =? pos it) then
         let* complete := fixed_count_complete (fixed_count_field st) fixed_count_size in
         if negb complete then PB_RETURN_ERROR "wrong size for fixed count field"
         else store_u 4 fixed_count_size 0
       else ret tt);;
      ret (set_iter_data (pData it) fixed_count_size it, pos it)
    else ret (it, fixed_count_field st) in
  let seen :=
    if (PB_HTYPE (type_ f) =? PB_HTYPE_REQUIRED)
       && (required_field_index it <? PB_MAX_REQUIRED_FIELDS)
    then mark_seen (fields_seen st) (required_field_index it) else fields_seen st in
  let* it := decode_field wire_type it in
  ret (mk_state seen (extension_range_start st) it fcf).

(** One round of [while (stream->bytes_left)]. *)
Definition decode_one_field (fixed_count_size : Z) (st : noinit_state)
  : SM pb_istream_t (noinit_state + noinit_state) :=
  let* s := get in
  if bytes_left s =? 0 then ret (inr st)
  else
    let* t := pb_decode_tag in
    if negb (tag_ok t) then if eof t then ret (inr st) else fail
    else
      let* (found, it) := pb_field_iter_find (iter st) (tag_no t) in
      let* st := if negb found then decode_unknown_field st (tag_no t) (wire_type t) it
                 else decode_known_field st fixed_count_size (wire_type t) it in
      ret (inl st).

(** The test of the bits of the first [req_field_count] required fields. *)
Definition required_fields_present (seen : list Z) (req_field_count : Z) : bool :=
  let allbits := 2 ^ 32 - 1 in
  let word i := nth (Z.to_nat i) seen 0 in
  let whole := forallb (fun i => word (Z.of_nat i) =? allbits)
                       (List.seq 0 (Z.to_nat (Z.shiftr req_field_count 5))) in
  if 0 <? req_field_count then
    whole &&
    (if negb (Z.land req_field_count 31 =? 0)
     then word (Z.shiftr req_field_count 5)
          =? Z.shiftr allbits (32 - Z.land req_field_count 31)
     else true)
  else true.

(** The number of required fields, found by walking to the end of the table. *)
Definition count_required_fields {T} (it : pb_field_iter_t) : SM T Z :=
  let* (req_field_count, last_type, it) :=
    loop table_fuel (fun it =>
      let req_field_count := required_field_index it in
      let* f := field_at (pos it) in
      let* (more, it) := pb_field_iter_next it in
      if more then ret (inl it) else ret (inr (req_field_count, type_ f, it))) it in
  let* f := field_at (pos it) in
  let req_field_count :=
    if (PB_HTYPE last_type =? PB_HTYPE_REQUIRED) && negb (tag f =? 0)
    then u32 (req_field_count + 1) else req_field_count in
  ret (if PB_MAX_REQUIRED_FIELDS <? req_field_count
       then PB_MAX_REQUIRED_FIELDS else req_field_count).

(** The body of [pb_decode_noinit]. *)
Definition decode_fields (fields dest : Z) : SM pb_istream_t unit :=
  with_local 4 0 (fun fixed_count_size =>
    let* (_, it) := pb_field_iter_begin fields dest in
    let* s := get in
    let* st := loop (S (Z.to_nat (bytes_left s))) (decode_one_field fixed_count_size)
                    (mk_state [0; 0] 0 it NULL) in
    let* complete := fixed_count_complete (fixed_count_field st) fixed_count_size in
    if negb complete then PB_RETURN_ERROR "wrong size for fixed count field"
    else
      let* req_field_count := count_required_fields (iter st) in
      if negb (required_fields_present (fields_seen st) req_field_count)
      then PB_RETURN_ERROR "missing required field"
      else ret tt).

End with_pb_decode.

(** [depth] is one more than the nesting of submessages in the data; a submessage
    takes at least one byte of its parent, so [bytes_left] levels are enough. *)
Fixpoint pb_decode_noinit (depth : nat) (fields dest : Z) : SM pb_istream_t unit :=
  match depth with
  | O => nofuel
  | S depth => decode_fields (pb_decode_noinit depth) depth fields dest
  end.

Definition pb_decode (depth : nat) (fields dest : Z) : SM pb_istream_t unit :=
  decode_with_defaults (pb_decode_noinit depth) depth fields dest.

Definition pb_decode_delimited_noinit (depth : nat) (fields dest : Z) : SM pb_istream_t unit :=
  let* substream := pb_make_string_substream in
  let* (status, substream) := on_stream substream (pb_decode_noinit depth fields dest) in
  pb_close_string_substream substream;;
  match status with Some _ => ret tt | None => fail end.

Definition pb_decode_delimited (depth : nat) (fields dest : Z) : SM pb_istream_t unit :=
  let* substream := pb_make_string_substream in
  let* (status, substream) := on_stream substream (pb_decode depth fields dest) in
  pb_close_string_substream substream;;
  match status with Some _ => ret tt | None => fail end.

Definition pb_decode_nullterminated (depth : nat) (fields dest : Z) : SM pb_istream_t unit :=
  pb_decode depth fields dest.

End decode.
