(* ===== verification/PbFields.v ===== *)
(** Field tables and the iterator over them.

    [table_at a fs] says that the [pb_field_t] array [fs], closed by
    [PB_LAST_FIELD], is at [a]; [iter_at] gives the iterator over each entry by the
    layout of the message struct.  [pb_field_iter_next] walks the entries in order
    and wraps around, and [pb_field_iter_find] is a cyclic search. *)
From stdpp Require Import base gmap list strings numbers option.
From Stdlib Require Import ZArith Lia.
From S2P Require Import Prelude Cmem PbTypes PbIstream PbDecode.

(** The bytes a field takes in the struct. *)
Definition stored_size (f : pb_field_t) : Z :=
  if (PB_ATYPE (type_ f) =? PB_ATYPE_STATIC) && (PB_HTYPE (type_ f) =? PB_HTYPE_REPEATED)
  then u64 (data_size f * array_size f)
  else if PB_ATYPE (type_ f) =? PB_ATYPE_POINTER then 8 else data_size f.

Definition is_required (f : pb_field_t) : bool := PB_HTYPE (type_ f) =? PB_HTYPE_REQUIRED.

(** [g] is a later member of the union that [f] is in. *)
Definition shares_union (f g : pb_field_t) : bool :=
  (PB_HTYPE (type_ f) =? PB_HTYPE_ONEOF) && (PB_HTYPE (type_ g) =? PB_HTYPE_ONEOF)
  && (data_offset g =? PB_SIZE_MAX).

(** The iterator one entry further. *)
Definition iter_succ (f g : pb_field_t) (it : pb_field_iter_t) : pb_field_iter_t :=
  if shares_union f g
  then mk_iter (start it) (pos it + sizeof_pb_field_t) (required_field_index it)
               (dest_struct it) (pData it) (pSize it)
  else
    let pdata := pData it + stored_size f + data_offset g in
    mk_iter (start it) (pos it + sizeof_pb_field_t)
            (if is_required f then u32 (required_field_index it + 1) else required_field_index it)
            (dest_struct it) pdata (pdata + size_offset g).

Section fields.
Context `{PbEnv}.

Definition table_at (a : Z) (fs : list pb_field_t) : Prop :=
  (forall i f, fs !! i = Some f ->
     rodata !! (a + Z.of_nat i * sizeof_pb_field_t) = Some f /\ tag f <> 0) /\
  exists last, rodata !! (a + Z.of_nat (length fs) * sizeof_pb_field_t) = Some last /\ tag last = 0.

Section table.
Variables (a dest : Z) (fs : list pb_field_t).
Hypothesis at_a : table_at a fs.

Definition iter_begin (f : pb_field_t) : pb_field_iter_t :=
  let pdata := if dest =? NULL then NULL else dest + data_offset f in
  mk_iter a a 0 dest pdata (if dest =? NULL then NULL else pdata + size_offset f).

(** The iterator over entry [j]. *)
Fixpoint iter_at (j : nat) : pb_field_iter_t :=
  match j with
  | O => match fs !! O with
         | Some f => iter_begin f
         | None => mk_iter a a 0 dest NULL NULL
         end
  | S j => match fs !! j, fs !! S j with
           | Some f, Some g => iter_succ f g (iter_at j)
           | _, _ => iter_at j
           end
  end.

Lemma iter_at_inv j :
  (j < length fs)%nat ->
  start (iter_at j) = a /\ dest_struct (iter_at j) = dest /\
  pos (iter_at j) = a + Z.of_nat j * sizeof_pb_field_t.
Proof.
  induction j as [|j IH]; intros Hj; cbn [iter_at].
  - destruct (fs !! 0%nat); cbn; split_and!; (done || lia).
  - destruct (lookup_lt_is_Some_2 fs j) as [f ->]; [lia|].
    destruct (lookup_lt_is_Some_2 fs (S j)) as [g ->]; [lia|].
    destruct IH as (H1 & H2 & H3); [lia|]. unfold iter_succ.
    destruct (shares_union f g); cbn [start dest_struct pos]; split_and!; try done; rewrite H3; lia.
Qed.

Lemma field_at_table {T} j f (s : T) w :
  fs !! j = Some f -> field_at (pos (iter_at j)) s w = Ok f s w.
Proof using at_a.
  intros E. destruct (iter_at_inv j) as (_ & _ & ->); [by apply lookup_lt_Some in E|].
  unfold field_at. destruct at_a as [Hf _]. by destruct (Hf j f E) as [-> _].
Qed.

Lemma iter_begin_ok {T} f (s : T) w :
  fs !! O = Some f -> pb_field_iter_begin a dest s w = Ok (true, iter_at 0) s w.
Proof using at_a.
  intros E. cbn [iter_at]. rewrite E. destruct at_a as [Hf _].
  destruct (Hf O f E) as [Ea Ht]. unfold pb_field_iter_begin, field_at.
  rewrite Z.mul_0_l, Z.add_0_r in Ea. rewrite Ea. cbn [bind ret].
  destruct (Z.eqb_spec (tag f) 0); [done|]. done.
Qed.

(** The next entry, or the first one after the last. *)
Definition next_index (j : nat) : nat := if decide (S j < length fs)%nat then S j else O.

Lemma iter_next_ok {T} j (s : T) w :
  (j < length fs)%nat ->
  pb_field_iter_next (iter_at j) s w
  = Ok (bool_decide (S j < length fs)%nat, iter_at (next_index j)) s w.
Proof using at_a.
  intros Hj. destruct (lookup_lt_is_Some_2 fs j Hj) as [f Ef].
  destruct (lookup_lt_is_Some_2 fs 0) as [f0 Ef0]; [lia|].
  destruct (iter_at_inv j Hj) as (Es & Ed & Ep).
  unfold pb_field_iter_next. cbn [bind]. rewrite (field_at_table j f) by done. cbn [bind].
  pose proof at_a as [Hf (last & El & Etl)]. destruct (Hf j f Ef) as [_ Ht].
  destruct (Z.eqb_spec (tag f) 0); [done|]. cbn [bind]. rewrite Ep.
  replace (a + Z.of_nat j * sizeof_pb_field_t + sizeof_pb_field_t)
    with (a + Z.of_nat (S j) * sizeof_pb_field_t) by lia.
  unfold next_index. destruct (decide (S j < length fs)%nat) as [Hlt|Hge].
  - destruct (lookup_lt_is_Some_2 fs (S j) Hlt) as [g Eg]. destruct (Hf (S j) g Eg) as [Erg Htg].
    rewrite bool_decide_true by done. unfold field_at at 1. rewrite Erg. cbn [bind ret].
    destruct (Z.eqb_spec (tag g) 0); [done|].
    cbn [iter_at]. rewrite Ef, Eg. unfold iter_succ. fold (shares_union f g) (is_required f).
    replace (pos (iter_at j) + sizeof_pb_field_t)
      with (a + Z.of_nat (S j) * sizeof_pb_field_t) by (rewrite Ep; lia).
    destruct (shares_union f g); [done|]. done.
  - rewrite bool_decide_false by done. assert (S j = length fs) as -> by lia.
    unfold field_at at 1. rewrite El. cbn [bind ret]. rewrite Etl. cbn [bind].
    change (0 =? 0) with true. cbn [bind].
    rewrite Es, Ed, (iter_begin_ok f0) by done. done.
Qed.

(** ** Cyclic search *)

(** The entries from [i] on, wrapping around. *)
Definition cyclic (i : nat) : list nat := seq i (length fs - i) ++ seq 0 i.

Definition satisfies (P : pb_field_t -> bool) (j : nat) : bool :=
  match fs !! j with Some f => P f | None => false end.

Definition cyclic_find (P : pb_field_t -> bool) (i : nat) : option nat :=
  List.find (satisfies P) (cyclic i).

(** The search loop that [pb_field_iter_find] and [find_extension_field] share. *)
Definition search {T} (P : pb_field_t -> bool) (fuel : nat) (start : Z) (it : pb_field_iter_t)
  : SM T (bool * pb_field_iter_t) :=
  loop fuel (fun iter =>
    let* f := field_at (pos iter) in
    if P f then ret (inr (true, iter))
    else
      let* (_, iter) := pb_field_iter_next iter in
      if negb (pos iter =? start) then ret (inl iter) else ret (inr (false, iter))) it.

Definition found {T} (s : T) (w : world) (i : nat) (r : option nat)
  : res T (bool * pb_field_iter_t) :=
  match r with
  | Some j => Ok (true, iter_at j) s w
  | None => Ok (false, iter_at i) s w
  end.

Lemma pos_inj j k :
  (j < length fs)%nat -> (k < length fs)%nat ->
  (pos (iter_at j) =? pos (iter_at k)) = bool_decide (j = k).
Proof.
  intros Hj Hk. destruct (iter_at_inv j Hj) as (_ & _ & ->).
  destruct (iter_at_inv k Hk) as (_ & _ & ->). unfold sizeof_pb_field_t.
  destruct (Z.eqb_spec (a + Z.of_nat j * 32) (a + Z.of_nat k * 32));
    [rewrite bool_decide_true by lia|rewrite bool_decide_false by lia]; done.
Qed.

(** The walk over the entries still to visit. *)
Lemma search_rest {T} P i (s : T) w : forall l j fuel,
  (i < length fs)%nat ->
  (exists visited, cyclic i = visited ++ j :: l) -> (length l < fuel)%nat ->
  search P fuel (pos (iter_at i)) (iter_at j) s w
  = found s w i (List.find (satisfies P) (j :: l)).
Proof using at_a.
  induction l as [|k l IH]; intros j fuel Hi [vis Ec] Hf; (destruct fuel as [|fuel]; [lia|]);
  assert (Hnth : forall m x, cyclic i !! m = Some x ->
     (x < length fs)%nat /\
     ((i + m < length fs)%nat /\ x = (i + m)%nat \/
      (length fs <= i + m)%nat /\ x = (i + m - length fs)%nat)).
  1, 3: (intros m x; unfold cyclic; rewrite lookup_app_Some, !lookup_seq, length_seq;
         intros [[-> ?]|(? & -> & ?)]; lia).
  all: assert (Hlen : length (cyclic i) = length fs)
    by (unfold cyclic; rewrite length_app, !length_seq; lia).
  all: assert (Ej : cyclic i !! length vis = Some j) by (rewrite Ec; by apply list_lookup_middle).
  all: pose proof Ej as Hvl; apply lookup_lt_Some in Hvl; rewrite Hlen in Hvl.
  all: destruct (Hnth _ _ Ej) as [Hjl Ejv].
  all: destruct (lookup_lt_is_Some_2 fs j Hjl) as [f Ef].
  all: unfold search; cbn [loop bind]; rewrite (field_at_table j f) by done; cbn [bind].
  all: cbn [List.find]; unfold satisfies at 1; rewrite Ef; destruct (P f); [done|].
  all: cbn [bind]; rewrite iter_next_ok by done; cbn [bind].
  all: assert (Hnext : (next_index j < length fs)%nat)
    by (unfold next_index; destruct (decide _); lia).
  all: rewrite (pos_inj (next_index j) i Hnext Hi).
  - assert (Hl : length (cyclic i) = S (length vis)) by (rewrite Ec, length_app; cbn; lia).
    assert (next_index j = i) as ->.
    { unfold next_index. destruct (decide (S j < length fs)%nat); lia. }
    by rewrite bool_decide_true.
  - assert (Ek : cyclic i !! S (length vis) = Some k).
    { rewrite Ec. rewrite lookup_app_r by lia. by replace (S (length vis) - length vis)%nat with 1%nat by lia. }
    destruct (Hnth _ _ Ek) as [Hkl Ekv]. pose proof (lookup_lt_Some _ _ _ Ek) as Hsl.
    assert (next_index j = k) as ->.
    { unfold next_index. destruct (decide (S j < length fs)%nat); lia. }
    rewrite bool_decide_false by lia.
    cbn [negb ret bind]. apply (IH k fuel Hi); [|cbn in Hf; lia].
    exists (vis ++ [j]). by rewrite <- app_assoc.
Qed.

Lemma search_ok {T} P i fuel (s : T) w :
  (i < length fs)%nat -> (length fs <= fuel)%nat ->
  search P fuel (pos (iter_at i)) (iter_at i) s w = found s w i (cyclic_find P i).
Proof using at_a.
  intros Hi Hf. unfold cyclic_find.
  assert (Ec : exists l, cyclic i = i :: l /\ length (i :: l) = length fs).
  { unfold cyclic. destruct (length fs - i)%nat as [|n] eqn:E; [lia|].
    exists (seq (S i) n ++ seq 0 i). split; [done|]. cbn. rewrite length_app, !length_seq. lia. }
  destruct Ec as (l & Ec & El). rewrite Ec.
  apply search_rest; [done|by exists []|cbn in El; lia].
Qed.

(** The table has more entries than the walk visits. *)
Lemma table_fuel_enough : (length fs < table_fuel)%nat.
Proof using at_a.
  unfold table_fuel. pose proof at_a as [Hf _].
  set (addr := fun i : nat => a + Z.of_nat i * sizeof_pb_field_t).
  assert (Hinj : NoDup (addr <$> seq 0 (length fs))).
  { apply NoDup_fmap_2; [|apply NoDup_seq]. intros x y. unfold addr, sizeof_pb_field_t. lia. }
  assert (Hsub : list_to_set (addr <$> seq 0 (length fs)) ⊆ dom rodata).
  { intros x. rewrite elem_of_list_to_set, list_elem_of_fmap. intros (i & -> & Hi).
    apply elem_of_seq in Hi. destruct (lookup_lt_is_Some_2 fs i) as [f Ef]; [lia|].
    apply elem_of_dom. unfold addr. destruct (Hf i f Ef) as [-> _]. done. }
  apply subseteq_size in Hsub. rewrite size_list_to_set, length_fmap, length_seq in Hsub by done.
  rewrite size_dom in Hsub. lia.
Qed.

End table.
End fields.
