(* ===== verification/PbDecodeThms.v ===== *)
(** Theorems on the message decoder: field lookup, the bookkeeping of required
    fields, and what happens to fields the receiver does not know. *)
From stdpp Require Import base gmap list strings numbers option.
From Stdlib Require Import ZArith Lia.
From S2P Require Import Prelude Cmem Hoare PbTypes PbWire PbIstream PbDecodePrim PbDecode PbFields PbEncodeThms.

(** * Field lookup *)

Definition is_extension (f : pb_field_t) : bool := PB_LTYPE (type_ f) =? PB_LTYPE_EXTENSION.

(** The entries [pb_field_iter_find] looks for. *)
Definition has_tag (t : Z) (f : pb_field_t) : bool := (tag f =? t) && negb (is_extension f).

Section lookup.
Context `{PbEnv} (a dest : Z) (fs : list pb_field_t).
Hypothesis at_a : table_at a fs.
Notation iter_at := (iter_at a dest fs).
Notation found := (found a dest fs).

Lemma find_field_ok {T} t i (s : T) w :
  (i < length fs)%nat ->
  pb_field_iter_find (iter_at i) t s w = found s w i (cyclic_find fs (has_tag t) i).
Proof using at_a.
  intros Hi. apply (search_ok a dest fs at_a (has_tag t)); [done|].
  pose proof (table_fuel_enough a fs at_a). lia.
Qed.

Lemma find_extension_ok {T} i (s : T) w :
  (i < length fs)%nat ->
  find_extension_field (iter_at i) s w = found s w i (cyclic_find fs is_extension i).
Proof using at_a.
  intros Hi. apply (search_ok a dest fs at_a is_extension); [done|].
  pose proof (table_fuel_enough a fs at_a). lia.
Qed.

Lemma cyclic_find_none P i :
  Forall (fun f => P f = false) fs -> cyclic_find fs P i = None.
Proof.
  intros Hp. unfold cyclic_find. induction (cyclic fs i) as [|j l IH]; [done|].
  cbn [List.find]. unfold satisfies at 1.
  destruct (fs !! j) as [f|] eqn:E; [|done]. by rewrite (Forall_lookup_1 _ _ _ _ Hp E).
Qed.

(** * Required fields *)

Definition count_required (l : list pb_field_t) : Z := Z.of_nat (length (List.filter is_required l)).

Lemma count_required_snoc l f :
  count_required (l ++ [f]) = count_required l + b2z (is_required f).
Proof.
  unfold count_required. rewrite filter_app, length_app. cbn [List.filter].
  destruct (is_required f); cbn [length b2z]; lia.
Qed.

Lemma iter_at_required j :
  (j < length fs)%nat -> Z.of_nat (length fs) < 2 ^ 32 ->
  required_field_index (iter_at j) = count_required (take j fs).
Proof.
  intros Hj Hn. induction j as [|j IH]; cbn [PbFields.iter_at].
  - rewrite take_0. by destruct (fs !! 0%nat).
  - destruct (lookup_lt_is_Some_2 fs j) as [f Ef]; [lia|]. rewrite Ef.
    destruct (lookup_lt_is_Some_2 fs (S j) Hj) as [g ->].
    rewrite (take_S_r _ _ _ Ef), count_required_snoc, <- IH by lia.
    assert (Hr : 0 <= required_field_index (iter_at j) <= Z.of_nat j).
    { rewrite IH by lia. unfold count_required.
      pose proof (filter_length_le is_required (take j fs)) as Hle. rewrite length_take in Hle. lia. }
    unfold iter_succ, shares_union, is_required.
    destruct (Z.eqb_spec (PB_HTYPE (type_ f)) PB_HTYPE_ONEOF) as [E|_]; cbn [andb].
    + rewrite E. cbn [b2z]. destruct (_ && _); cbn; lia.
    + cbn [required_field_index]. destruct (_ =? PB_HTYPE_REQUIRED); cbn [b2z]; [|lia].
      rewrite u32_small; lia.
Qed.

(** The walk of [count_required_fields] from any entry. *)
Lemma count_loop {T} : forall k j fuel (s : T) w,
  (length fs = S (j + k))%nat -> (k < fuel)%nat ->
  loop fuel (fun it =>
      let req_field_count := required_field_index it in
      let* f := field_at (pos it) in
      let* (more, it) := pb_field_iter_next it in
      if more then ret (inl it) else ret (inr (req_field_count, type_ f, it))) (iter_at j) s w
  = match fs !! (j + k)%nat with
    | Some last => Ok (required_field_index (iter_at (j + k)), type_ last, iter_at 0) s w
    | None => UB
    end.
Proof using at_a.
  induction k as [|k IH]; intros j fuel s w Hn Hf; (destruct fuel as [|fuel]; [lia|]);
    (destruct (lookup_lt_is_Some_2 fs j) as [f Ef]; [lia|]); cbn [loop bind];
    rewrite (field_at_table a dest fs at_a j f) by done; cbn [bind];
    rewrite (iter_next_ok a dest fs at_a) by lia; cbn [bind]; unfold next_index.
  - rewrite Nat.add_0_r in *. rewrite bool_decide_false by lia.
    destruct (decide _); [lia|]. by rewrite Ef.
  - rewrite bool_decide_true by lia. destruct (decide _); [|lia].
    cbn [ret bind]. rewrite (IH (S j)) by lia. by rewrite Nat.add_succ_comm.
Qed.

Lemma count_required_ok {T} i (s : T) w :
  (i < length fs)%nat -> Z.of_nat (length fs) < 2 ^ 32 ->
  count_required_fields (iter_at i) s w = Ok (Z.min 64 (count_required fs)) s w.
Proof using at_a.
  intros Hi Hn. pose proof (table_fuel_enough a fs at_a).
  unfold count_required_fields. cbn [bind].
  rewrite (count_loop (length fs - i - 1) i) by lia.
  set (m := (i + (length fs - i - 1))%nat). assert (Em : S m = length fs) by lia.
  destruct (lookup_lt_is_Some_2 fs m) as [last El]; [lia|]. rewrite El. cbn [bind].
  destruct (lookup_lt_is_Some_2 fs 0) as [f0 E0]; [lia|].
  rewrite (field_at_table a dest fs at_a 0 f0) by done. cbn [bind ret].
  destruct at_a as [Hf _]. destruct (Hf _ _ E0) as [_ Ht].
  destruct (Z.eqb_spec (tag f0) 0); [done|]. cbn [negb]. rewrite andb_true_r.
  rewrite iter_at_required by lia. fold (is_required last).
  assert (Et : take (S m) fs = fs) by (apply take_ge; lia).
  assert (Ec : count_required fs = count_required (take m fs) + b2z (is_required last)).
  { rewrite <- Et at 1. by rewrite (take_S_r _ _ _ El), count_required_snoc. }
  assert (Hb : 0 <= count_required (take m fs) <= Z.of_nat m).
  { unfold count_required. pose proof (filter_length_le is_required (take m fs)) as Hle.
    rewrite length_take in Hle. lia. }
  unfold PB_MAX_REQUIRED_FIELDS. rewrite Ec. f_equal.
  destruct (is_required last); cbn [b2z]; [rewrite u32_small by lia|]; bool_cases; lia.
Qed.

End lookup.

(** ** The bits of [fields_seen] *)

Definition seen_bit (seen : list Z) (i : Z) : bool :=
  Z.testbit (nth (Z.to_nat (i / 32)) seen 0) (i mod 32).

Lemma land_31 i : Z.land i 31 = i mod 32.
Proof. change 31 with (Z.ones 5). by rewrite Z.land_ones by lia. Qed.

(** A word is the mask of its low [r] bits. *)
Lemma ones_iff x r :
  0 <= r -> 0 <= x -> (forall i, r <= i -> Z.testbit x i = false) ->
  (x =? Z.ones r) = true <-> forall i, 0 <= i < r -> Z.testbit x i = true.
Proof.
  intros Hr Hx Hhigh. rewrite Z.eqb_eq. split.
  - intros -> i Hi. by apply Z.ones_spec_low.
  - intros Hlow. apply Z.bits_inj'. intros i Hi. destruct (Z_lt_dec i r).
    + rewrite Z.ones_spec_low by lia. apply Hlow. lia.
    + rewrite Z.ones_spec_high by lia. apply Hhigh. lia.
Qed.

Lemma testbit_high x w i : 0 <= x < 2 ^ w -> w <= i -> Z.testbit x i = false.
Proof.
  intros Hx Hi. destruct (Z_lt_dec w 0); [rewrite Z.pow_neg_r in Hx; lia|].
  rewrite <- (Z.mod_small x (2 ^ w)) by lia. by rewrite Z.mod_pow2_bits_high by lia.
Qed.

(** Index [i] of the bit set, as word and position. *)
Lemma seen_bit_words x y i :
  0 <= i < 64 ->
  seen_bit [x; y] i = if i <? 32 then Z.testbit x i else Z.testbit y (i - 32).
Proof.
  intros Hi. unfold seen_bit. destruct (Z.ltb_spec i 32).
  - rewrite Z.div_small, Z.mod_small by lia. done.
  - replace (i / 32) with 1 by (apply (Z.div_unique_pos _ _ _ (i - 32)); lia).
    replace (i mod 32) with (i - 32) by (apply (Z.mod_unique_pos _ _ 1); lia). done.
Qed.

Lemma partial_mask r : 0 < r < 32 -> Z.shiftr (2 ^ 32 - 1) (32 - r) = Z.ones r.
Proof.
  intros Hr. replace (2 ^ 32 - 1) with (Z.ones 32) by (rewrite Z.ones_equiv; lia).
  apply Z.bits_inj'. intros i Hi. rewrite Z.shiftr_spec by lia.
  destruct (Z_lt_dec i r).
  - rewrite !Z.ones_spec_low by lia. done.
  - rewrite !Z.ones_spec_high by lia. done.
Qed.

(** The test of the whole words. *)
Lemma whole_words x y k m :
  0 <= k <= 2 ->
  forallb (fun i => nth (Z.to_nat (Z.of_nat i)) [x; y] 0 =? m) (List.seq 0 (Z.to_nat k))
  = (if 0 <? k then x =? m else true) && (if 1 <? k then y =? m else true).
Proof.
  intros Hk. assert (Hc : k = 0 \/ k = 1 \/ k = 2) by lia.
  destruct Hc as [-> | [-> | ->]]; [done|..]; change (forallb ?f (List.seq ?a ?b)) with
    (forallb f (List.seq a b)); vm_compute (List.seq _ _); cbn [forallb];
    vm_compute (Z.to_nat _); cbn [nth]; vm_compute (0 <? _); vm_compute (1 <? _);
    by rewrite ?andb_true_r.
Qed.

Lemma required_present_iff x y n :
  0 <= x < 2 ^ 32 -> 0 <= y < 2 ^ 32 -> 0 <= n <= 64 ->
  (forall i, n <= i < 64 -> seen_bit [x; y] i = false) ->
  required_fields_present [x; y] n = true <->
  forall i, 0 <= i < n -> seen_bit [x; y] i = true.
Proof.
  intros Hx Hy Hn Hclear. unfold required_fields_present. cbv zeta.
  destruct (Z.ltb_spec 0 n); [|split; [intros _ i Hi; lia|done]].
  rewrite land_31, shiftr_div by lia. change (2 ^ 5) with 32.
  assert (Hlow : forall i, 32 <= i -> Z.testbit x i = false) by (intros; apply (testbit_high x 32); lia).
  assert (Hhigh : forall i, 32 <= i -> Z.testbit y i = false) by (intros; apply (testbit_high y 32); lia).
  assert (E32 : 2 ^ 32 - 1 = Z.ones 32) by done.
  assert (Hc : n < 32 \/ n = 32 \/ 32 < n < 64 \/ n = 64) by lia.
  destruct Hc as [Hc|[->|[Hc| ->]]].
  - rewrite Z.div_small, Z.mod_small by lia. destruct (Z.eqb_spec n 0); [lia|].
    rewrite partial_mask, whole_words by lia.
    change (0 <? 0) with false. change (1 <? 0) with false. change (Z.to_nat 0) with 0%nat.
    cbn [andb negb nth]. rewrite ones_iff; [|lia|lia|].
    + split; intros Hi i Hin; specialize (Hi i Hin); rewrite seen_bit_words in *; try lia;
        destruct (Z.ltb_spec i 32); (done || lia).
    + intros i Hin. destruct (Z_lt_dec i 32); [|apply Hlow; lia].
      specialize (Hclear i ltac:(lia)). rewrite seen_bit_words in Hclear by lia.
      by destruct (Z.ltb_spec i 32); [|lia].
  - change (32 / 32) with 1. change (32 mod 32) with 0. rewrite whole_words by lia.
    change (0 <? 1) with true. change (1 <? 1) with false. change (0 =? 0) with true.
    cbn [andb negb]. rewrite !andb_true_r, E32, ones_iff by (done || lia).
    split; intros Hi i Hin; specialize (Hi i Hin); rewrite seen_bit_words in *; try lia;
      destruct (Z.ltb_spec i 32); (done || lia).
  - replace (n / 32) with 1 by (apply (Z.div_unique_pos _ _ _ (n - 32)); lia).
    replace (n mod 32) with (n - 32) by (apply (Z.mod_unique_pos _ _ 1); lia).
    destruct (Z.eqb_spec (n - 32) 0); [lia|]. rewrite partial_mask by lia.
    rewrite whole_words by lia. change (0 <? 1) with true. change (1 <? 1) with false.
    change (Z.to_nat 1) with 1%nat. cbn [andb negb nth].
    rewrite !andb_true_r, E32, andb_true_iff.
    rewrite !ones_iff; [|lia|lia| |lia|lia|done].
    + split.
      * intros [H1 H2] i Hin. rewrite seen_bit_words by lia. destruct (Z.ltb_spec i 32).
        -- apply H1. lia.
        -- apply H2. lia.
      * intros Hi. split; intros i Hin.
        -- specialize (Hi i ltac:(lia)). rewrite seen_bit_words in Hi by lia.
           by destruct (Z.ltb_spec i 32); [|lia].
        -- specialize (Hi (i + 32) ltac:(lia)). rewrite seen_bit_words in Hi by lia.
           destruct (Z.ltb_spec (i + 32) 32); [lia|]. by replace (i + 32 - 32) with i in Hi by lia.
    + intros i Hin. destruct (Z_lt_dec i 32); [|apply Hhigh; lia].
      specialize (Hclear (i + 32) ltac:(lia)). rewrite seen_bit_words in Hclear by lia.
      destruct (Z.ltb_spec (i + 32) 32); [lia|]. by replace (i + 32 - 32) with i in Hclear by lia.
  - change (64 / 32) with 2. change (64 mod 32) with 0. rewrite whole_words by lia.
    change (0 <? 2) with true. change (1 <? 2) with true. change (0 =? 0) with true.
    cbn [andb negb]. rewrite !andb_true_r, E32, andb_true_iff, !ones_iff by (done || lia).
    split.
    + intros [H1 H2] i Hin. rewrite seen_bit_words by lia. destruct (Z.ltb_spec i 32).
      * apply H1. lia.
      * apply H2. lia.
    + intros Hi. split; intros i Hin.
      * specialize (Hi i ltac:(lia)). rewrite seen_bit_words in Hi by lia.
        by destruct (Z.ltb_spec i 32); [|lia].
      * specialize (Hi (i + 32) ltac:(lia)). rewrite seen_bit_words in Hi by lia.
        destruct (Z.ltb_spec (i + 32) 32); [lia|]. by replace (i + 32 - 32) with i in Hi by lia.
Qed.

Lemma mark_bit w r i :
  0 <= r < 32 -> 0 <= i < 32 ->
  Z.testbit (Z.lor w (u32 (Z.shiftl 1 r))) i = (i =? r) || Z.testbit w i.
Proof.
  intros Hr Hi. rewrite Z.lor_spec, orb_comm. f_equal.
  rewrite Z.shiftl_mul_pow2, Z.mul_1_l by lia.
  assert (2 ^ r <= 2 ^ 31) by (apply Z.pow_le_mono_r; lia).
  rewrite u32_small by lia. rewrite Z.pow2_bits_eqb by lia. apply Z.eqb_sym.
Qed.

Lemma mark_seen_ok x y idx i :
  0 <= idx < 64 -> 0 <= i < 64 ->
  seen_bit (mark_seen [x; y] idx) i = (i =? idx) || seen_bit [x; y] i.
Proof.
  intros Hidx Hi. unfold mark_seen. rewrite land_31, shiftr_div by lia. change (2 ^ 5) with 32.
  destruct (Z_lt_dec idx 32).
  - rewrite (Z.div_small idx), (Z.mod_small idx) by lia.
    change (Z.to_nat 0) with 0%nat. cbn [alter list_alter]. rewrite !seen_bit_words by lia.
    destruct (Z.ltb_spec i 32); [apply mark_bit; lia|]. destruct (Z.eqb_spec i idx); [lia|done].
  - replace (idx / 32) with 1 by (apply (Z.div_unique_pos _ _ _ (idx - 32)); lia).
    replace (idx mod 32) with (idx - 32) by (apply (Z.mod_unique_pos _ _ 1); lia).
    change (Z.to_nat 1) with 1%nat. cbn [alter list_alter]. rewrite !seen_bit_words by lia.
    destruct (Z.ltb_spec i 32); [destruct (Z.eqb_spec i idx); [lia|done]|].
    rewrite mark_bit by lia. f_equal.
    destruct (Z.eqb_spec (i - 32) (idx - 32)); destruct (Z.eqb_spec i idx); (done || lia).
Qed.

(** * Fields the receiver does not know *)

Section unknown.
Context `{PbEnv}.

Lemma reads_skip_field wt l : wire_payload wt l -> reads (pb_skip_field wt) tt l.
Proof.
  destruct 1 as [p Hp _|l Hl|l Hl|l Hl]; unfold pb_skip_field; cbn [Z.eqb].
  - by apply reads_skip_varint.
  - eapply reads_bind_ret; [|done]. change 8 with (Z.of_nat 8). rewrite <- Hl. apply reads_read_null.
  - by apply reads_skip_string.
  - eapply reads_bind_ret; [|done]. change 4 with (Z.of_nat 4). rewrite <- Hl. apply reads_read_null.
Qed.

Variables (sub : Z -> Z -> SM pb_istream_t unit) (depth : nat).
Variables (a dest : Z) (fs : list pb_field_t).
Hypothesis at_a : table_at a fs.

(** No field of the table has the number, and there are no extensions. *)
Definition unknown_number (t : Z) : Prop := Forall (fun f => has_tag t f = false) fs.
Definition no_extensions : Prop := Forall (fun f => is_extension f = false) fs.

Lemma reads_unknown_field st i t wt l :
  (i < length fs)%nat -> no_extensions -> 0 < t < 2 ^ 29 -> wire_payload wt l ->
  exists range,
    reads (decode_unknown_field sub depth st t wt (iter_at a dest fs i))
          (mk_state (fields_seen st) range (iter_at a dest fs i) (fixed_count_field st)) l.
Proof using at_a.
  intros Hi Hext Ht Hp. unfold decode_unknown_field.
  destruct (extension_range_start st <=? t).
  - exists (2 ^ 32 - 1). eapply reads_ext.
    { intros s w. cbn [bind]. rewrite (find_extension_ok a dest fs at_a) by done.
      rewrite cyclic_find_none by done. cbn [found bind].
      destruct (lookup_lt_is_Some_2 fs i Hi) as [f Ef].
      rewrite (field_at_table a dest fs at_a i f) by done. cbn [bind negb].
      destruct (Z.leb_spec (2 ^ 32 - 1) t); [lia|]. reflexivity. }
    eapply reads_bind_ret; [by apply reads_skip_field|done].
  - exists (extension_range_start st).
    eapply reads_bind_ret; [by apply reads_skip_field|done].
Qed.

Lemma unknown_fields_loop fcs ns l : wire_message ns l ->
  Forall unknown_number ns -> no_extensions ->
  forall i fuel st s w, (i < length fs)%nat -> iter st = iter_at a dest fs i ->
  at_input s w l -> bytes_left s = Z.of_nat (length l) -> (length l < fuel)%nat ->
  exists range,
    loop fuel (decode_one_field sub depth fcs) st s w
    = Ok (mk_state (fields_seen st) range (iter_at a dest fs i) (fixed_count_field st))
         (consumed s l) w.
Proof using at_a.
  induction 1 as [|wt n l ns r Hn Hp Hr IH]; intros Hns Hext i fuel st s w Hi Eit Hs Hleft Hf;
    (destruct fuel as [|fuel]; [lia|]); cbn [loop bind]; unfold decode_one_field; cbn [bind get].
  - cbn [length] in Hleft. rewrite Hleft. cbn. rewrite consumed_nil, <- Eit.
    exists (extension_range_start st). by destruct st.
  - pose proof (wire_payload_range _ _ Hp) as Hwt.
    assert (Hne : (0 < length (tag_bytes wt n))%nat).
    { unfold tag_bytes. pose proof (varint_length_min (8 * n + wt)). lia. }
    rewrite !length_app in *.
    destruct (Z.eqb_spec (bytes_left s) 0); [lia|]. cbn [bind].
    pose proof (at_input_app s w _ _ Hs) as [H1 H2].
    rewrite (reads_tag wt n Hwt Hn s w H1). cbn [bind tag_ok negb tag_no wire_type].
    apply Forall_cons_1 in Hns as [Hun Hns].
    rewrite Eit, (find_field_ok a dest fs at_a) by done. rewrite cyclic_find_none by done.
    cbn [found bind negb].
    destruct (reads_unknown_field st i n wt l Hi Hext Hn Hp) as [range Hu].
    pose proof (at_input_app _ w _ _ H2) as [H3 H4].
    rewrite (Hu _ w H3). cbn [ret bind].
    destruct (IH Hns Hext i fuel
      (mk_state (fields_seen st) range (iter_at a dest fs i) (fixed_count_field st))
      (consumed (consumed s (tag_bytes wt n)) l) w) as [range' E]; try done.
    { cbn [consumed bytes_left]. lia. } { lia. }
    exists range'. etransitivity; [exact E|]. cbn [fields_seen fixed_count_field].
    rewrite !consumed_app. by rewrite ?app_assoc.
Qed.

(** A message of unknown fields only: all of it is read and dropped; the decoder
    then accepts exactly when no field of its own is required. *)
Lemma decode_unknown_message ns l s w :
  fs <> [] -> Z.of_nat (length fs) < 2 ^ 32 ->
  wire_message ns l -> Forall unknown_number ns -> no_extensions -> below_brk w ->
  at_input s w l -> bytes_left s = Z.of_nat (length l) ->
  decode_fields sub depth a dest s w =
  let w' := World (mem w) (blocks w) (brk w + 16) in
  if count_required fs =? 0 then Ok tt (consumed s l) w'
  else Err (PB_SET_ERROR "missing required field" (consumed s l)) w'.
Proof using at_a.
  intros Hne Hn Hm Hns Hext Hbrk Hs Hleft. unfold decode_fields. cbv zeta.
  destruct (lookup_lt_is_Some_2 fs 0) as [f0 E0]; [destruct fs; [done|cbn; lia]|].
  apply (with_local_same 4 0 _ s w (fun w' =>
    if count_required fs =? 0 then Ok tt (consumed s l) w'
    else Err (PB_SET_ERROR "missing required field" (consumed s l)) w')); [done| |].
  2: { destruct (_ =? 0); [left|right]; eauto. }
  set (w1 := local_world 4 0 w).
  assert (Hs1 : at_input s w1 l).
  { destruct Hs as (H1 & H2 & H3). split_and!; [done|lia|lia|]. rewrite <- H3.
    apply mem_load_eq. intros x Hx. unfold w1, local_world; cbn [mem]. apply mem_fill_lookup_ne.
    specialize (Hbrk x (mem_load_dom _ _ _ _ H3 x Hx)). lia. }
  cbn [bind]. rewrite (iter_begin_ok a dest fs at_a f0) by done. cbn [bind get].
  destruct (unknown_fields_loop (brk w) ns l Hm Hns Hext 0
    (S (Z.to_nat (bytes_left s))) (mk_state [0; 0] 0 (iter_at a dest fs 0) NULL) s w1)
    as [range E]; try done; [by apply lookup_lt_Some in E0|lia|].
  rewrite E. cbn [bind fixed_count_field iter fields_seen]. unfold fixed_count_complete.
  change (NULL =? NULL) with true. cbn [ret bind negb].
  rewrite (count_required_ok a dest fs at_a) by (done || by apply lookup_lt_Some in E0).
  cbn [bind].
  assert (Hc : 0 <= count_required fs) by (unfold count_required; lia).
  assert (Ep : required_fields_present [0; 0] (Z.min 64 (count_required fs))
               = (count_required fs =? 0)).
  { destruct (Z.eqb_spec (count_required fs) 0) as [-> | Hpos]; [done|].
    apply not_true_iff_false. rewrite required_present_iff; [|lia|lia|lia|].
    - intros Hall. by specialize (Hall 0 ltac:(lia)).
    - intros i Hi. rewrite seen_bit_words by lia. rewrite !Z.testbit_0_l. by destruct (i <? 32). }
  rewrite Ep. destruct (count_required fs =? 0); done.
Qed.

End unknown.

(** * The contract *)

(** [pb_decode_varint] on any input: the groups up to the first byte without
    the top bit, modulo 2^64; more than ten bytes, or an end of stream inside the
    varint, make it return false with that error. *)
Theorem pb_decode_varint_spec `{PbEnv} l s w :
  is_bytes l -> at_input s w l -> bytes_left s = Z.of_nat (length l) ->
  pb_decode_varint s w =
  match varint_prefix 10 l with
  | VDone p => Ok (u64 (groups_val p)) (consumed s p) w
  | VOverflow => Err (PB_SET_ERROR "varint overflow" (consumed s (take 10 l))) w
  | VEof => Err (PB_SET_ERROR "end-of-stream" (consumed s l)) w
  end.
Proof.
  intros Hl Hs Hleft. rewrite (decode_varint_total l) by done. unfold varint_outcome.
  destruct (varint_prefix 10 l); [|done..]. do 2 f_equal. change (2 ^ (7 * 0)) with 1. lia.
Qed.

(** [pb_field_iter_find] is a cyclic search of the field table: it stops at the
    first entry with the tag, from the iterator's entry on, with the iterator laid
    out over that entry, and otherwise comes back to where it started. *)
Theorem pb_field_iter_find_spec `{PbEnv} a dest fs t i w :
  table_at a fs -> (i < length fs)%nat ->
  pb_field_iter_find (iter_at a dest fs i) t tt w =
  match cyclic_find fs (has_tag t) i with
  | Some j => Ok (true, iter_at a dest fs j) tt w
  | None => Ok (false, iter_at a dest fs i) tt w
  end.
Proof. intros Ha Hi. rewrite find_field_ok by done. by destruct (cyclic_find _ _ _). Qed.

(** the bit set of required fields: [mark_seen] sets the bit of its field and no
    other, the final test accepts exactly when every one of the first [n] bits is
    set, and [n] is the number of required fields, at most 64. *)
Theorem required_fields_spec `{PbEnv} a dest fs i w x y n idx :
  table_at a fs -> (i < length fs)%nat -> Z.of_nat (length fs) < 2 ^ 32 ->
  n = Z.min 64 (count_required fs) ->
  0 <= x < 2 ^ 32 -> 0 <= y < 2 ^ 32 -> 0 <= idx < 64 ->
  (forall k, n <= k < 64 -> seen_bit [x; y] k = false) ->
  count_required_fields (iter_at a dest fs i) tt w = Ok n tt w /\
  (required_fields_present [x; y] n = true <->
   forall k, 0 <= k < n -> seen_bit [x; y] k = true) /\
  (forall k, 0 <= k < 64 ->
     seen_bit (mark_seen [x; y] idx) k = (k =? idx) || seen_bit [x; y] k).
Proof.
  intros Ha Hi Hn -> Hx Hy Hidx Hclear. split_and!.
  - by apply (count_required_ok a dest fs Ha).
  - apply required_present_iff; [done|done| |done]. unfold count_required. lia.
  - intros k Hk. by apply mark_seen_ok.
Qed.

(** A message that holds only fields unknown to the receiver is skipped to its
    last byte and nothing is stored; decoding succeeds exactly when the receiver's
    message has no required field. *)
Theorem pb_decode_unknown_fields `{PbEnv} depth a dest fs ns l s w :
  table_at a fs -> fs <> [] -> Z.of_nat (length fs) < 2 ^ 32 -> no_extensions fs ->
  wire_message ns l -> Forall (unknown_number fs) ns ->
  below_brk w -> at_input s w l -> bytes_left s = Z.of_nat (length l) ->
  pb_decode_noinit (S depth) a dest s w =
  let w' := World (mem w) (blocks w) (brk w + 16) in
  if count_required fs =? 0 then Ok tt (consumed s l) w'
  else Err (PB_SET_ERROR "missing required field" (consumed s l)) w'.
Proof.
  intros Ha Hne Hn Hext Hm Hns Hbrk Hs Hleft. by apply (decode_unknown_message _ _ _ _ _ Ha ns).
Qed.

(** [pb_decode_varint32] accepts 64-bit values that are no 32-bit value in
    either sign convention: the overflow test ignores bits 32 to 34, so a varint
    whose bits from the 35th on are ones is read as its low 32 bits whatever those
    three bits are, without an error (0xFFFFFFF880000000 as 0x80000000). *)
Theorem pb_decode_varint32_drops_bits `{PbEnv} v s w :
  2 ^ 64 - 2 ^ 35 <= v < 2 ^ 64 -> 2 ^ 31 <= u32 v -> at_input s w (varint v) ->
  exists s', pb_decode_varint s w = Ok v s' w /\ pb_decode_varint32 s w = Ok (u32 v) s' w.
Proof.
  intros Hv Hu Hs. eexists. split; [by apply (reads_varint v ltac:(lia))|].
  apply (reads_varint32 (u32 v) (varint v)); [|done]. apply reads_varint32_wide; lia.
Qed.

(** ** Instances *)

(** A stream over bytes at address 0. *)
Definition ex_input (l : list Z) : world := World (mem_fill ∅ 0 l) ∅ 100.
Definition ex_stream (l : list Z) : pb_istream_t :=
  pb_istream_from_buffer 0 (Z.of_nat (length l)).

Lemma ex_at_input l :
  Z.of_nat (length l) < 2 ^ 64 ->
  mem_load (mem (ex_input l)) 0 (length l) = Some l -> at_input (ex_stream l) (ex_input l) l.
Proof. intros Hl E. split_and!; [done|cbn; lia|cbn; lia|exact E]. Qed.

Lemma pb_decode_varint_spec_witness :
  pb_decode_varint (ex_stream [150; 1; 8]) (ex_input [150; 1; 8])
  = Ok 150 (consumed (ex_stream [150; 1; 8]) [150; 1]) (ex_input [150; 1; 8]).
Proof.
  apply (pb_decode_varint_spec [150; 1; 8]).
  - repeat constructor; lia.
  - apply ex_at_input; [cbn; lia|vm_compute; reflexivity].
  - reflexivity.
Defined.

Definition ex_fields : list pb_field_t := [
  mk_field 1 (PB_HTYPE_REQUIRED + PB_LTYPE_VARINT) 0 0 4 0 0;
  mk_field 2 (PB_HTYPE_OPTIONAL + PB_LTYPE_STRING) 1 (-1) 10 0 0;
  mk_field 3 (PB_HTYPE_REPEATED + PB_LTYPE_VARINT) 5 (-4) 4 3 0;
  mk_field 4 (PB_ATYPE_POINTER + PB_HTYPE_OPTIONAL + PB_LTYPE_SUBMESSAGE) 0 0 4 0 1160].

Lemma ex_table_at : table_at 1000 ex_fields.
Proof.
  split.
  - intros i f. do 4 (destruct i as [|i]; [intros [= <-]; split; [vm_compute; reflexivity|discriminate]|]).
    done.
  - exists PB_LAST_FIELD. split; [vm_compute; reflexivity|reflexivity].
Qed.

Lemma pb_field_iter_find_spec_witness :
  pb_field_iter_find (iter_at 1000 100 ex_fields 2) 2 tt ex_world
  = Ok (true, iter_at 1000 100 ex_fields 1) tt ex_world.
Proof. apply (pb_field_iter_find_spec 1000 100 ex_fields 2 2); [exact ex_table_at|cbn; lia]. Defined.

Lemma required_fields_spec_witness :
  count_required_fields (iter_at 1000 100 ex_fields 2) tt ex_world = Ok 1 tt ex_world /\
  (required_fields_present [1; 0] 1 = true <->
   forall k, 0 <= k < 1 -> seen_bit [1; 0] k = true) /\
  (forall k, 0 <= k < 64 ->
     seen_bit (mark_seen [1; 0] 0) k = (k =? 0) || seen_bit [1; 0] k).
Proof.
  apply (required_fields_spec 1000 100 ex_fields 2 ex_world 1 0 1 0);
    [exact ex_table_at|cbn; lia|cbn; lia|reflexivity|lia|lia|lia|].
  intros k Hk. rewrite seen_bit_words by lia.
  destruct (k <? 32); [apply (testbit_high 1 1); lia|apply Z.testbit_0_l].
Defined.

(** A message with the fields 5 (a varint), 6 (a string) and 7 (four bytes). *)
Definition ex_unknown : list Z := [40; 150; 1; 50; 2; 65; 66; 61; 1; 2; 3; 4].

Lemma ex_unknown_message : wire_message [5; 6; 7] ex_unknown.
Proof.
  change ex_unknown with (tag_bytes 0 5 ++ [150; 1] ++ tag_bytes 2 6 ++ length_delimited [65; 66]
    ++ tag_bytes 5 7 ++ [1; 2; 3; 4] ++ []).
  repeat (apply wire_cons; [lia| |]).
  - constructor; [cbn; lia|cbn; lia].
  - constructor. cbn; lia.
  - by constructor.
  - constructor.
Qed.

Lemma ex_unknown_below : below_brk (ex_input ex_unknown).
Proof.
  intros a Ha. apply elem_of_dom in Ha. revert a Ha.
  assert (E : set_Forall (fun a => a < 100) (dom (mem (ex_input ex_unknown)))) by
    (apply (bool_decide_unpack _); vm_compute; reflexivity).
  exact E.
Qed.

Lemma pb_decode_unknown_fields_witness :
  pb_decode_noinit 1 1000 200 (ex_stream ex_unknown) (ex_input ex_unknown)
  = Err (PB_SET_ERROR "missing required field" (consumed (ex_stream ex_unknown) ex_unknown))
        (World (mem (ex_input ex_unknown)) ∅ 116).
Proof.
  apply (pb_decode_unknown_fields 0 1000 200 ex_fields [5; 6; 7] ex_unknown).
  - exact ex_table_at.
  - discriminate.
  - cbn; lia.
  - repeat constructor.
  - exact ex_unknown_message.
  - repeat constructor.
  - exact ex_unknown_below.
  - apply ex_at_input; [cbn; lia|vm_compute; reflexivity].
  - reflexivity.
Defined.

Lemma pb_decode_varint32_drops_bits_witness :
  exists s', pb_decode_varint (ex_stream (varint 0xFFFFFFF880000000))
      (ex_input (varint 0xFFFFFFF880000000))
    = Ok 0xFFFFFFF880000000 s' (ex_input (varint 0xFFFFFFF880000000)) /\
    pb_decode_varint32 (ex_stream (varint 0xFFFFFFF880000000))
      (ex_input (varint 0xFFFFFFF880000000))
    = Ok 0x80000000 s' (ex_input (varint 0xFFFFFFF880000000)).
Proof.
  apply (pb_decode_varint32_drops_bits 0xFFFFFFF880000000).
  - lia.
  - vm_compute. discriminate.
  - apply ex_at_input; [vm_compute; reflexivity|vm_compute; reflexivity].
Defined.
