(* ===== verification/PbItems.v ===== *)
(** Decoders that store what they read, as effects on the memory.

    [updates R m a l e]: when the stream's next bytes are [l], outside of the region [R],
    then [m] returns [a], the stream stands after them, and the memory has changed by the
    effect [e], which stays inside of [R].  The rules follow the structure of the decoder:
    sequences, loads, substreams and locals. *)
From stdpp Require Import base gmap list strings numbers option.
From Stdlib Require Import ZArith Lia.
From S2P Require Import Prelude Cmem Hoare PbTypes PbEncode PbWire PbEncodeSpec PbEmits PbIstream PbDecodePrim PbDecode PbFields PbDecodeThms.

Notation memory := (gmap Z Z).

(** * Effects *)

Definition effect : Type := memory -> option memory.

Definition skip : effect := Some.
Definition put (p : Z) (l : list Z) : effect := fun m => mem_store m p l.
Definition andthen (e1 e2 : effect) : effect := fun m => e1 m ≫= e2.
(** Reads the [n]-byte integer at [p]. *)
Definition with_uint (n : nat) (p : Z) (k : Z -> effect) : effect := fun m => l ← mem_load m p n; k (le_val l) m.
Definition when (b : bool) (e : effect) : effect := if b then e else fun _ => None.

(** A region: its first address and its size. *)
Definition inside (R : Z * Z) (a : Z) : Prop := R.1 <= a < R.1 + R.2.
Definition within (R : Z * Z) (p n : Z) : Prop := R.1 <= p /\ p + n <= R.1 + R.2.

(** An effect changes bytes of its region only, and the rest of the memory does not matter. *)
Record local_effect (R : Z * Z) (e : effect) : Prop := {
  effect_dom m m' : e m = Some m' -> dom m' = dom m;
  effect_out m m' a : e m = Some m' -> ~ inside R a -> m' !! a = m !! a;
  effect_frame m m' m2 : m ⊆ m2 -> e m = Some m' -> e m2 = Some (m' ∪ m2);
}.

Lemma local_skip R : local_effect R skip.
Proof.
  split; unfold skip; intros m m'; [by intros [= <-]|by intros a [= <-]|]. intros m2 Hm [= <-]. f_equal.
  symmetry. by apply map_subseteq_union.
Qed.

Lemma mem_store_frame m p l m' m2 : m ⊆ m2 -> mem_store m p l = Some m' -> mem_store m2 p l = Some (m' ∪ m2).
Proof.
  revert m p m2. induction l as [|b l IH]; intros m p m2 Hm; cbn.
  - intros [= <-]. f_equal. symmetry. by apply map_subseteq_union.
  - destruct (m !! p) as [c|] eqn:Ep; [|done]. rewrite (lookup_weaken _ _ _ _ Ep Hm). intros E.
    rewrite (IH (<[p := b]> m) (p + 1) (<[p := b]> m2)); [|by apply insert_mono|done]. f_equal.
    apply map_eq. intros a. rewrite !lookup_union. destruct (decide (a = p)) as [->|Hne].
    + assert (Hp : is_Some (m' !! p)).
      { apply elem_of_dom. rewrite (mem_store_dom _ _ _ _ E), dom_insert. set_solver. }
      destruct Hp as [x ->]. rewrite lookup_insert_eq. by destruct (m2 !! p).
    + by rewrite lookup_insert_ne.
Qed.

Lemma local_put R p l : within R p (Z.of_nat (length l)) -> local_effect R (put p l).
Proof.
  intros Hp. split; unfold put.
  - intros m m' E. by apply mem_store_dom in E.
  - intros m m' a E Ha. apply (mem_store_lookup_ne _ _ _ _ _ E). unfold inside, within in *. lia.
  - intros m m' m2 Hm E. by apply (mem_store_frame m).
Qed.

Lemma local_andthen R e1 e2 : local_effect R e1 -> local_effect R e2 -> local_effect R (andthen e1 e2).
Proof.
  intros [D1 O1 F1] [D2 O2 F2]. split; unfold andthen; intros m m'.
  - intros (m1 & E1 & E2)%bind_Some. by rewrite (D2 _ _ E2), (D1 _ _ E1).
  - intros a (m1 & E1 & E2)%bind_Some Ha. by rewrite (O2 _ _ _ E2 Ha), (O1 _ _ _ E1 Ha).
  - intros m2 Hm (m1 & E1 & E2)%bind_Some. rewrite (F1 _ _ _ Hm E1). cbn. rewrite (F2 m1 m' (m1 ∪ m2)); [|apply map_union_subseteq_l|done].
    f_equal. rewrite (map_union_assoc m' m1 m2). f_equal. apply map_eq. intros a. rewrite lookup_union.
    destruct (m' !! a) as [x|] eqn:Ea; [by destruct (m1 !! a)|]. destruct (m1 !! a) as [y|] eqn:Ey; [|done].
    assert (Hd : a ∈ dom m') by (rewrite (D2 _ _ E2); apply elem_of_dom; by rewrite Ey).
    apply elem_of_dom in Hd. rewrite Ea in Hd. by destruct Hd.
Qed.

Lemma local_with_uint R n p k : (forall v, local_effect R (k v)) -> local_effect R (with_uint n p k).
Proof.
  intros Hk. split; unfold with_uint; intros m m'.
  - intros (l & E1 & E2)%bind_Some. by apply (effect_dom R _ (Hk (le_val l))) in E2.
  - intros a (l & E1 & E2)%bind_Some. by apply (effect_out R _ (Hk (le_val l))).
  - intros m2 Hm (l & E1 & E2)%bind_Some. rewrite (mem_load_sub m m2 p n l Hm E1). cbn. by apply (effect_frame R _ (Hk (le_val l)) m).
Qed.

Lemma local_when R b e : local_effect R e -> local_effect R (when b e).
Proof. intros He. destruct b; [done|]. by split. Qed.

Lemma within_trans R R' p n : within R' R.1 R.2 -> within R p n -> within R' p n.
Proof. unfold within. cbn. lia. Qed.

Lemma local_weaken R R' e : within R' R.1 R.2 -> local_effect R e -> local_effect R' e.
Proof.
  intros Hw [D O F]. split; [done| |done]. intros m m' a E Ha. apply (O _ _ _ E). unfold inside, within in *. lia.
Qed.

Create HintDb effects.
#[export] Hint Resolve local_skip local_put local_andthen local_with_uint local_when : effects.

(** The effects of the elements of a list, in their order. *)
Fixpoint in_order {X} (f : X -> effect) (l : list X) : effect :=
  match l with
  | [] => skip
  | x :: l => andthen (f x) (in_order f l)
  end.

Lemma local_in_order {X} R (f : X -> effect) l : Forall (fun x => local_effect R (f x)) l -> local_effect R (in_order f l).
Proof. induction 1; cbn; auto with effects. Qed.

Lemma andthen_some e1 e2 m m' : andthen e1 e2 m = Some m' <-> exists m1, e1 m = Some m1 /\ e2 m1 = Some m'.
Proof. unfold andthen. apply bind_Some. Qed.

Lemma put_app p l1 l2 m : andthen (put p l1) (put (p + Z.of_nat (length l1)) l2) m = put p (l1 ++ l2) m.
Proof. unfold andthen, put. symmetry. apply mem_store_app. Qed.

(** * Decoders *)

Section updates.
Context `{PbEnv}.

(** The bytes [l] of the stream are outside of the region. *)
Definition apart (s : pb_istream_t) (l : list Z) (R : Z * Z) : Prop :=
  istate s + Z.of_nat (length l) <= R.1 \/ R.1 + R.2 <= istate s.

Definition runs {A} (Q : pb_istream_t -> list Z -> Prop) R (m : SM pb_istream_t A) (a : A) (l : list Z) (e : effect) : Prop :=
  local_effect R e /\
  forall s w m', Q s l -> at_input s w l -> apart s l R -> below_brk w -> e (mem w) = Some m' ->
  exists b, brk w <= b /\ m s w = Ok a (consumed s l) (World m' (blocks w) b).

Definition anywhere (s : pb_istream_t) (l : list Z) : Prop := True.
(** [l] is all that is left. *)
Definition to_the_end (s : pb_istream_t) (l : list Z) : Prop := bytes_left s = Z.of_nat (length l).

Definition updates {A} := runs (A := A) anywhere.
Definition consumes {A} := runs (A := A) to_the_end.

Lemma updates_consumes {A} R (m : SM pb_istream_t A) a l e : updates R m a l e -> consumes R m a l e.
Proof. intros [He Hr]. split; [done|]. intros s w m' _. by apply Hr. Qed.

Lemma runs_ext {A} Q R (m m2 : SM pb_istream_t A) a l e :
  (forall s w, m s w = m2 s w) -> runs Q R m2 a l e -> runs Q R m a l e.
Proof. intros E [He Hr]. split; [done|]. intros s w m'. rewrite E. apply Hr. Qed.

(** The input stays what it is. *)
Lemma at_input_effect R e s w l1 l2 m1 b :
  local_effect R e -> apart s (l1 ++ l2) R -> e (mem w) = Some m1 -> at_input (consumed s l1) w l2 ->
  at_input (consumed s l1) (World m1 (blocks w) b) l2.
Proof.
  intros He Ha E (H1 & H2 & H3). split_and!; [done|lia|lia|]. rewrite <- H3. cbn [mem]. apply mem_load_eq. intros x Hx.
  apply (effect_out R e He _ _ _ E). unfold apart, inside, consumed in *. cbn in Hx. rewrite length_app in Ha. lia.
Qed.

Lemma below_brk_effect R e w m1 b : local_effect R e -> e (mem w) = Some m1 -> brk w <= b -> below_brk w -> below_brk (World m1 (blocks w) b).
Proof.
  intros He E Hb Hw a Ha. cbn in *. apply elem_of_dom in Ha. rewrite (effect_dom R e He _ _ E) in Ha. apply elem_of_dom in Ha.
  specialize (Hw a Ha). lia.
Qed.

Lemma apart_app s l1 l2 R : apart s (l1 ++ l2) R -> apart s l1 R /\ apart (consumed s l1) l2 R.
Proof. unfold apart, consumed. cbn. rewrite length_app. lia. Qed.

Lemma updates_then {A B} R (m : SM pb_istream_t A) (k : A -> SM pb_istream_t B) a b l1 l2 e1 e2 (Q Q2 : pb_istream_t -> list Z -> Prop) :
  (forall s, Q s (l1 ++ l2) -> Q2 (consumed s l1) l2) ->
  updates R m a l1 e1 -> runs Q2 R (k a) b l2 e2 -> runs Q R (bind m k) b (l1 ++ l2) (andthen e1 e2).
Proof.
  intros HQ [He1 H1] [He2 H2]. split; [auto with effects|]. intros s w m' Hq Hs Ha Hb (m1 & E1 & E2)%andthen_some.
  pose proof (at_input_app s w l1 l2 Hs) as [Hs1 Hs2]. pose proof (apart_app s l1 l2 R Ha) as [Ha1 Ha2].
  destruct (H1 s w m1 I Hs1 Ha1 Hb E1) as (b1 & Hb1 & Er1).
  destruct (H2 (consumed s l1) (World m1 (blocks w) b1) m') as (b2 & Hb2 & Er2); [by apply HQ| |done| |done|].
  - by apply (at_input_effect R e1).
  - by apply (below_brk_effect R e1).
  - exists b2. cbn in Hb2. split; [lia|]. cbn [bind]. rewrite Er1, Er2. by rewrite consumed_app.
Qed.

Lemma updates_bind {A B} R (m : SM pb_istream_t A) (k : A -> SM pb_istream_t B) a b l1 l2 e1 e2 :
  updates R m a l1 e1 -> updates R (k a) b l2 e2 -> updates R (bind m k) b (l1 ++ l2) (andthen e1 e2).
Proof. by apply updates_then. Qed.

Lemma reads_updates {A} R (m : SM pb_istream_t A) a l : reads m a l -> updates R m a l skip.
Proof.
  intros Hm. split; [auto with effects|]. intros s w m' _ Hs _ _ [= <-]. exists (brk w). split; [lia|]. rewrite (Hm s w Hs). by destruct w.
Qed.

Lemma runs_effect {A} Q R (m : SM pb_istream_t A) a l e e' :
  (forall x, e' x = e x) -> runs Q R m a l e -> runs Q R m a l e'.
Proof.
  intros E [[D O F] Hr]. split.
  - split; intros m1 m'; rewrite !E; [apply D|apply O|]. intros m2. rewrite !E. apply F.
  - intros s w m'. rewrite E. apply Hr.
Qed.

Lemma runs_reads {A B} Q Q2 R (m : SM pb_istream_t A) (k : A -> SM pb_istream_t B) a b l1 l2 e :
  (forall s, Q s (l1 ++ l2) -> Q2 (consumed s l1) l2) ->
  reads m a l1 -> runs Q2 R (k a) b l2 e -> runs Q R (bind m k) b (l1 ++ l2) e.
Proof. intros HQ Hm Hk. apply (runs_effect _ _ _ _ _ (andthen skip e)); [done|]. eapply updates_then; [done|by apply reads_updates|done]. Qed.

Lemma updates_reads {A B} R (m : SM pb_istream_t A) (k : A -> SM pb_istream_t B) a b l1 l2 e :
  reads m a l1 -> updates R (k a) b l2 e -> updates R (bind m k) b (l1 ++ l2) e.
Proof. by apply runs_reads. Qed.

(** A step that neither reads nor stores. *)
Lemma runs_pure {A B} Q R (m : SM pb_istream_t A) (k : A -> SM pb_istream_t B) a b l e :
  (forall s w, m s w = Ok a s w) -> runs Q R (k a) b l e -> runs Q R (bind m k) b l e.
Proof. intros Hm. apply runs_ext. intros s w. cbn [bind]. by rewrite Hm. Qed.

Lemma runs_then_pure {A B} Q R (m : SM pb_istream_t A) (k : A -> SM pb_istream_t B) a b l e :
  runs Q R m a l e -> (forall s w, k a s w = Ok b s w) -> runs Q R (bind m k) b l e.
Proof.
  intros [He Hr] Hk. split; [done|]. intros s w m' Hq Hs Ha Hb E. destruct (Hr s w m' Hq Hs Ha Hb E) as (b' & Hbb & Er).
  exists b'. split; [done|]. cbn [bind]. by rewrite Er, Hk.
Qed.

Lemma runs_weaken {A} Q R R' (m : SM pb_istream_t A) a l e : within R' R.1 R.2 -> 0 <= R.2 -> runs Q R m a l e -> runs Q R' m a l e.
Proof.
  intros Hw Hn [He Hr]. split; [by apply (local_weaken R)|]. intros s w m' Hq Hs Ha. apply Hr; [done|done|].
  unfold apart, within in *. lia.
Qed.

Lemma runs_attempt {A} Q R (m : SM pb_istream_t A) a l e : runs Q R m a l e -> runs Q R (attempt m) (Some a) l e.
Proof.
  intros [He Hr]. split; [done|]. intros s w m' Hq Hs Ha Hb E. destruct (Hr s w m' Hq Hs Ha Hb E) as (b & Hbb & Er).
  exists b. split; [done|]. cbn [attempt]. by rewrite Er.
Qed.

(** ** Memory accesses *)

Lemma updates_store_bytes R p l : within R p (Z.of_nat (length l)) -> updates R (store_bytes p l) tt [] (put p l).
Proof.
  intros Hp. split; [by apply local_put|]. intros s w m' _ _ _ _ E. exists (brk w). split; [lia|]. unfold store_bytes.
  unfold put in E. rewrite E. by rewrite consumed_nil.
Qed.

Lemma updates_store_u R n p v : within R p (Z.of_nat n) -> updates R (store_u n p v) tt [] (put p (le_bytes n v)).
Proof. intros Hp. apply updates_store_bytes. by rewrite le_bytes_length. Qed.

Lemma runs_load_u {A} Q R n p (k : Z -> SM pb_istream_t A) a l e :
  (forall v, runs Q R (k v) a l (e v)) -> runs Q R (let* v := load_u n p in k v) a l (with_uint n p e).
Proof.
  intros Hk. split; [apply local_with_uint; intros v; apply Hk|]. intros s w m' Hq Hs Ha Hb (bs & E1 & E2)%bind_Some.
  destruct (Hk (le_val bs)) as [_ Hr]. destruct (Hr s w m' Hq Hs Ha Hb E2) as (b & Hbb & Er). exists b. split; [done|].
  cbn [bind]. unfold load_u. cbn [bind]. unfold load_bytes. rewrite Nat2Z.id, E1. done.
Qed.

Lemma updates_read_mem R p l : within R p (Z.of_nat (length l)) -> updates R (pb_read (RMem p) (Z.of_nat (length l))) l l (put p l).
Proof.
  intros Hp. split; [by apply local_put|]. intros s w m' _ Hs Ha Hb E. exists (brk w). split; [lia|].
  destruct (read_mem p l s w Hs) as (m2 & E2 & Er).
  - intros a Hin. assert (Hd : a ∈ dom m').
    { apply elem_of_dom. pose proof (mem_load_store _ _ _ _ E) as El. apply (mem_load_dom _ _ _ _ El). lia. }
    unfold put in E. rewrite (mem_store_dom _ _ _ _ E) in Hd. by apply elem_of_dom in Hd.
  - unfold put in E. rewrite E in E2. by injection E2 as <-.
Qed.

(** A branch that the effect does not take. *)
Lemma runs_when {A} Q R b (m : SM pb_istream_t A) a l e :
  local_effect R e -> (b = true -> runs Q R m a l e) -> runs Q R m a l (when b e).
Proof. intros He Hb. destruct b; [by apply Hb|]. split; [by apply local_when|]. by intros s w m' _ _ _ _. Qed.

(** A look at the stream. *)
Lemma runs_get {A} Q R (k : pb_istream_t -> SM pb_istream_t A) m a l e :
  (forall s s' w, Z.of_nat (length l) <= bytes_left s -> k s s' w = m s' w) ->
  runs Q R m a l e -> runs Q R (let* s := get in k s) a l e.
Proof.
  intros E [He Hr]. split; [done|]. intros s w m' Hq Hs Ha Hb Em. cbn [bind get]. destruct Hs as (H1 & H2 & H3).
  rewrite E by lia. by apply Hr.
Qed.

Lemma end_consumed s l1 l2 : to_the_end s (l1 ++ l2) -> to_the_end (consumed s l1) l2.
Proof. unfold to_the_end, consumed. rewrite length_app. cbn. lia. Qed.

Lemma runs_if {A} Q R (b : bool) (m1 m2 : SM pb_istream_t A) a l e :
  (b = true -> runs Q R m1 a l e) -> (b = false -> runs Q R m2 a l e) -> runs Q R (if b then m1 else m2) a l e.
Proof. destruct b; auto. Qed.

(** A local variable that the callee does not store to. *)
Lemma runs_with_local {A} (Q : pb_istream_t -> list Z -> Prop) R n init (k : Z -> SM pb_istream_t A) a l e :
  (n <= 16)%nat -> (forall p, runs Q R (k p) a l e) -> runs Q R (with_local n init k) a l e.
Proof.
  intros Hn16 Hk. destruct (Hk 0) as [He _]. split; [done|]. intros s w m' Hq Hs Ha Hb E.
  destruct (Hk (brk w)) as [_ Hr]. set (w1 := local_world n init w).
  assert (Hnone : forall x, brk w <= x -> mem w !! x = None).
  { intros x Hx. destruct (mem w !! x) eqn:Ex; [|done]. specialize (Hb x (ex_intro _ _ Ex)). lia. }
  assert (Hsub : mem w ⊆ mem w1).
  { apply map_subseteq_spec. intros x y Hx. unfold w1, local_world. cbn. rewrite mem_fill_lookup_ne; [done|].
    specialize (Hb x (ex_intro _ _ Hx)). lia. }
  destruct (Hr s w1 (m' ∪ mem w1) Hq) as (b & Hbb & Er); [|done| | |].
  - destruct Hs as (H1 & H2 & H3). split_and!; [done|lia|lia|]. by apply (mem_load_sub (mem w)).
  - intros x Hx. unfold w1, local_world in Hx |- *. cbn in Hx |- *. destruct (decide (brk w <= x < brk w + Z.of_nat n)).
    + lia.
    + rewrite mem_fill_lookup_ne in Hx by (rewrite le_bytes_length; lia). specialize (Hb x Hx). lia.
  - by apply (effect_frame R e He (mem w)).
  - exists b. cbn in Hbb. split; [lia|]. unfold with_local. cbv zeta. fold (local_world n init w). fold w1. rewrite Er.
    do 2 f_equal. cbn [mem]. apply map_eq. intros x. rewrite mem_clear_lookup.
    assert (Hd : forall y, is_Some (m' !! y) <-> is_Some (mem w !! y)).
    { intros y. rewrite <- !elem_of_dom, (effect_dom R e He _ _ E). done. }
    destruct (decide _) as [Hin|Hout].
    + destruct (m' !! x) eqn:Ex; [|done]. assert (Hx : is_Some (mem w !! x)) by (apply Hd; by rewrite Ex).
      rewrite Hnone in Hx by lia. by destruct Hx.
    + rewrite lookup_union. destruct (m' !! x) eqn:Ex; [by destruct (mem w1 !! x)|].
      unfold w1, local_world. cbn. rewrite mem_fill_lookup_ne by (rewrite le_bytes_length; lia).
      destruct (mem w !! x) eqn:Ey; [|done]. assert (Hx : is_Some (m' !! x)) by (apply Hd; by rewrite Ey). rewrite Ex in Hx. by destruct Hx.
Qed.

(** ** Substreams *)

Lemma updates_substream {A B} R (body : pb_istream_t -> SM pb_istream_t A) (K : option A * pb_istream_t -> SM pb_istream_t B) a b l e :
  Z.of_nat (length l) < 2 ^ 32 ->
  (forall sub, bytes_left sub = Z.of_nat (length l) -> consumes R (body sub) a l e) ->
  (forall sub s w, bytes_left sub = 0 ->
     K (Some a, sub) s w = Ok b (mk_istream (icb s) (istate sub) (bytes_left s) (ierrmsg sub)) w) ->
  updates R (let* sub := pb_make_string_substream in let* r := on_stream sub (body sub) in K r) b (length_delimited l) e.
Proof.
  intros Hl Hbody HK.
  assert (He : local_effect R e).
  { destruct (Hbody (mk_istream buf_read_cb 0 (Z.of_nat (length l)) None) eq_refl) as [He _]. exact He. }
  split; [done|]. intros s w m' _ Hs Ha Hb E. unfold length_delimited in *.
  pose proof (at_input_app s w _ _ Hs) as [Hs1 Hs2]. pose proof (apart_app s _ _ R Ha) as [Ha1 Ha2].
  unfold pb_make_string_substream. cbn [bind].
  assert (Hv : reads pb_decode_varint32 (Z.of_nat (length l)) (varint (Z.of_nat (length l)))) by (apply reads_varint32, reads_varint32_eof; lia).
  rewrite (Hv s w Hs1). set (s1 := consumed s (varint (Z.of_nat (length l)))) in *. cbn [bind get].
  destruct Hs2 as (Hi1 & Hi2 & Hi3). rewrite (proj2 (Z.ltb_ge _ _)) by lia. cbn [bind modify ret].
  set (sub := set_bytes_left (Z.of_nat (length l)) s1).
  destruct (Hbody sub eq_refl) as [_ Hr].
  destruct (Hr sub w m') as (b' & Hbb & Er); [done|split_and!; [done|cbn; lia|cbn; lia|done]|done|done|done|].
  exists b'. split; [done|]. unfold on_stream. rewrite Er. rewrite HK by (cbn; lia).
  f_equal. unfold consumed, s1, sub, set_bytes_left. cbn. rewrite length_app. f_equal; lia.
Qed.

End updates.

(** * One item of a message: the bytes it has in the struct, the bytes it has on the wire,
    and that each of nanopb's field decoders turns the latter into the former.

    [canonical f v]: [v] is what an item of field [f] looks like in memory; a string
    ends at its first zero, a [bool] is zero or one. *)

Definition int_size (n : Z) : bool := (n =? 1) || (n =? 2) || (n =? 4) || (n =? 8).

(** The wire bytes of an item, without its tag. *)
Definition item_payload (f : pb_field_t) (v : list Z) : list Z :=
  let ltype := PB_LTYPE (type_ f) in
  if ltype =? PB_LTYPE_BOOL then varint (le_val v)
  else if ltype =? PB_LTYPE_VARINT then varint (u64 (to_signed (8 * data_size f) (le_val v)))
  else if ltype =? PB_LTYPE_UVARINT then varint (le_val v)
  else if ltype =? PB_LTYPE_SVARINT then varint (zigzag (to_signed (8 * data_size f) (le_val v)))
  else if (ltype =? PB_LTYPE_FIXED32) || (ltype =? PB_LTYPE_FIXED64) then v
  else if ltype =? PB_LTYPE_BYTES then length_delimited (drop 4 v)
  else if ltype =? PB_LTYPE_STRING then length_delimited (take (length v - 1) v)
  else length_delimited v.

Inductive canonical (f : pb_field_t) : list Z -> Prop :=
| canonical_bool b :
    PB_LTYPE (type_ f) = PB_LTYPE_BOOL -> data_size f = 1 -> canonical f [b2z b]
| canonical_int v :
    PB_LTYPE (type_ f) = PB_LTYPE_VARINT \/ PB_LTYPE (type_ f) = PB_LTYPE_UVARINT \/ PB_LTYPE (type_ f) = PB_LTYPE_SVARINT ->
    int_size (data_size f) = true -> Z.of_nat (length v) = data_size f -> is_bytes v -> canonical f v
| canonical_fixed32 v :
    PB_LTYPE (type_ f) = PB_LTYPE_FIXED32 -> data_size f = 4 -> length v = 4%nat -> is_bytes v -> canonical f v
| canonical_fixed64 v :
    PB_LTYPE (type_ f) = PB_LTYPE_FIXED64 -> data_size f = 8 -> length v = 8%nat -> is_bytes v -> canonical f v
| canonical_bytes l :
    PB_LTYPE (type_ f) = PB_LTYPE_BYTES -> 4 + Z.of_nat (length l) <= data_size f < 2 ^ 32 ->
    canonical f (le_bytes 4 (Z.of_nat (length l)) ++ l)
| canonical_string l :
    PB_LTYPE (type_ f) = PB_LTYPE_STRING -> Z.of_nat (length l) < data_size f < 2 ^ 32 -> (0 ∉ l) -> canonical f (l ++ [0])
| canonical_fixed_length l :
    PB_LTYPE (type_ f) = PB_LTYPE_FIXED_LENGTH_BYTES -> Z.of_nat (length l) = data_size f -> data_size f < 2 ^ 32 -> canonical f l.

Lemma canonical_length f v : canonical f v -> Z.of_nat (length v) <= data_size f.
Proof. destruct 1; rewrite ?length_app, ?le_bytes_length; cbn [length]; lia. Qed.

Section items.
Context `{PbEnv}.

(** [pb_decode_noinit] for submessages: not used by items. *)
Variables (sub : Z -> Z -> SM pb_istream_t unit) (depth : nat).

Lemma store_int_mod signed n p value (s : pb_istream_t) w :
  int_size n = true ->
  store_int signed n p value s w
  = (store_u (Z.to_nat n) p (value mod 2 ^ (8 * n));;
     ret (if signed then to_signed (8 * n) value else value mod 2 ^ (8 * n))) s w.
Proof.
  unfold int_size. intros Hn.
  assert (Hc : n = 1 \/ n = 2 \/ n = 4 \/ n = 8) by (destruct (Z.eqb_spec n 1), (Z.eqb_spec n 2), (Z.eqb_spec n 4), (Z.eqb_spec n 8); lia || done).
  destruct Hc as [-> |[-> |[-> | ->]]]; reflexivity.
Qed.

Lemma int_size_pos n : int_size n = true -> 1 <= n <= 8.
Proof. unfold int_size. intros Hn. destruct (Z.eqb_spec n 1), (Z.eqb_spec n 2), (Z.eqb_spec n 4), (Z.eqb_spec n 8); lia || done. Qed.

(** The integer of the item [v], as the C code sees it. *)
Definition int_value (signed : bool) (n : Z) (v : list Z) : Z :=
  if signed then to_signed (8 * n) (le_val v) else le_val v.

Lemma le_val_bound n v : 0 <= n -> Z.of_nat (length v) = n -> is_bytes v -> 0 <= le_val v < 2 ^ (8 * n).
Proof. intros Hn <- Hv. rewrite Z.pow_mul_r by lia. by apply le_val_range. Qed.

Lemma int_value_mod signed n v :
  0 < n -> Z.of_nat (length v) = n -> is_bytes v -> int_value signed n v mod 2 ^ (8 * n) = le_val v.
Proof.
  intros Hn Hl Hv. pose proof (le_val_bound n v ltac:(lia) Hl Hv). unfold int_value.
  destruct signed; [rewrite to_signed_mod by lia|]; by apply Z.mod_small.
Qed.

Lemma int_value_signed n v : 0 < n -> to_signed (8 * n) (int_value true n v) = int_value true n v.
Proof. intros Hn. unfold int_value. apply to_signed_id; [lia|]. apply to_signed_range. lia. Qed.

Lemma signed_range n x : 0 < n <= 8 -> - 2 ^ 63 <= to_signed (8 * n) x < 2 ^ 63.
Proof.
  intros Hn. pose proof (to_signed_range (8 * n) x ltac:(lia)). assert (2 ^ (8 * n - 1) <= 2 ^ 63) by (apply Z.pow_le_mono_r; lia). lia.
Qed.

(** What [pb_dec_varint] makes of the sign-extended value. *)
Lemma narrow_value n v :
  int_size n = true ->
  (if n =? 8 then s64 (u64 (int_value true n v)) else s32 (u64 (int_value true n v))) = int_value true n v.
Proof.
  intros Hn. pose proof (int_size_pos n Hn). pose proof (to_signed_range (8 * n) (le_val v) ltac:(lia)) as Hr. unfold int_value.
  set (x := to_signed (8 * n) (le_val v)) in *. destruct (Z.eqb_spec n 8) as [->|Hne].
  - change (8 * 8) with 64 in *. change (64 - 1) with 63 in *. unfold s64, to_signed, u64. rewrite Z.mod_mod by lia.
    fold (to_signed 64 x). apply to_signed_id; lia.
  - assert (Hn4 : n <= 4) by (unfold int_size in Hn; destruct (Z.eqb_spec n 1), (Z.eqb_spec n 2), (Z.eqb_spec n 4), (Z.eqb_spec n 8); lia || done).
    assert (2 ^ (8 * n - 1) <= 2 ^ 31) by (apply Z.pow_le_mono_r; lia). unfold s32, to_signed, u64.
    replace ((x mod 2 ^ 64) mod 2 ^ 32) with (x mod 2 ^ 32).
    + fold (to_signed 32 x). apply to_signed_id; lia.
    + norm_pow2. zdiv_lia.
Qed.

(** The last operation of a decoder. *)
Lemma updates_last {A} R (m : SM pb_istream_t A) a (b : unit) l e :
  updates R m a l e -> updates R (m;; ret tt) b l e.
Proof. destruct b. intros Hm. by apply (runs_then_pure _ _ _ _ a). Qed.

(** The stored value is the wire value, as far as it fits. *)
Lemma updates_store_int R signed n p v :
  int_size n = true -> within R p n -> Z.of_nat (length v) = n -> is_bytes v ->
  let value := int_value signed n v in
  updates R (let* c := store_int signed n p value in
             if negb (c =? value) then PB_RETURN_ERROR "integer too large" else ret tt) tt [] (put p v).
Proof.
  intros Hn Hp Hl Hv value. pose proof (int_size_pos n Hn). eapply runs_ext.
  { intros s w. cbn [bind]. rewrite store_int_mod by done. reflexivity. }
  assert (E : (if signed then to_signed (8 * n) value else value mod 2 ^ (8 * n)) = value).
  { subst value. destruct signed; [apply int_value_signed; lia|]. rewrite int_value_mod by (done || lia). done. }
  rewrite E. unfold value at 1. rewrite int_value_mod by (done || lia).
  apply (runs_effect _ _ _ _ _ (put p (le_bytes (Z.to_nat n) (le_val v)))); [intros x; by rewrite fixed_bytes by (done || lia)|].
  apply (runs_ext _ _ _ (store_u (Z.to_nat n) p (le_val v);; ret tt)).
  { intros s w. cbn [bind]. destruct (store_u _ _ _ s w); try done. cbn [ret]. by rewrite Z.eqb_refl. }
  eapply updates_last, updates_store_u. by rewrite Z2Nat.id by lia.
Qed.

(** A read without stores in front. *)
Lemma updates_after {A B} R (m : SM pb_istream_t A) (k : A -> SM pb_istream_t B) a b l e :
  reads m a l -> updates R (k a) b [] e -> updates R (bind m k) b l e.
Proof. intros Hm Hk. rewrite <- (app_nil_r l). by apply (updates_reads R m k a). Qed.

Lemma le_val_lor4 b0 b1 b2 b3 :
  is_bytes [b0; b1; b2; b3] ->
  Z.lor (Z.lor (Z.lor b0 (Z.shiftl b1 8)) (Z.shiftl b2 16)) (Z.shiftl b3 24) = le_val [b0; b1; b2; b3].
Proof.
  intros Hv. apply Forall_cons_1 in Hv as [? Hv]. apply Forall_cons_1 in Hv as [? Hv].
  apply Forall_cons_1 in Hv as [? Hv]. apply Forall_cons_1 in Hv as [? _].
  rewrite (lor_shiftl_add b0 b1 8) by lia. rewrite (lor_shiftl_add _ b2 16) by lia. rewrite (lor_shiftl_add _ b3 24) by lia.
  cbn [le_val]. lia.
Qed.

Lemma updates_fixed32 R f v p :
  length v = 4%nat -> is_bytes v -> within R p 4 -> updates R (pb_dec_fixed32 f p) tt v (put p v).
Proof.
  intros Hl Hv Hp. unfold pb_dec_fixed32, pb_decode_fixed32. destruct v as [|b0 [|b1 [|b2 [|b3 [|]]]]]; try done.
  eapply updates_after; [apply (reads_read_local [b0; b1; b2; b3])|]. cbv beta iota.
  set (x := Z.lor _ _). assert (Ex : le_bytes 4 x = [b0; b1; b2; b3]).
  { rewrite <- (fixed_bytes 4 [b0; b1; b2; b3]) by done. f_equal. unfold x. rewrite Z.shiftl_0_r. by rewrite le_val_lor4. }
  rewrite <- Ex. by apply updates_store_u.
Qed.

Lemma updates_fixed64 R f v p :
  length v = 8%nat -> is_bytes v -> within R p 8 -> updates R (pb_dec_fixed64 f p) tt v (put p v).
Proof.
  intros Hl Hv Hp. unfold pb_dec_fixed64, pb_decode_fixed64.
  destruct v as [|b0 [|b1 [|b2 [|b3 [|b4 [|b5 [|b6 [|b7 [|]]]]]]]]]; try done.
  eapply updates_after; [apply (reads_read_local [b0; b1; b2; b3; b4; b5; b6; b7])|]. cbv beta iota.
  set (x := Z.lor _ _). assert (Ex : le_bytes 8 x = [b0; b1; b2; b3; b4; b5; b6; b7]).
  { rewrite <- (fixed_bytes 8 [b0; b1; b2; b3; b4; b5; b6; b7]) by done. f_equal. unfold x. rewrite Z.shiftl_0_r.
    pose proof Hv as Hv'. change [b0; b1; b2; b3; b4; b5; b6; b7] with ([b0; b1; b2; b3] ++ [b4; b5; b6; b7]) in Hv' |- *.
    apply Forall_app in Hv' as [Hlo Hhi]. rewrite le_val_app, <- (le_val_lor4 b0) by done.
    pose proof (le_val_range _ Hlo) as Hr. rewrite <- (le_val_lor4 b0) in Hr by done. apply Forall_cons_1 in Hhi as [? Hhi].
    apply Forall_cons_1 in Hhi as [? Hhi]. apply Forall_cons_1 in Hhi as [? Hhi]. apply Forall_cons_1 in Hhi as [? _].
    set (lo := Z.lor (Z.lor (Z.lor b0 (Z.shiftl b1 8)) (Z.shiftl b2 16)) (Z.shiftl b3 24)) in *. change (256 ^ Z.of_nat (length [b0; b1; b2; b3])) with (2 ^ 32) in *.
    rewrite (lor_shiftl_add lo b4 32) by lia. rewrite (lor_shiftl_add _ b5 40) by lia. rewrite (lor_shiftl_add _ b6 48) by lia.
    rewrite (lor_shiftl_add _ b7 56) by lia. cbn [le_val]. lia. }
  rewrite <- Ex. by apply updates_store_u.
Qed.

Lemma updates_bytes R f l p :
  PB_ATYPE (type_ f) = PB_ATYPE_STATIC -> 4 + Z.of_nat (length l) <= data_size f < 2 ^ 32 -> within R p (data_size f) ->
  updates R (pb_dec_bytes f p) tt (length_delimited l) (put p (le_bytes 4 (Z.of_nat (length l)) ++ l)).
Proof.
  intros Ha Hl Hp. unfold pb_dec_bytes, length_delimited. eapply updates_reads; [apply reads_varint32, reads_varint32_eof; lia|]. cbv beta.
  unfold PB_SIZE_MAX, PB_BYTES_ARRAY_T_ALLOCSIZE, offsetof_bytes. rewrite (proj2 (Z.ltb_ge _ _)) by lia. rewrite u64_small by lia. cbv zeta.
  rewrite (proj2 (Z.ltb_ge (_ + 4) _)) by lia. rewrite Ha. change (PB_ATYPE_STATIC =? PB_ATYPE_POINTER) with false. cbv iota.
  rewrite (proj2 (Z.ltb_ge (data_size f) _)) by lia.
  apply (updates_reads _ _ _ p _ []); [apply reads_ret|]. cbv beta. unfold within in *.
  apply (runs_effect _ _ _ _ _ (andthen (put p (le_bytes 4 (Z.of_nat (length l)))) (put (p + 4) l))); [by intros x; rewrite <- put_app, le_bytes_length|].
  apply (updates_bind _ _ _ tt _ []); [apply updates_store_u; unfold within; lia|].
  eapply updates_last, updates_read_mem. unfold within. lia.
Qed.

Lemma updates_string R f l p :
  PB_ATYPE (type_ f) = PB_ATYPE_STATIC -> Z.of_nat (length l) < data_size f < 2 ^ 32 -> within R p (data_size f) ->
  updates R (pb_dec_string f p) tt (length_delimited l) (put p (l ++ [0])).
Proof.
  intros Ha Hl Hp. unfold pb_dec_string, length_delimited. eapply updates_reads; [apply reads_varint32, reads_varint32_eof; lia|]. cbv beta zeta.
  rewrite u32_small by lia. rewrite (proj2 (Z.ltb_ge (_ + 1) _)) by lia. rewrite Ha.
  change (PB_ATYPE_STATIC =? PB_ATYPE_POINTER) with false. cbv iota. rewrite (proj2 (Z.ltb_ge (data_size f) _)) by lia.
  apply (updates_reads _ _ _ p _ []); [apply reads_ret|]. cbv beta. unfold within in *.
  apply (runs_effect _ _ _ _ _ (andthen (put p l) (put (p + Z.of_nat (length l)) [0]))); [by intros x; rewrite <- put_app|].
  rewrite <- (app_nil_r l) at 2. eapply updates_bind; [apply runs_attempt, updates_read_mem; unfold within; lia|].
  eapply updates_last, updates_store_u. unfold within. lia.
Qed.

Lemma updates_fixed_length R f l p :
  Z.of_nat (length l) = data_size f -> data_size f < 2 ^ 32 -> within R p (data_size f) ->
  updates R (pb_dec_fixed_length_bytes f p) tt (length_delimited l) (put p l).
Proof.
  intros Hl Hs Hp. unfold pb_dec_fixed_length_bytes, length_delimited.
  eapply updates_reads; [apply reads_varint32, reads_varint32_eof; lia|]. cbv beta. unfold PB_SIZE_MAX.
  rewrite (proj2 (Z.ltb_ge _ _)) by lia. rewrite <- Hl, Z.eqb_refl in *. cbn [negb].
  destruct (Z.eqb_spec (Z.of_nat (length l)) 0) as [E0|_].
  - destruct l; [|cbn in E0; lia]. by apply updates_store_bytes.
  - eapply updates_last. by apply updates_read_mem.
Qed.

Lemma updates_item R f v p :
  PB_ATYPE (type_ f) = PB_ATYPE_STATIC -> canonical f v -> within R p (data_size f) ->
  exists func, PB_DECODERS sub depth !! Z.to_nat (PB_LTYPE (type_ f)) = Some (Some func) /\
    updates R (func f p) tt (item_payload f v) (put p v).
Proof.
  intros Hstatic Hc Hp. destruct Hc as [b E Hs|v E Hs Hl Hv|v E Hs Hl Hv|v E Hs Hl Hv|l E Hl|l E Hl Hz|l E Hl Hs].
  - rewrite E. eexists. split; [reflexivity|]. unfold item_payload. rewrite E. cbn [Z.eqb PB_LTYPE_BOOL].
    unfold pb_dec_bool, pb_decode_bool. eapply updates_after; [apply reads_varint32, reads_varint32_eof; by destruct b|].
    cbv beta. apply (runs_effect _ _ _ _ _ (put p (le_bytes 1 (b2z (negb (le_val [b2z b] =? 0)))))); [by destruct b|].
    apply updates_store_u. by rewrite Hs in Hp.
  - pose proof (int_size_pos _ Hs) as Hn.
    pose proof (fun signed => int_value_mod signed (data_size f) v ltac:(lia) Hl Hv) as Hmod.
    destruct E as [E|[E|E]]; rewrite E; (eexists; split; [reflexivity|]); unfold item_payload; rewrite E;
      cbn [Z.eqb PB_LTYPE_BOOL PB_LTYPE_VARINT PB_LTYPE_UVARINT PB_LTYPE_SVARINT Pos.eqb].
    + unfold pb_dec_varint. eapply updates_after; [apply reads_varint, u64_range|]. cbv beta.
      fold (int_value true (data_size f) v). rewrite (narrow_value (data_size f)) by done. by apply updates_store_int.
    + unfold pb_dec_uvarint. pose proof (le_val_bound (data_size f) v ltac:(lia) Hl Hv).
      assert (2 ^ (8 * data_size f) <= 2 ^ 64) by (apply Z.pow_le_mono_r; lia).
      eapply updates_after; [apply reads_varint; lia|]. by apply (updates_store_int R false).
    + unfold pb_dec_svarint. eapply updates_after; [apply reads_svarint|by apply (updates_store_int R true)].
      apply (signed_range (data_size f)); lia.
  - rewrite E. eexists. split; [reflexivity|]. unfold item_payload. rewrite E. apply updates_fixed32; [done|done|].
    by rewrite Hs in Hp.
  - rewrite E. eexists. split; [reflexivity|]. unfold item_payload. rewrite E. apply updates_fixed64; [done|done|].
    by rewrite Hs in Hp.
  - rewrite E. eexists. split; [reflexivity|]. unfold item_payload. rewrite E. by apply updates_bytes.
  - rewrite E. eexists. split; [reflexivity|]. unfold item_payload. rewrite E. cbn [Z.eqb orb].
    rewrite length_app. cbn [length]. rewrite Nat.add_sub, take_app_length. by apply updates_string.
  - rewrite E. eexists. split; [reflexivity|]. unfold item_payload. rewrite E. by apply updates_fixed_length.
Qed.

End items.

(** * The decoder on messages of known types: what [pb_decode_noinit] does with any sequence
    of records.

    The types are those of plain static messages: required, optional (with a [has_] member,
    or without one as in proto3) and repeated scalars, strings and bytes, and submessages
    inside of the struct.  [record] is one tagged value on the wire, of a field of the
    message, in any order and any number of times, or of an unknown one; [rec_bytes] are its
    bytes and [rec_effect] is what it does to the struct. *)

(** * The layout of a message *)

Definition has_size (f : pb_field_t) : bool := negb (size_offset f =? 0).
Definition is_optional (f : pb_field_t) : bool := PB_HTYPE (type_ f) =? PB_HTYPE_OPTIONAL.
Definition is_repeated (f : pb_field_t) : bool := PB_HTYPE (type_ f) =? PB_HTYPE_REPEATED.
Definition is_submessage (f : pb_field_t) : bool := PB_LTYPE (type_ f) =? PB_LTYPE_SUBMESSAGE.

(** The offset of the data of field [j] in the struct, and the size of the struct. *)
Fixpoint field_start (fs : list pb_field_t) (j : nat) : Z :=
  match fs, j with
  | [], _ => 0
  | f :: _, O => data_offset f
  | f :: fs, S j => data_offset f + stored_size f + field_start fs j
  end.

Fixpoint extent (fs : list pb_field_t) : Z :=
  match fs with
  | [] => 0
  | f :: fs => data_offset f + stored_size f + extent fs
  end.

(** The sizes that go with the type of an item. *)
Definition item_type_ok (f : pb_field_t) : bool :=
  let ltype := PB_LTYPE (type_ f) in
  if ltype =? PB_LTYPE_BOOL then data_size f =? 1
  else if (ltype =? PB_LTYPE_VARINT) || (ltype =? PB_LTYPE_UVARINT) || (ltype =? PB_LTYPE_SVARINT) then int_size (data_size f)
  else if ltype =? PB_LTYPE_FIXED32 then data_size f =? 4
  else if ltype =? PB_LTYPE_FIXED64 then data_size f =? 8
  else if ltype =? PB_LTYPE_BYTES then (4 <=? data_size f) && (data_size f <? 2 ^ 32)
  else if ltype =? PB_LTYPE_STRING then (1 <=? data_size f) && (data_size f <? 2 ^ 32)
  else if ltype =? PB_LTYPE_FIXED_LENGTH_BYTES then (0 <=? data_size f) && (data_size f <? 2 ^ 32)
  else is_submessage f && (0 <=? data_size f) && negb (ptr f =? NULL).

(** A [has_] or count member of [n] bytes lies in the gap in front of the data. *)
Definition size_in_gap (n : Z) (f : pb_field_t) : bool := (n <=? - size_offset f) && (- size_offset f <=? data_offset f).

Definition presence_ok (f : pb_field_t) : bool :=
  is_required f
  || (is_optional f && (size_in_gap 1 f || (negb (has_size f) && negb (is_submessage f))))
  || (is_repeated f && negb (is_submessage f) && size_in_gap 4 f
      && (0 <? data_size f) && (0 <? array_size f) && (data_size f * array_size f <? 2 ^ 32)).

Definition plain_field (f : pb_field_t) : bool :=
  (PB_ATYPE (type_ f) =? PB_ATYPE_STATIC) && (0 <? tag f) && (tag f <? 2 ^ 29) && (0 <=? data_offset f)
  && item_type_ok f && presence_ok f.

Section records.
Context `{PbEnv}.

(** The field table at each address. *)
Variable tables : Z -> list pb_field_t.

Definition plain_table (a : Z) : Prop :=
  table_at a (tables a) /\ tables a <> [] /\ Z.of_nat (length (tables a)) < 2 ^ 32 /\
  Forall (fun f => plain_field f = true) (tables a) /\ NoDup (tag <$> tables a).

(** The table at [a] and those of its submessages, which fit into their fields. *)
Fixpoint schema (n : nat) (a : Z) : Prop :=
  match n with
  | O => False
  | S n => plain_table a /\
           Forall (fun f => is_submessage f = true -> extent (tables (ptr f)) <= data_size f /\ schema n (ptr f)) (tables a)
  end.

(** * Records *)

Inductive record :=
| item (j : nat) (v : list Z)
| packed (j : nat) (vs : list (list Z))
| nested (j : nat) (rs : list record)
| unknown (n wt : Z) (l : list Z).

Definition item_wiretype (f : pb_field_t) : Z := default 0 (wiretype_of_ltype (PB_LTYPE (type_ f))).

Fixpoint rec_bytes (a : Z) (r : record) : list Z :=
  match r with
  | item j v =>
      match tables a !! j with Some f => tag_bytes (item_wiretype f) (tag f) ++ item_payload f v | None => [] end
  | packed j vs =>
      match tables a !! j with
      | Some f => tag_bytes PB_WT_STRING (tag f) ++ length_delimited (List.concat (List.map (item_payload f) vs))
      | None => []
      end
  | nested j rs =>
      match tables a !! j with
      | Some f => tag_bytes PB_WT_STRING (tag f) ++ length_delimited (List.concat (List.map (rec_bytes (ptr f)) rs))
      | None => []
      end
  | unknown n wt l => tag_bytes wt n ++ l
  end.

Definition recs_bytes (a : Z) (rs : list record) : list Z := List.concat (List.map (rec_bytes a) rs).

(** What the records store; [p] is where the field's data is. *)
Definition size_of (f : pb_field_t) (p : Z) : Z := p + size_offset f.

Definition set_present (f : pb_field_t) (p : Z) : effect :=
  if is_optional f && has_size f then put (size_of f p) [1] else skip.

Definition add_item (f : pb_field_t) (p : Z) (v : list Z) : effect :=
  with_uint 4 (size_of f p) (fun n => when ((0 <=? n) && (n <? array_size f))
    (andthen (put (size_of f p) (le_bytes 4 (u32 (n + 1)))) (put (p + u32 (data_size f * n)) v))).

Definition add_packed_item (f : pb_field_t) (p : Z) (v : list Z) : effect :=
  with_uint 4 (size_of f p) (fun n => when ((0 <=? n) && (n <? array_size f))
    (andthen (put (p + u32 (data_size f * n)) v)
             (with_uint 4 (size_of f p) (fun n => put (size_of f p) (le_bytes 4 (u32 (n + 1))))))).

(** The count is read once more at the end of a packed array. *)
Definition add_packed (f : pb_field_t) (p : Z) (vs : list (list Z)) : effect :=
  andthen (in_order (add_packed_item f p) vs) (with_uint 4 (size_of f p) (fun _ => skip)).

Fixpoint rec_effect (a dest : Z) (r : record) : effect :=
  match r with
  | item j v =>
      match tables a !! j with
      | Some f =>
          let p := dest + field_start (tables a) j in
          if is_repeated f then add_item f p v else andthen (set_present f p) (put p v)
      | None => skip
      end
  | packed j vs =>
      match tables a !! j with
      | Some f => add_packed f (dest + field_start (tables a) j) vs
      | None => skip
      end
  | nested j rs =>
      match tables a !! j with
      | Some f =>
          let p := dest + field_start (tables a) j in
          andthen (set_present f p) (in_order (rec_effect (ptr f) p) rs)
      | None => skip
      end
  | unknown _ _ _ => skip
  end.

Definition recs_effect (a dest : Z) (rs : list record) : effect := in_order (rec_effect a dest) rs.

(** The field of a record. *)
Definition rec_index (r : record) : option nat :=
  match r with
  | item j _ | packed j _ | nested j _ => Some j
  | unknown _ _ _ => None
  end.

(** The bit of a required field in [fields_seen]. *)
Definition required_index (a : Z) (j : nat) : option Z :=
  f ← tables a !! j;
  let i := count_required (take j (tables a)) in
  if is_required f && (i <? PB_MAX_REQUIRED_FIELDS) then Some i else None.

(** Every required field that the decoder checks is there. *)
Definition complete (a : Z) (rs : list record) : Prop :=
  forall j i, required_index a j = Some i -> exists r, r ∈ rs /\ rec_index r = Some j.

(** Records of the type [a], with submessages nested up to [n] deep. *)
Fixpoint rec_ok (n : nat) (a : Z) (r : record) : Prop :=
  match r with
  | item j v => exists f, tables a !! j = Some f /\ canonical f v
  | packed j vs =>
      exists f, tables a !! j = Some f /\ is_repeated f = true /\ PB_LTYPE (type_ f) <= PB_LTYPE_LAST_PACKABLE /\
                Forall (canonical f) vs /\ Z.of_nat (length (List.concat (List.map (item_payload f) vs))) < 2 ^ 32
  | nested j rs =>
      match n with
      | O => False
      | S n => exists f, tables a !! j = Some f /\ is_submessage f = true /\
                 Z.of_nat (length (recs_bytes (ptr f) rs)) < 2 ^ 32 /\ complete (ptr f) rs /\ Forall (rec_ok n (ptr f)) rs
      end
  | unknown t wt l => 0 < t < 2 ^ 29 /\ wire_payload wt l /\ unknown_number (tables a) t
  end.

Definition recs_ok (n : nat) (a : Z) (rs : list record) : Prop := complete a rs /\ Forall (rec_ok n a) rs.

End records.
