(* ===== verification/PbDecodeRecords.v ===== *)
(** [pb_decode_noinit] reads any sequence of records and stores them one after the other. *)
From stdpp Require Import base gmap list strings numbers option.
From Stdlib Require Import ZArith Lia.
From S2P Require Import Prelude Cmem Hoare PbTypes PbWire PbEncode PbIstream PbDecodePrim PbDecode PbFields PbDecodeThms PbItems.

(** * Layout *)

Variant presence (f : pb_field_t) : Prop :=
| presence_required : PB_HTYPE (type_ f) = PB_HTYPE_REQUIRED -> presence f
| presence_implicit : PB_HTYPE (type_ f) = PB_HTYPE_OPTIONAL -> size_offset f = 0 -> is_submessage f = false -> presence f
| presence_flag : PB_HTYPE (type_ f) = PB_HTYPE_OPTIONAL -> 1 <= - size_offset f <= data_offset f -> presence f
| presence_count :
    PB_HTYPE (type_ f) = PB_HTYPE_REPEATED -> is_submessage f = false -> 4 <= - size_offset f <= data_offset f ->
    0 < data_size f -> 0 < array_size f -> data_size f * array_size f < 2 ^ 32 -> presence f.

Record plain (f : pb_field_t) : Prop := {
  plain_static : PB_ATYPE (type_ f) = PB_ATYPE_STATIC;
  plain_tag : 0 < tag f < 2 ^ 29;
  plain_gap : 0 <= data_offset f;
  plain_item : item_type_ok f = true;
  plain_presence : presence f;
}.

Lemma plain_iff f : plain_field f = true -> plain f.
Proof.
  unfold plain_field. intros Hp. repeat apply andb_prop in Hp as [Hp ?].
  split; [by apply Z.eqb_eq|lia|lia|done|].
  unfold presence_ok, size_in_gap, has_size, is_optional, is_repeated, is_required in *.
  destruct (Z.eqb_spec (PB_HTYPE (type_ f)) PB_HTYPE_REQUIRED) as [E|_]; [by apply presence_required|].
  destruct (Z.eqb_spec (PB_HTYPE (type_ f)) PB_HTYPE_OPTIONAL) as [E|_]; cbn [orb andb] in *.
  - destruct (Z.eqb_spec (size_offset f) 0) as [E0|]; [|apply presence_flag; [done|lia]].
    rewrite E0 in *. destruct (is_submessage f) eqn:Es; [|by apply presence_implicit].
    rewrite E in *. destruct (_ && _) eqn:Eg; lia.
  - destruct (Z.eqb_spec (PB_HTYPE (type_ f)) PB_HTYPE_REPEATED) as [E|_]; [|done]. cbn [andb] in *.
    destruct (is_submessage f) eqn:Es; [done|]. apply presence_count; done || lia.
Qed.

Lemma item_size_nonneg f : item_type_ok f = true -> 0 <= data_size f.
Proof.
  unfold item_type_ok. intros Hi. repeat case_match; try lia. apply int_size_pos in Hi. lia.
Qed.

Lemma plain_stored f : plain f -> 0 <= data_size f <= stored_size f /\ (is_repeated f = false -> stored_size f = data_size f) /\
  (is_repeated f = true -> stored_size f = data_size f * array_size f).
Proof.
  intros P. pose proof (item_size_nonneg f (plain_item f P)). unfold stored_size, is_repeated. rewrite (plain_static f P).
  change (PB_ATYPE_STATIC =? PB_ATYPE_STATIC) with true. change (PB_ATYPE_STATIC =? PB_ATYPE_POINTER) with false. cbn [andb].
  destruct (plain_presence f P) as [E|E|E|E ? ? ? ? ?]; rewrite E.
  1-3: change (_ =? PB_HTYPE_REPEATED) with false; split_and!; done || lia.
  change (_ =? PB_HTYPE_REPEATED) with true. rewrite u64_small by nia. split_and!; done || nia.
Qed.

Lemma plain_no_union f g : plain f -> shares_union f g = false.
Proof. intros P. unfold shares_union. destruct (plain_presence f P) as [E|E|E|E]; by rewrite E. Qed.

Lemma plain_no_extension f : plain f -> is_extension f = false.
Proof.
  intros P. pose proof (plain_item f P) as Hi. unfold item_type_ok, is_submessage in Hi. unfold is_extension.
  destruct (Z.eqb_spec (PB_LTYPE (type_ f)) PB_LTYPE_EXTENSION) as [E|]; [|done]. rewrite E in Hi. done.
Qed.

Lemma field_start_succ fs : forall j f g,
  fs !! j = Some f -> fs !! S j = Some g -> field_start fs (S j) = field_start fs j + stored_size f + data_offset g.
Proof.
  induction fs as [|h fs IH]; intros j f g Hf Hg; [done|]. destruct j as [|j]; cbn in Hf.
  - injection Hf as ->. destruct fs as [|g' fs]; [done|]. cbn in Hg. injection Hg as ->. cbn. lia.
  - change ((h :: fs) !! S (S j)) with (fs !! S j) in Hg. cbn [field_start]. rewrite (IH j f g) by done. lia.
Qed.

Lemma field_start_bounds fs : forall j f,
  Forall plain fs -> fs !! j = Some f -> data_offset f <= field_start fs j /\ field_start fs j + stored_size f <= extent fs.
Proof.
  assert (Hpos : forall l, Forall plain l -> 0 <= extent l).
  { induction 1 as [|h l Hh _ IH]; [done|]. cbn. pose proof (plain_stored h Hh). pose proof (plain_gap h Hh). lia. }
  induction fs as [|h fs IH]; intros j f Hp Hf; [done|]. apply Forall_cons_1 in Hp as [Hh Hp].
  pose proof (plain_stored h Hh). pose proof (plain_gap h Hh). pose proof (Hpos fs Hp). destruct j as [|j]; cbn [field_start extent].
  - injection Hf as ->. lia.
  - destruct (IH j f Hp Hf). lia.
Qed.

Section layout.
Context `{PbEnv} (a dest : Z) (fs : list pb_field_t).
Hypothesis (Hplain : Forall plain fs) (Hdest : 0 < dest).

Lemma iter_at_data j f : fs !! j = Some f ->
  pData (iter_at a dest fs j) = dest + field_start fs j /\
  pSize (iter_at a dest fs j) = size_of f (dest + field_start fs j).
Proof.
  revert f. induction j as [|j IH]; intros f Hf; cbn [iter_at].
  - rewrite Hf. unfold iter_begin. rewrite (proj2 (Z.eqb_neq dest NULL)) by (unfold NULL; lia).
    destruct fs as [|g l]; [done|]. injection Hf as ->. cbn. unfold size_of. done.
  - destruct (lookup_lt_is_Some_2 fs j) as [g Hg]; [apply lookup_lt_Some in Hf; lia|]. rewrite Hg, Hf.
    unfold iter_succ. rewrite plain_no_union by (by apply (Forall_lookup_1 _ _ _ _ Hplain Hg)).
    cbn [pData pSize]. destruct (IH g Hg) as [-> _]. rewrite (field_start_succ fs j g f) by done. unfold size_of. split; lia.
Qed.

(** The stores of a field stay inside of the struct. *)
Lemma field_within j f : fs !! j = Some f ->
  let p := dest + field_start fs j in
  within (dest, extent fs) p (stored_size f) /\
  (is_optional f && has_size f = true -> within (dest, extent fs) (size_of f p) 1) /\
  (is_repeated f = true -> within (dest, extent fs) (size_of f p) 4).
Proof.
  intros Hf p. pose proof (Forall_lookup_1 _ _ _ _ Hplain Hf) as P. destruct (field_start_bounds fs j f Hplain Hf) as [H1 H2].
  pose proof (plain_gap f P). pose proof (plain_stored f P) as (Hs & _). subst p. unfold within, size_of. cbn.
  split; [lia|]. unfold is_optional, is_repeated, has_size.
  destruct (plain_presence f P) as [E|E E0|E ?|E ? ? ? ? ?]; rewrite E; cbn [Z.eqb]; split; try done; lia.
Qed.

End layout.

(** * Fields *)

Section fields.
Context `{PbEnv} (sub : Z -> Z -> SM pb_istream_t unit) (depth : nat).
Context (a dest : Z) (fs : list pb_field_t).
Hypothesis (Hat : table_at a fs) (Hplain : Forall plain fs) (Hdest : 0 < dest).

Notation it_at := (iter_at a dest fs).
Notation R := (dest, extent fs).

Lemma decoder_for_ok {f func} s w :
  PB_DECODERS sub depth !! Z.to_nat (PB_LTYPE (type_ f)) = Some (Some func) ->
  decoder_for sub depth (PB_LTYPE (type_ f)) s w = Ok func s w.
Proof. intros E. unfold decoder_for. by rewrite E. Qed.

(** One value that is stored in the field itself. *)
Lemma updates_singular j f wt func payload e :
  fs !! j = Some f -> is_repeated f = false ->
  PB_DECODERS sub depth !! Z.to_nat (PB_LTYPE (type_ f)) = Some (Some func) ->
  updates R (func f (dest + field_start fs j)) tt payload e ->
  updates R (decode_static_field sub depth wt (it_at j)) tt payload (andthen (set_present f (dest + field_start fs j)) e).
Proof.
  intros Hf Hrep Hfunc Hu. pose proof (Forall_lookup_1 _ _ _ _ Hplain Hf) as P.
  destruct (iter_at_data a dest fs Hplain Hdest j f Hf) as [Ed Es].
  destruct (field_within dest fs Hplain j f Hf) as (_ & Hw1 & _).
  unfold decode_static_field. apply (runs_pure _ _ _ _ f); [intros s w; by apply (field_at_table a dest fs Hat)|].
  apply (runs_pure _ _ _ _ func); [intros s w; by apply decoder_for_ok|]. rewrite Ed, Es.
  unfold set_present, is_optional, is_repeated, has_size, size_of in *. set (p := dest + field_start fs j) in *.
  destruct (plain_presence f P) as [E|E E0|E ?|E]; rewrite E in *; cbn [Z.eqb Pos.eqb PB_HTYPE_REQUIRED PB_HTYPE_OPTIONAL PB_HTYPE_REPEATED andb negb] in *.
  - by apply (runs_effect _ _ _ _ _ e).
  - rewrite E0, Z.add_0_r, Z.eqb_refl. cbn [negb]. change (0 =? 0) with true. cbn [negb].
    apply (runs_pure _ _ _ _ tt); [done|]. by apply (runs_effect _ _ _ _ _ e).
  - rewrite (proj2 (Z.eqb_neq (p + size_offset f) p)) by lia. rewrite (proj2 (Z.eqb_neq (size_offset f) 0)) in * by lia. cbn [negb] in *.
    apply (updates_bind _ _ _ tt _ []); [|done]. apply updates_store_u. by apply Hw1.
  - done.
Qed.

Lemma item_at f p n v :
  plain f -> is_repeated f = true -> canonical f v -> within R p (stored_size f) -> 0 <= n < array_size f ->
  within R (p + u32 (data_size f * n)) (data_size f).
Proof.
  intros P Hrep Hv Hw Hn. destruct (plain_stored f P) as (_ & _ & Hs). rewrite Hs in Hw by done.
  destruct (plain_presence f P) as [E|E|E|E _ _ Hds Has Hm]; unfold is_repeated in Hrep; rewrite E in Hrep; try done.
  rewrite u32_small by nia. unfold within in *. cbn in *. nia.
Qed.

Lemma within_shorter p n n' : n <= n' -> within R p n' -> within R p n.
Proof. unfold within. lia. Qed.

Lemma local_item f p n v :
  plain f -> is_repeated f = true -> canonical f v -> within R p (stored_size f) -> (0 <=? n) && (n <? array_size f) = true ->
  local_effect R (put (p + u32 (data_size f * n)) v).
Proof.
  intros P Hrep Hv Hw Hn. apply local_put. eapply within_shorter; [by apply canonical_length|]. apply (item_at f p n v); try done. lia.
Qed.

Lemma local_when_true b e : (b = true -> local_effect R e) -> local_effect R (when b e).
Proof. destruct b; [intros He; by apply He|intros _; split; done]. Qed.

Lemma runs_when_true {A} Q b (m : SM pb_istream_t A) x l e : (b = true -> runs Q R m x l e) -> runs Q R m x l (when b e).
Proof. destruct b; [intros Hr; by apply Hr|]. intros _. split; [split; done|]. by intros s w m' _ _ _ _. Qed.

(** One item of an array, with a tag of its own. *)
Lemma updates_array_item j f wt v :
  fs !! j = Some f -> is_repeated f = true -> canonical f v ->
  (wt =? PB_WT_STRING) && (PB_LTYPE (type_ f) <=? PB_LTYPE_LAST_PACKABLE) = false ->
  updates R (decode_static_field sub depth wt (it_at j)) tt (item_payload f v) (add_item f (dest + field_start fs j) v).
Proof.
  intros Hf Hrep Hv Hwt. pose proof (Forall_lookup_1 _ _ _ _ Hplain Hf) as P.
  destruct (iter_at_data a dest fs Hplain Hdest j f Hf) as [Ed Es].
  destruct (field_within dest fs Hplain j f Hf) as (Hw & _ & Hw4). specialize (Hw4 Hrep).
  set (p := dest + field_start fs j) in *. pose proof Hrep as E. apply Z.eqb_eq in E.
  assert (Hfunc : exists func, PB_DECODERS sub depth !! Z.to_nat (PB_LTYPE (type_ f)) = Some (Some func)).
  { destruct (updates_item sub depth (0, data_size f) f v 0 (plain_static f P) Hv) as (func & Hl & _); [unfold within; cbn; lia|by exists func]. }
  destruct Hfunc as (func & Hfunc).
  unfold decode_static_field. apply (runs_pure _ _ _ _ f); [intros s w; by apply (field_at_table a dest fs Hat)|].
  apply (runs_pure _ _ _ _ func); [intros s w; by apply decoder_for_ok|]. rewrite Ed, Es, E.
  change (PB_HTYPE_REPEATED =? PB_HTYPE_REQUIRED) with false. change (PB_HTYPE_REPEATED =? PB_HTYPE_OPTIONAL) with false.
  change (PB_HTYPE_REPEATED =? PB_HTYPE_REPEATED) with true. rewrite Hwt. cbv iota.
  apply runs_load_u. intros n. apply runs_when_true. intros Hn. cbv zeta.
  apply (updates_bind _ _ _ tt _ []); [by apply updates_store_u|]. rewrite (proj2 (Z.leb_gt _ _)) by lia.
  destruct (updates_item sub depth R f v (p + u32 (data_size f * n)) (plain_static f P) Hv) as (func' & Hl & Hu).
  { apply (item_at f p n v); try done. lia. }
  rewrite Hfunc in Hl. by injection Hl as <-.
Qed.

(** The loop over a packed array. *)
Definition packed_body (func : pb_field_t -> Z -> SM pb_istream_t unit) (f : pb_field_t) (it : pb_field_iter_t) (_ : unit)
  : SM pb_istream_t (unit + unit) :=
  let* s := get in
  let* size := load_u 4 (pSize it) in
  if (0 <? bytes_left s) && (size <? array_size f) then
    func f (pData it + u32 (data_size f * size));;
    let* size := load_u 4 (pSize it) in
    store_u 4 (pSize it) (u32 (size + 1));;
    ret (inl tt)
  else ret (inr tt).

Lemma packed_loop func f it p vs : forall fuel,
  plain f -> is_repeated f = true -> within R p (stored_size f) -> within R (size_of f p) 4 ->
  pData it = p -> pSize it = size_of f p -> Forall (canonical f) vs -> (length vs < fuel)%nat ->
  Forall (fun v => (0 < length (item_payload f v))%nat) vs ->
  (forall v q, canonical f v -> within R q (data_size f) -> updates R (func f q) tt (item_payload f v) (put q v)) ->
  consumes R (loop fuel (packed_body func f it) tt) tt (List.concat (List.map (item_payload f) vs)) (add_packed f p vs).
Proof.
  intros fuel P Hrep Hw Hw4 Ed Es Hvs Hf Hne Hfunc. revert fuel Hf. induction Hvs as [|v vs Hv Hvs IH]; intros fuel Hf;
    (destruct fuel as [|fuel]; [cbn in Hf; lia|]); cbn [loop List.map List.concat].
  - unfold add_packed. cbn [in_order]. apply (runs_effect _ _ _ _ _ (with_uint 4 (size_of f p) (fun _ => skip))); [done|].
    split; [auto with effects|]. intros s w m' Hend Hs _ _ (bs & E1 & E2)%bind_Some. unfold to_the_end in Hend. cbn in Hend.
    exists (brk w). split; [lia|]. cbn [bind]. unfold packed_body. cbn [bind get]. rewrite Es. unfold load_u. cbn [bind]. unfold load_bytes.
    change (Z.to_nat (Z.of_nat 4)) with 4%nat. rewrite E1. cbn [ret]. rewrite Hend.
    change (0 <? Z.of_nat 0) with false. cbn [andb ret]. rewrite consumed_nil. unfold skip in E2. injection E2 as <-. by destruct w.
  - apply Forall_cons_1 in Hne as [Hnv Hne].
    apply (runs_effect _ _ _ _ _ (andthen (add_packed_item f p v) (add_packed f p vs))).
    { intros m. unfold add_packed. cbn [in_order]. unfold andthen. by destruct (add_packed_item f p v m). }
    apply (updates_then R (packed_body func f it tt) _ (inl tt) tt _ _ _ _ _ to_the_end); [intros s; apply end_consumed| |apply IH; [done|cbn in Hf; lia]].
    unfold packed_body. rewrite Ed, Es.
    apply (runs_get _ _ _ (let* size := load_u 4 (size_of f p) in
      if size <? array_size f then
        func f (p + u32 (data_size f * size));; let* size := load_u 4 (size_of f p) in store_u 4 (size_of f p) (u32 (size + 1));; ret (inl tt)
      else ret (inr tt))).
    { intros s s' w Hl. rewrite (proj2 (Z.ltb_lt 0 _)) by lia. done. }
    apply runs_load_u. intros n. apply runs_when_true. intros Hn. rewrite (proj2 (Z.ltb_lt n _)) by lia.
    rewrite <- (app_nil_r (item_payload f v)). eapply updates_bind.
    + apply Hfunc; [done|]. apply (item_at f p n v); try done. lia.
    + apply runs_load_u. intros n'. apply (runs_then_pure _ _ _ _ tt); [by apply updates_store_u|done].
Qed.

Lemma packable_payload f v : canonical f v -> PB_LTYPE (type_ f) <= PB_LTYPE_LAST_PACKABLE -> (0 < length (item_payload f v))%nat.
Proof.
  intros Hv Hl. unfold item_payload.
  destruct Hv as [b E Hs|v E Hs Hln Hv|v E Hs Hln Hv|v E Hs Hln Hv|l E Hln|l E Hln Hz|l E Hln Hs]; try (rewrite E in Hl; done).
  - rewrite E. apply varint_length_min.
  - destruct E as [E|[E|E]]; rewrite E; apply varint_length_min.
  - rewrite E. cbn. lia.
  - rewrite E. cbn. lia.
Qed.

Lemma packable_decoder f :
  item_type_ok f = true -> exists func, PB_DECODERS sub depth !! Z.to_nat (PB_LTYPE (type_ f)) = Some (Some func).
Proof.
  intros Hi. unfold item_type_ok, is_submessage in Hi.
  repeat match type of Hi with
  | context [PB_LTYPE (type_ f) =? ?c] =>
      destruct (Z.eqb_spec (PB_LTYPE (type_ f)) c) as [E|_]; [rewrite E; by eexists|]; cbn [orb andb] in Hi
  end. done.
Qed.

(** A packed array. *)
Lemma updates_packed j f vs :
  fs !! j = Some f -> is_repeated f = true -> Forall (canonical f) vs -> PB_LTYPE (type_ f) <= PB_LTYPE_LAST_PACKABLE ->
  Z.of_nat (length (List.concat (List.map (item_payload f) vs))) < 2 ^ 32 ->
  updates R (decode_static_field sub depth PB_WT_STRING (it_at j)) tt
    (length_delimited (List.concat (List.map (item_payload f) vs))) (add_packed f (dest + field_start fs j) vs).
Proof.
  intros Hf Hrep Hvs Hpack Hlen. pose proof (Forall_lookup_1 _ _ _ _ Hplain Hf) as P.
  destruct (iter_at_data a dest fs Hplain Hdest j f Hf) as [Ed Es].
  destruct (field_within dest fs Hplain j f Hf) as (Hw & _ & Hw4). specialize (Hw4 Hrep).
  pose proof Hrep as E. apply Z.eqb_eq in E. destruct (packable_decoder f (plain_item f P)) as (func & Hfunc).
  assert (Hne : Forall (fun v => (0 < length (item_payload f v))%nat) vs).
  { clear -Hvs Hpack. induction Hvs; constructor; [by apply packable_payload|done]. }
  unfold decode_static_field. apply (runs_pure _ _ _ _ f); [intros s w; by apply (field_at_table a dest fs Hat)|].
  apply (runs_pure _ _ _ _ func); [intros s w; by apply decoder_for_ok|]. rewrite E.
  change (PB_HTYPE_REPEATED =? PB_HTYPE_REQUIRED) with false. change (PB_HTYPE_REPEATED =? PB_HTYPE_OPTIONAL) with false.
  change (PB_HTYPE_REPEATED =? PB_HTYPE_REPEATED) with true. change (PB_WT_STRING =? PB_WT_STRING) with true.
  rewrite (proj2 (Z.leb_le _ _)) by done. cbn [andb].
  apply (updates_substream R (fun sub' => loop (S (Z.to_nat (bytes_left sub'))) (packed_body func f (it_at j)) tt) _ tt); [done| |].
  - intros sub' Hl. apply packed_loop; try done.
    + rewrite Hl. assert (length vs <= length (List.concat (List.map (item_payload f) vs)))%nat; [|lia].
      clear -Hne. induction Hne as [|v vs Hv _ IH]; cbn; [lia|]. rewrite length_app. lia.
    + intros v q Hv Hq. destruct (updates_item sub depth R f v q (plain_static f P) Hv Hq) as (func' & Hl' & Hu).
      rewrite Hfunc in Hl'. by injection Hl' as <-.
  - intros sub' s w H0. rewrite H0. cbn [Z.eqb negb bind]. unfold pb_close_string_substream. rewrite H0. done.
Qed.

End fields.

(** The records of a submessage. *)
Lemma updates_submessage `{PbEnv} (sub : Z -> Z -> SM pb_istream_t unit) depth R f p l e :
  is_repeated f = false -> ptr f <> NULL -> Z.of_nat (length l) < 2 ^ 32 ->
  consumes R (sub (ptr f) p) tt l e -> updates R (pb_dec_submessage sub depth f p) tt (length_delimited l) e.
Proof.
  intros Hrep Hptr Hl Hs. unfold pb_dec_submessage.
  apply (runs_ext _ _ _ (let* substream := pb_make_string_substream in
    let* r := on_stream substream (sub (ptr f) p) in
    let '(status, substream) := r in
    pb_close_string_substream substream;; match status with Some _ => ret tt | None => fail end)).
  { intros s w. cbn [bind]. destruct (pb_make_string_substream s w); try done. rewrite (proj2 (Z.eqb_neq _ _)) by done.
    unfold is_repeated in Hrep. rewrite Hrep. done. }
  apply (updates_substream R (fun _ => sub (ptr f) p) _ tt); [done|done|].
  intros sub' s w H0. unfold pb_close_string_substream. cbn [bind]. rewrite H0. done.
Qed.

(** * Records *)

Section records.
Context `{PbEnv} (sub : Z -> Z -> SM pb_istream_t unit) (depth : nat) (tables : Z -> list pb_field_t) (a dest : Z).
Hypothesis (Htable : plain_table tables a) (Hdest : 0 < dest).

Notation fs := (tables a).
Notation it_at := (iter_at a dest fs).
Notation R := (dest, extent fs).

Lemma table_plain : Forall plain fs.
Proof using Htable. destruct Htable as (_ & _ & _ & Hp & _). induction Hp; constructor; [by apply plain_iff|done]. Qed.

Lemma table_no_extensions : no_extensions fs.
Proof using Htable. pose proof table_plain as Hp. unfold no_extensions. induction Hp; constructor; [by apply plain_no_extension|done]. Qed.

Lemma cyclic_find_tag i j f :
  (i < length fs)%nat -> fs !! j = Some f -> cyclic_find fs (has_tag (tag f)) i = Some j.
Proof using Htable.
  intros Hi Hf. destruct Htable as (_ & _ & _ & _ & Hnd). pose proof (Forall_lookup_1 _ _ _ _ table_plain Hf) as P.
  assert (Hsat : satisfies fs (has_tag (tag f)) j = true).
  { unfold satisfies, has_tag. rewrite Hf, Z.eqb_refl, plain_no_extension by done. done. }
  unfold cyclic_find. destruct (List.find _ _) as [k|] eqn:E.
  - apply List.find_some in E as [_ Hk]. unfold satisfies in Hk. destruct (fs !! k) as [g|] eqn:Eg; [|done].
    apply andb_prop in Hk as [Hk _]. apply Z.eqb_eq in Hk. f_equal.
    apply (NoDup_lookup (tag <$> fs) k j (tag f)); [done|rewrite list_lookup_fmap, Eg; cbn; by rewrite Hk|by rewrite list_lookup_fmap, Hf].
  - pose proof (List.find_none _ _ E j) as Hn. rewrite Hsat in Hn. discriminate Hn.
    apply lookup_lt_Some in Hf. apply in_or_app. rewrite !in_seq. lia.
Qed.

(** What a record leaves of the decoder's locals. *)
Definition mark (r : record) (seen : list Z) : list Z :=
  match rec_index r ≫= required_index tables a with Some i => mark_seen seen i | None => seen end.

Definition state_at (st : noinit_state) (seen : list Z) : Prop :=
  (exists i, (i < length fs)%nat /\ iter st = it_at i) /\ fixed_count_field st = NULL /\ fields_seen st = seen.

Lemma updates_known st fcs j f wt payload e :
  fs !! j = Some f -> fixed_count_field st = NULL ->
  updates R (decode_static_field sub depth wt (it_at j)) tt payload e ->
  exists st', updates R (decode_known_field sub depth st fcs wt (it_at j)) st' payload e /\
    state_at st' (match required_index tables a j with Some i => mark_seen (fields_seen st) i | None => fields_seen st end).
Proof using Htable Hdest.
  intros Hf Hst Hu. pose proof Htable as (Hat & _ & Hlen & _). pose proof (Forall_lookup_1 _ _ _ _ table_plain Hf) as P.
  pose proof (lookup_lt_Some _ _ _ Hf) as Hj. destruct (iter_at_data a dest fs table_plain Hdest j f Hf) as [Ed Es].
  eexists (mk_state _ _ _ _). split; [|split; [exists j; split; [done|reflexivity]|split; reflexivity]].
  unfold decode_known_field. apply (runs_pure _ _ _ _ f); [intros s w; by apply (field_at_table a dest fs Hat)|].
  assert (Hfix : (PB_HTYPE (type_ f) =? PB_HTYPE_REPEATED) && (pSize (it_at j) =? pData (it_at j)) = false).
  { rewrite Es, Ed. unfold size_of. destruct (plain_presence f P) as [E|E|E|E _ ? _ _ _]; rewrite E; try done.
    apply andb_false_intro2, Z.eqb_neq. lia. }
  rewrite Hfix. apply (runs_pure _ _ _ _ (it_at j, fixed_count_field st)); [done|]. cbv beta iota.
  rewrite (iter_at_required a dest fs j Hj Hlen), Hst.
  assert (Hseen : (if (PB_HTYPE (type_ f) =? PB_HTYPE_REQUIRED) && (count_required (take j fs) <? PB_MAX_REQUIRED_FIELDS)
                   then mark_seen (fields_seen st) (count_required (take j fs)) else fields_seen st)
                  = match required_index tables a j with Some i => mark_seen (fields_seen st) i | None => fields_seen st end).
  { unfold required_index. rewrite Hf. cbn. unfold is_required. by destruct (PB_HTYPE (type_ f) =? PB_HTYPE_REQUIRED), (count_required (take j fs) <? PB_MAX_REQUIRED_FIELDS). }
  rewrite Hseen. apply (runs_then_pure _ _ _ _ (it_at j)); [|done].
  unfold decode_field. apply (runs_pure _ _ _ _ f); [intros s w; by apply (field_at_table a dest fs Hat)|].
  assert (Hone : (PB_HTYPE (type_ f) =? PB_HTYPE_ONEOF) = false) by (destruct (plain_presence f P) as [E|E|E|E]; by rewrite E).
  rewrite Hone. apply (runs_pure _ _ _ _ (it_at j)); [done|].
  apply (runs_pure _ _ _ _ f); [intros s w; by apply (field_at_table a dest fs Hat)|].
  rewrite (plain_static f P). change (PB_ATYPE_STATIC =? PB_ATYPE_STATIC) with true. cbv beta iota zeta.
  by apply (runs_then_pure _ _ _ _ tt).
Qed.

(** A tagged value of a known field. *)
Lemma updates_known_record st seen fcs j f wt payload e :
  state_at st seen -> fs !! j = Some f -> 0 <= wt < 8 ->
  updates R (decode_static_field sub depth wt (it_at j)) tt payload e ->
  exists st', updates R (decode_one_field sub depth fcs st) (inl st') (tag_bytes wt (tag f) ++ payload) e /\
    state_at st' (match required_index tables a j with Some i => mark_seen seen i | None => seen end).
Proof using Htable Hdest.
  intros ((i & Hi & Ei) & Hfix & <-) Hf Hwt Hu. pose proof Htable as (Hat & _). pose proof (Forall_lookup_1 _ _ _ _ table_plain Hf) as P.
  destruct (updates_known st fcs j f wt payload e Hf Hfix Hu) as (st' & Hst' & Hs). exists st'. split; [|done].
  unfold decode_one_field. eapply runs_get.
  { intros s s' w Hl. rewrite length_app in Hl. pose proof (varint_length_min (8 * tag f + wt)). unfold tag_bytes in Hl.
    rewrite (proj2 (Z.eqb_neq _ _)) by lia. reflexivity. }
  eapply updates_reads; [apply reads_tag; [done|apply (plain_tag f P)]|]. cbn [tag_ok negb tag_no wire_type]. rewrite Ei.
  apply (runs_pure _ _ _ _ (true, it_at j)).
  { intros s w. rewrite (find_field_ok a dest fs Hat) by done. rewrite (cyclic_find_tag i j f Hi Hf). done. }
  cbn [negb]. by apply (runs_then_pure _ _ _ _ st').
Qed.

(** A value with a number that is no field's. *)
Lemma updates_unknown_record st seen fcs t wt l :
  state_at st seen -> 0 < t < 2 ^ 29 -> wire_payload wt l -> unknown_number fs t ->
  exists st', updates R (decode_one_field sub depth fcs st) (inl st') (tag_bytes wt t ++ l) skip /\ state_at st' seen.
Proof using Htable.
  intros ((i & Hi & Ei) & Hfix & <-) Ht Hp Hu. pose proof Htable as (Hat & _).
  destruct (reads_unknown_field sub depth a dest fs Hat st i t wt l Hi table_no_extensions Ht Hp) as (range & Hr).
  exists (mk_state (fields_seen st) range (it_at i) (fixed_count_field st)).
  split; [|split; [exists i; split; [done|reflexivity]|split; [exact Hfix|reflexivity]]].
  unfold decode_one_field. eapply runs_get.
  { intros s s' w Hl. rewrite length_app in Hl. pose proof (varint_length_min (8 * t + wt)). unfold tag_bytes in Hl.
    rewrite (proj2 (Z.eqb_neq _ _)) by lia. reflexivity. }
  eapply updates_reads; [apply reads_tag; [by apply (wire_payload_range wt l)|done]|]. cbn [tag_ok negb tag_no wire_type]. rewrite Ei.
  apply (runs_pure _ _ _ _ (false, it_at i)).
  { intros s w. rewrite (find_field_ok a dest fs Hat) by done. rewrite cyclic_find_none by done. done. }
  cbn [negb]. apply reads_updates. eapply reads_bind_ret; [exact Hr|done].
Qed.

Lemma item_wiretype_ok f v : canonical f v ->
  0 <= item_wiretype f < 8 /\ (item_wiretype f =? PB_WT_STRING) && (PB_LTYPE (type_ f) <=? PB_LTYPE_LAST_PACKABLE) = false.
Proof.
  intros Hv. unfold item_wiretype. destruct Hv as [b E|v [E|[E|E]]|v E|v E|l E|l E|l E]; rewrite E; done.
Qed.

(** Any record; [Hnested] is the decoder one level down. *)
Lemma updates_record n st seen fcs r :
  (forall f p rs, f ∈ fs -> is_submessage f = true -> 0 < p -> complete tables (ptr f) rs -> Forall (rec_ok tables n (ptr f)) rs ->
     consumes (p, extent (tables (ptr f))) (sub (ptr f) p) tt (recs_bytes tables (ptr f) rs) (recs_effect tables (ptr f) p rs)) ->
  Forall (fun f => is_submessage f = true -> extent (tables (ptr f)) <= data_size f /\ 0 <= extent (tables (ptr f))) fs ->
  state_at st seen -> rec_ok tables (S n) a r ->
  exists st', updates R (decode_one_field sub depth fcs st) (inl st') (rec_bytes tables a r) (rec_effect tables a dest r) /\
    state_at st' (mark r seen).
Proof using Htable Hdest.
  intros Hnested Hext Hst Hr. pose proof Htable as (Hat & _). destruct r as [j v|j vs|j rs|t wt l]; cbn [rec_ok rec_bytes rec_effect] in *; unfold mark; cbn [rec_index].
  - destruct Hr as (f & Hf & Hv). rewrite Hf. pose proof (item_wiretype_ok f v Hv) as Hwt. pose proof (Forall_lookup_1 _ _ _ _ table_plain Hf) as P.
    destruct (is_repeated f) eqn:Hrep.
    + apply updates_known_record; [done|done|apply Hwt|]. apply updates_array_item; try done; [apply table_plain|apply Hwt].
    + destruct (field_within dest fs table_plain j f Hf) as (Hw & _). destruct (plain_stored f P) as (_ & Hsz & _). rewrite Hsz in Hw by done.
      destruct (updates_item sub depth R f v (dest + field_start fs j) (plain_static f P) Hv Hw) as (func & Hfunc & Hu).
      apply updates_known_record; [done|done|apply Hwt|].
      by apply (updates_singular sub depth a dest fs Hat table_plain Hdest j f _ func).
  - destruct Hr as (f & Hf & Hrep & Hpack & Hvs & Hlen). rewrite Hf.
    apply updates_known_record; [done|done|done|]. apply updates_packed; try done. apply table_plain.
  - destruct Hr as (f & Hf & Hs & Hlen & Hc & Hrs). rewrite Hf. pose proof (Forall_lookup_1 _ _ _ _ table_plain Hf) as P.
    assert (Hin : f ∈ fs) by (by apply (list_elem_of_lookup_2 _ j)).
    assert (Hrep : is_repeated f = false).
    { unfold is_repeated. destruct (plain_presence f P) as [E|E|E|E Hn]; rewrite ?E; try done. by rewrite Hs in Hn. }
    pose proof (Forall_lookup_1 _ _ _ _ Hext Hf Hs) as [Hfit Hpos].
    destruct (field_within dest fs table_plain j f Hf) as (Hw & _). destruct (plain_stored f P) as (_ & Hsz & _). rewrite Hsz in Hw by done.
    destruct (field_start_bounds fs j f table_plain Hf) as [Hst0 _]. pose proof (plain_gap f P).
    apply updates_known_record; [done|done|done|].
    apply (updates_singular sub depth a dest fs Hat table_plain Hdest j f _ (pb_dec_submessage sub depth)); [done|done| |].
    + apply Z.eqb_eq in Hs. by rewrite Hs.
    + apply updates_submessage; [done| |done|].
      * pose proof (plain_item f P) as Hi. unfold item_type_ok in Hi. pose proof Hs as E. apply Z.eqb_eq in E. rewrite E in Hi.
        cbn in Hi. apply andb_prop in Hi as [_ Hi]. by apply negb_true_iff, Z.eqb_neq in Hi.
      * apply (runs_weaken _ (dest + field_start fs j, extent (tables (ptr f)))); [unfold within in *; cbn in *; lia|done|].
        apply Hnested; [done|done|lia|done|done].
  - destruct Hr as (Ht & Hp & Hu). by apply updates_unknown_record.
Qed.

(** All of them. *)
Lemma updates_records n fcs rs : 
  (forall f p rs, f ∈ fs -> is_submessage f = true -> 0 < p -> complete tables (ptr f) rs -> Forall (rec_ok tables n (ptr f)) rs ->
     consumes (p, extent (tables (ptr f))) (sub (ptr f) p) tt (recs_bytes tables (ptr f) rs) (recs_effect tables (ptr f) p rs)) ->
  Forall (fun f => is_submessage f = true -> extent (tables (ptr f)) <= data_size f /\ 0 <= extent (tables (ptr f))) fs ->
  Forall (rec_ok tables (S n) a) rs ->
  forall fuel st seen, state_at st seen -> (length rs < fuel)%nat ->
  exists st', consumes R (loop fuel (decode_one_field sub depth fcs) st) st' (recs_bytes tables a rs) (recs_effect tables a dest rs) /\
    state_at st' (foldl (fun seen r => mark r seen) seen rs).
Proof using Htable Hdest.
  intros Hnested Hext Hrs. induction Hrs as [|r rs Hr Hrs IH]; intros fuel st seen Hst Hf; (destruct fuel as [|fuel]; [lia|]).
  - exists st. split; [|done]. unfold recs_bytes, recs_effect. cbn [List.map List.concat in_order loop]. split; [auto with effects|].
    intros s w m' Hend _ _ _ [= <-]. unfold to_the_end in Hend. cbn [length] in Hend. exists (brk w). split; [lia|].
    cbn [bind]. unfold decode_one_field. cbn [bind get]. rewrite Hend. cbn [Z.of_nat Z.eqb ret]. rewrite consumed_nil. by destruct w.
  - destruct (updates_record n st seen fcs r Hnested Hext Hst Hr) as (st1 & H1 & Hst1).
    destruct (IH fuel st1 (mark r seen) Hst1) as (st2 & H2 & Hst2); [cbn in Hf; lia|].
    exists st2. split; [|done]. cbn [loop]. unfold recs_bytes, recs_effect. cbn [List.map List.concat in_order].
    eapply (updates_then R _ _ (inl st1) st2 _ _ _ _ _ to_the_end); [intros s; apply end_consumed|exact H1|exact H2].
Qed.

End records.

(** * Required fields *)

Section required.
Context `{PbEnv} (tables : Z -> list pb_field_t) (a : Z).
Notation fs := (tables a).

Lemma count_required_take l j : 0 <= count_required (take j l) <= count_required l.
Proof.
  rewrite <- (take_drop j l) at 3. unfold count_required. rewrite List.filter_app, length_app. lia.
Qed.

Lemma count_required_before l j f : l !! j = Some f -> is_required f = true -> count_required (take j l) < count_required l.
Proof.
  intros Hf Hr. pose proof (count_required_take l (S j)) as Hle. rewrite (take_S_r _ _ _ Hf), count_required_snoc, Hr in Hle. cbn in Hle. lia.
Qed.

(** Every index below the number of required fields is some field's. *)
Lemma required_onto l : forall k, 0 <= k < count_required l -> exists j f, l !! j = Some f /\ is_required f = true /\ count_required (take j l) = k.
Proof.
  induction l as [|f l IH] using rev_ind; intros k Hk; [unfold count_required in Hk; cbn in Hk; lia|].
  rewrite count_required_snoc in Hk. destruct (Z_lt_dec k (count_required l)) as [Hlt|Hge].
  - destruct (IH k ltac:(lia)) as (j & g & Hj & Hr & Hc). exists j, g. pose proof (lookup_lt_Some _ _ _ Hj).
    rewrite lookup_app_l, take_app_le by lia. done.
  - exists (length l), f. rewrite list_lookup_middle, take_app_length by done. destruct (is_required f); cbn in Hk; [|lia]. split_and!; done || lia.
Qed.

Lemma mark_seen_shape x y idx :
  0 <= x < 2 ^ 32 -> 0 <= y < 2 ^ 32 -> 0 <= idx < 64 ->
  exists x' y', mark_seen [x; y] idx = [x'; y'] /\ 0 <= x' < 2 ^ 32 /\ 0 <= y' < 2 ^ 32.
Proof.
  intros Hx Hy Hi. unfold mark_seen. rewrite shiftr_div by lia. change (2 ^ 5) with 32.
  pose proof (u32_range (Z.shiftl 1 (Z.land idx 31))) as Hb. destruct (Z_lt_dec idx 32).
  - rewrite Z.div_small by lia. eexists _, _. split; [reflexivity|]. split; [by apply lor_range|done].
  - replace (idx / 32) with 1 by (apply (Z.div_unique_pos _ _ _ (idx - 32)); lia). eexists _, _. split; [reflexivity|].
    split; [done|by apply lor_range].
Qed.

Lemma required_index_iff j i :
  required_index tables a j = Some i <->
  exists f, fs !! j = Some f /\ is_required f = true /\ count_required (take j fs) = i /\ i < 64.
Proof.
  unfold required_index, PB_MAX_REQUIRED_FIELDS. rewrite bind_Some. split; intros (f & Hf & Hi); exists f.
  - destruct (is_required f) eqn:Hr; [|done]. destruct (Z.ltb_spec (count_required (take j fs)) 64); [|done]. by injection Hi as <-.
  - destruct Hi as (Hr & <- & Hi). split; [done|]. rewrite Hr, (proj2 (Z.ltb_lt _ _)) by lia. done.
Qed.

Lemma required_index_range j i : required_index tables a j = Some i -> 0 <= i < 64 /\ i < count_required fs.
Proof.
  intros (f & Hf & Hr & <- & Hi)%required_index_iff. pose proof (count_required_take fs j). pose proof (count_required_before fs j f Hf Hr). lia.
Qed.

(** The bits after a sequence of records. *)
Lemma marks_ok rs : forall x y, 0 <= x < 2 ^ 32 -> 0 <= y < 2 ^ 32 ->
  exists x' y', foldl (fun seen r => mark tables a r seen) [x; y] rs = [x'; y'] /\ 0 <= x' < 2 ^ 32 /\ 0 <= y' < 2 ^ 32 /\
    forall k, 0 <= k < 64 -> seen_bit [x'; y'] k = true <->
      seen_bit [x; y] k = true \/ exists r, r ∈ rs /\ rec_index r ≫= required_index tables a = Some k.
Proof.
  induction rs as [|r rs IH]; intros x y Hx Hy; cbn [foldl].
  - exists x, y. split_and!; try done; try lia. intros k Hk. split; [by left|]. intros [?|(r & Hr & _)]; [done|by apply not_elem_of_nil in Hr].
  - unfold mark at 2. destruct (rec_index r ≫= required_index tables a) as [i|] eqn:Ei.
    + pose proof Ei as (j & _ & Hj)%bind_Some. apply required_index_range in Hj as [Hi _].
      destruct (mark_seen_shape x y i Hx Hy Hi) as (x1 & y1 & E1 & Hx1 & Hy1). rewrite E1.
      destruct (IH x1 y1 Hx1 Hy1) as (x' & y' & E & Hx' & Hy' & Hbits). exists x', y'. split_and!; try done; try lia.
      intros k Hk. rewrite (Hbits k Hk), <- E1, mark_seen_ok by lia. rewrite orb_true_iff, Z.eqb_eq. split.
      * intros [[->|Hs]|(r' & Hr' & E')]; [right; exists r; split; [by left|done]|by left|right; exists r'; split; [by right|done]].
      * intros [Hs|(r' & [->|Hr']%elem_of_cons & E')]; [by left; right| |right; by exists r'].
        rewrite Ei in E'. injection E' as ->. by left; left.
    + destruct (IH x y Hx Hy) as (x' & y' & E & Hx' & Hy' & Hbits). exists x', y'. split_and!; try done; try lia.
      intros k Hk. rewrite (Hbits k Hk). split; (intros [Hs|(r' & Hr' & E')]; [by left|right; exists r'; split; [|done]]); [by right|].
      apply elem_of_cons in Hr' as [->|Hr']; [by rewrite Ei in E'|done].
Qed.

Lemma marks_present rs :
  complete tables a rs <->
  required_fields_present (foldl (fun seen r => mark tables a r seen) [0; 0] rs) (Z.min 64 (count_required fs)) = true.
Proof.
  destruct (marks_ok rs 0 0 ltac:(lia) ltac:(lia)) as (x & y & -> & Hx & Hy & Hbits).
  assert (H0 : forall k, 0 <= k < 64 -> seen_bit [0; 0] k = true -> False).
  { intros k Hk. rewrite seen_bit_words by done. rewrite !Z.testbit_0_l. by destruct (_ <? _). }
  pose proof (count_required_take fs 0) as Hc. rewrite required_present_iff; [|done|done|lia|].
  2: { intros k Hk. apply not_true_iff_false. intros Hs. apply Hbits in Hs as [Hs|(r & _ & (j & _ & Hj)%bind_Some)]; [|..|lia].
       - by apply (H0 k ltac:(lia)).
       - apply required_index_range in Hj. lia. }
  split.
  - intros Hcomp k Hk. apply Hbits; [lia|]. right. destruct (required_onto fs k ltac:(lia)) as (j & f & Hf & Hr & Hcnt).
    assert (Hj : required_index tables a j = Some k) by (apply required_index_iff; exists f; split_and!; done || lia).
    destruct (Hcomp j k Hj) as (r & Hin & Ej). exists r. split; [done|]. by rewrite Ej.
  - intros Hall j i Hi. pose proof (required_index_range j i Hi) as Hr. specialize (Hall i ltac:(lia)). apply Hbits in Hall as [Hs|(r & Hin & Er)]; [|..|lia].
    + destruct (H0 i ltac:(lia) Hs).
    + exists r. split; [done|]. apply bind_Some in Er as (j' & Ej & Hi'). rewrite Ej. f_equal.
      apply required_index_iff in Hi as (f & Hf & Rf & Hi & _), Hi' as (f' & Hf' & Rf' & Hi' & _).
      destruct (lt_eq_lt_dec j j') as [[Hlt|]|Hlt]; [|done|]; exfalso.
      * pose proof (count_required_before (take j' fs) j f) as Hb. rewrite take_take, lookup_take_lt in Hb by lia.
        rewrite Nat.min_l in Hb by lia. specialize (Hb Hf Rf). lia.
      * pose proof (count_required_before (take j fs) j' f') as Hb. rewrite take_take, lookup_take_lt in Hb by lia.
        rewrite Nat.min_l in Hb by lia. specialize (Hb Hf' Rf'). lia.
Qed.

End required.

(** * Messages *)

Section messages.
Context `{PbEnv} (tables : Z -> list pb_field_t).

(** A computation with as much fuel as there is input. *)
Lemma runs_fuel {A} Q R (k : nat -> SM pb_istream_t A) a l e :
  (forall fuel, (length l < fuel)%nat -> runs Q R (k fuel) a l e) ->
  runs Q R (let* s := get in k (S (Z.to_nat (bytes_left s)))) a l e.
Proof.
  intros Hk. split; [apply (Hk (S (length l))); lia|]. intros s w m' Hq Hs Ha Hb E. cbn [bind get].
  destruct (Hk (S (Z.to_nat (bytes_left s)))) as [_ Hr]; [destruct Hs as (_ & ? & _); lia|]. by apply Hr.
Qed.

Lemma rec_bytes_nonempty n a r : rec_ok tables n a r -> (0 < length (rec_bytes tables a r))%nat.
Proof.
  assert (Ht : forall wt t l, (0 < length (tag_bytes wt t ++ l))%nat).
  { intros wt t l. rewrite length_app. pose proof (varint_length_min (8 * t + wt)). unfold tag_bytes. lia. }
  destruct n, r; cbn [rec_ok rec_bytes]; try (intros (f & -> & _); apply Ht); try done; intros _; apply Ht.
Qed.

Lemma recs_length n a rs : Forall (rec_ok tables n a) rs -> (length rs <= length (recs_bytes tables a rs))%nat.
Proof.
  unfold recs_bytes. induction 1 as [|r rs Hr _ IH]; cbn; [lia|]. rewrite length_app. pose proof (rec_bytes_nonempty n a r Hr). lia.
Qed.

Lemma schema_extent n a : schema tables n a -> 0 <= extent (tables a).
Proof.
  destruct n as [|n]; [done|]. intros [Ht _]. pose proof (table_plain tables a Ht) as Hp. clear Ht.
  induction Hp as [|f fs P _ IH]; cbn; [lia|]. pose proof (plain_stored f P). pose proof (plain_gap f P). lia.
Qed.

Lemma decode_records n : forall a dest rs,
  schema tables n a -> 0 < dest -> recs_ok tables n a rs ->
  consumes (dest, extent (tables a)) (pb_decode_noinit n a dest) tt (recs_bytes tables a rs) (recs_effect tables a dest rs).
Proof.
  induction n as [|n IH]; intros a dest rs Hs Hdest [Hc Hrs]; [done|]. cbn [schema] in Hs. destruct Hs as [Htable Hsub].
  pose proof Htable as (Hat & Hne & Hlen & _ & _). cbn [pb_decode_noinit]. unfold decode_fields.
  apply runs_with_local; [lia|]. intros fcs.
  destruct (lookup_lt_is_Some_2 (tables a) 0) as [f0 H0]; [destruct (tables a); [done|cbn; lia]|].
  apply (runs_pure _ _ _ _ (true, iter_at a dest (tables a) 0)); [intros s w; by apply (iter_begin_ok a dest _ Hat f0)|]. cbv beta iota.
  apply (runs_fuel _ _ (fun fuel => let* st := loop fuel (decode_one_field (pb_decode_noinit n) n fcs) (mk_state [0; 0] 0 (iter_at a dest (tables a) 0) NULL) in _)).
  intros fuel Hf. pose proof (recs_length (S n) a rs Hrs).
  destruct (updates_records (pb_decode_noinit n) n tables a dest Htable Hdest n fcs rs) with (fuel := fuel)
    (st := mk_state [0; 0] 0 (iter_at a dest (tables a) 0) NULL) (seen := [0; 0]) as (st & Hrun & (i & Hi & Ei) & Hfix & Hseen).
  - intros f p rs' Hf' Hsm Hp Hc' Hrs'. apply list_elem_of_lookup in Hf' as (j & Hj).
    destruct (Forall_lookup_1 _ _ _ _ Hsub Hj Hsm) as [_ Hsch]. by apply IH.
  - clear -Hsub. induction Hsub as [|f fs Hf _ IHf]; constructor; [|done]. intros Hsm. destruct (Hf Hsm) as [Hle Hsch]. split; [done|].
    by apply (schema_extent n).
  - done.
  - split; [exists 0%nat; split; [by apply lookup_lt_Some in H0|done]|done].
  - lia.
  - apply (runs_then_pure _ _ _ _ st); [exact Hrun|]. intros s w. cbn [bind]. rewrite Hfix. unfold fixed_count_complete.
    change (NULL =? NULL) with true. cbn [ret negb bind]. rewrite Ei, (count_required_ok a dest _ Hat) by done. cbn [bind]. rewrite Hseen.
    rewrite (proj1 (marks_present tables a rs) Hc). done.
Qed.

End messages.
