(* ===== verification/PbValue.v ===== *)
(** The value of a message in memory, as the records it stands for: the present fields with
    their items, in the order of the table.  A string ends at its first zero and must have
    one; a [bool] is read as zero or one. *)
From stdpp Require Import base gmap list strings numbers option.
From Stdlib Require Import ZArith Lia.
From S2P Require Import Prelude Cmem Hoare PbTypes PbWire PbEncode PbEncodeSpec PbEncodeThms PbIstream PbDecode PbFields PbDecodeThms PbItems PbDecodeRecords.

(** A string with its terminator. *)
Fixpoint c_string (l : list Z) : option (list Z) :=
  match l with
  | [] => None
  | b :: l => if b =? 0 then Some [0] else s ← c_string l; Some (b :: s)
  end.

Section value.
Variable m : memory.

Definition item_value (f : pb_field_t) (p : Z) : option (list Z) :=
  let ltype := PB_LTYPE (type_ f) in
  if ltype =? PB_LTYPE_BOOL then l ← mem_load m p 1; Some [b2z (negb (le_val l =? 0))]
  else if (ltype =? PB_LTYPE_VARINT) || (ltype =? PB_LTYPE_UVARINT) || (ltype =? PB_LTYPE_SVARINT)
          || (ltype =? PB_LTYPE_FIXED32) || (ltype =? PB_LTYPE_FIXED64) || (ltype =? PB_LTYPE_FIXED_LENGTH_BYTES)
  then mem_load m p (Z.to_nat (data_size f))
  else if ltype =? PB_LTYPE_BYTES then
    n ← mem_load m p 4;
    if 4 + le_val n <=? data_size f then l ← mem_load m (p + 4) (Z.to_nat (le_val n)); Some (n ++ l) else None
  else if ltype =? PB_LTYPE_STRING then l ← mem_load m p (Z.to_nat (data_size f)); c_string l
  else None.

Fixpoint items_value (f : pb_field_t) (p : Z) (n : nat) : option (list (list Z)) :=
  match n with
  | O => Some []
  | S n => v ← item_value f p; vs ← items_value f (p + data_size f) n; Some (v :: vs)
  end.

(** The default of proto3: an item that is not sent. *)
Definition is_default (f : pb_field_t) (v : list Z) : bool :=
  let ltype := PB_LTYPE (type_ f) in
  if ltype =? PB_LTYPE_BYTES then le_val (take 4 v) =? 0
  else if ltype =? PB_LTYPE_STRING then (length v =? 1)%nat
  else if ltype =? PB_LTYPE_FIXED_LENGTH_BYTES then data_size f =? 0
  else forallb (fun b => b =? 0) v.

Definition is_packable (f : pb_field_t) : bool := PB_LTYPE (type_ f) <=? PB_LTYPE_LAST_PACKABLE.

(** The records of one field, whose data is at [p]; [sub] gives those of a submessage. *)
Definition field_value (sub : Z -> Z -> option (list record)) (j : nat) (f : pb_field_t) (p : Z) : option (list record) :=
  if is_repeated f then
    n ← mem_load m (size_of f p) 4;
    if array_size f <? le_val n then None
    else
      vs ← items_value f p (Z.to_nat (le_val n));
      Some (if is_packable f then match vs with [] => [] | _ => [packed j vs] end else item j <$> vs)
  else
    present ← (if is_optional f && has_size f then l ← mem_load m (size_of f p) 1; Some (negb (le_val l =? 0)) else Some true);
    if negb present then Some []
    else if is_submessage f then rs ← sub (ptr f) p; Some [nested j rs]
    else
      v ← item_value f p;
      Some (if is_optional f && negb (has_size f) && is_default f v then [] else [item j v]).

(** The records of the fields from the [j]-th on. *)
Fixpoint fields_value (g : nat -> pb_field_t -> option (list record)) (j : nat) (fs : list pb_field_t) : option (list record) :=
  match fs with
  | [] => Some []
  | f :: fs => r ← g j f; rs ← fields_value g (S j) fs; Some (r ++ rs)
  end.

Fixpoint message_value (tables : Z -> list pb_field_t) (n : nat) (a p : Z) : option (list record) :=
  match n with
  | O => None
  | S n => fields_value (fun j f => field_value (message_value tables n) j f (p + field_start (tables a) j)) 0 (tables a)
  end.

End value.

(** * Items *)

Lemma c_string_ok l v : c_string l = Some v -> exists s r, v = s ++ [0] /\ l = s ++ 0 :: r /\ 0 ∉ s.
Proof.
  revert v. induction l as [|b l IH]; intros v; cbn; [done|]. destruct (Z.eqb_spec b 0) as [->|Hb].
  - intros [= <-]. exists [], l. split; [done|]. split; [done|]. apply not_elem_of_nil.
  - intros (s' & Hs & [= <-])%bind_Some. destruct (IH s' Hs) as (s & r & -> & -> & Hz). exists (b :: s), r.
    split; [done|]. split; [done|]. apply not_elem_of_cons. split; [by intros <-|done].
Qed.

Lemma c_string_some s r : 0 ∉ s -> c_string (s ++ 0 :: r) = Some (s ++ [0]).
Proof.
  induction s as [|b s IH]; intros Hs; [done|]. apply not_elem_of_cons in Hs as [Hb Hs]. cbn.
  rewrite (proj2 (Z.eqb_neq b 0)) by (by intros ->). by rewrite IH.
Qed.

Definition byte_mem (m : memory) : Prop := forall a b, m !! a = Some b -> is_byte b.

Lemma mem_load_bytes m p n l : byte_mem m -> mem_load m p n = Some l -> is_bytes l.
Proof.
  intros Hm. revert p l. induction n as [|n IH]; intros p l; cbn; [by intros [= <-]|].
  destruct (m !! p) as [b|] eqn:Eb; [|done]. destruct (mem_load m (p + 1) n) eqn:E; [|done]. intros [= <-].
  constructor; [by apply (Hm p)|by apply (IH (p + 1))].
Qed.

Lemma item_value_canonical m f p v : byte_mem m -> item_type_ok f = true -> item_value m f p = Some v -> canonical f v.
Proof.
  intros Hm Hi. unfold item_type_ok in Hi. unfold item_value.
  destruct (Z.eqb_spec (PB_LTYPE (type_ f)) PB_LTYPE_BOOL) as [E|_].
  { intros (l & Hl & [= <-])%bind_Some. apply canonical_bool; [done|lia]. }
  destruct (Z.eqb_spec (PB_LTYPE (type_ f)) PB_LTYPE_VARINT) as [E|_].
  { cbn [orb] in *. intros Hl. pose proof (int_size_pos _ Hi). apply canonical_int; [by left|done| |by apply (mem_load_bytes m p _ _ Hm Hl)].
    rewrite (mem_load_length _ _ _ _ Hl). lia. }
  destruct (Z.eqb_spec (PB_LTYPE (type_ f)) PB_LTYPE_UVARINT) as [E|_].
  { cbn [orb] in *. intros Hl. pose proof (int_size_pos _ Hi). apply canonical_int; [by right; left|done| |by apply (mem_load_bytes m p _ _ Hm Hl)].
    rewrite (mem_load_length _ _ _ _ Hl). lia. }
  destruct (Z.eqb_spec (PB_LTYPE (type_ f)) PB_LTYPE_SVARINT) as [E|_].
  { cbn [orb] in *. intros Hl. pose proof (int_size_pos _ Hi). apply canonical_int; [by right; right|done| |by apply (mem_load_bytes m p _ _ Hm Hl)].
    rewrite (mem_load_length _ _ _ _ Hl). lia. }
  destruct (Z.eqb_spec (PB_LTYPE (type_ f)) PB_LTYPE_FIXED32) as [E|_].
  { cbn [orb] in *. intros Hl. pose proof (mem_load_length _ _ _ _ Hl). apply canonical_fixed32; [done|lia|lia|by apply (mem_load_bytes m p _ _ Hm Hl)]. }
  destruct (Z.eqb_spec (PB_LTYPE (type_ f)) PB_LTYPE_FIXED64) as [E|_].
  { cbn [orb] in *. intros Hl. pose proof (mem_load_length _ _ _ _ Hl). apply canonical_fixed64; [done|lia|lia|by apply (mem_load_bytes m p _ _ Hm Hl)]. }
  cbn [orb] in *. destruct (Z.eqb_spec (PB_LTYPE (type_ f)) PB_LTYPE_FIXED_LENGTH_BYTES) as [E|_].
  { rewrite E in Hi. cbn in Hi. intros Hl. pose proof (mem_load_length _ _ _ _ Hl). apply canonical_fixed_length; [done|lia|lia]. }
  destruct (Z.eqb_spec (PB_LTYPE (type_ f)) PB_LTYPE_BYTES) as [E|_].
  { intros (n & Hn & Hv)%bind_Some. destruct (Z.leb_spec (4 + le_val n) (data_size f)); [|done].
    apply bind_Some in Hv as (l & Hl & [= <-]). pose proof (mem_load_length _ _ _ _ Hn). pose proof (mem_load_length _ _ _ _ Hl).
    pose proof (mem_load_bytes m _ _ _ Hm Hn) as Hb. pose proof (le_val_range n Hb).
    rewrite <- (fixed_bytes 4 n) by done. replace (le_val n) with (Z.of_nat (length l)) by lia. apply canonical_bytes; [done|lia]. }
  destruct (Z.eqb_spec (PB_LTYPE (type_ f)) PB_LTYPE_STRING) as [E|_]; [|done].
  intros (l & Hl & Hs)%bind_Some. destruct (c_string_ok l v Hs) as (s & r & -> & -> & Hz). pose proof (mem_load_length _ _ _ _ Hl) as Hln.
  rewrite length_app in Hln. cbn in Hln. apply canonical_string; [done|lia|done].
Qed.

Lemma mem_load_exists m p n : (forall a, p <= a < p + Z.of_nat n -> is_Some (m !! a)) -> exists l, mem_load m p n = Some l.
Proof.
  revert p. induction n as [|n IH]; intros p Hm; [by exists []|]. cbn. destruct (Hm p) as [b ->]; [lia|].
  destruct (IH (p + 1)) as [l ->]; [intros a Ha; apply Hm; lia|]. by exists (b :: l).
Qed.

Lemma mem_load_prefix m p n v :
  mem_load m p (length v) = Some v -> (length v <= n)%nat -> (forall a, p <= a < p + Z.of_nat n -> is_Some (m !! a)) ->
  exists r, mem_load m p n = Some (v ++ r).
Proof.
  intros Hv Hn Hm. destruct (mem_load_exists m (p + Z.of_nat (length v)) (n - length v)) as [r Hr]; [intros a Ha; apply Hm; lia|].
  exists r. pose proof (mem_load_length _ _ _ _ Hr) as Hl. replace n with (length (v ++ r)) by (rewrite length_app; lia).
  apply mem_load_app. split; [done|]. by rewrite Hl.
Qed.

(** An item that has been stored. *)
Lemma item_stored m f p v :
  canonical f v -> mem_load m p (length v) = Some v -> (forall a, p <= a < p + data_size f -> is_Some (m !! a)) ->
  item_value m f p = Some v.
Proof.
  intros Hv Hl Hm. pose proof (canonical_length f v Hv) as Hle. unfold item_value.
  destruct Hv as [b E Hs|v E Hs Hlen _|v E Hs Hlen _|v E Hs Hlen _|l E Hlen|l E Hlen Hz|l E Hlen Hs].
  - rewrite E. cbn [length] in Hl. change (mem_load m p 1 = Some [b2z b]) in Hl. cbn [Z.eqb PB_LTYPE_BOOL]. rewrite Hl. cbn. by destruct b.
  - assert (Hlen' : length v = Z.to_nat (data_size f)) by lia. rewrite Hlen' in Hl. destruct E as [E|[E|E]]; rewrite E; exact Hl.
  - rewrite E, Hs. by rewrite Hlen in Hl.
  - rewrite E, Hs. by rewrite Hlen in Hl.
  - rewrite E. apply mem_load_app in Hl as [H1 H2]. rewrite le_bytes_length in H1, H2.
    change (mem_load m p 4 ≫= (fun n => if 4 + le_val n <=? data_size f then
              mem_load m (p + 4) (Z.to_nat (le_val n)) ≫= (fun l0 => Some (n ++ l0)) else None) = Some (le_bytes 4 (Z.of_nat (length l)) ++ l)).
    rewrite H1. cbn [mbind option_bind]. rewrite le_val_le_bytes by (change (256 ^ Z.of_nat 4) with (2 ^ 32); lia).
    rewrite (proj2 (Z.leb_le _ _)) by lia. rewrite Nat2Z.id. change (Z.of_nat 4) with 4 in H2. by rewrite H2.
  - rewrite E. change (mem_load m p (Z.to_nat (data_size f)) ≫= c_string = Some (l ++ [0])).
    destruct (mem_load_prefix m p (Z.to_nat (data_size f)) (l ++ [0]) Hl) as (r & Hr); [lia|intros a Ha; apply Hm; lia|].
    rewrite Hr. cbn [mbind option_bind]. rewrite <- app_assoc. by apply c_string_some.
  - rewrite E. by rewrite <- Hlen, Nat2Z.id.
Qed.

(** * Fields *)

(** The records of a message, field by field. *)
Lemma fields_value_iff g fs : forall j rs,
  fields_value g j fs = Some rs <->
  exists L, rs = List.concat L /\ length L = length fs /\
    forall i f, fs !! i = Some f -> exists r, L !! i = Some r /\ g (j + i)%nat f = Some r.
Proof.
  induction fs as [|f fs IH]; intros j rs; cbn [fields_value].
  - split.
    + intros [= <-]. by exists [].
    + intros (L & -> & Hl & _). destruct L; [done|discriminate Hl].
  - rewrite bind_Some. split.
    + intros (r & Hr & (rs' & Hrs & [= <-])%bind_Some). apply IH in Hrs as (L & -> & Hl & HL). exists (r :: L).
      split; [done|]. split; [cbn; lia|]. intros [|i] f' Hf'; cbn in Hf'.
      * injection Hf' as <-. exists r. by rewrite Nat.add_0_r.
      * destruct (HL i f' Hf') as (r' & Hr' & Hg). exists r'. split; [done|]. by rewrite <- Nat.add_succ_comm.
    + intros (L & -> & Hl & HL). destruct L as [|r L]; [discriminate Hl|]. destruct (HL 0%nat f eq_refl) as (r' & [= <-] & Hg).
      rewrite Nat.add_0_r in Hg. exists r. split; [done|]. apply bind_Some. exists (List.concat L). split; [|done]. apply IH. exists L.
      split; [done|]. split; [cbn in Hl; lia|]. intros i f' Hf'. destruct (HL (S i) f' Hf') as (r' & Hr' & Hg'). exists r'.
      split; [done|]. by rewrite Nat.add_succ_comm.
Qed.

Section fields.
Context `{PbEnv} (tables : Z -> list pb_field_t).

Lemma items_value_iff m f n : forall p vs,
  items_value m f p n = Some vs <->
  length vs = n /\ forall i v, vs !! i = Some v -> item_value m f (p + data_size f * Z.of_nat i) = Some v.
Proof.
  induction n as [|n IH]; intros p vs; cbn [items_value].
  - split; [intros [= <-]; split; [done|]; intros i v Hv; by rewrite lookup_nil in Hv|]. intros [Hl _]. by destruct vs.
  - rewrite bind_Some. split.
    + intros (v & Hv & (vs' & Hvs & [= <-])%bind_Some). apply IH in Hvs as [Hl Hvs]. split; [cbn; lia|].
      intros [|i] v' Hi; cbn in Hi; [injection Hi as <-; by rewrite Z.mul_0_r, Z.add_0_r|].
      rewrite <- (Hvs i v' Hi). f_equal. lia.
    + intros [Hl Hvs]. destruct vs as [|v vs]; [done|]. exists v. split.
      { rewrite <- (Hvs 0%nat v eq_refl). f_equal. lia. }
      apply bind_Some. exists vs. split; [|done]. apply IH. split; [cbn in Hl; lia|]. intros i v' Hi.
      rewrite <- (Hvs (S i) v' Hi). f_equal. lia.
Qed.

(** The records of a well-formed message are well formed. *)
Lemma items_canonical m f n p vs :
  byte_mem m -> item_type_ok f = true -> items_value m f p n = Some vs -> Forall (canonical f) vs.
Proof.
  intros Hm Hi [_ Hvs]%items_value_iff. apply List.Forall_forall. intros v Hv%list_elem_of_In. apply list_elem_of_lookup in Hv as (i & Hv).
  by apply (item_value_canonical m f _ v Hm Hi (Hvs i v Hv)).
Qed.

Lemma recs_bytes_cons a r rs : recs_bytes tables a (r :: rs) = rec_bytes tables a r ++ recs_bytes tables a rs.
Proof. done. Qed.

Lemma recs_bytes_app a rs1 rs2 : recs_bytes tables a (rs1 ++ rs2) = recs_bytes tables a rs1 ++ recs_bytes tables a rs2.
Proof. unfold recs_bytes. by rewrite List.map_app, List.concat_app. Qed.

Lemma recs_bytes_part a L j r : L !! j = Some r -> (length (recs_bytes tables a r) <= length (recs_bytes tables a (List.concat L)))%nat.
Proof.
  intros Hr. rewrite <- (take_drop_middle L j r Hr), List.concat_app. cbn [List.concat]. rewrite !recs_bytes_app, !length_app. lia.
Qed.

(** A record of field [j]. *)
Definition of_field (j : nat) (r : record) : Prop := rec_index r = Some j.

Lemma field_value_ok m n a j f p r :
  byte_mem m -> tables a !! j = Some f -> plain f ->
  (forall q rs, is_submessage f = true -> message_value m tables n (ptr f) q = Some rs ->
     Z.of_nat (length (recs_bytes tables (ptr f) rs)) < 2 ^ 32 -> recs_ok tables n (ptr f) rs) ->
  field_value m (message_value m tables n) j f p = Some r ->
  Z.of_nat (length (recs_bytes tables a r)) < 2 ^ 32 ->
  Forall (rec_ok tables (S n) a) r /\ (is_required f = true -> exists x, x ∈ r /\ of_field j x) /\ Forall (of_field j) r.
Proof.
  intros Hm Hf P Hsub Hv Hlen. unfold field_value in Hv. destruct (is_repeated f) eqn:Hrep.
  - assert (Hreq : is_required f = false).
    { unfold is_repeated, is_required in *. apply Z.eqb_eq in Hrep. by rewrite Hrep. }
    rewrite Hreq. apply bind_Some in Hv as (c & Hc & Hv). destruct (_ <? _); [done|]. apply bind_Some in Hv as (vs & Hvs & [= <-]).
    apply (items_canonical m f _ _ _ Hm (plain_item f P)) in Hvs. destruct (is_packable f) eqn:Hp.
    + destruct vs as [|v vs]; [by repeat split|]. split; [|by repeat split; repeat constructor]. apply Forall_singleton.
      exists f. split; [done|]. split; [done|]. split; [by apply Z.leb_le|]. split; [done|].
      rewrite recs_bytes_cons, length_app in Hlen. cbn [rec_bytes] in Hlen. rewrite Hf in Hlen. unfold length_delimited in Hlen. rewrite !length_app in Hlen. lia.
    + split; [|split; [done|]]; apply List.Forall_forall; intros x Hx%list_elem_of_In; apply list_elem_of_fmap in Hx as (v & -> & Hv); [|done].
      exists f. split; [done|]. apply list_elem_of_In in Hv. by apply (proj1 (List.Forall_forall _ _) Hvs).
  - apply bind_Some in Hv as (present & Hpres & Hv). destruct present; cbn [negb] in Hv.
    2: { injection Hv as <-. split; [done|]. split; [|done]. intros Hreq. destruct (is_optional f) eqn:Ho; [|done].
         unfold is_optional, is_required in *. apply Z.eqb_eq in Ho. by rewrite Ho in Hreq. }
    destruct (is_submessage f) eqn:Hs.
    + apply bind_Some in Hv as (rs & Hrs & [= <-]).
      rewrite recs_bytes_cons, length_app in Hlen. cbn [rec_bytes] in Hlen. rewrite Hf in Hlen. unfold length_delimited in Hlen. rewrite !length_app in Hlen.
      fold (recs_bytes tables (ptr f) rs) in Hlen. assert (Hl : Z.of_nat (length (recs_bytes tables (ptr f) rs)) < 2 ^ 32) by lia.
      destruct (Hsub _ _ eq_refl Hrs Hl) as [Hc Hok]. split.
      * apply Forall_singleton. exists f. by split_and!.
      * split; [intros _; exists (nested j rs); split; [by left|done]|by repeat constructor].
    + apply bind_Some in Hv as (v & Hv & [= <-]). pose proof (item_value_canonical m f p v Hm (plain_item f P) Hv) as Hcan.
      destruct (is_optional f && _ && _) eqn:Hd.
      * split; [done|]. split; [|done]. intros Hreq. destruct (is_optional f) eqn:Ho; [|done].
        unfold is_optional, is_required in *. apply Z.eqb_eq in Ho. by rewrite Ho in Hreq.
      * split; [apply Forall_singleton; by exists f|]. split; [intros _; exists (item j v); split; [by left|done]|by repeat constructor].
Qed.

(** The value of a message, one record list per field. *)
Lemma message_value_iff m n a p rs :
  message_value m tables (S n) a p = Some rs <->
  exists L, rs = List.concat L /\ length L = length (tables a) /\
    forall j f, tables a !! j = Some f ->
      exists r, L !! j = Some r /\ field_value m (message_value m tables n) j f (p + field_start (tables a) j) = Some r.
Proof. cbn [message_value]. by rewrite fields_value_iff. Qed.

Lemma message_value_ok m n : forall a p rs,
  byte_mem m -> schema tables n a -> message_value m tables n a p = Some rs ->
  Z.of_nat (length (recs_bytes tables a rs)) < 2 ^ 32 -> recs_ok tables n a rs.
Proof.
  induction n as [|n IH]; intros a p rs Hm Hs Hv Hlen; [done|]. destruct Hs as [Ht Hsub].
  apply message_value_iff in Hv as (L & -> & Hl & HL).
  assert (Hfield : forall j f r, tables a !! j = Some f -> L !! j = Some r ->
            Forall (rec_ok tables (S n) a) r /\ (is_required f = true -> exists x, x ∈ r /\ of_field j x)).
  { intros j f r Hf Hr. destruct (HL j f Hf) as (r' & Hr' & Hg). rewrite Hr in Hr'. injection Hr' as <-.
    pose proof (Forall_lookup_1 _ _ _ _ (table_plain tables a Ht) Hf) as P.
    destruct (field_value_ok m n a j f (p + field_start (tables a) j) r Hm Hf P) as (H1 & H2 & _); [|exact Hg| |done].
    - intros q rs Hsm Hrs Hrl. destruct (Forall_lookup_1 _ _ _ _ Hsub Hf Hsm) as [_ Hsch]. by apply (IH _ q).
    - pose proof (recs_bytes_part a L j r Hr). lia. }
  split.
  - intros j i (f & Hf & Hr & _)%required_index_iff. destruct (HL j f Hf) as (r & Hj & _).
    destruct (Hfield j f r Hf Hj) as [_ Hx]. destruct (Hx Hr) as (x & Hx1 & Hx2). exists x. split; [|done].
    apply list_elem_of_In, in_concat. exists r. split; [by apply list_elem_of_In, (list_elem_of_lookup_2 _ j)|by apply list_elem_of_In].
  - apply List.Forall_forall. intros x Hx. apply in_concat in Hx as (r & Hr & Hx). apply list_elem_of_In in Hr. apply list_elem_of_lookup in Hr as (j & Hj).
    destruct (lookup_lt_is_Some_2 (tables a) j) as [f Hf]; [rewrite <- Hl; by apply lookup_lt_Some in Hj|].
    destruct (Hfield j f r Hf Hj) as [Hok _]. by apply (proj1 (List.Forall_forall _ _) Hok).
Qed.

End fields.
