(* ===== verification/PbStore.v ===== *)
(** Storing the records of a message into a struct with default values gives a struct with
    the same value, and [pb_message_set_to_defaults] gives such a struct. *)
From stdpp Require Import base gmap list strings numbers option.
From Stdlib Require Import ZArith Lia.
From S2P Require Import Prelude Cmem Hoare PbTypes PbEncode PbWire PbIstream PbDecode PbFields PbDecodeThms PbItems PbDecodeRecords PbValue.

(** * Regions *)

Definition live (R : Z * Z) (m : memory) : Prop := forall a, inside R a -> is_Some (m !! a).
Definition same_in (R : Z * Z) (m m' : memory) : Prop := forall a, inside R a -> m' !! a = m !! a.

(** The gap in front of a field's data and the data. *)
Definition field_region (f : pb_field_t) (p : Z) : Z * Z := (p - data_offset f, data_offset f + stored_size f).

Lemma live_effect R R' e m m' : local_effect R' e -> e m = Some m' -> live R m -> live R m'.
Proof.
  intros He E Hl a Ha. apply elem_of_dom. rewrite (effect_dom R' e He m m' E). by apply elem_of_dom, Hl.
Qed.

Lemma live_within R p n m : within R p n -> live R m -> live (p, n) m.
Proof. intros Hw Hl a Ha. apply Hl. unfold inside, within in *. cbn in *. lia. Qed.

Lemma same_within R p n m m' : within R p n -> same_in R m m' -> same_in (p, n) m m'.
Proof. intros Hw Hs a Ha. apply Hs. unfold inside, within in *. cbn in *. lia. Qed.

(** An effect on another region. *)
Lemma same_apart R R' e m m' :
  local_effect R e -> e m = Some m' -> (forall a, inside R a -> inside R' a -> False) -> same_in R' m m'.
Proof. intros He E Hd a Ha. apply (effect_out R e He m m' a E). intros Ha'. by apply (Hd a). Qed.

Lemma mem_load_same m m' p n : same_in (p, Z.of_nat n) m m' -> mem_load m' p n = mem_load m p n.
Proof. intros Hs. apply mem_load_eq. intros a Ha. apply Hs. by unfold inside. Qed.

Lemma put_live m p l : live (p, Z.of_nat (length l)) m -> exists m', put p l m = Some m' /\ mem_load m' p (length l) = Some l /\
  forall a, ~ (p <= a < p + Z.of_nat (length l)) -> m' !! a = m !! a.
Proof.
  intros Hl. destruct (mem_store_some m p l Hl) as [m' E]. exists m'. split; [done|]. split; [by apply (mem_load_store m)|].
  intros a Ha. by apply (mem_store_lookup_ne _ _ _ _ _ E).
Qed.

(** * Values depend on their own bytes *)

Lemma item_value_ext m m' f p :
  item_type_ok f = true -> same_in (p, data_size f) m m' -> item_value m' f p = item_value m f p.
Proof.
  intros Hi Hs. unfold item_type_ok in Hi. unfold item_value.
  assert (Hload : forall n q, p <= q -> q + Z.of_nat n <= p + data_size f -> mem_load m' q n = mem_load m q n).
  { intros n q Hq Hn. apply mem_load_same. intros a Ha. apply Hs. unfold inside in *. cbn in *. lia. }
  assert (Hall : mem_load m' p (Z.to_nat (data_size f)) = mem_load m p (Z.to_nat (data_size f))).
  { destruct (Z_le_dec 0 (data_size f)); [apply Hload; lia|]. by replace (Z.to_nat (data_size f)) with 0%nat by lia. }
  destruct (Z.eqb_spec (PB_LTYPE (type_ f)) PB_LTYPE_BOOL) as [E|_]; [rewrite Hload by lia; done|].
  rewrite Hall. destruct (_ || _ || _ || _ || _ || _); [done|].
  destruct (Z.eqb_spec (PB_LTYPE (type_ f)) PB_LTYPE_BYTES) as [E|_]; [|done].
  rewrite E in Hi. cbn in Hi. rewrite (Hload 4%nat) by lia. destruct (mem_load m p 4) as [n|]; [|done]. cbn.
  destruct (Z.leb_spec (4 + le_val n) (data_size f)); [|done].
  destruct (Z_le_dec 0 (le_val n)); [by rewrite Hload by lia|]. by replace (Z.to_nat (le_val n)) with 0%nat by lia.
Qed.

Lemma items_value_ext m m' f p n :
  item_type_ok f = true -> same_in (p, data_size f * Z.of_nat n) m m' -> items_value m' f p n = items_value m f p n.
Proof.
  intros Hi. pose proof (item_size_nonneg f Hi). revert p. induction n as [|n IH]; intros p Hs; [done|]. cbn [items_value].
  rewrite (item_value_ext m m'); [|done|apply (same_within (p, data_size f * Z.of_nat (S n))); [unfold within; cbn; nia|done]].
  rewrite IH; [done|]. apply (same_within (p, data_size f * Z.of_nat (S n))); [unfold within; cbn; nia|done].
Qed.

Section store.
Context `{PbEnv} (tables : Z -> list pb_field_t).

(** A field, and a message, with default values. *)
Definition blank_field (sub : Z -> Z -> Prop) (m : memory) (f : pb_field_t) (p : Z) : Prop :=
  if is_repeated f then mem_load m (size_of f p) 4 = Some (le_bytes 4 0)
  else
    (is_optional f && has_size f = true -> mem_load m (size_of f p) 1 = Some [0]) /\
    if is_submessage f then sub (ptr f) p
    else mem_load m p (Z.to_nat (data_size f)) = Some (repeat 0 (Z.to_nat (data_size f))).

Fixpoint blank (m : memory) (n : nat) (a p : Z) : Prop :=
  match n with
  | O => False
  | S n => forall j f, tables a !! j = Some f -> blank_field (blank m n) m f (p + field_start (tables a) j)
  end.

(** Where the parts of a field are. *)
Lemma field_parts f p : plain f ->
  within (field_region f p) p (stored_size f) /\
  (is_optional f && has_size f = true -> within (field_region f p) (size_of f p) 1 /\ size_of f p + 1 <= p) /\
  (is_repeated f = true -> within (field_region f p) (size_of f p) 4 /\ size_of f p + 4 <= p).
Proof.
  intros P. pose proof (plain_gap f P). pose proof (plain_stored f P) as (? & _). unfold within, field_region, size_of. cbn.
  split; [lia|]. unfold is_optional, is_repeated, has_size.
  destruct (plain_presence f P) as [E|E E0|E ?|E ? ? ? ? ?]; rewrite E; cbn [Z.eqb]; split; try done; lia.
Qed.

Lemma field_value_ext m m' sub sub' j f p :
  plain f -> same_in (field_region f p) m m' -> (is_submessage f = true -> sub' (ptr f) p = sub (ptr f) p) ->
  field_value m' sub' j f p = field_value m sub j f p.
Proof.
  intros P Hs Hsub. destruct (field_parts f p P) as (Hw & Ho & Hr). pose proof (plain_stored f P) as (Hst & Hs1 & Hs2).
  unfold field_value. destruct (is_repeated f) eqn:Hrep.
  - destruct (Hr eq_refl) as [Hw4 _]. rewrite (mem_load_same m m' (size_of f p) 4) by (by apply (same_within _ _ _ _ _ Hw4)).
    destruct (mem_load m (size_of f p) 4) as [n|]; [|done]. cbn. destruct (Z.ltb_spec (array_size f) (le_val n)); [done|].
    rewrite (items_value_ext m m' f p); [done|apply (plain_item f P)|]. rewrite (Hs2 eq_refl) in Hw.
    apply (same_within (field_region f p)); [unfold within in *; cbn in *; nia|done].
  - rewrite (Hs1 eq_refl) in Hw.
    assert (E1 : is_optional f && has_size f = true -> mem_load m' (size_of f p) 1 = mem_load m (size_of f p) 1).
    { intros Hos. destruct (Ho Hos) as [Hw1 _]. apply mem_load_same. by apply (same_within _ _ _ _ _ Hw1). }
    assert (E2 : item_value m' f p = item_value m f p) by (apply item_value_ext; [apply (plain_item f P)|by apply (same_within _ _ _ _ _ Hw)]).
    destruct (is_optional f && has_size f); [rewrite E1 by done|]; rewrite E2; (destruct (is_submessage f); [rewrite Hsub by done|]); done.
Qed.

Lemma blank_field_ext m m' (sub sub' : Z -> Z -> Prop) f p :
  plain f -> same_in (field_region f p) m m' -> (is_submessage f = true -> sub (ptr f) p -> sub' (ptr f) p) ->
  blank_field sub m f p -> blank_field sub' m' f p.
Proof.
  intros P Hs Hsub. destruct (field_parts f p P) as (Hw & Ho & Hr). pose proof (plain_stored f P) as (Hst & Hs1 & Hs2).
  unfold blank_field. destruct (is_repeated f) eqn:Hrep.
  - destruct (Hr eq_refl) as [Hw4 _]. by rewrite (mem_load_same m m' (size_of f p) 4) by (by apply (same_within _ _ _ _ _ Hw4)).
  - intros [H1 H2]. rewrite (Hs1 eq_refl) in Hw. split.
    + intros Hos. destruct (Ho Hos) as [Hw1 _]. rewrite (mem_load_same m m' (size_of f p) 1); [by apply H1|by apply (same_within _ _ _ _ _ Hw1)].
    + destruct (is_submessage f); [by apply Hsub|]. rewrite (mem_load_same m m'); [done|]. rewrite Z2Nat.id by lia. by apply (same_within _ _ _ _ _ Hw).
Qed.

(** The region of a field is inside of the struct, apart from the others'. *)
Lemma region_within dest fs j f :
  Forall plain fs -> fs !! j = Some f ->
  let R := field_region f (dest + field_start fs j) in within (dest, extent fs) R.1 R.2.
Proof.
  intros Hp Hf R. pose proof (Forall_lookup_1 _ _ _ _ Hp Hf) as P. destruct (field_start_bounds fs j f Hp Hf).
  unfold R, field_region, within. cbn. lia.
Qed.

Lemma field_start_lt fs : Forall plain fs -> forall k j f g,
  fs !! j = Some f -> fs !! k = Some g -> (j < k)%nat -> field_start fs j + stored_size f <= field_start fs k - data_offset g.
Proof.
  intros Hp. induction k as [|k IH]; intros j f g Hf Hg Hjk; [lia|].
  destruct (lookup_lt_is_Some_2 fs k) as [h Hh]; [apply lookup_lt_Some in Hg; lia|].
  rewrite (field_start_succ fs k h g) by done. destruct (decide (j = k)) as [->|Hne].
  - rewrite Hh in Hf. injection Hf as ->. lia.
  - pose proof (IH j f h Hf Hh ltac:(lia)). pose proof (Forall_lookup_1 _ _ _ _ Hp Hh) as P.
    pose proof (plain_stored h P). pose proof (plain_gap h P). lia.
Qed.

Lemma regions_apart dest fs j k f g a :
  Forall plain fs -> fs !! j = Some f -> fs !! k = Some g -> j <> k ->
  inside (field_region f (dest + field_start fs j)) a -> inside (field_region g (dest + field_start fs k)) a -> False.
Proof.
  intros Hp Hf Hg Hne. unfold inside, field_region. cbn. destruct (lt_eq_lt_dec j k) as [[Hlt|]|Hlt]; [|done|].
  - pose proof (field_start_lt fs Hp k j f g Hf Hg Hlt). lia.
  - pose proof (field_start_lt fs Hp j k g f Hg Hf Hlt). lia.
Qed.

Lemma fields_value_ext g g' fs : forall j,
  (forall i f, fs !! i = Some f -> g (j + i)%nat f = g' (j + i)%nat f) -> fields_value g j fs = fields_value g' j fs.
Proof.
  induction fs as [|f fs IH]; intros j Hg; [done|]. cbn [fields_value]. pose proof (Hg 0%nat f eq_refl) as H0. rewrite Nat.add_0_r in H0.
  rewrite H0. rewrite (IH (S j)); [done|]. intros i f' Hf'. rewrite Nat.add_succ_comm. by apply (Hg (S i)).
Qed.

Lemma message_value_ext n : forall a p m m',
  schema tables n a -> same_in (p, extent (tables a)) m m' -> message_value m' tables n a p = message_value m tables n a p.
Proof.
  induction n as [|n IH]; intros a p m m' Hs Hsame; [done|]. cbn [schema message_value] in *. destruct Hs as [Ht Hsub].
  pose proof (table_plain tables a Ht) as Hp. apply fields_value_ext. intros j f Hf. cbn [Nat.add].
  pose proof (Forall_lookup_1 _ _ _ _ Hp Hf) as P. pose proof (region_within p (tables a) j f Hp Hf) as Hw. cbv zeta in Hw.
  apply field_value_ext; [done|by apply (same_within _ _ _ _ _ Hw)|].
  intros Hsm. destruct (Forall_lookup_1 _ _ _ _ Hsub Hf Hsm) as [Hle Hsch]. apply IH; [done|].
  pose proof (plain_stored f P) as (Hst & _). destruct (field_start_bounds (tables a) j f Hp Hf). pose proof (plain_gap f P).
  apply (same_within (p, extent (tables a))); [unfold within; cbn; lia|done].
Qed.

Lemma blank_ext n : forall a p m m',
  schema tables n a -> same_in (p, extent (tables a)) m m' -> blank m n a p -> blank m' n a p.
Proof.
  induction n as [|n IH]; intros a p m m' Hs Hsame; [done|]. cbn [blank schema] in *. destruct Hs as [Ht Hsub].
  pose proof (table_plain tables a Ht) as Hp. intros Hb j f Hf. pose proof (Forall_lookup_1 _ _ _ _ Hp Hf) as P.
  pose proof (region_within p (tables a) j f Hp Hf) as Hw. cbv zeta in Hw.
  apply (blank_field_ext m m' (blank m n) (blank m' n) f); [done|by apply (same_within _ _ _ _ _ Hw)| |by apply Hb].
  intros Hsm. destruct (Forall_lookup_1 _ _ _ _ Hsub Hf Hsm) as [Hle Hsch]. apply IH; [done|].
  pose proof (plain_stored f P) as (Hst & _). destruct (field_start_bounds (tables a) j f Hp Hf). pose proof (plain_gap f P).
  apply (same_within (p, extent (tables a))); [unfold within; cbn; lia|done].
Qed.

(** * Arrays *)

(** An array of [vs], with its count. *)
Definition array_at (m : memory) (f : pb_field_t) (p : Z) (vs : list (list Z)) : Prop :=
  mem_load m (size_of f p) 4 = Some (le_bytes 4 (Z.of_nat (length vs))) /\ items_value m f p (length vs) = Some vs /\
  live (field_region f p) m.

Lemma array_push m m' f p vs v :
  plain f -> is_repeated f = true -> canonical f v -> array_at m f p vs -> Z.of_nat (length vs) < array_size f ->
  let q := p + data_size f * Z.of_nat (length vs) in
  mem_load m' (size_of f p) 4 = Some (le_bytes 4 (Z.of_nat (length vs) + 1)) -> mem_load m' q (length v) = Some v ->
  (forall a, inside (size_of f p, 4) a \/ inside (q, Z.of_nat (length v)) a \/ m' !! a = m !! a) -> dom m' = dom m ->
  array_at m' f p (vs ++ [v]).
Proof.
  intros P Hrep Hv (Hc & Hi & Hl) Hlt q Hc' Hv' Hout Hdom. destruct (field_parts f p P) as (Hw & _ & Hr). destruct (Hr Hrep) as [Hw4 Hgap].
  destruct (plain_stored f P) as (Hst & _ & Hs2). rewrite (Hs2 Hrep) in Hw. pose proof (canonical_length f v Hv) as Hvl.
  assert (Hl' : live (field_region f p) m').
  { intros a Ha. apply elem_of_dom. rewrite Hdom. by apply elem_of_dom, Hl. }
  unfold array_at. rewrite length_app. cbn [length]. split; [rewrite Hc'; do 2 f_equal; lia|]. split; [|done].
  apply items_value_iff. split; [by rewrite length_app|]. apply items_value_iff in Hi as [_ Hi]. intros i x Hx.
  apply lookup_app_Some in Hx as [Hx|[Hge Hx]].
  - rewrite <- (Hi i x Hx). apply item_value_ext; [apply (plain_item f P)|]. apply lookup_lt_Some in Hx. intros a Ha.
    destruct (Hout a) as [Ha'|[Ha'|]]; [..|done]; unfold inside, q in *; cbn in *; nia.
  - apply list_lookup_singleton_Some in Hx as [Hi0 <-]. assert (i = length vs) as -> by lia. fold q. apply item_stored; [done|done|].
    intros a Ha. apply Hl'. unfold inside, within, q in *. cbn in *. nia.
Qed.

Lemma array_item_at f n : plain f -> is_repeated f = true -> 0 <= n < array_size f -> u32 (data_size f * n) = data_size f * n.
Proof.
  intros P Hrep Hn. destruct (plain_presence f P) as [E|E|E|E _ _ Hds Has Hm]; unfold is_repeated in Hrep; rewrite E in Hrep; try done.
  apply u32_small. nia.
Qed.

(** Both orders of the two stores of an array item. *)
Lemma array_add_ok (packed : bool) m f p vs v :
  plain f -> is_repeated f = true -> canonical f v -> array_at m f p vs -> Z.of_nat (length vs) < array_size f ->
  exists m', (if packed then add_packed_item f p v else add_item f p v) m = Some m' /\ array_at m' f p (vs ++ [v]).
Proof.
  intros P Hrep Hv Ha Hlt. pose proof Ha as (Hc & _ & Hl). destruct (field_parts f p P) as (Hw & _ & Hr). destruct (Hr Hrep) as [Hw4 Hgap].
  destruct (plain_stored f P) as (Hst & _ & Hs2). rewrite (Hs2 Hrep) in Hw. pose proof (canonical_length f v Hv) as Hvl.
  set (n := Z.of_nat (length vs)) in *. set (q := p + data_size f * n).
  assert (Hn32 : 0 <= n + 1 < 2 ^ 32).
  { destruct (plain_presence f P) as [E|E|E|E _ _ Hds Has Hm]; unfold is_repeated in Hrep; rewrite E in Hrep; try done. nia. }
  assert (En : le_val (le_bytes 4 n) = n) by (apply le_val_le_bytes; change (256 ^ Z.of_nat 4) with (2 ^ 32); lia).
  assert (Hwq : within (field_region f p) q (Z.of_nat (length v))) by (unfold within, q in *; cbn in *; nia).
  assert (Hsep : size_of f p + 4 <= q) by (unfold q; nia).
  assert (Hguard : (0 <=? n) && (n <? array_size f) = true) by lia.
  destruct packed; unfold add_packed_item, add_item, with_uint; rewrite Hc; cbn [mbind option_bind]; rewrite En, Hguard; cbn [when];
    rewrite (array_item_at f n P Hrep ltac:(lia)); fold q; unfold andthen.
  - destruct (put_live m q v) as (m1 & E1 & Hv1 & Hout1); [by apply (live_within _ _ _ _ Hwq)|]. rewrite E1. cbn [mbind option_bind].
    rewrite (mem_load_same m m1) by (intros a Hin; apply Hout1; unfold inside in *; cbn in *; lia). rewrite Hc. cbn [mbind option_bind].
    rewrite En, u32_small by lia.
    destruct (put_live m1 (size_of f p) (le_bytes 4 (n + 1))) as (m2 & E2 & Hv2 & Hout2).
    { rewrite le_bytes_length. apply (live_within _ _ _ _ Hw4). by apply (live_effect _ _ _ _ _ (local_put _ _ _ Hwq) E1). }
    exists m2. split; [exact E2|]. rewrite le_bytes_length in *. apply (array_push m m2 f p vs v); try done.
    + rewrite (mem_load_same m1 m2); [done|]. intros a Hin. apply Hout2. unfold inside in *. cbn in *. fold n q in Hin. lia.
    + intros a. fold n q. destruct (decide (inside (size_of f p, 4) a)) as [|H1]; [by left|]. destruct (decide (inside (q, Z.of_nat (length v)) a)) as [|H2]; [by right; left|].
      right; right. rewrite Hout2 by (unfold inside in H1; cbn in *; lia). apply Hout1. unfold inside in H2. cbn in *. lia.
    + by rewrite (mem_store_dom _ _ _ _ E2), (mem_store_dom _ _ _ _ E1).
  - rewrite u32_small by lia. destruct (put_live m (size_of f p) (le_bytes 4 (n + 1))) as (m1 & E1 & Hv1 & Hout1).
    { rewrite le_bytes_length. by apply (live_within _ _ _ _ Hw4). }
    rewrite E1. cbn [mbind option_bind]. destruct (put_live m1 q v) as (m2 & E2 & Hv2 & Hout2).
    { apply (live_within _ _ _ _ Hwq). apply (live_effect _ (field_region f p) (put (size_of f p) (le_bytes 4 (n + 1))) m); [|done|done].
      apply local_put. by rewrite le_bytes_length. }
    exists m2. split; [exact E2|]. rewrite le_bytes_length in *. apply (array_push m m2 f p vs v); try done.
    + rewrite (mem_load_same m1 m2); [done|]. intros a Hin. apply Hout2. unfold inside in *. cbn in *. lia.
    + intros a. fold n q. destruct (decide (inside (size_of f p, 4) a)) as [|H1]; [by left|]. destruct (decide (inside (q, Z.of_nat (length v)) a)) as [|H2]; [by right; left|].
      right; right. rewrite Hout2 by (unfold inside in H2; cbn in *; lia). apply Hout1. unfold inside in H1. cbn in *. lia.
    + by rewrite (mem_store_dom _ _ _ _ E2), (mem_store_dom _ _ _ _ E1).
Qed.

Lemma add_all_ok (packed : bool) f p vs : forall m vs0,
  plain f -> is_repeated f = true -> Forall (canonical f) vs -> array_at m f p vs0 -> Z.of_nat (length vs0 + length vs) <= array_size f ->
  exists m', in_order (if packed then add_packed_item f p else add_item f p) vs m = Some m' /\ array_at m' f p (vs0 ++ vs).
Proof.
  induction vs as [|v vs IH]; intros m vs0 P Hrep Hvs Ha Hle; cbn [in_order].
  - exists m. by rewrite app_nil_r.
  - apply Forall_cons_1 in Hvs as [Hv Hvs]. destruct (array_add_ok packed m f p vs0 v P Hrep Hv Ha) as (m1 & E1 & Ha1); [cbn in Hle; lia|].
    destruct (IH m1 (vs0 ++ [v]) P Hrep Hvs Ha1) as (m2 & E2 & Ha2); [rewrite length_app; cbn in *; lia|].
    exists m2. rewrite <- app_assoc in Ha2. split; [|done]. unfold andthen. destruct packed; by rewrite E1.
Qed.

Lemma blank_array m f p : is_repeated f = true -> blank_field (fun _ _ => True) m f p -> live (field_region f p) m -> array_at m f p [].
Proof. intros Hrep Hb Hl. unfold blank_field in Hb. rewrite Hrep in Hb. by split_and!. Qed.

Lemma array_value m sub j f p vs :
  plain f -> is_repeated f = true -> array_at m f p vs -> Z.of_nat (length vs) <= array_size f ->
  field_value m sub j f p = Some (if is_packable f then match vs with [] => [] | _ => [packed j vs] end else item j <$> vs).
Proof.
  intros P Hrep (Hc & Hi & _) Hle. unfold field_value. rewrite Hrep, Hc. cbn [mbind option_bind].
  rewrite le_val_le_bytes.
  2: { change (256 ^ Z.of_nat 4) with (2 ^ 32). destruct (plain_presence f P) as [E|E|E|E _ _ Hds Has Hm]; unfold is_repeated in Hrep; rewrite E in Hrep; try done. nia. }
  rewrite (proj2 (Z.ltb_ge _ _)) by lia. rewrite Nat2Z.id, Hi. done.
Qed.

(** * Single fields *)

(** A field of zeros is a default. *)
Lemma blank_item m f p :
  plain f -> is_submessage f = false -> mem_load m p (Z.to_nat (data_size f)) = Some (repeat 0 (Z.to_nat (data_size f))) ->
  exists v, item_value m f p = Some v /\ forall v0, is_default f v0 = true -> is_default f v = true.
Proof.
  intros P Hsm Hz. pose proof (plain_item f P) as Hi. unfold item_type_ok in Hi. unfold item_value, is_default.
  assert (Hprefix : forall k, (k <= Z.to_nat (data_size f))%nat -> mem_load m p k = Some (repeat 0 k)).
  { intros k Hk.
    assert (Hz' : mem_load m p (length (repeat 0 k ++ repeat 0 (Z.to_nat (data_size f) - k))) = Some (repeat 0 k ++ repeat 0 (Z.to_nat (data_size f) - k))).
    { rewrite <- repeat_app, repeat_length. by replace (k + (Z.to_nat (data_size f) - k))%nat with (Z.to_nat (data_size f)) by lia. }
    apply mem_load_app in Hz' as [Hk' _]. by rewrite repeat_length in Hk'. }
  assert (Hzeros : forall k, forallb (fun b => b =? 0) (repeat 0 k) = true) by (induction k; done).
  destruct (Z.eqb_spec (PB_LTYPE (type_ f)) PB_LTYPE_BOOL) as [E|_].
  { rewrite E, (Hprefix 1%nat) by lia. by eexists. }
  rewrite Hz. destruct (Z.eqb_spec (PB_LTYPE (type_ f)) PB_LTYPE_FIXED_LENGTH_BYTES) as [E|_].
  { rewrite E. cbn. eexists. split; [done|]. done. }
  destruct (Z.eqb_spec (PB_LTYPE (type_ f)) PB_LTYPE_BYTES) as [E|_].
  { rewrite E in Hi |- *. cbn in Hi. rewrite (Hprefix 4%nat) by lia. cbn. rewrite (proj2 (Z.leb_le 4 _)) by lia. by eexists. }
  destruct (Z.eqb_spec (PB_LTYPE (type_ f)) PB_LTYPE_STRING) as [E|_].
  { rewrite E in Hi |- *. cbn in Hi |- *. destruct (Z.to_nat (data_size f)) eqn:En; [lia|]. cbn. by eexists. }
  destruct (_ || _ || _ || _ || _ || _) eqn:Eany; [eexists; split; [done|]; intros _ _; apply Hzeros|]. exfalso.
  unfold is_submessage in *. repeat apply orb_false_iff in Eany as [Eany ?]. rewrite Hsm in Hi.
  repeat match type of Hi with context [PB_LTYPE (type_ f) =? ?c] => destruct (Z.eqb_spec (PB_LTYPE (type_ f)) c); try done; cbn [orb andb] in Hi end.
Qed.

(** The presence flag. *)
Lemma set_present_ok m f p :
  plain f -> live (field_region f p) m ->
  exists m', set_present f p m = Some m' /\ live (field_region f p) m' /\ same_in (p, stored_size f) m m' /\
    (is_optional f && has_size f = true -> mem_load m' (size_of f p) 1 = Some [1]).
Proof.
  intros P Hl. destruct (field_parts f p P) as (Hw & Ho & _). unfold set_present. destruct (is_optional f && has_size f) eqn:E.
  - destruct (Ho eq_refl) as [Hw1 Hgap]. destruct (put_live m (size_of f p) [1]) as (m' & E' & Hv & Hout); [by apply (live_within _ _ _ _ Hw1)|].
    exists m'. split; [done|]. split; [by apply (live_effect _ _ _ _ _ (local_put _ _ [1] Hw1) E')|]. split; [|done].
    intros a Ha. apply Hout. unfold inside in Ha. cbn in *. lia.
  - exists m. by repeat split.
Qed.

Lemma store_item m sub a dest j f v :
  tables a !! j = Some f -> plain f -> is_repeated f = false -> is_submessage f = false -> canonical f v ->
  let p := dest + field_start (tables a) j in
  live (field_region f p) m ->
  exists m', rec_effect tables a dest (item j v) m = Some m' /\
    field_value m' sub j f p = Some (if is_optional f && negb (has_size f) && is_default f v then [] else [item j v]).
Proof.
  intros Hf P Hrep Hsm Hv p Hl. destruct (field_parts f p P) as (Hw & Ho & _). destruct (plain_stored f P) as (Hst & Hs1 & _).
  rewrite (Hs1 Hrep) in Hw. pose proof (canonical_length f v Hv) as Hvl. assert (Hwv : within (field_region f p) p (Z.of_nat (length v))) by (unfold within in *; lia).
  destruct (set_present_ok m f p P Hl) as (m1 & E1 & Hl1 & _ & Hflag).
  destruct (put_live m1 p v) as (m2 & E2 & Hv2 & Hout2); [by apply (live_within _ _ _ _ Hwv)|].
  exists m2. cbn [rec_effect]. rewrite Hf, Hrep. fold p. unfold andthen. rewrite E1. split; [exact E2|].
  assert (Hl2 : live (field_region f p) m2) by (by apply (live_effect _ _ _ _ _ (local_put _ _ _ Hwv) E2)).
  unfold field_value. rewrite Hrep, Hsm. rewrite (item_stored m2 f p v Hv Hv2).
  2: { intros x Hx. apply Hl2. unfold inside, within in *. cbn in *. lia. }
  destruct (is_optional f && has_size f) eqn:E; [|done]. destruct (Ho eq_refl) as [_ Hgap].
  rewrite (mem_load_same m1 m2 (size_of f p) 1), (Hflag eq_refl); [done|].
  intros x Hx. apply Hout2. unfold inside in Hx. cbn in *. lia.
Qed.

Lemma store_nested m n a dest j f rs :
  tables a !! j = Some f -> plain f -> is_submessage f = true -> schema tables n (ptr f) -> extent (tables (ptr f)) <= data_size f ->
  let p := dest + field_start (tables a) j in
  live (field_region f p) m -> blank m n (ptr f) p ->
  (forall m1, blank m1 n (ptr f) p -> live (p, extent (tables (ptr f))) m1 ->
     exists m2, recs_effect tables (ptr f) p rs m1 = Some m2 /\ message_value m2 tables n (ptr f) p = Some rs) ->
  local_effect (p, extent (tables (ptr f))) (recs_effect tables (ptr f) p rs) ->
  exists m', rec_effect tables a dest (nested j rs) m = Some m' /\
    field_value m' (message_value m' tables n) j f p = Some [nested j rs].
Proof.
  intros Hf P Hsm Hsch Hfit p Hl Hb Hsub Hloc. destruct (field_parts f p P) as (Hw & Ho & _). destruct (plain_stored f P) as (Hst & Hs1 & _).
  assert (Hrep : is_repeated f = false).
  { unfold is_repeated. destruct (plain_presence f P) as [E|E|E|E Hn]; rewrite ?E; try done. by rewrite Hsm in Hn. }
  rewrite (Hs1 Hrep) in Hw. destruct (set_present_ok m f p P Hl) as (m1 & E1 & Hl1 & Hsame & Hflag).
  destruct (Hsub m1) as (m2 & E2 & Hv2).
  { apply (blank_ext n (ptr f) p m m1 Hsch); [|done]. apply (same_within (p, stored_size f)); [unfold within; cbn; lia|done]. }
  { apply (live_within (field_region f p)); [unfold within in *; cbn in *; lia|done]. }
  exists m2. cbn [rec_effect]. rewrite Hf. fold p. unfold andthen. rewrite E1. split; [exact E2|].
  unfold field_value. rewrite Hrep, Hsm, Hv2. destruct (is_optional f && has_size f) eqn:E; [|done]. destruct (Ho eq_refl) as [_ Hgap].
  rewrite (mem_load_same m1 m2 (size_of f p) 1), (Hflag eq_refl); [done|].
  apply (same_apart _ _ _ _ _ Hloc E2). intros x Hx Hx'. unfold inside in *. cbn in *. lia.
Qed.

End store.

(** * The records of a message, stored one after the other into a struct with default values,
    give a struct with the value of the message. *)

Section store.
Context `{PbEnv} (tables : Z -> list pb_field_t).

(** * Records of one field *)

Lemma in_order_fmap {X Y} (g : X -> Y) (e : Y -> effect) l m : in_order e (g <$> l) m = in_order (fun x => e (g x)) l m.
Proof. revert m. induction l as [|x l IH]; intros m; [done|]. cbn. unfold andthen. destruct (e (g x) m); cbn; [apply IH|done]. Qed.

Lemma in_order_ext {X} (e e' : X -> effect) l m : (forall x m, e x m = e' x m) -> in_order e l m = in_order e' l m.
Proof. intros He. revert m. induction l as [|x l IH]; intros m; [done|]. cbn. unfold andthen. rewrite He. destruct (e' x m); cbn; [apply IH|done]. Qed.

Lemma in_order_app {X} (e : X -> effect) l1 l2 m : in_order e (l1 ++ l2) m = andthen (in_order e l1) (in_order e l2) m.
Proof.
  revert m. induction l1 as [|x l1 IH]; intros m; [done|]. cbn [app in_order]. unfold andthen in *.
  destruct (e x m) as [m1|]; cbn; [apply IH|done].
Qed.

Lemma local_guard R b e : (b = true -> local_effect R e) -> local_effect R (when b e).
Proof. destruct b; [intros He; by apply He|intros _; split; done]. Qed.

(** An item of an array lies in the region of the field. *)
Lemma local_array_item f p n v :
  plain f -> is_repeated f = true -> canonical f v -> (0 <=? n) && (n <? array_size f) = true ->
  local_effect (field_region f p) (put (p + u32 (data_size f * n)) v).
Proof.
  intros P Hrep Hv Hn. destruct (field_parts f p P) as (Hw & _). destruct (plain_stored f P) as (_ & _ & Hs2). rewrite (Hs2 Hrep) in Hw.
  pose proof (canonical_length f v Hv). pose proof (array_item_at f n P Hrep ltac:(lia)) as ->.
  apply local_put. unfold within in *. cbn in *. nia.
Qed.

(** The bytes of the field are the only ones that its records change. *)
Lemma local_record n a dest j f r :
  schema tables (S n) a -> 0 < dest -> tables a !! j = Some f -> rec_ok tables (S n) a r -> rec_index r = Some j ->
  local_effect (field_region f (dest + field_start (tables a) j)) (rec_effect tables a dest r).
Proof.
  intros [Ht Hsub] Hdest Hf Hok Hj. pose proof (table_plain tables a Ht) as Hp. pose proof (Forall_lookup_1 _ _ _ _ Hp Hf) as P.
  set (p := dest + field_start (tables a) j). destruct (field_parts f p P) as (Hw & Ho & Hr).
  destruct (plain_stored f P) as (Hst & Hs1 & Hs2). set (R := field_region f p) in *.
  assert (Hflag : local_effect R (set_present f p)).
  { unfold set_present. destruct (is_optional f && has_size f); [|apply local_skip]. apply local_put. by destruct (Ho eq_refl). }
  destruct r as [j' v|j' vs|j' rs|]; [..|done]; injection Hj as ->; cbn [rec_effect rec_ok] in *.
  - destruct Hok as (f' & Hf' & Hv). rewrite Hf in *. injection Hf' as <-. fold p. destruct (is_repeated f) eqn:Hrep.
    + destruct (Hr eq_refl) as [Hw4 _]. apply local_with_uint. intros c. apply local_guard. intros Hc.
      apply local_andthen; [apply local_put; by rewrite le_bytes_length|by apply local_array_item].
    + apply local_andthen; [done|]. apply local_put. pose proof (canonical_length f v Hv). unfold within in *. lia.
  - destruct Hok as (f' & Hf' & Hrep & _ & Hvs & _). rewrite Hf in *. injection Hf' as <-. fold p. destruct (Hr Hrep) as [Hw4 _].
    apply local_andthen; [|apply local_with_uint; intros; apply local_skip]. apply local_in_order.
    eapply Forall_impl; [|exact Hvs]. intros v Hv. apply local_with_uint. intros c. apply local_guard. intros Hc.
    apply local_andthen; [by apply local_array_item|]. apply local_with_uint. intros c'. apply local_put. by rewrite le_bytes_length.
  - destruct Hok as (f' & Hf' & Hsm & _ & Hc & Hrs). rewrite Hf in *. injection Hf' as <-. fold p. apply local_andthen; [done|].
    destruct (Forall_lookup_1 _ _ _ _ Hsub Hf Hsm) as [Hle Hsch]. apply (local_weaken (p, extent (tables (ptr f)))).
    { unfold within in *. cbn in *. lia. }
    apply (decode_records tables n (ptr f) p rs Hsch); [|done]. destruct (field_start_bounds (tables a) j f Hp Hf). pose proof (plain_gap f P). lia.
Qed.

Lemma local_records n a dest j f r :
  schema tables (S n) a -> 0 < dest -> tables a !! j = Some f -> Forall (rec_ok tables (S n) a) r -> Forall (of_field j) r ->
  local_effect (field_region f (dest + field_start (tables a) j)) (in_order (rec_effect tables a dest) r).
Proof.
  intros Hs Hdest Hf Hok Hj. apply local_in_order. apply List.Forall_forall. intros x Hx.
  apply (local_record n); try done; [by apply (proj1 (List.Forall_forall _ _) Hok)|by apply (proj1 (List.Forall_forall _ _) Hj)].
Qed.

(** * Storing a field *)

(** What storing the records of a submessage gives. *)
Definition stores (n : nat) (a : Z) (rs : list record) : Prop :=
  forall m p, 0 < p -> blank tables m n a p -> live (p, extent (tables a)) m ->
    exists m', recs_effect tables a p rs m = Some m' /\ message_value m' tables n a p = Some rs.

Lemma store_items n m a dest j f vs :
  tables a !! j = Some f -> plain f -> is_repeated f = true -> is_packable f = false -> Forall (canonical f) vs ->
  Z.of_nat (length vs) <= array_size f ->
  let p := dest + field_start (tables a) j in
  blank_field (blank tables m n) m f p -> live (field_region f p) m ->
  exists m', in_order (rec_effect tables a dest) (item j <$> vs) m = Some m' /\
    field_value m' (message_value m' tables n) j f p = Some (item j <$> vs).
Proof.
  intros Hf P Hrep Hpk Hvs Hle p Hb Hl. destruct (add_all_ok false f p vs m []) as (m' & E & Ha); try done.
  { apply blank_array; [done| |done]. unfold blank_field in *. by rewrite Hrep in *. }
  exists m'. rewrite in_order_fmap. split.
  - rewrite (in_order_ext _ (add_item f p)); [done|]. intros v m1. cbn [rec_effect]. by rewrite Hf, Hrep.
  - rewrite (array_value m' _ j f p vs P Hrep Ha) by done. by rewrite Hpk.
Qed.

Lemma store_packed n m a dest j f vs :
  tables a !! j = Some f -> plain f -> is_repeated f = true -> is_packable f = true -> Forall (canonical f) vs ->
  Z.of_nat (length vs) <= array_size f ->
  let p := dest + field_start (tables a) j in
  let r := match vs with [] => [] | _ => [packed j vs] end in
  blank_field (blank tables m n) m f p -> live (field_region f p) m ->
  exists m', in_order (rec_effect tables a dest) r m = Some m' /\ field_value m' (message_value m' tables n) j f p = Some r.
Proof.
  intros Hf P Hrep Hpk Hvs Hle p r Hb Hl. destruct (add_all_ok true f p vs m []) as (m' & E & Ha); try done.
  { apply blank_array; [done| |done]. unfold blank_field in *. by rewrite Hrep in *. }
  exists m'. split; [|by rewrite (array_value m' _ j f p vs P Hrep Ha), Hpk].
  destruct vs as [|v vs]; [done|]. subst r. cbn [in_order rec_effect]. rewrite Hf. fold p. unfold andthen at 1, add_packed, andthen at 1.
  cbn [app] in *. rewrite E. cbn [mbind option_bind]. unfold with_uint. destruct Ha as (Hc & _). rewrite Hc. done.
Qed.

Lemma store_field m0 n m a dest j f p0 r :
  byte_mem m0 -> schema tables (S n) a -> 0 < dest -> tables a !! j = Some f ->
  field_value m0 (message_value m0 tables n) j f p0 = Some r -> Forall (rec_ok tables (S n) a) r ->
  (forall rs, is_submessage f = true -> message_value m0 tables n (ptr f) p0 = Some rs -> r = [nested j rs] -> stores n (ptr f) rs) ->
  let p := dest + field_start (tables a) j in
  blank_field (blank tables m n) m f p -> live (field_region f p) m ->
  exists m', in_order (rec_effect tables a dest) r m = Some m' /\ field_value m' (message_value m' tables n) j f p = Some r.
Proof.
  intros Hm0 [Ht Hsub] Hdest Hf Hv Hok Hstore p Hb Hl. pose proof (table_plain tables a Ht) as Hp.
  pose proof (Forall_lookup_1 _ _ _ _ Hp Hf) as P. unfold field_value in Hv. destruct (is_repeated f) eqn:Hrep.
  - apply bind_Some in Hv as (c & Hc & Hv). destruct (Z.ltb_spec (array_size f) (le_val c)) as [|Hle]; [done|].
    apply bind_Some in Hv as (vs & Hvs & [= <-]). pose proof (items_canonical m0 f _ _ _ Hm0 (plain_item f P) Hvs) as Hcan.
    assert (Hn : Z.of_nat (length vs) <= array_size f).
    { apply items_value_iff in Hvs as [-> _]. destruct (plain_presence f P) as [E|E|E|E]; unfold is_repeated in Hrep; rewrite E in Hrep; try done. lia. }
    destruct (is_packable f) eqn:Hpk; [by apply store_packed|by apply store_items].
  - apply bind_Some in Hv as (present & Hpres & Hv). unfold blank_field in Hb. rewrite Hrep in Hb. destruct Hb as [Hflag Hdata].
    destruct present; cbn [negb] in Hv.
    2: { injection Hv as <-. exists m. split; [done|]. unfold field_value. rewrite Hrep.
         destruct (is_optional f && has_size f); [|done]. by rewrite (Hflag eq_refl). }
    destruct (is_submessage f) eqn:Hsm.
    + apply bind_Some in Hv as (rs & Hrs & [= <-]). destruct (Forall_lookup_1 _ _ _ _ Hsub Hf Hsm) as [Hfit Hsch].
      apply Forall_cons_1 in Hok as [(f' & Hf' & _ & _ & Hc & Hrok) _]. rewrite Hf in Hf'. injection Hf' as <-.
      assert (Hpos : 0 < p). { destruct (field_start_bounds (tables a) j f Hp Hf). pose proof (plain_gap f P). lia. }
      destruct (store_nested tables m n a dest j f rs Hf P Hsm Hsch Hfit Hl Hdata) as (m' & E & Ev).
      * intros m1 Hb1 Hl1. by apply (Hstore rs).
      * by apply (decode_records tables n).
      * exists m'. split; [|done]. cbn [in_order]. unfold andthen. by rewrite E.
    + apply bind_Some in Hv as (v & Hv & [= <-]). pose proof (item_value_canonical m0 f p0 v Hm0 (plain_item f P) Hv) as Hcan.
      destruct (is_optional f && negb (has_size f) && is_default f v) eqn:Hd.
      * apply andb_prop in Hd as [[Hopt Hnosize]%andb_prop Hdef]. exists m. split; [done|]. unfold field_value.
        rewrite Hrep, Hopt, Hsm. apply negb_true_iff in Hnosize. rewrite Hnosize. cbn [andb negb mbind option_bind].
        destruct (blank_item m f p P Hsm Hdata) as (v' & -> & Hv'). cbn [mbind option_bind]. by rewrite (Hv' v).
      * destruct (store_item tables m (message_value m tables n) a dest j f v Hf P Hrep Hsm Hcan Hl) as (m' & E & Ev).
        exists m'. split; [cbn [in_order]; unfold andthen; by rewrite E|]. rewrite Hd in Ev. rewrite <- Ev. fold p.
        unfold field_value. by rewrite Hsm.
Qed.

(** * Storing a message *)

(** The value of a field, and its being blank, depend on the region of the field. *)
Lemma field_same n a j f p m m' :
  schema tables (S n) a -> tables a !! j = Some f -> same_in (field_region f p) m m' ->
  field_value m' (message_value m' tables n) j f p = field_value m (message_value m tables n) j f p /\
  (blank_field (blank tables m n) m f p -> blank_field (blank tables m' n) m' f p).
Proof.
  intros [Ht Hsub] Hf Hs. pose proof (table_plain tables a Ht) as Hp. pose proof (Forall_lookup_1 _ _ _ _ Hp Hf) as P.
  destruct (field_parts f p P) as (Hw & _). destruct (plain_stored f P) as (Hst & _).
  assert (Hin : is_submessage f = true -> schema tables n (ptr f) /\ same_in (p, extent (tables (ptr f))) m m').
  { intros Hsm. destruct (Forall_lookup_1 _ _ _ _ Hsub Hf Hsm) as [Hfit Hsch]. split; [done|].
    apply (same_within (field_region f p)); [unfold within in *; cbn in *; lia|done]. }
  split.
  - apply field_value_ext; try done. intros Hsm. destruct (Hin Hsm). by apply message_value_ext.
  - apply blank_field_ext; try done. intros Hsm. destruct (Hin Hsm). by apply blank_ext.
Qed.

(** The state between two fields: the first [k] have their values. *)
Record stored (n : nat) (a dest : Z) (L : list (list record)) (k : nat) (m : memory) : Prop := {
  stored_live : live (dest, extent (tables a)) m;
  stored_done j f r : (j < k)%nat -> tables a !! j = Some f -> L !! j = Some r ->
    field_value m (message_value m tables n) j f (dest + field_start (tables a) j) = Some r;
  stored_blank j f : (k <= j)%nat -> tables a !! j = Some f -> blank_field (blank tables m n) m f (dest + field_start (tables a) j);
}.

Lemma store_next n a dest L k m f r e :
  schema tables (S n) a -> tables a !! k = Some f -> L !! k = Some r -> stored n a dest L k m ->
  local_effect (field_region f (dest + field_start (tables a) k)) e ->
  (exists m', e m = Some m' /\ field_value m' (message_value m' tables n) k f (dest + field_start (tables a) k) = Some r) ->
  exists m', e m = Some m' /\ stored n a dest L (S k) m'.
Proof.
  intros Hs Hf Hr [Hl Hd Hb] He (m' & E & Hv). exists m'. split; [done|]. pose proof Hs as [Ht _]. pose proof (table_plain tables a Ht) as Hp.
  assert (Hother : forall j g, j <> k -> tables a !! j = Some g -> same_in (field_region g (dest + field_start (tables a) j)) m m').
  { intros j g Hj Hg. apply (same_apart _ _ _ _ _ He E). intros x H1 H2. by apply (regions_apart dest (tables a) k j f g x). }
  split.
  - by apply (live_effect _ _ _ _ _ He E).
  - intros j g s Hj Hg Hsj. destruct (decide (j = k)) as [->|Hne].
    + rewrite Hf in Hg. injection Hg as <-. rewrite Hr in Hsj. by injection Hsj as <-.
    + destruct (field_same n a j g (dest + field_start (tables a) j) m m' Hs Hg) as [-> _]; [by apply Hother|]. apply Hd; [lia|done|done].
  - intros j g Hj Hg. destruct (field_same n a j g (dest + field_start (tables a) j) m m' Hs Hg) as [_ Hbl]; [apply Hother; [lia|done]|].
    apply Hbl, Hb; [lia|done].
Qed.

(** All the fields of the list, one after the other. *)
Lemma store_each n a dest L m :
  schema tables (S n) a -> length L = length (tables a) -> stored n a dest L 0 m ->
  (forall j f r m1, tables a !! j = Some f -> L !! j = Some r -> stored n a dest L j m1 ->
     local_effect (field_region f (dest + field_start (tables a) j)) (in_order (rec_effect tables a dest) r) /\
     exists m2, in_order (rec_effect tables a dest) r m1 = Some m2 /\
       field_value m2 (message_value m2 tables n) j f (dest + field_start (tables a) j) = Some r) ->
  forall k, (k <= length L)%nat ->
  exists m', in_order (rec_effect tables a dest) (List.concat (take k L)) m = Some m' /\ stored n a dest L k m'.
Proof.
  intros Hs Hlen Hst Hstep. induction k as [|k IH]; intros Hk; [by exists m|].
  destruct IH as (m1 & E1 & Hst1); [lia|]. destruct (lookup_lt_is_Some_2 L k) as [r Hr]; [lia|].
  destruct (lookup_lt_is_Some_2 (tables a) k) as [f Hf]; [lia|].
  destruct (Hstep k f r m1 Hf Hr Hst1) as [Hloc Hex]. destruct (store_next n a dest L k m1 f r _ Hs Hf Hr Hst1 Hloc Hex) as (m2 & E2 & Hst2).
  exists m2. split; [|done]. rewrite (take_S_r _ _ r) by done. rewrite List.concat_app. cbn [List.concat]. rewrite app_nil_r, in_order_app.
  unfold andthen. rewrite E1. exact E2.
Qed.

(** Storing the records of a message gives a struct with the same value. *)
Lemma store_message n : forall m0 a p0 rs,
  byte_mem m0 -> schema tables n a -> message_value m0 tables n a p0 = Some rs -> Z.of_nat (length (recs_bytes tables a rs)) < 2 ^ 32 ->
  stores n a rs.
Proof.
  induction n as [|n IH]; intros m0 a p0 rs Hm0 Hs Hv Hlen; [done|]. intros m dest Hdest Hb Hl.
  apply message_value_iff in Hv as (L & -> & Hll & HL). pose proof Hs as [Ht Hsub].
  assert (Hrec : forall j f r, tables a !! j = Some f -> L !! j = Some r -> Z.of_nat (length (recs_bytes tables a r)) < 2 ^ 32).
  { intros j f r _ Hr. pose proof (recs_bytes_part tables a L j r Hr). lia. }
  assert (Hstart : stored n a dest L 0 m) by (split; [done|intros; lia|intros j f _ Hf; by apply Hb]).
  destruct (store_each n a dest L m Hs Hll Hstart) with (k := length L) as (m' & E & Hst).
  - intros j f r m1 Hf Hr Hst1. destruct (HL j f Hf) as (r' & Hr' & Hfv). rewrite Hr in Hr'. injection Hr' as <-.
    pose proof (Forall_lookup_1 _ _ _ _ (table_plain tables a Ht) Hf) as P.
    destruct (field_value_ok tables m0 n a j f (p0 + field_start (tables a) j) r Hm0 Hf P) as (Hok & _ & Hof); [|done|by apply (Hrec j f)|].
    { intros q rs Hsm Hrs Hrl. destruct (Forall_lookup_1 _ _ _ _ Hsub Hf Hsm) as [_ Hsch]. by apply (message_value_ok tables m0 n (ptr f) q). }
    split; [by apply (local_records n)|]. apply (store_field m0 n m1 a dest j f (p0 + field_start (tables a) j) r); try done.
    + intros rs Hsm Hrs Hr1. destruct (Forall_lookup_1 _ _ _ _ Hsub Hf Hsm) as [_ Hsch]. apply (IH m0 (ptr f) (p0 + field_start (tables a) j)); try done.
      pose proof (Hrec j f r Hf Hr) as Hrl. subst r. rewrite recs_bytes_cons, length_app in Hrl. cbn [rec_bytes] in Hrl. rewrite Hf in Hrl.
      unfold length_delimited in Hrl. rewrite !length_app in Hrl. fold (recs_bytes tables (ptr f) rs) in Hrl. lia.
    + by apply (stored_blank _ _ _ _ _ _ Hst1).
    + apply (live_within (dest, extent (tables a))); [|by apply (stored_live _ _ _ _ _ _ Hst1)].
      by apply (region_within dest (tables a) j f (table_plain tables a Ht)).
  - lia.
  - rewrite take_ge in E by lia. exists m'. split; [exact E|]. apply message_value_iff. exists L. split; [done|]. split; [done|].
    intros j f Hf. destruct (HL j f Hf) as (r & Hr & _). exists r. split; [done|].
    apply (stored_done _ _ _ _ _ _ Hst); [apply lookup_lt_Some in Hr; lia|done|done].
Qed.

End store.

(** * [pb_message_set_to_defaults] on plain messages: every field of the struct becomes blank,
    and nothing outside of the struct changes. *)

(** The memory changes in the region only. *)
Record only_in (R : Z * Z) (m m' : memory) : Prop := {
  only_dom : dom m' = dom m;
  only_out a : ~ inside R a -> m' !! a = m !! a;
}.

Lemma only_in_refl R m : only_in R m m.
Proof. by split. Qed.

Lemma only_in_trans R m1 m2 m3 : only_in R m1 m2 -> only_in R m2 m3 -> only_in R m1 m3.
Proof. intros [D1 O1] [D2 O2]. split; [by rewrite D2|]. intros a Ha. by rewrite (O2 a Ha), (O1 a Ha). Qed.

Lemma only_in_weaken R R' m m' : within R' R.1 R.2 -> only_in R m m' -> only_in R' m m'.
Proof. intros Hw [D O]. split; [done|]. intros a Ha. apply O. unfold inside, within in *. lia. Qed.

Lemma live_only R R' m m' : only_in R' m m' -> live R m -> live R m'.
Proof. intros [D _] Hl a Ha. apply elem_of_dom. rewrite D. by apply elem_of_dom, Hl. Qed.

Section defaults.
Context `{PbEnv} (tables : Z -> list pb_field_t).

(** A computation that changes the memory of a region only. *)
Definition changes {T} (c : SM T unit) (s : T) (w : world) (R : Z * Z) (Q : memory -> Prop) : Prop :=
  exists m', c s w = Ok tt s (World m' (blocks w) (brk w)) /\ only_in R (mem w) m' /\ Q m'.

Lemma store_changes {T} R p l (s : T) w :
  within R p (Z.of_nat (length l)) -> live R (mem w) ->
  changes (store_bytes p l) s w R (fun m' => mem_load m' p (length l) = Some l /\ forall a, ~ (p <= a < p + Z.of_nat (length l)) -> m' !! a = mem w !! a).
Proof.
  intros Hw Hl. destruct (mem_store_some (mem w) p l) as [m' E].
  { intros a Ha. apply Hl. unfold inside, within in *. lia. }
  exists m'. unfold store_bytes. rewrite E. split; [done|].
  split; [|split; [by apply (mem_load_store (mem w))|intros a Ha; by apply (mem_store_lookup_ne _ _ _ _ _ E)]].
  split; [by apply (mem_store_dom _ _ _ _ E)|]. intros a Ha. apply (mem_store_lookup_ne _ _ _ _ _ E). unfold inside, within in *. lia.
Qed.

(** The walk over the fields of a struct. *)
Lemma walk_fields {T} (act : pb_field_iter_t -> SM T unit) a dest fs (I : nat -> memory -> Prop) (s : T) w :
  table_at a fs -> fs <> [] ->
  (forall j f w, fs !! j = Some f -> I j (mem w) ->
     exists m', act (iter_at a dest fs j) s w = Ok tt s (World m' (blocks w) (brk w)) /\ I (S j) m') ->
  I 0%nat (mem w) ->
  exists m', for_each_field act a dest s w = Ok tt s (World m' (blocks w) (brk w)) /\ I (length fs) m'.
Proof.
  intros Hat Hne Hact H0. assert (Hlen : (0 < length fs)%nat) by (destruct fs; [done|cbn; lia]).
  destruct (lookup_lt_is_Some_2 fs 0 Hlen) as [f0 Hf0]. unfold for_each_field. cbn [bind]. rewrite (iter_begin_ok a dest _ Hat f0) by done. cbn [negb].
  assert (Hloop : forall k j w fuel, k = (length fs - j)%nat -> (j < length fs)%nat -> (k <= fuel)%nat -> I j (mem w) ->
    exists m', loop fuel (fun iter => act iter;; let* (more, iter) := pb_field_iter_next iter in if more : bool then ret (inl iter) else ret (inr tt))
                 (iter_at a dest fs j) s w = Ok tt s (World m' (blocks w) (brk w)) /\ I (length fs) m').
  { clear w H0. induction k as [|k IH]; intros j w fuel Hk Hj Hfuel HI; [lia|]. destruct fuel as [|fuel]; [lia|].
    destruct (lookup_lt_is_Some_2 fs j Hj) as [f Hf]. destruct (Hact j f w Hf HI) as (m1 & E1 & HI1).
    cbn [loop bind]. rewrite E1. rewrite (iter_next_ok a dest _ Hat) by done. unfold next_index.
    destruct (decide (S j < length fs)%nat) as [Hlt|Hge].
    - rewrite bool_decide_true by done. cbn [ret]. destruct (IH (S j) (World m1 (blocks w) (brk w)) fuel) as (m2 & E2 & HI2); [lia|lia|lia|done|].
      exists m2. split; [exact E2|done].
    - rewrite bool_decide_false by done. cbn [ret]. exists m1. split; [done|]. by replace (length fs) with (S j) by lia. }
  apply (Hloop (length fs) 0%nat w table_fuel); [lia|done| |done]. pose proof (table_fuel_enough a fs Hat). lia.
Qed.

(** No field has a default value of its own. *)
Definition no_defaults : Prop := forall a, Forall (fun f => is_submessage f = false -> ptr f = NULL) (tables a).

Hypothesis (Hno : no_defaults).

(** What the walk does to a submessage. *)
Definition clears {T} (n : nat) (a : Z) (s : T) : Prop := forall p w,
  0 < p -> live (p, extent (tables a)) (mem w) ->
  changes (pb_message_set_to_defaults n a p) s w (p, extent (tables a)) (fun m' => blank tables m' n a p).

(** The data of a field without a count. *)
Lemma default_data {T} n a f p (s : T) w :
  schema tables (S n) a -> f ∈ tables a -> (is_submessage f = true -> clears n (ptr f) s) ->
  0 < p -> live (p, data_size f) (mem w) ->
  changes (if PB_LTYPE (type_ f) =? PB_LTYPE_SUBMESSAGE then for_each_field (pb_field_set_to_default n) (ptr f) p
           else if negb (ptr f =? NULL) then memcpy p (ptr f) (data_size f) else memset p 0 (data_size f)) s w (p, data_size f)
    (fun m' => if is_submessage f then blank tables m' n (ptr f) p
               else mem_load m' p (Z.to_nat (data_size f)) = Some (repeat 0 (Z.to_nat (data_size f)))).
Proof.
  intros [Ht Hsub] [j Hf]%list_elem_of_lookup Hrec Hpos Hl. pose proof (Forall_lookup_1 _ _ _ _ (table_plain tables a Ht) Hf) as P.
  destruct (plain_stored f P) as (Hst & _). fold (is_submessage f). destruct (is_submessage f) eqn:Hsm.
  - destruct (Forall_lookup_1 _ _ _ _ Hsub Hf Hsm) as [Hfit Hsch]. destruct (Hrec eq_refl p w Hpos) as (m' & E & Hin & Hb).
    { apply (live_within (p, data_size f)); [unfold within; cbn; lia|done]. }
    exists m'. split; [exact E|]. split; [|done]. apply (only_in_weaken (p, extent (tables (ptr f)))); [unfold within; cbn; lia|done].
  - rewrite (Forall_lookup_1 _ _ _ _ (Hno a) Hf Hsm). change (NULL =? NULL) with true. cbn [negb]. unfold memset.
    destruct (store_changes (T := T) (p, data_size f) p (repeat 0 (Z.to_nat (data_size f))) s w) as (m' & E & Hin & Hv & _); [|done|].
    + unfold within. cbn. rewrite repeat_length. lia.
    + rewrite repeat_length in Hv. by exists m'.
Qed.

Lemma default_field {T} n a dest j f (s : T) w :
  schema tables (S n) a -> 0 < dest -> tables a !! j = Some f -> (is_submessage f = true -> clears n (ptr f) s) ->
  let p := dest + field_start (tables a) j in
  live (field_region f p) (mem w) ->
  changes (pb_field_set_to_default (S n) (iter_at a dest (tables a) j)) s w (field_region f p)
    (fun m' => blank_field (blank tables m' n) m' f p).
Proof.
  intros Hs Hdest Hf Hrec p Hl. pose proof Hs as [Ht Hsub]. pose proof (table_plain tables a Ht) as Hp. pose proof (Forall_lookup_1 _ _ _ _ Hp Hf) as P.
  destruct (iter_at_data a dest (tables a) Hp Hdest j f Hf) as [Ed Es]. fold p in Ed, Es.
  destruct (field_parts f p P) as (Hw & Ho & Hr). destruct (plain_stored f P) as (Hst & Hs1 & _).
  assert (Hpos : 0 < p) by (destruct (field_start_bounds (tables a) j f Hp Hf); pose proof (plain_gap f P); lia).
  pose proof (default_data (T := T) n a f p s) as Hdata. specialize (fun w => Hdata w Hs (list_elem_of_lookup_2 _ _ _ Hf) Hrec Hpos).
  cbn [pb_field_set_to_default]. unfold changes. cbn [bind]. rewrite (field_at_table a dest (tables a) (proj1 Ht) j f s w Hf).
  pose proof (plain_no_extension f P) as Hext. unfold is_extension in Hext. rewrite Hext, (plain_static f P).
  change (PB_ATYPE_STATIC =? PB_ATYPE_STATIC) with true. rewrite Ed, Es. fold (is_repeated f) (is_optional f).
  unfold blank_field. destruct (is_repeated f) eqn:Hrep.
  - assert (is_optional f = false) as -> by (unfold is_repeated, is_optional in *; apply Z.eqb_eq in Hrep; by rewrite Hrep).
    cbn [andb orb bind]. destruct (Hr eq_refl) as [Hw4 _].
    destruct (store_changes (T := T) (field_region f p) (size_of f p) (le_bytes 4 0) s w) as (m' & E & Hin & Hv & _); [by rewrite le_bytes_length|done|].
    rewrite le_bytes_length in Hv. unfold store_u. rewrite E. exists m'. by split_and!.
  - rewrite (Hs1 eq_refl) in Hw.
    assert (is_optional f && negb (size_of f p =? p) = is_optional f && has_size f) as ->.
    { unfold has_size, size_of. f_equal. f_equal. destruct (Z.eqb_spec (size_offset f) 0), (Z.eqb_spec (p + size_offset f) p); done || lia. }
    destruct (is_optional f && has_size f) eqn:E.
    + cbn [bind]. destruct (Ho eq_refl) as [Hw1 Hgap].
      destruct (store_changes (T := T) (field_region f p) (size_of f p) (le_bytes 1 0) s w) as (m1 & E1 & Hin1 & Hv1 & _); [done|done|].
      unfold store_u. rewrite E1. cbn [ret].
      destruct (Hdata (World m1 (blocks w) (brk w))) as (m2 & E2 & Hin2 & Hb2).
      { apply (live_within _ _ _ _ Hw). by apply (live_only _ _ _ _ Hin1). }
      exists m2. split; [exact E2|]. split; [by apply (only_in_trans _ _ m1), (only_in_weaken (p, data_size f))|].
      split; [|done]. intros _. rewrite (mem_load_same m1 m2 (size_of f p) 1); [exact Hv1|].
      intros x Hx. apply (only_out _ _ _ Hin2). unfold inside in *. cbn in *. lia.
    + assert (Hone : PB_HTYPE (type_ f) =? PB_HTYPE_ONEOF = false) by (destruct (plain_presence f P) as [E'|E'|E'|E']; by rewrite E').
      rewrite Hone. cbn [orb bind ret]. destruct (Hdata w) as (m2 & E2 & Hin2 & Hb2); [by apply (live_within _ _ _ _ Hw)|].
      exists m2. split; [exact E2|]. split; [by apply (only_in_weaken (p, data_size f))|]. by split.
Qed.

(** The fields before the [k]-th are blank, and nothing outside of the struct has changed. *)
Record cleared (n : nat) (a dest : Z) (m0 : memory) (k : nat) (m : memory) : Prop := {
  cleared_in : only_in (dest, extent (tables a)) m0 m;
  cleared_blank j f : (j < k)%nat -> tables a !! j = Some f -> blank_field (blank tables m n) m f (dest + field_start (tables a) j);
}.

Lemma set_to_defaults_ok {T} n : forall a (s : T), schema tables n a -> clears n a s.
Proof.
  induction n as [|n IH]; intros a s Hs dest w Hdest Hl; [done|]. pose proof Hs as [Ht Hsub]. pose proof (table_plain tables a Ht) as Hp.
  destruct (walk_fields (pb_field_set_to_default (S n)) a dest (tables a) (cleared n a dest (mem w)) s w) as (m' & E & [Hin Hb]).
  - exact (proj1 Ht).
  - exact (proj1 (proj2 Ht)).
  - intros j f w1 Hf [Hin1 Hb1]. pose proof (region_within dest (tables a) j f Hp Hf) as Hw. cbv zeta in Hw.
    destruct (default_field n a dest j f s w1 Hs Hdest Hf) as (m2 & E2 & Hin2 & Hb2).
    + intros Hsm. destruct (Forall_lookup_1 _ _ _ _ Hsub Hf Hsm) as [_ Hsch]. by apply IH.
    + apply (live_within _ _ _ _ Hw). by apply (live_only _ _ _ _ Hin1).
    + exists m2. split; [done|]. split; [by apply (only_in_trans _ _ (mem w1)), (only_in_weaken _ _ _ _ Hw)|].
      intros i g Hi Hg. destruct (decide (i = j)) as [->|Hne].
      * rewrite Hf in Hg. by injection Hg as <-.
      * apply (field_same tables n a i g (dest + field_start (tables a) i) (mem w1) m2 Hs Hg); [|apply Hb1; [lia|done]].
        intros x Hx. apply (only_out _ _ _ Hin2). intros Hx2. by apply (regions_apart dest (tables a) j i f g x).
  - split; [apply only_in_refl|intros; lia].
  - exists m'. split; [exact E|]. split; [done|]. intros j f Hf. apply Hb; [by apply lookup_lt_Some in Hf|done].
Qed.

End defaults.
