(* ===== verification/PbWireValue.v ===== *)
(** The encoder's bytes of a plain message are those of its records: the specification of
    [PbEncodeSpec] and the value of [PbValue] agree. *)
From stdpp Require Import base gmap list strings numbers option.
From Stdlib Require Import ZArith Lia.
From S2P Require Import Prelude Cmem Hoare PbTypes PbWire PbEncode PbEncodeSpec PbEncodeThms PbIstream PbDecode PbFields PbDecodeThms PbItems PbDecodeRecords PbValue.

(** A range that can be loaded is no larger than the memory. *)
Lemma mem_load_size m p n l : mem_load m p n = Some l -> (n <= size m)%nat.
Proof.
  revert m p l. induction n as [|n IH]; intros m p l; cbn [mem_load]; [lia|].
  destruct (m !! p) as [b|] eqn:Ep; [|done]. destruct (mem_load m (p + 1) n) as [l'|] eqn:E; [|done]. intros _.
  assert (Ed : mem_load (delete p m) (p + 1) n = Some l').
  { rewrite <- E. apply mem_load_eq. intros a Ha. apply lookup_delete_ne. lia. }
  apply IH in Ed. rewrite (map_size_delete_Some _ _ (ex_intro _ b Ep)) in Ed.
  assert (size m <> 0%nat) by (intros Hz%map_size_empty_inv; subst m; by rewrite lookup_empty in Ep). lia.
Qed.

Lemma mem_load_at m p n l i b : mem_load m p n = Some l -> l !! i = Some b -> m !! (p + Z.of_nat i) = Some b.
Proof.
  revert p l i. induction n as [|n IH]; intros p l i; cbn; [by intros [= <-]|].
  destruct (m !! p) as [c|] eqn:Ep; [|done]. destruct (mem_load m (p + 1) n) as [l'|] eqn:E; [|done]. intros [= <-].
  destruct i as [|i]; cbn; [intros [= <-]; by rewrite Z.add_0_r|]. intros Hi. rewrite <- (IH _ _ _ E Hi). f_equal. lia.
Qed.

Lemma mem_load_1 m p b : m !! p = Some b -> mem_load m p 1 = Some [b].
Proof. intros Hb. cbn. by rewrite Hb. Qed.

Section wire.
Context `{PbEnv, EncCallbacks} (wz : world).
Notation peek := (peek wz).
Notation m := (mem wz).

(** * Reads *)

Lemma load_u_ok {T} n p l (s : T) : mem_load m p n = Some l -> load_u n p s wz = Ok (le_val l) s wz.
Proof. intros E. unfold load_u, load_bytes. cbn [bind ret]. by rewrite Nat2Z.id, E. Qed.

Lemma peek_load n p l : mem_load m p n = Some l -> spec_uint wz n p = Some (le_val l).
Proof. intros E. unfold spec_uint, PbEncodeSpec.peek. by rewrite (load_u_ok n p l). Qed.

Lemma load_byte {T} p b (s : T) : m !! p = Some b -> load_u 1 p s wz = Ok b s wz.
Proof. intros E. rewrite (load_u_ok 1 p [b]); [|by apply mem_load_1]. cbn. do 2 f_equal. lia. Qed.

Lemma read_bool_ok {T} p l (s : T) : mem_load m p 1 = Some l -> safe_read_bool p s wz = Ok (negb (le_val l =? 0)) s wz.
Proof. intros E. unfold safe_read_bool. cbn [bind]. by rewrite (load_u_ok 1 p l). Qed.

(** [strlen], bounded by the field. *)
Lemma string_loop max p s0 r : forall s1 fuel,
  mem_load m p (length (s1 ++ s0 ++ 0 :: r)) = Some (s1 ++ s0 ++ 0 :: r) -> 0 ∉ s0 ->
  Z.of_nat (length (s1 ++ s0)) < max -> (length s0 < fuel)%nat ->
  loop fuel (string_step max p) (Z.of_nat (length s1)) tt wz = Ok (Z.of_nat (length (s1 ++ s0))) tt wz.
Proof.
  induction s0 as [|c s0 IH]; intros s1 fuel Hl Hz Hm Hf; (destruct fuel as [|fuel]; [cbn in Hf; lia|]); cbn [loop bind]; unfold string_step at 1;
    rewrite length_app in Hm; cbn [length] in Hm; rewrite (proj2 (Z.ltb_lt _ _)) by lia; cbn [bind].
  - rewrite (load_byte _ 0).
    + cbn. by rewrite app_nil_r.
    + apply (mem_load_at _ _ _ _ (length s1) 0 Hl). by rewrite lookup_app_r, Nat.sub_diag by lia.
  - apply not_elem_of_cons in Hz as [Hc Hz]. rewrite (load_byte _ c).
    + rewrite (proj2 (Z.eqb_neq c 0)) by (by intros ->). cbn [ret bind].
      replace (Z.of_nat (length s1) + 1) with (Z.of_nat (length (s1 ++ [c]))) by (rewrite length_app; cbn; lia).
      rewrite (IH (s1 ++ [c]) fuel); [by rewrite <- app_assoc|by rewrite <- app_assoc|done|rewrite !length_app; cbn; lia|cbn in Hf; lia].
    + apply (mem_load_at _ _ _ _ (length s1) c Hl). by rewrite lookup_app_r, Nat.sub_diag by lia.
Qed.

Lemma string_size_ok f p s r :
  mem_load m p (Z.to_nat (data_size f)) = Some (s ++ 0 :: r) -> 0 ∉ s -> Z.of_nat (length s) < data_size f ->
  peek (string_size (data_size f) p) = Some (Z.of_nat (length s)).
Proof.
  intros Hl Hz Hlen. unfold PbEncodeSpec.peek, string_size. pose proof (mem_load_size _ _ _ _ Hl). pose proof (mem_load_length _ _ _ _ Hl) as Hn.
  rewrite <- Hn in Hl. by rewrite (string_loop (data_size f) p s r [] (S (S (size m)))) by (done || lia).
Qed.

Lemma all_zero_ok {T} p l (s : T) : mem_load m p (length l) = Some l ->
  all_zero p (Z.of_nat (length l)) s wz = Ok (forallb (fun b => b =? 0) l) s wz.
Proof.
  unfold all_zero. rewrite Nat2Z.id. intros Hl.
  enough (Hg : forall l2 l1 fuel, l = l1 ++ l2 -> (length l2 < fuel)%nat ->
    loop fuel (fun i : Z => if i <? Z.of_nat (length l) then
      let* b := load_u 1 (p + i) in if negb (b =? 0) then ret (inr false) else ret (inl (i + 1)) else ret (inr true)) (Z.of_nat (length l1)) s wz
    = Ok (forallb (fun b => b =? 0) l2) s wz) by (apply (Hg l []); [done|lia]).
  induction l2 as [|b l2 IH]; intros l1 fuel El Hf; (destruct fuel as [|fuel]; [cbn in Hf; lia|]); cbn [loop bind].
  - rewrite app_nil_r in El. subst l1. by rewrite Z.ltb_irrefl.
  - assert (Hlen : length l = (length l1 + S (length l2))%nat) by (rewrite El, length_app; done).
    rewrite (proj2 (Z.ltb_lt _ _)) by lia. cbn [bind]. rewrite (load_byte _ b).
    2: { apply (mem_load_at _ _ _ _ (length l1) b Hl). rewrite El. by rewrite lookup_app_r, Nat.sub_diag by lia. }
    cbn [forallb]. destruct (Z.eqb_spec b 0); cbn [negb ret bind andb]; [|done].
    replace (Z.of_nat (length l1) + 1) with (Z.of_nat (length (l1 ++ [b]))) by (rewrite length_app; cbn; lia).
    apply (IH (l1 ++ [b]) fuel); [by rewrite <- app_assoc|cbn in Hf; lia].
Qed.

(** * Items *)

Lemma spec_int_ok signed n p l : int_size n = true -> mem_load m p (Z.to_nat n) = Some l ->
  spec_int wz signed n p = Some (if signed then to_signed (8 * n) (le_val l) else le_val l).
Proof. intros Hn Hl. unfold spec_int. unfold int_size in Hn. rewrite Hn. by rewrite (peek_load _ _ _ Hl). Qed.

Lemma static_not_pointer f : plain f -> is_pointer f = false.
Proof. intros P. unfold is_pointer. by rewrite (plain_static f P). Qed.

Lemma item_spec sub f p v :
  plain f -> p <> NULL -> byte_mem m -> item_value m f p = Some v -> spec_item wz sub f p = Some (item_payload f v).
Proof.
  intros P Hp Hm Hv. pose proof (plain_item f P) as Hi. pose proof (static_not_pointer f P) as Hptr. unfold item_type_ok in Hi.
  unfold item_value in Hv. unfold spec_item, item_payload. rewrite (plain_static f P), Hptr, (proj2 (Z.eqb_neq p NULL)) by done.
  destruct (Z.eqb_spec (PB_LTYPE (type_ f)) PB_LTYPE_BOOL) as [E|_].
  { apply bind_Some in Hv as (l & Hl & [= <-]). unfold PbEncodeSpec.peek. rewrite (read_bool_ok p l) by done. cbn [mbind option_bind].
    by destruct (le_val l =? 0). }
  destruct (Z.eqb_spec (PB_LTYPE (type_ f)) PB_LTYPE_VARINT) as [E|_]; [cbn [orb] in *; by rewrite (spec_int_ok _ _ _ v)|].
  destruct (Z.eqb_spec (PB_LTYPE (type_ f)) PB_LTYPE_UVARINT) as [E|_]; [cbn [orb] in *; by rewrite (spec_int_ok _ _ _ v)|].
  destruct (Z.eqb_spec (PB_LTYPE (type_ f)) PB_LTYPE_SVARINT) as [E|_]; [cbn [orb] in *; by rewrite (spec_int_ok _ _ _ v)|].
  cbn [orb] in *. unfold spec_load.
  destruct (Z.eqb_spec (PB_LTYPE (type_ f)) PB_LTYPE_FIXED32) as [E|_]; [cbn [orb] in *; by replace (data_size f) with 4 in Hv by lia|].
  destruct (Z.eqb_spec (PB_LTYPE (type_ f)) PB_LTYPE_FIXED64) as [E|_]; [cbn [orb] in *; by replace (data_size f) with 8 in Hv by lia|].
  cbn [orb] in *. destruct (Z.eqb_spec (PB_LTYPE (type_ f)) PB_LTYPE_FIXED_LENGTH_BYTES) as [E|_]; [rewrite E, Hv; done|].
  destruct (Z.eqb_spec (PB_LTYPE (type_ f)) PB_LTYPE_BYTES) as [E|_].
  { apply bind_Some in Hv as (n & Hn & Hv). destruct (Z.leb_spec (4 + le_val n) (data_size f)); [|done].
    apply bind_Some in Hv as (l & Hl & [= <-]). rewrite (peek_load _ _ _ Hn). cbn [mbind option_bind].
    pose proof (le_val_range n (mem_load_bytes m _ _ _ Hm Hn)). unfold offsetof_bytes. rewrite u64_small by lia.
    rewrite (proj2 (Z.ltb_ge _ _)) by lia. change (PB_ATYPE_STATIC =? PB_ATYPE_STATIC) with true. cbn [andb]. rewrite Hl.
    cbn [mbind option_bind]. do 2 f_equal. by rewrite drop_app_length' by (symmetry; apply (mem_load_length _ _ _ _ Hn)). }
  destruct (Z.eqb_spec (PB_LTYPE (type_ f)) PB_LTYPE_STRING) as [E|_]; [|done].
  apply bind_Some in Hv as (l & Hl & Hs). destruct (c_string_ok l v Hs) as (s & r & -> & -> & Hz). pose proof (mem_load_length _ _ _ _ Hl) as Hln.
  rewrite length_app in Hln. cbn in Hln. rewrite (string_size_ok f p s r) by (done || lia). cbn [mbind option_bind]. rewrite Nat2Z.id.
  assert (Hpre : mem_load m p (length s) = Some s).
  { rewrite <- Hln in Hl. replace (length s + S (length r))%nat with (length (s ++ 0 :: r)) in Hl by (rewrite length_app; done).
    by apply mem_load_app in Hl as [Hl _]. }
  rewrite Hpre. cbn [mbind option_bind]. do 2 f_equal. rewrite length_app. cbn [length]. by rewrite Nat.add_sub, take_app_length.
Qed.

Lemma items_spec f n p vs (Q : list Z -> list Z) (g : Z -> option (list Z)) :
  plain f -> 0 < p -> byte_mem m -> (forall q v, 0 < q -> item_value m f q = Some v -> g q = Some (Q v)) ->
  items_value m f p n = Some vs -> spec_items g p (data_size f) n = Some (List.concat (List.map Q vs)).
Proof.
  intros P Hp Hm Hg Hvs. revert p vs Hp Hvs. pose proof (item_size_nonneg f (plain_item f P)).
  induction n as [|n IH]; intros p vs Hp; cbn [items_value spec_items]; [by intros [= <-]|].
  intros (v & Hv & (vs' & Hvs' & [= <-])%bind_Some)%bind_Some. rewrite (Hg p v Hp Hv). cbn [mbind option_bind].
  by rewrite (IH (p + data_size f) vs') by (done || lia).
Qed.

(** * Fields *)

Lemma default_spec d f p v :
  plain f -> byte_mem m -> is_optional f = true -> has_size f = false -> is_submessage f = false -> item_value m f p = Some v ->
  peek (pb_check_proto3_default_value (S d) f p) = Some (is_default f v).
Proof.
  intros P Hm Hopt Hsize Hsm Hv. pose proof (plain_item f P) as Hi. unfold PbEncodeSpec.peek. cbn [pb_check_proto3_default_value].
  unfold is_optional, has_size in *. apply Z.eqb_eq in Hopt. rewrite Hopt, Hsize, (plain_static f P).
  change (PB_HTYPE_OPTIONAL =? PB_HTYPE_REQUIRED) with false. change (PB_HTYPE_OPTIONAL =? PB_HTYPE_REPEATED) with false.
  change (PB_HTYPE_OPTIONAL =? PB_HTYPE_ONEOF) with false. change (PB_HTYPE_OPTIONAL =? PB_HTYPE_OPTIONAL) with true.
  change (PB_ATYPE_STATIC =? PB_ATYPE_STATIC) with true. change (PB_ATYPE_STATIC =? PB_ATYPE_POINTER) with false. cbn [andb].
  unfold is_submessage in Hsm. rewrite Hsm. unfold is_default. unfold item_type_ok in Hi. unfold item_value in Hv.
  destruct (Z.eqb_spec (PB_LTYPE (type_ f)) PB_LTYPE_BYTES) as [E|_].
  { rewrite E in Hv. apply bind_Some in Hv as (n & Hn & Hv). destruct (_ <=? _); [|done]. apply bind_Some in Hv as (l & _ & [= <-]).
    cbn [bind]. rewrite (load_u_ok 4 p n) by done. cbn [ret]. do 3 f_equal. symmetry. apply take_app_length'. symmetry. by apply (mem_load_length _ _ _ _ Hn). }
  destruct (Z.eqb_spec (PB_LTYPE (type_ f)) PB_LTYPE_STRING) as [E|_].
  { rewrite E in Hv. apply bind_Some in Hv as (l & Hl & Hs). pose proof (mem_load_at _ _ _ _ 0 (default 0 (l !! 0%nat)) Hl) as Hat.
    destruct l as [|b l]; [done|]. specialize (Hat eq_refl). cbn in Hat. rewrite Z.add_0_r in Hat. cbn [bind]. rewrite (load_byte p b) by done.
    cbn [ret]. f_equal. cbn in Hs. destruct (Z.eqb_spec b 0); [by injection Hs as <-|]. apply bind_Some in Hs as (s & Hs & [= <-]).
    destruct (c_string_ok _ _ Hs) as (s' & r & -> & _). cbn. by rewrite length_app, Nat.add_1_r. }
  destruct (Z.eqb_spec (PB_LTYPE (type_ f)) PB_LTYPE_FIXED_LENGTH_BYTES) as [E|_]; [done|].
  destruct (Z.eqb_spec (PB_LTYPE (type_ f)) PB_LTYPE_BOOL) as [E|_].
  { apply bind_Some in Hv as (l & Hl & [= <-]). pose proof (mem_load_length _ _ _ _ Hl) as Hln. destruct l as [|b [|]]; try done.
    replace (data_size f) with (Z.of_nat (length [b])) by (cbn; lia). rewrite (all_zero_ok p [b]) by done.
    cbn. rewrite Z.add_0_r. by destruct (b =? 0). }
  destruct (_ || _ || _ || _ || _ || _) eqn:Eany.
  - pose proof (mem_load_length _ _ _ _ Hv) as Hln. pose proof (item_size_nonneg f (plain_item f P)).
    replace (data_size f) with (Z.of_nat (length v)) by lia. rewrite (all_zero_ok p v); [done|by rewrite Hln].
  - done.
Qed.

Lemma item_wiretype_some f : item_type_ok f = true -> wiretype_of_ltype (PB_LTYPE (type_ f)) = Some (item_wiretype f).
Proof.
  intros Hi. unfold item_wiretype. destruct (wiretype_of_ltype _) as [wt|] eqn:E; [done|]. exfalso.
  unfold item_type_ok, is_submessage in Hi. unfold wiretype_of_ltype in E. revert Hi E. generalize (PB_LTYPE (type_ f)). intros t.
  repeat match goal with |- context [t =? ?c] => destruct (t =? c); cbn [orb andb]; [done|] end. done.
Qed.

Lemma wiretype_known t wt : wiretype_of_ltype t = Some wt -> t <= 10.
Proof.
  unfold wiretype_of_ltype, PB_LTYPE_BOOL, PB_LTYPE_VARINT, PB_LTYPE_UVARINT, PB_LTYPE_SVARINT, PB_LTYPE_FIXED32, PB_LTYPE_FIXED64,
    PB_LTYPE_BYTES, PB_LTYPE_STRING, PB_LTYPE_SUBMESSAGE, PB_LTYPE_FIXED_LENGTH_BYTES.
  repeat case_match; lia || done.
Qed.

Section field.
Variables (tables : Z -> list pb_field_t) (sub : Z -> Z -> option (list Z)) (n d : nat) (a : Z).

Lemma tagged_item j f p v :
  tables a !! j = Some f -> plain f -> 0 < p -> byte_mem m -> item_value m f p = Some v ->
  spec_tagged wz sub f p = Some (rec_bytes tables a (item j v)).
Proof.
  intros Hf P Hp Hm Hv. unfold spec_tagged. rewrite (item_wiretype_some f (plain_item f P)).
  cbn [mbind option_bind]. rewrite (item_spec sub f p v P) by (done || (unfold NULL; lia)). cbn [mbind option_bind rec_bytes].
  by rewrite Hf.
Qed.

Lemma tagged_nested j f p rs :
  tables a !! j = Some f -> plain f -> is_submessage f = true -> sub (ptr f) p = Some (recs_bytes tables (ptr f) rs) ->
  spec_tagged wz sub f p = Some (rec_bytes tables a (nested j rs)).
Proof.
  intros Hf P Hsm Hs. pose proof (plain_item f P) as Hi. unfold spec_tagged. rewrite (item_wiretype_some f Hi).
  unfold is_submessage in *. apply Z.eqb_eq in Hsm. unfold item_type_ok, is_submessage, spec_item, item_wiretype in *. rewrite Hsm in *.
  cbn in Hi. assert (ptr f =? NULL = false) as Hn by lia. cbn -[recs_bytes tag_bytes length_delimited]. by rewrite Hn, Hs, Hf.
Qed.

Lemma array_spec j f p c vs :
  tables a !! j = Some f -> plain f -> is_repeated f = true -> 0 < p -> byte_mem m -> 0 <= c -> c <= array_size f ->
  items_value m f p (Z.to_nat c) = Some vs ->
  spec_array wz sub f p c = Some (recs_bytes tables a (if is_packable f then match vs with [] => [] | _ => [packed j vs] end else item j <$> vs)).
Proof.
  intros Hf P Hrep Hp Hm Hc Hle Hvs. unfold spec_array. rewrite (static_not_pointer f P). cbn [negb andb].
  pose proof Hvs as [Hlen _]%items_value_iff. destruct (Z.eqb_spec c 0) as [->|Hne].
  { destruct vs; [|done]. by destruct (is_packable f). }
  rewrite (proj2 (Z.ltb_ge _ _)) by lia. fold (is_packable f). destruct (is_packable f).
  - rewrite (items_spec f _ p vs (item_payload f)); [|done|done|done| |done].
    + destruct vs; [cbn in Hlen; lia|]. cbn [mbind option_bind recs_bytes List.map List.concat rec_bytes]. by rewrite Hf, app_nil_r.
    + intros q v Hq. by apply item_spec; [|unfold NULL; lia|].
  - rewrite (items_spec f _ p vs (fun v => rec_bytes tables a (item j v))); [|done|done|done| |done].
    + unfold recs_bytes. do 2 f_equal. by rewrite <- List.map_map.
    + intros q v Hq Hv. cbn [mbind option_bind]. by apply tagged_item.
Qed.

Lemma basic_spec j f p r :
  tables a !! j = Some f -> plain f -> 0 < p -> byte_mem m ->
  (forall rs, is_submessage f = true -> message_value m tables n (ptr f) p = Some rs -> sub (ptr f) p = Some (recs_bytes tables (ptr f) rs)) ->
  field_value m (message_value m tables n) j f p = Some r ->
  spec_basic wz sub (S d) f p = Some (recs_bytes tables a r).
Proof.
  intros Hf P Hp Hm Hsub Hv. unfold spec_basic. rewrite (static_not_pointer f P).
  assert (10 <? PB_LTYPE (type_ f) = false) as ->.
  { apply Z.ltb_ge. by apply (wiretype_known _ _ (item_wiretype_some f (plain_item f P))). }
  unfold field_value in Hv. fold (is_optional f) (is_repeated f) (size_of f p) (has_size f).
  assert (Hnull : p <> NULL) by (unfold NULL; lia). assert (p =? NULL = false) as Hpn by lia.
  destruct (is_repeated f) eqn:Hrep.
  - apply bind_Some in Hv as (c & Hc & Hv). destruct (Z.ltb_spec (array_size f) (le_val c)); [done|].
    apply bind_Some in Hv as (vs & Hvs & [= <-]).
    destruct (plain_presence f P) as [E|E|E|E _ Hso]; unfold is_repeated, is_optional, has_size in *; rewrite E in *; try done.
    rewrite (proj2 (Z.eqb_neq (size_offset f) 0)) by lia. cbn [negb mbind option_bind]. rewrite (peek_load _ _ _ Hc).
    change (PB_HTYPE_REPEATED =? PB_HTYPE_REQUIRED) with false. change (PB_HTYPE_REPEATED =? PB_HTYPE_OPTIONAL) with false. cbn [mbind option_bind].
    apply array_spec; [done|done|by unfold is_repeated; rewrite E|done|done| |done|done].
    by apply (le_val_range c), (mem_load_bytes m _ _ _ Hm Hc).
  - apply bind_Some in Hv as (present & Hpres & Hv).
    assert (Hitem : forall r', (if is_submessage f then rs ← message_value m tables n (ptr f) p; Some [nested j rs]
                      else v ← item_value m f p; Some [item j v]) = Some r' -> spec_tagged wz sub f p = Some (recs_bytes tables a r')).
    { intros r'. destruct (is_submessage f) eqn:Hsm.
      - intros (rs & Hrs & [= <-])%bind_Some. rewrite (tagged_nested j f p rs Hf P Hsm (Hsub rs eq_refl Hrs)).
        unfold recs_bytes at 1. cbn [List.map List.concat]. by rewrite app_nil_r.
      - intros (v & Hv' & [= <-])%bind_Some. rewrite (tagged_item j f p v Hf P Hp Hm Hv').
        unfold recs_bytes. cbn [List.map List.concat]. by rewrite app_nil_r. }
    destruct (plain_presence f P) as [E|E E0 Hsm|E Hso|E]; unfold is_repeated in Hrep; rewrite E in Hrep; try done.
    + assert (is_optional f = false) as Hopt by (unfold is_optional; by rewrite E). rewrite Hopt, E in *. cbn [andb] in *. injection Hpres as <-.
      cbn [negb] in Hv. change (PB_HTYPE_REQUIRED =? PB_HTYPE_REQUIRED) with true.
      destruct (has_size f); cbn [mbind option_bind]; rewrite Hpn; by apply Hitem.
    + assert (is_optional f = true) as Hopt by (unfold is_optional; by rewrite E). assert (has_size f = false) as Hs by (unfold has_size; by rewrite E0).
      rewrite Hopt, Hs, Hsm, E in *. cbn [andb negb] in *. injection Hpres as <-. cbn [negb] in Hv. apply bind_Some in Hv as (v & Hv & [= <-]).
      rewrite (default_spec d f p v) by done. change (PB_HTYPE_OPTIONAL =? PB_HTYPE_REQUIRED) with false. cbn [mbind option_bind].
      destruct (is_default f v); cbn [negb]; [done|]. apply Hitem. by rewrite Hv.
    + assert (is_optional f = true) as Hopt by (unfold is_optional; by rewrite E).
      assert (has_size f = true) as Hs by (unfold has_size; rewrite (proj2 (Z.eqb_neq _ _)) by lia; done).
      rewrite Hopt, Hs, E in *. cbn [andb negb] in *. apply bind_Some in Hpres as (l & Hl & [= <-]).
      change (PB_HTYPE_OPTIONAL =? PB_HTYPE_REQUIRED) with false. cbn [mbind option_bind]. unfold PbEncodeSpec.peek.
      rewrite (read_bool_ok _ l) by done. cbn [mbind option_bind].
      destruct (le_val l =? 0); cbn [negb] in *; [by injection Hv as <-|by apply Hitem].
Qed.

End field.

(** * Messages *)

Section message.
Variable tables : Z -> list pb_field_t.

Lemma fields_spec sub d a src L :
  plain_table tables a -> 0 < src -> length L = length (tables a) ->
  (forall j f r, tables a !! j = Some f -> L !! j = Some r ->
     spec_basic wz sub d f (src + field_start (tables a) j) = Some (recs_bytes tables a r)) ->
  forall k j fuel, k = (length (tables a) - j)%nat -> (j < length (tables a))%nat -> (k <= fuel)%nat ->
  spec_fields wz sub d fuel (iter_at a src (tables a) j) = Some (recs_bytes tables a (List.concat (drop j L))).
Proof.
  intros Ht Hsrc Hlen HL. pose proof Ht as (Hat & _). pose proof (table_plain tables a Ht) as Hp.
  induction k as [|k IH]; intros j fuel Hk Hj Hfuel; [lia|]. destruct fuel as [|fuel]; [lia|]. cbn [spec_fields].
  destruct (lookup_lt_is_Some_2 (tables a) j Hj) as [f Hf]. destruct (lookup_lt_is_Some_2 L j) as [r Hr]; [lia|].
  pose proof (Forall_lookup_1 _ _ _ _ Hp Hf) as P. destruct (iter_at_inv a src (tables a) j Hj) as (_ & _ & Epos).
  assert (Hrod : rodata !! pos (iter_at a src (tables a) j) = Some f) by (rewrite Epos; by apply (proj1 Hat)).
  rewrite Hrod. cbn [mbind option_bind]. pose proof (plain_no_extension f P) as Hext. unfold is_extension in Hext. rewrite Hext.
  unfold spec_field. rewrite Hrod. cbn [mbind option_bind]. rewrite (plain_static f P). change (PB_ATYPE_STATIC =? PB_ATYPE_STATIC) with true.
  cbn [orb]. destruct (iter_at_data a src (tables a) Hp Hsrc j f Hf) as [-> _]. rewrite (HL j f r Hf Hr). cbn [mbind option_bind].
  unfold PbEncodeSpec.peek at 1. rewrite (iter_next_ok a src (tables a) Hat j) by done. unfold next_index.
  rewrite (drop_S L r j Hr). cbn [List.concat]. rewrite recs_bytes_app. destruct (decide (S j < length (tables a))%nat) as [Hlt|Hge].
  - rewrite bool_decide_true by done. cbn [mbind option_bind]. rewrite (IH (S j) fuel) by lia. done.
  - rewrite bool_decide_false by done. cbn [mbind option_bind]. rewrite drop_ge by lia. by rewrite app_nil_r.
Qed.

Lemma message_bytes_S d a src : message_bytes wz (S d) a src =
  '(more, it) ← peek (pb_field_iter_begin a src);
  if more : bool then spec_fields wz (message_bytes wz d) d table_fuel it else Some [].
Proof. done. Qed.

(** The records of a message are what the encoder sends for it. *)
Lemma message_spec n : forall d a src rs,
  schema tables n a -> 0 < src -> byte_mem m -> (n < d)%nat -> message_value m tables n a src = Some rs ->
  message_bytes wz d a src = Some (recs_bytes tables a rs).
Proof.
  induction n as [|n IH]; intros d a src rs Hs Hsrc Hm Hd Hv; [done|]. destruct d as [|[|d]]; [lia|lia|].
  destruct Hs as [Ht Hsub]. pose proof (table_plain tables a Ht) as Hp. pose proof Ht as (Hat & Hne & _).
  apply message_value_iff in Hv as (L & -> & Hlen & HL). assert (Hlt : (0 < length (tables a))%nat) by (destruct (tables a); [done|cbn; lia]).
  destruct (lookup_lt_is_Some_2 (tables a) 0 Hlt) as [f0 Hf0]. rewrite message_bytes_S. unfold PbEncodeSpec.peek.
  rewrite (iter_begin_ok a src (tables a) Hat f0) by done. cbn [mbind option_bind].
  rewrite (fields_spec (message_bytes wz (S d)) (S d) a src L Ht Hsrc Hlen) with (k := length (tables a)); [done| |lia|done|].
  - intros j f r Hf Hr. destruct (HL j f Hf) as (r' & Hr' & Hg). rewrite Hr in Hr'. injection Hr' as <-.
    pose proof (Forall_lookup_1 _ _ _ _ Hp Hf) as P. destruct (field_start_bounds (tables a) j f Hp Hf). pose proof (plain_gap f P).
    apply (basic_spec tables (message_bytes wz (S d)) n d a j f); [done|done|lia|done| |done].
    intros rs Hsm Hrs. destruct (Forall_lookup_1 _ _ _ _ Hsub Hf Hsm) as [_ Hsch]. apply (IH (S d)); done || lia.
  - pose proof (table_fuel_enough a (tables a) Hat). lia.
Qed.

End message.

End wire.
