(* ===== verification/PbMessageThms.v ===== *)
(** The message layer as a whole: [pb_decode_noinit] on any sequence of records, and
    [pb_encode] followed by [pb_decode].

    The example is a message with a required, an optional, a repeated, a proto3 and a
    submessage field. *)
From stdpp Require Import base gmap list strings numbers option.
From Stdlib Require Import ZArith Lia.
From S2P Require Import Prelude Cmem Hoare PbTypes PbEncode PbWire PbEncodeSpec PbEmits PbEncodeRefine PbEncodeThms PbIstream PbDecodePrim PbDecode PbFields PbDecodeThms PbItems PbDecodeRecords PbValue PbStore PbWireValue.

(** Two objects do not overlap. *)
Definition disjoint (R1 R2 : Z * Z) : Prop := R1.1 + R1.2 <= R2.1 \/ R2.1 + R2.2 <= R1.1.

Section thms.
Context `{PbEnv} (tables : Z -> list pb_field_t).

(** C2: [pb_decode_noinit] accepts every sequence of records of a message type that has
    all required fields, in any order, with repetitions and with unknown records between
    them, and stores them one after the other: scalars overwrite, array items are appended,
    submessages are merged, unknown records are skipped. *)
Theorem pb_decode_records n a dest rs s w m' :
  schema tables n a -> recs_ok tables n a rs -> 0 < dest -> below_brk w ->
  at_input s w (recs_bytes tables a rs) -> bytes_left s = len (recs_bytes tables a rs) ->
  disjoint (istate s, bytes_left s) (dest, extent (tables a)) ->
  recs_effect tables a dest rs (mem w) = Some m' ->
  exists b, brk w <= b /\
    pb_decode_noinit n a dest s w = Ok tt (consumed s (recs_bytes tables a rs)) (World m' (blocks w) b).
Proof.
  intros Hs Hok Hdest Hbrk Hin Hleft Hd E. destruct (decode_records tables n a dest rs Hs Hdest Hok) as [_ Hr].
  apply Hr; try done. unfold apart, disjoint, len in *. cbn in Hd |- *. lia.
Qed.

(** The default values and the records of a message. *)
Lemma decode_message n a dest rs m0 p0 s w :
  schema tables n a -> no_defaults tables -> 0 < dest -> below_brk w ->
  byte_mem m0 -> message_value m0 tables n a p0 = Some rs -> len (recs_bytes tables a rs) < 2 ^ 32 ->
  at_input s w (recs_bytes tables a rs) -> bytes_left s = len (recs_bytes tables a rs) ->
  disjoint (istate s, bytes_left s) (dest, extent (tables a)) -> live (dest, extent (tables a)) (mem w) ->
  exists w', pb_decode n a dest s w = Ok tt (consumed s (recs_bytes tables a rs)) w' /\
    only_in (dest, extent (tables a)) (mem w) (mem w') /\ message_value (mem w') tables n a dest = Some rs.
Proof.
  intros Hs Hno Hdest Hbrk Hm0 Hv Hlen Hin Hleft Hd Hl. unfold pb_decode, decode_with_defaults.
  destruct (set_to_defaults_ok tables Hno n a s Hs dest w Hdest Hl) as (m1 & E1 & Hin1 & Hblank).
  assert (Hl1 : live (dest, extent (tables a)) m1) by (by apply (live_only _ _ _ _ Hin1)).
  destruct (store_message tables n m0 a p0 rs Hm0 Hs Hv Hlen m1 dest Hdest Hblank Hl1) as (m2 & E2 & Hv2).
  assert (Hok : recs_ok tables n a rs) by (by apply (message_value_ok tables m0 n a p0)).
  destruct (decode_records tables n a dest rs Hs Hdest Hok) as [Hloc Hr].
  destruct (Hr s (World m1 (blocks w) (brk w)) m2) as (b & Hb & Er); [exact Hleft| | | |exact E2|].
  - destruct Hin as (H1 & H2 & H3). split; [done|]. split; [done|]. cbn [mem]. rewrite <- H3. apply mem_load_eq. intros x Hx.
    apply (only_out _ _ _ Hin1). unfold inside, disjoint, len in *. cbn in *. lia.
  - unfold apart, disjoint, len in *. cbn in Hd |- *. lia.
  - intros x Hx. apply Hbrk. apply elem_of_dom in Hx. cbn in Hx. rewrite (only_dom _ _ _ Hin1) in Hx. by apply elem_of_dom.
  - exists (World m2 (blocks w) b). cbn [bind attempt]. rewrite E1, Er. cbn [ret]. split; [done|]. split; [|done]. cbn [mem].
    apply (only_in_trans _ _ m1); [done|]. split; [by apply (effect_dom _ _ Hloc)|]. intros x Hx. by apply (effect_out _ _ Hloc m1).
Qed.

End thms.

(** C1: a message that is encoded and decoded again has the same value: the same present
    fields with the same items.  Neither call touches anything but the buffer and the
    receiving struct, and the decoder reads exactly the bytes that the encoder wrote. *)
Theorem pb_roundtrip `{EncodeEnvOk} tables n a src dest buf size rs w :
  schema tables n a -> no_defaults tables -> byte_memory w -> below_brk w ->
  0 < src -> 0 < dest -> 0 <= size < 2 ^ 32 ->
  has_object buf size w -> live (dest, extent (tables a)) (mem w) ->
  disjoint (src, extent (tables a)) (buf, size) -> disjoint (buf, size) (dest, extent (tables a)) ->
  message_value (mem w) tables n a src = Some rs -> len (recs_bytes tables a rs) <= size ->
  let k := len (recs_bytes tables a rs) in
  exists w1 w2,
    pb_encode (S n) a src (pb_ostream_from_buffer buf size) w = Ok tt (mk_ostream buf_write_cb (buf + k) size k None) w1 /\
    pb_decode n a dest (pb_istream_from_buffer buf k) w1 = Ok tt (mk_istream buf_read_cb (buf + k) 0 None) w2 /\
    message_value (mem w2) tables n a dest = Some rs /\
    (forall x, ~ inside (buf, size) x -> ~ inside (dest, extent (tables a)) x -> mem w2 !! x = mem w !! x).
Proof.
  intros Hs Hno Hbytes Hbrk Hsrc Hdest Hsize Hbuf Hlive Hd1 Hd2 Hv Hfit k. pose proof (len_nonneg (recs_bytes tables a rs)) as Hpos.
  assert (Hv' : message_value (mem (without buf size w)) tables n a src = Some rs).
  { rewrite <- Hv. apply message_value_ext; [done|]. intros x Hx. rewrite without_lookup. destruct (decide _); [|done].
    unfold inside, disjoint in *. cbn in *. lia. }
  assert (Hsp : message_bytes (without buf size w) (S n) a src = Some (recs_bytes tables a rs)).
  { apply (message_spec _ tables n); [done|done| |lia|done]. by apply without_bytes. }
  destruct (emits_buffer (pb_encode (S n) a src) buf size w (recs_bytes tables a rs)) as [Hok _]; [lia|done| |unfold k in *; lia|].
  { apply message_emits; [by apply without_bytes|done]. }
  destruct (Hok Hfit) as (m1 & Em1 & E1). fold k in E1, Hfit, Hpos.
  assert (Hdom : dom m1 = dom (mem w)) by (by apply (mem_store_dom _ _ _ _ Em1)).
  destruct (decode_message tables n a dest rs (mem w) src (pb_istream_from_buffer buf k) (World m1 (blocks w) (brk w))) as (w2 & E2 & Hin & Hv2);
    try done; try (fold k; lia).
  - intros x Hx. apply Hbrk. apply elem_of_dom in Hx. cbn in Hx. rewrite Hdom in Hx. by apply elem_of_dom.
  - split_and!; [done|cbn; unfold k, len in *; lia|cbn; unfold k, len in *; lia|]. by apply (mem_load_store _ _ _ _ Em1).
  - unfold disjoint in *. cbn in *. lia.
  - intros x Hx. apply elem_of_dom. cbn. rewrite Hdom. by apply elem_of_dom, Hlive.
  - exists (World m1 (blocks w) (brk w)), w2. split; [exact E1|]. split; [|split; [done|]].
    + rewrite E2. unfold consumed, pb_istream_from_buffer. cbn. f_equal. f_equal; unfold k, len; lia.
    + intros x Hx1 Hx2. rewrite (only_out _ _ _ Hin x Hx2). cbn. apply (mem_store_lookup_ne _ _ _ _ _ Em1).
      unfold inside, k, len in *. cbn in *. lia.
Qed.

(** * An instance of the theorems on plain messages: a message type with one field of each
    kind of presence, a message of it in memory, a buffer and a receiving struct. *)

(** The outer message has a required int32 (1), an optional string (2), a packed uint32
    array (3), a proto3 sint32 (4) and an optional submessage (5) with a required bool (1)
    and required bytes (2). *)
Definition plain_fields : list pb_field_t := [
  mk_field 1 (PB_HTYPE_REQUIRED + PB_LTYPE_VARINT) 0 0 4 0 0;
  mk_field 2 (PB_HTYPE_OPTIONAL + PB_LTYPE_STRING) 1 (-1) 10 0 0;
  mk_field 3 (PB_HTYPE_REPEATED + PB_LTYPE_UVARINT) 5 (-4) 4 3 0;
  mk_field 4 (PB_HTYPE_OPTIONAL + PB_LTYPE_SVARINT) 0 0 4 0 0;
  mk_field 5 (PB_HTYPE_OPTIONAL + PB_LTYPE_SUBMESSAGE) 1 (-1) 12 0 1300].

Definition plain_sub_fields : list pb_field_t := [
  mk_field 1 (PB_HTYPE_REQUIRED + PB_LTYPE_BOOL) 0 0 1 0 0;
  mk_field 2 (PB_HTYPE_REQUIRED + PB_LTYPE_BYTES) 3 0 8 0 0].

Definition plain_tables (a : Z) : list pb_field_t :=
  if a =? 1000 then plain_fields else if a =? 1300 then plain_sub_fields else [].

(** The entries of a table, closed by [PB_LAST_FIELD]. *)
Fixpoint entries (a : Z) (fs : list pb_field_t) : list (Z * pb_field_t) :=
  match fs with
  | [] => [(a, PB_LAST_FIELD)]
  | f :: fs => (a, f) :: entries (a + sizeof_pb_field_t) fs
  end.

Definition plain_rodata : gmap Z pb_field_t :=
  list_to_map (entries 1000 plain_fields ++ entries 1300 plain_sub_fields).

Definition plain_env : PbEnv := {|
  pb_cenv := {| junk := fun _ => 170; alloc_ok := fun _ _ => true |};
  rodata := plain_rodata;
  user_read := fun _ _ => ub;
  user_write := fun _ _ => ub;
  user_decode := fun _ _ _ => ub;
  user_encode := fun _ _ _ => ub;
  user_ext_decode := fun _ _ _ _ => ub;
  user_ext_encode := fun _ _ => ub;
|}.

Definition plain_callbacks : EncCallbacks := {|
  encode_bytes := fun _ _ _ _ => None;
  ext_encode_bytes := fun _ _ _ => None;
|}.

#[local] Existing Instance plain_env.
#[local] Existing Instance plain_callbacks.

Lemma plain_encode_ok : EncodeEnvOk.
Proof.
  split; [|done|done]. intros p f E. apply elem_of_list_to_map_2 in E. unfold field_ok.
  repeat (apply elem_of_cons in E as [E|E]; [injection E as -> ->; cbn; lia|]). set_solver.
Qed.

Lemma plain_table_at a fs : a = 1000 /\ fs = plain_fields \/ a = 1300 /\ fs = plain_sub_fields -> table_at a fs.
Proof.
  intros [[-> ->]|[-> ->]]; (split; [|by eexists]); intros i f Hf;
    repeat (destruct i as [|i]; [cbn in Hf; injection Hf as <-; split; [reflexivity|done]|]; cbn in Hf; try done).
Qed.

Lemma plain_schema : schema plain_tables 2 1000.
Proof.
  assert (Hsub : schema plain_tables 1 1300).
  { split; [|by repeat constructor]. split_and!; [apply plain_table_at; by right|done|done|by repeat constructor|].
    by apply (bool_decide_unpack _). }
  split; [|change (plain_tables 1000) with plain_fields; do 4 (constructor; [done|]); constructor; [intros _; by split|constructor]].
  split_and!; [apply plain_table_at; by left|done|done|by repeat constructor|].
  by apply (bool_decide_unpack _).
Qed.

Lemma plain_no_defaults : no_defaults plain_tables.
Proof.
  intros a. unfold plain_tables. repeat case_match; repeat constructor; done.
Qed.

(** The struct is at 100, the receiving struct at 200, the buffer at 300. *)
Definition plain_struct : list Z :=
  le_bytes 4 (-150) ++ [1] ++ [65; 66; 0; 7; 7; 7; 7; 7; 7; 7] ++ [9] ++
  le_bytes 4 2 ++ le_bytes 4 3 ++ le_bytes 4 300 ++ le_bytes 4 77 ++ le_bytes 4 0 ++
  [1] ++ [1; 0; 0; 0] ++ le_bytes 4 2 ++ [254; 255; 9; 9].

Definition plain_memory : gmap Z Z :=
  mem_fill (mem_fill (mem_fill ∅ 100 plain_struct) 200 (repeat 170 49)) 300 (repeat 0 64).

Definition plain_world : world := World plain_memory ∅ 4000.

(** The value of the message: field 4 is zero, so it is not sent. *)
Definition plain_value : list record := [
  item 0 (le_bytes 4 (-150)); item 1 [65; 66; 0]; packed 2 [le_bytes 4 3; le_bytes 4 300];
  nested 4 [item 0 [1]; item 1 (le_bytes 4 2 ++ [254; 255])]].

Lemma plain_message_value : message_value (mem plain_world) plain_tables 2 1000 100 = Some plain_value.
Proof. vm_compute. reflexivity. Qed.

(** Bytes of a memory that [mem_fill] built. *)
Lemma mem_fill_live m p l x : p <= x < p + Z.of_nat (length l) \/ is_Some (m !! x) -> is_Some (mem_fill m p l !! x).
Proof.
  revert m p. induction l as [|b l IH]; intros m p Hx; cbn [mem_fill length] in *; [destruct Hx; [lia|done]|].
  apply IH. destruct (decide (x = p)) as [->|Hne]; [right; by rewrite lookup_insert_eq|].
  rewrite lookup_insert_ne by done. destruct Hx as [Hx|Hx]; [left; lia|by right].
Qed.

Lemma mem_fill_dom m p l x : is_Some (mem_fill m p l !! x) -> p <= x < p + Z.of_nat (length l) \/ is_Some (m !! x).
Proof.
  revert m p. induction l as [|b l IH]; intros m p Hx; cbn [mem_fill length] in *; [by right|].
  apply IH in Hx as [Hx|Hx]; [left; lia|]. destruct (decide (x = p)) as [->|Hne]; [left; lia|]. rewrite lookup_insert_ne in Hx by done. by right.
Qed.

Lemma plain_live x : 200 <= x < 249 \/ 300 <= x < 364 -> is_Some (mem plain_world !! x).
Proof.
  intros Hx. unfold plain_world, plain_memory. cbn [mem]. apply mem_fill_live. rewrite repeat_length. destruct Hx; [right|left; lia].
  apply mem_fill_live. rewrite repeat_length. left. lia.
Qed.

Lemma plain_below_brk : below_brk plain_world.
Proof.
  intros x Hx. unfold plain_world, plain_memory in *. cbn [mem brk] in *. apply mem_fill_dom in Hx as [Hx|Hx]; [cbn in Hx; lia|].
  apply mem_fill_dom in Hx as [Hx|Hx]; [cbn in Hx; lia|]. apply mem_fill_dom in Hx as [Hx|Hx]; [cbn in Hx; lia|]. rewrite lookup_empty in Hx. by destruct Hx.
Qed.

Lemma plain_bytes : byte_memory plain_world.
Proof.
  intros x b. apply (ex_memory_bytes). 2: { by repeat constructor. }
  intros y c. apply ex_memory_bytes. 2: { by repeat constructor. }
  intros z d. apply ex_memory_bytes; [by intros ? ?; rewrite lookup_empty|]. by repeat constructor.
Qed.

Lemma pb_roundtrip_witness :
  exists w1 w2 k,
    pb_encode 3 1000 100 (pb_ostream_from_buffer 300 64) plain_world = Ok tt (mk_ostream buf_write_cb (300 + k) 64 k None) w1 /\
    pb_decode 2 1000 200 (pb_istream_from_buffer 300 k) w1 = Ok tt (mk_istream buf_read_cb (300 + k) 0 None) w2 /\
    message_value (mem w2) plain_tables 2 1000 200 = Some plain_value.
Proof.
  destruct (pb_roundtrip (H1 := plain_encode_ok) plain_tables 2 1000 100 200 300 64 plain_value plain_world) as (w1 & w2 & E1 & E2 & Hv & _).
  - exact plain_schema.
  - exact plain_no_defaults.
  - exact plain_bytes.
  - exact plain_below_brk.
  - lia.
  - lia.
  - lia.
  - intros x Hx. apply plain_live. lia.
  - intros x Hx. apply plain_live. unfold inside in Hx. change (extent (plain_tables 1000)) with 49 in Hx. cbn in Hx. lia.
  - left. vm_compute. done.
  - right. vm_compute. done.
  - exact plain_message_value.
  - vm_compute. done.
  - exists w1, w2, (len (recs_bytes plain_tables 1000 plain_value)). split; [exact E1|]. split; [exact E2|exact Hv].
Defined.

(** Records in another order: an unknown one, field 3 in two packed pieces and an item of
    its own, field 1 twice, the submessage in two parts. *)
Definition plain_records : list record := [
  unknown 9 0 [5]; packed 2 [le_bytes 4 3]; item 0 (le_bytes 4 1); nested 4 [item 0 [1]; item 1 (le_bytes 4 0)];
  item 2 (le_bytes 4 300); item 0 (le_bytes 4 (-150)); packed 2 [le_bytes 4 7];
  nested 4 [item 1 (le_bytes 4 2 ++ [254; 255]); item 0 [0]]].

(** The world with zeros in the receiving struct and the records in the buffer. *)
Definition records_world : world :=
  World (mem_fill (mem_fill ∅ 200 (repeat 0 49)) 300 (recs_bytes plain_tables 1000 plain_records)) ∅ 4000.

Ltac canonical_int := eexists; split; [reflexivity|]; apply canonical_int; [tauto|done|done|apply le_bytes_bytes].

Lemma plain_int_ok n v : rec_ok plain_tables n 1000 (item 0 (le_bytes 4 v)) /\ rec_ok plain_tables n 1000 (item 2 (le_bytes 4 v)).
Proof. destruct n; split; canonical_int. Qed.

Lemma plain_packed_ok n v : rec_ok plain_tables n 1000 (packed 2 [le_bytes 4 v]).
Proof.
  assert (Hp : exists f, plain_tables 1000 !! 2%nat = Some f /\ is_repeated f = true /\ PB_LTYPE (type_ f) <= PB_LTYPE_LAST_PACKABLE /\
            Forall (canonical f) [le_bytes 4 v] /\ Z.of_nat (length (List.concat (List.map (item_payload f) [le_bytes 4 v]))) < 2 ^ 32).
  { eexists. split; [reflexivity|]. split; [done|]. split; [done|]. split.
    - apply Forall_singleton, canonical_int; [tauto|done|done|apply le_bytes_bytes].
    - cbn [List.map List.concat]. rewrite app_nil_r.
      change (item_payload _ _) with (varint (le_val (le_bytes 4 v))). pose proof (varint_length_max (le_val (le_bytes 4 v))). lia. }
  by destruct n.
Qed.

Lemma plain_sub_ok rs :
  (length (recs_bytes plain_tables 1300 rs) <= 100)%nat -> Exists (fun r => rec_index r = Some 0%nat) rs -> Exists (fun r => rec_index r = Some 1%nat) rs ->
  Forall (rec_ok plain_tables 1 1300) rs -> rec_ok plain_tables 2 1000 (nested 4 rs).
Proof.
  intros Hlen H0 H1 Hrs. eexists. split; [reflexivity|]. split; [done|]. split; [cbn [ptr]; lia|]. split; [|exact Hrs].
  cbn [ptr]. intros j i Hj. apply List.Exists_exists in H0 as (r0 & ?%list_elem_of_In & ?), H1 as (r1 & ?%list_elem_of_In & ?).
  destruct j as [|[|j]]; [by exists r0|by exists r1|done].
Qed.

Lemma plain_bool_ok b : rec_ok plain_tables 1 1300 (item 0 [b2z b]).
Proof. eexists. split; [reflexivity|]. by apply canonical_bool. Qed.

Lemma plain_bytes_ok l : (length l <= 4)%nat -> rec_ok plain_tables 1 1300 (item 1 (le_bytes 4 (Z.of_nat (length l)) ++ l)).
Proof. intros Hl. eexists. split; [reflexivity|]. apply canonical_bytes; [done|]. cbn. lia. Qed.

Lemma plain_records_ok : recs_ok plain_tables 2 1000 plain_records.
Proof.
  split.
  - intros j i Hj. destruct j as [|j]; [exists (item 0 (le_bytes 4 1)); split; [by apply (list_elem_of_lookup_2 _ 2)|done]|].
    exfalso. do 5 (destruct j as [|j]; [done|]). done.
  - unfold plain_records. constructor; [split; [lia|split; [apply payload_varint; cbn; lia|by repeat constructor]]|].
    constructor; [apply plain_packed_ok|]. constructor; [apply plain_int_ok|].
    constructor; [apply plain_sub_ok; [vm_compute; lia|by left|by right; left|]; constructor; [apply (plain_bool_ok true)|constructor; [apply (plain_bytes_ok []); cbn; lia|constructor]]|].
    constructor; [apply plain_int_ok|]. constructor; [apply plain_int_ok|]. constructor; [apply plain_packed_ok|].
    constructor; [|constructor].
    apply plain_sub_ok; [vm_compute; lia|by right; left|by left|]; constructor; [apply (plain_bytes_ok [254; 255]); cbn; lia|constructor; [apply (plain_bool_ok false)|constructor]].
Qed.

(** The struct after the records: field 1 is the last value, field 3 has three items, the
    submessage has the last value of each of its fields. *)
Definition after_records : list record := [
  item 0 (le_bytes 4 (-150)); packed 2 [le_bytes 4 3; le_bytes 4 300; le_bytes 4 7];
  nested 4 [item 0 [0]; item 1 (le_bytes 4 2 ++ [254; 255])]].

Lemma pb_decode_records_witness :
  exists m' b s', recs_effect plain_tables 1000 200 plain_records (mem records_world) = Some m' /\
    pb_decode_noinit 2 1000 200 (pb_istream_from_buffer 300 (len (recs_bytes plain_tables 1000 plain_records))) records_world
    = Ok tt s' (World m' ∅ b) /\
    message_value m' plain_tables 2 1000 200 = Some after_records.
Proof.
  destruct (recs_effect plain_tables 1000 200 plain_records (mem records_world)) as [m'|] eqn:E.
  2: { exfalso. revert E. vm_compute. done. }
  assert (Hv : message_value m' plain_tables 2 1000 200 = Some after_records).
  { assert (Ho : (recs_effect plain_tables 1000 200 plain_records (mem records_world) ≫= fun m => message_value m plain_tables 2 1000 200) = Some after_records)
      by (vm_compute; reflexivity).
    rewrite E in Ho. exact Ho. }
  destruct (pb_decode_records plain_tables 2 1000 200 plain_records
              (pb_istream_from_buffer 300 (len (recs_bytes plain_tables 1000 plain_records))) records_world m') as (b & _ & Er).
  - exact plain_schema.
  - exact plain_records_ok.
  - lia.
  - intros x Hx. unfold records_world in *. cbn [mem brk] in *. apply mem_fill_dom in Hx as [Hx|Hx].
    { assert (length (recs_bytes plain_tables 1000 plain_records) < 100)%nat by (vm_compute; lia). lia. }
    apply mem_fill_dom in Hx as [Hx|Hx]; [cbn in Hx; lia|]. rewrite lookup_empty in Hx. by destruct Hx.
  - split; [done|]. split; [split; [cbn; unfold len; lia|by vm_compute]|]. vm_compute. reflexivity.
  - done.
  - right. vm_compute. done.
  - exact E.
  - eexists m', b, _. split; [done|]. split; [exact Er|exact Hv].
Defined.
