(* ===== verification/Cbs.v ===== *)
(** BoringSSL's byte-string parser, crypto/bytestring/cbs.c.

    A [CBS] is a view (pointer and length) of bytes that the parser never writes;
    it is represented by those bytes, so that [data += n; len -= n] is [drop n].
    The functions own the [CBS] they advance, in the monad of [Cmem]: a function
    that returns 0 keeps the view as far as the code has advanced it.  Results
    handed out through pointers are returned. *)
From stdpp Require Import base list numbers.
From Stdlib Require Import ZArith Lia.
From S2P Require Import Prelude Cmem.

Definition CBS : Type := list Z.

Definition CBS_len (cbs : CBS) : Z := Z.of_nat (length cbs).

(** * Reading bytes *)

Definition cbs_get (n : Z) : SM CBS (list Z) :=
  let* cbs := get in
  if CBS_len cbs <? n then fail
  else put (drop (Z.to_nat n) cbs);; ret (take (Z.to_nat n) cbs).

Definition CBS_skip (len : Z) : SM CBS unit := cbs_get len;; ret tt.

Definition CBS_contains_zero_byte (cbs : CBS) : bool := existsb (fun b => b =? 0) cbs.

(** [CRYPTO_memcmp] of mem.c: the accumulated differences of all bytes. *)
Definition CRYPTO_memcmp (a b : list Z) : Z :=
  fold_left (fun x ab => u8 (Z.lor x (Z.lxor (fst ab) (snd ab)))) (combine a b) 0.

Definition CBS_mem_equal (cbs : CBS) (data : list Z) : bool :=
  if negb (Z.of_nat (length data) =? CBS_len cbs) then false
  else CRYPTO_memcmp cbs data =? 0.

Definition cbs_get_u (len : Z) : SM CBS Z :=
  let* data := cbs_get len in
  ret (fold_left (fun result b => Z.lor (u64 (Z.shiftl result 8)) b) data 0).

Definition CBS_get_u8 : SM CBS Z :=
  let* v := cbs_get 1 in
  match v with
  | b :: _ => ret b
  | [] => ub
  end.

Definition CBS_get_u16 : SM CBS Z := let* v := cbs_get_u 2 in ret (u16 v).

(** [CRYPTO_bswap2], [CRYPTO_bswap4], [CRYPTO_bswap8] of crypto/internal.h. *)
Definition CRYPTO_bswap2 (x : Z) : Z := u16 (Z.lor (Z.shiftr x 8) (Z.shiftl x 8)).

Definition CRYPTO_bswap4 (x : Z) : Z :=
  let x := Z.lor (Z.shiftr x 16) (u32 (Z.shiftl x 16)) in
  Z.lor (Z.shiftr (Z.land x 0xff00ff00) 8) (u32 (Z.shiftl (Z.land x 0x00ff00ff) 8)).

Definition CRYPTO_bswap8 (x : Z) : Z :=
  Z.lor (CRYPTO_bswap4 (Z.shiftr x 32)) (u64 (Z.shiftl (CRYPTO_bswap4 (u32 x)) 32)).

Definition CBS_get_u16le : SM CBS Z := let* v := CBS_get_u16 in ret (CRYPTO_bswap2 v).

Definition CBS_get_u24 : SM CBS Z := let* v := cbs_get_u 3 in ret (u32 v).

Definition CBS_get_u32 : SM CBS Z := let* v := cbs_get_u 4 in ret (u32 v).

Definition CBS_get_u32le : SM CBS Z := let* v := CBS_get_u32 in ret (CRYPTO_bswap4 v).

Definition CBS_get_u64 : SM CBS Z := cbs_get_u 8.

Definition CBS_get_u64le : SM CBS Z := let* v := cbs_get_u 8 in ret (CRYPTO_bswap8 v).

Definition CBS_get_last_u8 : SM CBS Z :=
  let* cbs := get in
  if CBS_len cbs =? 0 then fail
  else
    put (take (length cbs - 1) cbs);;
    match cbs !! (length cbs - 1)%nat with
    | Some b => ret b
    | None => ub
    end.

Definition CBS_get_bytes (len : Z) : SM CBS CBS := cbs_get len.

(** The destination is an object of the caller. *)
Definition CBS_copy_bytes (out len : Z) : SM CBS unit :=
  let* v := cbs_get len in store_bytes out v.

Definition cbs_get_length_prefixed (len_len : Z) : SM CBS CBS :=
  let* len := cbs_get_u len_len in CBS_get_bytes len.

Definition CBS_get_u8_length_prefixed : SM CBS CBS := cbs_get_length_prefixed 1.
Definition CBS_get_u16_length_prefixed : SM CBS CBS := cbs_get_length_prefixed 2.
Definition CBS_get_u24_length_prefixed : SM CBS CBS := cbs_get_length_prefixed 3.

(** [memchr]: the index of the first [c]. *)
Fixpoint memchr (l : list Z) (c : Z) : option Z :=
  match l with
  | [] => None
  | b :: l => if b =? c then Some 0
              else match memchr l c with
                   | Some i => Some (i + 1)
                   | None => None
                   end
  end.

Definition CBS_get_until_first (c : Z) : SM CBS CBS :=
  let* cbs := get in
  match memchr cbs c with
  | None => fail
  | Some split => CBS_get_bytes split
  end.

(** * ASN.1 tags and lengths *)

Definition CBS_ASN1_TAG_SHIFT : Z := 24.
Definition CBS_ASN1_CONSTRUCTED : Z := Z.shiftl 0x20 CBS_ASN1_TAG_SHIFT.
Definition CBS_ASN1_TAG_NUMBER_MASK : Z := 2 ^ (5 + CBS_ASN1_TAG_SHIFT) - 1.
Definition CBS_ASN1_BOOLEAN : Z := 0x1.
Definition CBS_ASN1_INTEGER : Z := 0x2.
Definition CBS_ASN1_OCTETSTRING : Z := 0x4.

(** A round of the loop of [parse_base128_integer]. *)
Definition base128_step (v : Z) : SM CBS (Z + Z) :=
  let* b := CBS_get_u8 in
  if negb (Z.shiftr v (64 - 7) =? 0) then fail
  else if (v =? 0) && (b =? 0x80) then fail
  else
    let v := Z.lor (u64 (Z.shiftl v 7)) (Z.land b 0x7f) in
    if negb (Z.land b 0x80 =? 0) then ret (inl v) else ret (inr v).

(** Every round takes a byte of the view. *)
Definition parse_base128_integer : SM CBS Z :=
  let* cbs := get in
  loop (S (length cbs)) base128_step 0.

Definition parse_asn1_tag : SM CBS Z :=
  let* tag_byte := CBS_get_u8 in
  let tag := Z.shiftl (Z.land tag_byte 0xe0) CBS_ASN1_TAG_SHIFT in
  let tag_number := Z.land tag_byte 0x1f in
  let* tag_number :=
    if tag_number =? 0x1f then
      let* v := parse_base128_integer in
      if (CBS_ASN1_TAG_NUMBER_MASK <? v) || (v <? 0x1f) then fail else ret v
    else ret tag_number in
  ret (Z.lor tag tag_number).

(** What the element readers hand out: the element, its tag, the length of its
    header and whether a BER encoding was seen. *)
Record asn1_element := mk_element {
  out : CBS;
  out_tag : Z;
  out_header_len : Z;
  out_ber_found : bool;
}.

(** A call on a local copy of the view, whose failure is passed on. *)
Definition on_copy {A} (copy : CBS) (m : SM CBS A) : SM CBS (A * CBS) :=
  let* (r, copy) := on_stream copy m in
  match r with
  | Some a => ret (a, copy)
  | None => fail
  end.

Definition cbs_get_any_asn1_element (ber_ok : bool) : SM CBS asn1_element :=
  let* cbs := get in
  let header := cbs in
  let* (tag, header) := on_copy header parse_asn1_tag in
  let* (length_byte, header) := on_copy header CBS_get_u8 in
  let header_len := CBS_len cbs - CBS_len header in
  if Z.land length_byte 0x80 =? 0 then
    let* o := CBS_get_bytes (length_byte + header_len) in
    ret (mk_element o tag header_len false)
  else
    let num_bytes := Z.land length_byte 0x7f in
    if ber_ok && negb (Z.land tag CBS_ASN1_CONSTRUCTED =? 0) && (num_bytes =? 0) then
      let* o := CBS_get_bytes header_len in
      ret (mk_element o tag header_len true)
    else if (num_bytes =? 0) || (4 <? num_bytes) then fail
    else
      let* (len64, header) := on_copy header (cbs_get_u num_bytes) in
      let long_form := len64 <? 128 in
      let too_long := Z.shiftr len64 ((num_bytes - 1) * 8) =? 0 in
      if negb ber_ok && (long_form || too_long) then fail
      else if u64 (len64 + header_len + num_bytes) <? len64 then fail
      else
        let* o := CBS_get_bytes (u64 (len64 + (header_len + num_bytes))) in
        ret (mk_element o tag (header_len + num_bytes) (long_form || too_long)).

Definition CBS_get_any_asn1_element : SM CBS asn1_element := cbs_get_any_asn1_element false.

Definition CBS_get_any_ber_asn1_element : SM CBS asn1_element := cbs_get_any_asn1_element true.

(** [CBS_skip(out, header_len)] on the element just read. *)
Definition skip_header (e : asn1_element) : SM CBS CBS :=
  let* (_, o) := on_copy (out e) (CBS_skip (out_header_len e)) in ret o.

Definition CBS_get_any_asn1 : SM CBS (CBS * Z) :=
  let* e := CBS_get_any_asn1_element in
  let* o := skip_header e in ret (o, out_tag e).

Definition cbs_get_asn1 (tag_value : Z) (skip : bool) : SM CBS CBS :=
  let* e := CBS_get_any_asn1_element in
  if negb (out_tag e =? tag_value) then fail
  else if skip then skip_header e else ret (out e).

Definition CBS_get_asn1 (tag_value : Z) : SM CBS CBS := cbs_get_asn1 tag_value true.

Definition CBS_get_asn1_element (tag_value : Z) : SM CBS CBS := cbs_get_asn1 tag_value false.

Definition CBS_peek_asn1_tag (tag_value : Z) : SM CBS bool :=
  let* cbs := get in
  if CBS_len cbs <? 1 then ret false
  else
    let* (r, _) := on_stream cbs parse_asn1_tag in
    match r with
    | Some actual_tag => ret (tag_value =? actual_tag)
    | None => ret false
    end.

(** * Values *)

(** [Some is_negative] when the contents are a minimal INTEGER. *)
Definition CBS_is_valid_asn1_integer (cbs : CBS) : option bool :=
  match cbs with
  | [] => None
  | [b0] => Some (negb (Z.land b0 0x80 =? 0))
  | b0 :: b1 :: _ =>
      if ((b0 =? 0) && (Z.land b1 0x80 =? 0)) || ((b0 =? 0xff) && negb (Z.land b1 0x80 =? 0))
      then None else Some (negb (Z.land b0 0x80 =? 0))
  end.

Definition CBS_is_unsigned_asn1_integer (cbs : CBS) : bool :=
  match CBS_is_valid_asn1_integer cbs with
  | Some is_negative => negb is_negative
  | None => false
  end.

(** The accumulation loop of [CBS_get_asn1_uint64]. *)
Fixpoint accumulate_uint64 (acc : Z) (data : list Z) : option Z :=
  match data with
  | [] => Some acc
  | b :: data =>
      if negb (Z.shiftr acc 56 =? 0) then None
      else accumulate_uint64 (Z.lor (u64 (Z.shiftl acc 8)) b) data
  end.

Definition CBS_get_asn1_uint64 : SM CBS Z :=
  let* bytes := CBS_get_asn1 CBS_ASN1_INTEGER in
  if negb (CBS_is_unsigned_asn1_integer bytes) then fail
  else match accumulate_uint64 0 bytes with
       | Some v => ret v
       | None => fail
       end.

(** The union of an [int64_t] and its bytes, in the machine's little-endian order. *)
Definition CBS_get_asn1_int64 : SM CBS Z :=
  let* bytes := CBS_get_asn1 CBS_ASN1_INTEGER in
  match CBS_is_valid_asn1_integer bytes with
  | None => fail
  | Some is_negative =>
      if 8 <? CBS_len bytes then fail
      else
        let u := repeat (if is_negative : bool then 0xff else 0) 8 in
        let u := rev bytes ++ drop (length bytes) u in
        ret (s64 (le_val u))
  end.

Definition CBS_get_asn1_bool : SM CBS Z :=
  let* bytes := CBS_get_asn1 CBS_ASN1_BOOLEAN in
  match bytes with
  | [value] => if negb (value =? 0) && negb (value =? 0xff) then fail
               else ret (b2z (negb (value =? 0)))
  | _ => fail
  end.

(** [None] when the element is absent. *)
Definition CBS_get_optional_asn1 (tag : Z) : SM CBS (option CBS) :=
  let* present := CBS_peek_asn1_tag tag in
  if present then let* o := CBS_get_asn1 tag in ret (Some o) else ret None.

(** A parser of the contents of an optional element, which it must use up. *)
Definition on_child {A} (child : CBS) (m : SM CBS A) : SM CBS A :=
  let* (a, child) := on_copy child m in
  if negb (CBS_len child =? 0) then fail else ret a.

Definition CBS_get_optional_asn1_octet_string (tag : Z) : SM CBS (option CBS) :=
  let* child := CBS_get_optional_asn1 tag in
  match child with
  | Some child => let* o := on_child child (CBS_get_asn1 CBS_ASN1_OCTETSTRING) in ret (Some o)
  | None => ret None
  end.

Definition CBS_get_optional_asn1_uint64 (tag default_value : Z) : SM CBS Z :=
  let* child := CBS_get_optional_asn1 tag in
  match child with
  | Some child => on_child child CBS_get_asn1_uint64
  | None => ret default_value
  end.

Definition CBS_get_optional_asn1_bool (tag default_value : Z) : SM CBS Z :=
  let* child := CBS_get_optional_asn1 tag in
  match child with
  | Some child =>
      let* (child2, child) := on_copy child (CBS_get_asn1 CBS_ASN1_BOOLEAN) in
      match child2 with
      | [boolean] =>
          if negb (CBS_len child =? 0) then fail
          else if boolean =? 0 then ret 0
          else if boolean =? 0xff then ret 1
          else fail
      | _ => fail
      end
  | None => ret default_value
  end.

Definition CBS_is_valid_asn1_bitstring (cbs : CBS) : bool :=
  match cbs with
  | [] => false
  | num_unused_bits :: rest =>
      if 7 <? num_unused_bits then false
      else if num_unused_bits =? 0 then true
      else match rest !! (length rest - 1)%nat with
           | None => false
           | Some l => Z.land l (Z.shiftl 1 num_unused_bits - 1) =? 0
           end
  end.

Definition CBS_asn1_bitstring_has_bit (cbs : CBS) (bit : Z) : bool :=
  if negb (CBS_is_valid_asn1_bitstring cbs) then false
  else
    let byte_num := Z.shiftr bit 3 + 1 in
    let bit_num := 7 - Z.land bit 7 in
    (byte_num <? CBS_len cbs)
    && negb (Z.land (nth (Z.to_nat byte_num) cbs 0) (Z.shiftl 1 bit_num) =? 0).
