(* ===== verification/Cbb.v ===== *)
(** BoringSSL's byte-string builder, crypto/bytestring/cbb.c.

    A builder owns one buffer ([base]) and a chain of open length-prefixed
    children; all the [CBB] structs of the chain share the buffer.  The state is the
    buffer's valid bytes, its capacity and flags, and the pending children from the
    outermost inward.  A [CBB *] of the chain is its level: 0 is the top-level
    builder, [k+1] the child of level [k].  A level that is not open stands for a
    struct whose [base] is NULL.

    What a fresh part of the buffer holds ([junk]) and which requests the allocator
    grants ([alloc_ok]) are up to the C library. *)
From stdpp Require Import base list numbers.
From Stdlib Require Import ZArith Lia.
From S2P Require Import Prelude Cmem Cbs.

Record cbb_child := mk_child {
  offset : Z;
  pending_len_len : Z;
  pending_is_asn1 : bool;
}.

Record CBB := mk_cbb {
  buf : list Z;
  cap : Z;
  can_resize : bool;
  error : bool;
  base_null : bool;
  pending : list cbb_child;
}.

(** [cbb->base->len] *)
Definition base_len (c : CBB) : Z := Z.of_nat (length (buf c)).

Definition set_buf (l : list Z) (c : CBB) : CBB :=
  mk_cbb l (cap c) (can_resize c) (error c) (base_null c) (pending c).
Definition set_cap (n : Z) (c : CBB) : CBB :=
  mk_cbb (buf c) n (can_resize c) (error c) (base_null c) (pending c).
Definition set_error (c : CBB) : CBB :=
  mk_cbb (buf c) (cap c) (can_resize c) true (base_null c) (pending c).
Definition set_pending (l : list cbb_child) (c : CBB) : CBB :=
  mk_cbb (buf c) (cap c) (can_resize c) (error c) (base_null c) l.

(** [buf[off..] = l], inside the valid bytes. *)
Definition write_at (off : Z) (l : list Z) (c : CBB) : CBB :=
  set_buf (take (Z.to_nat off) (buf c) ++ l ++ drop (Z.to_nat off + length l) (buf c)) c.

Section cbb.
Context `{CEnv}.

(** [goto err]: the builder is marked, the call returns 0. *)
Definition cbb_err {A} : SM CBB A := modify set_error;; fail.

(** * Initialisation *)

(** [cbb_init] after the buffer is there. *)
Definition cbb_init (cap : Z) (can_resize : bool) : CBB := mk_cbb [] cap can_resize false false [].

(** Whether the allocator grants a request. *)
Definition granted {T} (size : Z) : SM T bool := fun s w => Ok (alloc_ok (brk w) size) s w.

(** [sizeof(struct cbb_buffer_st)] *)
Definition sizeof_base : Z := 32.

(** Every builder starts as a struct of zeros; an allocation may fail, the buffer's
    or that of [base]. *)
Definition CBB_zero : CBB := mk_cbb [] 0 false false true [].

Definition CBB_init (initial_capacity : Z) : SM CBB unit :=
  put CBB_zero;;
  let* buf_ok := granted initial_capacity in
  if (0 <? initial_capacity) && negb buf_ok then fail
  else
    let* base_ok := granted sizeof_base in
    if negb base_ok then fail else put (cbb_init initial_capacity true).

Definition CBB_init_fixed (len : Z) : SM CBB unit :=
  put CBB_zero;;
  let* base_ok := granted sizeof_base in
  if negb base_ok then fail else put (cbb_init len false).

(** * The buffer *)

Definition cbb_buffer_reserve (len : Z) : SM CBB unit :=
  let* c := get in
  if base_null c then fail
  else
    let newlen := u64 (base_len c + len) in
    if newlen <? base_len c then cbb_err
    else if cap c <? newlen then
      if negb (can_resize c) then cbb_err
      else
        let newcap := u64 (cap c * 2) in
        let newcap := if (newcap <? cap c) || (newcap <? newlen) then newlen else newcap in
        if negb (alloc_ok (cap c) newcap) then cbb_err
        else modify (set_cap newcap)
    else ret tt.

(** The added bytes hold what the memory held before. *)
Definition fresh_bytes (start : Z) (n : nat) : list Z :=
  map (fun i => u8 (junk (start + Z.of_nat i))) (List.seq 0 n).

(** The result is the offset of the added bytes in the buffer. *)
Definition cbb_buffer_add (len : Z) : SM CBB Z :=
  cbb_buffer_reserve len;;
  let* c := get in
  put (set_buf (buf c ++ fresh_bytes (base_len c) (Z.to_nat len)) c);;
  ret (base_len c).

(** [for (i = n - 1; i < n; i--) { buf[i] = v; v >>= 8; }]: the bytes stored and the
    rest of [v]. *)
Fixpoint store_be (n : nat) (v : Z) : list Z * Z :=
  match n with
  | O => ([], v)
  | S n => let (l, v') := store_be n (Z.shiftr v 8) in (l ++ [u8 v], v')
  end.

Definition cbb_buffer_add_u (v len_len : Z) : SM CBB unit :=
  if len_len =? 0 then ret tt
  else
    let* start := cbb_buffer_add len_len in
    let (l, v) := store_be (Z.to_nat len_len) v in
    modify (write_at start l);;
    if negb (v =? 0) then cbb_err else ret tt.

(** * Flushing *)

(** The length prefix of an ASN.1 element of [len] bytes: the bytes it takes, its
    first byte and the value of the remaining ones; [None] when it is too large. *)
Definition asn1_length_form (len : Z) : option (Z * Z * Z) :=
  if 0xfffffffe <? len then None
  else if 0xffffff <? len then Some (5, Z.lor 0x80 4, len)
  else if 0xffff <? len then Some (4, Z.lor 0x80 3, len)
  else if 0xff <? len then Some (3, Z.lor 0x80 2, len)
  else if 0x7f <? len then Some (2, Z.lor 0x80 1, len)
  else Some (1, u8 len, 0).

(** The big-endian length is stored at the prefix; what does not fit is an error. *)
Definition write_length (off len_len len : Z) : SM CBB unit :=
  let (l, rest) := store_be (Z.to_nat len_len) len in
  modify (write_at off l);;
  if negb (rest =? 0) then cbb_err else ret tt.

(** The part of [CBB_flush] after the recursive call. *)
Definition flush_child (k : nat) (child : cbb_child) : SM CBB unit :=
  let* c := get in
  let child_start := u64 (offset child + pending_len_len child) in
  if (child_start <? offset child) || (base_len c <? child_start) then cbb_err
  else
    let len := base_len c - child_start in
    (if pending_is_asn1 child then
       match asn1_length_form len with
       | None => cbb_err
       | Some (len_len, initial_length_byte, rest) =>
           (if negb (len_len =? 1) then
              let extra_bytes := len_len - 1 in
              let* r := attempt (cbb_buffer_add extra_bytes) in
              match r with
              | None => cbb_err
              | Some _ =>
                  (* memmove(buf + child_start + extra_bytes, buf + child_start, len) *)
                  modify (fun c => write_at (child_start + extra_bytes)
                    (take (Z.to_nat len) (drop (Z.to_nat child_start) (buf c))) c)
              end
            else ret tt);;
           modify (write_at (offset child) [initial_length_byte]);;
           write_length (offset child + 1) (len_len - 1) rest
       end
     else write_length (offset child) (pending_len_len child) len);;
    modify (fun c => set_pending (take k (pending c)) c).

(** [fuel] bounds the levels below [k]; there are [length (pending c)] of them. *)
Fixpoint flush_from (fuel : nat) (k : nat) : SM CBB unit :=
  match fuel with
  | O => nofuel
  | S fuel =>
      let* c := get in
      if base_null c || error c || (length (pending c) <? k)%nat then fail
      else
        match pending c !! k with
        | None => ret tt
        | Some child =>
            if pending_len_len child =? 0 then ret tt
            else
              let* r := attempt (flush_from fuel (S k)) in
              match r with
              | None => cbb_err
              | Some _ => flush_child k child
              end
        end
  end.

Definition CBB_flush (k : nat) : SM CBB unit := fun c w =>
  flush_from (S (length (pending c))) k c w.

(** [out] is whether the caller passed places for the result. *)
Definition CBB_finish (k : nat) (out : bool) : SM CBB (list Z) :=
  if negb (k =? 0)%nat then fail
  else
    CBB_flush 0;;
    let* c := get in
    if can_resize c && negb out then fail
    else put (mk_cbb [] 0 (can_resize c) (error c) true []);; ret (buf c).

Definition CBB_cleanup : SM CBB unit :=
  modify (fun c => mk_cbb [] 0 (can_resize c) (error c) true []).

(** The offset of a level's contents. *)
Definition contents_start (k : nat) (c : CBB) : Z :=
  match k with
  | O => 0
  | S k => match pending c !! k with
           | Some child => offset child + pending_len_len child
           | None => 0
           end
  end.

(** Contents of a level without open children. *)
Definition CBB_data (k : nat) (c : CBB) : list Z := drop (Z.to_nat (contents_start k c)) (buf c).
Definition CBB_len (k : nat) (c : CBB) : Z := base_len c - contents_start k c.

(** * Adding *)

(** A new child of level [k]; the caller's handle is level [k + 1]. *)
Definition open_child (k : nat) (off len_len : Z) (is_asn1 : bool) : SM CBB unit :=
  modify (fun c => set_pending (take k (pending c) ++ [mk_child off len_len is_asn1]) c).

Definition cbb_add_length_prefixed (k : nat) (len_len : Z) : SM CBB unit :=
  CBB_flush k;;
  let* off := cbb_buffer_add len_len in
  modify (write_at off (repeat 0 (Z.to_nat len_len)));;
  open_child k off len_len false.

Definition CBB_add_u8_length_prefixed (k : nat) : SM CBB unit := cbb_add_length_prefixed k 1.
Definition CBB_add_u16_length_prefixed (k : nat) : SM CBB unit := cbb_add_length_prefixed k 2.
Definition CBB_add_u24_length_prefixed (k : nat) : SM CBB unit := cbb_add_length_prefixed k 3.

Definition cbb_add_u (k : nat) (value len_len : Z) : SM CBB unit :=
  CBB_flush k;; cbb_buffer_add_u value len_len.

Definition CBB_add_u8 (k : nat) (value : Z) : SM CBB unit := cbb_add_u k (u8 value) 1.
Definition CBB_add_u16 (k : nat) (value : Z) : SM CBB unit := cbb_add_u k (u16 value) 2.
Definition CBB_add_u16le (k : nat) (value : Z) : SM CBB unit := CBB_add_u16 k (CRYPTO_bswap2 value).
Definition CBB_add_u24 (k : nat) (value : Z) : SM CBB unit := cbb_add_u k (u32 value) 3.
Definition CBB_add_u32 (k : nat) (value : Z) : SM CBB unit := cbb_add_u k (u32 value) 4.
Definition CBB_add_u32le (k : nat) (value : Z) : SM CBB unit := CBB_add_u32 k (CRYPTO_bswap4 value).
Definition CBB_add_u64 (k : nat) (value : Z) : SM CBB unit := cbb_add_u k (u64 value) 8.
Definition CBB_add_u64le (k : nat) (value : Z) : SM CBB unit := CBB_add_u64 k (CRYPTO_bswap8 value).

(** The length of the base-128 form: [while (copy > 0) { len_len++; copy >>= 7; }]. *)
Fixpoint base128_len (fuel : nat) (copy : Z) : Z :=
  match fuel with
  | O => 0
  | S fuel => if 0 <? copy then 1 + base128_len fuel (Z.shiftr copy 7) else 0
  end.

(** [for (i = len_len - 1; i < len_len; i--)]; [n] is [i + 1]. *)
Fixpoint add_base128_bytes (k n : nat) (v : Z) : SM CBB unit :=
  match n with
  | O => ret tt
  | S i =>
      let byte := Z.land (Z.shiftr v (7 * Z.of_nat i)) 0x7f in
      let byte := if negb (i =? 0)%nat then Z.lor byte 0x80 else byte in
      CBB_add_u8 k byte;; add_base128_bytes k i v
  end.

Definition add_base128_integer (k : nat) (v : Z) : SM CBB unit :=
  let len_len := base128_len 10 v in
  let len_len := if len_len =? 0 then 1 else len_len in
  add_base128_bytes k (Z.to_nat len_len) v.

Definition CBB_add_asn1 (k : nat) (tag : Z) : SM CBB unit :=
  CBB_flush k;;
  let tag_bits := Z.land (u8 (Z.shiftr tag CBS_ASN1_TAG_SHIFT)) 0xe0 in
  let tag_number := Z.land tag CBS_ASN1_TAG_NUMBER_MASK in
  (if 0x1f <=? tag_number then
     CBB_add_u8 k (Z.lor tag_bits 0x1f);; add_base128_integer k tag_number
   else CBB_add_u8 k (Z.lor tag_bits tag_number));;
  let* c := get in
  let off := base_len c in
  CBB_add_u8 k 0;;
  open_child k off 1 true.

Definition CBB_add_bytes (k : nat) (data : list Z) : SM CBB unit :=
  CBB_flush k;;
  let* dest := cbb_buffer_add (Z.of_nat (length data)) in
  modify (write_at dest data).

(** The result is the offset of the space. *)
Definition CBB_add_space (k : nat) (len : Z) : SM CBB Z :=
  CBB_flush k;; cbb_buffer_add len.

Definition CBB_add_zeros (k : nat) (len : Z) : SM CBB unit :=
  let* out := CBB_add_space k len in
  modify (write_at out (repeat 0 (Z.to_nat len))).

Definition CBB_reserve (k : nat) (len : Z) : SM CBB unit :=
  CBB_flush k;; cbb_buffer_reserve len.

(** Whether the struct of a level has a [base]. *)
Definition handle_open (k : nat) (c : CBB) : bool := negb (base_null c) && (k <=? length (pending c))%nat.

(** [written] is what the caller stored in the reserved space.  The handle is not tested:
    one without [base] is a NULL dereference. *)
Definition CBB_did_write (k : nat) (written : list Z) : SM CBB unit :=
  let* c := get in
  if negb (handle_open k c) then ub
  else
    let newlen := u64 (base_len c + Z.of_nat (length written)) in
    if negb (length (pending c) =? k)%nat || (newlen <? base_len c) || (cap c <? newlen) then fail
    else put (set_buf (buf c ++ written) c).

(** Only the struct of the child loses its [base].  When the child has an open child
    itself, the structs below it would keep theirs and go on writing to the buffer with
    nobody to fill in their length; such a state is not a chain, and the model stops. *)
Definition CBB_discard_child (k : nat) : SM CBB unit :=
  let* c := get in
  match pending c !! k with
  | None => ret tt
  | Some child =>
      if (S k <? length (pending c))%nat then ub
      else put (set_pending (take k (pending c)) (set_buf (take (Z.to_nat (offset child)) (buf c)) c))
  end.

(** * ASN.1 values *)

(** The loop over the eight bytes, most significant first; [n] bytes are left. *)
Fixpoint add_uint64_bytes (k n : nat) (value : Z) (started : bool) : SM CBB bool :=
  match n with
  | O => ret started
  | S n =>
      let byte := Z.land (Z.shiftr value (8 * Z.of_nat n)) 0xff in
      if negb started && (byte =? 0) then add_uint64_bytes k n value false
      else
        (if negb started && negb (Z.land byte 0x80 =? 0) then CBB_add_u8 k 0 else ret tt);;
        CBB_add_u8 k byte;;
        add_uint64_bytes k n value true
  end.

Definition CBB_add_asn1_uint64 (k : nat) (value : Z) : SM CBB unit :=
  CBB_add_asn1 k CBS_ASN1_INTEGER;;
  let* started := add_uint64_bytes (S k) 8 value false in
  (if negb started then CBB_add_u8 (S k) 0 else ret tt);;
  CBB_flush k.

(** [while (start > 0 && bytes[start] == 0xff && (bytes[start-1] & 0x80)) start--] *)
Fixpoint sign_start (start : nat) (bytes : list Z) : nat :=
  match start with
  | O => O
  | S prev =>
      if (nth start bytes 0 =? 0xff) && negb (Z.land (nth prev bytes 0) 0x80 =? 0)
      then sign_start prev bytes else start
  end.

(** [for (i = start; i >= 0; i--) CBB_add_u8(&child, bytes[i])]; [n] is [i + 1]. *)
Fixpoint add_bytes_down (k n : nat) (bytes : list Z) : SM CBB unit :=
  match n with
  | O => ret tt
  | S i => CBB_add_u8 k (nth i bytes 0);; add_bytes_down k i bytes
  end.

Definition CBB_add_asn1_int64 (k : nat) (value : Z) : SM CBB unit :=
  if 0 <=? value then CBB_add_asn1_uint64 k value
  else
    let bytes := le_bytes 8 (u64 value) in
    let start := sign_start 7 bytes in
    CBB_add_asn1 k CBS_ASN1_INTEGER;;
    add_bytes_down (S k) (S start) bytes;;
    CBB_flush k.

Definition CBB_add_asn1_octet_string (k : nat) (data : list Z) : SM CBB unit :=
  CBB_add_asn1 k CBS_ASN1_OCTETSTRING;;
  CBB_add_bytes (S k) data;;
  CBB_flush k.

Definition CBB_add_asn1_bool (k : nat) (value : Z) : SM CBB unit :=
  CBB_add_asn1 k CBS_ASN1_BOOLEAN;;
  CBB_add_u8 (S k) (if negb (value =? 0) then 0xff else 0);;
  CBB_flush k.

End cbb.
