(* ===== verification/Asn1Text.v ===== *)
(** Object identifiers as dotted decimals ([CBS_asn1_oid_to_text] of cbs.c,
    [CBB_add_asn1_oid_from_text] of cbb.c), the canonical order of a SET OF
    ([CBB_flush_asn1_set_of]) and the conversion of BER to DER (ber.c). *)
From stdpp Require Import base list numbers sorting.
From Stdlib Require Import ZArith Lia.
From S2P Require Import Prelude Cmem Cbs Cbb.

(** * Object identifiers *)

Definition dot : Z := 46.
Definition digit0 : Z := 48.
Definition UINT64_MAX : Z := 2 ^ 64 - 1.

(** [sizeof(CBS)] *)
Definition sizeof_CBS : Z := 16.

(** What [printf] writes for [%llu]. *)
Fixpoint decimal_digits (fuel : nat) (v : Z) : list Z :=
  match fuel with
  | O => []
  | S fuel => if v <? 10 then [digit0 + v] else decimal_digits fuel (v / 10) ++ [digit0 + v mod 10]
  end.

Definition decimal (v : Z) : list Z := decimal_digits 20 v.

Section text.
Context `{CEnv}.

Definition add_decimal (k : nat) (v : Z) : SM CBB unit := CBB_add_bytes k (decimal v).

(** A parser's result, on the view the builder's caller holds. *)
Definition parse {A} (cbs : CBS) (m : SM CBS A) : SM CBB (A * CBS) :=
  let* (r, cbs) := on_stream cbs m in
  match r with
  | Some a => ret (a, cbs)
  | None => fail
  end.

(** The remaining components, each after a dot; every round shortens the view. *)
Fixpoint oid_components (fuel : nat) (copy : CBS) : SM CBB unit :=
  match fuel with
  | O => nofuel
  | S fuel =>
      if CBS_len copy =? 0 then ret tt
      else
        let* (v, copy) := parse copy parse_base128_integer in
        CBB_add_u8 0 dot;;
        add_decimal 0 v;;
        oid_components fuel copy
  end.

(** The text (with its final zero byte); returning false is returning NULL. *)
Definition CBS_asn1_oid_to_text (cbs : CBS) : SM CBB (list Z) :=
  CBB_init 32;;
  let* (v, copy) := parse cbs parse_base128_integer in
  (if 80 <=? v then
     CBB_add_bytes 0 [50; dot];; add_decimal 0 (v - 80)
   else
     add_decimal 0 (v / 40);; CBB_add_u8 0 dot;; add_decimal 0 (v mod 40));;
  oid_components (S (length copy)) copy;;
  CBB_add_u8 0 0;;
  CBB_finish 0 true.

(** The loop over the characters of one component; the state is the value and
    whether a digit was seen. *)
Definition parse_dotted_decimal : SM CBS Z :=
  let* cbs := get in
  let* (v, seen_digit) :=
    loop (S (length cbs)) (fun st : Z * bool =>
      let (v, seen_digit) := st in
      let* r := attempt CBS_get_u8 in
      let* rest := get in
      match r with
      | None => ret (inr (v, seen_digit))
      | Some u =>
          if (u =? dot) && (0 <? CBS_len rest) then ret (inr (v, seen_digit))
          else if (u <? digit0) || (digit0 + 9 <? u)
                  || (seen_digit && (v =? 0))
                  || (UINT64_MAX / 10 <? v)
                  || (UINT64_MAX - (u - digit0) <? u64 (v * 10))
          then fail
          else ret (inl (u64 (v * 10 + (u - digit0)), true))
      end) (0, false) in
  if seen_digit : bool then ret v else fail.

Fixpoint add_components (fuel k : nat) (cbs : CBS) : SM CBB unit :=
  match fuel with
  | O => nofuel
  | S fuel =>
      if negb (0 <? CBS_len cbs) then ret tt
      else
        let* (a, cbs) := parse cbs parse_dotted_decimal in
        add_base128_integer k a;;
        add_components fuel k cbs
  end.

Definition CBB_add_asn1_oid_from_text (k : nat) (text : list Z) : SM CBB unit :=
  CBB_flush k;;
  let* (a, cbs) := parse text parse_dotted_decimal in
  let* (b, cbs) := parse cbs parse_dotted_decimal in
  if (2 <? a) || ((a <? 2) && (39 <? b)) || (UINT64_MAX - 80 <? b) then fail
  else
    add_base128_integer k (40 * a + b);;
    add_components (S (length cbs)) k cbs.

(** * SET OF *)

(** The sign of [memcmp] on the common prefix, then the shorter first. *)
Fixpoint compare_set_of_element (a b : CBS) : Z :=
  match a, b with
  | [], [] => 0
  | [], _ :: _ => -1
  | _ :: _, [] => 1
  | x :: a, y :: b => if x <? y then -1 else if y <? x then 1 else compare_set_of_element a b
  end.

Definition set_of_le (a b : CBS) : Prop := compare_set_of_element a b <= 0.

#[export] Instance set_of_le_dec : RelDecision set_of_le.
Proof. intros a b. apply Z_le_dec. Defined.

(** The elements of the contents; every round shortens the view. *)
Fixpoint elements (fuel : nat) (cbs : CBS) : SM CBB (list CBS) :=
  match fuel with
  | O => nofuel
  | S fuel =>
      if CBS_len cbs =? 0 then ret []
      else
        let* (e, cbs) := parse cbs CBS_get_any_asn1_element in
        let* l := elements fuel cbs in
        ret (out e :: l)
  end.

Fixpoint add_all (k : nat) (children : list CBS) : SM CBB unit :=
  match children with
  | [] => ret tt
  | c :: children => CBB_add_bytes k c;; add_all k children
  end.

Definition CBB_flush_asn1_set_of (k : nat) : SM CBB unit :=
  CBB_flush k;;
  let* c := get in
  let contents := CBB_data k c in
  let* children := elements (S (length contents)) contents in
  if (length children <? 2)%nat then ret tt
  else if UINT64_MAX / sizeof_CBS <? Z.of_nat (length children) then fail
  else
    let* buf_ok := granted (Z.of_nat (length contents)) in
    let* children_ok := granted (Z.of_nat (length children) * sizeof_CBS) in
    if negb buf_ok || negb children_ok then fail
    else
      modify (fun c => set_buf (take (Z.to_nat (contents_start k c)) (buf c)) c);;
      add_all k (merge_sort set_of_le children).

(** * BER to DER *)

Definition kMaxDepth : nat := 2048.

Definition constructed (tag : Z) : bool := negb (Z.land tag CBS_ASN1_CONSTRUCTED =? 0).

(** [tag & ~CBS_ASN1_CONSTRUCTED] *)
Definition primitive_tag (tag : Z) : Z := Z.ldiff tag CBS_ASN1_CONSTRUCTED.

Definition is_string_type (tag : Z) : bool :=
  existsb (Z.eqb (primitive_tag tag))
    [0x4; 0xc; 0x12; 0x13; 0x14; 0x15; 0x16; 0x19; 0x1a; 0x1b; 0x1c; 0x1e].

(** On the local view of [orig_in]; [depth] levels are left, of the
    [kMaxDepth + 1] the code allows.  The state of the loop is [*ber_found]. *)
Fixpoint cbs_find_ber (depth : nat) : SM CBS bool :=
  match depth with
  | O => fail
  | S depth =>
      let* orig_in := get in
      loop (S (length orig_in)) (fun ber_found : bool =>
        let* cin := get in
        if CBS_len cin =? 0 then ret (inr ber_found)
        else
          let* e := CBS_get_any_ber_asn1_element in
          if out_ber_found e then ret (inr true)
          else if constructed (out_tag e) then
            if is_string_type (out_tag e) then ret (inr true)
            else
              let* contents := skip_header e in
              let* (ber_found, _) := on_copy contents (cbs_find_ber depth) in
              ret (inl ber_found)
          else ret (inl false)) false
  end.

Definition is_eoc (header_len : Z) (contents : CBS) : bool :=
  (header_len =? 2) && bool_decide (contents = [0; 0]).

(** The element is an indefinite-length header. *)
Definition is_indefinite (e : asn1_element) : bool :=
  (CBS_len (out e) =? out_header_len e) && (0 <? out_header_len e)
  && (nth (Z.to_nat (out_header_len e - 1)) (out e) 0 =? 0x80).

(** Where the contents of an element go, and the string type its parts must have
    (0 for none): into [out] itself inside a constructed string, otherwise into a
    new child. *)
Definition open_element (k : nat) (string_tag tag : Z) : SM CBB (nat * Z) :=
  if negb (string_tag =? 0) then
    if negb (primitive_tag tag =? string_tag) then fail else ret (k, string_tag)
  else
    let is_string := constructed tag && is_string_type tag in
    let out_tag := if is_string then primitive_tag tag else tag in
    CBB_add_asn1 k out_tag;;
    ret (S k, if is_string then out_tag else string_tag).

(** [out] is level [k]; the result is what is left of [in]. *)
Fixpoint cbs_convert_ber (depth : nat) (cin : CBS) (k : nat) (string_tag : Z)
    (looking_for_eoc : bool) : SM CBB CBS :=
  match depth with
  | O => fail
  | S depth =>
      loop (S (length cin)) (fun cin =>
        if CBS_len cin =? 0 then if looking_for_eoc then fail else ret (inr cin)
        else
          let* (e, cin) := parse cin CBS_get_any_ber_asn1_element in
          if is_eoc (out_header_len e) (out e) then
            if looking_for_eoc then ret (inr cin) else fail
          else
            let* (level, child_string_tag) := open_element k string_tag (out_tag e) in
            if is_indefinite e then
              let* cin := cbs_convert_ber depth cin level child_string_tag true in
              CBB_flush k;;
              ret (inl cin)
            else
              let* (_, contents) := parse (out e) (CBS_skip (out_header_len e)) in
              (if constructed (out_tag e)
               then cbs_convert_ber depth contents level child_string_tag false;; ret tt
               else CBB_add_bytes level contents);;
              CBB_flush k;;
              ret (inl cin)) cin
  end.

(** The converted bytes and what is left of [in]. *)
Definition convert_ber (cin : CBS) : SM CBB (CBS * CBS) :=
  CBB_init (CBS_len cin);;
  let* cin := cbs_convert_ber (S kMaxDepth) cin 0 0 false in
  let* der := CBB_finish 0 true in
  ret (der, cin).

(** The flag says whether the output is newly allocated ([out_storage]). *)
Definition CBS_asn1_ber_to_der : SM CBS (CBS * bool) :=
  let* cin := get in
  let* (conversion_needed, _) := on_copy cin (cbs_find_ber (S kMaxDepth)) in
  if negb conversion_needed then
    let* e := CBS_get_any_asn1_element in ret (out e, false)
  else
    let* (r, _) := on_stream CBB_zero (convert_ber cin) in
    match r with
    | Some (der, cin) => put cin;; ret (der, true)
    | None => fail
    end.

(** The chunks of a constructed string, one level deep. *)
Fixpoint add_chunks (fuel : nat) (child : CBS) (inner_tag : Z) : SM CBB unit :=
  match fuel with
  | O => nofuel
  | S fuel =>
      if negb (0 <? CBS_len child) then ret tt
      else
        let* (chunk, child) := parse child (CBS_get_asn1 inner_tag) in
        CBB_add_bytes 0 chunk;;
        add_chunks fuel child inner_tag
  end.

Definition CBS_get_asn1_implicit_string (outer_tag inner_tag : Z) : SM CBS (CBS * bool) :=
  let* primitive := CBS_peek_asn1_tag outer_tag in
  if primitive then let* o := CBS_get_asn1 outer_tag in ret (o, false)
  else
    let* cin := get in
    let* (r, result) := on_stream CBB_zero (CBB_init (CBS_len cin)) in
    match r with
    | None => fail
    | Some _ =>
        let* child := CBS_get_asn1 (Z.lor outer_tag CBS_ASN1_CONSTRUCTED) in
        let* (r, _) := on_stream result
          (add_chunks (S (length child)) child inner_tag;; CBB_finish 0 true) in
        match r with
        | Some data => ret (data, true)
        | None => fail
        end
    end.

End text.
