(* ===== verification/ConstTime.v ===== *)
(** The constant-time comparisons and selections of BoringSSL's crypto/internal.h.
    A [crypto_word_t] is 64 bits wide; masks are all ones for true and 0 for
    false. *)
From stdpp Require Import base numbers.
From Stdlib Require Import ZArith Lia.
From S2P Require Import Prelude.

Definition CONSTTIME_TRUE_W : Z := 2 ^ 64 - 1.
Definition CONSTTIME_TRUE_8 : Z := 0xff.

Definition constant_time_msb_w (a : Z) : Z := u64 (0 - Z.shiftr a (8 * 8 - 1)).

Definition constant_time_lt_w (a b : Z) : Z :=
  constant_time_msb_w (Z.lxor a (Z.lor (Z.lxor a b) (Z.lxor (u64 (a - b)) a))).

Definition constant_time_lt_8 (a b : Z) : Z := u8 (constant_time_lt_w a b).

Definition constant_time_ge_w (a b : Z) : Z := u64 (Z.lnot (constant_time_lt_w a b)).

Definition constant_time_ge_8 (a b : Z) : Z := u8 (constant_time_ge_w a b).

Definition constant_time_is_zero_w (a : Z) : Z :=
  constant_time_msb_w (Z.land (u64 (Z.lnot a)) (u64 (a - 1))).

Definition constant_time_is_zero_8 (a : Z) : Z := u8 (constant_time_is_zero_w a).

Definition constant_time_eq_w (a b : Z) : Z := constant_time_is_zero_w (Z.lxor a b).

Definition constant_time_eq_8 (a b : Z) : Z := u8 (constant_time_eq_w a b).

Definition constant_time_select_w (mask a b : Z) : Z :=
  Z.lor (Z.land mask a) (Z.land (u64 (Z.lnot mask)) b).

Definition constant_time_select_8 (mask a b : Z) : Z := u8 (constant_time_select_w mask a b).

(** * The masks are the comparisons *)

Definition mask_w (c : bool) : Z := if c then CONSTTIME_TRUE_W else 0.
Definition mask_8 (c : bool) : Z := if c then CONSTTIME_TRUE_8 else 0.

Lemma mask_w_8 c : u8 (mask_w c) = mask_8 c.
Proof. by destruct c. Qed.

Lemma msb_mask a : 0 <= a < 2 ^ 64 -> constant_time_msb_w a = mask_w (2 ^ 63 <=? a).
Proof.
  intros Ha. unfold constant_time_msb_w. rewrite shiftr_div by lia.
  change (8 * 8 - 1) with 63. destruct (Z.leb_spec (2 ^ 63) a).
  - replace (a / 2 ^ 63) with 1 by (apply (Z.div_unique_pos _ _ _ (a - 2 ^ 63)); lia). done.
  - rewrite Z.div_small by lia. done.
Qed.

(** The top bit of a word. *)
Definition msb (a : Z) : bool := Z.testbit a 63.

Lemma msb_leb a : 0 <= a < 2 ^ 64 -> (2 ^ 63 <=? a) = msb a.
Proof.
  intros Ha. unfold msb. rewrite Z.testbit_eqb by lia. destruct (Z.leb_spec (2 ^ 63) a).
  - replace (a / 2 ^ 63) with 1 by (apply (Z.div_unique_pos _ _ _ (a - 2 ^ 63)); lia). done.
  - rewrite Z.div_small by lia. done.
Qed.

Lemma lxor_range a b n : 0 <= n -> 0 <= a < 2 ^ n -> 0 <= b < 2 ^ n -> 0 <= Z.lxor a b < 2 ^ n.
Proof.
  intros Hn Ha Hb. assert (H0 : 0 <= Z.lxor a b) by (apply Z.lxor_nonneg; lia).
  split; [done|]. replace (Z.lxor a b) with (Z.lxor a b mod 2 ^ n); [apply Z.mod_pos_bound; lia|].
  apply Z.bits_inj'. intros i Hi. destruct (Z_lt_dec i n).
  - by rewrite Z.mod_pow2_bits_low by lia.
  - rewrite Z.mod_pow2_bits_high by lia. rewrite Z.lxor_spec.
    rewrite <- (Z.mod_small a (2 ^ n)), <- (Z.mod_small b (2 ^ n)) by lia.
    rewrite !Z.mod_pow2_bits_high by lia. done.
Qed.

Lemma land_range a b n : 0 <= n -> 0 <= a < 2 ^ n -> 0 <= b -> 0 <= Z.land a b < 2 ^ n.
Proof.
  intros Hn Ha Hb. split; [apply Z.land_nonneg; lia|].
  replace (Z.land a b) with (Z.land a b mod 2 ^ n); [apply Z.mod_pos_bound; lia|].
  apply Z.bits_inj'. intros i Hi. destruct (Z_lt_dec i n).
  - by rewrite Z.mod_pow2_bits_low by lia.
  - rewrite Z.mod_pow2_bits_high by lia. rewrite Z.land_spec.
    rewrite <- (Z.mod_small a (2 ^ n)) by lia.
    by rewrite Z.mod_pow2_bits_high by lia.
Qed.

Lemma lt_mask a b :
  0 <= a < 2 ^ 64 -> 0 <= b < 2 ^ 64 -> constant_time_lt_w a b = mask_w (a <? b).
Proof.
  intros Ha Hb. unfold constant_time_lt_w. pose proof (u64_range (a - b)) as Hd.
  rewrite msb_mask by (repeat first [apply lxor_range|apply lor_range]; lia).
  rewrite msb_leb by (repeat first [apply lxor_range|apply lor_range]; lia).
  unfold msb. rewrite Z.lxor_spec, Z.lor_spec, !Z.lxor_spec. fold (msb a) (msb b) (msb (u64 (a - b))).
  rewrite <- !msb_leb by lia. unfold u64 in *.
  destruct (Z.ltb_spec a b).
  - replace ((a - b) mod 2 ^ 64) with (a - b + 2 ^ 64) in *
      by (apply (Z.mod_unique_pos _ _ (-1)); lia).
    destruct (Z.leb_spec (2 ^ 63) a), (Z.leb_spec (2 ^ 63) b),
      (Z.leb_spec (2 ^ 63) (a - b + 2 ^ 64)); (done || lia).
  - rewrite (Z.mod_small (a - b)) in * by lia.
    destruct (Z.leb_spec (2 ^ 63) a), (Z.leb_spec (2 ^ 63) b),
      (Z.leb_spec (2 ^ 63) (a - b)); (done || lia).
Qed.

Lemma is_zero_mask a : 0 <= a < 2 ^ 64 -> constant_time_is_zero_w a = mask_w (a =? 0).
Proof.
  intros Ha. unfold constant_time_is_zero_w.
  assert (Hn : u64 (Z.lnot a) = 2 ^ 64 - 1 - a).
  { unfold u64, Z.lnot, Z.pred. symmetry. apply (Z.mod_unique_pos _ _ (-1)); lia. }
  rewrite msb_mask by (apply land_range; [lia|apply u64_range|apply u64_range]).
  rewrite msb_leb by (apply land_range; [lia|apply u64_range|apply u64_range]).
  unfold msb. rewrite Z.land_spec. fold (msb (u64 (Z.lnot a))) (msb (u64 (a - 1))).
  rewrite <- !msb_leb by apply u64_range. rewrite Hn. unfold u64.
  destruct (Z.eqb_spec a 0) as [-> |].
  - done.
  - rewrite Z.mod_small by lia.
    destruct (Z.leb_spec (2 ^ 63) (2 ^ 64 - 1 - a)), (Z.leb_spec (2 ^ 63) (a - 1)); (done || lia).
Qed.

Lemma eq_mask a b :
  0 <= a < 2 ^ 64 -> 0 <= b < 2 ^ 64 -> constant_time_eq_w a b = mask_w (a =? b).
Proof.
  intros Ha Hb. unfold constant_time_eq_w. rewrite is_zero_mask by (apply lxor_range; lia).
  f_equal. destruct (Z.eqb_spec a b) as [-> |Hne]; [by rewrite Z.lxor_nilpotent|].
  apply Z.eqb_neq. intros E. apply Hne. by apply Z.lxor_eq.
Qed.

Lemma select_mask c a b :
  0 <= a < 2 ^ 64 -> 0 <= b < 2 ^ 64 -> constant_time_select_w (mask_w c) a b = if c then a else b.
Proof.
  intros Ha Hb. unfold constant_time_select_w. destruct c; cbn [mask_w].
  - change (u64 (Z.lnot CONSTTIME_TRUE_W)) with 0. unfold CONSTTIME_TRUE_W.
    replace (2 ^ 64 - 1) with (Z.ones 64) by done.
    rewrite Z.land_comm, Z.land_ones, Z.mod_small by lia. by rewrite Z.land_0_l, Z.lor_0_r.
  - rewrite Z.land_0_l, Z.lor_0_l. change (u64 (Z.lnot 0)) with (Z.ones 64).
    rewrite Z.land_comm, Z.land_ones, Z.mod_small by lia. done.
Qed.

(** With an 8-bit mask the upper bits of [~mask] do no harm. *)
Lemma select_mask_8 c a b :
  0 <= a < 256 -> 0 <= b < 256 -> constant_time_select_8 (mask_8 c) a b = if c then a else b.
Proof.
  intros Ha Hb. unfold constant_time_select_8, constant_time_select_w. destruct c; cbn [mask_8].
  - replace (Z.land (u64 (Z.lnot CONSTTIME_TRUE_8)) b) with 0.
    + rewrite Z.lor_0_r, Z.land_comm. unfold CONSTTIME_TRUE_8. rewrite land_0xFF.
      rewrite Z.mod_small by lia. by apply u8_small.
    + change (u64 (Z.lnot CONSTTIME_TRUE_8)) with (Z.shiftl (Z.ones 56) 8).
      apply Z.bits_inj'. intros i Hi. rewrite Z.bits_0, Z.land_spec, Z.shiftl_spec by lia.
      destruct (Z_lt_dec i 8); [rewrite Z.testbit_neg_r by lia; done|].
      rewrite <- (Z.mod_small b (2 ^ 8)) by lia.
      by rewrite Z.mod_pow2_bits_high, andb_false_r by lia.
  - rewrite Z.land_0_l, Z.lor_0_l. change (u64 (Z.lnot 0)) with (Z.ones 64).
    rewrite Z.land_comm, Z.land_ones, Z.mod_small by lia. by apply u8_small.
Qed.

Lemma ge_mask a b :
  0 <= a < 2 ^ 64 -> 0 <= b < 2 ^ 64 -> constant_time_ge_w a b = mask_w (b <=? a).
Proof.
  intros Ha Hb. unfold constant_time_ge_w. rewrite lt_mask by done. rewrite Z.ltb_antisym.
  by destruct (b <=? a).
Qed.

(** The branch-free comparisons are the comparisons of unsigned 64-bit words, as
    all-ones or zero masks, and the selection picks by such a mask. *)
Theorem constant_time_spec a b :
  0 <= a < 2 ^ 64 -> 0 <= b < 2 ^ 64 ->
  constant_time_lt_w a b = mask_w (a <? b) /\
  constant_time_ge_w a b = mask_w (b <=? a) /\
  constant_time_is_zero_w a = mask_w (a =? 0) /\
  constant_time_eq_w a b = mask_w (a =? b) /\
  (forall c, constant_time_select_w (mask_w c) a b = if c then a else b).
Proof.
  intros Ha Hb. rewrite lt_mask, ge_mask, is_zero_mask, eq_mask by done. split_and!; try done.
  intros c. by apply select_mask.
Qed.

Lemma constant_time_spec_witness : constant_time_lt_w (2 ^ 63) 1 = mask_w (2 ^ 63 <? 1).
Proof. apply (constant_time_spec (2 ^ 63) 1); lia. Defined.
