(* ===== verification/Base64.v ===== *)
(** BoringSSL's base64, crypto/base64/base64.c.  What a function stores through its
    output pointer is the list it returns (the final NUL of the encoder included
    where the function stores one). *)
From stdpp Require Import base list numbers.
From Stdlib Require Import ZArith Lia.
From S2P Require Import Prelude ConstTime.

Definition INT_MAX : Z := 2 ^ 31 - 1.

(** * Characters *)

Definition constant_time_lt_args_8 (a b : Z) : Z := u8 (constant_time_msb_w (u64 (a - b))).

Definition constant_time_in_range_8 (a min max : Z) : Z :=
  constant_time_lt_args_8 (u8 (a - min)) (u8 (max - min + 1)).

Definition ch_plus : Z := 43.
Definition ch_slash : Z := 47.
Definition ch_0 : Z := 48.
Definition ch_9 : Z := 57.
Definition ch_equals : Z := 61.
Definition ch_A : Z := 65.
Definition ch_Z : Z := 90.
Definition ch_a : Z := 97.
Definition ch_z : Z := 122.
Definition ch_space : Z := 32.
Definition ch_tab : Z := 9.
Definition ch_cr : Z := 13.
Definition ch_nl : Z := 10.

Definition conv_bin2ascii (a : Z) : Z :=
  let a := Z.land (u8 a) 0x3f in
  let r := constant_time_select_8 (constant_time_eq_8 a 62) ch_plus ch_slash in
  let r := constant_time_select_8 (constant_time_lt_args_8 a 62) (u8 (a - 52 + ch_0)) r in
  let r := constant_time_select_8 (constant_time_lt_args_8 a 52) (u8 (a - 26 + ch_a)) r in
  constant_time_select_8 (constant_time_lt_args_8 a 26) (u8 (a + ch_A)) r.

Definition base64_ascii_to_bin (a : Z) : Z :=
  let is_upper := constant_time_in_range_8 a ch_A ch_Z in
  let is_lower := constant_time_in_range_8 a ch_a ch_z in
  let is_digit := constant_time_in_range_8 a ch_0 ch_9 in
  let is_plus := constant_time_eq_8 a ch_plus in
  let is_slash := constant_time_eq_8 a ch_slash in
  let is_equals := constant_time_eq_8 a ch_equals in
  let r := 0 in
  let r := u8 (Z.lor r (Z.land is_upper (a - ch_A))) in
  let r := u8 (Z.lor r (Z.land is_lower (a - ch_a + 26))) in
  let r := u8 (Z.lor r (Z.land is_digit (a - ch_0 + 52))) in
  let r := u8 (Z.lor r (Z.land is_plus 62)) in
  let r := u8 (Z.lor r (Z.land is_slash 63)) in
  let is_valid := Z.lor (Z.lor (Z.lor (Z.lor (Z.lor is_upper is_lower) is_digit) is_plus)
                               is_slash) is_equals in
  u8 (Z.lor r (Z.lnot is_valid)).

(** * Lengths *)

Definition EVP_EncodedLength (len : Z) : option Z :=
  if u64 (len + 2) <? len then None
  else
    let len := u64 (len + 2) / 3 in
    if negb (Z.shiftr (u64 (Z.shiftl len 2)) 2 =? len) then None
    else
      let len := u64 (Z.shiftl len 2) in
      if u64 (len + 1) <? len then None else Some (u64 (len + 1)).

Definition EVP_DecodedLength (len : Z) : option Z :=
  if negb (len mod 4 =? 0) then None else Some (len / 4 * 3).

(** * Encoding *)

(** The four characters of a full group. *)
Definition encode_group (l : Z) : list Z :=
  [conv_bin2ascii (Z.shiftr l 18); conv_bin2ascii (Z.shiftr l 12);
   conv_bin2ascii (Z.shiftr l 6); conv_bin2ascii l].

(** The loop of [EVP_EncodeBlock] over what remains of [src]. *)
Fixpoint encode_groups (src : list Z) : list Z :=
  match src with
  | [] => []
  | [s0] =>
      let l := Z.shiftl s0 16 in
      [conv_bin2ascii (Z.shiftr l 18); conv_bin2ascii (Z.shiftr l 12); ch_equals; ch_equals]
  | [s0; s1] =>
      let l := Z.lor (Z.shiftl s0 16) (Z.shiftl s1 8) in
      [conv_bin2ascii (Z.shiftr l 18); conv_bin2ascii (Z.shiftr l 12);
       conv_bin2ascii (Z.shiftr l 6); ch_equals]
  | s0 :: s1 :: s2 :: src =>
      let l := Z.lor (Z.lor (Z.shiftl s0 16) (Z.shiftl s1 8)) s2 in
      encode_group l ++ encode_groups src
  end.

(** What is stored at [dst], and the return value. *)
Definition EVP_EncodeBlock (src : list Z) : list Z * Z :=
  let dst := encode_groups src in (dst ++ [0], Z.of_nat (length dst)).

(** [EVP_ENCODE_CTX]: the valid part of [data] ([data_used] bytes) and the decoder's
    flags. *)
Record EVP_ENCODE_CTX := mk_ctx {
  data : list Z;
  eof_seen : bool;
  error_encountered : bool;
}.

Definition sizeof_data : nat := 48.

Definition EVP_EncodeInit : EVP_ENCODE_CTX := mk_ctx [] false false.

(** An encoded line at [out]: its characters and a newline (the NUL behind it is
    overwritten by the next line). *)
Definition encode_line (l : list Z) : list Z := encode_groups l ++ [ch_nl].

(** [while (in_len >= sizeof(ctx->data))]: what is stored, the total ([None] when it
    overflows) and the rest of the input. *)
Fixpoint encode_full_lines (fuel : nat) (cin : list Z) (total : Z) : list Z * option Z * list Z :=
  match fuel with
  | O => ([], Some total, cin)
  | S fuel =>
      if (sizeof_data <=? length cin)%nat then
        let line := encode_line (take sizeof_data cin) in
        let encoded := Z.of_nat (length line) - 1 in
        if u64 (total + encoded + 1) <? total then (line, None, drop sizeof_data cin)
        else
          let '(l, t, rest) :=
            encode_full_lines fuel (drop sizeof_data cin) (u64 (total + (encoded + 1))) in
          (line ++ l, t, rest)
      else ([], Some total, cin)
  end.

(** The context afterwards, the bytes stored and [*out_len]. *)
Definition EVP_EncodeUpdate (ctx : EVP_ENCODE_CTX) (cin : list Z)
  : EVP_ENCODE_CTX * list Z * Z :=
  let set d := mk_ctx d (eof_seen ctx) (error_encountered ctx) in
  if (length cin =? 0)%nat then (ctx, [], 0)
  else if (length cin <? sizeof_data - length (data ctx))%nat
  then (set (data ctx ++ cin), [], 0)
  else
    let todo := (sizeof_data - length (data ctx))%nat in
    let '(first, total, cin) :=
      if negb (length (data ctx) =? 0)%nat then
        let line := encode_line (data ctx ++ take todo cin) in
        (line, Z.of_nat (length line), drop todo cin)
      else ([], 0, cin) in
    let '(lines, total, rest) := encode_full_lines (length cin) cin total in
    match total with
    | None => (set (if negb (length (data ctx) =? 0)%nat then [] else data ctx), first ++ lines, 0)
    | Some total => (set rest, first ++ lines, if INT_MAX <? total then 0 else total)
    end.

Definition EVP_EncodeFinal (ctx : EVP_ENCODE_CTX) : EVP_ENCODE_CTX * list Z * Z :=
  if (length (data ctx) =? 0)%nat then (ctx, [], 0)
  else
    let line := encode_line (data ctx) in
    (mk_ctx [] (eof_seen ctx) (error_encountered ctx), line ++ [0], Z.of_nat (length line)).

(** * Decoding *)

Definition EVP_DecodeInit : EVP_ENCODE_CTX := mk_ctx [] false false.

(** The bytes stored, as many as [*out_num_bytes]. *)
Definition base64_decode_quad (in0 in1 in2 in3 : Z) : option (list Z) :=
  let a := base64_ascii_to_bin in0 in
  let b := base64_ascii_to_bin in1 in
  let c := base64_ascii_to_bin in2 in
  let d := base64_ascii_to_bin in3 in
  if (a =? 0xff) || (b =? 0xff) || (c =? 0xff) || (d =? 0xff) then None
  else
    let v := Z.lor (Z.lor (Z.lor (Z.shiftl a 18) (Z.shiftl b 12)) (Z.shiftl c 6)) d in
    let is_eq x := b2z (x =? ch_equals) in
    let padding_pattern :=
      Z.lor (Z.lor (Z.lor (Z.shiftl (is_eq in0) 3) (Z.shiftl (is_eq in1) 2))
                   (Z.shiftl (is_eq in2) 1)) (is_eq in3) in
    if padding_pattern =? 0 then Some [u8 (Z.shiftr v 16); u8 (Z.shiftr v 8); u8 v]
    else if padding_pattern =? 1 then Some [u8 (Z.shiftr v 16); u8 (Z.shiftr v 8)]
    else if padding_pattern =? 3 then Some [u8 (Z.shiftr v 16)]
    else None.

Definition is_space (c : Z) : bool :=
  (c =? ch_space) || (c =? ch_tab) || (c =? ch_cr) || (c =? ch_nl).

(** One round of the loop of [EVP_DecodeUpdate]: the context and the bytes stored;
    [None] is [return -1] (the context has [error_encountered] set). *)
Definition decode_char (ctx : EVP_ENCODE_CTX) (c : Z) : EVP_ENCODE_CTX * option (list Z) :=
  if is_space c then (ctx, Some [])
  else if eof_seen ctx then (mk_ctx (data ctx) (eof_seen ctx) true, None)
  else
    match data ctx ++ [c] with
    | [in0; in1; in2; in3] =>
        match base64_decode_quad in0 in1 in2 in3 with
        | None => (mk_ctx [in0; in1; in2; in3] (eof_seen ctx) true, None)
        | Some bytes => (mk_ctx [] ((length bytes <? 3)%nat || eof_seen ctx) (error_encountered ctx),
                         Some bytes)
        end
    | d => (mk_ctx d (eof_seen ctx) (error_encountered ctx), Some [])
    end.

Fixpoint decode_chars (ctx : EVP_ENCODE_CTX) (cin : list Z) : EVP_ENCODE_CTX * list Z * bool :=
  match cin with
  | [] => (ctx, [], true)
  | c :: cin =>
      match decode_char ctx c with
      | (ctx, None) => (ctx, [], false)
      | (ctx, Some bytes) =>
          let '(ctx, l, ok) := decode_chars ctx cin in (ctx, bytes ++ l, ok)
      end
  end.

(** The context afterwards, the bytes stored, [*out_len] and the return value. *)
Definition EVP_DecodeUpdate (ctx : EVP_ENCODE_CTX) (cin : list Z)
  : EVP_ENCODE_CTX * list Z * Z * Z :=
  if error_encountered ctx then (ctx, [], 0, -1)
  else
    let '(ctx, out, ok) := decode_chars ctx cin in
    if negb ok then (ctx, out, 0, -1)
    else
      let bytes_out := Z.of_nat (length out) in
      if INT_MAX <? bytes_out then (mk_ctx (data ctx) (eof_seen ctx) true, out, 0, -1)
      else (ctx, out, bytes_out, if eof_seen ctx then 0 else 1).

(** [*out_len] is 0; the return value. *)
Definition EVP_DecodeFinal (ctx : EVP_ENCODE_CTX) : Z :=
  if error_encountered ctx || negb (length (data ctx) =? 0)%nat then -1 else 1.

(** The loop of [EVP_DecodeBase64]: a short group only at the end. *)
Fixpoint decode_quads (cin : list Z) : option (list Z) :=
  match cin with
  | in0 :: in1 :: in2 :: in3 :: rest =>
      match base64_decode_quad in0 in1 in2 in3 with
      | None => None
      | Some bytes =>
          if negb (length bytes =? 3)%nat && negb (length rest =? 0)%nat then None
          else match decode_quads rest with
               | Some l => Some (bytes ++ l)
               | None => None
               end
      end
  | _ => Some []
  end.

(** [None] is a return value of 0. *)
Definition EVP_DecodeBase64 (max_out : Z) (cin : list Z) : option (list Z) :=
  let in_len := Z.of_nat (length cin) in
  if negb (in_len mod 4 =? 0) then None
  else
    match EVP_DecodedLength in_len with
    | None => None
    | Some max_len => if max_out <? max_len then None else decode_quads cin
    end.

Fixpoint trim_start (src : list Z) : list Z :=
  match src with
  | c :: rest => if negb (c =? ch_space) && negb (c =? ch_tab) then src else trim_start rest
  | [] => []
  end.

(** From the last character of the reversed line. *)
Fixpoint trim_rev (src : list Z) : list Z :=
  match src with
  | c :: rest => if is_space c then trim_rev rest else src
  | [] => []
  end.

Definition trim_end (src : list Z) : list Z := rev (trim_rev (rev src)).

(** [while (dst_len % 3 != 0) dst[dst_len++] = 0] *)
Definition pad_to_group (l : list Z) : list Z :=
  l ++ repeat 0 ((3 - length l mod 3) mod 3).

(** [None] is a return value of -1; otherwise the bytes stored. *)
Definition EVP_DecodeBlock (src : list Z) : option (list Z) :=
  let src := trim_end (trim_start src) in
  match EVP_DecodedLength (Z.of_nat (length src)) with
  | None => None
  | Some dst_len =>
      if INT_MAX <? dst_len then None
      else match EVP_DecodeBase64 dst_len src with
           | None => None
           | Some l => Some (pad_to_group l)
           end
  end.
