(* ===== verification/CbsThms.v ===== *)
(** The encodings of DER as pure functions on byte strings (base-128 integers, tags,
    lengths, integers), and the readers of [Cbs] related to them. *)
From stdpp Require Import base list numbers option.
From Stdlib Require Import ZArith Lia.
From S2P Require Import Prelude Cmem Cbs.

(** * Taking bytes from the view *)

Lemma CBS_len_app l1 l2 : CBS_len (l1 ++ l2) = CBS_len l1 + CBS_len l2.
Proof. unfold CBS_len. rewrite length_app. lia. Qed.

Lemma CBS_len_nonneg l : 0 <= CBS_len l.
Proof. unfold CBS_len. lia. Qed.

Lemma cbs_get_app p r n w : n = CBS_len p -> cbs_get n (p ++ r) w = Ok p r w.
Proof.
  intros ->. unfold cbs_get, CBS_len. cbn [bind get]. rewrite length_app.
  destruct (Z.ltb_spec (Z.of_nat (length p + length r)) (Z.of_nat (length p))); [lia|].
  cbn [bind put ret]. rewrite Nat2Z.id. by rewrite take_app_length, drop_app_length.
Qed.

Lemma cbs_get_short n l w : CBS_len l < n -> cbs_get n l w = Err l w.
Proof. intros Hn. unfold cbs_get. cbn [bind get]. destruct (Z.ltb_spec (CBS_len l) n); [done|lia]. Qed.

Lemma cbs_get_inv n l w p r w' :
  cbs_get n l w = Ok p r w' -> 0 <= n -> l = p ++ r /\ CBS_len p = n /\ w' = w.
Proof.
  intros E Hn. unfold cbs_get in E. cbn [bind get] in E.
  destruct (Z.ltb_spec (CBS_len l) n); [done|]. cbn [bind put ret] in E. injection E as <- <- <-.
  split; [by rewrite take_drop|]. split; [|done]. unfold CBS_len in *. rewrite length_take. lia.
Qed.

Lemma get_u8_cons b r w : CBS_get_u8 (b :: r) w = Ok b r w.
Proof.
  unfold CBS_get_u8. cbn [bind].
  by rewrite (cbs_get_app [b] r 1 w eq_refl : cbs_get 1 (b :: r) w = _).
Qed.

Lemma get_u8_nil w : CBS_get_u8 [] w = Err [] w.
Proof. unfold CBS_get_u8. cbn [bind]. by rewrite cbs_get_short. Qed.

(** The big-endian accumulation. *)
Lemma get_u_fold data acc :
  is_bytes data -> 0 <= acc -> (acc + 1) * 256 ^ Z.of_nat (length data) <= 2 ^ 64 ->
  fold_left (fun result b => Z.lor (u64 (Z.shiftl result 8)) b) data acc = be_val_acc acc data.
Proof.
  intros Hd. revert acc. induction Hd as [|b data Hb Hd IH]; intros acc Ha Hr; [done|].
  cbn [fold_left be_val_acc length] in *. rewrite Nat2Z.inj_succ, Z.pow_succ_r in Hr by lia.
  pose proof (Z.pow_pos_nonneg 256 (Z.of_nat (length data)) ltac:(lia) ltac:(lia)).
  rewrite Z.shiftl_mul_pow2 by lia. change (2 ^ 8) with 256.
  rewrite u64_small by nia. rewrite Z.lor_comm.
  change 256 with (2 ^ 8) at 1. rewrite lor_add_shifted by lia. change (2 ^ 8) with 256.
  replace (b + acc * 256) with (256 * acc + b) by lia. apply IH; nia.
Qed.

Lemma cbs_get_u_app p r n w :
  n = CBS_len p -> n <= 8 -> is_bytes p -> cbs_get_u n (p ++ r) w = Ok (be_val p) r w.
Proof.
  intros En Hn Hp. unfold cbs_get_u. cbn [bind]. rewrite cbs_get_app by done. cbn [bind ret].
  rewrite get_u_fold; [done|done|lia|]. unfold CBS_len in En.
  assert (256 ^ Z.of_nat (length p) <= 256 ^ 8) by (apply Z.pow_le_mono_r; lia). lia.
Qed.

(** * Base-128 integers, most significant group first *)

(** The [n]-byte form of [v]: all bytes but the last are marked. *)
Fixpoint fixed128 (n : nat) (v : Z) : list Z :=
  match n with
  | O => []
  | S i => (v / 128 ^ Z.of_nat i mod 128 + if (i =? 0)%nat then 0 else 128) :: fixed128 i v
  end.

Fixpoint groups128 (fuel : nat) (v : Z) : nat :=
  match fuel with
  | O => O
  | S fuel => if 0 <? v then S (groups128 fuel (v / 128)) else O
  end.

(** The minimal form. *)
Definition base128 (v : Z) : list Z := fixed128 (Nat.max 1 (groups128 10 v)) v.

(** What the parser computes from the accumulated [v]. *)
Fixpoint parse128 (v : Z) (l : list Z) : option (Z * list Z) :=
  match l with
  | [] => None
  | b :: l =>
      if negb (v / 2 ^ 57 =? 0) then None
      else if (v =? 0) && (b =? 128) then None
      else
        let v := v * 128 + b mod 128 in
        if b <? 128 then Some (v, l) else parse128 v l
  end.

Lemma or_group v b :
  0 <= v < 2 ^ 57 -> Z.lor (u64 (Z.shiftl v 7)) (Z.land b 0x7f) = v * 128 + b mod 128.
Proof.
  intros Hv. rewrite land_0x7F, Z.shiftl_mul_pow2, u64_small by lia.
  pose proof (Z.mod_pos_bound b 128 ltac:(lia)).
  rewrite Z.lor_comm, lor_add_shifted by lia. change (2 ^ 7) with 128. lia.
Qed.

(** The view a failed parse leaves is of no interest. *)
Definition parse_result {A} (r : option (A * CBS)) (x : res CBS A) (w : world) : Prop :=
  match r with
  | Some (a, rest) => x = Ok a rest w
  | None => exists rest, x = Err rest w
  end.

Lemma parse_base128_loop l : forall fuel v w,
  (length l < fuel)%nat -> is_bytes l -> 0 <= v < 2 ^ 64 ->
  parse_result (parse128 v l) (loop fuel base128_step v l w) w.
Proof.
  induction l as [|b l IH]; intros fuel v w Hf Hl Hv; (destruct fuel as [|fuel]; [lia|]);
    cbn [loop bind parse128]; unfold base128_step; cbn [bind].
  - rewrite get_u8_nil. by eexists.
  - apply Forall_cons_1 in Hl as [Hb Hl]. rewrite get_u8_cons. cbn [bind].
    rewrite shiftr_div by lia. change (64 - 7) with 57.
    destruct (Z.eqb_spec (v / 2 ^ 57) 0) as [E57|]; cbn [negb]; [|by eexists].
    change 0x80 with 128. destruct ((v =? 0) && (b =? 128)); [by eexists|].
    assert (v < 2 ^ 57) by (apply Z.div_small_iff in E57; lia).
    rewrite land_0x80, or_group by (done || lia).
    pose proof (Z.mod_pos_bound b 128 ltac:(lia)).
    destruct (Z.ltb_spec b 128); cbn [negb ret bind]; [done|].
    apply IH; [cbn in Hf; lia|done|lia].
Qed.

Lemma parse_base128_ok l w :
  is_bytes l -> parse_result (parse128 0 l) (parse_base128_integer l w) w.
Proof.
  intros Hl. unfold parse_base128_integer. cbn [bind get].
  apply parse_base128_loop; [lia|done|lia].
Qed.

Lemma pow_128_pos n : 0 < 128 ^ Z.of_nat n.
Proof. apply Z.pow_pos_nonneg; lia. Qed.

Lemma div_128_succ n v : v / 128 ^ Z.of_nat (S n) = v / 128 ^ Z.of_nat n / 128.
Proof.
  pose proof (pow_128_pos n). rewrite pow_128_succ, (Z.mul_comm 128), Z.div_div by lia. done.
Qed.

Lemma div_pow_le n v : 0 <= v -> 0 <= v / 128 ^ Z.of_nat n <= v.
Proof.
  intros Hv. pose proof (pow_128_pos n). split; [by apply Z.div_pos|].
  apply Z.div_le_upper_bound; [lia|].
  rewrite <- (Z.mul_1_l v) at 1. apply Z.mul_le_mono_nonneg_r; lia.
Qed.

(** The parser reads the fixed-length forms without superfluous groups ... *)
Lemma parse128_fixed n : forall v r,
  0 <= v < 2 ^ 64 ->
  v / 128 ^ Z.of_nat (S n) <> 0 \/ n = O \/ v / 128 ^ Z.of_nat n <> 0 ->
  parse128 (v / 128 ^ Z.of_nat (S n)) (fixed128 (S n) v ++ r) = Some (v, r).
Proof.
  induction n as [|n IH]; intros v r Hv Hmin; set (a := v / 128 ^ Z.of_nat (S _)) in *;
    pose proof (div_128_succ 0 v) as E0; change (128 ^ Z.of_nat 0) with 1 in E0;
    rewrite Z.div_1_r in E0.
  - assert (Ea : a = v / 128) by exact E0.
    cbn [fixed128 app parse128]. change (128 ^ Z.of_nat 0) with 1. rewrite Z.div_1_r.
    change (0 =? 0)%nat with true. cbv iota. rewrite Z.add_0_r.
    assert (a / 2 ^ 57 = 0) as -> by (apply Z.div_small; split; [zdiv_lia|zdiv_lia]).
    pose proof (Z.mod_pos_bound v 128 ltac:(lia)). rewrite Z.mod_mod by lia. cbn [Z.eqb negb].
    destruct (Z.eqb_spec (v mod 128) 128); [lia|]. rewrite andb_false_r.
    destruct (Z.ltb_spec (v mod 128) 128); [|lia]. do 2 f_equal. zdiv_lia.
  - assert (Ea : a = v / 128 ^ Z.of_nat (S n) / 128) by apply div_128_succ.
    pose proof (pow_128_pos (S n)) as Hp. set (c := v / 128 ^ Z.of_nat (S n)) in *.
    assert (Hc : 0 <= c) by (apply Z.div_pos; lia).
    assert (Hcv : 128 * c <= v).
    { unfold c. rewrite div_128_succ. pose proof (div_pow_le n v ltac:(lia)) as Hle.
      generalize dependent (v / 128 ^ Z.of_nat n). intros d Hd. clear - Hd. zdiv_lia. }
    change (fixed128 (S (S n)) v) with ((c mod 128 + 128) :: fixed128 (S n) v).
    cbn [app parse128].
    assert (a / 2 ^ 57 = 0) as -> by (apply Z.div_small; split; zdiv_lia).
    cbn [Z.eqb negb]. pose proof (Z.mod_pos_bound c 128 ltac:(lia)).
    destruct ((a =? 0) && (c mod 128 + 128 =? 128)) eqn:Ez.
    { to_prop. destruct Hmin as [?|[?|Hmin]]; [lia|lia|]. fold c in Hmin. zdiv_lia. }
    destruct (Z.ltb_spec (c mod 128 + 128) 128); [lia|].
    replace (a * 128 + (c mod 128 + 128) mod 128) with c by zdiv_lia.
    unfold c. apply IH; [done|].
    destruct (Z.eq_dec c 0) as [Ec|]; [|by left]. exfalso.
    rewrite Ec in Ea. change (0 / 128) with 0 in Ea. destruct Hmin as [?|[?|?]]; (done || lia).
Qed.

(** ... and nothing else. *)
Lemma parse128_inv l : forall a v r,
  is_bytes l -> 0 <= a -> parse128 a l = Some (v, r) ->
  exists n, l = fixed128 (S n) v ++ r /\ v / 128 ^ Z.of_nat (S n) = a /\ 0 <= v /\
    v < 2 ^ 64 /\ (a <> 0 \/ n = O \/ v / 128 ^ Z.of_nat n <> 0).
Proof.
  induction l as [|b l IH]; intros a v r Hl Ha E; [done|]. cbn [parse128] in E.
  apply Forall_cons_1 in Hl as [Hb Hl].
  destruct (Z.eqb_spec (a / 2 ^ 57) 0) as [E57|]; cbn [negb] in E; [|done].
  destruct ((a =? 0) && (b =? 128)) eqn:Ez; [done|].
  assert (Ha57 : a < 2 ^ 57) by (apply Z.div_small_iff in E57; lia).
  destruct (Z.ltb_spec b 128) as [Hlast|Hmore].
  - injection E as <- <-. exists O. cbn [fixed128 app]. change (0 =? 0)%nat with true.
    change (128 ^ Z.of_nat 0) with 1. change (128 ^ Z.of_nat 1) with 128. rewrite Z.div_1_r.
    rewrite (Z.mod_small b) by lia. split_and!; [|zdiv_lia|lia|lia|by right; left].
    f_equal. zdiv_lia.
  - set (a' := a * 128 + b mod 128) in *. assert (Ha' : 0 <= a') by (unfold a'; zdiv_lia).
    destruct (IH a' v r Hl Ha' E) as (n & -> & Ev & Hv & Hlim & Hmin).
    exists (S n). assert (Eb : b = a' mod 128 + 128) by (unfold a'; zdiv_lia).
    split_and!; [by rewrite Eb, <- Ev|rewrite div_128_succ, Ev; unfold a'; zdiv_lia|done|done|].
    destruct (Z.eq_dec a 0) as [->|]; [|by left]. right; right. rewrite Ev.
    apply andb_false_iff in Ez as [Ez|Ez]; [done|]. apply Z.eqb_neq in Ez. unfold a'. zdiv_lia.
Qed.

Lemma groups128_spec fuel : forall v,
  0 <= v < 128 ^ Z.of_nat fuel ->
  v / 128 ^ Z.of_nat (groups128 fuel v) = 0 /\
  forall j, (j < groups128 fuel v)%nat -> v / 128 ^ Z.of_nat j <> 0.
Proof.
  induction fuel as [|fuel IH]; intros v Hv.
  - change (128 ^ Z.of_nat 0) with 1 in Hv. assert (v = 0) as -> by lia. split; [done|]. cbn; lia.
  - cbn [groups128]. destruct (Z.ltb_spec 0 v); [|assert (v = 0) as -> by lia; split; [done|cbn; lia]].
    rewrite pow_128_succ in Hv.
    destruct (IH (v / 128)) as [H1 H2];
      [split; [apply Z.div_pos; lia|apply Z.div_lt_upper_bound; lia]|].
    assert (Hd : forall k, v / 128 ^ Z.of_nat (S k) = v / 128 / 128 ^ Z.of_nat k).
    { intros k. pose proof (pow_128_pos k). by rewrite pow_128_succ, Z.div_div by lia. }
    split; [by rewrite Hd|]. intros [|j] Hj.
    + change (128 ^ Z.of_nat 0) with 1. rewrite Z.div_1_r. lia.
    + rewrite Hd. apply H2. lia.
Qed.

Lemma div_zero_mono j k v : 0 <= v -> (j <= k)%nat -> v / 128 ^ Z.of_nat j = 0 -> v / 128 ^ Z.of_nat k = 0.
Proof.
  intros Hv Hjk E. pose proof (pow_128_pos j). apply Z.div_small_iff in E; [|lia].
  assert (128 ^ Z.of_nat j <= 128 ^ Z.of_nat k) by (apply Z.pow_le_mono_r; lia).
  apply Z.div_small. lia.
Qed.

Lemma base128_unique n v :
  0 <= v < 2 ^ 64 -> v / 128 ^ Z.of_nat (S n) = 0 ->
  n = O \/ v / 128 ^ Z.of_nat n <> 0 -> base128 v = fixed128 (S n) v.
Proof.
  intros Hv E Hmin. unfold base128. f_equal.
  destruct (groups128_spec 10 v) as [H1 H2]; [change (128 ^ Z.of_nat 10) with (2 ^ 70); lia|].
  set (g := groups128 10 v) in *.
  assert (g <= S n)%nat.
  { destruct (le_lt_dec g (S n)); [done|]. by destruct (H2 (S n)). }
  destruct Hmin as [-> | Hmin]; [lia|].
  assert (n < g)%nat; [|lia]. destruct (le_lt_dec g n); [|done].
  exfalso. apply Hmin. apply (div_zero_mono g); (done || lia).
Qed.

Lemma base128_form v :
  0 <= v < 2 ^ 64 -> exists n, base128 v = fixed128 (S n) v /\ v / 128 ^ Z.of_nat (S n) = 0 /\
    (n = O \/ v / 128 ^ Z.of_nat n <> 0).
Proof.
  intros Hv. unfold base128.
  destruct (groups128_spec 10 v) as [H1 H2]; [change (128 ^ Z.of_nat 10) with (2 ^ 70); lia|].
  destruct (groups128 10 v) as [|g] eqn:Eg.
  - exists O. split; [done|]. split; [|by left]. apply (div_zero_mono 0); [lia|lia|done].
  - exists g. replace (Nat.max 1 (S g)) with (S g) by lia. split_and!; [done|done|].
    destruct g; [by left|right]. apply H2. lia.
Qed.

(** The parser accepts exactly the minimal forms of 64-bit values. *)
Lemma parse128_iff l v r :
  is_bytes l ->
  parse128 0 l = Some (v, r) <-> 0 <= v < 2 ^ 64 /\ l = base128 v ++ r.
Proof.
  intros Hl. split.
  - intros E. destruct (parse128_inv l 0 v r Hl ltac:(lia) E) as (n & -> & Ev & H1 & H2 & Hmin).
    split; [lia|]. rewrite (base128_unique n) by (try done; destruct Hmin as [?|[?|?]]; auto; lia).
    done.
  - intros [Hv ->]. destruct (base128_form v Hv) as (n & -> & E & Hmin).
    rewrite <- E. apply parse128_fixed; [done|]. by right.
Qed.

Lemma fixed128_bytes n v : is_bytes (fixed128 n v).
Proof.
  induction n as [|n IH]; cbn [fixed128]; constructor; [|done].
  pose proof (Z.mod_pos_bound (v / 128 ^ Z.of_nat n) 128 ltac:(lia)). destruct (n =? 0)%nat; lia.
Qed.

Lemma base128_bytes v : is_bytes (base128 v).
Proof. apply fixed128_bytes. Qed.

(** * Tags *)

(** Class and constructed bit are the top three bits of a tag, in memory above a
    29-bit number, on the wire above a five-bit one that escapes to base 128. *)
Definition der_tag (tag : Z) : list Z :=
  let bits := tag / 2 ^ 29 in
  let number := tag mod 2 ^ 29 in
  if number <? 31 then [bits * 32 + number] else (bits * 32 + 31) :: base128 number.

Definition parse_tag (l : list Z) : option (Z * list Z) :=
  match l with
  | [] => None
  | t :: l =>
      if t mod 32 =? 31 then
        match parse128 0 l with
        | Some (v, r) => if (2 ^ 29 - 1 <? v) || (v <? 31) then None
                         else Some (t / 32 * 2 ^ 29 + v, r)
        | None => None
        end
      else Some (t / 32 * 2 ^ 29 + t mod 32, l)
  end.

Lemma land_0x1f t : Z.land t 0x1f = t mod 32.
Proof. change 0x1f with (Z.ones 5). by rewrite Z.land_ones by lia. Qed.

Lemma land_0xe0 t : is_byte t -> Z.land t 0xe0 = t / 32 * 32.
Proof.
  intros Ht.
  assert (E : forall n, (n < 256)%nat -> Z.land (Z.of_nat n) 0xe0 = Z.of_nat n / 32 * 32).
  { intros n Hn. do 256 (destruct n as [|n]; [reflexivity|]). lia. }
  rewrite <- (Z2Nat.id t) by lia. apply E. lia.
Qed.

Lemma tag_word t number :
  is_byte t -> 0 <= number < 2 ^ 29 ->
  Z.lor (Z.shiftl (Z.land t 0xe0) CBS_ASN1_TAG_SHIFT) number = t / 32 * 2 ^ 29 + number.
Proof.
  intros Ht Hn. rewrite land_0xe0 by done. unfold CBS_ASN1_TAG_SHIFT.
  rewrite Z.shiftl_mul_pow2 by lia.
  replace (t / 32 * 32 * 2 ^ 24) with (t / 32 * 2 ^ 29) by lia.
  rewrite Z.lor_comm, lor_add_shifted by lia. lia.
Qed.

Lemma parse_asn1_tag_ok l w :
  is_bytes l -> parse_result (parse_tag l) (parse_asn1_tag l w) w.
Proof.
  intros Hl. unfold parse_asn1_tag, parse_tag. cbn [bind]. destruct l as [|t l].
  { rewrite get_u8_nil. by eexists. }
  apply Forall_cons_1 in Hl as [Ht Hl]. rewrite get_u8_cons. cbn [bind].
  rewrite land_0x1f. change 0x1f with 31.
  pose proof (Z.mod_pos_bound t 32 ltac:(lia)).
  destruct (Z.eqb_spec (t mod 32) 31); cbn [bind ret].
  - pose proof (parse_base128_ok l w Hl) as Hp. destruct (parse128 0 l) as [[v r]|] eqn:E.
    + cbn [parse_result] in Hp. rewrite Hp. cbn [bind]. apply parse128_iff in E as [Hv _]; [|done].
      change CBS_ASN1_TAG_NUMBER_MASK with (2 ^ 29 - 1).
      destruct ((2 ^ 29 - 1 <? v) || (v <? 31)) eqn:Eb; [by eexists|]. to_prop.
      cbn [ret bind parse_result]. by rewrite tag_word by lia.
    + destruct Hp as [r ->]. by eexists.
  - cbn [parse_result]. by rewrite tag_word by lia.
Qed.

Lemma der_tag_bytes tag : 0 <= tag < 2 ^ 32 -> is_bytes (der_tag tag).
Proof.
  intros Ht. unfold der_tag.
  assert (0 <= tag / 2 ^ 29 < 8) by (split; [apply Z.div_pos|apply Z.div_lt_upper_bound]; lia).
  pose proof (Z.mod_pos_bound tag (2 ^ 29) ltac:(lia)).
  destruct (Z.ltb_spec (tag mod 2 ^ 29) 31).
  - repeat constructor; lia.
  - constructor; [lia|apply base128_bytes].
Qed.

Lemma parse_tag_iff l tag r :
  is_bytes l ->
  parse_tag l = Some (tag, r) <-> 0 <= tag < 2 ^ 32 /\ l = der_tag tag ++ r.
Proof.
  intros Hl. unfold der_tag. split.
  - unfold parse_tag. destruct l as [|t l]; [done|]. apply Forall_cons_1 in Hl as [Ht Hl].
    assert (Hd : 0 <= t / 32 < 8) by (split; [apply Z.div_pos|apply Z.div_lt_upper_bound]; lia).
    destruct (Z.eqb_spec (t mod 32) 31) as [E31|].
    + destruct (parse128 0 l) as [[v r']|] eqn:E; [|done].
      apply parse128_iff in E as [Hv ->]; [|done].
      destruct (_ || _) eqn:Eb; [done|]. to_prop. intros [= <- <-].
      replace ((t / 32 * 2 ^ 29 + v) / 2 ^ 29) with (t / 32)
        by (apply (Z.div_unique_pos _ _ _ v); lia).
      replace ((t / 32 * 2 ^ 29 + v) mod 2 ^ 29) with v
        by (apply (Z.mod_unique_pos _ _ (t / 32)); lia). split; [lia|].
      destruct (Z.ltb_spec v 31); [lia|]. cbn [app]. f_equal. zdiv_lia.
    + intros [= <- <-]. pose proof (Z.mod_pos_bound t 32 ltac:(lia)).
      replace ((t / 32 * 2 ^ 29 + t mod 32) / 2 ^ 29) with (t / 32)
        by (apply (Z.div_unique_pos _ _ _ (t mod 32)); lia).
      replace ((t / 32 * 2 ^ 29 + t mod 32) mod 2 ^ 29) with (t mod 32)
        by (apply (Z.mod_unique_pos _ _ (t / 32)); lia). split; [lia|].
      destruct (Z.ltb_spec (t mod 32) 31); [|lia]. cbn [app]. f_equal. zdiv_lia.
  - intros [Ht ->].
    assert (Hb : 0 <= tag / 2 ^ 29 < 8) by (split; [apply Z.div_pos|apply Z.div_lt_upper_bound]; lia).
    pose proof (Z.mod_pos_bound tag (2 ^ 29) ltac:(lia)) as Hn.
    assert (Et : tag / 2 ^ 29 * 2 ^ 29 + tag mod 2 ^ 29 = tag).
    { pose proof (Z.div_mod tag (2 ^ 29) ltac:(lia)). lia. }
    set (bits := tag / 2 ^ 29) in *. set (number := tag mod 2 ^ 29) in *.
    destruct (Z.ltb_spec number 31); cbn [app parse_tag].
    + replace ((bits * 32 + number) mod 32) with number by (apply (Z.mod_unique_pos _ _ bits); lia).
      replace ((bits * 32 + number) / 32) with bits by (apply (Z.div_unique_pos _ _ _ number); lia).
      destruct (Z.eqb_spec number 31); [lia|]. by rewrite Et.
    + replace ((bits * 32 + 31) mod 32) with 31 by (apply (Z.mod_unique_pos _ _ bits); lia).
      replace ((bits * 32 + 31) / 32) with bits by (apply (Z.div_unique_pos _ _ _ 31); lia).
      rewrite Z.eqb_refl. unfold der_tag in Hl. fold number in Hl.
      destruct (Z.ltb_spec number 31); [lia|]. cbn [app] in Hl. apply Forall_cons_1 in Hl as [_ Hl].
      assert (E : parse128 0 (base128 number ++ r) = Some (number, r))
        by (apply parse128_iff; [done|split; [lia|done]]).
      rewrite E. destruct (Z.ltb_spec (2 ^ 29 - 1) number); [lia|].
      destruct (Z.ltb_spec number 31); [lia|]. cbn [orb]. by rewrite Et.
Qed.

(** * Lengths and elements *)

(** The minimal length octets, up to four of them after the first. *)
Definition der_length (n : Z) : list Z :=
  if n <? 128 then [n]
  else if n <? 2 ^ 8 then 129 :: be_bytes 1 n
  else if n <? 2 ^ 16 then 130 :: be_bytes 2 n
  else if n <? 2 ^ 24 then 131 :: be_bytes 3 n
  else 132 :: be_bytes 4 n.

Definition der_header (tag n : Z) : list Z := der_tag tag ++ der_length n.

Definition der_element (tag : Z) (contents : list Z) : list Z :=
  der_header tag (Z.of_nat (length contents)) ++ contents.

(** A local copy of the view. *)
Lemma on_copy_ok {A} copy (m : SM CBS A) a copy' s w w' :
  m copy w = Ok a copy' w' -> on_copy copy m s w = Ok (a, copy') s w'.
Proof. intros E. unfold on_copy. cbn [bind on_stream]. rewrite E. done. Qed.

Lemma on_copy_err {A} copy (m : SM CBS A) copy' s w w' :
  m copy w = Err copy' w' -> on_copy copy m s w = Err s w'.
Proof. intros E. unfold on_copy. cbn [bind on_stream]. by rewrite E. Qed.

Lemma on_copy_inv {A} copy (m : SM CBS A) a copy' s s' w w' :
  on_copy copy m s w = Ok (a, copy') s' w' -> m copy w = Ok a copy' w' /\ s' = s.
Proof.
  unfold on_copy. cbn [bind on_stream]. destruct (m copy w); try done; cbn.
  intros [= <- <- <- <-]. done.
Qed.

Definition parse_length (l : list Z) : option (Z * list Z) :=
  match l with
  | [] => None
  | b :: l =>
      if b <? 128 then Some (b, l)
      else
        let k := b - 128 in
        if (k =? 0) || (4 <? k) || (CBS_len l <? k) then None
        else
          let n := be_val (take (Z.to_nat k) l) in
          if (n <? 128) || (n / 256 ^ (k - 1) =? 0) then None
          else Some (n, drop (Z.to_nat k) l)
  end.

Lemma take_be k l :
  is_bytes l -> (k <= length l)%nat -> be_bytes k (be_val (take k l)) = take k l.
Proof.
  intros Hl Hk. rewrite <- (be_bytes_be_val (take k l)) at 2 by (by apply Forall_take).
  by rewrite length_take_le by done.
Qed.

Lemma take_be_range k l :
  is_bytes l -> (k <= length l)%nat -> 0 <= be_val (take k l) < 256 ^ Z.of_nat k.
Proof.
  intros Hl Hk. pose proof (be_val_range (take k l)) as Hr.
  rewrite length_take_le in Hr by done. apply Hr. by apply Forall_take.
Qed.

Lemma div_nonzero n p : 0 < p -> 0 <= n -> n / p <> 0 <-> p <= n.
Proof.
  intros Hp Hn. split.
  - intros Hne. destruct (Z_lt_dec n p); [|lia]. rewrite Z.div_small in Hne by lia. done.
  - intros Hle E. apply Z.div_small_iff in E; lia.
Qed.

(** The length of [k] octets is read back when [k] is the least possible. *)
Lemma parse_length_long k n r :
  (1 <= k <= 4)%nat -> 128 <= n < 256 ^ Z.of_nat k -> 256 ^ (Z.of_nat k - 1) <= n ->
  parse_length ((128 + Z.of_nat k) :: be_bytes k n ++ r) = Some (n, r).
Proof.
  intros Hk Hn Hmin. cbn [parse_length]. destruct (Z.ltb_spec (128 + Z.of_nat k) 128); [lia|].
  replace (128 + Z.of_nat k - 128) with (Z.of_nat k) by lia. rewrite Nat2Z.id.
  unfold CBS_len. rewrite length_app, be_bytes_length.
  destruct (Z.eqb_spec (Z.of_nat k) 0); [lia|]. destruct (Z.ltb_spec 4 (Z.of_nat k)); [lia|].
  destruct (Z.ltb_spec (Z.of_nat (k + length r)) (Z.of_nat k)); [lia|]. cbn [orb].
  rewrite take_app_le, take_ge, drop_app_ge by (rewrite be_bytes_length; lia).
  rewrite be_bytes_length, Nat.sub_diag, drop_0, be_val_be_bytes by lia.
  destruct (Z.ltb_spec n 128); [lia|]. cbn [orb].
  pose proof (Z.pow_pos_nonneg 256 (Z.of_nat k - 1) ltac:(lia) ltac:(lia)) as Hp.
  destruct (Z.eqb_spec (n / 256 ^ (Z.of_nat k - 1)) 0) as [E|]; [|done].
  exfalso. by apply (div_nonzero n (256 ^ (Z.of_nat k - 1))) in Hmin; [|lia|lia].
Qed.

Lemma parse_length_complete n r : 0 <= n < 2 ^ 32 -> parse_length (der_length n ++ r) = Some (n, r).
Proof.
  intros Hn. unfold der_length.
  destruct (Z.ltb_spec n 128); [cbn; by destruct (Z.ltb_spec n 128); [|lia]|].
  destruct (Z.ltb_spec n (2 ^ 8)); [apply (parse_length_long 1); cbn; lia|].
  destruct (Z.ltb_spec n (2 ^ 16)); [apply (parse_length_long 2); cbn; lia|].
  destruct (Z.ltb_spec n (2 ^ 24)); [apply (parse_length_long 3); cbn; lia|].
  apply (parse_length_long 4); cbn; lia.
Qed.

Lemma parse_length_sound l n r :
  is_bytes l -> parse_length l = Some (n, r) -> 0 <= n < 2 ^ 32 /\ l = der_length n ++ r.
Proof.
  intros Hl E. destruct l as [|b l]; [done|]. apply Forall_cons_1 in Hl as [Hb Hl].
  cbn [parse_length] in E. destruct (Z.ltb_spec b 128) as [Hs|Hs].
  { injection E as <- <-. split; [lia|]. unfold der_length. by destruct (Z.ltb_spec b 128); [|lia]. }
  destruct (_ || _) eqn:Ek in E; [done|]. to_prop. unfold CBS_len in *.
  set (k := Z.to_nat (b - 128)) in *. assert (Hk : (1 <= k <= 4)%nat) by lia.
  pose proof (take_be_range k l Hl ltac:(lia)) as Hr.
  pose proof (take_be k l Hl ltac:(lia)) as Hbe.
  set (v := be_val (take k l)) in *.
  destruct (_ || _) eqn:Ev in E; [done|]. to_prop. injection E as <- <-.
  assert (Hmin : 256 ^ (b - 128 - 1) <= v).
  { apply div_nonzero; [apply Z.pow_pos_nonneg; lia|lia|done]. }
  replace (b - 128 - 1) with (Z.of_nat k - 1) in Hmin by lia.
  assert (El : b :: l = (128 + Z.of_nat k) :: be_bytes k v ++ drop k l)
    by (rewrite Hbe, take_drop; f_equal; lia).
  rewrite El. clear El Hbe. clearbody k v. unfold der_length.
  assert (Hc : (k = 1 \/ k = 2 \/ k = 3 \/ k = 4)%nat) by lia.
  destruct (Z.ltb_spec v 128); [lia|].
  destruct Hc as [-> | [-> | [-> | ->]]]; cbn -[be_bytes] in Hr, Hmin; split; try lia;
    repeat match goal with |- context [?a <? ?b] => destruct (Z.ltb_spec a b); [try lia|try lia] end;
    done.
Qed.

(** The element reader as a function of the tag and length parsers. *)
Lemma element_ok l w :
  is_bytes l -> CBS_len l < 2 ^ 63 ->
  parse_result
    (match parse_tag l with
     | Some (tag, h1) =>
         match parse_length h1 with
         | Some (n, h2) =>
             let len := n + (CBS_len l - CBS_len h2) in
             if CBS_len l <? len then None
             else Some (mk_element (take (Z.to_nat len) l) tag (CBS_len l - CBS_len h2) false,
                        drop (Z.to_nat len) l)
         | None => None
         end
     | None => None
     end) (CBS_get_any_asn1_element l w) w.
Proof.
  intros Hl Hlen. unfold CBS_get_any_asn1_element, cbs_get_any_asn1_element. cbn [bind get].
  pose proof (parse_asn1_tag_ok l w Hl) as Hp. destruct (parse_tag l) as [[tag h1]|] eqn:Et.
  2: { destruct Hp as [r Hp]. rewrite (on_copy_err _ _ _ _ _ _ Hp). by eexists. }
  cbn [parse_result] in Hp. rewrite (on_copy_ok _ _ _ _ _ _ _ Hp). cbn [bind].
  apply parse_tag_iff in Et as [Ht El]; [|done].
  assert (Hh1 : is_bytes h1) by (rewrite El in Hl; by apply Forall_app in Hl as [_ ?]).
  assert (Hl1 : CBS_len h1 <= CBS_len l) by (rewrite El; unfold CBS_len; rewrite length_app; lia).
  destruct h1 as [|b h1].
  { rewrite (on_copy_err _ _ _ _ _ _ (get_u8_nil w)). by eexists. }
  rewrite (on_copy_ok _ _ _ _ _ _ _ (get_u8_cons b h1 w)). cbn [bind parse_length].
  apply Forall_cons_1 in Hh1 as [Hb Hh1]. rewrite land_0x80 by done.
  assert (Hfin : forall len e, 0 <= len ->
    parse_result (if CBS_len l <? len then None
                  else Some (e (take (Z.to_nat len) l), drop (Z.to_nat len) l))
      ((let* o := CBS_get_bytes len in ret (e o : asn1_element)) l w) w).
  { intros len e Hle. unfold CBS_get_bytes, cbs_get. cbn [bind get].
    destruct (Z.ltb_spec (CBS_len l) len); [by eexists|done]. }
  assert (Hh : CBS_len (b :: h1) = CBS_len h1 + 1) by (unfold CBS_len; cbn [length]; lia).
  destruct (Z.ltb_spec b 128) as [Hs|Hs]; [apply (Hfin (b + (CBS_len l - CBS_len h1))
    (fun o => mk_element o tag (CBS_len l - CBS_len h1) false)); lia|].
  cbn [andb negb]. rewrite land_0x7F.
  replace (b mod 128) with (b - 128) by zdiv_lia.
  destruct (Z.eqb_spec (b - 128) 0); [by eexists|]. destruct (Z.ltb_spec 4 (b - 128)); [by eexists|].
  cbn [orb bind]. set (k := b - 128) in *. destruct (Z.ltb_spec (CBS_len h1) k) as [Hshort|Hlong].
  { assert (Eu : cbs_get_u k h1 w = Err h1 w) by (unfold cbs_get_u; cbn [bind]; by rewrite cbs_get_short).
    rewrite (on_copy_err _ _ _ _ _ _ Eu). by eexists. }
  pose proof (take_be_range (Z.to_nat k) h1 Hh1 ltac:(unfold CBS_len in *; lia)) as Hr.
  assert (Eu : cbs_get_u k h1 w = Ok (be_val (take (Z.to_nat k) h1)) (drop (Z.to_nat k) h1) w).
  { rewrite <- (take_drop (Z.to_nat k) h1) at 1. apply cbs_get_u_app.
    - unfold CBS_len in *. rewrite length_take. lia.
    - lia.
    - by apply Forall_take. }
  rewrite (on_copy_ok _ _ _ _ _ _ _ Eu). cbn [bind]. set (v := be_val _) in *.
  assert (Hn : v < 2 ^ 32).
  { eapply Z.lt_le_trans; [apply Hr|]. change (2 ^ 32) with (256 ^ 4). apply Z.pow_le_mono_r; lia. }
  rewrite shiftr_div by lia. rewrite (Z.mul_comm (k - 1) 8), Z.pow_mul_r by lia.
  change (2 ^ 8) with 256. destruct (_ || _); [by eexists|].
  assert (Hd : CBS_len (drop (Z.to_nat k) h1) = CBS_len h1 - k)
    by (unfold CBS_len in *; rewrite length_drop; lia).
  rewrite Hd. rewrite !u64_small by lia.
  destruct (Z.ltb_spec (v + (CBS_len l - CBS_len h1) + k) v); [lia|].
  replace (CBS_len l - (CBS_len h1 - k)) with (CBS_len l - CBS_len h1 + k) by lia.
  apply (Hfin (v + (CBS_len l - CBS_len h1 + k))
    (fun o => mk_element o tag (CBS_len l - CBS_len h1 + k) false)). lia.
Qed.

(** * DER elements and INTEGERs: the readers of [Cbs] accept exactly the canonical
    encodings of [CbsLemmas]. *)

(** * Elements *)

(** The element over the bytes [der_element tag contents]. *)
Definition element_of (tag : Z) (contents : CBS) : asn1_element :=
  mk_element (der_element tag contents) tag (CBS_len (der_header tag (CBS_len contents))) false.

Definition is_element (tag : Z) (contents : CBS) (r l : CBS) : Prop :=
  0 <= tag < 2 ^ 32 /\ CBS_len contents < 2 ^ 32 /\ l = der_element tag contents ++ r.

Lemma element_iff l e r w :
  is_bytes l -> CBS_len l < 2 ^ 63 ->
  CBS_get_any_asn1_element l w = Ok e r w <->
  exists tag contents, is_element tag contents r l /\ e = element_of tag contents.
Proof.
  intros Hl Hlen. pose proof (element_ok l w Hl Hlen) as Hok. split.
  - intros E. rewrite E in Hok.
    destruct (parse_tag l) as [[tag h1]|] eqn:Et; [|by destruct Hok].
    apply parse_tag_iff in Et as [Ht El]; [|done].
    assert (Hh1 : is_bytes h1) by (rewrite El in Hl; by apply Forall_app in Hl as [_ ?]).
    destruct (parse_length h1) as [[n h2]|] eqn:En; [|by destruct Hok].
    apply parse_length_sound in En as [Hn ->]; [|done]. cbv zeta in Hok.
    destruct (Z.ltb_spec (CBS_len l) (n + (CBS_len l - CBS_len h2))) as [|Hle]; [by destruct Hok|].
    cbn [parse_result] in Hok. injection Hok as -> ->.
    assert (Ehl : CBS_len l - CBS_len h2 = CBS_len (der_header tag n))
      by (rewrite El; unfold der_header; rewrite !CBS_len_app; lia).
    rewrite Ehl in *. pose proof (CBS_len_nonneg (der_header tag n)).
    assert (Hc : CBS_len (take (Z.to_nat n) h2) = n) by (unfold CBS_len in *; rewrite length_take; lia).
    assert (El' : l = der_header tag n ++ h2) by (unfold der_header; by rewrite <- app_assoc).
    assert (Etake : take (Z.to_nat (n + CBS_len (der_header tag n))) l
                    = der_header tag n ++ take (Z.to_nat n) h2).
    { rewrite El'. rewrite take_app_ge by (unfold CBS_len; lia). do 2 f_equal. unfold CBS_len; lia. }
    assert (Edrop : drop (Z.to_nat (n + CBS_len (der_header tag n))) l = drop (Z.to_nat n) h2).
    { rewrite El'. rewrite drop_app_ge by (unfold CBS_len; lia). f_equal. unfold CBS_len; lia. }
    exists tag, (take (Z.to_nat n) h2). unfold is_element, element_of, der_element.
    fold (CBS_len (take (Z.to_nat n) h2)). rewrite Hc, Etake, Edrop. split_and!; try done; try lia.
    rewrite <- app_assoc, take_drop. done.
  - intros (tag & contents & (Ht & Hc & El) & ->).
    unfold der_element, der_header in El. fold (CBS_len contents) in El. rewrite <- !app_assoc in El.
    set (n := CBS_len contents) in *. assert (Hn : 0 <= n < 2 ^ 32) by (split; [apply CBS_len_nonneg|done]).
    assert (Et : parse_tag l = Some (tag, der_length n ++ contents ++ r)) by (by apply parse_tag_iff).
    rewrite Et, parse_length_complete in Hok by done. cbv zeta in Hok.
    assert (Ehl : CBS_len l - CBS_len (contents ++ r) = CBS_len (der_header tag n))
      by (rewrite El; unfold der_header; rewrite !CBS_len_app; lia).
    rewrite Ehl in Hok.
    assert (Ell : CBS_len l = n + CBS_len (der_header tag n) + CBS_len r)
      by (rewrite El; unfold der_header, n; rewrite !CBS_len_app; lia).
    pose proof (CBS_len_nonneg r).
    destruct (Z.ltb_spec (CBS_len l) (n + CBS_len (der_header tag n))); [lia|].
    cbn [parse_result] in Hok. rewrite Hok.
    assert (Esplit : l = der_element tag contents ++ r)
      by (rewrite El; unfold der_element, der_header; by rewrite <- !app_assoc).
    assert (Ene : Z.to_nat (n + CBS_len (der_header tag n)) = length (der_element tag contents)).
    { unfold der_element. fold (CBS_len contents). fold n. rewrite length_app. unfold CBS_len, n.
      unfold CBS_len. lia. }
    rewrite Ene, Esplit, take_app_length, drop_app_length. done.
Qed.

Lemma der_element_bytes tag contents :
  0 <= tag < 2 ^ 32 -> is_bytes contents -> is_bytes (der_element tag contents).
Proof.
  intros Ht Hc. unfold der_element, der_header, der_length.
  apply Forall_app; split; [|done]. apply Forall_app; split; [by apply der_tag_bytes|].
  repeat case_match; to_prop; first [repeat constructor; lia|constructor; [lia|apply be_bytes_bytes]].
Qed.

Lemma skip_header_element t contents s w : skip_header (element_of t contents) s w = Ok contents s w.
Proof.
  unfold skip_header, element_of. cbn [bind out out_header_len].
  assert (Es : CBS_skip (CBS_len (der_header t (CBS_len contents))) (der_element t contents) w
               = Ok tt contents w).
  { unfold CBS_skip, der_element. cbn [bind]. rewrite cbs_get_app by done. done. }
  rewrite (on_copy_ok _ _ _ _ _ _ _ Es). done.
Qed.

(** [CBS_get_asn1] hands out the contents of the one element it accepts. *)
Lemma get_asn1_iff tag l c r w :
  is_bytes l -> CBS_len l < 2 ^ 63 ->
  CBS_get_asn1 tag l w = Ok c r w <-> is_element tag c r l.
Proof.
  intros Hl Hlen. unfold CBS_get_asn1, cbs_get_asn1. cbn [bind].
  split.
  - destruct (CBS_get_any_asn1_element l w) as [e r' w'|? ?| |] eqn:E; [|done..].
    assert (Hw : w' = w).
    { pose proof (element_ok l w Hl Hlen) as Hok. rewrite E in Hok.
      unfold parse_result in Hok. repeat case_match; naive_solver. }
    subst w'. apply element_iff in E as (t & contents & He & ->); [|done|done].
    cbn [out_tag element_of]. destruct (Z.eqb_spec t tag) as [-> |]; [|done]. cbn [negb].
    rewrite skip_header_element. by intros [= -> ->].
  - intros He.
    assert (E : CBS_get_any_asn1_element l w = Ok (element_of tag c) r w)
      by (apply element_iff; eauto).
    rewrite E. cbn [out_tag element_of]. rewrite Z.eqb_refl. cbn [negb]. apply skip_header_element.
Qed.

(** * INTEGER contents: the minimal two's complement form *)

Definition fits (n : nat) (v : Z) : Prop :=
  - 128 * 256 ^ (Z.of_nat n - 1) <= v < 128 * 256 ^ (Z.of_nat n - 1).

#[export] Instance fits_dec n v : Decision (fits n v).
Proof. unfold fits. apply _. Defined.

(** The least number of bytes, at least one. *)
Fixpoint int_size_from (fuel n : nat) (v : Z) : nat :=
  match fuel with
  | O => n
  | S fuel => if decide (fits n v) then n else int_size_from fuel (S n) v
  end.

Definition int_size (v : Z) : nat := int_size_from 8 1 v.

Definition int_contents (v : Z) : list Z :=
  be_bytes (int_size v) (v mod 256 ^ Z.of_nat (int_size v)).

(** The number the bytes stand for. *)
Definition int_value (c : list Z) : Z :=
  be_val c - if 128 <=? nth 0 c 0 then 256 ^ Z.of_nat (length c) else 0.

Lemma pow_256_succ n : 256 ^ Z.of_nat (S n) = 256 * 256 ^ Z.of_nat n.
Proof. by rewrite Nat2Z.inj_succ, Z.pow_succ_r by lia. Qed.

Lemma pow_256_pos n : 0 < 256 ^ Z.of_nat n.
Proof. apply Z.pow_pos_nonneg; lia. Qed.

Lemma fits_succ n v : fits (S n) v <-> - 128 * 256 ^ Z.of_nat n <= v < 128 * 256 ^ Z.of_nat n.
Proof. unfold fits. by replace (Z.of_nat (S n) - 1) with (Z.of_nat n) by lia. Qed.

Lemma fits_mono n m v : (1 <= n <= m)%nat -> fits n v -> fits m v.
Proof.
  unfold fits. intros Hn Hv.
  assert (256 ^ (Z.of_nat n - 1) <= 256 ^ (Z.of_nat m - 1)) by (apply Z.pow_le_mono_r; lia). lia.
Qed.

(** What is the least size: it fits and one byte less does not. *)
Definition least_size (n : nat) (v : Z) : Prop := fits n v /\ (n = 1%nat \/ ~ fits (n - 1) v).

Lemma int_size_from_spec fuel : forall n v m,
  (1 <= n)%nat -> (n <= m <= n + fuel)%nat -> fits m v ->
  (forall k, (n <= k < m)%nat -> ~ fits k v) -> int_size_from fuel n v = m.
Proof.
  induction fuel as [|fuel IH]; intros n v m Hn Hm Hf Hk; [cbn; lia|].
  cbn [int_size_from]. destruct (decide (fits n v)) as [Hfn|Hfn].
  - destruct (decide (n = m)) as [->|]; [done|]. exfalso. apply (Hk n); [lia|done].
  - apply IH; [lia| |done|intros; apply Hk; lia].
    destruct (decide (n = m)) as [->|]; [done|lia].
Qed.

Lemma least_size_unique n v : (1 <= n <= 9)%nat -> least_size n v -> int_size v = n.
Proof.
  intros Hn [Hf Hmin]. unfold int_size. apply int_size_from_spec; [lia|lia|done|].
  intros k Hk Hfk. destruct Hmin as [-> | Hmin]; [lia|].
  apply Hmin. apply (fits_mono k); [lia|done].
Qed.

Lemma int_size_least v : fits 9 v -> least_size (int_size v) v /\ (1 <= int_size v <= 9)%nat.
Proof.
  intros H9.
  assert (Hex : exists n, (1 <= n <= 9)%nat /\ least_size n v).
  { assert (Hs : forall k, (1 <= k)%nat -> fits k v -> exists n, (1 <= n <= k)%nat /\ least_size n v).
    { induction k as [|k IH]; intros Hk Hf; [lia|].
      destruct (decide (k = O)) as [->|]; [exists 1%nat; split; [lia|split; [done|by left]]|].
      destruct (decide (fits k v)) as [Hfk|Hfk].
      - destruct (IH ltac:(lia) Hfk) as (m & Hm & Hl). exists m. split; [lia|done].
      - exists (S k). split; [lia|]. split; [done|]. right. by replace (S k - 1)%nat with k by lia. }
    apply (Hs 9%nat); [lia|done]. }
  destruct Hex as (n & Hn & Hl). rewrite (least_size_unique n v Hn Hl). done.
Qed.

(** The first byte of a big-endian number. *)
Lemma be_val_cons b c : be_val (b :: c) = b * 256 ^ Z.of_nat (length c) + be_val c.
Proof.
  unfold be_val. cbn [be_val_acc]. rewrite !be_val_acc_le. ring.
Qed.

Lemma int_value_range c : is_bytes c -> c <> [] -> fits (length c) (int_value c).
Proof.
  intros Hc Hne. destruct Hc as [|b c Hb Hc]; [done|]. cbn [length]. apply fits_succ.
  unfold int_value. rewrite be_val_cons. cbn [nth length].
  pose proof (be_val_range c Hc). pose proof (pow_256_pos (length c)). rewrite pow_256_succ.
  destruct (Z.leb_spec 128 b); nia.
Qed.

(** The bytes are determined by the number and their count. *)
Lemma int_bytes c : is_bytes c -> be_bytes (length c) (int_value c mod 256 ^ Z.of_nat (length c)) = c.
Proof.
  intros Hc. pose proof (be_val_range c Hc). pose proof (pow_256_pos (length c)).
  assert (E : int_value c mod 256 ^ Z.of_nat (length c) = be_val c).
  { unfold int_value. destruct (128 <=? nth 0 c 0).
    - symmetry. apply (Z.mod_unique_pos _ _ (-1)); lia.
    - rewrite Z.sub_0_r. apply Z.mod_small. lia. }
  rewrite E. by apply be_bytes_be_val.
Qed.

Lemma int_value_bytes n v : (1 <= n)%nat -> fits n v -> int_value (be_bytes n (v mod 256 ^ Z.of_nat n)) = v.
Proof.
  intros Hn Hf. pose proof (pow_256_pos n) as Hp.
  pose proof (Z.mod_pos_bound v (256 ^ Z.of_nat n) Hp) as Hm.
  set (c := be_bytes n (v mod 256 ^ Z.of_nat n)).
  assert (El : length c = n) by apply be_bytes_length.
  assert (Ev : be_val c = v mod 256 ^ Z.of_nat n) by (apply be_val_be_bytes; done).
  assert (Hc : is_bytes c) by apply be_bytes_bytes.
  destruct c as [|b c'] eqn:Ec; [cbn in El; lia|]. pose proof Hc as Hc0.
  apply Forall_cons_1 in Hc as [Hb Hc]. unfold int_value. cbn [nth].
  rewrite El, Ev. rewrite be_val_cons in Ev. cbn [length] in El.
  pose proof (be_val_range c' Hc) as Hr. destruct n as [|n]; [lia|]. assert (length c' = n) by lia.
  subst n. apply fits_succ in Hf. rewrite pow_256_succ in *.
  pose proof (pow_256_pos (length c')) as Hp'. set (P := 256 ^ Z.of_nat (length c')) in *.
  destruct (Z_lt_dec v 0).
  - assert (Em : v mod (256 * P) = v + 256 * P) by (symmetry; apply (Z.mod_unique_pos _ _ (-1)); lia).
    rewrite Em in *. destruct (Z.leb_spec 128 b); [lia|]. nia.
  - rewrite Z.mod_small in * by lia. destruct (Z.leb_spec 128 b); [nia|lia].
Qed.

(** A valid INTEGER is a least form. *)
Lemma valid_integer_iff c neg :
  is_bytes c ->
  CBS_is_valid_asn1_integer c = Some neg <->
  c <> [] /\ least_size (length c) (int_value c) /\ neg = (int_value c <? 0).
Proof.
  intros Hc. destruct c as [|b0 [|b1 c]].
  - split; [done|]. by intros [? _].
  - apply Forall_cons_1 in Hc as [Hb _]. cbn [CBS_is_valid_asn1_integer].
    rewrite land_0x80 by done. unfold int_value. cbn [nth length be_val be_val_acc].
    change (256 ^ Z.of_nat 1) with 256. rewrite Z.mul_0_r, Z.add_0_l.
    assert (Hn : negb (b0 <? 128) = (b0 - (if 128 <=? b0 then 256 else 0) <? 0)) 
      by (destruct (Z.ltb_spec b0 128), (Z.leb_spec 128 b0); cbn [negb]; try lia;
          match goal with |- _ = (?x <? 0) => destruct (Z.ltb_spec x 0) end; done || lia).
    split.
    + intros [= <-]. split_and!; [done| |done]. split; [|by left]. unfold fits.
      change (Z.of_nat 1 - 1) with 0. destruct (Z.leb_spec 128 b0); lia.
    + intros (_ & _ & ->). by rewrite Hn.
  - pose proof Hc as Hall. apply Forall_cons_1 in Hc as [Hb0 Hc]. apply Forall_cons_1 in Hc as [Hb1 Hc].
    cbn [CBS_is_valid_asn1_integer]. rewrite !land_0x80 by done.
    pose proof (int_value_range _ Hall ltac:(done)) as Hfit.
    assert (Hmin : ~ fits (length (b0 :: b1 :: c) - 1) (int_value (b0 :: b1 :: c)) <->
                   ((b0 =? 0) && (b1 <? 128)) || ((b0 =? 255) && negb (b1 <? 128)) = false).
    { cbn [length]. replace (S (S (length c)) - 1)%nat with (S (length c)) by lia.
      rewrite fits_succ. unfold int_value. rewrite !be_val_cons. cbn [nth length].
      rewrite !pow_256_succ. pose proof (be_val_range c Hc) as Hr.
      pose proof (pow_256_pos (length c)) as Hp. set (P := 256 ^ Z.of_nat (length c)) in *.
      destruct (Z.leb_spec 128 b0), (Z.eqb_spec b0 0), (Z.eqb_spec b0 255), (Z.ltb_spec b1 128);
        cbn [andb orb negb]; try lia; split; intros; try done; try nia. }
    assert (Hneg : negb (b0 <? 128) = (int_value (b0 :: b1 :: c) <? 0)).
    { unfold int_value. rewrite be_val_cons. cbn [nth length]. rewrite !pow_256_succ.
      pose proof (be_val_range (b1 :: c) ltac:(by constructor)) as Hr. cbn [length] in Hr.
      rewrite pow_256_succ in Hr.
      pose proof (pow_256_pos (length c)) as Hp. set (P := 256 ^ Z.of_nat (length c)) in *.
      destruct (Z.ltb_spec b0 128), (Z.leb_spec 128 b0); cbn [negb]; try lia;
        match goal with |- _ = (?x <? 0) => destruct (Z.ltb_spec x 0) end; try done; nia. }
    change 0xff with 255. split.
    + destruct (_ || _) eqn:Eb; [done|]. intros [= <-]. split_and!; [done| |done].
      split; [done|]. right. by apply Hmin.
    + intros (_ & [_ [Hl|Hl]] & ->); [done|]. apply Hmin in Hl. rewrite Hl. by rewrite Hneg.
Qed.

(** * What the byte-string parser accepts: DER elements, INTEGERs that fit a word,
    base-128 integers, and comparison of byte strings. *)

(** A parser that leaves memory alone and has no undefined behaviour. *)
Definition tame {A} (m : SM CBS A) : Prop :=
  forall l w, is_bytes l -> CBS_len l < 2 ^ 63 ->
  (exists a r, m l w = Ok a r w) \/ (exists r, m l w = Err r w).

Lemma any_element_tame : tame CBS_get_any_asn1_element.
Proof.
  intros l w Hl Hlen. pose proof (element_ok l w Hl Hlen) as Hok.
  unfold parse_result in Hok. repeat case_match; naive_solver.
Qed.

Lemma get_asn1_tame tag : tame (CBS_get_asn1 tag).
Proof.
  intros l w Hl Hlen. destruct (CBS_get_asn1 tag l w) as [c r w'|r w'| |] eqn:E;
    pose proof E as E0; unfold CBS_get_asn1, cbs_get_asn1 in E; cbn [bind] in E;
    (destruct (any_element_tame l w Hl Hlen) as [(e & r0 & Ee)|(r0 & Ee)]; rewrite Ee in E;
      [apply element_iff in Ee as (t & contents & He & ->); [|done|done]|]).
  all: try (injection E; intros; subst; eauto; done).
  all: try discriminate E.
  all: cbn [out_tag element_of] in E; destruct (Z.eqb_spec t tag) as [-> |]; cbn [negb] in E;
    try (injection E; intros; subst; eauto; done); try discriminate E.
  all: assert (E1 : CBS_get_asn1 tag l w = Ok contents r0 w) by (apply get_asn1_iff; done);
    rewrite E1 in E0; naive_solver.
Qed.

(** * The big-endian accumulation of an unsigned INTEGER *)

Lemma be_val_acc_split acc l : be_val_acc acc l = acc * 256 ^ Z.of_nat (length l) + be_val l.
Proof. unfold be_val. rewrite !be_val_acc_le. ring. Qed.

Lemma accumulate_spec data : forall acc, is_bytes data -> 0 <= acc < 2 ^ 64 ->
  accumulate_uint64 acc data =
  if be_val_acc acc data <? 2 ^ 64 then Some (be_val_acc acc data) else None.
Proof.
  induction data as [|b data IH]; intros acc Hd Ha; cbn [accumulate_uint64].
  - unfold be_val_acc. destruct (Z.ltb_spec acc (2 ^ 64)); [done|lia].
  - apply Forall_cons_1 in Hd as [Hb Hd]. rewrite shiftr_div by lia.
    cbn [be_val_acc]. destruct (Z.eqb_spec (acc / 2 ^ 56) 0) as [E|E]; cbn [negb].
    + apply Z.div_small_iff in E; [|lia]. destruct E as [E|E]; [|lia].
      assert (Es : Z.lor (u64 (Z.shiftl acc 8)) b = 256 * acc + b).
      { rewrite Z.shiftl_mul_pow2, u64_small by lia. rewrite Z.lor_comm, lor_add_shifted by lia.
        change (2 ^ 8) with 256. lia. }
      rewrite Es, IH by (done || lia). done.
    + assert (2 ^ 56 <= acc).
      { destruct (Z_lt_dec acc (2 ^ 56)); [|lia]. rewrite Z.div_small in E by lia. done. }
      rewrite be_val_acc_split. pose proof (be_val_range data Hd).
      pose proof (pow_256_pos (length data)).
      destruct (Z.ltb_spec ((256 * acc + b) * 256 ^ Z.of_nat (length data) + be_val data) (2 ^ 64));
        [nia|done].
Qed.

(** * The contents of an INTEGER *)

Lemma least_size_bound n v : (1 <= n)%nat -> fits 9 v -> least_size n v -> (n <= 9)%nat.
Proof.
  intros Hn H9 [_ [-> | Hl]]; [lia|]. destruct (decide (n <= 9)%nat); [done|].
  exfalso. apply Hl. apply (fits_mono 9); [lia|done].
Qed.

Lemma int_contents_iff c v :
  is_bytes c -> fits 9 v ->
  c <> [] /\ least_size (length c) (int_value c) /\ int_value c = v <-> c = int_contents v.
Proof.
  intros Hc H9. unfold int_contents. split.
  - intros (Hne & Hl & Hv). rewrite Hv in Hl.
    assert (1 <= length c)%nat by (destruct c; [done|cbn; lia]).
    pose proof (least_size_bound _ _ H H9 Hl). rewrite (least_size_unique (length c) v) by (done || lia).
    rewrite <- Hv. by rewrite int_bytes.
  - intros ->. destruct (int_size_least v H9) as [Hl Hr].
    assert (Ev : int_value (be_bytes (int_size v) (v mod 256 ^ Z.of_nat (int_size v))) = v)
      by (apply int_value_bytes; [lia|apply Hl]).
    rewrite Ev, be_bytes_length. split_and!; [|done|done].
    intros E. apply (f_equal length) in E. rewrite be_bytes_length in E. change (length (@nil Z)) with O in E. lia.
Qed.

Lemma int_value_nonneg c : is_bytes c -> 0 <= int_value c -> int_value c = be_val c.
Proof.
  intros Hc Hv. pose proof (be_val_range c Hc). unfold int_value in *. destruct (128 <=? nth 0 c 0); lia.
Qed.

Lemma int_contents_bytes v : is_bytes (int_contents v).
Proof. apply be_bytes_bytes. Qed.

Lemma is_element_bytes tag c r l : is_bytes l -> is_element tag c r l -> is_bytes c.
Proof.
  intros Hl (_ & _ & ->). apply Forall_app in Hl as [Hl _]. unfold der_element in Hl.
  by apply Forall_app in Hl as [_ ?].
Qed.

Lemma fits_9 v : - 2 ^ 63 <= v < 2 ^ 64 -> fits 9 v.
Proof. unfold fits. change (256 ^ (Z.of_nat 9 - 1)) with (2 ^ 64). lia. Qed.

Lemma unsigned_iff c v : is_bytes c -> 0 <= v < 2 ^ 64 ->
  CBS_is_unsigned_asn1_integer c = true /\ be_val c = v <-> c = int_contents v.
Proof.
  intros Hc Hv. assert (H9 : fits 9 v) by (apply fits_9; lia).
  rewrite <- (int_contents_iff c v Hc H9). unfold CBS_is_unsigned_asn1_integer. split.
  - destruct (CBS_is_valid_asn1_integer c) as [neg|] eqn:E; [|by intros []].
    apply valid_integer_iff in E as (Hne & Hl & ->); [|done]. intros [Hn Hb].
    apply negb_true_iff, Z.ltb_ge in Hn. rewrite int_value_nonneg by done.
    rewrite int_value_nonneg in Hl by done. done.
  - intros (Hne & Hl & Hiv).
    assert (E : CBS_is_valid_asn1_integer c = Some false).
    { apply valid_integer_iff; [done|]. split_and!; [done|done|]. symmetry. apply Z.ltb_ge. lia. }
    rewrite E. split; [done|]. rewrite <- int_value_nonneg by (done || lia). done.
Qed.

Lemma int_contents_len v : fits 9 v -> CBS_len (int_contents v) < 2 ^ 32.
Proof.
  intros H9. unfold CBS_len, int_contents. rewrite be_bytes_length.
  destruct (int_size_least v H9). lia.
Qed.

Lemma uint64_complete l v r w :
  is_bytes l -> CBS_len l < 2 ^ 63 -> 0 <= v < 2 ^ 64 ->
  l = der_element CBS_ASN1_INTEGER (int_contents v) ++ r -> CBS_get_asn1_uint64 l w = Ok v r w.
Proof.
  intros Hl Hlen Hv El. unfold CBS_get_asn1_uint64. cbn [bind]. assert (H9 : fits 9 v) by (apply fits_9; lia).
  pose proof (int_contents_bytes v) as Hc. pose proof (int_contents_len v H9).
  assert (E : CBS_get_asn1 CBS_ASN1_INTEGER l w = Ok (int_contents v) r w).
  { apply get_asn1_iff; [done|done|]. split_and!; [done|done|done|done]. }
  rewrite E. destruct (proj2 (unsigned_iff _ v Hc Hv) eq_refl) as [Eu Eb].
  rewrite Eu. cbn [negb]. rewrite accumulate_spec by (done || lia). fold (be_val (int_contents v)).
  rewrite Eb. destruct (Z.ltb_spec v (2 ^ 64)); [done|lia].
Qed.

(** [CBS_get_asn1_uint64] accepts [v] exactly on the DER encoding of the
    INTEGER [v] in its minimal form, and stops right after it. *)
Theorem get_asn1_uint64_iff l v r w :
  is_bytes l -> CBS_len l < 2 ^ 63 ->
  CBS_get_asn1_uint64 l w = Ok v r w <->
  0 <= v < 2 ^ 64 /\ l = der_element CBS_ASN1_INTEGER (int_contents v) ++ r.
Proof.
  intros Hl Hlen. split; [|intros [Hv El]; by apply uint64_complete].
  unfold CBS_get_asn1_uint64. cbn [bind].
  destruct (get_asn1_tame CBS_ASN1_INTEGER l w Hl Hlen) as [(c & r0 & E)|(r0 & E)]; rewrite E; [|done].
  apply get_asn1_iff in E as He; [|done|done]. pose proof (is_element_bytes _ _ _ _ Hl He) as Hc.
  destruct (CBS_is_unsigned_asn1_integer c) eqn:Eu; cbn [negb]; [|done].
  rewrite accumulate_spec by (done || lia). fold (be_val c). pose proof (be_val_range c Hc).
  destruct (Z.ltb_spec (be_val c) (2 ^ 64)) as [Hb|]; [|done]. intros [= <- <-].
  destruct He as (_ & _ & El). split; [lia|].
  rewrite <- (proj1 (unsigned_iff c (be_val c) Hc ltac:(lia))); done.
Qed.

Lemma get_asn1_uint64_iff_witness :
  CBS_get_asn1_uint64 [2; 2; 0; 200; 7] (World ∅ ∅ 0) = Ok 200 [7] (World ∅ ∅ 0).
Proof.
  apply (get_asn1_uint64_iff [2; 2; 0; 200; 7] 200 [7]).
  - repeat constructor; lia.
  - reflexivity.
  - split; [lia|reflexivity].
Defined.

(** * Signed INTEGERs *)

Lemma le_val_ff n : le_val (repeat 0xff n) = 256 ^ Z.of_nat n - 1.
Proof. induction n as [|n IH]; [done|]. cbn [repeat le_val]. rewrite IH, pow_256_succ. lia. Qed.

Lemma le_val_zeros n : le_val (repeat 0 n) = 0.
Proof. induction n as [|n IH]; [done|]. cbn [repeat le_val]. lia. Qed.

Lemma drop_repeat {A} (x : A) n m : drop n (repeat x m) = repeat x (m - n).
Proof.
  revert m. induction n as [|n IH]; intros m; [by rewrite drop_0, Nat.sub_0_r|].
  destruct m; [done|]. cbn [repeat drop]. by rewrite IH.
Qed.

Lemma pow_256_8 n : (n <= 8)%nat -> 256 ^ Z.of_nat n * 256 ^ Z.of_nat (8 - n) = 2 ^ 64.
Proof.
  intros Hn. rewrite <- Z.pow_add_r by lia. replace (Z.of_nat n + Z.of_nat (8 - n)) with 8 by lia. done.
Qed.

Lemma fits_8 v : fits 8 v <-> - 2 ^ 63 <= v < 2 ^ 63.
Proof. unfold fits. change (256 ^ (Z.of_nat 8 - 1)) with (2 ^ 56). lia. Qed.

(** The sign extension into the eight bytes of the union. *)
Lemma sign_extend c :
  is_bytes c -> (1 <= length c <= 8)%nat ->
  s64 (le_val (rev c ++ drop (length c)
         (repeat (if int_value c <? 0 then 0xff else 0) 8))) = int_value c.
Proof.
  intros Hc Hn. assert (Hv : fits 8 (int_value c)).
  { apply (fits_mono (length c)); [lia|]. apply int_value_range; [done|]. destruct c; [cbn in Hn; lia|done]. }
  rewrite fits_8 in Hv. rewrite drop_repeat, le_val_app, length_rev, <- be_val_rev.
  pose proof (pow_256_8 (length c) ltac:(lia)) as Hp. pose proof (be_val_range c Hc) as Hr.
  destruct (Z.ltb_spec (int_value c) 0) as [Hs|Hs].
  - rewrite le_val_ff.
    assert (Ei : int_value c = be_val c - 256 ^ Z.of_nat (length c))
      by (unfold int_value in *; destruct (128 <=? nth 0 c 0); lia).
    assert (Ex : be_val c + 256 ^ Z.of_nat (length c) * (256 ^ Z.of_nat (8 - length c) - 1)
                 = int_value c + 2 ^ 64) by lia.
    rewrite Ex. unfold s64, to_signed. rewrite Z.mod_small by lia.
    destruct (Z.ltb_spec (int_value c + 2 ^ 64) (2 ^ (64 - 1))); lia.
  - rewrite le_val_zeros, Z.mul_0_r, Z.add_0_r. rewrite <- int_value_nonneg by done.
    apply to_signed_id; lia.
Qed.

Lemma int_size_8 v : - 2 ^ 63 <= v < 2 ^ 63 -> (int_size v <= 8)%nat.
Proof.
  intros Hv. destruct (int_size_least v) as [[_ [->|Hl]] Hr]; [apply fits_9; lia|lia|].
  destruct (decide (int_size v <= 8)%nat); [done|]. exfalso. apply Hl.
  apply (fits_mono 8); [lia|]. by rewrite fits_8.
Qed.

Lemma int64_complete l v r w :
  is_bytes l -> CBS_len l < 2 ^ 63 -> - 2 ^ 63 <= v < 2 ^ 63 ->
  l = der_element CBS_ASN1_INTEGER (int_contents v) ++ r -> CBS_get_asn1_int64 l w = Ok v r w.
Proof.
  intros Hl Hlen Hv El. unfold CBS_get_asn1_int64. cbn [bind]. assert (H9 : fits 9 v) by (apply fits_9; lia).
  pose proof (int_contents_bytes v) as Hc. pose proof (int_contents_len v H9).
  assert (E : CBS_get_asn1 CBS_ASN1_INTEGER l w = Ok (int_contents v) r w).
  { apply get_asn1_iff; [done|done|]. split_and!; [done|done|done|done]. }
  rewrite E. destruct (proj2 (int_contents_iff _ v Hc H9) eq_refl) as (Hne & Hls & Hiv).
  rewrite (proj2 (valid_integer_iff (int_contents v) (v <? 0) Hc)) by (rewrite Hiv; rewrite Hiv in Hls; done).
  assert (Hsz : (1 <= length (int_contents v) <= 8)%nat).
  { unfold int_contents. rewrite be_bytes_length. destruct (int_size_least v H9).
    pose proof (int_size_8 v Hv). lia. }
  unfold CBS_len. destruct (Z.ltb_spec 8 (Z.of_nat (length (int_contents v)))); [lia|]. cbn [ret].
  pose proof (sign_extend _ Hc Hsz) as Hse. rewrite Hiv in Hse. by rewrite Hse.
Qed.

(** [CBS_get_asn1_int64] accepts [v] exactly on the DER encoding of the signed
    INTEGER [v]; sign extension by the byte union is right. *)
Theorem get_asn1_int64_iff l v r w :
  is_bytes l -> CBS_len l < 2 ^ 63 ->
  CBS_get_asn1_int64 l w = Ok v r w <->
  - 2 ^ 63 <= v < 2 ^ 63 /\ l = der_element CBS_ASN1_INTEGER (int_contents v) ++ r.
Proof.
  intros Hl Hlen. split; [|intros [Hv El]; by apply int64_complete].
  unfold CBS_get_asn1_int64. cbn [bind].
  destruct (get_asn1_tame CBS_ASN1_INTEGER l w Hl Hlen) as [(c & r0 & E)|(r0 & E)]; rewrite E; [|done].
  apply get_asn1_iff in E as He; [|done|done]. pose proof (is_element_bytes _ _ _ _ Hl He) as Hc.
  destruct (CBS_is_valid_asn1_integer c) as [neg|] eqn:En; [|done].
  apply valid_integer_iff in En as (Hne & Hls & ->); [|done].
  assert (1 <= length c)%nat by (destruct c; [done|cbn; lia]).
  destruct (Z.ltb_spec 8 (CBS_len c)) as [|Hc8]; [done|]. unfold CBS_len in Hc8. cbn [ret].
  rewrite sign_extend by (done || lia). intros [= <- <-].
  assert (Hv : - 2 ^ 63 <= int_value c < 2 ^ 63).
  { rewrite <- fits_8. apply (fits_mono (length c)); [lia|]. by apply int_value_range. }
  split; [done|]. destruct He as (_ & _ & El).
  rewrite <- (proj1 (int_contents_iff c (int_value c) Hc ltac:(apply fits_9; lia))); done.
Qed.

Lemma get_asn1_int64_iff_witness :
  CBS_get_asn1_int64 [2; 2; 255; 0; 7] (World ∅ ∅ 0) = Ok (-256) [7] (World ∅ ∅ 0).
Proof.
  apply (get_asn1_int64_iff [2; 2; 255; 0; 7] (-256) [7]).
  - repeat constructor; lia.
  - reflexivity.
  - split; [lia|reflexivity].
Defined.

(** * Elements of any tag *)

(** C33: [CBS_get_any_asn1] returns a tag and contents exactly when the input starts
    with their DER encoding (minimal tag number, definite minimal length), and it
    consumes that encoding and nothing else. *)
Theorem get_any_asn1_iff l c tag r w :
  is_bytes l -> CBS_len l < 2 ^ 63 ->
  CBS_get_any_asn1 l w = Ok (c, tag) r w <->
  0 <= tag < 2 ^ 32 /\ CBS_len c < 2 ^ 32 /\ l = der_element tag c ++ r.
Proof.
  intros Hl Hlen. change (_ /\ _ /\ _) with (is_element tag c r l).
  unfold CBS_get_any_asn1. cbn [bind]. split.
  - destruct (any_element_tame l w Hl Hlen) as [(e & r0 & E)|(r0 & E)]; rewrite E; [|done].
    apply element_iff in E as (t & contents & He & ->); [|done|done].
    rewrite skip_header_element. by intros [= -> -> ->].
  - intros He.
    assert (E : CBS_get_any_asn1_element l w = Ok (element_of tag c) r w) by (apply element_iff; eauto).
    rewrite E, skip_header_element. done.
Qed.

Lemma get_any_asn1_iff_witness :
  CBS_get_any_asn1 [0x30; 2; 5; 0; 9] (World ∅ ∅ 0) = Ok ([5; 0], 0x20000010) [9] (World ∅ ∅ 0).
Proof.
  apply (get_any_asn1_iff [0x30; 2; 5; 0; 9] [5; 0] 0x20000010 [9]).
  - repeat constructor; lia.
  - reflexivity.
  - split; [lia|]. split; reflexivity.
Defined.

(** The base-128 reader accepts exactly the minimal form of a 64-bit number. *)
Theorem parse_base128_integer_iff l v r w :
  is_bytes l -> 
  parse_base128_integer l w = Ok v r w <-> 0 <= v < 2 ^ 64 /\ l = base128 v ++ r.
Proof.
  intros Hl. rewrite <- (parse128_iff l v r Hl). pose proof (parse_base128_ok l w Hl) as Hok.
  unfold parse_result in Hok. destruct (parse128 0 l) as [[v' r']|].
  - rewrite Hok. split; [by intros [= -> ->]|by intros [= -> ->]].
  - destruct Hok as [x ->]. done.
Qed.

Lemma parse_base128_integer_iff_witness :
  parse_base128_integer [0x86; 0xf7; 0x0d; 1] (World ∅ ∅ 0) = Ok 113549 [1] (World ∅ ∅ 0).
Proof.
  apply (parse_base128_integer_iff [0x86; 0xf7; 0x0d; 1] 113549 [1]).
  - repeat constructor; lia.
  - split; [lia|reflexivity].
Defined.

(** * Comparison *)

Lemma lxor_zero a b : Z.lxor a b = 0 <-> a = b.
Proof. split; [apply Z.lxor_eq|intros ->; apply Z.lxor_nilpotent]. Qed.

Lemma u8_lor_byte x a b : is_byte x -> is_byte a -> is_byte b ->
  u8 (Z.lor x (Z.lxor a b)) = Z.lor x (Z.lxor a b).
Proof.
  intros Hx Ha Hb. apply u8_small.
  assert (Hl : forall y, is_byte y -> y = Z.land y 0xff) by (intros; rewrite land_0xFF, Z.mod_small; lia).
  rewrite (Hl x), (Hl a), (Hl b) by done.
  assert (E : Z.lor (Z.land x 255) (Z.lxor (Z.land a 255) (Z.land b 255))
              = Z.land (Z.lor x (Z.lxor a b)) 255)
    by (apply Z.bits_inj'; intros i Hi; rewrite !Z.land_spec, !Z.lor_spec, !Z.lxor_spec, !Z.land_spec;
        by destruct (Z.testbit x i), (Z.testbit a i), (Z.testbit b i), (Z.testbit 255 i)).
  rewrite E, land_0xFF. apply Z.mod_pos_bound. lia.
Qed.

Lemma memcmp_acc a : forall b x, length a = length b -> is_bytes a -> is_bytes b -> is_byte x ->
  fold_left (fun x ab => u8 (Z.lor x (Z.lxor (fst ab) (snd ab)))) (combine a b) x = 0
  <-> x = 0 /\ a = b.
Proof.
  induction a as [|c a IH]; intros [|d b] x Hlen Ha Hb Hx; try done; cbn [combine fold_left]; [naive_solver|].
  apply Forall_cons_1 in Ha as [Hc Ha]. apply Forall_cons_1 in Hb as [Hd Hb]. cbn [fst snd].
  rewrite IH by (first [by injection Hlen|done|apply u8_range]).
  rewrite u8_lor_byte by done. rewrite Z.lor_eq_0_iff, lxor_zero. naive_solver.
Qed.

(** [CBS_mem_equal] decides equality, although it looks at every byte. *)
Theorem mem_equal_iff cbs data :
  is_bytes cbs -> is_bytes data -> CBS_mem_equal cbs data = true <-> cbs = data.
Proof.
  intros Hc Hd. unfold CBS_mem_equal, CBS_len.
  destruct (Z.eqb_spec (Z.of_nat (length data)) (Z.of_nat (length cbs))) as [E|E]; cbn [negb].
  - rewrite Z.eqb_eq. unfold CRYPTO_memcmp. rewrite memcmp_acc by (done || lia). naive_solver.
  - split; [done|]. intros ->. done.
Qed.

Lemma mem_equal_iff_witness : CBS_mem_equal [1; 2; 255] [1; 2; 255] = true.
Proof. apply (mem_equal_iff [1; 2; 255] [1; 2; 255]); [repeat constructor; lia..|reflexivity]. Defined.
