(* ===== verification/CbbThms.v ===== *)
(** The builder of [Cbb] against an abstract builder: a buffer that already holds
    what closing the open children will produce.

    [holds pend B c]: the open levels [pend] stay open, and flushing the rest leaves
    exactly the bytes [B].  [builds k m b]: the operation [m] on level [k] appends
    [b] to them, whatever children are open above [k], when the buffer has room. *)
From stdpp Require Import base list numbers option.
From Stdlib Require Import ZArith Lia.
From S2P Require Import Prelude Cmem Cbs Cbb CbsThms.

(** * Lists *)

Lemma write_mid {A} (p old l r : list A) :
  length old = length l ->
  take (length p) (p ++ old ++ r) ++ l ++ drop (length p + length l) (p ++ old ++ r) = p ++ l ++ r.
Proof.
  intros E. rewrite take_app_length, drop_app_ge by lia.
  replace (length p + length l - length p)%nat with (length old) by lia. by rewrite drop_app_length.
Qed.

Lemma store_be_spec n v : 0 <= v -> store_be n v = (be_bytes n v, v / 256 ^ Z.of_nat n).
Proof.
  revert v. induction n as [|n IH]; intros v Hv; cbn [store_be].
  - change (256 ^ Z.of_nat 0) with 1. by rewrite Z.div_1_r.
  - rewrite shiftr_div by lia. change (2 ^ 8) with 256.
    rewrite IH by (apply Z.div_pos; lia). f_equal.
    rewrite Z.div_div by (try apply Z.pow_pos_nonneg; lia).
    f_equal. rewrite Nat2Z.inj_succ, Z.pow_succ_r by lia. done.
Qed.

(** * Frames *)

Record frame := mk_frame {
  f_len_len : nat;
  f_asn1 : bool;
  f_bytes : list Z;
}.

(** What closing a frame leaves in its parent; [None] when the prefix cannot hold
    the length. *)
Definition frame_bytes (f : frame) (inner : list Z) : option (list Z) :=
  let contents := f_bytes f ++ inner in
  let n := Z.of_nat (length contents) in
  if f_asn1 f
  then if n <? 0xffffffff then Some (der_length n ++ contents) else None
  else if n <? 256 ^ Z.of_nat (f_len_len f) then Some (be_bytes (f_len_len f) n ++ contents) else None.

Fixpoint close (fs : list frame) : option (list Z) :=
  match fs with
  | [] => Some []
  | f :: fs => match close fs with
               | Some inner => frame_bytes f inner
               | None => None
               end
  end.

(** The buffer contents and the children of open frames. *)
Fixpoint layout (fs : list frame) : list Z :=
  match fs with
  | [] => []
  | f :: fs => repeat 0 (f_len_len f) ++ f_bytes f ++ layout fs
  end.

Fixpoint children (start : nat) (fs : list frame) : list cbb_child :=
  match fs with
  | [] => []
  | f :: fs => mk_child (Z.of_nat start) (Z.of_nat (f_len_len f)) (f_asn1 f)
               :: children (start + f_len_len f + length (f_bytes f)) fs
  end.

Definition frame_wf (f : frame) : Prop :=
  (1 <= f_len_len f <= 3)%nat /\ (f_asn1 f = true -> f_len_len f = 1%nat).

(** A level that stays open starts before the bytes it will hold. *)
Definition child_in (n : nat) (child : cbb_child) : Prop :=
  0 <= offset child /\ 1 <= pending_len_len child <= 3 /\
  offset child + pending_len_len child <= Z.of_nat n.

Section builder.
Context `{CEnv}.

(** The size the buffer can reach, because it is there already or because every
    request is granted. *)
Definition room (limit : Z) (c : CBB) : Prop :=
  limit < 2 ^ 62 /\ cap c < 2 ^ 63 /\ 0 <= cap c /\
  (limit <= cap c \/ (can_resize c = true /\ forall p n, alloc_ok p n = true)).

Definition shape (limit : Z) (P : list Z) (pend : list cbb_child) (fs : list frame) (c : CBB) : Prop :=
  buf c = P ++ layout fs /\ pending c = pend ++ children (length P) fs /\
  error c = false /\ base_null c = false /\ room limit c /\
  Forall frame_wf fs /\ Forall (child_in (length P)) pend.

Definition holds (limit : Z) (pend : list cbb_child) (B : list Z) (c : CBB) : Prop :=
  exists P fs e, shape limit P pend fs c /\ close fs = Some e /\ B = P ++ e.

(** [flat]: no level above [pend] is open, before and after. *)
Definition state (flat : bool) (limit : Z) (pend : list cbb_child) (B : list Z) (c : CBB) : Prop :=
  if flat then shape limit B pend [] c else holds limit pend B c.

Definition builds (flat : bool) (limit : Z) (k : nat) (m : SM CBB unit) (b : list Z) : Prop :=
  forall pend B c w, length pend = k -> state flat limit pend B c -> CBS_len (B ++ b) <= limit ->
  exists c', m c w = Ok tt c' w /\ state flat limit pend (B ++ b) c'.

(** * The buffer *)

(** The builder with other bytes and children. *)
Definition with_buf (l : list Z) (pend : list cbb_child) (cap : Z) (c : CBB) : CBB :=
  mk_cbb l cap (can_resize c) (error c) (base_null c) pend.

Lemma reserve_ok limit c n w :
  base_null c = false -> room limit c -> 0 <= n -> base_len c + n <= limit ->
  exists cap', cbb_buffer_reserve n c w = Ok tt (set_cap cap' c) w /\ room limit (set_cap cap' c).
Proof.
  intros Hb (Hl & Hc & Hc0 & Hr) Hn Hfit. unfold cbb_buffer_reserve. cbn [bind get]. rewrite Hb.
  assert (Hbl : 0 <= base_len c) by (unfold base_len; lia). rewrite u64_small by lia.
  destruct (Z.ltb_spec (base_len c + n) (base_len c)); [lia|].
  destruct (Z.ltb_spec (cap c) (base_len c + n)) as [Hlt|Hge].
  - destruct Hr as [|[Hcr Ha]]; [lia|]. rewrite Hcr. cbn [negb]. cbv zeta.
    rewrite (u64_small (cap c * 2)) by lia. rewrite Ha. cbn [negb].
    eexists. split; [reflexivity|]. unfold room, set_cap. cbn [cap can_resize].
    destruct ((cap c * 2 <? cap c) || (cap c * 2 <? base_len c + n)) eqn:E; to_prop;
      split_and!; try lia; right; done.
  - exists (cap c). split; [by destruct c|]. by destruct c.
Qed.

Lemma fresh_bytes_length start n : length (fresh_bytes start n) = n.
Proof. unfold fresh_bytes. by rewrite length_map, length_seq. Qed.

(** Space at the end of the buffer, whatever it holds. *)
Lemma buffer_add_ok limit c n w :
  base_null c = false -> room limit c -> 0 <= n -> base_len c + n <= limit ->
  exists cap' fresh, length fresh = Z.to_nat n /\
    cbb_buffer_add n c w = Ok (base_len c) (with_buf (buf c ++ fresh) (pending c) cap' c) w /\
    room limit (with_buf (buf c ++ fresh) (pending c) cap' c).
Proof.
  intros Hb Hr Hn Hfit. destruct (reserve_ok limit c n w Hb Hr Hn Hfit) as (cap' & E & Hr').
  exists cap', (fresh_bytes (base_len c) (Z.to_nat n)). split; [apply fresh_bytes_length|].
  unfold cbb_buffer_add. cbn [bind]. rewrite E. done.
Qed.

Lemma write_at_mid P old l r c :
  buf c = P ++ old ++ r -> length old = length l ->
  write_at (Z.of_nat (length P)) l c = set_buf (P ++ l ++ r) c.
Proof. intros E El. unfold write_at. rewrite E, Nat2Z.id, write_mid by done. done. Qed.

(** * Closing one child *)

Lemma length_form_ok n :
  0 <= n < 0xffffffff ->
  exists ll ib rest, asn1_length_form n = Some (Z.of_nat (S ll), ib, rest) /\
    der_length n = ib :: be_bytes ll rest /\ rest / 256 ^ Z.of_nat ll = 0 /\ 0 <= rest /\
    (ll = O -> rest = 0).
Proof.
  intros Hn. unfold asn1_length_form, der_length.
  destruct (Z.ltb_spec 0xfffffffe n); [lia|].
  destruct (Z.ltb_spec 0xffffff n); [|destruct (Z.ltb_spec 0xffff n); [|destruct (Z.ltb_spec 0xff n);
    [|destruct (Z.ltb_spec 0x7f n)]]].
  - exists 4%nat, 132, n. destruct (Z.ltb_spec n 128), (Z.ltb_spec n (2 ^ 8)), (Z.ltb_spec n (2 ^ 16)),
      (Z.ltb_spec n (2 ^ 24)); try lia. split_and!; try done; try lia. apply Z.div_small; lia.
  - exists 3%nat, 131, n. destruct (Z.ltb_spec n 128), (Z.ltb_spec n (2 ^ 8)), (Z.ltb_spec n (2 ^ 16)),
      (Z.ltb_spec n (2 ^ 24)); try lia. split_and!; try done; try lia. apply Z.div_small; lia.
  - exists 2%nat, 130, n. destruct (Z.ltb_spec n 128), (Z.ltb_spec n (2 ^ 8)), (Z.ltb_spec n (2 ^ 16));
      try lia. split_and!; try done; try lia. apply Z.div_small; lia.
  - exists 1%nat, 129, n. destruct (Z.ltb_spec n 128), (Z.ltb_spec n (2 ^ 8)); try lia.
    split_and!; try done; try lia. apply Z.div_small; lia.
  - exists O, n, 0. destruct (Z.ltb_spec n 128); try lia. rewrite u8_small by lia. done.
Qed.

Lemma write_length_ok P old r n v c w :
  buf c = P ++ old ++ r -> length old = n -> 0 <= v -> v / 256 ^ Z.of_nat n = 0 ->
  write_length (Z.of_nat (length P)) (Z.of_nat n) v c w
  = Ok tt (set_buf (P ++ be_bytes n v ++ r) c) w.
Proof.
  intros E El Hv Hd. unfold write_length. rewrite Nat2Z.id, store_be_spec by done.
  cbn [bind modify]. rewrite (write_at_mid P old _ r) by (rewrite ?be_bytes_length; done).
  rewrite Hd. done.
Qed.

Lemma flush_child_len limit P pend n contents c w :
  let child := mk_child (Z.of_nat (length P)) (Z.of_nat n) false in
  buf c = P ++ repeat 0 n ++ contents -> pending c = pend ++ [child] ->
  base_null c = false -> room limit c -> base_len c <= limit ->
  CBS_len contents < 256 ^ Z.of_nat n ->
  flush_child (length pend) child c w
  = Ok tt (with_buf (P ++ be_bytes n (CBS_len contents) ++ contents) pend (cap c) c) w.
Proof.
  intros child Eb Ep Hb (Hl & _) Hlen Hn. unfold flush_child. cbn [bind get].
  assert (El : base_len c = Z.of_nat (length P) + Z.of_nat n + CBS_len contents)
    by (unfold base_len, CBS_len; rewrite Eb, !length_app, repeat_length; lia).
  pose proof (CBS_len_nonneg contents). unfold child. cbn [offset pending_len_len pending_is_asn1].
  rewrite u64_small by lia. destruct (Z.ltb_spec (Z.of_nat (length P) + Z.of_nat n) (Z.of_nat (length P))); [lia|].
  destruct (Z.ltb_spec (base_len c) (Z.of_nat (length P) + Z.of_nat n)); [lia|]. cbn [orb].
  replace (base_len c - (Z.of_nat (length P) + Z.of_nat n)) with (CBS_len contents) by lia.
  cbn [bind]. rewrite (write_length_ok P (repeat 0 n) contents) by
    (first [done|apply repeat_length|by apply Z.div_small]).
  cbn [modify]. unfold set_pending, set_buf, with_buf. cbn. by rewrite Ep, take_app_length.
Qed.

(** The contents are moved along to make space for a long length. *)
Lemma move_along limit P contents extra c w :
  buf c = P ++ [0] ++ contents -> base_null c = false -> room limit c -> (0 < extra)%nat ->
  base_len c + Z.of_nat extra <= limit ->
  exists cap' gap, length gap = S extra /\
    (let* r := attempt (cbb_buffer_add (Z.of_nat extra)) in
     match r with
     | None => cbb_err
     | Some _ => modify (fun c => write_at (Z.of_nat (length P) + 1 + Z.of_nat extra)
                   (take (length contents) (drop (Z.to_nat (Z.of_nat (length P) + 1)) (buf c))) c)
     end) c w = Ok tt (with_buf (P ++ gap ++ contents) (pending c) cap' c) w /\
    room limit (with_buf (P ++ gap ++ contents) (pending c) cap' c).
Proof.
  intros Eb Hb Hr He Hfit.
  destruct (buffer_add_ok limit c (Z.of_nat extra) w) as (cap' & fresh & Hf & E & Hr'); [done|done|lia|done|].
  rewrite Nat2Z.id in Hf. exists cap'. cbn [bind attempt]. rewrite E. cbn [modify].
  set (c1 := with_buf _ _ _ _) in *.
  assert (Ebuf : buf c1 = P ++ 0 :: contents ++ fresh) by (cbn; by rewrite Eb, <- app_assoc).
  assert (Edrop : drop (Z.to_nat (Z.of_nat (length P) + 1)) (buf c1) = contents ++ fresh).
  { rewrite Ebuf. replace (Z.to_nat (Z.of_nat (length P) + 1)) with (length (P ++ [0]))
      by (rewrite length_app; cbn; lia).
    change (0 :: contents ++ fresh) with ([0] ++ contents ++ fresh). rewrite app_assoc. apply drop_app_length. }
  rewrite Edrop, take_app_length.
  set (l := contents ++ fresh) in *.
  assert (El : buf c1 = (P ++ 0 :: take extra l) ++ drop extra l ++ [])
    by (rewrite Ebuf, app_nil_r, <- app_assoc; cbn [app]; by rewrite take_drop).
  assert (Etk : length (take extra l) = extra) by (unfold l; rewrite length_take, length_app; lia).
  assert (Edp : length (drop extra l) = length contents) by (unfold l; rewrite length_drop, length_app; lia).
  exists (0 :: take extra l). split; [cbn; lia|].
  replace (Z.of_nat (length P) + 1 + Z.of_nat extra) with (Z.of_nat (length (P ++ 0 :: take extra l)))
    by (rewrite length_app; cbn [length]; lia).
  rewrite (write_at_mid _ _ _ _ _ El Edp). rewrite app_nil_r, <- app_assoc. split; [done|].
  destruct Hr as (? & ? & ? & ?), Hr' as (? & ? & ? & ?). unfold room, with_buf in *. cbn in *. done.
Qed.

Lemma flush_child_asn1 limit P pend contents c w :
  let child := mk_child (Z.of_nat (length P)) 1 true in
  buf c = P ++ [0] ++ contents -> pending c = pend ++ [child] ->
  base_null c = false -> room limit c ->
  CBS_len contents < 0xffffffff ->
  CBS_len (P ++ der_length (CBS_len contents) ++ contents) <= limit ->
  exists cap', flush_child (length pend) child c w
  = Ok tt (with_buf (P ++ der_length (CBS_len contents) ++ contents) pend cap' c) w /\
    room limit (with_buf (P ++ der_length (CBS_len contents) ++ contents) pend cap' c).
Proof.
  intros child Eb Ep Hb Hr Hn Hlim. pose proof Hr as (Hl & _).
  pose proof (CBS_len_nonneg contents) as Hc0.
  destruct (length_form_ok (CBS_len contents)) as (ll & ib & rest & Ef & Ed & Hrest & Hrest0 & Hll); [lia|].
  rewrite Ed in *. rewrite !CBS_len_app in Hlim. cbn [app] in Hlim.
  assert (Elen : CBS_len (ib :: be_bytes ll rest) = 1 + Z.of_nat ll)
    by (unfold CBS_len; cbn [length]; rewrite be_bytes_length; lia).
  rewrite Elen in Hlim. unfold CBS_len at 1 in Hlim.
  assert (El : base_len c = Z.of_nat (length P) + 1 + CBS_len contents)
    by (unfold base_len, CBS_len; rewrite Eb, !length_app; cbn [length]; lia).
  unfold flush_child. cbn [bind get]. unfold child. cbn [offset pending_len_len pending_is_asn1].
  rewrite u64_small by lia. destruct (Z.ltb_spec (Z.of_nat (length P) + 1) (Z.of_nat (length P))); [lia|].
  destruct (Z.ltb_spec (base_len c) (Z.of_nat (length P) + 1)); [lia|]. cbn [orb].
  replace (base_len c - (Z.of_nat (length P) + 1)) with (CBS_len contents) by lia.
  rewrite Ef. replace (Z.of_nat (S ll) - 1) with (Z.of_nat ll) by lia.
  assert (Hpre : exists cap' gap c1,
     (if negb (Z.of_nat (S ll) =? 1) then
        let* r := attempt (cbb_buffer_add (Z.of_nat ll)) in
        match r with
        | None => cbb_err
        | Some _ => modify (fun c => write_at (Z.of_nat (length P) + 1 + Z.of_nat ll)
            (take (Z.to_nat (CBS_len contents)) (drop (Z.to_nat (Z.of_nat (length P) + 1)) (buf c))) c)
        end
      else ret tt) c w = Ok tt c1 w /\ c1 = with_buf (P ++ gap ++ contents) (pending c) cap' c /\
     length gap = S ll /\ room limit c1).
  { destruct (Z.eqb_spec (Z.of_nat (S ll)) 1) as [E1|E1]; cbn [negb].
    - exists (cap c), [0], c. split; [done|]. split; [|split; [cbn; lia|done]].
      unfold with_buf. cbn [app] in Eb. cbn [app]. rewrite <- Eb. by destruct c.
    - destruct (move_along limit P contents ll c w) as (cap' & gap & Hg & E & Hr1); try done; try lia.
      unfold CBS_len. rewrite Nat2Z.id. exists cap', gap, (with_buf (P ++ gap ++ contents) (pending c) cap' c).
      split; [exact E|]. done. }
  destruct Hpre as (cap' & gap & c1 & E & -> & Hg & Hr1). cbn [bind] in E |- *. rewrite E.
  destruct gap as [|g gap]; [done|]. cbn [modify]. 
  rewrite (write_at_mid P [g] [ib] (gap ++ contents)) by done.
  assert (Eoff : Z.of_nat (length P) + 1 = Z.of_nat (length (P ++ [ib]))) by (rewrite length_app; cbn; lia).
  rewrite Eoff. rewrite (write_length_ok (P ++ [ib]) gap contents ll rest).
  2: { cbn. by rewrite <- app_assoc. }
  2: { by injection Hg. }
  2-3: done.
  exists cap'. split.
  - cbn [modify]. unfold set_pending, set_buf, with_buf. cbn.
    rewrite Ep, take_app_length, <- app_assoc. done.
  - destruct Hr1 as (? & ? & ? & ?). unfold room, with_buf in *. cbn in *. done.
Qed.

(** * Flushing *)

Lemma der_length_pos n : 1 <= CBS_len (der_length n).
Proof. unfold der_length, CBS_len. repeat case_match; cbn [length]; lia. Qed.

Lemma frame_bytes_len f inner out :
  frame_wf f -> frame_bytes f inner = Some out ->
  Z.of_nat (f_len_len f) + CBS_len (f_bytes f) + CBS_len inner <= CBS_len out.
Proof.
  intros [Hf Ha] E. unfold frame_bytes in E. cbv zeta in E. destruct (f_asn1 f).
  - rewrite Ha by done. destruct (_ <? _); [|done]. injection E as <-.
    rewrite !CBS_len_app. match goal with |- context [der_length ?n] => pose proof (der_length_pos n) end. lia.
  - destruct (_ <? _); [|done]. injection E as <-. rewrite !CBS_len_app.
    unfold CBS_len at 3. rewrite be_bytes_length. lia.
Qed.

Lemma shape_base_len limit P pend fs c :
  shape limit P pend fs c -> base_len c = CBS_len P + CBS_len (layout fs).
Proof. intros (Eb & _). unfold base_len, CBS_len. rewrite Eb, length_app. lia. Qed.

Lemma close_len fs e : Forall frame_wf fs -> close fs = Some e -> CBS_len (layout fs) <= CBS_len e.
Proof.
  intros Hfs. revert e. induction Hfs as [|f fs Hf Hfs IH]; intros e E; cbn [close layout] in *.
  - injection E as <-. lia.
  - destruct (close fs) as [inner|]; [|done]. specialize (IH inner eq_refl).
    apply frame_bytes_len in E; [|done]. rewrite !CBS_len_app. unfold CBS_len at 1. rewrite repeat_length. lia.
Qed.

Lemma child_in_mono n m child : (n <= m)%nat -> child_in n child -> child_in m child.
Proof. unfold child_in. lia. Qed.

Lemma flush_from_ok limit fs : forall fuel P pend e c w,
  shape limit P pend fs c -> close fs = Some e -> CBS_len (P ++ e) <= limit ->
  (length fs < fuel)%nat ->
  exists c', flush_from fuel (length pend) c w = Ok tt c' w /\ shape limit (P ++ e) pend [] c'.
Proof.
  induction fs as [|f fs IH]; intros fuel P pend e c w (Eb & Ep & He & Hb & Hr & Hf & Hp) Ec Hlen Hfuel;
    (destruct fuel as [|fuel]; [lia|]); cbn [flush_from bind get]; rewrite Hb, He; cbn [orb].
  - cbn [children] in Ep. rewrite app_nil_r in Ep. rewrite Ep.
    rewrite (proj2 (Nat.ltb_ge _ _)) by lia. rewrite lookup_ge_None_2 by lia.
    cbn [close] in Ec. injection Ec as <-. cbn [layout] in Eb.
    exists c. split; [done|]. rewrite app_nil_r in *. unfold shape. cbn [layout children].
    rewrite !app_nil_r. done.
  - cbn [children layout length] in *. rewrite Ep.
    rewrite (proj2 (Nat.ltb_ge _ _)) by (rewrite length_app; lia).
    rewrite list_lookup_middle by done. cbn [pending_len_len].
    apply Forall_cons_1 in Hf as [Hf Hfs]. pose proof Hf as [Hf1 Hf2].
    destruct (Z.eqb_spec (Z.of_nat (f_len_len f)) 0); [lia|].
    cbn [close] in Ec. destruct (close fs) as [inner|] eqn:Ei; [|done].
    set (child := mk_child _ _ _) in *. set (P' := P ++ repeat 0 (f_len_len f) ++ f_bytes f).
    assert (El' : length P' = (length P + f_len_len f + length (f_bytes f))%nat)
      by (unfold P'; rewrite !length_app, repeat_length; lia).
    assert (Hin : CBS_len (P' ++ inner) <= limit).
    { pose proof (frame_bytes_len _ _ _ Hf Ec). unfold P'. rewrite !CBS_len_app in *.
      unfold CBS_len at 2. rewrite repeat_length. lia. }
    destruct (IH fuel P' (pend ++ [child]) inner c w) as (c1 & E1 & Hs1); [|done|done|lia|].
    { split_and!; try done.
      - unfold P'. by rewrite Eb, <- !app_assoc.
      - by rewrite Ep, El', <- app_assoc.
      - apply Forall_app; split.
        + eapply Forall_impl; [|exact Hp]. intros x. apply child_in_mono. lia.
        + constructor; [|done]. unfold child_in, child. cbn. lia. }
    rewrite length_app in E1. cbn [length] in E1. rewrite Nat.add_1_r in E1.
    cbn [attempt bind]. rewrite E1.
    destruct Hs1 as (Eb1 & Ep1 & He1 & Hb1 & Hr1 & _ & _).
    cbn [layout children] in Eb1, Ep1. rewrite app_nil_r in Eb1, Ep1.
    unfold P' in Eb1. rewrite <- !app_assoc in Eb1.
    set (contents := f_bytes f ++ inner) in *.
    assert (Hshape : forall cap' out, room limit (with_buf (P ++ out) pend cap' c1) ->
              shape limit (P ++ out) pend [] (with_buf (P ++ out) pend cap' c1)).
    { intros cap' out Hr'. unfold shape. cbn [layout children]. rewrite !app_nil_r. split_and!; try done.
      eapply Forall_impl; [|exact Hp]. intros x. apply child_in_mono. rewrite length_app. lia. }
    unfold frame_bytes in Ec. fold contents in Ec. cbv zeta in Ec. fold (CBS_len contents) in Ec.
    unfold child in *. destruct (f_asn1 f) eqn:Ea.
    + rewrite Hf2 in * by done. destruct (Z.ltb_spec (CBS_len contents) 0xffffffff); [|done].
      injection Ec as <-. change (Z.of_nat 1) with 1 in *.
      destruct (flush_child_asn1 limit P pend contents c1 w) as (cap' & E2 & Hr2); [done..|].
      exists (with_buf (P ++ der_length (CBS_len contents) ++ contents) pend cap' c1).
      split; [exact E2|by apply Hshape].
    + destruct (Z.ltb_spec (CBS_len contents) (256 ^ Z.of_nat (f_len_len f))); [|done].
      injection Ec as <-.
      pose proof (flush_child_len limit P pend (f_len_len f) contents c1 w Eb1 Ep1 Hb1 Hr1) as E2.
      rewrite E2.
      * eexists. split; [done|]. apply Hshape. destruct Hr1 as (?&?&?&?). by unfold room.
      * unfold base_len. rewrite Eb1. unfold P' in Hin. unfold contents. 
        unfold CBS_len in Hin. rewrite !length_app in *. lia.
      * done.
Qed.

Lemma flush_ok limit pend B c w :
  holds limit pend B c -> CBS_len B <= limit ->
  exists c', CBB_flush (length pend) c w = Ok tt c' w /\ shape limit B pend [] c'.
Proof.
  intros (P & fs & e & Hs & Ec & ->) Hl. unfold CBB_flush.
  eapply flush_from_ok; [done|done|done|]. destruct Hs as (_ & -> & _).
  rewrite length_app. clear. generalize (length P). induction fs as [|f fs IH]; intros n; cbn [children length]; [lia|].
  specialize (IH (n + f_len_len f + length (f_bytes f))%nat). lia.
Qed.

(** * Operations *)

Lemma bind_assoc {T A B C} (m : SM T A) (f : A -> SM T B) (g : B -> SM T C) s w :
  bind (bind m f) g s w = bind m (fun a => bind (f a) g) s w.
Proof. unfold bind. by destruct (m s w). Qed.

Lemma builds_ext flat limit k m m' b :
  (forall c w, m c w = m' c w) -> builds flat limit k m' b -> builds flat limit k m b.
Proof. intros E Hm pend B c w. rewrite E. apply Hm. Qed.

Lemma builds_ret flat limit k : builds flat limit k (ret tt) [].
Proof. intros pend B c w _ Hh _. exists c. rewrite app_nil_r. done. Qed.

Lemma builds_seq flat limit k m1 m2 b1 b2 :
  builds flat limit k m1 b1 -> builds flat limit k m2 b2 -> builds flat limit k (m1;; m2) (b1 ++ b2).
Proof.
  intros H1 H2 pend B c w Hk Hh Hl. rewrite app_assoc in *. cbn [bind].
  destruct (H1 pend B c w Hk Hh) as (c1 & -> & Hh1).
  - rewrite CBS_len_app in Hl. pose proof (CBS_len_nonneg b2). lia.
  - by apply H2.
Qed.

Lemma shape_holds limit P pend c : shape limit P pend [] c -> holds limit pend P c.
Proof. intros Hs. exists P, [], []. by rewrite app_nil_r. Qed.

Lemma state_holds flat limit pend B c : state flat limit pend B c -> holds limit pend B c.
Proof. destruct flat; [apply shape_holds|done]. Qed.

Lemma shape_state flat limit pend B c : shape limit B pend [] c -> state flat limit pend B c.
Proof. destruct flat; [done|apply shape_holds]. Qed.

Lemma builds_flush flat limit k : builds flat limit k (CBB_flush k) [].
Proof.
  intros pend B c w <- Hh%state_holds Hl. rewrite app_nil_r in *.
  destruct (flush_ok limit pend B c w Hh Hl) as (c' & E & Hs). exists c'. split; [done|].
  by apply shape_state.
Qed.

(** An append at the end of a flushed buffer. *)
Lemma append_shape limit P pend c fresh cap' b :
  shape limit P pend [] c -> length fresh = length b ->
  room limit (with_buf (buf c ++ fresh) (pending c) cap' c) ->
  shape limit (P ++ b) pend []
    (write_at (base_len c) b (with_buf (buf c ++ fresh) (pending c) cap' c)).
Proof.
  intros (Eb & Ep & He & Hb & _ & Hf & Hp) El Hr. cbn [layout children] in *. rewrite app_nil_r in *.
  unfold base_len. rewrite Eb in *.
  rewrite (write_at_mid P fresh b []) by (rewrite ?app_nil_r; done). rewrite app_nil_r.
  unfold shape. cbn [layout children]. rewrite !app_nil_r. split_and!; try done.
  eapply Forall_impl; [|exact Hp]. intros x. apply child_in_mono. rewrite length_app. lia.
Qed.

(** Space for [b] after a flush. *)
Lemma grow_ok limit P pend c n w :
  shape limit P pend [] c -> 0 <= n -> CBS_len P + n <= limit ->
  exists cap' fresh, length fresh = Z.to_nat n /\
    cbb_buffer_add n c w = Ok (base_len c) (with_buf (buf c ++ fresh) (pending c) cap' c) w /\
    room limit (with_buf (buf c ++ fresh) (pending c) cap' c).
Proof.
  intros Hs Hn Hl. pose proof (shape_base_len _ _ _ _ _ Hs) as El. destruct Hs as (_ & _ & _ & Hb & Hr & _).
  apply buffer_add_ok; [done|done|done|]. rewrite El. unfold CBS_len at 2. cbn. lia.
Qed.

Lemma builds_add_u flat limit k v n :
  (1 <= n)%nat -> 0 <= v < 256 ^ Z.of_nat n ->
  builds flat limit k (cbb_add_u k v (Z.of_nat n)) (be_bytes n v).
Proof.
  intros Hn Hv pend B c w <- Hh%state_holds Hl. rewrite CBS_len_app in Hl.
  assert (Elen : CBS_len (be_bytes n v) = Z.of_nat n) by (unfold CBS_len; by rewrite be_bytes_length).
  rewrite Elen in Hl. unfold cbb_add_u. cbn [bind].
  destruct (flush_ok limit pend B c w Hh ltac:(lia)) as (c1 & -> & Hs).
  unfold cbb_buffer_add_u. destruct (Z.eqb_spec (Z.of_nat n) 0); [lia|]. cbn [bind].
  destruct (grow_ok limit B pend c1 (Z.of_nat n) w Hs ltac:(lia) Hl) as (cap' & fresh & Hf & -> & Hr).
  rewrite Nat2Z.id in *. rewrite store_be_spec by lia. cbn [bind modify].
  rewrite Z.div_small by lia. eexists. split; [done|]. apply shape_state.
  apply append_shape; [done|by rewrite be_bytes_length|done].
Qed.

Lemma builds_u8 flat limit k b : is_byte b -> builds flat limit k (CBB_add_u8 k b) [b].
Proof.
  intros Hb. unfold CBB_add_u8. rewrite u8_small by done.
  assert (E : be_bytes 1 b = [b]) by (cbn; rewrite Z.mod_small by lia; done).
  rewrite <- E. change 1 with (Z.of_nat 1). apply builds_add_u; [lia|]. change (256 ^ Z.of_nat 1) with 256. lia.
Qed.

Lemma builds_bytes flat limit k data : builds flat limit k (CBB_add_bytes k data) data.
Proof.
  intros pend B c w <- Hh%state_holds Hl. rewrite CBS_len_app in Hl. pose proof (CBS_len_nonneg data).
  unfold CBB_add_bytes. cbn [bind].
  destruct (flush_ok limit pend B c w Hh ltac:(lia)) as (c1 & -> & Hs).
  destruct (grow_ok limit B pend c1 (CBS_len data) w Hs ltac:(lia) Hl) as (cap' & fresh & Hf & E & Hr).
  unfold CBS_len in E, Hf. rewrite E. rewrite Nat2Z.id in Hf.
  cbn [modify]. eexists. split; [done|]. apply shape_state.
  by apply append_shape.
Qed.

(** * Children *)

(** Seen from its parent, an open child is its closed form. *)
Lemma close_child limit pend Q n asn1 contents out c :
  holds limit (pend ++ [mk_child (Z.of_nat (length Q)) (Z.of_nat n) asn1]) (Q ++ repeat 0 n ++ contents) c ->
  Forall (child_in (length Q)) pend -> frame_wf (mk_frame n asn1 []) ->
  frame_bytes (mk_frame n asn1 []) contents = Some out ->
  holds limit pend (Q ++ out) c.
Proof.
  intros (P & fs & e & (Eb & Ep & He & Hb & Hr & Hfs & Hp) & Ec & EB) HQ Hwf Hout.
  symmetry in EB. apply Forall_app in Hp as [_ Hp]. apply Forall_cons_1 in Hp as [(_ & _ & Hin) _].
  cbn [offset pending_len_len] in Hin.
  assert (EP : P = (Q ++ repeat 0 n) ++ drop (length Q + n) P).
  { rewrite <- (take_drop (length Q + n) P) at 1. f_equal.
    pose proof (f_equal (take (length Q + n)) EB) as Et.
    rewrite take_app_le in Et by lia. rewrite Et, app_assoc.
    replace (length Q + n)%nat with (length (Q ++ repeat 0 n)) by (rewrite length_app, repeat_length; lia).
    apply take_app_length. }
  set (cb := drop (length Q + n) P) in *.
  assert (Econt : contents = cb ++ e).
  { rewrite EP, !app_assoc, <- !app_assoc in EB. by do 2 apply app_inv_head in EB. }
  assert (Hlen : length P = (length Q + n + length cb)%nat)
    by (rewrite EP, !length_app, repeat_length; lia).
  exists Q, (mk_frame n asn1 cb :: fs), out. split; [|split; [|done]].
  - unfold shape. cbn [layout children f_len_len f_asn1 f_bytes]. split_and!; try done.
    + by rewrite Eb, EP, <- !app_assoc.
    + by rewrite Ep, <- app_assoc, Hlen.
    + by constructor.
  - cbn [close]. rewrite Ec. unfold frame_bytes in *. cbn [f_bytes f_len_len f_asn1 app] in *.
    by rewrite <- Econt.
Qed.

Lemma holds_inner limit pend B c :
  holds limit pend B c -> Forall (child_in (length B)) pend.
Proof.
  intros (P & fs & e & (_ & _ & _ & _ & _ & _ & Hp) & _ & ->).
  eapply Forall_impl; [|exact Hp]. intros x. apply child_in_mono. rewrite length_app. lia.
Qed.

Lemma builds_child limit pend x m b B c w :
  builds false limit (S (length pend)) m b -> holds limit (pend ++ [x]) B c -> CBS_len (B ++ b) <= limit ->
  exists c', m c w = Ok tt c' w /\ holds limit (pend ++ [x]) (B ++ b) c'.
Proof. intros Hm. apply Hm. rewrite length_app. cbn. lia. Qed.

(** Opening a level over a placeholder that was just added. *)
Lemma open_shape limit pend B n asn1 c :
  shape limit (B ++ repeat 0 n) pend [] c -> (1 <= n <= 3)%nat ->
  shape limit (B ++ repeat 0 n) (pend ++ [mk_child (Z.of_nat (length B)) (Z.of_nat n) asn1]) []
    (set_pending (take (length pend) (pending c) ++ [mk_child (Z.of_nat (length B)) (Z.of_nat n) asn1]) c).
Proof.
  intros (Eb & Ep & He & Hb & Hr & Hf & Hp) Hn. cbn [layout children] in *.
  rewrite app_nil_r in *. unfold shape. cbn [layout children]. rewrite !app_nil_r.
  split_and!; try done; cbn.
  - by rewrite Ep, take_ge by lia.
  - apply Forall_app. split; [done|]. constructor; [|done].
    unfold child_in. cbn. rewrite length_app, repeat_length. lia.
Qed.

(** A new length-prefixed child, from its parent's point of view. *)
Lemma prefixed_open limit pend B n c w :
  holds limit pend B c -> (1 <= n <= 3)%nat -> CBS_len B + Z.of_nat n <= limit ->
  exists c', cbb_add_length_prefixed (length pend) (Z.of_nat n) c w = Ok tt c' w /\
    shape limit (B ++ repeat 0 n) (pend ++ [mk_child (Z.of_nat (length B)) (Z.of_nat n) false]) [] c'.
Proof.
  intros Hh Hn Hl. unfold cbb_add_length_prefixed. cbn [bind].
  destruct (flush_ok limit pend B c w Hh ltac:(lia)) as (c1 & -> & Hs).
  destruct (grow_ok limit B pend c1 (Z.of_nat n) w Hs ltac:(lia) Hl) as (cap' & fresh & Hf & -> & Hr).
  rewrite Nat2Z.id in *. unfold open_child. cbn [modify].
  assert (Hf' : length fresh = length (repeat 0 n)) by (by rewrite repeat_length).
  pose proof (append_shape limit B pend c1 fresh cap' (repeat 0 n) Hs Hf' Hr) as Hs2.
  assert (El : base_len c1 = Z.of_nat (length B))
    by (rewrite (shape_base_len _ _ _ _ _ Hs); unfold CBS_len; cbn; lia).
  rewrite El in *. eexists. split; [done|]. by apply open_shape.
Qed.

Lemma builds_prefixed limit k n m b :
  (1 <= n <= 3)%nat -> CBS_len b < 256 ^ Z.of_nat n -> builds false limit (S k) m b ->
  builds false limit k (cbb_add_length_prefixed k (Z.of_nat n);; m) (be_bytes n (CBS_len b) ++ b).
Proof.
  intros Hn Hb Hm pend B c w Hk Hh Hl. subst k. rewrite !CBS_len_app in Hl.
  assert (Elen : CBS_len (be_bytes n (CBS_len b)) = Z.of_nat n)
    by (unfold CBS_len; by rewrite be_bytes_length).
  rewrite Elen in Hl. pose proof (CBS_len_nonneg b). cbn [bind].
  destruct (prefixed_open limit pend B n c w Hh Hn ltac:(lia)) as (c1 & -> & Hs1%shape_holds).
  destruct (builds_child _ _ _ _ _ _ _ w Hm Hs1) as (c2 & E2 & Hh2).
  { rewrite !CBS_len_app. unfold CBS_len at 2. rewrite repeat_length. lia. }
  exists c2. split; [exact E2|]. rewrite <- app_assoc in Hh2.
  eapply close_child; [exact Hh2| | |].
  - by apply (holds_inner limit _ _ c).
  - unfold frame_wf. cbn. split; [lia|done].
  - unfold frame_bytes. cbn [f_bytes f_asn1 f_len_len app]. fold (CBS_len b).
    destruct (Z.ltb_spec (CBS_len b) (256 ^ Z.of_nat n)); [done|lia].
Qed.

(** * Base-128 integers and elements *)

Lemma base128_len_groups fuel : forall v, 0 <= v -> base128_len fuel v = Z.of_nat (groups128 fuel v).
Proof.
  induction fuel as [|fuel IH]; intros v Hv; [done|]. cbn [base128_len groups128].
  destruct (Z.ltb_spec 0 v); [|done]. rewrite shiftr_div by lia. change (2 ^ 7) with 128.
  rewrite IH by (apply Z.div_pos; lia). lia.
Qed.

Lemma builds_base128_bytes flat limit k n v :
  0 <= v -> builds flat limit k (add_base128_bytes k n v) (fixed128 n v).
Proof.
  intros Hv. induction n as [|i IH]; [apply builds_ret|]. cbn [add_base128_bytes fixed128].
  rewrite land_0x7F, shiftr_div by lia.
  assert (E : 2 ^ (7 * Z.of_nat i) = 128 ^ Z.of_nat i) by (rewrite Z.pow_mul_r by lia; done).
  rewrite E. pose proof (Z.mod_pos_bound (v / 128 ^ Z.of_nat i) 128 ltac:(lia)).
  set (x := v / 128 ^ Z.of_nat i mod 128) in *.
  assert (Ex : (if negb (i =? 0)%nat then Z.lor x 0x80 else x) = x + if (i =? 0)%nat then 0 else 128).
  { destruct (i =? 0)%nat; cbn [negb]; [lia|]. change 0x80 with (1 * 2 ^ 7). by rewrite lor_add_shifted by lia. }
  cbv zeta. rewrite Ex. match goal with |- builds _ _ _ _ (?b :: ?l) => change (b :: l) with ([b] ++ l) end.
  apply builds_seq; [|done]. apply builds_u8. destruct (i =? 0)%nat; lia.
Qed.

Lemma builds_base128 flat limit k v : 0 <= v -> builds flat limit k (add_base128_integer k v) (base128 v).
Proof.
  intros Hv. unfold add_base128_integer, base128. rewrite base128_len_groups by done.
  destruct (groups128 10 v) as [|n] eqn:E.
  - cbn [Z.of_nat Z.eqb Nat.max]. change (Z.to_nat 1) with 1%nat. by apply builds_base128_bytes.
  - destruct (Z.eqb_spec (Z.of_nat (S n)) 0); [lia|]. rewrite Nat2Z.id.
    replace (Nat.max 1 (S n)) with (S n) by lia. by apply builds_base128_bytes.
Qed.

Lemma builds_tag flat limit k tag :
  0 <= tag < 2 ^ 32 ->
  builds flat limit k
    (let tag_bits := Z.land (u8 (Z.shiftr tag CBS_ASN1_TAG_SHIFT)) 0xe0 in
     let tag_number := Z.land tag CBS_ASN1_TAG_NUMBER_MASK in
     if 0x1f <=? tag_number
     then CBB_add_u8 k (Z.lor tag_bits 0x1f);; add_base128_integer k tag_number
     else CBB_add_u8 k (Z.lor tag_bits tag_number)) (der_tag tag).
Proof.
  intros Ht. cbv zeta. unfold der_tag. cbv zeta.
  assert (En : Z.land tag CBS_ASN1_TAG_NUMBER_MASK = tag mod 2 ^ 29)
    by (change CBS_ASN1_TAG_NUMBER_MASK with (Z.ones 29); by rewrite Z.land_ones by lia).
  assert (Ebits : Z.land (u8 (Z.shiftr tag CBS_ASN1_TAG_SHIFT)) 0xe0 = tag / 2 ^ 29 * 2 ^ 5).
  { unfold CBS_ASN1_TAG_SHIFT. rewrite shiftr_div, u8_small by (try zdiv_lia; lia).
    rewrite land_0xe0 by zdiv_lia. rewrite Z.div_div by lia. done. }
  rewrite En, Ebits. pose proof (Z.mod_pos_bound tag (2 ^ 29) ltac:(lia)) as Hm.
  assert (Hbits : 0 <= tag / 2 ^ 29 < 8) by zdiv_lia.
  rewrite !(Z.lor_comm (tag / 2 ^ 29 * 2 ^ 5)).
  destruct (Z.ltb_spec (tag mod 2 ^ 29) 31), (Z.leb_spec 0x1f (tag mod 2 ^ 29)); try lia.
  - rewrite lor_add_shifted by lia. rewrite Z.add_comm. apply builds_u8. lia.
  - rewrite lor_add_shifted by lia. rewrite Z.add_comm.
    match goal with |- builds _ _ _ _ (?b :: ?l) => change (b :: l) with ([b] ++ l) end.
    apply builds_seq; [apply builds_u8; lia|apply builds_base128; lia].
Qed.

Lemma builds_element limit k tag m b :
  0 <= tag < 2 ^ 32 -> CBS_len b < 0xffffffff -> builds false limit (S k) m b ->
  builds false limit k (CBB_add_asn1 k tag;; m) (der_element tag b).
Proof.
  intros Ht Hb Hm pend B c w Hk Hh Hl. subst k. cbn [state] in Hh.
  unfold der_element, der_header in *. fold (CBS_len b) in *. rewrite !CBS_len_app in Hl.
  pose proof (CBS_len_nonneg b). pose proof (CBS_len_nonneg (der_tag tag)).
  pose proof (der_length_pos (CBS_len b)). unfold CBB_add_asn1. cbv zeta. cbn [bind].
  destruct (flush_ok limit pend B c w Hh ltac:(lia)) as (c1 & -> & Hs).
  destruct (builds_tag true limit (length pend) tag Ht pend B c1 w eq_refl Hs) as (c2 & E & Hs2);
    [rewrite CBS_len_app; lia|].
  cbv zeta in E. rewrite E. clear E. cbn [bind get].
  destruct (builds_u8 true limit (length pend) 0 ltac:(lia) pend _ c2 w eq_refl Hs2) as (c3 & -> & Hs3);
    [rewrite !CBS_len_app; change (CBS_len [0]) with 1; lia|].
  cbn [state] in Hs2, Hs3. unfold open_child. cbn [modify].
  assert (El : base_len c2 = Z.of_nat (length (B ++ der_tag tag)))
    by (rewrite (shape_base_len _ _ _ _ _ Hs2); unfold CBS_len; cbn [layout length]; lia).
  rewrite El. apply (open_shape _ _ _ 1 true), shape_holds in Hs3; [|lia]. change (Z.of_nat 1) with 1 in Hs3.
  cbn [repeat] in Hs3.
  destruct (builds_child _ _ _ _ _ _ _ w Hm Hs3) as (c4 & -> & Hh4);
    [rewrite !CBS_len_app; change (CBS_len [0]) with 1; lia|].
  exists c4. split; [done|]. rewrite <- (app_assoc (B ++ der_tag tag)) in Hh4.
  cbn [state]. rewrite !app_assoc. rewrite <- !(app_assoc (B ++ der_tag tag)).
  eapply (close_child _ _ _ 1 true b); [exact Hh4| | |].
  - by apply (holds_inner limit _ _ c2), shape_holds.
  - unfold frame_wf. cbn. split; [lia|done].
  - unfold frame_bytes. cbn [f_bytes f_asn1 f_len_len app]. fold (CBS_len b).
    destruct (Z.ltb_spec (CBS_len b) 0xffffffff); [done|lia].
Qed.

End builder.

(** * What the builder produces: INTEGERs in their minimal form, DER elements nested
    to any depth, TLS-style length prefixes, and the round trips with the parser. *)

(** * The bytes of an INTEGER, most significant first *)

Lemma be_bytes_cons n v : be_bytes (S n) v = v / 256 ^ Z.of_nat n mod 256 :: be_bytes n v.
Proof.
  revert v. induction n as [|n IH]; intros v.
  - change (256 ^ Z.of_nat 0) with 1. by rewrite Z.div_1_r.
  - unfold be_bytes in *. cbn [le_bytes rev]. change (rev (le_bytes n (v / 256 / 256)) ++ [v / 256 mod 256])
      with (rev (le_bytes (S n) (v / 256))).
    rewrite IH. cbn [app]. f_equal. f_equal.
    rewrite Nat2Z.inj_succ, Z.pow_succ_r by lia. rewrite Z.div_div by (try apply Z.pow_pos_nonneg; lia). done.
Qed.

Lemma shift_byte v n : Z.land (Z.shiftr v (8 * Z.of_nat n)) 0xff = v / 256 ^ Z.of_nat n mod 256.
Proof. rewrite land_0xFF, shiftr_div by lia. by rewrite Z.pow_mul_r by lia. Qed.

(** What [CBB_add_asn1_uint64] adds: leading zeros are dropped, a sign byte is added. *)
Fixpoint uint_contents (n : nat) (v : Z) : list Z :=
  match n with
  | O => [0]
  | S n =>
      let byte := v / 256 ^ Z.of_nat n mod 256 in
      if byte =? 0 then uint_contents n v
      else (if byte <? 128 then [] else [0]) ++ be_bytes (S n) v
  end.

Lemma int_contents_of_size n v :
  (1 <= n <= 9)%nat -> least_size n v -> int_contents v = be_bytes n (v mod 256 ^ Z.of_nat n).
Proof. intros Hn Hl. unfold int_contents. by rewrite (least_size_unique n v). Qed.

Lemma fits_below n v : 0 <= v -> fits (S n) v <-> v < 128 * 256 ^ Z.of_nat n.
Proof. intros Hv. rewrite fits_succ. pose proof (pow_256_pos n). lia. Qed.

Lemma uint_contents_int n v :
  (n <= 8)%nat -> 0 <= v < 256 ^ Z.of_nat n -> uint_contents n v = int_contents v.
Proof.
  induction n as [|n IH]; intros Hn Hv.
  - change (256 ^ Z.of_nat 0) with 1 in Hv. replace v with 0 by lia. reflexivity.
  - cbn [uint_contents]. cbv zeta. pose proof Hv as Hv'. rewrite pow_256_succ in Hv.
    pose proof (pow_256_pos n) as Hp.
    pose proof (Z.div_mod v (256 ^ Z.of_nat n) ltac:(lia)) as Hdm.
    pose proof (Z.mod_pos_bound v (256 ^ Z.of_nat n) Hp) as Hm.
    set (q := v / 256 ^ Z.of_nat n) in *. assert (Hq : 0 <= q < 256) by nia.
    rewrite (Z.mod_small q) by lia. destruct (Z.eqb_spec q 0) as [E|E]; [apply IH; [lia|nia]|].
    destruct (Z.ltb_spec q 128) as [Hs|Hs]; cbn [app]; symmetry.
    + rewrite (int_contents_of_size (S n)); [by rewrite Z.mod_small|lia|].
      split; [apply fits_below; [lia|nia]|].
      destruct n as [|n]; [by left|right]. replace (S (S n) - 1)%nat with (S n) by lia.
      rewrite fits_below by lia. rewrite pow_256_succ in *. nia.
    + rewrite (int_contents_of_size (S (S n))); [|lia|].
      * rewrite Z.mod_small by (rewrite pow_256_succ; lia). rewrite be_bytes_cons.
        rewrite (Z.div_small v) by done. done.
      * split; [apply fits_below; [lia|rewrite pow_256_succ; nia]|].
        right. replace (S (S n) - 1)%nat with (S n) by lia. rewrite fits_below by lia. nia.
Qed.

(** * The bytes of a negative INTEGER *)

Lemma nth_le_bytes n : forall i v, (i < n)%nat -> nth i (le_bytes n v) 0 = v / 256 ^ Z.of_nat i mod 256.
Proof.
  induction n as [|n IH]; intros i v Hi; [lia|]. destruct i as [|i]; cbn [le_bytes nth].
  - change (256 ^ Z.of_nat 0) with 1. by rewrite Z.div_1_r.
  - rewrite IH by lia. rewrite pow_256_succ, Z.div_div by (try apply pow_256_pos; lia). done.
Qed.

Lemma take_le_bytes n m v : (n <= m)%nat -> take n (le_bytes m v) = le_bytes n v.
Proof.
  revert m v. induction n as [|n IH]; intros m v Hn; [done|]. destruct m; [lia|].
  cbn [le_bytes take]. by rewrite IH by lia.
Qed.

Lemma le_bytes_mod n m v : (n <= m)%nat -> le_bytes n (v mod 256 ^ Z.of_nat m) = le_bytes n v.
Proof.
  revert m v. induction n as [|n IH]; intros m v Hn; [done|]. destruct m as [|m]; [lia|].
  cbn [le_bytes]. rewrite pow_256_succ, Z.rem_mul_r by (try apply pow_256_pos; lia).
  assert (E1 : (v mod 256 + 256 * (v / 256 mod 256 ^ Z.of_nat m)) mod 256 = v mod 256)
    by (rewrite Z.mul_comm, Z_mod_plus_full; apply Z.mod_mod; lia).
  assert (E2 : (v mod 256 + 256 * (v / 256 mod 256 ^ Z.of_nat m)) / 256 = v / 256 mod 256 ^ Z.of_nat m)
    by (rewrite Z.mul_comm, Z.div_add by lia; rewrite Z.div_small by (apply Z.mod_pos_bound; lia); lia).
  rewrite E1, E2, IH by lia. done.
Qed.

(** The test of the loop: the top byte says nothing the next one does not. *)
Lemma sign_byte_iff s v :
  fits (S (S s)) v -> v < 0 ->
  (v / 256 ^ Z.of_nat (S s) mod 256 =? 0xff) && negb (Z.land (v / 256 ^ Z.of_nat s mod 256) 0x80 =? 0)
  = true <-> fits (S s) v.
Proof.
  intros Hf Hv. rewrite fits_succ in *. rewrite pow_256_succ in *. pose proof (pow_256_pos s) as Hp.
  set (p := 256 ^ Z.of_nat s) in *. rewrite land_0x80 by (apply Z.mod_pos_bound; lia).
  rewrite (Z.mul_comm 256 p), <- Z.div_div by lia.
  pose proof (Z.div_mod v p ltac:(lia)) as Hdm. pose proof (Z.mod_pos_bound v p Hp) as Hm.
  set (q := v / p) in *. assert (Hq : - 128 * 256 <= q < 0) by nia.
  rewrite andb_true_iff, negb_true_iff, Z.eqb_eq, Z.ltb_ge. split.
  - intros [H1 H2]. assert (-128 <= q) by zdiv_lia. nia.
  - intros Hr. assert (-128 <= q) by nia. zdiv_lia.
Qed.

Lemma sign_start_least s v :
  (s <= 7)%nat -> v < 0 -> fits (S s) v ->
  exists n, sign_start s (le_bytes 8 v) = n /\ (n <= s)%nat /\ least_size (S n) v.
Proof.
  intros Hs Hv. induction s as [|s IH]; intros Hf.
  - exists O. split; [done|]. split; [lia|]. split; [done|by left].
  - cbn [sign_start]. rewrite !nth_le_bytes by lia.
    destruct (_ && _) eqn:E.
    + apply sign_byte_iff in E; [|done|done]. destruct (IH ltac:(lia) E) as (n & En & Hn & Hl).
      exists n. split; [done|]. split; [lia|done].
    + exists (S s). split; [done|]. split; [lia|]. split; [done|]. right.
      replace (S (S s) - 1)%nat with (S s) by lia. intros Hfs.
      apply sign_byte_iff in Hfs; [|done|done]. congruence.
Qed.

Section ints.
Context `{CEnv}.

Definition finish_uint (k : nat) (m : SM CBB bool) : SM CBB unit :=
  let* started := m in if negb started then CBB_add_u8 k 0 else ret tt.

Lemma builds_started flat limit k n v :
  builds flat limit k (finish_uint k (add_uint64_bytes k n v true)) (be_bytes n v).
Proof.
  induction n as [|n IH]; [apply builds_ret|]. rewrite be_bytes_cons. unfold finish_uint in *.
  cbn [add_uint64_bytes negb andb]. rewrite shift_byte. cbv zeta.
  set (b := v / 256 ^ Z.of_nat n mod 256). change (b :: be_bytes n v) with ([b] ++ be_bytes n v).
  eapply builds_ext; [|apply builds_seq; [apply (builds_u8 _ _ _ b), Z.mod_pos_bound; lia|exact IH]].
  intros c w. unfold bind, ret. by destruct (CBB_add_u8 k b c w).
Qed.

Lemma builds_uint flat limit k n v :
  builds flat limit k (finish_uint k (add_uint64_bytes k n v false)) (uint_contents n v).
Proof.
  induction n as [|n IH]; [by apply builds_u8|].
  cbn [uint_contents]. unfold finish_uint in *.
  cbn [add_uint64_bytes negb andb]. rewrite shift_byte. cbv zeta.
  pose proof (Z.mod_pos_bound (v / 256 ^ Z.of_nat n) 256 ltac:(lia)) as Hb.
  destruct (Z.eqb_spec (v / 256 ^ Z.of_nat n mod 256) 0); [exact IH|].
  rewrite land_0x80, be_bytes_cons by done. set (b := v / 256 ^ Z.of_nat n mod 256) in *.
  assert (Hrest : builds flat limit k (CBB_add_u8 k b;; finish_uint k (add_uint64_bytes k n v true))
            (b :: be_bytes n v)).
  { change (b :: be_bytes n v) with ([b] ++ be_bytes n v).
    apply builds_seq; [by apply builds_u8|apply builds_started]. }
  destruct (Z.ltb_spec b 128); cbn [negb app].
  - eapply builds_ext; [|exact Hrest]. intros c w. unfold finish_uint, bind, ret. by destruct (CBB_add_u8 k b c w).
  - change (0 :: b :: be_bytes n v) with ([0] ++ b :: be_bytes n v).
    eapply builds_ext; [|apply builds_seq; [apply (builds_u8 _ _ _ 0); lia|exact Hrest]].
    intros c w. unfold finish_uint, bind. destruct (CBB_add_u8 k 0 c w) as [? c1 w1| | |]; [|done..].
    by destruct (CBB_add_u8 k b c1 w1).
Qed.

Lemma builds_then_flush limit k m b :
  builds false limit k m b -> builds false limit k (m;; CBB_flush k) b.
Proof. intros Hm. rewrite <- (app_nil_r b). apply builds_seq; [done|apply builds_flush]. Qed.

Lemma builds_uint64 limit k v :
  0 <= v < 2 ^ 64 ->
  builds false limit k (CBB_add_asn1_uint64 k v) (der_element CBS_ASN1_INTEGER (int_contents v)).
Proof.
  intros Hv. unfold CBB_add_asn1_uint64.
  eapply builds_ext;
    [|apply builds_then_flush, builds_element; [done| |rewrite <- (uint_contents_int 8) by done; apply builds_uint]].
  - intros c w. unfold finish_uint, bind. destruct (CBB_add_asn1 k _ c w) as [? c1 w1| | |]; [|done..].
    by destruct (add_uint64_bytes (S k) 8 v false c1 w1).
  - pose proof (int_contents_len v (fits_9 v ltac:(lia))).
    unfold CBS_len, int_contents in *. rewrite be_bytes_length in *.
    destruct (int_size_least v (fits_9 v ltac:(lia))). lia.
Qed.

Lemma builds_down flat limit k n bytes :
  is_bytes bytes -> (n <= length bytes)%nat ->
  builds flat limit k (add_bytes_down k n bytes) (rev (take n bytes)).
Proof.
  intros Hb. induction n as [|i IH]; intros Hn; [apply builds_ret|]. cbn [add_bytes_down].
  destruct (lookup_lt_is_Some_2 bytes i ltac:(lia)) as [b Eb].
  rewrite (take_S_r _ _ _ Eb), rev_app_distr. cbn [rev app].
  rewrite (nth_lookup_Some _ _ 0 _ Eb). change (b :: rev (take i bytes)) with ([b] ++ rev (take i bytes)).
  apply builds_seq; [|apply IH; lia]. apply builds_u8. by eapply Forall_lookup_1 in Hb.
Qed.

Lemma builds_int64 limit k v :
  - 2 ^ 63 <= v < 2 ^ 63 ->
  builds false limit k (CBB_add_asn1_int64 k v) (der_element CBS_ASN1_INTEGER (int_contents v)).
Proof.
  intros Hv. unfold CBB_add_asn1_int64. destruct (Z.leb_spec 0 v); [apply builds_uint64; lia|].
  cbv zeta. assert (E8 : le_bytes 8 (u64 v) = le_bytes 8 v) by (by apply (le_bytes_mod 8 8)).
  rewrite E8. destruct (sign_start_least 7 v) as (n & -> & Hn & Hl); [lia|lia|by apply fits_8|].
  assert (Ec : int_contents v = rev (take (S n) (le_bytes 8 v))).
  { rewrite (int_contents_of_size (S n)) by (done || lia). unfold be_bytes.
    by rewrite take_le_bytes, le_bytes_mod by lia. }
  rewrite Ec.
  eapply builds_ext; [|apply builds_then_flush, builds_element; [done| |]].
  - intros c w. by rewrite bind_assoc.
  - unfold CBS_len. rewrite length_rev, length_take. lia.
  - apply builds_down; [apply le_bytes_bytes|]. rewrite le_bytes_length. lia.
Qed.

End ints.

(** * Whole programs *)

Section programs.
Context `{CEnv}.

(** A program run on a fresh builder, and its output. *)
Definition build_with (init m : SM CBB unit) : SM CBB (list Z) := init;; m;; CBB_finish 0 true.

Definition build (initial_capacity : Z) (m : SM CBB unit) : SM CBB (list Z) :=
  build_with (CBB_init initial_capacity) m.

(** The state [CBB_finish] leaves: the buffer is the caller's. *)
Definition finished (c : CBB) : Prop := base_null c = true /\ buf c = [] /\ pending c = [].

Lemma build_ok limit m b c w c0 :
  shape limit [] [] [] c -> builds false limit 0 m b -> CBS_len b <= limit ->
  exists c', build_with (put c) m c0 w = Ok b c' w /\ finished c'.
Proof.
  intros Hs Hm Hl. unfold build_with. cbn [bind put].
  destruct (Hm [] [] c w eq_refl (shape_holds _ _ _ _ Hs) Hl) as (c1 & -> & Hh1).
  unfold CBB_finish. cbn [Nat.eqb negb bind app].
  destruct (flush_ok limit [] b c1 w Hh1 Hl) as (c2 & E2 & Hs2). cbn [length] in E2. rewrite E2.
  cbn [bind get andb negb]. rewrite andb_false_r.
  destruct Hs2 as (Eb & _). cbn [layout] in Eb. rewrite app_nil_r in Eb. rewrite Eb.
  cbn [bind put ret]. eexists. split; [done|]. done.
Qed.

(** A growing builder when every request is granted, and one over a fixed buffer. *)
Class AllocOk := alloc_grants : forall p n, alloc_ok p n = true.

Definition size_limit : Z := 2 ^ 62 - 1.

Lemma init_shape `{!AllocOk} cap :
  0 <= cap < 2 ^ 62 -> shape size_limit [] [] [] (cbb_init cap true).
Proof.
  intros Hc. unfold shape, room, size_limit. split_and!; try done; cbn; try lia.
  right. split; [done|]. intros. apply alloc_grants.
Qed.

Lemma build_eq `{!AllocOk} cap m c0 w :
  build cap m c0 w = build_with (put (cbb_init cap true)) m c0 w.
Proof.
  unfold build, build_with, CBB_init, granted. cbn [bind put]. rewrite !alloc_grants. cbn [negb].
  rewrite andb_false_r. cbn [bind]. rewrite !alloc_grants. done.
Qed.

Lemma build_resize `{!AllocOk} cap m b c0 w :
  0 <= cap < 2 ^ 62 -> builds false size_limit 0 m b -> CBS_len b < 2 ^ 62 ->
  exists c', build cap m c0 w = Ok b c' w /\ finished c'.
Proof.
  intros Hc Hm Hl. rewrite build_eq. eapply build_ok; [by apply init_shape|exact Hm|].
  unfold size_limit. lia.
Qed.

Lemma build_fixed `{!AllocOk} len m b c0 w :
  0 <= len < 2 ^ 62 -> builds false len 0 m b -> CBS_len b <= len ->
  exists c', build_with (CBB_init_fixed len) m c0 w = Ok b c' w /\ finished c'.
Proof.
  intros Hc Hm Hl. unfold CBB_init_fixed, build_with. cbn [bind put].
  unfold granted. rewrite alloc_grants. cbn [bind negb].
  assert (Hs : shape len [] [] [] (cbb_init len false)) by (unfold shape, room; split_and!; try done; cbn; lia).
  by apply (build_ok len m b _ w c0 Hs Hm).
Qed.

End programs.
(** An allocator that grants everything and leaves junk in its blocks. *)
Definition granting : CEnv := {| junk := fun p => p * 37 + 11; alloc_ok := fun _ _ => true |}.

Lemma granting_ok : @AllocOk granting.
Proof. by intros p n. Qed.

#[local] Existing Instances granting granting_ok.

(** * DER trees *)

(** An element with raw contents, or one that holds elements. *)
Inductive tree :=
| prim (tag : Z) (data : list Z)
| cons_of (tag : Z) (ts : list tree).

Fixpoint der_tree (t : tree) : list Z :=
  match t with
  | prim tag data => der_element tag data
  | cons_of tag ts =>
      der_element tag ((fix all ts := match ts with [] => [] | t :: ts => der_tree t ++ all ts end) ts)
  end.

Definition der_trees (ts : list tree) : list Z :=
  (fix all ts := match ts with [] => [] | t :: ts => der_tree t ++ all ts end) ts.

(** How a caller writes it: the children are never flushed by hand. *)
Fixpoint add_tree `{CEnv} (k : nat) (t : tree) : SM CBB unit :=
  match t with
  | prim tag data => CBB_add_asn1 k tag;; CBB_add_bytes (S k) data
  | cons_of tag ts =>
      CBB_add_asn1 k tag;;
      (fix all ts := match ts with [] => ret tt | t :: ts => add_tree (S k) t;; all ts end) ts
  end.

Fixpoint tags_ok (t : tree) : bool :=
  match t with
  | prim tag data => (0 <=? tag) && (tag <? 2 ^ 32)
  | cons_of tag ts => (0 <=? tag) && (tag <? 2 ^ 32) && forallb tags_ok ts
  end.

(** A SEQUENCE of an OCTET STRING that needs a two-byte length and a NULL. *)
Definition ex_tree : tree :=
  cons_of 0x20000010 [prim CBS_ASN1_OCTETSTRING (repeat 7 200); cons_of 0x3f001234 [prim 5 []]].

Fixpoint tree_rec' (P : tree -> Prop)
  (Hp : forall tag data, P (prim tag data))
  (Hc : forall tag ts, Forall P ts -> P (cons_of tag ts)) (t : tree) : P t :=
  match t with
  | prim tag data => Hp tag data
  | cons_of tag ts =>
      Hc tag ts ((fix all ts := match ts return Forall P ts with
                                | [] => Forall_nil_2 P
                                | t :: ts => Forall_cons_2 P t ts (tree_rec' P Hp Hc t) (all ts)
                                end) ts)
  end.

Lemma der_element_len tag c : CBS_len c <= CBS_len (der_element tag c).
Proof. unfold der_element. rewrite CBS_len_app. pose proof (CBS_len_nonneg (der_header tag (Z.of_nat (length c)))). lia. Qed.

Lemma builds_tree `{CEnv} limit t : forall k,
  tags_ok t = true -> CBS_len (der_tree t) < 0xffffffff ->
  builds false limit k (add_tree k t) (der_tree t).
Proof.
  induction t as [tag data|tag ts IH] using tree_rec'; intros k Ht Hl; cbn [tags_ok der_tree add_tree] in *; to_prop.
  - pose proof (der_element_len tag data). apply builds_element; [lia|lia|apply builds_bytes].
  - fold (der_trees ts) in *. pose proof (der_element_len tag (der_trees ts)) as Hle.
    apply builds_element; [lia|lia|]. assert (Hts : CBS_len (der_trees ts) < 0xffffffff) by lia.
    clear Hl Hle. induction IH as [|t ts Ht IHt IH]; [apply builds_ret|].
    cbn [der_trees forallb] in *. to_prop. fold (der_trees ts) in *. rewrite CBS_len_app in Hts.
    pose proof (CBS_len_nonneg (der_tree t)). pose proof (CBS_len_nonneg (der_trees ts)).
    apply builds_seq; [apply Ht; [done|lia]|apply IH; [done|lia]].
Qed.

(** C32: a nest of [CBB_add_asn1] and [CBB_add_bytes] calls, left to flush itself,
    produces the DER encoding of the nest: lengths that outgrow the one byte that was
    reserved for them are widened and the contents moved, at every depth. *)
Theorem build_tree `{CEnv} `{!AllocOk} cap t c0 w :
  0 <= cap < 2 ^ 62 -> tags_ok t = true -> CBS_len (der_tree t) < 0xffffffff ->
  exists c', build cap (add_tree 0 t) c0 w = Ok (der_tree t) c' w /\ finished c'.
Proof. intros Hc Ht Hl. apply build_resize; [done|by apply builds_tree|lia]. Qed.

Lemma build_tree_witness :
  exists c', build 16 (add_tree 0 ex_tree) CBB_zero (World ∅ ∅ 0)
             = Ok (der_tree ex_tree) c' (World ∅ ∅ 0) /\ finished c'.
Proof. apply (build_tree 16 ex_tree); [lia|reflexivity|reflexivity]. Defined.

(** * Round trips of values *)

Lemma int_element_len v :
  fits 9 v -> CBS_len (der_element CBS_ASN1_INTEGER (int_contents v)) <= 11.
Proof.
  intros H9. unfold der_element, der_header, CBS_len. rewrite !length_app.
  unfold int_contents. rewrite be_bytes_length. destruct (int_size_least v H9) as [_ Hs].
  change (length (der_tag CBS_ASN1_INTEGER)) with 1%nat. unfold der_length.
  destruct (Z.ltb_spec (Z.of_nat (int_size v)) 128); [cbn [length]; lia|lia].
Qed.

Lemma int_element_bytes v r : is_bytes r -> is_bytes (der_element CBS_ASN1_INTEGER (int_contents v) ++ r).
Proof.
  intros Hr. apply Forall_app. split; [|done]. apply der_element_bytes; [done|apply int_contents_bytes].
Qed.

(** An INTEGER added by [CBB_add_asn1_int64] is read back by
    [CBS_get_asn1_int64], for every signed 64-bit value. *)
Theorem asn1_int64_roundtrip `{CEnv} `{!AllocOk} v r c0 w :
  - 2 ^ 63 <= v < 2 ^ 63 -> is_bytes r -> CBS_len r < 2 ^ 62 ->
  exists l c', build 0 (CBB_add_asn1_int64 0 v) c0 w = Ok l c' w /\
               CBS_get_asn1_int64 (l ++ r) w = Ok v r w.
Proof.
  intros Hv Hr Hrl. pose proof (int_element_len v (fits_9 v ltac:(lia))) as Hl.
  destruct (build_resize 0 (CBB_add_asn1_int64 0 v) _ c0 w ltac:(lia) (builds_int64 _ 0 v Hv)) as (c' & E & _);
    [lia|].
  exists (der_element CBS_ASN1_INTEGER (int_contents v)), c'. split; [exact E|].
  apply int64_complete; [by apply int_element_bytes|rewrite CBS_len_app; lia|done|done].
Qed.

Lemma asn1_int64_roundtrip_witness :
  exists l c', build 0 (CBB_add_asn1_int64 0 (-129)) CBB_zero (World ∅ ∅ 0) = Ok l c' (World ∅ ∅ 0) /\
               CBS_get_asn1_int64 (l ++ [5]) (World ∅ ∅ 0) = Ok (-129) [5] (World ∅ ∅ 0).
Proof. apply (asn1_int64_roundtrip (-129) [5]); [lia|repeat constructor; lia|reflexivity]. Defined.

(** an unsigned INTEGER makes the same round trip. *)
Theorem asn1_uint64_roundtrip `{CEnv} `{!AllocOk} v r c0 w :
  0 <= v < 2 ^ 64 -> is_bytes r -> CBS_len r < 2 ^ 62 ->
  exists l c', build 0 (CBB_add_asn1_uint64 0 v) c0 w = Ok l c' w /\
               CBS_get_asn1_uint64 (l ++ r) w = Ok v r w.
Proof.
  intros Hv Hr Hrl. pose proof (int_element_len v (fits_9 v ltac:(lia))) as Hl.
  destruct (build_resize 0 (CBB_add_asn1_uint64 0 v) _ c0 w ltac:(lia) (builds_uint64 _ 0 v Hv)) as (c' & E & _);
    [lia|].
  exists (der_element CBS_ASN1_INTEGER (int_contents v)), c'. split; [exact E|].
  apply uint64_complete; [by apply int_element_bytes|rewrite CBS_len_app; lia|done|done].
Qed.

Lemma asn1_uint64_roundtrip_witness :
  exists l c', build 0 (CBB_add_asn1_uint64 0 0x80) CBB_zero (World ∅ ∅ 0) = Ok l c' (World ∅ ∅ 0) /\
               CBS_get_asn1_uint64 (l ++ [5]) (World ∅ ∅ 0) = Ok 0x80 [5] (World ∅ ∅ 0).
Proof. apply (asn1_uint64_roundtrip 0x80 [5]); [lia|repeat constructor; lia|reflexivity]. Defined.

(** A length-prefixed vector of the TLS kind comes back, and the builder writes
    into a fixed buffer of exactly the size it needs. *)
Theorem length_prefixed_roundtrip `{CEnv} `{!AllocOk} n data r c0 w :
  (1 <= n <= 3)%nat -> CBS_len data < 256 ^ Z.of_nat n ->
  exists l c', build_with (CBB_init_fixed (Z.of_nat n + CBS_len data))
                 (cbb_add_length_prefixed 0 (Z.of_nat n);; CBB_add_bytes 1 data) c0 w = Ok l c' w /\
               cbs_get_length_prefixed (Z.of_nat n) (l ++ r) w = Ok data r w.
Proof.
  intros Hn Hd. assert (Hp : 256 ^ Z.of_nat n <= 256 ^ 3) by (apply Z.pow_le_mono_r; lia).
  pose proof (CBS_len_nonneg data).
  assert (El : CBS_len (be_bytes n (CBS_len data)) = Z.of_nat n) by (unfold CBS_len; by rewrite be_bytes_length).
  pose proof (builds_prefixed (Z.of_nat n + CBS_len data) 0 n _ data Hn Hd (builds_bytes _ _ 1 data)) as Hm.
  destruct (build_fixed (Z.of_nat n + CBS_len data) _ _ c0 w ltac:(lia) Hm) as (c' & E & _).
  - rewrite CBS_len_app. lia.
  - eexists _, c'. split; [exact E|]. unfold cbs_get_length_prefixed. cbn [bind]. rewrite <- app_assoc.
    rewrite cbs_get_u_app by (done || lia || apply be_bytes_bytes).
    rewrite be_val_be_bytes by lia. by apply cbs_get_app.
Qed.

Lemma length_prefixed_roundtrip_witness :
  exists l c', build_with (CBB_init_fixed 5) (cbb_add_length_prefixed 0 2;; CBB_add_bytes 1 [1; 2; 3])
                 CBB_zero (World ∅ ∅ 0) = Ok l c' (World ∅ ∅ 0) /\
               cbs_get_length_prefixed 2 (l ++ [9]) (World ∅ ∅ 0) = Ok [1; 2; 3] [9] (World ∅ ∅ 0).
Proof. apply (length_prefixed_roundtrip 2 [1; 2; 3] [9]); [lia|reflexivity]. Defined.

(** * A prefix that is too small *)

Lemma write_length_over `{CEnv} P old r n v c w :
  buf c = P ++ old ++ r -> length old = n -> 256 ^ Z.of_nat n <= v ->
  exists c', write_length (Z.of_nat (length P)) (Z.of_nat n) v c w = Err c' w /\ error c' = true.
Proof.
  intros E El Hv. pose proof (pow_256_pos n). unfold write_length.
  rewrite Nat2Z.id, store_be_spec by lia. cbn [bind modify].
  assert (v / 256 ^ Z.of_nat n <> 0) by (apply div_nonzero; lia).
  destruct (Z.eqb_spec (v / 256 ^ Z.of_nat n) 0); [done|]. cbn [negb]. by eexists.
Qed.

Lemma flush_from_over `{CEnv} n c child old data w :
  child = mk_child 0 (Z.of_nat n) false -> (1 <= n <= 3)%nat -> pending c = [child] ->
  error c = false -> base_null c = false -> buf c = old ++ data -> length old = n ->
  256 ^ Z.of_nat n <= CBS_len data < 2 ^ 40 ->
  exists c', flush_from 2 0 c w = Err c' w /\ error c' = true.
Proof.
  intros Ec Hn Ep He Hb Eb El Hd. cbn [flush_from bind get]. rewrite He, Hb, Ep.
  cbn [orb Nat.ltb Nat.leb length lookup list_lookup]. rewrite Ec. cbn [pending_len_len].
  destruct (Z.eqb_spec (Z.of_nat n) 0); [lia|]. cbn [attempt flush_from bind get].
  rewrite Hb, He, Ep. cbn [orb Nat.ltb Nat.leb length lookup list_lookup ret].
  unfold flush_child. cbn [bind get offset pending_len_len pending_is_asn1].
  assert (Elen : base_len c = Z.of_nat n + CBS_len data)
    by (unfold base_len, CBS_len; rewrite Eb, length_app; lia).
  rewrite Z.add_0_l, u64_small by lia.
  destruct (Z.ltb_spec (Z.of_nat n) 0), (Z.ltb_spec (base_len c) (Z.of_nat n)); try lia. cbn [orb].
  destruct (write_length_over [] old data n (base_len c - Z.of_nat n) c w) as (c' & E & Her);
    [done|done|lia|]. change (Z.of_nat (length [])) with 0 in E. cbn [bind]. rewrite E. eauto.
Qed.

(** When a vector outgrows its length prefix, finishing the builder fails and the
    builder is marked, so that no later call succeeds: no truncated length is output. *)
Theorem length_prefixed_too_long `{CEnv} `{!AllocOk} n data c0 w :
  (1 <= n <= 3)%nat -> 256 ^ Z.of_nat n <= CBS_len data < 2 ^ 40 ->
  exists c', build 0 (cbb_add_length_prefixed 0 (Z.of_nat n);; CBB_add_bytes 1 data) c0 w = Err c' w /\
             error c' = true.
Proof.
  intros Hn Hd. rewrite build_eq. unfold build_with. cbn [bind put].
  pose proof (shape_holds _ _ _ _ (init_shape 0 ltac:(lia))) as Hh.
  destruct (prefixed_open _ [] [] n _ w Hh Hn) as (c2 & E2 & Hs2);
    [unfold CBS_len, size_limit; cbn [length]; lia|].
  cbn [length] in E2. rewrite E2. cbn [bind app] in *. set (child := mk_child _ _ _) in *.
  destruct (builds_bytes true size_limit 1 data [child] _ _ w eq_refl Hs2) as (c3 & -> & Hs3).
  { rewrite CBS_len_app. unfold CBS_len at 1, size_limit. rewrite repeat_length. lia. }
  cbn [state] in Hs3. pose proof Hs3 as (Eb & Ep & He & Hb & _). cbn [layout children] in Eb, Ep.
  rewrite !app_nil_r in *.
  unfold CBB_finish. cbn [Nat.eqb negb bind]. unfold CBB_flush. rewrite Ep. cbn [length].
  destruct (flush_from_over n c3 child (repeat 0 n) data w) as (c' & E & Her);
    [done|exact Hn|exact Ep|exact He|exact Hb|exact Eb|apply repeat_length|exact Hd|].
  cbn [length] in E. rewrite E. eauto.
Qed.

Lemma length_prefixed_too_long_witness :
  exists c', build 0 (cbb_add_length_prefixed 0 1;; CBB_add_bytes 1 (repeat 0 256)) CBB_zero (World ∅ ∅ 0)
             = Err c' (World ∅ ∅ 0) /\ error c' = true.
Proof. apply (length_prefixed_too_long 1); [lia|split; [reflexivity|reflexivity]]. Defined.
