(* ===== verification/CbbSafety.v ===== *)
(** The builder stays inside its buffer, whatever its caller does: every operation
    keeps the buffer's length below its capacity and the open children inside it,
    also when it fails, and every call returns. *)
From stdpp Require Import base list numbers option.
From Stdlib Require Import ZArith Lia.
From S2P Require Import Prelude Cmem Cbs Cbb CbbThms.

(** * The invariant *)

(** The open children follow each other inside the first [n] bytes. *)
Fixpoint nested (lo : Z) (l : list cbb_child) (n : Z) : Prop :=
  match l with
  | [] => lo <= n
  | ch :: l => lo <= offset ch /\ 1 <= pending_len_len ch <= 3 /\ nested (offset ch + pending_len_len ch) l n
  end.

Definition inv (c : CBB) : Prop :=
  base_len c <= cap c < 2 ^ 64 /\ nested 0 (pending c) (base_len c).

(** A fixed buffer keeps its size. *)
Definition same_buffer (c c' : CBB) : Prop :=
  can_resize c' = can_resize c /\ (can_resize c = false -> cap c' <= cap c).

Lemma nested_le lo l n : nested lo l n -> lo <= n.
Proof.
  revert lo. induction l as [|ch l IH]; intros lo; cbn [nested]; [done|].
  intros (? & ? & Hl). apply IH in Hl. lia.
Qed.

Lemma nested_mono lo l n m : nested lo l n -> n <= m -> nested lo l m.
Proof.
  revert lo. induction l as [|ch l IH]; intros lo; cbn [nested]; [lia|]. intros (? & ? & ?) ?. eauto.
Qed.

Lemma nested_take lo k l n : nested lo l n -> nested lo (take k l) n.
Proof.
  revert lo k. induction l as [|ch l IH]; intros lo [|k]; cbn [nested take]; try done.
  - intros (? & ? & Hl%nested_le). lia.
  - intros (? & ? & ?). eauto.
Qed.

Lemma nested_lookup lo k l n child :
  nested lo l n -> l !! k = Some child ->
  lo <= offset child /\ 1 <= pending_len_len child <= 3 /\
  offset child + pending_len_len child <= n /\ nested lo (take k l) (offset child).
Proof.
  revert lo k. induction l as [|ch l IH]; intros lo [|k]; cbn [nested take lookup list_lookup]; try done.
  - intros (? & ? & Hl%nested_le) [= ->]. done.
  - intros (? & ? & Hl) Ek. destruct (IH _ _ Hl Ek) as (? & ? & ? & ?). split_and!; try done; lia.
Qed.

Lemma nested_snoc lo l off ll n :
  nested lo l off -> 1 <= ll <= 3 -> off + ll <= n -> forall b, nested lo (l ++ [mk_child off ll b]) n.
Proof.
  revert lo. induction l as [|ch l IH]; intros lo; cbn [nested app offset pending_len_len]; [done|].
  intros (? & ? & ?) ? ? b. split_and!; try lia. eauto.
Qed.

(** * A weakest precondition: the invariant, in every outcome *)

Definition wp {A} (c : CBB) (m : SM CBB A) (Q : A -> CBB -> Prop) : Prop :=
  forall w, match m c w with
            | Ok a c' _ => inv c' /\ same_buffer c c' /\ Q a c'
            | Err c' _ => inv c' /\ same_buffer c c'
            | UB | NoFuel => False
            end.

Lemma same_refl c : same_buffer c c.
Proof. by split. Qed.

Lemma same_trans c1 c2 c3 : same_buffer c1 c2 -> same_buffer c2 c3 -> same_buffer c1 c3.
Proof. intros [E1 H1] [E2 H2]. split; [congruence|]. intros E. rewrite E in *. specialize (H1 eq_refl).
  rewrite E1 in H2. specialize (H2 eq_refl). lia. Qed.

Lemma wp_bind {A B} c (m : SM CBB A) (k : A -> SM CBB B) Q1 Q2 :
  wp c m Q1 -> (forall a c1, inv c1 -> Q1 a c1 -> wp c1 (k a) Q2) -> wp c (bind m k) Q2.
Proof.
  intros Hm Hk w. specialize (Hm w). cbn [bind]. destruct (m c w) as [a c1 w1|c1 w1| |]; try done.
  destruct Hm as (Hi & Hs & Hq). specialize (Hk a c1 Hi Hq w1).
  destruct (k a c1 w1) as [b c2 w2|c2 w2| |]; try done.
  - destruct Hk as (? & ? & ?). eauto using same_trans.
  - destruct Hk as (? & ?). eauto using same_trans.
Qed.

Lemma wp_mono {A} c (m : SM CBB A) (Q1 Q2 : A -> CBB -> Prop) :
  wp c m Q1 -> (forall a c1, Q1 a c1 -> Q2 a c1) -> wp c m Q2.
Proof. intros Hm HQ w. specialize (Hm w). destruct (m c w); naive_solver. Qed.

Lemma wp_ret {A} c (a : A) (Q : A -> CBB -> Prop) : inv c -> Q a c -> wp c (ret a) Q.
Proof. intros Hi HQ w. cbn. eauto using same_refl. Qed.

Lemma wp_fail {A} c (Q : A -> CBB -> Prop) : inv c -> wp c fail Q.
Proof. intros Hi w. cbn. eauto using same_refl. Qed.

Lemma wp_err {A} c (Q : A -> CBB -> Prop) : inv c -> wp c cbb_err Q.
Proof. intros Hi w. cbn. split; [exact Hi|by split]. Qed.

Lemma wp_get {A} c (k : CBB -> SM CBB A) Q : wp c (k c) Q -> wp c (bind get k) Q.
Proof. done. Qed.

Lemma wp_modify c f (Q : unit -> CBB -> Prop) :
  inv (f c) -> same_buffer c (f c) -> Q tt (f c) -> wp c (modify f) Q.
Proof. intros ? ? ? w. cbn. done. Qed.

(** A call that is tested: the builder is marked when it fails. *)
Lemma wp_attempt_err {A B} c (m : SM CBB A) (k : A -> SM CBB B) Q1 Q2 :
  wp c m Q1 -> (forall a c1, inv c1 -> Q1 a c1 -> wp c1 (k a) Q2) ->
  wp c (let* r := attempt m in match r with None => cbb_err | Some a => k a end) Q2.
Proof.
  intros Hm Hk w. specialize (Hm w). cbn [bind attempt]. destruct (m c w) as [a c1 w1|c1 w1| |]; try done.
  destruct Hm as (Hi & Hs & Hq). specialize (Hk a c1 Hi Hq w1).
  destruct (k a c1 w1) as [b c2 w2|c2 w2| |]; try done.
  - destruct Hk as (? & ? & ?). eauto using same_trans.
  - destruct Hk as (? & ?). eauto using same_trans.
Qed.

Lemma write_at_length off l c :
  0 <= off -> off + Z.of_nat (length l) <= base_len c -> base_len (write_at off l c) = base_len c.
Proof.
  intros Ho Hl. unfold base_len, write_at, set_buf in *. cbn [buf].
  rewrite !length_app, length_take, length_drop. lia.
Qed.

(** A store inside the valid bytes. *)
Lemma wp_write c off l (Q : unit -> CBB -> Prop) :
  inv c -> 0 <= off -> off + Z.of_nat (length l) <= base_len c -> Q tt (write_at off l c) ->
  wp c (modify (write_at off l)) Q.
Proof.
  intros [Hi Hn] Ho Hl HQ. apply wp_modify; [|by split|done]. unfold inv. rewrite write_at_length by done.
  done.
Qed.

(** * Operations *)

Section safety.
Context `{CEnv}.

(** The children are those below level [k], the size has grown to [n]. *)
Definition grown (c : CBB) (n : Z) (c' : CBB) : Prop :=
  pending c' = pending c /\ base_len c' = n /\ base_null c' = base_null c.

Lemma wp_reserve c len :
  inv c -> 0 <= len < 2 ^ 64 ->
  wp c (cbb_buffer_reserve len)
     (fun _ c' => buf c' = buf c /\ pending c' = pending c /\ base_null c' = base_null c /\
                  base_len c + len <= cap c' < 2 ^ 64).
Proof.
  intros Hi Hlen. pose proof Hi as [Hc Hn]. unfold cbb_buffer_reserve. apply wp_get.
  destruct (base_null c) eqn:Eb; [by apply wp_fail|]. cbv zeta.
  assert (Hbl : 0 <= base_len c) by (unfold base_len; lia).
  pose proof (u64_range (base_len c + len)) as Hr.
  destruct (Z.ltb_spec (u64 (base_len c + len)) (base_len c)) as [|Hno]; [by apply wp_err|].
  assert (E : u64 (base_len c + len) = base_len c + len).
  { destruct (Z_lt_dec (base_len c + len) (2 ^ 64)); [apply u64_small; lia|]. exfalso.
    unfold u64 in *. rewrite <- (Z_mod_plus_full _ (-1)) in Hno, Hr. rewrite Z.mod_small in Hno by lia. lia. }
  rewrite E in *. destruct (Z.ltb_spec (cap c) (base_len c + len)); [|by apply wp_ret; [done|split_and!; lia || done]].
  destruct (can_resize c) eqn:Er; cbn [negb]; [|by apply wp_err].
  match goal with |- context [set_cap ?n] => set (newcap := n) end.
  assert (Hcap : base_len c + len <= newcap < 2 ^ 64).
  { unfold newcap. pose proof (u64_range (cap c * 2)). destruct (_ || _) eqn:Eo; to_prop; lia. }
  destruct (alloc_ok _ _); cbn [negb]; [|by apply wp_err].
  apply wp_modify; [|split; [done|congruence]|done].
  split; [|exact Hn]. change (base_len (set_cap newcap c)) with (base_len c). cbn [cap set_cap]. lia.
Qed.

Lemma wp_add c len :
  inv c -> 0 <= len < 2 ^ 64 ->
  wp c (cbb_buffer_add len) (fun off c' => off = base_len c /\ grown c (base_len c + len) c').
Proof.
  intros Hi Hlen. unfold cbb_buffer_add. eapply wp_bind; [by apply wp_reserve|].
  intros [] c1 [Hc1 Hn1] (Eb & Ep & Enull & Hcap). apply wp_get.
  set (c2 := set_buf _ _).
  assert (El : base_len c2 = base_len c + len).
  { unfold base_len, c2, set_buf. cbn [buf]. rewrite length_app, fresh_bytes_length, Eb. lia. }
  assert (El1 : base_len c1 = base_len c) by (unfold base_len; by rewrite Eb).
  intros w. cbn [bind put ret]. split; [|split; [by split|done]].
  split; [rewrite El; done|]. rewrite El. cbn [pending c2 set_buf].
  eapply nested_mono; [exact Hn1|]. lia.
Qed.

(** Bytes added at the end. *)
Lemma wp_append c l (Q : unit -> CBB -> Prop) :
  inv c -> Z.of_nat (length l) < 2 ^ 64 ->
  (forall c', grown c (base_len c + Z.of_nat (length l)) c' -> Q tt c') ->
  wp c (let* off := cbb_buffer_add (Z.of_nat (length l)) in modify (write_at off l)) Q.
Proof.
  intros Hi Hl HQ. eapply wp_bind; [apply wp_add; [done|lia]|].
  intros off c1 Hi1 (-> & Ep & El & En). apply wp_write; [done|unfold base_len; lia|lia|].
  apply HQ. split_and!; [done| |done]. rewrite write_at_length; [done|unfold base_len; lia|lia].
Qed.

Lemma store_be_length n v : length (fst (store_be n v)) = n.
Proof.
  revert v. induction n as [|n IH]; intros v; [done|]. cbn [store_be].
  specialize (IH (Z.shiftr v 8)). destruct (store_be n (Z.shiftr v 8)) as [l v']. cbn [fst] in *.
  rewrite length_app. cbn [length]. lia.
Qed.

(** What may still be an error, after stores. *)
Lemma wp_err_if (b : bool) c (Q : unit -> CBB -> Prop) :
  inv c -> Q tt c -> wp c (if b then cbb_err else ret tt) Q.
Proof. intros Hi HQ. destruct b; [by apply wp_err|by apply wp_ret]. Qed.

Lemma wp_add_u c v n (Q : unit -> CBB -> Prop) :
  inv c -> 0 <= n <= 8 -> (forall c', grown c (base_len c + n) c' -> Q tt c') ->
  wp c (cbb_buffer_add_u v n) Q.
Proof.
  intros Hi Hn HQ. unfold cbb_buffer_add_u. destruct (Z.eqb_spec n 0) as [->|Hn0].
  - apply wp_ret; [done|]. apply HQ. split_and!; [done|lia|done].
  - eapply wp_bind; [apply wp_add; [done|lia]|]. intros off c1 Hi1 (-> & Ep & El & En).
    pose proof (store_be_length (Z.to_nat n) v) as Hsl.
    destruct (store_be (Z.to_nat n) v) as [l v']. cbn [fst] in Hsl.
    assert (Hb : 0 <= base_len c) by (unfold base_len; lia).
    eapply (wp_bind _ _ _ (fun _ c' => grown c (base_len c + n) c')).
    + apply wp_write; [done|done|lia|]. split_and!; [done| |done].
      rewrite write_at_length; [done|done|lia].
    + intros [] c2 Hi2 Hg. apply wp_err_if; [done|by apply HQ].
Qed.

Lemma wp_write_length c off n len (Q : unit -> CBB -> Prop) :
  inv c -> 0 <= off -> 0 <= n -> off + n <= base_len c ->
  (forall c', grown c (base_len c) c' -> Q tt c') -> wp c (write_length off n len) Q.
Proof.
  intros Hi Ho Hn Hl HQ. unfold write_length. pose proof (store_be_length (Z.to_nat n) len) as Hsl.
  destruct (store_be (Z.to_nat n) len) as [l rest]. cbn [fst] in Hsl.
  eapply (wp_bind _ _ _ (fun _ c' => grown c (base_len c) c')).
  - apply wp_write; [done|done|lia|]. split_and!; [done| |done]. rewrite write_at_length; [done|done|lia].
  - intros [] c2 Hi2 Hg. apply wp_err_if; [done|by apply HQ].
Qed.

(** Closing a level drops it from the children. *)
Definition closed (k : nat) (c c' : CBB) : Prop :=
  pending c' = take k (pending c) /\ base_null c' = base_null c.

Lemma wp_close k c (Q : unit -> CBB -> Prop) :
  inv c -> (forall c', closed k c c' -> Q tt c') -> wp c (modify (fun c => set_pending (take k (pending c)) c)) Q.
Proof.
  intros [Hc Hn] HQ. apply wp_modify; [|by split|by apply HQ].
  split; [done|]. by apply nested_take.
Qed.

Lemma length_form_cases len ll ib rest :
  asn1_length_form len = Some (ll, ib, rest) -> 1 <= ll <= 5.
Proof. unfold asn1_length_form. repeat case_match; naive_solver lia. Qed.

Lemma wp_widen c child_start extra len :
  inv c -> 0 <= child_start -> 0 < extra <= 4 -> 0 <= len -> child_start + len = base_len c ->
  wp c (let* r := attempt (cbb_buffer_add extra) in
        match r with
        | None => cbb_err
        | Some _ => modify (fun c => write_at (child_start + extra)
                      (take (Z.to_nat len) (drop (Z.to_nat child_start) (buf c))) c)
        end) (fun _ c' => grown c (base_len c + extra) c').
Proof.
  intros Hi Hs He Hl Hb.
  eapply (wp_attempt_err _ _ (fun _ => modify _)); [apply wp_add; [done|lia]|].
  intros off c1 Hi1 (-> & Ep & El & En).
  set (l := take (Z.to_nat len) (drop (Z.to_nat child_start) (buf c1))).
  assert (Hll : Z.of_nat (length l) <= len) by (unfold l; rewrite length_take; lia).
  assert (Hw : base_len (write_at (child_start + extra) l c1) = base_len c1) by (apply write_at_length; lia).
  apply wp_modify; [|by split|].
  - cbv beta. fold l. destruct Hi1 as [Hc1 Hn1]. unfold inv. rewrite Hw. done.
  - cbv beta. fold l. split_and!; [done|lia|done].
Qed.

Lemma wp_flush_child k child c (Q : unit -> CBB -> Prop) :
  inv c -> pending c !! k = Some child -> (forall c', closed k c c' -> Q tt c') ->
  wp c (flush_child k child) Q.
Proof.
  intros Hi Ek HQ. pose proof Hi as [Hc Hn].
  destruct (nested_lookup _ _ _ _ _ Hn Ek) as (Ho & Hll & Hin & _).
  unfold flush_child. apply wp_get. cbv zeta. rewrite u64_small by lia.
  destruct ((_ <? _) || _) eqn:Eb; [by apply wp_err|]. to_prop.
  eapply (wp_bind _ _ _ (fun _ c' => pending c' = pending c /\ base_null c' = base_null c)).
  - destruct (pending_is_asn1 child).
    + destruct (asn1_length_form _) as [[[ll ib] rest]|] eqn:Ef; [|by apply wp_err].
      apply length_form_cases in Ef.
      eapply (wp_bind _ _ _ (fun _ c' => grown c (base_len c + (ll - 1)) c')).
      * destruct (Z.eqb_spec ll 1) as [-> |]; cbn [negb].
        -- apply wp_ret; [done|]. split_and!; [done|lia|done].
        -- eapply wp_mono; [apply wp_widen; [done|lia|lia|lia|lia]|done].
      * intros [] c1 Hi1 (Ep & El & En).
        eapply (wp_bind _ _ _ (fun _ c' => grown c (base_len c + (ll - 1)) c')).
        -- apply wp_write; [done|lia|cbn [length]; lia|]. split_and!; [done| |done].
           rewrite write_at_length; [done|lia|cbn [length]; lia].
        -- intros [] c2 Hi2 (Ep2 & El2 & En2). apply wp_write_length; [done|lia|lia|lia|].
           intros c3 (Ep3 & El3 & En3). split; congruence.
    + apply wp_write_length; [done|lia|lia|lia|]. intros c1 (Ep & El & En). done.
  - intros [] c1 Hi1 (Ep & En). apply wp_close; [done|]. intros c2 (Ep2 & En2). apply HQ.
    split; congruence.
Qed.

Lemma wp_flush_from fuel : forall k c,
  inv c -> (1 <= fuel)%nat -> (length (pending c) < fuel + k)%nat ->
  wp c (flush_from fuel k) (fun _ c' => closed k c c' /\ (k <= length (pending c'))%nat).
Proof.
  induction fuel as [|fuel IH]; intros k c Hi Hf1 Hf; [lia|]. cbn [flush_from]. apply wp_get.
  destruct (_ || _) eqn:Eb; [by apply wp_fail|]. to_prop.
  match goal with E : (_ <? _)%nat = false |- _ => apply Nat.ltb_ge in E end.
  destruct (pending c !! k) as [child|] eqn:Ek.
  - pose proof Hi as [Hc Hn]. destruct (nested_lookup _ _ _ _ _ Hn Ek) as (_ & Hll & _).
    destruct (Z.eqb_spec (pending_len_len child) 0); [lia|].
    pose proof (lookup_lt_Some _ _ _ Ek).
    eapply (wp_attempt_err _ _ (fun _ => flush_child k child)); [apply IH; [done|lia|lia]|].
    intros [] c1 Hi1 ([Ep1 En1] & Hk1). apply wp_flush_child; [done| |].
    + rewrite Ep1, lookup_take_lt by lia. done.
    + intros c2 [Ep2 En2]. rewrite Ep1, take_take in Ep2. replace (k `min` S k)%nat with k in Ep2 by lia.
      split; [split; congruence|]. rewrite Ep2, length_take. lia.
  - apply lookup_ge_None_1 in Ek. apply wp_ret; [done|]. split; [|lia]. split; [|done].
    by rewrite take_ge by lia.
Qed.

Lemma wp_flush c k :
  inv c -> wp c (CBB_flush k) (fun _ c' => closed k c c' /\ (k <= length (pending c'))%nat).
Proof. intros Hi w. unfold CBB_flush. apply wp_flush_from; [done|lia|lia]. Qed.

(** After a flush of level [k], an operation sees exactly [k] children. *)
Lemma wp_after_flush {A} c k (m : SM CBB A) Q :
  inv c -> (forall c1, inv c1 -> length (pending c1) = k -> wp c1 m Q) ->
  wp c (CBB_flush k;; m) Q.
Proof.
  intros Hi Hm. eapply wp_bind; [by apply wp_flush|]. intros [] c1 Hi1 ([Ep _] & Hk). apply Hm; [done|].
  rewrite Ep in *. rewrite length_take in *. lia.
Qed.

(** A level opened over the last bytes. *)
Lemma wp_open_child c k off n is_asn1 (Q : unit -> CBB -> Prop) :
  inv c -> 1 <= n <= 3 -> nested 0 (take k (pending c)) off -> off + n <= base_len c ->
  (forall c', Q tt c') -> wp c (open_child k off n is_asn1) Q.
Proof.
  intros [Hc Hn] Hnn Ho Hl HQ. apply wp_modify; [|by split|done].
  split; [done|]. by apply nested_snoc.
Qed.

(** The caller's handle is the innermost level. *)
Definition at_level (k : nat) (_ : unit) (c : CBB) : Prop := length (pending c) = k.

Definition any {A} (_ : A) (_ : CBB) : Prop := True.

Lemma wp_add_u_level c k v n : inv c -> 0 <= n <= 8 -> wp c (cbb_add_u k v n) (at_level k).
Proof.
  intros Hi Hn. apply wp_after_flush; [done|]. intros c1 Hi1 Hk. apply wp_add_u; [done|done|].
  intros c2 (Ep & _). unfold at_level. by rewrite Ep.
Qed.

Lemma wp_add_u8 c k v : inv c -> wp c (CBB_add_u8 k v) (at_level k).
Proof. intros Hi. by apply wp_add_u_level. Qed.

Lemma wp_any {A} c (m : SM CBB A) Q : wp c m Q -> wp c m any.
Proof. intros Hm. by eapply wp_mono. Qed.

Lemma wp_base128 c k n v :
  inv c -> length (pending c) = k -> wp c (add_base128_bytes k n v) (at_level k).
Proof.
  revert c. induction n as [|n IH]; intros c Hi Hk; cbn [add_base128_bytes]; [by apply wp_ret|].
  cbv zeta. eapply wp_bind; [by apply wp_add_u8|]. intros [] c1 Hi1 Hk1. by apply IH.
Qed.

Lemma wp_prefixed c k n : inv c -> 1 <= n <= 3 -> wp c (cbb_add_length_prefixed k n) any.
Proof.
  intros Hi Hn. apply wp_after_flush; [done|]. intros c1 Hi1 Hk.
  assert (0 <= base_len c1) by (unfold base_len; lia).
  eapply wp_bind; [apply wp_add; [done|lia]|]. intros off c2 Hi2 (-> & Ep & El & En).
  eapply (wp_bind _ _ _ (fun _ c' => grown c1 (base_len c1 + n) c')).
  - apply wp_write; [done|done|rewrite repeat_length; lia|]. split_and!; [done| |done].
    rewrite write_at_length; [done|done|rewrite repeat_length; lia].
  - intros [] c3 Hi3 (Ep3 & El3 & En3). apply wp_open_child; [done|done| |lia|done].
    rewrite Ep3. apply nested_take. by destruct Hi1.
Qed.

(** Without open children a flush does nothing. *)
Lemma flush_level_same k c w :
  length (pending c) = k -> CBB_flush k c w = Ok tt c w \/ CBB_flush k c w = Err c w.
Proof.
  intros Hk. unfold CBB_flush. cbn [flush_from bind get]. destruct (_ || _); [by right|].
  rewrite lookup_ge_None_2 by lia. by left.
Qed.

Lemma wp_add_u8_exact c k v :
  inv c -> length (pending c) = k -> wp c (CBB_add_u8 k v) (fun _ c' => grown c (base_len c + 1) c').
Proof.
  intros Hi Hk w. unfold CBB_add_u8, cbb_add_u. cbn [bind].
  destruct (flush_level_same k c w Hk) as [-> | ->]; [|split; [done|apply same_refl]].
  by apply (wp_add_u c (u8 v) 1); [done|lia|].
Qed.

Lemma wp_asn1 c k tag : inv c -> wp c (CBB_add_asn1 k tag) (at_level (S k)).
Proof.
  intros Hi. apply wp_after_flush; [done|]. intros c1 Hi1 Hk. cbv zeta.
  eapply (wp_bind _ _ _ (at_level k)).
  - destruct (_ <=? _).
    + eapply wp_bind; [by apply wp_add_u8|]. intros [] c2 Hi2 Hk2. unfold add_base128_integer. cbv zeta.
      by apply wp_base128.
    + by apply wp_add_u8.
  - intros [] c2 Hi2 Hk2. apply wp_get. eapply wp_bind; [by apply wp_add_u8_exact|].
    intros [] c3 Hi3 (Ep & El & En). unfold at_level in Hk2.
    pose proof Hi2 as [_ Hn2]. pose proof Hi3 as [Hc3 _].
    apply wp_modify; [|by split|].
    + split; [exact Hc3|]. cbn [pending set_pending]. apply (nested_snoc _ _ (base_len c2)); [|lia|].
      * rewrite Ep. by apply nested_take.
      * change (base_len (set_pending _ c3)) with (base_len c3). lia.
    + unfold at_level. cbn. rewrite length_app, length_take, Ep. cbn [length]. lia.
Qed.

Lemma wp_uint64_bytes c k n v started : inv c -> wp c (add_uint64_bytes k n v started) any.
Proof.
  revert c started. induction n as [|n IH]; intros c started Hi; cbn [add_uint64_bytes]; [by apply wp_ret|].
  cbv zeta. destruct (_ && _); [by apply IH|].
  eapply (wp_bind _ _ _ any).
  - destruct (_ && _); [by eapply wp_any, wp_add_u8|by apply wp_ret].
  - intros [] c1 Hi1 _. eapply wp_bind; [by apply wp_add_u8|]. intros [] c2 Hi2 _. by apply IH.
Qed.

Lemma wp_uint64 c k v : inv c -> wp c (CBB_add_asn1_uint64 k v) any.
Proof.
  intros Hi. eapply wp_bind; [by apply wp_asn1|]. intros [] c1 Hi1 _.
  eapply wp_bind; [by apply wp_uint64_bytes|]. intros started c2 Hi2 _.
  eapply (wp_bind _ _ _ any).
  - destruct started; cbn [negb]; [by apply wp_ret|by eapply wp_any, wp_add_u8].
  - intros [] c3 Hi3 _. by eapply wp_any, wp_flush.
Qed.

Lemma wp_bytes_down c k n bytes : inv c -> wp c (add_bytes_down k n bytes) any.
Proof.
  revert c. induction n as [|n IH]; intros c Hi; cbn [add_bytes_down]; [by apply wp_ret|].
  eapply wp_bind; [by apply wp_add_u8|]. intros [] c1 Hi1 _. by apply IH.
Qed.

Lemma wp_int64 c k v : inv c -> wp c (CBB_add_asn1_int64 k v) any.
Proof.
  intros Hi. unfold CBB_add_asn1_int64. destruct (0 <=? v); [by apply wp_uint64|]. cbv zeta.
  eapply wp_bind; [by apply wp_asn1|]. intros [] c1 Hi1 _.
  eapply wp_bind; [by apply wp_bytes_down|]. intros [] c2 Hi2 _. by eapply wp_any, wp_flush.
Qed.

Lemma wp_bytes c k data : inv c -> CBS_len data < 2 ^ 64 -> wp c (CBB_add_bytes k data) any.
Proof. intros Hi Hl. apply wp_after_flush; [done|]. intros c1 Hi1 _. by apply wp_append. Qed.

Lemma wp_space c k n : inv c -> 0 <= n < 2 ^ 64 -> wp c (CBB_add_space k n)
  (fun off c' => 0 <= off /\ off + n <= base_len c').
Proof.
  intros Hi Hn. apply wp_after_flush; [done|]. intros c1 Hi1 _.
  eapply wp_mono; [by apply wp_add|]. intros off c2 (-> & _ & El & _). unfold base_len in *. lia.
Qed.

Lemma wp_zeros c k n : inv c -> 0 <= n < 2 ^ 64 -> wp c (CBB_add_zeros k n) any.
Proof.
  intros Hi Hn. eapply wp_bind; [by apply wp_space|]. intros off c1 Hi1 [Ho Hl].
  apply wp_write; [done|done|rewrite repeat_length; lia|done].
Qed.

Lemma wp_reserve_level c k n : inv c -> 0 <= n < 2 ^ 64 -> wp c (CBB_reserve k n) any.
Proof. intros Hi Hn. apply wp_after_flush; [done|]. intros c1 Hi1 _. by eapply wp_any, wp_reserve. Qed.

Lemma wp_did_write c k l : inv c -> CBS_len l < 2 ^ 64 -> handle_open k c = true -> wp c (CBB_did_write k l) any.
Proof.
  intros Hi Hl Hh. unfold CBB_did_write. apply wp_get. rewrite Hh. cbn [negb]. cbv zeta. destruct (_ || _) eqn:Eb; [by apply wp_fail|].
  to_prop. pose proof Hi as [Hc Hn]. unfold CBS_len in *.
  assert (Hb : 0 <= base_len c) by (unfold base_len; lia).
  match goal with E : base_len c <= u64 ?x |- _ => assert (Eu : u64 x = x) end.
  { destruct (Z_lt_dec (base_len c + Z.of_nat (length l)) (2 ^ 64)); [apply u64_small; lia|].
    exfalso. unfold u64 in *. rewrite <- (Z_mod_plus_full _ (-1)) in *. rewrite Z.mod_small in * by lia. lia. }
  assert (El : base_len (set_buf (buf c ++ l) c) = base_len c + Z.of_nat (length l))
    by (unfold base_len, set_buf; cbn [buf]; rewrite length_app; lia).
  intros w. cbn [put]. split; [|split; [by split|done]]. split; [rewrite El; cbn [cap set_buf]; lia|].
  rewrite El. eapply nested_mono; [exact Hn|lia].
Qed.

Lemma wp_discard c k : inv c -> (length (pending c) <= S k)%nat -> wp c (CBB_discard_child k) any.
Proof.
  intros Hi Hk. pose proof Hi as [Hc Hn]. unfold CBB_discard_child. apply wp_get.
  destruct (pending c !! k) as [child|] eqn:Ek; [|by apply wp_ret].
  rewrite (proj2 (Nat.ltb_ge _ _) Hk). destruct (nested_lookup _ _ _ _ _ Hn Ek) as (Ho & Hll & Hin & Hnn).
  set (c' := set_pending _ _).
  assert (El : base_len c' = offset child)
    by (unfold c', base_len, set_pending, set_buf in *; cbn [buf]; rewrite length_take; lia).
  intros w. cbn [put]. split; [|split; [by split|done]].
  split; [rewrite El; cbn [cap c' set_pending set_buf]; lia|]. rewrite El. exact Hnn.
Qed.

End safety.

(** * Sequences of calls *)

(** A call on the handle of a level; the sizes are any [size_t]. *)
Inductive cbb_op :=
| op_u (k : nat) (v n : Z)
| op_bytes (k : nat) (data : list Z)
| op_zeros (k : nat) (n : Z)
| op_space (k : nat) (n : Z)
| op_reserve (k : nat) (n : Z)
| op_did_write (k : nat) (written : list Z)
| op_prefixed (k : nat) (n : Z)
| op_asn1 (k : nat) (tag : Z)
| op_uint64 (k : nat) (v : Z)
| op_int64 (k : nat) (v : Z)
| op_flush (k : nat)
| op_discard (k : nat).

Definition op_ok (op : cbb_op) : bool :=
  match op with
  | op_u _ _ n => (1 <=? n) && (n <=? 8)
  | op_bytes _ l | op_did_write _ l => CBS_len l <? 2 ^ 64
  | op_zeros _ n | op_space _ n | op_reserve _ n => (0 <=? n) && (n <? 2 ^ 64)
  | op_prefixed _ n => (1 <=? n) && (n <=? 3)
  | _ => true
  end.

(** The handles that a call may be made on: any, open or not, except that [CBB_did_write]
    wants an open one, and that a child to be discarded has no open child itself. *)
Definition op_allowed (op : cbb_op) (c : CBB) : bool :=
  match op with
  | op_did_write k _ => handle_open k c
  | op_discard k => (length (pending c) <=? S k)%nat
  | _ => true
  end.

Section runs.
Context `{CEnv}.

Definition run_op (op : cbb_op) : SM CBB unit :=
  match op with
  | op_u k v n => cbb_add_u k v n
  | op_bytes k l => CBB_add_bytes k l
  | op_zeros k n => CBB_add_zeros k n
  | op_space k n => CBB_add_space k n;; ret tt
  | op_reserve k n => CBB_reserve k n
  | op_did_write k l => CBB_did_write k l
  | op_prefixed k n => cbb_add_length_prefixed k n
  | op_asn1 k tag => CBB_add_asn1 k tag
  | op_uint64 k v => CBB_add_asn1_uint64 k v
  | op_int64 k v => CBB_add_asn1_int64 k v
  | op_flush k => CBB_flush k
  | op_discard k => CBB_discard_child k
  end.

(** A caller that ignores the results of its calls; it leaves out those that are not
    allowed. *)
Fixpoint run_ops (ops : list cbb_op) : SM CBB unit :=
  match ops with
  | [] => ret tt
  | op :: ops =>
      let* c := get in
      (if op_allowed op c then attempt (run_op op) else ret None);;
      run_ops ops
  end.

Lemma wp_op c op : inv c -> op_ok op = true -> op_allowed op c = true -> wp c (run_op op) any.
Proof.
  intros Hi Ho Hal. destruct op; cbn [run_op op_ok op_allowed] in *; to_prop.
  - eapply wp_any, wp_add_u_level; [done|lia].
  - by apply wp_bytes.
  - by apply wp_zeros.
  - eapply wp_bind; [by apply wp_space|]. intros. by apply wp_ret.
  - by apply wp_reserve_level.
  - by apply wp_did_write.
  - by apply wp_prefixed.
  - by eapply wp_any, wp_asn1.
  - by apply wp_uint64.
  - by apply wp_int64.
  - by eapply wp_any, wp_flush.
  - apply wp_discard; [done|by apply Nat.leb_le].
Qed.

Lemma run_ops_inv ops : forall c w, inv c -> forallb op_ok ops = true ->
  exists c' w', run_ops ops c w = Ok tt c' w' /\ inv c' /\ same_buffer c c'.
Proof.
  induction ops as [|op ops IH]; intros c w Hi Ho; cbn [run_ops forallb] in *; to_prop.
  - exists c, w. split; [done|]. split; [done|apply same_refl].
  - cbn [bind get]. destruct (op_allowed op c) eqn:Hal; [|by apply IH].
    pose proof (wp_op c op Hi ltac:(done) Hal w) as Hop. cbn [bind attempt].
    assert (Hs : exists r c1 w1, attempt (run_op op) c w = Ok r c1 w1 /\ inv c1 /\ same_buffer c c1)
      by (cbn [attempt]; destruct (run_op op c w); naive_solver).
    destruct Hs as (r & c1 & w1 & Er & Hi1 & Hs1). cbn [attempt] in Er. rewrite Er.
    destruct (IH c1 w1 Hi1 ltac:(done)) as (c' & w' & E & Hi' & Hs'). exists c', w'.
    eauto using same_trans.
Qed.

(** C38: over a fixed buffer of [len] bytes, no sequence of builder calls, whatever
    their order, their levels and their failures, makes the builder use more than
    [len] bytes or lets an open child lie outside them, and every call returns.  A call of
    [CBB_did_write] on a handle that is not open, which dereferences NULL, and one of
    [CBB_discard_child] for a child that has an open child itself are left out. *)
Theorem cbb_fixed_stays_inside len ops c0 w :
  0 <= len < 2 ^ 64 -> forallb op_ok ops = true -> alloc_ok (brk w) sizeof_base = true ->
  exists c' w', (CBB_init_fixed len;; run_ops ops) c0 w = Ok tt c' w' /\
                base_len c' <= len /\ nested 0 (pending c') (base_len c').
Proof.
  intros Hl Ho Ha. unfold CBB_init_fixed. cbn [bind put]. unfold granted. rewrite Ha. cbn [negb bind put].
  assert (Hi : inv (cbb_init len false)) by (split; [exact Hl|]; done).
  destruct (run_ops_inv ops _ w Hi Ho) as (c' & w' & E & [Hc Hn] & [_ Hs]).
  exists c', w'. split; [exact E|]. split; [|done]. specialize (Hs eq_refl). cbn in Hs. lia.
Qed.

End runs.

Lemma cbb_fixed_stays_inside_witness :
  let H := {| junk := fun _ => 0; alloc_ok := fun _ _ => true |} in
  exists c' w', (CBB_init_fixed 4;; run_ops [op_u 0 7 1; op_prefixed 0 1; op_reserve 1 2; op_did_write 1 [8; 9]; op_did_write 5 [1]; op_bytes 1 (repeat 1 200);
                                         op_u 7 1 3; op_discard 0; op_flush 0])
                  CBB_zero (World ∅ ∅ 0) = Ok tt c' w' /\
                base_len c' <= 4 /\ nested 0 (pending c') (base_len c').
Proof.
  intros H. apply (cbb_fixed_stays_inside 4); [lia|reflexivity|reflexivity].
Defined.
