(* ===== verification/Base64Thms.v ===== *)
(** Base64: the branch-free character maps against the alphabet, decoding as the
    inverse of encoding, and the streaming interfaces against the one-shot ones. *)
From stdpp Require Import base list numbers option.
From Stdlib Require Import ZArith Lia.
From S2P Require Import Prelude ConstTime Base64.

(** * The alphabet *)

Definition range (a b : Z) : list Z := seqZ a (b - a + 1).

(** Table 1 of RFC 4648. *)
Definition alphabet : list Z :=
  range ch_A ch_Z ++ range ch_a ch_z ++ range ch_0 ch_9 ++ [ch_plus; ch_slash].

(** The position of a character. *)
Fixpoint index_of (c : Z) (l : list Z) : option Z :=
  match l with
  | [] => None
  | b :: l => if b =? c then Some 0
              else match index_of c l with Some i => Some (i + 1) | None => None end
  end.

Lemma ascii_to_bin_check :
  forallb (fun c => base64_ascii_to_bin c =?
             match index_of c alphabet with Some i => i | None => if c =? ch_equals then 0 else 0xff end)
    all_bytes = true.
Proof. vm_compute. reflexivity. Qed.

Lemma bin_to_ascii_check :
  forallb (fun a => conv_bin2ascii a =? nth (Z.to_nat (a mod 64)) alphabet 0) all_bytes = true.
Proof. vm_compute. reflexivity. Qed.

(** The bits of a group beyond the low six are dropped first. *)
Lemma conv_mod x : conv_bin2ascii x = conv_bin2ascii (x mod 64).
Proof.
  unfold conv_bin2ascii. rewrite <- !(Z.land_ones _ 6 ltac:(lia) : _ = _ mod 64).
  assert (E : Z.land (u8 x) 0x3f = Z.land (u8 (Z.land x (Z.ones 6))) 0x3f).
  { change 0x3f with (Z.ones 6). rewrite !Z.land_ones by lia. unfold u8. change (2 ^ 6) with 64. zdiv_lia. }
  by rewrite E.
Qed.

(** the branch-free decoding of a character is its position in the base64
    alphabet, with '=' as 0 and 0xff for every other byte. *)
Theorem base64_ascii_to_bin_spec c :
  is_byte c ->
  base64_ascii_to_bin c =
  match index_of c alphabet with Some i => i | None => if c =? ch_equals then 0 else 0xff end.
Proof. intros Hc. apply Z.eqb_eq. revert c Hc. apply forall_bytes. exact ascii_to_bin_check. Qed.

Lemma base64_ascii_to_bin_spec_witness : base64_ascii_to_bin 43 = 62.
Proof. apply (base64_ascii_to_bin_spec 43). lia. Defined.

(** * Sextets *)

Definition sextet_ok (x : Z) : bool :=
  implb (x <? 64) ((base64_ascii_to_bin (conv_bin2ascii x) =? x) &&
                   negb (conv_bin2ascii x =? ch_equals) && negb (is_space (conv_bin2ascii x))).

Lemma sextet_check : forallb sextet_ok all_bytes = true.
Proof. vm_compute. reflexivity. Qed.

Lemma sextet_small x :
  0 <= x < 64 ->
  base64_ascii_to_bin (conv_bin2ascii x) = x /\
  (conv_bin2ascii x =? ch_equals) = false /\ is_space (conv_bin2ascii x) = false.
Proof.
  intros Hx. assert (H : sextet_ok x = true) by (apply (forall_bytes sextet_ok); [exact sextet_check|lia]).
  unfold sextet_ok in H. generalize dependent (conv_bin2ascii x). intros c H.
  generalize dependent (base64_ascii_to_bin c). intros i H.
  generalize dependent (is_space c). intros sp H.
  rewrite (proj2 (Z.ltb_lt _ _)) in H by lia. cbn [implb] in H. to_prop.
  split; [done|]. split; [by apply Z.eqb_neq|done].
Qed.

Lemma sextet x :
  base64_ascii_to_bin (conv_bin2ascii x) = x mod 64 /\
  (conv_bin2ascii x =? ch_equals) = false /\ is_space (conv_bin2ascii x) = false.
Proof. rewrite conv_mod. apply sextet_small, Z.mod_pos_bound. lia. Qed.

(** A quad of sextets, and the shorter ones with padding. *)
Lemma v_of_sextets a b c d :
  0 <= a < 64 -> 0 <= b < 64 -> 0 <= c < 64 -> 0 <= d < 64 ->
  Z.lor (Z.lor (Z.lor (Z.shiftl a 18) (Z.shiftl b 12)) (Z.shiftl c 6)) d
  = a * 2 ^ 18 + b * 2 ^ 12 + c * 2 ^ 6 + d.
Proof.
  intros Ha Hb Hc Hd. rewrite !(Z.lor_comm _ d), !(Z.lor_comm _ (Z.shiftl c 6)), !(Z.lor_comm _ (Z.shiftl b 12)).
  rewrite Z.lor_assoc, Z.lor_assoc.
  rewrite (lor_shiftl_add d c 6) by lia.
  rewrite (lor_shiftl_add _ b 12) by lia. rewrite (lor_shiftl_add _ a 18) by lia. lia.
Qed.

Lemma group_word s0 s1 s2 :
  is_byte s0 -> is_byte s1 -> is_byte s2 ->
  Z.lor (Z.lor (Z.shiftl s0 16) (Z.shiftl s1 8)) s2 = s0 * 2 ^ 16 + s1 * 2 ^ 8 + s2.
Proof.
  intros H0 H1 H2. rewrite Z.lor_comm, (Z.lor_comm (Z.shiftl s0 16)), Z.lor_assoc.
  rewrite (lor_shiftl_add s2 s1 8) by lia. rewrite (lor_shiftl_add _ s0 16) by lia. lia.
Qed.

Lemma equals_bin : base64_ascii_to_bin ch_equals = 0.
Proof. reflexivity. Qed.

Ltac decode_sextets :=
  unfold base64_decode_quad; rewrite ?equals_bin;
  repeat match goal with
  | |- context [base64_ascii_to_bin (conv_bin2ascii ?x)] =>
      rewrite (proj1 (sextet x)); rewrite ?(proj1 (proj2 (sextet x)));
      pose proof (Z.mod_pos_bound x 64 ltac:(lia));
      rewrite (proj2 (Z.eqb_neq (x mod 64) 0xff)) by lia
  end; cbn [orb b2z Z.eqb]; cbv zeta; rewrite v_of_sextets by lia.

Lemma quad_full s0 s1 s2 :
  is_byte s0 -> is_byte s1 -> is_byte s2 ->
  let l := s0 * 2 ^ 16 + s1 * 2 ^ 8 + s2 in
  base64_decode_quad (conv_bin2ascii (Z.shiftr l 18)) (conv_bin2ascii (Z.shiftr l 12))
    (conv_bin2ascii (Z.shiftr l 6)) (conv_bin2ascii l) = Some [s0; s1; s2].
Proof.
  intros H0 H1 H2 l. decode_sextets.
  set (v := _ + _ + _ + _). assert (E : v = l) by (unfold v, l; rewrite !shiftr_div by lia; zdiv_lia).
  rewrite E. cbn. do 2 f_equal; [|f_equal; [|f_equal]]; unfold u8, l; rewrite ?shiftr_div by lia; zdiv_lia.
Qed.

Lemma quad_two s0 s1 :
  is_byte s0 -> is_byte s1 ->
  let l := s0 * 2 ^ 16 + s1 * 2 ^ 8 in
  base64_decode_quad (conv_bin2ascii (Z.shiftr l 18)) (conv_bin2ascii (Z.shiftr l 12))
    (conv_bin2ascii (Z.shiftr l 6)) ch_equals = Some [s0; s1].
Proof.
  intros H0 H1 l. decode_sextets.
  set (v := _ + _ + _ + _). assert (E : v = l) by (unfold v, l; rewrite !shiftr_div by lia; zdiv_lia).
  rewrite E. cbn. do 2 f_equal; [|f_equal]; unfold u8, l; rewrite ?shiftr_div by lia; zdiv_lia.
Qed.

Lemma quad_one s0 :
  is_byte s0 ->
  let l := s0 * 2 ^ 16 in
  base64_decode_quad (conv_bin2ascii (Z.shiftr l 18)) (conv_bin2ascii (Z.shiftr l 12))
    ch_equals ch_equals = Some [s0].
Proof.
  intros H0 l. decode_sextets.
  set (v := _ + _ + _ + _). assert (E : v = l) by (unfold v, l; rewrite !shiftr_div by lia; zdiv_lia).
  rewrite E. cbn. do 2 f_equal; unfold u8, l; rewrite ?shiftr_div by lia; zdiv_lia.
Qed.

(** * Whole strings, three bytes at a time *)

Lemma group_ind (P : list Z -> Prop) :
  P [] -> (forall a, P [a]) -> (forall a b, P [a; b]) ->
  (forall a b c l, P l -> P (a :: b :: c :: l)) -> forall l, P l.
Proof.
  intros H0 H1 H2 H3. fix IH 1. intros [|a [|b [|c l]]]; [done|done|done|]. apply H3, IH.
Qed.

Lemma word_two s0 s1 : is_byte s1 ->
  Z.lor (Z.shiftl s0 16) (Z.shiftl s1 8) = s0 * 2 ^ 16 + s1 * 2 ^ 8.
Proof.
  intros H1. rewrite Z.lor_comm, (Z.shiftl_mul_pow2 s1) by lia. rewrite lor_shiftl_add by lia. lia.
Qed.

Lemma encode_groups_3 s0 s1 s2 src :
  encode_groups (s0 :: s1 :: s2 :: src)
  = encode_group (Z.lor (Z.lor (Z.shiftl s0 16) (Z.shiftl s1 8)) s2) ++ encode_groups src.
Proof. reflexivity. Qed.

Lemma encode_groups_length l : Z.of_nat (length (encode_groups l)) = (Z.of_nat (length l) + 2) / 3 * 4.
Proof.
  induction l as [| | |a b c l IH] using group_ind; [done|done|done|].
  rewrite encode_groups_3, length_app. cbn [encode_group length]. rewrite Nat2Z.inj_add, IH. zdiv_lia.
Qed.

Lemma decode_encode_groups l : is_bytes l -> decode_quads (encode_groups l) = Some l.
Proof.
  induction l as [|a|a b|a b c l IH] using group_ind; intros Hl; [done|..].
  - apply Forall_cons_1 in Hl as [Ha _]. cbn [encode_groups decode_quads]. rewrite Z.shiftl_mul_pow2 by lia.
    rewrite quad_one by done. done.
  - apply Forall_cons_1 in Hl as [Ha Hl]. apply Forall_cons_1 in Hl as [Hb _].
    cbn [encode_groups decode_quads]. rewrite word_two by done. rewrite quad_two by done. done.
  - apply Forall_cons_1 in Hl as [Ha Hl]. apply Forall_cons_1 in Hl as [Hb Hl]. apply Forall_cons_1 in Hl as [Hc Hl].
    rewrite encode_groups_3, group_word by done. cbn [encode_group app decode_quads].
    rewrite quad_full by done. cbn [length Nat.eqb negb andb]. by rewrite IH.
Qed.

(** [EVP_DecodeBase64] inverts [EVP_EncodeBlock] on every byte string, given the
    space [EVP_DecodedLength] asks for. *)
Theorem base64_roundtrip src max_out :
  is_bytes src -> (Z.of_nat (length src) + 2) / 3 * 3 <= max_out ->
  let (dst, ret) := EVP_EncodeBlock src in
  EVP_DecodeBase64 max_out (take (Z.to_nat ret) dst) = Some src.
Proof.
  intros Hs Hm. unfold EVP_EncodeBlock. rewrite Nat2Z.id, take_app_length.
  unfold EVP_DecodeBase64, EVP_DecodedLength. rewrite encode_groups_length.
  rewrite (Z.mod_mul _ 4) by lia. cbn [Z.eqb negb]. rewrite Z.div_mul by lia.
  destruct (Z.ltb_spec max_out ((Z.of_nat (length src) + 2) / 3 * 3)); [lia|].
  by apply decode_encode_groups.
Qed.

Lemma base64_roundtrip_witness :
  EVP_DecodeBase64 6 (take 8 (fst (EVP_EncodeBlock [0; 255; 16; 7]))) = Some [0; 255; 16; 7].
Proof.
  exact (base64_roundtrip [0; 255; 16; 7] 6 ltac:(repeat constructor; lia) ltac:(vm_compute; discriminate)).
Defined.

(** * The encoder's lines *)

(** What a well-formed encoder context holds. *)
Definition line_pending (ctx : EVP_ENCODE_CTX) : Prop := (length (data ctx) < sizeof_data)%nat.

(** The first [k] lines of the data. *)
Fixpoint lines (k : nat) (d : list Z) : list Z :=
  match k with
  | O => []
  | S k => encode_line (take sizeof_data d) ++ lines k (drop sizeof_data d)
  end.

Definition line_count (d : list Z) : nat := (length d / sizeof_data)%nat.

Lemma line_length l : length l = sizeof_data -> length (encode_line l) = 65%nat.
Proof.
  intros Hl. unfold encode_line. rewrite length_app. cbn [length].
  pose proof (encode_groups_length l) as E. rewrite Hl in E.
  change ((Z.of_nat sizeof_data + 2) / 3 * 4) with 64 in E. lia.
Qed.

Lemma full_lines fuel : forall d total,
  (length d <= fuel)%nat -> 0 <= total -> total + 65 * Z.of_nat (length d) < 2 ^ 64 ->
  encode_full_lines fuel d total
  = (lines (line_count d) d, Some (total + 65 * Z.of_nat (line_count d)),
     drop (sizeof_data * line_count d) d).
Proof.
  induction fuel as [|fuel IH]; intros d total Hf Ht Hb.
  - destruct d; [|cbn in Hf; lia]. cbn [encode_full_lines length line_count].
    change (line_count []) with O. cbn [lines]. by rewrite Z.add_0_r.
  - cbn [encode_full_lines]. destruct (Nat.leb_spec sizeof_data (length d)) as [Hd|Hd].
    + assert (Et : length (take sizeof_data d) = sizeof_data) by (rewrite length_take; lia).
      rewrite (line_length _ Et). unfold sizeof_data in *. change (Z.of_nat 65 - 1) with 64. cbv zeta.
      rewrite !u64_small by lia. destruct (Z.ltb_spec (total + 64 + 1) total); [lia|].
      assert (Ec : line_count d = S (line_count (drop 48 d))).
      { unfold line_count, sizeof_data. rewrite length_drop.
        replace (length d) with (length d - 48 + 1 * 48)%nat at 1 by lia. rewrite Nat.div_add by lia. lia. }
      rewrite IH by (rewrite ?length_drop; lia). rewrite Ec. cbn [lines]. unfold sizeof_data. rewrite drop_drop.
      set (n := line_count (drop 48 d)). replace (48 + 48 * n)%nat with (48 * S n)%nat by lia.
      by replace (total + (64 + 1) + 65 * Z.of_nat n) with (total + 65 * Z.of_nat (S n)) by lia.
    + assert (Ec : line_count d = O) by (unfold line_count; by apply Nat.div_small).
      rewrite Ec, Nat.mul_0_r, drop_0. cbn [lines]. by rewrite Z.add_0_r.
Qed.

Definition with_data (ctx : EVP_ENCODE_CTX) (d : list Z) : EVP_ENCODE_CTX :=
  mk_ctx d (eof_seen ctx) (error_encountered ctx).

Definition line_rest (d : list Z) : list Z := drop (sizeof_data * line_count d) d.

Lemma line_rest_short d : (length (line_rest d) < sizeof_data)%nat.
Proof.
  unfold line_rest, line_count. rewrite length_drop.
  rewrite <- Nat.Div0.mod_eq. by apply Nat.mod_upper_bound.
Qed.

Lemma lines_app k j d e :
  (sizeof_data * k <= length d)%nat -> lines (k + j) (d ++ e) = lines k d ++ lines j (drop (sizeof_data * k) d ++ e).
Proof.
  revert d. induction k as [|k IH]; intros d Hk; [by rewrite Nat.mul_0_r|].
  unfold sizeof_data in *. cbn [lines Nat.add]. unfold sizeof_data.
  rewrite take_app_le, drop_app_le by lia. rewrite IH by (rewrite length_drop; lia).
  rewrite drop_drop, <- app_assoc. by replace (48 + 48 * k)%nat with (48 * S k)%nat by lia.
Qed.

Lemma line_count_le d : (sizeof_data * line_count d <= length d)%nat.
Proof. apply Nat.Div0.mul_div_le. Qed.

(** Lines of data that comes in two parts. *)
Lemma lines_more d e :
  lines (line_count (d ++ e)) (d ++ e) = lines (line_count d) d ++ lines (line_count (line_rest d ++ e)) (line_rest d ++ e)
  /\ line_rest (d ++ e) = line_rest (line_rest d ++ e).
Proof.
  pose proof (line_count_le d) as Hle.
  assert (Ec : line_count (d ++ e) = (line_count d + line_count (line_rest d ++ e))%nat).
  { unfold line_count at 1 3, line_rest. rewrite !length_app, length_drop.
    replace (length d + length e)%nat
      with (length d - sizeof_data * line_count d + length e + line_count d * sizeof_data)%nat
      by (unfold sizeof_data in *; lia).
    rewrite Nat.div_add by done. lia. }
  rewrite Ec. split; [by apply lines_app|].
  unfold line_rest at 1. rewrite Ec. unfold line_rest at 2 3.
  rewrite Nat.mul_add_distr_l, <- drop_drop. by rewrite (drop_app_le d) by done.
Qed.

Lemma encode_update ctx cin :
  line_pending ctx -> 65 * Z.of_nat (length (data ctx ++ cin)) <= INT_MAX ->
  let d := data ctx ++ cin in
  EVP_EncodeUpdate ctx cin
  = (with_data ctx (line_rest d), lines (line_count d) d, 65 * Z.of_nat (line_count d)).
Proof.
  intros Hp Hb d. unfold EVP_EncodeUpdate, line_pending, INT_MAX in *. cbv zeta.
  assert (Hsmall : (length d < sizeof_data)%nat -> line_count d = O) by (intros; by apply Nat.div_small).
  destruct (Nat.eqb_spec (length cin) 0) as [E0|E0].
  - apply nil_length_inv in E0 as ->. unfold d in *. rewrite app_nil_r in *.
    unfold line_rest. rewrite Hsmall by done. by destruct ctx.
  - destruct (Nat.ltb_spec (length cin) (sizeof_data - length (data ctx))) as [Hs|Hs].
    + assert (length d < sizeof_data)%nat by (unfold d; rewrite length_app; lia).
      unfold line_rest. by rewrite Hsmall by done.
    + set (todo := (sizeof_data - length (data ctx))%nat).
      destruct (Nat.eqb_spec (length (data ctx)) 0) as [Ed|Ed]; cbn [negb].
      * apply nil_length_inv in Ed. unfold d. rewrite Ed in *. cbn [app] in *.
        rewrite full_lines by lia. pose proof (line_count_le cin). unfold sizeof_data in *.
        destruct (Z.ltb_spec (2 ^ 31 - 1) (0 + 65 * Z.of_nat (line_count cin))); [lia|]. done.
      * rewrite length_app in Hb.
        assert (Hl : length (data ctx ++ take todo cin) = sizeof_data)
          by (rewrite length_app, length_take; unfold todo; lia).
        rewrite (line_length _ Hl), full_lines by (rewrite ?length_drop; lia).
        assert (E : d = (data ctx ++ take todo cin) ++ drop todo cin)
          by (unfold d; by rewrite <- app_assoc, take_drop).
        rewrite E. set (d1 := data ctx ++ take todo cin) in *. set (d2 := drop todo cin).
        destruct (lines_more d1 d2) as [El Er].
        assert (Ec1 : line_count d1 = 1%nat) by (unfold line_count; by rewrite Hl).
        assert (Er1 : line_rest d1 = []) by (unfold line_rest; rewrite Ec1; apply drop_ge; by rewrite Hl).
        assert (Ec : line_count (d1 ++ d2) = S (line_count d2)).
        { unfold line_count. rewrite length_app, Hl. rewrite Nat.add_comm.
          rewrite <- (Nat.mul_1_l sizeof_data) at 1. rewrite Nat.div_add by done. lia. }
        rewrite El, Er, Er1, Ec, Ec1. cbn [lines app]. rewrite app_nil_r, take_ge by lia.
        pose proof (line_count_le d2). assert (length d2 <= length cin)%nat by (unfold d2; rewrite length_drop; lia).
        unfold sizeof_data in *.
        destruct (Z.ltb_spec (2 ^ 31 - 1) (Z.of_nat 65 + 65 * Z.of_nat (line_count d2))); [lia|].
        unfold with_data, line_rest. by replace (Z.of_nat 65 + 65 * Z.of_nat (line_count d2))
          with (65 * Z.of_nat (S (line_count d2))) by lia.
Qed.

(** * Streams *)

(** A caller that feeds the encoder chunk by chunk. *)
Fixpoint encode_chunks (ctx : EVP_ENCODE_CTX) (chunks : list (list Z)) : EVP_ENCODE_CTX * list Z :=
  match chunks with
  | [] => (ctx, [])
  | c :: cs =>
      let '(ctx, out, n) := EVP_EncodeUpdate ctx c in
      let (ctx, l) := encode_chunks ctx cs in (ctx, take (Z.to_nat n) out ++ l)
  end.

Definition encode_stream (chunks : list (list Z)) : list Z :=
  let (ctx, l) := encode_chunks EVP_EncodeInit chunks in
  let '(_, out, n) := EVP_EncodeFinal ctx in l ++ take (Z.to_nat n) out.

(** The same for the decoder; [None] when an update fails. *)
Fixpoint decode_stream (ctx : EVP_ENCODE_CTX) (chunks : list (list Z)) : option (EVP_ENCODE_CTX * list Z) :=
  match chunks with
  | [] => Some (ctx, [])
  | c :: cs =>
      let '(ctx, out, n, r) := EVP_DecodeUpdate ctx c in
      if r =? -1 then None
      else match decode_stream ctx cs with
           | Some (ctx, l) => Some (ctx, take (Z.to_nat n) out ++ l)
           | None => None
           end
  end.

(** The lines of 64 characters and the short one that ends them. *)
Definition mime (d : list Z) : list Z :=
  lines (line_count d) d ++
  match line_rest d with [] => [] | rest => encode_line rest end.

Lemma lines_length k d : (sizeof_data * k <= length d)%nat -> length (lines k d) = (65 * k)%nat.
Proof.
  revert d. induction k as [|k IH]; intros d Hk; [done|]. unfold sizeof_data in *. cbn [lines].
  rewrite length_app, IH by (unfold sizeof_data; rewrite length_drop; lia).
  rewrite line_length by (unfold sizeof_data; rewrite length_take; lia). lia.
Qed.

Lemma encode_chunks_spec chunks : forall ctx,
  line_pending ctx -> 65 * Z.of_nat (length (data ctx ++ concat chunks)) <= INT_MAX ->
  encode_chunks ctx chunks =
  (with_data ctx (line_rest (data ctx ++ concat chunks)),
   lines (line_count (data ctx ++ concat chunks)) (data ctx ++ concat chunks)).
Proof.
  induction chunks as [|c cs IH]; intros ctx Hp Hb; cbn [encode_chunks concat] in *.
  - rewrite app_nil_r in *. unfold line_rest. unfold line_pending in Hp.
    assert (E : line_count (data ctx) = O) by (by apply Nat.div_small). rewrite E. by destruct ctx.
  - rewrite !app_assoc in *. rewrite length_app in Hb.
    rewrite encode_update by (done || lia). cbv zeta.
    set (d := data ctx ++ c) in *. pose proof (line_rest_short d) as Hs.
    pose proof (line_count_le d) as Hle.
    rewrite IH; [|exact Hs|].
    + destruct (lines_more d (concat cs)) as [El Er]. rewrite El, Er. cbn [data with_data].
      rewrite take_ge; [done|]. rewrite lines_length by done. lia.
    + cbn [data with_data]. rewrite length_app. unfold line_rest. rewrite length_drop. lia.
Qed.

Lemma encode_stream_mime chunks :
  65 * Z.of_nat (length (concat chunks)) <= INT_MAX -> encode_stream chunks = mime (concat chunks).
Proof.
  intros Hb. unfold encode_stream. rewrite encode_chunks_spec; [|unfold line_pending; cbn; unfold sizeof_data; lia|done].
  cbn [data EVP_EncodeInit app]. unfold EVP_EncodeFinal, mime. cbn [data with_data].
  destruct (line_rest (concat chunks)) as [|b rest]; cbn [length Nat.eqb]; [done|].
  by rewrite Nat2Z.id, take_app_length.
Qed.

(** * Decoding a stream *)

Lemma decode_chars_app l1 : forall ctx l2,
  decode_chars ctx (l1 ++ l2) =
  let '(ctx1, o1, ok1) := decode_chars ctx l1 in
  if ok1 : bool then let '(ctx2, o2, ok2) := decode_chars ctx1 l2 in (ctx2, o1 ++ o2, ok2)
  else (ctx1, o1, false).
Proof.
  induction l1 as [|c l1 IH]; intros ctx l2; cbn [app decode_chars].
  - by destruct (decode_chars ctx l2) as [[? ?] []].
  - destruct (decode_char ctx c) as [ctx1 [bytes|]]; [|done]. rewrite IH.
    destruct (decode_chars ctx1 l1) as [[ctx2 o2] []]; [|done].
    destruct (decode_chars ctx2 l2) as [[ctx3 o3] ok3]. by rewrite app_assoc.
Qed.

(** Three characters of a quad are kept, the fourth decodes it. *)
Lemma decode_quad_chars e c0 c1 c2 c3 l bytes :
  is_space c0 = false -> is_space c1 = false -> is_space c2 = false -> is_space c3 = false ->
  base64_decode_quad c0 c1 c2 c3 = Some bytes ->
  decode_chars (mk_ctx [] false e) (c0 :: c1 :: c2 :: c3 :: l) =
  let '(ctx, o, ok) := decode_chars (mk_ctx [] ((length bytes <? 3)%nat || false) e) l in
  (ctx, bytes ++ o, ok).
Proof.
  intros H0 H1 H2 H3 Hq. cbn [decode_chars]. unfold decode_char at 1. rewrite H0. cbn [eof_seen data app].
  unfold decode_char at 1. cbn [eof_seen data app error_encountered]. rewrite H1.
  unfold decode_char at 1. cbn [eof_seen data app error_encountered]. rewrite H2.
  unfold decode_char at 1. cbn [eof_seen data app error_encountered]. rewrite H3, Hq.
  destruct (decode_chars _ l) as [[ctx o] ok]. done.
Qed.

Lemma encoded_not_space x : is_space (conv_bin2ascii x) = false.
Proof. apply sextet. Qed.

Lemma decode_chars_groups e l :
  is_bytes l ->
  decode_chars (mk_ctx [] false e) (encode_groups l)
  = (mk_ctx [] (negb (length l mod 3 =? 0)%nat) e, l, true).
Proof.
  induction l as [|a|a b|a b c l IH] using group_ind; intros Hl; [done|..].
  - apply Forall_cons_1 in Hl as [Ha _]. cbn [encode_groups]. rewrite Z.shiftl_mul_pow2 by lia.
    erewrite decode_quad_chars; [|apply encoded_not_space..|done|done|by apply quad_one]. done.
  - apply Forall_cons_1 in Hl as [Ha Hl]. apply Forall_cons_1 in Hl as [Hb _].
    cbn [encode_groups]. rewrite word_two by done.
    erewrite decode_quad_chars; [|apply encoded_not_space..|done|by apply quad_two]. done.
  - apply Forall_cons_1 in Hl as [Ha Hl]. apply Forall_cons_1 in Hl as [Hb Hl].
    apply Forall_cons_1 in Hl as [Hc Hl].
    rewrite encode_groups_3, group_word by done. cbn [encode_group app].
    erewrite decode_quad_chars; [|apply encoded_not_space..|by apply quad_full].
    cbn [length Nat.ltb Nat.leb orb]. rewrite IH by done.
    replace (S (S (S (length l)))) with (length l + 1 * 3)%nat by lia. by rewrite Nat.Div0.mod_add.
Qed.

Lemma decode_line e l :
  is_bytes l ->
  decode_chars (mk_ctx [] false e) (encode_line l) = (mk_ctx [] (negb (length l mod 3 =? 0)%nat) e, l, true).
Proof.
  intros Hl. unfold encode_line. rewrite decode_chars_app, decode_chars_groups by done.
  cbn. by rewrite app_nil_r.
Qed.

Lemma decode_lines e k d :
  is_bytes d -> (sizeof_data * k <= length d)%nat ->
  decode_chars (mk_ctx [] false e) (lines k d) = (mk_ctx [] false e, take (sizeof_data * k) d, true).
Proof.
  revert d. induction k as [|k IH]; intros d Hd Hk; [by rewrite Nat.mul_0_r|].
  unfold sizeof_data in *. cbn [lines]. unfold sizeof_data in *.
  rewrite decode_chars_app, decode_line by (by apply Forall_take).
  rewrite length_take, Nat.min_l by lia. change (negb (48 mod 3 =? 0)%nat) with false.
  rewrite IH by (try apply Forall_drop; rewrite ?length_drop; done || lia).
  rewrite take_take_drop. by replace (48 + 48 * k)%nat with (48 * S k)%nat by lia.
Qed.

Lemma decode_mime e d :
  is_bytes d -> exists eof, decode_chars (mk_ctx [] false e) (mime d) = (mk_ctx [] eof e, d, true).
Proof.
  intros Hd. unfold mime. rewrite decode_chars_app.
  rewrite decode_lines by (done || apply line_count_le).
  assert (Er : take (sizeof_data * line_count d) d ++ line_rest d = d) by apply take_drop.
  destruct (line_rest d) as [|b rest] eqn:E.
  - exists false. cbn [decode_chars]. by rewrite Er.
  - rewrite decode_line.
    + eexists. by rewrite Er.
    + rewrite <- E. by apply Forall_drop.
Qed.

Lemma decode_char_error ctx c ctx' b :
  decode_char ctx c = (ctx', Some b) -> error_encountered ctx' = error_encountered ctx.
Proof. unfold decode_char. intros E. repeat case_match; simplify_eq; done. Qed.

Lemma decode_chars_error l : forall ctx ctx' o,
  decode_chars ctx l = (ctx', o, true) -> error_encountered ctx' = error_encountered ctx.
Proof.
  induction l as [|c l IH]; intros ctx ctx' o E; cbn [decode_chars] in E; [by simplify_eq|].
  destruct (decode_char ctx c) as [ctx1 [b|]] eqn:Ec; [|done].
  destruct (decode_chars ctx1 l) as [[ctx2 o2] ok] eqn:E2. simplify_eq.
  rewrite (IH _ _ _ E2). by eapply decode_char_error.
Qed.

(** The stream decoder is the character decoder on the concatenation. *)
Lemma decode_stream_chars chunks : forall ctx ctx' l,
  error_encountered ctx = false -> decode_chars ctx (concat chunks) = (ctx', l, true) ->
  Z.of_nat (length l) <= INT_MAX -> decode_stream ctx chunks = Some (ctx', l).
Proof.
  induction chunks as [|c cs IH]; intros ctx ctx' l He E Hl; cbn [decode_stream concat] in *.
  - cbn in E. by simplify_eq.
  - rewrite decode_chars_app in E. unfold EVP_DecodeUpdate. rewrite He.
    destruct (decode_chars ctx c) as [[ctx1 o1] []] eqn:E1; [|done]. cbn [negb].
    destruct (decode_chars ctx1 (concat cs)) as [[ctx2 o2] ok2] eqn:E2. simplify_eq.
    rewrite length_app in Hl. cbv zeta.
    destruct (Z.ltb_spec INT_MAX (Z.of_nat (length o1))); [lia|].
    assert (Hr : ((if eof_seen ctx1 then 0 else 1) =? -1) = false) by (by destruct (eof_seen ctx1)).
    rewrite Hr, (IH _ _ _ (eq_trans (decode_chars_error _ _ _ _ E1) He) E2) by lia.
    by rewrite Nat2Z.id, take_ge.
Qed.

(** C39: what the streaming encoder produces from any sequence of updates, the
    streaming decoder turns back into the input, however the text is cut up on the
    way, and it finishes without an error, for inputs of up to [INT_MAX / 65] bytes. *)
Theorem base64_stream_roundtrip chunks texts :
  is_bytes (concat chunks) -> 65 * Z.of_nat (length (concat chunks)) <= INT_MAX ->
  concat texts = encode_stream chunks ->
  exists ctx, decode_stream EVP_DecodeInit texts = Some (ctx, concat chunks) /\ EVP_DecodeFinal ctx = 1.
Proof.
  intros Hd Hb Et.
  pose proof (encode_stream_mime chunks Hb) as E.
  destruct (decode_mime false (concat chunks) Hd) as [eof Ed]. rewrite <- E, <- Et in Ed.
  eexists. split; [apply decode_stream_chars; [done|exact Ed|lia]|]. done.
Qed.

Lemma base64_stream_roundtrip_witness :
  exists ctx, decode_stream EVP_DecodeInit [encode_stream [[1; 2]; [3; 4]]] = Some (ctx, [1; 2; 3; 4]) /\
              EVP_DecodeFinal ctx = 1.
Proof.
  apply (base64_stream_roundtrip [[1; 2]; [3; 4]]); [repeat constructor; lia|vm_compute; discriminate|reflexivity].
Defined.
