(* ===== verification/Unicode.v ===== *)
(** BoringSSL's character readers and writers, crypto/bytestring/unicode.c: UTF-8,
    Latin-1, UCS-2 and UTF-32. *)
From stdpp Require Import base list numbers option.
From Stdlib Require Import ZArith Lia.
From S2P Require Import Prelude Cmem Cbs Cbb CbsThms CbbThms.

Definition is_valid_code_point (v : Z) : bool :=
  negb ((0x10ffff <? v) || (Z.land v 0xfffe =? 0xfffe)
        || ((0xfdd0 <=? v) && (v <=? 0xfdef)) || ((0xd800 <=? v) && (v <=? 0xdfff))).

Definition BOTTOM_BITS (n : Z) : Z := u8 (Z.shiftl 1 n - 1).
Definition TOP_BITS (n : Z) : Z := u8 (Z.lnot (BOTTOM_BITS (8 - n))).

(** [for (i = 0; i < len; i++)] over the continuation bytes. *)
Fixpoint utf8_continuation (len : nat) (v : Z) : SM CBS Z :=
  match len with
  | O => ret v
  | S len =>
      let* c := CBS_get_u8 in
      if negb (Z.land c (TOP_BITS 2) =? TOP_BITS 1) then fail
      else utf8_continuation len (Z.lor (u32 (Z.shiftl v 6)) (Z.land c (BOTTOM_BITS 6)))
  end.

Definition cbs_get_utf8 : SM CBS Z :=
  let* c := CBS_get_u8 in
  if c <=? 0x7f then ret c
  else
    let* (v, len, lower_bound) :=
      if Z.land c (TOP_BITS 3) =? TOP_BITS 2 then ret (Z.land c (BOTTOM_BITS 5), 1%nat, 0x80)
      else if Z.land c (TOP_BITS 4) =? TOP_BITS 3 then ret (Z.land c (BOTTOM_BITS 4), 2%nat, 0x800)
      else if Z.land c (TOP_BITS 5) =? TOP_BITS 4 then ret (Z.land c (BOTTOM_BITS 3), 3%nat, 0x10000)
      else fail in
    let* v := utf8_continuation len v in
    if negb (is_valid_code_point v) || (v <? lower_bound) then fail else ret v.

Definition cbs_get_latin1 : SM CBS Z := CBS_get_u8.

Definition cbs_get_ucs2_be : SM CBS Z :=
  let* c := CBS_get_u16 in
  if negb (is_valid_code_point c) then fail else ret c.

Definition cbs_get_utf32_be : SM CBS Z :=
  let* v := CBS_get_u32 in
  if is_valid_code_point v then ret v else fail.

Definition cbb_get_utf8_len (u : Z) : Z :=
  if u <=? 0x7f then 1 else if u <=? 0x7ff then 2 else if u <=? 0xffff then 3 else 4.

Section unicode.
Context `{CEnv}.

Definition cbb_add_utf8 (k : nat) (u : Z) : SM CBB unit :=
  if negb (is_valid_code_point u) then fail
  else if u <=? 0x7f then CBB_add_u8 k (u8 u)
  else if u <=? 0x7ff then
    CBB_add_u8 k (Z.lor (TOP_BITS 2) (Z.shiftr u 6));;
    CBB_add_u8 k (Z.lor (TOP_BITS 1) (Z.land u (BOTTOM_BITS 6)))
  else if u <=? 0xffff then
    CBB_add_u8 k (Z.lor (TOP_BITS 3) (Z.shiftr u 12));;
    CBB_add_u8 k (Z.lor (TOP_BITS 1) (Z.land (Z.shiftr u 6) (BOTTOM_BITS 6)));;
    CBB_add_u8 k (Z.lor (TOP_BITS 1) (Z.land u (BOTTOM_BITS 6)))
  else if u <=? 0x10ffff then
    CBB_add_u8 k (Z.lor (TOP_BITS 4) (Z.shiftr u 18));;
    CBB_add_u8 k (Z.lor (TOP_BITS 1) (Z.land (Z.shiftr u 12) (BOTTOM_BITS 6)));;
    CBB_add_u8 k (Z.lor (TOP_BITS 1) (Z.land (Z.shiftr u 6) (BOTTOM_BITS 6)));;
    CBB_add_u8 k (Z.lor (TOP_BITS 1) (Z.land u (BOTTOM_BITS 6)))
  else fail.

Definition cbb_add_latin1 (k : nat) (u : Z) : SM CBB unit :=
  if u <=? 0xff then CBB_add_u8 k (u8 u) else fail.

Definition cbb_add_ucs2_be (k : nat) (u : Z) : SM CBB unit :=
  if (u <=? 0xffff) && is_valid_code_point u then CBB_add_u16 k (u16 u) else fail.

Definition cbb_add_utf32_be (k : nat) (u : Z) : SM CBB unit :=
  if is_valid_code_point u then CBB_add_u32 k u else fail.

End unicode.

(** * UTF-8: the reader accepts exactly the shortest encodings of valid code points,
    and the writer produces them. *)

(** * The encoding *)

(** The last [n] sextets of [u], as continuation bytes. *)
Fixpoint cont (n : nat) (u : Z) : list Z :=
  match n with
  | O => []
  | S n => (128 + u / 64 ^ Z.of_nat n mod 64) :: cont n u
  end.

(** RFC 3629, section 3. *)
Definition utf8 (u : Z) : list Z :=
  if u <? 0x80 then [u]
  else if u <? 0x800 then (192 + u / 64 ^ 1) :: cont 1 u
  else if u <? 0x10000 then (224 + u / 64 ^ 2) :: cont 2 u
  else (240 + u / 64 ^ 3) :: cont 3 u.

Fixpoint parse_cont (n : nat) (v : Z) (l : list Z) : option (Z * list Z) :=
  match n with
  | O => Some (v, l)
  | S n =>
      match l with
      | c :: l => if (128 <=? c) && (c <? 192) then parse_cont n (v * 64 + (c - 128)) l else None
      | [] => None
      end
  end.

Definition parse_rest (lower : Z) (n : nat) (v : Z) (l : list Z) : option (Z * list Z) :=
  match parse_cont n v l with
  | Some (v, r) => if negb (is_valid_code_point v) || (v <? lower) then None else Some (v, r)
  | None => None
  end.

Definition parse_utf8 (l : list Z) : option (Z * list Z) :=
  match l with
  | [] => None
  | c :: l =>
      if c <? 128 then Some (c, l)
      else if (192 <=? c) && (c <? 224) then parse_rest 0x80 1 (c - 192) l
      else if (224 <=? c) && (c <? 240) then parse_rest 0x800 2 (c - 224) l
      else if (240 <=? c) && (c <? 248) then parse_rest 0x10000 3 (c - 240) l
      else None
  end.

(** * The masks of the code, on every byte *)

Definition lead_check (c : Z) : bool :=
  let between a b := (a <=? c) && (c <? b) in
  eqb (Z.land c (TOP_BITS 2) =? TOP_BITS 1) (between 128 192) &&
  eqb (Z.land c (TOP_BITS 3) =? TOP_BITS 2) (between 192 224) &&
  eqb (Z.land c (TOP_BITS 4) =? TOP_BITS 3) (between 224 240) &&
  eqb (Z.land c (TOP_BITS 5) =? TOP_BITS 4) (between 240 248).

Lemma lead_bytes : forallb lead_check all_bytes = true.
Proof. vm_compute. reflexivity. Qed.

Lemma lead c : is_byte c ->
  (Z.land c (TOP_BITS 2) =? TOP_BITS 1) = ((128 <=? c) && (c <? 192)) /\
  (Z.land c (TOP_BITS 3) =? TOP_BITS 2) = ((192 <=? c) && (c <? 224)) /\
  (Z.land c (TOP_BITS 4) =? TOP_BITS 3) = ((224 <=? c) && (c <? 240)) /\
  (Z.land c (TOP_BITS 5) =? TOP_BITS 4) = ((240 <=? c) && (c <? 248)).
Proof.
  intros Hc. pose proof (forall_bytes lead_check lead_bytes c Hc) as H.
  unfold lead_check in H. rewrite !andb_true_iff, !eqb_true_iff in H. tauto.
Qed.

Lemma bottom_bits c : Z.land c (BOTTOM_BITS 6) = c mod 64 /\ Z.land c (BOTTOM_BITS 5) = c mod 32 /\
  Z.land c (BOTTOM_BITS 4) = c mod 16 /\ Z.land c (BOTTOM_BITS 3) = c mod 8.
Proof.
  change (BOTTOM_BITS 6) with (Z.ones 6). change (BOTTOM_BITS 5) with (Z.ones 5).
  change (BOTTOM_BITS 4) with (Z.ones 4). change (BOTTOM_BITS 3) with (Z.ones 3).
  by rewrite !Z.land_ones by lia.
Qed.

Lemma continuation_ok n : forall l v w,
  is_bytes l -> 0 <= v < 8 * 64 ^ (3 - Z.of_nat n) -> (n <= 3)%nat ->
  parse_result (parse_cont n v l) (utf8_continuation n v l w) w.
Proof.
  induction n as [|n IH]; intros l v w Hl Hv Hn; cbn [parse_cont utf8_continuation bind]; [done|].
  destruct l as [|c l]; [rewrite get_u8_nil; by eexists|]. rewrite get_u8_cons.
  apply Forall_cons_1 in Hl as [Hc Hl]. rewrite (proj1 (lead c Hc)), (proj1 (bottom_bits c)).
  destruct ((128 <=? c) && (c <? 192)) eqn:E; cbn [negb]; [|by eexists]. to_prop.
  assert (Ec : c mod 64 = c - 128) by (symmetry; apply (Z.mod_unique_pos _ _ 2); lia).
  assert (Hp : 64 ^ (3 - Z.of_nat n) = 64 * 64 ^ (3 - Z.of_nat (S n)))
    by (rewrite <- Z.pow_succ_r by lia; f_equal; lia).
  assert (64 ^ (3 - Z.of_nat (S n)) <= 64 ^ 2) by (apply Z.pow_le_mono_r; lia).
  assert (0 < 64 ^ (3 - Z.of_nat (S n))) by (apply Z.pow_pos_nonneg; lia).
  rewrite Ec, Z.shiftl_mul_pow2 by lia. change (2 ^ 6) with 64. rewrite u32_small by lia.
  change 64 with (2 ^ 6) at 2. rewrite Z.lor_comm, lor_add_shifted by lia. change (2 ^ 6) with 64.
  rewrite Z.add_comm. apply IH; [done| |lia]. rewrite Hp. nia.
Qed.

Lemma rest_ok lower n l v w :
  is_bytes l -> 0 <= v < 8 * 64 ^ (3 - Z.of_nat n) -> (n <= 3)%nat ->
  parse_result (parse_rest lower n v l)
    ((let* v := utf8_continuation n v in
      if negb (is_valid_code_point v) || (v <? lower) then fail else ret v) l w) w.
Proof.
  intros Hl Hv Hn. pose proof (continuation_ok n l v w Hl Hv Hn) as H. unfold parse_rest. cbn [bind].
  destruct (parse_cont n v l) as [[u r]|]; cbn [parse_result] in H.
  - rewrite H. destruct (_ || _); [by eexists|done].
  - destruct H as [r ->]. by eexists.
Qed.

Lemma get_utf8_ok l w : is_bytes l -> parse_result (parse_utf8 l) (cbs_get_utf8 l w) w.
Proof.
  intros Hl. unfold cbs_get_utf8. cbn [bind]. destruct l as [|c l]; [rewrite get_u8_nil; by eexists|].
  rewrite get_u8_cons. apply Forall_cons_1 in Hl as [Hc Hl]. cbn [parse_utf8].
  destruct (Z.leb_spec c 0x7f), (Z.ltb_spec c 128); try lia; [done|].
  destruct (lead c Hc) as (_ & -> & -> & ->). destruct (bottom_bits c) as (_ & -> & -> & ->).
  destruct (_ && _) eqn:E2; [|destruct ((224 <=? c) && _) eqn:E3; [|destruct ((240 <=? c) && _) eqn:E4]];
    to_prop; cbn [bind ret fail]; [| | |by eexists].
  - replace (c mod 32) with (c - 192) by (apply (Z.mod_unique_pos _ _ 6); lia).
    apply rest_ok; [done|change (64 ^ (3 - Z.of_nat 1)) with 4096; lia|lia].
  - replace (c mod 16) with (c - 224) by (apply (Z.mod_unique_pos _ _ 14); lia).
    apply rest_ok; [done|change (64 ^ (3 - Z.of_nat 2)) with 64; lia|lia].
  - replace (c mod 8) with (c - 240) by (apply (Z.mod_unique_pos _ _ 30); lia).
    apply rest_ok; [done|change (64 ^ (3 - Z.of_nat 3)) with 1; lia|lia].
Qed.

(** * Acceptance *)

Lemma cont_bytes n u : is_bytes (cont n u).
Proof.
  induction n as [|n IH]; cbn [cont]; constructor; [|done].
  pose proof (Z.mod_pos_bound (u / 64 ^ Z.of_nat n) 64 ltac:(lia)). lia.
Qed.

Lemma parse_cont_iff n : forall v l u r,
  parse_cont n v l = Some (u, r) <-> l = cont n u ++ r /\ u / 64 ^ Z.of_nat n = v.
Proof.
  induction n as [|n IH]; intros v l u r; cbn [parse_cont cont].
  - change (64 ^ Z.of_nat 0) with 1. rewrite Z.div_1_r. cbn [app]. naive_solver.
  - assert (Hd : u / 64 ^ Z.of_nat (S n) = u / 64 ^ Z.of_nat n / 64).
    { rewrite Nat2Z.inj_succ, Z.pow_succ_r by lia. rewrite Z.mul_comm, Z.div_div; [done| |lia].
      assert (0 < 64 ^ Z.of_nat n) by (apply Z.pow_pos_nonneg; lia). lia. }
    rewrite Hd. set (q := u / 64 ^ Z.of_nat n) in *. destruct l as [|c l]; [naive_solver|].
    destruct ((128 <=? c) && (c <? 192)) eqn:E.
    + to_prop. rewrite IH. fold q. cbn [app]. split.
      * intros [-> Hq]. split; [f_equal; zdiv_lia|zdiv_lia].
      * intros [[= -> ->] <-]. split; [done|zdiv_lia].
    + split; [done|]. cbn [app]. intros [[= -> _] _]. exfalso.
      pose proof (Z.mod_pos_bound q 64 ltac:(lia)).
      apply andb_false_iff in E as [E|E]; to_prop; lia.
Qed.

Lemma parse_rest_iff lower n v l u r :
  parse_rest lower n v l = Some (u, r) <->
  l = cont n u ++ r /\ u / 64 ^ Z.of_nat n = v /\ is_valid_code_point u = true /\ lower <= u.
Proof.
  unfold parse_rest. destruct (parse_cont n v l) as [[u' r']|] eqn:E.
  - pose proof E as E'. apply parse_cont_iff in E' as [-> Hv].
    destruct (is_valid_code_point u') eqn:Ev; cbn [negb orb].
    + destruct (Z.ltb_spec u' lower).
      * split; [done|]. intros (Ec & Hv' & _ & Hlow).
        assert (Eu : parse_cont n v (cont n u' ++ r') = Some (u, r)) by (apply parse_cont_iff; done).
        rewrite E in Eu. simplify_eq. lia.
      * split; [intros [= <- <-]; done|]. intros (Ec & Hv' & _ & Hlow).
        assert (Eu : parse_cont n v (cont n u' ++ r') = Some (u, r)) by (apply parse_cont_iff; done).
        rewrite E in Eu. by simplify_eq.
    + split; [done|]. intros (Ec & Hv' & Hval & _).
      assert (Eu : parse_cont n v (cont n u' ++ r') = Some (u, r)) by (apply parse_cont_iff; done).
      rewrite E in Eu. simplify_eq. congruence.
  - split; [done|]. intros (Ec & Hv & _).
    assert (Eu : parse_cont n v l = Some (u, r)) by (apply parse_cont_iff; done). congruence.
Qed.

Lemma valid_range u : is_valid_code_point u = true -> u <= 0x10ffff.
Proof. unfold is_valid_code_point. intros H. to_prop. lia. Qed.

Definition ascii_check (u : Z) : bool := implb (u <? 128) (is_valid_code_point u).

Lemma ascii_valid : forallb ascii_check all_bytes = true.
Proof. vm_compute. reflexivity. Qed.

Lemma valid_ascii u : 0 <= u < 128 -> is_valid_code_point u = true.
Proof.
  intros Hu. pose proof (forall_bytes ascii_check ascii_valid u ltac:(lia)) as H. unfold ascii_check in H.
  rewrite (proj2 (Z.ltb_lt _ _)) in H by lia. exact H.
Qed.

Lemma parse_utf8_iff l u r :
  is_bytes l ->
  parse_utf8 l = Some (u, r) <-> 0 <= u /\ is_valid_code_point u = true /\ l = utf8 u ++ r.
Proof.
  intros Hl. split.
  - destruct l as [|c l]; [done|]. apply Forall_cons_1 in Hl as [Hc Hl]. cbn [parse_utf8].
    destruct (Z.ltb_spec c 128) as [H7|H7].
    { intros [= -> ->]. split; [lia|]. split; [apply valid_ascii; lia|].
      unfold utf8. by rewrite (proj2 (Z.ltb_lt u 0x80)) by lia. }
    destruct (_ && _) eqn:E2; [|destruct ((224 <=? c) && _) eqn:E3; [|destruct ((240 <=? c) && _) eqn:E4]];
      to_prop; [| | |done]; rewrite parse_rest_iff; intros (-> & Hv & Hval & Hlow);
      pose proof (valid_range u Hval); (split; [lia|split; [done|]]); unfold utf8.
    + change (64 ^ Z.of_nat 1) with 64 in Hv. change (64 ^ 1) with 64.
      destruct (Z.ltb_spec u 0x80), (Z.ltb_spec u 0x800); try zdiv_lia. cbn [app]. f_equal. lia.
    + change (64 ^ Z.of_nat 2) with 4096 in Hv. change (64 ^ 2) with 4096.
      destruct (Z.ltb_spec u 0x80), (Z.ltb_spec u 0x800), (Z.ltb_spec u 0x10000); try zdiv_lia.
      cbn [app]. f_equal. lia.
    + change (64 ^ Z.of_nat 3) with 262144 in Hv. change (64 ^ 3) with 262144.
      destruct (Z.ltb_spec u 0x80), (Z.ltb_spec u 0x800), (Z.ltb_spec u 0x10000); try zdiv_lia.
      cbn [app]. f_equal. lia.
  - intros (Hu & Hval & ->). pose proof (valid_range u Hval). unfold utf8 in *.
    destruct (Z.ltb_spec u 0x80); [|destruct (Z.ltb_spec u 0x800); [|destruct (Z.ltb_spec u 0x10000)]];
      cbn [app parse_utf8].
    + by rewrite (proj2 (Z.ltb_lt u 128)) by lia.
    + change (64 ^ 1) with 64. assert (0 <= u / 64 < 32) by zdiv_lia.
      rewrite (proj2 (Z.ltb_ge _ 128)), (proj2 (Z.leb_le 192 _)), (proj2 (Z.ltb_lt _ 224)) by lia.
      apply parse_rest_iff. change (64 ^ Z.of_nat 1) with 64. split_and!; done || lia.
    + change (64 ^ 2) with 4096. assert (0 <= u / 4096 < 16) by zdiv_lia.
      rewrite (proj2 (Z.ltb_ge _ 128)), (proj2 (Z.ltb_ge _ 224)), andb_false_r by lia.
      rewrite (proj2 (Z.leb_le 224 _)), (proj2 (Z.ltb_lt _ 240)) by lia.
      apply parse_rest_iff. change (64 ^ Z.of_nat 2) with 4096. split_and!; done || lia.
    + change (64 ^ 3) with 262144. assert (0 <= u / 262144 < 8) by zdiv_lia.
      rewrite (proj2 (Z.ltb_ge _ 128)), (proj2 (Z.ltb_ge _ 224)), (proj2 (Z.ltb_ge _ 240)), !andb_false_r by lia.
      rewrite (proj2 (Z.leb_le 240 _)), (proj2 (Z.ltb_lt _ 248)) by lia.
      apply parse_rest_iff. change (64 ^ Z.of_nat 3) with 262144. split_and!; done || lia.
Qed.

(** [cbs_get_utf8] reads [u] exactly from the shortest encoding of a valid code
    point: overlong forms, surrogates, non-characters and truncated sequences are
    refused. *)
Theorem get_utf8_iff l u r w :
  is_bytes l ->
  cbs_get_utf8 l w = Ok u r w <-> 0 <= u /\ is_valid_code_point u = true /\ l = utf8 u ++ r.
Proof.
  intros Hl. rewrite <- (parse_utf8_iff l u r Hl). pose proof (get_utf8_ok l w Hl) as Hok.
  unfold parse_result in Hok. destruct (parse_utf8 l) as [[u' r']|].
  - rewrite Hok. split; [by intros [= -> ->]|by intros [= -> ->]].
  - destruct Hok as [x ->]. done.
Qed.

Lemma get_utf8_iff_witness :
  cbs_get_utf8 [0xe2; 0x82; 0xac; 0x21] (World ∅ ∅ 0) = Ok 0x20ac [0x21] (World ∅ ∅ 0).
Proof.
  apply (get_utf8_iff [0xe2; 0x82; 0xac; 0x21] 0x20ac [0x21]).
  - repeat constructor; lia.
  - split; [lia|]. split; reflexivity.
Defined.

(** * The writer *)

Lemma utf8_bytes u : 0 <= u <= 0x10ffff -> is_bytes (utf8 u).
Proof.
  intros Hu. unfold utf8. change (64 ^ 1) with 64. change (64 ^ 2) with 4096. change (64 ^ 3) with 262144.
  bool_cases; constructor; try apply cont_bytes; try constructor; zdiv_lia.
Qed.

Section writer.
Context `{CEnv}.

Lemma top_bits :
  TOP_BITS 1 = 128 /\ TOP_BITS 2 = 192 /\ TOP_BITS 3 = 224 /\ TOP_BITS 4 = 240.
Proof. done. Qed.

Lemma or_top n x k : 0 <= x < 2 ^ n -> 0 <= n -> Z.lor (k * 2 ^ n) x = k * 2 ^ n + x.
Proof. intros Hx Hn. rewrite Z.lor_comm, lor_add_shifted by lia. lia. Qed.

Lemma cont_byte u n : Z.lor (TOP_BITS 1) (Z.land (Z.shiftr u (6 * n)) (BOTTOM_BITS 6)) = 128 + u / 64 ^ n mod 64 \/ n < 0.
Proof.
  destruct (Z_lt_dec n 0) as [|Hn]; [by right|left].
  rewrite (proj1 (bottom_bits _)), shiftr_div by lia. rewrite Z.pow_mul_r by lia. change (2 ^ 6) with 64.
  pose proof (Z.mod_pos_bound (u / 64 ^ n) 64 ltac:(lia)).
  change (TOP_BITS 1) with (2 * 2 ^ 6). by rewrite or_top by lia.
Qed.

Lemma builds_cont flat limit k u n :
  builds flat limit k (CBB_add_u8 k (Z.lor (TOP_BITS 1) (Z.land (Z.shiftr u (6 * Z.of_nat n)) (BOTTOM_BITS 6))))
    [128 + u / 64 ^ Z.of_nat n mod 64].
Proof.
  destruct (cont_byte u (Z.of_nat n)) as [-> |]; [|lia]. apply builds_u8.
  pose proof (Z.mod_pos_bound (u / 64 ^ Z.of_nat n) 64 ltac:(lia)). lia.
Qed.

Lemma builds_utf8 flat limit k u :
  0 <= u -> is_valid_code_point u = true -> builds flat limit k (cbb_add_utf8 k u) (utf8 u).
Proof.
  intros Hu Hval. pose proof (valid_range u Hval). unfold cbb_add_utf8, utf8. rewrite Hval. cbn [negb].
  assert (Hlast : Z.land u (BOTTOM_BITS 6) = Z.land (Z.shiftr u (6 * Z.of_nat 0)) (BOTTOM_BITS 6))
    by (by rewrite Z.shiftr_0_r).
  destruct (Z.leb_spec u 0x7f), (Z.ltb_spec u 0x80); try lia; [rewrite u8_small by lia; apply builds_u8; lia|].
  destruct (Z.leb_spec u 0x7ff), (Z.ltb_spec u 0x800); try lia.
  - change (TOP_BITS 2) with (6 * 2 ^ 5). rewrite shiftr_div, or_top by zdiv_lia.
    rewrite Hlast. apply (builds_seq _ _ _ _ _ [_] [_]); [apply builds_u8; zdiv_lia|apply (builds_cont _ _ _ _ 0)].
  - destruct (Z.leb_spec u 0xffff), (Z.ltb_spec u 0x10000); try lia.
    + change (TOP_BITS 3) with (14 * 2 ^ 4). rewrite (shiftr_div u 12), or_top by zdiv_lia. rewrite Hlast.
      apply (builds_seq _ _ _ _ _ [_] [_; _]); [apply builds_u8; zdiv_lia|].
      apply (builds_seq _ _ _ _ _ [_] [_]); [apply (builds_cont _ _ _ _ 1)|apply (builds_cont _ _ _ _ 0)].
    + destruct (Z.leb_spec u 0x10ffff); [|lia].
      change (TOP_BITS 4) with (30 * 2 ^ 3). rewrite (shiftr_div u 18), or_top by zdiv_lia. rewrite Hlast.
      apply (builds_seq _ _ _ _ _ [_] [_; _; _]); [apply builds_u8; zdiv_lia|].
      apply (builds_seq _ _ _ _ _ [_] [_; _]); [apply (builds_cont _ _ _ _ 2)|].
      apply (builds_seq _ _ _ _ _ [_] [_]); [apply (builds_cont _ _ _ _ 1)|apply (builds_cont _ _ _ _ 0)].
Qed.

End writer.

(** * Strings *)

(** How asn1 string conversion writes a string, code point by code point, and reads
    it back until nothing is left. *)
Fixpoint add_utf8_string `{CEnv} (k : nat) (us : list Z) : SM CBB unit :=
  match us with
  | [] => ret tt
  | u :: us => cbb_add_utf8 k u;; add_utf8_string k us
  end.

Fixpoint get_utf8_string (fuel : nat) : SM CBS (list Z) :=
  match fuel with
  | O => nofuel
  | S fuel =>
      let* cbs := get in
      if CBS_len cbs =? 0 then ret []
      else let* u := cbs_get_utf8 in let* us := get_utf8_string fuel in ret (u :: us)
  end.

Definition code_points (us : list Z) : Prop := Forall (fun u => 0 <= u /\ is_valid_code_point u = true) us.

Lemma builds_utf8_string `{CEnv} flat limit k us :
  code_points us -> builds flat limit k (add_utf8_string k us) (concat (map utf8 us)).
Proof.
  induction 1 as [|u us [Hu Hv] _ IH]; [apply builds_ret|]. cbn [add_utf8_string map concat].
  apply builds_seq; [by apply builds_utf8|done].
Qed.

Lemma utf8_length u : 1 <= CBS_len (utf8 u) <= 4.
Proof. unfold utf8, CBS_len. bool_cases; cbn [length cont]; lia. Qed.

Lemma utf8_string_bytes us : code_points us -> is_bytes (concat (map utf8 us)).
Proof.
  induction 1 as [|u us [Hu Hv] _ IH]; [constructor|]. cbn [map concat].
  apply Forall_app; split; [|done]. apply utf8_bytes. split; [done|by apply valid_range].
Qed.

Lemma get_utf8_string_ok us fuel w :
  code_points us -> (length us < fuel)%nat ->
  get_utf8_string fuel (concat (map utf8 us)) w = Ok us [] w.
Proof.
  intros Hus. revert fuel. induction Hus as [|u us [Hu Hv] Hus IH]; intros [|fuel] Hf; try (cbn in Hf; lia);
    cbn [get_utf8_string map concat bind get]; [done|].
  rewrite CBS_len_app. pose proof (utf8_length u). pose proof (CBS_len_nonneg (concat (map utf8 us))).
  destruct (Z.eqb_spec (CBS_len (utf8 u) + CBS_len (concat (map utf8 us))) 0); [lia|]. cbn [bind].
  assert (Hb : is_bytes (utf8 u ++ concat (map utf8 us)))
    by (apply (utf8_string_bytes (u :: us)); by constructor).
  pose proof (get_utf8_ok _ w Hb) as Hok.
  rewrite (proj2 (parse_utf8_iff _ u (concat (map utf8 us)) Hb)) in Hok by done.
  cbn [parse_result] in Hok. rewrite Hok. rewrite IH by (cbn in Hf; lia). done.
Qed.

(** A string of valid code points written with [cbb_add_utf8] is read back by
    [cbs_get_utf8]. *)
Theorem utf8_roundtrip `{CEnv} `{!AllocOk} us c0 w :
  code_points us -> Z.of_nat (length us) < 2 ^ 32 ->
  exists l c', build 0 (add_utf8_string 0 us) c0 w = Ok l c' w /\
               get_utf8_string (S (length us)) l w = Ok us [] w.
Proof.
  intros Hus Hl.
  assert (Hlen : CBS_len (concat (map utf8 us)) <= 4 * Z.of_nat (length us)).
  { clear Hl. induction Hus as [|u us _ Hus IH]; [done|]. cbn [map concat length]. rewrite CBS_len_app.
    pose proof (utf8_length u). lia. }
  destruct (build_resize 0 _ _ c0 w ltac:(lia) (builds_utf8_string false size_limit 0 us Hus)) as (c' & E & _);
    [lia|].
  eexists _, c'. split; [exact E|]. apply get_utf8_string_ok; [done|lia].
Qed.

#[local] Existing Instances granting granting_ok.

Lemma utf8_roundtrip_witness :
  exists l c', build 0 (add_utf8_string 0 [0x24; 0xa2; 0x20ac; 0x10348]) CBB_zero (World ∅ ∅ 0)
               = Ok l c' (World ∅ ∅ 0) /\
               get_utf8_string 5 l (World ∅ ∅ 0) = Ok [0x24; 0xa2; 0x20ac; 0x10348] [] (World ∅ ∅ 0).
Proof. apply (utf8_roundtrip [0x24; 0xa2; 0x20ac; 0x10348]); [repeat constructor; lia|reflexivity]. Defined.
