(* ===== verification/Heap.v ===== *)
(** libuv's binary heap, src/heap-inl.h.

    The nodes are structs in memory, linked by pointers; [nodes] maps the address of
    each node the program has to its three pointers, so that an access through NULL
    or a dangling pointer is undefined behaviour.  The places the code takes the
    address of (those of [heap->min] and of the child pointers of a node) are a type of
    their own. *)
From stdpp Require Import base gmap list numbers.
From Stdlib Require Import ZArith Lia.
From S2P Require Import Prelude Cmem.

Record heap_node := mk_node {
  left : Z;
  right : Z;
  parent : Z;
}.

Record heap := mk_heap {
  nodes : gmap Z heap_node;
  min : Z;
  nelts : Z;
}.

Definition set_nodes (m : gmap Z heap_node) (h : heap) : heap := mk_heap m (min h) (nelts h).
Definition set_min (p : Z) (h : heap) : heap := mk_heap (nodes h) p (nelts h).
Definition set_nelts (n : Z) (h : heap) : heap := mk_heap (nodes h) (min h) n.

(** [*p], [p->f = v] *)
Definition load_node (p : Z) : SM heap heap_node := fun h w =>
  match nodes h !! p with
  | Some n => Ok n h w
  | None => UB
  end.

Definition update_node (p : Z) (f : heap_node -> heap_node) : SM heap unit := fun h w =>
  match nodes h !! p with
  | Some n => Ok tt (set_nodes (<[p := f n]> (nodes h)) h) w
  | None => UB
  end.

Definition set_left (q : Z) (n : heap_node) : heap_node := mk_node q (right n) (parent n).
Definition set_right (q : Z) (n : heap_node) : heap_node := mk_node (left n) q (parent n).
Definition set_parent (q : Z) (n : heap_node) : heap_node := mk_node (left n) (right n) q.

(** [if (p != NULL) p->parent = q;] *)
Definition set_parent_of (p q : Z) : SM heap unit :=
  if negb (p =? NULL) then update_node p (set_parent q) else ret tt.

(** A [struct heap_node **] *)
Inductive loc :=
| at_min
| at_left (p : Z)
| at_right (p : Z).

Definition read_loc (l : loc) : SM heap Z :=
  match l with
  | at_min => let* h := get in ret (min h)
  | at_left p => let* n := load_node p in ret (left n)
  | at_right p => let* n := load_node p in ret (right n)
  end.

Definition write_loc (l : loc) (q : Z) : SM heap unit :=
  match l with
  | at_min => modify (set_min q)
  | at_left p => update_node p (set_left q)
  | at_right p => update_node p (set_right q)
  end.

Definition heap_init : SM heap unit := modify (fun h => mk_heap (nodes h) NULL 0).

Definition heap_min : SM heap Z := let* h := get in ret (min h).

Definition heap_node_swap (parent_ child : Z) : SM heap unit :=
  let* t := load_node parent_ in
  let* c := load_node child in
  update_node parent_ (fun _ => c);;
  update_node child (fun _ => t);;
  update_node parent_ (set_parent child);;
  let* n := load_node child in
  let* sibling :=
    if left n =? child then update_node child (set_left parent_);; ret (right n)
    else update_node child (set_right parent_);; ret (left n) in
  set_parent_of sibling child;;
  let* p := load_node parent_ in
  set_parent_of (left p) parent_;;
  let* p := load_node parent_ in
  set_parent_of (right p) parent_;;
  let* n := load_node child in
  if parent n =? NULL then modify (set_min child)
  else
    let* g := load_node (parent n) in
    if left g =? parent_ then update_node (parent n) (set_left child)
    else update_node (parent n) (set_right child).

(** [for (k = 0, n = ...; n >= 2; k += 1, n /= 2) path = (path << 1) | (n & 1);] on
    32-bit words: at most 31 rounds. *)
Fixpoint compute_path (fuel : nat) (path k n : Z) : option (Z * Z) :=
  match fuel with
  | O => None
  | S fuel =>
      if 2 <=? n
      then compute_path fuel (Z.lor (u32 (Z.shiftl path 1)) (Z.land n 1)) (k + 1) (n / 2)
      else Some (path, k)
  end.

Definition heap_path (n : Z) : SM heap (Z * Z) :=
  match compute_path 32 0 0 n with
  | Some p => ret p
  | None => nofuel
  end.

(** The step to the place of the left or right child of the node at a place. *)
Definition child_loc (child : loc) (bit : bool) : SM heap loc :=
  let* p := read_loc child in
  let* _ := load_node p in
  ret (if bit then at_right p else at_left p).

(** [while (k > 0)]: the last two places. *)
Fixpoint walk (k : nat) (path : Z) (parent_ child : loc) : SM heap (loc * loc) :=
  match k with
  | O => ret (parent_, child)
  | S k =>
      let* next := child_loc child (negb (Z.land path 1 =? 0)) in
      walk k (Z.shiftr path 1) child next
  end.

(** [heap_insert] up to its last loop: the new node at the left-most free place of the
    bottom row. *)
Definition insert_place (newnode : Z) : SM heap unit :=
  update_node newnode (fun _ => mk_node NULL NULL NULL);;
  let* h := get in
  let* (path, k) := heap_path (u32 (1 + nelts h)) in
  let* (parent_, child) := walk (Z.to_nat k) path at_min at_min in
  let* p := read_loc parent_ in
  update_node newnode (set_parent p);;
  write_loc child newnode;;
  modify (fun h => set_nelts (u32 (nelts h + 1)) h).

(** [heap_remove] up to the test of the unlinked node: the node at the last place. *)
Definition unlink_max : SM heap Z :=
  let* h := get in
  let* (path, k) := heap_path (nelts h) in
  let* (_, max) := walk (Z.to_nat k) path at_min at_min in
  modify (fun h => set_nelts (u32 (nelts h - 1)) h);;
  let* child := read_loc max in
  write_loc max NULL;;
  ret child.

(** [heap_remove]: the unlinked node in the place of the node to be deleted. *)
Definition replace_node (node child : Z) : SM heap unit :=
  let* n := load_node node in
  update_node child (fun _ => n);;
  set_parent_of (left n) child;;
  set_parent_of (right n) child;;
  if parent n =? NULL then modify (set_min child)
  else
    let* g := load_node (parent n) in
    if left g =? node then update_node (parent n) (set_left child)
    else update_node (parent n) (set_right child).

Section order.
Context (less_than : Z -> Z -> bool).

(** A round of [while (node->parent != NULL && less_than(node, node->parent))]. *)
Definition up_step (node : Z) : SM heap (unit + unit) :=
  let* n := load_node node in
  if negb (parent n =? NULL) && less_than node (parent n)
  then heap_node_swap (parent n) node;; ret (inl tt)
  else ret (inr tt).

Definition walk_up (node : Z) : SM heap unit := loop 33 (fun _ => up_step node) tt.

Definition heap_insert (newnode : Z) : SM heap unit := insert_place newnode;; walk_up newnode.

(** The smallest of a node and its children. *)
Definition smallest_of (child : Z) : SM heap Z :=
  let* n := load_node child in
  let smallest := child in
  let smallest := if negb (left n =? NULL) && less_than (left n) smallest then left n else smallest in
  let smallest := if negb (right n =? NULL) && less_than (right n) smallest then right n else smallest in
  ret smallest.

Definition down_step (child : Z) : SM heap (unit + unit) :=
  let* smallest := smallest_of child in
  if smallest =? child then ret (inr tt)
  else heap_node_swap child smallest;; ret (inl tt).

Definition walk_down (child : Z) : SM heap unit := loop 33 (fun _ => down_step child) tt.

Definition heap_remove (node : Z) : SM heap unit :=
  let* h := get in
  if nelts h =? 0 then ret tt
  else
    let* child := unlink_max in
    if child =? node then
      let* h := get in
      if child =? min h then modify (set_min NULL) else ret tt
    else
      replace_node node child;;
      walk_down child;;
      walk_up child.

Definition heap_dequeue : SM heap unit :=
  let* h := get in heap_remove (min h).

End order.
