(* ===== verification/HeapThms.v ===== *)
(** The pointer heap of [Heap] as an array: node [i] has its children at [2i] and
    [2i+1] and its parent at [i/2].  [A i] is the node at place [i], NULL outside
    [1..n]. *)
From stdpp Require Import base gmap list numbers sets.
From Stdlib Require Import ZArith Lia Sorted.
From S2P Require Import Prelude Cmem Heap.

Definition in_range (n i : Z) : Prop := 1 <= i <= n.

(** The nodes of a heap of [n] places. *)
Record places (A : Z -> Z) (n : Z) : Prop := {
  p_in i : in_range n i -> A i <> NULL;
  p_out i : ~ in_range n i -> A i = NULL;
  p_inj i j : in_range n i -> A i = A j -> i = j;
}.

(** The node structs, by place. *)
Definition tab (A : Z -> Z) (n : Z) (T : Z -> heap_node) (h : heap) : Prop :=
  nodes h !! NULL = None /\ forall i, in_range n i -> nodes h !! A i = Some (T i).

(** What an array heap's structs look like. *)
Definition links (A : Z -> Z) (i : Z) : heap_node := mk_node (A (2 * i)) (A (2 * i + 1)) (A (i / 2)).

Record rep (A : Z -> Z) (n : Z) (h : heap) : Prop := {
  r_places : places A n;
  r_min : min h = A 1;
  r_nelts : nelts h = n;
  r_tab : tab A n (links A) h;
}.

(** The structs an operation does not own stay as they are. *)
Definition frame (A : Z -> Z) (n : Z) (h h' : heap) : Prop :=
  dom (nodes h') = dom (nodes h) /\
  forall q, (forall i, in_range n i -> A i <> q) -> nodes h' !! q = nodes h !! q.

Lemma frame_refl A n h : frame A n h h.
Proof. done. Qed.

Lemma frame_trans A n h1 h2 h3 : frame A n h1 h2 -> frame A n h2 h3 -> frame A n h1 h3.
Proof. intros [D1 F1] [D2 F2]. split; [congruence|]. intros q Hq. rewrite F2, F1; done. Qed.

(** * Updates by place *)

Definition upd (i : Z) (f : heap_node -> heap_node) (T : Z -> heap_node) : Z -> heap_node :=
  fun j => if j =? i then f (T j) else T j.

(** The same heap but for the structs of its nodes. *)
Definition like (A : Z -> Z) (n : Z) (T' : Z -> heap_node) (h h' : heap) : Prop :=
  tab A n T' h' /\ min h' = min h /\ nelts h' = nelts h /\ frame A n h h'.

Section updates.
Context (A : Z -> Z) (n : Z) (HA : places A n).

Lemma same_place i j : in_range n i -> (A j =? A i) = (j =? i).
Proof.
  intros Hi. destruct (Z.eqb_spec j i) as [-> |Hne]; [by apply Z.eqb_refl|].
  apply Z.eqb_neq. intros E. apply Hne. symmetry. by apply (p_inj A n HA).
Qed.

Lemma null_place j : (A j =? NULL) = negb ((1 <=? j) && (j <=? n)).
Proof.
  destruct ((1 <=? j) && (j <=? n)) eqn:E; cbn [negb].
  - to_prop. apply Z.eqb_neq. apply (p_in A n HA). split; lia.
  - apply Z.eqb_eq, (p_out A n HA). unfold in_range. apply andb_false_iff in E as [E|E]; to_prop; lia.
Qed.

Lemma load_ok T h w i : tab A n T h -> in_range n i -> load_node (A i) h w = Ok (T i) h w.
Proof. intros [_ HT] Hi. unfold load_node. by rewrite HT. Qed.

Lemma update_ok T h w i f :
  tab A n T h -> in_range n i ->
  exists h', update_node (A i) f h w = Ok tt h' w /\ like A n (upd i f T) h h'.
Proof.
  intros [H0 HT] Hi. unfold update_node. rewrite HT by done. eexists. split; [done|].
  split; [|split; [done|split; [done|]]].
  - split; cbn.
    + rewrite lookup_insert_ne; [done|]. by apply (p_in A n HA).
    + intros j Hj. unfold upd. destruct (Z.eqb_spec j i) as [-> |Hne]; [by rewrite lookup_insert_eq|].
      rewrite lookup_insert_ne; [by apply HT|]. intros E. apply Hne. symmetry. by apply (p_inj A n HA).
  - split; cbn.
    + rewrite dom_insert_L. assert (A i ∈ dom (nodes h)) by (apply elem_of_dom; by eexists; apply HT). set_solver.
    + intros q Hq. rewrite lookup_insert_ne; [done|]. by apply Hq.
Qed.

(** Out of range nothing changes, in the table either. *)
Lemma parent_of_ok T h w i q :
  tab A n T h ->
  exists h', set_parent_of (A i) q h w = Ok tt h' w /\ like A n (upd i (set_parent q) T) h h'.
Proof.
  intros HT. unfold set_parent_of. rewrite null_place. destruct ((1 <=? i) && (i <=? n)) eqn:E; cbn [negb].
  - to_prop. apply update_ok; [done|split; lia].
  - exists h. split; [done|]. split; [|done]. destruct HT as [H0 HT]. split; [done|].
    intros j Hj. rewrite HT by done. unfold upd. destruct (Z.eqb_spec j i) as [-> |]; [|done].
    unfold in_range in Hj. apply andb_false_iff in E as [E|E]; to_prop; lia.
Qed.

Lemma like_trans T1 T2 h1 h2 h3 : like A n T1 h1 h2 -> like A n T2 h2 h3 -> like A n T2 h1 h3.
Proof.
  intros (_ & M1 & N1 & F1) (HT & M2 & N2 & F2). split; [done|]. split; [congruence|].
  split; [congruence|]. by eapply frame_trans.
Qed.

Lemma like_tab T h h' : like A n T h h' -> tab A n T h'.
Proof. by intros []. Qed.

End updates.

(** * Swapping a node with its parent *)

Definition swap (A : Z -> Z) (p c : Z) : Z -> Z :=
  fun i => if i =? p then A c else if i =? c then A p else A i.

Definition swap_index (p c i : Z) : Z := if i =? p then c else if i =? c then p else i.

Lemma swap_at A p c i : swap A p c i = A (swap_index p c i).
Proof. unfold swap, swap_index. by repeat case_match. Qed.

Lemma swap_index_inv p c i : swap_index p c (swap_index p c i) = i.
Proof. unfold swap_index. repeat (case_match; to_prop; try lia). Qed.

Lemma swap_index_range n p c i :
  in_range n p -> in_range n c -> in_range n (swap_index p c i) <-> in_range n i.
Proof. unfold swap_index, in_range. intros. repeat case_match; to_prop; lia. Qed.

Lemma swap_places A n p c : places A n -> in_range n p -> in_range n c -> places (swap A p c) n.
Proof.
  intros HA Hp Hc. split; intros i *; rewrite !swap_at.
  - intros Hi. apply (p_in A n HA). by apply swap_index_range.
  - intros Hi. apply (p_out A n HA). by rewrite swap_index_range.
  - intros Hi E. apply (p_inj A n HA) in E; [|by apply swap_index_range].
    rewrite <- (swap_index_inv p c i), E. apply swap_index_inv.
Qed.

(** The structs after the stores of [heap_node_swap], in the order of the stores. *)
Definition swapped (A : Z -> Z) (p c : Z) : Z -> heap_node :=
  let s := if 2 * p =? c then c + 1 else c - 1 in
  let link := if 2 * (p / 2) =? p then set_left else set_right in
  upd (p / 2) (link (A c)) (upd (2 * c + 1) (set_parent (A p)) (upd (2 * c) (set_parent (A p))
    (upd s (set_parent (A c)) (upd c ((if 2 * p =? c then set_left else set_right) (A p))
      (upd p (set_parent (A c)) (upd c (fun _ => links A p) (upd p (fun _ => links A c) (links A)))))))).

(** Two structs with the same places in them. *)
Ltac same_node :=
  unfold links; cbn [left right parent];
  repeat match goal with |- mk_node _ _ _ = mk_node _ _ _ => f_equal end;
  match goal with |- ?A _ = ?A _ => f_equal end; unfold swap_index; bool_cases; lia.

Ltac idx := unfold upd, set_left, set_right, set_parent;
  repeat (match goal with |- context [?a =? ?b] => destruct (Z.eqb_spec a b) end; try lia).

Lemma swapped_links A n p c i :
  p = c / 2 -> 2 <= c <= n -> in_range n i -> swapped A p c i = links (swap A p c) (swap_index p c i).
Proof.
  intros Ep Hc Hi. unfold links at 1. rewrite !swap_at. unfold in_range in *.
  assert (Hp : 2 * p <= c <= 2 * p + 1 /\ 1 <= p) by zdiv_lia.
  assert (Hg : 2 * (p / 2) <= p <= 2 * (p / 2) + 1) by zdiv_lia.
  assert (Hi2 : 2 * (i / 2) <= i <= 2 * (i / 2) + 1) by zdiv_lia.
  unfold swapped. set (s := if 2 * p =? c then c + 1 else c - 1).
  assert (Hs : 2 * p = c /\ s = c + 1 \/ 2 * p + 1 = c /\ s = c - 1) by (unfold s; bool_cases; lia).
  clearbody s. destruct (Z.eq_dec i p) as [->|Ei]; [|destruct (Z.eq_dec i c) as [->|Ei']].
  - assert (Hk : swap_index p c p = c) by (unfold swap_index; bool_cases; lia). rewrite Hk, <- Ep.
    idx; same_node.
  - assert (Hk : swap_index p c c = p) by (unfold swap_index; bool_cases; lia). rewrite Hk.
    idx; same_node.
  - assert (Hk : swap_index p c i = i) by (unfold swap_index; bool_cases; lia). rewrite Hk.
    idx; same_node.
Qed.

(** The next store of a body, by place. *)
Ltac store_step HA L := 
  match type of L with
  | tab ?A ?n ?T ?h =>
      match goal with
      | |- context [update_node (A ?i) ?f h ?w] =>
          destruct (update_ok A n HA T h w i f L ltac:(unfold in_range in *; lia)) as (?h & ?E & ?K);
          rewrite E; clear E
      | |- context [set_parent_of (A ?i) ?q h ?w] =>
          destruct (parent_of_ok A n HA T h w i q L) as (?h & ?E & ?K); rewrite E; clear E
      end
  end.

(** The first half of [heap_node_swap]: the two structs and the link from the new
    parent to the sibling. *)
Definition swap_top (parent_ child : Z) : SM heap unit :=
  let* t := load_node parent_ in
  let* c := load_node child in
  update_node parent_ (fun _ => c);;
  update_node child (fun _ => t);;
  update_node parent_ (set_parent child);;
  let* n := load_node child in
  let* sibling :=
    if left n =? child then update_node child (set_left parent_);; ret (right n)
    else update_node child (set_right parent_);; ret (left n) in
  set_parent_of sibling child.

(** The links from the children and the parent. *)
Definition swap_rest (parent_ child : Z) : SM heap unit :=
  let* p := load_node parent_ in
  set_parent_of (left p) parent_;;
  let* p := load_node parent_ in
  set_parent_of (right p) parent_;;
  let* n := load_node child in
  if parent n =? NULL then modify (set_min child)
  else
    let* g := load_node (parent n) in
    if left g =? parent_ then update_node (parent n) (set_left child)
    else update_node (parent n) (set_right child).

Lemma swap_split p c h w : heap_node_swap p c h w = (swap_top p c;; swap_rest p c) h w.
Proof.
  unfold heap_node_swap, swap_top, swap_rest, bind.
  repeat (match goal with |- context [match ?x with Ok _ _ _ => _ | Err _ _ => _ | UB => _ | NoFuel => _ end] =>
            destruct x; try done end).
Qed.

Section swap.
Context (A : Z -> Z) (n : Z) (HA : places A n).
Context (p c : Z) (Hp : p = c / 2) (Hc : 2 <= c <= n).

Definition top_table : Z -> heap_node :=
  upd (if 2 * p =? c then c + 1 else c - 1) (set_parent (A c))
    (upd c ((if 2 * p =? c then set_left else set_right) (A p))
      (upd p (set_parent (A c)) (upd c (fun _ => links A p) (upd p (fun _ => links A c) (links A))))).

Lemma swap_top_ok h w :
  tab A n (links A) h ->
  exists h', swap_top (A p) (A c) h w = Ok tt h' w /\ like A n top_table h h'.
Proof.
  intros HT. assert (Hpr : 2 * p <= c <= 2 * p + 1 /\ 1 <= p) by zdiv_lia.
  assert (Hip : in_range n p) by (unfold in_range; lia). assert (Hic : in_range n c) by (unfold in_range; lia).
  unfold swap_top. cbn [bind].
  rewrite (load_ok A n _ h w p HT Hip), (load_ok A n _ h w c HT Hic). cbn [bind].
  store_step HA HT. pose proof (like_tab _ _ _ _ _ K) as HT1. cbn [bind].
  store_step HA HT1. pose proof (like_tab _ _ _ _ _ K0) as HT2. cbn [bind].
  store_step HA HT2. pose proof (like_tab _ _ _ _ _ K1) as HT3. cbn [bind].
  rewrite (load_ok A n _ _ w c HT3 Hic). cbn [bind].
  set (T3 := upd p (set_parent (A c)) (upd c (fun _ => links A p) (upd p (fun _ => links A c) (links A)))) in *.
  assert (Et : T3 c = links A p).
  { unfold T3. idx. done. }
  rewrite Et. unfold links at 1. cbn [left]. rewrite (same_place A n HA) by done.
  pose proof (like_trans _ _ _ _ _ _ _ K (like_trans _ _ _ _ _ _ _ K0 K1)) as K3.
  unfold top_table. fold T3. destruct (2 * p =? c) eqn:Eb; to_prop; cbn [bind].
  - store_step HA HT3. pose proof (like_tab _ _ _ _ _ K2) as HT4. cbn [bind ret links right].
    store_step HA HT4. replace (2 * p + 1) with (c + 1) in * by lia. eexists. split; [done|].
    exact (like_trans _ _ _ _ _ _ _ K3 (like_trans _ _ _ _ _ _ _ K2 K4)).
  - store_step HA HT3. pose proof (like_tab _ _ _ _ _ K2) as HT4. cbn [bind ret links left].
    store_step HA HT4. replace (2 * p) with (c - 1) in * by lia. eexists. split; [done|].
    exact (like_trans _ _ _ _ _ _ _ K3 (like_trans _ _ _ _ _ _ _ K2 K4)).
Qed.

Lemma top_at_p : top_table p = mk_node (A (2 * c)) (A (2 * c + 1)) (A c).
Proof.
  assert (Hpr : 2 * p <= c <= 2 * p + 1 /\ 1 <= p) by zdiv_lia.
  unfold top_table. destruct (Z.eqb_spec (2 * p) c); idx; done.
Qed.

Lemma top_at_c : parent (top_table c) = A (p / 2).
Proof.
  assert (Hpr : 2 * p <= c <= 2 * p + 1 /\ 1 <= p) by zdiv_lia.
  unfold top_table. destruct (Z.eqb_spec (2 * p) c); idx; done.
Qed.

Lemma top_at_g i : i < p -> top_table i = links A i.
Proof.
  intros Hi. assert (Hpr : 2 * p <= c <= 2 * p + 1 /\ 1 <= p) by zdiv_lia.
  unfold top_table. destruct (Z.eqb_spec (2 * p) c); idx; done.
Qed.

Definition rest_table : Z -> heap_node :=
  upd (2 * c + 1) (set_parent (A p)) (upd (2 * c) (set_parent (A p)) top_table).

Lemma rest_at i : i < 2 * c -> rest_table i = top_table i.
Proof. intros Hi. unfold rest_table. idx. done. Qed.

Lemma swap_rest_ok h w :
  tab A n top_table h -> min h = A 1 ->
  exists h', swap_rest (A p) (A c) h w = Ok tt h' w /\ tab A n (swapped A p c) h' /\
             min h' = swap A p c 1 /\ nelts h' = nelts h /\ frame A n h h'.
Proof.
  intros HT Hm. assert (Hpr : 2 * p <= c <= 2 * p + 1 /\ 1 <= p) by zdiv_lia.
  assert (Hg : 2 * (p / 2) <= p <= 2 * (p / 2) + 1) by zdiv_lia.
  assert (Hip : in_range n p) by (unfold in_range; lia). assert (Hic : in_range n c) by (unfold in_range; lia).
  unfold swap_rest. cbn [bind].
  rewrite (load_ok A n _ h w p HT Hip). cbn [bind]. rewrite top_at_p. cbn [left].
  store_step HA HT. pose proof (like_tab _ _ _ _ _ K) as HT1. cbn [bind].
  rewrite (load_ok A n _ _ w p HT1 Hip). cbn [bind].
  assert (E1 : upd (2 * c) (set_parent (A p)) top_table p = top_table p) by (unfold upd at 1; bool_cases; lia || done).
  rewrite E1, top_at_p. cbn [right].
  store_step HA HT1. pose proof (like_tab _ _ _ _ _ K0) as HT2. cbn [bind]. fold rest_table in *.
  rewrite (load_ok A n _ _ w c HT2 Hic). cbn [bind]. rewrite rest_at, top_at_c by lia.
  pose proof (like_trans _ _ _ _ _ _ _ K K0) as (_ & M2 & N2 & F2).
  rewrite (null_place A n HA). unfold swapped. fold top_table rest_table.
  destruct ((1 <=? p / 2) && (p / 2 <=? n)) eqn:Eb; cbn [negb].
  - to_prop. assert (Hig : in_range n (p / 2)) by (split; lia).
    cbn [bind]. rewrite (load_ok A n _ _ w _ HT2 Hig). cbn [bind]. rewrite rest_at, top_at_g by lia.
    unfold links at 1. cbn [left]. rewrite (same_place A n HA) by done.
    assert (Em : min h1 = swap A p c 1) by (rewrite M2, Hm; unfold swap; bool_cases; lia || done).
    destruct (2 * (p / 2) =? p); (store_step HA HT2); destruct K1 as (HT3 & M3 & N3 & F3);
      eexists; (split; [done|]); (split; [done|split; [congruence|split; [congruence|by eapply frame_trans]]]).
  - assert (Ep1 : p = 1) by (apply andb_false_iff in Eb as [Eb|Eb]; to_prop; zdiv_lia).
    cbn [modify]. eexists. split; [done|]. destruct HT2 as [H0 HT2]. split; [split; [done|]|].
    + intros i Hi. cbn [nodes set_min]. rewrite HT2 by done. unfold upd at 1.
      unfold in_range in Hi. rewrite Ep1. destruct (Z.eqb_spec i (1 / 2)) as [E|]; [|done].
      change (1 / 2) with 0 in E. lia.
    + split; [unfold swap; by rewrite Ep1|]. split; [done|]. exact F2.
Qed.

Lemma heap_node_swap_ok h w :
  rep A n h ->
  exists h', heap_node_swap (A p) (A c) h w = Ok tt h' w /\ rep (swap A p c) n h' /\ frame A n h h'.
Proof.
  intros [_ Hm Hn HT]. rewrite swap_split. cbn [bind].
  destruct (swap_top_ok h w HT) as (h1 & -> & (HT1 & M1 & N1 & F1)).
  destruct (swap_rest_ok h1 w HT1 ltac:(congruence)) as (h2 & -> & [H0 HT2] & M2 & N2 & F2).
  assert (Hpr : in_range n p /\ in_range n c) by (unfold in_range; zdiv_lia).
  exists h2. split; [done|]. split; [|by eapply frame_trans]. split.
  - apply swap_places; tauto.
  - done.
  - congruence.
  - split; [done|]. intros i Hi. rewrite swap_at.
    assert (Hk : in_range n (swap_index p c i)) by (apply swap_index_range; tauto).
    rewrite HT2 by done. f_equal. rewrite (swapped_links A n p c _ Hp Hc Hk). by rewrite swap_index_inv.
Qed.

End swap.

(** * Heap order: walking a node up or down the array heap restores it. *)

(** What the callers' comparison promises: a strict order whose complement is
    transitive. *)
Class WeakOrder (less_than : Z -> Z -> bool) := {
  lt_asym x y : less_than x y = true -> less_than y x = false;
  ge_trans x y z : less_than y x = false -> less_than z y = false -> less_than z x = false;
}.

(** The nodes at the places. *)
Definition mem (A : Z -> Z) (n : Z) (x : Z) : Prop := exists i, in_range n i /\ A i = x.

Definition same_mem (A A' : Z -> Z) (n : Z) : Prop := forall x, mem A n x <-> mem A' n x.

Lemma frame_mem A A' n h h' : same_mem A A' n -> frame A' n h h' -> frame A n h h'.
Proof.
  intros Hm [D F]. split; [done|]. intros q Hq. apply F. intros i Hi E.
  destruct (proj2 (Hm q)) as (j & Hj & Ej); [by exists i|]. by apply (Hq j).
Qed.

Lemma swap_mem A n p c : in_range n p -> in_range n c -> same_mem A (swap A p c) n.
Proof.
  intros Hp Hc x. split; intros (i & Hi & E).
  - exists (swap_index p c i). split; [by apply swap_index_range|]. by rewrite swap_at, swap_index_inv.
  - exists (swap_index p c i). split; [by apply swap_index_range|]. by rewrite <- swap_at.
Qed.

Section order.
Context (less_than : Z -> Z -> bool) `{!WeakOrder less_than}.

Definition le (x y : Z) : Prop := less_than y x = false.

Lemma le_trans x y z : le x y -> le y z -> le x z.
Proof. apply ge_trans. Qed.

Lemma lt_le x y : less_than x y = true -> le x y.
Proof. apply lt_asym. Qed.

Definition ordered (A : Z -> Z) (n : Z) : Prop := forall i, 2 <= i <= n -> le (A (i / 2)) (A i).

(** The children of place [i] are above its parent. *)
Definition above_parent (A : Z -> Z) (n i : Z) : Prop :=
  2 <= i -> forall j, 2 <= j <= n -> j / 2 = i -> le (A (i / 2)) (A j).

(** Ordered, but for place [i] and its parent. *)
Definition up_ok (A : Z -> Z) (n i : Z) : Prop :=
  (forall j, 2 <= j <= n -> j <> i -> le (A (j / 2)) (A j)) /\ above_parent A n i.

(** Ordered, but for place [i], its parent and its children. *)
Definition down_ok (A : Z -> Z) (n i : Z) : Prop :=
  (forall j, 2 <= j <= n -> j <> i -> j / 2 <> i -> le (A (j / 2)) (A j)) /\ above_parent A n i.

Lemma up_done A n i : up_ok A n i -> (2 <= i -> le (A (i / 2)) (A i)) -> ordered A n.
Proof. intros [Ho _] Hi j Hj. destruct (Z.eq_dec j i) as [-> |]; [apply Hi; lia|by apply Ho]. Qed.

Lemma swap_parent A p c : swap A p c p = A c.
Proof. unfold swap. by rewrite Z.eqb_refl. Qed.

Lemma swap_child A p c : p <> c -> swap A p c c = A p.
Proof. intros H. unfold swap. rewrite Z.eqb_refl. destruct (Z.eqb_spec c p); [lia|done]. Qed.

Lemma swap_other A p c i : i <> p -> i <> c -> swap A p c i = A i.
Proof. intros. unfold swap. bool_cases; lia || done. Qed.

Lemma up_swap A n c :
  2 <= c <= n -> up_ok A n c -> less_than (A c) (A (c / 2)) = true -> up_ok (swap A (c / 2) c) n (c / 2).
Proof.
  intros Hc [Ho Hb] Hlt. set (p := c / 2) in *. assert (Hp : 2 * p <= c <= 2 * p + 1) by (unfold p; zdiv_lia).
  assert (Hpc : p <> c) by lia. split.
  - intros j Hj Hne. assert (Hj2 : 2 * (j / 2) <= j <= 2 * (j / 2) + 1) by zdiv_lia.
    destruct (Z.eq_dec j c) as [-> |Hjc].
    { fold p. rewrite swap_parent, swap_child by done. by apply lt_le. }
    rewrite (swap_other _ _ _ j) by done. destruct (Z.eq_dec (j / 2) p) as [Ej|Ej].
    + rewrite Ej, swap_parent. eapply le_trans; [by apply lt_le|]. rewrite <- Ej. by apply Ho.
    + destruct (Z.eq_dec (j / 2) c) as [Ec|Ec].
      * rewrite Ec, swap_child by done. apply Hb; [lia|done|done].
      * rewrite swap_other by done. by apply Ho.
  - intros Hp2 j Hj Ej. assert (Hpp : 2 * (p / 2) <= p <= 2 * (p / 2) + 1) by zdiv_lia.
    rewrite (swap_other _ _ _ (p / 2)) by lia.
    assert (Hpo : le (A (p / 2)) (A p)) by (apply Ho; lia).
    destruct (Z.eq_dec j c) as [-> |Hjc]; [by rewrite swap_child|].
    rewrite swap_other by zdiv_lia. eapply le_trans; [exact Hpo|]. rewrite <- Ej. by apply Ho.
Qed.

(** Moving a node below its smallest child. *)
Lemma down_swap A n i c :
  2 <= c <= n -> c / 2 = i -> down_ok A n i -> less_than (A c) (A i) = true ->
  (forall j, 2 <= j <= n -> j / 2 = i -> le (A c) (A j)) ->
  down_ok (swap A i c) n c /\ le (swap A i c (c / 2)) (swap A i c c).
Proof.
  intros Hc Ei [Ho Hb] Hlt Hmin. assert (Hi : 2 * i <= c <= 2 * i + 1) by zdiv_lia.
  assert (Hic : i <> c) by lia. split; [split|].
  - intros j Hj Hne Hjc. assert (Hj2 : 2 * (j / 2) <= j <= 2 * (j / 2) + 1) by zdiv_lia.
    destruct (Z.eq_dec j i) as [-> |Hji].
    { rewrite swap_parent, swap_other by lia. apply Hb; [lia|done|done]. }
    rewrite (swap_other _ _ _ j) by done. destruct (Z.eq_dec (j / 2) i) as [Ej|Ej].
    + rewrite Ej, swap_parent. by apply Hmin.
    + rewrite swap_other by done. by apply Ho.
  - intros _ j Hj Ej. rewrite Ei, swap_parent. rewrite swap_other by zdiv_lia.
    rewrite <- Ej. apply Ho; [done|zdiv_lia|zdiv_lia].
  - rewrite Ei, swap_parent, swap_child by done. by apply lt_le.
Qed.

Lemma down_done A n i :
  down_ok A n i -> (forall j, 2 <= j <= n -> j / 2 = i -> le (A i) (A j)) -> up_ok A n i.
Proof.
  intros [Ho Hb] Hc. split; [|done]. intros j Hj Hne.
  destruct (Z.eq_dec (j / 2) i) as [<-|]; [by apply Hc|by apply Ho].
Qed.

(** The root of an ordered heap is its minimum. *)
Lemma root_least A n x : ordered A n -> mem A n x -> le (A 1) x.
Proof.
  intros Ho (i & Hi & <-). unfold in_range in Hi.
  assert (Hs : forall k i, (Z.to_nat i <= k)%nat -> 1 <= i <= n -> le (A 1) (A i)).
  { induction k as [|k IH]; intros j Hk Hj; [lia|]. destruct (Z.eq_dec j 1) as [-> |].
    - unfold le. destruct (less_than (A 1) (A 1)) eqn:E; [|done]. by rewrite (lt_asym _ _ E) in E.
    - eapply le_trans; [apply (IH (j / 2)); zdiv_lia|]. apply Ho. lia. }
  by apply (Hs (Z.to_nat i)).
Qed.

(** * The loops *)

(** The outcome of an operation that only moves nodes. *)
Definition reordered (A : Z -> Z) (n : Z) (h : heap) (A' : Z -> Z) (h' : heap) : Prop :=
  rep A' n h' /\ same_mem A A' n /\ frame A n h h'.

Lemma reordered_trans A1 A2 A3 n h1 h2 h3 :
  reordered A1 n h1 A2 h2 -> reordered A2 n h2 A3 h3 -> reordered A1 n h1 A3 h3.
Proof.
  intros (R1 & M1 & F1) (R2 & M2 & F2). split; [done|]. split; [intros x; by rewrite (M1 x)|].
  eapply frame_trans; [exact F1|]. by eapply frame_mem.
Qed.

Lemma reordered_refl A n h : rep A n h -> reordered A n h A h.
Proof. intros R. split; [done|]. split; done. Qed.

Lemma swap_step A n h w c :
  rep A n h -> 2 <= c <= n ->
  exists h', heap_node_swap (A (c / 2)) (A c) h w = Ok tt h' w /\
             reordered A n h (swap A (c / 2) c) h'.
Proof.
  intros R Hc. destruct (heap_node_swap_ok A n (r_places _ _ _ R) (c / 2) c eq_refl Hc h w R) as (h' & E & R' & F).
  exists h'. split; [done|]. split; [done|]. split; [|done].
  apply swap_mem; unfold in_range; zdiv_lia.
Qed.

Lemma load_rep A n h w i : rep A n h -> in_range n i -> load_node (A i) h w = Ok (links A i) h w.
Proof. intros R Hi. by apply (load_ok A n), Hi; apply R. Qed.

Lemma walk_up_ok n fuel : forall A h w i,
  rep A n h -> in_range n i -> i < 2 ^ Z.of_nat fuel -> up_ok A n i ->
  exists A' h', loop fuel (fun _ => up_step less_than (A i)) tt h w = Ok tt h' w /\
                reordered A n h A' h' /\ ordered A' n.
Proof.
  induction fuel as [|fuel IH]; intros A h w i R Hi Hf Hup; [unfold in_range in Hi; cbn in Hf; lia|].
  cbn [loop bind]. unfold up_step at 1. cbn [bind]. rewrite (load_rep A n) by done.
  unfold links at 1 2 3. cbn [parent]. rewrite (null_place A n (r_places _ _ _ R)), negb_involutive.
  destruct (_ && less_than _ _) eqn:E.
  - apply andb_true_iff in E as [Er Hlt]. to_prop. unfold in_range in Hi.
    assert (Hc : 2 <= i <= n) by zdiv_lia. cbn [bind links parent].
    destruct (swap_step A n h w i R Hc) as (h1 & -> & Hre). cbn [bind ret].
    pose proof (up_swap A n i Hc Hup Hlt) as Hup'.
    destruct (IH (swap A (i / 2) i) h1 w (i / 2)) as (A' & h' & E' & Hre' & Ho).
    + apply Hre.
    + unfold in_range. zdiv_lia.
    + rewrite Nat2Z.inj_succ, Z.pow_succ_r in Hf by lia. apply Z.div_lt_upper_bound; lia.
    + done.
    + rewrite swap_parent in E'. exists A', h'. split; [done|]. split; [|done]. by eapply reordered_trans.
  - cbn [bind ret]. exists A, h. split; [done|]. split; [by apply reordered_refl|].
    apply (up_done _ _ _ Hup). intros Hi2. unfold le. apply andb_false_iff in E as [E|E]; [|done].
    unfold in_range in Hi. apply andb_false_iff in E as [E|E]; to_prop; zdiv_lia.
Qed.

(** What [smallest_of] picks. *)
Definition picks (A : Z -> Z) (n i k : Z) : Prop :=
  (k = i \/ (2 <= k <= n /\ k / 2 = i /\ less_than (A k) (A i) = true)) /\
  (forall j, 2 <= j <= n -> j / 2 = i -> le (A k) (A j)).

Lemma le_refl x : le x x.
Proof. unfold le. destruct (less_than x x) eqn:E; [|done]. by rewrite (lt_asym _ _ E) in E. Qed.

Lemma smallest_ok A n h w i :
  rep A n h -> in_range n i ->
  exists k, smallest_of less_than (A i) h w = Ok (A k) h w /\ picks A n i k.
Proof.
  intros R Hi. unfold smallest_of. cbn [bind]. rewrite (load_rep A n) by done. cbn [bind ret links left right].
  rewrite !(null_place A n (r_places _ _ _ R)), !negb_involutive. unfold in_range in Hi.
  assert (Hch : forall j, 2 <= j <= n -> j / 2 = i -> j = 2 * i \/ j = 2 * i + 1) by (intros; zdiv_lia).
  destruct ((1 <=? 2 * i) && (2 * i <=? n)) eqn:El; cbn [andb].
  - to_prop. destruct (less_than (A (2 * i)) (A i)) eqn:Ll.
    + destruct ((1 <=? 2 * i + 1) && (2 * i + 1 <=? n)) eqn:Er; cbn [andb];
        [to_prop; destruct (less_than (A (2 * i + 1)) (A (2 * i))) eqn:Lr|].
      * exists (2 * i + 1). split; [done|]. split.
        -- right. split; [lia|]. split; [zdiv_lia|].
           destruct (less_than (A (2 * i + 1)) (A i)) eqn:E; [done|].
           exfalso.
           pose proof (le_trans (A i) (A (2 * i + 1)) (A (2 * i)) E (lt_le _ _ Lr)) as Hc. unfold le in Hc. congruence.
        -- intros j Hj Ej. destruct (Hch j Hj Ej) as [-> | ->]; [by apply lt_le|apply le_refl].
      * exists (2 * i). split; [done|]. split; [right; split; [lia|split; [zdiv_lia|done]]|].
        intros j Hj Ej. destruct (Hch j Hj Ej) as [-> | ->]; [apply le_refl|done].
      * exists (2 * i). split; [done|]. split; [right; split; [lia|split; [zdiv_lia|done]]|].
        intros j Hj Ej. apply andb_false_iff in Er as [Er|Er]; to_prop;
          destruct (Hch j Hj Ej) as [-> | ->]; try lia; apply le_refl.
    + destruct ((1 <=? 2 * i + 1) && (2 * i + 1 <=? n)) eqn:Er; cbn [andb];
        [to_prop; destruct (less_than (A (2 * i + 1)) (A i)) eqn:Lr|].
      * exists (2 * i + 1). split; [done|]. split; [right; split; [lia|split; [zdiv_lia|done]]|].
        intros j Hj Ej. destruct (Hch j Hj Ej) as [-> | ->]; [|apply le_refl].
        eapply le_trans; [apply lt_le, Lr|done].
      * exists i. split; [done|]. split; [by left|].
        intros j Hj Ej. by destruct (Hch j Hj Ej) as [-> | ->].
      * exists i. split; [done|]. split; [by left|]. intros j Hj Ej.
        apply andb_false_iff in Er as [Er|Er]; to_prop;
          destruct (Hch j Hj Ej) as [-> | ->]; try lia; done.
  - assert (Hno : n < 2 * i) by (apply andb_false_iff in El as [E|E]; to_prop; lia).
    rewrite (proj2 (Z.leb_gt (2 * i + 1) n)), andb_false_r by lia. cbn [andb].
    exists i. split; [done|]. split; [by left|]. intros j Hj Ej. zdiv_lia.
Qed.

Lemma walk_down_ok n fuel : forall A h w i,
  rep A n h -> in_range n i -> n < i * 2 ^ Z.of_nat fuel -> down_ok A n i ->
  exists A' h' k, loop fuel (fun _ => down_step less_than (A i)) tt h w = Ok tt h' w /\
    reordered A n h A' h' /\ in_range n k /\ A' k = A i /\ up_ok A' n k.
Proof.
  induction fuel as [|fuel IH]; intros A h w i R Hi Hf Hd; [unfold in_range in Hi; cbn in Hf; lia|].
  cbn [loop bind]. unfold down_step at 1. cbn [bind].
  destruct (smallest_ok A n h w i R Hi) as (k & -> & [Hk Hmin]).
  rewrite (same_place A n (r_places _ _ _ R)) by done. destruct Hk as [-> | (Hk & Ek & Hlt)].
  - rewrite Z.eqb_refl. cbn [bind ret]. exists A, h, i. split; [done|]. split; [by apply reordered_refl|].
    split; [done|]. split; [done|]. by apply down_done.
  - destruct (Z.eqb_spec k i) as [->|Hne]; [unfold in_range in Hi; zdiv_lia|]. cbn [bind].
    destruct (swap_step A n h w k R Hk) as (h1 & E1 & Hre). rewrite Ek in E1, Hre. rewrite E1. cbn [bind ret].
    destruct (down_swap A n i k Hk Ek Hd Hlt Hmin) as [Hd' _].
    destruct (IH (swap A i k) h1 w k) as (A' & h' & k' & E' & Hre' & Hk' & EA & Hup).
    + apply Hre.
    + unfold in_range. lia.
    + rewrite Nat2Z.inj_succ, Z.pow_succ_r in Hf by lia. assert (2 * i <= k) by zdiv_lia.
      assert (0 < 2 ^ Z.of_nat fuel) by (apply Z.pow_pos_nonneg; lia). nia.
    + done.
    + rewrite swap_child in E', EA by done. exists A', h', k'. split; [done|].
      split; [by eapply reordered_trans|]. done.
Qed.

End order.

(** * Insertion and removal: the path computations reach the right place, the heap
    order holds afterwards, and the nodes are the old ones with one more or less. *)

(** * Paths *)

(** The place a path leads to from place [i]. *)
Fixpoint descend (k : nat) (i path : Z) : Z :=
  match k with
  | O => i
  | S k => descend k (2 * i + path mod 2) (path / 2)
  end.

Lemma compute_path_ok fuel : forall path k i,
  1 <= i < 2 ^ Z.of_nat fuel -> 0 <= k -> 0 <= path < 2 ^ k -> i * 2 ^ k < 2 ^ 32 ->
  exists path' k', compute_path fuel path k i = Some (path', k') /\
    descend (Z.to_nat k') 1 path' = descend (Z.to_nat k) i path /\ 0 <= k' /\ 0 <= path'.
Proof.
  induction fuel as [|fuel IH]; intros path k i Hi Hk Hp Hb; [cbn in Hi; lia|]. cbn [compute_path].
  rewrite Nat2Z.inj_succ, Z.pow_succ_r in Hi by lia.
  destruct (Z.leb_spec 2 i) as [H2|H2].
  - assert (Epk : 2 ^ (k + 1) = 2 * 2 ^ k) by (rewrite Z.add_1_r, Z.pow_succ_r by lia; done).
    assert (Hpath : Z.lor (u32 (Z.shiftl path 1)) (Z.land i 1) = 2 * path + i mod 2).
    { rewrite Z.shiftl_mul_pow2 by lia. change (2 ^ 1) with 2. rewrite u32_small by nia.
      change 1 with (Z.ones 1) at 1. rewrite Z.land_ones by lia. change (2 ^ 1) with 2.
      rewrite Z.lor_comm. change (path * 2) with (path * 2 ^ 1). rewrite lor_add_shifted by zdiv_lia. zdiv_lia. }
    rewrite Hpath. destruct (IH (2 * path + i mod 2) (k + 1) (i / 2)) as (path' & k' & E & Ed & Hk' & Hp').
    + zdiv_lia.
    + lia.
    + rewrite Epk. zdiv_lia.
    + rewrite Epk. assert (2 * (i / 2) <= i) by zdiv_lia. nia.
    + exists path', k'. split; [done|]. split; [|done]. rewrite Ed.
      replace (Z.to_nat (k + 1)) with (S (Z.to_nat k)) by lia. cbn [descend]. f_equal; zdiv_lia.
  - exists path, k. split; [done|]. assert (i = 1) as -> by lia. split; [done|lia].
Qed.

Lemma path_to m :
  1 <= m < 2 ^ 32 ->
  exists path k, compute_path 32 0 0 m = Some (path, k) /\ descend (Z.to_nat k) 1 path = m /\
                 0 <= k /\ 0 <= path.
Proof.
  intros Hm. destruct (compute_path_ok 32 0 0 m) as (path & k & E & Ed & Hk & Hp).
  - change (Z.of_nat 32) with 32. lia.
  - lia.
  - change (2 ^ 0) with 1. lia.
  - change (2 ^ 0) with 1. lia.
  - exists path, k. done.
Qed.

Lemma descend_ge k : forall i path, 1 <= i -> 0 <= path -> i * 2 ^ Z.of_nat k <= descend k i path.
Proof.
  induction k as [|k IH]; intros i path Hi Hp; cbn [descend]; [change (2 ^ Z.of_nat 0) with 1; lia|].
  rewrite Nat2Z.inj_succ, Z.pow_succ_r by lia.
  pose proof (Z.mod_pos_bound path 2 ltac:(lia)).
  specialize (IH (2 * i + path mod 2) (path / 2) ltac:(lia) ltac:(apply Z.div_pos; lia)).
  assert (0 < 2 ^ Z.of_nat k) by (apply Z.pow_pos_nonneg; lia). nia.
Qed.

(** * Places as locations *)

Definition loc_of (A : Z -> Z) (i : Z) : loc :=
  if i =? 1 then at_min else if i mod 2 =? 0 then at_left (A (i / 2)) else at_right (A (i / 2)).

Lemma read_loc_of A n h w i :
  rep A n h -> 1 <= i -> i / 2 <= n -> read_loc (loc_of A i) h w = Ok (A i) h w.
Proof.
  intros R Hi Hn. unfold loc_of. destruct (Z.eqb_spec i 1) as [-> |].
  - cbn. by rewrite (r_min _ _ _ R).
  - assert (Hr : in_range n (i / 2)) by (unfold in_range; zdiv_lia).
    destruct (Z.eqb_spec (i mod 2) 0); cbn [read_loc bind];
      rewrite (load_rep A n) by done; cbn [bind ret links left right]; do 2 f_equal; zdiv_lia.
Qed.

Lemma child_loc_of A n h w i b :
  rep A n h -> in_range n i ->
  child_loc (loc_of A i) b h w = Ok (loc_of A (2 * i + b2z b)) h w.
Proof.
  intros R Hi. unfold child_loc. cbn [bind]. unfold in_range in Hi.
  rewrite (read_loc_of A n) by (done || zdiv_lia). rewrite (load_rep A n) by done. cbn [bind ret].
  unfold loc_of. destruct b; cbn [b2z].
  - destruct (Z.eqb_spec (2 * i + 1) 1); [lia|]. destruct (Z.eqb_spec ((2 * i + 1) mod 2) 0); [zdiv_lia|].
    by replace ((2 * i + 1) / 2) with i by zdiv_lia.
  - destruct (Z.eqb_spec (2 * i + 0) 1); [lia|]. destruct (Z.eqb_spec ((2 * i + 0) mod 2) 0); [|zdiv_lia].
    by replace ((2 * i + 0) / 2) with i by zdiv_lia.
Qed.

Lemma walk_ok A n k : forall h w i path pl,
  rep A n h -> 1 <= i -> 0 <= path -> descend k i path / 2 <= n ->
  walk k path pl (loc_of A i) h w
  = Ok (if (k =? 0)%nat then pl else loc_of A (descend k i path / 2), loc_of A (descend k i path)) h w.
Proof.
  induction k as [|k IH]; intros h w i path pl R Hi Hp Hm; cbn [walk]; [done|].
  cbn [bind descend] in *. pose proof (Z.mod_pos_bound path 2 ltac:(lia)) as Hb.
  pose proof (descend_ge k (2 * i + path mod 2) (path / 2) ltac:(lia) ltac:(apply Z.div_pos; lia)) as Hge.
  assert (0 < 2 ^ Z.of_nat k) by (apply Z.pow_pos_nonneg; lia).
  assert (Hir : in_range n i) by (unfold in_range; assert (2 * i <= descend k (2 * i + path mod 2) (path / 2)) by nia; zdiv_lia).
  rewrite (child_loc_of A n) by done.
  assert (Eb : b2z (negb (Z.land path 1 =? 0)) = path mod 2).
  { change 1 with (Z.ones 1). rewrite Z.land_ones by lia. change (2 ^ 1) with 2.
    destruct (Z.eqb_spec (path mod 2) 0); cbn [negb b2z]; lia. }
  rewrite Eb, shiftr_div by lia. change (2 ^ 1) with 2.
  rewrite (IH h w (2 * i + path mod 2) (path / 2)) by (done || lia || (apply Z.div_pos; lia)).
  destruct k; [|done]. cbn [Nat.eqb descend]. by replace ((2 * i + path mod 2) / 2) with i by zdiv_lia.
Qed.

(** * A new last place *)

Definition push (A : Z -> Z) (m q : Z) : Z -> Z := fun i => if i =? m then q else A i.

Lemma push_new A m q : push A m q m = q.
Proof. unfold push. by rewrite Z.eqb_refl. Qed.

Lemma push_old A m q i : i <> m -> push A m q i = A i.
Proof. intros. unfold push. by destruct (Z.eqb_spec i m). Qed.

Lemma push_places A n q :
  0 <= n -> places A n -> q <> NULL -> ~ mem A n q -> places (push A (n + 1) q) (n + 1).
Proof.
  intros Hn HA Hq Hm. split.
  - intros i Hi. unfold push. destruct (Z.eqb_spec i (n + 1)); [done|].
    apply (p_in A n HA). unfold in_range in *. lia.
  - intros i Hi. unfold in_range in *. rewrite push_old by lia. apply (p_out A n HA). unfold in_range. lia.
  - intros i j Hi. unfold push, in_range in *. destruct (Z.eqb_spec i (n + 1)), (Z.eqb_spec j (n + 1)); intros E.
    + lia.
    + exfalso. destruct (decide (1 <= j <= n)) as [Hj|Hj].
      * apply Hm. by exists j.
      * apply Hq. rewrite E. by apply (p_out A n HA).
    + exfalso. apply Hm. exists i. split; [split; lia|done].
    + apply (p_inj A n HA); [split; lia|done].
Qed.

Lemma push_mem A n q x :
  0 <= n -> mem (push A (n + 1) q) (n + 1) x <-> x = q \/ mem A n x.
Proof.
  intros Hn. unfold mem, in_range. split.
  - intros (i & Hi & <-). unfold push. destruct (Z.eqb_spec i (n + 1)); [by left|right].
    exists i. split; [lia|done].
  - intros [-> | (i & Hi & <-)].
    + exists (n + 1). split; [lia|apply push_new].
    + exists i. split; [lia|]. apply push_old. lia.
Qed.

(** What is outside the heap and is not the new node stays. *)
Definition frame_but (q : Z) (A : Z -> Z) (n : Z) (h h' : heap) : Prop :=
  dom (nodes h') = dom (nodes h) /\
  forall x, x <> q -> (forall i, in_range n i -> A i <> x) -> nodes h' !! x = nodes h !! x.

Lemma fresh_rep A n h q nd :
  rep A n h -> ~ mem A n q -> q <> NULL -> rep A n (set_nodes (<[q := nd]> (nodes h)) h).
Proof.
  intros [HA Hm Hn [H0 HT]] Hq Hq0. split; [done|done|done|]. split; cbn.
  - by rewrite lookup_insert_ne.
  - intros i Hi. rewrite lookup_insert_ne; [by apply HT|]. intros ->. apply Hq. by exists i.
Qed.

(** Writing the last place. *)
Lemma write_last A n h w q :
  rep A n h -> 0 <= n -> q <> NULL -> ~ mem A n q -> nodes h !! q = Some (mk_node NULL NULL (A ((n + 1) / 2))) ->
  exists h', write_loc (loc_of A (n + 1)) q h w = Ok tt h' w /\ min h' = push A (n + 1) q 1 /\
             nelts h' = n /\ tab (push A (n + 1) q) (n + 1) (links (push A (n + 1) q)) h' /\ frame A n h h'.
Proof.
  intros R Hn Hq0 Hq Eq. pose proof R as [HA Hmin Hne HT]. pose proof HT as [H0 HTs].
  assert (Hlast : links (push A (n + 1) q) (n + 1) = mk_node NULL NULL (A ((n + 1) / 2))).
  { unfold links. rewrite !push_old by zdiv_lia.
    rewrite !(p_out A n HA) by (unfold in_range; lia). done. }
  unfold loc_of. destruct (Z.eqb_spec (n + 1) 1) as [En|En].
  - assert (n = 0) as -> by lia. cbn [write_loc modify]. eexists. split; [done|]. cbn.
    split; [done|]. split; [done|]. split; [|done]. split; [done|].
    intros i Hi. unfold in_range in Hi. assert (i = 0 + 1) as -> by lia. rewrite Hlast, push_new. exact Eq.
  - set (g := (n + 1) / 2) in *. assert (Hg : in_range n g) by (unfold in_range, g; zdiv_lia).
    assert (Hgr : 2 * g <= n + 1 <= 2 * g + 1) by (unfold g; zdiv_lia).
    set (f := if (n + 1) mod 2 =? 0 then set_left q else set_right q).
    assert (Ew : write_loc (if (n + 1) mod 2 =? 0 then at_left (A g) else at_right (A g)) q
                 = update_node (A g) f) by (unfold f; by destruct (_ =? 0)).
    rewrite Ew. destruct (update_ok A n HA _ h w g f HT Hg) as (h' & E & (HT' & M & N & F)).
    exists h'. split; [exact E|]. split; [rewrite M, Hmin, push_old by lia; done|]. split; [congruence|].
    split; [|exact F]. destruct HT' as [H0' HT']. split; [done|]. intros i Hi. unfold in_range in Hi.
    destruct (Z.eq_dec i (n + 1)) as [-> |Hni].
    + rewrite push_new, Hlast. destruct F as [_ F]. rewrite F, Eq; [done|].
      intros j Hj Ej. apply Hq. by exists j.
    + rewrite push_old by done. rewrite HT' by (unfold in_range; lia). f_equal.
      unfold upd. destruct (Z.eqb_spec i g) as [-> |Hig].
      * unfold f, links, push. destruct (Z.eqb_spec ((n + 1) mod 2) 0); cbn;
          bool_cases; try zdiv_lia; done.
      * unfold links, push. bool_cases; try zdiv_lia. done.
Qed.

Lemma heap_path_ok n h w :
  1 <= n < 2 ^ 32 ->
  exists path k, heap_path n h w = Ok (path, k) h w /\ descend (Z.to_nat k) 1 path = n /\ 0 <= path.
Proof.
  intros Hn. destruct (path_to n Hn) as (path & k & E & Ed & Hk & Hp). exists path, k.
  unfold heap_path. rewrite E. done.
Qed.

Lemma walk_last A n m h w path k :
  rep A n h -> 1 <= m -> m / 2 <= n -> descend k 1 path = m -> 0 <= path ->
  exists pl, walk k path at_min at_min h w = Ok (pl, loc_of A m) h w /\
             (2 <= m -> pl = loc_of A (m / 2)) /\ (m = 1 -> pl = at_min).
Proof.
  intros R Hm Hn Hd Hp. change at_min with (loc_of A 1) at 2.
  rewrite (walk_ok A n) by (try rewrite Hd; done || lia). rewrite Hd. eexists. split; [done|].
  destruct k; cbn [descend Nat.eqb] in *; [split; [lia|done]|].
  split; [done|]. intros ->. exfalso.
  pose proof (Z.mod_pos_bound path 2 ltac:(lia)).
  pose proof (descend_ge k (2 * 1 + path mod 2) (path / 2) ltac:(lia) ltac:(apply Z.div_pos; lia)).
  assert (0 < 2 ^ Z.of_nat k) by (apply Z.pow_pos_nonneg; lia). nia.
Qed.

Lemma insert_place_ok A n h w q :
  rep A n h -> 0 <= n -> n + 1 < 2 ^ 32 -> q <> NULL -> ~ mem A n q -> is_Some (nodes h !! q) ->
  exists h', insert_place q h w = Ok tt h' w /\ rep (push A (n + 1) q) (n + 1) h' /\ frame_but q A n h h'.
Proof.
  intros R Hn Hb Hq0 Hq [nd Eq]. unfold insert_place. cbn [bind]. unfold update_node at 1. rewrite Eq.
  pose proof (fresh_rep A n h q (mk_node NULL NULL NULL) R Hq Hq0) as R1.
  set (h1 := set_nodes _ h) in *. cbn [bind get]. rewrite (r_nelts _ _ _ R1).
  rewrite u32_small by lia. replace (1 + n) with (n + 1) by lia.
  destruct (heap_path_ok (n + 1) h1 w ltac:(lia)) as (path & k & -> & Hd & Hp). cbn [bind].
  destruct (walk_last A n (n + 1) h1 w path (Z.to_nat k) R1 ltac:(lia) ltac:(zdiv_lia) Hd Hp)
    as (pl & -> & Hpl & Hpl1). cbn [bind].
  assert (Er : read_loc pl h1 w = Ok (A ((n + 1) / 2)) h1 w).
  { destruct (Z_le_dec 2 (n + 1)).
    - rewrite Hpl by done. apply (read_loc_of A n); [done|zdiv_lia|zdiv_lia].
    - rewrite Hpl1 by lia. cbn [read_loc bind get ret]. rewrite (r_min _ _ _ R1). assert (n = 0) as -> by lia.
      change ((0 + 1) / 2) with 0. rewrite !(p_out A 0 (r_places _ _ _ R)) by (unfold in_range; lia). done. }
  rewrite Er. unfold update_node at 1. cbn [nodes h1 set_nodes]. rewrite lookup_insert_eq. cbn [set_parent left right].
  pose proof (fresh_rep A n h1 q (mk_node NULL NULL (A ((n + 1) / 2))) R1 Hq Hq0) as R2.
  change (nodes h1) with (<[q := mk_node NULL NULL NULL]> (nodes h)) in R2.
  set (h2 := set_nodes _ h1) in *.
  destruct (write_last A n h2 w q R2 Hn Hq0 Hq) as (h3 & -> & M & N & T & [D F]); [cbn; by rewrite lookup_insert_eq|].
  cbn [modify]. eexists. split; [done|]. split.
  - split; cbn [min nelts set_nelts].
    + by apply push_places; [|apply R|..].
    + done.
    + rewrite N. apply u32_small. lia.
    + exact T.
  - split; cbn [nodes set_nelts].
    + rewrite D. cbn. rewrite !dom_insert_L. assert (q ∈ dom (nodes h)) by (by apply elem_of_dom). set_solver.
    + intros x Hx Ho. rewrite F by done. cbn. by rewrite !lookup_insert_ne.
Qed.

Lemma push_up_ok less_than `{!WeakOrder less_than} A n q :
  0 <= n -> ordered less_than A n -> up_ok less_than (push A (n + 1) q) (n + 1) (n + 1).
Proof.
  intros Hn Ho. split.
  - intros j Hj Hne. rewrite !push_old by zdiv_lia. apply Ho. lia.
  - intros _ j Hj Ej. zdiv_lia.
Qed.

(** * The last place removed *)

Lemma read_loc_nelts l h w a m :
  read_loc l h w = Ok a h w -> read_loc l (set_nelts m h) w = Ok a (set_nelts m h) w.
Proof.
  destruct l; cbn [read_loc bind get ret].
  - by intros [= <-].
  - unfold load_node. cbn [nodes set_nelts]. destruct (nodes h !! p); [|done]. cbn [bind ret]. by intros [= <-].
  - unfold load_node. cbn [nodes set_nelts]. destruct (nodes h !! p); [|done]. cbn [bind ret]. by intros [= <-].
Qed.

Lemma pop_places A n : places A n -> 1 <= n -> places (push A n NULL) (n - 1).
Proof.
  intros HA Hn. split; intros i.
  - intros Hi. unfold in_range in Hi. rewrite push_old by lia. apply (p_in A n HA). unfold in_range. lia.
  - intros Hi. unfold in_range in Hi. destruct (Z.eq_dec i n) as [->|]; [apply push_new|].
    rewrite push_old by done. apply (p_out A n HA). unfold in_range. lia.
  - intros j Hi. unfold in_range in Hi. rewrite (push_old A n NULL i) by lia. unfold push.
    destruct (Z.eqb_spec j n) as [->|]; intros E.
    + exfalso. apply (p_in A n HA i); [unfold in_range; lia|done].
    + apply (p_inj A n HA); [unfold in_range; lia|done].
Qed.

Lemma unlink_max_ok A n h w :
  rep A n h -> 1 <= n < 2 ^ 32 ->
  exists h', unlink_max h w = Ok (A n) h' w /\ rep (push A n NULL) (n - 1) h' /\ frame A n h h'.
Proof.
  intros R Hn. pose proof R as [HA Hmin Hne HT]. unfold unlink_max. cbn [bind get]. rewrite Hne.
  destruct (heap_path_ok n h w Hn) as (path & k & -> & Hd & Hp). cbn [bind].
  destruct (walk_last A n n h w path (Z.to_nat k) R ltac:(lia) ltac:(zdiv_lia) Hd Hp) as (pl & -> & _ & _).
  cbn [bind modify]. rewrite Hne, u32_small by lia.
  rewrite (read_loc_nelts _ _ _ _ _ (read_loc_of A n h w n R ltac:(lia) ltac:(zdiv_lia))).
  set (h1 := set_nelts (n - 1) h). assert (HT1 : tab A n (links A) h1) by exact HT.
  pose proof (pop_places A n HA ltac:(lia)) as HB.
  unfold loc_of. destruct (Z.eqb_spec n 1) as [->|Hn1].
  - cbn [write_loc modify bind ret]. eexists. split; [done|]. split; [|done]. split; [done| |done|].
    + cbn [min set_min]. by rewrite push_new.
    + destruct HT as [H0 _]. split; [done|]. intros i Hi. unfold in_range in Hi. lia.
  - set (g := n / 2). assert (Hg : in_range n g) by (unfold in_range, g; zdiv_lia).
    assert (Hgr : 2 * g <= n <= 2 * g + 1) by (unfold g; zdiv_lia).
    set (f := if n mod 2 =? 0 then set_left NULL else set_right NULL).
    assert (Ew : write_loc (if n mod 2 =? 0 then at_left (A g) else at_right (A g)) NULL = update_node (A g) f)
      by (unfold f; by destruct (_ =? 0)).
    rewrite Ew. destruct (update_ok A n HA _ h1 w g f HT1 Hg) as (h' & -> & ([H0' HT'] & M & N & F)).
    cbn [bind ret]. exists h'. split; [done|]. split; [|exact F]. split; [done| |done|].
    + rewrite M. cbn. rewrite Hmin. by rewrite push_old by lia.
    + split; [done|]. intros i Hi. unfold in_range in Hi. rewrite push_old by lia.
      rewrite HT' by (unfold in_range; lia). f_equal. unfold upd. destruct (Z.eqb_spec i g) as [->|Hig].
      * unfold f, links, push. destruct (Z.eqb_spec (n mod 2) 0); cbn; bool_cases; try zdiv_lia; done.
      * unfold links, push. bool_cases; try zdiv_lia. done.
Qed.

(** * A node replaced *)

Lemma replace_places B m r q :
  places B m -> in_range m r -> q <> NULL -> ~ mem B m q -> places (push B r q) m.
Proof.
  intros HB Hr Hq Hm. split; intros i.
  - intros Hi. unfold push. destruct (i =? r); [done|by apply (p_in B m HB)].
  - intros Hi. rewrite push_old by (intros ->; done). by apply (p_out B m HB).
  - intros j Hi. unfold push. destruct (Z.eqb_spec i r), (Z.eqb_spec j r); intros E.
    + lia.
    + exfalso. destruct (decide (1 <= j <= m)) as [Hj|Hj]; [apply Hm; by exists j|].
      apply Hq. rewrite E. by apply (p_out B m HB).
    + exfalso. apply Hm. by exists i.
    + by apply (p_inj B m HB).
Qed.

Lemma replace_links B m r q g i :
  g = r / 2 -> 1 <= r -> in_range m i ->
  upd g ((if 2 * g =? r then set_left else set_right) q)
    (upd (2 * r + 1) (set_parent q) (upd (2 * r) (set_parent q) (links B))) i = links (push B r q) i.
Proof.
  intros Eg Hr Hi. unfold in_range in Hi. assert (Hg : 2 * g <= r <= 2 * g + 1) by zdiv_lia.
  assert (Hi2 : 2 * (i / 2) <= i <= 2 * (i / 2) + 1) by zdiv_lia. clear Eg.
  idx; unfold links, push; cbn [left right parent];
    repeat (match goal with |- context [?a =? ?b] => destruct (Z.eqb_spec a b) end; try lia); done.
Qed.

Lemma replace_node_ok B m r q h w :
  rep B m h -> in_range m r -> q <> NULL -> ~ mem B m q -> is_Some (nodes h !! q) ->
  exists h', replace_node (B r) q h w = Ok tt h' w /\ rep (push B r q) m h' /\ frame_but q B m h h'.
Proof.
  intros R Hr Hq0 Hq [nd Eq]. pose proof R as [HB Hmin Hne [H0 HT]].
  pose proof (replace_places B m r q HB Hr Hq0 Hq) as HC. set (C := push B r q) in *.
  assert (HCB : forall i, i <> r -> B i = C i) by (intros; unfold C; by rewrite push_old).
  unfold in_range in Hr. assert (Hg : 2 * (r / 2) <= r <= 2 * (r / 2) + 1) by zdiv_lia.
  unfold replace_node. cbn [bind]. rewrite (load_rep B m) by (done || (unfold in_range; lia)). cbn [bind].
  unfold update_node at 1. rewrite Eq. set (h3 := set_nodes _ h).
  assert (HT3 : tab C m (links B) h3).
  { split; cbn; [by rewrite lookup_insert_ne|]. intros i Hi. unfold C, push.
    destruct (Z.eqb_spec i r) as [->|]; [by rewrite lookup_insert_eq|].
    rewrite lookup_insert_ne; [by apply HT|]. intros ->. apply Hq. by exists i. }
  cbn [bind left right parent links].
  rewrite (HCB (2 * r)), (HCB (2 * r + 1)), (HCB (r / 2)) by lia.
  store_step HC HT3. cbn [bind]. pose proof (like_tab _ _ _ _ _ K) as HT4.
  store_step HC HT4. cbn [bind]. pose proof (like_tab _ _ _ _ _ K0) as HT5.
  pose proof (like_trans _ _ _ _ _ _ _ K K0) as (_ & M5 & N5 & [D5 F5]).
  assert (D3 : dom (nodes h3) = dom (nodes h)).
  { cbn. rewrite dom_insert_L. assert (q ∈ dom (nodes h)) by (by apply elem_of_dom). set_solver. }
  assert (F3 : forall x, x <> q -> (forall i, in_range m i -> B i <> x) -> (forall i, in_range m i -> C i <> x)).
  { intros x Hx Ho i Hi. unfold C, push. destruct (i =? r); [congruence|by apply Ho]. }
  rewrite (null_place C m HC). destruct ((1 <=? r / 2) && (r / 2 <=? m)) eqn:Eb; cbn [negb bind].
  - to_prop. assert (Hig : in_range m (r / 2)) by (split; lia).
    rewrite (load_ok C m _ h1 w (r / 2) HT5 Hig). cbn [bind]. unfold upd at 1 2.
    destruct (Z.eqb_spec (r / 2) (2 * r + 1)), (Z.eqb_spec (r / 2) (2 * r)); try lia. cbn [links left].
    rewrite (same_place B m HB) by (unfold in_range; lia).
    destruct (2 * (r / 2) =? r) eqn:E2; (store_step HC HT5); destruct K1 as ([H06 HT6] & M6 & N6 & [D6 F6]);
      (eexists; split; [done|]); (split; [split; [done| | |]|]); try congruence.
    all: try (rewrite M6, M5; cbn; rewrite Hmin; apply HCB; zdiv_lia).
    all: try (split; [done|]; intros i Hi; rewrite HT6 by done; f_equal;
              rewrite <- (replace_links B m r q (r / 2)) by (done || lia); by rewrite E2).
    all: try (rewrite N6, N5; exact Hne).
    all: split; [congruence|]; intros x Hx Ho; rewrite F6, F5 by (by apply F3); cbn; by rewrite lookup_insert_ne.
  - assert (Er : r = 1) by (apply andb_false_iff in Eb as [E|E]; to_prop; zdiv_lia).
    cbn [modify]. eexists. split; [done|]. split; [split; [done| | |]|].
    + cbn [min set_min]. unfold C. by rewrite Er, push_new.
    + cbn [nelts set_min]. rewrite N5; exact Hne.
    + destruct HT5 as [H05 HT5]. split; [done|]. intros i Hi. cbn [nodes set_min]. rewrite HT5 by done. f_equal.
      unfold C. rewrite <- (replace_links B m r q (r / 2)) by (done || lia).
      unfold upd at 3. unfold in_range in Hi. rewrite Er. destruct (Z.eqb_spec i (1 / 2)) as [E|]; [|done].
      change (1 / 2) with 0 in E. lia.
    + split; cbn [nodes set_min]; [congruence|]. intros x Hx Ho. rewrite F5 by (by apply F3). cbn. by rewrite lookup_insert_ne.
Qed.

(** An ordered heap in memory, by its nodes. *)
Definition is_heap (less_than : Z -> Z -> bool) (h : heap) (members : Z -> Prop) : Prop :=
  exists A n, rep A n h /\ 0 <= n /\ ordered less_than A n /\ forall x, members x <-> mem A n x.

(** The node structs outside the heap, and the memory's extent, stay the same. *)
Definition others_kept (members : Z -> Prop) (h h' : heap) : Prop :=
  dom (nodes h') = dom (nodes h) /\ forall x, ~ members x -> nodes h' !! x = nodes h !! x.

Section theorems.
Context (less_than : Z -> Z -> bool) `{!WeakOrder less_than}.

Lemma heap_insert_ok h w q members :
  is_heap less_than h members -> nelts h + 1 < 2 ^ 32 ->
  q <> NULL -> ~ members q -> is_Some (nodes h !! q) ->
  exists h', heap_insert less_than q h w = Ok tt h' w /\
             is_heap less_than h' (fun x => x = q \/ members x) /\ nelts h' = nelts h + 1 /\
             others_kept (fun x => x = q \/ members x) h h'.
Proof.
  intros (A & n & R & Hn & Ho & Hmem) Hb Hq0 Hq Hs. rewrite (r_nelts _ _ _ R) in *.
  rewrite Hmem in Hq. destruct (insert_place_ok A n h w q R Hn Hb Hq0 Hq Hs) as (h1 & E & R1 & [D1 F1]).
  unfold heap_insert. cbn [bind]. rewrite E. unfold walk_up.
  pose proof (push_new A (n + 1) q) as Eq.
  destruct (walk_up_ok less_than (n + 1) 33 (push A (n + 1) q) h1 w (n + 1)) as (A' & h' & E' & (R' & M' & [D' F']) & Ho').
  - done.
  - unfold in_range. lia.
  - change (Z.of_nat 33) with 33. lia.
  - by apply push_up_ok.
  - rewrite Eq in E'. exists h'. split; [exact E'|]. split; [|split; [exact (r_nelts _ _ _ R')|split; [congruence|]]].
    + exists A', (n + 1). split; [done|]. split; [lia|]. split; [done|]. intros x.
      rewrite <- (M' x), push_mem by done. by rewrite Hmem.
    + intros x Hx. rewrite Hmem in Hx.
      assert (Hp : ~ mem (push A (n + 1) q) (n + 1) x) by (by rewrite push_mem).
      rewrite F' by (intros i Hi <-; apply Hp; by exists i).
      apply F1; [naive_solver|]. intros i Hi <-. apply Hx. right. by exists i.
Qed.

Lemma replace_down_ok A n r :
  ordered less_than A n -> 1 <= r < n -> down_ok less_than (push (push A n NULL) r (A n)) (n - 1) r.
Proof.
  intros Ho Hr.
  assert (Hv : forall i, 1 <= i < n -> i <> r -> push (push A n NULL) r (A n) i = A i)
    by (intros; rewrite !push_old by lia; done).
  split.
  - intros j Hj Hjr Hpr. rewrite !Hv by (done || zdiv_lia). apply Ho. lia.
  - intros Hr2 j Hj Ej. rewrite !Hv by zdiv_lia. eapply le_trans; [done|apply Ho; lia|].
    rewrite <- Ej. apply Ho. lia.
Qed.

Lemma replaced_mem A n r x :
  places A n -> 1 <= r < n ->
  mem (push (push A n NULL) r (A n)) (n - 1) x <-> mem A n x /\ x <> A r.
Proof.
  intros HA Hr. assert (Hv : forall i, 1 <= i < n -> i <> r -> push (push A n NULL) r (A n) i = A i)
    by (intros; rewrite !push_old by lia; done).
  assert (Hne : forall i, 1 <= i <= n -> i <> r -> A i <> A r)
    by (intros i Hi Hir E; apply (p_inj A n HA) in E; [done|done]).
  unfold mem, in_range. split.
  - intros (i & Hi & <-). destruct (Z.eq_dec i r) as [->|Hir].
    + rewrite push_new. split; [exists n; split; [lia|done]|apply Hne; lia].
    + rewrite Hv by lia. split; [exists i; split; [lia|done]|apply Hne; lia].
  - intros [(i & Hi & <-) Hx]. assert (Hir : i <> r) by (intros ->; done).
    destruct (Z.eq_dec i n) as [->|].
    + exists r. split; [lia|apply push_new].
    + exists i. split; [lia|apply Hv; lia].
Qed.

Lemma popped_mem A n x :
  places A n -> 1 <= n -> mem (push A n NULL) (n - 1) x <-> mem A n x /\ x <> A n.
Proof.
  intros HA Hn. unfold mem, in_range. split.
  - intros (i & Hi & <-). rewrite push_old by lia. split; [exists i; split; [lia|done]|].
    intros E. apply (p_inj A n HA) in E; [lia|unfold in_range; lia].
  - intros [(i & Hi & <-) Hx]. assert (Hin : i <> n) by (intros ->; done).
    exists i. split; [lia|]. by apply push_old.
Qed.

(** Removal when the last place is another node. *)
Lemma remove_inner A n r h w :
  rep A n h -> ordered less_than A n -> 1 <= r < n -> n < 2 ^ 32 ->
  exists A' h', (let* child := unlink_max in replace_node (A r) child;; walk_down less_than child;; walk_up less_than child) h w
    = Ok tt h' w /\ rep A' (n - 1) h' /\ ordered less_than A' (n - 1) /\
    (forall x, mem A' (n - 1) x <-> mem A n x /\ x <> A r) /\ frame A n h h'.
Proof.
  intros R Ho Hr Hn. pose proof (r_places _ _ _ R) as HA. cbn [bind].
  destruct (unlink_max_ok A n h w R ltac:(lia)) as (h1 & -> & R1 & [D1 F1]).
  set (B := push A n NULL) in *. assert (EBr : B r = A r) by (unfold B; by rewrite push_old by lia).
  assert (Hq : ~ mem B (n - 1) (A n)) by (intros Hm; apply popped_mem in Hm; [naive_solver|done|lia]).
  assert (Hq0 : A n <> NULL) by (apply (p_in A n HA); unfold in_range; lia).
  assert (Hs : is_Some (nodes h1 !! A n)).
  { apply elem_of_dom. rewrite D1. apply elem_of_dom. eexists. apply (r_tab _ _ _ R). unfold in_range. lia. }
  destruct (replace_node_ok B (n - 1) r (A n) h1 w R1 ltac:(unfold in_range; lia) Hq0 Hq Hs)
    as (h2 & E2 & R2 & [D2 F2]). rewrite EBr in E2. cbn [bind]. rewrite E2. clear E2.
  set (C := push B r (A n)) in *. assert (ECr : C r = A n) by apply push_new.
  destruct (walk_down_ok less_than (n - 1) 33 C h2 w r) as (A3 & h3 & k & E3 & (R3 & M3 & [D3 F3]) & Hk & Ek & Hup).
  { done. } { unfold in_range. lia. } { change (Z.of_nat 33) with 33. lia. } { by apply replace_down_ok. }
  rewrite ECr in E3, Ek. unfold walk_down. rewrite E3. clear E3.
  destruct (walk_up_ok less_than (n - 1) 33 A3 h3 w k) as (A4 & h4 & E4 & (R4 & M4 & [D4 F4]) & Ho4).
  { done. } { done. } { unfold in_range in Hk. change (Z.of_nat 33) with 33. lia. } { done. }
  rewrite Ek in E4. exists A4, h4. split; [exact E4|]. split; [done|]. split; [done|].
  assert (Hmem : forall x, mem A4 (n - 1) x <-> mem A n x /\ x <> A r).
  { intros x. rewrite <- (M4 x), <- (M3 x). by apply replaced_mem. }
  split; [exact Hmem|]. split; [congruence|]. intros x Hx.
  assert (HxA : ~ mem A n x) by (intros (i & Hi & E); by apply (Hx i)).
  assert (HxC : ~ mem C (n - 1) x) by (unfold C, B; rewrite replaced_mem by done; naive_solver).
  rewrite F4 by (intros i Hi E; apply HxC, M3; by exists i).
  rewrite F3 by (intros i Hi E; apply HxC; by exists i).
  rewrite F2; [by apply F1| |].
  - intros ->. apply HxA. exists n. split; [unfold in_range; lia|done].
  - intros i Hi E. apply HxA, (popped_mem A n x HA ltac:(lia)). by exists i.
Qed.

Lemma heap_remove_ok h w q members :
  is_heap less_than h members -> nelts h < 2 ^ 32 -> members q ->
  exists h', heap_remove less_than q h w = Ok tt h' w /\
             is_heap less_than h' (fun x => members x /\ x <> q) /\ nelts h' = nelts h - 1 /\
             others_kept members h h'.
Proof.
  intros (A & n & R & Hn & Ho & Hmem) Hb Hq. rewrite (r_nelts _ _ _ R) in *.
  pose proof (r_places _ _ _ R) as HA.
  apply Hmem in Hq as (r & Hr & <-). unfold in_range in Hr. unfold heap_remove. cbn [bind get].
  rewrite (r_nelts _ _ _ R). destruct (Z.eqb_spec n 0); [lia|].
  assert (Hkept : forall h', frame A n h h' -> others_kept members h h').
  { intros h' [D F]. split; [done|]. intros x Hx. apply F. intros i Hi E. apply Hx, Hmem. by exists i. }
  destruct (Z.eq_dec r n) as [->|Hrn].
  - destruct (unlink_max_ok A n h w R ltac:(lia)) as (h1 & E & R1 & F1). cbn [bind]. rewrite E, Z.eqb_refl.
    cbn [bind get]. rewrite (r_min _ _ _ R1).
    assert (Hm1 : (A n =? push A n NULL 1) = false).
    { apply Z.eqb_neq. unfold push. destruct (Z.eqb_spec 1 n); [apply (p_in A n HA); unfold in_range; lia|].
      intros E1. apply (p_inj A n HA) in E1; [lia|unfold in_range; lia]. }
    rewrite Hm1. cbn [ret]. exists h1. split; [done|]. split; [|split; [exact (r_nelts _ _ _ R1)|by apply Hkept]].
    exists (push A n NULL), (n - 1). split; [done|]. split; [lia|]. split.
    + intros i Hi. rewrite !push_old by zdiv_lia. apply Ho. lia.
    + intros x. rewrite popped_mem by (done || lia). by rewrite Hmem.
  - destruct (remove_inner A n r h w R Ho ltac:(lia) Hb) as (A' & h' & E & R' & Ho' & Hmem' & F).
    cbn [bind] in E |- *. destruct (unlink_max_ok A n h w R ltac:(lia)) as (h1 & E1 & _). rewrite E1 in E |- *.
    destruct (Z.eqb_spec (A n) (A r)) as [E0|_]; [apply (p_inj A n HA) in E0; [lia|unfold in_range; lia]|].
    exists h'. split; [exact E|]. split; [|split; [exact (r_nelts _ _ _ R')|by apply Hkept]].
    exists A', (n - 1). split; [done|]. split; [lia|]. split; [done|]. intros x. rewrite Hmem'. by rewrite Hmem.
Qed.

(** The minimum is at the root. *)
Lemma heap_min_ok h w members :
  is_heap less_than h members ->
  (heap_min h w = Ok NULL h w /\ forall x, ~ members x) \/
  (exists m, heap_min h w = Ok m h w /\ m <> NULL /\ members m /\ forall x, members x -> le less_than m x).
Proof.
  intros (A & n & R & Hn & Ho & Hmem). unfold heap_min. cbn [bind get ret]. rewrite (r_min _ _ _ R).
  destruct (Z.eq_dec n 0) as [->|Hn0].
  - left. rewrite (p_out A 0 (r_places _ _ _ R)) by (unfold in_range; lia). split; [done|].
    intros x Hx. apply Hmem in Hx as (i & Hi & _). unfold in_range in Hi. lia.
  - right. exists (A 1). split; [done|]. split; [apply (p_in A n (r_places _ _ _ R)); unfold in_range; lia|].
    split; [apply Hmem; exists 1; split; [unfold in_range; lia|done]|].
    intros x Hx. apply Hmem in Hx. by eapply root_least.
Qed.

End theorems.

(** * The heap as a priority queue *)

Inductive heap_op :=
| op_insert (q : Z)
| op_remove (q : Z)
| op_dequeue.

Section queue.
Context (less_than : Z -> Z -> bool) `{!WeakOrder less_than}.

Definition run_op (op : heap_op) : SM heap unit :=
  match op with
  | op_insert q => heap_insert less_than q
  | op_remove q => heap_remove less_than q
  | op_dequeue => heap_dequeue less_than
  end.

(** The abstract queue is a set; a dequeue removes a least element. *)
Definition queue_step (S : gset Z) (op : heap_op) (S' : gset Z) : Prop :=
  match op with
  | op_insert q => S' = {[q]} ∪ S
  | op_remove q => S' = S ∖ {[q]}
  | op_dequeue => exists m, m ∈ S /\ (forall x, x ∈ S -> le less_than m x) /\ S' = S ∖ {[m]}
  end.

(** What the caller must see to. *)
Definition op_allowed (S : gset Z) (h : heap) (op : heap_op) : Prop :=
  match op with
  | op_insert q => q <> NULL /\ q ∉ S /\ is_Some (nodes h !! q) /\ nelts h + 1 < 2 ^ 32
  | op_remove q => q ∈ S /\ nelts h < 2 ^ 32
  | op_dequeue => S <> ∅ /\ nelts h < 2 ^ 32
  end.

Definition queue_rel (h : heap) (S : gset Z) : Prop := is_heap less_than h (fun x => x ∈ S).

Lemma is_heap_ext h (P Q : Z -> Prop) : (forall x, P x <-> Q x) -> is_heap less_than h P -> is_heap less_than h Q.
Proof.
  intros E (A & n & R & Hn & Ho & Hm). exists A, n. split_and!; try done. intros x. by rewrite <- E.
Qed.

Lemma dequeue_ok h w S :
  queue_rel h S -> S <> ∅ -> nelts h < 2 ^ 32 ->
  exists m h', heap_min h w = Ok m h w /\ m <> NULL /\ heap_dequeue less_than h w = Ok tt h' w /\
    m ∈ S /\ (forall x, x ∈ S -> le less_than m x) /\ queue_rel h' (S ∖ {[m]}) /\
    nelts h' = nelts h - 1 /\ dom (nodes h') = dom (nodes h).
Proof.
  intros Hq Hne Hb. destruct (heap_min_ok less_than h w _ Hq) as [[_ He]|(m & Em & Hm0 & Hm & Hle)].
  - exfalso. apply Hne. apply set_eq. intros x. split; [intros Hx; by apply He in Hx|set_solver].
  - destruct (heap_remove_ok less_than h w m _ Hq Hb Hm) as (h' & E & Hq' & Hn & [D _]).
    exists m, h'. split; [done|]. split; [done|]. unfold heap_dequeue. cbn [bind get].
    assert (Emin : min h = m) by (cbn in Em; congruence). rewrite Emin. split; [done|].
    split; [done|]. split; [done|]. split; [|done].
    eapply is_heap_ext; [|exact Hq']. set_solver.
Qed.

(** C18: every heap operation on the linked nodes is the operation on the set of
    queued nodes: nothing is lost or duplicated, the order is kept, no NULL or
    dangling pointer is followed and every loop ends. *)
Theorem heap_refines_queue h w S op :
  queue_rel h S -> op_allowed S h op ->
  exists h' S', run_op op h w = Ok tt h' w /\ queue_step S op S' /\ queue_rel h' S'.
Proof.
  intros Hq Ho. destruct op as [q|q|]; cbn [op_allowed run_op queue_step] in *.
  - destruct Ho as (Hq0 & Hqs & Hs & Hb).
    destruct (heap_insert_ok less_than h w q _ Hq Hb Hq0 Hqs Hs) as (h' & E & Hq' & _).
    exists h', ({[q]} ∪ S). split; [done|]. split; [done|]. eapply is_heap_ext; [|exact Hq']. set_solver.
  - destruct Ho as [Hqs Hb]. destruct (heap_remove_ok less_than h w q _ Hq Hb Hqs) as (h' & E & Hq' & _).
    exists h', (S ∖ {[q]}). split; [done|]. split; [done|]. eapply is_heap_ext; [|exact Hq']. set_solver.
  - destruct Ho as [Hne Hb]. destruct (dequeue_ok h w S Hq Hne Hb) as (m & h' & _ & _ & E & Hm & Hle & Hq' & _).
    exists h', (S ∖ {[m]}). split; [done|]. split; [|done]. exists m. done.
Qed.

(** A caller that fills the heap and one that empties it. *)
Fixpoint insert_all (l : list Z) : SM heap unit :=
  match l with
  | [] => ret tt
  | q :: l => heap_insert less_than q;; insert_all l
  end.

Fixpoint drain (fuel : nat) : SM heap (list Z) :=
  match fuel with
  | O => nofuel
  | S fuel =>
      let* m := heap_min in
      if m =? NULL then ret []
      else heap_dequeue less_than;; let* l := drain fuel in ret (m :: l)
  end.

Lemma empty_queue h : queue_rel (mk_heap (nodes h) NULL 0) ∅ <-> nodes h !! NULL = None.
Proof.
  split.
  - intros (A & n & R & _). by destruct (r_tab _ _ _ R).
  - intros H0. exists (fun _ => NULL), 0. split; [|split; [lia|split]].
    + split; [|done|done|].
      * split; [|done|]; unfold in_range; lia.
      * split; [done|]. unfold in_range. lia.
    + intros i Hi. lia.
    + intros x. split; [set_solver|]. intros (i & Hi & _). unfold in_range in Hi. lia.
Qed.

Lemma insert_all_ok l : forall h w S,
  queue_rel h S -> NoDup l -> Forall (fun q => q <> NULL /\ q ∉ S /\ is_Some (nodes h !! q)) l ->
  nelts h + Z.of_nat (length l) < 2 ^ 32 ->
  exists h', insert_all l h w = Ok tt h' w /\ queue_rel h' (list_to_set l ∪ S) /\
             nelts h' = nelts h + Z.of_nat (length l).
Proof.
  induction l as [|q l IH]; intros h w S Hq Hnd Hl Hb; cbn [insert_all length] in *.
  - exists h. split; [done|]. split; [|lia]. eapply is_heap_ext; [|exact Hq]. set_solver.
  - apply list.NoDup_cons in Hnd as [Hql Hnd]. apply Forall_cons_1 in Hl as [(Hq0 & Hqs & Hs) Hl].
    destruct (heap_insert_ok less_than h w q _ Hq ltac:(lia) Hq0 Hqs Hs) as (h1 & E & Hq1 & Hn1 & [D1 _]).
    cbn [bind]. rewrite E. destruct (IH h1 w ({[q]} ∪ S)) as (h' & E' & Hq' & Hn').
    + eapply is_heap_ext; [|exact Hq1]. set_solver.
    + done.
    + rewrite List.Forall_forall in *. intros x Hx. destruct (Hl x Hx) as (? & ? & Hsx). split_and!; [done| |].
      * apply list_elem_of_In in Hx. set_solver.
      * apply elem_of_dom. rewrite D1. by apply elem_of_dom.
    + lia.
    + exists h'. split; [done|]. split; [|lia]. eapply is_heap_ext; [|exact Hq']. set_solver.
Qed.

Lemma drain_ok fuel : forall h w S,
  queue_rel h S -> (size S < fuel)%nat -> nelts h < 2 ^ 32 ->
  exists l h', drain fuel h w = Ok l h' w /\ StronglySorted (le less_than) l /\ NoDup l /\
               (forall x, x ∈ l <-> x ∈ S) /\ queue_rel h' ∅.
Proof.
  induction fuel as [|fuel IH]; intros h w S Hq Hf Hb; [lia|]. cbn [drain bind].
  destruct (decide (S = ∅)) as [->|Hne].
  - destruct (heap_min_ok less_than h w _ Hq) as [[-> _]|(m & _ & _ & Hm & _)]; [|set_solver].
    cbn [bind ret Z.eqb NULL]. exists [], h. split; [done|]. split; [constructor|]. split; [apply NoDup_nil_2|]. split; [set_solver|done].
  - destruct (dequeue_ok h w S Hq Hne Hb) as (m & h1 & -> & Hm0 & E & Hm & Hle & Hq1 & Hn1 & _).
    destruct (Z.eqb_spec m NULL); [done|]. cbn [bind]. rewrite E.
    assert (Hsz : size (S ∖ {[m]}) = (size S - 1)%nat) by (rewrite size_difference by set_solver; by rewrite size_singleton).
    assert (size S <> 0)%nat by (rewrite size_non_empty_iff; by rewrite leibniz_equiv_iff || set_solver).
    destruct (IH h1 w _ Hq1 ltac:(lia) ltac:(lia)) as (l & h' & E' & Hs & Hnd & Hl & He).
    rewrite E'. cbn [ret]. exists (m :: l), h'. split; [done|]. split; [|split; [|split; [|done]]].
    + constructor; [done|]. apply List.Forall_forall. intros x Hx. apply Hle.
      apply list_elem_of_In, Hl in Hx. set_solver.
    + apply list.NoDup_cons. split; [|done]. rewrite Hl. set_solver.
    + intros x. rewrite elem_of_cons, Hl. destruct (decide (x = m)); set_solver.
Qed.

(** filling an empty heap with any nodes and draining it yields those nodes in
    order. *)
Theorem heap_sorts l h w :
  nodes h !! NULL = None -> NoDup l -> Forall (fun q => q <> NULL /\ is_Some (nodes h !! q)) l ->
  Z.of_nat (length l) < 2 ^ 32 ->
  exists l' h', (heap_init;; insert_all l;; drain (S (length l))) h w = Ok l' h' w /\
                l' ≡ₚ l /\ StronglySorted (le less_than) l'.
Proof.
  intros H0 Hnd Hl Hlen. cbn [bind heap_init modify].
  pose proof (proj2 (empty_queue h) H0) as Hq.
  destruct (insert_all_ok l _ w ∅ Hq Hnd) as (h1 & -> & Hq1 & Hn1).
  - apply List.Forall_forall. intros x Hx. rewrite List.Forall_forall in Hl. destruct (Hl x Hx).
    split_and!; [done|set_solver|done].
  - cbn. lia.
  - assert (Es : list_to_set l ∪ ∅ = (list_to_set l : gset Z)) by set_solver. rewrite Es in Hq1.
    assert (Hsz : size (list_to_set l : gset Z) = length l) by (by apply size_list_to_set).
    cbn in Hn1.
    destruct (drain_ok (S (length l)) h1 w _ Hq1 ltac:(lia) ltac:(lia)) as (l' & h' & E & Hs & Hnd' & Hm & _).
    exists l', h'. split; [exact E|]. split; [|done]. apply NoDup_Permutation; [done|done|].
    intros x. rewrite Hm. apply elem_of_list_to_set.
Qed.

End queue.

(** Nodes ordered by address, for the examples. *)
#[global] Instance by_address : WeakOrder Z.ltb.
Proof. split; intros; lia. Qed.

Definition idle_node : heap_node := mk_node NULL NULL NULL.
Definition three_nodes : gmap Z heap_node := {[8 := idle_node; 16 := idle_node; 24 := idle_node]}.

Lemma heap_refines_queue_witness :
  let h := mk_heap three_nodes NULL 0 in
  exists h' S', run_op Z.ltb (op_insert 8) h (World ∅ ∅ 0) = Ok tt h' (World ∅ ∅ 0) /\
                queue_step Z.ltb ∅ (op_insert 8) S' /\ queue_rel Z.ltb h' S'.
Proof.
  apply (heap_refines_queue Z.ltb _ (World ∅ ∅ 0) ∅ (op_insert 8)).
  - apply (empty_queue Z.ltb (mk_heap three_nodes NULL 0)). vm_compute. reflexivity.
  - split; [discriminate|]. split; [set_solver|]. split; [vm_compute; eauto|reflexivity].
Defined.

Lemma heap_sorts_witness :
  exists l' h', (heap_init;; insert_all Z.ltb [24; 8; 16];; drain Z.ltb 4) (mk_heap three_nodes NULL 0) (World ∅ ∅ 0) = Ok l' h' (World ∅ ∅ 0) /\
                l' ≡ₚ [24; 8; 16] /\ StronglySorted (le Z.ltb) l'.
Proof.
  apply (heap_sorts Z.ltb [24; 8; 16] (mk_heap three_nodes NULL 0) (World ∅ ∅ 0)).
  - vm_compute. reflexivity.
  - apply (bool_decide_unpack _). vm_compute. exact I.
  - repeat constructor; try discriminate; vm_compute; eauto.
  - reflexivity.
Defined.
