(* ===== verification/Queue.v ===== *)
(** libuv's intrusive queue, src/queue.h: circular doubly linked lists whose links are
    members of the queued structs.

    The state is the memory of the links: [m !! p] is the pair of pointers at address
    [p].  Every macro is a sequence of loads and stores in the order of the source; a
    load or store through a pointer to no [QUEUE] is undefined behaviour. *)
From stdpp Require Import base gmap list numbers sets.
From Stdlib Require Import ZArith Lia.
From S2P Require Import Prelude Cmem.

(** [typedef void *QUEUE[2]] *)
Record QUEUE := mk_links {
  next : Z;
  prev : Z;
}.

Notation links_mem := (gmap Z QUEUE).

Definition load_links (p : Z) : SM links_mem QUEUE := fun m w =>
  match m !! p with
  | Some n => Ok n m w
  | None => UB
  end.

Definition store_links (p : Z) (f : QUEUE -> QUEUE) : SM links_mem unit := fun m w =>
  match m !! p with
  | Some n => Ok tt (<[p := f n]> m) w
  | None => UB
  end.

(** The macros as values and as places to store to. *)
Definition QUEUE_NEXT (q : Z) : SM links_mem Z := let* n := load_links q in ret (next n).
Definition QUEUE_PREV (q : Z) : SM links_mem Z := let* n := load_links q in ret (prev n).
Definition set_QUEUE_NEXT (q v : Z) : SM links_mem unit := store_links q (fun n => mk_links v (prev n)).
Definition set_QUEUE_PREV (q v : Z) : SM links_mem unit := store_links q (fun n => mk_links (next n) v).

Definition set_QUEUE_PREV_NEXT (q v : Z) : SM links_mem unit :=
  let* p := QUEUE_PREV q in set_QUEUE_NEXT p v.
Definition set_QUEUE_NEXT_PREV (q v : Z) : SM links_mem unit :=
  let* n := QUEUE_NEXT q in set_QUEUE_PREV n v.

Definition QUEUE_EMPTY (q : Z) : SM links_mem bool := let* n := QUEUE_NEXT q in ret (q =? n).

Definition QUEUE_HEAD (q : Z) : SM links_mem Z := QUEUE_NEXT q.

Definition QUEUE_INIT (q : Z) : SM links_mem unit :=
  set_QUEUE_NEXT q q;;
  set_QUEUE_PREV q q.

Definition QUEUE_ADD (h n : Z) : SM links_mem unit :=
  let* v := QUEUE_NEXT n in set_QUEUE_PREV_NEXT h v;;
  let* v := QUEUE_PREV h in set_QUEUE_NEXT_PREV n v;;
  let* v := QUEUE_PREV n in set_QUEUE_PREV h v;;
  set_QUEUE_PREV_NEXT h h.

Definition QUEUE_SPLIT (h q n : Z) : SM links_mem unit :=
  let* v := QUEUE_PREV h in set_QUEUE_PREV n v;;
  set_QUEUE_PREV_NEXT n n;;
  set_QUEUE_NEXT n q;;
  let* v := QUEUE_PREV q in set_QUEUE_PREV h v;;
  set_QUEUE_PREV_NEXT h h;;
  set_QUEUE_PREV q n.

Definition QUEUE_MOVE (h n : Z) : SM links_mem unit :=
  let* empty := QUEUE_EMPTY h in
  if (empty : bool) then QUEUE_INIT n
  else let* q := QUEUE_HEAD h in QUEUE_SPLIT h q n.

Definition QUEUE_INSERT_HEAD (h q : Z) : SM links_mem unit :=
  let* v := QUEUE_NEXT h in set_QUEUE_NEXT q v;;
  set_QUEUE_PREV q h;;
  set_QUEUE_NEXT_PREV q q;;
  set_QUEUE_NEXT h q.

Definition QUEUE_INSERT_TAIL (h q : Z) : SM links_mem unit :=
  set_QUEUE_NEXT q h;;
  let* v := QUEUE_PREV h in set_QUEUE_PREV q v;;
  set_QUEUE_PREV_NEXT q q;;
  set_QUEUE_PREV h q.

Definition QUEUE_REMOVE (q : Z) : SM links_mem unit :=
  let* v := QUEUE_NEXT q in set_QUEUE_PREV_NEXT q v;;
  let* v := QUEUE_PREV q in set_QUEUE_NEXT_PREV q v.

(** [QUEUE_FOREACH(q, h)] with the visited elements; the fuel bounds the number of
    elements. *)
Fixpoint foreach_from (fuel : nat) (h q : Z) : SM links_mem (list Z) :=
  match fuel with
  | O => nofuel
  | S fuel =>
      if q =? h then ret []
      else
        let* n := QUEUE_NEXT q in
        let* l := foreach_from fuel h n in
        ret (q :: l)
  end.

Definition QUEUE_FOREACH (fuel : nat) (h : Z) : SM links_mem (list Z) :=
  let* q := QUEUE_NEXT h in foreach_from fuel h q.

(** * The pointer queue of [Queue] as a list: [queue m h l] says that the links at [h]
    head a circular list with the elements [l].  Every macro acts on the lists of a
    family of disjoint queues. *)

Definition nxt (m : links_mem) (a : Z) : option Z := next <$> m !! a.
Definition prv (m : links_mem) (a : Z) : option Z := prev <$> m !! a.

Definition link (m : links_mem) (a b : Z) : Prop := nxt m a = Some b /\ prv m b = Some a.

(** Consecutive elements are linked in both directions. *)
Fixpoint chain (m : links_mem) (l : list Z) : Prop :=
  match l with
  | a :: (b :: _) as l => link m a b /\ chain m l
  | _ => True
  end.

Definition queue (m : links_mem) (h : Z) (l : list Z) : Prop :=
  NoDup (h :: l) /\ chain m (h :: l ++ [h]).

(** The links outside of [X] stay as they are. *)
Definition links_frame (X : list Z) (m m' : links_mem) : Prop :=
  dom m' = dom m /\ forall p, p ∉ X -> m' !! p = m !! p.

(** * Chains *)

Lemma chain_app m l1 x l2 : chain m (l1 ++ x :: l2) <-> chain m (l1 ++ [x]) /\ chain m (x :: l2).
Proof.
  induction l1 as [|a l1 IH]; [cbn; tauto|]. destruct l1 as [|b l1]; [cbn; tauto|].
  cbn [app chain] in *. rewrite IH. tauto.
Qed.

Lemma chain_app2 m l1 x y l2 : chain m (l1 ++ x :: y :: l2) <-> chain m (l1 ++ [x]) /\ link m x y /\ chain m (y :: l2).
Proof. rewrite chain_app. cbn. tauto. Qed.

(** What happens to the last element's [next] and the first one's [prev] is of no
    consequence. *)
Lemma chain_frame m m' l :
  (forall l1 x l2, l = l1 ++ x :: l2 -> l2 <> [] -> nxt m' x = nxt m x) ->
  (forall l1 x l2, l = l1 ++ x :: l2 -> l1 <> [] -> prv m' x = prv m x) ->
  chain m l -> chain m' l.
Proof.
  induction l as [|a l IH]; [done|]. intros Hn Hp. destruct l as [|b l]; [done|]. intros [[H1 H2] Hc].
  split.
  - split; [rewrite (Hn [] a (b :: l)) by done; done|by rewrite (Hp [a] b l) by done].
  - apply IH; [| |done].
    + intros l1 x l2 E Hne. apply (Hn (a :: l1) x l2); [by rewrite E|done].
    + intros l1 x l2 E Hne. apply (Hp (a :: l1) x l2); [by rewrite E|done].
Qed.

(** Without repetitions: all but the last, all but the first element. *)
Lemma chain_keep m m' a b l :
  NoDup l -> head l = Some a -> last l = Some b ->
  (forall x, x ∈ l -> x <> b -> nxt m' x = nxt m x) ->
  (forall x, x ∈ l -> x <> a -> prv m' x = prv m x) ->
  chain m l -> chain m' l.
Proof.
  intros Hnd Ha Hb Hn Hp. apply chain_frame.
  - intros l1 x l2 -> Hne. apply Hn; [set_solver|].
    destruct (exists_last Hne) as (l3 & c & ->). rewrite app_comm_cons, app_assoc, last_snoc in Hb.
    injection Hb as ->. apply NoDup_app in Hnd as (_ & _ & Hnd). apply list.NoDup_cons in Hnd as [Hx _]. set_solver.
  - intros l1 x l2 -> Hne. apply Hp; [set_solver|]. destruct l1 as [|c l1]; [done|].
    injection Ha as ->. cbn in Hnd. apply list.NoDup_cons in Hnd as [Hx _]. set_solver.
Qed.

(** * Stores *)

Definition with_next (q v : Z) (m : links_mem) : links_mem := alter (fun n => mk_links v (prev n)) q m.
Definition with_prev (q v : Z) (m : links_mem) : links_mem := alter (fun n => mk_links (next n) v) q m.

Lemma dom_with_next q v m : dom (with_next q v m) = dom m.
Proof. apply dom_alter_L. Qed.

Lemma dom_with_prev q v m : dom (with_prev q v m) = dom m.
Proof. apply dom_alter_L. Qed.

Lemma nxt_with_next m q v x : q ∈ dom m -> nxt (with_next q v m) x = if decide (x = q) then Some v else nxt m x.
Proof.
  intros [n E]%elem_of_dom. unfold nxt, with_next. rewrite lookup_alter. repeat case_decide; subst; try done.
  by rewrite E.
Qed.

Lemma prv_with_prev m q v x : q ∈ dom m -> prv (with_prev q v m) x = if decide (x = q) then Some v else prv m x.
Proof.
  intros [n E]%elem_of_dom. unfold prv, with_prev. rewrite lookup_alter. repeat case_decide; subst; try done.
  by rewrite E.
Qed.

Lemma nxt_with_prev m q v x : nxt (with_prev q v m) x = nxt m x.
Proof. unfold nxt, with_prev. rewrite lookup_alter. case_decide; subst; [by destruct (m !! _)|done]. Qed.

Lemma prv_with_next m q v x : prv (with_next q v m) x = prv m x.
Proof. unfold prv, with_next. rewrite lookup_alter. case_decide; subst; [by destruct (m !! _)|done]. Qed.

Lemma next_ok m w q v : nxt m q = Some v -> QUEUE_NEXT q m w = Ok v m w.
Proof.
  unfold nxt, QUEUE_NEXT, load_links. cbn [bind]. destruct (m !! q) eqn:E; [|done].
  cbn. intros [= <-]. done.
Qed.

Lemma prev_ok m w q v : prv m q = Some v -> QUEUE_PREV q m w = Ok v m w.
Proof.
  unfold prv, QUEUE_PREV, load_links. cbn [bind]. destruct (m !! q) eqn:E; [|done].
  cbn. intros [= <-]. done.
Qed.

Lemma store_ok m w q f : q ∈ dom m -> store_links q f m w = Ok tt (alter f q m) w.
Proof.
  intros [n E]%elem_of_dom. unfold store_links. rewrite E. f_equal. apply map_eq. intros x.
  rewrite lookup_alter. case_decide; subst; [by rewrite lookup_insert_eq, E|by rewrite lookup_insert_ne].
Qed.

Lemma set_next_ok m w q v : q ∈ dom m -> set_QUEUE_NEXT q v m w = Ok tt (with_next q v m) w.
Proof. apply store_ok. Qed.

Lemma set_prev_ok m w q v : q ∈ dom m -> set_QUEUE_PREV q v m w = Ok tt (with_prev q v m) w.
Proof. apply store_ok. Qed.

Lemma set_prev_next_ok m w q v p :
  prv m q = Some p -> p ∈ dom m -> set_QUEUE_PREV_NEXT q v m w = Ok tt (with_next p v m) w.
Proof. intros Hq Hp. unfold set_QUEUE_PREV_NEXT. cbn [bind]. rewrite (prev_ok m w q p) by done. by apply set_next_ok. Qed.

Lemma set_next_prev_ok m w q v n :
  nxt m q = Some n -> n ∈ dom m -> set_QUEUE_NEXT_PREV q v m w = Ok tt (with_prev n v m) w.
Proof. intros Hq Hn. unfold set_QUEUE_NEXT_PREV. cbn [bind]. rewrite (next_ok m w q n) by done. by apply set_prev_ok. Qed.

(** The links of an element, and of the two ends of a ring. *)
Lemma queue_dom m h l x : queue m h l -> x ∈ h :: l -> x ∈ dom m.
Proof.
  intros [_ Hc] Hx. apply list_elem_of_split in Hx as (l1 & l2 & E).
  rewrite (app_comm_cons l [h] h), E in Hc. rewrite <- app_assoc in Hc. cbn in Hc.
  destruct l2 as [|y l2]; cbn in Hc; apply chain_app2 in Hc as (_ & [Hn _] & _);
    unfold nxt in Hn; apply elem_of_dom; destruct (m !! x); done.
Qed.

Lemma last_split (h : Z) l : exists r t, h :: l = r ++ [t].
Proof. destruct (exists_last (l := h :: l)) as (r & t & E); [done|]. eauto. Qed.

(** Evaluates a macro: the hypotheses give the links and the domains. *)
Ltac links_dom := rewrite ?dom_with_next, ?dom_with_prev, ?dom_with_next, ?dom_with_prev, ?dom_with_next, ?dom_with_prev; assumption.
Ltac links_absurd :=
  match goal with
  | H : ?x = ?y, N : ?x <> ?y |- _ => destruct (N H)
  | H : ?x = ?y, N : ?y <> ?x |- _ => destruct (N (eq_sym H))
  end.
Ltac links_look :=
  rewrite ?nxt_with_prev, ?prv_with_next;
  repeat (first [rewrite nxt_with_next by links_dom | rewrite prv_with_prev by links_dom];
          rewrite ?nxt_with_prev, ?prv_with_next);
  repeat case_decide; first [links_absurd | subst; contradiction | eassumption | reflexivity | congruence | subst; exfalso; eauto 3].
Ltac links_run :=
  repeat (cbn [bind ret];
    first [ rewrite set_next_ok by links_dom
          | rewrite set_prev_ok by links_dom
          | erewrite set_prev_next_ok; [|solve [links_look]|links_dom]
          | erewrite set_next_prev_ok; [|solve [links_look]|links_dom]
          | erewrite next_ok; [|solve [links_look]]
          | erewrite prev_ok; [|solve [links_look]] ]).

(** A ring as the chain of its elements and the link from the last one to the head. *)
Lemma ring_inv m h l :
  queue m h l -> exists r t, h :: l = r ++ [t] /\ NoDup (r ++ [t]) /\ chain m (r ++ [t]) /\
    head (r ++ [t]) = Some h /\ nxt m t = Some h /\ prv m h = Some t /\
    (forall x, x ∈ r ++ [t] -> x ∈ dom m) /\ h ∈ r ++ [t].
Proof.
  intros Hq. pose proof (queue_dom m h l) as Hd. destruct (last_split h l) as (r & t & E). exists r, t.
  pose proof Hq as [Hnd Hc]. rewrite app_comm_cons, E, <- app_assoc in Hc. cbn in Hc.
  apply chain_app2 in Hc as (Hc & [Hn Hp] & _). rewrite <- E. split_and!; try done.
  - by rewrite E.
  - intros x Hx. by apply Hd.
  - set_solver.
Qed.

Lemma ring_intro m h l r t :
  h :: l = r ++ [t] -> NoDup (h :: l) -> chain m (r ++ [t]) -> nxt m t = Some h -> prv m h = Some t ->
  queue m h l.
Proof.
  intros E Hnd Hc Hn Hp. split; [done|]. rewrite app_comm_cons, E, <- app_assoc. cbn.
  by apply chain_app2.
Qed.

Ltac chain_kept a b :=
  match goal with H : chain ?m ?l |- chain ?m' ?l =>
    apply (chain_keep m m' a b l); [assumption|assumption|by apply last_snoc|intros; links_look|intros; links_look|exact H]
  end.

Lemma frame_none X m : links_frame X m m.
Proof. done. Qed.

Lemma frame_next X m m' q v : q ∈ X -> links_frame X m m' -> links_frame X m (with_next q v m').
Proof.
  intros Hq [D F]. split; [by rewrite dom_with_next|]. intros p Hp. unfold with_next.
  rewrite lookup_alter_ne by (by intros ->). by apply F.
Qed.

Lemma frame_prev X m m' q v : q ∈ X -> links_frame X m m' -> links_frame X m (with_prev q v m').
Proof.
  intros Hq [D F]. split; [by rewrite dom_with_prev|]. intros p Hp. unfold with_prev.
  rewrite lookup_alter_ne by (by intros ->). by apply F.
Qed.

Ltac links_framed :=
  repeat first [apply frame_next; [solve [assumption | clear; set_solver]|]
               |apply frame_prev; [solve [assumption | clear; set_solver]|]];
  apply frame_none.

(** * The macros on lists *)

Lemma insert_tail_ok m h l q w :
  queue m h l -> q ∉ h :: l -> q ∈ dom m ->
  exists m', QUEUE_INSERT_TAIL h q m w = Ok tt m' w /\ queue m' h (l ++ [q]) /\
             links_frame (q :: h :: l) m m'.
Proof.
  intros Hq Hnew Hqd. pose proof Hq as [Hnd _].
  destruct (ring_inv m h l Hq) as (r & t & E & Hnd' & Hc & Hh & Hnt & Hph & Hdom & Hhin).
  rewrite E in Hnew. assert (Hhd := Hdom h Hhin). assert (Htd := Hdom t ltac:(set_solver)).
  assert (q <> t) by set_solver. assert (q <> h) by set_solver.
  unfold QUEUE_INSERT_TAIL. links_run. eexists. split; [reflexivity|]. split.
  - apply (ring_intro _ h (l ++ [q]) (r ++ [t]) q).
    + by rewrite app_comm_cons, E.
    + rewrite app_comm_cons, E. apply NoDup_app. split_and!; [done|set_solver|apply NoDup_singleton].
    + rewrite <- app_assoc. cbn. apply chain_app2. split_and!; [chain_kept h t|split; links_look|done].
    + links_look.
    + links_look.
  - assert (Ht : t ∈ q :: h :: l) by (rewrite E; clear; set_solver). links_framed.
Qed.

(** The same ring, from its first element to the head. *)
Lemma ring_rest m h l :
  queue m h l -> exists y s, l ++ [h] = y :: s /\ NoDup (y :: s) /\ chain m (y :: s) /\
    last (y :: s) = Some h /\ nxt m h = Some y /\ prv m y = Some h /\ y ∈ h :: l.
Proof.
  intros [Hnd Hc]. destruct (l ++ [h]) as [|y s] eqn:E; [by destruct l|]. exists y, s.
  assert (Hp : h :: l ≡ₚ y :: s) by (rewrite <- E; apply Permutation_cons_append).
  destruct Hc as [[Hn Hv] Hc]. split_and!; try done.
  - by rewrite <- Hp.
  - by rewrite <- E, last_snoc.
  - rewrite Hp. set_solver.
Qed.

Lemma insert_head_ok m h l q w :
  queue m h l -> q ∉ h :: l -> q ∈ dom m ->
  exists m', QUEUE_INSERT_HEAD h q m w = Ok tt m' w /\ queue m' h (q :: l) /\
             links_frame (q :: h :: l) m m'.
Proof.
  intros Hq Hnew Hqd. pose proof Hq as [Hnd _].
  destruct (ring_rest m h l Hq) as (y & s & E & Hnd' & Hc & Hl & Hnh & Hpy & Hy).
  assert (Hhd : h ∈ dom m) by (apply (queue_dom m h l); [done|set_solver]).
  assert (Hyd := queue_dom m h l y Hq Hy).
  assert (q <> y) by (intros ->; done). assert (q <> h) by (intros ->; set_solver).
  assert (Hqs : q ∉ y :: s) by (rewrite <- E; set_solver).
  unfold QUEUE_INSERT_HEAD. links_run. eexists. split; [reflexivity|]. split.
  - split.
    + rewrite list.NoDup_cons in Hnd |- *. rewrite list.NoDup_cons. destruct Hnd. set_solver.
    + cbn [app]. rewrite E. split; [split; links_look|]. split; [split; links_look|].
      match goal with |- chain ?m' _ => apply (chain_keep m m' y h (y :: s)) end;
        [assumption|done|assumption|intros; links_look|intros; links_look|exact Hc].
  - assert (Hy' : y ∈ q :: h :: l) by (clear -Hy; set_solver). links_framed.
Qed.

(** A ring cut before an element: the part up to its predecessor and the rest. *)
Lemma ring_cut m h l1 q l2 :
  queue m h (l1 ++ q :: l2) -> exists r t, h :: l1 = r ++ [t] /\ NoDup (r ++ [t]) /\ chain m (r ++ [t]) /\
    head (r ++ [t]) = Some h /\ link m t q /\ chain m (q :: l2 ++ [h]) /\ NoDup (q :: l2 ++ [h]) /\
    (forall x, x ∈ r ++ [t] -> x ∈ q :: l2 -> False) /\ h ∈ r ++ [t] /\
    (forall x, x ∈ r ++ [t] -> x ∈ dom m) /\ (forall x, x ∈ q :: l2 -> x ∈ dom m).
Proof.
  intros Hq. pose proof (queue_dom m h (l1 ++ q :: l2)) as Hd. pose proof Hq as [Hnd Hc].
  destruct (last_split h l1) as (r & t & E). exists r, t.
  rewrite app_comm_cons, E in Hnd. rewrite app_comm_cons, E in Hd.
  rewrite <- app_assoc, app_comm_cons, E, <- !app_assoc in Hc. cbn in Hc.
  apply chain_app2 in Hc as (Hc1 & Hl & Hc2).
  apply NoDup_app in Hnd as (Hn1 & Hdis & Hn2). rewrite <- E. split_and!; try done.
  - by rewrite E.
  - by rewrite E.
  - rewrite app_comm_cons, NoDup_app. split_and!; [done| |apply NoDup_singleton].
    intros x Hx ->%list_elem_of_singleton. apply (Hdis h); [rewrite <- E|]; set_solver.
  - intros x Hx. rewrite E in Hx. by apply Hdis.
  - set_solver.
  - intros x Hx. rewrite E in Hx. apply Hd; [done|]. rewrite elem_of_app. by left.
  - intros x Hx. apply Hd; [done|]. rewrite elem_of_app. by right.
Qed.

Lemma remove_ok m h l1 q l2 w :
  queue m h (l1 ++ q :: l2) ->
  exists m', QUEUE_REMOVE q m w = Ok tt m' w /\ queue m' h (l1 ++ l2) /\
             links_frame (h :: l1 ++ q :: l2) m m'.
Proof.
  intros Hq. pose proof Hq as [Hnd _].
  destruct (ring_cut m h l1 q l2 Hq)
    as (r & t & E & Hn1 & Hc1 & Hh & [Hnt Hpq] & Hc2 & Hn2 & Hdis & Hhin & Hd1 & Hd2).
  destruct (l2 ++ [h]) as [|y s] eqn:E2; [by destruct l2|].
  destruct Hc2 as [[Hnq Hpy] Hc2]. apply list.NoDup_cons in Hn2 as [Hqy Hn2].
  assert (Htd := Hd1 t ltac:(set_solver)). assert (Hqd := Hd2 q ltac:(set_solver)).
  assert (Hly : last (y :: s) = Some h) by (by rewrite <- E2, last_snoc).
  assert (Hy : y = h \/ y ∈ l2) by (destruct l2; injection E2 as -> _; [by left|right; set_solver]).
  assert (Hyd : y ∈ dom m) by (destruct Hy as [-> |]; [by apply Hd1|apply Hd2; set_solver]).
  assert (t <> q) by (intros ->; apply (Hdis q); set_solver).
  assert (q <> y) by (intros ->; set_solver).
  assert (Hyr : forall x, x = y -> x ∈ r ++ [t] -> x <> h -> False)
    by (intros x -> Hx Hne; destruct Hy as [|Hy]; [done|apply (Hdis y); set_solver]).
  assert (Hty : forall x, x = t -> x ∈ y :: s -> x <> h -> False).
  { intros x -> Hx Hne. apply (Hdis t); [set_solver|]. rewrite <- E2 in Hx. set_solver. }
  unfold QUEUE_REMOVE. links_run. eexists. split; [reflexivity|]. split.
  - split.
    + rewrite app_comm_cons in Hnd |- *. apply NoDup_app in Hnd as (? & Hd & [_ ?]%list.NoDup_cons).
      apply NoDup_app. split_and!; try done. intros x Hx. specialize (Hd x Hx). set_solver.
    + rewrite <- app_assoc, E2, app_comm_cons, E, <- app_assoc. cbn. apply chain_app2. split_and!.
      * chain_kept h t.
      * split; links_look.
      * match goal with |- chain ?m' _ => apply (chain_keep m m' y h (y :: s)) end;
          [assumption|done|assumption|intros; links_look|intros; links_look|exact Hc2].
  - assert (Ht : t ∈ h :: l1 ++ q :: l2) by (rewrite app_comm_cons, E; clear; set_solver).
    assert (Hy' : y ∈ h :: l1 ++ q :: l2) by (clear -Hy; set_solver). links_framed.
Qed.

Lemma queue_init_ok m q w :
  q ∈ dom m ->
  exists m', QUEUE_INIT q m w = Ok tt m' w /\ queue m' q [] /\ links_frame [q] m m'.
Proof.
  intros Hqd. unfold QUEUE_INIT. links_run. eexists. split; [reflexivity|]. split.
  - split; [apply NoDup_singleton|]. split; [split; links_look|done].
  - links_framed.
Qed.

Lemma split_ok m h l1 q l2 n w :
  queue m h (l1 ++ q :: l2) -> n ∉ h :: l1 ++ q :: l2 -> n ∈ dom m ->
  exists m', QUEUE_SPLIT h q n m w = Ok tt m' w /\ queue m' h l1 /\ queue m' n (q :: l2) /\
             links_frame (n :: h :: l1 ++ q :: l2) m m'.
Proof.
  intros Hq Hnew Hnd'. pose proof Hq as [Hnd _].
  destruct (ring_cut m h l1 q l2 Hq)
    as (r & t & E & Hn1 & Hc1 & Hh & [Hnt Hpq] & Hc2 & Hn2 & Hdis & Hhin & Hd1 & Hd2).
  destruct (last_split q l2) as (s & u & E2).
  rewrite app_comm_cons, E2, <- app_assoc in Hc2. cbn in Hc2. apply chain_app2 in Hc2 as (Hc2 & [Hnu Hph] & _).
  assert (Hn2' : NoDup (s ++ [u])) by (rewrite <- E2; rewrite app_comm_cons in Hn2; by apply NoDup_app in Hn2 as []).
  assert (Hhq : head (s ++ [u]) = Some q) by (by rewrite <- E2).
  rewrite E2 in Hdis, Hd2.
  assert (Hnr : n ∉ r ++ [t]) by (rewrite <- E; set_solver).
  assert (Hns : n ∉ s ++ [u]) by (rewrite <- E2; set_solver).
  assert (Hqs : q ∈ s ++ [u]) by (rewrite <- E2; set_solver).
  assert (Htin : t ∈ r ++ [t]) by set_solver. assert (Huin : u ∈ s ++ [u]) by set_solver.
  assert (Hhd := Hd1 h Hhin). assert (Htd := Hd1 t Htin). assert (Hqd := Hd2 q Hqs). assert (Hud := Hd2 u Huin).
  assert (n <> h) by (intros ->; done). assert (n <> t) by (intros ->; done).
  assert (n <> q) by (intros ->; done). assert (n <> u) by (intros ->; done).
  assert (t <> u) by (intros ->; eauto). assert (h <> q) by (intros ->; eauto).
  unfold QUEUE_SPLIT. links_run. eexists. split; [reflexivity|]. split; [|split].
  - apply (ring_intro _ h l1 r t E); [rewrite app_comm_cons in Hnd; by apply NoDup_app in Hnd as []|chain_kept h t|links_look|links_look].
  - apply (ring_intro _ n (q :: l2) (n :: s) u).
    + by rewrite E2.
    + apply list.NoDup_cons. rewrite E2. done.
    + rewrite <- app_comm_cons, <- E2. split; [split; links_look|]. rewrite E2. chain_kept q u.
    + links_look.
    + links_look.
  - assert (Ht : t ∈ n :: h :: l1 ++ q :: l2) by (rewrite (app_comm_cons l1), E; clear; set_solver).
    assert (Hu : u ∈ n :: h :: l1 ++ q :: l2) by (rewrite E2; clear; set_solver). links_framed.
Qed.

Lemma empty_ok m h l w :
  queue m h l -> QUEUE_EMPTY h m w = Ok (match l with [] => true | _ => false end) m w.
Proof.
  intros [Hnd Hc]. unfold QUEUE_EMPTY. destruct l as [|y l]; cbn [app chain] in Hc.
  - destruct Hc as [[Hn _] _]. links_run. by rewrite Z.eqb_refl.
  - destruct Hc as [[Hn _] _]. links_run. destruct (Z.eqb_spec h y) as [->|]; [|done].
    apply list.NoDup_cons in Hnd as [Hy _]. set_solver.
Qed.

Lemma move_ok m h l n w :
  queue m h l -> n ∉ h :: l -> n ∈ dom m ->
  exists m', QUEUE_MOVE h n m w = Ok tt m' w /\ queue m' n l /\ queue m' h [] /\
             links_frame (n :: h :: l) m m'.
Proof.
  intros Hq Hnew Hnd. unfold QUEUE_MOVE. cbn [bind]. rewrite (empty_ok m h l) by done.
  destruct l as [|q l].
  - destruct (queue_init_ok m n w Hnd) as (m' & -> & Hn & Hd & Hf). exists m'. split; [done|]. split; [done|].
    assert (n <> h) by set_solver. split.
    + destruct Hq as [? [[H1 H2] _]]. split; [done|]. unfold nxt, prv in *. cbn. unfold link, nxt, prv.
      rewrite Hf by set_solver. done.
    + split; [done|]. intros p Hp. apply Hf. set_solver.
  - unfold QUEUE_HEAD. pose proof Hq as [_ [[Hn _] _]]. cbn [app] in Hn. links_run.
    destruct (split_ok m h [] q l n w Hq Hnew Hnd) as (m' & -> & ? & ? & ?). eauto.
Qed.

Lemma add_ok m h l n l' w :
  queue m h l -> queue m n l' -> (forall x, x ∈ h :: l -> x ∈ n :: l' -> False) ->
  exists m', QUEUE_ADD h n m w = Ok tt m' w /\ queue m' h (l ++ l') /\
             links_frame (h :: l ++ n :: l') m m'.
Proof.
  intros Hq Hq' Hdis. pose proof Hq as [Hnd _]. pose proof Hq' as [Hnd' _].
  destruct (ring_inv m h l Hq) as (r & t & E & Hn1 & Hc & Hh & Hnt & Hph & Hdom & Hhin).
  assert (Htin : t ∈ r ++ [t]) by set_solver. assert (Hhd := Hdom h Hhin). assert (Htd := Hdom t Htin).
  assert (Hnd2 : n ∈ dom m) by (apply (queue_dom m n l'); [done|set_solver]).
  assert (Ht : t ∈ h :: l) by (by rewrite E).
  assert (n <> h) by (intros ->; apply (Hdis h); set_solver).
  assert (n <> t) by (intros ->; apply (Hdis t); set_solver).
  assert (Hnr : n ∉ r ++ [t]) by (rewrite <- E; intros Hx; apply (Hdis n); set_solver).
  destruct l' as [|y s0].
  - destruct Hq' as [_ [[Hnn Hpn] _]]. rewrite app_nil_r. unfold QUEUE_ADD. links_run.
    assert (Htx : t ∈ h :: l ++ [n]) by (clear -Ht; set_solver).
    eexists. split; [reflexivity|]. split; [|links_framed].
    apply (ring_intro _ h l r t E Hnd); [chain_kept h t|links_look|links_look].
  - destruct (last_split y s0) as (s & u & E2).
    destruct (ring_inv m n (y :: s0) Hq') as (s' & u' & E' & _ & Hc' & _ & Hnu & Hpn & Hdom' & _).
    destruct s' as [|x s']; [by destruct s0|]. injection E' as <- E'. rewrite E2 in E'.
    apply app_inj_tail in E' as [<- <-].
    assert (Hc2 : chain m (s ++ [u]) /\ link m n y) by (rewrite <- app_comm_cons, <- E2 in Hc'; rewrite <- E2; by destruct Hc').
    destruct Hc2 as [Hc2 [Hnn Hpy]]. clear Hc'.
    assert (Hn2 : NoDup (s ++ [u])) by (rewrite <- E2; by apply list.NoDup_cons in Hnd' as []).
    assert (Hhy : head (s ++ [u]) = Some y) by (by rewrite <- E2).
    assert (Hdis2 : forall x, x ∈ r ++ [t] -> x ∈ s ++ [u] -> False)
      by (intros x; rewrite <- E, <- E2; intros ? ?; apply (Hdis x); [done|by apply list_elem_of_further]).
    assert (Hyin : y ∈ s ++ [u]) by (rewrite <- E2; apply list_elem_of_here). assert (Huin : u ∈ s ++ [u]) by (clear; set_solver).
    assert (Hns : n ∉ s ++ [u]) by (rewrite <- E2; by apply list.NoDup_cons in Hnd' as []).
    assert (Hyd : y ∈ dom m) by (apply Hdom'; by apply list_elem_of_further). assert (Hud : u ∈ dom m) by (apply Hdom'; by apply list_elem_of_further).
    assert (n <> y) by (intros ->; done). assert (n <> u) by (intros ->; done).
    assert (y <> h) by (intros ->; eauto). assert (t <> u) by (intros ->; eauto).
    unfold QUEUE_ADD. links_run. eexists. split; [reflexivity|]. split.
    + split.
      * rewrite app_comm_cons. apply NoDup_app. split_and!; [done| |by apply list.NoDup_cons in Hnd' as []].
        intros x Hx Hx'. apply (Hdis x); [done|by apply list_elem_of_further].
      * rewrite <- app_assoc, app_comm_cons, E, <- !app_assoc. cbn. apply chain_app2.
        split_and!; [chain_kept h t|split; links_look|].
        rewrite app_comm_cons, E2, <- app_assoc. cbn. apply chain_app2.
        split_and!; [chain_kept y u|split; links_look|done].
    + assert (Hu : u ∈ h :: l ++ n :: y :: s0) by (rewrite E2; clear; set_solver).
      assert (Htx : t ∈ h :: l ++ n :: y :: s0) by (clear -Ht; set_solver). links_framed.
Qed.

(** The fuel of [QUEUE_FOREACH]: one more than the elements. *)
Lemma foreach_ok m h w : forall l fuel,
  chain m (l ++ [h]) -> h ∉ l -> (length l < fuel)%nat ->
  foreach_from fuel h (List.hd h l) m w = Ok l m w.
Proof.
  induction l as [|q l IH]; intros fuel Hc Hh Hf; (destruct fuel as [|fuel]; [cbn in Hf; lia|]);
    cbn [foreach_from List.hd].
  - by rewrite Z.eqb_refl.
  - destruct (Z.eqb_spec q h) as [->|]; [set_solver|]. cbn [app] in Hc.
    assert (Hn : nxt m q = Some (List.hd h l)) by (by destruct l; destruct Hc as [[? _] _]).
    cbn [bind]. rewrite (next_ok m w q _ Hn), IH; [done| |set_solver|cbn in Hf; lia].
    destruct l; [done|]. by destruct Hc.
Qed.

Lemma queue_foreach_ok m h l fuel w :
  queue m h l -> (length l < fuel)%nat -> QUEUE_FOREACH fuel h m w = Ok l m w.
Proof.
  intros [Hnd Hc] Hf. apply list.NoDup_cons in Hnd as [Hh _]. unfold QUEUE_FOREACH.
  assert (Hn : nxt m h = Some (List.hd h l)) by (by destruct l; destruct Hc as [[? _] _]).
  cbn [bind]. rewrite (next_ok m w h _ Hn). apply foreach_ok; [|done|done].
  destruct l; [done|]. by destruct Hc.
Qed.

(** * Families of queues *)

Inductive queue_op :=
| qop_init (h : Z)
| qop_insert_head (h q : Z)
| qop_insert_tail (h q : Z)
| qop_remove (q : Z)
| qop_move (h n : Z)
| qop_split (h q n : Z)
| qop_add (h n : Z).

Definition run_queue_op (op : queue_op) : SM links_mem unit :=
  match op with
  | qop_init h => QUEUE_INIT h
  | qop_insert_head h q => QUEUE_INSERT_HEAD h q
  | qop_insert_tail h q => QUEUE_INSERT_TAIL h q
  | qop_remove q => QUEUE_REMOVE q
  | qop_move h n => QUEUE_MOVE h n
  | qop_split h q n => QUEUE_SPLIT h q n
  | qop_add h n => QUEUE_ADD h n
  end.

(** The abstract state: the elements of each queue, by its head. *)
Record queues (m : links_mem) (Q : gmap Z (list Z)) : Prop := {
  q_ring h l : Q !! h = Some l -> queue m h l;
  q_disjoint h1 l1 h2 l2 x :
    Q !! h1 = Some l1 -> Q !! h2 = Some l2 -> x ∈ h1 :: l1 -> x ∈ h2 :: l2 -> h1 = h2;
}.

Definition unqueued (D : gset Z) (Q : gmap Z (list Z)) (q : Z) : Prop :=
  q ∈ D /\ forall h l, Q !! h = Some l -> q ∉ h :: l.

(** What the macros mean, and when they may be used. *)
Inductive queue_step (D : gset Z) (Q : gmap Z (list Z)) : queue_op -> gmap Z (list Z) -> Prop :=
| step_init h : unqueued D Q h -> queue_step D Q (qop_init h) (<[h := []]> Q)
| step_insert_head h l q :
    Q !! h = Some l -> unqueued D Q q -> queue_step D Q (qop_insert_head h q) (<[h := q :: l]> Q)
| step_insert_tail h l q :
    Q !! h = Some l -> unqueued D Q q -> queue_step D Q (qop_insert_tail h q) (<[h := l ++ [q]]> Q)
| step_remove h l1 q l2 :
    Q !! h = Some (l1 ++ q :: l2) -> queue_step D Q (qop_remove q) (<[h := l1 ++ l2]> Q)
| step_move h l n :
    Q !! h = Some l -> unqueued D Q n -> queue_step D Q (qop_move h n) (<[n := l]> (<[h := []]> Q))
| step_split h l1 q l2 n :
    Q !! h = Some (l1 ++ q :: l2) -> unqueued D Q n ->
    queue_step D Q (qop_split h q n) (<[n := q :: l2]> (<[h := l1]> Q))
| step_add h l n l' :
    Q !! h = Some l -> Q !! n = Some l' -> h <> n ->
    queue_step D Q (qop_add h n) (<[h := l ++ l']> (delete n Q)).

Lemma queue_frame m m' h l X :
  queue m h l -> links_frame X m m' -> (forall x, x ∈ h :: l -> x ∉ X) -> queue m' h l.
Proof.
  intros [Hnd Hc] [_ F] Hx. split; [done|].
  assert (Hsame : forall x, x ∈ h :: l ++ [h] -> m' !! x = m !! x).
  { intros x Hin. apply F, Hx. rewrite app_comm_cons, elem_of_app in Hin. set_solver. }
  revert Hc. apply chain_frame; intros l1 x l2 E _; unfold nxt, prv; rewrite Hsame; [done| |done|];
    rewrite E; set_solver.
Qed.

(** An operation that works on the links [X] leaves the queues elsewhere alone. *)
Lemma queues_change m m' Q Q' X :
  queues m Q -> links_frame X m m' ->
  (forall h l, Q' !! h = Some l ->
     (Q !! h = Some l /\ (forall x, x ∈ h :: l -> x ∉ X)) \/
     (queue m' h l /\ (forall x, x ∈ h :: l -> x ∈ X))) ->
  (forall h1 l1 h2 l2 x, Q' !! h1 = Some l1 -> Q' !! h2 = Some l2 -> x ∈ X ->
     x ∈ h1 :: l1 -> x ∈ h2 :: l2 -> h1 = h2) ->
  queues m' Q'.
Proof.
  intros HQ HF Hcase Hdis. split.
  - intros h l Hl. destruct (Hcase h l Hl) as [[Hl' Hx]|[? _]]; [|done].
    by apply (queue_frame m m' h l X); [apply (q_ring m Q HQ)| |].
  - intros h1 l1 h2 l2 x H1 H2 Hx1 Hx2. destruct (decide (x ∈ X)) as [Hx|Hx]; [by eapply Hdis|].
    destruct (Hcase h1 l1 H1) as [[H1' _]|[_ Hin]]; [|by destruct Hx; apply Hin].
    destruct (Hcase h2 l2 H2) as [[H2' _]|[_ Hin]]; [|by destruct Hx; apply Hin].
    by apply (q_disjoint m Q HQ h1 l1 h2 l2 x).
Qed.

(** One queue changes, between its own elements and unqueued ones. *)
Lemma queues_one m m' Q h l X :
  queues m Q -> links_frame X m m' -> queue m' h l -> (forall x, x ∈ h :: l -> x ∈ X) ->
  (forall x, x ∈ X -> unqueued (dom m) Q x \/ exists l0, Q !! h = Some l0 /\ x ∈ h :: l0) ->
  queues m' (<[h := l]> Q).
Proof.
  intros HQ HF Hq Hl HX.
  assert (Hother : forall h1 l1 x, h1 <> h -> Q !! h1 = Some l1 -> x ∈ h1 :: l1 -> x ∉ X).
  { intros h1 l1 x Hne H1 Hx HxX. destruct (HX x HxX) as [[_ Hu]|(l0 & H0 & Hx0)]; [by apply (Hu h1 l1)|].
    apply Hne. by apply (q_disjoint m Q HQ h1 l1 h l0 x). }
  apply (queues_change m m' Q _ X HQ HF).
  - intros h1 l1 H1. destruct (decide (h1 = h)) as [->|Hne].
    + rewrite lookup_insert_eq in H1. injection H1 as <-. by right.
    + rewrite lookup_insert_ne in H1 by done. left. split; [done|]. intros x Hx. by apply (Hother h1 l1).
  - intros h1 l1 h2 l2 x H1 H2 HxX Hx1 Hx2.
    destruct (decide (h1 = h)) as [->|Hn1], (decide (h2 = h)) as [->|Hn2]; [done| | |].
    + rewrite lookup_insert_ne in H2 by done. by destruct (Hother h2 l2 x Hn2 H2 Hx2).
    + rewrite lookup_insert_ne in H1 by done. by destruct (Hother h1 l1 x Hn1 H1 Hx1).
    + rewrite lookup_insert_ne in H1 by done. by destruct (Hother h1 l1 x Hn1 H1 Hx1).
Qed.

(** A queue is cut in two; the second part gets the head [n]. *)
Lemma queues_two m m' Q h l0 l1 n l2 :
  queues m Q -> Q !! h = Some l0 -> unqueued (dom m) Q n -> links_frame (n :: h :: l0) m m' ->
  queue m' h l1 -> queue m' n l2 -> l0 = l1 ++ l2 ->
  queues m' (<[n := l2]> (<[h := l1]> Q)).
Proof.
  intros HQ Hh [Hnd Hn] HF Hq1 Hq2 ->. pose proof (Hn h _ Hh) as Hnh.
  assert (n <> h) by (intros ->; set_solver).
  assert (Hnn : Q !! n = None) by (destruct (Q !! n) eqn:E; [|done]; destruct (Hn n _ E); set_solver).
  pose proof (q_ring m Q HQ h _ Hh) as [Hnd0 _].
  assert (Hother : forall h1 x, h1 <> n -> h1 <> h -> forall l, Q !! h1 = Some l -> x ∈ h1 :: l -> x ∉ n :: h :: l1 ++ l2).
  { intros h1 x Hn1 Hh1 l Hl Hx Hin. apply elem_of_cons in Hin as [->|Hin]; [by apply (Hn h1 l)|].
    apply Hh1. by apply (q_disjoint m Q HQ h1 l h (l1 ++ l2) x). }
  assert (Hdis : forall x, x ∈ h :: l1 -> x ∈ n :: l2 -> False).
  { intros x H1 H2. rewrite app_comm_cons in Hnd0. apply NoDup_app in Hnd0 as (_ & Hd & _).
    apply elem_of_cons in H2 as [->|H2]; [|by apply (Hd x)]. apply Hnh. set_solver. }
  apply (queues_change m m' Q _ (n :: h :: l1 ++ l2) HQ HF).
  - intros h1 l. rewrite !lookup_insert. repeat case_decide; subst; try done.
    + intros [= <-]. right. split; [done|set_solver].
    + intros [= <-]. right. split; [done|set_solver].
    + intros Hl. left. split; [done|]. intros x Hx. by apply (Hother h1 x ltac:(done) ltac:(done) l).
  - intros h1 k1 h2 k2 x. rewrite !lookup_insert. repeat case_decide; subst; try done; intros E1 E2 HX Hx1 Hx2;
      simplify_eq; try done;
      first [by destruct (Hdis x) | by destruct (Hother h1 x ltac:(done) ltac:(done) k1)
            | by destruct (Hother h2 x ltac:(done) ltac:(done) k2)].
Qed.

(** Two queues are joined; the head of the second one is free afterwards. *)
Lemma queues_joined m m' Q h l n l' :
  queues m Q -> Q !! h = Some l -> Q !! n = Some l' -> h <> n ->
  links_frame (h :: l ++ n :: l') m m' -> queue m' h (l ++ l') ->
  queues m' (<[h := l ++ l']> (delete n Q)).
Proof.
  intros HQ Hh Hn Hne HF Hq.
  assert (Hother : forall h1 x, h1 <> n -> h1 <> h -> forall k, Q !! h1 = Some k -> x ∈ h1 :: k -> x ∉ h :: l ++ n :: l').
  { intros h1 x Hn1 Hh1 k Hk Hx Hin. rewrite app_comm_cons in Hin. apply elem_of_app in Hin as [Hin|Hin].
    - apply Hh1. by apply (q_disjoint m Q HQ h1 k h l x).
    - apply Hn1. by apply (q_disjoint m Q HQ h1 k n l' x). }
  apply (queues_change m m' Q _ (h :: l ++ n :: l') HQ HF).
  - intros h1 k. rewrite lookup_insert, lookup_delete. repeat case_decide; subst; try done.
    + intros [= <-]. right. split; [done|set_solver].
    + intros Hk. left. split; [done|]. intros x Hx. by apply (Hother h1 x ltac:(done) ltac:(done) k).
  - intros h1 k1 h2 k2 x. rewrite !lookup_insert, !lookup_delete. repeat case_decide; subst; try done; intros E1 E2 HX Hx1 Hx2;
      simplify_eq; try done;
      first [by destruct (Hother h1 x ltac:(done) ltac:(done) k1) | by destruct (Hother h2 x ltac:(done) ltac:(done) k2)].
Qed.

(** C21: every queue macro, on pointers, is its operation on the lists of a family of
    disjoint queues; no other queue changes and no dangling pointer is followed. *)
Theorem queue_refines_lists m Q op Q' w :
  queues m Q -> queue_step (dom m) Q op Q' ->
  exists m', run_queue_op op m w = Ok tt m' w /\ queues m' Q' /\ dom m' = dom m.
Proof.
  intros HQ Hs. destruct Hs as [h Hu|h l q Hl Hu|h l q Hl Hu|h l1 q l2 Hl|h l n Hl Hu|h l1 q l2 n Hl Hu|h l n l' Hl Hl' Hne];
    cbn [run_queue_op].
  - destruct (queue_init_ok m h w (proj1 Hu)) as (m' & -> & Hq & HF). exists m'. split; [done|]. split; [|apply HF].
    apply (queues_one m m' Q h [] [h]); try done. intros x ->%list_elem_of_singleton. by left.
  - destruct (insert_head_ok m h l q w (q_ring m Q HQ h l Hl)) as (m' & -> & Hq & HF); [by apply (proj2 Hu)|apply Hu|].
    exists m'. split; [done|]. split; [|apply HF].
    apply (queues_one m m' Q h (q :: l) (q :: h :: l)); try done; [set_solver|].
    intros x [->|Hx]%elem_of_cons; [by left|]. right. eauto.
  - destruct (insert_tail_ok m h l q w (q_ring m Q HQ h l Hl)) as (m' & -> & Hq & HF); [by apply (proj2 Hu)|apply Hu|].
    exists m'. split; [done|]. split; [|apply HF].
    apply (queues_one m m' Q h (l ++ [q]) (q :: h :: l)); try done; [set_solver|].
    intros x [->|Hx]%elem_of_cons; [by left|]. right. eauto.
  - destruct (remove_ok m h l1 q l2 w (q_ring m Q HQ h _ Hl)) as (m' & -> & Hq & HF).
    exists m'. split; [done|]. split; [|apply HF].
    apply (queues_one m m' Q h (l1 ++ l2) (h :: l1 ++ q :: l2)); try done; [set_solver|]. right. eauto.
  - destruct (move_ok m h l n w (q_ring m Q HQ h l Hl)) as (m' & -> & Hq1 & Hq2 & HF); [by apply (proj2 Hu)|apply Hu|].
    exists m'. split; [done|]. split; [|apply HF]. by apply (queues_two m m' Q h l [] n l).
  - destruct (split_ok m h l1 q l2 n w (q_ring m Q HQ h _ Hl)) as (m' & -> & Hq1 & Hq2 & HF); [by apply (proj2 Hu)|apply Hu|].
    exists m'. split; [done|]. split; [|apply HF]. by apply (queues_two m m' Q h (l1 ++ q :: l2) l1 n (q :: l2)).
  - destruct (add_ok m h l n l' w (q_ring m Q HQ h l Hl) (q_ring m Q HQ n l' Hl')) as (m' & -> & Hq & HF).
    + intros x H1 H2. apply Hne. by apply (q_disjoint m Q HQ h l n l' x).
    + exists m'. split; [done|]. split; [|apply HF]. by apply (queues_joined m m' Q h l n l').
Qed.

(** The memory of two heads and an element; one queue is set up. *)
Definition ex_links : links_mem := {[8 := mk_links 8 8; 24 := mk_links 0 0; 40 := mk_links 0 0]}.

Lemma queue_refines_lists_witness :
  exists m', run_queue_op (qop_insert_tail 8 24) ex_links (World ∅ ∅ 0) = Ok tt m' (World ∅ ∅ 0) /\
             queues m' (<[8 := [24]]> {[8 := []]}) /\ dom m' = dom ex_links.
Proof.
  apply (queue_refines_lists ex_links {[8 := []]}).
  - split.
    + intros h l [<- <-]%lookup_singleton_Some. split; [apply NoDup_singleton|]. repeat split.
    + intros h1 l1 h2 l2 x [<- <-]%lookup_singleton_Some [<- <-]%lookup_singleton_Some. done.
  - apply (step_insert_tail _ _ 8 []); [done|]. split; [apply elem_of_dom; eauto|].
    intros h l [<- <-]%lookup_singleton_Some. set_solver.
Defined.
