(* ===== verification/Timer.v ===== *)
(** libuv's timers (src/timer.c) and the life cycle of a handle as far as a timer goes
    through it: the macros of uv-common.h that start, stop, reference and initialise a
    handle, and closing (src/unix/core.c).

    The loop's state holds its own fields, the [uv_timer_t] structs of the program, the
    heap of [Heap] and the links of [Queue].  A heap node or a queue element is a member
    of its handle, so its address is the handle's plus an offset.  A failed [assert] is
    the end of the program, hence undefined here.  The callbacks are the application's
    functions: [LoopEnv]. *)
From stdpp Require Import base gmap list numbers.
From Stdlib Require Import ZArith Lia.
From S2P Require Import Prelude Cmem Heap Queue.

(** * Data *)

Definition UV_HANDLE_CLOSING : Z := 0x1.
Definition UV_HANDLE_CLOSED : Z := 0x2.
Definition UV_HANDLE_ACTIVE : Z := 0x4.
Definition UV_HANDLE_REF : Z := 0x8.

(** [-EINVAL] *)
Definition UV_EINVAL : Z := -22.

Definition INT_MAX : Z := 2 ^ 31 - 1.
Definition UINT64_MAX : Z := 2 ^ 64 - 1.

Record uv_timer_t := mk_timer {
  close_cb : Z;
  next_closing : Z;
  flags : Z;
  timer_cb : Z;
  timeout : Z;
  repeat_ : Z;
  start_id : Z;
}.

(** On a 64-bit Unix system. *)
Definition offsetof_handle_queue : Z := 32.
Definition offsetof_heap_node : Z := 104.

Definition heap_node_of (handle : Z) : Z := handle + offsetof_heap_node.
Definition handle_of (node : Z) : Z := node - offsetof_heap_node.
Definition queue_of (handle : Z) : Z := handle + offsetof_handle_queue.

(** [handle_queue], [idle_handles] and [pending_queue] are the addresses of the heads. *)
Record uv_loop_t := mk_loop {
  active_handles : Z;
  handle_queue : Z;
  active_reqs : Z;
  stop_flag : Z;
  closing_handles : Z;
  idle_handles : Z;
  pending_queue : Z;
  timer_counter : Z;
  time : Z;
  timer_heap : heap;
  timers : gmap Z uv_timer_t;
  links : links_mem;
}.

Class LoopEnv := {
  run_timer_cb : Z -> Z -> SM uv_loop_t unit;
  run_close_cb : Z -> Z -> SM uv_loop_t unit;
}.

(** Assignments to the loop. *)
Definition set_active_handles (n : Z) (l : uv_loop_t) : uv_loop_t :=
  mk_loop n (handle_queue l) (active_reqs l) (stop_flag l) (closing_handles l) (idle_handles l)
    (pending_queue l) (timer_counter l) (time l) (timer_heap l) (timers l) (links l).
Definition set_closing_handles (p : Z) (l : uv_loop_t) : uv_loop_t :=
  mk_loop (active_handles l) (handle_queue l) (active_reqs l) (stop_flag l) p (idle_handles l)
    (pending_queue l) (timer_counter l) (time l) (timer_heap l) (timers l) (links l).
Definition set_timer_counter (n : Z) (l : uv_loop_t) : uv_loop_t :=
  mk_loop (active_handles l) (handle_queue l) (active_reqs l) (stop_flag l) (closing_handles l) (idle_handles l)
    (pending_queue l) n (time l) (timer_heap l) (timers l) (links l).
Definition set_timer_heap (h : heap) (l : uv_loop_t) : uv_loop_t :=
  mk_loop (active_handles l) (handle_queue l) (active_reqs l) (stop_flag l) (closing_handles l) (idle_handles l)
    (pending_queue l) (timer_counter l) (time l) h (timers l) (links l).
Definition set_timers (m : gmap Z uv_timer_t) (l : uv_loop_t) : uv_loop_t :=
  mk_loop (active_handles l) (handle_queue l) (active_reqs l) (stop_flag l) (closing_handles l) (idle_handles l)
    (pending_queue l) (timer_counter l) (time l) (timer_heap l) m (links l).
Definition set_links (m : links_mem) (l : uv_loop_t) : uv_loop_t :=
  mk_loop (active_handles l) (handle_queue l) (active_reqs l) (stop_flag l) (closing_handles l) (idle_handles l)
    (pending_queue l) (timer_counter l) (time l) (timer_heap l) (timers l) m.

(** Assignments to a handle. *)
Definition set_flags (f : Z) (t : uv_timer_t) : uv_timer_t :=
  mk_timer (close_cb t) (next_closing t) f (timer_cb t) (timeout t) (repeat_ t) (start_id t).
Definition set_close_cb (p : Z) (t : uv_timer_t) : uv_timer_t :=
  mk_timer p (next_closing t) (flags t) (timer_cb t) (timeout t) (repeat_ t) (start_id t).
Definition set_next_closing (p : Z) (t : uv_timer_t) : uv_timer_t :=
  mk_timer (close_cb t) p (flags t) (timer_cb t) (timeout t) (repeat_ t) (start_id t).
Definition set_timer_cb (p : Z) (t : uv_timer_t) : uv_timer_t :=
  mk_timer (close_cb t) (next_closing t) (flags t) p (timeout t) (repeat_ t) (start_id t).
Definition set_timeout (n : Z) (t : uv_timer_t) : uv_timer_t :=
  mk_timer (close_cb t) (next_closing t) (flags t) (timer_cb t) n (repeat_ t) (start_id t).
Definition set_repeat (n : Z) (t : uv_timer_t) : uv_timer_t :=
  mk_timer (close_cb t) (next_closing t) (flags t) (timer_cb t) (timeout t) n (start_id t).
Definition set_start_id (n : Z) (t : uv_timer_t) : uv_timer_t :=
  mk_timer (close_cb t) (next_closing t) (flags t) (timer_cb t) (timeout t) (repeat_ t) n.

Definition load_timer (p : Z) : SM uv_loop_t uv_timer_t := fun l w =>
  match timers l !! p with
  | Some t => Ok t l w
  | None => UB
  end.

Definition update_timer (p : Z) (f : uv_timer_t -> uv_timer_t) : SM uv_loop_t unit := fun l w =>
  match timers l !! p with
  | Some t => Ok tt (set_timers (<[p := f t]> (timers l)) l) w
  | None => UB
  end.

(** * The heap and the queues of the loop *)

Definition on_links {A} (f : SM links_mem A) : SM uv_loop_t A := fun l w =>
  match f (links l) w with
  | Ok a m w => Ok a (set_links m l) w
  | Err m w => Err (set_links m l) w
  | UB => UB
  | NoFuel => NoFuel
  end.

(** What a struct that was never written holds. *)
Definition blank_timer : uv_timer_t := mk_timer 0 0 0 0 0 0 0.

Definition timer_less_than (m : gmap Z uv_timer_t) (ha hb : Z) : bool :=
  let a := default blank_timer (m !! handle_of ha) in
  let b := default blank_timer (m !! handle_of hb) in
  if timeout a <? timeout b then true
  else if timeout b <? timeout a then false
  else start_id a <? start_id b.

Definition on_heap {A} (f : (Z -> Z -> bool) -> SM heap A) : SM uv_loop_t A := fun l w =>
  match f (timer_less_than (timers l)) (timer_heap l) w with
  | Ok a h w => Ok a (set_timer_heap h l) w
  | Err h w => Err (set_timer_heap h l) w
  | UB => UB
  | NoFuel => NoFuel
  end.

(** * Handles (uv-common.h) *)

Definition uv__has_active_handles (l : uv_loop_t) : bool := 0 <? active_handles l.
Definition uv__has_active_reqs (l : uv_loop_t) : bool := 0 <? active_reqs l.

Definition uv__active_handle_add : SM uv_loop_t unit :=
  modify (fun l => set_active_handles (u32 (active_handles l + 1)) l).
Definition uv__active_handle_rm : SM uv_loop_t unit :=
  modify (fun l => set_active_handles (u32 (active_handles l - 1)) l).

Definition has_flag (f : Z) (h : uv_timer_t) : bool := negb (Z.land (flags h) f =? 0).

Definition uv__is_active (h : uv_timer_t) : bool := has_flag UV_HANDLE_ACTIVE h.
Definition uv__is_closing (h : uv_timer_t) : bool :=
  has_flag (Z.lor UV_HANDLE_CLOSING UV_HANDLE_CLOSED) h.
Definition uv__has_ref (h : uv_timer_t) : bool := has_flag UV_HANDLE_REF h.

(** [h->flags |= f], [h->flags &= ~f] *)
Definition or_flag (f : Z) (h : uv_timer_t) : uv_timer_t := set_flags (Z.lor (flags h) f) h.
Definition clear_flag (f : Z) (h : uv_timer_t) : uv_timer_t := set_flags (Z.ldiff (flags h) f) h.

Definition uv__handle_start (p : Z) : SM uv_loop_t unit :=
  let* h := load_timer p in
  if uv__is_active h then ret tt
  else
    update_timer p (or_flag UV_HANDLE_ACTIVE);;
    let* h := load_timer p in
    if uv__has_ref h then uv__active_handle_add else ret tt.

Definition uv__handle_stop (p : Z) : SM uv_loop_t unit :=
  let* h := load_timer p in
  if negb (uv__is_active h) then ret tt
  else
    update_timer p (clear_flag UV_HANDLE_ACTIVE);;
    let* h := load_timer p in
    if uv__has_ref h then uv__active_handle_rm else ret tt.

Definition uv__handle_ref (p : Z) : SM uv_loop_t unit :=
  let* h := load_timer p in
  if uv__has_ref h then ret tt
  else
    update_timer p (or_flag UV_HANDLE_REF);;
    let* h := load_timer p in
    if has_flag UV_HANDLE_CLOSING h then ret tt
    else if uv__is_active h then uv__active_handle_add else ret tt.

Definition uv__handle_unref (p : Z) : SM uv_loop_t unit :=
  let* h := load_timer p in
  if negb (uv__has_ref h) then ret tt
  else
    update_timer p (clear_flag UV_HANDLE_REF);;
    let* h := load_timer p in
    if has_flag UV_HANDLE_CLOSING h then ret tt
    else if uv__is_active h then uv__active_handle_rm else ret tt.

Definition uv__handle_init (p : Z) : SM uv_loop_t unit :=
  update_timer p (set_flags UV_HANDLE_REF);;
  let* l := get in
  on_links (QUEUE_INSERT_TAIL (handle_queue l) (queue_of p));;
  update_timer p (set_next_closing NULL).

(** * timer.c *)

Definition uv_timer_init (handle : Z) : SM uv_loop_t Z :=
  uv__handle_init handle;;
  update_timer handle (set_timer_cb NULL);;
  update_timer handle (set_repeat 0);;
  ret 0.

Definition uv_timer_stop (handle : Z) : SM uv_loop_t Z :=
  let* h := load_timer handle in
  if negb (uv__is_active h) then ret 0
  else
    on_heap (fun less_than => heap_remove less_than (heap_node_of handle));;
    uv__handle_stop handle;;
    ret 0.

Definition uv_timer_start (handle cb timeout repeat : Z) : SM uv_loop_t Z :=
  let* h := load_timer handle in
  if uv__is_closing h || (cb =? NULL) then ret UV_EINVAL
  else
    (if uv__is_active h then uv_timer_stop handle;; ret tt else ret tt);;
    let* l := get in
    let clamped_timeout := u64 (time l + timeout) in
    let clamped_timeout := if clamped_timeout <? timeout then UINT64_MAX else clamped_timeout in
    update_timer handle (set_timer_cb cb);;
    update_timer handle (set_timeout clamped_timeout);;
    update_timer handle (set_repeat repeat);;
    update_timer handle (set_start_id (timer_counter l));;
    modify (set_timer_counter (u64 (timer_counter l + 1)));;
    on_heap (fun less_than => heap_insert less_than (heap_node_of handle));;
    uv__handle_start handle;;
    ret 0.

Definition uv_timer_again (handle : Z) : SM uv_loop_t Z :=
  let* h := load_timer handle in
  if timer_cb h =? NULL then ret UV_EINVAL
  else
    (if negb (repeat_ h =? 0) then
       uv_timer_stop handle;;
       let* h := load_timer handle in
       uv_timer_start handle (timer_cb h) (repeat_ h) (repeat_ h);;
       ret tt
     else ret tt);;
    ret 0.

Definition uv_timer_set_repeat (handle repeat : Z) : SM uv_loop_t unit :=
  update_timer handle (set_repeat repeat).

Definition uv_timer_get_repeat (handle : Z) : SM uv_loop_t Z :=
  let* h := load_timer handle in ret (repeat_ h).

Definition uv__next_timeout : SM uv_loop_t Z :=
  let* heap_node := on_heap (fun _ => heap_min) in
  if heap_node =? NULL then ret (-1)
  else
    let* handle := load_timer (handle_of heap_node) in
    let* l := get in
    if timeout handle <=? time l then ret 0
    else
      let diff := u64 (timeout handle - time l) in
      ret (if INT_MAX <? diff then INT_MAX else diff).

Definition uv__timer_close (handle : Z) : SM uv_loop_t unit := uv_timer_stop handle;; ret tt.

Section callbacks.
Context `{LoopEnv}.

(** One round of the loop of [uv__run_timers]. *)
Definition run_one_timer : SM uv_loop_t (unit + unit) :=
  let* heap_node := on_heap (fun _ => heap_min) in
  if heap_node =? NULL then ret (inr tt)
  else
    let handle := handle_of heap_node in
    let* h := load_timer handle in
    let* l := get in
    if time l <? timeout h then ret (inr tt)
    else
      uv_timer_stop handle;;
      uv_timer_again handle;;
      let* h := load_timer handle in
      run_timer_cb (timer_cb h) handle;;
      ret (inl tt).

(** The fuel bounds the rounds; the callbacks decide how many there are. *)
Definition uv__run_timers (fuel : nat) : SM uv_loop_t unit :=
  loop fuel (fun _ => run_one_timer) tt.

(** * Closing (core.c) *)

Definition uv__make_close_pending (handle : Z) : SM uv_loop_t unit :=
  let* h := load_timer handle in
  assert_ (has_flag UV_HANDLE_CLOSING h);;
  assert_ (negb (has_flag UV_HANDLE_CLOSED h));;
  let* l := get in
  update_timer handle (set_next_closing (closing_handles l));;
  modify (set_closing_handles handle).

Definition uv_close (handle cb : Z) : SM uv_loop_t unit :=
  let* h := load_timer handle in
  assert_ (negb (uv__is_closing h));;
  update_timer handle (or_flag UV_HANDLE_CLOSING);;
  update_timer handle (set_close_cb cb);;
  uv__timer_close handle;;
  uv__make_close_pending handle.

Definition uv__finish_close (handle : Z) : SM uv_loop_t unit :=
  let* h := load_timer handle in
  assert_ (has_flag UV_HANDLE_CLOSING h);;
  assert_ (negb (has_flag UV_HANDLE_CLOSED h));;
  update_timer handle (or_flag UV_HANDLE_CLOSED);;
  uv__handle_unref handle;;
  on_links (QUEUE_REMOVE (queue_of handle));;
  let* h := load_timer handle in
  if negb (close_cb h =? NULL) then run_close_cb (close_cb h) handle else ret tt.

(** The walk of [uv__run_closing_handles] along the chain from [p]. *)
Fixpoint finish_all (fuel : nat) (p : Z) : SM uv_loop_t unit :=
  match fuel with
  | O => nofuel
  | S fuel =>
      if p =? NULL then ret tt
      else
        let* h := load_timer p in
        let q := next_closing h in
        uv__finish_close p;;
        finish_all fuel q
  end.

(** A chain without a repetition is no longer than there are handles. *)
Definition uv__run_closing_handles : SM uv_loop_t unit :=
  let* l := get in
  let p := closing_handles l in
  modify (set_closing_handles NULL);;
  finish_all (S (size (timers l))) p.

End callbacks.

(** * The loop's clock-work (core.c) *)

Definition uv__loop_alive (l : uv_loop_t) : bool :=
  uv__has_active_handles l || uv__has_active_reqs l || negb (closing_handles l =? NULL).

Definition uv_backend_timeout : SM uv_loop_t Z :=
  let* l := get in
  if negb (stop_flag l =? 0) then ret 0
  else if negb (uv__has_active_handles l) && negb (uv__has_active_reqs l) then ret 0
  else
    let* idle := on_links (QUEUE_EMPTY (idle_handles l)) in
    if negb idle then ret 0
    else
      let* pending := on_links (QUEUE_EMPTY (pending_queue l)) in
      if negb pending then ret 0
      else if negb (closing_handles l =? NULL) then ret 0
      else uv__next_timeout.
