(* ===== verification/TimerOps.v ===== *)
(** The timers of [Timer]: their order, the flag word of a handle, and the invariant of
    the loop ([loop_ok]) with the ways in which the change of one handle keeps it. *)
From stdpp Require Import base gmap list numbers sets sorting.
From Stdlib Require Import ZArith Lia.
From S2P Require Import Prelude Cmem Heap HeapThms Queue Timer.

(** * The order of timers *)

#[global] Instance timer_order (m : gmap Z uv_timer_t) : WeakOrder (timer_less_than m).
Proof.
  split; unfold timer_less_than; intros *; bool_cases; intros; try discriminate; try done; try lia.
Qed.

(** A heap is one for any order that agrees on its members. *)
Lemma is_heap_order lt lt' h members :
  (forall x y, members x -> members y -> lt' x y = lt x y) -> is_heap lt h members -> is_heap lt' h members.
Proof.
  intros Hlt (A & n & R & Hn & Ho & Hm). exists A, n. split_and!; try done.
  intros i Hi. unfold le. rewrite Hlt; [by apply Ho| |]; apply Hm.
  - exists i. split; [|done]. unfold in_range. lia.
  - exists (i / 2). split; [|done]. unfold in_range. Z.div_mod_to_equations. lia.
Qed.

(** * Counting handles *)

Definition holds_at (P : uv_timer_t -> bool) (m : gmap Z uv_timer_t) (p : Z) : bool :=
  match m !! p with Some t => P t | None => false end.

Fixpoint tally (P : uv_timer_t -> bool) (m : gmap Z uv_timer_t) (ps : list Z) : Z :=
  match ps with
  | [] => 0
  | p :: ps => b2z (holds_at P m p) + tally P m ps
  end.

Lemma tally_range P m ps : 0 <= tally P m ps <= Z.of_nat (length ps).
Proof. induction ps as [|p ps IH]; cbn [tally length]; [lia|]. destruct (holds_at P m p); cbn [b2z]; lia. Qed.

Lemma tally_app P m ps qs : tally P m (ps ++ qs) = tally P m ps + tally P m qs.
Proof. induction ps as [|p ps IH]; cbn [tally app]; [done|]. rewrite IH. lia. Qed.

Lemma tally_absent P m ps p t : p ∉ ps -> tally P (<[p := t]> m) ps = tally P m ps.
Proof.
  induction ps as [|q ps IH]; intros Hp; cbn [tally]; [done|].
  apply not_elem_of_cons in Hp as [Hne Hp]. rewrite IH by done. unfold holds_at.
  by rewrite lookup_insert_ne.
Qed.

Lemma tally_update P m ps p t t' :
  NoDup ps -> p ∈ ps -> m !! p = Some t ->
  tally P (<[p := t']> m) ps = tally P m ps - b2z (P t) + b2z (P t').
Proof.
  intros Hnd Hp Ht. induction ps as [|q ps IH]; [by apply not_elem_of_nil in Hp|].
  apply list.NoDup_cons in Hnd as [Hq Hnd]. cbn [tally]. unfold holds_at at 1 2.
  destruct (decide (q = p)) as [->|Hne].
  - rewrite tally_absent by done. rewrite lookup_insert_eq, Ht. lia.
  - rewrite lookup_insert_ne by done. rewrite IH by (try done; set_solver). lia.
Qed.

(** * Flags *)

Lemma flag_bit x k : 0 <= k -> negb (Z.land x (2 ^ k) =? 0) = Z.testbit x k.
Proof.
  intros Hk. destruct (Z.testbit x k) eqn:E.
  - destruct (Z.eqb_spec (Z.land x (2 ^ k)) 0) as [E0|]; [|done]. exfalso.
    apply (f_equal (fun y => Z.testbit y k)) in E0.
    rewrite Z.land_spec, E, Z.pow2_bits_true, Z.bits_0 in E0; done.
  - destruct (Z.eqb_spec (Z.land x (2 ^ k)) 0) as [|E0]; [done|]. exfalso. apply E0.
    apply Z.bits_inj'. intros n Hn. rewrite Z.land_spec, Z.pow2_bits_eqb, Z.bits_0 by done.
    destruct (Z.eqb_spec k n) as [->|]; [by rewrite E|by rewrite andb_false_r].
Qed.

Lemma active_bit t : uv__is_active t = Z.testbit (flags t) 2.
Proof. apply (flag_bit (flags t) 2). lia. Qed.
Lemma ref_bit t : uv__has_ref t = Z.testbit (flags t) 3.
Proof. apply (flag_bit (flags t) 3). lia. Qed.
Lemma closing_flag_bit t : has_flag UV_HANDLE_CLOSING t = Z.testbit (flags t) 0.
Proof. apply (flag_bit (flags t) 0). lia. Qed.
Lemma closed_flag_bit t : has_flag UV_HANDLE_CLOSED t = Z.testbit (flags t) 1.
Proof. apply (flag_bit (flags t) 1). lia. Qed.

Lemma lor_nonzero a b : negb (Z.lor a b =? 0) = negb (a =? 0) || negb (b =? 0).
Proof.
  pose proof (Z.lor_eq_0_iff a b) as E. bool_cases; cbn; try done; exfalso; tauto.
Qed.

Lemma closing_bits t : uv__is_closing t = Z.testbit (flags t) 0 || Z.testbit (flags t) 1.
Proof.
  rewrite <- closing_flag_bit, <- closed_flag_bit. unfold uv__is_closing, has_flag.
  rewrite Z.land_lor_distr_r. apply lor_nonzero.
Qed.

(** Reduces tests of flags to bits of the flag word. *)
Ltac flag_bits :=
  rewrite ?closing_bits, ?active_bit, ?ref_bit, ?closing_flag_bit, ?closed_flag_bit in *;
  unfold or_flag, clear_flag, set_flags in *; cbn [flags] in *;
  rewrite ?Z.lor_spec, ?Z.ldiff_spec, ?Z.lor_spec, ?Z.ldiff_spec in *;
  repeat match goal with
  | |- context [Z.testbit ?c ?k] =>
      lazymatch c with UV_HANDLE_CLOSING => idtac | UV_HANDLE_CLOSED => idtac | UV_HANDLE_ACTIVE => idtac | UV_HANDLE_REF => idtac end;
      let b := eval vm_compute in (Z.testbit c k) in change (Z.testbit c k) with b
  | H : context [Z.testbit ?c ?k] |- _ =>
      lazymatch c with UV_HANDLE_CLOSING => idtac | UV_HANDLE_CLOSED => idtac | UV_HANDLE_ACTIVE => idtac | UV_HANDLE_REF => idtac end;
      let b := eval vm_compute in (Z.testbit c k) in change (Z.testbit c k) with b in H
  end;
  cbn [negb] in *;
  rewrite ?orb_true_r, ?orb_false_r, ?andb_true_r, ?andb_false_r in *.

(** * The invariant *)

(** The heap nodes of the active timers among [ps]. *)
Definition in_heap (ps : list Z) (m : gmap Z uv_timer_t) (x : Z) : Prop :=
  exists p t, x = heap_node_of p /\ p ∈ ps /\ m !! p = Some t /\ uv__is_active t = true.

(** The handles that wait to be closed, from [p] on. *)
Fixpoint closing_chain (m : gmap Z uv_timer_t) (p : Z) (cs : list Z) : Prop :=
  match cs with
  | [] => p = NULL
  | c :: cs => p = c /\ exists t, m !! c = Some t /\ closing_chain m (next_closing t) cs
  end.

Record timer_ok (counter : Z) (t : uv_timer_t) : Prop := {
  t_timeout : 0 <= timeout t < 2 ^ 64;
  t_repeat : 0 <= repeat_ t < 2 ^ 64;
  t_active : uv__is_active t = true -> timer_cb t <> NULL /\ start_id t < counter;
  t_closing : has_flag UV_HANDLE_CLOSING t = true -> uv__is_active t = false;
  t_open : has_flag UV_HANDLE_CLOSED t = false;
}.

Definition counted (t : uv_timer_t) : bool := uv__is_active t && uv__has_ref t.

(** [ps]: the initialised handles, [cs]: those that are closing, [others]: the active
    handles of the loop that are no timers. *)
Record loop_ok (others : Z) (ps cs : list Z) (l : uv_loop_t) : Prop := {
  lo_queue : queue (links l) (handle_queue l) (map queue_of ps);
  lo_timers p : p ∈ ps -> exists t, timers l !! p = Some t /\ timer_ok (timer_counter l) t;
  lo_nodes p : p ∈ ps -> p <> NULL /\ heap_node_of p <> NULL /\ is_Some (nodes (timer_heap l) !! heap_node_of p);
  lo_heap : is_heap (timer_less_than (timers l)) (timer_heap l) (in_heap ps (timers l));
  lo_nelts : nelts (timer_heap l) = tally uv__is_active (timers l) ps;
  lo_count : active_handles l = u32 (others + tally counted (timers l) ps);
  lo_size : Z.of_nat (length ps) < 2 ^ 32;
  lo_ids p q t u : p ∈ ps -> q ∈ ps -> timers l !! p = Some t -> timers l !! q = Some u ->
    uv__is_active t = true -> uv__is_active u = true -> start_id t = start_id u -> p = q;
  lo_words : 0 <= time l < 2 ^ 64 /\ 0 <= timer_counter l < 2 ^ 64;
  lo_chain : closing_chain (timers l) (closing_handles l) cs;
  lo_closing p t : p ∈ ps -> timers l !! p = Some t -> (has_flag UV_HANDLE_CLOSING t = true <-> p ∈ cs);
  lo_subset : NoDup cs /\ forall p, p ∈ cs -> p ∈ ps;
}.

Lemma queue_of_inj p q : queue_of p = queue_of q -> p = q.
Proof. unfold queue_of. lia. Qed.

Lemma node_of_inj p q : heap_node_of p = heap_node_of q -> p = q.
Proof. unfold heap_node_of. lia. Qed.

Lemma handle_of_node p : handle_of (heap_node_of p) = p.
Proof. unfold handle_of, heap_node_of. lia. Qed.

Lemma handles_nodup others ps cs l : loop_ok others ps cs l -> NoDup ps.
Proof. intros L. destruct (lo_queue _ _ _ _ L) as [Hnd _]. apply list.NoDup_cons in Hnd as [_ Hnd]. by apply (NoDup_fmap_1 queue_of). Qed.

(** * The state without the heap and the links *)

Definition erase (l : uv_loop_t) : uv_loop_t := set_links ∅ (set_timer_heap (mk_heap ∅ NULL 0) l).

Definition count_by (n : Z) (l : uv_loop_t) : uv_loop_t := set_active_handles (u32 (active_handles l + n)) l.

Definition set_timer (p : Z) (t : uv_timer_t) (l : uv_loop_t) : uv_loop_t := set_timers (<[p := t]> (timers l)) l.

Definition stopped (t : uv_timer_t) : uv_timer_t := clear_flag UV_HANDLE_ACTIVE t.

Definition started (cb timeout repeat id : Z) (t : uv_timer_t) : uv_timer_t :=
  mk_timer (close_cb t) (next_closing t) (Z.lor (flags t) UV_HANDLE_ACTIVE) cb timeout repeat id.

(** One handle changes; the heap has followed. *)
Lemma in_heap_update ps m p t t' x :
  p ∈ ps -> m !! p = Some t ->
  in_heap ps (<[p := t']> m) x <->
  (uv__is_active t' = true /\ x = heap_node_of p) \/ (in_heap ps m x /\ x <> heap_node_of p).
Proof.
  intros Hp Ht. split.
  - intros (q & u & -> & Hq & Hu & Ha). rewrite lookup_insert in Hu. case_decide as E.
    + subst q. injection Hu as ->. by left.
    + right. split; [by exists q, u|]. intros Eq%node_of_inj. congruence.
  - intros [[Ha ->]|[(q & u & -> & Hq & Hu & Ha) Hne]].
    + exists p, t'. by rewrite lookup_insert_eq.
    + exists q, u. split_and!; try done. rewrite lookup_insert_ne; [done|]. intros ->. done.
Qed.

Lemma closing_chain_update m p t t' cs q :
  m !! p = Some t -> next_closing t' = next_closing t -> closing_chain m q cs -> closing_chain (<[p := t']> m) q cs.
Proof.
  intros Ht Hn. revert q. induction cs as [|c cs IH]; intros q; [done|]. intros (-> & u & Hu & Hc). split; [done|].
  destruct (decide (c = p)) as [->|Hne].
  - exists t'. rewrite lookup_insert_eq, Hn. split; [done|]. rewrite Ht in Hu. injection Hu as ->. by apply IH.
  - exists u. rewrite lookup_insert_ne by done. split; [done|]. by apply IH.
Qed.

Lemma loop_ok_change others ps cs cs' l l' p t t' :
  loop_ok others ps cs l -> p ∈ ps -> timers l !! p = Some t ->
  timers l' = <[p := t']> (timers l) -> links l' = links l -> handle_queue l' = handle_queue l ->
  time l' = time l ->
  timer_counter l <= timer_counter l' < 2 ^ 64 ->
  timer_ok (timer_counter l') t' ->
  closing_chain (timers l') (closing_handles l') cs' ->
  (forall q u, q ∈ ps -> timers l' !! q = Some u -> (has_flag UV_HANDLE_CLOSING u = true <-> q ∈ cs')) ->
  (NoDup cs' /\ forall q, q ∈ cs' -> q ∈ ps) ->
  (uv__is_active t' = true -> (uv__is_active t = true /\ start_id t' = start_id t) \/ timer_counter l <= start_id t') ->
  dom (nodes (timer_heap l')) = dom (nodes (timer_heap l)) ->
  is_heap (timer_less_than (timers l')) (timer_heap l')
    (fun x => (uv__is_active t' = true /\ x = heap_node_of p) \/ (in_heap ps (timers l) x /\ x <> heap_node_of p)) ->
  nelts (timer_heap l') = nelts (timer_heap l) - b2z (uv__is_active t) + b2z (uv__is_active t') ->
  active_handles l' = u32 (active_handles l - b2z (counted t) + b2z (counted t')) ->
  loop_ok others ps cs' l'.
Proof.
  intros L Hp Ht Em El Eh Et Hcnt Hok' Hchain Hclosing Hsub Hid Hdom Hheap Hne Hact.
  pose proof (handles_nodup _ _ _ _ L) as Hnd. split.
  - rewrite El, Eh. apply L.
  - intros q Hq. rewrite Em. destruct (decide (q = p)) as [->|Hneq].
    + exists t'. by rewrite lookup_insert_eq.
    + destruct (lo_timers _ _ _ _ L q Hq) as (u & Hu & [? ? Ha ? ?]). exists u.
      rewrite lookup_insert_ne by done. split; [done|]. split; try done. intros Hu'. destruct (Ha Hu'). split; [done|lia].
  - intros q Hq. destruct (lo_nodes _ _ _ _ L q Hq) as (? & ? & Hs). split_and!; try done.
    apply elem_of_dom. rewrite Hdom. by apply elem_of_dom.
  - eapply is_heap_ext; [|exact Hheap]. intros x. rewrite Em. symmetry. by apply (in_heap_update ps _ p t t').
  - rewrite Hne, (lo_nelts _ _ _ _ L), Em, (tally_update _ _ ps p t t'); done.
  - rewrite Hact, (lo_count _ _ _ _ L), Em, (tally_update _ _ ps p t t') by done.
    unfold u32. rewrite <- Zplus_mod_idemp_l, <- Zminus_mod_idemp_l, Zmod_mod, Zminus_mod_idemp_l, Zplus_mod_idemp_l.
    f_equal. lia.
  - apply L.
  - intros q r u v Hq Hr Hu Hv Hau Hav Hids. rewrite Em in Hu, Hv.
    assert (Hold : forall q u, q ∈ ps -> timers l !! q = Some u -> uv__is_active u = true -> start_id u < timer_counter l).
    { intros q0 u0 Hq0 Hu0 Ha0. destruct (lo_timers _ _ _ _ L q0 Hq0) as (u1 & Hu1 & [_ _ Ha _ _]).
      rewrite Hu0 in Hu1. injection Hu1 as <-. by apply Ha. }
    destruct (decide (q = p)) as [->|Hqp], (decide (r = p)) as [->|Hrp]; try done;
      rewrite ?lookup_insert_eq, ?lookup_insert_ne in Hu by done;
      rewrite ?lookup_insert_eq, ?lookup_insert_ne in Hv by done.
    + injection Hu as <-. specialize (Hold r v Hr Hv Hav). destruct (Hid Hau) as [[Hat Hi]|]; [|lia].
      apply (lo_ids _ _ _ _ L p r t v); try done. congruence.
    + injection Hv as <-. specialize (Hold q u Hq Hu Hau). destruct (Hid Hav) as [[Hat Hi]|]; [|lia].
      apply (lo_ids _ _ _ _ L q p u t); try done. congruence.
    + by apply (lo_ids _ _ _ _ L q r u v).
  - rewrite Et. destruct (lo_words _ _ _ _ L). lia.
  - done.
  - done.
  - done.
Qed.

Lemma loop_ok_update others ps cs l l' p t t' :
  loop_ok others ps cs l -> p ∈ ps -> timers l !! p = Some t ->
  timers l' = <[p := t']> (timers l) -> links l' = links l -> handle_queue l' = handle_queue l ->
  closing_handles l' = closing_handles l -> time l' = time l ->
  timer_counter l <= timer_counter l' < 2 ^ 64 ->
  timer_ok (timer_counter l') t' -> next_closing t' = next_closing t ->
  has_flag UV_HANDLE_CLOSING t' = has_flag UV_HANDLE_CLOSING t ->
  (uv__is_active t' = true -> (uv__is_active t = true /\ start_id t' = start_id t) \/ timer_counter l <= start_id t') ->
  dom (nodes (timer_heap l')) = dom (nodes (timer_heap l)) ->
  is_heap (timer_less_than (timers l')) (timer_heap l')
    (fun x => (uv__is_active t' = true /\ x = heap_node_of p) \/ (in_heap ps (timers l) x /\ x <> heap_node_of p)) ->
  nelts (timer_heap l') = nelts (timer_heap l) - b2z (uv__is_active t) + b2z (uv__is_active t') ->
  active_handles l' = u32 (active_handles l - b2z (counted t) + b2z (counted t')) ->
  loop_ok others ps cs l'.
Proof.
  intros L Hp Ht Em El Eh Ec Et Hcnt Hok' Hnc Hcl Hid Hdom Hheap Hne Hact.
  apply (loop_ok_change others ps cs cs l l' p t t'); try done.
  - rewrite Em, Ec. apply (closing_chain_update _ p t t'); [done|done|]. apply L.
  - intros q u Hq Hu. rewrite Em, lookup_insert in Hu. case_decide; subst.
    + injection Hu as <-. rewrite Hcl. by apply (lo_closing _ _ _ _ L).
    + by apply (lo_closing _ _ _ _ L).
  - apply L.
Qed.

(** * The operations on a handle in use (start, stop, again, set_repeat, ref, unref): each
    is an operation on the loop without heap and links ([erase], [abs_*]) and keeps the
    invariant. *)

(** * The operations *)

Lemma load_timer_ok l w p t : timers l !! p = Some t -> load_timer p l w = Ok t l w.
Proof. intros E. unfold load_timer. by rewrite E. Qed.

Lemma update_timer_ok l w p t f : timers l !! p = Some t -> update_timer p f l w = Ok tt (set_timer p (f t) l) w.
Proof. intros E. unfold update_timer. by rewrite E. Qed.

Lemma set_timer_timer p t t' l : set_timer p t' (set_timer p t l) = set_timer p t' l.
Proof. unfold set_timer, set_timers. cbn. by rewrite insert_insert_eq. Qed.

Lemma timer_set l p t : timers (set_timer p t l) !! p = Some t.
Proof. apply lookup_insert_eq. Qed.

Lemma on_heap_ok {A} (f : (Z -> Z -> bool) -> SM heap A) l w a h :
  f (timer_less_than (timers l)) (timer_heap l) w = Ok a h w -> on_heap f l w = Ok a (set_timer_heap h l) w.
Proof. intros E. unfold on_heap. by rewrite E. Qed.

(** Runs loads and stores of the handle [p]. *)
Ltac timer_step :=
  first [ erewrite load_timer_ok by (first [eassumption | apply timer_set])
        | erewrite update_timer_ok by (first [eassumption | apply timer_set]) ];
  rewrite ?set_timer_timer.
Ltac timer_run := repeat (cbn [bind get ret modify]; timer_step); cbn [bind get ret modify].

Definition count_if (c : bool) (n : Z) (l : uv_loop_t) : uv_loop_t := if c then count_by n l else l.

Create HintDb uvloop.
Lemma count_timers c n l : timers (count_if c n l) = timers l. Proof. by destruct c. Qed.
Lemma count_heap c n l : timer_heap (count_if c n l) = timer_heap l. Proof. by destruct c. Qed.
Lemma count_links c n l : links (count_if c n l) = links l. Proof. by destruct c. Qed.
Lemma count_queue c n l : handle_queue (count_if c n l) = handle_queue l. Proof. by destruct c. Qed.
Lemma count_closing c n l : closing_handles (count_if c n l) = closing_handles l. Proof. by destruct c. Qed.
Lemma count_time c n l : time (count_if c n l) = time l. Proof. by destruct c. Qed.
Lemma count_counter c n l : timer_counter (count_if c n l) = timer_counter l. Proof. by destruct c. Qed.
Lemma count_erase c n l : erase (count_if c n l) = count_if c n (erase l). Proof. by destruct c. Qed.
#[global] Hint Rewrite count_timers count_heap count_links count_queue count_closing count_time
  count_counter count_erase : uvloop.

(** Reads the fields of a loop after assignments. *)
Ltac loop_simpl :=
  repeat (autorewrite with uvloop; unfold set_timer;
          cbn [timers timer_heap links handle_queue closing_handles time timer_counter
               set_timers set_timer_heap set_links set_active_handles set_timer_counter set_closing_handles]).

Lemma handle_stop_ok l w p t :
  timers l !! p = Some t -> uv__is_active t = true ->
  uv__handle_stop p l w = Ok tt (count_if (uv__has_ref t) (-1) (set_timer p (stopped t) l)) w.
Proof.
  intros Ht Ha. unfold uv__handle_stop. timer_run. rewrite Ha. cbn [negb]. timer_run.
  replace (uv__has_ref (clear_flag UV_HANDLE_ACTIVE t)) with (uv__has_ref t) by (flag_bits; done).
  by destruct (uv__has_ref t).
Qed.

Lemma handle_start_ok l w p t :
  timers l !! p = Some t -> uv__is_active t = false ->
  uv__handle_start p l w = Ok tt (count_if (uv__has_ref t) 1 (set_timer p (or_flag UV_HANDLE_ACTIVE t) l)) w.
Proof.
  intros Ht Ha. unfold uv__handle_start. timer_run. rewrite Ha. timer_run.
  replace (uv__has_ref (or_flag UV_HANDLE_ACTIVE t)) with (uv__has_ref t) by (flag_bits; done).
  by destruct (uv__has_ref t).
Qed.

(** The order looks at [timeout] and [start_id] only. *)
Lemma less_than_same m p t t' :
  m !! p = Some t -> timeout t' = timeout t -> start_id t' = start_id t ->
  forall x y, timer_less_than (<[p := t']> m) x y = timer_less_than m x y.
Proof.
  intros Ht E1 E2. assert (Hat : forall z, timeout (default blank_timer (<[p := t']> m !! z)) = timeout (default blank_timer (m !! z))
    /\ start_id (default blank_timer (<[p := t']> m !! z)) = start_id (default blank_timer (m !! z))).
  { intros z. destruct (decide (z = p)) as [->|Hne].
    - rewrite lookup_insert_eq, Ht. done.
    - by rewrite lookup_insert_ne. }
  intros x y. unfold timer_less_than. destruct (Hat (handle_of x)) as [-> ->], (Hat (handle_of y)) as [-> ->]. done.
Qed.

(** ... and at the members of the heap. *)
Lemma less_than_other m p t' x y :
  x <> heap_node_of p -> y <> heap_node_of p ->
  timer_less_than (<[p := t']> m) x y = timer_less_than m x y.
Proof.
  intros Hx Hy. unfold timer_less_than. unfold heap_node_of, handle_of in *.
  rewrite !lookup_insert_ne by lia. done.
Qed.

Definition abs_stop (p : Z) (l : uv_loop_t) : uv_loop_t :=
  match timers l !! p with
  | Some t =>
      if uv__is_active t then count_if (uv__has_ref t) (-1) (set_timer p (stopped t) l) else l
  | None => l
  end.

Lemma b2z_and a b : b2z (a && b) = if a then b2z b else 0.
Proof. by destruct a, b. Qed.

Lemma nelts_bound others ps cs l :
  loop_ok others ps cs l -> 0 <= nelts (timer_heap l) < 2 ^ 32 /\ (forall p t, p ∈ ps -> timers l !! p = Some t -> uv__is_active t = false -> nelts (timer_heap l) + 1 < 2 ^ 32).
Proof.
  intros L. rewrite (lo_nelts _ _ _ _ L). pose proof (tally_range uv__is_active (timers l) ps).
  pose proof (lo_size _ _ _ _ L). split; [lia|]. intros p t Hp Ht Ha.
  apply list_elem_of_split in Hp as (l1 & l2 & E). rewrite E, tally_app in *. cbn [tally].
  assert (Hz : holds_at uv__is_active (timers l) p = false) by (unfold holds_at; by rewrite Ht). rewrite Hz. cbn [b2z].
  pose proof (tally_range uv__is_active (timers l) l1). pose proof (tally_range uv__is_active (timers l) l2).
  rewrite length_app in *. cbn [length] in *. lia.
Qed.

(** [uv_timer_stop] needs no more than the heap. *)
Lemma stop_run ps l w p t :
  is_heap (timer_less_than (timers l)) (timer_heap l) (in_heap ps (timers l)) -> nelts (timer_heap l) < 2 ^ 32 ->
  p ∈ ps -> timers l !! p = Some t -> uv__is_active t = true ->
  exists h, uv_timer_stop p l w = Ok 0 (count_if (uv__has_ref t) (-1) (set_timer p (stopped t) (set_timer_heap h l))) w /\
    is_heap (timer_less_than (timers l)) h (fun x => in_heap ps (timers l) x /\ x <> heap_node_of p) /\
    nelts h = nelts (timer_heap l) - 1 /\ dom (nodes h) = dom (nodes (timer_heap l)).
Proof.
  intros Hheap Hb Hp Ht Ha.
  destruct (heap_remove_ok (timer_less_than (timers l)) (timer_heap l) w (heap_node_of p) _ Hheap Hb)
    as (h & Eh & Hh & Hn & [Hd _]); [by exists p, t|].
  exists h. split_and!; try done. unfold uv_timer_stop. timer_run. rewrite Ha. cbn [negb bind].
  rewrite (on_heap_ok _ l w tt h) by done. by rewrite (handle_stop_ok _ w p t).
Qed.

Lemma stopped_active t : uv__is_active (stopped t) = false.
Proof. unfold stopped. flag_bits. done. Qed.

Lemma stopped_closing t : uv__is_closing (stopped t) = uv__is_closing t.
Proof. unfold stopped. flag_bits. done. Qed.

Lemma active_count_if others ps cs l l0 (c : bool) n :
  loop_ok others ps cs l -> active_handles l0 = active_handles l ->
  active_handles (count_if c n l0) = u32 (active_handles l + (if c then n else 0)).
Proof.
  intros L E. destruct c; cbn [count_if count_by set_active_handles active_handles]; rewrite E; [done|].
  rewrite (lo_count _ _ _ _ L). unfold u32. rewrite Z.add_0_r, Zmod_mod. done.
Qed.

Lemma stop_ok others ps cs l w p t :
  loop_ok others ps cs l -> p ∈ ps -> timers l !! p = Some t -> uv__is_active t = true ->
  exists l', uv_timer_stop p l w = Ok 0 l' w /\ erase l' = abs_stop p (erase l) /\ loop_ok others ps cs l'.
Proof.
  intros L Hp Ht Ha. destruct (nelts_bound _ _ _ _ L) as [Hb _].
  destruct (stop_run ps l w p t (lo_heap _ _ _ _ L)) as (h & -> & Hh & Hn & Hd); try done; [lia|].
  eexists. split; [reflexivity|]. split.
  - unfold abs_stop. change (timers (erase l)) with (timers l). rewrite Ht, Ha. by destruct (uv__has_ref t).
  - destruct (lo_timers _ _ _ _ L p Hp) as (t0 & Ht0 & [? ? ? ? Hop]). rewrite Ht in Ht0. injection Ht0 as <-.
    pose proof (lo_words _ _ _ _ L). pose proof (stopped_active t) as Hs.
    apply (loop_ok_update others ps cs l _ p t (stopped t)); loop_simpl; try done; try lia.
    + split; try done; try (by rewrite Hs); unfold stopped in *; flag_bits; done.
    + unfold stopped; flag_bits; done.
    + by rewrite Hs.
    + eapply (is_heap_order (timer_less_than (timers l))); [|eapply is_heap_ext; [|exact Hh]].
      * intros x y _ _. by apply (less_than_same _ p t).
      * intros x. rewrite Hs. split; [by right|]. intros [[? _]|?]; done.
    + rewrite Ha, Hs. cbn [b2z]. lia.
    + rewrite (active_count_if others ps cs l) by done. unfold counted. rewrite Ha, Hs.
      f_equal. destruct (uv__has_ref t); cbn [andb b2z]; lia.
Qed.

Lemma clamp_ok a b : 0 <= a < 2 ^ 64 -> 0 <= b < 2 ^ 64 ->
  (if u64 (a + b) <? b then UINT64_MAX else u64 (a + b)) = Z.min (a + b) UINT64_MAX.
Proof.
  intros Ha Hb. unfold UINT64_MAX. destruct (Z_lt_dec (a + b) (2 ^ 64)).
  - rewrite u64_small by lia. destruct (Z.ltb_spec (a + b) b); lia.
  - unfold u64. rewrite <- (Z_mod_plus_full (a + b) (-1) (2 ^ 64)), Z.mod_small by lia.
    destruct (Z.ltb_spec (a + b + -1 * 2 ^ 64) b); lia.
Qed.

Definition abs_start (p cb timeout repeat : Z) (l : uv_loop_t) : Z * uv_loop_t :=
  match timers l !! p with
  | None => (0, l)
  | Some t =>
      if uv__is_closing t || (cb =? NULL) then (UV_EINVAL, l)
      else
        let l := abs_stop p l in
        match timers l !! p with
        | None => (0, l)
        | Some t =>
            (0, set_timer_counter (timer_counter l + 1)
                  (count_if (uv__has_ref t) 1
                     (set_timer p (started cb (Z.min (time l + timeout) UINT64_MAX) repeat (timer_counter l) t) l)))
        end
  end.

Lemma not_in_heap ps m p t x :
  m !! p = Some t -> uv__is_active t = false -> in_heap ps m x -> x <> heap_node_of p.
Proof. intros Ht Ha (q & u & -> & _ & Hu & Hau) E%node_of_inj. subst. congruence. Qed.

Lemma started_active cb timeout repeat id t : uv__is_active (started cb timeout repeat id t) = true.
Proof. unfold started. flag_bits. done. Qed.

Lemma started_ref cb timeout repeat id t : uv__has_ref (started cb timeout repeat id t) = uv__has_ref t.
Proof. unfold started. flag_bits. done. Qed.

Lemma started_bit cb timeout repeat id t k :
  k <> 2 -> Z.testbit (flags (started cb timeout repeat id t)) k = Z.testbit (flags t) k.
Proof.
  intros Hk. cbn [started flags]. rewrite Z.lor_spec. change UV_HANDLE_ACTIVE with (2 ^ 2).
  rewrite (Z.pow2_bits_false 2 k) by lia. by rewrite orb_false_r.
Qed.

Lemma start_inactive_ok others ps cs l w p t cb timeout repeat :
  loop_ok others ps cs l -> p ∈ ps -> timers l !! p = Some t -> uv__is_active t = false ->
  uv__is_closing t = false -> cb <> NULL -> 0 <= timeout < 2 ^ 64 -> 0 <= repeat < 2 ^ 64 ->
  timer_counter l + 1 < 2 ^ 64 ->
  exists l', uv_timer_start p cb timeout repeat l w = Ok 0 l' w /\
    erase l' = (abs_start p cb timeout repeat (erase l)).2 /\ loop_ok others ps cs l'.
Proof.
  intros L Hp Ht Ha Hc Hcb Hto Hrep Hcnt. destruct (nelts_bound _ _ _ _ L) as [_ Hb]. specialize (Hb p t Hp Ht Ha).
  destruct (lo_nodes _ _ _ _ L p Hp) as (_ & Hn0 & Hns). pose proof (lo_words _ _ _ _ L) as [Htime Hcounter].
  unfold uv_timer_start. timer_run. rewrite Hc, Ha. cbn [orb]. rewrite (proj2 (Z.eqb_neq cb NULL)) by done.
  cbn [bind get ret]. rewrite clamp_ok by done. timer_run. rewrite u64_small by lia.
  set (t1 := set_start_id _ _). set (l1 := set_timer_counter _ _).
  assert (Hlt : forall x y, in_heap ps (timers l) x -> in_heap ps (timers l) y ->
                  timer_less_than (timers l1) x y = timer_less_than (timers l) x y).
  { intros x y Hx Hy. subst l1. cbn. apply less_than_other; by eapply not_in_heap. }
  destruct (heap_insert_ok (timer_less_than (timers l1)) (timer_heap l1) w (heap_node_of p) (in_heap ps (timers l)))
    as (h & Eh & Hh & Hn & [Hd _]); try done.
  { by apply (is_heap_order (timer_less_than (timers l)) (timer_less_than (timers l1)) _ _ Hlt), L. }
  { intros Hin. by eapply not_in_heap. }
  rewrite (on_heap_ok _ l1 w tt h) by done.
  assert (Ha1 : uv__is_active t1 = false) by done.
  rewrite (handle_start_ok _ w p t1); [|apply lookup_insert_eq|done]. cbn [ret].
  eexists. split; [reflexivity|].
  assert (Hsame : or_flag UV_HANDLE_ACTIVE t1 = started cb (Z.min (time l + timeout) UINT64_MAX) repeat (timer_counter l) t) by done.
  assert (Hr1 : uv__has_ref t1 = uv__has_ref t) by done.
  rewrite Hsame, Hr1. split.
  - unfold abs_start, abs_stop. change (timers (erase l)) with (timers l). rewrite Ht, Hc, Ha. cbn [orb].
    rewrite (proj2 (Z.eqb_neq cb NULL)) by done. change (timers (erase l)) with (timers l). rewrite Ht. subst l1.
    cbn [snd]. rewrite count_erase. destruct (uv__has_ref t); unfold count_if, count_by, set_timer; cbn;
      unfold erase, set_timers; cbn; by rewrite insert_insert_eq.
  - destruct (lo_timers _ _ _ _ L p Hp) as (t0 & Ht0 & [? ? Hact0 Hclose Hop]). rewrite Ht in Ht0. injection Ht0 as <-.
    pose proof (fun t' => insert_insert_eq (timers l) p t' t1) as Hm.
    subst l1. apply (loop_ok_update others ps cs l _ p t (started cb (Z.min (time l + timeout) UINT64_MAX) repeat (timer_counter l) t));
      loop_simpl; try done; try lia.
    + split; cbn [started Timer.timeout repeat_ timer_cb start_id]; try done.
      * unfold UINT64_MAX. lia.
      * intros _. split; [done|lia].
      * rewrite closing_flag_bit, started_bit by done. rewrite closing_bits in Hc. apply orb_false_iff in Hc as [-> _]. done.
      * rewrite closed_flag_bit, started_bit, <- closed_flag_bit by done. done.
    + rewrite !closing_flag_bit. by apply started_bit.
    + intros _. right. cbn [started start_id]. lia.
    + rewrite Hm. eapply (is_heap_order _); [|eapply is_heap_ext; [|exact Hh]].
      * intros x y _ _. loop_simpl. rewrite <- Hm. apply (less_than_same _ p t1); [apply lookup_insert_eq|done|done].
      * intros x. rewrite started_active. split; [intros [->|Hx]; [by left|right]|intros [[_ ->]|[Hx _]]; [by left|by right]].
        split; [done|]. by eapply not_in_heap.
    + rewrite started_active, Ha, Hn. cbn [b2z]. loop_simpl. lia.
    + rewrite (active_count_if others ps cs l) by done. unfold counted. rewrite started_active, Ha, started_ref.
      f_equal. destruct (uv__has_ref t); cbn [andb b2z]; lia.
Qed.

Lemma abs_stop_inactive p t l : timers l !! p = Some t -> uv__is_active t = false -> abs_stop p l = l.
Proof. intros Ht Ha. unfold abs_stop. by rewrite Ht, Ha. Qed.

Lemma abs_stop_timer p t l :
  timers l !! p = Some t -> uv__is_active t = true -> timers (abs_stop p l) !! p = Some (stopped t).
Proof. intros Ht Ha. unfold abs_stop. rewrite Ht, Ha. loop_simpl. apply lookup_insert_eq. Qed.

Lemma erase_fields l l' :
  erase l = l' -> timers l = timers l' /\ time l = time l' /\ timer_counter l = timer_counter l' /\
  active_handles l = active_handles l' /\ closing_handles l = closing_handles l'.
Proof. by intros <-. Qed.

Lemma start_ok others ps cs l w p t cb timeout repeat :
  loop_ok others ps cs l -> p ∈ ps -> timers l !! p = Some t ->
  uv__is_closing t = false -> cb <> NULL -> 0 <= timeout < 2 ^ 64 -> 0 <= repeat < 2 ^ 64 ->
  timer_counter l + 1 < 2 ^ 64 ->
  exists l', uv_timer_start p cb timeout repeat l w = Ok 0 l' w /\
    erase l' = (abs_start p cb timeout repeat (erase l)).2 /\ loop_ok others ps cs l'.
Proof.
  intros L Hp Ht Hc Hcb Hto Hrep Hcnt. destruct (uv__is_active t) eqn:Ha; [|by apply (start_inactive_ok others ps cs l w p t)].
  destruct (stop_ok others ps cs l w p t L Hp Ht Ha) as (l1 & Es & El1 & L1).
  destruct (erase_fields _ _ El1) as (Em & _ & Ec & _).
  assert (Ht1 : timers l1 !! p = Some (stopped t)) by (rewrite Em; by apply abs_stop_timer).
  assert (Ec1 : timer_counter l1 = timer_counter l) by (rewrite Ec; unfold abs_stop; cbn; rewrite Ht, Ha; by loop_simpl).
  destruct (start_inactive_ok others ps cs l1 w p (stopped t) cb timeout repeat) as (l' & E & El' & L'); try done.
  { apply stopped_active. }
  { by rewrite stopped_closing. }
  { by rewrite Ec1. }
  exists l'. split_and!; [|rewrite El'|done].
  - rewrite <- E. unfold uv_timer_start. cbn [bind].
    rewrite (load_timer_ok l w p t), (load_timer_ok l1 w p (stopped t)) by done.
    rewrite stopped_closing, Hc, stopped_active, Ha. cbn [orb]. rewrite (proj2 (Z.eqb_neq cb NULL)) by done.
    cbn [bind]. rewrite Es. done.
  - unfold abs_start. change (timers (erase l)) with (timers l). change (timers (erase l1)) with (timers l1).
    rewrite Ht, Ht1, stopped_closing, Hc. cbn [orb]. rewrite (proj2 (Z.eqb_neq cb NULL)) by done.
    rewrite (abs_stop_inactive p (stopped t) (erase l1)) by (done || apply stopped_active).
    by rewrite El1.
Qed.

Lemma start_refused l w p t cb timeout repeat :
  timers l !! p = Some t -> uv__is_closing t || (cb =? NULL) = true ->
  uv_timer_start p cb timeout repeat l w = Ok UV_EINVAL l w.
Proof. intros Ht E. unfold uv_timer_start. timer_run. by rewrite E. Qed.

Lemma stop_any others ps cs l w p t :
  loop_ok others ps cs l -> p ∈ ps -> timers l !! p = Some t ->
  exists l', uv_timer_stop p l w = Ok 0 l' w /\ erase l' = abs_stop p (erase l) /\ loop_ok others ps cs l'.
Proof.
  intros L Hp Ht. destruct (uv__is_active t) eqn:Ha; [by apply (stop_ok others ps cs l w p t)|].
  exists l. unfold uv_timer_stop. timer_run. rewrite Ha. split_and!; try done.
  by rewrite (abs_stop_inactive p t).
Qed.

(** [uv_timer_again]: a repeating timer starts anew after its repeat value. *)
Definition abs_again (p : Z) (l : uv_loop_t) : Z * uv_loop_t :=
  match timers l !! p with
  | None => (0, l)
  | Some t =>
      if timer_cb t =? NULL then (UV_EINVAL, l)
      else (0, if repeat_ t =? 0 then l
               else (abs_start p (timer_cb t) (repeat_ t) (repeat_ t) (abs_stop p l)).2)
  end.

Lemma abs_start_stopped p t cb timeout repeat l :
  timers l !! p = Some t ->
  abs_start p cb timeout repeat (abs_stop p l) =
  (if uv__is_closing t || (cb =? NULL) then (UV_EINVAL, abs_stop p l) else abs_start p cb timeout repeat l).
Proof.
  intros Ht. destruct (uv__is_active t) eqn:Ha.
  - pose proof (abs_stop_timer p t l Ht Ha) as Hs. unfold abs_start at 1 2. rewrite Hs, Ht, stopped_closing.
    destruct (_ || _); [done|]. rewrite (abs_stop_inactive p (stopped t)) by (done || apply stopped_active). by rewrite Hs.
  - rewrite (abs_stop_inactive p t) by done. unfold abs_start. rewrite Ht. by destruct (_ || _).
Qed.

Lemma again_ok others ps cs l w p t :
  loop_ok others ps cs l -> p ∈ ps -> timers l !! p = Some t -> timer_counter l + 1 < 2 ^ 64 ->
  exists r l', uv_timer_again p l w = Ok r l' w /\ (r, erase l') = abs_again p (erase l) /\ loop_ok others ps cs l'.
Proof.
  intros L Hp Ht Hcnt. unfold uv_timer_again, abs_again. change (timers (erase l)) with (timers l). rewrite Ht.
  timer_run. destruct (Z.eqb_spec (timer_cb t) NULL) as [Ecb|Hcb]; [by exists UV_EINVAL, l|].
  destruct (Z.eqb_spec (repeat_ t) 0) as [E0|H0]; cbn [negb bind ret]; [by exists 0, l|].
  destruct (lo_timers _ _ _ _ L p Hp) as (t0 & Ht0 & [Hto Hrep _ Hcl Hop]). rewrite Ht in Ht0. injection Ht0 as <-.
  destruct (stop_any others ps cs l w p t L Hp Ht) as (l1 & -> & El1 & L1). cbn [bind].
  destruct (erase_fields _ _ El1) as (Em & _ & Ec & _).
  assert (Ht1 : exists t1, timers l1 !! p = Some t1 /\ timer_cb t1 = timer_cb t /\ repeat_ t1 = repeat_ t /\
                           uv__is_closing t1 = uv__is_closing t).
  { rewrite Em. destruct (uv__is_active t) eqn:Ha.
    - exists (stopped t). rewrite (abs_stop_timer p t) by done. split_and!; try done. apply stopped_closing.
    - exists t. rewrite (abs_stop_inactive p t) by done. done. }
  destruct Ht1 as (t1 & Ht1 & Ecb1 & Erep1 & Ecl1).
  assert (Ec1 : timer_counter l1 = timer_counter l).
  { rewrite Ec. unfold abs_stop. change (timers (erase l)) with (timers l). rewrite Ht. destruct (uv__is_active t); by loop_simpl. }
  rewrite (load_timer_ok l1 w p t1), Ecb1, Erep1 by done.
  destruct (uv__is_closing t) eqn:Hc.
  - rewrite (start_refused l1 w p t1) by (done || by rewrite Ecl1). cbn [ret]. exists 0, l1. split_and!; [done| |done].
    rewrite (abs_start_stopped p t) by done. by rewrite Hc, El1.
  - destruct (start_ok others ps cs l1 w p t1 (timer_cb t) (repeat_ t) (repeat_ t)) as (l' & -> & El' & L'); try done; try lia.
    cbn [ret]. exists 0, l'. split_and!; [done| |done]. by rewrite El', El1.
Qed.

(** A change of a handle that the heap does not notice. *)
Lemma loop_ok_plain others ps cs cs' l l' p t t' :
  loop_ok others ps cs l -> p ∈ ps -> timers l !! p = Some t ->
  timers l' = <[p := t']> (timers l) -> timer_heap l' = timer_heap l -> links l' = links l ->
  handle_queue l' = handle_queue l -> time l' = time l -> timer_counter l' = timer_counter l ->
  timer_ok (timer_counter l) t' -> timeout t' = timeout t -> start_id t' = start_id t ->
  uv__is_active t' = uv__is_active t ->
  closing_chain (timers l') (closing_handles l') cs' ->
  (forall q u, q ∈ ps -> timers l' !! q = Some u -> (has_flag UV_HANDLE_CLOSING u = true <-> q ∈ cs')) ->
  (NoDup cs' /\ forall q, q ∈ cs' -> q ∈ ps) ->
  active_handles l' = u32 (active_handles l - b2z (counted t) + b2z (counted t')) ->
  loop_ok others ps cs' l'.
Proof.
  intros L Hp Ht Em Eh El Eq Et Ec Hok Eto Eid Ea Hchain Hcl Hsub Hcnt. pose proof (lo_words _ _ _ _ L).
  apply (loop_ok_change others ps cs cs' l l' p t t'); try done; rewrite ?Eh, ?Ec; try done; try lia.
  - intros Ha. left. by rewrite <- Ea.
  - rewrite Em. eapply (is_heap_order (timer_less_than (timers l))); [|eapply is_heap_ext; [|apply L]].
    + intros x y _ _. by apply (less_than_same _ p t).
    + intros x. rewrite Ea. destruct (uv__is_active t) eqn:Ha.
      * split; [|intros [[_ ->]|[? _]]; [by exists p, t|done]].
        intros Hx. destruct (decide (x = heap_node_of p)); [by left|by right].
      * split; [|intros [[? _]|[? _]]; done]. intros Hx. right. split; [done|]. by eapply not_in_heap.
  - rewrite Ea. lia.
Qed.

(** The closing handles stay the same ones. *)
Lemma same_closing others ps cs l m' p t t' :
  loop_ok others ps cs l -> p ∈ ps -> timers l !! p = Some t -> m' = <[p := t']> (timers l) ->
  next_closing t' = next_closing t -> has_flag UV_HANDLE_CLOSING t' = has_flag UV_HANDLE_CLOSING t ->
  closing_chain m' (closing_handles l) cs /\
  (forall q u, q ∈ ps -> m' !! q = Some u -> (has_flag UV_HANDLE_CLOSING u = true <-> q ∈ cs)).
Proof.
  intros L Hp Ht -> Hn Hc. split.
  - apply (closing_chain_update _ p t t'); [done|done|]. apply L.
  - intros q u Hq Hu. rewrite lookup_insert in Hu. case_decide; subst.
    + injection Hu as <-. rewrite Hc. by apply (lo_closing _ _ _ _ L).
    + by apply (lo_closing _ _ _ _ L).
Qed.

Lemma same_count others ps cs l : loop_ok others ps cs l -> u32 (active_handles l) = active_handles l.
Proof. intros L. rewrite (lo_count _ _ _ _ L). unfold u32. apply Zmod_mod. Qed.

Lemma timer_at others ps cs l p t :
  loop_ok others ps cs l -> p ∈ ps -> timers l !! p = Some t -> timer_ok (timer_counter l) t.
Proof. intros L Hp Ht. destruct (lo_timers _ _ _ _ L p Hp) as (t0 & Ht0 & ?). rewrite Ht in Ht0. by injection Ht0 as <-. Qed.

Lemma set_repeat_ok others ps cs l w p t r :
  loop_ok others ps cs l -> p ∈ ps -> timers l !! p = Some t -> 0 <= r < 2 ^ 64 ->
  uv_timer_set_repeat p r l w = Ok tt (set_timer p (set_repeat r t) l) w /\
  loop_ok others ps cs (set_timer p (set_repeat r t) l).
Proof.
  intros L Hp Ht Hr. unfold uv_timer_set_repeat. timer_run. split; [done|].
  destruct (timer_at _ _ _ _ _ _ L Hp Ht).
  destruct (same_closing others ps cs l (<[p := set_repeat r t]> (timers l)) p t (set_repeat r t) L) as [? ?]; try done.
  apply (loop_ok_plain others ps cs cs l _ p t (set_repeat r t)); try done.
  - apply L.
  - cbn [set_timer set_timers active_handles]. rewrite <- (same_count _ _ _ _ L) at 1. unfold counted.
    f_equal. rewrite Z.sub_add. done.
Qed.

Definition abs_ref (p : Z) (l : uv_loop_t) : uv_loop_t :=
  match timers l !! p with
  | Some t =>
      if uv__has_ref t then l
      else count_if (negb (has_flag UV_HANDLE_CLOSING t) && uv__is_active t) 1 (set_timer p (or_flag UV_HANDLE_REF t) l)
  | None => l
  end.

Definition abs_unref (p : Z) (l : uv_loop_t) : uv_loop_t :=
  match timers l !! p with
  | Some t =>
      if negb (uv__has_ref t) then l
      else count_if (negb (has_flag UV_HANDLE_CLOSING t) && uv__is_active t) (-1) (set_timer p (clear_flag UV_HANDLE_REF t) l)
  | None => l
  end.

(** Another value of the reference flag. *)
Lemma ref_changed others ps cs l p t t' n :
  loop_ok others ps cs l -> p ∈ ps -> timers l !! p = Some t ->
  t' = set_flags (flags t') t -> (forall k, k <> 3 -> Z.testbit (flags t') k = Z.testbit (flags t) k) ->
  n = b2z (uv__has_ref t') - b2z (uv__has_ref t) ->
  loop_ok others ps cs (count_if (negb (has_flag UV_HANDLE_CLOSING t) && uv__is_active t) n (set_timer p t' l)).
Proof.
  intros L Hp Ht Et Hk ->. pose proof (timer_at _ _ _ _ _ _ L Hp Ht) as [? ? Hact Hcl Hop].
  assert (Ea : uv__is_active t' = uv__is_active t) by (rewrite !active_bit; by apply Hk).
  assert (Ecl : has_flag UV_HANDLE_CLOSING t' = has_flag UV_HANDLE_CLOSING t) by (rewrite !closing_flag_bit; by apply Hk).
  destruct (same_closing others ps cs l (<[p := t']> (timers l)) p t t' L) as [Hc1 Hc2]; try done; [by rewrite Et|].
  apply (loop_ok_plain others ps cs cs l _ p t t'); loop_simpl; try done.
  - rewrite Et in *. split; try done; cbn [set_flags timer_cb start_id] in *.
    + by rewrite Ea.
    + by rewrite Ea, Ecl.
    + rewrite closed_flag_bit, Hk, <- closed_flag_bit by done. done.
  - by rewrite Et.
  - by rewrite Et.
  - apply L.
  - rewrite (active_count_if others ps cs l) by done. unfold counted. rewrite Ea. f_equal.
    destruct (has_flag UV_HANDLE_CLOSING t) eqn:E; [rewrite Hcl by done|]; destruct (uv__is_active t); cbn [negb andb b2z]; lia.
Qed.

Lemma ref_ok others ps cs l w p t :
  loop_ok others ps cs l -> p ∈ ps -> timers l !! p = Some t ->
  exists l', uv__handle_ref p l w = Ok tt l' w /\ erase l' = abs_ref p (erase l) /\ loop_ok others ps cs l'.
Proof.
  intros L Hp Ht. unfold uv__handle_ref, abs_ref. change (timers (erase l)) with (timers l). rewrite Ht. timer_run.
  destruct (uv__has_ref t) eqn:Hr; [by exists l|]. timer_run.
  exists (count_if (negb (has_flag UV_HANDLE_CLOSING t) && uv__is_active t) 1 (set_timer p (or_flag UV_HANDLE_REF t) l)).
  split_and!.
  - replace (has_flag UV_HANDLE_CLOSING (or_flag UV_HANDLE_REF t)) with (has_flag UV_HANDLE_CLOSING t) by (flag_bits; done).
    replace (uv__is_active (or_flag UV_HANDLE_REF t)) with (uv__is_active t) by (flag_bits; done).
    by destruct (has_flag UV_HANDLE_CLOSING t), (uv__is_active t).
  - by rewrite count_erase.
  - apply (ref_changed others ps cs l p t _ _ L Hp Ht); [done| |rewrite Hr; unfold or_flag; flag_bits; done].
    intros k Hk. cbn [or_flag set_flags flags]. rewrite Z.lor_spec. change UV_HANDLE_REF with (2 ^ 3).
    rewrite (Z.pow2_bits_false 3 k) by lia. by rewrite orb_false_r.
Qed.

Lemma unref_ok others ps cs l w p t :
  loop_ok others ps cs l -> p ∈ ps -> timers l !! p = Some t ->
  exists l', uv__handle_unref p l w = Ok tt l' w /\ erase l' = abs_unref p (erase l) /\ loop_ok others ps cs l'.
Proof.
  intros L Hp Ht. unfold uv__handle_unref, abs_unref. change (timers (erase l)) with (timers l). rewrite Ht. timer_run.
  destruct (uv__has_ref t) eqn:Hr; cbn [negb]; [|by exists l]. timer_run.
  exists (count_if (negb (has_flag UV_HANDLE_CLOSING t) && uv__is_active t) (-1) (set_timer p (clear_flag UV_HANDLE_REF t) l)).
  split_and!.
  - replace (has_flag UV_HANDLE_CLOSING (clear_flag UV_HANDLE_REF t)) with (has_flag UV_HANDLE_CLOSING t) by (flag_bits; done).
    replace (uv__is_active (clear_flag UV_HANDLE_REF t)) with (uv__is_active t) by (flag_bits; done).
    by destruct (has_flag UV_HANDLE_CLOSING t), (uv__is_active t).
  - by rewrite count_erase.
  - apply (ref_changed others ps cs l p t _ _ L Hp Ht); [done| |rewrite Hr; unfold clear_flag; flag_bits; done].
    intros k Hk. cbn [clear_flag set_flags flags]. destruct (Z_lt_dec k 0).
    + by rewrite !Z.testbit_neg_r.
    + rewrite Z.ldiff_spec. change UV_HANDLE_REF with (2 ^ 3).
      rewrite (Z.pow2_bits_false 3 k) by lia. by rewrite andb_true_r.
Qed.

