(* ===== verification/TimerLife.v ===== *)
(** The beginning and the end of a handle: [uv_timer_init], [uv_close],
    [uv__run_closing_handles]. *)
From stdpp Require Import base gmap list numbers sets sorting.
From Stdlib Require Import ZArith Lia.
From S2P Require Import Prelude Cmem Heap HeapThms Queue Timer TimerOps.

(** * Initialisation *)

Definition fresh_timer (t : uv_timer_t) : uv_timer_t :=
  mk_timer (close_cb t) NULL UV_HANDLE_REF NULL (timeout t) 0 (start_id t).

(** The memory of a handle that has not been initialised yet. *)
Record blank (ps : list Z) (l : uv_loop_t) (p : Z) (t : uv_timer_t) : Prop := {
  b_new : p ∉ ps;
  b_struct : timers l !! p = Some t;
  b_word : 0 <= timeout t < 2 ^ 64;
  b_null : p <> NULL /\ heap_node_of p <> NULL;
  b_node : is_Some (nodes (timer_heap l) !! heap_node_of p);
  b_links : queue_of p ∈ dom (links l) /\ queue_of p <> handle_queue l;
}.

Lemma on_links_ok {A} (f : SM links_mem A) l w a m :
  f (links l) w = Ok a m w -> on_links f l w = Ok a (set_links m l) w.
Proof. intros E. unfold on_links. by rewrite E. Qed.

Lemma closing_chain_other m p t q cs :
  p ∉ cs -> closing_chain m q cs -> closing_chain (<[p := t]> m) q cs.
Proof.
  revert q. induction cs as [|c cs IH]; intros q Hp; [done|]. intros (-> & u & Hu & Hc). split; [done|].
  exists u. rewrite lookup_insert_ne by set_solver. split; [done|]. apply IH; [set_solver|done].
Qed.

Lemma in_heap_fresh ps m p t x :
  p ∉ ps -> uv__is_active t = false -> in_heap (ps ++ [p]) (<[p := t]> m) x <-> in_heap ps m x.
Proof.
  intros Hp Ha. split; intros (q & u & -> & Hq & Hu & Hau).
  - apply elem_of_app in Hq as [Hq| ->%list_elem_of_singleton].
    + exists q, u. rewrite lookup_insert_ne in Hu by (by intros ->). done.
    + rewrite lookup_insert_eq in Hu. injection Hu as <-. congruence.
  - exists q, u. rewrite lookup_insert_ne by (by intros ->). split_and!; try done. set_solver.
Qed.

Lemma tally_fresh P m ps p t : p ∉ ps -> P t = false -> tally P (<[p := t]> m) (ps ++ [p]) = tally P m ps.
Proof.
  intros Hp Hf. rewrite tally_app, tally_absent by done. cbn [tally].
  unfold holds_at. rewrite lookup_insert_eq, Hf. cbn. lia.
Qed.

Lemma init_run l w p t m :
  timers l !! p = Some t -> QUEUE_INSERT_TAIL (handle_queue l) (queue_of p) (links l) w = Ok tt m w ->
  uv_timer_init p l w = Ok 0 (set_links m (set_timer p (fresh_timer t) l)) w.
Proof.
  intros Ht Em. unfold uv_timer_init, uv__handle_init. timer_run.
  rewrite (on_links_ok _ _ w tt m) by done. unfold set_links, set_timer, set_timers. cbn. timer_run.
  unfold set_timer, set_timers. cbn. by rewrite insert_insert_eq.
Qed.

Lemma timer_init_ok others ps cs l w p t :
  loop_ok others ps cs l -> blank ps l p t -> Z.of_nat (length ps) + 1 < 2 ^ 32 ->
  exists l', uv_timer_init p l w = Ok 0 l' w /\ erase l' = set_timer p (fresh_timer t) (erase l) /\
             loop_ok others (ps ++ [p]) cs l'.
Proof.
  intros L [Hnew Ht Hword [Hp0 Hn0] Hns [Hld Hhq]] Hlen.
  destruct (insert_tail_ok (links l) (handle_queue l) (map queue_of ps) (queue_of p) w (lo_queue _ _ _ _ L))
    as (m & Em & Hq & _); [|done|].
  { apply not_elem_of_cons. split; [done|]. intros (q & E & Hq)%list_elem_of_fmap.
    apply queue_of_inj in E as ->. done. }
  rewrite (init_run l w p t m Ht Em). eexists. split; [reflexivity|]. split; [done|].
  assert (Hcs : p ∉ cs) by (intros Hc; by apply Hnew, (lo_subset _ _ _ _ L)).
  assert (Hfresh : forall q u, q ∈ ps ++ [p] -> <[p := fresh_timer t]> (timers l) !! q = Some u ->
            (q = p /\ u = fresh_timer t) \/ (q ∈ ps /\ timers l !! q = Some u)).
  { intros q u Hq' Hu. rewrite lookup_insert in Hu. case_decide; subst; [left; split; congruence|right].
    split; [set_solver|done]. }
  split; loop_simpl.
  - by rewrite map_app.
  - intros q [Hq'| ->%list_elem_of_singleton]%elem_of_app.
    + destruct (lo_timers _ _ _ _ L q Hq') as (u & Hu & ?). exists u.
      rewrite lookup_insert_ne by (by intros ->). done.
    + exists (fresh_timer t). rewrite lookup_insert_eq. done.
  - intros q [Hq'| ->%list_elem_of_singleton]%elem_of_app; [by apply L|done].
  - apply (is_heap_ext _ _ (in_heap ps (timers l))); [intros x; symmetry; by apply in_heap_fresh|].
    apply (is_heap_order (timer_less_than (timers l))); [|apply L].
    intros x y Hx Hy. apply less_than_other; intros ->; [destruct Hx as (q & _ & E & Hq' & _)|destruct Hy as (q & _ & E & Hq' & _)];
      apply node_of_inj in E; by subst.
  - rewrite tally_fresh by done. apply L.
  - rewrite tally_fresh by done. apply L.
  - rewrite length_app. cbn. lia.
  - intros q r u v Hq' Hr Hu Hv Hau Hav. apply Hfresh in Hu as [[-> ->]|[? ?]]; [done| |done].
    apply Hfresh in Hv as [[-> ->]|[? ?]]; [done| |done]. by apply (lo_ids _ _ _ _ L q r u v).
  - apply L.
  - apply closing_chain_other; [done|]. apply L.
  - intros q u Hq' Hu. apply Hfresh in Hu as [[-> ->]|[? ?]]; [|by apply (lo_closing _ _ _ _ L)|done].
    split; [done|]. intros Hc. by destruct Hcs.
  - destruct (lo_subset _ _ _ _ L) as [? Hsub]. split; [done|]. intros q Hq'. apply elem_of_app. left. by apply Hsub.
Qed.

(** * Closing *)

Definition closed_later (cb next : Z) (t : uv_timer_t) : uv_timer_t :=
  mk_timer cb next (Z.lor (flags t) UV_HANDLE_CLOSING) (timer_cb t) (timeout t) (repeat_ t) (start_id t).

Definition abs_close (p cb : Z) (l : uv_loop_t) : uv_loop_t :=
  let l := abs_stop p l in
  match timers l !! p with
  | Some t => set_closing_handles p (set_timer p (closed_later cb (closing_handles l) t) l)
  | None => l
  end.

Lemma flags_swap x : Z.ldiff (Z.lor x UV_HANDLE_CLOSING) UV_HANDLE_ACTIVE = Z.lor (Z.ldiff x UV_HANDLE_ACTIVE) UV_HANDLE_CLOSING.
Proof.
  apply Z.bits_inj'. intros n Hn. rewrite Z.lor_spec, !Z.ldiff_spec, Z.lor_spec by done.
  change UV_HANDLE_CLOSING with (2 ^ 0). change UV_HANDLE_ACTIVE with (2 ^ 2). rewrite !Z.pow2_bits_eqb by lia.
  destruct (Z.eqb_spec 0 n) as [<-|]; [by destruct (Z.testbit x 0)|]. by destruct (Z.testbit x n), (2 =? n).
Qed.

(** The handle is marked first and stopped afterwards. *)
Definition marked (cb : Z) (t : uv_timer_t) : uv_timer_t := set_close_cb cb (or_flag UV_HANDLE_CLOSING t).

Lemma marked_active cb t : uv__is_active (marked cb t) = uv__is_active t.
Proof. unfold marked, set_close_cb. flag_bits. done. Qed.

Lemma make_close_pending_ok l w p t :
  timers l !! p = Some t -> has_flag UV_HANDLE_CLOSING t = true -> has_flag UV_HANDLE_CLOSED t = false ->
  uv__make_close_pending p l w
  = Ok tt (set_closing_handles p (set_timer p (set_next_closing (closing_handles l) t) l)) w.
Proof.
  intros Ht Hc Ho. unfold uv__make_close_pending. timer_run. rewrite Hc, Ho. cbn [assert_ negb]. by timer_run.
Qed.

Lemma close_run others ps cs l w p t cb :
  loop_ok others ps cs l -> p ∈ ps -> timers l !! p = Some t -> uv__is_closing t = false ->
  let t1 := if uv__is_active t then stopped t else t in
  exists h l', uv_close p cb l w = Ok tt l' w /\
    l' = set_closing_handles p (set_timer p (closed_later cb (closing_handles l) t1)
           (count_if (counted t) (-1) (set_timer_heap h l))) /\
    is_heap (timer_less_than (timers l)) h (fun x => in_heap ps (timers l) x /\ x <> heap_node_of p) /\
    nelts h = nelts (timer_heap l) - b2z (uv__is_active t) /\ dom (nodes h) = dom (nodes (timer_heap l)).
Proof.
  intros L Hp Ht Hc t1. unfold uv_close. timer_run. rewrite Hc. cbn [assert_ negb]. timer_run.
  fold (marked cb t). set (l1 := set_timer p (marked cb t) l). destruct (timer_at _ _ _ _ _ _ L Hp Ht) as [_ _ _ _ Hop].
  assert (Hm : timers l1 !! p = Some (marked cb t)) by apply timer_set.
  assert (Hcl : has_flag UV_HANDLE_CLOSING (marked cb t) = true) by (unfold marked, set_close_cb; flag_bits; done).
  assert (Hop1 : has_flag UV_HANDLE_CLOSED (marked cb t) = false) by (unfold marked, set_close_cb; flag_bits; done).
  unfold uv__timer_close. cbn [bind]. destruct (uv__is_active t) eqn:Ha.
  - destruct (stop_run ps l1 w p (marked cb t)) as (h & E & Hh & Hn & Hd); try done.
    + eapply (is_heap_order (timer_less_than (timers l))); [|eapply is_heap_ext; [|apply L]].
      * intros x y _ _. by apply (less_than_same _ p t).
      * intros x. subst l1. loop_simpl. rewrite (in_heap_update ps _ p t) by done. rewrite marked_active, Ha.
        split; [|intros [[_ ->]|[? _]]; [by exists p, t|done]].
        intros Hx. destruct (decide (x = heap_node_of p)); [by left|by right].
    + subst l1. loop_simpl. destruct (nelts_bound _ _ _ _ L). lia.
    + by rewrite marked_active.
    + rewrite E. cbn [ret].
      assert (Hr : uv__has_ref (marked cb t) = uv__has_ref t) by (unfold marked, set_close_cb; flag_bits; done).
      rewrite (make_close_pending_ok _ w p (stopped (marked cb t))).
      * exists h. eexists. split; [reflexivity|]. split; [|split; [|done]].
        -- unfold closed_later. subst t1. cbn [close_cb stopped clear_flag set_flags flags timer_cb timeout repeat_ start_id].
           unfold counted. rewrite Ha, Hr. cbn [andb].
           rewrite <- flags_swap. subst l1. unfold count_if, count_by, set_timer, set_timers. destruct (uv__has_ref t); cbn;
             by rewrite !insert_insert_eq.
        -- subst l1. eapply (is_heap_order (timer_less_than _)); [|eapply is_heap_ext; [|exact Hh]].
           ++ intros x y _ _. loop_simpl. symmetry. by apply (less_than_same _ p t).
           ++ intros x. loop_simpl. rewrite (in_heap_update ps _ p t) by done. tauto.
      * loop_simpl. by rewrite lookup_insert_eq.
      * unfold stopped. flag_bits. done.
      * unfold stopped. flag_bits. done.
  - unfold uv_timer_stop. timer_run. rewrite marked_active, Ha. cbn [negb ret].
    rewrite (make_close_pending_ok _ w p (marked cb t)) by done.
    exists (timer_heap l). eexists. split; [reflexivity|]. split; [|split; [|split; [cbn [b2z]; lia|done]]].
    + unfold counted. rewrite Ha. cbn [andb count_if]. subst l1. unfold set_timer, set_timers. cbn.
      by rewrite insert_insert_eq.
    + apply (is_heap_ext _ _ (in_heap ps (timers l))); [|apply L]. intros x. split; [|by intros []].
      intros Hx. split; [done|]. by apply (not_in_heap ps (timers l) p t).
Qed.

Lemma close_ok others ps cs l w p t cb :
  loop_ok others ps cs l -> p ∈ ps -> timers l !! p = Some t -> uv__is_closing t = false ->
  exists l', uv_close p cb l w = Ok tt l' w /\ erase l' = abs_close p cb (erase l) /\ loop_ok others ps (p :: cs) l'.
Proof.
  intros L Hp Ht Hc. destruct (close_run others ps cs l w p t cb L Hp Ht Hc) as (h & l' & E & El & Hh & Hn & Hd).
  set (t1 := if uv__is_active t then stopped t else t) in *. exists l'. split; [done|].
  destruct (timer_at _ _ _ _ _ _ L Hp Ht) as [? ? _ _ Hop]. pose proof (lo_words _ _ _ _ L).
  assert (Ha1 : uv__is_active (closed_later cb (closing_handles l) t1) = false).
  { unfold closed_later, t1. destruct (uv__is_active t) eqn:Ha; unfold stopped; flag_bits; done. }
  assert (Hpcs : p ∉ cs).
  { intros Hin. apply (lo_closing _ _ _ _ L p t) in Hin; [|done|done]. rewrite closing_flag_bit in Hin.
    rewrite closing_bits, Hin in Hc. done. }
  split.
  - subst l'. unfold abs_close, abs_stop, counted. change (timers (erase l)) with (timers l). rewrite Ht.
    subst t1. destruct (uv__is_active t); loop_simpl.
    + rewrite lookup_insert_eq. cbn [andb]. unfold count_if, count_by, erase, set_timers.
      destruct (uv__has_ref t); cbn; by rewrite insert_insert_eq.
    + change (timers (erase l)) with (timers l). by rewrite Ht.
  - subst l'. apply (loop_ok_change others ps cs (p :: cs) l _ p t (closed_later cb (closing_handles l) t1));
      loop_simpl; try done; try lia.
    + split; rewrite ?Ha1; try done; unfold closed_later, t1; destruct (uv__is_active t); try done;
        unfold stopped; flag_bits; done.
    + split; [done|]. eexists. rewrite lookup_insert_eq. split; [done|]. apply closing_chain_other; [done|]. apply L.
    + intros q u Hq Hu. rewrite lookup_insert in Hu. case_decide; subst.
      * injection Hu as <-. split; [intros _; set_solver|intros _]. unfold closed_later. flag_bits. done.
      * rewrite (lo_closing _ _ _ _ L q u) by done. set_solver.
    + destruct (lo_subset _ _ _ _ L) as [? Hs]. split; [by apply list.NoDup_cons|]. set_solver.
    + by rewrite Ha1.
    + eapply (is_heap_order (timer_less_than (timers l))); [|eapply is_heap_ext; [|exact Hh]].
      * intros x y _ _. subst t1. apply (less_than_same _ p t); try done; by destruct (uv__is_active t).
      * intros x. rewrite Ha1. split; [by right|]. intros [[? _]|?]; done.
    + rewrite Ha1. cbn [b2z]. lia.
    + assert (Hc1 : counted (closed_later cb (closing_handles l) t1) = false) by (unfold counted; by rewrite Ha1).
      rewrite Hc1.
      change (active_handles (count_if (counted t) (-1) (set_timer_heap h l)) = u32 (active_handles l - b2z (counted t) + b2z false)).
      rewrite (active_count_if others ps cs l) by done. f_equal. destruct (counted t); cbn [b2z]; lia.
Qed.

(** * The end of a handle *)

(** The struct after [uv__finish_close]: closed and without a reference. *)
Definition finished_timer (t : uv_timer_t) : uv_timer_t :=
  let t := or_flag UV_HANDLE_CLOSED t in
  if uv__has_ref t then clear_flag UV_HANDLE_REF t else t.

Lemma finished_flags t :
  uv__is_active (finished_timer t) = uv__is_active t /\ has_flag UV_HANDLE_CLOSING (finished_timer t) = has_flag UV_HANDLE_CLOSING t /\
  has_flag UV_HANDLE_CLOSED (finished_timer t) = true /\ uv__has_ref (finished_timer t) = false /\
  close_cb (finished_timer t) = close_cb t.
Proof.
  unfold finished_timer. destruct (uv__has_ref (or_flag UV_HANDLE_CLOSED t)) eqn:E; split_and!; try done; flag_bits; done.
Qed.

(** A list without one of its elements. *)
Definition without_handle (p : Z) (ps : list Z) : list Z := List.filter (fun q => negb (q =? p)) ps.

Lemma without_split p l1 l2 : NoDup (l1 ++ p :: l2) -> without_handle p (l1 ++ p :: l2) = l1 ++ l2.
Proof.
  intros Hnd. apply NoDup_app in Hnd as (_ & Hd & [Hp _]%list.NoDup_cons). unfold without_handle.
  rewrite List.filter_app. cbn. rewrite Z.eqb_refl. cbn.
  assert (Hid : forall l, p ∉ l -> List.filter (fun q => negb (q =? p)) l = l).
  { induction l as [|q l IH]; intros Hq; [done|]. apply not_elem_of_cons in Hq as [Hne Hq]. cbn.
    rewrite (proj2 (Z.eqb_neq q p)) by done. cbn. by rewrite IH. }
  rewrite !Hid; [done|done|]. intros Hin. apply (Hd p Hin). set_solver.
Qed.

Lemma elem_of_without p ps q : q ∈ without_handle p ps <-> q ∈ ps /\ q <> p.
Proof.
  unfold without_handle. rewrite !list_elem_of_In, List.filter_In. destruct (Z.eqb_spec q p); cbn; naive_solver.
Qed.

(** A closing handle leaves the loop. *)
Lemma loop_ok_leave others ps cs l p t m :
  loop_ok others ps (p :: cs) (set_closing_handles p l) -> timers l !! p = Some t ->
  queue m (handle_queue l) (map queue_of (without_handle p ps)) ->
  loop_ok others (without_handle p ps) cs
    (set_closing_handles (next_closing t) (set_links m (set_timer p (finished_timer t) l))).
Proof.
  intros L Ht Hq. assert (Hp : p ∈ ps) by (apply (lo_subset _ _ _ _ L); set_solver).
  pose proof (handles_nodup _ _ _ _ L) as Hnd. pose proof (timer_at _ _ _ _ p t L Hp Ht) as [_ _ _ Hcl _].
  assert (Ha : uv__is_active t = false) by (apply Hcl; apply (lo_closing _ _ _ _ L p t Hp Ht); set_solver).
  assert (Hold : forall q u, q ∈ without_handle p ps -> <[p := finished_timer t]> (timers l) !! q = Some u ->
            q ∈ ps /\ q <> p /\ timers l !! q = Some u).
  { intros q u [Hq' Hne]%elem_of_without Hu. by rewrite lookup_insert_ne in Hu. }
  assert (Htally : forall P, P t = false -> tally P (<[p := finished_timer t]> (timers l)) (without_handle p ps) = tally P (timers l) ps).
  { intros P HP. rewrite tally_absent by (rewrite elem_of_without; naive_solver).
    apply list_elem_of_split in Hp as (l1 & l2 & ->). rewrite without_split, !tally_app by done. cbn [tally].
    assert (E : holds_at P (timers l) p = false) by (unfold holds_at; by rewrite Ht). rewrite E. cbn. lia. }
  destruct (lo_subset _ _ _ _ L) as [[Hpc Hcs]%list.NoDup_cons Hsub].
  split; loop_simpl; try (apply L).
  - done.
  - intros q [Hq' Hne]%elem_of_without. rewrite lookup_insert_ne by done. by apply (lo_timers _ _ _ _ L).
  - intros q [Hq' Hne]%elem_of_without. by apply (lo_nodes _ _ _ _ L).
  - apply (is_heap_ext _ _ (in_heap ps (timers l))).
    + intros x. split; intros (q & u & -> & Hq' & Hu & Hau).
      * exists q, u. assert (q <> p) by (intros ->; congruence). rewrite lookup_insert_ne by done.
        by rewrite elem_of_without.
      * destruct (Hold q u Hq' Hu) as (? & _ & ?). by exists q, u.
    + eapply is_heap_order; [|apply L]. intros x y Hx Hy.
      apply less_than_other; by apply (not_in_heap ps (timers l) p t).
  - rewrite Htally by done. apply L.
  - rewrite Htally; [apply L|]. unfold counted. by rewrite Ha.
  - apply list_elem_of_split in Hp as (l1 & l2 & E). pose proof (lo_size _ _ _ _ L) as Hs. rewrite E in *.
    rewrite without_split by done. rewrite length_app in *. cbn [length] in Hs. lia.
  - intros q r u v Hq' Hr Hu Hv. apply Hold in Hu as (? & _ & ?); [|done]. apply Hold in Hv as (? & _ & ?); [|done].
    by apply (lo_ids _ _ _ _ L).
  - destruct (lo_chain _ _ _ _ L) as (_ & t0 & Ht0 & Hc). cbn [timers set_closing_handles] in Ht0, Hc.
    rewrite Ht in Ht0. injection Ht0 as <-. by apply closing_chain_other.
  - intros q u Hq' Hu. apply Hold in Hu as (Hqp & Hne & Hu); [|done].
    rewrite (lo_closing _ _ _ _ L q u Hqp Hu), elem_of_cons. naive_solver.
  - split; [done|]. intros q Hc. apply elem_of_without. split; [apply Hsub; set_solver|by intros ->].
Qed.

Section callbacks.
Context `{LoopEnv}.

(** What the application's callbacks do to the rest of the program; they leave the loop
    alone. *)
Definition quiet_close (note : Z -> Z -> world -> world) : Prop :=
  forall cb p l w, run_close_cb cb p l w = Ok tt l (note cb p w).

Lemma finish_close_run l w p t m note :
  quiet_close note -> timers l !! p = Some t ->
  has_flag UV_HANDLE_CLOSING t = true -> has_flag UV_HANDLE_CLOSED t = false ->
  QUEUE_REMOVE (queue_of p) (links l) w = Ok tt m w ->
  uv__finish_close p l w
  = Ok tt (set_links m (set_timer p (finished_timer t) l)) (if close_cb t =? NULL then w else note (close_cb t) p w).
Proof.
  intros Hnote Ht Hc Ho Em. unfold uv__finish_close. timer_run. rewrite Hc, Ho. cbn [assert_ negb]. timer_run.
  unfold uv__handle_unref. timer_run. unfold finished_timer.
  destruct (uv__has_ref (or_flag UV_HANDLE_CLOSED t)) eqn:Hr; cbn [negb]; timer_run.
  - replace (has_flag UV_HANDLE_CLOSING _) with true by (symmetry; flag_bits; done). cbn [ret].
    rewrite (on_links_ok _ _ w tt m) by done. loop_simpl.
    rewrite (load_timer_ok _ w p (clear_flag UV_HANDLE_REF (or_flag UV_HANDLE_CLOSED t))) by (loop_simpl; apply lookup_insert_eq).
    cbn [clear_flag or_flag set_flags close_cb]. destruct (close_cb t =? NULL); [done|]. apply Hnote.
  - rewrite (on_links_ok _ _ w tt m) by done. loop_simpl.
    rewrite (load_timer_ok _ w p (or_flag UV_HANDLE_CLOSED t)) by (loop_simpl; apply lookup_insert_eq).
    cbn [or_flag set_flags close_cb]. destruct (close_cb t =? NULL); [done|]. apply Hnote.
Qed.

(** The callbacks of the handles [cs], in turn. *)
Fixpoint close_notes (note : Z -> Z -> world -> world) (m : gmap Z uv_timer_t) (cs : list Z) (w : world) : world :=
  match cs with
  | [] => w
  | c :: cs =>
      let cb := close_cb (default blank_timer (m !! c)) in
      close_notes note m cs (if cb =? NULL then w else note cb c w)
  end.

Lemma close_notes_other note m p t cs w :
  p ∉ cs -> close_notes note (<[p := t]> m) cs w = close_notes note m cs w.
Proof.
  revert w. induction cs as [|c cs IH]; intros w Hp; [done|]. cbn [close_notes].
  rewrite lookup_insert_ne by set_solver. apply IH. set_solver.
Qed.

Definition without_all (cs ps : list Z) : list Z := foldl (fun ps c => without_handle c ps) ps cs.

Lemma finish_all_ok note others cs : forall fuel ps l w p,
  quiet_close note -> loop_ok others ps cs (set_closing_handles p l) -> (length cs < fuel)%nat ->
  closing_handles l = NULL ->
  exists l', finish_all fuel p l w = Ok tt l' (close_notes note (timers l) cs w) /\
    loop_ok others (without_all cs ps) [] l' /\
    (forall c t, c ∈ cs -> timers l !! c = Some t -> timers l' !! c = Some (finished_timer t)) /\
    (forall q, q ∉ cs -> timers l' !! q = timers l !! q).
Proof.
  induction cs as [|c cs IH]; intros fuel ps l w p Hnote L Hf Hnull; (destruct fuel as [|fuel]; [cbn in Hf; lia|]).
  - pose proof (lo_chain _ _ _ _ L) as Hp. cbn [closing_chain set_closing_handles closing_handles] in Hp. subst p.
    cbn [finish_all]. rewrite Z.eqb_refl. exists l. split; [done|]. split; [|split; [by intros c t Hc%not_elem_of_nil|done]].
    cbn [without_all foldl]. replace l with (set_closing_handles NULL l) at 1; [done|]. destruct l; cbn in *; by subst.
  - destruct (lo_chain _ _ _ _ L) as (Hpc & t & Ht & Hchain). cbn [set_closing_handles closing_handles timers] in Hpc, Ht.
    subst p. assert (Hc : c ∈ ps) by (apply (lo_subset _ _ _ _ L); set_solver).
    destruct (lo_nodes _ _ _ _ L c Hc) as (Hc0 & _). cbn [finish_all]. rewrite (proj2 (Z.eqb_neq c NULL)) by done.
    cbn [bind]. rewrite (load_timer_ok l w c t) by done.
    destruct (timer_at _ _ _ _ c t L Hc Ht) as [_ _ _ _ Hop].
    assert (Hcl : has_flag UV_HANDLE_CLOSING t = true) by (apply (lo_closing _ _ _ _ L c t Hc Ht); set_solver).
    pose proof (handles_nodup _ _ _ _ L) as Hnd. pose proof (lo_queue _ _ _ _ L) as Hq.
    assert (Hsplit : exists l1 l2, ps = l1 ++ c :: l2) by by apply list_elem_of_split.
    destruct Hsplit as (l1 & l2 & E). rewrite E, map_app in Hq. cbn [map links set_closing_handles handle_queue] in Hq.
    destruct (remove_ok (links l) (handle_queue l) _ (queue_of c) _ w Hq) as (m & Em & Hqm & _).
    rewrite (finish_close_run l w c t m note) by done.
    rewrite <- map_app, <- (without_split c) , <- E in Hqm by (by rewrite <- E).
    pose proof (loop_ok_leave others ps cs l c t m L Ht Hqm) as L'.
    destruct (lo_subset _ _ _ _ L) as [[Hcc Hnc]%list.NoDup_cons _].
    destruct (IH fuel (without_handle c ps) (set_links m (set_timer c (finished_timer t) l))
                (if close_cb t =? NULL then w else note (close_cb t) c w) (next_closing t)) as (l' & E' & L2 & Hin & Hout);
      [done|done|cbn in Hf; lia|done|].
    exists l'. split; [|split; [done|split]].
    + rewrite E'. loop_simpl. rewrite close_notes_other by done. cbn [close_notes]. by rewrite Ht.
    + intros d u [->|Hd]%elem_of_cons Hu.
      * rewrite Hout by done. loop_simpl. rewrite lookup_insert_eq. congruence.
      * apply Hin; [done|]. loop_simpl. rewrite lookup_insert_ne; [done|]. by intros ->.
    + intros q [Hqc Hqs]%not_elem_of_cons. rewrite Hout by done. loop_simpl. by rewrite lookup_insert_ne.
Qed.

End callbacks.
