(* ===== verification/TimerThms.v ===== *)
(** What libuv's timers promise: the operations refine operations on a set of timers,
    the poll timeout is the time to the next deadline, due timers fire in order of their
    deadlines, and closing handles are finished once each. *)
From stdpp Require Import base gmap list numbers sets sorting.
From Stdlib Require Import ZArith Lia.
From S2P Require Import Prelude Cmem Heap HeapThms Queue Timer TimerOps TimerLife.

(** * Sorted lists *)

Lemma StronglySorted_impl_in {A} (R R' : A -> A -> Prop) (l : list A) :
  (forall x y, x ∈ l -> y ∈ l -> R x y -> R' x y) -> StronglySorted R l -> StronglySorted R' l.
Proof.
  intros Himp Hs. induction Hs as [|x l _ IH Hx]; constructor.
  - apply IH. intros y z Hy Hz. apply Himp; by right.
  - rewrite List.Forall_forall in *. intros y Hy. apply Himp; [left|right; by apply list_elem_of_In|by apply Hx].
Qed.

(** * The operations as one interface *)

Inductive timer_op :=
| op_init (p : Z)
| op_start (p cb timeout repeat : Z)
| op_stop (p : Z)
| op_again (p : Z)
| op_set_repeat (p repeat : Z)
| op_ref (p : Z)
| op_unref (p : Z)
| op_close (p cb : Z).

Definition run_timer_op (op : timer_op) : SM uv_loop_t Z :=
  match op with
  | op_init p => uv_timer_init p
  | op_start p cb timeout repeat => uv_timer_start p cb timeout repeat
  | op_stop p => uv_timer_stop p
  | op_again p => uv_timer_again p
  | op_set_repeat p r => uv_timer_set_repeat p r;; ret 0
  | op_ref p => uv__handle_ref p;; ret 0
  | op_unref p => uv__handle_unref p;; ret 0
  | op_close p cb => uv_close p cb;; ret 0
  end.

Definition abs_update (p : Z) (f : uv_timer_t -> uv_timer_t) (l : uv_loop_t) : uv_loop_t :=
  match timers l !! p with Some t => set_timer p (f t) l | None => l end.

(** The result and the next state, without heap and links. *)
Definition abs_op (op : timer_op) (l : uv_loop_t) : Z * uv_loop_t :=
  match op with
  | op_init p => (0, abs_update p fresh_timer l)
  | op_start p cb timeout repeat => abs_start p cb timeout repeat l
  | op_stop p => (0, abs_stop p l)
  | op_again p => abs_again p l
  | op_set_repeat p r => (0, abs_update p (set_repeat r) l)
  | op_ref p => (0, abs_ref p l)
  | op_unref p => (0, abs_unref p l)
  | op_close p cb => (0, abs_close p cb l)
  end.

Definition handles_after (op : timer_op) (ps : list Z) : list Z :=
  match op with op_init p => ps ++ [p] | _ => ps end.
Definition closing_after (op : timer_op) (cs : list Z) : list Z :=
  match op with op_close p _ => p :: cs | _ => cs end.

(** What the documentation asks of a caller: initialised handles, 64-bit arguments, no
    handle closed twice; and fewer than [2 ^ 64] starts in the life of a loop. *)
Definition op_allowed (ps cs : list Z) (l : uv_loop_t) (op : timer_op) : Prop :=
  match op with
  | op_init p => Z.of_nat (length ps) + 1 < 2 ^ 32 /\ exists t, blank ps l p t
  | op_start p _ timeout repeat =>
      p ∈ ps /\ 0 <= timeout < 2 ^ 64 /\ 0 <= repeat < 2 ^ 64 /\ timer_counter l + 1 < 2 ^ 64
  | op_again p => p ∈ ps /\ timer_counter l + 1 < 2 ^ 64
  | op_set_repeat p r => p ∈ ps /\ 0 <= r < 2 ^ 64
  | op_stop p | op_ref p | op_unref p => p ∈ ps
  | op_close p _ => p ∈ ps /\ p ∉ cs
  end.

Lemma closing_iff others ps cs l p t :
  loop_ok others ps cs l -> p ∈ ps -> timers l !! p = Some t -> (uv__is_closing t = true <-> p ∈ cs).
Proof.
  intros L Hp Ht. rewrite <- (lo_closing _ _ _ _ L p t Hp Ht). destruct (timer_at _ _ _ _ _ _ L Hp Ht) as [_ _ _ _ Ho].
  rewrite closed_flag_bit in Ho. rewrite closing_bits, closing_flag_bit, Ho. by rewrite orb_false_r.
Qed.

Lemma start_any others ps cs l w p t cb timeout repeat :
  loop_ok others ps cs l -> p ∈ ps -> timers l !! p = Some t ->
  0 <= timeout < 2 ^ 64 -> 0 <= repeat < 2 ^ 64 -> timer_counter l + 1 < 2 ^ 64 ->
  exists r l', uv_timer_start p cb timeout repeat l w = Ok r l' w /\
    (r, erase l') = abs_start p cb timeout repeat (erase l) /\ loop_ok others ps cs l'.
Proof.
  intros L Hp Ht Hto Hre Hcnt. destruct (uv__is_closing t || (cb =? NULL)) eqn:E.
  - exists UV_EINVAL, l. split; [by apply (start_refused l w p t)|]. split; [|done]. unfold abs_start.
    change (timers (erase l)) with (timers l). by rewrite Ht, E.
  - pose proof E as [Hc Hcb%Z.eqb_neq]%orb_false_iff.
    destruct (start_ok others ps cs l w p t cb timeout repeat) as (l' & El & Ee & L'); try done.
    exists 0, l'. split_and!; try done. rewrite Ee. unfold abs_start. change (timers (erase l)) with (timers l).
    rewrite Ht, E. by destruct (timers (abs_stop p (erase l)) !! p).
Qed.

(** C19: each timer operation returns what the operation on the plain set of timers
    returns, changes the timers, the flags, the reference count and the closing list as
    that operation does, and keeps the heap, the handle queue and the loop's counters
    consistent with them. *)
Theorem timer_ops_refine others ps cs l w op :
  loop_ok others ps cs l -> op_allowed ps cs l op ->
  exists r l', run_timer_op op l w = Ok r l' w /\ (r, erase l') = abs_op op (erase l) /\
               loop_ok others (handles_after op ps) (closing_after op cs) l'.
Proof.
  intros L Hop.
  destruct op as [p|p cb timeout repeat|p|p|p r|p|p|p cb]; cbn [op_allowed run_timer_op abs_op handles_after closing_after] in *.
  { destruct Hop as (Hlen & t & B). destruct (timer_init_ok others ps cs l w p t L B Hlen) as (l' & E & Ee & L').
    exists 0, l'. rewrite Ee. unfold abs_update. change (timers (erase l)) with (timers l). by rewrite (b_struct _ _ _ _ B). }
  all: assert (Hp : p ∈ ps) by first [exact Hop | apply Hop];
    destruct (lo_timers _ _ _ _ L p Hp) as (t & Ht & _).
  - destruct Hop as (_ & ? & ? & ?). by apply (start_any others ps cs l w p t).
  - destruct (stop_any others ps cs l w p t L Hp Ht) as (l' & E & Ee & L'). exists 0, l'. by rewrite Ee.
  - apply (again_ok others ps cs l w p t); try done. apply Hop.
  - destruct (set_repeat_ok others ps cs l w p t r L Hp Ht) as [E L']; [apply Hop|]. cbn [bind]. rewrite E.
    exists 0, (set_timer p (set_repeat r t) l). split_and!; try done. unfold abs_update.
    change (timers (erase l)) with (timers l). by rewrite Ht.
  - destruct (ref_ok others ps cs l w p t L Hp Ht) as (l' & E & Ee & L'). cbn [bind]. rewrite E. exists 0, l'. by rewrite Ee.
  - destruct (unref_ok others ps cs l w p t L Hp Ht) as (l' & E & Ee & L'). cbn [bind]. rewrite E. exists 0, l'. by rewrite Ee.
  - assert (Hc : uv__is_closing t = false).
    { apply not_true_iff_false. rewrite (closing_iff others ps cs l p t) by done. apply Hop. }
    destruct (close_ok others ps cs l w p t cb L Hp Ht Hc) as (l' & E & Ee & L'). cbn [bind]. rewrite E. exists 0, l'. by rewrite Ee.
Qed.

(** * The next deadline *)

(** The least timeout of the active timers among [ps]. *)
Fixpoint deadline (m : gmap Z uv_timer_t) (ps : list Z) : option Z :=
  match ps with
  | [] => None
  | p :: ps =>
      match m !! p with
      | Some t =>
          if uv__is_active t
          then Some (match deadline m ps with Some d => Z.min (timeout t) d | None => timeout t end)
          else deadline m ps
      | None => deadline m ps
      end
  end.

Lemma deadline_none m ps : (forall p t, p ∈ ps -> m !! p = Some t -> uv__is_active t = false) -> deadline m ps = None.
Proof.
  induction ps as [|p ps IH]; intros H; [done|]. cbn [deadline].
  assert (deadline m ps = None) by (apply IH; intros; by eapply H; [right|]).
  destruct (m !! p) as [t|] eqn:E; [|done]. by rewrite (H p t) by (done || left).
Qed.

Lemma deadline_some m ps p t :
  p ∈ ps -> m !! p = Some t -> uv__is_active t = true ->
  (forall q u, q ∈ ps -> m !! q = Some u -> uv__is_active u = true -> timeout t <= timeout u) ->
  deadline m ps = Some (timeout t).
Proof.
  intros Hp Ht Ha Hmin.
  assert (Hge : forall qs d, (forall q, q ∈ qs -> q ∈ ps) -> deadline m qs = Some d -> timeout t <= d).
  { induction qs as [|q qs IH]; intros d Hs; [done|]. cbn [deadline].
    assert (Hqs : forall d, deadline m qs = Some d -> timeout t <= d) by (intros; apply IH; [|done]; intros; apply Hs; by right).
    destruct (m !! q) as [u|] eqn:Eu; [|by apply Hqs]. destruct (uv__is_active u) eqn:Eau; [|by apply Hqs].
    pose proof (Hmin q u (Hs q ltac:(left)) Eu Eau). destruct (deadline m qs) as [d'|]; intros [= <-]; [|done].
    specialize (Hqs d' eq_refl). lia. }
  assert (Hd : forall qs, p ∈ qs -> (forall q, q ∈ qs -> q ∈ ps) -> deadline m qs = Some (timeout t)); [|by apply Hd].
  induction qs as [|q qs IH]; intros Hin Hs; [by apply not_elem_of_nil in Hin|]. cbn [deadline].
  assert (Hs' : forall x, x ∈ qs -> x ∈ ps) by (intros; apply Hs; by right).
  apply elem_of_cons in Hin as [<-|Hin].
  - rewrite Ht, Ha. f_equal. destruct (deadline m qs) as [d|] eqn:Ed; [|done]. specialize (Hge qs d Hs' Ed). lia.
  - rewrite (IH Hin Hs'). destruct (m !! q) as [u|] eqn:Eu; [|done]. destruct (uv__is_active u) eqn:Eau; [|done].
    specialize (Hmin q u (Hs q ltac:(left)) Eu Eau). f_equal. lia.
Qed.

(** [deadline] is the timeout of the heap's root. *)
Lemma heap_root others ps cs l w :
  loop_ok others ps cs l ->
  (on_heap (fun _ => heap_min) l w = Ok NULL l w /\
   forall p t, p ∈ ps -> timers l !! p = Some t -> uv__is_active t = false) \/
  exists p t, on_heap (fun _ => heap_min) l w = Ok (heap_node_of p) l w /\ heap_node_of p <> NULL /\
    p ∈ ps /\ timers l !! p = Some t /\ uv__is_active t = true /\
    forall q, in_heap ps (timers l) (heap_node_of q) -> timer_less_than (timers l) (heap_node_of q) (heap_node_of p) = false.
Proof.
  intros L. assert (Hl : set_timer_heap (timer_heap l) l = l) by by destruct l.
  destruct (heap_min_ok (timer_less_than (timers l)) (timer_heap l) w _ (lo_heap _ _ _ _ L)) as [[E Hno]|(m & E & Hm & Hin & Hle)].
  - left. rewrite (on_heap_ok (fun _ => heap_min) l w NULL (timer_heap l)), Hl by done. split; [done|].
    intros p t Hp Ht. apply not_true_iff_false. intros Ha. apply (Hno (heap_node_of p)). by exists p, t.
  - right. destruct Hin as (p & t & -> & Hp & Ht & Ha). exists p, t.
    rewrite (on_heap_ok (fun _ => heap_min) l w (heap_node_of p) (timer_heap l)), Hl by done.
    split_and!; try done. intros q Hq. by apply (Hle (heap_node_of q)).
Qed.

(** [timer_less_than] on two timers. *)
Lemma less_than_timers m p q t u :
  m !! p = Some t -> m !! q = Some u ->
  timer_less_than m (heap_node_of p) (heap_node_of q) =
  ((timeout t <? timeout u) || ((timeout t =? timeout u) && (start_id t <? start_id u))).
Proof.
  intros Hp Hq. unfold timer_less_than. rewrite !handle_of_node, Hp, Hq. cbn [default from_option id].
  destruct (Z.ltb_spec (timeout t) (timeout u)); cbn [orb]; [done|].
  destruct (Z.ltb_spec (timeout u) (timeout t)), (Z.eqb_spec (timeout t) (timeout u)); cbn [andb]; done || lia.
Qed.

Lemma least_timeout ps m p t q u :
  m !! p = Some t -> q ∈ ps -> m !! q = Some u -> uv__is_active u = true ->
  (forall q, in_heap ps m (heap_node_of q) -> timer_less_than m (heap_node_of q) (heap_node_of p) = false) ->
  timeout t <= timeout u.
Proof.
  intros Ht Hq Hu Ha H. specialize (H q ltac:(by exists q, u)). rewrite (less_than_timers m q p u t) in H by done.
  apply orb_false_iff in H as [H%Z.ltb_ge _]. lia.
Qed.

(** The milliseconds that [epoll_wait] may sleep. *)
Definition poll_timeout (now : Z) (d : option Z) : Z :=
  match d with
  | None => -1
  | Some d => Z.min INT_MAX (Z.max 0 (d - now))
  end.

Lemma next_timeout_ok others ps cs l w :
  loop_ok others ps cs l ->
  uv__next_timeout l w = Ok (poll_timeout (time l) (deadline (timers l) ps)) l w.
Proof.
  intros L. unfold uv__next_timeout. cbn [bind]. destruct (heap_root others ps cs l w L) as [[-> Hno]|(p & t & -> & Hn & Hp & Ht & Ha & Hmin)].
  - rewrite deadline_none by done. done.
  - rewrite (deadline_some _ _ p t) by (done || intros; by eapply least_timeout). rewrite (proj2 (Z.eqb_neq _ _) Hn).
    rewrite handle_of_node. cbn [bind]. rewrite (load_timer_ok l w p t) by done. cbn [get poll_timeout].
    destruct (timer_at _ _ _ _ _ _ L Hp Ht) as [Hto _ _ _ _]. destruct (lo_words _ _ _ _ L) as [Hti _].
    unfold INT_MAX. destruct (Z.leb_spec (timeout t) (time l)); cbn [ret]; [f_equal; lia|].
    rewrite u64_small by lia. destruct (Z.ltb_spec (2 ^ 31 - 1) (timeout t - time l)); f_equal; lia.
Qed.

(** What makes [uv_backend_timeout] return at once. *)
Definition poll_now (idle pending : list Z) (l : uv_loop_t) : bool :=
  negb (stop_flag l =? 0) || negb (uv__has_active_handles l || uv__has_active_reqs l) ||
  negb (length idle =? 0)%nat || negb (length pending =? 0)%nat || negb (closing_handles l =? NULL).

(** [uv_backend_timeout] is 0 when the loop is stopped or has something to do or
    nothing to wait for; otherwise it is -1 (for ever) when no timer is active, and the
    time to the earliest deadline, between 0 and [INT_MAX], when one is.  The loop is
    left as it was. *)
Theorem backend_timeout_spec others ps cs idle pending l w :
  loop_ok others ps cs l -> queue (links l) (idle_handles l) idle -> queue (links l) (pending_queue l) pending ->
  uv_backend_timeout l w =
  Ok (if poll_now idle pending l then 0 else poll_timeout (time l) (deadline (timers l) ps)) l w.
Proof.
  intros L Hi Hp. assert (Hl : set_links (links l) l = l) by by destruct l.
  unfold uv_backend_timeout, poll_now. cbn [bind get].
  destruct (stop_flag l =? 0); cbn [negb orb]; [|done]. rewrite negb_orb.
  destruct (negb (uv__has_active_handles l) && negb (uv__has_active_reqs l)); cbn [orb]; [done|].
  cbn [bind]. rewrite (on_links_ok _ l w _ (links l) (empty_ok _ _ _ w Hi)), Hl.
  destruct idle as [|x idle]; cbn [length Nat.eqb negb orb ret bind]; [|done].
  rewrite (on_links_ok _ l w _ (links l) (empty_ok _ _ _ w Hp)), Hl.
  destruct pending as [|x pending]; cbn [length Nat.eqb negb orb ret bind]; [|done].
  destruct (closing_handles l =? NULL); cbn [negb orb ret]; [|done]. by apply (next_timeout_ok others ps cs).
Qed.

(** * Firing *)

Definition due (now : Z) (t : uv_timer_t) : bool := uv__is_active t && (timeout t <=? now).

(** The timer with the earlier deadline fires first; among equal ones the one that was
    started first. *)
Definition fires_before (m : gmap Z uv_timer_t) (p q : Z) : Prop :=
  timer_less_than m (heap_node_of p) (heap_node_of q) = true.

(** Firing: stopped, and started again if it repeats. *)
Definition abs_fire (l : uv_loop_t) (p : Z) : uv_loop_t := (abs_again p (abs_stop p l)).2.

Definition fired_timer (now id : Z) (t : uv_timer_t) : uv_timer_t :=
  if repeat_ t =? 0 then stopped t
  else started (timer_cb t) (Z.min (now + repeat_ t) UINT64_MAX) (repeat_ t) id (stopped t).

Definition same_but_counts (l l' : uv_loop_t) : Prop :=
  time l' = time l /\ timer_counter l <= timer_counter l' <= timer_counter l + 1.

Lemma abs_stop_fields p t l :
  timers l !! p = Some t -> uv__is_active t = true ->
  timers (abs_stop p l) = <[p := stopped t]> (timers l) /\ time (abs_stop p l) = time l /\
  timer_counter (abs_stop p l) = timer_counter l.
Proof. intros Ht Ha. unfold abs_stop. rewrite Ht, Ha. by loop_simpl. Qed.

Lemma abs_fire_fields p t l :
  timers l !! p = Some t -> uv__is_active t = true -> uv__is_closing t = false -> timer_cb t <> NULL ->
  timers (abs_fire l p) = <[p := fired_timer (time l) (timer_counter l) t]> (timers l) /\
  same_but_counts l (abs_fire l p).
Proof.
  intros Ht Ha Hc Hcb%Z.eqb_neq. destruct (abs_stop_fields p t l Ht Ha) as (Em & Eti & Ec).
  unfold abs_fire, abs_again, fired_timer, same_but_counts. rewrite Em, lookup_insert_eq.
  cbn [timer_cb repeat_ stopped clear_flag set_flags]. rewrite Hcb. destruct (repeat_ t =? 0); cbn [snd].
  { rewrite Em, Eti, Ec. split; [done|lia]. }
  rewrite (abs_stop_inactive p (stopped t)) by (try apply stopped_active; rewrite Em; apply lookup_insert_eq).
  unfold abs_start. rewrite Em, lookup_insert_eq, stopped_closing, Hc, Hcb. cbn [orb].
  rewrite (abs_stop_inactive p (stopped t)) by (try apply stopped_active; rewrite Em; apply lookup_insert_eq).
  rewrite Em, lookup_insert_eq. cbn [snd]. loop_simpl. rewrite Em, Eti, Ec, insert_insert_eq. split; [done|].
  split; [done|lia].
Qed.

Lemma fired_not_due now id t :
  now < UINT64_MAX -> 0 <= repeat_ t -> due now (fired_timer now id t) = false.
Proof.
  intros Hnow Hr. unfold due, fired_timer. destruct (Z.eqb_spec (repeat_ t) 0).
  - by rewrite stopped_active.
  - rewrite started_active. cbn [started timeout andb]. lia.
Qed.

Lemma active_open others ps cs l p t :
  loop_ok others ps cs l -> p ∈ ps -> timers l !! p = Some t -> uv__is_active t = true -> uv__is_closing t = false.
Proof.
  intros L Hp Ht Ha. destruct (timer_at _ _ _ _ _ _ L Hp Ht) as [_ _ _ Hc Ho].
  rewrite closing_flag_bit in Hc. rewrite closed_flag_bit in Ho. rewrite closing_bits, Ho, orb_false_r.
  apply not_true_iff_false. intros Hb%Hc. congruence.
Qed.

Section callbacks.
Context `{LoopEnv}.

(** Stopping and rearming, as [uv__run_timers] does before the callback. *)
Lemma rearm_ok others ps cs l w p t :
  loop_ok others ps cs l -> p ∈ ps -> timers l !! p = Some t -> uv__is_active t = true ->
  timer_counter l + 1 < 2 ^ 64 ->
  exists r l', (uv_timer_stop p;; uv_timer_again p) l w = Ok r l' w /\ erase l' = abs_fire (erase l) p /\
    loop_ok others ps cs l'.
Proof.
  intros L Hp Ht Ha Hcnt. destruct (stop_ok others ps cs l w p t L Hp Ht Ha) as (l1 & E1 & Ee1 & L1).
  destruct (abs_stop_fields p t (erase l) Ht Ha) as (Em & _ & Ec).
  destruct (erase_fields _ _ Ee1) as (Em1 & _ & Ec1 & _).
  destruct (again_ok others ps cs l1 w p (stopped t)) as (r & l2 & E2 & Ee2 & L2); [done|done| | |].
  - rewrite Em1, Em. apply lookup_insert_eq.
  - rewrite Ec1, Ec. done.
  - exists r, l2. split; [|split; [|done]].
    + cbn [bind]. by rewrite E1.
    + unfold abs_fire. by rewrite <- Ee1, <- Ee2.
Qed.

(** One round. *)
Lemma run_one_due others ps cs l w p t :
  loop_ok others ps cs l -> p ∈ ps -> timers l !! p = Some t -> due (time l) t = true ->
  on_heap (fun _ => heap_min) l w = Ok (heap_node_of p) l w -> heap_node_of p <> NULL ->
  timer_counter l + 1 < 2 ^ 64 ->
  exists l', run_one_timer l w = (run_timer_cb (timer_cb t) p;; ret (inl tt)) l' w /\
    erase l' = abs_fire (erase l) p /\ loop_ok others ps cs l' /\
    timers l' = <[p := fired_timer (time l) (timer_counter l) t]> (timers l) /\ same_but_counts l l'.
Proof.
  intros L Hp Ht [Ha Hto%Z.leb_le]%andb_true_iff Emin Hn Hcnt.
  destruct (rearm_ok others ps cs l w p t L Hp Ht Ha Hcnt) as (r & l' & E & Ee & L').
  destruct (timer_at _ _ _ _ _ _ L Hp Ht) as [_ _ Hact _ _].
  destruct (abs_fire_fields p t (erase l) Ht Ha) as [Em Hs]; [by apply (active_open others ps cs l p)|by apply Hact|].
  destruct (erase_fields _ _ Ee) as (Em' & Eti' & Ec' & _).
  exists l'. split; [|split; [done|split; [done|]]].
  - unfold run_one_timer. cbn [bind]. rewrite Emin. rewrite (proj2 (Z.eqb_neq _ _) Hn), handle_of_node. cbn [bind].
    rewrite (load_timer_ok l w p t) by done. cbn [get]. rewrite (proj2 (Z.ltb_ge _ _) Hto). cbn [bind] in *.
    destruct (uv_timer_stop p l w) as [a s w1| | |]; try discriminate.
    destruct (uv_timer_again p s w1) as [a' s' w1'| | |]; [|discriminate|discriminate|discriminate].
    injection E as -> -> ->.
    rewrite (load_timer_ok l' w p (fired_timer (time l) (timer_counter l) t)) by (rewrite Em', Em; apply lookup_insert_eq).
    unfold fired_timer. by destruct (repeat_ t =? 0).
  - unfold same_but_counts in *. by rewrite Em', Eti', Ec'.
Qed.

Lemma run_one_idle others ps cs l w :
  loop_ok others ps cs l ->
  (forall p t, p ∈ ps -> timers l !! p = Some t -> due (time l) t = false) ->
  run_one_timer l w = Ok (inr tt) l w.
Proof.
  intros L Hno. unfold run_one_timer. cbn [bind].
  destruct (heap_root others ps cs l w L) as [[-> _]|(p & t & -> & Hn & Hp & Ht & Ha & _)]; [done|].
  rewrite (proj2 (Z.eqb_neq _ _) Hn), handle_of_node. cbn [bind]. rewrite (load_timer_ok l w p t) by done. cbn [get].
  specialize (Hno p t Hp Ht). unfold due in Hno. rewrite Ha in Hno. apply Z.leb_gt in Hno.
  by rewrite (proj2 (Z.ltb_lt _ _)).
Qed.

(** Timer [p] is due. *)
Definition due_in (l : uv_loop_t) (p : Z) : Prop := holds_at (due (time l)) (timers l) p = true.

Lemma due_in_timer l p : due_in l p <-> exists t, timers l !! p = Some t /\ due (time l) t = true.
Proof. unfold due_in, holds_at. destruct (timers l !! p) as [t|]; naive_solver. Qed.

(** The root of the heap is due, and fires before every other due timer, or none is due. *)
Lemma first_due others ps cs l w :
  loop_ok others ps cs l ->
  (forall p t, p ∈ ps -> timers l !! p = Some t -> due (time l) t = false) \/
  exists p t, on_heap (fun _ => heap_min) l w = Ok (heap_node_of p) l w /\ heap_node_of p <> NULL /\
    p ∈ ps /\ timers l !! p = Some t /\ due (time l) t = true /\
    forall q u, q ∈ ps -> timers l !! q = Some u -> due (time l) u = true -> q <> p -> fires_before (timers l) p q.
Proof.
  intros L. destruct (heap_root others ps cs l w L) as [[_ Hno]|(p & t & E & Hn & Hp & Ht & Ha & Hmin)].
  { left. intros p t Hp Ht. unfold due. by rewrite (Hno p t). }
  destruct (Z.leb_spec (timeout t) (time l)) as [Hd|Hd].
  - right. exists p, t. split_and!; try done; [unfold due; rewrite Ha; by apply Z.leb_le|].
    intros q u Hq Hu [Hau Hdu]%andb_true_iff Hne. unfold fires_before.
    specialize (Hmin q ltac:(by exists q, u)).
    assert (Hid : start_id t <> start_id u) by (intros Eid; apply Hne; symmetry; by apply (lo_ids _ _ _ _ L p q t u)).
    rewrite (less_than_timers _ q p u t) in Hmin by done. rewrite (less_than_timers _ p q t u) by done.
    bool_cases; cbn [orb andb] in *; try done; lia.
  - left. intros q u Hq Hu. unfold due. destruct (uv__is_active u) eqn:Hau; [|done]. apply Z.leb_gt.
    pose proof (least_timeout ps (timers l) p t q u Ht Hq Hu Hau Hmin). lia.
Qed.

(** The due timer that fires first. *)
Definition fires_first (l : uv_loop_t) (ps : list Z) (p : Z) : Prop :=
  p ∈ ps /\ due_in l p /\ forall q, q ∈ ps -> due_in l q -> q <> p -> fires_before (timers l) p q.

(** A timer keeps its place among the due ones. *)
Definition same_place (l l' : uv_loop_t) (p : Z) : Prop :=
  exists t t', timers l !! p = Some t /\ timers l' !! p = Some t' /\
    timeout t' = timeout t /\ start_id t' = start_id t.

Lemma fires_before_place l l' p q :
  same_place l l' p -> same_place l l' q -> fires_before (timers l') p q <-> fires_before (timers l) p q.
Proof.
  intros (t & t' & Ht & Ht' & Et & Ei) (u & u' & Hu & Hu' & Eu & Ej). unfold fires_before.
  by rewrite (less_than_timers (timers l) p q t u), (less_than_timers (timers l') p q t' u'), Et, Ei, Eu, Ej.
Qed.

Lemma same_place_trans l1 l2 l3 p : same_place l1 l2 p -> same_place l2 l3 p -> same_place l1 l3 p.
Proof. intros (t & t' & ? & ? & ? & ?) (u & u' & ? & ? & ? & ?). exists t, u'. split_and!; try done; congruence. Qed.

(** Callbacks may init, start, stop, rearm, ref, unref and close timers, as long as none
    makes a timer due that was not, or moves one that is; one starts at most [k] timers. *)
Definition tame_timers (k : Z) : Prop :=
  0 <= k /\ forall others ps cs cb p l w,
    loop_ok others ps cs l -> p ∈ ps -> time l < UINT64_MAX -> timer_counter l + k < 2 ^ 64 ->
    exists others' ps' cs' l' w', run_timer_cb cb p l w = Ok tt l' w' /\ loop_ok others' ps' cs' l' /\
      ps ⊆ ps' /\ time l' = time l /\ timer_counter l' <= timer_counter l + k /\
      forall q, q ∈ ps' -> due_in l' q -> q ∈ ps /\ due_in l q /\ same_place l l' q.

(** Callbacks that leave the due timers due. *)
Definition spares_due (k : Z) : Prop :=
  forall others ps cs cb p l w l' w', loop_ok others ps cs l -> p ∈ ps ->
    timer_counter l + k < 2 ^ 64 -> run_timer_cb cb p l w = Ok tt l' w' ->
    forall q, q ∈ ps -> q <> p -> due_in l q -> due_in l' q.

(** What [uv__run_timers] should do: while a timer is due, the first of them is stopped,
    armed again if it repeats, and its callback is called. *)
Inductive fires : uv_loop_t -> world -> list Z -> uv_loop_t -> world -> Prop :=
| fires_none others ps cs l w :
    loop_ok others ps cs l -> (forall p, p ∈ ps -> ~ due_in l p) -> fires l w [] l w
| fires_one others ps cs l w p t l1 l2 w2 fired l' w' :
    loop_ok others ps cs l -> fires_first l ps p -> timers l !! p = Some t ->
    erase l1 = abs_fire (erase l) p -> loop_ok others ps cs l1 ->
    run_timer_cb (timer_cb t) p l1 w = Ok tt l2 w2 ->
    fires l2 w2 fired l' w' -> fires l w (p :: fired) l' w'.

(** The rearmed timer is not due, the others keep their places. *)
Lemma rearmed_due others ps cs l l1 p t :
  loop_ok others ps cs l -> p ∈ ps -> time l < UINT64_MAX -> timers l !! p = Some t ->
  timers l1 = <[p := fired_timer (time l) (timer_counter l) t]> (timers l) -> time l1 = time l ->
  forall q, (due_in l1 q <-> due_in l q /\ q <> p) /\ (due_in l1 q -> same_place l l1 q).
Proof.
  intros L Hp Hnow Ht Em Et q. destruct (timer_at _ _ _ _ _ _ L Hp Ht) as [_ [Hr _] _ _ _].
  pose proof (fired_not_due (time l) (timer_counter l) t Hnow Hr) as Hfd.
  rewrite !due_in_timer, Em, Et. unfold same_place. rewrite Em. destruct (decide (q = p)) as [->|Hne].
  - rewrite lookup_insert_eq. by split; [split; [|naive_solver]|]; intros (u & [= <-] & Hu); congruence.
  - rewrite lookup_insert_ne by done. naive_solver.
Qed.

(** One round, with its callback. *)
Lemma round_ok k others ps cs l w p :
  tame_timers k -> loop_ok others ps cs l -> time l < UINT64_MAX -> timer_counter l + 1 + k < 2 ^ 64 ->
  fires_first l ps p -> on_heap (fun _ => heap_min) l w = Ok (heap_node_of p) l w -> heap_node_of p <> NULL ->
  exists others' ps' cs' t l1 l2 w2, run_one_timer l w = Ok (inl tt) l2 w2 /\ timers l !! p = Some t /\
    erase l1 = abs_fire (erase l) p /\ loop_ok others ps cs l1 /\ run_timer_cb (timer_cb t) p l1 w = Ok tt l2 w2 /\
    loop_ok others' ps' cs' l2 /\ time l2 = time l /\ timer_counter l2 <= timer_counter l + 1 + k /\
    (forall q, q ∈ ps' -> due_in l2 q -> q ∈ ps /\ due_in l q /\ same_place l l2 q /\ q <> p) /\
    (spares_due k -> forall q, q ∈ ps -> due_in l q -> q <> p -> q ∈ ps' /\ due_in l2 q).
Proof.
  intros [Hk Htame] L Hnow Hcnt (Hp & (t & Ht & Hd)%due_in_timer & _) Emin Hn.
  destruct (run_one_due others ps cs l w p t L Hp Ht Hd Emin Hn ltac:(lia)) as (l1 & E1 & Ee1 & L1 & Em1 & Et1 & Ec1).
  pose proof (rearmed_due others ps cs l l1 p t L Hp Hnow Ht Em1 Et1) as Hre.
  destruct (Htame others ps cs (timer_cb t) p l1 w L1 Hp) as (o2 & ps2 & cs2 & l2 & w2 & E2 & L2 & Hsub & Et2 & Ec2 & Hdue);
    [by rewrite Et1|lia|].
  exists o2, ps2, cs2, t, l1, l2, w2. split; [by rewrite E1; cbn [bind]; rewrite E2|].
  split_and!; try done; [congruence|lia| |].
  - intros q Hq Hdq. destruct (Hdue q Hq Hdq) as (Hqp & Hd1 & Hpl). destruct (Hre q) as [Hiff Hpl1].
    destruct (proj1 Hiff Hd1). split_and!; try done. eapply same_place_trans; [by apply Hpl1|done].
  - intros Hsp q Hq Hdq Hne. split; [by apply Hsub|].
    eapply (Hsp others ps cs _ p l1 w); try done; [lia|]. by apply (Hre q).
Qed.

Lemma tally_less P P' m m' ps ps' p :
  p ∈ ps -> holds_at P m p = true -> NoDup ps' ->
  (forall q, q ∈ ps' -> holds_at P' m' q = true -> q ∈ ps /\ holds_at P m q = true /\ q <> p) ->
  tally P' m' ps' < tally P m ps.
Proof.
  assert (Hlen : forall P m ps, tally P m ps = Z.of_nat (length (filter (fun q => holds_at P m q = true) ps))).
  { intros Q n qs. induction qs as [|q qs IH]; [done|]. cbn [tally]. rewrite filter_cons, IH.
    destruct (holds_at Q n q); cbn [b2z]; destruct (decide _); cbn [length]; try done; lia. }
  intros Hp Hd Hnd Hsub. rewrite !Hlen. apply inj_lt, (submseteq_length (p :: _)), NoDup_submseteq.
  - apply list.NoDup_cons. split; [|by apply NoDup_filter].
    intros [Hh Hq]%list_elem_of_filter. by destruct (Hsub p Hq Hh) as (_ & _ & ?).
  - intros q [->|[Hh Hq]%list_elem_of_filter]%elem_of_cons; apply list_elem_of_filter; [done|]. by destruct (Hsub q Hq Hh) as (? & ? & _).
Qed.

Lemma idle_or_first others ps cs l w :
  loop_ok others ps cs l ->
  (forall p, p ∈ ps -> ~ due_in l p) \/
  exists p, on_heap (fun _ => heap_min) l w = Ok (heap_node_of p) l w /\ heap_node_of p <> NULL /\ fires_first l ps p.
Proof.
  intros L. destruct (first_due others ps cs l w L) as [Hno|(p & t & E & Hn & Hp & Ht & Hd & Hfirst)].
  - left. intros p Hp (t & Ht & Hd)%due_in_timer. by rewrite (Hno p t) in Hd.
  - right. exists p. split; [done|]. split; [done|]. split; [done|]. split; [apply due_in_timer; eauto|].
    intros q Hq (u & Hu & Hdu)%due_in_timer. by apply (Hfirst q u).
Qed.

(** What a run has fired. *)
Definition fired_ok (l : uv_loop_t) (ps fired : list Z) : Prop :=
  StronglySorted (fires_before (timers l)) fired /\ NoDup fired /\ forall p, p ∈ fired -> p ∈ ps /\ due_in l p.

Lemma fired_ok_cons l l2 ps ps2 p fired :
  fires_first l ps p ->
  (forall q, q ∈ ps2 -> due_in l2 q -> q ∈ ps /\ due_in l q /\ same_place l l2 q /\ q <> p) ->
  fired_ok l2 ps2 fired -> fired_ok l ps (p :: fired).
Proof.
  intros (Hp & Hd & Hfirst) Hold (Hs & Hnd & Hin).
  assert (Hrest : forall q, q ∈ fired -> q ∈ ps /\ due_in l q /\ same_place l l2 q /\ q <> p) by naive_solver.
  split_and!.
  - constructor.
    + eapply StronglySorted_impl_in; [|exact Hs]. intros x y Hx Hy.
      apply (fires_before_place l l2); by apply Hrest.
    + apply List.Forall_forall. intros q Hq%list_elem_of_In. apply Hfirst; by apply Hrest.
  - apply list.NoDup_cons. split; [|done]. intros Hq. by destruct (Hrest p Hq) as (_ & _ & _ & ?).
  - intros q [->|Hq]%elem_of_cons; [done|]. by destruct (Hrest q Hq) as (? & ? & _).
Qed.

Lemma run_rounds_ok k (Hk : tame_timers k) : forall fuel others ps cs l w,
  loop_ok others ps cs l -> time l < UINT64_MAX ->
  let due_now := tally (due (time l)) (timers l) ps in
  timer_counter l + (1 + k) * due_now < 2 ^ 64 -> due_now < Z.of_nat fuel ->
  exists fired others' ps' cs' l' w', uv__run_timers fuel l w = Ok tt l' w' /\ fires l w fired l' w' /\
    loop_ok others' ps' cs' l' /\ (forall p, p ∈ ps' -> ~ due_in l' p) /\ fired_ok l ps fired /\
    (spares_due k -> forall p, p ∈ ps -> due_in l p -> p ∈ fired).
Proof.
  induction fuel as [|fuel IH]; intros others ps cs l w L Hnow due_now Hcnt Hfuel;
    pose proof (tally_range (due (time l)) (timers l) ps) as Htr; fold due_now in Htr; [lia|].
  unfold uv__run_timers. cbn [loop bind].
  destruct (idle_or_first others ps cs l w L) as [Hno|(p & Emin & Hn & Hf)].
  - rewrite (run_one_idle others ps cs); [|done|].
    + exists [], others, ps, cs, l, w. split_and!; try done; [by eapply fires_none| |naive_solver].
      split_and!; [constructor|apply NoDup_nil_2|by intros q ?%not_elem_of_nil].
    + intros q u Hq Hu. apply not_true_iff_false. intros Hd. apply (Hno q Hq). apply due_in_timer. eauto.
  - assert (Hcnt1 : timer_counter l + 1 + k < 2 ^ 64).
    { assert (0 < due_now) by (apply (tally_less _ (fun _ => false) _ ∅ ps [] p); [apply Hf..|apply NoDup_nil_2|by intros q ?%not_elem_of_nil]).
      destruct Hk. nia. }
    destruct (round_ok k others ps cs l w p Hk L Hnow Hcnt1 Hf Emin Hn)
      as (o2 & ps2 & cs2 & t & l1 & l2 & w2 & E1 & Ht & Ee1 & L1 & E2 & L2 & Et2 & Ec2 & Hold & Hkeep).
    assert (Hless : tally (due (time l2)) (timers l2) ps2 < due_now).
    { apply (tally_less _ _ _ _ ps ps2 p); [apply Hf..|by eapply handles_nodup|].
      intros q Hq Hd. by destruct (Hold q Hq Hd) as (? & ? & _ & ?). }
    assert (Hcnt2 : timer_counter l2 + (1 + k) * tally (due (time l2)) (timers l2) ps2 < 2 ^ 64) by (destruct Hk; nia).
    destruct (IH o2 ps2 cs2 l2 w2 L2) as (fired & o3 & ps3 & cs3 & l' & w' & E & F & L' & Hnone & Hok & Hall);
      [by rewrite Et2|done|lia|].
    rewrite E1. cbn [bind ret]. exists (p :: fired), o3, ps3, cs3, l', w'. split_and!; try done.
    + by eapply fires_one.
    + by eapply fired_ok_cons.
    + intros Hsp q Hq Hd. destruct (decide (q = p)) as [->|Hne]; [left|right].
      destruct (Hkeep Hsp q Hq Hd Hne). by apply Hall.
Qed.

(** C20: [uv__run_timers] ends after at most as many rounds as there are due timers,
    whatever the callbacks do with timers as long as none makes a timer due that was not or
    moves one that is ([tame_timers]; a callback that starts a timer with timeout 0 is not
    of this kind, and may keep the function from returning).  It fires as [fires] says:
    while a timer is due, the first is stopped, armed again if it repeats, and its callback
    is called.  So the timers that fire were due, fire once each and in the order of their
    deadlines (equal deadlines in the order in which they were started), none is due
    afterwards, and if the callbacks do not stop or postpone other due timers, every due
    timer fires. *)
Theorem run_timers_fires_due k others ps cs fuel l w :
  tame_timers k -> loop_ok others ps cs l -> time l < UINT64_MAX ->
  timer_counter l + (1 + k) * Z.of_nat (length ps) < 2 ^ 64 -> (length ps < fuel)%nat ->
  exists fired others' ps' cs' l' w', uv__run_timers fuel l w = Ok tt l' w' /\ fires l w fired l' w' /\
    loop_ok others' ps' cs' l' /\ (forall p, p ∈ ps' -> ~ due_in l' p) /\
    StronglySorted (fires_before (timers l)) fired /\ NoDup fired /\
    (forall p, p ∈ fired -> p ∈ ps /\ due_in l p) /\
    (spares_due k -> forall p, p ∈ ps -> due_in l p -> p ∈ fired).
Proof.
  intros Hk L Hnow Hcnt Hfuel. pose proof (tally_range (due (time l)) (timers l) ps).
  destruct (run_rounds_ok k Hk fuel others ps cs l w L Hnow) as (fired & o' & ps' & cs' & l' & w' & E & F & L' & Hno & (Hs & Hnd & Hin) & Hall);
    [destruct Hk; nia|lia|].
  by exists fired, o', ps', cs', l', w'.
Qed.

(** * Closing handles *)

Lemma chain_length others ps cs l : loop_ok others ps cs l -> (length cs <= size (timers l))%nat.
Proof.
  intros L. destruct (lo_subset _ _ _ _ L) as [Hnd Hsub].
  rewrite <- (size_list_to_set (C := gset Z) cs Hnd), <- size_dom. apply subseteq_size.
  intros p Hp%elem_of_list_to_set. apply elem_of_dom. destruct (lo_timers _ _ _ _ L p (Hsub p Hp)) as (t & -> & _). done.
Qed.

Lemma set_closing_same l : set_closing_handles (closing_handles l) (set_closing_handles NULL l) = l.
Proof. by destruct l. Qed.

(** [uv__run_closing_handles] finishes every handle that waits to be closed, once
    and in the order of the list, and calls its close callback if it has one; the handles
    leave the loop's queue, marked as closed and without a reference, the list is empty
    afterwards and the other handles are untouched. *)
Theorem run_closing_handles_ok note others ps cs l w :
  quiet_close note -> loop_ok others ps cs l ->
  exists l', uv__run_closing_handles l w = Ok tt l' (close_notes note (timers l) cs w) /\
    loop_ok others (without_all cs ps) [] l' /\
    (forall c t, c ∈ cs -> timers l !! c = Some t -> timers l' !! c = Some (finished_timer t)) /\
    (forall q, q ∉ cs -> timers l' !! q = timers l !! q).
Proof.
  intros Hnote L. unfold uv__run_closing_handles. cbn [bind get modify].
  destruct (finish_all_ok note others cs (S (size (timers l))) ps (set_closing_handles NULL l) w (closing_handles l))
    as (l' & E & L' & Hin & Hout); [done|by rewrite set_closing_same| |done|].
  - pose proof (chain_length _ _ _ _ L). lia.
  - by exists l'.
Qed.

End callbacks.

(** * Callbacks that never let go *)

(** The callback of a timer that starts it again at once. *)
Definition restarting : LoopEnv := {|
  run_timer_cb cb p := uv_timer_start p cb 0 0;; ret tt;
  run_close_cb _ _ := ret tt;
|}.

Lemma restarted_due others ps cs l w p t cb :
  loop_ok others ps cs l -> p ∈ ps -> timers l !! p = Some t -> uv__is_closing t = false -> cb <> NULL ->
  timer_counter l + 1 < 2 ^ 64 ->
  exists l' t', uv_timer_start p cb 0 0 l w = Ok 0 l' w /\ loop_ok others ps cs l' /\
    timers l' !! p = Some t' /\ due (time l') t' = true /\ timer_counter l' = timer_counter l + 1.
Proof.
  intros L Hp Ht Hc Hcb Hcnt. destruct (start_ok others ps cs l w p t cb 0 0) as (l' & E & Ee & L'); try done.
  destruct (lo_words _ _ _ _ L) as [Hti _]. destruct (erase_fields _ _ Ee) as (Em & Eti & Ec & _).
  assert (Hf : exists t1, timers (abs_stop p (erase l)) !! p = Some t1 /\ time (abs_stop p (erase l)) = time l /\
                          timer_counter (abs_stop p (erase l)) = timer_counter l).
  { destruct (uv__is_active t) eqn:Ha.
    - destruct (abs_stop_fields p t (erase l) Ht Ha) as (-> & -> & ->). exists (stopped t). by rewrite lookup_insert_eq.
    - exists t. by rewrite (abs_stop_inactive p t). }
  destruct Hf as (t1 & Ht1 & Eti1 & Ec1). unfold abs_start in Em, Eti, Ec. change (timers (erase l)) with (timers l) in *.
  rewrite Ht, Hc, (proj2 (Z.eqb_neq cb NULL) Hcb), Ht1 in Em, Eti, Ec. cbn [orb snd] in Em, Eti, Ec.
  rewrite Eti1, Ec1 in *. exists l', (started cb (Z.min (time l + 0) UINT64_MAX) 0 (timer_counter l) t1).
  split_and!; try done.
  - rewrite Em. loop_simpl. apply lookup_insert_eq.
  - assert (Et' : time l' = time l) by (rewrite Eti; loop_simpl; exact Eti1).
    unfold due. rewrite started_active, Et'. cbn [started timeout andb]. lia.
Qed.

(** A timer whose callback starts it again with timeout 0 keeps
    [uv__run_timers] from ever returning: the loop's time stands still, so the timer is due
    at once. *)
Theorem zero_timeout_restart_never_ends others ps cs fuel : forall l w p t,
  loop_ok others ps cs l -> p ∈ ps -> timers l !! p = Some t -> due (time l) t = true ->
  timer_counter l + 2 * Z.of_nat fuel < 2 ^ 64 ->
  uv__run_timers (H := restarting) fuel l w = NoFuel.
Proof.
  induction fuel as [|fuel IH]; intros l w p t L Hp Ht Hd Hcnt; [done|].
  destruct (first_due others ps cs l w L) as [Hno|(q & u & Emin & Hn & Hq & Hu & Hdu & _)];
    [by rewrite (Hno p t) in Hd|].
  destruct (run_one_due (H := restarting) others ps cs l w q u L Hq Hu Hdu Emin Hn ltac:(lia)) as (l1 & E1 & _ & L1 & Em1 & Et1 & Ec1).
  apply andb_true_iff in Hdu as [Hau _]. destruct (timer_at _ _ _ _ _ _ L Hq Hu) as [_ _ Hact _ _].
  destruct (restarted_due others ps cs l1 w q (fired_timer (time l) (timer_counter l) u) (timer_cb u) L1 Hq)
    as (l2 & u2 & E2 & L2 & Hu2 & Hd2 & Ec2); try lia.
  { rewrite Em1. apply lookup_insert_eq. }
  { pose proof (active_open _ _ _ _ _ _ L Hq Hu Hau) as Hc. unfold fired_timer.
    destruct (repeat_ u =? 0); [by rewrite stopped_closing|].
    rewrite <- stopped_closing in Hc. rewrite closing_bits, !started_bit, <- closing_bits by done. done. }
  { by apply Hact. }
  unfold uv__run_timers. cbn [loop bind]. rewrite E1. cbn [run_timer_cb restarting bind]. rewrite E2. cbn [ret].
  apply (IH l2 w q u2 L2 Hq Hu2 Hd2). lia.
Qed.

(** * Examples *)

Lemma empty_loop_ok others l :
  queue (links l) (handle_queue l) [] -> nodes (timer_heap l) !! NULL = None ->
  min (timer_heap l) = NULL -> nelts (timer_heap l) = 0 -> active_handles l = u32 others ->
  0 <= time l < 2 ^ 64 /\ 0 <= timer_counter l < 2 ^ 64 -> closing_handles l = NULL -> loop_ok others [] [] l.
Proof.
  intros Hq Hnull Hmin Hn Hact Hw Hc.
  split; try done; try (intros p Hp; by apply not_elem_of_nil in Hp); try (intros p q t u Hp; by apply not_elem_of_nil in Hp).
  - apply (empty_queue (timer_less_than (timers l))) in Hnull. destruct (timer_heap l) as [ns m n]; cbn in *; subst.
    apply (is_heap_ext _ _ (fun x => x ∈ (∅ : gset Z))); [|exact Hnull].
    intros x. split; [intros Hx; by apply not_elem_of_empty in Hx|].
    intros (p & t & _ & Hp & _). by apply not_elem_of_nil in Hp.
  - cbn [tally]. by rewrite Z.add_0_r.
  - intros p t Hp. by apply not_elem_of_nil in Hp.
  - split; [apply NoDup_nil_2|]. intros p Hp. by apply not_elem_of_nil in Hp.
Qed.

(** A loop with the memory of the timers at 1000 and 2000; the heads of its queues are at
    16 (handles), 32 (idle) and 48 (pending). *)
Definition fresh_loop : uv_loop_t :=
  let head (h : Z) : Z * QUEUE := (h, mk_links h h) in
  let mine (p : Z) : Z * QUEUE := (queue_of p, mk_links 0 0) in
  mk_loop 0 16 0 0 NULL 32 48 0 100
    (mk_heap (list_to_map [(heap_node_of 1000, idle_node); (heap_node_of 2000, idle_node)]) NULL 0)
    (list_to_map [(1000, blank_timer); (2000, blank_timer)])
    (list_to_map [head 16; head 32; head 48; mine 1000; mine 2000]).

Definition no_world : world := World ∅ ∅ 0.

Definition after {A} (m : SM uv_loop_t A) (l : uv_loop_t) : uv_loop_t :=
  match m l no_world with Ok _ l _ => l | _ => l end.

Lemma fresh_loop_ok : loop_ok 0 [] [] fresh_loop.
Proof.
  apply empty_loop_ok; try done. split; [apply (bool_decide_unpack _); vm_compute; exact I|].
  cbn [app chain]. split; [|done]. split; vm_compute; eauto.
Qed.

Lemma after_ok {A} (m : SM uv_loop_t A) l a l' : m l no_world = Ok a l' no_world -> after m l = l'.
Proof. intros E. unfold after. by rewrite E. Qed.

Definition one_timer : uv_loop_t := after (uv_timer_init 1000) fresh_loop.
Definition two_timers : uv_loop_t := after (uv_timer_init 2000) one_timer.
Definition one_started : uv_loop_t := after (uv_timer_start 2000 8 0 0) two_timers.
Definition two_started : uv_loop_t := after (uv_timer_start 1000 7 0 5) one_started.
Definition one_closing : uv_loop_t := after (uv_close 2000 9) two_started.

Lemma one_timer_ok : loop_ok 0 [1000] [] one_timer.
Proof.
  destruct (timer_init_ok 0 [] [] fresh_loop no_world 1000 blank_timer fresh_loop_ok) as (l' & E & _ & L).
  - split; [apply not_elem_of_nil|done|done|done|vm_compute; eauto|]. split; [apply elem_of_dom; vm_compute; eauto|done].
  - done.
  - unfold one_timer. by rewrite (after_ok _ _ _ _ E).
Qed.

Lemma blank_second : blank [1000] one_timer 2000 blank_timer.
Proof.
  split; [by intros ?%list_elem_of_singleton|vm_compute; reflexivity|done|done|vm_compute; eauto|].
  split; [apply elem_of_dom; vm_compute; eauto|vm_compute; discriminate].
Qed.

Lemma two_timers_ok : loop_ok 0 [1000; 2000] [] two_timers.
Proof.
  destruct (timer_init_ok 0 [1000] [] one_timer no_world 2000 blank_timer one_timer_ok blank_second) as (l' & E & _ & L); [done|].
  unfold two_timers. by rewrite (after_ok _ _ _ _ E).
Qed.

Lemma two_timers_head h : h ∈ [idle_handles two_timers; pending_queue two_timers] -> queue (links two_timers) h [].
Proof.
  change [idle_handles two_timers; pending_queue two_timers] with (map (fun f => f two_timers) [idle_handles; pending_queue]).
  replace (map _ _) with [32; 48] by (vm_compute; reflexivity).
  intros Hh. split; [apply list.NoDup_singleton|]. cbn [app chain]. split; [|done].
  apply elem_of_cons in Hh as [->| ->%list_elem_of_singleton]; split; vm_compute; eauto.
Qed.

Lemma one_started_ok : loop_ok 0 [1000; 2000] [] one_started.
Proof.
  destruct (start_ok 0 [1000; 2000] [] two_timers no_world 2000 (default blank_timer (timers two_timers !! 2000)) 8 0 0 two_timers_ok)
    as (l' & E & _ & L); [right; left|vm_compute; done..|].
  unfold one_started. by rewrite (after_ok _ _ _ _ E).
Qed.

Lemma two_started_ok : loop_ok 0 [1000; 2000] [] two_started.
Proof.
  destruct (start_ok 0 [1000; 2000] [] one_started no_world 1000 (default blank_timer (timers one_started !! 1000)) 7 0 5 one_started_ok)
    as (l' & E & _ & L); [left|vm_compute; done..|].
  unfold two_started. by rewrite (after_ok _ _ _ _ E).
Qed.

Lemma one_closing_ok : loop_ok 0 [1000; 2000] [2000] one_closing.
Proof.
  destruct (close_ok 0 [1000; 2000] [] two_started no_world 2000 (default blank_timer (timers two_started !! 2000)) 9 two_started_ok)
    as (l' & E & _ & L); [right; left|vm_compute; done..|].
  unfold one_closing. by rewrite (after_ok _ _ _ _ E).
Qed.

(** Callbacks that write their handle into the memory. *)
Definition log_call (cb p : Z) (w : world) : world := World (<[brk w := p]> (Cmem.mem w)) (blocks w) (brk w + 1).
Definition logging : LoopEnv := {|
  run_timer_cb cb p l w := Ok tt l (log_call cb p w);
  run_close_cb cb p l w := Ok tt l (log_call cb p w);
|}.

(** Both timers are due; the one that was started first fires first. *)
Example fire_order :
  match uv__run_timers (H := logging) 3 two_started no_world with
  | Ok _ l w => mem_load (Cmem.mem w) 0 2 = Some [2000; 1000] /\ deadline (timers l) [1000; 2000] = Some 105
  | _ => False
  end.
Proof. vm_compute. split; reflexivity. Qed.

Lemma timer_ops_refine_witness :
  exists r l', run_timer_op (op_start 1000 7 0 5) one_started no_world = Ok r l' no_world /\
    (r, erase l') = abs_op (op_start 1000 7 0 5) (erase one_started) /\ loop_ok 0 [1000; 2000] [] l'.
Proof.
  apply (timer_ops_refine 0 [1000; 2000] [] one_started no_world (op_start 1000 7 0 5) one_started_ok).
  split; [left|]. vm_compute. repeat split; discriminate.
Defined.

Lemma backend_timeout_spec_witness :
  uv_backend_timeout two_timers no_world =
  Ok (if poll_now [] [] two_timers then 0 else poll_timeout (time two_timers) (deadline (timers two_timers) [1000; 2000])) two_timers no_world.
Proof.
  apply (backend_timeout_spec 0 [1000; 2000] [] [] [] two_timers no_world two_timers_ok).
  - apply two_timers_head. left.
  - apply two_timers_head. right. left.
Defined.

(** Callbacks that start their timer again, in five milliseconds. *)
Definition postponing : LoopEnv := {|
  run_timer_cb cb p := uv_timer_start p cb 5 0;; ret tt;
  run_close_cb _ _ := ret tt;
|}.

Lemma abs_start_fields p cb timeout' repeat l t r l' :
  timers l !! p = Some t -> (r, l') = abs_start p cb timeout' repeat l ->
  time l' = time l /\ timer_counter l' <= timer_counter l + 1 /\ (forall q, q <> p -> timers l' !! q = timers l !! q) /\
  (timers l' !! p = Some t \/ exists t', timers l' !! p = Some t' /\ timeout t' = Z.min (time l + timeout') UINT64_MAX).
Proof.
  intros Ht. unfold abs_start. rewrite Ht. destruct (uv__is_closing t || (cb =? NULL)).
  { intros [= -> ->]. split_and!; try done; [lia|by left]. }
  assert (Hf : exists t1, timers (abs_stop p l) = <[p := t1]> (timers l) /\ time (abs_stop p l) = time l /\
                          timer_counter (abs_stop p l) = timer_counter l).
  { destruct (uv__is_active t) eqn:Ha; [by exists (stopped t); apply abs_stop_fields|].
    exists t. by rewrite (abs_stop_inactive p t), insert_id. }
  destruct Hf as (t1 & Em & Et & Ec). rewrite Em, lookup_insert_eq. intros [= -> ->]. loop_simpl.
  rewrite Em, Et, Ec, insert_insert_eq. split_and!; try done.
  - intros q Hne. by rewrite lookup_insert_ne.
  - right. rewrite lookup_insert_eq. by eexists.
Qed.

Lemma postponing_step others ps cs cb p l w :
  loop_ok others ps cs l -> p ∈ ps -> timer_counter l + 1 < 2 ^ 64 ->
  exists t l', timers l !! p = Some t /\ run_timer_cb (LoopEnv := postponing) cb p l w = Ok tt l' w /\ loop_ok others ps cs l' /\
    time l' = time l /\ timer_counter l' <= timer_counter l + 1 /\ (forall q, q <> p -> timers l' !! q = timers l !! q) /\
    (timers l' !! p = Some t \/ exists t', timers l' !! p = Some t' /\ timeout t' = Z.min (time l + 5) UINT64_MAX).
Proof.
  intros L Hp Hcnt. destruct (lo_timers _ _ _ _ L p Hp) as (t & Ht & _).
  destruct (start_any others ps cs l w p t cb 5 0) as (r & l' & E & Ee & L'); try done.
  pose proof (abs_start_fields p cb 5 0 (erase l) t r (erase l') Ht Ee).
  exists t, l'. split; [done|]. split; [|done]. cbn [run_timer_cb postponing bind]. by rewrite E.
Qed.

Lemma postponing_tame : tame_timers (H := postponing) 1.
Proof.
  split; [done|]. intros others ps cs cb p l w L Hp Hnow Hcnt.
  destruct (postponing_step others ps cs cb p l w L Hp Hcnt) as (t & l' & Ht & E & L' & Et & Ec & Hoth & Hself).
  exists others, ps, cs, l', w. split_and!; try done. intros q Hq (u & Hu & Hd)%due_in_timer. rewrite Et in Hd.
  assert (Hsame : timers l !! q = Some u).
  { destruct (decide (q = p)) as [->|Hne]; [|by rewrite <- Hoth]. destruct Hself as [Hs|(t' & Ht' & Eto)]; [congruence|].
    rewrite Ht' in Hu. injection Hu as ->. apply andb_true_iff in Hd as [_ Hd%Z.leb_le]. lia. }
  split; [done|]. split; [by apply due_in_timer; eauto|]. by exists u, u.
Qed.

Lemma run_timers_fires_due_witness :
  spares_due (H := postponing) 1 /\
  exists fired others' ps' cs' l' w', uv__run_timers (H := postponing) 3 two_started no_world = Ok tt l' w' /\
    fires (H := postponing) two_started no_world fired l' w' /\
    loop_ok others' ps' cs' l' /\ (forall p, p ∈ ps' -> ~ due_in l' p) /\
    StronglySorted (fires_before (timers two_started)) fired /\ NoDup fired /\
    (forall p, p ∈ fired -> p ∈ [1000; 2000] /\ due_in two_started p) /\
    (spares_due (H := postponing) 1 -> forall p, p ∈ [1000; 2000] -> due_in two_started p -> p ∈ fired).
Proof.
  split.
  - intros others ps cs cb p l w l' w' L Hp Hcnt E q _ Hne.
    destruct (postponing_step others ps cs cb p l w L Hp Hcnt) as (t & l1 & _ & E1 & _ & Et & _ & Hoth & _).
    rewrite E in E1. injection E1 as -> ->. rewrite !due_in_timer, Et, Hoth by done. done.
  - apply (run_timers_fires_due (H := postponing) 1 0 [1000; 2000] [] 3 two_started no_world).
    + exact postponing_tame.
    + exact two_started_ok.
    + vm_compute. reflexivity.
    + vm_compute. reflexivity.
    + cbn. lia.
Defined.

Lemma run_closing_handles_ok_witness :
  exists l', uv__run_closing_handles (H := logging) one_closing no_world
      = Ok tt l' (close_notes log_call (timers one_closing) [2000] no_world) /\
    loop_ok 0 (without_all [2000] [1000; 2000]) [] l' /\
    (forall c t, c ∈ [2000] -> timers one_closing !! c = Some t -> timers l' !! c = Some (finished_timer t)) /\
    (forall q, q ∉ [2000] -> timers l' !! q = timers one_closing !! q).
Proof.
  apply (run_closing_handles_ok (H := logging) log_call 0 [1000; 2000] [2000] one_closing no_world).
  - intros cb p l w. reflexivity.
  - exact one_closing_ok.
Defined.

Lemma zero_timeout_restart_never_ends_witness : uv__run_timers (H := restarting) 1000 two_started no_world = NoFuel.
Proof.
  apply (zero_timeout_restart_never_ends 0 [1000; 2000] [] 1000 two_started no_world 1000
           (default blank_timer (timers two_started !! 1000)) two_started_ok); [left|vm_compute; reflexivity..].
Defined.
