(* ===== verification/GmTime.v ===== *)
(** BoringSSL's date arithmetic, crypto/asn1/time_support.c: a [struct tm] moved by days
    and seconds, and the difference of two, through Julian day numbers.

    The functions own the [struct tm] they change, in the monad of [Cmem]; returning 0 is
    [Err].  [int] arithmetic that overflows is undefined behaviour and is checked at every
    operation ([int], [long]), except for those on the Julian day: it is the sum of two
    [int]s, so that the [long]s of [julian_to_date] stay far below 2^63.  C's division is [Z.quot].
    [OPENSSL_gmtime] only calls the C library. *)
From stdpp Require Import base numbers.
From Stdlib Require Import ZArith Lia.
From S2P Require Import Prelude Cmem.

Record tm := mk_tm {
  tm_sec : Z;
  tm_min : Z;
  tm_hour : Z;
  tm_mday : Z;
  tm_mon : Z;
  tm_year : Z;
}.

Definition SECS_PER_DAY : Z := 24 * 60 * 60.

(** The value of an [int] expression. *)
Definition is_int (x : Z) : bool := (- 2 ^ 31 <=? x) && (x <? 2 ^ 31).
Definition int {T} (x : Z) : SM T Z := if is_int x then ret x else ub.

(** The value of a [long] expression. *)
Definition long {T} (x : Z) : SM T Z := if (- 2 ^ 63 <=? x) && (x <? 2 ^ 63) then ret x else ub.

(** A [long] converted to [int] by an assignment. *)
Definition to_int (x : Z) : Z := s32 x.

Definition date_to_julian {T} (y m d : Z) : SM T Z :=
  let* m14 := int (m - 14) in
  let* y1 := int (y + 4800) in
  let* y1 := int (y1 + m14 ÷ 12) in
  let* a := int (1461 * y1) in
  let* m2 := int (m - 2) in
  let* m2 := int (m2 - 12 * (m14 ÷ 12)) in
  let* b := int (367 * m2) in
  let* y2 := int (y + 4900) in
  let* y2 := int (y2 + m14 ÷ 12) in
  let* c := int (3 * (y2 ÷ 100)) in
  let* r := int (a ÷ 4 + b ÷ 12) in
  let* r := int (r - c ÷ 4) in
  let* r := int (r + d) in
  int (r - 32075).

Definition julian_to_date (jd : Z) : Z * Z * Z :=
  let L := jd + 68569 in
  let n := (4 * L) ÷ 146097 in
  let L := L - (146097 * n + 3) ÷ 4 in
  let i := (4000 * (L + 1)) ÷ 1461001 in
  let L := L - (1461 * i) ÷ 4 + 31 in
  let j := (80 * L) ÷ 2447 in
  let d := L - (2447 * j) ÷ 80 in
  let L := j ÷ 11 in
  let m := j + 2 - 12 * L in
  let y := 100 * (n - 49) + i + L in
  (to_int y, to_int m, to_int d).

(** The Julian day and the second of the day of [tm] moved by the offsets. *)
Definition julian_adj {T} (t : tm) (off_day offset_sec : Z) : SM T (Z * Z) :=
  let offset_day := to_int (offset_sec ÷ SECS_PER_DAY) in
  let* off := int (offset_day * SECS_PER_DAY) in
  let* rest := long (offset_sec - off) in
  let offset_hms := to_int rest in
  let* offset_day := int (offset_day + off_day) in
  let* hours := int (tm_hour t * 3600) in
  let* mins := int (tm_min t * 60) in
  let* hms := int (hours + mins) in
  let* hms := int (hms + tm_sec t) in
  let* offset_hms := int (offset_hms + hms) in
  let* r :=
    if SECS_PER_DAY <=? offset_hms then
      let* offset_day := int (offset_day + 1) in ret (offset_day, offset_hms - SECS_PER_DAY)
    else if offset_hms <? 0 then
      let* offset_day := int (offset_day - 1) in ret (offset_day, offset_hms + SECS_PER_DAY)
    else ret (offset_day, offset_hms) in
  let '(offset_day, offset_hms) := r in
  let* time_year := int (tm_year t + 1900) in
  let* time_month := int (tm_mon t + 1) in
  let* time_jd := date_to_julian time_year time_month (tm_mday t) in
  let time_jd := time_jd + offset_day in
  if time_jd <? 0 then fail else ret (time_jd, offset_hms).

Definition OPENSSL_gmtime_adj (off_day offset_sec : Z) : SM tm unit :=
  let* t := get in
  let* r := julian_adj t off_day offset_sec in
  let '(time_jd, time_sec) := r in
  let '(time_year, time_month, time_day) := julian_to_date time_jd in
  if (time_year <? 1900) || (9999 <? time_year) then fail
  else put (mk_tm (Z.rem time_sec 60) (Z.rem (time_sec ÷ 60) 60) (time_sec ÷ 3600)
                  time_day (time_month - 1) (time_year - 1900)).

(** The days and seconds stored through [out_days] and [out_secs]. *)
Definition OPENSSL_gmtime_diff {T} (from to : tm) : SM T (Z * Z) :=
  let* r := julian_adj from 0 0 in
  let '(from_jd, from_sec) := r in
  let* r := julian_adj to 0 0 in
  let '(to_jd, to_sec) := r in
  let diff_day := to_jd - from_jd in
  let* diff_sec := int (to_sec - from_sec) in
  let '(diff_day, diff_sec) :=
    if (0 <? diff_day) && (diff_sec <? 0) then (diff_day - 1, diff_sec + SECS_PER_DAY) else (diff_day, diff_sec) in
  let '(diff_day, diff_sec) :=
    if (diff_day <? 0) && (0 <? diff_sec) then (diff_day + 1, diff_sec - SECS_PER_DAY) else (diff_day, diff_sec) in
  ret (to_int diff_day, diff_sec).

(** * Against the Gregorian calendar *)

(** * The calendar *)

Definition leap (y : Z) : bool := ((y mod 4 =? 0) && negb (y mod 100 =? 0)) || (y mod 400 =? 0).

Definition days_in_month (y m : Z) : Z :=
  if m =? 2 then if leap y then 29 else 28
  else if (m =? 4) || (m =? 6) || (m =? 9) || (m =? 11) then 30 else 31.

Definition valid_date (y m d : Z) : Prop := 1 <= m <= 12 /\ 1 <= d <= days_in_month y m.

Definition next_day (y m d : Z) : Z * Z * Z :=
  if d <? days_in_month y m then (y, m, d + 1)
  else if m <? 12 then (y, m + 1, 1) else (y + 1, 1, 1).

(** * Julian days *)

(** A date as the code sees it: the year begins in March, [c] counts its centuries, [i]
    its years in the century, [j] its months from 1 and [x] its days from 31, where February ends the
    year. *)
Definition march_year (y m : Z) : Z := y + 4800 - b2z (m <=? 2).
Definition march_month (m : Z) : Z := if m <=? 2 then m + 10 else m - 2.

Definition julian_day (c i x : Z) : Z := 36524 * c + c / 4 + 1461 * i / 4 + x - 32075.

Definition julian (y m d : Z) : Z :=
  1461 * march_year y m / 4 + 367 * march_month m / 12 - 3 * (march_year y m / 100 + 1) / 4 + d - 32075.

Lemma quot_div a b : 0 <= a -> 0 < b -> a ÷ b = a / b.
Proof. intros. by apply Z.quot_div_nonneg. Qed.

Lemma quot_rest a b :
  0 < b -> (0 <= a -> 0 <= a - b * (a ÷ b) < b) /\ (a <= 0 -> - b < a - b * (a ÷ b) <= 0).
Proof.
  intros Hb. split; intros Ha.
  - rewrite quot_div by lia. pose proof (Z.mod_pos_bound a b Hb). rewrite Z.mod_eq in * by lia. lia.
  - replace a with (- (- a)) by lia. rewrite Z.quot_opp_l, quot_div by lia.
    pose proof (Z.mod_pos_bound (- a) b Hb). rewrite Z.mod_eq in * by lia. lia.
Qed.

Lemma int_ok {T} x (s : T) w : - 2 ^ 31 <= x < 2 ^ 31 -> int x s w = Ok x s w.
Proof. intros H. unfold int, is_int. rewrite (proj2 (Z.leb_le _ _)), (proj2 (Z.ltb_lt _ _)) by lia. done. Qed.

Lemma month_quot m : 1 <= m <= 12 -> (m - 14) ÷ 12 = - b2z (m <=? 2).
Proof.
  intros Hm. destruct (Z.leb_spec m 2); cbn [b2z].
  - replace (m - 14) with (- (14 - m)) by lia. rewrite Z.quot_opp_l, quot_div by lia. Z.div_mod_to_equations. lia.
  - replace (m - 14) with (- (14 - m)) by lia. rewrite Z.quot_opp_l, quot_div by lia. Z.div_mod_to_equations. lia.
Qed.

Ltac int_run := repeat (cbn [bind ret]; rewrite int_ok by (Z.div_mod_to_equations; lia)); cbn [bind ret].

Lemma date_to_julian_ok {T} y m d (s : T) w :
  -4799 <= y <= 1000000 -> 1 <= m <= 12 -> 0 <= d <= 1000000 ->
  date_to_julian y m d s w = Ok (julian y m d) s w.
Proof.
  intros Hy Hm Hd. unfold date_to_julian, julian, march_year, march_month. cbn [bind].
  rewrite (int_ok (m - 14)) by lia. rewrite month_quot by done.
  set (b := b2z (m <=? 2)). assert (0 <= b <= 1) by (subst b; destruct (m <=? 2); cbn; lia).
  assert (Hj : m - 2 - 12 * - b = if m <=? 2 then m + 10 else m - 2) by (subst b; destruct (m <=? 2); cbn [b2z]; lia).
  assert (1 <= m - 2 - 12 * - b <= 12) by (rewrite Hj; destruct (Z.leb_spec m 2); lia).
  assert (Ha : 0 <= y + 4800 + - b <= 1004800) by lia.
  do 4 (cbn [bind]; rewrite int_ok by lia). do 4 (cbn [bind]; rewrite int_ok by lia).
  rewrite !quot_div by lia.
  replace (y + 4900 + - b) with (y + 4800 + - b + 1 * 100) by lia. rewrite Z.div_add by lia.
  rewrite <- Hj, <- (Z.add_opp_r (y + 4800)).
  set (A := y + 4800 + - b) in *. set (M := m - 2 - 12 * - b) in *.
  rewrite !int_ok by (Z.div_mod_to_equations; lia).
  rewrite quot_div by (Z.div_mod_to_equations; lia). int_run. done.
Qed.

(** * Splitting a day *)

Definition march_days (j : Z) : Z :=
  if j =? 12 then 29
  else if (j =? 2) || (j =? 4) || (j =? 7) || (j =? 9) then 30 else 31.

Lemma march_days_range j : 29 <= march_days j <= 31.
Proof. unfold march_days. repeat case_match; lia. Qed.

(** The years of 366 days end with the leap day, day 396. *)
Record march_day (c i x : Z) : Prop := {
  md_century : 0 <= c;
  md_year : 0 <= i <= 99;
  md_day : 31 <= x <= 396;
  md_leap : x = 396 -> i mod 4 = 3 /\ (i = 99 -> c mod 4 = 3);
}.

Lemma between_1_12 (P : Z -> Prop) :
  (P 1 /\ P 2 /\ P 3 /\ P 4 /\ P 5 /\ P 6) /\ (P 7 /\ P 8 /\ P 9 /\ P 10 /\ P 11 /\ P 12) ->
  forall j, 1 <= j <= 12 -> P j.
Proof.
  intros [(?&?&?&?&?&?) (?&?&?&?&?&?)] j Hj.
  assert (j = 1 \/ j = 2 \/ j = 3 \/ j = 4 \/ j = 5 \/ j = 6 \/ j = 7 \/ j = 8 \/ j = 9 \/ j = 10 \/ j = 11 \/ j = 12) as E by lia.
  repeat (destruct E as [-> | E]; [assumption|]). by subst.
Qed.

Lemma month_of_day x :
  31 <= x <= 396 ->
  let j := 80 * x / 2447 in let d := x - 2447 * j / 80 in
  1 <= j <= 12 /\ 1 <= d <= march_days j /\ 367 * j / 12 + d = x.
Proof.
  intros Hx. cbv zeta. assert (Hj : 1 <= 80 * x / 2447 <= 12) by (Z.div_mod_to_equations; lia).
  split; [done|]. remember (80 * x / 2447) as j eqn:E. revert j Hj E.
  apply (between_1_12 (fun j => j = 80 * x / 2447 -> _)); unfold march_days; cbn [Z.eqb Pos.eqb orb].
  split_and!; intros E; Z.div_mod_to_equations; lia.
Qed.

Lemma day_of_month j d :
  1 <= j <= 12 -> 1 <= d <= march_days j ->
  let x := 367 * j / 12 + d in
  31 <= x <= 396 /\ 80 * x / 2447 = j /\ x - 2447 * j / 80 = d /\ (x = 396 -> j = 12 /\ d = 29).
Proof.
  intros Hj. cbv zeta. revert j Hj.
  apply (between_1_12 (fun j => 1 <= d <= march_days j -> _)); unfold march_days; cbn [Z.eqb Pos.eqb orb].
  split_and!; intros Hd; Z.div_mod_to_equations; lia.
Qed.

(** The centuries and years that [julian_to_date] finds. *)
Lemma split_day c i x :
  march_day c i x ->
  let L := julian_day c i x + 68569 in
  let n := 4 * L / 146097 in
  let L1 := L - (146097 * n + 3) / 4 in
  n = c + 1 /\ 4000 * (L1 + 1) / 1461001 = i /\ L1 - 1461 * i / 4 + 31 = x.
Proof.
  intros [Hc Hi Hx Hleap] L n L1. unfold julian_day in L.
  assert (HL : L = 36524 * (c + 1) + c / 4 + 1 + 1461 * i / 4 + (x - 31)) by lia.
  assert (Hn : n = c + 1).
  { subst n. clearbody L. destruct (Z.eq_dec x 396) as [E|]; [destruct (Hleap E) as [? Hq]; destruct (Z.eq_dec i 99) as [E'|]; [specialize (Hq E')|]|].
    all: Z.div_mod_to_equations; lia. }
  split; [done|]. assert (HL1 : L1 = 1461 * i / 4 + (x - 31)).
  { subst L1. rewrite Hn. clear Hn. clearbody L. Z.div_mod_to_equations. lia. }
  clearbody L1. rewrite HL1. split; [|lia]. clear - Hi Hx Hleap.
  destruct (Z.eq_dec x 396) as [E|]; [destruct (Hleap E) as [? _]|]; Z.div_mod_to_equations; lia.
Qed.

(** Every day is one of a century and a year. *)
Lemma day_split jd :
  0 <= jd ->
  let L := jd + 68569 in
  let n := 4 * L / 146097 in
  let L1 := L - (146097 * n + 3) / 4 in
  let i := 4000 * (L1 + 1) / 1461001 in
  let x := L1 - 1461 * i / 4 + 31 in
  march_day (n - 1) i x /\ julian_day (n - 1) i x = jd.
Proof.
  intros Hjd L n L1 i x.
  assert (Hn : 1 <= n) by (subst n L; Z.div_mod_to_equations; lia).
  assert (H1 : 0 <= L1 /\ L1 <= 36524 /\ (n mod 4 <> 0 -> L1 <= 36523)).
  { subst L1 n. clearbody L. Z.div_mod_to_equations. lia. }
  destruct H1 as (H1 & H2 & H3).
  assert (Hi : 0 <= i <= 99) by (subst i; clearbody L1; Z.div_mod_to_equations; lia).
  assert (Hx : 1461 * i / 4 <= L1 < 1461 * (i + 1) / 4) by (subst i; clearbody L1; Z.div_mod_to_equations; lia).
  split.
  - split; try done; try lia.
    + subst x. clearbody i L1. Z.div_mod_to_equations. lia.
    + subst x. intros E. clearbody i L1 n. split; [Z.div_mod_to_equations; lia|]. intros ->.
      clear Hx. Z.div_mod_to_equations. lia.
  - unfold julian_day. subst x. assert (E : L = L1 + (146097 * n + 3) / 4) by (subst L1; lia).
    subst L. clearbody L1 i n. Z.div_mod_to_equations. lia.
Qed.

Definition date_of (c i x : Z) : Z * Z * Z :=
  let j := 80 * x / 2447 in
  (100 * (c - 48) + i + j / 11, j + 2 - 12 * (j / 11), x - 2447 * j / 80).

Lemma to_int_small x : - 2 ^ 31 <= x < 2 ^ 31 -> to_int x = x.
Proof. apply s32_small. Qed.

(** What [julian_to_date] computes. *)
Lemma julian_to_date_split jd c i x :
  march_day c i x -> julian_day c i x = jd -> c <= 1000000 -> julian_to_date jd = date_of c i x.
Proof.
  intros Hd E Hc. pose proof (split_day c i x Hd) as (En & Ei & Ex). rewrite E in En, Ei, Ex.
  destruct Hd as [Hc0 Hi Hx _]. assert (Hjd : 0 <= jd + 68569) by (subst jd; unfold julian_day; Z.div_mod_to_equations; lia).
  unfold julian_to_date. cbv zeta. rewrite (quot_div (4 * _)), En, (quot_div (146097 * _ + 3)) by lia.
  rewrite En in Ei, Ex.
  assert (H1 : 0 <= jd + 68569 - (146097 * (c + 1) + 3) / 4).
  { subst jd. unfold julian_day. Z.div_mod_to_equations. lia. }
  rewrite (quot_div (4000 * _)), Ei, (quot_div (1461 * _)), Ex by lia.
  assert (Hj : 1 <= 80 * x / 2447 <= 12) by (by apply month_of_day).
  assert (Hd : 1 <= x - 2447 * (80 * x / 2447) / 80 <= 31).
  { destruct (month_of_day x Hx) as (_ & Hd & _). pose proof (march_days_range (80 * x / 2447)). lia. }
  rewrite (quot_div (80 * _)), (quot_div (2447 * _)), (quot_div (80 * x / 2447)) by lia.
  assert (0 <= 80 * x / 2447 / 11 <= 1) by (Z.div_mod_to_equations; lia).
  unfold date_of. rewrite !to_int_small by lia. do 2 f_equal. lia.
Qed.

(** The month of the calendar and the month of the year from March. *)
Lemma leap_march c i y :
  y = 100 * (c - 48) + i + 1 -> 0 <= i <= 99 -> leap y = (i mod 4 =? 3) && (negb (i =? 99) || (c mod 4 =? 3)).
Proof.
  intros -> Hi. unfold leap.
  assert (E4 : (100 * (c - 48) + i + 1) mod 4 = (i + 1) mod 4) by (Z.div_mod_to_equations; lia).
  assert (E100 : (100 * (c - 48) + i + 1) mod 100 = (i + 1) mod 100) by (Z.div_mod_to_equations; lia).
  rewrite E4, E100. destruct (Z.eqb_spec i 99) as [->|Hne]; cbn [negb orb].
  - change ((99 + 1) mod 4 =? 0) with true. change ((99 + 1) mod 100 =? 0) with true. change (99 mod 4 =? 3) with true. cbn [negb andb orb].
    assert (Em : (100 * (c - 48) + 99 + 1) mod 400 = 100 * ((c + 1) mod 4)) by (Z.div_mod_to_equations; lia).
    rewrite Em. bool_cases; try done; Z.div_mod_to_equations; lia.
  - assert (Em : (100 * (c - 48) + i + 1) mod 400 <> 0) by (Z.div_mod_to_equations; lia).
    rewrite (proj2 (Z.eqb_neq _ _) Em), orb_false_r, andb_true_r.
    assert (E1 : (i + 1) mod 100 <> 0) by (Z.div_mod_to_equations; lia). rewrite (proj2 (Z.eqb_neq _ _) E1). cbn [negb]. rewrite andb_true_r.
    bool_cases; try done; Z.div_mod_to_equations; lia.
Qed.

Definition leap_day_ok (c i : Z) : Prop := i mod 4 = 3 /\ (i = 99 -> c mod 4 = 3).

Lemma leap_iff c i : 0 <= i <= 99 -> leap (100 * (c - 48) + i + 1) = true <-> leap_day_ok c i.
Proof.
  intros Hi. rewrite (leap_march c i) by done. unfold leap_day_ok.
  destruct (Z.eqb_spec (i mod 4) 3), (Z.eqb_spec i 99), (Z.eqb_spec (c mod 4) 3); cbn [negb orb andb]; naive_solver.
Qed.

Lemma month_length c i j d :
  1 <= j <= 12 -> 0 <= i <= 99 ->
  let y := 100 * (c - 48) + i + j / 11 in let m := j + 2 - 12 * (j / 11) in
  1 <= m <= 12 /\ march_month m = j /\ march_year y m = 100 * c + i /\
  (1 <= d <= days_in_month y m <-> 1 <= d <= march_days j /\ (j = 12 -> d = 29 -> leap_day_ok c i)).
Proof.
  intros Hj Hi. cbv zeta. pose proof (leap_iff c i Hi) as Hleap. revert j Hj.
  apply (between_1_12 (fun j => 1 <= j + 2 - 12 * (j / 11) <= 12 /\ _)).
  unfold march_year, march_month, days_in_month, march_days.
  repeat match goal with
  | |- context [?k + 2 - 12 * (?k / 11)] =>
      let m := eval vm_compute in (k + 2 - 12 * (k / 11)) in let l := eval vm_compute in (k / 11) in
      change (k + 2 - 12 * (k / 11)) with m; change (k / 11) with l
  end.
  cbn [Z.eqb Z.leb Z.compare Pos.eqb Pos.compare Pos.compare_cont orb b2z].
  split_and!; try lia. all: try (split; intros; split_and?; lia).
  destruct (leap _).
  - assert (leap_day_ok c i) by (by apply Hleap). naive_solver.
  - assert (Hno : ~ leap_day_ok c i) by (intros Hl; apply Hleap in Hl; discriminate). split.
    { intros Hd. split; [lia|]. intros _ Ed. exfalso. lia. }
    intros [? Hd]. destruct (Z.eq_dec d 29); [by destruct (Hno (Hd eq_refl ltac:(done)))|lia].
Qed.

(** A date as a day of a century and a year. *)
Lemma date_split y m d :
  valid_date y m d -> -4799 <= y ->
  exists c i x, march_day c i x /\ julian_day c i x = julian y m d /\ date_of c i x = (y, m, d) /\
                march_year y m = 100 * c + i.
Proof.
  intros [Hm Hd] Hy. set (c := march_year y m / 100). set (i := march_year y m mod 100). set (j := march_month m).
  assert (Hi : 0 <= i <= 99) by (subst i; Z.div_mod_to_equations; lia).
  assert (Hc : 0 <= c) by (subst c; unfold march_year; apply Z.div_pos; [destruct (m <=? 2); cbn; lia|lia]).
  assert (HA : march_year y m = 100 * c + i) by (subst c i; Z.div_mod_to_equations; lia).
  assert (Hj : 1 <= j <= 12) by (subst j; unfold march_month; destruct (Z.leb_spec m 2); lia).
  assert (Hjm : j + 2 - 12 * (j / 11) = m).
  { subst j. unfold march_month. destruct (Z.leb_spec m 2); Z.div_mod_to_equations; lia. }
  assert (Hyy : 100 * (c - 48) + i + j / 11 = y).
  { unfold march_year in HA. subst j. unfold march_month. destruct (Z.leb_spec m 2); cbn [b2z] in HA; Z.div_mod_to_equations; lia. }
  destruct (month_length c i j d Hj Hi) as (_ & _ & _ & Hlen). rewrite Hjm, Hyy in Hlen. apply Hlen in Hd as [Hd Hleap].
  destruct (day_of_month j d Hj Hd) as (Hx & Ej & Ed & Elast).
  exists c, i, (367 * j / 12 + d). split_and!; try done.
  - split; try done. intros E. destruct (Elast E). by apply Hleap.
  - unfold julian_day, julian. rewrite HA. fold j. clear - Hi. Z.div_mod_to_equations. lia.
  - unfold date_of. by rewrite Ej, Ed, Hjm, Hyy.
Qed.

Lemma day_date c i x :
  march_day c i x -> exists y m d, date_of c i x = (y, m, d) /\ valid_date y m d /\ julian y m d = julian_day c i x.
Proof.
  intros [Hc Hi Hx Hleap]. destruct (month_of_day x Hx) as (Hj & Hd & Ex).
  set (j := 80 * x / 2447) in *. set (d := x - 2447 * j / 80) in *.
  destruct (month_length c i j d Hj Hi) as (Hm & Hmm & HA & Hlen).
  exists (100 * (c - 48) + i + j / 11), (j + 2 - 12 * (j / 11)), d. split; [done|]. split.
  - split; [done|]. apply Hlen. split; [done|]. intros E1 E2. apply Hleap. rewrite <- Ex, E1, E2. done.
  - unfold julian, julian_day. rewrite HA, Hmm, <- Ex. clear - Hi. Z.div_mod_to_equations. lia.
Qed.

Lemma julian_bounds c i x : march_day c i x -> 36524 * c - 32044 <= julian_day c i x <= 36525 * c + 4682.
Proof. intros [Hc Hi Hx _]. unfold julian_day. Z.div_mod_to_equations. lia. Qed.

Lemma julian_to_date_julian y m d :
  valid_date y m d -> -4799 <= y <= 1000000 -> julian_to_date (julian y m d) = (y, m, d).
Proof.
  intros Hv Hy. destruct (date_split y m d Hv) as (c & i & x & Hd & E & <- & HA); [lia|].
  destruct Hd as [Hc Hi Hx Hl]. apply julian_to_date_split; [done|done|].
  unfold march_year in HA. destruct (m <=? 2); cbn [b2z] in HA; lia.
Qed.

Lemma julian_to_date_valid jd :
  0 <= jd < 2 ^ 34 ->
  exists y m d, julian_to_date jd = (y, m, d) /\ valid_date y m d /\ julian y m d = jd.
Proof.
  intros Hjd. destruct (day_split jd) as [Hd E]; [lia|].
  destruct (day_date _ _ _ Hd) as (y & m & d & Ed & Hv & Ej). exists y, m, d. split; [|split; [done|lia]].
  rewrite <- Ed. apply julian_to_date_split; [done|done|]. apply julian_bounds in Hd. lia.
Qed.

Lemma days_in_month_range y m : 28 <= days_in_month y m <= 31.
Proof. unfold days_in_month. repeat case_match; lia. Qed.

(** The year from March passes from [A - 1] to [A] after February. *)
Lemma leap_years y :
  let A := y + 4800 in
  1461 * A / 4 - 3 * (A / 100 + 1) / 4 =
  1461 * (A - 1) / 4 - 3 * ((A - 1) / 100 + 1) / 4 + 365 + b2z (leap y).
Proof.
  intros A. set (c := (A - 1) / 100). set (i := (A - 1) mod 100).
  assert (HA : A = 100 * c + i + 1) by (subst c i; Z.div_mod_to_equations; lia).
  assert (Hi : 0 <= i <= 99) by (subst i; Z.div_mod_to_equations; lia).
  rewrite (leap_march c i y) by lia. clearbody A c i. subst A.
  destruct (Z.eqb_spec i 99) as [->|]; cbn [negb orb].
  - change (99 mod 4 =? 3) with true. cbn [andb]. destruct (Z.eqb_spec (c mod 4) 3); cbn [b2z]; Z.div_mod_to_equations; lia.
  - rewrite andb_true_r. destruct (Z.eqb_spec (i mod 4) 3); cbn [b2z]; Z.div_mod_to_equations; lia.
Qed.

Lemma julian_next_month y m :
  1 <= m <= 12 -> m <> 12 -> julian y (m + 1) 1 = julian y m (days_in_month y m) + 1.
Proof.
  pose proof (leap_years y) as Hl. cbv zeta in Hl. revert m. apply (between_1_12 (fun m => m <> 12 -> _)).
  unfold days_in_month, julian, march_year, march_month.
  repeat match goal with |- context [?k + 1 <=? 2] => let v := eval vm_compute in (k + 1) in change (k + 1) with v end.
  cbn [Z.eqb Z.leb Z.compare Pos.eqb Pos.compare Pos.compare_cont orb b2z].
  split_and!; intros Hm; try (by destruct Hm); clear Hm; rewrite ?Z.sub_0_r.
  2: destruct (leap y); cbn [b2z] in Hl.
  all: Z.div_mod_to_equations; lia.
Qed.

Lemma julian_next_day y m d :
  valid_date y m d -> let '(y', m', d') := next_day y m d in valid_date y' m' d' /\ julian y' m' d' = julian y m d + 1.
Proof.
  intros [Hm Hd]. unfold next_day. destruct (Z.ltb_spec d (days_in_month y m)).
  { split; [split; lia|]. unfold julian. lia. }
  assert (Ed : d = days_in_month y m) by lia. rewrite Ed. clear Hd H.
  destruct (Z.ltb_spec m 12); (split; [split; [lia|]|]).
  - pose proof (days_in_month_range y (m + 1)). lia.
  - apply julian_next_month; lia.
  - pose proof (days_in_month_range (y + 1) 1). lia.
  - assert (m = 12) by lia. subst m. unfold days_in_month, julian, march_year, march_month.
    cbn [Z.eqb Z.leb Z.compare Pos.eqb Pos.compare Pos.compare_cont orb b2z].
    replace (y + 1 + 4800 - 1) with (y + 4800 - 0) by lia. Z.div_mod_to_equations. lia.
Qed.

(** [date_to_julian] and [julian_to_date] are inverse on the dates of the Gregorian
    calendar, and the next Julian day is the next day of the calendar, across the ends of
    months, years, centuries and leap years. *)
Theorem julian_day_calendar {T} y m d (s : T) w :
  valid_date y m d -> -4799 <= y < 1000000 ->
  exists jd, date_to_julian y m d s w = Ok jd s w /\ julian_to_date jd = (y, m, d) /\
             julian_to_date (jd + 1) = next_day y m d.
Proof.
  intros Hv Hy. exists (julian y m d). pose proof Hv as [Hm Hd]. pose proof (days_in_month_range y m).
  split; [by apply date_to_julian_ok; lia|]. split; [by apply julian_to_date_julian; [|lia]|].
  pose proof (julian_next_day y m d Hv) as Hn. destruct (next_day y m d) as [[y' m'] d'] eqn:En.
  destruct Hn as [Hv' <-]. apply julian_to_date_julian; [done|].
  unfold next_day in En. repeat case_match; injection En as <- _ _; lia.
Qed.

(** * Times *)

(** A broken-down time of the Gregorian calendar. *)
Record valid_tm (t : tm) : Prop := {
  v_date : valid_date (tm_year t + 1900) (tm_mon t + 1) (tm_mday t);
  v_year : 0 <= tm_year t + 1900 <= 999999;
  v_hour : 0 <= tm_hour t < 24;
  v_min : 0 <= tm_min t < 60;
  v_sec : 0 <= tm_sec t < 60;
}.

Definition day_seconds (t : tm) : Z := tm_hour t * 3600 + tm_min t * 60 + tm_sec t.
Definition day_number (t : tm) : Z := julian (tm_year t + 1900) (tm_mon t + 1) (tm_mday t).

(** The seconds from the beginning of Julian day 0. *)
Definition seconds (t : tm) : Z := SECS_PER_DAY * day_number t + day_seconds t.

(** The years that an ASN.1 time can hold. *)
Definition asn1_year (t : tm) : Prop := 1900 <= tm_year t + 1900 <= 9999.

Lemma day_seconds_range t : valid_tm t -> 0 <= day_seconds t < SECS_PER_DAY.
Proof. intros [_ _ ? ? ?]. unfold day_seconds, SECS_PER_DAY. lia. Qed.

Lemma day_number_range t : valid_tm t -> 0 <= day_number t < 2 ^ 29.
Proof.
  intros [Hv Hy _ _ _]. unfold day_number. destruct (date_split _ _ _ Hv) as (c & i & x & Hd & <- & _ & HA); [lia|].
  pose proof (julian_bounds c i x Hd). destruct Hd as [Hc Hi Hx _]. unfold march_year in HA.
  destruct (_ <=? 2); cbn [b2z] in HA; lia.
Qed.

(** Equal times are equal structs. *)
Lemma seconds_inj t u : valid_tm t -> valid_tm u -> seconds t = seconds u -> t = u.
Proof.
  intros Vt Vu E. pose proof (day_seconds_range t Vt). pose proof (day_seconds_range u Vu). unfold seconds in E.
  assert (Ed : day_number t = day_number u) by (unfold SECS_PER_DAY in *; lia).
  assert (Es : day_seconds t = day_seconds u) by lia. clear E. destruct Vt as [Dt Yt Ht Mt St], Vu as [Du Yu Hu Mu Su].
  assert (Eq : julian_to_date (day_number t) = julian_to_date (day_number u)) by by rewrite Ed.
  unfold day_number in Eq. rewrite !julian_to_date_julian in Eq by (done || lia). injection Eq as Ey Em Edd.
  unfold day_seconds in Es. destruct t as [s1 m1 h1 d1 mo1 y1], u as [s2 m2 h2 d2 mo2 y2]; cbn [tm_sec tm_min tm_hour tm_mday tm_mon tm_year] in *. f_equal; lia.
Qed.

(** Offsets that keep [offset_day * SECS_PER_DAY] and the days in an [int]. *)
Definition offsets_ok (off_day offset_sec : Z) : Prop :=
  - 2 ^ 30 <= off_day <= 2 ^ 30 /\ -2147558400 < offset_sec < 2147558400.

Lemma julian_adj_ok {S} t off_day offset_sec (s : S) w :
  valid_tm t -> offsets_ok off_day offset_sec ->
  let target := seconds t + SECS_PER_DAY * off_day + offset_sec in
  julian_adj t off_day offset_sec s w
  = if target <? 0 then Err s w else Ok (target / SECS_PER_DAY, target mod SECS_PER_DAY) s w.
Proof.
  intros V [Hod Hos] target. pose proof (day_seconds_range t V) as Hds. pose proof (day_number_range t V) as Hdn.
  destruct V as [Hv Hy Hh Hmi Hs]. pose proof Hv as [Hm Hd]. pose proof (days_in_month_range (tm_year t + 1900) (tm_mon t + 1)).
  unfold julian_adj. set (q := offset_sec ÷ SECS_PER_DAY).
  assert (Hq : -24855 <= q <= 24855 /\ -86400 < offset_sec - q * SECS_PER_DAY < 86400).
  { destruct (quot_rest offset_sec SECS_PER_DAY) as [Hp Hn]; [done|]. fold q in Hp, Hn.
    change SECS_PER_DAY with 86400 in *. lia. }
  destruct Hq as [Hq Hr]. rewrite (to_int_small q) by lia. cbn [bind]. rewrite int_ok by (unfold SECS_PER_DAY in *; lia).
  unfold long. rewrite (proj2 (Z.leb_le _ _)), (proj2 (Z.ltb_lt _ _)) by lia. cbn [andb ret].
  rewrite to_int_small by lia. rewrite !int_ok by lia.
  assert (Htail : forall od hms, target = SECS_PER_DAY * (day_number t + od) + hms -> 0 <= hms < SECS_PER_DAY ->
    (let* time_year := int (tm_year t + 1900) in
     let* time_month := int (tm_mon t + 1) in
     let* time_jd := date_to_julian time_year time_month (tm_mday t) in
     if time_jd + od <? 0 then fail else ret (time_jd + od, hms)) s w
    = if target <? 0 then Err s w else Ok (target / SECS_PER_DAY, target mod SECS_PER_DAY) s w).
  { intros od hms E Hhms. cbn [bind]. do 2 (rewrite int_ok by lia; cbn [bind]). rewrite date_to_julian_ok by lia. fold (day_number t).
    rewrite E, (Z.add_comm (_ * _)), (Z.mul_comm SECS_PER_DAY), Z.div_add, Z.mod_add, Z.div_small, Z.mod_small by (done || lia).
    unfold SECS_PER_DAY in *. destruct (Z.ltb_spec (day_number t + od) 0), (Z.ltb_spec (hms + (day_number t + od) * (24 * 60 * 60)) 0);
      done || lia. }
  fold (day_seconds t). set (h := offset_sec - q * SECS_PER_DAY + day_seconds t) in *.
  assert (Et : target = SECS_PER_DAY * (day_number t + (q + off_day)) + h) by (subst target h; unfold seconds; lia).
  change SECS_PER_DAY with 86400 in *.
  destruct (Z.leb_spec 86400 h); [|destruct (Z.ltb_spec h 0)]; cbn [bind]; rewrite ?int_ok by lia; cbn [ret];
    apply Htail; lia.
Qed.

(** C40: moving a valid time by at most [2 ^ 30] days and less than 2147558400 seconds (24856
    days) either way gives the time that many seconds later,
    normalised, when its year is one of 1900 .. 9999, and otherwise fails and leaves the
    struct alone.  For larger offsets in seconds a product overflows ([gmtime_adj_overflow]). *)
Theorem gmtime_adj_spec t off_day offset_sec w :
  valid_tm t -> offsets_ok off_day offset_sec ->
  let target := seconds t + SECS_PER_DAY * off_day + offset_sec in
  (exists t', OPENSSL_gmtime_adj off_day offset_sec t w = Ok tt t' w /\
              valid_tm t' /\ asn1_year t' /\ seconds t' = target) \/
  (OPENSSL_gmtime_adj off_day offset_sec t w = Err t w /\
   forall t', valid_tm t' -> asn1_year t' -> seconds t' <> target).
Proof.
  intros V Ho target. pose proof (day_number_range t V) as Hdn. pose proof (day_seconds_range t V) as Hds.
  unfold OPENSSL_gmtime_adj. cbn [bind get]. rewrite (julian_adj_ok t off_day offset_sec) by done. fold target.
  change SECS_PER_DAY with 86400 in *. destruct (Z.ltb_spec target 0) as [Hneg|Hpos].
  { right. split; [done|]. intros t' V' _ E. pose proof (day_number_range t' V'). pose proof (day_seconds_range t' V').
    unfold seconds in E. change SECS_PER_DAY with 86400 in *. lia. }
  destruct Ho as [Hod Hos]. destruct (julian_to_date_valid (target / 86400)) as (y & m & d & Ed & Hv & Ej).
  { assert (target < 86400 * 2 ^ 34) by (subst target; unfold seconds; change SECS_PER_DAY with 86400; lia).
    clearbody target. Z.div_mod_to_equations. lia. }
  cbn [ret]. rewrite Ed. pose proof (Z.mod_pos_bound target 86400 ltac:(done)) as Hs. set (sec := target mod 86400) in *.
  assert (Et : target = 86400 * julian y m d + sec) by (rewrite Ej; subst sec; apply Z.div_mod; done).
  destruct (Z.ltb_spec y 1900), (Z.ltb_spec 9999 y); cbn [orb].
  1-3: right; split; [done|]; intros t' V' Hy' E; pose proof (day_seconds_range t' V') as Hs';
    unfold seconds in E; change SECS_PER_DAY with 86400 in *;
    assert (Eq : day_number t' = julian y m d) by lia; destruct V' as [Hv' Hy'' _ _ _]; unfold day_number in Eq, Hy';
    apply (f_equal julian_to_date) in Eq; rewrite Ej, Ed, julian_to_date_julian in Eq by (done || lia);
    injection Eq as ? ? ?; unfold asn1_year in Hy'; lia.
  left. eexists. split; [reflexivity|]. rewrite !quot_div by (Z.div_mod_to_equations; lia).
  rewrite !Z.rem_mod_nonneg by (Z.div_mod_to_equations; lia).
  split; [|split].
  - split; cbn [tm_sec tm_min tm_hour tm_mday tm_mon tm_year]; try (Z.div_mod_to_equations; lia).
    replace (y - 1900 + 1900) with y by lia. replace (m - 1 + 1) with m by lia. done.
  - unfold asn1_year. cbn [tm_year]. lia.
  - unfold seconds, day_number, day_seconds. cbn [tm_sec tm_min tm_hour tm_mday tm_mon tm_year].
    replace (y - 1900 + 1900) with y by lia. replace (m - 1 + 1) with m by lia. rewrite Et.
    change SECS_PER_DAY with 86400. clearbody sec. Z.div_mod_to_equations. lia.
Qed.

(** An offset of 24856 days or more in seconds, although it fits a [long], overflows
    the [int] product [offset_day * SECS_PER_DAY]. *)
Theorem gmtime_adj_overflow t off_day offset_sec w :
  2147558400 <= offset_sec < 2 ^ 47 -> OPENSSL_gmtime_adj off_day offset_sec t w = UB.
Proof.
  intros Ho. unfold OPENSSL_gmtime_adj, julian_adj. cbn [bind get]. rewrite quot_div by (unfold SECS_PER_DAY; lia).
  change SECS_PER_DAY with 86400.
  assert (Hq : 24856 <= offset_sec / 86400 < 2 ^ 31) by (Z.div_mod_to_equations; lia).
  rewrite to_int_small by lia. unfold int at 1, is_int. rewrite (proj2 (Z.ltb_ge _ (2 ^ 31))) by lia.
  by rewrite andb_false_r.
Qed.

(** the difference of two valid times is exact, with days and seconds of one sign. *)
Theorem gmtime_diff_spec {S} from to (s : S) w :
  valid_tm from -> valid_tm to ->
  exists days secs, OPENSSL_gmtime_diff from to s w = Ok (days, secs) s w /\
    SECS_PER_DAY * days + secs = seconds to - seconds from /\
    Z.abs secs < SECS_PER_DAY /\ ((0 <= days /\ 0 <= secs) \/ (days <= 0 /\ secs <= 0)).
Proof.
  intros Vf Vt. pose proof (day_number_range from Vf). pose proof (day_seconds_range from Vf).
  pose proof (day_number_range to Vt). pose proof (day_seconds_range to Vt).
  assert (Hadj : forall t, valid_tm t -> julian_adj t 0 0 s w = Ok (day_number t, day_seconds t) s w).
  { intros t V. rewrite (julian_adj_ok t 0 0) by (done || split; lia). pose proof (day_number_range t V).
    pose proof (day_seconds_range t V). unfold seconds. change SECS_PER_DAY with 86400 in *.
    rewrite (proj2 (Z.ltb_ge _ _)) by lia. f_equal. f_equal; Z.div_mod_to_equations; lia. }
  unfold OPENSSL_gmtime_diff. cbn [bind]. rewrite (Hadj from Vf). cbn [bind]. rewrite (Hadj to Vt).
  unfold seconds. change SECS_PER_DAY with 86400 in *. cbn [bind]. rewrite int_ok by lia.
  set (dd := day_number to - day_number from). set (ds := day_seconds to - day_seconds from).
  destruct (Z.ltb_spec 0 dd), (Z.ltb_spec ds 0), (Z.ltb_spec dd 0), (Z.ltb_spec 0 ds); cbn [andb]; try lia;
    repeat match goal with |- context [?a <? ?b] => destruct (Z.ltb_spec a b) end; cbn [andb ret]; try lia;
    rewrite to_int_small by lia; eexists _, _; (split; [reflexivity|]); subst dd ds; lia.
Qed.

(** * Examples *)

(** 29 February 2000, 23:59:59, and a second before midnight of 31 December 9999. *)
Definition leap_day : tm := mk_tm 59 59 23 29 1 100.
Definition last_second : tm := mk_tm 59 59 23 31 11 8099.

Lemma leap_day_valid : valid_tm leap_day.
Proof. split; cbn; try lia. split; [lia|]. vm_compute. split; discriminate. Qed.

Lemma last_second_valid : valid_tm last_second.
Proof. split; cbn; try lia. split; [lia|]. vm_compute. split; discriminate. Qed.

(** Unix time 0. *)
Example epoch : date_to_julian 1970 1 1 tt (World ∅ ∅ 0) = Ok 2440588 tt (World ∅ ∅ 0).
Proof. reflexivity. Qed.

Lemma julian_day_calendar_witness :
  exists jd, date_to_julian 2000 2 28 tt (World ∅ ∅ 0) = Ok jd tt (World ∅ ∅ 0) /\ julian_to_date jd = (2000, 2, 28) /\
             julian_to_date (jd + 1) = (2000, 2, 29).
Proof.
  apply (julian_day_calendar 2000 2 28 tt (World ∅ ∅ 0)); [|lia].
  split; [lia|]. change (days_in_month 2000 2) with 29. lia.
Defined.

Lemma gmtime_adj_spec_witness :
  (exists t', OPENSSL_gmtime_adj 0 1 leap_day (World ∅ ∅ 0) = Ok tt t' (World ∅ ∅ 0) /\
              valid_tm t' /\ asn1_year t' /\ seconds t' = seconds leap_day + SECS_PER_DAY * 0 + 1) \/
  (OPENSSL_gmtime_adj 0 1 leap_day (World ∅ ∅ 0) = Err leap_day (World ∅ ∅ 0) /\
   forall t', valid_tm t' -> asn1_year t' -> seconds t' <> seconds leap_day + SECS_PER_DAY * 0 + 1).
Proof. apply (gmtime_adj_spec leap_day 0 1 (World ∅ ∅ 0) leap_day_valid). split; lia. Defined.

Example adj_carries : OPENSSL_gmtime_adj 0 1 leap_day (World ∅ ∅ 0) = Ok tt (mk_tm 0 0 0 1 2 100) (World ∅ ∅ 0).
Proof. vm_compute. reflexivity. Qed.

Example adj_fails : OPENSSL_gmtime_adj 0 1 last_second (World ∅ ∅ 0) = Err last_second (World ∅ ∅ 0).
Proof. vm_compute. reflexivity. Qed.

Lemma gmtime_adj_overflow_witness : OPENSSL_gmtime_adj 0 (24856 * 86400) leap_day (World ∅ ∅ 0) = UB.
Proof. apply (gmtime_adj_overflow leap_day 0 (24856 * 86400) (World ∅ ∅ 0)). lia. Defined.

Lemma gmtime_diff_spec_witness :
  exists days secs, OPENSSL_gmtime_diff leap_day last_second tt (World ∅ ∅ 0) = Ok (days, secs) tt (World ∅ ∅ 0) /\
    SECS_PER_DAY * days + secs = seconds last_second - seconds leap_day /\
    Z.abs secs < SECS_PER_DAY /\ ((0 <= days /\ 0 <= secs) \/ (days <= 0 /\ secs <= 0)).
Proof. apply (gmtime_diff_spec leap_day last_second tt (World ∅ ∅ 0) leap_day_valid last_second_valid). Defined.
