(* ===== verification/BioPair.v ===== *)
(** BoringSSL's BIO pairs, crypto/bio/pair.c, with the part of crypto/bio/bio.c through
    which they are used.

    A pair is two BIOs in memory, each with a ring buffer for what is written to it and
    read from its peer.  The state maps the address of every BIO to its struct; the
    [bio_bio_st] behind [ptr] belongs to one BIO only and is a member here ([bio_new] sets
    it before the BIO is handed out).  A ring buffer is the list of its bytes, [None]
    before it is allocated.  Buffers of the caller are the bytes written or read; [None] is
    a NULL pointer.  Whether an allocation succeeds and what it holds is up to [CEnv].
    Only BIOs with this method table, not pushed onto a chain, are modelled; the error
    queue is not. *)
From stdpp Require Import base gmap list numbers.
From Stdlib Require Import ZArith Lia.
From S2P Require Import Prelude Cmem.

Definition BIO_FLAGS_READ : Z := 0x01.
Definition BIO_FLAGS_WRITE : Z := 0x02.
Definition BIO_FLAGS_IO_SPECIAL : Z := 0x04.
Definition BIO_FLAGS_RWS : Z := Z.lor (Z.lor BIO_FLAGS_READ BIO_FLAGS_WRITE) BIO_FLAGS_IO_SPECIAL.
Definition BIO_FLAGS_SHOULD_RETRY : Z := 0x08.
Definition kRetryFlags : Z := Z.lor BIO_FLAGS_RWS BIO_FLAGS_SHOULD_RETRY.

Definition BIO_CTRL_EOF : Z := 2.
Definition BIO_CTRL_GET_CLOSE : Z := 8.
Definition BIO_CTRL_SET_CLOSE : Z := 9.
Definition BIO_CTRL_PENDING : Z := 10.
Definition BIO_CTRL_FLUSH : Z := 11.
Definition BIO_CTRL_WPENDING : Z := 13.
Definition BIO_C_GET_WRITE_BUF_SIZE : Z := 137.
Definition BIO_C_GET_WRITE_GUARANTEE : Z := 140.
Definition BIO_C_GET_READ_REQUEST : Z := 141.
Definition BIO_C_SHUTDOWN_WR : Z := 142.
Definition BIO_C_RESET_READ_REQUEST : Z := 147.

Definition BIO_INT_MAX : Z := 2 ^ 31 - 1.

Record bio_bio_st := mk_bio_bio {
  peer : Z;
  closed : Z;
  len : Z;
  offset : Z;
  size : Z;
  buf : option (list Z);
  request : Z;
}.

Record BIO := mk_BIO {
  init : Z;
  shutdown : Z;
  flags : Z;
  retry_reason : Z;
  references : Z;
  ptr : bio_bio_st;
  num_read : Z;
  num_write : Z;
}.

Notation bios := (gmap Z BIO).

(** Assignments. *)
Definition set_init (v : Z) (b : BIO) : BIO :=
  mk_BIO v (shutdown b) (flags b) (retry_reason b) (references b) (ptr b) (num_read b) (num_write b).
Definition set_shutdown (v : Z) (b : BIO) : BIO :=
  mk_BIO (init b) v (flags b) (retry_reason b) (references b) (ptr b) (num_read b) (num_write b).
Definition set_flags (v : Z) (b : BIO) : BIO :=
  mk_BIO (init b) (shutdown b) v (retry_reason b) (references b) (ptr b) (num_read b) (num_write b).
Definition set_retry_reason (v : Z) (b : BIO) : BIO :=
  mk_BIO (init b) (shutdown b) (flags b) v (references b) (ptr b) (num_read b) (num_write b).
Definition set_references (v : Z) (b : BIO) : BIO :=
  mk_BIO (init b) (shutdown b) (flags b) (retry_reason b) v (ptr b) (num_read b) (num_write b).
Definition set_ptr (f : bio_bio_st -> bio_bio_st) (b : BIO) : BIO :=
  mk_BIO (init b) (shutdown b) (flags b) (retry_reason b) (references b) (f (ptr b)) (num_read b) (num_write b).
Definition add_read (n : Z) (b : BIO) : BIO :=
  mk_BIO (init b) (shutdown b) (flags b) (retry_reason b) (references b) (ptr b) (u64 (num_read b + n)) (num_write b).
Definition add_write (n : Z) (b : BIO) : BIO :=
  mk_BIO (init b) (shutdown b) (flags b) (retry_reason b) (references b) (ptr b) (num_read b) (u64 (num_write b + n)).

Definition set_peer (v : Z) (b : bio_bio_st) : bio_bio_st :=
  mk_bio_bio v (closed b) (len b) (offset b) (size b) (buf b) (request b).
Definition set_closed (v : Z) (b : bio_bio_st) : bio_bio_st :=
  mk_bio_bio (peer b) v (len b) (offset b) (size b) (buf b) (request b).
Definition set_len (v : Z) (b : bio_bio_st) : bio_bio_st :=
  mk_bio_bio (peer b) (closed b) v (offset b) (size b) (buf b) (request b).
Definition set_offset (v : Z) (b : bio_bio_st) : bio_bio_st :=
  mk_bio_bio (peer b) (closed b) (len b) v (size b) (buf b) (request b).
Definition set_size (v : Z) (b : bio_bio_st) : bio_bio_st :=
  mk_bio_bio (peer b) (closed b) (len b) (offset b) v (buf b) (request b).
Definition set_buf (v : option (list Z)) (b : bio_bio_st) : bio_bio_st :=
  mk_bio_bio (peer b) (closed b) (len b) (offset b) (size b) v (request b).
Definition set_request (v : Z) (b : bio_bio_st) : bio_bio_st :=
  mk_bio_bio (peer b) (closed b) (len b) (offset b) (size b) (buf b) v.

Definition load_bio (p : Z) : SM bios BIO := fun s w =>
  match s !! p with
  | Some b => Ok b s w
  | None => UB
  end.

Definition update_bio (p : Z) (f : BIO -> BIO) : SM bios unit := fun s w =>
  match s !! p with
  | Some b => Ok tt (<[p := f b]> s) w
  | None => UB
  end.

(** * Retry flags (bio.c) *)

Definition BIO_clear_retry_flags (bio : Z) : SM bios unit :=
  update_bio bio (fun b => set_retry_reason 0 (set_flags (Z.ldiff (flags b) kRetryFlags) b)).
Definition BIO_set_retry_read (bio : Z) : SM bios unit :=
  update_bio bio (fun b => set_flags (Z.lor (flags b) (Z.lor BIO_FLAGS_READ BIO_FLAGS_SHOULD_RETRY)) b).
Definition BIO_set_retry_write (bio : Z) : SM bios unit :=
  update_bio bio (fun b => set_flags (Z.lor (flags b) (Z.lor BIO_FLAGS_WRITE BIO_FLAGS_SHOULD_RETRY)) b).

Definition BIO_test_flags (b : BIO) (fl : Z) : Z := Z.land (flags b) fl.
Definition BIO_should_read (b : BIO) : Z := BIO_test_flags b BIO_FLAGS_READ.
Definition BIO_should_write (b : BIO) : Z := BIO_test_flags b BIO_FLAGS_WRITE.
Definition BIO_should_retry (b : BIO) : Z := BIO_test_flags b BIO_FLAGS_SHOULD_RETRY.

(** * Reading and writing (pair.c) *)

(** [memcpy] out of and into a ring buffer. *)
Definition ring_get (b : bio_bio_st) (at_ n : Z) : option (list Z) :=
  match buf b with
  | Some l => if at_ + n <=? Z.of_nat (length l) then Some (take (Z.to_nat n) (drop (Z.to_nat at_) l)) else None
  | None => None
  end.

Definition ring_put (b : bio_bio_st) (at_ : Z) (data : list Z) : option (list Z) :=
  match buf b with
  | Some l =>
      if at_ + Z.of_nat (length data) <=? Z.of_nat (length l)
      then Some (take (Z.to_nat at_) l ++ data ++ drop (Z.to_nat at_ + length data) l) else None
  | None => None
  end.

Definition or_ub {T A} (o : option A) : SM T A := match o with Some a => ret a | None => ub end.

(** One round of the loop of [bio_read]: what is left to read, and what has been read. *)
Definition read_step (peer_bio : Z) (st : Z * list Z) : SM bios (Z * list Z + list Z) :=
  let '(rest, out) := st in
  let* p := load_bio peer_bio in
  let b := ptr p in
  assert_ (rest <=? len b);;
  let chunk := if u64 (offset b + rest) <=? size b then rest else u64 (size b - offset b) in
  assert_ (u64 (offset b + chunk) <=? size b);;
  let* data := or_ub (ring_get b (offset b) chunk) in
  let len' := u64 (len b - chunk) in
  (if negb (len' =? 0) then
     let offset' := u64 (offset b + chunk) in
     assert_ (offset' <=? size b);;
     update_bio peer_bio (set_ptr (fun b => set_offset (if offset' =? size b then 0 else offset') (set_len len' b)))
   else
     assert_ (chunk =? rest);;
     update_bio peer_bio (set_ptr (fun b => set_offset 0 (set_len len' b))));;
  let rest := u64 (rest - chunk) in
  ret (if rest =? 0 then inr (out ++ data) else inl (rest, out ++ data)).

(** The result, and the bytes stored through [buf] if it is not NULL. *)
Definition bio_read (bio : Z) (buf_null : bool) (size_ : Z) : SM bios (Z * list Z) :=
  let rsize := u64 size_ in
  BIO_clear_retry_flags bio;;
  let* self := load_bio bio in
  if init self =? 0 then ret (0, [])
  else
    let b := ptr self in
    assert_ (negb (peer b =? NULL));;
    let peer_bio := peer b in
    let* p := load_bio peer_bio in
    assert_ (bool_decide (is_Some (buf (ptr p))));;
    update_bio peer_bio (set_ptr (set_request 0));;
    if buf_null || (rsize =? 0) then ret (0, [])
    else
      let* p := load_bio peer_bio in
      let peer_b := ptr p in
      if len peer_b =? 0 then
        if negb (closed peer_b =? 0) then ret (0, [])
        else
          BIO_set_retry_read bio;;
          update_bio peer_bio (set_ptr (set_request (if rsize <=? size peer_b then rsize else size peer_b)));;
          ret (-1, [])
      else
        let rsize := if len peer_b <? rsize then len peer_b else rsize in
        assert_ (0 <? rsize);;
        let* data := loop 2 (read_step peer_bio) (rsize, []) in
        ret (s32 rsize, data).

(** One round of the loop of [bio_write]: the bytes left to write. *)
Definition write_step (bio : Z) (data : list Z) : SM bios (list Z + unit) :=
  let* self := load_bio bio in
  let b := ptr self in
  let rest := Z.of_nat (length data) in
  assert_ (u64 (len b + rest) <=? size b);;
  let write_offset := u64 (offset b + len b) in
  let write_offset := if size b <=? write_offset then u64 (write_offset - size b) else write_offset in
  let chunk := if u64 (write_offset + rest) <=? size b then rest else u64 (size b - write_offset) in
  let* l := or_ub (ring_put b write_offset (take (Z.to_nat chunk) data)) in
  let len' := u64 (len b + chunk) in
  update_bio bio (set_ptr (fun b => set_len len' (set_buf (Some l) b)));;
  assert_ (len' <=? size b);;
  let data := drop (Z.to_nat chunk) data in
  ret (if (length data =? 0)%nat then inr tt else inl data).

Definition bio_write (bio : Z) (data : option (list Z)) : SM bios Z :=
  BIO_clear_retry_flags bio;;
  let* self := load_bio bio in
  match data with
  | None => ret 0
  | Some data =>
      if (init self =? 0) || (length data =? 0)%nat then ret 0
      else
        let b := ptr self in
        assert_ (negb (peer b =? NULL));;
        assert_ (bool_decide (is_Some (buf b)));;
        update_bio bio (set_ptr (set_request 0));;
        if negb (closed b =? 0) then ret (-1)
        else
          assert_ (len b <=? size b);;
          if len b =? size b then
            BIO_set_retry_write bio;;
            ret (-1)
          else
            let room := u64 (size b - len b) in
            let num := if room <? Z.of_nat (length data) then room else Z.of_nat (length data) in
            assert_ (0 <? num);;
            loop 2 (write_step bio) (take (Z.to_nat num) data);;
            ret (s32 num)
  end.

(** * Making and destroying pairs *)

Definition bio_destroy_pair (bio : Z) : SM bios unit :=
  let* self := load_bio bio in
  let b := ptr self in
  let peer_bio := peer b in
  if peer_bio =? NULL then ret tt
  else
    let* p := load_bio peer_bio in
    assert_ (peer (ptr p) =? bio);;
    update_bio peer_bio (set_ptr (set_peer NULL));;
    update_bio peer_bio (set_init 0);;
    let* p := load_bio peer_bio in
    assert_ (bool_decide (is_Some (buf (ptr p))));;
    update_bio peer_bio (set_ptr (fun b => set_offset 0 (set_len 0 b)));;
    update_bio bio (set_ptr (set_peer NULL));;
    update_bio bio (set_init 0);;
    let* self := load_bio bio in
    assert_ (bool_decide (is_Some (buf (ptr self))));;
    update_bio bio (set_ptr (fun b => set_offset 0 (set_len 0 b))).

(** The memory of the BIO, its [bio_bio_st] and the buffer are released together. *)
Definition bio_free (bio : Z) : SM bios unit :=
  let* self := load_bio bio in
  (if negb (peer (ptr self) =? NULL) then bio_destroy_pair bio else ret tt).

Definition BIO_free (bio : Z) : SM bios Z :=
  if bio =? NULL then ret 1
  else
    let* b := load_bio bio in
    update_bio bio (set_references (references b - 1));;
    if negb (references b - 1 =? 0) then ret 0
    else
      bio_free bio;;
      modify (delete bio);;
      ret 1.

Section allocation.
Context `{CEnv}.

Definition sizeof_bio_bio_st : Z := 56.
Definition sizeof_BIO : Z := 80.

Definition bio_new : SM bios (option bio_bio_st) :=
  let* b := OPENSSL_malloc sizeof_bio_bio_st in
  ret (if b =? NULL then None else Some (mk_bio_bio NULL 0 0 0 (17 * 1024) None 0)).

(** [BIO_new(bio_s_bio())] *)
Definition BIO_new : SM bios Z :=
  let* p := OPENSSL_malloc sizeof_BIO in
  if p =? NULL then ret NULL
  else
    let* b := bio_new in
    match b with
    | None => ret NULL
    | Some b => modify (<[p := mk_BIO 0 1 0 0 1 b 0 0]>);; ret p
    end.

(** Allocates the buffer of one side, if it has none. *)
Definition alloc_ring (bio writebuf_len : Z) : SM bios bool :=
  let* self := load_bio bio in
  match buf (ptr self) with
  | Some _ => ret true
  | None =>
      (if negb (writebuf_len =? 0) then update_bio bio (set_ptr (set_size writebuf_len)) else ret tt);;
      let* self := load_bio bio in
      let n := size (ptr self) in
      let* a := OPENSSL_malloc n in
      if a =? NULL then ret false
      else
        update_bio bio (set_ptr (set_buf (Some (junk_bytes a (Z.to_nat n)))));;
        update_bio bio (set_ptr (set_len 0));;
        update_bio bio (set_ptr (set_offset 0));;
        ret true
  end.

Definition bio_make_pair (bio1 bio2 writebuf1_len writebuf2_len : Z) : SM bios Z :=
  let* s1 := load_bio bio1 in
  let* s2 := load_bio bio2 in
  if negb (peer (ptr s1) =? NULL) || negb (peer (ptr s2) =? NULL) then ret 0
  else
    let* ok := alloc_ring bio1 writebuf1_len in
    if negb ok then ret 0
    else
      let* ok := alloc_ring bio2 writebuf2_len in
      if negb ok then ret 0
      else
        update_bio bio1 (set_ptr (fun b => set_request 0 (set_closed 0 (set_peer bio2 b))));;
        update_bio bio2 (set_ptr (fun b => set_request 0 (set_closed 0 (set_peer bio1 b))));;
        update_bio bio1 (set_init 1);;
        update_bio bio2 (set_init 1);;
        ret 1.

(** The result and the two pointers stored. *)
Definition BIO_new_bio_pair (writebuf1_len writebuf2_len : Z) : SM bios (Z * Z * Z) :=
  let* bio1 := BIO_new in
  let* bio2 := BIO_new in
  let failed := BIO_free bio1;; BIO_free bio2;; ret (0, NULL, NULL) in
  if (bio1 =? NULL) || (bio2 =? NULL) then failed
  else
    let* ok := bio_make_pair bio1 bio2 writebuf1_len writebuf2_len in
    if ok =? 0 then failed else ret (1, bio1, bio2).

End allocation.

(** * Control *)

Definition bio_ctrl (bio cmd num other : Z) : SM bios Z :=
  let* self := load_bio bio in
  let b := ptr self in
  if cmd =? BIO_C_GET_WRITE_BUF_SIZE then ret (s64 (size b))
  else if cmd =? BIO_C_GET_WRITE_GUARANTEE then
    ret (if (peer b =? NULL) || negb (closed b =? 0) then 0 else s64 (size b - len b))
  else if cmd =? BIO_C_GET_READ_REQUEST then ret (s64 (request b))
  else if cmd =? BIO_C_RESET_READ_REQUEST then update_bio bio (set_ptr (set_request 0));; ret 1
  else if cmd =? BIO_C_SHUTDOWN_WR then update_bio bio (set_ptr (set_closed 1));; ret 1
  else if cmd =? BIO_CTRL_GET_CLOSE then ret (shutdown self)
  else if cmd =? BIO_CTRL_SET_CLOSE then update_bio bio (set_shutdown (s32 num));; ret 1
  else if cmd =? BIO_CTRL_PENDING then
    if negb (peer b =? NULL) then let* p := load_bio (peer b) in ret (s64 (len (ptr p))) else ret 0
  else if cmd =? BIO_CTRL_WPENDING then
    ret (match buf b with Some _ => s64 (len b) | None => 0 end)
  else if cmd =? BIO_CTRL_FLUSH then ret 1
  else if cmd =? BIO_CTRL_EOF then
    if negb (other =? NULL) then
      let* o := load_bio other in ret (b2z ((len (ptr o) =? 0) && negb (closed (ptr o) =? 0)))
    else ret 1
  else ret 0.

Definition BIO_ctrl (bio cmd larg parg : Z) : SM bios Z :=
  if bio =? NULL then ret 0 else bio_ctrl bio cmd larg parg.

Definition BIO_pending (bio : Z) : SM bios Z :=
  let* r := BIO_ctrl bio BIO_CTRL_PENDING 0 NULL in
  assert_ (0 <=? r);;
  ret (if r <? 0 then 0 else r).
Definition BIO_wpending (bio : Z) : SM bios Z :=
  let* r := BIO_ctrl bio BIO_CTRL_WPENDING 0 NULL in
  assert_ (0 <=? r);;
  ret (if r <? 0 then 0 else r).
Definition BIO_eof (bio : Z) : SM bios Z := BIO_ctrl bio BIO_CTRL_EOF 0 NULL.
Definition BIO_flush (bio : Z) : SM bios Z := BIO_ctrl bio BIO_CTRL_FLUSH 0 NULL.
Definition BIO_shutdown_wr (bio : Z) : SM bios Z := BIO_ctrl bio BIO_C_SHUTDOWN_WR 0 NULL.
Definition BIO_ctrl_get_read_request (bio : Z) : SM bios Z :=
  let* r := BIO_ctrl bio BIO_C_GET_READ_REQUEST 0 NULL in ret (u64 r).
Definition BIO_ctrl_get_write_guarantee (bio : Z) : SM bios Z :=
  let* r := BIO_ctrl bio BIO_C_GET_WRITE_GUARANTEE 0 NULL in ret (u64 r).

(** * The functions the users call (bio.c) *)

Definition BIO_read (bio : Z) (buf_null : bool) (len : Z) : SM bios (Z * list Z) :=
  if bio =? NULL then ret (-2, [])
  else
    let* b := load_bio bio in
    if init b =? 0 then ret (-2, [])
    else if len <=? 0 then ret (0, [])
    else
      let* r := bio_read bio buf_null len in
      let '(r, data) := r in
      (if 0 <? r then update_bio bio (add_read r) else ret tt);;
      ret (r, data).

(** [inl] is the length of the data, or not positive. *)
Definition BIO_write (bio : Z) (data : option (list Z)) (inl : Z) : SM bios Z :=
  if bio =? NULL then ret (-2)
  else
    let* b := load_bio bio in
    if init b =? 0 then ret (-2)
    else if inl <=? 0 then ret 0
    else
      let* r := bio_write bio (match data with Some l => Some (take (Z.to_nat inl) l) | None => None end) in
      (if 0 <? r then update_bio bio (add_write r) else ret tt);;
      ret r.

Definition write_all_step (bio : Z) (data : list Z) : SM bios (list Z + Z) :=
  let len := Z.of_nat (length data) in
  if len =? 0 then ret (inr 1)
  else
    let* r := BIO_write bio (Some data) (if BIO_INT_MAX <? len then BIO_INT_MAX else len) in
    ret (if r <=? 0 then inr 0 else inl (drop (Z.to_nat r) data)).

(** Every round but the last writes a byte. *)
Definition BIO_write_all (bio : Z) (data : list Z) : SM bios Z :=
  loop (S (length data)) (write_all_step bio) data.
