(* ===== verification/BioPairThms.v ===== *)
(** BIO pairs as two byte queues: the ring buffers lose, duplicate and reorder nothing. *)
From stdpp Require Import base gmap list numbers.
From Stdlib Require Import ZArith Lia.
From S2P Require Import Prelude Cmem BioPair.

(** * Ring buffers *)

(** The [n] elements from place [off] on, around the end. *)
Definition ring (l : list Z) (off n : nat) : list Z := take n (drop off l) ++ take (n - (length l - off)) l.

Lemma ring_length l off n : (off <= length l)%nat -> (n <= length l)%nat -> length (ring l off n) = n.
Proof. intros. unfold ring. rewrite length_app, !length_take, length_drop. lia. Qed.

Lemma ring_inside l off n : (off + n <= length l)%nat -> ring l off n = take n (drop off l).
Proof. intros. unfold ring. replace (n - (length l - off))%nat with 0%nat by lia. by rewrite app_nil_r. Qed.

Lemma ring_around l off n :
  (off <= length l <= off + n)%nat -> ring l off n = drop off l ++ take (off + n - length l) l.
Proof.
  intros. unfold ring. rewrite (take_ge (drop off l)) by (rewrite length_drop; lia).
  f_equal. f_equal. lia.
Qed.

Lemma ring_read l off n c :
  (off < length l)%nat -> (c <= n <= length l)%nat -> (off + c <= length l)%nat ->
  take c (drop off l) = take c (ring l off n) /\
  ring l (if (off + c =? length l)%nat then 0 else off + c)%nat (n - c) = drop c (ring l off n).
Proof.
  intros Ho Hc Hoc. unfold ring. split.
  - rewrite take_app_le by (rewrite length_take, length_drop; lia). by rewrite take_take, Nat.min_l by lia.
  - destruct (Nat.eqb_spec (off + c) (length l)) as [E|E].
    + rewrite drop_0, (take_ge (drop off l)) by (rewrite length_drop; lia).
      replace (n - c - (length l - 0))%nat with 0%nat by lia. rewrite app_nil_r.
      rewrite drop_app_ge by (rewrite length_drop; lia). rewrite length_drop.
      replace (c - (length l - off))%nat with 0%nat by lia. rewrite drop_0. f_equal. lia.
    + rewrite drop_app_le by (rewrite length_take, length_drop; lia).
      rewrite skipn_firstn_comm, drop_drop. f_equal. f_equal. lia.
Qed.

(** Writing behind the last element. *)
Lemma ring_write l off n data :
  (off < length l)%nat -> (n + length data <= length l)%nat ->
  let wo := if (length l <=? off + n)%nat then (off + n - length l)%nat else (off + n)%nat in
  (wo + length data <= length l)%nat ->
  let l' := take wo l ++ data ++ drop (wo + length data) l in
  length l' = length l /\ ring l' off (n + length data) = ring l off n ++ data.
Proof.
  intros Ho Hn wo Hwo l'.
  assert (Hcase : (length l <= off + n /\ wo = off + n - length l)%nat \/ (off + n < length l /\ wo = off + n)%nat).
  { subst wo. destruct (Nat.leb_spec (length l) (off + n)); lia. }
  clearbody wo. assert (Hl : length l' = length l).
  { subst l'. rewrite !length_app, length_take, length_drop. lia. }
  split; [done|]. destruct Hcase as [[Hle Ewo]|[Hlt Ewo]].
  - rewrite !ring_around by lia. rewrite Hl.
    replace (off + (n + length data) - length l)%nat with (wo + length data)%nat by lia. subst l'.
    rewrite drop_app_ge by (rewrite length_take; lia). rewrite length_take.
    rewrite drop_app_ge by lia. rewrite drop_drop. rewrite <- app_assoc. f_equal; [f_equal; lia|].
    rewrite take_app_ge by (rewrite length_take; lia). rewrite length_take.
    rewrite take_app_le by lia. rewrite (take_ge data) by lia. by subst wo.
  - rewrite !ring_inside by lia. subst l'. rewrite drop_app_le by (rewrite length_take; lia).
    rewrite take_app_ge by (rewrite length_drop, length_take; lia). rewrite length_drop, length_take.
    rewrite take_app_le by lia. rewrite (take_ge data) by lia. f_equal.
    rewrite skipn_firstn_comm. f_equal. lia.
Qed.

(** * Pipes *)

(** One direction of a pair: the bytes on the way, the capacity, whether the writer has
    shut it, and how many bytes the reader asked for in vain. *)
Record pipe := mk_pipe {
  pending : list Z;
  capacity : Z;
  shut : bool;
  wanted : Z;
}.

Record pipe_rel (b : bio_bio_st) (q : pipe) : Prop := {
  pr_buf : exists l, buf b = Some l /\ Z.of_nat (length l) = size b /\
                     pending q = ring l (Z.to_nat (offset b)) (Z.to_nat (len b));
  pr_size : 0 < size b < 2 ^ 63;
  pr_len : 0 <= len b <= size b;
  pr_offset : 0 <= offset b < size b;
  pr_empty : len b = 0 -> offset b = 0;
  pr_capacity : capacity q = size b;
  pr_shut : shut q = negb (closed b =? 0);
  pr_wanted : wanted q = request b;
}.

Lemma pending_length b q : pipe_rel b q -> Z.of_nat (length (pending q)) = len b.
Proof.
  intros [(l & _ & Hl & ->) Hs Hle Ho _ _ _ _]. rewrite ring_length; lia.
Qed.

(** [p1] writes into [q12], [p2] into [q21]; [m1], [m2]: what the retry flags say. *)
Record end_bio (b : BIO) (peer_ : Z) (q : pipe) (mask : Z) : Prop := {
  eb_init : init b <> 0;
  eb_peer : peer (ptr b) = peer_;
  eb_null : peer_ <> NULL;
  eb_pipe : pipe_rel (ptr b) q;
  eb_mask : Z.land (flags b) kRetryFlags = mask;
}.

Definition end_ok (m : bios) (p peer_ : Z) (q : pipe) (mask : Z) : Prop :=
  exists b, m !! p = Some b /\ end_bio b peer_ q mask.

Record pair_rel (m : bios) (p1 p2 : Z) (q12 q21 : pipe) (m1 m2 : Z) : Prop := {
  pl_first : end_ok m p1 p2 q12 m1;
  pl_second : end_ok m p2 p1 q21 m2;
  pl_distinct : p1 <> p2;
}.

Lemma pair_sym m p1 p2 q12 q21 m1 m2 : pair_rel m p1 p2 q12 q21 m1 m2 -> pair_rel m p2 p1 q21 q12 m2 m1.
Proof. intros [? ? ?]. by split. Qed.

Definition READ_RETRY : Z := Z.lor BIO_FLAGS_READ BIO_FLAGS_SHOULD_RETRY.
Definition WRITE_RETRY : Z := Z.lor BIO_FLAGS_WRITE BIO_FLAGS_SHOULD_RETRY.

(** The result, the bytes and the retry flags of a read of [n] bytes, and the pipe after it. *)
Definition abs_read (n : Z) (q : pipe) : Z * list Z * Z * pipe :=
  let q' p w := mk_pipe p (capacity q) (shut q) w in
  match pending q with
  | [] => if shut q then (0, [], 0, q' [] 0) else (-1, [], READ_RETRY, q' [] (Z.min n (capacity q)))
  | _ =>
      let k := Z.to_nat (Z.min n (Z.of_nat (length (pending q)))) in
      (Z.of_nat k, take k (pending q), 0, q' (drop k (pending q)) 0)
  end.

(** The same for a write of [data]. *)
Definition abs_write (data : list Z) (q : pipe) : Z * Z * pipe :=
  let q' p := mk_pipe p (capacity q) (shut q) 0 in
  let room := capacity q - Z.of_nat (length (pending q)) in
  if shut q then (-1, 0, q' (pending q))
  else if room =? 0 then (-1, WRITE_RETRY, q' (pending q))
  else
    let k := Z.to_nat (Z.min room (Z.of_nat (length data))) in
    (Z.of_nat k, 0, q' (pending q ++ take k data)).

(** * Retry flags *)

Lemma load_bio_ok (m : bios) w p b : m !! p = Some b -> load_bio p m w = Ok b m w.
Proof. intros E. unfold load_bio. by rewrite E. Qed.

Lemma update_bio_ok (m : bios) w p b f : m !! p = Some b -> update_bio p f m w = Ok tt (<[p := f b]> m) w.
Proof. intros E. unfold update_bio. by rewrite E. Qed.

Lemma cleared_mask f : Z.land (Z.ldiff f kRetryFlags) kRetryFlags = 0.
Proof. apply Z.bits_inj'. intros n Hn. rewrite Z.land_spec, Z.ldiff_spec, Z.bits_0. by destruct (Z.testbit f n), (Z.testbit kRetryFlags n). Qed.

Lemma set_mask f r : Z.land r kRetryFlags = r -> Z.land (Z.lor (Z.ldiff f kRetryFlags) r) kRetryFlags = r.
Proof. intros Hr. rewrite Z.land_lor_distr_l, cleared_mask, Hr. apply Z.lor_0_l. Qed.

Definition quiet (b : BIO) : BIO := set_retry_reason 0 (BioPair.set_flags (Z.ldiff (flags b) kRetryFlags) b).

(** * The loop of [bio_read] *)

(** The ring after [c] bytes have been read. *)
Definition after_read (c : Z) (b : bio_bio_st) : bio_bio_st :=
  set_offset (if (len b - c =? 0) || (offset b + c =? size b) then 0 else offset b + c) (set_len (len b - c) b).

Definition with_pending (l : list Z) (q : pipe) : pipe := mk_pipe l (capacity q) (shut q) (wanted q).

Lemma after_read_rel b q c :
  pipe_rel b q -> 0 < c <= len b -> offset b + c <= size b ->
  pipe_rel (after_read c b) (with_pending (drop (Z.to_nat c) (pending q)) q) /\
  ring_get b (offset b) c = Some (take (Z.to_nat c) (pending q)).
Proof.
  intros [(l & Hb & Hl & Hp) Hs Hle Ho He Hc Hsh Hw] Hc0 Hoc.
  destruct (ring_read l (Z.to_nat (offset b)) (Z.to_nat (len b)) (Z.to_nat c)) as [Htake Hdrop]; [lia..|].
  split.
  - split; cbn [after_read set_offset set_len buf size len offset closed request pending capacity shut wanted with_pending]; try done; try lia.
    + exists l. split_and!; try done. rewrite Hp, <- Hdrop. replace (Z.to_nat (len b) - Z.to_nat c)%nat with (Z.to_nat (len b - c)) by lia.
      destruct (Z.eqb_spec (len b - c) 0) as [E|E]; cbn [orb].
      { rewrite E. unfold ring. by rewrite !take_0. }
      f_equal. destruct (Z.eqb_spec (offset b + c) (size b)), (Nat.eqb_spec (Z.to_nat (offset b) + Z.to_nat c) (length l)); lia.
    + destruct (Z.eqb_spec (len b - c) 0), (Z.eqb_spec (offset b + c) (size b)); cbn [orb]; lia.
    + intros E. by rewrite (proj2 (Z.eqb_eq _ _) E).
  - unfold ring_get. rewrite Hb, Hl, (proj2 (Z.leb_le _ _) Hoc). by rewrite Htake, Hp.
Qed.

Lemma read_step_ok (m : bios) w p bio q rest out :
  m !! p = Some bio -> pipe_rel (ptr bio) q -> 0 < rest <= len (ptr bio) ->
  let c := Z.min rest (size (ptr bio) - offset (ptr bio)) in
  read_step p (rest, out) m w
  = Ok (if rest - c =? 0 then inr (out ++ take (Z.to_nat c) (pending q)) else inl (rest - c, out ++ take (Z.to_nat c) (pending q)))
       (<[p := set_ptr (after_read c) bio]> m) w.
Proof.
  intros Hm R Hrest c. pose proof R as [_ Hs Hle Ho _ _ _ _].
  assert (Hc : 0 < c <= len (ptr bio) /\ offset (ptr bio) + c <= size (ptr bio)) by lia. destruct Hc as [Hc Hoc].
  destruct (after_read_rel _ _ c R Hc Hoc) as [_ Hget].
  unfold read_step. cbn [bind]. rewrite (load_bio_ok m w p bio) by done. rewrite (proj2 (Z.leb_le rest _)) by lia. cbn [assert_ ret].
  assert (Ec : (if u64 (offset (ptr bio) + rest) <=? size (ptr bio) then rest else u64 (size (ptr bio) - offset (ptr bio))) = c).
  { rewrite !u64_small by lia. destruct (Z.leb_spec (offset (ptr bio) + rest) (size (ptr bio))); lia. }
  rewrite Ec. rewrite (u64_small (_ + c)) by lia. rewrite (proj2 (Z.leb_le (_ + c) _)) by lia. cbn [assert_ ret bind].
  rewrite Hget. cbn [or_ub ret]. rewrite !u64_small by lia. 
  destruct (Z.eqb_spec (len (ptr bio) - c) 0) as [E|E]; cbn [negb bind].
  - rewrite (proj2 (Z.eqb_eq c rest)) by lia. cbn [assert_ ret bind]. rewrite (update_bio_ok m w p bio) by done.
    unfold set_ptr, after_read. rewrite (proj2 (Z.eqb_eq _ _) E). done.
  - cbn [assert_ ret bind]. rewrite (update_bio_ok m w p bio) by done.
    unfold set_ptr, after_read. rewrite (proj2 (Z.eqb_neq _ _) E). done.
Qed.

Definition same_peer (b b' : bio_bio_st) : Prop := peer b' = peer b /\ size b' = size b.

Lemma read_loop_ok (m : bios) w p bio q n :
  m !! p = Some bio -> pipe_rel (ptr bio) q -> 0 < n <= len (ptr bio) ->
  exists b', loop 2 (read_step p) (n, []) m w
             = Ok (take (Z.to_nat n) (pending q)) (<[p := set_ptr (fun _ => b') bio]> m) w /\
    same_peer (ptr bio) b' /\ pipe_rel b' (with_pending (drop (Z.to_nat n) (pending q)) q).
Proof.
  intros Hm R Hn. pose proof R as [_ Hs Hle Ho _ _ _ _]. cbn [loop bind].
  set (c := Z.min n (size (ptr bio) - offset (ptr bio))).
  rewrite (read_step_ok m w p bio q n []) by done. fold c.
  destruct (after_read_rel _ _ c R) as [R1 _]; [lia|lia|].
  destruct (Z.eqb_spec (n - c) 0) as [E|E].
  { exists (after_read c (ptr bio)). replace (Z.to_nat n) with (Z.to_nat c) by lia. by split_and!. }
  assert (Hoff : offset (after_read c (ptr bio)) = 0).
  { unfold after_read. cbn [set_offset offset]. rewrite (proj2 (Z.eqb_eq (_ + c) _)) by lia. by rewrite orb_true_r. }
  cbn [set_ptr ptr] in *. set (bio1 := set_ptr (after_read c) bio).
  cbn [bind]. rewrite (read_step_ok _ w p bio1 (with_pending (drop (Z.to_nat c) (pending q)) q) (n - c))
    by (try apply lookup_insert_eq; try exact R1; subst bio1; unfold after_read; cbn; lia).
  subst bio1. cbn [ptr set_ptr]. rewrite Hoff. cbn [after_read set_offset set_len size with_pending pending].
  rewrite Z.min_l by lia. rewrite Z.sub_diag. cbn [Z.eqb ret]. rewrite insert_insert_eq.
  destruct (after_read_rel _ _ (n - c) R1) as [R2 _]; [unfold after_read; cbn; lia|rewrite Hoff; cbn; lia|].
  exists (after_read (n - c) (after_read c (ptr bio))). split; [|split; [done|]].
  - cbn [app]. rewrite take_take_drop. do 2 f_equal. lia.
  - cbn [with_pending pending capacity shut wanted] in R2. rewrite drop_drop in R2.
    by replace (Z.to_nat n) with (Z.to_nat c + Z.to_nat (n - c))%nat by lia.
Qed.

(** * Reading *)

Lemma pipe_request b q v : pipe_rel b q -> pipe_rel (set_request v b) (mk_pipe (pending q) (capacity q) (shut q) v).
Proof. intros [? ? ? ? ? ? ? ?]. by split. Qed.

Lemma pipe_shut b q : pipe_rel b q -> pipe_rel (set_closed 1 b) (mk_pipe (pending q) (capacity q) true (wanted q)).
Proof. intros [? ? ? ? ? ? ? ?]. by split. Qed.

Lemma buf_some b q : pipe_rel b q -> bool_decide (is_Some (buf b)) = true.
Proof. intros [(l & -> & _) _ _ _ _ _ _ _]. by apply bool_decide_eq_true_2. Qed.

Lemma end_quiet b p q mask : end_bio b p q mask -> end_bio (quiet b) p q 0.
Proof. intros [? ? ? ? _]. split; try done. apply cleared_mask. Qed.

Lemma end_add_read b p q mask n : end_bio b p q mask -> end_bio (add_read n b) p q mask.
Proof. by intros [? ? ? ? ?]. Qed.

Lemma end_add_write b p q mask n : end_bio b p q mask -> end_bio (add_write n b) p q mask.
Proof. by intros [? ? ? ? ?]. Qed.

Lemma end_ptr b b' p q q' mask :
  end_bio b p q mask -> same_peer (ptr b) b' -> pipe_rel b' q' -> end_bio (set_ptr (fun _ => b') b) p q' mask.
Proof. intros [? ? ? ? ?] (? & _) ?. split; try done. cbn. congruence. Qed.

(** Runs loads and updates of the two BIOs of a pair. *)
Ltac bio_step :=
  first [ erewrite load_bio_ok by (first [eassumption | apply lookup_insert_eq | rewrite ?lookup_insert_ne by done; eassumption
                                          | rewrite ?lookup_insert_ne by done; apply lookup_insert_eq])
        | erewrite update_bio_ok by (first [eassumption | apply lookup_insert_eq | rewrite ?lookup_insert_ne by done; eassumption
                                          | rewrite ?lookup_insert_ne by done; apply lookup_insert_eq]) ].
Ltac bio_run := repeat (cbn [bind ret assert_]; bio_step); cbn [bind ret assert_].

Lemma bio_read_ok (m : bios) w p1 p2 b1 b2 q12 q21 m1 m2 n :
  m !! p1 = Some b1 -> m !! p2 = Some b2 -> p1 <> p2 ->
  end_bio b1 p2 q12 m1 -> end_bio b2 p1 q21 m2 -> 0 < n < 2 ^ 31 ->
  let '(r, data, mask, q') := abs_read n q21 in
  exists b1' b2', bio_read p1 false n m w = Ok (r, data) (<[p1 := b1']> (<[p2 := b2']> m)) w /\
    end_bio b1' p2 q12 mask /\ end_bio b2' p1 q' m2.
Proof.
  intros Hm1 Hm2 Hne E1 E2 Hn. pose proof E2 as [_ _ _ R2 _]. pose proof (pending_length _ _ R2) as Hlen.
  pose proof E1 as [Hinit Hp1 Hp2 _ _]. pose proof (end_quiet _ _ _ _ E1) as E1'.
  unfold bio_read, BIO_clear_retry_flags. bio_run. fold (quiet b1). rewrite u64_small by lia.
  replace (init (quiet b1)) with (init b1) by done. replace (ptr (quiet b1)) with (ptr b1) by done.
  rewrite (proj2 (Z.eqb_neq _ _) Hinit), Hp1, (proj2 (Z.eqb_neq _ _) Hp2). cbn [negb]. bio_run.
  rewrite (buf_some _ _ R2). bio_run. rewrite (proj2 (Z.eqb_neq n 0)) by lia. cbn [orb]. bio_run.
  cbn [ptr set_ptr]. replace (len (set_request 0 (ptr b2))) with (len (ptr b2)) by done.
  replace (closed (set_request 0 (ptr b2))) with (closed (ptr b2)) by done.
  replace (size (set_request 0 (ptr b2))) with (size (ptr b2)) by done.
  pose proof (pipe_request _ _ 0 R2) as R20.
  pose proof R2 as [_ Hs Hle Ho _ Hcap Hsh _].
  unfold abs_read. destruct (Z.eqb_spec (len (ptr b2)) 0) as [E0|E0].
  - destruct (pending q21) as [|x l] eqn:Eq; [|cbn in Hlen; lia]. rewrite Hsh. destruct (negb (closed (ptr b2) =? 0)) eqn:Ec; cbn [ret].
    + exists (quiet b1), (set_ptr (set_request 0) b2). split; [by rewrite (insert_insert_ne m p1 p2)|]. split; [done|].
      rewrite Hsh in R20. by apply (end_ptr b2 _ p1 q21 _ m2).
    + unfold BIO_set_retry_read. bio_run. rewrite Hcap.
      exists (BioPair.set_flags (Z.lor (flags (quiet b1)) READ_RETRY) (quiet b1)), (set_ptr (set_request (Z.min n (size (ptr b2)))) b2).
      split; [|split].
      * f_equal. rewrite (insert_insert_ne _ p2 p1), insert_insert_eq, (insert_insert_ne _ p2 p1) by done.
        rewrite insert_insert_eq. do 2 f_equal. cbn [set_ptr ptr]. unfold set_ptr, set_request. cbn. do 2 f_equal.
        destruct (Z.leb_spec n (size (ptr b2))); lia.
      * destruct E1' as [? ? ? ? _]. split; try done. cbn [BioPair.set_flags flags quiet set_retry_reason]. by apply set_mask.
      * apply (end_ptr b2 _ p1 q21 _ m2); [done|done|].
        pose proof (pipe_request _ _ (Z.min n (size (ptr b2))) R2) as R. by rewrite Eq, Hsh, Hcap in R.
  - set (k := if len (ptr b2) <? n then len (ptr b2) else n).
    assert (Hk : 0 < k <= len (ptr b2) /\ k < 2 ^ 31 /\ k = Z.min n (len (ptr b2))) by (subst k; destruct (Z.ltb_spec (len (ptr b2)) n); lia).
    destruct Hk as (Hk & Hk31 & Ek). rewrite (proj2 (Z.ltb_lt 0 k)) by lia. cbn [assert_ ret bind].
    destruct (read_loop_ok (<[p2 := set_ptr (set_request 0) b2]> (<[p1 := quiet b1]> m)) w p2 (set_ptr (set_request 0) b2) _ k
                (lookup_insert_eq _ _ _) R20 Hk) as (b' & -> & Hsame & R').
    cbn [ret]. rewrite s32_small by lia.
    destruct (pending q21) as [|x l] eqn:Eq; [cbn in Hlen; lia|]. rewrite <- Eq in *. rewrite Hlen, <- Ek.
    exists (quiet b1), (set_ptr (fun _ => b') b2). split; [|split; [done|]].
    + rewrite Z2Nat.id by lia. by rewrite insert_insert_eq, (insert_insert_ne _ p1 p2).
    + by apply (end_ptr b2 _ p1 q21 _ m2).
Qed.

(** * Writing *)

Definition write_place (b : bio_bio_st) : Z :=
  if size b <=? offset b + len b then offset b + len b - size b else offset b + len b.

Lemma write_chunk_rel b q data :
  pipe_rel b q -> 0 < Z.of_nat (length data) -> len b + Z.of_nat (length data) <= size b ->
  write_place b + Z.of_nat (length data) <= size b ->
  exists l, ring_put b (write_place b) data = Some l /\
    pipe_rel (set_len (len b + Z.of_nat (length data)) (set_buf (Some l) b)) (with_pending (pending q ++ data) q).
Proof.
  intros [(l & Hb & Hl & Hp) Hs Hle Ho He Hc Hsh Hw] Hd Hroom Hfit.
  destruct (ring_write l (Z.to_nat (offset b)) (Z.to_nat (len b)) data) as [Hlen Hring]; [lia|lia| |].
  { unfold write_place in Hfit. destruct (Z.leb_spec (size b) (offset b + len b)), (Nat.leb_spec (length l) (Z.to_nat (offset b) + Z.to_nat (len b))); lia. }
  set (wo := if (length l <=? _)%nat then _ else _) in *.
  assert (Ewo : Z.to_nat (write_place b) = wo).
  { subst wo. unfold write_place. destruct (Z.leb_spec (size b) (offset b + len b)), (Nat.leb_spec (length l) (Z.to_nat (offset b) + Z.to_nat (len b))); lia. }
  unfold ring_put. rewrite Hb, Hl, (proj2 (Z.leb_le _ _) Hfit), Ewo. eexists. split; [reflexivity|].
  split; cbn [set_len set_buf buf size len offset closed request pending capacity shut wanted with_pending]; try done; try lia.
  eexists. split; [reflexivity|]. split; [lia|]. rewrite Hp, <- Hring. f_equal. lia.
Qed.

Lemma write_step_ok (m : bios) w p bio q data :
  m !! p = Some bio -> pipe_rel (ptr bio) q -> 0 < Z.of_nat (length data) ->
  len (ptr bio) + Z.of_nat (length data) <= size (ptr bio) ->
  let c := Z.to_nat (Z.min (Z.of_nat (length data)) (size (ptr bio) - write_place (ptr bio))) in
  exists b', write_step p data m w
             = Ok (if (length (drop c data) =? 0)%nat then inr tt else inl (drop c data)) (<[p := set_ptr (fun _ => b') bio]> m) w /\
    same_peer (ptr bio) b' /\ pipe_rel b' (with_pending (pending q ++ take c data) q) /\
    ((c < length data)%nat -> write_place b' = 0) /\ len b' = len (ptr bio) + Z.of_nat c /\ (0 < c)%nat.
Proof.
  intros Hm R Hd Hroom c. pose proof R as [_ Hs Hle Ho _ _ _ _].
  assert (Hwp : 0 <= write_place (ptr bio) < size (ptr bio)).
  { unfold write_place. destruct (Z.leb_spec (size (ptr bio)) (offset (ptr bio) + len (ptr bio))); lia. }
  assert (Htake : length (take c data) = c) by (rewrite length_take; subst c; lia).
  destruct (write_chunk_rel _ _ (take c data) R) as (l & Hput & R'); [rewrite Htake; subst c; lia..|].
  rewrite Htake in R'. exists (set_len (len (ptr bio) + Z.of_nat c) (set_buf (Some l) (ptr bio))).
  split; [|split; [done|split; [done|]]].
  - unfold write_step. cbn [bind]. rewrite (load_bio_ok m w p bio) by done.
    rewrite (u64_small (len _ + Z.of_nat _)) by lia. rewrite (proj2 (Z.leb_le _ _) Hroom). cbn [assert_ ret].
    assert (Ewo : (if size (ptr bio) <=? u64 (offset (ptr bio) + len (ptr bio))
                   then u64 (u64 (offset (ptr bio) + len (ptr bio)) - size (ptr bio)) else u64 (offset (ptr bio) + len (ptr bio)))
                  = write_place (ptr bio)).
    { rewrite (u64_small (_ + _)) by lia. unfold write_place.
      destruct (Z.leb_spec (size (ptr bio)) (offset (ptr bio) + len (ptr bio))); rewrite ?u64_small by lia; done. }
    cbn [bind]. rewrite Ewo.
    assert (Ec : (if u64 (write_place (ptr bio) + Z.of_nat (length data)) <=? size (ptr bio) then Z.of_nat (length data)
                  else u64 (size (ptr bio) - write_place (ptr bio))) = Z.of_nat c).
    { rewrite !u64_small by lia. destruct (Z.leb_spec (write_place (ptr bio) + Z.of_nat (length data)) (size (ptr bio))); subst c; lia. }
    rewrite Ec, Nat2Z.id, Hput. cbn [or_ub ret]. rewrite u64_small by (subst c; lia). bio_run.
    rewrite (proj2 (Z.leb_le (_ + Z.of_nat c) _)) by (subst c; lia). cbn [ret]. done.
  - split_and!; [|done|subst c; lia]. intros Hc. unfold write_place in *. cbn [set_len set_buf size offset len].
    destruct (Z.leb_spec (size (ptr bio)) (offset (ptr bio) + len (ptr bio)));
      destruct (Z.leb_spec (size (ptr bio)) (offset (ptr bio) + (len (ptr bio) + Z.of_nat c))); subst c; lia.
Qed.

Lemma write_loop_ok (m : bios) w p bio q data :
  m !! p = Some bio -> pipe_rel (ptr bio) q -> 0 < Z.of_nat (length data) ->
  len (ptr bio) + Z.of_nat (length data) <= size (ptr bio) ->
  exists b', loop 2 (write_step p) data m w = Ok tt (<[p := set_ptr (fun _ => b') bio]> m) w /\
    same_peer (ptr bio) b' /\ pipe_rel b' (with_pending (pending q ++ data) q).
Proof.
  intros Hm R Hd Hroom. pose proof R as [_ Hs Hle Ho _ _ _ _]. cbn [loop bind].
  destruct (write_step_ok m w p bio q data Hm R Hd Hroom) as (b1 & -> & Hsame & R1 & Hwp & Hlen & Hc0).
  set (c := Z.to_nat (Z.min _ _)) in *. rewrite length_drop.
  destruct (Nat.eqb_spec (length data - c) 0) as [E|E].
  { exists b1. rewrite take_ge in R1 by lia. done. }
  specialize (Hwp ltac:(lia)). destruct Hsame as (Hpe & Hsz).
  destruct (write_step_ok (<[p := set_ptr (fun _ => b1) bio]> m) w p (set_ptr (fun _ => b1) bio) _ (drop c data)
              (lookup_insert_eq _ _ _) R1) as (b2 & E2 & (Hpe2 & Hsz2) & R2 & _);
    [rewrite length_drop; lia|cbn [set_ptr ptr]; rewrite length_drop; lia|].
  cbn [set_ptr ptr] in *. rewrite Hwp, Z.sub_0_r in E2, R2.
  assert (Hc2 : Z.to_nat (Z.min (Z.of_nat (length (drop c data))) (size b1)) = length (drop c data)) by (rewrite length_drop; lia).
  rewrite Hc2 in E2, R2. cbn [bind]. rewrite E2.
  rewrite (drop_ge (drop c data)) by (rewrite length_drop; lia). cbn [length Nat.eqb ret]. rewrite insert_insert_eq.
  exists b2. split; [done|]. split; [split; congruence|].
  cbn [with_pending pending capacity shut wanted] in R2. rewrite <- app_assoc, (take_ge (drop c data)), take_drop in R2; [done|].
  rewrite length_drop. lia.
Qed.

Lemma bio_write_ok (m : bios) w p1 p2 b1 q12 m1 data :
  m !! p1 = Some b1 -> end_bio b1 p2 q12 m1 -> 0 < Z.of_nat (length data) < 2 ^ 31 ->
  let '(r, mask, q') := abs_write data q12 in
  exists b1', bio_write p1 (Some data) m w = Ok r (<[p1 := b1']> m) w /\ end_bio b1' p2 q' mask.
Proof.
  intros Hm1 E1 Hn. pose proof E1 as [Hinit Hp1 Hp2 R _]. pose proof (pending_length _ _ R) as Hlen.
  pose proof (end_quiet _ _ _ _ E1) as E1'. pose proof R as [_ Hs Hle Ho _ Hcap Hsh _].
  pose proof (pipe_request _ _ 0 R) as R0.
  unfold bio_write, BIO_clear_retry_flags. bio_run. fold (quiet b1).
  replace (init (quiet b1)) with (init b1) by done. replace (ptr (quiet b1)) with (ptr b1) by done.
  rewrite (proj2 (Z.eqb_neq _ _) Hinit), (proj2 (Nat.eqb_neq (length data) 0)) by lia. cbn [orb].
  rewrite Hp1, (proj2 (Z.eqb_neq _ _) Hp2). cbn [negb]. bio_run. rewrite (buf_some _ _ R). bio_run.
  set (b10 := set_ptr (set_request 0) (quiet b1)). rewrite insert_insert_eq.
  assert (E10 : end_bio b10 p2 (mk_pipe (pending q12) (capacity q12) (shut q12) 0) 0).
  { by apply (end_ptr (quiet b1) _ p2 q12 _ 0 E1'). }
  unfold abs_write. rewrite Hsh in *. destruct (negb (closed (ptr b1) =? 0)) eqn:Ec; [by exists b10|].
  rewrite (proj2 (Z.leb_le _ _)) by lia. cbn [assert_ ret bind]. rewrite Hlen, Hcap in *.
  destruct (Z.eqb_spec (len (ptr b1)) (size (ptr b1))) as [E|E].
  - rewrite (proj2 (Z.eqb_eq (_ - _) 0)) by lia. unfold BIO_set_retry_write. bio_run. rewrite insert_insert_eq.
    eexists. split; [reflexivity|]. destruct E10 as [? ? ? ? _]. split; try done. cbn [BioPair.set_flags flags]. by apply set_mask.
  - rewrite (proj2 (Z.eqb_neq (_ - _) 0)) by lia. rewrite u64_small by lia.
    set (num := if size (ptr b1) - len (ptr b1) <? Z.of_nat (length data) then _ else _).
    assert (Hnum : 0 < num <= Z.of_nat (length data) /\ len (ptr b1) + num <= size (ptr b1) /\ num = Z.min (size (ptr b1) - len (ptr b1)) (Z.of_nat (length data))).
    { subst num. destruct (Z.ltb_spec (size (ptr b1) - len (ptr b1)) (Z.of_nat (length data))); lia. }
    destruct Hnum as (Hnum & Hroom & <-). rewrite (proj2 (Z.ltb_lt 0 num)) by lia. cbn [assert_ ret bind].
    assert (Hl : length (take (Z.to_nat num) data) = Z.to_nat num) by (rewrite length_take; lia).
    destruct (write_loop_ok (<[p1 := b10]> m) w p1 b10 _ (take (Z.to_nat num) data) (lookup_insert_eq _ _ _) R0)
      as (b' & -> & Hsame & R'); [lia|cbn; lia|].
    rewrite s32_small, Z2Nat.id, insert_insert_eq by lia. eexists. split; [reflexivity|]. by apply (end_ptr b10 _ p2 _ _ 0 E10).
Qed.

(** * The operations as one interface *)

Inductive bio_op :=
| bop_read (n : Z)
| bop_write (data : list Z)
| bop_shutdown
| bop_pending
| bop_wpending
| bop_guarantee
| bop_request
| bop_reset_request.

Definition run_bio_op (p : Z) (op : bio_op) : SM bios (Z * list Z) :=
  match op with
  | bop_read n => BIO_read p false n
  | bop_write data => let* r := BIO_write p (Some data) (Z.of_nat (length data)) in ret (r, [])
  | bop_shutdown => let* r := BIO_shutdown_wr p in ret (r, [])
  | bop_pending => let* r := BIO_pending p in ret (r, [])
  | bop_wpending => let* r := BIO_wpending p in ret (r, [])
  | bop_guarantee => let* r := BIO_ctrl_get_write_guarantee p in ret (r, [])
  | bop_request => let* r := BIO_ctrl_get_read_request p in ret (r, [])
  | bop_reset_request => let* r := BIO_ctrl p BIO_C_RESET_READ_REQUEST 0 NULL in ret (r, [])
  end.

(** The result, the outgoing and the incoming pipe, and the retry flags. *)
Definition abs_bio (op : bio_op) (qo qi : pipe) (mask : Z) : (Z * list Z) * pipe * pipe * Z :=
  let count l := Z.of_nat (length l) in
  match op with
  | bop_read n =>
      if n <=? 0 then ((0, []), qo, qi, mask)
      else let '(r, data, mask, qi) := abs_read n qi in ((r, data), qo, qi, mask)
  | bop_write data =>
      if count data =? 0 then ((0, []), qo, qi, mask)
      else let '(r, mask, qo) := abs_write data qo in ((r, []), qo, qi, mask)
  | bop_shutdown => ((1, []), mk_pipe (pending qo) (capacity qo) true (wanted qo), qi, mask)
  | bop_pending => ((count (pending qi), []), qo, qi, mask)
  | bop_wpending => ((count (pending qo), []), qo, qi, mask)
  | bop_guarantee => ((if shut qo then 0 else capacity qo - count (pending qo), []), qo, qi, mask)
  | bop_request => ((wanted qo, []), qo, qi, mask)
  | bop_reset_request => ((1, []), mk_pipe (pending qo) (capacity qo) (shut qo) 0, qi, mask)
  end.

(** Lengths are [int]s; a request is never more than the capacity. *)
Definition bio_op_ok (op : bio_op) : Prop :=
  match op with
  | bop_read n => n < 2 ^ 31
  | bop_write data => Z.of_nat (length data) < 2 ^ 31
  | _ => True
  end.

Definition wanted_ok (q : pipe) : Prop := 0 <= wanted q <= capacity q.

Lemma pair_insert m p1 p2 qo qo' qi qi' b1 b2 m1 m2 m1' m2' :
  pair_rel m p1 p2 qo qi m1 m2 -> end_bio b1 p2 qo' m1' -> end_bio b2 p1 qi' m2' ->
  pair_rel (<[p1 := b1]> (<[p2 := b2]> m)) p1 p2 qo' qi' m1' m2'.
Proof.
  intros [_ _ Hne] E1 E2. split; [| |done].
  - exists b1. by rewrite lookup_insert_eq.
  - exists b2. by rewrite lookup_insert_ne, lookup_insert_eq.
Qed.

Lemma pair_insert_first m p1 p2 qo qo' qi b1 m1 m2 m1' :
  pair_rel m p1 p2 qo qi m1 m2 -> end_bio b1 p2 qo' m1' -> pair_rel (<[p1 := b1]> m) p1 p2 qo' qi m1' m2.
Proof.
  intros [_ (b2 & Hm2 & E2) Hne] E1. split; [exists b1; by rewrite lookup_insert_eq| |done].
  exists b2. by rewrite lookup_insert_ne.
Qed.

Lemma own_null m p1 p2 q q' a b : pair_rel m p1 p2 q q' a b -> (p1 =? NULL) = false.
Proof. intros [_ (b2 & _ & [_ _ Hn _ _]) _]. by apply Z.eqb_neq. Qed.

Lemma read_op_ok m w p1 p2 qo qi m1 m2 n :
  pair_rel m p1 p2 qo qi m1 m2 -> n < 2 ^ 31 ->
  let '(r, qo', qi', mask) := abs_bio (bop_read n) qo qi m1 in
  exists m', BIO_read p1 false n m w = Ok r m' w /\ pair_rel m' p1 p2 qo' qi' mask m2.
Proof.
  intros R Hn. pose proof R as [(b1 & Hm1 & E1) (b2 & Hm2 & E2) Hne]. unfold BIO_read. rewrite (own_null _ _ _ _ _ _ _ R).
  bio_run. rewrite (proj2 (Z.eqb_neq _ _) (eb_init _ _ _ _ E1)). cbn [abs_bio].
  destruct (Z.leb_spec n 0); [by exists m|].
  pose proof (bio_read_ok m w p1 p2 b1 b2 qo qi m1 m2 n Hm1 Hm2 Hne E1 E2 ltac:(lia)) as H2.
  destruct (abs_read n qi) as [[[r data] mask] qi']. destruct H2 as (b1' & b2' & E & E1' & E2').
  cbn [bind]. rewrite E. destruct (0 <? r); cbn [bind ret].
  - erewrite update_bio_ok by apply lookup_insert_eq. eexists. split; [reflexivity|]. rewrite insert_insert_eq.
    by apply (pair_insert m p1 p2 qo qo qi qi' _ _ m1 m2); [|apply end_add_read|].
  - eexists. split; [reflexivity|]. by apply (pair_insert m p1 p2 qo qo qi qi' _ _ m1 m2).
Qed.

Lemma write_op_ok m w p1 p2 qo qi m1 m2 data :
  pair_rel m p1 p2 qo qi m1 m2 -> Z.of_nat (length data) < 2 ^ 31 ->
  let '(r, qo', qi', mask) := abs_bio (bop_write data) qo qi m1 in
  exists m', run_bio_op p1 (bop_write data) m w = Ok r m' w /\ pair_rel m' p1 p2 qo' qi' mask m2.
Proof.
  intros R Hn. pose proof R as [(b1 & Hm1 & E1) (b2 & Hm2 & E2) Hne]. cbn [run_bio_op abs_bio bind]. unfold BIO_write.
  rewrite (own_null _ _ _ _ _ _ _ R). bio_run. rewrite (proj2 (Z.eqb_neq _ _) (eb_init _ _ _ _ E1)).
  destruct (Z.leb_spec (Z.of_nat (length data)) 0).
  { rewrite (proj2 (Z.eqb_eq _ 0)) by lia. by exists m. }
  rewrite (proj2 (Z.eqb_neq _ 0)), Nat2Z.id, take_ge by lia.
  pose proof (bio_write_ok m w p1 p2 b1 qo m1 data Hm1 E1 ltac:(lia)) as H2.
  destruct (abs_write data qo) as [[r mask] qo']. destruct H2 as (b1' & E & E1').
  cbn [bind]. rewrite E. destruct (0 <? r); cbn [bind ret].
  - erewrite update_bio_ok by apply lookup_insert_eq. eexists. split; [reflexivity|]. rewrite insert_insert_eq.
    by apply (pair_insert_first m p1 p2 qo qo' qi _ m1 m2); [|apply end_add_write].
  - eexists. split; [reflexivity|]. by apply (pair_insert_first m p1 p2 qo qo' qi _ m1 m2).
Qed.

Lemma bio_pair_step m w p1 p2 qo qi m1 m2 op :
  pair_rel m p1 p2 qo qi m1 m2 -> wanted_ok qo -> bio_op_ok op ->
  let '(r, qo', qi', mask) := abs_bio op qo qi m1 in
  exists m', run_bio_op p1 op m w = Ok r m' w /\ pair_rel m' p1 p2 qo' qi' mask m2.
Proof.
  intros R Hw Hop. destruct op as [n|data| | | | | |]; cbn [bio_op_ok] in Hop;
    [by apply read_op_ok|by apply write_op_ok|..]; cbn [abs_bio run_bio_op];
    pose proof R as [(b1 & Hm1 & E1) (b2 & Hm2 & E2) Hne]; pose proof E1 as [Hinit Hpeer Hnull R1 Hmask];
    pose proof E2 as [_ _ _ R2 _]; pose proof (pending_length _ _ R1); pose proof (pending_length _ _ R2);
    pose proof R1 as [(l & Hbuf & _) Hs Hle Ho He Hcap Hsh Hwant]; pose proof R2 as [_ Hs2 Hle2 _ _ _ _ _];
    unfold BIO_shutdown_wr, BIO_pending, BIO_wpending, BIO_ctrl_get_write_guarantee, BIO_ctrl_get_read_request, BIO_ctrl;
    rewrite (own_null _ _ _ _ _ _ _ R); unfold bio_ctrl; bio_run;
    cbn [Z.eqb Pos.eqb BIO_C_SHUTDOWN_WR BIO_CTRL_PENDING BIO_CTRL_WPENDING BIO_C_GET_WRITE_GUARANTEE BIO_C_GET_READ_REQUEST
         BIO_C_RESET_READ_REQUEST BIO_C_GET_WRITE_BUF_SIZE BIO_CTRL_GET_CLOSE BIO_CTRL_SET_CLOSE].
  - bio_run. eexists. split; [reflexivity|]. apply (pair_insert_first m p1 p2 qo _ qi _ m1 m2); [done|].
    apply (end_ptr b1 _ p2 qo _ m1); [done|done|]. by apply pipe_shut.
  - rewrite Hpeer, (proj2 (Z.eqb_neq _ _) Hnull). cbn [negb]. bio_run. rewrite s64_small, (proj2 (Z.leb_le _ _)) by lia.
    bio_run. rewrite (proj2 (Z.ltb_ge _ _)) by lia. exists m. split; [do 2 f_equal; lia|done].
  - rewrite Hbuf, s64_small by lia. cbn [ret]. rewrite (proj2 (Z.leb_le _ _)) by lia. bio_run. rewrite (proj2 (Z.ltb_ge _ _)) by lia.
    exists m. split; [do 2 f_equal; lia|done].
  - rewrite Hpeer, (proj2 (Z.eqb_neq _ _) Hnull), Hsh. cbn [orb]. exists m. split; [|done].
    destruct (negb (closed (ptr b1) =? 0)); [done|]. rewrite s64_small by lia. cbn [ret]. rewrite u64_small by lia. do 2 f_equal. lia.
  - destruct Hw. rewrite s64_small by lia. cbn [ret]. rewrite u64_small by lia. exists m. split; [|done]. by rewrite Hwant.
  - bio_run. eexists. split; [reflexivity|]. apply (pair_insert_first m p1 p2 qo _ qi _ m1 m2); [done|].
    apply (end_ptr b1 _ p2 qo _ m1); [done|done|]. by apply pipe_request.
Qed.

(** * Counters *)

(** How much has been read from and written to a BIO. *)
Definition counts (m : bios) (p : Z) : option (Z * Z) := (fun b => (num_read b, num_write b)) <$> m !! p.

(** What an operation with result [r] does to the counters of its BIO. *)
Definition abs_counts (op : bio_op) (r : Z) (c : Z * Z) : Z * Z :=
  match op with
  | bop_read _ => if 0 <? r then (u64 (c.1 + r), c.2) else c
  | bop_write _ => if 0 <? r then (c.1, u64 (c.2 + r)) else c
  | _ => c
  end.

(** [c] leaves all counters alone. *)
Definition counts_kept {A} (c : SM bios A) : Prop :=
  forall m w, match c m w with Ok _ m' _ => forall p, counts m' p = counts m p | _ => True end.

Lemma kept_ret {A} (a : A) : counts_kept (ret a).
Proof. done. Qed.
Lemma kept_ub {A} : counts_kept (@ub bios A).
Proof. done. Qed.
Lemma kept_load p : counts_kept (load_bio p).
Proof. intros m w. unfold load_bio. by destruct (m !! p). Qed.
Lemma kept_or_ub {A} (o : option A) : counts_kept (or_ub o).
Proof. by destruct o. Qed.

Lemma kept_bind {A B} (c : SM bios A) (k : A -> SM bios B) :
  counts_kept c -> (forall a, counts_kept (k a)) -> counts_kept (bind c k).
Proof.
  intros Hc Hk m w. unfold bind. specialize (Hc m w). destruct (c m w) as [a m1 w1| | |]; try done.
  specialize (Hk a m1 w1). destruct (k a m1 w1); try done. intros p. by rewrite Hk.
Qed.

Lemma counts_insert (m : bios) p b q : counts (<[p := b]> m) q = if decide (q = p) then Some (num_read b, num_write b) else counts m q.
Proof.
  unfold counts. destruct (decide (q = p)) as [->|]; [by rewrite lookup_insert_eq|by rewrite lookup_insert_ne].
Qed.

Lemma kept_update p f :
  (forall b, num_read (f b) = num_read b /\ num_write (f b) = num_write b) -> counts_kept (update_bio p f).
Proof.
  intros Hf m w. unfold update_bio. destruct (m !! p) as [b|] eqn:E; [|done]. intros q. rewrite counts_insert.
  destruct (Hf b) as [-> ->]. destruct (decide (q = p)) as [->|]; [|done]. unfold counts. by rewrite E.
Qed.

Lemma kept_loop {St R} n (body : St -> SM bios (St + R)) : (forall st, counts_kept (body st)) -> forall st, counts_kept (loop n body st).
Proof.
  intros Hb. induction n as [|n IH]; intros st; [done|]. cbn [loop]. apply kept_bind; [done|]. intros [st'|r]; [apply IH|apply kept_ret].
Qed.

Ltac keep_counts :=
  repeat first
    [ apply kept_loop; intros ? | apply kept_ret | apply kept_ub | apply kept_load | apply kept_or_ub | apply kept_update; done
    | apply kept_bind; [|intros ?]
    | match goal with
      | |- counts_kept (if ?c then _ else _) => destruct c
      | |- counts_kept (match ?c with _ => _ end) => destruct c
      | |- counts_kept (let _ := _ in _) => cbv zeta
      end ].

Lemma bio_read_kept p null n : counts_kept (bio_read p null n).
Proof. unfold bio_read, BIO_clear_retry_flags, BIO_set_retry_read, read_step, assert_. keep_counts. Qed.

Lemma bio_write_kept p data : counts_kept (bio_write p data).
Proof. unfold bio_write, BIO_clear_retry_flags, BIO_set_retry_write, write_step, assert_. keep_counts. Qed.

Lemma bio_ctrl_kept p cmd larg parg : counts_kept (BIO_ctrl p cmd larg parg).
Proof. unfold BIO_ctrl, bio_ctrl. keep_counts. Qed.

(** A counter moves. *)
Definition counted_on (p : Z) (f : Z * Z -> Z * Z) (m m' : bios) : Prop :=
  counts m' p = f <$> counts m p /\ forall q, q <> p -> counts m' q = counts m q.

Lemma counted_kept (m m' : bios) p f :
  (forall q, counts m' q = counts m q) -> (forall c, f c = c) -> counted_on p f m m'.
Proof. intros Hm Hf. split; [|done]. rewrite Hm. destruct (counts m p) as [c|]; [|done]. cbn. by rewrite Hf. Qed.

Lemma counted_if (m m' m'' : bios) p k g f w w' :
  (forall q, counts m' q = counts m q) -> (forall b, (num_read (g b), num_write (g b)) = f (num_read b, num_write b)) ->
  (if 0 <? k then update_bio p g else ret tt) m' w = Ok tt m'' w' -> counted_on p (fun c => if 0 <? k then f c else c) m m''.
Proof.
  intros Hm Hg. destruct (0 <? k); [|intros [= <- _]; by apply counted_kept].
  unfold update_bio. destruct (m' !! p) as [b|] eqn:E; [|done]. intros [= <- _]. split.
  - rewrite counts_insert, decide_True, <- Hm, Hg by done. unfold counts. by rewrite E.
  - intros q Hq. by rewrite counts_insert, decide_False.
Qed.

Lemma bind_inv {A B} (c : SM bios A) (k : A -> SM bios B) m w r m' w' :
  bind c k m w = Ok r m' w' -> exists a m1 w1, c m w = Ok a m1 w1 /\ k a m1 w1 = Ok r m' w'.
Proof. unfold bind. destruct (c m w) as [a m1 w1| | |]; naive_solver. Qed.

Lemma load_inv p (m m' : bios) w w' b : load_bio p m w = Ok b m' w' -> m' = m /\ w' = w.
Proof. unfold load_bio. destruct (m !! p); naive_solver. Qed.

Lemma BIO_read_counts p n m w r m' w' :
  BIO_read p false n m w = Ok r m' w' -> counted_on p (abs_counts (bop_read n) r.1) m m'.
Proof.
  assert (Hz : forall z d, z <= 0 -> Ok (z, d) m w = Ok r m' w' -> counted_on p (abs_counts (bop_read n) r.1) m m').
  { intros z d Hz [= <- <- _]. apply counted_kept; [done|]. intros c. cbn. by rewrite (proj2 (Z.ltb_ge 0 z)). }
  unfold BIO_read. destruct (p =? NULL); [by apply Hz|].
  intros (b & m1 & w1 & [-> ->]%load_inv & E)%bind_inv. destruct (init b =? 0); [by eapply Hz; [|exact E]|].
  destruct (n <=? 0); [by eapply Hz; [|exact E]|]. apply bind_inv in E as ([k d] & m1 & w1 & Ek & E).
  apply bind_inv in E as ([] & m2 & w2 & Eu & [= <- <- _]). pose proof (bio_read_kept p false n m w) as Hk.
  rewrite Ek in Hk. by apply (counted_if m m1 m2 p k (add_read k) (fun c => (u64 (c.1 + k), c.2)) w1 w2).
Qed.

Lemma BIO_write_counts p data inl_ m w r m' w' :
  BIO_write p data inl_ m w = Ok r m' w' -> counted_on p (abs_counts (bop_write []) r) m m'.
Proof.
  assert (Hz : forall z, z <= 0 -> Ok z m w = Ok r m' w' -> counted_on p (abs_counts (bop_write []) r) m m').
  { intros z Hz [= <- <- _]. apply counted_kept; [done|]. intros c. cbn. by rewrite (proj2 (Z.ltb_ge 0 z)). }
  unfold BIO_write. destruct (p =? NULL); [by apply Hz|].
  intros (b & m1 & w1 & [-> ->]%load_inv & E)%bind_inv. destruct (init b =? 0); [by eapply Hz; [|exact E]|].
  destruct (inl_ <=? 0); [by eapply Hz; [|exact E]|]. apply bind_inv in E as (k & m1 & w1 & Ek & E).
  apply bind_inv in E as ([] & m2 & w2 & Eu & [= <- <- _]).
  match type of Ek with bio_write _ ?d _ _ = _ => pose proof (bio_write_kept p d m w) as Hk end.
  rewrite Ek in Hk. by apply (counted_if m m1 m2 p k (add_write k) (fun c => (c.1, u64 (c.2 + k))) w1 w2).
Qed.

Lemma run_op_counts p op m w r m' w' :
  run_bio_op p op m w = Ok r m' w' -> counted_on p (abs_counts op r.1) m m'.
Proof.
  assert (Hctrl : forall (c : SM bios (Z * list Z)), counts_kept c -> c m w = Ok r m' w' ->
    (forall c, abs_counts op r.1 c = c) -> counted_on p (abs_counts op r.1) m m').
  { intros c Hc E Hf. specialize (Hc m w). rewrite E in Hc. by apply counted_kept. }
  destruct op as [n|data| | | | | |]; cbn [run_bio_op];
    [| |intros E; refine (Hctrl _ _ E (fun _ => eq_refl));
        unfold BIO_shutdown_wr, BIO_pending, BIO_wpending, BIO_ctrl_get_write_guarantee, BIO_ctrl_get_read_request, assert_;
        repeat first [apply bio_ctrl_kept | progress keep_counts] ..].
  - apply BIO_read_counts.
  - intros (k & m1 & w1 & E & [= <- <- _])%bind_inv. by apply BIO_write_counts in E.
Qed.

(** C30: the operations on either end of a BIO pair are those of two bounded byte queues:
    a write appends as much as fits, a read takes from the front, a full or empty queue asks for
    a retry, a queue that was shut reports the end of the data or refuses it; no
    assertion fails and the loops over the ring buffer end after two rounds.  The counters
    [num_read] and [num_write] of the BIO grow by what was read or written, modulo [2 ^ 64];
    those of every other BIO stay. *)
Theorem bio_pair_refines m w p1 p2 qo qi m1 m2 op :
  pair_rel m p1 p2 qo qi m1 m2 -> wanted_ok qo -> bio_op_ok op ->
  let '(r, qo', qi', mask) := abs_bio op qo qi m1 in
  exists m', run_bio_op p1 op m w = Ok r m' w /\ pair_rel m' p1 p2 qo' qi' mask m2 /\
    counts m' p1 = abs_counts op r.1 <$> counts m p1 /\ forall p, p <> p1 -> counts m' p = counts m p.
Proof.
  intros R Hw Hop. pose proof (bio_pair_step m w p1 p2 qo qi m1 m2 op R Hw Hop) as Hs.
  destruct (abs_bio op qo qi m1) as [[[r qo'] qi'] mask]. destruct Hs as (m' & E & R').
  destruct (run_op_counts p1 op m w r m' w E). by exists m'.
Qed.

(** * Both ends at work *)

(** A script: which end acts, and what it does; the trace has the results. *)
Fixpoint run_script (p1 p2 : Z) (ops : list (bool * bio_op)) : SM bios (list (bool * bio_op * (Z * list Z))) :=
  match ops with
  | [] => ret []
  | (first, op) :: ops =>
      let* r := run_bio_op (if first then p1 else p2) op in
      let* trace := run_script p1 p2 ops in
      ret ((first, op, r) :: trace)
  end.

(** The bytes that the end [first] got rid of and those it received. *)
Definition sent_by (op : bio_op) (r : Z * list Z) : list Z :=
  match op with bop_write data => take (Z.to_nat r.1) data | _ => [] end.

Fixpoint sent (first : bool) (trace : list (bool * bio_op * (Z * list Z))) : list Z :=
  match trace with
  | [] => []
  | (f, op, r) :: trace => (if Bool.eqb f first then sent_by op r else []) ++ sent first trace
  end.

Fixpoint received (first : bool) (trace : list (bool * bio_op * (Z * list Z))) : list Z :=
  match trace with
  | [] => []
  | (f, _, r) :: trace => (if Bool.eqb f first then r.2 else []) ++ received first trace
  end.

Definition pipe_ok (q : pipe) : Prop := wanted_ok q /\ Z.of_nat (length (pending q)) <= capacity q.

(** What an operation does to the bytes on the way. *)
Lemma abs_bio_conserves op qo qi mask :
  pipe_ok qo -> pipe_ok qi ->
  let '(r, qo', qi', _) := abs_bio op qo qi mask in
  pending qo ++ sent_by op r = pending qo' /\ pending qi = r.2 ++ pending qi' /\ pipe_ok qo' /\ pipe_ok qi'.
Proof.
  intros [Wo Co] [Wi Ci]. unfold pipe_ok, wanted_ok in *.
  destruct op as [n|data| | | | | |]; cbn [abs_bio]; try (cbn; rewrite ?app_nil_r; split_and!; done || lia).
  - destruct (Z.leb_spec n 0); [cbn; rewrite app_nil_r; split_and!; done || lia|]. unfold abs_read.
    destruct (pending qi) as [|x l] eqn:Eq; [destruct (shut qi); cbn; rewrite app_nil_r; split_and!; done || lia|].
    rewrite <- Eq in *. cbn [sent_by fst snd pending wanted capacity]. rewrite app_nil_r, take_drop, length_drop. split_and!; done || lia.
  - destruct (Z.eqb_spec (Z.of_nat (length data)) 0) as [E|E]; [cbn; rewrite take_0, app_nil_r; split_and!; done || lia|].
    unfold abs_write. destruct (shut qo); [cbn; rewrite take_0, app_nil_r; split_and!; done || lia|].
    destruct (Z.eqb_spec (capacity qo - Z.of_nat (length (pending qo))) 0); [cbn; rewrite take_0, app_nil_r; split_and!; done || lia|].
    cbn [sent_by fst snd pending wanted capacity]. rewrite Nat2Z.id, length_app, length_take. split_and!; done || lia.
Qed.

Lemma script_ok ops p1 p2 w : forall m q12 q21 m1 m2,
  pair_rel m p1 p2 q12 q21 m1 m2 -> pipe_ok q12 -> pipe_ok q21 -> Forall (fun fo => bio_op_ok fo.2) ops ->
  exists trace m' q12' q21' m1' m2', run_script p1 p2 ops m w = Ok trace m' w /\
    pair_rel m' p1 p2 q12' q21' m1' m2' /\
    pending q12 ++ sent true trace = received false trace ++ pending q12' /\
    pending q21 ++ sent false trace = received true trace ++ pending q21'.
Proof.
  induction ops as [|[first op] ops IH]; intros m q12 q21 m1 m2 R P12 P21 Hops; cbn [run_script].
  { exists [], m, q12, q21, m1, m2. cbn. by rewrite !app_nil_r. }
  apply Forall_cons_1 in Hops as [Hop Hops]. cbn [bind fst snd] in *. destruct first.
  - pose proof (abs_bio_conserves op q12 q21 m1 P12 P21) as Hc. pose proof (bio_pair_step m w p1 p2 q12 q21 m1 m2 op R (proj1 P12) Hop) as Hs.
    destruct (abs_bio op q12 q21 m1) as [[[r qo] qi] mask]. destruct Hc as (Hso & Hsi & Po & Pi). destruct Hs as (m' & -> & R').
    destruct (IH m' qo qi mask m2 R' Po Pi Hops) as (trace & mf & qf & qg & mm & mn & -> & Rf & Ef & Eg).
    eexists _, mf, qf, qg, mm, mn. split; [reflexivity|]. split; [done|]. cbn [sent received Bool.eqb app].
    rewrite app_assoc, Hso, Ef, Hsi, <- app_assoc, Eg, app_assoc. done.
  - apply pair_sym in R.
    pose proof (abs_bio_conserves op q21 q12 m2 P21 P12) as Hc. pose proof (bio_pair_step m w p2 p1 q21 q12 m2 m1 op R (proj1 P21) Hop) as Hs.
    destruct (abs_bio op q21 q12 m2) as [[[r qo] qi] mask]. destruct Hc as (Hso & Hsi & Po & Pi). destruct Hs as (m' & -> & R').
    apply pair_sym in R'.
    destruct (IH m' qi qo m1 mask R' Pi Po Hops) as (trace & mf & qf & qg & mm & mn & -> & Rf & Ef & Eg).
    eexists _, mf, qf, qg, mm, mn. split; [reflexivity|]. split; [done|]. cbn [sent received Bool.eqb app].
    rewrite (app_assoc (pending q21)), Hso, Eg, Hsi, <- app_assoc, Ef, app_assoc. done.
Qed.

(** C31: whatever the two ends of a new pair do, and in whatever order: every call
    returns, and the bytes that one end has received, followed by those still in the
    ring buffer, are the bytes that the other end has sent, in order. *)
Theorem bio_pair_stream ops p1 p2 m q12 q21 m1 m2 w :
  pair_rel m p1 p2 q12 q21 m1 m2 -> pending q12 = [] -> pending q21 = [] -> wanted_ok q12 -> wanted_ok q21 ->
  Forall (fun fo => bio_op_ok fo.2) ops ->
  exists trace m' q12' q21' m1' m2', run_script p1 p2 ops m w = Ok trace m' w /\
    pair_rel m' p1 p2 q12' q21' m1' m2' /\
    sent true trace = received false trace ++ pending q12' /\
    sent false trace = received true trace ++ pending q21'.
Proof.
  intros R E12 E21 W12 W21 Hops.
  destruct (script_ok ops p1 p2 w m q12 q21 m1 m2 R) as (trace & m' & qa & qb & ma & mb & E & R' & H12 & H21);
    try (split; [done|rewrite ?E12, ?E21; cbn; unfold wanted_ok in *; lia]); [done|].
  rewrite E12 in H12. rewrite E21 in H21. by exists trace, m', qa, qb, ma, mb.
Qed.

(** * A new pair *)

Definition empty_pipe (n : Z) : pipe := mk_pipe [] n false 0.

Definition ring_size (writebuf_len : Z) : Z := if writebuf_len =? 0 then 17 * 1024 else writebuf_len.

Section new_pair.
Context `{CEnv}.

Lemma junk_length p n : length (junk_bytes p n) = n.
Proof. unfold junk_bytes. by rewrite length_map, length_seq. Qed.

Lemma alloc_ring_ok (m : bios) w p b n :
  (forall a k, alloc_ok a k = true) -> 0 < brk w -> m !! p = Some b -> buf (ptr b) = None ->
  exists m' w', alloc_ring p n m w = Ok true m' w' /\ brk w <= brk w' /\
    let k := if n =? 0 then size (ptr b) else n in
    m' = <[p := set_ptr (fun _ => mk_bio_bio (peer (ptr b)) (closed (ptr b)) 0 0 k
                                   (Some (junk_bytes (brk w) (Z.to_nat k))) (request (ptr b))) b]> m.
Proof.
  intros Ha Hw Hm Hb. unfold alloc_ring. bio_run. rewrite Hb. destruct (Z.eqb_spec n 0); cbn [negb]; bio_run;
    unfold OPENSSL_malloc; rewrite Ha; rewrite (proj2 (Z.eqb_neq (brk w) NULL)) by (unfold NULL; lia); bio_run;
    rewrite ?insert_insert_eq; (eexists _, _; split; [reflexivity|]); cbn [brk]; (split; [lia|]); done.
Qed.

Definition fresh_bio : BIO := mk_BIO 0 1 0 0 1 (mk_bio_bio NULL 0 0 0 (17 * 1024) None 0) 0 0.

Lemma BIO_new_ok (m : bios) w :
  (forall a k, alloc_ok a k = true) -> 0 < brk w ->
  exists w', BIO_new m w = Ok (brk w) (<[brk w := fresh_bio]> m) w' /\ brk w < brk w'.
Proof.
  intros Ha Hw. unfold BIO_new, bio_new, OPENSSL_malloc. cbn [bind]. rewrite Ha. cbn [brk].
  assert (Hs : forall n, 16 <= Z.max 16 (align16 n)) by (intros; lia). pose proof (Hs sizeof_BIO).
  rewrite (proj2 (Z.eqb_neq (brk w) NULL)) by (unfold NULL; lia). cbn [bind]. rewrite Ha. cbn [brk ret].
  rewrite (proj2 (Z.eqb_neq (_ + _) NULL)) by (unfold NULL; lia). cbn [bind modify ret].
  eexists. split; [reflexivity|]. cbn [brk]. pose proof (Hs sizeof_bio_bio_st). lia.
Qed.

Lemma fresh_pipe n k (l : list Z) p :
  0 < k < 2 ^ 63 -> Z.of_nat (length l) = k -> k = n -> pipe_rel (mk_bio_bio p 0 0 0 k (Some l) 0) (empty_pipe n).
Proof. intros Hk Hl <-. split; cbn; try done; try lia. exists l. rewrite Hl. by repeat split. Qed.

(** [BIO_new_bio_pair] makes two ends with empty rings of the requested sizes. *)
Lemma new_bio_pair_ok (m : bios) w n1 n2 :
  (forall a k, alloc_ok a k = true) -> 0 < brk w -> 0 <= n1 < 2 ^ 63 -> 0 <= n2 < 2 ^ 63 ->
  exists p1 p2 m' w', BIO_new_bio_pair n1 n2 m w = Ok (1, p1, p2) m' w' /\
    pair_rel m' p1 p2 (empty_pipe (ring_size n1)) (empty_pipe (ring_size n2)) 0 0.
Proof.
  intros Ha Hw Hn1 Hn2. unfold BIO_new_bio_pair.
  destruct (BIO_new_ok m w Ha Hw) as (w1 & E1 & Hw1). destruct (BIO_new_ok (<[brk w := fresh_bio]> m) w1 Ha) as (w2 & E2 & Hw2); [lia|].
  cbn [bind]. rewrite E1. cbn [bind]. rewrite E2. set (p1 := brk w) in *. set (p2 := brk w1) in *.
  rewrite (proj2 (Z.eqb_neq p1 NULL)), (proj2 (Z.eqb_neq p2 NULL)) by (unfold NULL; lia). cbn [orb].
  assert (Hne : p1 <> p2) by lia. assert (Hne' : p2 <> p1) by lia. unfold bio_make_pair. bio_run.
  change (peer (ptr fresh_bio)) with NULL. cbn [Z.eqb NULL negb orb bind].
  destruct (alloc_ring_ok (<[p2 := fresh_bio]> (<[p1 := fresh_bio]> m)) w2 p1 fresh_bio n1 Ha) as (m3 & w3 & -> & Hw3 & Em3);
    [lia|by rewrite lookup_insert_ne, lookup_insert_eq|done|].
  destruct (alloc_ring_ok m3 w3 p2 fresh_bio n2 Ha) as (m4 & w4 & E4 & Hw4 & Em4);
    [lia|by rewrite Em3, lookup_insert_ne, lookup_insert_eq by done|done|].
  cbn [negb bind]. rewrite E4. cbn [negb]. clear E1 E2 E4. cbv zeta in Em3, Em4. subst m4 m3. bio_run. cbn [Z.eqb ret].
  exists p1, p2. eexists _, _. split; [reflexivity|].
  change (size (ptr fresh_bio)) with (17 * 1024).
  assert (Hk : forall n, 0 <= n < 2 ^ 63 -> 0 < (if n =? 0 then 17 * 1024 else n) < 2 ^ 63) by (intros n ?; destruct (Z.eqb_spec n 0); lia).
  split; [| |done].
  - eexists. split; [rewrite lookup_insert_ne by done; apply lookup_insert_eq|].
    split; cbn; try done; [unfold NULL; lia|]. apply fresh_pipe; [by apply Hk| |done]. rewrite junk_length. apply Z2Nat.id, Z.lt_le_incl. by apply Hk.
  - eexists. split; [apply lookup_insert_eq|].
    split; cbn; try done; [unfold NULL; lia|]. apply fresh_pipe; [by apply Hk| |done]. rewrite junk_length. apply Z2Nat.id, Z.lt_le_incl. by apply Hk.
Qed.

End new_pair.

(** * Examples *)

Definition generous : CEnv := {| junk _ := 0; alloc_ok _ _ := true |}.
Definition start_world : world := World ∅ ∅ 16.

(** A pair with rings of four and eight bytes. *)
Definition four_eight : Z * Z * bios :=
  match BIO_new_bio_pair (H := generous) 4 8 ∅ start_world with
  | Ok (_, p1, p2) m _ => (p1, p2, m)
  | _ => (NULL, NULL, ∅)
  end.
Definition end1 : Z := four_eight.1.1.
Definition end2 : Z := four_eight.1.2.
Definition both : bios := four_eight.2.

Lemma four_eight_ok : pair_rel both end1 end2 (empty_pipe 4) (empty_pipe 8) 0 0.
Proof.
  destruct (new_bio_pair_ok (H := generous) ∅ start_world 4 8) as (p1 & p2 & m & w & E & R); [done|done|lia|lia|].
  unfold both, end1, end2, four_eight. by rewrite E.
Qed.

(** The ring fills up, is read, and wraps around. *)
Example wraps :
  match run_script end1 end2 [(true, bop_write [1; 2; 3; 4; 5; 6]); (true, bop_write [9]); (false, bop_read 3);
                              (true, bop_write [5; 6; 7; 8]); (false, bop_read 10); (false, bop_read 2);
                              (true, bop_request); (true, bop_shutdown); (false, bop_read 2)] both start_world with
  | Ok t _ _ => map snd t = [(4, []); (-1, []); (3, [1; 2; 3]); (3, []); (4, [4; 5; 6; 7]); (-1, []); (2, []); (1, []); (0, [])]
  | _ => False
  end.
Proof. vm_compute. reflexivity. Qed.

Lemma bio_pair_refines_witness :
  exists m', run_bio_op end1 (bop_write [1; 2; 3; 4; 5; 6]) both start_world = Ok (4, []) m' start_world /\
             pair_rel m' end1 end2 (mk_pipe [1; 2; 3; 4] 4 false 0) (empty_pipe 8) 0 0 /\
             counts m' end1 = Some (0, 4) /\ forall p, p <> end1 -> counts m' p = counts both p.
Proof.
  apply (bio_pair_refines both start_world end1 end2 (empty_pipe 4) (empty_pipe 8) 0 0 (bop_write [1; 2; 3; 4; 5; 6]) four_eight_ok).
  - split; cbn; lia.
  - cbn. lia.
Defined.

Lemma bio_pair_stream_witness :
  exists trace m' q12' q21' m1' m2',
    run_script end1 end2 [(true, bop_write [1; 2; 3; 4; 5; 6]); (false, bop_read 3)] both start_world = Ok trace m' start_world /\
    pair_rel m' end1 end2 q12' q21' m1' m2' /\
    sent true trace = received false trace ++ pending q12' /\ sent false trace = received true trace ++ pending q21'.
Proof.
  apply (bio_pair_stream [(true, bop_write [1; 2; 3; 4; 5; 6]); (false, bop_read 3)] end1 end2 both (empty_pipe 4) (empty_pipe 8) 0 0
           start_world four_eight_ok); try reflexivity; try (split; cbn; lia).
  repeat constructor; cbn; lia.
Defined.
