(* ===== verification/LHash.v ===== *)
(** BoringSSL's hash table, crypto/lhash/lhash.c: chains of items from an array of buckets
    that grows and shrinks with the number of items.

    The items are structs in memory, linked by pointers; a function of the code that
    returns a pointer to a pointer returns a [slot] here: a place of the array or the
    [next] member of an item.  Following NULL or a freed item is undefined behaviour.  The
    stored objects are addresses, which the table never follows; the application's hash
    and comparison functions are [LHashFns].  The helper functions that only cast before they
    call those are left out. *)
From stdpp Require Import base gmap list numbers.
From Stdlib Require Import ZArith Lia.
From S2P Require Import Prelude Cmem.

Definition kMinNumBuckets : Z := 16.
Definition kMaxAverageChainLength : Z := 2.
Definition kMinAverageChainLength : Z := 1.

Definition UINT_MAX : Z := 2 ^ 32 - 1.

Record lhash_item_st := mk_item {
  data : Z;
  next : Z;
  hash : Z;
}.

(** [items] are the live [LHASH_ITEM]s by their addresses. *)
Record lhash_st := mk_lhash {
  num_items : Z;
  buckets : list Z;
  num_buckets : Z;
  callback_depth : Z;
  items : gmap Z lhash_item_st;
}.

Class LHashFns := {
  hash_func : Z -> Z;
  cmp_func : Z -> Z -> Z;
}.

Definition set_num_items (n : Z) (h : lhash_st) : lhash_st :=
  mk_lhash n (buckets h) (num_buckets h) (callback_depth h) (items h).
Definition set_buckets (b : list Z) (h : lhash_st) : lhash_st :=
  mk_lhash (num_items h) b (num_buckets h) (callback_depth h) (items h).
Definition set_num_buckets (n : Z) (h : lhash_st) : lhash_st :=
  mk_lhash (num_items h) (buckets h) n (callback_depth h) (items h).
Definition set_callback_depth (n : Z) (h : lhash_st) : lhash_st :=
  mk_lhash (num_items h) (buckets h) (num_buckets h) n (items h).
Definition set_items (m : gmap Z lhash_item_st) (h : lhash_st) : lhash_st :=
  mk_lhash (num_items h) (buckets h) (num_buckets h) (callback_depth h) m.

Definition set_data (d : Z) (it : lhash_item_st) : lhash_item_st := mk_item d (next it) (hash it).
Definition set_next (p : Z) (it : lhash_item_st) : lhash_item_st := mk_item (data it) p (hash it).

Definition load_item (p : Z) : SM lhash_st lhash_item_st := fun h w =>
  match items h !! p with
  | Some it => Ok it h w
  | None => UB
  end.

Definition update_item (p : Z) (f : lhash_item_st -> lhash_item_st) : SM lhash_st unit := fun h w =>
  match items h !! p with
  | Some it => Ok tt (set_items (<[p := f it]> (items h)) h) w
  | None => UB
  end.

(** [OPENSSL_free] of an item. *)
Definition free_item (p : Z) : SM lhash_st unit := fun h w =>
  match items h !! p with
  | Some _ => Ok tt (set_items (delete p (items h)) h) w
  | None => UB
  end.

(** [a[i]] in an array of pointers. *)
Definition array_get {T} (a : list Z) (i : Z) : SM T Z := fun s w =>
  match a !! Z.to_nat i with
  | Some p => if 0 <=? i then Ok p s w else UB
  | None => UB
  end.

Definition array_set {T} (a : list Z) (i p : Z) : SM T (list Z) := fun s w =>
  if (0 <=? i) && (i <? Z.of_nat (length a)) then Ok (<[Z.to_nat i := p]> a) s w else UB.

Inductive slot :=
| Bucket (i : Z)
| Next (p : Z).

Definition read_slot (s : slot) : SM lhash_st Z :=
  match s with
  | Bucket i => let* h := get in array_get (buckets h) i
  | Next p => let* it := load_item p in ret (next it)
  end.

Definition write_slot (s : slot) (v : Z) : SM lhash_st unit :=
  match s with
  | Bucket i => let* h := get in let* b := array_set (buckets h) i v in modify (set_buckets b)
  | Next p => update_item p (set_next v)
  end.

Definition sizeof_LHASH : Z := 48.
Definition sizeof_LHASH_ITEM : Z := 24.
Definition sizeof_pointer : Z := 8.

Section lhash.
Context `{CEnv} `{LHashFns}.

Definition OPENSSL_lh_new {T} : SM T (option lhash_st) :=
  let* p := OPENSSL_malloc sizeof_LHASH in
  if p =? NULL then ret None
  else
    let* b := OPENSSL_malloc (sizeof_pointer * kMinNumBuckets) in
    if b =? NULL then ret None
    else ret (Some (mk_lhash 0 (replicate (Z.to_nat kMinNumBuckets) NULL) kMinNumBuckets 0 ∅)).

(** The walk along one chain in [OPENSSL_lh_free]. *)
Definition free_step (n : Z) : SM lhash_st (Z + unit) :=
  if n =? NULL then ret (inr tt)
  else
    let* it := load_item n in
    free_item n;;
    ret (inl (next it)).

Definition free_bucket (i : Z) : SM lhash_st (Z + unit) :=
  let* h := get in
  if num_buckets h <=? i then ret (inr tt)
  else
    let* n := array_get (buckets h) i in
    loop (S (size (items h))) free_step n;;
    ret (inl (i + 1)).

(** The array and the struct are released with the items. *)
Definition OPENSSL_lh_free : SM lhash_st unit :=
  let* h := get in
  loop (S (Z.to_nat (num_buckets h))) free_bucket 0.

Definition OPENSSL_lh_num_items (h : lhash_st) : Z := num_items h.

(** One step along a chain; [is_match] compares with what is looked for. *)
Definition find_step (is_match : Z -> bool) (s : slot) : SM lhash_st (slot + slot) :=
  let* cur := read_slot s in
  if cur =? NULL then ret (inr s)
  else
    let* it := load_item cur in
    ret (if is_match (data it) then inr s else inl (Next cur)).

Definition get_next_ptr_and_hash (d : Z) : SM lhash_st (slot * Z) :=
  let hash := u32 (hash_func d) in
  let* h := get in
  let* s := loop (S (size (items h))) (find_step (fun x => cmp_func x d =? 0)) (Bucket (hash mod num_buckets h)) in
  ret (s, hash).

Definition get_next_ptr_by_key (key key_hash : Z) (cmp_key : Z -> Z -> Z) : SM lhash_st slot :=
  let* h := get in
  loop (S (size (items h))) (find_step (fun x => cmp_key key x =? 0)) (Bucket (key_hash mod num_buckets h)).

Definition OPENSSL_lh_retrieve (d : Z) : SM lhash_st Z :=
  let* r := get_next_ptr_and_hash d in
  let '(next_ptr, _) := r in
  let* p := read_slot next_ptr in
  if p =? NULL then ret NULL else let* it := load_item p in ret (data it).

Definition OPENSSL_lh_retrieve_key (key key_hash : Z) (cmp_key : Z -> Z -> Z) : SM lhash_st Z :=
  let* next_ptr := get_next_ptr_by_key key key_hash cmp_key in
  let* p := read_slot next_ptr in
  if p =? NULL then ret NULL else let* it := load_item p in ret (data it).

(** One item of a chain moves to its new bucket; [cur] and the new array. *)
Definition move_step (new_num_buckets : Z) (st : Z * list Z) : SM lhash_st (Z * list Z + list Z) :=
  let '(cur, new_buckets) := st in
  if cur =? NULL then ret (inr new_buckets)
  else
    let* it := load_item cur in
    let new_bucket := hash it mod new_num_buckets in
    let next := next it in
    let* head := array_get new_buckets new_bucket in
    update_item cur (set_next head);;
    let* new_buckets := array_set new_buckets new_bucket cur in
    ret (inl (next, new_buckets)).

Definition move_bucket (new_num_buckets : Z) (st : Z * list Z) : SM lhash_st (Z * list Z + list Z) :=
  let '(i, new_buckets) := st in
  let* h := get in
  if num_buckets h <=? i then ret (inr new_buckets)
  else
    let* cur := array_get (buckets h) i in
    let* new_buckets := loop (S (size (items h))) (move_step new_num_buckets) (cur, new_buckets) in
    ret (inl (i + 1, new_buckets)).

Definition lh_rebucket (new_num_buckets : Z) : SM lhash_st unit :=
  let alloc_size := u64 (sizeof_pointer * new_num_buckets) in
  if negb (alloc_size / sizeof_pointer =? new_num_buckets) then ret tt
  else
    let* p := OPENSSL_malloc alloc_size in
    if p =? NULL then ret tt
    else
      let* h := get in
      let* new_buckets := loop (S (Z.to_nat (num_buckets h))) (move_bucket new_num_buckets) (0, replicate (Z.to_nat new_num_buckets) NULL) in
      modify (set_num_buckets new_num_buckets);;
      modify (set_buckets new_buckets).

Definition lh_maybe_resize : SM lhash_st unit :=
  let* h := get in
  if 0 <? callback_depth h then ret tt
  else
    assert_ (kMinNumBuckets <=? num_buckets h);;
    let avg_chain_length := num_items h / num_buckets h in
    if kMaxAverageChainLength <? avg_chain_length then
      let new_num_buckets := u64 (num_buckets h * 2) in
      if num_buckets h <? new_num_buckets then lh_rebucket new_num_buckets else ret tt
    else if (avg_chain_length <? kMinAverageChainLength) && (kMinNumBuckets <? num_buckets h) then
      let new_num_buckets := num_buckets h / 2 in
      let new_num_buckets := if new_num_buckets <? kMinNumBuckets then kMinNumBuckets else new_num_buckets in
      lh_rebucket new_num_buckets
    else ret tt.

(** The result and [*old_data]. *)
Definition OPENSSL_lh_insert (d : Z) : SM lhash_st (Z * Z) :=
  let* r := get_next_ptr_and_hash d in
  let '(next_ptr, hash) := r in
  let* p := read_slot next_ptr in
  if negb (p =? NULL) then
    let* it := load_item p in
    update_item p (set_data d);;
    ret (1, data it)
  else
    let* item := OPENSSL_malloc sizeof_LHASH_ITEM in
    if item =? NULL then ret (0, NULL)
    else
      modify (fun h => set_items (<[item := mk_item d NULL hash]> (items h)) h);;
      write_slot next_ptr item;;
      modify (fun h => set_num_items (u64 (num_items h + 1)) h);;
      lh_maybe_resize;;
      ret (1, NULL).

Definition OPENSSL_lh_delete (d : Z) : SM lhash_st Z :=
  let* r := get_next_ptr_and_hash d in
  let '(next_ptr, _) := r in
  let* p := read_slot next_ptr in
  if p =? NULL then ret NULL
  else
    let* it := load_item p in
    write_slot next_ptr (next it);;
    free_item p;;
    modify (fun h => set_num_items (u64 (num_items h - 1)) h);;
    lh_maybe_resize;;
    ret (data it).

(** [func] is the application's; it may use the table. *)
Section doall.
Context (func : Z -> SM lhash_st unit).

Definition doall_step (cur : Z) : SM lhash_st (Z + unit) :=
  if cur =? NULL then ret (inr tt)
  else
    let* it := load_item cur in
    func (data it);;
    ret (inl (next it)).

Definition doall_bucket (fuel : nat) (i : Z) : SM lhash_st (Z + unit) :=
  let* h := get in
  if num_buckets h <=? i then ret (inr tt)
  else
    let* cur := array_get (buckets h) i in
    loop fuel doall_step cur;;
    ret (inl (i + 1)).

(** The fuel bounds the chains, to which the callback may add. *)
Definition OPENSSL_lh_doall_arg (fuel : nat) : SM lhash_st unit :=
  modify (fun h => if callback_depth h <? UINT_MAX then set_callback_depth (callback_depth h + 1) h else h);;
  let* h := get in
  loop (S (Z.to_nat (num_buckets h))) (doall_bucket fuel) 0;;
  modify (fun h => if callback_depth h <? UINT_MAX then set_callback_depth (callback_depth h - 1) h else h);;
  lh_maybe_resize.

End doall.

End lhash.
