(* ===== verification/LHashThms.v ===== *)
(** The hash table of [LHash] as a finite map: every operation on buckets and chains is the
    operation on the map, whatever allocations fail. *)
From stdpp Require Import base gmap list numbers sets.
From Stdlib Require Import ZArith Lia.
From S2P Require Import Prelude Cmem LHash.

(** * Lists of lists *)

Lemma concat_insert {A} (C : list (list A)) i c c' :
  C !! i = Some c -> concat (<[i := c']> C) ++ c ≡ₚ concat C ++ c'.
Proof.
  revert i. induction C as [|x C IH]; intros [|i] Hi; cbn in *; try done.
  - injection Hi as ->. rewrite <- app_assoc, (Permutation_app_comm (concat C) c), app_assoc.
    rewrite (Permutation_app_comm c' c), <- !app_assoc. by rewrite (Permutation_app_comm c').
  - rewrite <- !app_assoc. by rewrite IH.
Qed.

Lemma elem_of_concat {A} (C : list (list A)) a : a ∈ concat C <-> exists i c, C !! i = Some c /\ a ∈ c.
Proof.
  induction C as [|x C IH]; cbn [concat].
  - split; [by intros ?%not_elem_of_nil|]. intros (i & c & Hi & _). by rewrite lookup_nil in Hi.
  - rewrite elem_of_app, IH. split.
    + intros [Ha|(i & c & Hi & Ha)]; [by exists 0%nat, x|by exists (S i), c].
    + intros ([|i] & c & Hi & Ha); cbn in Hi; [injection Hi as ->; by left|right; by exists i, c].
Qed.

Lemma concat_nodup_at {A} (C : list (list A)) i c : NoDup (concat C) -> C !! i = Some c -> NoDup c.
Proof.
  revert i. induction C as [|x C IH]; intros [|i] Hnd Hi; cbn in *; try done; apply NoDup_app in Hnd as (Hx & _ & Hc).
  - by injection Hi as <-.
  - by apply (IH i).
Qed.

Lemma concat_nodup_ne {A} (C : list (list A)) i j c d a :
  NoDup (concat C) -> C !! i = Some c -> C !! j = Some d -> a ∈ c -> a ∈ d -> i = j.
Proof.
  revert i j. induction C as [|x C IH]; intros [|i] [|j] Hnd Hi Hj Hc Hd; cbn in *; try done;
    apply NoDup_app in Hnd as (_ & Hdis & Hnd).
  - injection Hi as <-. destruct (Hdis a Hc). apply elem_of_concat. by exists j, d.
  - injection Hj as <-. destruct (Hdis a Hd). apply elem_of_concat. by exists i, c.
  - f_equal. by apply (IH i j).
Qed.

Lemma elem_of_concat_insert {A} (C : list (list A)) i c c' x :
  NoDup (concat C) -> C !! i = Some c ->
  x ∈ concat (<[i := c']> C) <-> x ∈ c' \/ (x ∈ concat C /\ x ∉ c).
Proof.
  intros Hnd Hi. pose proof (lookup_lt_Some _ _ _ Hi). rewrite !elem_of_concat. split.
  - intros (j & d & Hj & Hx). apply list_lookup_insert_Some in Hj as [(<- & <- & _)|[Hne Hj]]; [by left|right].
    split; [by exists j, d|]. intros Hc. apply Hne. by apply (concat_nodup_ne C i j c d x).
  - intros [Hx|[(j & d & Hj & Hx) Hc]]; [exists i, c'; by rewrite list_lookup_insert_eq|].
    assert (Hne : i <> j) by (intros ->; congruence). exists j, d. by rewrite list_lookup_insert_ne.
Qed.

Lemma concat_nodup_insert {A} (C : list (list A)) i c c' :
  NoDup (concat C) -> C !! i = Some c -> NoDup c' -> (forall x, x ∈ c' -> x ∈ c \/ x ∉ concat C) ->
  NoDup (concat (<[i := c']> C)).
Proof.
  revert i. induction C as [|d C IH]; intros [|i] Hnd Hi Hc' Hx; cbn in *; try done;
    apply NoDup_app in Hnd as (Hd & Hdis & HC); apply NoDup_app.
  - injection Hi as ->. split; [done|]. split; [|done]. intros x Hxc HxC. destruct (Hx x Hxc) as [?|Hn]; [by apply (Hdis x)|].
    apply Hn. set_solver.
  - split; [done|]. split.
    + intros x Hxd Hin. apply (elem_of_concat_insert C i c c' x HC Hi) in Hin as [Hin|[Hin _]]; [|by apply (Hdis x)].
      destruct (Hx x Hin) as [Hxc|Hn]; [|apply Hn; set_solver]. apply (Hdis x Hxd). apply elem_of_concat. by exists i, c.
    + apply IH; [done|done|done|]. intros x Hxc. destruct (Hx x Hxc) as [?|Hn]; [by left|right]. set_solver.
Qed.

(** * Chains *)

Fixpoint chain (m : gmap Z lhash_item_st) (p : Z) (l : list Z) : Prop :=
  match l with
  | [] => p = NULL
  | a :: l => p = a /\ a <> NULL /\ exists it, m !! a = Some it /\ chain m (next it) l
  end.

(** What the table keeps for an item: the object and its hash value. *)
Definition payload (m : gmap Z lhash_item_st) (a : Z) : option (Z * Z) :=
  (fun it => (data it, hash it)) <$> m !! a.

Lemma payload_some m a x : payload m a = Some x -> is_Some (m !! a).
Proof. unfold payload. destruct (m !! a) as [it|]; [by exists it|done]. Qed.

Lemma chain_ext m m' p l : (forall a, a ∈ l -> m' !! a = m !! a) -> chain m p l -> chain m' p l.
Proof.
  revert p. induction l as [|a l IH]; intros p Hext; [done|]. intros (-> & Ha & it & Hit & Hc).
  split; [done|]. split; [done|]. exists it. rewrite Hext by (by left). split; [done|]. apply IH; [|done].
  intros b Hb. apply Hext. by right.
Qed.

Lemma chain_live m p l a : chain m p l -> a ∈ l -> exists it, m !! a = Some it /\ a <> NULL.
Proof.
  revert p. induction l as [|b l IH]; intros p; [by intros _ ?%not_elem_of_nil|].
  intros (_ & Hb & it & Hit & Hc) [->|Ha]%elem_of_cons; [by exists it|by apply (IH (next it))].
Qed.

Lemma chain_tail m p l1 l2 : chain m p (l1 ++ l2) -> exists q, chain m q l2.
Proof.
  revert p. induction l1 as [|a l1 IH]; intros p; cbn [app]; [by exists p|]. intros (_ & _ & it & _ & Hc). by apply (IH (next it)).
Qed.

Lemma chain_null m p l : chain m p l -> (p = NULL <-> l = []).
Proof. destruct l as [|a l]; [done|]. intros (-> & Ha & _). split; [done|discriminate]. Qed.

Lemma exists_last_or_nil {A} (l : list A) : l = [] \/ exists l' a, l = l' ++ [a].
Proof. destruct l as [|x l] using rev_ind; [by left|right]. by exists l, x. Qed.

(** The slot behind the items [l] of bucket [i]. *)
Definition slot_after (i : nat) (l : list Z) : slot :=
  match last l with None => Bucket (Z.of_nat i) | Some p => Next p end.

Lemma slot_after_snoc i l a : slot_after i (l ++ [a]) = Next a.
Proof. unfold slot_after. by rewrite last_snoc. Qed.

Lemma read_slot_ok h w i b l1 l2 :
  buckets h !! i = Some b -> chain (items h) b (l1 ++ l2) ->
  exists p, read_slot (slot_after i l1) h w = Ok p h w /\ chain (items h) p l2.
Proof.
  intros Hb Hc. destruct (exists_last_or_nil l1) as [->|(l & a & ->)].
  - exists b. split; [|done]. unfold slot_after. cbn [last read_slot bind get]. unfold array_get.
    rewrite Nat2Z.id, Hb. by rewrite (proj2 (Z.leb_le _ _)) by lia.
  - rewrite slot_after_snoc, <- app_assoc in *. destruct (chain_tail _ _ _ _ Hc) as (q & _ & _ & it & Hit & Hq).
    exists (next it). split; [|done]. cbn [read_slot bind]. unfold load_item. by rewrite Hit.
Qed.

(** * The invariant *)

(** The application's functions: [cmp_func] compares the [key]s of two objects, and the
    hash value depends on the key only. *)
Class LHashLaws {F : LHashFns} (K : Type) `{Countable K} (key : Z -> K) : Prop := {
  cmp_key a b : cmp_func a b = 0 <-> key a = key b;
  hash_key a b : key a = key b -> u32 (hash_func a) = u32 (hash_func b);
}.

Section laws.
Context `{CEnv} {F : LHashFns} {K : Type} `{Countable K} (key : Z -> K) `{!LHashLaws K key}.

(** [C]: the items of every bucket, in the order of its chain. *)
Record table (h : lhash_st) (C : list (list Z)) : Prop := {
  t_num : kMinNumBuckets <= num_buckets h < 2 ^ 60;
  t_len : Z.of_nat (length C) = num_buckets h;
  t_buckets : length (buckets h) = length C;
  t_chains i c : C !! i = Some c -> exists p, buckets h !! i = Some p /\ chain (items h) p c;
  t_nodup : NoDup (concat C);
  t_dom a : a ∈ concat C <-> is_Some (items h !! a);
  t_hash i c a d hs : C !! i = Some c -> a ∈ c -> payload (items h) a = Some (d, hs) ->
    hs = u32 (hash_func d) /\ Z.to_nat (hs mod num_buckets h) = i;
  t_keys a b da db ha hb : payload (items h) a = Some (da, ha) -> payload (items h) b = Some (db, hb) ->
    key da = key db -> a = b;
  t_count : num_items h = Z.of_nat (length (concat C));
  t_small : num_items h < 2 ^ 59;
}.

(** The table holds the objects of [M], each under its key. *)
Definition holds (h : lhash_st) (M : gmap K Z) : Prop :=
  forall k d, M !! k = Some d <-> exists a hs, payload (items h) a = Some (d, hs) /\ key d = k.

(** The addresses still to come are free. *)
Definition fresh (h : lhash_st) (w : world) : Prop :=
  0 < brk w /\ forall a, is_Some (items h !! a) -> a < brk w.

Lemma bucket_of h C d : table h C -> exists c, C !! Z.to_nat (u32 (hash_func d) mod num_buckets h) = Some c.
Proof.
  intros T. destruct (t_num _ _ T) as [? _]. unfold kMinNumBuckets in *. apply lookup_lt_is_Some. pose proof (t_len _ _ T).
  pose proof (Z.mod_pos_bound (u32 (hash_func d)) (num_buckets h)). lia.
Qed.

Lemma items_size h C : table h C -> length (concat C) = size (items h).
Proof.
  intros T. rewrite <- (size_list_to_set (C := gset Z)) by apply T. rewrite <- size_dom. f_equal.
  apply set_eq. intros a. rewrite elem_of_list_to_set, elem_of_dom. apply T.
Qed.

Lemma bucket_length h C i c : table h C -> C !! i = Some c -> (length c <= size (items h))%nat.
Proof.
  intros T Hc. rewrite <- (items_size h C T). pose proof (concat_insert C i c [] Hc) as Hp. apply Permutation_length in Hp.
  rewrite !length_app in Hp. cbn in Hp. lia.
Qed.

(** * Looking up *)

Lemma find_ok (is_match : Z -> bool) h w i b l2 : forall l1 fuel,
  buckets h !! i = Some b -> chain (items h) b (l1 ++ l2) -> (length l2 < fuel)%nat ->
  exists l3 l4, l2 = l3 ++ l4 /\
    loop fuel (find_step is_match) (slot_after i l1) h w = Ok (slot_after i (l1 ++ l3)) h w /\
    (forall a d hs, a ∈ l3 -> payload (items h) a = Some (d, hs) -> is_match d = false) /\
    (l4 = [] \/ exists a l5 it, l4 = a :: l5 /\ items h !! a = Some it /\ is_match (data it) = true).
Proof.
  induction l2 as [|a l2 IH]; intros l1 fuel Hb Hc Hf; (destruct fuel as [|fuel]; [lia|]); cbn [loop bind];
    unfold find_step at 1; cbn [bind]; destruct (read_slot_ok h w i b l1 _ Hb Hc) as (p & -> & Hp).
  - cbn in Hp. subst p. exists [], []. rewrite (app_nil_r l1). split; [done|]. split; [done|]. split; [|by left].
    by intros a d hs ?%not_elem_of_nil.
  - destruct Hp as (-> & Ha & it & Hit & Hrest). rewrite (proj2 (Z.eqb_neq a NULL)) by done.
    cbn [bind]. unfold load_item. rewrite Hit. cbn [ret]. destruct (is_match (data it)) eqn:Em.
    + exists [], (a :: l2). rewrite (app_nil_r l1). split; [done|]. split; [done|]. split; [by intros x d hs ?%not_elem_of_nil|].
      right. by exists a, l2, it.
    + destruct (IH (l1 ++ [a]) fuel) as (l3 & l4 & -> & E & Hno & Hend); [done|by rewrite <- app_assoc|cbn in Hf; lia|].
      exists (a :: l3), l4. rewrite slot_after_snoc, <- app_assoc in E. split; [done|]. split; [exact E|]. split; [|done].
      intros x d hs [->|Hx]%elem_of_cons Hpay; [|by apply (Hno x d hs)].
      unfold payload in Hpay. rewrite Hit in Hpay. cbn in Hpay. by injection Hpay as <- _.
Qed.

(** Where the object with the key of [d] is, or would be. *)
Lemma lookup_ok h C w d (M : gmap K Z) :
  table h C -> holds h M ->
  let hs := u32 (hash_func d) in let i := Z.to_nat (hs mod num_buckets h) in
  exists b c l3 l4, C !! i = Some c /\ c = l3 ++ l4 /\ buckets h !! i = Some b /\ chain (items h) b c /\
    get_next_ptr_and_hash d h w = Ok (slot_after i l3, hs) h w /\
    ((l4 = [] /\ M !! key d = None) \/
     exists a l5 it, l4 = a :: l5 /\ items h !! a = Some it /\ key (data it) = key d /\ M !! key d = Some (data it)).
Proof.
  intros T HM hs i. destruct (bucket_of h C d T) as (c & Hc). fold hs i in Hc. destruct (t_chains _ _ T i c Hc) as (b & Hb & Hch).
  destruct (find_ok (fun x => cmp_func x d =? 0) h w i b c [] (S (size (items h)))) as (l3 & l4 & E & Eloop & Hno & Hend);
    [done|done|pose proof (bucket_length h C i c T Hc); lia|].
  exists b, c, l3, l4. split; [done|]. split; [done|]. split; [done|]. split; [done|]. split.
  - unfold get_next_ptr_and_hash. cbn [bind get]. fold hs.
    replace (Bucket (hs mod num_buckets h)) with (slot_after i []).
    + rewrite Eloop. done.
    + unfold slot_after. cbn [last]. f_equal. subst i. rewrite Z2Nat.id; [done|].
      destruct (t_num _ _ T). unfold kMinNumBuckets in *. apply Z.mod_pos_bound. lia.
  - destruct Hend as [->|(a & l5 & it & -> & Hit & Em)].
    + left. split; [done|]. destruct (M !! key d) as [d'|] eqn:EM; [|done]. exfalso.
      apply HM in EM as (a & hs' & Hpay & Ek).
      assert (Ha : a ∈ concat C) by (by apply (t_dom _ _ T), (payload_some _ _ _ Hpay)).
      apply elem_of_concat in Ha as (j & c' & Hj & Ha). destruct (t_hash _ _ T j c' a d' hs' Hj Ha Hpay) as [-> Ej].
      rewrite (hash_key d' d Ek) in Ej. assert (Eij : j = i) by done. rewrite Eij, Hc in Hj. injection Hj as <-.
      rewrite app_nil_r in E. subst c. specialize (Hno a d' _ Ha Hpay). apply Z.eqb_neq in Hno. by apply Hno, cmp_key.
    + right. exists a, l5, it. apply Z.eqb_eq, cmp_key in Em. split_and!; try done. apply HM. exists a, (hash it).
      split; [|done]. unfold payload. by rewrite Hit.
Qed.

Theorem retrieve_ok h C w d M :
  table h C -> holds h M -> OPENSSL_lh_retrieve d h w = Ok (default NULL (M !! key d)) h w.
Proof.
  intros T HM. destruct (lookup_ok h C w d M T HM) as (b & c & l3 & l4 & Hc & E & Hb & Hch & Eget & Hend).
  unfold OPENSSL_lh_retrieve. cbn [bind]. rewrite Eget. rewrite E in Hch.
  destruct (read_slot_ok h w _ b l3 l4 Hb Hch) as (p & Er & Hp). cbn [bind]. rewrite Er.
  destruct Hend as [[-> ->]|(a & l5 & it & -> & Hit & _ & ->)].
  - cbn in Hp. by subst p.
  - destruct Hp as (-> & Ha & _). rewrite (proj2 (Z.eqb_neq a NULL)) by done. cbn [bind]. unfold load_item. by rewrite Hit.
Qed.

(** * Changing a chain *)

Lemma payload_insert m a it it' :
  m !! a = Some it -> data it' = data it -> hash it' = hash it -> forall b, payload (<[a := it']> m) b = payload m b.
Proof.
  intros Hit Ed Eh b. unfold payload. destruct (decide (b = a)) as [->|Hne].
  - rewrite lookup_insert_eq, Hit. cbn. by rewrite Ed, Eh.
  - by rewrite lookup_insert_ne.
Qed.

(** A slot gets a new successor [l2']. *)
Lemma write_slot_ok h w i b p' l1 l2 l2' :
  buckets h !! i = Some b -> chain (items h) b (l1 ++ l2) -> NoDup l1 -> chain (items h) p' l2' ->
  (forall x, x ∈ l1 -> x ∉ l2') ->
  exists b' m', write_slot (slot_after i l1) p' h w = Ok tt (set_items m' (set_buckets (<[i := b']> (buckets h)) h)) w /\
    chain m' b' (l1 ++ l2') /\ (forall a, payload m' a = payload (items h) a) /\ (forall a, a ∉ l1 -> m' !! a = items h !! a).
Proof.
  intros Hb Hc Hnd Hp Hdis. destruct (exists_last_or_nil l1) as [->|(l & a & ->)].
  - exists p', (items h). split; [|done]. unfold slot_after. cbn [last write_slot bind get modify]. unfold array_set.
    apply lookup_lt_Some in Hb. rewrite Nat2Z.id, (proj2 (Z.leb_le 0 _)), (proj2 (Z.ltb_lt (Z.of_nat i) _)) by lia. by destruct h.
  - rewrite slot_after_snoc. destruct (chain_live _ _ _ a Hc) as (it & Hit & Ha); [set_solver|].
    exists b, (<[a := set_next p' it]> (items h)). cbn [write_slot]. unfold update_item. rewrite Hit. split.
    { f_equal. unfold set_items, set_buckets. cbn. f_equal. by rewrite list_insert_id. }
    split; [|split; [by apply (payload_insert _ _ it)|intros x Hx; rewrite lookup_insert_ne; set_solver]].
    assert (Ha2 : a ∉ l2') by (apply Hdis; set_solver).
    apply NoDup_app in Hnd as (_ & Hla & _). rewrite <- app_assoc in *. cbn [app] in *.
    assert (Hal : a ∉ l) by (intros Hx; apply (Hla a Hx); set_solver). clear Hla Hdis Hb. revert b Hc.
    induction l as [|x l IH]; intros b Hc; cbn [app chain] in *.
    + destruct Hc as (-> & _ & _). split; [done|]. split; [done|]. exists (set_next p' it). rewrite lookup_insert_eq.
      split; [done|]. apply (chain_ext (items h)); [|done]. intros y Hy. rewrite lookup_insert_ne; [done|]. by intros ->.
    + destruct Hc as (-> & Hx & itx & Hitx & Hc). split; [done|]. split; [done|]. exists itx.
      rewrite lookup_insert_ne by set_solver. split; [done|]. apply IH; [set_solver|done].
Qed.

(** * Moving the items to another array *)

Definition chains_ok (m : gmap Z lhash_item_st) (nb : list Z) (D : list (list Z)) : Prop :=
  length nb = length D /\ forall j c, D !! j = Some c -> exists p, nb !! j = Some p /\ chain m p c.

Lemma move_chain_ok n l : forall fuel cur nb h w D,
  chain (items h) cur l -> chains_ok (items h) nb D -> NoDup (l ++ concat D) -> 0 < n -> Z.of_nat (length D) = n ->
  (length l < fuel)%nat ->
  (forall j c a it, D !! j = Some c -> a ∈ c -> items h !! a = Some it -> Z.to_nat (hash it mod n) = j) ->
  exists nb' m' D', loop fuel (move_step n) (cur, nb) h w = Ok nb' (set_items m' h) w /\
    chains_ok m' nb' D' /\ concat D' ≡ₚ l ++ concat D /\ length D' = length D /\
    (forall a, payload m' a = payload (items h) a) /\ (forall a, a ∉ l -> m' !! a = items h !! a) /\
    (forall j c a it, D' !! j = Some c -> a ∈ c -> m' !! a = Some it -> Z.to_nat (hash it mod n) = j).
Proof.
  induction l as [|a l IH]; intros fuel cur nb h w D Hc HD Hnd Hn HDn Hf Hh; (destruct fuel as [|fuel]; [lia|]); cbn [loop bind];
    unfold move_step at 1.
  - cbn in Hc. subst cur. cbn [Z.eqb NULL ret]. exists nb, (items h), D. split; [by destruct h|]. done.
  - destruct Hc as (-> & Ha & it & Hit & Hc). rewrite (proj2 (Z.eqb_neq a NULL)) by done. cbn [bind]. unfold load_item. rewrite Hit.
    set (j := Z.to_nat (hash it mod n)). pose proof (Z.mod_pos_bound (hash it) n Hn) as Hj.
    destruct (lookup_lt_is_Some_2 D j) as (c & Hcj); [lia|]. destruct HD as [Hlen HD]. destruct (HD j c Hcj) as (q & Hq & Hqc).
    unfold array_get at 1. fold j. rewrite Hq, (proj2 (Z.leb_le 0 _)) by lia. cbn [bind]. unfold update_item. rewrite Hit. cbn [bind].
    unfold array_set. fold j. pose proof (lookup_lt_Some _ _ _ Hq).
    rewrite (proj2 (Z.leb_le 0 _)), (proj2 (Z.ltb_lt (hash it mod n) _)) by lia. cbn [andb ret].
    set (m1 := <[a := set_next q it]> (items h)).
    cbn [app] in Hnd. apply list.NoDup_cons in Hnd as [Hal Hnd].
    assert (Hal1 : a ∉ l) by set_solver. assert (Hal2 : a ∉ concat D) by set_solver.
    assert (Hout : forall x, x <> a -> m1 !! x = items h !! x) by (intros x Hx; subst m1; by rewrite lookup_insert_ne).
    assert (Hin : forall i d, D !! i = Some d -> a ∉ d) by (intros i d Hi Hd; apply Hal2, elem_of_concat; by exists i, d).
    assert (Hperm : concat (<[j := a :: c]> D) ≡ₚ a :: concat D).
    { pose proof (concat_insert D j c (a :: c) Hcj) as Hp. rewrite <- Permutation_middle in Hp.
      change (a :: concat D ++ c) with ((a :: concat D) ++ c) in Hp. by apply (Permutation_app_inv_r c) in Hp. }
    destruct (IH fuel (next it) (<[j := a]> nb) (set_items m1 h) w (<[j := a :: c]> D)) as (nb' & m' & D' & E & HD' & Hp' & Hl' & Hpay & Hfr & Hh');
      cbn [items set_items].
    + apply (chain_ext (items h)); [|done]. intros x Hx. apply Hout. by intros ->.
    + split; [by rewrite !length_insert|]. intros i d Hi. apply list_lookup_insert_Some in Hi as [(<- & <- & _)|[Hne Hi]].
      * exists a. rewrite list_lookup_insert_eq by done. split; [done|]. split; [done|]. split; [done|]. exists (set_next q it).
        split; [apply lookup_insert_eq|]. cbn. apply (chain_ext (items h)); [|done]. intros x Hx. apply Hout. intros ->. by apply (Hin j c).
      * destruct (HD i d Hi) as (r & Hr & Hrd). exists r. rewrite list_lookup_insert_ne by done. split; [done|].
        apply (chain_ext (items h)); [|done]. intros x Hx. apply Hout. intros ->. by apply (Hin i d).
    + rewrite Hperm, <- Permutation_middle. by apply list.NoDup_cons.
    + done.
    + by rewrite length_insert.
    + cbn in Hf. lia.
    + intros i d x ix Hi Hx Hix. apply list_lookup_insert_Some in Hi as [(<- & <- & _)|[Hne Hi]].
      * apply elem_of_cons in Hx as [->|Hx].
        -- subst m1. rewrite lookup_insert_eq in Hix. injection Hix as <-. done.
        -- rewrite Hout in Hix by (intros ->; by apply (Hin j c)). by apply (Hh j c x).
      * rewrite Hout in Hix by (intros ->; by apply (Hin i d)). by apply (Hh i d x).
    + exists nb', m', D'. split; [exact E|]. split; [done|]. split; [|split; [by rewrite Hl', length_insert|split; [|split; [|done]]]].
      * rewrite Hp', Hperm. cbn [app]. by rewrite <- Permutation_middle.
      * intros x. rewrite Hpay. by apply (payload_insert _ _ it).
      * intros x Hx. rewrite Hfr by set_solver. apply Hout. set_solver.
Qed.

Lemma payload_iff m m' a : (forall x, payload m' x = payload m x) -> is_Some (m' !! a) <-> is_Some (m !! a).
Proof.
  intros Hp. specialize (Hp a). unfold payload in Hp. destruct (m' !! a), (m !! a); try done; split; by intros [].
Qed.

Lemma payload_size m m' : (forall x, payload m' x = payload m x) -> size m' = size m.
Proof.
  intros Hp. rewrite <- !size_dom. f_equal. apply set_eq. intros a. rewrite !elem_of_dom. by apply payload_iff.
Qed.

Lemma move_buckets_ok n R : forall fuel i nb h w D,
  (forall k c, R !! k = Some c -> exists p, buckets h !! (i + k)%nat = Some p /\ chain (items h) p c) ->
  Z.of_nat (i + length R) = num_buckets h -> Forall (fun c => length c <= size (items h))%nat R ->
  chains_ok (items h) nb D -> NoDup (concat R ++ concat D) -> 0 < n -> Z.of_nat (length D) = n -> (length R < fuel)%nat ->
  (forall j c a it, D !! j = Some c -> a ∈ c -> items h !! a = Some it -> Z.to_nat (hash it mod n) = j) ->
  exists nb' m' D', loop fuel (move_bucket n) (Z.of_nat i, nb) h w = Ok nb' (set_items m' h) w /\
    chains_ok m' nb' D' /\ concat D' ≡ₚ concat R ++ concat D /\ length D' = length D /\
    (forall a, payload m' a = payload (items h) a) /\
    (forall j c a it, D' !! j = Some c -> a ∈ c -> m' !! a = Some it -> Z.to_nat (hash it mod n) = j).
Proof.
  induction R as [|c R IH]; intros fuel i nb h w D HR Hi Hsz HD Hnd Hn HDn Hf Hh; (destruct fuel as [|fuel]; [lia|]); cbn [loop bind];
    unfold move_bucket at 1; cbn [bind get length] in *.
  - rewrite (proj2 (Z.leb_le _ _)) by lia. cbn [ret]. exists nb, (items h), D. split; [by destruct h|]. done.
  - rewrite (proj2 (Z.leb_gt _ _)) by lia. destruct (HR 0%nat c eq_refl) as (p & Hp & Hpc). rewrite Nat.add_0_r in Hp.
    unfold array_get at 1. rewrite Nat2Z.id, Hp, (proj2 (Z.leb_le 0 _)) by lia. cbn [bind].
    apply Forall_cons_1 in Hsz as [Hc Hsz]. cbn [concat] in Hnd. rewrite <- app_assoc in Hnd.
    destruct (move_chain_ok n c (S (size (items h))) p nb h w D) as (nb1 & m1 & D1 & -> & HD1 & Hp1 & Hl1 & Hpay1 & Hfr1 & Hh1); try done; try lia.
    { apply NoDup_app in Hnd as (Hndc & Hdis & Hndr). apply NoDup_app in Hndr as (_ & _ & Hndd). apply NoDup_app.
      split; [done|]. split; [|done]. intros x Hx Hd. apply (Hdis x Hx). set_solver. }
    cbn [ret]. replace (Z.of_nat i + 1) with (Z.of_nat (S i)) by lia.
    assert (Hperm : concat R ++ concat D1 ≡ₚ c ++ concat R ++ concat D).
    { rewrite Hp1, !app_assoc. apply Permutation_app_tail. apply Permutation_app_comm. }
    destruct (IH fuel (S i) nb1 (set_items m1 h) w D1) as (nb' & m' & D' & E & HD' & Hp' & Hl' & Hpay & Hh'); cbn [items set_items buckets num_buckets]; try done; try lia.
    + intros k d Hk. destruct (HR (S k) d Hk) as (q & Hq & Hqd). exists q. rewrite <- Nat.add_succ_comm in Hq. split; [done|].
      apply (chain_ext (items h)); [|done]. intros x Hx. apply Hfr1. intros Hxc. apply NoDup_app in Hnd as (_ & Hdis & _).
      apply (Hdis x Hxc). apply elem_of_app. left. apply elem_of_concat. by exists k, d.
    + by rewrite (payload_size (items h)).
    + by rewrite Hperm.
    + exists nb', m', D'. split; [exact E|]. split; [done|]. split; [by rewrite Hp', Hperm; cbn [concat]; rewrite app_assoc|].
      split; [by rewrite Hl', Hl1|]. split; [|done]. intros x. by rewrite Hpay.
Qed.

Lemma empty_chains m n : chains_ok m (replicate n NULL) (replicate n []) /\ concat (replicate n (@nil Z)) = [].
Proof.
  split; [split; [by rewrite !length_replicate|]|by induction n].
  intros j c Hj. pose proof (lookup_lt_Some _ _ _ Hj) as Hlt. rewrite length_replicate in Hlt. exists NULL.
  apply lookup_replicate in Hj as [-> _]. split; [|done]. by apply lookup_replicate.
Qed.

(** Rebucketing keeps the items, or does nothing when the allocation fails. *)
Lemma rebucket_ok n h C w :
  table h C -> kMinNumBuckets <= n < 2 ^ 60 ->
  exists h' C' w', lh_rebucket n h w = Ok tt h' w' /\ table h' C' /\ (forall a, payload (items h') a = payload (items h) a) /\
    num_items h' = num_items h /\ callback_depth h' = callback_depth h /\ brk w <= brk w'.
Proof.
  intros T Hn. unfold kMinNumBuckets in *. unfold lh_rebucket, sizeof_pointer. rewrite u64_small by lia.
  rewrite (proj2 (Z.eqb_eq _ n)) by (Z.div_mod_to_equations; lia). cbn [negb bind]. unfold OPENSSL_malloc.
  destruct (alloc_ok (brk w) (8 * n)); [|exists h, C, w; by split_and!].
  destruct (Z.eqb_spec (brk w) NULL); [exists h, C; eexists; split; [reflexivity|]; cbn; split_and!; done || lia|].
  cbn [bind get]. destruct (empty_chains (items h) (Z.to_nat n)) as [He Hc].
  pose proof (t_len _ _ T). pose proof (t_buckets _ _ T).
  destruct (move_buckets_ok n C (S (Z.to_nat (num_buckets h))) 0 (replicate (Z.to_nat n) NULL) h (World (mem w) (blocks w) (brk w + Z.max 16 (align16 (8 * n))))
              (replicate (Z.to_nat n) [])) as (nb' & m' & D' & E & HD' & Hp' & Hl' & Hpay & Hh').
  - apply (t_chains _ _ T).
  - done.
  - apply List.Forall_forall. intros c Hc'%list_elem_of_In. apply list_elem_of_lookup in Hc' as (k & Hk). by apply (bucket_length h C k).
  - done.
  - rewrite Hc, app_nil_r. apply T.
  - lia.
  - rewrite length_replicate. lia.
  - lia.
  - intros j c a it Hj Ha. apply lookup_replicate in Hj as [-> _]. by apply not_elem_of_nil in Ha.
  - change (Z.of_nat 0) with 0 in E. rewrite E. cbn [modify bind]. rewrite Hc, app_nil_r in Hp'.
    eexists _, D', _. split; [reflexivity|]. destruct HD' as [Hlen' HD']. rewrite length_replicate in Hl'.
    cbn [items set_buckets set_num_buckets set_items num_items callback_depth buckets num_buckets brk].
    split; [|split; [done|split; [done|split; [done|lia]]]].
    split; cbn [items set_buckets set_num_buckets set_items num_items callback_depth buckets num_buckets]; try done.
    + lia.
    + rewrite Hp'. apply T.
    + intros a. rewrite Hp', (payload_iff _ _ a Hpay). apply T.
    + intros i c a d hs Hi Ha Hpa. pose proof (payload_some _ _ _ Hpa) as [it Hit]. unfold payload in Hpa. rewrite Hit in Hpa.
      injection Hpa as <- <-. split; [|by apply (Hh' i c a it)].
      assert (Hin : a ∈ concat C) by (rewrite <- Hp'; apply elem_of_concat; by exists i, c).
      apply elem_of_concat in Hin as (k & ck & Hk & Hak).
      apply (t_hash _ _ T k ck a (data it) (hash it) Hk Hak). rewrite <- Hpay. unfold payload. by rewrite Hit.
    + intros a b da db ha hb. rewrite !Hpay. apply (t_keys _ _ T).
    + rewrite Hp'. apply T.
    + apply T.
Qed.

Lemma maybe_resize_ok h C w :
  table h C ->
  exists h' C' w', lh_maybe_resize h w = Ok tt h' w' /\ table h' C' /\ (forall a, payload (items h') a = payload (items h) a) /\
    num_items h' = num_items h /\ callback_depth h' = callback_depth h /\ brk w <= brk w'.
Proof.
  intros T. pose proof (t_num _ _ T) as Hn. pose proof (t_small _ _ T) as Hs. unfold lh_maybe_resize. cbn [bind get].
  assert (Hid : exists h' C' w', ret tt h w = Ok tt h' w' /\ table h' C' /\ (forall a, payload (items h') a = payload (items h) a) /\
    num_items h' = num_items h /\ callback_depth h' = callback_depth h /\ brk w <= brk w') by by exists h, C, w.
  destruct (0 <? callback_depth h); [done|]. rewrite (proj2 (Z.leb_le _ _)) by lia. cbn [assert_ ret bind].
  unfold kMaxAverageChainLength, kMinAverageChainLength, kMinNumBuckets in *.
  destruct (Z.ltb_spec 2 (num_items h / num_buckets h)).
  - assert (num_buckets h * 3 <= num_items h) by (Z.div_mod_to_equations; nia).
    rewrite u64_small by lia. destruct (num_buckets h <? num_buckets h * 2); [|done].
    apply (rebucket_ok _ h C w T). unfold kMinNumBuckets. lia.
  - destruct (_ <? 1), (Z.ltb_spec 16 (num_buckets h)); cbn [andb]; try done.
    apply (rebucket_ok _ h C w T). unfold kMinNumBuckets.
    destruct (Z.ltb_spec (num_buckets h / 2) 16); Z.div_mod_to_equations; lia.
Qed.

(** * Inserting and deleting *)

(** One bucket changes. *)
Lemma table_change h C i c c' b' m' n' :
  table h C -> C !! i = Some c -> NoDup c' -> chain m' b' c' ->
  (forall x, x ∈ concat C -> x ∉ c -> m' !! x = items h !! x) ->
  (forall x, x ∈ c' -> x ∈ c \/ items h !! x = None) ->
  (forall x, is_Some (m' !! x) <-> (x ∈ c' \/ (x ∈ concat C /\ x ∉ c))) ->
  (forall x d hs, x ∈ c' -> payload m' x = Some (d, hs) -> hs = u32 (hash_func d) /\ Z.to_nat (hs mod num_buckets h) = i) ->
  (forall a b da db ha hb, payload m' a = Some (da, ha) -> payload m' b = Some (db, hb) -> key da = key db -> a = b) ->
  n' = Z.of_nat (length (concat C)) - Z.of_nat (length c) + Z.of_nat (length c') -> n' < 2 ^ 59 ->
  table (set_num_items n' (set_items m' (set_buckets (<[i := b']> (buckets h)) h))) (<[i := c']> C).
Proof.
  intros T Hi Hnd Hc' Hfr Hnew Hdom Hhash Hkeys Hn Hsm. pose proof (lookup_lt_Some _ _ _ Hi).
  pose proof (fun x => elem_of_concat_insert C i c c' x (t_nodup _ _ T) Hi) as Hmem.
  split; cbn [items set_num_items set_items set_buckets num_items buckets num_buckets]; try done.
  - apply T.
  - rewrite length_insert. apply T.
  - rewrite !length_insert. apply T.
  - intros j d Hj. apply list_lookup_insert_Some in Hj as [(<- & <- & _)|[Hne Hj]].
    + exists b'. rewrite list_lookup_insert_eq by (rewrite (t_buckets _ _ T); done). done.
    + destruct (t_chains _ _ T j d Hj) as (p & Hp & Hpd). exists p. rewrite list_lookup_insert_ne by done. split; [done|].
      apply (chain_ext (items h)); [|done]. intros x Hx. apply Hfr; [apply elem_of_concat; by exists j, d|].
      intros Hxc. apply Hne. by apply (concat_nodup_ne C i j c d x (t_nodup _ _ T)).
  - apply (concat_nodup_insert C i c); [apply T|done|done|]. intros x Hx. destruct (Hnew x Hx) as [?|Hnone]; [by left|right].
    intros Hin. apply (t_dom _ _ T) in Hin. rewrite Hnone in Hin. by destruct Hin.
  - intros a. rewrite Hmem, Hdom. done.
  - intros j d a da hs Hj Ha Hpa. apply list_lookup_insert_Some in Hj as [(<- & <- & _)|[Hne Hj]]; [by apply (Hhash a)|].
    assert (Hac : a ∉ c) by (intros Hac; apply Hne; by apply (concat_nodup_ne C i j c d a (t_nodup _ _ T))).
    apply (t_hash _ _ T j d a da hs Hj Ha). unfold payload in *. rewrite <- Hfr; [done|apply elem_of_concat; by exists j, d|done].
  - pose proof (concat_insert C i c c' Hi) as Hp. apply Permutation_length in Hp. rewrite !length_app in Hp. lia.
Qed.

Lemma chain_next m m' p l :
  (forall a, a ∈ l -> next <$> m' !! a = next <$> m !! a) -> chain m p l -> chain m' p l.
Proof.
  revert p. induction l as [|a l IH]; intros p Hn; [done|]. intros (-> & Ha & it & Hit & Hc). split; [done|]. split; [done|].
  pose proof (Hn a ltac:(by left)) as Hna. rewrite Hit in Hna. destruct (m' !! a) as [it'|] eqn:E; [|done]. injection Hna as En.
  exists it'. split; [done|]. rewrite En. apply IH; [|done]. intros b Hb. apply Hn. by right.
Qed.

(** An object takes the place of one with the same key. *)
Lemma replace_ok h C M w a it d :
  table h C -> holds h M -> items h !! a = Some it -> key (data it) = key d ->
  exists h', update_item a (set_data d) h w = Ok tt h' w /\ table h' C /\ holds h' (<[key d := d]> M) /\
    (forall x, is_Some (items h' !! x) <-> is_Some (items h !! x)) /\ num_items h' = num_items h.
Proof.
  intros T HM Hit Ek. unfold update_item. rewrite Hit. eexists. split; [reflexivity|].
  set (m' := <[a := set_data d it]> (items h)).
  assert (Hpay : forall x, payload m' x = if decide (x = a) then Some (d, hash it) else payload (items h) x).
  { intros x. unfold payload, m'. case_decide as E; [by rewrite E, lookup_insert_eq|by rewrite lookup_insert_ne]. }
  assert (Hold : payload (items h) a = Some (data it, hash it)) by (unfold payload; by rewrite Hit).
  assert (Hsome : forall x, is_Some (m' !! x) <-> is_Some (items h !! x)).
  { intros x. unfold m'. destruct (decide (x = a)) as [->|]; [rewrite lookup_insert_eq, Hit; split; by eexists|by rewrite lookup_insert_ne]. }
  split; [|split; [|split; [exact Hsome|done]]].
  - destruct T as [Tn Tl Tb Tc Td Tdom Th Tk Tcn Ts]. split; cbn [items set_items num_items buckets num_buckets]; try done.
    + intros i c Hi. destruct (Tc i c Hi) as (p & Hp & Hpc). exists p. split; [done|]. apply (chain_next (items h)); [|done].
      intros x _. unfold m'. destruct (decide (x = a)) as [->|]; [by rewrite lookup_insert_eq, Hit|by rewrite lookup_insert_ne].
    + intros x. rewrite Hsome. apply Tdom.
    + intros i c x dx hs Hi Hx. rewrite Hpay. case_decide as E; [|by apply (Th i c)]. subst x. intros [= <- <-].
      destruct (Th i c a _ _ Hi Hx Hold) as [-> ?]. split; [by apply hash_key|done].
    + intros x y dx dy hx hy. rewrite !Hpay. do 2 case_decide; intros Hx Hy Exy; subst; try done.
      * injection Hx as <- <-. apply (Tk a y _ _ _ _ Hold Hy). by rewrite Ek.
      * injection Hy as <- <-. apply (Tk x a _ _ _ _ Hx Hold). by rewrite Ek.
      * by apply (Tk x y _ _ _ _ Hx Hy).
  - intros k d'. cbn [items set_items]. fold m'. destruct (decide (k = key d)) as [->|Hne].
    + rewrite lookup_insert_eq. split.
      * intros [= <-]. exists a, (hash it). rewrite Hpay. by rewrite decide_True.
      * intros (x & hs & Hx & E). rewrite Hpay in Hx. case_decide; [by injection Hx as <- _|].
        assert (x = a) by (apply (t_keys _ _ T x a _ _ _ _ Hx Hold); congruence). done.
    + rewrite lookup_insert_ne by done. rewrite (HM k d'). split; intros (x & hs & Hx & E); exists x, hs.
      * rewrite Hpay. case_decide as Ex; [|done]. subst x. rewrite Hold in Hx. injection Hx as <- _. congruence.
      * rewrite Hpay in Hx. case_decide as Ex; [|done]. injection Hx as <- _. congruence.
Qed.

(** The items of a table with one object more. *)
Lemma holds_add m m' (M : gmap K Z) x d hs :
  (forall k e, M !! k = Some e <-> exists a h, payload m a = Some (e, h) /\ key e = k) ->
  (forall y, payload m' y = if decide (y = x) then Some (d, hs) else payload m y) -> payload m x = None -> M !! key d = None ->
  (forall k e, <[key d := d]> M !! k = Some e <-> exists a h, payload m' a = Some (e, h) /\ key e = k).
Proof.
  intros HM Hp Hx HN k e. destruct (decide (k = key d)) as [->|Hne].
  - rewrite lookup_insert_eq. split; [intros [= <-]; exists x, hs; rewrite Hp; by rewrite decide_True|].
    intros (a & h & Ha & Ek). rewrite Hp in Ha. case_decide; [by injection Ha as <- _|].
    assert (M !! key d = Some e) by (apply HM; by exists a, h). congruence.
  - rewrite lookup_insert_ne by done. rewrite HM. split; intros (a & h & Ha & Ek); exists a, h.
    + rewrite Hp. case_decide; [congruence|done].
    + rewrite Hp in Ha. case_decide; [injection Ha as <- _; congruence|done].
Qed.

Lemma holds_remove m m' (M : gmap K Z) x d :
  (forall k e, M !! k = Some e <-> exists a h, payload m a = Some (e, h) /\ key e = k) ->
  (forall a b da db ha hb, payload m a = Some (da, ha) -> payload m b = Some (db, hb) -> key da = key db -> a = b) ->
  (forall y, payload m' y = if decide (y = x) then None else payload m y) -> (exists e h, payload m x = Some (e, h) /\ key e = key d) ->
  (forall k e, delete (key d) M !! k = Some e <-> exists a h, payload m' a = Some (e, h) /\ key e = k).
Proof.
  intros HM Hk Hp (ex & hx & Hx & Ex) k e. destruct (decide (k = key d)) as [->|Hne].
  - rewrite lookup_delete_eq. split; [done|]. intros (a & h & Ha & Ek). rewrite Hp in Ha. case_decide as E; [done|].
    destruct E. apply (Hk a x _ _ _ _ Ha Hx). congruence.
  - rewrite lookup_delete_ne by done. rewrite HM. split; intros (a & h & Ha & Ek); exists a, h.
    + rewrite Hp. case_decide as E; [|done]. subst a. congruence.
    + rewrite Hp in Ha. by case_decide.
Qed.

Lemma chain_tail_nodup h C i l1 l2 : table h C -> C !! i = Some (l1 ++ l2) -> NoDup l1 /\ NoDup l2 /\ forall x, x ∈ l1 -> x ∉ l2.
Proof.
  intros T Hc. pose proof (concat_nodup_at _ _ _ (t_nodup _ _ T) Hc) as Hnd. apply NoDup_app in Hnd as (? & ? & ?). done.
Qed.

(** A new item behind the chain [c] of its bucket. *)
Lemma append_ok h C w M i b c d x :
  table h C -> holds h M -> C !! i = Some c -> buckets h !! i = Some b -> chain (items h) b c ->
  i = Z.to_nat (u32 (hash_func d) mod num_buckets h) -> M !! key d = None -> items h !! x = None -> x <> NULL ->
  num_items h + 1 < 2 ^ 59 ->
  exists h' C', (modify (fun h => set_items (<[x := mk_item d NULL (u32 (hash_func d))]> (items h)) h);;
                 write_slot (slot_after i c) x;;
                 modify (fun h => set_num_items (u64 (num_items h + 1)) h)) h w = Ok tt h' w /\
    table h' C' /\ holds h' (<[key d := d]> M) /\ num_items h' = num_items h + 1 /\
    (forall y, is_Some (items h' !! y) <-> y = x \/ is_Some (items h !! y)).
Proof.
  intros T HM Hc Hb Hch Ei HN Hx Hx0 Hcnt. set (hs := u32 (hash_func d)) in *.
  set (m1 := <[x := mk_item d NULL hs]> (items h)).
  assert (Hxc : x ∉ concat C) by (intros Hin; apply (t_dom _ _ T) in Hin; rewrite Hx in Hin; by destruct Hin).
  assert (Hxc' : x ∉ c) by (intros Hin; apply Hxc, elem_of_concat; by exists i, c).
  assert (Hm1 : forall y, y <> x -> m1 !! y = items h !! y) by (intros y Hy; subst m1; by rewrite lookup_insert_ne).
  pose proof (concat_nodup_at _ _ _ (t_nodup _ _ T) Hc) as Hnd.
  destruct (write_slot_ok (set_items m1 h) w i b x c [] [x]) as (b' & m' & E & Hch' & Hpay & Hfr); [done| |done| | |].
  { rewrite app_nil_r. apply (chain_ext (items h)); [|done]. intros y Hy. cbn. apply Hm1. by intros ->. }
  { split; [done|]. split; [done|]. exists (mk_item d NULL hs). cbn. split; [apply lookup_insert_eq|done]. }
  { intros y Hy ->%list_elem_of_singleton. done. }
  assert (Hpay' : forall y, payload m' y = if decide (y = x) then Some (d, hs) else payload (items h) y).
  { intros y. rewrite Hpay. cbn [items set_items]. unfold payload. case_decide as Ey; [subst y; unfold m1; by rewrite lookup_insert_eq|].
    by rewrite Hm1. }
  assert (Hsome : forall y, is_Some (m' !! y) <-> y = x \/ is_Some (items h !! y)).
  { intros y. rewrite (payload_iff m1 m' y Hpay). unfold m1. destruct (decide (y = x)) as [->|];
      [rewrite lookup_insert_eq; split; [by left|by eexists]|rewrite lookup_insert_ne by done; naive_solver]. }
  pose proof (t_count _ _ T) as Hlen. pose proof (t_small _ _ T).
  eexists _, (<[i := c ++ [x]]> C). cbn [bind modify]. fold m1. rewrite E. split; [reflexivity|].
  cbn [num_items set_items set_buckets]. rewrite u64_small by lia. split; [|split; [|split; [done|exact Hsome]]].
  - apply (table_change h C i c (c ++ [x]) b' m' (num_items h + 1)); try done.
    + apply NoDup_app. split; [done|]. split; [|apply list.NoDup_singleton]. intros y Hy ->%list_elem_of_singleton. done.
    + intros y Hy Hyc. rewrite Hfr by done. cbn. apply Hm1. by intros ->.
    + intros y [Hy|Hy]%elem_of_app; [by left|right]. by apply list_elem_of_singleton in Hy as ->.
    + intros y. rewrite Hsome, elem_of_app, list_elem_of_singleton, <- (t_dom _ _ T y). split.
      * intros [->|Hy]; [by left; right|]. destruct (decide (y ∈ c)); [by left; left|by right].
      * intros [[Hy| ->]|[Hy _]]; [right; apply elem_of_concat; by exists i, c|by left|by right].
    + intros y dy hy Hy. rewrite Hpay'. case_decide as Ey; [intros [= <- <-]; by rewrite Ei|].
      intros Hp. apply elem_of_app in Hy as [Hy|Hy]; [by apply (t_hash _ _ T i c y)|].
      by apply list_elem_of_singleton in Hy.
    + intros y z dy dz hy hz. rewrite !Hpay'. do 2 case_decide; intros Hy Hz Ek; subst; try done.
      * injection Hy as <- _. assert (M !! key d = Some dz) by (apply HM; exists z, hz; by rewrite Ek). congruence.
      * injection Hz as <- _. assert (M !! key d = Some dy) by (apply HM; by exists y, hy). congruence.
      * by apply (t_keys _ _ T y z _ _ _ _ Hy Hz).
    + rewrite length_app. cbn [length]. lia.
  - unfold holds. cbn [items set_num_items set_items set_buckets].
    apply (holds_add (items h) m' M x d hs HM Hpay'); [|done]. unfold payload. by rewrite Hx.
Qed.

Lemma holds_payload h h' (M : gmap K Z) : (forall a, payload (items h') a = payload (items h) a) -> holds h M -> holds h' M.
Proof. intros Hp HM k d. rewrite (HM k d). split; intros (a & hs & Ha & E); exists a, hs; [by rewrite Hp|by rewrite <- Hp]. Qed.

Lemma fresh_payload h h' w w' :
  (forall a, payload (items h') a = payload (items h) a) -> brk w <= brk w' -> fresh h w -> fresh h' w'.
Proof. intros Hp Hb [Hw Hf]. split; [lia|]. intros a Ha. apply (payload_iff (items h) _ a Hp) in Ha. specialize (Hf a Ha). lia. Qed.

(** Insertion on every branch. *)
Lemma insert_ok h C w d M :
  table h C -> holds h M -> fresh h w -> num_items h + 1 < 2 ^ 59 ->
  exists r old h' C' w', OPENSSL_lh_insert d h w = Ok (r, old) h' w' /\ table h' C' /\ fresh h' w' /\
    ((r = 1 /\ old = default NULL (M !! key d) /\ holds h' (<[key d := d]> M)) \/
     (r = 0 /\ old = NULL /\ M !! key d = None /\ h' = h /\ alloc_ok (brk w) sizeof_LHASH_ITEM = false)).
Proof.
  intros T HM Hfr Hcnt. destruct (lookup_ok h C w d M T HM) as (b & c & l3 & l4 & Hc & Ec & Hb & Hch & Eget & Hend).
  unfold OPENSSL_lh_insert. cbn [bind]. rewrite Eget. cbn [bind]. rewrite Ec in Hch.
  destruct (read_slot_ok h w _ b l3 l4 Hb Hch) as (p & Er & Hp). rewrite Er.
  destruct Hend as [[-> HN]|(a & l5 & it & -> & Hit & Ek & HS)].
  - cbn in Hp. subst p. cbn [Z.eqb NULL negb bind]. unfold OPENSSL_malloc. destruct (alloc_ok (brk w) sizeof_LHASH_ITEM) eqn:Ea.
    2: { exists 0, NULL, h, C, w. split; [done|]. split; [done|]. split; [done|]. right. done. }
    destruct Hfr as [Hw Hfr]. rewrite (proj2 (Z.eqb_neq (brk w) NULL)) by (unfold NULL; lia). rewrite app_nil_r in *. subst c.
    destruct (append_ok h C (World (mem w) (blocks w) (brk w + Z.max 16 (align16 sizeof_LHASH_ITEM))) M _ b l3 d (brk w) T HM Hc Hb Hch)
      as (h1 & C1 & E1 & T1 & HM1 & Hn1 & Hs1); [done|done| |unfold NULL; lia|done|].
    { destruct (items h !! brk w) as [it|] eqn:E; [|done]. assert (brk w < brk w) by (apply Hfr; by rewrite E). lia. }
    cbn [bind modify] in *. destruct (write_slot _ _ _ _) as [u s w1| | |]; try discriminate. injection E1 as E1 Ew. rewrite E1, Ew.
    destruct (maybe_resize_ok h1 C1 (World (mem w) (blocks w) (brk w + Z.max 16 (align16 sizeof_LHASH_ITEM))) T1)
      as (h2 & C2 & w2 & -> & T2 & Hp2 & _ & _ & Hb2). cbn [brk] in Hb2.
    exists 1, NULL, h2, C2, w2. split; [done|]. split; [done|]. split.
    + apply (fresh_payload h1 h2 (World (mem w) (blocks w) (brk w + Z.max 16 (align16 sizeof_LHASH_ITEM)))); [done|done|].
      split; cbn [brk]; [lia|]. intros y [->|Hy]%Hs1; [lia|]. specialize (Hfr y Hy). lia.
    + left. rewrite HN. split; [done|]. split; [done|]. by apply (holds_payload h1).
  - destruct Hp as (-> & Ha & _). rewrite (proj2 (Z.eqb_neq a NULL)) by done. cbn [negb bind]. unfold load_item. rewrite Hit.
    destruct (replace_ok h C M w a it d T HM Hit Ek) as (h' & -> & T' & HM' & Hs & _). cbn [ret].
    exists 1, (data it), h', C, w. split; [done|]. split; [done|]. split; [|left; by rewrite HS].
    destruct Hfr as [Hw Hfr]. split; [done|]. intros x Hx. by apply Hfr, Hs.
Qed.

(** An item leaves the chain of its bucket. *)
Lemma unlink_ok h C w M i b l1 a l2 it d :
  table h C -> holds h M -> C !! i = Some (l1 ++ a :: l2) -> buckets h !! i = Some b -> chain (items h) b (l1 ++ a :: l2) ->
  items h !! a = Some it -> key (data it) = key d ->
  exists h' C', (write_slot (slot_after i l1) (next it);; free_item a;;
                 modify (fun h => set_num_items (u64 (num_items h - 1)) h)) h w = Ok tt h' w /\
    table h' C' /\ holds h' (delete (key d) M) /\ (forall y, is_Some (items h' !! y) -> is_Some (items h !! y)).
Proof.
  intros T HM Hc Hb Hch Hit Ek. destruct (chain_tail_nodup h C i l1 (a :: l2) T Hc) as (Hnd1 & Hnd2 & Hdis).
  apply list.NoDup_cons in Hnd2 as [Ha2 Hnd2]. assert (Ha1 : a ∉ l1) by (intros Hin; apply (Hdis a Hin); by left).
  assert (Hl2 : chain (items h) (next it) l2).
  { destruct (chain_tail _ _ _ _ Hch) as (q & _ & _ & it' & Hit' & Hq). rewrite Hit in Hit'. by injection Hit' as <-. }
  destruct (write_slot_ok h w i b (next it) l1 (a :: l2) l2 Hb Hch Hnd1 Hl2) as (b' & m1 & E & Hch1 & Hpay1 & Hfr1).
  { intros x Hx Hx2. apply (Hdis x Hx). by right. }
  assert (Hin : a ∈ concat C) by (apply elem_of_concat; exists i, (l1 ++ a :: l2); set_solver).
  assert (Hm1a : exists it1, m1 !! a = Some it1) by (apply (payload_iff (items h) m1 a Hpay1); by exists it).
  destruct Hm1a as (it1 & Hit1).
  assert (Hpay : forall y, payload (delete a m1) y = if decide (y = a) then None else payload (items h) y).
  { intros y. unfold payload in *. case_decide as Ey; [subst y; by rewrite lookup_delete_eq|]. rewrite lookup_delete_ne by done. apply Hpay1. }
  assert (Hsome : forall y, is_Some (delete a m1 !! y) <-> y <> a /\ is_Some (items h !! y)).
  { intros y. rewrite <- (payload_iff (items h) m1 y Hpay1). destruct (decide (y = a)) as [->|];
      [rewrite lookup_delete_eq; split; [by intros []|by intros []]|rewrite lookup_delete_ne by done; naive_solver]. }
  pose proof (t_count _ _ T) as Hlen. pose proof (t_small _ _ T).
  assert (Hpos : (0 < length (concat C))%nat) by (destruct (concat C); [by apply not_elem_of_nil in Hin|cbn; lia]).
  eexists _, (<[i := l1 ++ l2]> C). cbn [bind modify]. rewrite E. unfold free_item. cbn [items set_items]. rewrite Hit1.
  split; [reflexivity|]. cbn [num_items set_items set_buckets]. rewrite u64_small by lia. split; [|split; [|by intros y [_ ?]%Hsome]].
  - apply (table_change h C i (l1 ++ a :: l2) (l1 ++ l2) b' (delete a m1) (num_items h - 1)); try done.
    + apply NoDup_app. split; [done|]. split; [|done]. intros x Hx Hx2. apply (Hdis x Hx). by right.
    + apply (chain_ext m1); [|done]. intros y Hy. rewrite lookup_delete_ne; [done|]. intros <-. by apply elem_of_app in Hy as [?|?].
    + intros y Hy Hyc. rewrite lookup_delete_ne by (intros <-; apply Hyc; set_solver). apply Hfr1. intros Hy1. apply Hyc. set_solver.
    + intros y Hy. left. apply elem_of_app in Hy as [?|?]; set_solver.
    + intros y. rewrite Hsome, <- (t_dom _ _ T y). rewrite !elem_of_app, elem_of_cons. split.
      * intros [Hya Hy]. destruct (decide (y ∈ l1 ++ l2)) as [Hy2|Hy2]; rewrite elem_of_app in Hy2; [by left|right]. naive_solver.
      * intros [Hy|[Hy Hn]]; [|naive_solver]. split; [intros ->; naive_solver|].
        apply elem_of_concat. exists i, (l1 ++ a :: l2). rewrite elem_of_app, elem_of_cons. naive_solver.
    + intros y dy hy Hy. rewrite Hpay. case_decide; [done|]. apply (t_hash _ _ T i _ y dy hy Hc).
      rewrite elem_of_app, elem_of_cons. apply elem_of_app in Hy. naive_solver.
    + intros y z dy dz hy hz. rewrite !Hpay. do 2 case_decide; try done. apply (t_keys _ _ T).
    + rewrite !length_app. cbn [length]. lia.
    + lia.
  - unfold holds. cbn [items set_num_items set_items set_buckets].
    apply (holds_remove (items h) (delete a m1) M a d HM (t_keys _ _ T) Hpay). exists (data it), (hash it). unfold payload. by rewrite Hit.
Qed.

Lemma delete_ok h C w d M :
  table h C -> holds h M -> fresh h w ->
  exists h' C' w', OPENSSL_lh_delete d h w = Ok (default NULL (M !! key d)) h' w' /\ table h' C' /\ fresh h' w' /\
    holds h' (delete (key d) M).
Proof.
  intros T HM Hfr. destruct (lookup_ok h C w d M T HM) as (b & c & l3 & l4 & Hc & Ec & Hb & Hch & Eget & Hend).
  unfold OPENSSL_lh_delete. cbn [bind]. rewrite Eget. cbn [bind]. rewrite Ec in Hch.
  destruct (read_slot_ok h w _ b l3 l4 Hb Hch) as (p & Er & Hp). rewrite Er.
  destruct Hend as [[-> HN]|(a & l5 & it & -> & Hit & Ek & HS)].
  - cbn in Hp. subst p. cbn [Z.eqb NULL ret]. exists h, C, w. rewrite HN. split; [done|]. split; [done|]. split; [done|].
    by rewrite delete_id.
  - destruct Hp as (-> & Ha & _). rewrite (proj2 (Z.eqb_neq a NULL)) by done. cbn [bind]. unfold load_item. rewrite Hit. subst c.
    destruct (unlink_ok h C w M _ b l3 a l5 it d T HM Hc Hb Hch Hit Ek) as (h1 & C1 & E1 & T1 & HM1 & Hs1).
    cbn [bind modify] in *. destruct (write_slot _ _ _ _) as [u s w1| | |]; try discriminate.
    destruct (free_item a s w1) as [u' s' w2| | |]; try discriminate. injection E1 as E1 Ew. rewrite E1, Ew.
    destruct (maybe_resize_ok h1 C1 w T1) as (h2 & C2 & w3 & -> & T2 & Hp2 & _ & _ & Hb2). cbn [ret].
    exists h2, C2, w3. rewrite HS. split; [done|]. split; [done|]. split; [|by apply (holds_payload h1)].
    apply (fresh_payload h1 h2 w); [done|done|]. destruct Hfr as [Hw Hfr]. split; [done|]. intros y Hy. by apply Hfr, Hs1.
Qed.

End laws.

(** * What crypto/lhash/lhash.c promises: a table is a finite map from keys to objects.

    [lh_refines_map] runs any sequence of operations on a fresh table against the operations
    of [gmap] and releases every item at the end; [doall_visits] is about the iteration. *)

(** * The operations as data *)

Inductive lh_op :=
| lh_insert (d : Z)
| lh_delete (d : Z)
| lh_retrieve (d : Z)
| lh_num_items.

Section spec.
Context `{CEnv} {F : LHashFns} {K : Type} `{Countable K} (key : Z -> K) `{!LHashLaws K key}.

(** The C function for an operation; the second number is [*old_data]. *)
Definition run_lh_op (op : lh_op) : SM lhash_st (Z * Z) :=
  match op with
  | lh_insert d => OPENSSL_lh_insert d
  | lh_delete d => let* r := OPENSSL_lh_delete d in ret (r, NULL)
  | lh_retrieve d => let* r := OPENSSL_lh_retrieve d in ret (r, NULL)
  | lh_num_items => let* h := get in ret (OPENSSL_lh_num_items h, NULL)
  end.

Fixpoint run_lh_ops (ops : list lh_op) : SM lhash_st (list (Z * Z)) :=
  match ops with
  | [] => ret []
  | op :: ops => let* r := run_lh_op op in let* rs := run_lh_ops ops in ret (r :: rs)
  end.

(** The specification.  An insertion fails only when the allocator does, and then
    changes nothing. *)
Definition map_step (M : gmap K Z) (op : lh_op) (r : Z * Z) (M' : gmap K Z) : Prop :=
  match op with
  | lh_insert d => (r = (1, default NULL (M !! key d)) /\ M' = <[key d := d]> M) \/
                   (r = (0, NULL) /\ M !! key d = None /\ M' = M /\ exists p, alloc_ok p sizeof_LHASH_ITEM = false)
  | lh_delete d => r = (default NULL (M !! key d), NULL) /\ M' = delete (key d) M
  | lh_retrieve d => r = (default NULL (M !! key d), NULL) /\ M' = M
  | lh_num_items => r = (Z.of_nat (size M), NULL) /\ M' = M
  end.

Inductive map_run : gmap K Z -> list lh_op -> list (Z * Z) -> gmap K Z -> Prop :=
| map_run_nil M : map_run M [] [] M
| map_run_cons M op r M1 ops rs M2 : map_step M op r M1 -> map_run M1 ops rs M2 -> map_run M (op :: ops) (r :: rs) M2.

(** * Counting *)

(** The key of the object of an item. *)
Definition key_at (m : gmap Z lhash_item_st) (a : Z) : option K := key ∘ fst <$> payload m a.

Lemma holds_size h C (M : gmap K Z) : table key h C -> holds key h M -> size M = length (concat C).
Proof.
  intros T HM. rewrite <- (length_fmap (key_at (items h)) (concat C)).
  assert (Hnd : NoDup (key_at (items h) <$> concat C)).
  { apply NoDup_fmap_2_strong; [|apply T]. intros a b Ha Hb. apply (t_dom _ _ _ T) in Ha as [ita Ha], Hb as [itb Hb].
    unfold key_at. destruct (payload (items h) a) as [[da ha]|] eqn:Ea, (payload (items h) b) as [[db hb]|] eqn:Eb;
      unfold payload in Ea, Eb; rewrite ?Ha, ?Hb in *; try done. cbn. intros [= E]. apply (t_keys _ _ _ T a b da db ha hb); [| |done];
      unfold payload; by rewrite ?Ha, ?Hb. }
  rewrite <- (size_list_to_set (C := gset (option K)) _ Hnd), <- (length_map_to_list M), <- (length_fmap (Some ∘ fst)).
  assert (Hnd' : NoDup ((Some ∘ fst) <$> map_to_list M)).
  { rewrite list_fmap_compose. apply NoDup_fmap; [apply _|]. apply NoDup_fst_map_to_list. }
  rewrite <- (size_list_to_set (C := gset (option K)) _ Hnd'). f_equal. apply set_eq. intros k.
  rewrite !elem_of_list_to_set, !list_elem_of_fmap. split.
  - intros ([k' d] & -> & Hk%elem_of_map_to_list). apply HM in Hk as (a & hs & Hp & Ek). exists a. unfold key_at. rewrite Hp. cbn.
    rewrite Ek. split; [done|]. apply (t_dom _ _ _ T). by apply (payload_some _ _ _ Hp).
  - intros (a & -> & Ha). apply (t_dom _ _ _ T) in Ha as [it Hit]. exists (key (data it), data it). unfold key_at, payload. rewrite Hit.
    split; [done|]. apply elem_of_map_to_list, HM. exists a, (hash it). unfold payload. by rewrite Hit.
Qed.

(** * Releasing a table *)

Lemma nodup_size (m : gmap Z lhash_item_st) l : NoDup l -> (forall a, a ∈ l -> is_Some (m !! a)) -> (length l <= size m)%nat.
Proof.
  intros Hnd Hl. rewrite <- (size_list_to_set (C := gset Z) l Hnd), <- size_dom. apply subseteq_size. intros a.
  rewrite elem_of_list_to_set, elem_of_dom. apply Hl.
Qed.

Lemma free_chain_ok w l : forall fuel p h, chain (items h) p l -> NoDup l -> (length l < fuel)%nat ->
  exists m', loop fuel free_step p h w = Ok tt (set_items m' h) w /\
    forall a, m' !! a = if decide (a ∈ l) then None else items h !! a.
Proof.
  induction l as [|a l IH]; intros fuel p h Hc Hnd Hf; (destruct fuel as [|fuel]; [lia|]); cbn [loop bind]; unfold free_step at 1.
  - cbn in Hc. subst p. cbn [Z.eqb NULL ret]. exists (items h). split; [by destruct h|]. intros a. by rewrite decide_False by apply not_elem_of_nil.
  - destruct Hc as (-> & Ha & it & Hit & Hc). apply list.NoDup_cons in Hnd as [Hal Hnd]. rewrite (proj2 (Z.eqb_neq a NULL)) by done.
    cbn [bind]. unfold load_item. rewrite Hit. unfold free_item. rewrite Hit. cbn [ret].
    destruct (IH fuel (next it) (set_items (delete a (items h)) h)) as (m' & E & Hm'); cbn [items set_items] in *; [|done|cbn in Hf; lia|].
    + apply (chain_ext (items h)); [|done]. intros x Hx. rewrite lookup_delete_ne; [done|]. by intros ->.
    + exists m'. split; [exact E|]. intros x. rewrite Hm'. destruct (decide (x = a)) as [->|Hne].
      * rewrite decide_False by done. rewrite decide_True by (by left). apply lookup_delete_eq.
      * rewrite lookup_delete_ne by done. destruct (decide (x ∈ l)); [rewrite decide_True by (by right)|rewrite decide_False by set_solver]; done.
Qed.

Lemma free_buckets_ok w R : forall fuel i h,
  (forall k c, R !! k = Some c -> exists p, buckets h !! (i + k)%nat = Some p /\ chain (items h) p c) ->
  Z.of_nat (i + length R) = num_buckets h -> NoDup (concat R) -> (length R < fuel)%nat ->
  exists m', loop fuel free_bucket (Z.of_nat i) h w = Ok tt (set_items m' h) w /\
    forall a, m' !! a = if decide (a ∈ concat R) then None else items h !! a.
Proof.
  induction R as [|c R IH]; intros fuel i h HR Hi Hnd Hf; (destruct fuel as [|fuel]; [lia|]); cbn [loop bind];
    unfold free_bucket at 1; cbn [bind get length concat] in *.
  - rewrite (proj2 (Z.leb_le _ _)) by lia. cbn [ret]. exists (items h). split; [by destruct h|]. intros a.
    by rewrite decide_False by apply not_elem_of_nil.
  - rewrite (proj2 (Z.leb_gt _ _)) by lia. destruct (HR 0%nat c eq_refl) as (p & Hp & Hpc). rewrite Nat.add_0_r in Hp.
    unfold array_get at 1. rewrite Nat2Z.id, Hp, (proj2 (Z.leb_le 0 _)) by lia. cbn [bind].
    apply NoDup_app in Hnd as (Hndc & Hdis & Hnd).
    destruct (free_chain_ok w c (S (size (items h))) p h Hpc Hndc) as (m1 & -> & Hm1).
    { apply Nat.lt_succ_r, nodup_size; [done|]. intros a Ha. destruct (chain_live _ _ _ a Hpc Ha) as (it & Hit & _). by exists it. }
    cbn [ret]. replace (Z.of_nat i + 1) with (Z.of_nat (S i)) by lia.
    destruct (IH fuel (S i) (set_items m1 h)) as (m' & E & Hm'); cbn [items set_items buckets num_buckets]; [|lia|done|lia|].
    + intros k d Hk. destruct (HR (S k) d Hk) as (q & Hq & Hqd). exists q. rewrite <- Nat.add_succ_comm in Hq. split; [done|].
      apply (chain_ext (items h)); [|done]. intros x Hx. rewrite Hm1. rewrite decide_False; [done|]. intros Hxc. apply (Hdis x Hxc).
      apply elem_of_concat. by exists k, d.
    + exists m'. split; [exact E|]. intros a. rewrite Hm'. cbn [items set_items]. rewrite Hm1.
      destruct (decide (a ∈ concat R)), (decide (a ∈ c)), (decide (a ∈ c ++ concat R)); set_solver.
Qed.

(** [OPENSSL_lh_free] frees every item once and leaves none. *)
Lemma free_ok h C w : table key h C -> OPENSSL_lh_free h w = Ok tt (set_items ∅ h) w.
Proof.
  intros T. unfold OPENSSL_lh_free. cbn [bind get]. pose proof (t_len _ _ _ T).
  destruct (free_buckets_ok w C (S (Z.to_nat (num_buckets h))) 0 h (t_chains _ _ _ T)) as (m' & E & Hm'); [lia|apply T|lia|].
  change (Z.of_nat 0) with 0 in E. rewrite E. do 2 f_equal. apply map_empty. intros a. rewrite Hm'. case_decide as Ha; [done|].
  destruct (items h !! a) eqn:Ea; [|done]. destruct Ha. apply (t_dom _ _ _ T). by rewrite Ea.
Qed.

(** * A fresh table *)

Definition new_table : lhash_st := mk_lhash 0 (replicate (Z.to_nat kMinNumBuckets) NULL) kMinNumBuckets 0 ∅.

Lemma new_table_ok : table key new_table (replicate (Z.to_nat kMinNumBuckets) []) /\ holds key new_table ∅.
Proof.
  destruct (empty_chains ∅ (Z.to_nat kMinNumBuckets)) as [[Hl Hch] Hc]. split.
  - split; cbn [num_buckets buckets items num_items new_table]; rewrite ?Hc; try done; try lia.
    + apply NoDup_nil_2.
    + intros a. split; [by intros ?%not_elem_of_nil|]. intros [it Hit]. by rewrite lookup_empty in Hit.
  - intros k d. rewrite lookup_empty. split; [done|]. intros (a & hs & Hp & _). unfold payload in Hp. cbn in Hp. by rewrite lookup_empty in Hp.
Qed.

Lemma new_ok {T} (s : T) w : 0 < brk w ->
  exists w', OPENSSL_lh_new s w = Ok (if alloc_ok (brk w) sizeof_LHASH
      then if alloc_ok (brk w + 48) (sizeof_pointer * kMinNumBuckets) then Some new_table else None else None) s w' /\ 0 < brk w'.
Proof.
  intros Hw. unfold OPENSSL_lh_new. cbn [bind]. unfold OPENSSL_malloc. destruct (alloc_ok (brk w) sizeof_LHASH); [|by exists w].
  rewrite (proj2 (Z.eqb_neq (brk w) NULL)) by (unfold NULL; lia). cbn [bind brk].
  change (Z.max 16 (align16 sizeof_LHASH)) with 48. destruct (alloc_ok (brk w + 48) _).
  - rewrite (proj2 (Z.eqb_neq (brk w + 48) NULL)) by (unfold NULL; lia). eexists. split; [reflexivity|]. cbn.
    change (align16 128) with 128. lia.
  - eexists. split; [reflexivity|]. cbn. lia.
Qed.

(** * The refinement *)

(** [h] is a table for [M], with the allocator still ahead of it. *)
Definition represents (M : gmap K Z) (h : lhash_st) (w : world) : Prop :=
  exists C, table key h C /\ holds key h M /\ fresh h w.

Lemma represents_count M h w : represents M h w -> num_items h = Z.of_nat (size M).
Proof. intros (C & T & HM & _). rewrite (t_count _ _ _ T). by rewrite (holds_size h C M T HM). Qed.

(** One operation. *)
Lemma lh_op_ok op h w M :
  represents M h w -> Z.of_nat (size M) + 1 < 2 ^ 59 ->
  exists r h' w' M', run_lh_op op h w = Ok r h' w' /\ map_step M op r M' /\ represents M' h' w' /\ (size M' <= S (size M))%nat.
Proof.
  intros R Hn. pose proof (represents_count M h w R) as Hnum. destruct R as (C & T & HM & Hfr).
  destruct op as [d|d|d|]; cbn [run_lh_op map_step bind get].
  - destruct (insert_ok key h C w d M T HM Hfr) as (r & old & h' & C' & w' & -> & T' & Hfr' & Hc); [lia|].
    destruct Hc as [(-> & -> & HM')|(-> & -> & HN & Eh & Ha)].
    + eexists _, h', w', _. split; [done|]. split; [by left|]. split; [by exists C'|]. pose proof (map_size_insert (key d) d M) as Hs.
      destruct (M !! key d); cbn [id] in Hs; lia.
    + eexists _, h', w', M. split; [done|]. split; [right; split_and!; [done..|by eexists]|]. split; [|lia].
      subst h'. by exists C'.
  - destruct (delete_ok key h C w d M T HM Hfr) as (h' & C' & w' & -> & T' & Hfr' & HM'). cbn [ret].
    eexists _, h', w', _. split; [done|]. split; [done|]. split; [by exists C'|]. pose proof (map_size_delete (key d) M) as Hs. rewrite Hs. destruct (M !! key d); cbn; lia.
  - rewrite (retrieve_ok key h C w d M T HM). cbn [ret]. eexists _, h, w, _. split; [done|]. split; [done|]. split; [by exists C|lia].
  - cbn [ret]. eexists _, h, w, _. split; [done|]. unfold OPENSSL_lh_num_items. rewrite Hnum. split; [done|]. split; [by exists C|lia].
Qed.

Lemma lh_ops_ok ops : forall h w M,
  represents M h w -> Z.of_nat (size M + length ops) < 2 ^ 59 ->
  exists rs h' w' M', run_lh_ops ops h w = Ok rs h' w' /\ map_run M ops rs M' /\ represents M' h' w'.
Proof.
  induction ops as [|op ops IH]; intros h w M R Hn; cbn [run_lh_ops bind length] in *.
  - exists [], h, w, M. split; [done|]. split; [constructor|done].
  - destruct (lh_op_ok op h w M R) as (r & h1 & w1 & M1 & -> & Hs & R1 & Hle); [lia|]. cbn [bind].
    destruct (IH h1 w1 M1 R1) as (rs & h2 & w2 & M2 & -> & Hr & R2); [lia|]. cbn [ret].
    exists (r :: rs), h2, w2, M2. split; [done|]. split; [by apply (map_run_cons _ _ _ M1)|done].
Qed.

(** C28: A hash table is a finite map.  [OPENSSL_lh_new] returns NULL or an empty table; any
    sequence of insertions, deletions, look-ups and counts on it has defined behaviour, whatever
    allocations fail and however often the array of buckets is rebuilt, and returns what the map
    returns, where an insertion that cannot allocate returns 0 and changes nothing; at the end
    [OPENSSL_lh_free] releases every item exactly once. *)
Theorem lh_refines_map ops w :
  0 < brk w -> Z.of_nat (length ops) < 2 ^ 59 ->
  (exists w1, OPENSSL_lh_new tt w = Ok None tt w1) \/
  (exists h w1 rs h' w' M, OPENSSL_lh_new tt w = Ok (Some h) tt w1 /\
     run_lh_ops ops h w1 = Ok rs h' w' /\ map_run ∅ ops rs M /\
     OPENSSL_lh_num_items h' = Z.of_nat (size M) /\
     (forall d, OPENSSL_lh_retrieve d h' w' = Ok (default NULL (M !! key d)) h' w') /\
     exists h'', OPENSSL_lh_free h' w' = Ok tt h'' w' /\ items h'' = ∅).
Proof.
  intros Hw Hn. destruct (new_ok tt w Hw) as (w1 & E & Hw1). rewrite E.
  destruct (alloc_ok _ sizeof_LHASH); [|left; by eexists]. destruct (alloc_ok _ (_ * _)); [right|left; by eexists].
  destruct new_table_ok as [T0 H0']. destruct (lh_ops_ok ops new_table w1 ∅) as (rs & h' & w' & M & Er & Hr & R).
  { eexists. split; [exact T0|]. split; [exact H0'|]. split; [done|]. intros a [it Hit]. cbn in Hit. by rewrite lookup_empty in Hit. }
  { rewrite map_size_empty. lia. }
  exists new_table, w1, rs, h', w', M. split; [done|]. split; [done|]. split; [done|].
  split; [by apply represents_count in R|]. destruct R as (C & T & HM & _). split; [intros d; by apply (retrieve_ok key h' C)|].
  exists (set_items ∅ h'). split; [by apply (free_ok h' C)|done].
Qed.

(** * Looking up by key *)

Lemma loop_find_ext (f g : Z -> bool) (Hfg : forall x, f x = g x) fuel : forall s (h : lhash_st) w,
  loop fuel (find_step f) s h w = loop fuel (find_step g) s h w.
Proof.
  induction fuel as [|fuel IH]; intros s h w; [done|]. cbn [loop bind]. unfold find_step at 1 3. cbn [bind].
  destruct (read_slot s h w) as [cur h1 w1| | |]; try done. destruct (cur =? NULL); [done|]. cbn [bind].
  destruct (load_item cur h1 w1) as [it h2 w2| | |]; try done. cbn [ret]. rewrite Hfg. destruct (g (data it)); [done|apply IH].
Qed.

(** A look-up by key is a look-up with any object of that key. *)
Lemma retrieve_key_ok h w k kh cmp_key d :
  kh = u32 (hash_func d) -> (forall x, (cmp_key k x =? 0) = (cmp_func x d =? 0)) ->
  OPENSSL_lh_retrieve_key k kh cmp_key h w = OPENSSL_lh_retrieve d h w.
Proof.
  intros -> Hc. unfold OPENSSL_lh_retrieve_key, OPENSSL_lh_retrieve, get_next_ptr_by_key, get_next_ptr_and_hash. cbn [bind get].
  rewrite (loop_find_ext _ _ Hc). destruct (loop _ _ _ h w) as [s h1 w1| | |]; done.
Qed.

(** * Visiting every object *)

(** A callback that leaves the table alone; [act] is what it does to the world. *)
Context (func : Z -> SM lhash_st unit) (act : Z -> world -> world).
Hypothesis quiet : forall d h w, func d h w = Ok tt h (act d w).

Definition visit (l : list Z) (w : world) : world := foldl (fun w d => act d w) w l.

Definition object (m : gmap Z lhash_item_st) (a : Z) : Z := default NULL (data <$> m !! a).

Lemma doall_chain_ok l : forall fuel p h w, chain (items h) p l -> (length l < fuel)%nat ->
  loop fuel (doall_step func) p h w = Ok tt h (visit (object (items h) <$> l) w).
Proof.
  induction l as [|a l IH]; intros fuel p h w Hc Hf; (destruct fuel as [|fuel]; [lia|]); cbn [loop bind]; unfold doall_step at 1.
  - cbn in Hc. by subst p.
  - destruct Hc as (-> & Ha & it & Hit & Hc). rewrite (proj2 (Z.eqb_neq a NULL)) by done.
    cbn [bind]. unfold load_item. rewrite Hit, quiet. cbn [ret]. rewrite IH; [|done|cbn in Hf; lia].
    unfold visit. cbn. replace (object (items h) a) with (data it); [done|]. unfold object. by rewrite Hit.
Qed.

Lemma doall_buckets_ok n R : forall fuel i h w,
  (forall k c, R !! k = Some c -> exists p, buckets h !! (i + k)%nat = Some p /\ chain (items h) p c) ->
  Z.of_nat (i + length R) = num_buckets h -> Forall (fun c => length c < n)%nat R -> (length R < fuel)%nat ->
  loop fuel (doall_bucket func n) (Z.of_nat i) h w = Ok tt h (visit (object (items h) <$> concat R) w).
Proof.
  induction R as [|c R IH]; intros fuel i h w HR Hi Hn Hf; (destruct fuel as [|fuel]; [lia|]); cbn [loop bind];
    unfold doall_bucket at 1; cbn [bind get length concat] in *.
  - by rewrite (proj2 (Z.leb_le _ _)) by lia.
  - rewrite (proj2 (Z.leb_gt _ _)) by lia. destruct (HR 0%nat c eq_refl) as (p & Hp & Hpc). rewrite Nat.add_0_r in Hp.
    unfold array_get at 1. rewrite Nat2Z.id, Hp, (proj2 (Z.leb_le 0 _)) by lia. cbn [bind].
    apply Forall_cons_1 in Hn as [Hc Hn]. rewrite (doall_chain_ok c n p h w Hpc Hc). cbn [ret].
    replace (Z.of_nat i + 1) with (Z.of_nat (S i)) by lia. rewrite IH; [|clear IH|lia|done|lia].
    + rewrite fmap_app. unfold visit. by rewrite foldl_app.
    + intros k d Hk. destruct (HR (S k) d Hk) as (q & Hq & Hqd). exists q. by rewrite <- Nat.add_succ_comm in Hq.
Qed.

Lemma objects_of h C (M : gmap K Z) : table key h C -> holds key h M -> object (items h) <$> concat C ≡ₚ (map_to_list M).*2.
Proof.
  intros T HM.
  assert (Hp : (fun a => (key (object (items h) a), object (items h) a)) <$> concat C ≡ₚ map_to_list M).
  { apply NoDup_Permutation.
    - apply NoDup_fmap_2_strong; [|apply T]. intros a b Ha Hb E. apply (t_dom _ _ _ T) in Ha as [ita Ha], Hb as [itb Hb].
      unfold object in E. rewrite Ha, Hb in E. injection E as E _. cbn in E.
      by apply (t_keys _ _ _ T a b (data ita) (data itb) (hash ita) (hash itb)); [unfold payload; by rewrite Ha|unfold payload; by rewrite Hb|].
    - apply NoDup_map_to_list.
    - intros [k d]. rewrite elem_of_map_to_list, (HM k d), list_elem_of_fmap. split.
      + intros (a & E & Ha). apply (t_dom _ _ _ T) in Ha as [it Hit]. unfold object in E. rewrite Hit in E. cbn in E. injection E as -> ->.
        exists a, (hash it). unfold payload. by rewrite Hit.
      + intros (a & hs & Hp & <-). exists a. unfold object. pose proof Hp as [it Hit]%payload_some. unfold payload in Hp. rewrite Hit in Hp |- *.
        cbn in Hp. injection Hp as <- _. split; [done|]. apply (t_dom _ _ _ T). by rewrite Hit. }
  rewrite <- Hp, <- list_fmap_compose. done.
Qed.

(** C29: [OPENSSL_lh_doall_arg] calls a callback that leaves the table alone on every object of
    the table exactly once, returns, and leaves the same map and the same [callback_depth]: the
    resize that comes last never loses an object. *)
Theorem doall_visits h w M fuel :
  represents M h w -> callback_depth h < UINT_MAX - 1 -> (size M < fuel)%nat ->
  (forall d w, brk w <= brk (act d w)) ->
  exists l h' w', l ≡ₚ (map_to_list M).*2 /\ OPENSSL_lh_doall_arg func fuel h w = Ok tt h' w' /\
    represents M h' w' /\ callback_depth h' = callback_depth h /\
    lh_maybe_resize h (visit l w) = Ok tt h' w'.
Proof.
  intros (C & T & HM & Hfr) Hd Hf Hact. unfold OPENSSL_lh_doall_arg. cbn [bind modify get].
  rewrite (proj2 (Z.ltb_lt (callback_depth h) _)) by lia. set (h1 := set_callback_depth _ h). pose proof (t_len _ _ _ T).
  assert (E := doall_buckets_ok fuel C (S (Z.to_nat (num_buckets h1))) 0 h1 w (t_chains _ _ _ T)).
  change (Z.of_nat 0) with 0 in E. rewrite E; clear E; [|cbn; lia| |cbn; lia].
  2: { apply List.Forall_forall. intros c Hc%list_elem_of_In. apply list_elem_of_lookup in Hc as (k & Hk).
       pose proof (bucket_length key h C k c T Hk). rewrite <- (items_size key h C T), <- (holds_size h C M T HM) in *. lia. }
  assert (Hb : forall l v, brk v <= brk (visit l v)).
  { induction l as [|d l IH]; intros v; cbn; [lia|]. pose proof (Hact d v). pose proof (IH (act d v)). unfold visit in *. lia. }
  set (w1 := visit _ w). cbn [bind]. unfold h1 at 1. cbn [callback_depth set_callback_depth].
  rewrite (proj2 (Z.ltb_lt (callback_depth h + 1) _)) by lia.
  replace (set_callback_depth _ h1) with h by (destruct h; unfold h1, set_callback_depth; cbn; f_equal; lia).
  destruct (maybe_resize_ok key h C w1 T) as (h2 & C2 & w2 & E & T2 & Hp2 & _ & Hd2 & Hb2).
  exists (object (items h) <$> concat C), h2, w2. rewrite E. split; [by apply objects_of|]. split; [done|]. split; [|done].
  exists C2. split; [done|]. split; [by apply (holds_payload key h)|]. apply (fresh_payload h h2 w1); [done|done|].
  destruct Hfr as [Hw Hfr]. pose proof (Hb (object (items h) <$> concat C) w) as Hbw. change (brk w <= brk w1) in Hbw.
  split; [lia|]. intros a Ha. specialize (Hfr a Ha). lia.
Qed.

End spec.

(** * Examples *)

(** Objects are numbers, the key is what is left of the last digit; keys that are equal modulo
    five collide. *)
Definition tens (d : Z) : Z := d / 10.

Instance tens_fns : LHashFns := {| hash_func d := tens d mod 5; cmp_func a b := tens a - tens b |}.

Instance tens_laws : LHashLaws Z tens.
Proof. split; cbn; [intros a b; split; lia|by intros a b ->]. Qed.

Definition plenty : CEnv := {| junk _ := 0; alloc_ok _ _ := true |}.

(** The allocator runs out at address 1000. *)
Definition scarce : CEnv := {| junk _ := 0; alloc_ok p _ := p <? 1000 |}.

Definition insertions (n : nat) : list lh_op := map (fun i => lh_insert (10 * Z.of_nat i)) (seq 1 n).

Definition results (r : res lhash_st (list (Z * Z))) : option (list (Z * Z) * Z * Z) :=
  match r with Ok l h _ => Some (l, num_items h, num_buckets h) | _ => None end.

(** The array doubles with the 48th item, and shrinks again. *)
Example grows :
  (fun r => r.2) <$> results (run_lh_ops (H := plenty) (insertions 48) new_table (World ∅ ∅ 16)) = Some 32.
Proof. vm_compute. reflexivity. Qed.

Example replaces :
  results (run_lh_ops (H := plenty) [lh_insert 31; lh_insert 82; lh_insert 33; lh_retrieve 39; lh_delete 80; lh_num_items; lh_retrieve 82]
             new_table (World ∅ ∅ 16)) = Some ([(1, 0); (1, 0); (1, 31); (33, 0); (82, 0); (1, 0); (0, 0)], 1, 16).
Proof. vm_compute. reflexivity. Qed.

Example runs_out :
  (fun r => (last r.1.1, r.1.2)) <$> results (run_lh_ops (H := scarce) (insertions 40) new_table (World ∅ ∅ 16)) = Some (Some (0, 0), 31).
Proof. vm_compute. reflexivity. Qed.

Lemma lh_refines_map_witness :
  exists h w1 rs h' w' M, OPENSSL_lh_new (H := plenty) tt (World ∅ ∅ 16) = Ok (Some h) tt w1 /\
    run_lh_ops (H := plenty) [lh_insert 31; lh_insert 33; lh_delete 38] h w1 = Ok rs h' w' /\
    map_run (H := plenty) tens ∅ [lh_insert 31; lh_insert 33; lh_delete 38] rs M /\ OPENSSL_lh_num_items h' = Z.of_nat (size M).
Proof.
  destruct (lh_refines_map (H := plenty) tens [lh_insert 31; lh_insert 33; lh_delete 38] (World ∅ ∅ 16))
    as [[w1 E]|(h & w1 & rs & h' & w' & M & E1 & E2 & E3 & E4 & _)]; [reflexivity|reflexivity|discriminate E|].
  exists h, w1, rs, h', w', M. split; [exact E1|]. split; [exact E2|]. split; [exact E3|exact E4].
Defined.

(** A callback that sums the objects it sees in the world's first byte. *)
Definition add_up (d : Z) (w : world) : world := World (<[0 := default 0 (mem w !! 0) + d]> (mem w)) (blocks w) (brk w).

Lemma two_objects :
  exists rs h w, run_lh_ops (H := plenty) [lh_insert 31; lh_insert 82] new_table (World ∅ ∅ 16) = Ok rs h w /\
    represents tens (<[8 := 82]> (<[3 := 31]> ∅)) h w /\ callback_depth h = 0.
Proof.
  destruct (new_table_ok tens) as [T HM].
  destruct (lh_ops_ok (H := plenty) tens [lh_insert 31; lh_insert 82] new_table (World ∅ ∅ 16) ∅) as (rs & h & w & M & E & Hr & R).
  - eexists. split; [exact T|]. split; [exact HM|]. split; [done|]. intros a [it Hit]. cbn in Hit. by rewrite lookup_empty in Hit.
  - rewrite map_size_empty. cbn. lia.
  - exists rs, h, w. split; [done|]. split; [|vm_compute in E; by injection E as _ <- _].
    inversion Hr as [|? ? ? M1 ? ? ? H1 Hr1]; subst. inversion Hr1 as [|? ? ? M2 ? ? ? H2 Hr2]; subst. inversion Hr2; subst.
    destruct H1 as [[_ ->]|(_ & _ & _ & p & ?)]; [|done]. destruct H2 as [[_ ->]|(_ & _ & _ & p & ?)]; [|done]. done.
Qed.

Lemma doall_visits_witness :
  exists rs h w l h' w', run_lh_ops (H := plenty) [lh_insert 31; lh_insert 82] new_table (World ∅ ∅ 16) = Ok rs h w /\
    l ≡ₚ [31; 82] /\ OPENSSL_lh_doall_arg (H := plenty) (fun d h w => Ok tt h (add_up d w)) 3 h w = Ok tt h' w'.
Proof.
  destruct two_objects as (rs & h & w & Er & R & Hd).
  destruct (doall_visits (H := plenty) tens (fun d h w => Ok tt h (add_up d w)) add_up (fun _ _ _ => eq_refl) h w _ 3 R)
    as (l & h' & w' & Hl & E & _).
  - rewrite Hd. reflexivity.
  - vm_compute. lia.
  - intros d w'. cbn. lia.
  - exists rs, h, w, l, h', w'. split; [exact Er|]. split; [|exact E]. rewrite Hl. vm_compute. reflexivity.
Defined.
