(* ===== verification/LdbCoding.v ===== *)
(** LevelDB's util/coding.h, util/coding.cc and util/hash.cc.

    A [std::string] and the bytes a [Slice] stands for are lists of bytes; a pair of
    pointers [p, limit] is the list of the bytes between them, and a returned pointer is
    the rest of the list.  The pod is built for a little-endian machine. *)
From stdpp Require Import base list numbers.
From Stdlib Require Import ZArith Lia.
From S2P Require Import Prelude.

Definition size (l : list Z) : Z := Z.of_nat (length l).

Definition kLittleEndian : bool := true.

(** * Fixed-width integers *)

Definition EncodeFixed32 (value : Z) : list Z :=
  if kLittleEndian then le_bytes 4 value
  else [u8 (Z.land value 0xff); u8 (Z.land (Z.shiftr value 8) 0xff);
        u8 (Z.land (Z.shiftr value 16) 0xff); u8 (Z.land (Z.shiftr value 24) 0xff)].

Definition EncodeFixed64 (value : Z) : list Z :=
  if kLittleEndian then le_bytes 8 value
  else [u8 (Z.land value 0xff); u8 (Z.land (Z.shiftr value 8) 0xff);
        u8 (Z.land (Z.shiftr value 16) 0xff); u8 (Z.land (Z.shiftr value 24) 0xff);
        u8 (Z.land (Z.shiftr value 32) 0xff); u8 (Z.land (Z.shiftr value 40) 0xff);
        u8 (Z.land (Z.shiftr value 48) 0xff); u8 (Z.land (Z.shiftr value 56) 0xff)].

Definition PutFixed32 (dst : list Z) (value : Z) : list Z := dst ++ EncodeFixed32 value.
Definition PutFixed64 (dst : list Z) (value : Z) : list Z := dst ++ EncodeFixed64 value.

(** [None]: the read leaves the buffer. *)
Definition DecodeFixed32 (ptr : list Z) : option Z :=
  match ptr with
  | b0 :: b1 :: b2 :: b3 :: _ =>
      Some (if kLittleEndian then le_val [b0; b1; b2; b3]
            else Z.lor (Z.lor (Z.lor b0 (u32 (Z.shiftl b1 8))) (u32 (Z.shiftl b2 16))) (u32 (Z.shiftl b3 24)))
  | _ => None
  end.

Definition DecodeFixed64 (ptr : list Z) : option Z :=
  if kLittleEndian then
    if (length ptr <? 8)%nat then None else Some (le_val (take 8 ptr))
  else
    match DecodeFixed32 ptr, DecodeFixed32 (drop 4 ptr) with
    | Some lo, Some hi => Some (Z.lor (u64 (Z.shiftl hi 32)) lo)
    | _, _ => None
    end.

(** * Varints *)

Definition EncodeVarint32 (v : Z) : list Z :=
  let B := 128 in
  if v <? Z.shiftl 1 7 then [u8 v]
  else if v <? Z.shiftl 1 14 then [u8 (Z.lor v B); u8 (Z.shiftr v 7)]
  else if v <? Z.shiftl 1 21 then [u8 (Z.lor v B); u8 (Z.lor (Z.shiftr v 7) B); u8 (Z.shiftr v 14)]
  else if v <? Z.shiftl 1 28 then
    [u8 (Z.lor v B); u8 (Z.lor (Z.shiftr v 7) B); u8 (Z.lor (Z.shiftr v 14) B); u8 (Z.shiftr v 21)]
  else [u8 (Z.lor v B); u8 (Z.lor (Z.shiftr v 7) B); u8 (Z.lor (Z.shiftr v 14) B); u8 (Z.lor (Z.shiftr v 21) B); u8 (Z.shiftr v 28)].

Definition PutVarint32 (dst : list Z) (v : Z) : list Z := dst ++ EncodeVarint32 v.

(** The loop of [EncodeVarint64]; a 64-bit value has at most ten groups of seven bits. *)
Fixpoint varint64_loop (n : nat) (v : Z) : list Z :=
  match n with
  | O => [u8 v]
  | S n => if 128 <=? v then u8 (Z.lor v 128) :: varint64_loop n (Z.shiftr v 7) else [u8 v]
  end.

Definition EncodeVarint64 (v : Z) : list Z := varint64_loop 9 v.

Definition PutVarint64 (dst : list Z) (v : Z) : list Z := dst ++ EncodeVarint64 v.

(** [value.size()] is converted to 32 bits. *)
Definition PutLengthPrefixedSlice (dst value : list Z) : list Z :=
  PutVarint32 dst (u32 (Z.of_nat (length value))) ++ value.

Fixpoint length_loop (n : nat) (v len : Z) : Z :=
  match n with
  | O => len
  | S n => if 128 <=? v then length_loop n (Z.shiftr v 7) (len + 1) else len
  end.

Definition VarintLength (v : Z) : Z := length_loop 9 v 1.

(** The loops of the two readers: 32 or 64 bits, with the last shift allowed. *)
Fixpoint varint_loop (w last shift result : Z) (p : list Z) : option (Z * list Z) :=
  if shift <=? last then
    match p with
    | [] => None
    | byte :: p =>
        if negb (Z.land byte 128 =? 0)
        then varint_loop w last (shift + 7) (Z.lor result (Z.shiftl (Z.land byte 127) shift mod 2 ^ w)) p
        else Some (Z.lor result (Z.shiftl byte shift mod 2 ^ w), p)
    end
  else None.

Definition GetVarint32PtrFallback (p : list Z) : option (Z * list Z) := varint_loop 32 28 0 0 p.

Definition GetVarint32Ptr (p : list Z) : option (Z * list Z) :=
  match p with
  | result :: rest => if Z.land result 128 =? 0 then Some (result, rest) else GetVarint32PtrFallback p
  | [] => GetVarint32PtrFallback p
  end.

Definition GetVarint32 (input : list Z) : option (Z * list Z) := GetVarint32Ptr input.

Definition GetVarint64Ptr (p : list Z) : option (Z * list Z) := varint_loop 64 63 0 0 p.

Definition GetVarint64 (input : list Z) : option (Z * list Z) := GetVarint64Ptr input.

(** The version on pointers and the one on slices. *)
Definition GetLengthPrefixedSlicePtr (p : list Z) : option (list Z * list Z) :=
  match GetVarint32Ptr p with
  | None => None
  | Some (len, p) => if Z.of_nat (length p) <? len then None else Some (take (Z.to_nat len) p, drop (Z.to_nat len) p)
  end.

Definition GetLengthPrefixedSlice (input : list Z) : option (list Z * list Z) :=
  match GetVarint32 input with
  | Some (len, input) =>
      if len <=? Z.of_nat (length input) then Some (take (Z.to_nat len) input, drop (Z.to_nat len) input) else None
  | None => None
  end.

(** * util/hash.cc *)

Definition hash_m : Z := 0xc6a4a793.

(** The loop over words, and the rest of at most three bytes. *)
Fixpoint hash_words (h : Z) (data : list Z) : Z * list Z :=
  match data with
  | b0 :: b1 :: b2 :: b3 :: rest =>
      let w := le_val [b0; b1; b2; b3] in
      let h := u32 (h + w) in
      let h := u32 (h * hash_m) in
      let h := Z.lxor h (Z.shiftr h 16) in
      hash_words h rest
  | _ => (h, data)
  end.

Definition hash_rest (h : Z) (data : list Z) : Z :=
  let last h b0 := let h := u32 (h + b0) in let h := u32 (h * hash_m) in Z.lxor h (Z.shiftr h 24) in
  match data with
  | [b0; b1; b2] =>
      let h := u32 (h + Z.shiftl b2 16) in
      let h := u32 (h + Z.shiftl b1 8) in
      last h b0
  | [b0; b1] => let h := u32 (h + Z.shiftl b1 8) in last h b0
  | [b0] => last h b0
  | _ => h
  end.

Definition Hash (data : list Z) (seed : Z) : Z :=
  let n := Z.of_nat (length data) in
  let h := Z.lxor seed (u32 (n * hash_m)) in
  let (h, rest) := hash_words h data in
  hash_rest h rest.
