(* ===== verification/LdbCodingThms.v ===== *)
(** The encodings of util/coding.cc: every writer writes the wire format of [PbWire], every
    reader is described on all inputs, and reads back what the writer wrote. *)
From stdpp Require Import base list numbers option.
From Stdlib Require Import ZArith Lia.
From S2P Require Import Prelude PbWire LdbCoding LdbCrc.

(** * Writers *)

Lemma size_app l1 l2 : size (l1 ++ l2) = size l1 + size l2.
Proof. unfold size. rewrite length_app. lia. Qed.

Lemma size_nonneg l : 0 <= size l.
Proof. unfold size. lia. Qed.

Lemma size_take n l : 0 <= n -> size (take (Z.to_nat n) l) = Z.min n (size l).
Proof. unfold size. rewrite length_take. lia. Qed.

Lemma size_drop n l : 0 <= n <= size l -> size (drop (Z.to_nat n) l) = size l - n.
Proof. unfold size. rewrite length_drop. lia. Qed.

Lemma fixed32_bytes v : EncodeFixed32 v = le_bytes 4 v.
Proof. done. Qed.

Lemma fixed64_bytes v : EncodeFixed64 v = le_bytes 8 v.
Proof. done. Qed.

Lemma group_byte v : u8 (Z.lor v 128) = v mod 128 + 128.
Proof.
  pose proof (Z.mod_pos_bound v (2 ^ 7) ltac:(lia)). change 128 with (2 ^ 7).
  replace (v mod 2 ^ 7 + 2 ^ 7) with (v mod 2 ^ 7 + 1 * 2 ^ 7) by lia. rewrite <- lor_add_shifted by lia. rewrite Z.mul_1_l.
  unfold u8. rewrite <- Z.land_ones by lia. apply Z.bits_inj'. intros i Hi. rewrite Z.land_spec, !Z.lor_spec.
  destruct (Z_lt_dec i 7).
  - rewrite Z.mod_pow2_bits_low, Z.ones_spec_low, Z.pow2_bits_false by lia. by destruct (Z.testbit v i).
  - rewrite Z.mod_pow2_bits_high by lia. destruct (Z.eq_dec i 7) as [->|]; [by destruct (Z.testbit v 7)|].
    rewrite Z.ones_spec_high, Z.pow2_bits_false by lia. by rewrite andb_false_r.
Qed.

Lemma varint64_loop_ok n v : 0 <= v < 128 ^ Z.of_nat (S n) -> varint64_loop n v = varint_groups (S n) v.
Proof.
  revert v. induction n as [|n IH]; intros v Hv; cbn [varint64_loop varint_groups].
  - change (128 ^ Z.of_nat 1) with 128 in Hv. rewrite (proj2 (Z.ltb_lt _ _)), u8_small by lia. done.
  - destruct (Z.ltb_spec v 128), (Z.leb_spec 128 v); try lia; [by rewrite u8_small by lia|]. f_equal; [apply group_byte|].
    rewrite shiftr_div by lia. apply IH. by apply div_128_bound.
Qed.

(** More groups than needed make no difference. *)
Lemma varint_groups_more n k v : 0 <= v < 128 ^ Z.of_nat n -> (n <= k)%nat -> (0 < n)%nat -> varint_groups k v = varint_groups n v.
Proof.
  revert k v. induction n as [|n IH]; intros k v Hv Hk Hn; [lia|]. destruct k as [|k]; [lia|]. cbn [varint_groups].
  destruct (Z.ltb_spec v 128); [done|]. f_equal. pose proof (div_128_bound n v Hv). destruct n as [|n]; [change (128 ^ Z.of_nat 1) with 128 in Hv; lia|].
  apply IH; [done|lia|lia].
Qed.

Lemma encode_varint64 v : 0 <= v < 2 ^ 64 -> EncodeVarint64 v = varint v.
Proof. intros Hv. apply (varint64_loop_ok 9). pose proof pow_128_10. change (Z.of_nat 10) with (Z.of_nat 10) in *. lia. Qed.

Lemma encode_varint32 v : 0 <= v < 2 ^ 32 -> EncodeVarint32 v = varint v.
Proof.
  intros Hv. unfold varint. rewrite (varint_groups_more 5) by (done || lia || (change (128 ^ Z.of_nat 5) with (2 ^ 35); lia)).
  unfold EncodeVarint32. rewrite !Z.shiftl_1_l, !group_byte, !shiftr_div by lia. cbn [varint_groups].
  destruct (Z.ltb_spec v (2 ^ 7)), (Z.ltb_spec v 128); try lia; [by rewrite u8_small by lia|].
  assert (H1 : v / 2 ^ 14 = v / 128 / 128) by (rewrite Z.div_div by lia; done).
  assert (H2 : v / 2 ^ 21 = v / 128 / 128 / 128) by (rewrite !Z.div_div by lia; done).
  assert (H3 : v / 2 ^ 28 = v / 128 / 128 / 128 / 128) by (rewrite !Z.div_div by lia; done).
  rewrite H1, H2, H3. change (2 ^ 7) with 128.
  assert (Hb : forall x y, 0 <= x < 128 * y -> 0 <= x / 128 < y) by (intros x y ?; split; [apply Z.div_pos|apply Z.div_lt_upper_bound]; lia).
  destruct (Z.ltb_spec v (2 ^ 14)) as [Hc|Hc].
  { pose proof (Hb v 128 ltac:(lia)). rewrite (proj2 (Z.ltb_lt _ _)) by lia. by rewrite u8_small by lia. }
  pose proof (Z.div_le_lower_bound v 128 128 ltac:(lia) ltac:(lia)). rewrite (proj2 (Z.ltb_ge (v / 128) _)) by lia.
  destruct (Z.ltb_spec v (2 ^ 21)) as [Hd|Hd].
  { pose proof (Hb _ 128 (Hb v (128 * 128) ltac:(lia))). rewrite (proj2 (Z.ltb_lt _ _)) by lia. by rewrite u8_small by lia. }
  pose proof (Z.div_le_lower_bound v 128 (128 * 128) ltac:(lia) ltac:(lia)). pose proof (Z.div_le_lower_bound (v / 128) 128 128 ltac:(lia) ltac:(lia)).
  rewrite (proj2 (Z.ltb_ge (v / 128 / 128) _)) by lia.
  destruct (Z.ltb_spec v (2 ^ 28)) as [He|He].
  { pose proof (Hb _ 128 (Hb _ (128 * 128) (Hb v (128 * 128 * 128) ltac:(lia)))). rewrite (proj2 (Z.ltb_lt _ _)) by lia. by rewrite u8_small by lia. }
  pose proof (Z.div_le_lower_bound v 128 (128 * 128 * 128) ltac:(lia) ltac:(lia)). pose proof (Z.div_le_lower_bound (v / 128) 128 (128 * 128) ltac:(lia) ltac:(lia)).
  pose proof (Z.div_le_lower_bound (v / 128 / 128) 128 128 ltac:(lia) ltac:(lia)). rewrite (proj2 (Z.ltb_ge (v / 128 / 128 / 128) _)) by lia.
  pose proof (Hb _ 128 (Hb _ (128 * 128) (Hb _ (128 * 128 * 128) (Hb v (128 * 128 * 128 * 128) ltac:(lia))))).
  rewrite (proj2 (Z.ltb_lt (v / 128 / 128 / 128 / 128) _)) by lia. by rewrite u8_small by lia.
Qed.

Lemma varint_groups_S n v : varint_groups (S n) v = if v <? 128 then [v] else (v mod 128 + 128) :: varint_groups n (v / 128).
Proof. done. Qed.

Lemma length_loop_ok n v len : 0 <= v < 128 ^ Z.of_nat (S n) -> length_loop n v len = len - 1 + Z.of_nat (length (varint_groups (S n) v)).
Proof.
  revert v len. induction n as [|n IH]; intros v len Hv; rewrite varint_groups_S; cbn [length_loop].
  - change (128 ^ Z.of_nat 1) with 128 in Hv. rewrite (proj2 (Z.ltb_lt _ _)) by lia. cbn [length]. lia.
  - destruct (Z.ltb_spec v 128), (Z.leb_spec 128 v); try lia; [cbn [length]; lia|].
    rewrite shiftr_div by lia. change (2 ^ 7) with 128. rewrite IH by (by apply div_128_bound). cbn [length]. lia.
Qed.

(** [VarintLength] is the length of what [EncodeVarint64] writes. *)
Lemma varint_length_ok v : 0 <= v < 2 ^ 64 -> VarintLength v = Z.of_nat (length (EncodeVarint64 v)).
Proof.
  intros Hv. rewrite encode_varint64 by done. unfold VarintLength, varint. rewrite length_loop_ok; [lia|]. pose proof pow_128_10. lia.
Qed.

(** * Readers *)

(** What a reader of at most [n] groups, for values of [w] bits, does on any input. *)
Definition varint_read (w : Z) (n : nat) (l : list Z) : option (Z * list Z) :=
  match varint_prefix n l with
  | VDone p => Some (groups_val p mod 2 ^ w, drop (length p) l)
  | _ => None
  end.

Lemma varint_loop_ok w last n : forall i acc l,
  0 <= i -> last < 7 * (i + Z.of_nat n) <= last + 7 -> last < w -> 0 <= acc < 2 ^ (7 * i) -> acc < 2 ^ w -> is_bytes l ->
  varint_loop w last (7 * i) acc l =
  match varint_prefix n l with
  | VDone p => Some ((acc + groups_val p * 2 ^ (7 * i)) mod 2 ^ w, drop (length p) l)
  | _ => None
  end.
Proof.
  induction n as [|n IH]; intros i acc l Hi Hn Hw Hacc Hacw Hl; cbn [varint_prefix].
  - destruct l; cbn [varint_loop]; rewrite (proj2 (Z.leb_gt _ _)) by lia; done.
  - assert (Hle : 7 * i <= last) by lia. destruct l as [|b l]; cbn [varint_loop]; rewrite (proj2 (Z.leb_le _ _)) by lia; [done|].
    apply Forall_cons_1 in Hl as [Hb Hl]. change 128 with 0x80 at 1. rewrite land_0x80 by done. change 127 with 0x7F. rewrite land_0x7F.
    destruct (Z.ltb_spec b 128) as [Hlast|Hmore]; cbn [negb].
    + rewrite lor_shiftl_mod by lia. cbn [groups_val length drop]. rewrite (Z.mod_small b 128) by lia. by rewrite Z.mul_0_r, Z.add_0_r.
    + rewrite lor_shiftl_mod by lia. pose proof (pow_7_succ i) as [Ep|]; [|lia]. pose proof (Z.mod_pos_bound b 128 ltac:(lia)).
      replace (7 * i + 7) with (7 * (i + 1)) by lia.
      destruct n as [|n].
      { destruct l; cbn [varint_loop varint_prefix]; rewrite (proj2 (Z.leb_gt _ _)) by lia; done. }
      assert (Hle2 : 2 ^ (7 * (i + 1)) <= 2 ^ w) by (apply Z.pow_le_mono_r; lia).
      rewrite (Z.mod_small (acc + _)) by nia. rewrite (IH (i + 1)); [|lia|lia|lia|nia|nia|done].
      destruct (varint_prefix (S n) l) as [p| |]; [|done..]. cbn [groups_val length drop]. do 3 f_equal. rewrite Ep. ring.
Qed.

(** [GetVarint32Ptr] takes a varint of at most five bytes and keeps the low 32 bits. *)
Lemma get_varint32 l : is_bytes l -> GetVarint32 l = varint_read 32 5 l.
Proof.
  intros Hl. assert (E : GetVarint32PtrFallback l = varint_read 32 5 l).
  { unfold GetVarint32PtrFallback, varint_read. change 0 with (7 * 0) at 1. rewrite (varint_loop_ok 32 28 5 0 0 l) by (done || lia).
    destruct (varint_prefix 5 l); [|done..]. change (2 ^ (7 * 0)) with 1. do 3 f_equal. lia. }
  unfold GetVarint32, GetVarint32Ptr. destruct l as [|b l]; [done|]. apply Forall_cons_1 in Hl as [Hb _].
  change 128 with 0x80. rewrite land_0x80 by done. destruct (Z.ltb_spec b 128); [|done].
  unfold varint_read. cbn [varint_prefix]. rewrite (proj2 (Z.ltb_lt _ _)) by lia. cbn [groups_val length drop].
  rewrite Z.mul_0_r, Z.add_0_r, (Z.mod_small b 128), Z.mod_small by lia. done.
Qed.

Lemma get_varint64 l : is_bytes l -> GetVarint64 l = varint_read 64 10 l.
Proof.
  intros Hl. unfold GetVarint64, GetVarint64Ptr, varint_read. change 0 with (7 * 0) at 1. rewrite (varint_loop_ok 64 63 10 0 0 l) by (done || lia).
  destruct (varint_prefix 10 l); [|done..]. change (2 ^ (7 * 0)) with 1. do 3 f_equal. lia.
Qed.

(** * Round trips *)

Lemma varint_read_varint w n v r :
  0 <= v < 2 ^ 64 -> v < 2 ^ w -> (length (varint v) <= n)%nat -> varint_read w n (varint v ++ r) = Some (v, r).
Proof.
  intros Hv Hw Hn. unfold varint_read. rewrite varint_prefix_app by (by apply varint_is_varint || done).
  by rewrite varint_val, Z.mod_small, drop_app_length by lia.
Qed.

Lemma varint32_length v : 0 <= v < 2 ^ 32 -> (length (varint v) <= 5)%nat.
Proof.
  intros Hv. unfold varint. rewrite (varint_groups_more 5) by (done || lia || (change (128 ^ Z.of_nat 5) with (2 ^ 35); lia)).
  apply varint_groups_length.
Qed.

Lemma get_put_varint32 v r : 0 <= v < 2 ^ 32 -> is_bytes r -> GetVarint32 (EncodeVarint32 v ++ r) = Some (v, r).
Proof.
  intros Hv Hr. rewrite encode_varint32 by done. rewrite get_varint32.
  - apply varint_read_varint; [lia|lia|by apply varint32_length].
  - apply Forall_app. split; [apply varint_bytes; lia|done].
Qed.

Lemma get_put_varint64 v r : 0 <= v < 2 ^ 64 -> is_bytes r -> GetVarint64 (EncodeVarint64 v ++ r) = Some (v, r).
Proof.
  intros Hv Hr. rewrite encode_varint64 by done. rewrite get_varint64.
  - apply varint_read_varint; [lia|lia|apply varint_length_max].
  - apply Forall_app. split; [by apply varint_bytes|done].
Qed.

Lemma get_put_slice v r :
  Z.of_nat (length v) < 2 ^ 32 -> is_bytes v -> is_bytes r ->
  GetLengthPrefixedSlice (PutLengthPrefixedSlice [] v ++ r) = Some (v, r).
Proof.
  intros Hv Hb Hr. unfold GetLengthPrefixedSlice, PutLengthPrefixedSlice, PutVarint32. rewrite u32_small by lia. cbn [app].
  rewrite <- app_assoc. rewrite get_put_varint32 by (lia || (apply Forall_app; done)). rewrite length_app, (proj2 (Z.leb_le _ _)) by lia.
  by rewrite Nat2Z.id, take_app_length, drop_app_length.
Qed.

Lemma put_slice_app dst v : PutLengthPrefixedSlice dst v = dst ++ PutLengthPrefixedSlice [] v.
Proof. unfold PutLengthPrefixedSlice, PutVarint32. cbn [app]. by rewrite <- app_assoc. Qed.

Lemma encode_varint32_bytes v : 0 <= v < 2 ^ 32 -> is_bytes (EncodeVarint32 v).
Proof. intros Hv. rewrite encode_varint32 by done. apply varint_bytes. lia. Qed.

Lemma encode_varint64_bytes v : 0 <= v < 2 ^ 64 -> is_bytes (EncodeVarint64 v).
Proof. intros Hv. rewrite encode_varint64 by done. by apply varint_bytes. Qed.

Lemma put_slice_bytes v : Z.of_nat (length v) < 2 ^ 32 -> is_bytes v -> is_bytes (PutLengthPrefixedSlice [] v).
Proof.
  intros Hv Hb. unfold PutLengthPrefixedSlice, PutVarint32. rewrite u32_small by lia. apply Forall_app. split; [|done].
  apply encode_varint32_bytes. lia.
Qed.

(** ** Any bytes *)

Definition slice_ok (l : list Z) : Prop := is_bytes l /\ size l < 2 ^ 32.

Lemma varint_prefix_split n : forall l p, varint_prefix n l = VDone p -> (0 < length p)%nat /\ exists r, l = p ++ r.
Proof.
  induction n as [|n IH]; intros [|b l] p; try done. cbn [varint_prefix]. destruct (b <? 128).
  - intros [= <-]. split; [cbn; lia|by exists l].
  - destruct (varint_prefix n l) as [q| |] eqn:E; [|done..]. intros [= <-]. destruct (IH l q E) as (_ & r & ->). split; [cbn; lia|by exists r].
Qed.

Lemma varint_read_shrinks w n l v r : 0 <= w -> is_bytes l -> varint_read w n l = Some (v, r) -> 0 <= v < 2 ^ w /\ is_bytes r /\ (length r < length l)%nat.
Proof.
  intros Hw Hl. unfold varint_read. destruct (varint_prefix n l) as [p| |] eqn:E; [|done..]. apply varint_prefix_split in E as (Hp & r' & ->). rewrite drop_app_length.
  apply Forall_app in Hl as [_ Hr]. intros [= <- <-]. split; [apply Z.mod_pos_bound; lia|]. split; [done|]. rewrite length_app. lia.
Qed.

Lemma slice_shrinks l v r : is_bytes l -> GetLengthPrefixedSlice l = Some (v, r) -> slice_ok v /\ is_bytes r /\ (length r < length l)%nat.
Proof.
  intros Hl. unfold GetLengthPrefixedSlice. rewrite get_varint32 by done. unfold varint_read. destruct (varint_prefix 5 l) as [p| |] eqn:E; [|done..].
  apply varint_prefix_split in E as (Hp & r' & ->). rewrite drop_app_length. destruct (Z.leb_spec (groups_val p mod 2 ^ 32) (Z.of_nat (length r'))) as [Hle|]; [|done].
  intros [= <- <-]. apply Forall_app in Hl as [_ Hr]. pose proof (Z.mod_pos_bound (groups_val p) (2 ^ 32) ltac:(lia)).
  split; [split; [by apply Forall_take|unfold size; rewrite length_take; lia]|]. split; [by apply Forall_drop|].
  rewrite length_app, length_drop. lia.
Qed.

Lemma decode_encode_fixed32 v r : 0 <= v < 2 ^ 32 -> DecodeFixed32 (EncodeFixed32 v ++ r) = Some v.
Proof.
  intros Hv. change (EncodeFixed32 v) with (le_bytes 4 v). cbn [le_bytes app]. unfold DecodeFixed32, kLittleEndian. f_equal.
  by apply (le_val_le_bytes 4).
Qed.

Lemma decode_encode_fixed64 v r : 0 <= v < 2 ^ 64 -> DecodeFixed64 (EncodeFixed64 v ++ r) = Some v.
Proof.
  intros Hv. change (EncodeFixed64 v) with (le_bytes 8 v). unfold DecodeFixed64, kLittleEndian. rewrite length_app, le_bytes_length.
  change (8 + length r <? 8)%nat with false. cbn [Nat.ltb]. rewrite take_app_length' by (by rewrite le_bytes_length). f_equal.
  by apply (le_val_le_bytes 8).
Qed.

Lemma decode_fixed32_bytes l r : length l = 4%nat -> DecodeFixed32 (l ++ r) = Some (le_val l).
Proof. intros Hl. by destruct l as [|a [|b [|c [|d [|]]]]]. Qed.

(** * The four-stride CRC of util/crc32c.cc is the bit-by-bit CRC-32C, wherever the data is in
    memory, and masking can be undone.

    One step of the shift register, [crc_bit], is linear over xor; the five tables are
    powers of it, checked entry by entry. *)

(** * The reference *)

(** The register shifts right; the polynomial 0x1EDC6F41 is written in reverse. *)
Definition crc_bit (x : Z) : Z := Z.lxor (Z.shiftr x 1) (if Z.odd x then 0x82f63b78 else 0).
Definition crc_bits (n : nat) (x : Z) : Z := Nat.iter n crc_bit x.
Definition crc_byte (l b : Z) : Z := crc_bits 8 (Z.lxor l b).
Definition crc_state (l : Z) (data : list Z) : Z := fold_left crc_byte data l.

(** CRC-32C of a string, continued from the checksum [crc] of what comes before it. *)
Definition crc32c (crc : Z) (data : list Z) : Z := Z.lxor (crc_state (Z.lxor crc 0xffffffff) data) 0xffffffff.

(** * The register *)

Lemma crc_bit_lxor x y : crc_bit (Z.lxor x y) = Z.lxor (crc_bit x) (crc_bit y).
Proof.
  unfold crc_bit. rewrite Z.shiftr_lxor, <- !Z.bit0_odd, Z.lxor_spec.
  apply Z.bits_inj'. intros i _. rewrite !Z.lxor_spec.
  destruct (Z.testbit x 0), (Z.testbit y 0); cbn [xorb]; rewrite ?Z.bits_0;
    destruct (Z.testbit (Z.shiftr x 1) i), (Z.testbit (Z.shiftr y 1) i); cbn; by try destruct (Z.testbit _ i).
Qed.

Lemma crc_bits_S n x : crc_bits (S n) x = crc_bits n (crc_bit x).
Proof. unfold crc_bits. by rewrite Nat.iter_succ_r. Qed.

Lemma crc_bits_add n k x : crc_bits (n + k) x = crc_bits n (crc_bits k x).
Proof. unfold crc_bits. by rewrite Nat.iter_add. Qed.

Lemma crc_bits_lxor n x y : crc_bits n (Z.lxor x y) = Z.lxor (crc_bits n x) (crc_bits n y).
Proof. revert x y. induction n as [|n IH]; intros x y; [done|]. by rewrite !crc_bits_S, crc_bit_lxor, IH. Qed.

(** Zeros at the low end are shifted out. *)
Lemma crc_bits_shift n y : crc_bits n (Z.shiftl y (Z.of_nat n)) = y.
Proof.
  revert y. induction n as [|n IH]; intros y; [apply Z.shiftl_0_r|]. rewrite crc_bits_S.
  assert (E : crc_bit (Z.shiftl y (Z.of_nat (S n))) = Z.shiftl y (Z.of_nat n)); [|by rewrite E].
  unfold crc_bit. rewrite <- Z.bit0_odd, Z.shiftl_spec_low, Z.lxor_0_r by lia. rewrite Z.shiftr_shiftl_l by lia. f_equal. lia.
Qed.

Lemma split_low n x : 0 <= n -> x = Z.lxor (x mod 2 ^ n) (Z.shiftl (Z.shiftr x n) n).
Proof.
  intros Hn. rewrite <- Z.land_ones by lia. apply Z.bits_inj'. intros i Hi. rewrite Z.lxor_spec, Z.land_spec.
  destruct (Z_lt_dec i n).
  - rewrite Z.ones_spec_low, Z.shiftl_spec_low by lia. by destruct (Z.testbit x i).
  - rewrite Z.ones_spec_high, Z.shiftl_spec, Z.shiftr_spec by lia. replace (i - n + n) with i by lia. by rewrite andb_false_r.
Qed.

(** Eight, or any other number of steps on the low bits only. *)
Lemma crc_bits_low n x : crc_bits n x = Z.lxor (crc_bits n (x mod 2 ^ Z.of_nat n)) (Z.shiftr x (Z.of_nat n)).
Proof. rewrite (split_low (Z.of_nat n) x) at 1 by lia. by rewrite crc_bits_lxor, crc_bits_shift. Qed.

(** * The tables *)

Definition table_is (table : list Z) (f : Z -> Z) : Prop := forall b, is_byte b -> entry table b = f b.

Lemma table_check table f : forallb (fun b => entry table b =? f b) all_bytes = true -> table_is table f.
Proof. intros Hf b Hb. apply Z.eqb_eq. by apply (forall_bytes (fun b => entry table b =? f b)). Qed.

Lemma byte_table : table_is kByteExtensionTable (crc_bits 8).
Proof. apply table_check. vm_compute. reflexivity. Qed.

Lemma stride_table0 : table_is kStrideExtensionTable0 (fun b => crc_bits 128 (Z.shiftl b 24)).
Proof. apply table_check. vm_compute. reflexivity. Qed.

Lemma stride_table1 : table_is kStrideExtensionTable1 (fun b => crc_bits 128 (Z.shiftl b 16)).
Proof. apply table_check. vm_compute. reflexivity. Qed.

Lemma stride_table2 : table_is kStrideExtensionTable2 (fun b => crc_bits 128 (Z.shiftl b 8)).
Proof. apply table_check. vm_compute. reflexivity. Qed.

Lemma stride_table3 : table_is kStrideExtensionTable3 (crc_bits 128).
Proof. apply table_check. vm_compute. reflexivity. Qed.

(** * Words *)

Notation is_word x := (0 <= x < 2 ^ 32).

Lemma lxor_below n a b : 0 <= n -> 0 <= a < 2 ^ n -> 0 <= b < 2 ^ n -> 0 <= Z.lxor a b < 2 ^ n.
Proof.
  intros Hn Ha Hb. assert (E : Z.lxor a b = Z.lxor a b mod 2 ^ n).
  { apply Z.bits_inj'. intros i Hi. rewrite <- Z.land_ones, Z.land_spec by lia. destruct (Z_lt_dec i n).
    - by rewrite Z.ones_spec_low, andb_true_r by lia.
    - rewrite Z.ones_spec_high by lia. rewrite Z.lxor_spec, andb_false_r.
      rewrite <- (Z.mod_small a (2 ^ n)), <- (Z.mod_small b (2 ^ n)) by lia. by rewrite !Z.mod_pow2_bits_high by lia. }
  rewrite E. apply Z.mod_pos_bound. apply Z.pow_pos_nonneg; lia.
Qed.

Lemma crc_bit_word x : is_word x -> is_word (crc_bit x).
Proof.
  intros Hx. unfold crc_bit. apply lxor_below; [lia| |destruct (Z.odd x); lia]. rewrite shiftr_div by lia.
  change (2 ^ 1) with 2. split; [apply Z.div_pos|apply Z.div_lt_upper_bound]; lia.
Qed.

Lemma crc_bits_word n x : is_word x -> is_word (crc_bits n x).
Proof. intros Hx. induction n as [|n IH]; [done|]. unfold crc_bits. cbn. by apply crc_bit_word. Qed.

Lemma crc_byte_word l b : is_word l -> is_byte b -> is_word (crc_byte l b).
Proof. intros Hl Hb. apply crc_bits_word, lxor_below; lia. Qed.

Lemma crc_state_word data : forall l, is_word l -> is_bytes data -> is_word (crc_state l data).
Proof.
  induction data as [|b data IH]; intros l Hl Hd; [done|]. apply Forall_cons_1 in Hd as [Hb Hd].
  apply (IH (crc_byte l b)); [by apply crc_byte_word|done].
Qed.

Lemma crc_state_app l d1 d2 : crc_state l (d1 ++ d2) = crc_state (crc_state l d1) d2.
Proof. apply fold_left_app. Qed.

Lemma lxor_byte_range x y : is_byte x -> is_byte y -> is_byte (Z.lxor x y).
Proof. intros Hx Hy. apply (lxor_below 8); lia. Qed.

Lemma byte_of x : is_byte (Z.land x 0xff).
Proof. rewrite land_0xFF. apply Z.mod_pos_bound. lia. Qed.

Lemma mod_lxor n x y : 0 <= n -> Z.lxor x y mod 2 ^ n = Z.lxor (x mod 2 ^ n) (y mod 2 ^ n).
Proof.
  intros Hn. rewrite <- !Z.land_ones by lia. apply Z.bits_inj'. intros i _. rewrite !Z.lxor_spec, !Z.land_spec, Z.lxor_spec.
  by destruct (Z.testbit x i), (Z.testbit y i), (Z.testbit (Z.ones n) i).
Qed.

Lemma step1_ok l b : is_word l -> is_byte b -> STEP1 l b = crc_byte l b.
Proof.
  intros Hl Hb. unfold STEP1, crc_byte. rewrite (byte_table _ (lxor_byte_range _ _ (byte_of l) Hb)).
  rewrite (crc_bits_low 8 (Z.lxor l b)). change (Z.of_nat 8) with 8. rewrite mod_lxor, Z.shiftr_lxor, land_0xFF by lia. change (2 ^ 8) with 256.
  rewrite (Z.mod_small b) by lia. rewrite (shiftr_div b) by lia. change (2 ^ 8) with 256. by rewrite (Z.div_small b), Z.lxor_0_r by lia.
Qed.

Lemma steps1_ok n : forall l p, is_word l -> is_bytes p -> steps1 n l p = (crc_state l (take n p), drop n p).
Proof.
  induction n as [|n IH]; intros l p Hl Hp; [by destruct p|]. destruct p as [|b p]; [done|]. apply Forall_cons_1 in Hp as [Hb Hp].
  cbn [steps1 take drop]. rewrite step1_ok by done. rewrite IH by (by apply crc_byte_word || done). done.
Qed.

(** Four bytes are a word. *)
Lemma le_val_lxor b l : is_byte b -> le_val (b :: l) = Z.lxor b (Z.shiftl (le_val l) 8).
Proof.
  intros Hb. cbn [le_val]. rewrite (split_low 8 (b + 256 * le_val l)) by lia. change (2 ^ 8) with 256.
  rewrite (Z.mul_comm 256), Z.mod_add, Z.mod_small by lia. rewrite shiftr_div by lia. change (2 ^ 8) with 256.
  by rewrite Z.div_add, Z.div_small by lia.
Qed.

Lemma crc_state_word_bytes data : forall l, is_bytes data ->
  crc_state l data = crc_bits (8 * length data) (Z.lxor l (le_val data)).
Proof.
  induction data as [|b data IH]; intros l Hd; [cbn; by rewrite Z.lxor_0_r|]. apply Forall_cons_1 in Hd as [Hb Hd].
  change (crc_state l (b :: data)) with (crc_state (crc_byte l b) data). rewrite IH by done.
  rewrite le_val_lxor by done. cbn [length]. replace (8 * S (length data))%nat with (8 * length data + 8)%nat by lia.
  rewrite crc_bits_add. f_equal. rewrite <- Z.lxor_assoc, crc_bits_lxor. change (Z.shiftl (le_val data) 8) with (Z.shiftl (le_val data) (Z.of_nat 8)). by rewrite crc_bits_shift.
Qed.

Lemma read_word p : (4 <= length p)%nat -> is_bytes p ->
  is_word (ReadUint32LE p) /\ forall l, crc_state l (take 4 p) = crc_bits 32 (Z.lxor l (ReadUint32LE p)).
Proof.
  intros Hlen Hp. destruct p as [|a [|b [|c [|d p]]]]; cbn in Hlen; try lia. unfold ReadUint32LE, DecodeFixed32, kLittleEndian.
  assert (H4 : is_bytes [a; b; c; d]) by (by apply (Forall_take _ 4) in Hp). split.
  - by apply (le_val_range [a; b; c; d]).
  - intros l. cbn [take]. by apply (crc_state_word_bytes [a; b; c; d]).
Qed.

Lemma word_step w : is_word w -> Z.lxor (Z.shiftr w 8) (entry kByteExtensionTable (Z.land w 0xff)) = crc_bits 8 w.
Proof. intros Hw. rewrite (byte_table _ (byte_of w)), (crc_bits_low 8 w), land_0xFF, Z.lxor_comm. done. Qed.

Lemma step4w_ok l w : is_word l -> is_word w -> STEP4W l w = crc_bits 32 (Z.lxor l w).
Proof.
  intros Hl Hw. unfold STEP4W. rewrite (Z.lxor_comm w l). assert (Hx : is_word (Z.lxor l w)) by (by apply lxor_below). revert Hx.
  generalize (Z.lxor l w). intros x Hx. set (f := fun w => _). assert (Hf : forall w, is_word w -> f w = crc_bits 8 w) by apply word_step.
  change (Nat.iter 4 f x) with (f (f (f (f x)))).
  rewrite (Hf x), (Hf (crc_bits 8 x)), (Hf (crc_bits 8 (crc_bits 8 x))), Hf by (done || by repeat apply crc_bits_word).
  by rewrite <- !crc_bits_add.
Qed.

(** * Strides *)

Lemma step4_ok crc w : is_word crc -> STEP4 crc w = Z.lxor (crc_bits 128 crc) w.
Proof.
  intros Hc. unfold STEP4. rewrite (stride_table3 _ (byte_of _)), (stride_table2 _ (byte_of _)), (stride_table1 _ (byte_of _)).
  rewrite (stride_table0 (Z.shiftr crc 24)).
  2: { rewrite shiftr_div by lia. split; [apply Z.div_pos|apply Z.div_lt_upper_bound]; lia. }
  assert (E : crc = Z.lxor (Z.lxor (Z.lxor (Z.land crc 0xff) (Z.shiftl (Z.land (Z.shiftr crc 8) 0xff) 8))
                                   (Z.shiftl (Z.land (Z.shiftr crc 16) 0xff) 16)) (Z.shiftl (Z.shiftr crc 24) 24)).
  { rewrite !land_0xFF. rewrite (split_low 8 crc) at 1 by lia. rewrite (split_low 8 (Z.shiftr crc 8)) at 1 by lia.
    rewrite Z.shiftr_shiftr by lia. rewrite (split_low 8 (Z.shiftr crc (8 + 8))) at 1 by lia. rewrite Z.shiftr_shiftr by lia.
    change (8 + 8) with 16. change (16 + 8) with 24. change (2 ^ 8) with 256. rewrite !Z.shiftl_lxor, !Z.shiftl_shiftl by lia.
    change (8 + 8) with 16. change (16 + 8) with 24. by rewrite !Z.lxor_assoc. }
  rewrite E at 5. rewrite !crc_bits_lxor.
  rewrite (Z.lxor_comm _ w). by rewrite !Z.lxor_assoc.
Qed.

(** The register that the four partial results stand for. *)
Definition combined (s : strides) : Z :=
  crc_bits 32 (Z.lxor (crc_bits 32 (Z.lxor (crc_bits 32 (Z.lxor (crc_bits 32 (crc0 s)) (crc1 s))) (crc2 s))) (crc3 s)).

Definition words (s : strides) : Prop := is_word (crc0 s) /\ is_word (crc1 s) /\ is_word (crc2 s) /\ is_word (crc3 s).

(** A word goes to the first stride, which becomes the last. *)
Definition rotate (s : strides) (w : Z) : strides := mk_strides (crc1 s) (crc2 s) (crc3 s) (STEP4 (crc0 s) w).

Lemma rotate_ok s w : words s -> is_word w -> words (rotate s w) /\ combined (rotate s w) = crc_bits 32 (Z.lxor (combined s) w).
Proof.
  intros (H0 & H1 & H2 & H3) Hw. unfold rotate, words, combined. cbn [crc0 crc1 crc2 crc3]. rewrite step4_ok by done.
  split; [split; [done|split; [done|split; [done|apply lxor_below; [lia|by apply crc_bits_word|done]]]]|].
  f_equal. rewrite !crc_bits_lxor, <- !crc_bits_add. cbn [Nat.add]. rewrite <- !Z.lxor_assoc. f_equal.
  rewrite (Z.lxor_comm _ (crc_bits 128 (crc0 s))). by rewrite !Z.lxor_assoc.
Qed.

#[local] Opaque crc_bits STEP4 combined.

Lemma rotate_word s p : words s -> (4 <= length p)%nat -> is_bytes p ->
  words (rotate s (ReadUint32LE p)) /\ combined (rotate s (ReadUint32LE p)) = crc_state (combined s) (take 4 p).
Proof.
  intros Hs Hlen Hp. destruct (read_word p Hlen Hp) as [Hw Hst]. rewrite Hst. by apply rotate_ok.
Qed.

Lemma steps4_ok n : forall s p, words s -> is_bytes p -> (length p <= n)%nat ->
  exists k, let (s', p') := steps4 n s p in words s' /\ p' = drop k p /\ combined s' = crc_state (combined s) (take k p).
Proof.
  induction n as [|n IH]; intros s p Hs Hp Hn; cbn [steps4]; [by exists 0%nat|].
  destruct (Nat.leb_spec 4 (length p)) as [Hlen|]; [|by exists 0%nat].
  destruct (rotate_word s p Hs Hlen Hp) as [Hs' Hc]. fold (rotate s (ReadUint32LE p)).
  destruct (IH (rotate s (ReadUint32LE p)) (drop 4 p) Hs') as [k Hk]; [by apply Forall_drop|rewrite length_drop; lia|].
  exists (4 + k)%nat. destruct (steps4 n _ _) as [s' p']. destruct Hk as (H1 & -> & H3). split; [done|]. split; [by rewrite drop_drop|].
  rewrite H3, Hc. rewrite <- crc_state_app. f_equal. by rewrite take_take_drop.
Qed.

Lemma take_16 (p : list Z) : take 16 p = take 4 p ++ take 4 (drop 4 p) ++ take 4 (drop 8 p) ++ take 4 (drop 12 p).
Proof.
  rewrite <- (take_take_drop p 4 12) at 1. f_equal. rewrite <- (take_take_drop (drop 4 p) 4 8) at 1. rewrite drop_drop. f_equal.
  pose proof (take_take_drop (drop 8 p) 4 4) as E. rewrite drop_drop in E. symmetry. exact E.
Qed.

Lemma steps16_ok n : forall s p, words s -> is_bytes p ->
  exists k, let (s', p') := steps16 n s p in words s' /\ p' = drop k p /\ combined s' = crc_state (combined s) (take k p).
Proof.
  induction n as [|n IH]; intros s p Hs Hp; cbn [steps16]; [by exists 0%nat|].
  destruct (Nat.leb_spec 16 (length p)) as [Hlen|]; [|by exists 0%nat].
  destruct (rotate_word s p Hs ltac:(lia) Hp) as [Hs1 Hc1].
  destruct (rotate_word _ (drop 4 p) Hs1) as [Hs2 Hc2]; [rewrite length_drop; lia|by apply Forall_drop|].
  destruct (rotate_word _ (drop 8 p) Hs2) as [Hs3 Hc3]; [rewrite length_drop; lia|by apply Forall_drop|].
  destruct (rotate_word _ (drop 12 p) Hs3) as [Hs4 Hc4]; [rewrite length_drop; lia|by apply Forall_drop|].
  rewrite Hc3, Hc2, Hc1 in Hc4. rewrite <- !crc_state_app in Hc4.
  rewrite <- take_16 in Hc4.
  destruct (IH _ (drop 16 p) Hs4) as [k Hk]; [by apply Forall_drop|]. exists (16 + k)%nat.
  unfold rotate in Hk at 1. cbn [crc0 crc1 crc2 crc3] in Hk. unfold rotate in Hk at 1. cbn [crc0 crc1 crc2 crc3] in Hk.
  revert Hk. destruct (steps16 n _ _) as [s' p']. intros (H1 & -> & H3). split; [done|]. split; [by rewrite drop_drop|].
  rewrite H3, Hc4, <- crc_state_app. f_equal. by rewrite take_take_drop.
Qed.

(** * The whole checksum *)

(** What is left after the aligned prefix. *)
Definition extend_body (l : Z) (data : list Z) : Z * list Z :=
  if (16 <=? length data)%nat then
    let s := mk_strides (Z.lxor (ReadUint32LE data) l) (ReadUint32LE (drop 4 data))
                        (ReadUint32LE (drop 8 data)) (ReadUint32LE (drop 12 data)) in
    let (s, data) := steps16 (length data) s (drop 16 data) in
    let (s, data) := steps4 (length data) s data in
    (STEP4W (STEP4W (STEP4W (STEP4W 0 (crc0 s)) (crc1 s)) (crc2 s)) (crc3 s), data)
  else (l, data).

Lemma combine_ok s : words s -> STEP4W (STEP4W (STEP4W (STEP4W 0 (crc0 s)) (crc1 s)) (crc2 s)) (crc3 s) = combined s.
Proof.
  Transparent combined.
  intros (H0 & H1 & H2 & H3). unfold combined. rewrite (step4w_ok 0), Z.lxor_0_l by done.
  rewrite (step4w_ok _ (crc1 s)) by (done || by apply crc_bits_word).
  rewrite (step4w_ok _ (crc2 s)) by (done || by repeat (apply crc_bits_word || apply lxor_below || lia)).
  rewrite (step4w_ok _ (crc3 s)); [done| |done]. apply crc_bits_word, lxor_below; [lia| |done].
  apply crc_bits_word, lxor_below; [lia| |done]. by apply crc_bits_word.
Qed.
#[local] Opaque combined.

Lemma first_words l data : is_word l -> is_bytes data -> (16 <= length data)%nat ->
  let s := mk_strides (Z.lxor (ReadUint32LE data) l) (ReadUint32LE (drop 4 data)) (ReadUint32LE (drop 8 data)) (ReadUint32LE (drop 12 data)) in
  words s /\ combined s = crc_state l (take 16 data).
Proof.
  intros Hl Hd Hlen. destruct (read_word data ltac:(lia) Hd) as [H0 E0].
  destruct (read_word (drop 4 data)) as [H1 E1]; [rewrite length_drop; lia|by apply Forall_drop|].
  destruct (read_word (drop 8 data)) as [H2 E2]; [rewrite length_drop; lia|by apply Forall_drop|].
  destruct (read_word (drop 12 data)) as [H3 E3]; [rewrite length_drop; lia|by apply Forall_drop|].
  split; [split; [by apply lxor_below|done]|]. Transparent combined. unfold combined. cbn [crc0 crc1 crc2 crc3].
  rewrite (Z.lxor_comm (ReadUint32LE data) l), <- E0, <- E1, <- E2, <- E3, <- !crc_state_app. f_equal. symmetry. apply take_16.
Qed.
#[local] Opaque combined.

Lemma extend_body_ok l data : is_word l -> is_bytes data ->
  exists k, extend_body l data = (crc_state l (take k data), drop k data).
Proof.
  intros Hl Hd. unfold extend_body. destruct (Nat.leb_spec 16 (length data)) as [Hlen|]; [|by exists 0%nat].
  destruct (first_words l data Hl Hd Hlen) as [Hw Hc]. cbv zeta in *.
  set (s := mk_strides _ _ _ _) in *. destruct (steps16_ok (length data) s (drop 16 data) Hw) as [k1 Hk1]; [by apply Forall_drop|].
  destruct (steps16 _ _ _) as [s1 p1]. destruct Hk1 as (Hw1 & -> & Hc1).
  destruct (steps4_ok (length (drop k1 (drop 16 data))) s1 (drop k1 (drop 16 data)) Hw1) as [k2 Hk2]; [by do 2 apply Forall_drop|done|].
  destruct (steps4 _ _ _) as [s2 p2]. destruct Hk2 as (Hw2 & -> & Hc2).
  exists (16 + (k1 + k2))%nat. rewrite (combine_ok s2 Hw2), Hc2, Hc1, Hc, <- !crc_state_app, !drop_drop. f_equal. f_equal.
  rewrite <- (take_take_drop data 16 (k1 + k2)). f_equal. rewrite <- (take_take_drop (drop 16 data) k1 k2), drop_drop. done.
Qed.

(** The whole of [Extend], wherever the data is. *)
Lemma extend_ok addr crc data : is_word crc -> is_bytes data -> Extend addr crc data = crc32c crc data.
Proof.
  intros Hc Hd. assert (Hl : is_word (Z.lxor crc kCRC32Xor)) by (by apply lxor_below).
  assert (Hpre : exists k, (if RoundUp 4 addr <=? addr + Z.of_nat (length data)
            then steps1 (Z.to_nat (RoundUp 4 addr - addr)) (Z.lxor crc kCRC32Xor) data else (Z.lxor crc kCRC32Xor, data))
          = (crc_state (Z.lxor crc kCRC32Xor) (take k data), drop k data)).
  { destruct (_ <=? _); [|by exists 0%nat]. exists (Z.to_nat (RoundUp 4 addr - addr)). by apply steps1_ok. }
  destruct Hpre as [k1 E1]. unfold Extend. cbv zeta. rewrite E1. fold (extend_body (crc_state (Z.lxor crc kCRC32Xor) (take k1 data)) (drop k1 data)).
  assert (Hl1 : is_word (crc_state (Z.lxor crc kCRC32Xor) (take k1 data))) by (apply crc_state_word; [done|by apply Forall_take]).
  destruct (extend_body_ok _ (drop k1 data) Hl1) as [k2 E2]; [by apply Forall_drop|]. rewrite E2.
  rewrite steps1_ok; [|apply crc_state_word; [done|by apply Forall_take, Forall_drop]|by do 2 apply Forall_drop].
  rewrite (take_ge (drop k2 _)) by lia. unfold crc32c. by rewrite <- !crc_state_app, take_drop, take_drop.
Qed.

(** The checksum of a string in two parts. *)
Lemma crc32c_app crc d1 d2 : crc32c crc (d1 ++ d2) = crc32c (crc32c crc d1) d2.
Proof. unfold crc32c. by rewrite crc_state_app, Z.lxor_assoc, Z.lxor_nilpotent, Z.lxor_0_r. Qed.

Lemma crc32c_word crc data : is_word crc -> is_bytes data -> is_word (crc32c crc data).
Proof. intros Hc Hd. apply lxor_below; [lia| |lia]. apply crc_state_word; [by apply lxor_below|done]. Qed.

(** C26: the checksum over tables and four strides is CRC-32C, bit by bit, for any
    alignment of the data, and continuing a checksum gives that of the whole string. *)
Theorem extend_is_crc32c a1 a2 crc d1 d2 :
  is_word crc -> is_bytes d1 -> is_bytes d2 ->
  Extend a1 crc d1 = crc32c crc d1 /\ Extend a2 (Extend a1 crc d1) d2 = crc32c crc (d1 ++ d2).
Proof.
  intros Hc H1 H2. rewrite (extend_ok a1) by done. split; [done|]. rewrite extend_ok by (done || by apply crc32c_word).
  by rewrite crc32c_app.
Qed.

Lemma extend_is_crc32c_witness :
  Extend 1001 0 (repeat 7 37) = crc32c 0 (repeat 7 37) /\
  Extend 2000 (Extend 1001 0 (repeat 7 37)) (repeat 9 3) = crc32c 0 (repeat 7 37 ++ repeat 9 3).
Proof. apply (extend_is_crc32c 1001 2000 0 (repeat 7 37) (repeat 9 3)); [lia|by repeat constructor|by repeat constructor]. Defined.

(** * Masks *)

Lemma unmask_mask crc : is_word crc -> Unmask (Mask crc) = crc.
Proof.
  intros Hc. assert (Hhi : 0 <= crc / 2 ^ 15 < 2 ^ 17) by (split; [apply Z.div_pos|apply Z.div_lt_upper_bound]; lia).
  pose proof (Z.mod_pos_bound crc (2 ^ 15) ltac:(lia)) as Hlo.
  assert (E1 : Z.lor (Z.shiftr crc 15) (u32 (Z.shiftl crc 17)) = crc / 2 ^ 15 + crc mod 2 ^ 15 * 2 ^ 17).
  { rewrite shiftr_div by lia. unfold u32. rewrite Z.shiftl_mul_pow2 by lia. change (2 ^ 32) with (2 ^ 15 * 2 ^ 17).
    rewrite Z.mul_mod_distr_r by lia. by apply lor_add_shifted. }
  unfold Unmask, Mask. cbv zeta. rewrite E1. set (r := crc / 2 ^ 15 + crc mod 2 ^ 15 * 2 ^ 17).
  assert (Hr : is_word r) by (unfold r; change (2 ^ 32) with (2 ^ 15 * 2 ^ 17); lia).
  assert (E2 : u32 (u32 (r + kMaskDelta) - kMaskDelta) = r).
  { unfold u32. rewrite Zminus_mod_idemp_l. replace (r + kMaskDelta - kMaskDelta) with r by lia. by apply Z.mod_small. }
  rewrite E2. rewrite shiftr_div by lia. unfold u32. rewrite Z.shiftl_mul_pow2 by lia. change (2 ^ 32) with (2 ^ 17 * 2 ^ 15) at 1.
  rewrite Z.mul_mod_distr_r by lia. unfold r. rewrite Z.div_add, (Z.div_small (crc / 2 ^ 15) (2 ^ 17)), Z.mod_add, (Z.mod_small (crc / 2 ^ 15) (2 ^ 17)) by lia.
  rewrite Z.add_0_l, lor_add_shifted by lia. pose proof (Z.div_mod crc (2 ^ 15) ltac:(lia)). lia.
Qed.

Lemma mask_word crc : is_word (Mask crc).
Proof. apply u32_range. Qed.
