(* ===== verification/Conc.v ===== *)
(** Threads that share an object without a lock.

    [prog T A] is a function as the sequence of its accesses to shared memory: a value or
    an atomic action and what follows its result.  The same definition runs alone
    ([run], a computation of the monad [SM]) and interleaved with other threads ([cstep]).
    The memory is sequentially consistent: what weaker orders allow is not modelled.

    [reads] and [writes] are a small rely-guarantee logic for one writer and any number of
    readers: the shared state has a history [G] that only grows, the writer moves along
    it, a reader must cope with any later state at each of its actions. *)
From stdpp Require Import base list numbers relations.
From Stdlib Require Import ZArith Lia.
From S2P Require Import Prelude Cmem.

(** * Programs *)

Inductive prog (T A : Type) : Type :=
| Ret (a : A)
| Act {B : Type} (m : SM T B) (k : B -> prog T A).
Arguments Ret {T A} a.
Arguments Act {T A B} m k.

Definition act {T A} (m : SM T A) : prog T A := Act m Ret.

Fixpoint pbind {T A B} (p : prog T A) (k : A -> prog T B) : prog T B :=
  match p with
  | Ret a => k a
  | Act m k' => Act m (fun b => pbind (k' b) k)
  end.

Declare Scope prog_scope.
Delimit Scope prog_scope with prog.
Notation "'let!' x ':=' m 'in' k" := (pbind m (fun x => k))
  (at level 10, x pattern, m at level 100, k at level 200) : prog_scope.
Notation "m >>> k" := (pbind m (fun _ => k))
  (at level 100, k at level 200, right associativity) : prog_scope.

(** The loops of a program. *)
Fixpoint ploop {T St R} (fuel : nat) (body : St -> prog T (St + R)) (st : St) : prog T R :=
  match fuel with
  | O => Act nofuel Ret
  | S fuel => pbind (body st) (fun x => match x with inl st => ploop fuel body st | inr r => Ret r end)
  end.

(** The program on its own. *)
Fixpoint run {T A} (p : prog T A) : SM T A :=
  match p with
  | Ret a => ret a
  | Act m k => let* b := m in run (k b)
  end.

Lemma run_bind {T A B} (p : prog T A) (k : A -> prog T B) s w : run (pbind p k) s w = (let* a := run p in run (k a)) s w.
Proof.
  revert s w. induction p as [a|C m k' IH]; intros s w; [done|]. cbn. destruct (m s w); [apply IH|done..].
Qed.

(** * Interleavings *)

Section threads.
Context {T R : Type}.

Record config := mk_config { threads : list (prog T R); shared : T; cworld : world }.

(** Some thread performs its next action. *)
Inductive cstep : config -> config -> Prop :=
| cstep_act ts i B (m : SM T B) k s w b s' w' :
    ts !! i = Some (Act m k) -> m s w = Ok b s' w' ->
    cstep (mk_config ts s w) (mk_config (<[i := k b]> ts) s' w').

(** No next action has undefined behaviour, fails or is out of fuel. *)
Definition safe (c : config) : Prop :=
  forall i B (m : SM T B) k, threads c !! i = Some (Act m k) -> exists b s' w', m (shared c) (cworld c) = Ok b s' w'.

Definition spawn (p : prog T R) (c : config) : config := mk_config (threads c ++ [p]) (shared c) (cworld c).

End threads.
Arguments config : clear implicits.

(** ** Schedules *)

Definition step_thread {T R} (i : nat) (c : config T R) : option (config T R) :=
  match threads c !! i with
  | Some (Act m k) =>
      match m (shared c) (cworld c) with
      | Ok b s w => Some (mk_config (<[i := k b]> (threads c)) s w)
      | _ => None
      end
  | _ => None
  end.

Fixpoint schedule {T R} (l : list nat) (c : config T R) : option (config T R) :=
  match l with
  | [] => Some c
  | i :: l => match step_thread i c with Some c => schedule l c | None => None end
  end.

Lemma schedule_rtc {T R} l : forall c c' : config T R, schedule l c = Some c' -> rtc cstep c c'.
Proof.
  induction l as [|i l IH]; intros c c'; cbn; [by intros [= ->]|]. unfold step_thread. destruct c as [ts s w]. cbn.
  destruct (ts !! i) as [[a|B m k]|] eqn:Ei; [done| |done]. destruct (m s w) as [b s' w'| | |] eqn:Em; try done.
  intros H. eapply rtc_l; [by econstructor|by apply IH].
Qed.

(** ** How many actions a program takes at most *)

Section bounded.
Context {T : Type}.

Fixpoint bounded {A} (n : nat) (p : prog T A) : Prop :=
  match p with
  | Ret _ => True
  | Act m k => exists n', n = S n' /\ forall b, bounded n' (k b)
  end.

Lemma bounded_mono {A} n n' (p : prog T A) : bounded n p -> (n <= n')%nat -> bounded n' p.
Proof.
  revert n n'. induction p as [a|B m k IH]; intros n n'; [done|]. intros (n1 & -> & Hk) Hn. destruct n' as [|n']; [lia|].
  exists n'. split; [done|]. intros b. apply (IH b n1); [done|lia].
Qed.

Lemma bounded_one {A} (m : SM T A) : bounded 1 (act m).
Proof. by exists 0%nat. Qed.

Lemma bounded_bind {A B} n n' (p : prog T A) (k : A -> prog T B) : bounded n p -> (forall a, bounded n' (k a)) -> bounded (n + n') (pbind p k).
Proof.
  revert n. induction p as [a|C m k' IH]; intros n Hp Hk; cbn; [eapply bounded_mono; [apply Hk|lia]|].
  destruct Hp as (n1 & -> & Hp). exists (n1 + n')%nat. split; [done|]. intros b. by apply IH.
Qed.

Lemma bounded_loop {St R} c fuel (body : St -> prog T (St + R)) : (forall st, bounded c (body st)) -> forall st, bounded (c * fuel + 1) (ploop fuel body st).
Proof.
  intros Hb. induction fuel as [|fuel IH]; intros st; cbn [ploop]; [eapply bounded_mono; [apply bounded_one|lia]|].
  eapply bounded_mono; [eapply bounded_bind; [apply Hb|intros [st'|r]; [apply IH|exact I]]|lia].
Qed.

End bounded.

(** [steps_of i n c c']: an execution in which thread [i] performs [n] actions. *)
Inductive steps_of {T R} (i : nat) : nat -> config T R -> config T R -> Prop :=
| steps_of_nil c : steps_of i 0 c c
| steps_of_own ts s w B (m : SM T B) k b s' w' n c' :
    ts !! i = Some (Act m k) -> m s w = Ok b s' w' -> steps_of i n (mk_config (<[i := k b]> ts) s' w') c' ->
    steps_of i (S n) (mk_config ts s w) c'
| steps_of_other ts s w j B (m : SM T B) k b s' w' n c' :
    j <> i -> ts !! j = Some (Act m k) -> m s w = Ok b s' w' -> steps_of i n (mk_config (<[j := k b]> ts) s' w') c' ->
    steps_of i n (mk_config ts s w) c'.

Lemma steps_of_rtc {T R} i n (c c' : config T R) : steps_of i n c c' -> rtc cstep c c'.
Proof. induction 1; [done|..]; (eapply rtc_l; [by econstructor|done]). Qed.

Lemma steps_of_bounded {T R} i n (c c' : config T R) N p : steps_of i n c c' -> threads c !! i = Some p -> bounded N p -> (n <= N)%nat.
Proof.
  intros Hs. revert N p. induction Hs as [c|ts s w B m k b s' w' n c' Ei Em Hs IH|ts s w j B m k b s' w' n c' Hj Ej Em Hs IH]; intros N p Ep Hp; cbn in *; [lia| |].
  - rewrite Ei in Ep. injection Ep as <-. destruct Hp as (N' & -> & Hk). enough (n <= N')%nat by lia.
    eapply IH; [apply list_lookup_insert_eq; by eapply lookup_lt_Some|apply Hk].
  - eapply IH; [|exact Hp]. by rewrite list_lookup_insert_ne.
Qed.

(** * Rely and guarantee *)

Class History (G : Type) := {
  later : relation G;
  later_preorder :: PreOrder later;
}.

Section logic.
Context {T G : Type} `{History G}.

(** The shared state at a point of the history. *)
Variable I : G -> T -> world -> Prop.

Fixpoint reads {A} (p : prog T A) (Q : G -> A -> Prop) (g : G) : Prop :=
  match p with
  | Ret a => Q g a
  | Act m k => forall g1 s w, later g g1 -> I g1 s w -> exists b, m s w = Ok b s w /\ reads (k b) Q g1
  end.

(** The writer knows the state: nobody else changes it. *)
Fixpoint writes {A} (p : prog T A) (Q : G -> T -> world -> A -> Prop) (g : G) (s : T) (w : world) : Prop :=
  match p with
  | Ret a => Q g s w a
  | Act m k => exists b g1 s1 w1, m s w = Ok b s1 w1 /\ later g g1 /\ I g1 s1 w1 /\ writes (k b) Q g1 s1 w1
  end.

Lemma prog_reads_bind {A B} (p : prog T A) (k : A -> prog T B) Q Q' g :
  reads p Q g -> (forall g1 a, later g g1 -> Q g1 a -> reads (k a) Q' g1) -> reads (pbind p k) Q' g.
Proof.
  revert g. induction p as [a|C m k' IH]; intros g Hp Hk; cbn in *; [by apply Hk|]. intros g1 s w Hg HI.
  destruct (Hp g1 s w Hg HI) as (b & Eb & Hb). exists b. split; [done|]. apply IH; [done|].
  intros g2 a Hg2. apply Hk. by trans g1.
Qed.

Lemma reads_later {A} (p : prog T A) Q g g1 : later g g1 -> reads p Q g -> (forall a, Q g a -> Q g1 a) -> reads p Q g1.
Proof.
  intros Hg. destruct p as [a|B m k]; cbn; [auto|]. intros Hp _ g2 s w Hg2 HI. apply Hp; [by trans g1|done].
Qed.

Lemma reads_mono {A} (p : prog T A) (Q Q' : G -> A -> Prop) g :
  reads p Q g -> (forall g1 a, later g g1 -> Q g1 a -> Q' g1 a) -> reads p Q' g.
Proof.
  revert g. induction p as [a|C m k' IH]; intros g Hp Hk; cbn in *; [by apply Hk|]. intros g1 s w Hg HI.
  destruct (Hp g1 s w Hg HI) as (b & Eb & Hb). exists b. split; [done|]. apply IH; [done|].
  intros g2 a Hg2. apply Hk. by trans g1.
Qed.

Lemma writes_bind {A B} (p : prog T A) (k : A -> prog T B) Q Q' g s w :
  writes p Q g s w -> (forall g1 s1 w1 a, later g g1 -> Q g1 s1 w1 a -> writes (k a) Q' g1 s1 w1) -> writes (pbind p k) Q' g s w.
Proof.
  revert g s w. induction p as [a|C m k' IH]; intros g s w Hp Hk; cbn in *; [by apply Hk|].
  destruct Hp as (b & g1 & s1 & w1 & Eb & Hg & HI & Hb). exists b, g1, s1, w1. repeat split; try done.
  apply IH; [done|]. intros g2 s2 w2 a Hg2. apply Hk. by trans g1.
Qed.

Lemma writes_mono {A} (p : prog T A) (Q Q' : G -> T -> world -> A -> Prop) g s w :
  writes p Q g s w -> (forall g1 s1 w1 a, later g g1 -> Q g1 s1 w1 a -> Q' g1 s1 w1 a) -> writes p Q' g s w.
Proof.
  revert g s w. induction p as [a|C m k' IH]; intros g s w Hp Hk; cbn in *; [by apply Hk|].
  destruct Hp as (b & g1 & s1 & w1 & Eb & Hg & HI & Hb). exists b, g1, s1, w1. repeat split; try done.
  apply IH; [done|]. intros g2 s2 w2 a Hg2. apply Hk. by trans g1.
Qed.

Lemma writes_inv {A} (p : prog T A) Q g s w : I g s w -> writes p Q g s w -> writes p (fun g1 s1 w1 a => I g1 s1 w1 /\ Q g1 s1 w1 a) g s w.
Proof.
  revert g s w. induction p as [a|C m k IH]; intros g s w HI Hp; cbn in *; [done|].
  destruct Hp as (b & g1 & s1 & w1 & Eb & Hg & HI1 & Hb). exists b, g1, s1, w1. repeat split; try done. by apply IH.
Qed.

(** ** Alone *)

Lemma writes_run {A} (p : prog T A) Q g s w : I g s w -> writes p Q g s w ->
  exists g1 s1 w1 a, run p s w = Ok a s1 w1 /\ later g g1 /\ I g1 s1 w1 /\ Q g1 s1 w1 a.
Proof.
  revert g s w. induction p as [a|C m k IH]; intros g s w HI Hp; cbn in *; [by exists g, s, w, a|].
  destruct Hp as (b & g1 & s1 & w1 & -> & Hg & HI1 & Hb). destruct (IH b g1 s1 w1 HI1 Hb) as (g2 & s2 & w2 & a & E & Hg2 & ? & ?).
  exists g2, s2, w2, a. repeat split; try done. by trans g1.
Qed.

Lemma reads_run {A} (p : prog T A) Q g s w : I g s w -> reads p Q g -> exists a, run p s w = Ok a s w /\ Q g a.
Proof.
  intros HI Hp. induction p as [a|C m k IH]; cbn in *; [by exists a|].
  destruct (Hp g s w) as (b & -> & Hb); [done..|]. by apply IH.
Qed.

(** ** Interleaved *)

Context {A : Type}.

(** The writer is the first thread. *)
Definition pool_ok (QW : G -> T -> world -> A -> Prop) (QR : nat -> G -> A -> Prop) (g : G) (c : config T A) : Prop :=
  I g (shared c) (cworld c) /\
  (exists p, threads c !! 0%nat = Some p /\ writes p QW g (shared c) (cworld c)) /\
  forall i p, threads c !! S i = Some p -> exists g1, later g1 g /\ reads p (QR i) g1.

Lemma pool_safe QW QR g c : pool_ok QW QR g c -> safe c.
Proof.
  intros (HI & (p & Ep & Hp) & Hr) [|i] B m k Ei.
  - rewrite Ep in Ei. injection Ei as ->. destruct Hp as (b & g1 & s1 & w1 & E & _). by exists b, s1, w1.
  - destruct (Hr i _ Ei) as (g1 & Hg1 & Hq). destruct (Hq g _ _ Hg1 HI) as (b & E & _). by exists b, (shared c), (cworld c).
Qed.

Lemma pool_step QW QR g c c' : pool_ok QW QR g c -> cstep c c' -> exists g', later g g' /\ pool_ok QW QR g' c'.
Proof.
  intros (HI & (p & Ep & Hp) & Hr) Hstep. destruct Hstep as [ts i B m k s w b s' w' Ei Em]. cbn in *. destruct i as [|i].
  - rewrite Ep in Ei. injection Ei as ->. destruct Hp as (b1 & g1 & s1 & w1 & E & Hg & HI1 & Hw). rewrite Em in E. injection E as <- <- <-.
    exists g1. split; [done|]. split; [done|]. split.
    + exists (k b). split; [|done]. apply list_lookup_insert_eq. by apply lookup_lt_Some in Ep.
    + intros j q Hj. cbn in Hj. rewrite list_lookup_insert_ne in Hj by done. destruct (Hr j q Hj) as (g2 & Hg2 & Hq).
      exists g2. split; [by trans g|done].
  - destruct (Hr i _ Ei) as (g1 & Hg1 & Hq). destruct (Hq g s w Hg1 HI) as (b1 & E & Hb). rewrite Em in E. injection E as <- <- <-.
    exists g. split; [done|]. split; [done|]. split.
    + exists p. split; [|done]. cbn. by rewrite list_lookup_insert_ne by done.
    + intros j q Hj. cbn in Hj. destruct (decide (S j = S i)) as [[= ->]|Hne].
      * rewrite list_lookup_insert_eq in Hj by (by apply lookup_lt_Some in Ei). injection Hj as <-. by exists g.
      * rewrite list_lookup_insert_ne in Hj by done. by apply Hr.
Qed.

Lemma pool_steps QW QR g c c' : pool_ok QW QR g c -> rtc cstep c c' -> exists g', later g g' /\ pool_ok QW QR g' c'.
Proof.
  intros Hc Hs. revert g Hc. induction Hs as [c|c c1 c2 Hstep _ IH]; intros g Hc; [by exists g|].
  destruct (pool_step QW QR g c c1 Hc Hstep) as (g1 & Hg1 & H1). destruct (IH g1 H1) as (g2 & Hg2 & H2).
  exists g2. split; [by trans g1|done].
Qed.

End logic.

(** ** A writer that only reads *)

(** Nothing happens: the history of a thread that is on its own. *)
Definition still {G} : History G := {| later := eq; later_preorder := _ |}.

Lemma still_writes {T G A} `{History G} I (p : prog T A) Q g s w :
  I g s w -> @reads T G still I A p Q g -> writes I p (fun g1 s1 w1 a => g1 = g /\ s1 = s /\ w1 = w /\ Q g a) g s w.
Proof.
  intros HI. induction p as [a|C m k IH]; intros Hp; cbn in *; [done|].
  destruct (Hp g s w) as (b & Eb & Hb); [done..|]. exists b, g, s, w. repeat split; try done. by apply IH.
Qed.
