(* ===== verification/LdbEnv.v ===== *)
(** LevelDB's Status (include/leveldb/status.h) and the files of its Env
    (include/leveldb/env.h): the interfaces through which the logs and tables reach the
    file system, with the laws that their clients rely on, and files in memory. *)
From stdpp Require Import base list strings numbers option.
From Stdlib Require Import ZArith Lia.
From S2P Require Import Prelude.

(** * Status *)

Inductive Code := kOk | kNotFound | kCorruption | kNotSupported | kInvalidArgument | kIOError.

(** [state_]: NULL, or a code and a message. *)
Inductive Status := OK | state (c : Code) (msg : string).

Definition ok (s : Status) : bool := match s with OK => true | _ => false end.
Definition code (s : Status) : Code := match s with OK => kOk | state c _ => c end.

(** The message of two parts. *)
Definition make_status (c : Code) (msg msg2 : string) : Status :=
  state c (if String.eqb msg2 "" then msg else msg ++ ": " ++ msg2)%string.

Definition NotFound (msg : string) : Status := make_status kNotFound msg "".
Definition Corruption (msg : string) : Status := make_status kCorruption msg "".
Definition NotSupported (msg : string) : Status := make_status kNotSupported msg "".
Definition InvalidArgument (msg : string) : Status := make_status kInvalidArgument msg "".
Definition IOError (msg : string) : Status := make_status kIOError msg "".

#[export] Instance code_eq_dec : EqDecision Code.
Proof. solve_decision. Defined.
#[export] Instance status_eq_dec : EqDecision Status.
Proof. solve_decision. Defined.

(** * Files *)

Class WritableFile (F : Type) := {
  Append : list Z -> F -> Status * F;
  Flush : F -> Status * F;
}.

Class SequentialFile (F : Type) := {
  Read : Z -> F -> Status * list Z * F;
  Skip : Z -> F -> Status * F;
}.

(** A file that is written.  [contents] is what it holds with the data that is still in its
    buffer, [flushed] how many of these bytes were handed to the operating system.  A call that
    fails may have lost what was in the buffer, of which a part, and a part of the new data,
    may have been written; what was flushed stays.  Later calls may succeed or fail.  The files
    are buffered, as env.h asks for: Append of a few bytes to a file whose buffer is empty
    succeeds. *)
Class WritableLaws (F : Type) `{WritableFile F} := {
  contents : F -> list Z;
  flushed : F -> nat;
  flushed_le f : (flushed f <= length (contents f))%nat;
  append_ok l f f' : Append l f = (OK, f') -> contents f' = contents f ++ l /\ (flushed f <= flushed f')%nat;
  append_fail l f s f' : Append l f = (s, f') -> ok s = false ->
    (flushed f <= flushed f')%nat /\ exists k, (flushed f <= k)%nat /\ contents f' = take k (contents f ++ l);
  append_buffered l f : flushed f = length (contents f) -> (length l <= 6)%nat -> ok (fst (Append l f)) = true;
  flush_ok f f' : Flush f = (OK, f') -> contents f' = contents f /\ flushed f' = length (contents f);
  flush_fail f s f' : Flush f = (s, f') -> ok s = false ->
    (flushed f <= flushed f')%nat /\ exists k, (flushed f <= k)%nat /\ contents f' = take k (contents f);
}.

(** [WritableFile::Sync] *)
Class SyncFile (F : Type) := Sync : F -> Status * F.

(** Syncing does not change what the file holds, unless it fails when it flushes the buffer; as
    many of its first bytes survive a crash of the machine as it held when it was synced last,
    or more. *)
Class SyncLaws (F : Type) `{WritableLaws F} `{SyncFile F} := {
  durable : F -> nat;
  durable_append l f s f' : Append l f = (s, f') -> (durable f <= durable f')%nat;
  durable_flush f s f' : Flush f = (s, f') -> (durable f <= durable f')%nat;
  durable_sync f s f' : Sync f = (s, f') -> (durable f <= durable f')%nat;
  sync_ok f f' : Sync f = (OK, f') ->
    contents f' = contents f /\ (flushed f <= flushed f')%nat /\ (length (contents f) <= durable f')%nat;
  sync_fail f s f' : Sync f = (s, f') -> ok s = false ->
    (flushed f <= flushed f')%nat /\ exists k, (flushed f <= k)%nat /\ contents f' = take k (contents f);
}.

(** A file that is read: what is left of it. *)
Class SequentialLaws (F : Type) `{SequentialFile F} := {
  remaining : F -> list Z;
  read_ok n f : 0 <= n -> exists f', Read n f = (OK, take (Z.to_nat n) (remaining f), f') /\ remaining f' = drop (Z.to_nat n) (remaining f);
  skip_ok n f : 0 <= n -> exists f', Skip n f = (OK, f') /\ remaining f' = drop (Z.to_nat n) (remaining f);
}.

(** ** The files of a POSIX system: [PosixWritableFile] of util/env_posix.cc *)

(** What a call of [write] returns: how much it wrote, or an error, which may be [EINTR];
    of the error, whether it is [ENOENT] and what [strerror] makes of it. *)
Inductive write_result := Wrote (n : nat) | Interrupted | WriteError (enoent : bool) (message : string).

(** The file is open.  [disk] is what was written to [fd_], [buf] the bytes of [buf_] up to
    [pos_]; [writes] are the results of the calls of [write] to come, and [syncs] those of
    [open], [fsync] and the like; when they are used up, calls succeed.  [kept] is how much of
    [disk] was there when the file was synced last. *)
Record posix_file := mk_posix {
  disk_bytes : list Z;
  buf : list Z;
  is_manifest_ : bool;
  filename_ : string;
  dirname_ : string;
  writes : list write_result;
  syncs : list (option (bool * string));
  kept : nat;
}.

Definition kWritableFileBufferSize : nat := Z.to_nat 65536.

Definition PosixError (context : string) (enoent : bool) (message : string) : Status :=
  make_status (if enoent then kNotFound else kIOError) context message.

(** [WriteUnbuffered]: the status, what is on the disk then and the results that are left. *)
Fixpoint WriteUnbuffered (filename : string) (results : list write_result) (data disk : list Z) : Status * list Z * list write_result :=
  match data with
  | [] => (OK, disk, results)
  | _ =>
      match results with
      | [] => (OK, disk ++ data, [])
      | Wrote n :: results => WriteUnbuffered filename results (drop n data) (disk ++ take n data)
      | Interrupted :: results => WriteUnbuffered filename results data disk
      | WriteError enoent message :: results => (PosixError filename enoent message, disk, results)
      end
  end.

Definition write_unbuffered (data : list Z) (f : posix_file) : Status * posix_file :=
  let '(s, d, results) := WriteUnbuffered (filename_ f) (writes f) data (disk_bytes f) in
  (s, mk_posix d (buf f) (is_manifest_ f) (filename_ f) (dirname_ f) results (syncs f) (kept f)).

Definition set_buf (b : list Z) (f : posix_file) : posix_file :=
  mk_posix (disk_bytes f) b (is_manifest_ f) (filename_ f) (dirname_ f) (writes f) (syncs f) (kept f).

Definition FlushBuffer (f : posix_file) : Status * posix_file :=
  let (s, f) := write_unbuffered (buf f) f in (s, set_buf [] f).

Definition posix_Append (data : list Z) (f : posix_file) : Status * posix_file :=
  let copy_size := Nat.min (length data) (kWritableFileBufferSize - length (buf f)) in
  let f := set_buf (buf f ++ take copy_size data) f in
  let data := drop copy_size data in
  if (length data =? 0)%nat then (OK, f)
  else
    let (status, f) := FlushBuffer f in
    if negb (ok status) then (status, f)
    else if (length data <? kWritableFileBufferSize)%nat then (OK, set_buf data f)
    else write_unbuffered data f.

#[export] Instance posix_writable : WritableFile posix_file := {
  Append := posix_Append;
  Flush := FlushBuffer;
}.

(** The result of a call of [open] or [fsync]. *)
Definition call_result (f : posix_file) : option (bool * string) * posix_file :=
  match syncs f with
  | [] => (None, f)
  | r :: rest => (r, mk_posix (disk_bytes f) (buf f) (is_manifest_ f) (filename_ f) (dirname_ f) (writes f) rest (kept f))
  end.

Definition SyncFd (path : string) (f : posix_file) : Status * posix_file :=
  match call_result f with
  | (None, f) => (OK, f)
  | (Some (enoent, message), f) => (PosixError path enoent message, f)
  end.

Definition SyncDirIfManifest (f : posix_file) : Status * posix_file :=
  if negb (is_manifest_ f) then (OK, f)
  else
    match call_result f with
    | (Some (enoent, message), f) => (PosixError (dirname_ f) enoent message, f)
    | (None, f) => SyncFd (dirname_ f) f
    end.

Definition posix_Sync (f : posix_file) : Status * posix_file :=
  let (status, f) := SyncDirIfManifest f in
  if negb (ok status) then (status, f)
  else
    let (status, f) := FlushBuffer f in
    if negb (ok status) then (status, f)
    else
      let (status, f) := SyncFd (filename_ f) f in
      (status, if ok status
               then mk_posix (disk_bytes f) (buf f) (is_manifest_ f) (filename_ f) (dirname_ f) (writes f) (syncs f) (length (disk_bytes f))
               else f).

(** A file that was just created, on a system that behaves as the lists say. *)
Definition new_posix (filename : string) (writes : list write_result) (syncs : list (option (bool * string))) : posix_file :=
  mk_posix [] [] false filename "." writes syncs 0.

(** Writing adds to the disk all of the data, or a part and an error. *)
Lemma WriteUnbuffered_ok filename results : forall data disk s d results',
  WriteUnbuffered filename results data disk = (s, d, results') ->
  (ok s = true -> s = OK /\ d = disk ++ data) /\ exists k, d = disk ++ take k data.
Proof.
  assert (Hend : forall data disk : list Z, (ok OK = true -> OK = OK /\ disk ++ data = disk ++ data) /\ exists k, disk ++ data = disk ++ take k data)
    by (intros data disk; split; [done|]; exists (length data); by rewrite firstn_all).
  induction results as [|r results IH]; intros [|x data] disk s d results' E; cbn [WriteUnbuffered] in E.
  1,3: injection E as <- <- <-; split; [intros _; by rewrite app_nil_r|exists O; by rewrite app_nil_r].
  - injection E as <- <- <-. apply Hend.
  - destruct r as [n| |enoent message].
    + apply IH in E as [H1 [k H2]]. split.
      * intros Hs. destruct (H1 Hs) as [-> ->]. by rewrite <- app_assoc, take_drop.
      * exists (n + k)%nat. rewrite H2, <- app_assoc. f_equal. rewrite <- (take_drop n (take (n + k) _)). rewrite take_take, skipn_firstn_comm.
        by replace (Nat.min n (n + k)) with n by lia; replace (n + k - n)%nat with k by lia.
    + by apply IH in E.
    + injection E as <- <- <-. split; [unfold PosixError, make_status; by destruct enoent|]. exists O. by rewrite app_nil_r.
Qed.

Definition posix_contents (f : posix_file) : list Z := disk_bytes f ++ buf f.

Lemma write_unbuffered_ok data f s f' : write_unbuffered data f = (s, f') ->
  (ok s = true -> s = OK /\ disk_bytes f' = disk_bytes f ++ data) /\ (exists k, disk_bytes f' = disk_bytes f ++ take k data) /\
  buf f' = buf f /\ kept f' = kept f.
Proof.
  unfold write_unbuffered. destruct (WriteUnbuffered _ _ _ _) as [[s0 d] rs] eqn:E. intros [= <- <-].
  destruct (WriteUnbuffered_ok _ _ _ _ _ _ _ E) as [H1 H2]. by cbn.
Qed.

Lemma flush_buffer_ok f s f' : FlushBuffer f = (s, f') ->
  (ok s = true -> s = OK /\ disk_bytes f' = posix_contents f) /\
  (exists k, (length (disk_bytes f) <= k)%nat /\ disk_bytes f' = take k (posix_contents f)) /\ buf f' = [] /\ kept f' = kept f.
Proof.
  unfold FlushBuffer. destruct (write_unbuffered _ f) as [s0 f0] eqn:E. intros [= <- <-].
  destruct (write_unbuffered_ok _ _ _ _ E) as (H1 & [k H2] & _ & H4). unfold posix_contents. cbn. split; [done|]. split; [|done].
  exists (length (disk_bytes f) + k)%nat. split; [lia|]. by rewrite take_app_add.
Qed.

(** [f'] holds what [f] does, and [l] if the call succeeded; what was on the disk stays. *)
Definition posix_grows (l : list Z) (f : posix_file) (s : Status) (f' : posix_file) : Prop :=
  (length (disk_bytes f) <= length (disk_bytes f'))%nat /\ (ok s = true -> s = OK /\ posix_contents f' = posix_contents f ++ l) /\
  (exists k, (length (disk_bytes f) <= k)%nat /\ posix_contents f' = take k (posix_contents f ++ l)) /\ kept f' = kept f.

Lemma flush_buffer_grows f s f' : FlushBuffer f = (s, f') -> posix_grows [] f s f'.
Proof.
  intros E. destruct (flush_buffer_ok f s f' E) as (H1 & (k & Hk & H2) & H3 & H4). unfold posix_grows. rewrite app_nil_r.
  assert (Hc : posix_contents f' = disk_bytes f') by (unfold posix_contents; by rewrite H3, app_nil_r). rewrite Hc.
  split; [|split; [done|split; [by exists k|done]]]. rewrite H2, length_take. unfold posix_contents. rewrite length_app. lia.
Qed.

Lemma posix_append_grows l f s f' : posix_Append l f = (s, f') -> posix_grows l f s f'.
Proof.
  unfold posix_Append. set (n := Nat.min _ _). set (f0 := set_buf _ f).
  assert (H0 : posix_contents f0 ++ drop n l = posix_contents f ++ l)
    by (unfold posix_contents, f0; cbn; rewrite <- !app_assoc; by rewrite take_drop).
  unfold posix_grows. rewrite <- H0. change (disk_bytes f) with (disk_bytes f0). change (kept f) with (kept f0). clearbody f0. clear H0.
  destruct (Nat.eqb_spec (length (drop n l)) 0) as [Hn|Hn].
  { intros [= <- <-]. apply nil_length_inv in Hn as ->. rewrite app_nil_r. split; [done|]. split; [done|]. split; [|done].
    exists (length (posix_contents f0)). rewrite firstn_all. split; [|done]. unfold posix_contents. rewrite length_app. lia. }
  set (rest := drop n l) in *. destruct (FlushBuffer f0) as [s1 f1] eqn:E1. destruct (flush_buffer_ok _ _ _ E1) as (H1 & (k & Hk & H2) & H3 & H4).
  assert (Hc1 : posix_contents f1 = disk_bytes f1) by (unfold posix_contents; by rewrite H3, app_nil_r).
  assert (Hlen : (length (disk_bytes f0) <= length (disk_bytes f1))%nat) by (rewrite H2, length_take; unfold posix_contents; rewrite length_app; lia).
  destruct (ok s1) eqn:Es1; cbn [negb].
  2: { intros [= <- <-]. split; [done|]. split; [congruence|]. split; [|done]. exists (Nat.min k (length (posix_contents f0))). rewrite Hc1, H2.
       split; [unfold posix_contents; rewrite length_app; lia|]. rewrite take_app_le by lia.
       destruct (Nat.le_gt_cases k (length (posix_contents f0))); [by rewrite Nat.min_l by lia|]. rewrite Nat.min_r by lia. by rewrite !take_ge by lia. }
  destruct (H1 eq_refl) as [-> Hd1]. destruct (Nat.ltb_spec (length rest) kWritableFileBufferSize).
  - intros [= <- <-]. cbn [set_buf disk_bytes kept]. unfold posix_contents at 1 3. cbn [set_buf disk_bytes buf]. rewrite Hd1. split; [unfold posix_contents; rewrite length_app; lia|]. split; [done|]. split; [|done].
    exists (length (posix_contents f0 ++ rest)). rewrite firstn_all. split; [|done]. unfold posix_contents. rewrite !length_app. lia.
  - intros E2. destruct (write_unbuffered_ok _ _ _ _ E2) as (H5 & [k2 H6] & H7 & H8).
    assert (Hc2 : posix_contents f' = disk_bytes f') by (unfold posix_contents; by rewrite H7, H3, app_nil_r). rewrite Hc2. split; [rewrite H6, length_app; lia|].
    split; [intros Hs; destruct (H5 Hs) as [-> ->]; by rewrite Hd1|]. split; [|congruence]. exists (length (posix_contents f0) + k2)%nat. split; [unfold posix_contents; rewrite length_app; lia|].
    by rewrite take_app_add, H6, Hd1.
Qed.

#[export] Program Instance posix_writable_laws : WritableLaws posix_file := {
  contents := posix_contents;
  flushed f := length (disk_bytes f);
}.
Next Obligation. intros f. cbn. unfold posix_contents. rewrite length_app. lia. Qed.
Next Obligation. intros l f f' E. destruct (posix_append_grows l f OK f' E) as (? & [_ ?] & _); done. Qed.
Next Obligation. intros l f s f' E _. by destruct (posix_append_grows l f s f' E) as (? & _ & ? & _). Qed.
Next Obligation.
  intros l f Hf Hl. cbn in Hf. unfold posix_contents in Hf. rewrite length_app in Hf.
  cbn. unfold posix_Append, kWritableFileBufferSize. replace (length (buf f)) with O by lia. rewrite Nat.min_l by lia. rewrite length_drop, Nat.sub_diag. done.
Qed.
Next Obligation.
  intros f f' E. destruct (flush_buffer_grows f OK f' E) as (_ & [_ Hc] & _); [done|]. rewrite app_nil_r in Hc. destruct (flush_buffer_ok f OK f' E) as ([_ Hd] & _); [done|]. cbn. by rewrite Hd.
Qed.
Next Obligation. intros f s f' E _. destruct (flush_buffer_grows f s f' E) as (? & _ & Hk & _). by rewrite app_nil_r in Hk. Qed.

#[export] Instance posix_sync : SyncFile posix_file := posix_Sync.

(** The calls of [open] and [fsync] leave the data alone. *)
Definition same_file (f f' : posix_file) : Prop := disk_bytes f' = disk_bytes f /\ buf f' = buf f /\ kept f' = kept f.

Lemma sync_fd_same path f s f' : SyncFd path f = (s, f') -> same_file f f' /\ (ok s = true -> s = OK).
Proof.
  unfold SyncFd, call_result, PosixError, make_status. destruct (syncs f) as [|[[e m]|] rest]; intros [= <- <-]; split; done || by destruct e.
Qed.

Lemma sync_dir_same f s f' : SyncDirIfManifest f = (s, f') -> same_file f f' /\ (ok s = true -> s = OK).
Proof.
  unfold SyncDirIfManifest. destruct (is_manifest_ f); cbn [negb]; [|by intros [= <- <-]].
  destruct (call_result f) as [r f0] eqn:E0. assert (Hs : same_file f f0).
  { unfold call_result in E0. destruct (syncs f) as [|x rest]; injection E0 as <- <-; done. }
  destruct r as [[e m]|]; [intros [= <- <-]; split; [done|by destruct e]|].
  intros E. destruct (sync_fd_same _ _ _ _ E) as [(? & ? & ?) ?]. split; [|done]. destruct Hs as (? & ? & ?). repeat split; congruence.
Qed.

Lemma posix_sync_grows f s f' : posix_Sync f = (s, f') ->
  (length (disk_bytes f) <= length (disk_bytes f'))%nat /\
  (ok s = true -> s = OK /\ posix_contents f' = posix_contents f /\ kept f' = length (posix_contents f) /\ disk_bytes f' = posix_contents f) /\
  (exists k, (length (disk_bytes f) <= k)%nat /\ posix_contents f' = take k (posix_contents f)) /\ (ok s = false -> kept f' = kept f).
Proof.
  unfold posix_Sync. destruct (SyncDirIfManifest f) as [s1 f1] eqn:E1. destruct (sync_dir_same _ _ _ E1) as [(Hd & Hb & Hk) Hs1].
  assert (Hc : posix_contents f1 = posix_contents f) by (unfold posix_contents; congruence). rewrite <- Hc, <- Hd, <- Hk. clear Hc Hd Hb Hk.
  destruct (ok s1) eqn:Eo1; cbn [negb].
  2: { intros [= <- <-]. split; [done|]. split; [congruence|]. split; [|done]. exists (length (posix_contents f1)). rewrite firstn_all. split; [|done]. unfold posix_contents. rewrite length_app. lia. }
  destruct (FlushBuffer f1) as [s2 f2] eqn:E2. pose proof (flush_buffer_grows _ _ _ E2) as (Hl & Hok & Hk & Hkept). rewrite app_nil_r in Hok, Hk.
  destruct (flush_buffer_ok _ _ _ E2) as (Hdisk & _ & Hbuf & _).
  destruct (ok s2) eqn:Eo2; cbn [negb]; [|intros [= <- <-]; split; [done|]; split; [congruence|]; done].
  destruct (SyncFd (filename_ f2) f2) as [s3 f3] eqn:E3. destruct (sync_fd_same _ _ _ _ E3) as [(Hd & Hb & Hk3) Hs3]. destruct (Hok eq_refl) as [_ Hc2]. destruct (Hdisk eq_refl) as [_ Hd2].
  assert (Hc3 : disk_bytes f3 ++ [] = posix_contents f1) by (by rewrite Hd, Hd2, app_nil_r).
  intros [= <- <-]. destruct (ok s3) eqn:Eo3.
  - specialize (Hs3 eq_refl) as ->. set (f' := mk_posix _ _ _ _ _ _ _ _).
    assert (Hc : posix_contents f' = posix_contents f1) by (unfold posix_contents at 1; cbn; by rewrite Hb, Hbuf).
    rewrite Hc. cbn [f' disk_bytes kept]. rewrite Hd. split; [done|]. split; [by rewrite Hd2|]. split; [|congruence].
    exists (length (posix_contents f1)). rewrite firstn_all. split; [|done]. unfold posix_contents. rewrite length_app. lia.
  - split; [by rewrite Hd|]. split; [congruence|]. split; [|by rewrite Hk3].
    exists (length (posix_contents f1)). rewrite firstn_all. split; [unfold posix_contents; rewrite length_app; lia|]. unfold posix_contents at 1. by rewrite Hb, Hbuf, Hc3.
Qed.

(** Of what was synced, as much survives as is still there. *)
#[export] Program Instance posix_sync_laws : SyncLaws posix_file := {
  durable f := Nat.min (kept f) (length (disk_bytes f));
}.
Next Obligation. intros l f s f' E. destruct (posix_append_grows _ _ _ _ E) as (? & _ & _ & ->). lia. Qed.
Next Obligation. intros f s f' E. destruct (flush_buffer_grows _ _ _ E) as (? & _ & _ & ->). lia. Qed.
Next Obligation.
  intros f s f' E. destruct (posix_sync_grows _ _ _ E) as (Hl & Hok & _ & Hf). destruct (ok s).
  - destruct (Hok eq_refl) as (_ & _ & -> & Hd). rewrite Hd in *. lia.
  - rewrite Hf by done. lia.
Qed.
Next Obligation. intros f f' E. destruct (posix_sync_grows _ _ _ E) as (? & Hok & _ & _). destruct (Hok eq_refl) as (_ & ? & -> & ->). cbn. split; [done|]. split; [done|lia]. Qed.
Next Obligation. intros f s f' E _. destruct (posix_sync_grows _ _ _ E) as (? & _ & ? & _). done. Qed.

#[export] Instance list_sequential : SequentialFile (list Z) := {
  Read n f := (OK, take (Z.to_nat n) f, drop (Z.to_nat n) f);
  Skip n f := (OK, drop (Z.to_nat n) f);
}.

#[export] Program Instance list_sequential_laws : SequentialLaws (list Z) := {
  remaining f := f;
}.
Next Obligation. intros n f _. by eexists. Qed.
Next Obligation. intros n f _. by eexists. Qed.
