(* ===== verification/LdbLog.v ===== *)
(** LevelDB's write-ahead log: db/log_format.h, db/log_writer.h, db/log_writer.cc,
    db/log_reader.h and db/log_reader.cc, with the loop over a log in db/dumpfile.cc.

    A log is a sequence of blocks of 32 KB; a record is one or more fragments, each with a
    checksum, its length and its type, and never crosses a block.  [UB] is a failed
    assertion.  The reader keeps the calls of [Reporter::Corruption] in [drops]. *)
From stdpp Require Import base list strings pretty numbers option.
From Stdlib Require Import ZArith Lia.
From S2P Require Import Prelude Cmem LdbCoding LdbCrc LdbEnv.

(** * log_format.h *)

Definition kZeroType : Z := 0.
Definition kFullType : Z := 1.
Definition kFirstType : Z := 2.
Definition kMiddleType : Z := 3.
Definition kLastType : Z := 4.
Definition kMaxRecordType : Z := kLastType.
Definition kBlockSize : Z := 32768.
Definition kHeaderSize : Z := 4 + 2 + 1.

(** Where in memory the bytes of a checksum are: the application's choice. *)
Class Placement := address : list Z -> Z.

Section writer.
Context `{Placement} {F : Type} `{WritableFile F}.

Record Writer := mk_writer {
  dest : F;
  block_offset : Z;
  type_crc : list Z;
}.

Definition set_dest (f : F) (w : Writer) : Writer := mk_writer f (block_offset w) (type_crc w).
Definition set_block_offset (n : Z) (w : Writer) : Writer := mk_writer (dest w) n (type_crc w).

Definition InitTypeCrc : list Z :=
  map (fun i => let t := [u8 (Z.of_nat i)] in Value (address t) t) (seq 0 (Z.to_nat kMaxRecordType + 1)).

Definition new_Writer (dest : F) : Writer := mk_writer dest 0 InitTypeCrc.
Definition reopen_Writer (dest : F) (dest_length : Z) : Writer := mk_writer dest (dest_length mod kBlockSize) InitTypeCrc.

(** [dest_->Append] and [dest_->Flush] *)
Definition dest_Append (l : list Z) : SM Writer Status :=
  let* w := get in let (s, f) := Append l (dest w) in modify (set_dest f);; ret s.
Definition dest_Flush : SM Writer Status :=
  let* w := get in let (s, f) := Flush (dest w) in modify (set_dest f);; ret s.

Definition EmitPhysicalRecord (t : Z) (ptr : list Z) : SM Writer Status :=
  let* w := get in
  let length := size ptr in
  assert_ (length <=? 0xffff);;
  assert_ (block_offset w + kHeaderSize + length <=? kBlockSize);;
  let crc := Extend (address ptr) (nth (Z.to_nat t) (type_crc w) 0) ptr in
  let crc := Mask crc in
  let buf := EncodeFixed32 crc ++ [u8 (Z.land length 0xff); u8 (Z.shiftr length 8); u8 t] in
  let* s := dest_Append buf in
  let* s :=
    if ok s then
      let* s := dest_Append ptr in
      if ok s then dest_Flush else ret s
    else ret s in
  modify (set_block_offset (block_offset w + (kHeaderSize + length)));;
  ret s.

(** The switch to a new block, behind a trailer of zeros. *)
Definition switch_block (leftover : Z) : SM Writer unit :=
  (if 0 <? leftover then let* _ := dest_Append (take (Z.to_nat leftover) [0; 0; 0; 0; 0; 0]) in ret tt else ret tt);;
  modify (set_block_offset 0).

(** One round of the loop of [AddRecord]; [ptr] is the rest of the slice. *)
Definition add_fragment (st : bool * list Z) : SM Writer ((bool * list Z) + Status) :=
  let (begin, ptr) := st in
  let left := size ptr in
  let* w := get in
  let leftover := kBlockSize - block_offset w in
  assert_ (0 <=? leftover);;
  (if leftover <? kHeaderSize then switch_block leftover else ret tt);;
  let* w := get in
  assert_ (0 <=? kBlockSize - block_offset w - kHeaderSize);;
  let avail := kBlockSize - block_offset w - kHeaderSize in
  let fragment_length := if left <? avail then left else avail in
  let end_ := left =? fragment_length in
  let type := if begin && end_ then kFullType else if begin then kFirstType else if end_ then kLastType else kMiddleType in
  let* s := EmitPhysicalRecord type (take (Z.to_nat fragment_length) ptr) in
  let ptr := drop (Z.to_nat fragment_length) ptr in
  if ok s && (0 <? size ptr) then ret (inl (false, ptr)) else ret (inr s).

(** Every round but the first takes a byte at least. *)
Definition AddRecord (slice : list Z) : SM Writer Status :=
  loop (S (S (length slice))) add_fragment (true, slice).

End writer.
Arguments Writer F : clear implicits.

Section reader.
Context `{Placement} {F : Type} `{SequentialFile F}.

Record Reader := mk_reader {
  file : F;
  has_reporter : bool;
  checksum : bool;
  initial_offset : Z;
  buffer : list Z;
  eof : bool;
  last_record_offset : Z;
  end_of_buffer_offset : Z;
  resyncing : bool;
  drops : list (Z * Status);
}.

Definition set_file f (r : Reader) := mk_reader f (has_reporter r) (checksum r) (initial_offset r) (buffer r) (eof r) (last_record_offset r) (end_of_buffer_offset r) (resyncing r) (drops r).
Definition set_buffer b (r : Reader) := mk_reader (file r) (has_reporter r) (checksum r) (initial_offset r) b (eof r) (last_record_offset r) (end_of_buffer_offset r) (resyncing r) (drops r).
Definition set_eof b (r : Reader) := mk_reader (file r) (has_reporter r) (checksum r) (initial_offset r) (buffer r) b (last_record_offset r) (end_of_buffer_offset r) (resyncing r) (drops r).
Definition set_last_record_offset n (r : Reader) := mk_reader (file r) (has_reporter r) (checksum r) (initial_offset r) (buffer r) (eof r) n (end_of_buffer_offset r) (resyncing r) (drops r).
Definition set_end_of_buffer_offset n (r : Reader) := mk_reader (file r) (has_reporter r) (checksum r) (initial_offset r) (buffer r) (eof r) (last_record_offset r) n (resyncing r) (drops r).
Definition set_resyncing b (r : Reader) := mk_reader (file r) (has_reporter r) (checksum r) (initial_offset r) (buffer r) (eof r) (last_record_offset r) (end_of_buffer_offset r) b (drops r).
Definition add_drop d (r : Reader) := mk_reader (file r) (has_reporter r) (checksum r) (initial_offset r) (buffer r) (eof r) (last_record_offset r) (end_of_buffer_offset r) (resyncing r) (drops r ++ [d]).

Definition new_Reader (f : F) (reporter checksum : bool) (initial_offset : Z) : Reader :=
  mk_reader f reporter checksum initial_offset [] false 0 0 (0 <? initial_offset) [].

Definition kEof : Z := kMaxRecordType + 1.
Definition kBadRecord : Z := kMaxRecordType + 2.

Definition ReportDrop (bytes : Z) (reason : Status) : SM Reader unit :=
  let* r := get in
  if has_reporter r && (initial_offset r <=? u64 (end_of_buffer_offset r - size (buffer r) - bytes))
  then modify (add_drop (bytes, reason)) else ret tt.

Definition ReportCorruption (bytes : Z) (reason : string) : SM Reader unit :=
  ReportDrop bytes (Corruption reason).

Definition SkipToInitialBlock : SM Reader bool :=
  let* r := get in
  let offset_in_block := initial_offset r mod kBlockSize in
  let block_start_location := initial_offset r - offset_in_block in
  let block_start_location :=
    if kBlockSize - 6 <? offset_in_block then u64 (block_start_location + kBlockSize) else block_start_location in
  modify (set_end_of_buffer_offset block_start_location);;
  if 0 <? block_start_location then
    let (skip_status, f) := Skip block_start_location (file r) in
    modify (set_file f);;
    if negb (ok skip_status) then ReportDrop block_start_location skip_status;; ret false
    else ret true
  else ret true.

(** The part of [ReadPhysicalRecord] behind the header check: the record at the head of the
    buffer.  The result is the type and, where it is assigned, the fragment. *)
Definition parse_record : SM Reader (Z * option (list Z)) :=
  let* r := get in
  let header := buffer r in
  let a := Z.land (nth 4 header 0) 0xff in
  let b := Z.land (nth 5 header 0) 0xff in
  let type := u32 (s8 (nth 6 header 0)) in
  let length := Z.lor a (Z.shiftl b 8) in
  if size (buffer r) <? kHeaderSize + length then
    let drop_size := size (buffer r) in
    modify (set_buffer []);;
    if negb (eof r) then ReportCorruption drop_size "bad record length";; ret (kBadRecord, None)
    else ret (kEof, None)
  else if (type =? kZeroType) && (length =? 0) then
    modify (set_buffer []);; ret (kBadRecord, None)
  else
    let body := take (Z.to_nat (1 + length)) (drop 6 header) in
    let bad_crc :=
      if checksum r then
        let expected_crc := Unmask (match DecodeFixed32 header with Some v => v | None => 0 end) in
        let actual_crc := Value (address body) body in
        negb (actual_crc =? expected_crc)
      else false in
    if bad_crc then
      let drop_size := size (buffer r) in
      modify (set_buffer []);;
      ReportCorruption drop_size "checksum mismatch";;
      ret (kBadRecord, None)
    else
      let rest := drop (Z.to_nat (kHeaderSize + length)) (buffer r) in
      modify (set_buffer rest);;
      if u64 (end_of_buffer_offset r - size rest - kHeaderSize - length) <? initial_offset r
      then ret (kBadRecord, Some [])
      else ret (type, Some (take (Z.to_nat length) (drop (Z.to_nat kHeaderSize) header))).

(** One round of the loop of [ReadPhysicalRecord]. *)
Definition physical_step (_ : unit) : SM Reader (unit + (Z * option (list Z))) :=
  let* r := get in
  if size (buffer r) <? kHeaderSize then
    if negb (eof r) then
      modify (set_buffer []);;
      let '(status, data, f) := Read kBlockSize (file r) in
      modify (set_file f);;
      modify (set_buffer data);;
      modify (set_end_of_buffer_offset (u64 (end_of_buffer_offset r + size data)));;
      if negb (ok status) then
        modify (set_buffer []);;
        ReportDrop kBlockSize status;;
        modify (set_eof true);;
        ret (inr (kEof, None))
      else
        (if size data <? kBlockSize then modify (set_eof true) else ret tt);;
        ret (inl tt)
    else
      modify (set_buffer []);; ret (inr (kEof, None))
  else let* x := parse_record in ret (inr x).

(** A round that goes on has read a block; the next one ends or has a short block. *)
Definition ReadPhysicalRecord (result : list Z) : SM Reader (Z * list Z) :=
  let* (type, fragment) := loop 3 physical_step tt in
  ret (type, match fragment with Some l => l | None => result end).

(** The local variables of the loop of [ReadRecord]. *)
Record locals := mk_locals {
  fragment : list Z;
  scratch : list Z;
  in_fragmented_record : bool;
  prospective_record_offset : Z;
}.

(** One round of the loop; [inr None] is [return false]. *)
Definition record_step (v : locals) : SM Reader (locals + option (list Z)) :=
  let* (record_type, fragment) := ReadPhysicalRecord (fragment v) in
  let v := mk_locals fragment (scratch v) (in_fragmented_record v) (prospective_record_offset v) in
  let* r := get in
  let physical_record_offset := u64 (end_of_buffer_offset r - size (buffer r) - kHeaderSize - size fragment) in
  let again := resyncing r && ((record_type =? kMiddleType) || (record_type =? kLastType)) in
  (if resyncing r && negb (record_type =? kMiddleType) then modify (set_resyncing false) else ret tt);;
  if again then ret (inl v)
  else if record_type =? kFullType then
    (if in_fragmented_record v && negb (size (scratch v) =? 0)
     then ReportCorruption (size (scratch v)) "partial record without end(1)" else ret tt);;
    modify (set_last_record_offset physical_record_offset);;
    ret (inr (Some fragment))
  else if record_type =? kFirstType then
    (if in_fragmented_record v && negb (size (scratch v) =? 0)
     then ReportCorruption (size (scratch v)) "partial record without end(2)" else ret tt);;
    ret (inl (mk_locals fragment fragment true physical_record_offset))
  else if record_type =? kMiddleType then
    if negb (in_fragmented_record v) then
      ReportCorruption (size fragment) "missing start of fragmented record(1)";; ret (inl v)
    else ret (inl (mk_locals fragment (scratch v ++ fragment) true (prospective_record_offset v)))
  else if record_type =? kLastType then
    if negb (in_fragmented_record v) then
      ReportCorruption (size fragment) "missing start of fragmented record(2)";; ret (inl v)
    else
      modify (set_last_record_offset (prospective_record_offset v));;
      ret (inr (Some (scratch v ++ fragment)))
  else if record_type =? kEof then ret (inr None)
  else if record_type =? kBadRecord then
    if in_fragmented_record v then
      ReportCorruption (size (scratch v)) "error in middle of record";;
      ret (inl (mk_locals fragment [] false (prospective_record_offset v)))
    else ret (inl v)
  else
    ReportCorruption (size fragment + (if in_fragmented_record v then size (scratch v) else 0)) (String.append "unknown record type " (pretty (Z.to_N record_type)));;
    ret (inl (mk_locals fragment [] false (prospective_record_offset v))).

(** [None]: false. *)
Definition ReadRecord (fuel : nat) : SM Reader (option (list Z)) :=
  let* r := get in
  let* go := if last_record_offset r <? initial_offset r then SkipToInitialBlock else ret true in
  if negb go then ret None
  else loop fuel record_step (mk_locals [] [] false 0).

Definition LastRecordOffset (r : Reader) : Z := last_record_offset r.

(** One round of the loop of [PrintLogContents]: [func] gets the offset and the record. *)
Definition print_step (fuel : nat) (out : list (Z * list Z)) : SM Reader (list (Z * list Z) + list (Z * list Z)) :=
  let* record := ReadRecord fuel in
  match record with
  | Some record => let* r := get in ret (inl (out ++ [(LastRecordOffset r, record)]))
  | None => ret (inr out)
  end.

(** The calls of [func]. *)
Definition PrintLogContents (fuel : nat) : SM Reader (list (Z * list Z)) := loop fuel (print_step fuel) [].

End reader.
Arguments Reader F : clear implicits.
