(* ===== verification/LdbLogRead.v ===== *)
(** The bytes of a log: the format as functions, and that [AddRecord] writes it.

    [layout b frs] are the bytes of the fragments [frs] from offset [b] of a block on;
    [fragments] cuts a record. *)
From stdpp Require Import base list strings numbers option.
From Stdlib Require Import ZArith Lia.
From S2P Require Import Prelude Cmem LdbCoding LdbCrc LdbCodingThms LdbEnv LdbLog.

Notation B := kBlockSize.

(** A fragment with its header. *)
Definition physical (t : Z) (d : list Z) : list Z :=
  EncodeFixed32 (Mask (crc32c 0 (t :: d))) ++ [size d mod 256; size d / 256; t] ++ d.

(** The rest of a block that is too short for a header is zeros. *)
Definition trailer (b : Z) : list Z := if B - b <? 7 then repeat 0 (Z.to_nat (B - b)) else [].
Definition start (b : Z) : Z := if B - b <? 7 then 0 else b.

Fixpoint layout (b : Z) (frs : list (Z * list Z)) : list Z :=
  match frs with
  | [] => []
  | (t, d) :: frs => trailer b ++ physical t d ++ layout (start b + 7 + size d) frs
  end.

(** The offset in the block behind the fragments. *)
Fixpoint layout_end (b : Z) (frs : list (Z * list Z)) : Z :=
  match frs with
  | [] => b
  | (t, d) :: frs => layout_end (start b + 7 + size d) frs
  end.

Definition fragment_type (begin end_ : bool) : Z :=
  if begin && end_ then kFullType else if begin then kFirstType else if end_ then kLastType else kMiddleType.

(** The fragments of a record at offset [b]; the second round at the latest takes a byte. *)
Fixpoint cut (n : nat) (b : Z) (begin : bool) (d : list Z) : list (Z * list Z) :=
  match n with
  | O => []
  | S n =>
      let avail := B - start b - 7 in
      if size d <=? avail then [(fragment_type begin true, d)]
      else (fragment_type begin false, take (Z.to_nat avail) d)
           :: cut n (start b + 7 + avail) false (drop (Z.to_nat avail) d)
  end.

Definition fragments (b : Z) (d : list Z) : list (Z * list Z) := cut (S (S (length d))) b true d.

(** A log of several records. *)
Fixpoint log_layout (b : Z) (records : list (list Z)) : list Z :=
  match records with
  | [] => []
  | d :: records => layout b (fragments b d) ++ log_layout (layout_end b (fragments b d)) records
  end.

Fixpoint log_end (b : Z) (records : list (list Z)) : Z :=
  match records with
  | [] => b
  | d :: records => log_end (layout_end b (fragments b d)) records
  end.

(** * Writing *)

Lemma start_range b : 0 <= b <= B -> 0 <= start b <= B - 7.
Proof. unfold start, kBlockSize. intros Hb. destruct (Z.ltb_spec (32768 - b) 7); lia. Qed.

Section writer.
Context `{Placement} {F : Type} `{WritableLaws F}.

(** Nothing is in the buffer. *)
Definition clean (f : F) : Prop := flushed f = length (contents f).

(** [f] has flushed [c], and holds [l] behind it, or, after an error, a part of [l]. *)
Definition wrote (c : list Z) (f : F) (s : Status) (l : list Z) : Prop :=
  (length c <= flushed f)%nat /\ if ok s then contents f = c ++ l else exists k, contents f = c ++ take k l.

Lemma clean_wrote f : clean f -> wrote (contents f) f OK [].
Proof. intros Hf. split; [by rewrite Hf|]. by rewrite app_nil_r. Qed.

Lemma take_past {A} (c l : list A) k : (length c <= k)%nat -> take k (c ++ l) = c ++ take (k - length c) l.
Proof. intros Hk. by rewrite take_app_ge. Qed.

Lemma append_wrote c l0 l f : wrote c f OK l0 -> wrote c (snd (Append l f)) (fst (Append l f)) (l0 ++ l).
Proof.
  intros [Hf Hc]. cbn in Hc. destruct (Append l f) as [s f'] eqn:E. cbn. destruct (ok s) eqn:Es.
  - destruct s; [|done]. destruct (append_ok l f f' E) as [Hc' Hf']. split; [lia|]. by rewrite Hc', Hc, app_assoc.
  - destruct (append_fail l f s f' E Es) as (Hf' & k & Hk & Hc'). split; [lia|]. rewrite Es. exists (k - length c)%nat.
    rewrite Hc', Hc, <- app_assoc. apply take_past. lia.
Qed.

Lemma flush_wrote c l f : wrote c f OK l -> wrote c (snd (Flush f)) (fst (Flush f)) l /\ (ok (fst (Flush f)) = true -> clean (snd (Flush f))).
Proof.
  intros [Hf Hc]. cbn in Hc. destruct (Flush f) as [s f'] eqn:E. cbn. destruct (ok s) eqn:Es.
  - destruct s; [|done]. destruct (flush_ok f f' E) as [Hc' Hf']. pose proof (flushed_le f). split; [split; [lia|]; cbn; congruence|]. intros _. unfold clean. congruence.
  - destruct (flush_fail f s f' E Es) as (Hf' & k & Hk & Hc'). split; [|done]. split; [lia|]. rewrite Es. exists (k - length c)%nat.
    rewrite Hc', Hc. apply take_past. lia.
Qed.

(** A short text goes into the empty buffer. *)
Lemma short_wrote l f : clean f -> (length l <= 6)%nat -> wrote (contents f) (snd (Append l f)) OK l.
Proof.
  intros Hf Hl. pose proof (append_wrote (contents f) [] l f (clean_wrote f Hf)) as [H1' H2']. pose proof (append_buffered l f Hf Hl) as Hs.
  rewrite Hs in H2'. by split.
Qed.

Lemma wrote_prefix c f s l1 l2 : ok s = false -> wrote c f s l1 -> wrote c f s (l1 ++ l2).
Proof.
  unfold wrote. intros ->. intros [Hh [k E]]. split; [done|]. destruct (Nat.le_gt_cases k (length l1)).
  - exists k. by rewrite take_app_le.
  - exists (length l1). by rewrite take_app_length, E, take_ge by lia.
Qed.

(** What was written after [c ++ l1] was flushed. *)
Lemma wrote_after c l1 f s l2 : wrote (c ++ l1) f s l2 -> wrote c f s (l1 ++ l2).
Proof.
  intros [Hf Hc]. rewrite length_app in Hf. split; [lia|]. destruct (ok s); [by rewrite Hc, app_assoc|].
  destruct Hc as [k Hc]. exists (length l1 + k)%nat. by rewrite Hc, take_app_add, app_assoc.
Qed.

Notation W := (Writer F).

Lemma dest_append_ok l (w : W) wld :
  dest_Append l w wld = Ok (fst (Append l (dest w))) (set_dest (snd (Append l (dest w))) w) wld.
Proof. unfold dest_Append. cbn [bind get]. by destruct (Append l (dest w)). Qed.

Lemma dest_flush_ok (w : W) wld :
  dest_Flush w wld = Ok (fst (Flush (dest w))) (set_dest (snd (Flush (dest w))) w) wld.
Proof. unfold dest_Flush. cbn [bind get]. by destruct (Flush (dest w)). Qed.

Lemma type_crc_ok t : 0 <= t <= 4 -> nth (Z.to_nat t) InitTypeCrc 0 = crc32c 0 [t].
Proof.
  intros Ht. assert (E : nth (Z.to_nat t) InitTypeCrc 0 = Value (address [t]) [t]).
  { assert (Hc : t = 0 \/ t = 1 \/ t = 2 \/ t = 3 \/ t = 4) by lia. by destruct Hc as [->|[->|[->|[->| ->]]]]. }
  rewrite E. unfold Value. by rewrite extend_ok by (lia || by repeat constructor; lia).
Qed.

(** The checksum of a fragment continues that of its type. *)
Lemma fragment_crc a t d : 0 <= t <= 4 -> is_bytes d -> Extend a (nth (Z.to_nat t) InitTypeCrc 0) d = crc32c 0 (t :: d).
Proof.
  intros Ht Hd. rewrite type_crc_ok by done. rewrite extend_ok; [|apply crc32c_word; [lia|by repeat constructor; lia]|done].
  by rewrite <- crc32c_app.
Qed.

Lemma header_bytes t d : 0 <= t <= 4 -> size d <= 0xffff ->
  [u8 (Z.land (size d) 0xff); u8 (Z.shiftr (size d) 8); u8 t] = [size d mod 256; size d / 256; t].
Proof.
  intros Ht Hd. pose proof (size_nonneg d). rewrite land_0xFF, shiftr_div by lia. change (2 ^ 8) with 256.
  pose proof (Z.mod_pos_bound (size d) 256 ltac:(lia)).
  rewrite !u8_small; [done|lia|split; [apply Z.div_pos|apply Z.div_lt_upper_bound]; lia|lia].
Qed.

(** No call fails. *)
Definition reliable : Prop := (forall l (f : F), ok (fst (Append l f)) = true) /\ (forall f : F, ok (fst (Flush f)) = true).

(** Two appends and a flush, each of which may fail, on any file; what they leave if the file
    holds [l0] behind what it has flushed. *)
Lemma emit_ok t d (w : W) wld :
  type_crc w = InitTypeCrc -> 0 <= t <= 4 -> is_bytes d -> block_offset w + 7 + size d <= B -> 0 <= block_offset w ->
  exists s f', EmitPhysicalRecord t d w wld = Ok s (mk_writer f' (block_offset w + (7 + size d)) (type_crc w)) wld /\
    (reliable -> ok s = true) /\
    forall c l0, wrote c (dest w) OK l0 -> wrote c f' s (l0 ++ physical t d) /\ (ok s = true -> clean f').
Proof.
  intros Hcrc Ht Hd Hfit Hb. pose proof (size_nonneg d). unfold EmitPhysicalRecord, kBlockSize in *. cbn [bind get].
  rewrite (proj2 (Z.leb_le (size d) _)) by lia. unfold kHeaderSize. change (4 + 2 + 1) with 7. rewrite (proj2 (Z.leb_le _ 32768)) by lia.
  cbn [assert_ ret]. rewrite Hcrc, fragment_crc, header_bytes by (done || lia). unfold physical.
  set (hdr := EncodeFixed32 _ ++ _) in *. rewrite dest_append_ok. pose proof (fun c l0 => append_wrote c l0 hdr (dest w)) as Hw1. pose proof (fun Hr : reliable => proj1 Hr hdr (dest w)) as Hr1.
  destruct (Append hdr (dest w)) as [s1 f1]. cbn [fst snd] in *. destruct (ok s1) eqn:Es1.
  2: { exists s1, f1. cbn [ret modify bind]. split; [by rewrite <- Hcrc|]. split; [intros Hr; by rewrite Hr1 in Es1|]. intros c l0 Hw. split; [|congruence]. rewrite !app_assoc. rewrite <- (app_assoc l0). by apply wrote_prefix, Hw1. }
  destruct s1; [|done]. cbn [bind]. rewrite dest_append_ok. cbn [dest set_dest]. pose proof (fun c l0 => append_wrote c l0 d f1) as Hw2. pose proof (fun Hr : reliable => proj1 Hr d f1) as Hr2.
  destruct (Append d f1) as [s2 f2]. cbn [fst snd] in *. destruct (ok s2) eqn:Es2.
  2: { exists s2, f2. cbn [ret modify bind]. split; [by rewrite <- Hcrc|]. split; [intros Hr; by rewrite Hr2 in Es2|]. intros c l0 Hw. split; [|congruence]. rewrite (app_assoc _ _ d), (app_assoc l0). by apply Hw2, Hw1. }
  destruct s2; [|done]. rewrite dest_flush_ok. cbn [dest set_dest]. pose proof (fun c l => flush_wrote c l f2) as Hw3. pose proof (fun Hr : reliable => proj2 Hr f2) as Hr3.
  destruct (Flush f2) as [s3 f3]. cbn [fst snd ret modify bind] in *.
  exists s3, f3. split; [by rewrite <- Hcrc|]. split; [done|]. intros c l0 Hw. rewrite (app_assoc _ _ d), (app_assoc l0). by apply Hw3, Hw2, Hw1.
Qed.

Lemma zeros n : (n <= 6)%nat -> take n [0; 0; 0; 0; 0; 0] = repeat 0 n.
Proof. intros Hn. do 7 (destruct n as [|n]; [done|]). lia. Qed.

Lemma switch_block_ok (w : W) wld :
  0 <= B - block_offset w < 7 ->
  exists f', switch_block (B - block_offset w) w wld = Ok tt (mk_writer f' 0 (type_crc w)) wld /\
    (clean (dest w) -> wrote (contents (dest w)) f' OK (repeat 0 (Z.to_nat (B - block_offset w)))).
Proof.
  intros Hb. unfold switch_block. cbn [bind]. destruct (Z.ltb_spec 0 (B - block_offset w)).
  - cbn [bind]. rewrite dest_append_ok, zeros by lia. eexists. split; [done|]. intros Hc. apply short_wrote; [done|]. rewrite repeat_length. lia.
  - exists (dest w). split; [done|]. replace (Z.to_nat _) with O by lia. apply clean_wrote.
Qed.

(** One round: the trailer if there is no room, and a fragment of all that fits. *)
Lemma add_fragment_ok begin d (w : W) wld :
  type_crc w = InitTypeCrc -> is_bytes d -> 0 <= block_offset w <= B ->
  let b := block_offset w in
  let avail := B - start b - 7 in
  let fr := take (Z.to_nat (Z.min (size d) avail)) d in
  exists s f', add_fragment (begin, d) w wld =
      Ok (if ok s && (avail <? size d) then inl (false, drop (Z.to_nat avail) d) else inr s)
         (mk_writer f' (start b + (7 + size fr)) InitTypeCrc) wld /\ (reliable -> ok s = true) /\
    (clean (dest w) -> wrote (contents (dest w)) f' s (trailer b ++ physical (fragment_type begin (size d <=? avail)) fr) /\ (ok s = true -> clean f')).
Proof.
  intros Hcrc Hd Hb b avail fr. pose proof (size_nonneg d) as Hd0. pose proof (start_range b Hb) as Hs.
  assert (Hsw : exists f1, (if B - b <? 7 then switch_block (B - b) else ret tt) w wld = Ok tt (mk_writer f1 (start b) InitTypeCrc) wld /\
      (clean (dest w) -> wrote (contents (dest w)) f1 OK (trailer b))).
  { rewrite <- Hcrc. unfold trailer, start. destruct (Z.ltb_spec (B - b) 7).
    - apply switch_block_ok. unfold b in *; lia.
    - exists (dest w). split; [by destruct w|]. apply clean_wrote. }
  destruct Hsw as (f1 & Hsw & Hw1).
  assert (Hfr : size fr = Z.min (size d) avail) by (unfold fr, size, avail in *; rewrite length_take; lia).
  destruct (emit_ok (fragment_type begin (size d <=? avail)) fr (mk_writer f1 (start b) InitTypeCrc) wld) as (s & f' & Hrun & Hre & Hw).
  { done. } { unfold fragment_type. by destruct begin, (_ <=? _). } { by apply Forall_take. }
  { cbn [block_offset]. rewrite Hfr. unfold avail. lia. } { cbn. lia. }
  exists s, f'. split; [|split; [done|intros Hc; apply (Hw _ _ (Hw1 Hc))]].
  unfold add_fragment. cbn [bind get]. fold b. rewrite (proj2 (Z.leb_le 0 (B - b))) by (unfold b; lia). cbn [assert_ ret].
  unfold kHeaderSize. change (4 + 2 + 1) with 7. rewrite Hsw. cbn [block_offset get].
  fold avail. rewrite (proj2 (Z.leb_le 0 avail)) by (unfold avail; lia). cbn [assert_ ret].
  replace (if size d <? avail then size d else avail) with (Z.min (size d) avail) by (destruct (Z.ltb_spec (size d) avail); lia).
  replace (size d =? Z.min (size d) avail) with (size d <=? avail)
    by (destruct (Z.leb_spec (size d) avail), (Z.eqb_spec (size d) (Z.min (size d) avail)); lia).
  fold (fragment_type begin (size d <=? avail)) fr. rewrite Hrun. cbn [block_offset type_crc].
  assert (Hrest : size (drop (Z.to_nat (Z.min (size d) avail)) d) = size d - Z.min (size d) avail)
    by (unfold size, avail in *; rewrite length_drop; lia).
  rewrite Hrest. replace (0 <? size d - Z.min (size d) avail) with (avail <? size d)
    by (destruct (Z.ltb_spec avail (size d)), (Z.ltb_spec 0 (size d - Z.min (size d) avail)); lia).
  destruct (ok s); [|done]. destruct (Z.ltb_spec avail (size d)); [|done]. cbn [andb ret]. by rewrite Z.min_r by lia.
Qed.

Lemma add_record_loop n : forall begin d (w : W) wld,
  type_crc w = InitTypeCrc -> is_bytes d -> 0 <= block_offset w <= B ->
  (length d + (if (B - start (block_offset w) - 7 =? 0)%Z then 1 else 0) < n)%nat ->
  exists s w', loop n add_fragment (begin, d) w wld = Ok s w' wld /\ type_crc w' = InitTypeCrc /\ 0 <= block_offset w' <= B /\ (reliable -> ok s = true) /\
    (clean (dest w) -> wrote (contents (dest w)) (dest w') s (layout (block_offset w) (cut n (block_offset w) begin d)) /\
      (ok s = true -> clean (dest w') /\ block_offset w' = layout_end (block_offset w) (cut n (block_offset w) begin d))).
Proof.
  induction n as [|n IH]; intros begin d w wld Hcrc Hd Hb Hn; [lia|].
  destruct (add_fragment_ok begin d w wld Hcrc Hd Hb) as (s & f' & Hrun & Hre & Hw).
  pose proof (start_range _ Hb) as Hs. pose proof (size_nonneg d). cbn [loop cut bind]. rewrite Hrun.
  set (b := block_offset w) in *. set (avail := B - start b - 7) in *.
  destruct (Z.leb_spec (size d) avail) as [Hle|Hgt].
  - rewrite (proj2 (Z.ltb_ge avail (size d))) by lia. rewrite andb_false_r. cbn [ret layout layout_end].
    rewrite Z.min_l, take_ge in * by (unfold size in *; lia).
    exists s, (mk_writer f' (start b + (7 + size d)) InitTypeCrc). cbn [dest block_offset type_crc].
    split; [done|]. split; [done|]. split; [unfold avail in *; lia|]. split; [done|]. intros Hc. destruct (Hw Hc) as [Hw1 Hw2]. split; [by rewrite app_nil_r|]. intros Es. split; [by apply Hw2|lia].
  - rewrite (proj2 (Z.ltb_lt avail (size d))) by lia. rewrite andb_true_r, Z.min_r in * by lia. cbn [layout layout_end].
    set (fr := take (Z.to_nat avail) d) in *. assert (Hfr : size fr = avail) by (unfold fr, size, avail in *; rewrite length_take; lia).
    rewrite Hfr in *. destruct (ok s) eqn:Es.
    + destruct s; [|done]. destruct (IH false (drop (Z.to_nat avail) d) (mk_writer f' (start b + (7 + avail)) InitTypeCrc) wld) as (s2 & w2 & Hrun2 & Hc2 & Hb2 & Hre2 & Hw2).
      { done. } { by apply Forall_drop. } { cbn [block_offset]. unfold avail in *. lia. }
      { cbn [block_offset]. rewrite length_drop. replace (start b + (7 + avail)) with B by (unfold avail; lia).
        change (if (B - start B - 7 =? 0)%Z then 1%nat else 0%nat) with 0%nat. unfold size, avail in *.
        destruct (Z.eqb_spec (B - start b - 7) 0); lia. }
      exists s2, w2. cbn [dest block_offset] in *. replace (start b + 7 + avail) with (start b + (7 + avail)) by lia.
      split; [done|]. split; [done|]. split; [done|]. split; [done|]. intros Hc. destruct (Hw Hc) as [[_ Ec] Hcl]. cbn [ok] in Ec. destruct (Hw2 (Hcl eq_refl)) as [Hw3 Hend].
      split; [|done]. rewrite app_assoc. apply wrote_after. by rewrite <- Ec.
    + exists s, (mk_writer f' (start b + (7 + avail)) InitTypeCrc). cbn [ret dest block_offset type_crc].
      split; [done|]. split; [done|]. split; [unfold avail; lia|]. split; [intros Hr; by rewrite Hre in Es|]. intros Hc. split; [|congruence]. rewrite app_assoc. apply wrote_prefix; [done|]. by apply Hw.
Qed.

(** Appending a record ends on any file.  If the buffer was empty, the record is laid out
    from the offset in the block; if a call fails the file has a part of it. *)
Lemma add_record_ok d (w : W) wld :
  type_crc w = InitTypeCrc -> is_bytes d -> 0 <= block_offset w <= B ->
  exists s w', AddRecord d w wld = Ok s w' wld /\ type_crc w' = InitTypeCrc /\ 0 <= block_offset w' <= B /\ (reliable -> ok s = true) /\
    (clean (dest w) -> wrote (contents (dest w)) (dest w') s (layout (block_offset w) (fragments (block_offset w) d)) /\
      (ok s = true -> clean (dest w') /\ block_offset w' = layout_end (block_offset w) (fragments (block_offset w) d))).
Proof. intros. apply add_record_loop; try done. destruct (_ =? _)%Z; lia. Qed.

End writer.

(** * The reader of a log on the bytes that a writer makes, cut off anywhere.

    [reading r pos b l ds]: [r] has read the log up to the position [pos], at offset [b] of
    a block; [l] are the bytes from there to the end of the file and [ds] the reports so
    far.  The buffer holds what [l] has of the block. *)

Lemma size_physical t d : size (physical t d) = 7 + size d.
Proof.
  unfold physical. rewrite !size_app. unfold size, EncodeFixed32, kLittleEndian. rewrite le_bytes_length. cbn [length]. lia.
Qed.

Lemma size_trailer b : 0 <= b <= B -> size (trailer b) = if B - b <? 7 then B - b else 0.
Proof. intros Hb. unfold trailer. destruct (_ <? _); [|done]. unfold size. rewrite repeat_length. lia. Qed.

Lemma header_length n : 0 <= n < 65536 -> Z.lor (Z.land (n mod 256) 0xff) (Z.shiftl (Z.land (n / 256) 0xff) 8) = n.
Proof.
  intros Hn. assert (Hq : 0 <= n / 256 < 256) by (split; [apply Z.div_pos|apply Z.div_lt_upper_bound]; lia).
  pose proof (Z.mod_pos_bound n 256 ltac:(lia)) as Hm. rewrite !land_0xFF, Zmod_mod, (Z.mod_small (n / 256)), Z.shiftl_mul_pow2 by lia.
  rewrite lor_add_shifted by lia. change (2 ^ 8) with 256. pose proof (Z.div_mod n 256 ltac:(lia)). lia.
Qed.

Lemma header_type t : 0 <= t <= 4 -> u32 (s8 t) = t.
Proof. intros Ht. assert (Hc : t = 0 \/ t = 1 \/ t = 2 \/ t = 3 \/ t = 4) by lia. by destruct Hc as [->|[->|[->|[->| ->]]]]. Qed.

(** A header in front of some bytes: what the reader takes from it. *)
Lemma header_fields t d x :
  0 <= t <= 4 -> size d < 65536 ->
  let h := EncodeFixed32 (Mask (crc32c 0 (t :: d))) ++ [size d mod 256; size d / 256; t] ++ x in
  Z.lor (Z.land (nth 4 h 0) 0xff) (Z.shiftl (Z.land (nth 5 h 0) 0xff) 8) = size d /\
  u32 (s8 (nth 6 h 0)) = t /\ drop 6 h = t :: x /\ drop 7 h = x /\ size h = 7 + size x /\
  DecodeFixed32 h = Some (Mask (crc32c 0 (t :: d))).
Proof.
  intros Ht Hd h. pose proof (size_nonneg d). split; [|split; [|split; [done|split; [done|split]]]].
  - by apply header_length.
  - by apply header_type.
  - unfold h, size, EncodeFixed32, kLittleEndian. cbn [le_bytes length app]. lia.
  - apply decode_encode_fixed32, mask_word.
Qed.

Section reader.
Context `{Placement} {F : Type} `{SequentialLaws F}.
Notation R := (Reader F).

Record reading (r : R) (pos b : Z) (l : list Z) (ds : list (Z * Status)) : Prop := {
  rd_block : 0 <= b <= B;
  rd_bound : 0 <= pos /\ pos + size l < 2 ^ 64;
  rd_buffer : buffer r = take (Z.to_nat (B - b)) l;
  rd_file : remaining (file r) = drop (Z.to_nat (B - b)) l;
  rd_eof : eof r = (size l <? B - b);
  rd_end : end_of_buffer_offset r = pos + size (buffer r);
  rd_initial : initial_offset r = 0;
  rd_resync : resyncing r = false;
  rd_last : 0 <= last_record_offset r;
  rd_drops : drops r = ds;
}.

(** Nothing is left. *)
Record at_end (r : R) (ds : list (Z * Status)) : Prop := {
  end_buffer : buffer r = [];
  end_eof : eof r = true;
  end_initial : initial_offset r = 0;
  end_resync : resyncing r = false;
  end_last : 0 <= last_record_offset r;
  end_drops : drops r = ds;
}.

Lemma new_reading f reporter chk : size (remaining f) < 2 ^ 64 -> reading (new_Reader f reporter chk 0) 0 B (remaining f) [].
Proof.
  intros Hl. pose proof (size_nonneg (remaining f)). unfold new_Reader. split; cbn; try done; try lia.
Qed.

(** The next block, when this one has no room for a header. *)
Lemma refill_ok r pos b l ds wld :
  reading r pos b l ds -> B - b < 7 -> B - b <= size l ->
  exists r', physical_step tt r wld = Ok (inl tt) r' wld /\ reading r' (pos + (B - b)) 0 (drop (Z.to_nat (B - b)) l) ds.
Proof.
  intros [Hb Hp Hbuf Hf He Hend Hi Hs Hl Hd] H7 Hlen. unfold physical_step. cbn [bind get].
  assert (Hsz : size (buffer r) = B - b) by (rewrite Hbuf, size_take; lia). rewrite Hsz.
  unfold kHeaderSize. rewrite (proj2 (Z.ltb_lt _ _)) by lia. rewrite He, (proj2 (Z.ltb_ge _ _)) by lia. cbn [negb bind modify].
  cbn [file set_buffer]. destruct (read_ok kBlockSize (file r) ltac:(done)) as (f' & Hr & Hf'). rewrite Hr. cbn [bind modify ok negb].
  rewrite Hf in *. set (l' := drop (Z.to_nat (B - b)) l) in *.
  assert (Hl' : size l' = size l - (B - b)) by (unfold l'; rewrite size_drop; lia).
  assert (Hsd : size (take (Z.to_nat kBlockSize) l') = Z.min B (size l')) by (rewrite size_take; done).
  pose proof (size_nonneg l').
  assert (Hend' : u64 (end_of_buffer_offset r + size (take (Z.to_nat kBlockSize) l')) = pos + (B - b) + size (take (Z.to_nat kBlockSize) l')).
  { rewrite Hend, Hsz. apply u64_small. lia. }
  rewrite Hend'. destruct (Z.ltb_spec (size (take (Z.to_nat kBlockSize) l')) kBlockSize); cbn [modify ret]; eexists; (split; [done|]);
    split; cbn; rewrite ?Z.sub_0_r; try done; try lia; rewrite ?He; symmetry; rewrite ?Z.ltb_lt, ?Z.ltb_ge; lia.
Qed.

(** The end of the file within a header. *)
Lemma short_step r pos b l ds wld :
  reading r pos b l ds -> size l < B - b -> size l < 7 ->
  exists r', physical_step tt r wld = Ok (inr (kEof, None)) r' wld /\ at_end r' ds.
Proof.
  intros [Hb Hp Hbuf Hf He Hend Hi Hs Hl Hd] Hlen H7. unfold physical_step. cbn [bind get].
  assert (Hsz : size (buffer r) = size l) by (rewrite Hbuf, size_take; lia). rewrite Hsz.
  unfold kHeaderSize. rewrite (proj2 (Z.ltb_lt _ _)) by lia. rewrite He, (proj2 (Z.ltb_lt _ _)) by lia. cbn [negb bind modify ret].
  eexists. split; [done|]. split; cbn; try done. rewrite He. by apply Z.ltb_lt.
Qed.

Lemma end_step r ds wld : at_end r ds -> exists r', physical_step tt r wld = Ok (inr (kEof, None)) r' wld /\ at_end r' ds.
Proof.
  intros [Hb He Hi Hs Hl Hd]. unfold physical_step. cbn [bind get]. rewrite Hb, He. cbn. eexists. split; [done|]. by split.
Qed.

(** A whole fragment. *)
Lemma fragment_step r pos b t d rest ds wld :
  reading r pos b (physical t d ++ rest) ds -> 1 <= t <= 4 -> is_bytes d -> b + 7 + size d <= B ->
  exists r', physical_step tt r wld = Ok (inr (t, Some d)) r' wld /\
    reading r' (pos + (7 + size d)) (b + (7 + size d)) rest ds.
Proof.
  intros [Hb Hp Hbuf Hf He Hend Hi Hs Hl Hd] Ht Hbd Hfit. pose proof (size_nonneg d) as Hd0. pose proof (size_nonneg rest).
  rewrite size_app, size_physical in Hp, He. pose proof (size_physical t d) as Hsp.
  assert (Hn : Z.to_nat (B - b) = (length (physical t d) + Z.to_nat (B - (b + (7 + size d))))%nat) by (unfold size in *; lia).
  rewrite Hn in Hbuf, Hf. rewrite take_app_add' in Hbuf by done. rewrite drop_app_add' in Hf by done.
  set (x := take _ rest) in *. assert (Hx : size x = Z.min (B - (b + (7 + size d))) (size rest)) by (unfold x; rewrite size_take; lia).
  unfold physical in Hbuf. rewrite <- !app_assoc in Hbuf. cbn [app] in Hbuf.
  destruct (header_fields t d (d ++ x)) as (E1 & E2 & E3 & E4 & E5 & E6); [lia|unfold kBlockSize in *; lia|].
  rewrite (size_app d x) in E5. cbn [app] in E1, E2, E3, E4, E5, E6.
  unfold physical_step. cbn [bind get]. rewrite Hbuf, E5. unfold kHeaderSize. rewrite (proj2 (Z.ltb_ge _ _)) by (pose proof (size_nonneg x); lia).
  unfold parse_record. cbn [bind get]. rewrite Hbuf, E1, E2, E3, E5, E6. unfold kHeaderSize. change (4 + 2 + 1) with 7.
  rewrite (proj2 (Z.ltb_ge _ _)) by (pose proof (size_nonneg x); lia). rewrite (proj2 (Z.eqb_neq t _)) by (unfold kZeroType; lia). cbn [andb].
  replace (take (Z.to_nat (1 + size d)) (t :: d ++ x)) with (t :: d)
    by (replace (Z.to_nat (1 + size d)) with (S (length d)) by (unfold size; lia); cbn [take]; by rewrite take_app_length).
  rewrite unmask_mask by (apply crc32c_word; [lia|by constructor; [lia|]]).
  unfold Value. rewrite extend_ok by (lia || by constructor; [lia|]). rewrite Z.eqb_refl. cbn [negb].
  replace (if checksum r then false else false) with false by (by destruct (checksum r)).
  replace (Z.to_nat (7 + size d)) with (7 + length d)%nat by (unfold size; lia). rewrite <- drop_drop, E4, drop_app_length.
  cbn [bind modify]. rewrite Hi.
  rewrite (proj2 (Z.ltb_ge _ 0)) by (apply u64_range). cbn [ret].
  change (Z.to_nat 7) with 7%nat. rewrite E4. replace (Z.to_nat (size d)) with (length d) by (unfold size; lia). rewrite take_app_length.
  eexists. split; [done|]. split; cbn; try done; try lia.
  - rewrite He. destruct (Z.ltb_spec (7 + size d + size rest) (B - b)), (Z.ltb_spec (size rest) (B - (b + (7 + size d)))); lia.
  - rewrite Hend, Hbuf, E5, Hx. lia.
Qed.

(** A part of a fragment at the end of the file. *)
Lemma cut_step r pos b t d k ds wld :
  reading r pos b (take k (physical t d)) ds -> 0 <= t <= 4 -> b + 7 + size d <= B -> (k < length (physical t d))%nat ->
  exists r', physical_step tt r wld = Ok (inr (kEof, None)) r' wld /\ at_end r' ds.
Proof.
  intros Hr Ht Hfit Hk. pose proof (size_physical t d) as Hsp. pose proof (size_nonneg d) as Hd0.
  assert (Hlen : size (take k (physical t d)) = Z.of_nat k) by (unfold size; rewrite length_take; lia).
  assert (Hk' : Z.of_nat k < 7 + size d) by (unfold size in *; lia).
  destruct (Z.lt_ge_cases (Z.of_nat k) 7) as [H7|H7]; [eapply short_step; [exact Hr|lia..]|].
  destruct Hr as [Hb Hp Hbuf Hf He Hend Hi Hs Hl Hd].
  rewrite take_ge in Hbuf by (unfold size in *; lia). replace k with (7 + (k - 7))%nat in Hbuf by lia.
  assert (Hbuf' : buffer r = EncodeFixed32 (Mask (crc32c 0 (t :: d))) ++ [size d mod 256; size d / 256; t] ++ take (k - 7) d) by done.
  destruct (header_fields t d (take (k - 7) d)) as (E1 & E2 & E3 & E4 & E5 & E6); [lia|unfold kBlockSize in *; lia|].
  assert (Hx : size (take (k - 7) d) = Z.of_nat k - 7) by (unfold size in *; rewrite length_take; lia).
  unfold physical_step. cbn [bind get]. rewrite Hbuf', E5. unfold kHeaderSize. rewrite (proj2 (Z.ltb_ge _ _)) by lia.
  unfold parse_record. cbn [bind get]. rewrite Hbuf', E1, E5. unfold kHeaderSize. rewrite (proj2 (Z.ltb_lt _ _)) by lia.
  rewrite He, (proj2 (Z.ltb_lt _ _)) by lia. cbn [negb bind modify ret]. eexists. split; [done|]. split; cbn; try done.
  rewrite He. apply Z.ltb_lt. lia.
Qed.

Lemma start_trailer b : 0 <= b <= B -> start b = (if B - b <? 7 then 0 else b) /\ size (trailer b) = (if B - b <? 7 then B - b else 0).
Proof. intros Hb. split; [done|by apply size_trailer]. Qed.

(** Skipping a trailer takes one round at most. *)
Lemma trailer_step r pos b l ds wld :
  reading r pos b (trailer b ++ l) ds ->
  exists r', reading r' (pos + size (trailer b)) (start b) l ds /\
    (forall x y, physical_step tt r' wld = Ok (inr x) y wld -> loop 3 physical_step tt r wld = Ok x y wld).
Proof.
  intros Hr. pose proof (rd_block _ _ _ _ _ Hr) as Hb. destruct (start_trailer b Hb) as [E1 E2]. rewrite E1, E2. unfold trailer in Hr.
  destruct (Z.ltb_spec (B - b) 7) as [H7|H7].
  - assert (Hlen : length (repeat 0 (Z.to_nat (B - b))) = Z.to_nat (B - b)) by apply repeat_length.
    assert (HB : B - b <= size (repeat 0 (Z.to_nat (B - b)) ++ l)).
    { rewrite size_app. unfold size at 1. rewrite Hlen. pose proof (size_nonneg l). lia. }
    destruct (refill_ok _ _ _ _ _ wld Hr H7 HB) as (r1 & Hs & Hr1). rewrite drop_app_length' in Hr1 by done.
    exists r1. split; [done|]. intros x y Hx. cbn [loop bind]. rewrite Hs. cbn [bind]. by rewrite Hx.
  - exists r. rewrite Z.add_0_r. split; [done|]. intros x y Hx. cbn [loop bind]. by rewrite Hx.
Qed.

Lemma physical_ok x r pos b t d rest ds wld :
  reading r pos b (trailer b ++ physical t d ++ rest) ds -> 1 <= t <= 4 -> is_bytes d -> start b + 7 + size d <= B ->
  exists r', ReadPhysicalRecord x r wld = Ok (t, d) r' wld /\
    reading r' (pos + size (trailer b) + (7 + size d)) (start b + (7 + size d)) rest ds.
Proof.
  intros Hr Ht Hd Hfit. destruct (trailer_step _ _ _ _ _ wld Hr) as (r1 & Hr1 & Hgo).
  destruct (fragment_step _ _ _ _ _ _ _ wld Hr1 Ht Hd Hfit) as (r2 & Hs & Hr2). exists r2. split; [|done].
  unfold ReadPhysicalRecord. unfold bind. by rewrite (Hgo _ _ Hs).
Qed.

Lemma physical_end x r ds wld : at_end r ds -> exists r', ReadPhysicalRecord x r wld = Ok (kEof, x) r' wld /\ at_end r' ds.
Proof.
  intros Hr. destruct (end_step r ds wld Hr) as (r' & Hs & Hr'). exists r'. split; [|done].
  unfold ReadPhysicalRecord. cbn [loop bind]. by rewrite Hs.
Qed.

Lemma physical_cut x r pos b t d k ds wld :
  reading r pos b (take k (trailer b ++ physical t d)) ds -> 0 <= t <= 4 -> start b + 7 + size d <= B ->
  (k < length (trailer b ++ physical t d))%nat ->
  exists r', ReadPhysicalRecord x r wld = Ok (kEof, x) r' wld /\ at_end r' ds.
Proof.
  intros Hr Ht Hfit Hk. pose proof (rd_block _ _ _ _ _ Hr) as Hb. pose proof (size_trailer b Hb) as Hst.
  destruct (Nat.le_gt_cases (length (trailer b)) k) as [Hle|Hgt].
  - rewrite take_app_ge in Hr by done. destruct (trailer_step _ _ _ _ _ wld Hr) as (r1 & Hr1 & Hgo).
    rewrite length_app in Hk. destruct (cut_step _ _ _ _ _ _ _ wld Hr1 Ht Hfit ltac:(lia)) as (r2 & Hs & Hr2). exists r2. split; [|done].
    unfold ReadPhysicalRecord. unfold bind. by rewrite (Hgo _ _ Hs).
  - rewrite take_app_le in Hr by lia.
    assert (Hl : size (take k (trailer b)) = Z.of_nat k) by (unfold size; rewrite length_take; lia).
    unfold size in Hst at 1. destruct (Z.ltb_spec (B - b) 7); [|lia].
    destruct (short_step _ _ _ _ _ wld Hr ltac:(lia) ltac:(lia)) as (r2 & Hs & Hr2). exists r2. split; [|done].
    unfold ReadPhysicalRecord. cbn [loop bind]. by rewrite Hs.
Qed.

(** * Records *)

Lemma reading_set_last n r pos b l ds : 0 <= n -> reading r pos b l ds -> reading (set_last_record_offset n r) pos b l ds.
Proof. intros Hn []. by split. Qed.

Lemma record_step_ok v r pos b begin end_ d rest ds wld :
  reading r pos b (trailer b ++ physical (fragment_type begin end_) d ++ rest) ds -> is_bytes d -> start b + 7 + size d <= B ->
  in_fragmented_record v = negb begin -> 0 <= prospective_record_offset v ->
  let p := if begin then pos + size (trailer b) else prospective_record_offset v in
  let s := (if begin then [] else scratch v) ++ d in
  exists r', record_step v r wld = Ok (if end_ then inr (Some s) else inl (mk_locals d s true p)) r' wld /\
    reading r' (pos + size (trailer b) + (7 + size d)) (start b + (7 + size d)) rest ds /\
    (end_ = true -> last_record_offset r' = p).
Proof.
  intros Hr Hd Hfit Hv Hp p s. assert (Ht : 1 <= fragment_type begin end_ <= 4) by (by destruct begin, end_).
  destruct (physical_ok (fragment v) _ _ _ _ _ _ _ wld Hr Ht Hd Hfit) as (r1 & Hs & Hr1).
  pose proof (rd_bound _ _ _ _ _ Hr) as Hbound. pose proof (size_nonneg (trailer b)). pose proof (size_nonneg d). pose proof (size_nonneg rest).
  rewrite !size_app, size_physical in Hbound.
  assert (Hoff : u64 (end_of_buffer_offset r1 - size (buffer r1) - kHeaderSize - size d) = pos + size (trailer b)).
  { rewrite (rd_end _ _ _ _ _ Hr1). unfold kHeaderSize. rewrite u64_small; lia. }
  unfold record_step. cbn [bind]. rewrite Hs. cbn [bind get in_fragmented_record scratch prospective_record_offset].
  rewrite Hoff, (rd_resync _ _ _ _ _ Hr1), Hv. unfold p, s.
  destruct begin, end_; cbn; eexists; (split; [reflexivity|]); (split; [|done]); try done; apply reading_set_last; (done || lia).
Qed.

Lemma record_step_eof v r r' x ds wld :
  ReadPhysicalRecord (fragment v) r wld = Ok (kEof, x) r' wld -> at_end r' ds -> record_step v r wld = Ok (inr None) r' wld.
Proof. intros Hs Hr. unfold record_step. cbn [bind]. rewrite Hs. cbn. by rewrite (end_resync _ _ Hr). Qed.

(** What a call of [ReadRecord] with [v] in its local variables finds in the rest of a record. *)
Notation enough n b d := (length d + (if (B - start b - 7 =? 0)%Z then 1%nat else 0%nat) < n)%nat.

Lemma cut_range n b d : 0 <= b <= B -> enough n b d ->
  let avail := B - start b - 7 in
  0 <= start b /\ 0 <= avail /\
  (avail < size d -> enough (pred n) B (drop (Z.to_nat avail) d) /\ start b + (7 + avail) = B /\ size (take (Z.to_nat avail) d) = avail).
Proof.
  intros Hb Hn avail. pose proof (start_range b Hb). split; [lia|]. split; [unfold avail; lia|]. intros Ha. split.
  - change (if (B - start B - 7 =? 0)%Z then 1%nat else 0%nat) with 0%nat. rewrite length_drop. unfold avail, size in *.
    destruct (Z.eqb_spec (B - start b - 7) 0); lia.
  - unfold avail in *. rewrite size_take; lia.
Qed.

Lemma read_fragments n : forall begin b d v pos r rest ds wld,
  enough n b d -> is_bytes d -> in_fragmented_record v = negb begin -> 0 <= prospective_record_offset v ->
  reading r pos b (layout b (cut n b begin d) ++ rest) ds ->
  exists r', loop n record_step v r wld = Ok (Some ((if begin then [] else scratch v) ++ d)) r' wld /\
    reading r' (pos + size (layout b (cut n b begin d))) (layout_end b (cut n b begin d)) rest ds /\
    last_record_offset r' = if begin then pos + size (trailer b) else prospective_record_offset v.
Proof.
  induction n as [|n IH]; intros begin b d v pos r rest ds wld Hn Hd Hv Hp Hr; [lia|].
  pose proof (rd_block _ _ _ _ _ Hr) as Hb. pose proof (rd_bound _ _ _ _ _ Hr) as Hbound.
  destruct (cut_range (S n) b d Hb Hn) as (Hs & Ha & Hmore). cbn [cut] in *. set (avail := B - start b - 7) in *.
  pose proof (size_nonneg (trailer b)). cbn [loop bind].
  destruct (Z.leb_spec (size d) avail) as [Hle|Hgt]; cbn [layout layout_end] in *.
  - rewrite app_nil_r, <- app_assoc in *. destruct (record_step_ok v _ _ _ _ _ _ _ _ wld Hr) as (r1 & Hrun & Hr1 & Hlast); [done|unfold avail in *; lia|done|done|].
    rewrite Hrun. exists r1. split; [done|]. rewrite size_app, size_physical. split; [|by apply Hlast].
    by rewrite Z.add_assoc, <- (Z.add_assoc (start b)).
  - destruct (Hmore Hgt) as (Hn2 & HB & Hfr). set (fr := take (Z.to_nat avail) d) in *. rewrite <- !app_assoc in Hr.
    destruct (record_step_ok v _ _ _ _ _ _ _ _ wld Hr) as (r1 & Hrun & Hr1 & Hlast); [by apply Forall_take|unfold avail in *; lia|done|done|].
    rewrite Hrun. rewrite Hfr in Hr1. replace (start b + 7 + avail) with B in * by lia. replace (start b + (7 + avail)) with B in Hr1 by lia.
    assert (Hp2 : 0 <= if begin then pos + size (trailer b) else prospective_record_offset v) by (destruct begin; lia).
    match type of Hrun with _ = Ok (inl ?v1) _ _ =>
      destruct (IH false B (drop (Z.to_nat avail) d) v1 _ _ _ _ wld Hn2 (Forall_drop _ _ _ Hd) eq_refl Hp2 Hr1) as (r2 & Hrun2 & Hr2 & Hl2)
    end.
    exists r2. split; [etrans; [exact Hrun2|]; cbn [scratch]; unfold fr; by rewrite <- app_assoc, take_drop|].
    rewrite !size_app, size_physical, Hfr. split; [|exact Hl2]. replace (start b + 7 + avail) with B by lia.
    replace (pos + (size (trailer b) + (7 + avail + size (layout B (cut n B false (drop (Z.to_nat avail) d))))))
      with (pos + size (trailer b) + (7 + avail) + size (layout B (cut n B false (drop (Z.to_nat avail) d)))) by lia. exact Hr2.
Qed.

(** The file ends within a record. *)
Lemma read_cut_fragments n : forall begin b d v pos r k ds wld,
  enough n b d -> is_bytes d -> in_fragmented_record v = negb begin -> 0 <= prospective_record_offset v ->
  reading r pos b (take k (layout b (cut n b begin d))) ds -> (k < length (layout b (cut n b begin d)))%nat ->
  exists r', loop n record_step v r wld = Ok None r' wld /\ at_end r' ds.
Proof.
  induction n as [|n IH]; intros begin b d v pos r k ds wld Hn Hd Hv Hp Hr Hk; [lia|].
  pose proof (rd_block _ _ _ _ _ Hr) as Hb. pose proof (rd_bound _ _ _ _ _ Hr) as Hbound.
  destruct (cut_range (S n) b d Hb Hn) as (Hs & Ha & Hmore). cbn [cut] in *. set (avail := B - start b - 7) in *.
  pose proof (size_nonneg (trailer b)). cbn [loop bind].
  assert (Hcut : forall t fr l, 0 <= t <= 4 -> size fr <= avail -> reading r pos b (take k (trailer b ++ physical t fr ++ l)) ds ->
    (k < length (trailer b ++ physical t fr))%nat -> exists r', record_step v r wld = Ok (inr None) r' wld /\ at_end r' ds).
  { intros t fr l Ht Hfr Hr1 Hk1. rewrite app_assoc, take_app_le in Hr1 by lia.
    destruct (physical_cut (fragment v) _ _ _ _ _ _ _ wld Hr1 Ht ltac:(unfold avail in *; lia) Hk1) as (r1 & Hs1 & Hr2).
    exists r1. split; [by eapply record_step_eof|done]. }
  assert (Ht : forall e, 0 <= fragment_type begin e <= 4) by (intros e; by destruct begin, e).
  destruct (Z.leb_spec (size d) avail) as [Hle|Hgt]; cbn [layout] in *.
  - rewrite app_nil_r in *. destruct (Hcut (fragment_type begin true) d []) as (r1 & Hrun & Hr1); [done|done|by rewrite app_nil_r|done|].
    rewrite Hrun. by exists r1.
  - destruct (Hmore Hgt) as (Hn2 & HB & Hfr). set (fr := take (Z.to_nat avail) d) in *. replace (start b + 7 + avail) with B in * by lia.
    replace (start b + 7 + size fr) with B in * by lia.
    set (more := layout B _) in *. destruct (Nat.le_gt_cases (length (trailer b ++ physical (fragment_type begin false) fr)) k) as [Hge|Hlt].
    + rewrite app_assoc, take_app_ge, <- app_assoc in Hr by done.
      destruct (record_step_ok v _ _ _ _ _ _ _ _ wld Hr) as (r1 & Hrun & Hr1 & Hlast); [by apply Forall_take|lia|done|done|].
      rewrite Hrun. replace (start b + (7 + size fr)) with B in Hr1 by lia.
      eapply (IH false B); [exact Hn2|by apply Forall_drop|done| |exact Hr1|].
      * cbn. destruct begin; lia.
      * rewrite app_assoc, length_app in Hk. fold more. lia.
    + destruct (Hcut (fragment_type begin false) fr more) as (r1 & Hrun & Hr1); [done|lia|done|done|]. rewrite Hrun. by exists r1.
Qed.

End reader.
