(* ===== verification/LdbLogThms.v ===== *)
(** LevelDB's log as a whole: what is appended is read again, after a crash too, and
    reading ends on every file. *)
From stdpp Require Import base list strings numbers option.
From Stdlib Require Import ZArith Lia.
From S2P Require Import Prelude Cmem LdbCoding LdbCodingThms LdbCrc LdbEnv LdbLog LdbLogRead.

(** The records of a log that end within its first [k] bytes, with their offsets. *)
Fixpoint whole (pos b : Z) (records : list (list Z)) (k : nat) : list (Z * list Z) :=
  match records with
  | [] => []
  | d :: records =>
      let l := layout b (fragments b d) in
      if (length l <=? k)%nat
      then (pos + size (trailer b), d) :: whole (pos + size l) (layout_end b (fragments b d)) records (k - length l)
      else []
  end.

Notation all_bytes := (Forall (fun d : list Z => is_bytes d)).

Lemma fragments_enough b (d : list Z) : (length d + (if (B - start b - 7 =? 0)%Z then 1%nat else 0%nat) < S (S (length d)))%nat.
Proof. destruct (_ =? _); lia. Qed.

Lemma cut_long n : forall b begin d, (length d + (if (B - start b - 7 =? 0)%Z then 1%nat else 0%nat) < n)%nat -> 0 <= b <= B ->
  (7 + length d <= length (layout b (cut n b begin d)))%nat /\ 0 <= layout_end b (cut n b begin d) <= B.
Proof.
  induction n as [|n IH]; intros b begin d Hn Hb; [lia|]. destruct (cut_range (S n) b d Hb Hn) as (Hs & Ha & Hmore). cbn [cut].
  set (avail := B - start b - 7) in *. pose proof (size_physical (fragment_type begin true) d) as Hp1.
  pose proof (size_physical (fragment_type begin false) (take (Z.to_nat avail) d)) as Hp2. pose proof (size_nonneg d).
  destruct (Z.leb_spec (size d) avail) as [Hle|Hgt]; cbn [layout layout_end]; rewrite !length_app; cbn [length].
  - unfold size, avail in *. lia.
  - destruct (Hmore Hgt) as (Hn2 & HB & Hfr). rewrite Hfr in *. replace (start b + 7 + avail) with B by lia.
    destruct (IH B false (drop (Z.to_nat avail) d) Hn2 ltac:(unfold kBlockSize; lia)) as [HI1 HI2]. split; [|done].
    rewrite length_drop in HI1. unfold size in *. lia.
Qed.

Lemma fragments_long b d : 0 <= b <= B ->
  (7 + length d <= length (layout b (fragments b d)))%nat /\ 0 <= layout_end b (fragments b d) <= B.
Proof. intros Hb. apply cut_long; [apply fragments_enough|done]. Qed.

Section reader.
Context `{Placement} {F : Type} `{SequentialLaws F}.

Lemma read_record_start fuel (r : Reader F) wld :
  initial_offset r = 0 -> 0 <= last_record_offset r -> ReadRecord fuel r wld = loop fuel record_step (mk_locals [] [] false 0) r wld.
Proof. intros Hi Hl. unfold ReadRecord. cbn [bind get]. rewrite (proj2 (Z.ltb_ge _ _)) by lia. done. Qed.

Lemma read_record_ok fuel (r : Reader F) pos b d rest ds wld :
  reading r pos b (layout b (fragments b d) ++ rest) ds -> is_bytes d -> (S (S (length d)) <= fuel)%nat ->
  exists r', ReadRecord fuel r wld = Ok (Some d) r' wld /\
    reading r' (pos + size (layout b (fragments b d))) (layout_end b (fragments b d)) rest ds /\
    last_record_offset r' = pos + size (trailer b).
Proof.
  intros Hr Hd Hf. rewrite read_record_start by apply Hr.
  destruct (read_fragments _ true b d (mk_locals [] [] false 0) _ _ _ _ wld (fragments_enough b d) Hd eq_refl ltac:(done) Hr) as (r' & Hrun & Hr').
  exists r'. split; [|done]. eapply loop_more; [exact Hrun|done].
Qed.

Lemma read_record_cut fuel (r : Reader F) pos b d k ds wld :
  reading r pos b (take k (layout b (fragments b d))) ds -> is_bytes d -> (k < length (layout b (fragments b d)))%nat ->
  (S (S (length d)) <= fuel)%nat ->
  exists r', ReadRecord fuel r wld = Ok None r' wld /\ at_end r' ds.
Proof.
  intros Hr Hd Hk Hf. rewrite read_record_start by apply Hr.
  destruct (read_cut_fragments _ true b d (mk_locals [] [] false 0) _ _ _ _ wld (fragments_enough b d) Hd eq_refl ltac:(done) Hr Hk) as (r' & Hrun & Hr').
  exists r'. split; [|done]. eapply loop_more; [exact Hrun|done].
Qed.

Lemma print_ok fuel records : forall n pos b k (r : Reader F) out ds wld,
  all_bytes records -> (length records < n)%nat -> Forall (fun d => (S (S (length d)) <= fuel)%nat) records -> (2 <= fuel)%nat ->
  reading r pos b (take k (log_layout b records)) ds ->
  exists r', loop n (print_step fuel) out r wld = Ok (out ++ whole pos b records k) r' wld /\ at_end r' ds.
Proof.
  induction records as [|d records IH]; intros [|n] pos b k r out ds wld Hd Hn Hf Hf2 Hr; [cbn in Hn; lia| |cbn in Hn; lia|];
    pose proof (rd_block _ _ _ _ _ Hr) as Hb; cbn [loop log_layout whole length] in *; unfold print_step at 1; cbn [bind].
  - destruct (fragments_long b [] Hb) as [Hlen _].
    destruct (read_record_cut fuel r pos b [] 0 ds wld) as (r' & Hrun & Hr'); [by rewrite take_nil in Hr|done|lia|done|].
    rewrite Hrun. exists r'. by rewrite app_nil_r.
  - inversion Hd; inversion Hf; subst. destruct (fragments_long b d Hb) as [Hlen _]. set (l := layout b (fragments b d)) in *.
    destruct (Nat.leb_spec (length l) k) as [Hle|Hgt].
    + rewrite take_app_ge in Hr by done. destruct (read_record_ok fuel r pos b d _ ds wld Hr) as (r1 & Hrun & Hr1 & Hlast); [done..|].
      rewrite Hrun. cbn [get ret bind]. unfold LastRecordOffset. rewrite Hlast.
      destruct (IH n _ _ _ _ (out ++ [(pos + size (trailer b), d)]) _ wld ltac:(done) ltac:(lia) ltac:(done) Hf2 Hr1) as (r2 & Hrun2 & Hr2).
      exists r2. split; [|done]. etrans; [exact Hrun2|]. by rewrite <- app_assoc.
    + rewrite take_app_le in Hr by lia. destruct (read_record_cut fuel r pos b d k ds wld Hr) as (r' & Hrun & Hr'); [done..|].
      rewrite Hrun. exists r'. by rewrite app_nil_r.
Qed.

End reader.

(** * The length of a log *)

Lemma cut_end n : forall b begin d, (length d + (if (B - start b - 7 =? 0)%Z then 1%nat else 0%nat) < n)%nat -> 0 <= b <= B ->
  layout_end b (cut n b begin d) mod B = (b + size (layout b (cut n b begin d))) mod B.
Proof.
  induction n as [|n IH]; intros b begin d Hn Hb; [lia|]. destruct (cut_range (S n) b d Hb Hn) as (Hs & Ha & Hmore). cbn [cut].
  set (avail := B - start b - 7) in *. pose proof (size_trailer b Hb) as Ht.
  assert (Hst : exists q, start b = b + size (trailer b) - q * B).
  { rewrite Ht. unfold start. destruct (_ <? _); [exists 1|exists 0]; lia. }
  destruct Hst as [q Hq]. destruct (Z.leb_spec (size d) avail) as [Hle|Hgt]; cbn [layout layout_end]; rewrite !size_app, size_physical.
  - replace (b + (size (trailer b) + (7 + size d + size []))) with (start b + 7 + size d + q * B)
      by (rewrite Hq; change (size []) with 0; ring). by rewrite Z.mod_add.
  - destruct (Hmore Hgt) as (Hn2 & HB & Hfr). rewrite Hfr. replace (start b + 7 + avail) with B by lia.
    rewrite (IH B false (drop (Z.to_nat avail) d) Hn2) by (unfold kBlockSize; lia). set (X := size (layout B _)).
    replace (b + (size (trailer b) + (7 + avail + X))) with (B + X + q * B)
      by (rewrite <- HB at 1; rewrite Hq; ring). by rewrite Z.mod_add.
Qed.

Lemma log_end_ok records : forall b, 0 <= b <= B ->
  0 <= log_end b records <= B /\ log_end b records mod B = (b + size (log_layout b records)) mod B.
Proof.
  induction records as [|d records IH]; intros b Hb; cbn [log_end log_layout]; [by rewrite Z.add_0_r|].
  destruct (fragments_long b d Hb) as [_ Hr]. destruct (IH _ Hr) as [H1 H2]. split; [done|].
  rewrite H2, size_app, <- Z.add_mod_idemp_l by done. unfold fragments at 1. rewrite cut_end by (done || apply fragments_enough).
  rewrite Z.add_mod_idemp_l by done. f_equal. unfold fragments. lia.
Qed.

(** The end of a block is the start of the next. *)
Lemma layout_B d : layout B (fragments B d) = layout 0 (fragments 0 d) /\ layout_end B (fragments B d) = layout_end 0 (fragments 0 d).
Proof.
  unfold fragments. cbn [cut]. change (start B) with 0. change (start 0) with 0.
  destruct (size d <=? B - 0 - 7); cbn [layout layout_end]; change (start B) with 0; change (start 0) with 0; by split.
Qed.

Lemma log_layout_mod b records : 0 <= b <= B -> log_layout (b mod B) records = log_layout b records.
Proof.
  intros Hb. destruct (Z.eq_dec b B) as [->|Hn]; [|by rewrite Z.mod_small by lia].
  change (B mod B) with 0. destruct records as [|d records]; [done|]. cbn [log_layout]. destruct (layout_B d) as [-> ->]. done.
Qed.

Lemma log_layout_app records more : forall b, log_layout b (records ++ more) = log_layout b records ++ log_layout (log_end b records) more.
Proof. induction records as [|d records IH]; intros b; cbn [log_layout log_end app]; [done|]. by rewrite IH, app_assoc. Qed.

Lemma log_layout_take b records n : (length (log_layout b (take n records)) <= length (log_layout b records))%nat.
Proof. rewrite <- (take_drop n records) at 2. rewrite log_layout_app, length_app. lia. Qed.

(** * The records of a prefix *)

Lemma whole_prefix records : forall pos b k, exists m, map snd (whole pos b records k) = take m records /\ m = length (whole pos b records k).
Proof.
  induction records as [|d records IH]; intros pos b k; cbn [whole]; [by exists O|]. destruct (_ <=? _)%nat; [|by exists O].
  destruct (IH (pos + size (layout b (fragments b d))) (layout_end b (fragments b d)) (k - length (layout b (fragments b d)))%nat) as (m & E1 & E2).
  exists (S m). cbn [map take length snd]. by rewrite E1, E2.
Qed.

Lemma whole_least records : forall pos b k n, (length (log_layout b (take n records)) <= k)%nat -> (n <= length records)%nat ->
  (n <= length (whole pos b records k))%nat.
Proof.
  induction records as [|d records IH]; intros pos b k [|n] Hk Hn; cbn [whole log_layout take length] in *; try lia. rewrite length_app in Hk.
  destruct (Nat.leb_spec (length (layout b (fragments b d))) k); [|lia]. cbn [length]. apply le_n_S, IH; lia.
Qed.

Lemma whole_most records : forall pos b k n, (k <= length (log_layout b (take n records)))%nat -> 0 <= b <= B -> (length (whole pos b records k) <= n)%nat.
Proof.
  induction records as [|d records IH]; intros pos b k n Hk Hb; cbn [whole]; [cbn; lia|].
  destruct (fragments_long b d Hb) as [Hl He]. destruct (Nat.leb_spec (length (layout b (fragments b d))) k); [|cbn; lia].
  destruct n as [|n]; cbn [log_layout take length] in Hk; [lia|]. rewrite length_app in Hk. cbn [length]. apply le_n_S, IH; [lia|done].
Qed.

Lemma log_long records : forall b, 0 <= b <= B ->
  (length records <= length (log_layout b records))%nat /\
  Forall (fun d => (S (S (length d)) <= length (log_layout b records))%nat) records.
Proof.
  induction records as [|d records IH]; intros b Hb; cbn [log_layout length]; [by split|]. rewrite length_app.
  destruct (fragments_long b d Hb) as [Hl He]. destruct (IH _ He) as [H1 H2]. split; [lia|]. constructor; [lia|].
  eapply Forall_impl; [|exact H2]. cbn. lia.
Qed.

(** Reading a log of which the first [k] bytes are there gives the records that end
    there, and nothing is reported. *)
Lemma print_prefix `{Placement} `{SequentialLaws G} records k (g : G) reporter chk fuel wld :
  all_bytes records -> size (log_layout 0 records) < 2 ^ 64 -> remaining g = take k (log_layout 0 records) ->
  (length (log_layout 0 records) + 1 < fuel)%nat ->
  exists r', PrintLogContents fuel (new_Reader g reporter chk 0) wld = Ok (whole 0 B records k) r' wld /\ drops r' = [].
Proof.
  intros Hd Hs Hg Hf. destruct (log_long records 0 ltac:(unfold kBlockSize; lia)) as [H1' H2'].
  destruct (print_ok fuel records fuel 0 B k (new_Reader g reporter chk 0) [] [] wld) as (r' & Hrun & Hr'); [done|lia| |lia| |].
  - eapply Forall_impl; [|exact H2']. cbn. lia.
  - rewrite <- (log_layout_mod B) by (unfold kBlockSize; lia). change (B mod B) with 0. rewrite <- Hg. apply new_reading. rewrite Hg. unfold size in *. rewrite length_take. lia.
  - exists r'. split; [exact Hrun|apply Hr'].
Qed.

(** * Writing and reading *)

(** An application that appends records until a call fails: the number of calls that did not. *)
Fixpoint AddRecords `{Placement} `{WritableFile F} (records : list (list Z)) : SM (Writer F) nat :=
  match records with
  | [] => ret O
  | d :: records => let* s := AddRecord d in if ok s then let* n := AddRecords records in ret (S n) else ret O
  end.

Lemma add_records_ok `{Placement} `{WritableLaws F} records : forall (w : Writer F) wld,
  type_crc w = InitTypeCrc -> all_bytes records -> 0 <= block_offset w <= B -> clean (dest w) ->
  exists n w', AddRecords records w wld = Ok n w' wld /\ (n <= length records)%nat /\ (reliable (F := F) -> n = length records) /\
    (length (contents (dest w)) + length (log_layout (block_offset w) (take n records)) <= flushed (dest w'))%nat /\
    exists k, contents (dest w') = contents (dest w) ++ take k (log_layout (block_offset w) records) /\
      (k <= length (log_layout (block_offset w) (take (S n) records)))%nat.
Proof.
  induction records as [|d records IH]; intros w wld Hc Hd Hb Hh.
  - exists O, w. split; [done|]. split; [done|]. split; [done|]. cbn [take log_layout length]. split; [unfold clean in Hh; lia|]. exists O. cbn. by rewrite app_nil_r.
  - inversion Hd; subst. destruct (add_record_ok d w wld) as (s & w1 & Hrun & Hc1 & Hb1 & Hre & Hw); [done..|]. destruct (Hw Hh) as [[Hf1 E1] Hok].
    cbn [AddRecords bind]. rewrite Hrun. destruct (ok s) eqn:Es.
    + destruct (Hok eq_refl) as [Hh1 He]. destruct (IH w1 wld) as (n & w2 & Hrun2 & Hn & Hall & Hfl & k & E2 & Hk); [done..|].
      cbn [bind]. rewrite Hrun2. exists (S n), w2. split; [done|]. cbn [length]. split; [lia|]. split; [intros Hr; f_equal; auto|].
      rewrite He in *. cbn [take log_layout]. rewrite E1 in Hfl. rewrite length_app in *. split; [lia|].
      exists (length (layout (block_offset w) (fragments (block_offset w) d)) + k)%nat.
      rewrite E2, E1, <- app_assoc, take_app_add. split; [done|]. cbn [take log_layout] in *. rewrite ?length_app in *. lia.
    + destruct E1 as [k E1]. exists O, w1. split; [done|]. split; [lia|]. split; [intros Hr; by specialize (Hre Hr)|]. cbn [take log_layout length]. split; [lia|].
      exists (Nat.min k (length (layout (block_offset w) (fragments (block_offset w) d)))).
      rewrite app_nil_r, take_app_le by lia. split; [|lia]. rewrite E1. f_equal.
      destruct (Nat.le_gt_cases k (length (layout (block_offset w) (fragments (block_offset w) d)))); [by rewrite Nat.min_l by lia|].
      rewrite Nat.min_r by lia. by rewrite !take_ge by lia.
Qed.

(** Reading a log of which only the first [k] bytes are there gives exactly the records
    that end within them, each with the offset at which it starts, and reports no
    corruption. *)
Theorem log_read_prefix `{Placement} `{SequentialLaws G} records k (g : G) reporter chk fuel wld :
  all_bytes records -> size (log_layout 0 records) < 2 ^ 64 -> remaining g = take k (log_layout 0 records) ->
  (length (log_layout 0 records) + 1 < fuel)%nat ->
  exists r', PrintLogContents fuel (new_Reader g reporter chk 0) wld = Ok (whole 0 B records k) r' wld /\ drops r' = [].
Proof. apply print_prefix. Qed.

(** C3: an application opens a log that holds the records [old], with nothing in the file's
    buffer, and appends [records] until a call of AddRecord fails; any call on the file may
    fail, and lose what was not flushed, except that Append of up to six bytes succeeds if nothing
    is in the buffer.  [n] calls of AddRecord succeed, all of them if no call on
    the file fails.  Whatever prefix of the file a crash leaves, the reader finds a prefix of
    all the records and reports no corruption; if what was flushed is there, as when only the
    process dies, it finds every record for which the application was told OK, and at most the
    one whose call failed besides. *)
Theorem log_crash_safe `{Placement} `{WritableLaws F} `{SequentialLaws G} old records (f : F) wld :
  all_bytes (old ++ records) -> size (log_layout 0 (old ++ records)) < 2 ^ 64 ->
  clean f -> contents f = log_layout 0 old ->
  exists n w', AddRecords records (reopen_Writer f (size (contents f))) wld = Ok n w' wld /\
    (n <= length records)%nat /\ (reliable (F := F) -> n = length records) /\
    forall k (g : G) reporter chk fuel, remaining g = take k (contents (dest w')) ->
      (length (log_layout 0 (old ++ records)) + 1 < fuel)%nat ->
      exists found r', PrintLogContents fuel (new_Reader g reporter chk 0) wld = Ok found r' wld /\ drops r' = [] /\
        map snd found = take (length found) (old ++ records) /\ (length found <= length old + S n)%nat /\
        ((flushed (dest w') <= k)%nat -> (length old + n <= length found)%nat).
Proof.
  intros Hd Hs Hh Hf. assert (HB0 : 0 <= 0 <= B) by (unfold kBlockSize; lia). destruct (log_end_ok old 0 HB0) as [He1 He2].
  assert (Hoff : size (contents f) mod kBlockSize = log_end 0 old mod B) by (rewrite Hf, He2; f_equal).
  pose proof (Z.mod_pos_bound (log_end 0 old) B ltac:(done)) as Hm. apply Forall_app in Hd as Hd2. destruct Hd2 as [Ho Hr].
  destruct (add_records_ok records (reopen_Writer f (size (contents f))) wld) as (n & w' & Hrun & Hn & Hall & Hfl & k0 & Ec & Hk0);
    [done|done|cbn; lia|done|].
  exists n, w'. do 3 (split; [done|]). intros k g reporter chk fuel Hg Hfuel.
  cbn [dest block_offset reopen_Writer] in *. rewrite Hoff, !log_layout_mod in * by done.
  assert (Ec2 : contents (dest w') = take (length (log_layout 0 old) + k0) (log_layout 0 (old ++ records)))
    by (rewrite Ec, Hf, log_layout_app; by rewrite take_app_add).
  rewrite Ec2, take_take in Hg.
  destruct (print_prefix (old ++ records) _ g reporter chk fuel wld Hd Hs Hg Hfuel) as (r' & Hp & Hdr).
  exists (whole 0 B (old ++ records) (k `min` (length (log_layout 0 old) + k0))), r'. split; [done|]. split; [done|].
  destruct (whole_prefix (old ++ records) 0 B (k `min` (length (log_layout 0 old) + k0))) as (m & Em & Hm2).
  split; [by rewrite Em, Hm2|].
  assert (Hbl : forall j, log_layout 0 (take (length old + j) (old ++ records)) = log_layout 0 old ++ log_layout (log_end 0 old) (take j records))
    by (intros j; by rewrite take_app_add, log_layout_app).
  assert (HbB : forall l, log_layout B l = log_layout 0 l) by (intros l; by rewrite <- (log_layout_mod B)).
  split.
  - apply whole_most; [|done]. rewrite HbB, Hbl, length_app. lia.
  - intros Hk. apply whole_least; [|rewrite length_app; lia]. rewrite HbB, Hbl, length_app. pose proof (flushed_le (dest w')) as Hle.
    rewrite Ec2, length_take, log_layout_app, length_app in Hle. rewrite Hf in Hfl. lia.
Qed.

(** * Reading a log ends, whatever the file holds and whatever state the reader is in: every
    call takes bytes from the buffer or the file, or finds the end. *)

Section reader.
Context `{Placement} {F : Type} `{SequentialLaws F}.
Notation R := (Reader F).

(** The bytes that are not consumed yet. *)
Definition unread (r : R) : nat := length (buffer r) + length (remaining (file r)).

Lemma report_ends bytes reason (r : R) wld :
  exists r', ReportDrop bytes reason r wld = Ok tt r' wld /\ buffer r' = buffer r /\ file r' = file r /\ eof r' = eof r.
Proof. unfold ReportDrop. cbn [bind get]. destruct (_ && _); eexists; by split. Qed.

Ltac report :=
  cbn [bind modify];
  match goal with |- context [ReportCorruption ?n ?s ?r ?w] =>
    let r' := fresh "r'" in let E := fresh "E" in
    destruct (report_ends n (Corruption s) r w) as (r' & E & ? & ? & ?); unfold ReportCorruption at 1; rewrite E; cbn [bind ret modify]
  end.

Lemma parse_ends (r : R) wld : 7 <= size (buffer r) ->
  exists x r', parse_record r wld = Ok x r' wld /\ (unread r' < unread r)%nat.
Proof.
  intros H7. unfold parse_record. cbn [bind get]. unfold kHeaderSize. change (4 + 2 + 1) with 7. set (n := Z.lor _ _).
  assert (Hn : 0 <= n) by (apply Z.lor_nonneg; split; [|apply Z.shiftl_nonneg]; apply Z.land_nonneg; right; lia).
  assert (Hclear : forall (r1 : R), buffer r1 = [] -> file r1 = file r -> (unread r1 < unread r)%nat)
    by (intros r1 E1 E2; unfold unread, size in *; rewrite E1, E2; cbn; lia).
  destruct (Z.ltb_spec (size (buffer r)) (7 + n)) as [|Hlen]; cbn [bind modify].
  { destruct (eof r); cbn [negb]; [|report]; do 2 eexists; (split; [done|]); by apply Hclear. }
  destruct (_ && _); cbn [bind modify ret]; [do 2 eexists; split; [done|]; by apply Hclear|].
  destruct (if checksum r then _ else false); cbn [bind modify].
  { report. do 2 eexists. split; [done|]. by apply Hclear. }
  destruct (_ <? initial_offset r); cbn [ret]; do 2 eexists; (split; [done|]); unfold unread; cbn; rewrite length_drop; unfold size in *; lia.
Qed.

Definition settled (r : R) : Prop := 7 <= size (buffer r) \/ eof r = true.

Lemma physical_step_ends (r : R) wld :
  exists x r', physical_step tt r wld = Ok x r' wld /\ (unread r' <= unread r)%nat /\
    match x with
    | inl _ => settled r' /\ ~ settled r
    | inr (t, _) => t = kEof \/ (unread r' < unread r)%nat
    end.
Proof.
  unfold physical_step. cbn [bind get]. unfold kHeaderSize. change (4 + 2 + 1) with 7.
  destruct (Z.ltb_spec (size (buffer r)) 7) as [Hlt|Hge].
  - destruct (eof r) eqn:He; cbn [negb bind modify].
    { do 2 eexists. split; [done|]. split; [unfold unread; cbn; lia|by left]. }
    cbn [file set_buffer]. destruct (read_ok kBlockSize (file r) ltac:(done)) as (f' & Hr & Hf'). rewrite Hr. cbn [bind modify ok negb].
    assert (Hns : ~ settled r) by (intros [?|?]; [lia|congruence]).
    destruct (Z.ltb_spec (size (take (Z.to_nat kBlockSize) (remaining (file r)))) kBlockSize); cbn [bind modify ret]; do 2 eexists; (split; [done|]);
      (split; [unfold unread; cbn; rewrite Hf', length_take, length_drop; lia|split; [|done]]); [by right|].
    left. cbn. unfold kBlockSize in *. lia.
  - destruct (parse_ends r wld Hge) as ((t & x) & r' & Hrun & Hu). cbn [bind]. rewrite Hrun. cbn [ret]. do 2 eexists. split; [done|]. split; [lia|by right].
Qed.

Lemma physical_ends x (r : R) wld :
  exists t y r', ReadPhysicalRecord x r wld = Ok (t, y) r' wld /\ (unread r' <= unread r)%nat /\ (t = kEof \/ (unread r' < unread r)%nat).
Proof.
  unfold ReadPhysicalRecord. cbn [loop bind].
  destruct (physical_step_ends r wld) as ([[]|[t1 y1]] & r1 & E1 & Hu1 & Hx1); rewrite E1; cbn [ret bind]; [|by do 3 eexists].
  destruct (physical_step_ends r1 wld) as ([[]|[t2 y2]] & r2 & E2 & Hu2 & Hx2); [by destruct Hx1, Hx2|]. rewrite E2. cbn [ret bind].
  do 3 eexists. split; [done|]. split; [lia|]. destruct Hx2; [by left|right; lia].
Qed.

(** What a step consumes. *)
Definition consumed {A B} (r r' : R) (x : A + option B) : Prop :=
  (unread r' <= unread r)%nat /\ (x = inr None \/ (unread r' < unread r)%nat).

Lemma record_step_ends v (r : R) wld :
  exists x r', record_step v r wld = Ok x r' wld /\ consumed r r' x.
Proof.
  unfold record_step. cbn [bind]. destruct (physical_ends (fragment v) r wld) as (t & y & r1 & E1 & Hu & Ht). rewrite E1.
  cbn [bind get].
  set (r2 := if resyncing r1 && negb (t =? kMiddleType) then set_resyncing false r1 else r1).
  assert (E2 : (if resyncing r1 && negb (t =? kMiddleType) then modify (set_resyncing false) else ret tt) r1 wld = Ok tt r2 wld)
    by (unfold r2; by destruct (_ && _)).
  assert (Hr2 : unread r2 = unread r1) by (unfold r2; by destruct (_ && _)).
  rewrite E2. cbn [fragment scratch in_fragmented_record prospective_record_offset]. clearbody r2.
  assert (Hdone : forall (x : locals + option (list Z)) (r3 : R), buffer r3 = buffer r2 -> file r3 = file r2 -> (t = kEof -> x = inr None) -> consumed r r3 x).
  { intros x r3 Eb Ef Hx. assert (Hr3 : unread r3 = unread r2) by (unfold unread; by rewrite Eb, Ef).
    unfold consumed. rewrite Hr3, Hr2. split; [done|]. destruct Ht as [Ht|Ht]; [left; auto|by right]. }
  destruct (resyncing r1 && ((t =? kMiddleType) || (t =? kLastType))) eqn:Ea.
  { do 2 eexists. split; [done|]. apply Hdone; [done|done|]. intros ->. by rewrite andb_false_r in Ea. }
  destruct (t =? kFullType) eqn:E3.
  { cbn [bind]; destruct (in_fragmented_record v && negb _); cbn [bind modify ret]; [report|]; do 2 eexists; (split; [done|]); apply Hdone; try done; by intros ->. }
  destruct (t =? kFirstType) eqn:E4.
  { cbn [bind]; destruct (in_fragmented_record v && negb _); cbn [bind modify ret]; [report|]; do 2 eexists; (split; [done|]); apply Hdone; try done; by intros ->. }
  destruct (t =? kMiddleType) eqn:E5.
  { destruct (negb (in_fragmented_record v)); cbn [bind modify ret]; [report|]; do 2 eexists; (split; [done|]); apply Hdone; try done; by intros ->. }
  destruct (t =? kLastType) eqn:E6.
  { destruct (negb (in_fragmented_record v)); cbn [bind modify ret]; [report|]; do 2 eexists; (split; [done|]); apply Hdone; try done; by intros ->. }
  destruct (t =? kEof) eqn:E7; [do 2 eexists; split; [done|]; by apply Hdone|].
  assert (Hne : t <> kEof) by (by apply Z.eqb_neq).
  destruct (t =? kBadRecord).
  { cbn [in_fragmented_record]. destruct (in_fragmented_record v); cbn [bind modify ret]; [report|]; do 2 eexists; (split; [done|]); by apply Hdone. }
  cbn [bind]. report. do 2 eexists. split; [done|]. by apply Hdone.
Qed.

Lemma record_loop_ends n : forall v (r : R) wld, (unread r < n)%nat ->
  exists x r', loop n record_step v r wld = Ok x r' wld /\ (unread r' <= unread r)%nat /\ (x = None \/ (unread r' < unread r)%nat).
Proof.
  induction n as [|n IH]; intros v r wld Hn; [lia|]. cbn [loop bind].
  destruct (record_step_ends v r wld) as ([v1|x1] & r1 & E1 & Hu & Hx); rewrite E1; cbn [ret].
  - destruct Hx as [|Hx]; [done|]. destruct (IH v1 r1 wld ltac:(lia)) as (x & r2 & E2 & Hu2 & Hx2). do 2 eexists. split; [done|].
    split; [lia|]. destruct Hx2; [by left|right; lia].
  - do 2 eexists. split; [done|]. split; [done|]. destruct Hx as [[= ->]|]; auto.
Qed.

Lemma skip_ends (r : R) wld : exists x r', SkipToInitialBlock r wld = Ok x r' wld /\ (unread r' <= unread r)%nat.
Proof.
  unfold SkipToInitialBlock. cbn [bind get modify]. set (loc := if kBlockSize - 6 <? _ then _ else _).
  destruct (Z.ltb_spec 0 loc); [|do 2 eexists; by split]. destruct (skip_ok loc (file r) ltac:(lia)) as (f' & Hs & Hf'). rewrite Hs.
  cbn [bind modify ok negb ret]. do 2 eexists. split; [done|]. unfold unread. cbn. rewrite Hf', length_drop. lia.
Qed.

Lemma read_record_ends fuel (r : R) wld : (unread r < fuel)%nat ->
  exists x r', ReadRecord fuel r wld = Ok x r' wld /\ (unread r' <= unread r)%nat /\ (x = None \/ (unread r' < unread r)%nat).
Proof.
  intros Hf. unfold ReadRecord. cbn [bind get].
  assert (Hgo : exists go r1, (if last_record_offset r <? initial_offset r then SkipToInitialBlock else ret true) r wld = Ok go r1 wld /\ (unread r1 <= unread r)%nat).
  { destruct (_ <? _); [apply skip_ends|do 2 eexists; by split]. }
  destruct Hgo as (go & r1 & -> & Hu). destruct go; cbn [negb ret]; [|do 2 eexists; split; [done|]; split; [done|by left]].
  destruct (record_loop_ends fuel (mk_locals [] [] false 0) r1 wld ltac:(lia)) as (x & r2 & E2 & Hu2 & Hx2).
  do 2 eexists. split; [done|]. split; [lia|]. destruct Hx2; [by left|right; lia].
Qed.

Lemma print_ends fuel n : forall out (r : R) wld, (unread r < n)%nat -> (unread r < fuel)%nat ->
  exists out' r', loop n (print_step fuel) out r wld = Ok out' r' wld.
Proof.
  induction n as [|n IH]; intros out r wld Hn Hf; [lia|]. cbn [loop]. unfold print_step at 1. cbn [bind].
  destruct (read_record_ends fuel r wld Hf) as ([x|] & r1 & E1 & Hu & Hx); rewrite E1; cbn [get bind ret]; [|by do 2 eexists].
  destruct Hx as [|Hx]; [done|]. apply IH; lia.
Qed.

(** C25: reading a log ends on every file, damaged or not, and with any initial offset, after
    a number of rounds bounded by the bytes of the file. *)
Theorem log_reading_ends fuel f reporter chk initial wld :
  (length (remaining f) < fuel)%nat ->
  exists out r', PrintLogContents fuel (new_Reader f reporter chk initial) wld = Ok out r' wld.
Proof. intros Hf. by apply print_ends. Qed.

End reader.

(** * A log in memory: the inputs of the witnesses, and a write error that [AddRecord] loses. *)

#[local] Instance anywhere : Placement := fun _ => 1001.
Definition nowhere : world := World ∅ ∅ 0.

Definition old_records : list (list Z) := [[9]].
Definition two_records : list (list Z) := [[1; 2; 3]; [4; 5]].

Lemma log_read_prefix_witness :
  exists r', PrintLogContents 22 (new_Reader (take 18 (log_layout 0 two_records)) true true 0) nowhere = Ok (whole 0 B two_records 18) r' nowhere /\ drops r' = [].
Proof.
  apply (log_read_prefix two_records 18 (take 18 (log_layout 0 two_records)) true true 22 nowhere).
  - repeat constructor; lia.
  - by vm_compute.
  - reflexivity.
  - vm_compute. lia.
Defined.

(** The calls of [write] for the two new records: the first is interrupted, writes four bytes
    and then the rest, the second writes five and fails. *)
Definition small_disk : posix_file :=
  mk_posix (log_layout 0 old_records) [] false "000003.log" "." [Interrupted; Wrote 4; Wrote 100; Wrote 5; WriteError false "No space left on device"] [] 0.

Lemma log_crash_safe_witness :
  exists n w', AddRecords two_records (reopen_Writer small_disk (size (contents small_disk))) nowhere = Ok n w' nowhere /\
    (n <= length two_records)%nat /\ (reliable (F := posix_file) -> n = length two_records) /\
    forall k (g : list Z) reporter chk fuel, remaining g = take k (contents (dest w')) ->
      (length (log_layout 0 (old_records ++ two_records)) + 1 < fuel)%nat ->
      exists found r', PrintLogContents fuel (new_Reader g reporter chk 0) nowhere = Ok found r' nowhere /\ drops r' = [] /\
        map snd found = take (length found) (old_records ++ two_records) /\ (length found <= length old_records + S n)%nat /\
        ((flushed (dest w') <= k)%nat -> (length old_records + n <= length found)%nat).
Proof.
  apply (log_crash_safe old_records two_records small_disk nowhere).
  - repeat constructor; lia.
  - by vm_compute.
  - reflexivity.
  - reflexivity.
Defined.

(** A damaged file, read from an offset within a block. *)
Lemma log_reading_ends_witness :
  exists out r', PrintLogContents 30 (new_Reader (repeat 255 29) true true 70000) nowhere = Ok out r' nowhere.
Proof. apply (log_reading_ends 30 (repeat 255 29) true true 70000 nowhere). vm_compute. lia. Defined.

(** * A lost error *)

(** A disk on which one call of Append fails: the one after [good] calls. *)
Record flaky_file := mk_flaky { flaky_bytes : list Z; good : Z }.

#[export] Instance flaky_writable : WritableFile flaky_file := {
  Append l f := if good f =? 0 then (IOError "disk", mk_flaky (flaky_bytes f) (-1)) else (OK, mk_flaky (flaky_bytes f ++ l) (good f - 1));
  Flush f := (OK, f);
}.

(** A record that leaves three bytes of its block. *)
Definition long_record : list Z := repeat 7 (Z.to_nat (kBlockSize - 7 - 3)).

Definition flaky_log : option (nat * list Z) :=
  match AddRecords [long_record; [1]; [2; 2]] (new_Writer (mk_flaky [] 2)) nowhere with
  | Ok n w _ => Some (n, flaky_bytes (dest w))
  | _ => None
  end.

Definition read_lengths (l : list Z) : option (list Z * list (Z * Status)) :=
  match PrintLogContents 10 (new_Reader l true true 0) nowhere with
  | Ok out r _ => Some (map (fun x => size (snd x)) out, drops r)
  | _ => None
  end.

(** The status of the Append of a block's trailer is ignored: when that call fails and the
    next ones succeed, [AddRecord] returns OK for the record that follows and for those
    after it, but the reader does not find them and reports nothing. *)
Example trailer_error_lost :
  option_map (fun nl => (fst nl, read_lengths (snd nl))) flaky_log = Some (3%nat, Some ([32758], [])).
Proof. vm_compute. reflexivity. Qed.
