(* ===== verification/LdbComparator.v ===== *)
(** LevelDB's Slice (include/leveldb/slice.h), the interface of comparators
    (include/leveldb/comparator.h) with the laws that its clients rely on, and the built-in
    comparator (util/comparator.cc).

    A Slice is the list of the bytes that it stands for.  A comparator's operations return
    [None] where an assertion fails. *)
From stdpp Require Import base list numbers option.
From Stdlib Require Import ZArith Lia.
From S2P Require Import Prelude.

(** * Slices *)

(** The sign of the first difference is all that the C library promises. *)
Fixpoint memcmp (n : nat) (a b : list Z) : Z :=
  match n, a, b with
  | S n, x :: a, y :: b => if x <? y then -1 else if y <? x then 1 else memcmp n a b
  | _, _, _ => 0
  end.

Definition slice_compare (a b : list Z) : Z :=
  let min_len := if (length a <? length b)%nat then length a else length b in
  let r := memcmp min_len a b in
  if r =? 0 then
    if (length a <? length b)%nat then -1
    else if (length b <? length a)%nat then 1 else r
  else r.

Definition starts_with (a x : list Z) : bool := (length x <=? length a)%nat && (memcmp (length x) a x =? 0).
Definition slice_eq (x y : list Z) : bool := (length x =? length y)%nat && (memcmp (length x) x y =? 0).
Definition remove_prefix (n : nat) (a : list Z) : option (list Z) := if (n <=? length a)%nat then Some (drop n a) else None.

(** * Comparators *)

Class Comparator := {
  Compare : list Z -> list Z -> option Z;
  FindShortestSeparator : list Z -> list Z -> option (list Z);
  FindShortSuccessor : list Z -> option (list Z);
}.

(** What a comparator promises for the keys it is made for: a total preorder, and
    separators within it. *)
Class ComparatorLaws `{Comparator} := {
  valid_key : list Z -> Prop;
  order : list Z -> list Z -> comparison;
  compare_ok a b : valid_key a -> valid_key b -> exists c, Compare a b = Some c /\ (c ?= 0) = order a b;
  order_refl a : order a a = Eq;
  order_flip a b : order b a = CompOpp (order a b);
  order_lt_le a b c : valid_key a -> valid_key b -> valid_key c -> order a b = Lt -> order b c <> Gt -> order a c = Lt;
  order_le_lt a b c : valid_key a -> valid_key b -> valid_key c -> order a b <> Gt -> order b c = Lt -> order a c = Lt;
  separator_ok start limit : valid_key start -> valid_key limit -> order start limit = Lt ->
    exists s, FindShortestSeparator start limit = Some s /\ valid_key s /\ order start s <> Gt /\ order s limit = Lt;
  separator_keep start limit : valid_key start -> valid_key limit -> order start limit = Eq -> FindShortestSeparator start limit = Some start;
  successor_ok key : valid_key key -> exists s, FindShortSuccessor key = Some s /\ valid_key s /\ order key s <> Gt;
}.

(** * BytewiseComparatorImpl *)

(** The length of the common prefix: the loop of FindShortestSeparator, which compares no
    more than [n] bytes. *)
Fixpoint common_prefix (n : nat) (a b : list Z) : nat :=
  match n, a, b with
  | S n, x :: a, y :: b => if x =? y then S (common_prefix n a b) else O
  | _, _, _ => O
  end.

Definition bytewise_separator (start limit : list Z) : option (list Z) :=
  let min_length := Nat.min (length start) (length limit) in
  let diff_index := common_prefix min_length start limit in
  if (min_length <=? diff_index)%nat then Some start
  else
    let diff_byte := u8 (nth diff_index start 0) in
    if (diff_byte <? 0xff) && (diff_byte + 1 <? u8 (nth diff_index limit 0)) then
      let start := take diff_index start ++ [u8 (nth diff_index start 0 + 1)] in
      if slice_compare start limit <? 0 then Some start else None
    else Some start.

(** The loop over the bytes from [i] on. *)
Fixpoint successor_loop (key : list Z) (i : nat) (rest : list Z) : list Z :=
  match rest with
  | [] => key
  | byte :: rest => if negb (byte =? 0xff) then take i key ++ [u8 (byte + 1)] else successor_loop key (S i) rest
  end.

Definition bytewise_successor (key : list Z) : list Z := successor_loop key 0 key.

#[export] Instance bytewise : Comparator := {
  Compare a b := Some (slice_compare a b);
  FindShortestSeparator := bytewise_separator;
  FindShortSuccessor key := Some (bytewise_successor key);
}.

(** * The lexicographic order *)

Fixpoint lex (a b : list Z) : comparison :=
  match a, b with
  | [], [] => Eq
  | [], _ :: _ => Lt
  | _ :: _, [] => Gt
  | x :: a, y :: b => match x ?= y with Eq => lex a b | c => c end
  end.

Lemma lex_refl a : lex a a = Eq.
Proof. induction a as [|x a IH]; cbn; [done|]. by rewrite Z.compare_refl. Qed.

Lemma lex_flip a : forall b, lex b a = CompOpp (lex a b).
Proof.
  induction a as [|x a IH]; intros [|y b]; cbn; try done. rewrite (Z.compare_antisym x y). by destruct (x ?= y); cbn.
Qed.

Lemma lex_eq a : forall b, lex a b = Eq <-> a = b.
Proof.
  induction a as [|x a IH]; intros [|y b]; cbn; try done. destruct (Z.compare_spec x y) as [->|?|?].
  - rewrite IH. naive_solver.
  - split; [done|]. intros [= ? ?]. lia.
  - split; [done|]. intros [= ? ?]. lia.
Qed.

Lemma lex_le_lt a : forall b c, lex a b <> Gt -> lex b c = Lt -> lex a c = Lt.
Proof.
  induction a as [|x a IH]; intros [|y b] [|z c]; cbn; try done.
  destruct (Z.compare_spec x y) as [->|Hxy|Hxy]; [|intros _|done].
  - destruct (y ?= z); [apply IH|done|done].
  - destruct (Z.compare_spec y z) as [->|Hyz|Hyz]; [| |done].
    + intros _. by rewrite (proj2 (Z.compare_lt_iff x z)).
    + intros _. rewrite (proj2 (Z.compare_lt_iff x z)); [done|lia].
Qed.

Lemma lex_lt_le a b c : lex a b = Lt -> lex b c <> Gt -> lex a c = Lt.
Proof.
  intros H1 H2. destruct (lex b c) eqn:E; [|by eapply lex_le_lt; [|exact E]; rewrite H1|done].
  apply lex_eq in E. by subst.
Qed.

Lemma lex_app p a b : lex (p ++ a) (p ++ b) = lex a b.
Proof. induction p as [|x p IH]; cbn; [done|]. by rewrite Z.compare_refl. Qed.

Lemma memcmp_app p : forall n a b, memcmp (length p + n) (p ++ a) (p ++ b) = memcmp n a b.
Proof. induction p as [|x p IH]; intros n a b; cbn; [done|]. rewrite Z.ltb_irrefl. apply IH. Qed.

(** [compare] is the lexicographic order. *)
Lemma slice_compare_lex a : forall b, (slice_compare a b ?= 0) = lex a b.
Proof.
  induction a as [|x a IH]; intros [|y b]; try done. specialize (IH b). unfold slice_compare in *. cbn [length].
  change (S (length a) <? S (length b))%nat with (length a <? length b)%nat. change (S (length b) <? S (length a))%nat with (length b <? length a)%nat.
  replace (if (length a <? length b)%nat then S (length a) else S (length b)) with (S (if (length a <? length b)%nat then length a else length b))
    by (by destruct (_ <? _)%nat).
  cbn [memcmp lex]. destruct (Z.compare_spec x y) as [->|Hxy|Hxy].
  - by rewrite Z.ltb_irrefl.
  - by rewrite (proj2 (Z.ltb_lt _ _)).
  - rewrite (proj2 (Z.ltb_ge x y)) by lia. by rewrite (proj2 (Z.ltb_lt y x)).
Qed.

Lemma common_prefix_ok n a : forall b, n = Nat.min (length a) (length b) ->
  exists p a' b', a = p ++ a' /\ b = p ++ b' /\ common_prefix n a b = length p /\
    ((n <= length p)%nat \/ exists x y a2 b2, a' = x :: a2 /\ b' = y :: b2 /\ x <> y).
Proof.
  revert a. induction n as [|n IH]; intros a b Hn.
  - exists [], a, b. cbn. repeat split. left. lia.
  - destruct a as [|x a]; [done|]. destruct b as [|y b]; [done|]. cbn [common_prefix]. destruct (Z.eqb_spec x y) as [->|Hxy].
    + destruct (IH a b) as (p & a' & b' & -> & -> & -> & Hc); [cbn in Hn; lia|]. exists (y :: p), a', b'. cbn. repeat split; [].
      destruct Hc as [?|?]; [left; lia|by right].
    + exists [], (x :: a), (y :: b). cbn. repeat split. right. by exists x, y, a, b.
Qed.

Lemma bytewise_separator_ok start limit : is_bytes start -> is_bytes limit -> lex start limit = Lt ->
  exists s, bytewise_separator start limit = Some s /\ is_bytes s /\ lex start s <> Gt /\ lex s limit = Lt.
Proof.
  intros Hs Hl Hlt. unfold bytewise_separator.
  destruct (common_prefix_ok _ start limit eq_refl) as (p & a & b & -> & -> & -> & Hc). rewrite lex_app in Hlt.
  assert (Hkeep : exists s, Some (p ++ a) = Some s /\ is_bytes s /\ lex (p ++ a) s <> Gt /\ lex s (p ++ b) = Lt).
  { exists (p ++ a). rewrite lex_refl, lex_app. done. }
  destruct (_ <=? _)%nat eqn:El; [done|]. destruct Hc as [Hc|(x & y & a2 & b2 & -> & -> & Hxy)]; [apply Nat.leb_gt in El; lia|].
  rewrite !nth_middle. apply Forall_app in Hs as [Hp Hs]. apply Forall_app in Hl as [_ Hl]. inversion Hs; inversion Hl; subst.
  rewrite !u8_small by lia. destruct (Z.ltb_spec x 0xff); [|done]. destruct (Z.ltb_spec (x + 1) y); [|done]. cbn [andb].
  rewrite take_app_length, u8_small by lia. pose proof (slice_compare_lex (p ++ [x + 1]) (p ++ y :: b2)) as Hcmp.
  rewrite lex_app in Hcmp. cbn in Hcmp. rewrite (proj2 (Z.compare_lt_iff (x + 1) y)) in Hcmp by lia. apply Z.compare_lt_iff in Hcmp.
  rewrite (proj2 (Z.ltb_lt _ _)) by done. eexists. split; [done|]. split; [|split].
  - apply Forall_app. split; [done|]. repeat constructor; lia.
  - rewrite lex_app. cbn. by rewrite (proj2 (Z.compare_lt_iff x (x + 1))) by lia.
  - rewrite lex_app. cbn. by rewrite (proj2 (Z.compare_lt_iff (x + 1) y)) by lia.
Qed.

Lemma successor_loop_ok rest : forall p, is_bytes (p ++ rest) ->
  is_bytes (successor_loop (p ++ rest) (length p) rest) /\ lex (p ++ rest) (successor_loop (p ++ rest) (length p) rest) <> Gt.
Proof.
  induction rest as [|b rest IH]; intros p Hb; cbn [successor_loop]; [by rewrite lex_refl|].
  destruct (Z.eqb_spec b 0xff) as [->|Hb2]; cbn [negb].
  - specialize (IH (p ++ [0xff])). rewrite <- app_assoc, length_app in IH. cbn [app length] in IH. rewrite Nat.add_1_r in IH. auto.
  - rewrite take_app_length. apply Forall_app in Hb as [Hp Hb]. inversion Hb; subst. rewrite u8_small by lia. split.
    + apply Forall_app. split; [done|]. repeat constructor; lia.
    + rewrite lex_app. cbn. by rewrite (proj2 (Z.compare_lt_iff b (b + 1))) by lia.
Qed.

#[export] Program Instance bytewise_laws : ComparatorLaws := {
  valid_key := is_bytes;
  order := lex;
}.
Next Obligation. intros a b _ _. cbn. eexists. split; [done|]. apply slice_compare_lex. Qed.
Next Obligation. apply lex_refl. Qed.
Next Obligation. intros a b. apply lex_flip. Qed.
Next Obligation. intros a b c _ _ _. apply lex_lt_le. Qed.
Next Obligation. intros a b c _ _ _. apply lex_le_lt. Qed.
Next Obligation. intros start limit. apply bytewise_separator_ok. Qed.
Next Obligation.
  intros a b _ _ E. apply lex_eq in E. subst b. cbn. unfold bytewise_separator.
  destruct (common_prefix_ok _ a a eq_refl) as (p & x & y & E1 & E2 & E3 & [Hc|(c1 & c2 & l1 & l2 & -> & -> & Hne)]).
  - by rewrite E3, (proj2 (Nat.leb_le _ _)) by done.
  - rewrite E1 in E2. apply app_inv_head in E2. congruence.
Qed.
Next Obligation. intros key Hk. eexists. split; [done|]. by apply (successor_loop_ok key []). Qed.
