(* ===== verification/LdbFormat.v ===== *)
(** LevelDB's db/dbformat.h and db/dbformat.cc: internal keys, a user key followed by a
    sequence number and a type, and their order. *)
From stdpp Require Import base list numbers option.
From Stdlib Require Import ZArith Lia.
From S2P Require Import Prelude LdbCoding LdbCodingThms LdbComparator.

Inductive ValueType := kTypeDeletion | kTypeValue.
Definition type_val (t : ValueType) : Z := match t with kTypeDeletion => 0 | kTypeValue => 1 end.
Definition kValueTypeForSeek : ValueType := kTypeValue.
Definition kMaxSequenceNumber : Z := Z.shiftl 1 56 - 1.

#[export] Instance value_type_eq_dec : EqDecision ValueType.
Proof. solve_decision. Defined.

Record ParsedInternalKey := mk_parsed {
  user_key : list Z;
  sequence : Z;
  type : ValueType;
}.

(** [None]: a failed assertion. *)
Definition PackSequenceAndType (seq : Z) (t : ValueType) : option Z :=
  if (seq <=? kMaxSequenceNumber) && (type_val t <=? type_val kValueTypeForSeek)
  then Some (Z.lor (u64 (Z.shiftl seq 8)) (type_val t)) else None.

Definition InternalKeyEncodingLength (key : ParsedInternalKey) : Z := Z.of_nat (length (user_key key)) + 8.

Definition AppendInternalKey (result : list Z) (key : ParsedInternalKey) : option (list Z) :=
  match PackSequenceAndType (sequence key) (type key) with
  | Some n => Some (PutFixed64 (result ++ user_key key) n)
  | None => None
  end.

(** The eight bytes at the end of a key of that size at least. *)
Definition key_tag (key : list Z) : option Z := DecodeFixed64 (drop (length key - 8) key).

(** [None]: the key is malformed. *)
Definition ParseInternalKey (internal_key : list Z) : option ParsedInternalKey :=
  let n := length internal_key in
  if (n <? 8)%nat then None
  else
    match key_tag internal_key with
    | Some num =>
        let c := Z.land num 0xff in
        if c <=? type_val kTypeValue
        then Some (mk_parsed (take (n - 8) internal_key) (Z.shiftr num 8) (if c =? 0 then kTypeDeletion else kTypeValue))
        else None
    | None => None
    end.

Definition ExtractUserKey (internal_key : list Z) : option (list Z) :=
  if (8 <=? length internal_key)%nat then Some (take (length internal_key - 8) internal_key) else None.

(** * LookupKey *)

Record LookupKey := mk_lookup { memtable_key : list Z; kstart : nat }.

Definition new_LookupKey (user_key : list Z) (s : Z) : option LookupKey :=
  match PackSequenceAndType s kValueTypeForSeek with
  | Some n =>
      let klength := EncodeVarint32 (u32 (Z.of_nat (length user_key) + 8)) in
      Some (mk_lookup (klength ++ user_key ++ EncodeFixed64 n) (length klength))
  | None => None
  end.

Definition lookup_internal_key (k : LookupKey) : list Z := drop (kstart k) (memtable_key k).
Definition lookup_user_key (k : LookupKey) : list Z := take (length (memtable_key k) - kstart k - 8) (drop (kstart k) (memtable_key k)).

(** * InternalKeyComparator *)

Section internal.
Context (user_comparator : Comparator).

Definition internal_compare (akey bkey : list Z) : option Z :=
  match ExtractUserKey akey, ExtractUserKey bkey with
  | Some a, Some b =>
      match Compare a b with
      | Some r =>
          if r =? 0 then
            match key_tag akey, key_tag bkey with
            | Some anum, Some bnum => Some (if bnum <? anum then -1 else if anum <? bnum then 1 else r)
            | _, _ => None
            end
          else Some r
      | None => None
      end
  | _, _ => None
  end.

(** The end of both operations: the shortened user key with the earliest number. *)
Definition with_seek_tag (tmp : list Z) : option (list Z) :=
  match PackSequenceAndType kMaxSequenceNumber kValueTypeForSeek with
  | Some n => Some (PutFixed64 tmp n)
  | None => None
  end.

(** [assert(this->Compare(a, b) < 0)] *)
Definition assert_less {A} (a b : list Z) (k : option A) : option A :=
  match internal_compare a b with
  | Some c => if c <? 0 then k else None
  | None => None
  end.

Definition internal_separator (start limit : list Z) : option (list Z) :=
  match ExtractUserKey start, ExtractUserKey limit with
  | Some user_start, Some user_limit =>
      match FindShortestSeparator user_start user_limit with
      | Some tmp =>
          match (if (length tmp <? length user_start)%nat then Compare user_start tmp else Some 0) with
          | Some c =>
              if (length tmp <? length user_start)%nat && (c <? 0) then
                match with_seek_tag tmp with
                | Some tmp => assert_less start tmp (assert_less tmp limit (Some tmp))
                | None => None
                end
              else Some start
          | None => None
          end
      | None => None
      end
  | _, _ => None
  end.

Definition internal_successor (key : list Z) : option (list Z) :=
  match ExtractUserKey key with
  | Some user_key =>
      match FindShortSuccessor user_key with
      | Some tmp =>
          match (if (length tmp <? length user_key)%nat then Compare user_key tmp else Some 0) with
          | Some c =>
              if (length tmp <? length user_key)%nat && (c <? 0) then
                match with_seek_tag tmp with
                | Some tmp => assert_less key tmp (Some tmp)
                | None => None
                end
              else Some key
          | None => None
          end
      | None => None
      end
  | None => None
  end.

Definition internal_comparator : Comparator := {|
  Compare := internal_compare;
  FindShortestSeparator := internal_separator;
  FindShortSuccessor := internal_successor;
|}.

End internal.
