(* ===== verification/LdbFormatThms.v ===== *)
(** Internal keys: parsing undoes appending, and the comparator of internal keys keeps the
    promises of a comparator if that of the user keys does. *)
From stdpp Require Import base list numbers option.
From Stdlib Require Import ZArith Lia.
From S2P Require Import Prelude LdbCoding LdbCodingThms LdbComparator LdbFormat.

Definition tag_of (seq : Z) (t : ValueType) : Z := seq * 256 + type_val t.

(** An internal key as the code makes them. *)
Definition internal_key (u : list Z) (tag : Z) : list Z := u ++ le_bytes 8 tag.

Lemma type_range t : 0 <= type_val t <= 1.
Proof. by destruct t. Qed.

Lemma pack_ok seq t : 0 <= seq <= kMaxSequenceNumber -> PackSequenceAndType seq t = Some (tag_of seq t).
Proof.
  intros Hs. pose proof (type_range t). unfold PackSequenceAndType. rewrite (proj2 (Z.leb_le _ _)) by lia.
  rewrite (proj2 (Z.leb_le (type_val t) _)) by (cbn; lia). cbn [andb]. f_equal. change kMaxSequenceNumber with (2 ^ 56 - 1) in Hs.
  rewrite Z.shiftl_mul_pow2 by lia. change (2 ^ 8) with 256. rewrite u64_small by lia. rewrite Z.lor_comm. change 256 with (2 ^ 8).
  rewrite lor_add_shifted by lia. unfold tag_of. lia.
Qed.

Lemma tag_range seq t : 0 <= seq <= kMaxSequenceNumber -> 0 <= tag_of seq t < 2 ^ 64.
Proof. intros Hs. pose proof (type_range t). change kMaxSequenceNumber with (2 ^ 56 - 1) in Hs. unfold tag_of. lia. Qed.

Lemma internal_key_length u tag : length (internal_key u tag) = (length u + 8)%nat.
Proof. unfold internal_key. by rewrite length_app, le_bytes_length. Qed.

Lemma internal_key_user u tag : take (length (internal_key u tag) - 8) (internal_key u tag) = u.
Proof. rewrite internal_key_length. replace (length u + 8 - 8)%nat with (length u) by lia. by apply take_app_length. Qed.

Lemma internal_key_tag u tag : 0 <= tag < 2 ^ 64 -> key_tag (internal_key u tag) = Some tag.
Proof.
  intros Ht. unfold key_tag. rewrite internal_key_length. replace (length u + 8 - 8)%nat with (length u) by lia.
  unfold internal_key. rewrite drop_app_length. rewrite <- fixed64_bytes. rewrite <- (app_nil_r (EncodeFixed64 tag)). by apply decode_encode_fixed64.
Qed.

Lemma extract_ok u tag : ExtractUserKey (internal_key u tag) = Some u.
Proof.
  unfold ExtractUserKey. rewrite (proj2 (Nat.leb_le _ _)) by (rewrite internal_key_length; lia). by rewrite internal_key_user.
Qed.

Lemma append_internal_ok key : 0 <= sequence key <= kMaxSequenceNumber ->
  AppendInternalKey [] key = Some (internal_key (user_key key) (tag_of (sequence key) (type key))).
Proof. intros Hs. unfold AppendInternalKey. by rewrite pack_ok. Qed.

(** An internal key parses to the user key, the sequence number and the type that it was
    made of, and [ExtractUserKey] finds the user key. *)
Theorem internal_key_roundtrip key k :
  0 <= sequence key <= kMaxSequenceNumber -> AppendInternalKey [] key = Some k ->
  ParseInternalKey k = Some key /\ ExtractUserKey k = Some (user_key key) /\ Z.of_nat (length k) = InternalKeyEncodingLength key.
Proof.
  intros Hs. rewrite append_internal_ok by done. intros [= <-]. rewrite extract_ok. split; [|split; [done|]].
  - unfold ParseInternalKey. rewrite (proj2 (Nat.ltb_ge _ _)) by (rewrite internal_key_length; lia).
    rewrite internal_key_tag by (by apply tag_range). pose proof (type_range (type key)).
    unfold tag_of. rewrite land_0xFF, Z.add_comm, Z.mod_add, (Z.mod_small (type_val _)), shiftr_div by lia. change (2 ^ 8) with 256.
    rewrite Z.div_add, (Z.div_small (type_val _)) by lia. rewrite (proj2 (Z.leb_le _ _)) by (cbn; lia).
    rewrite Z.add_0_l, Z.add_comm, internal_key_user. by destruct key as [? ? []].
  - rewrite internal_key_length. unfold InternalKeyEncodingLength. lia.
Qed.

Lemma internal_key_roundtrip_witness :
  ParseInternalKey [97; 98; 1; 5; 0; 0; 0; 0; 0; 0] = Some (mk_parsed [97; 98] 5 kTypeValue) /\
  ExtractUserKey [97; 98; 1; 5; 0; 0; 0; 0; 0; 0] = Some [97; 98] /\ 10 = InternalKeyEncodingLength (mk_parsed [97; 98] 5 kTypeValue).
Proof. apply (internal_key_roundtrip (mk_parsed [97; 98] 5 kTypeValue) [97; 98; 1; 5; 0; 0; 0; 0; 0; 0]); [by vm_compute|reflexivity]. Defined.

(** * The order *)

Definition user_part (k : list Z) : list Z := take (length k - 8) k.
Definition tag_part (k : list Z) : Z := match key_tag k with Some n => n | None => 0 end.

Section internal.
Context {user : Comparator} {laws : ComparatorLaws}.

Definition internal_valid (k : list Z) : Prop := exists u tag, valid_key u /\ 0 <= tag < 2 ^ 64 /\ k = internal_key u tag.

(** By user key, and then the highest number first. *)
Definition internal_order (a b : list Z) : comparison :=
  match order (user_part a) (user_part b) with
  | Eq => tag_part b ?= tag_part a
  | c => c
  end.

Lemma parts u tag : 0 <= tag < 2 ^ 64 -> user_part (internal_key u tag) = u /\ tag_part (internal_key u tag) = tag.
Proof. intros Ht. split; [apply internal_key_user|]. unfold tag_part. by rewrite internal_key_tag. Qed.

Lemma internal_compare_ok a b : internal_valid a -> internal_valid b ->
  exists c, internal_compare user a b = Some c /\ (c ?= 0) = internal_order a b.
Proof.
  intros (u & s & Hu & Hs & ->) (v & t & Hv & Ht & ->). unfold internal_compare, internal_order. rewrite !extract_ok.
  destruct (parts u s Hs) as [-> ->], (parts v t Ht) as [-> ->]. destruct (compare_ok u v Hu Hv) as (c & -> & Hc).
  rewrite <- Hc. rewrite !internal_key_tag by done. destruct (Z.eqb_spec c 0) as [->|Hn].
  - eexists. split; [done|]. destruct (Z.ltb_spec t s); [by rewrite (proj2 (Z.compare_lt_iff t s))|].
    destruct (Z.ltb_spec s t); [by rewrite (proj2 (Z.compare_gt_iff t s))|]. by rewrite (proj2 (Z.compare_eq_iff t s)) by lia.
  - exists c. split; [done|]. destruct (Z.compare_spec c 0); lia || done.
Qed.

Lemma order_eq_chain a b c : valid_key a -> valid_key b -> valid_key c -> order a b = Eq -> order b c = Eq -> order a c = Eq.
Proof.
  intros Ha Hb Hc H1 H2. destruct (order a c) eqn:E; [done| |].
  - enough (order a b = Lt) by congruence. apply (order_lt_le a c b); [done..|]. rewrite order_flip, H2. done.
  - assert (order c a = Lt) by (rewrite order_flip, E; done).
    enough (order c b = Lt) by (rewrite (order_flip b c), H2 in *; done). apply (order_lt_le c a b); [done..|]. by rewrite H1.
Qed.

Lemma internal_le_lt a b c : internal_valid a -> internal_valid b -> internal_valid c ->
  internal_order a b <> Gt -> internal_order b c = Lt -> internal_order a c = Lt.
Proof.
  intros (u & s & Hu & Hs & ->) (v & t & Hv & Ht & ->) (w & r & Hw & Hr & ->). unfold internal_order.
  destruct (parts u s Hs) as [-> ->], (parts v t Ht) as [-> ->], (parts w r Hr) as [-> ->].
  destruct (order u v) eqn:E1; [| |done].
  - intros Hst. destruct (order v w) eqn:E2; [| |done].
    + rewrite (order_eq_chain u v w) by done. rewrite !Z.compare_lt_iff. rewrite Z.compare_le_iff in Hst. lia.
    + intros _. rewrite (order_le_lt u v w); [done..|by rewrite E1|done].
  - intros _ H2. rewrite (order_lt_le u v w); [done..|]. by destruct (order v w).
Qed.

Lemma internal_lt_le a b c : internal_valid a -> internal_valid b -> internal_valid c ->
  internal_order a b = Lt -> internal_order b c <> Gt -> internal_order a c = Lt.
Proof.
  intros (u & s & Hu & Hs & ->) (v & t & Hv & Ht & ->) (w & r & Hw & Hr & ->). unfold internal_order.
  destruct (parts u s Hs) as [-> ->], (parts v t Ht) as [-> ->], (parts w r Hr) as [-> ->].
  destruct (order u v) eqn:E1; [| |done].
  - intros Hst. destruct (order v w) eqn:E2; [| |done].
    + rewrite (order_eq_chain u v w) by done. rewrite Z.compare_lt_iff in Hst. rewrite Z.compare_lt_iff, Z.compare_le_iff. lia.
    + intros _. rewrite (order_le_lt u v w); [done..|by rewrite E1|done].
  - intros _ H2. rewrite (order_lt_le u v w); [done..|]. by destruct (order v w).
Qed.

Lemma seek_tag_ok tmp : with_seek_tag tmp = Some (internal_key tmp (tag_of kMaxSequenceNumber kValueTypeForSeek)).
Proof. unfold with_seek_tag. by rewrite pack_ok by (vm_compute; intuition discriminate). Qed.

Lemma seek_tag_valid tmp : valid_key tmp -> internal_valid (internal_key tmp (tag_of kMaxSequenceNumber kValueTypeForSeek)).
Proof. intros Hv. exists tmp, (tag_of kMaxSequenceNumber kValueTypeForSeek). split; [done|]. split; [by vm_compute|done]. Qed.

Lemma assert_less_ok {A} a b (k : option A) : internal_valid a -> internal_valid b -> internal_order a b = Lt -> assert_less user a b k = k.
Proof.
  intros Ha Hb Hlt. unfold assert_less. destruct (internal_compare_ok a b Ha Hb) as (c & -> & Hc). rewrite Hlt in Hc.
  apply Z.compare_lt_iff in Hc. by rewrite (proj2 (Z.ltb_lt _ _)).
Qed.

Lemma internal_order_user u v s t : 0 <= s < 2 ^ 64 -> 0 <= t < 2 ^ 64 -> order u v = Lt -> internal_order (internal_key u s) (internal_key v t) = Lt.
Proof. intros Hs Ht H. unfold internal_order. destruct (parts u s Hs) as [-> ->], (parts v t Ht) as [-> ->]. by rewrite H. Qed.

Lemma internal_separator_ok start limit : internal_valid start -> internal_valid limit -> internal_order start limit = Lt ->
  exists s, internal_separator user start limit = Some s /\ internal_valid s /\ internal_order start s <> Gt /\ internal_order s limit = Lt.
Proof.
  intros Hstart Hlimit Hlt. assert (Hkeep : internal_order start start <> Gt) by (unfold internal_order; rewrite order_refl, Z.compare_refl; done).
  pose proof Hstart as (u & s & Hu & Hs & Es). pose proof Hlimit as (v & t & Hv & Ht & Et). unfold internal_separator. rewrite Es, Et, !extract_ok, <- Es, <- Et.
  assert (Hsame : exists s0, Some start = Some s0 /\ internal_valid s0 /\ internal_order start s0 <> Gt /\ internal_order s0 limit = Lt) by (by exists start).
  destruct (order u v) eqn:E; [| |].
  - rewrite separator_keep by done. rewrite Nat.ltb_irrefl. done.
  - destruct (separator_ok u v Hu Hv E) as (tmp & -> & Htmp & Hle & Hlt2). destruct (length tmp <? length u)%nat; [|done].
    destruct (compare_ok u tmp Hu Htmp) as (c & -> & Hc). destruct (Z.ltb_spec c 0) as [Hneg|]; [|done]. cbn [andb].
    rewrite (proj2 (Z.compare_lt_iff c 0)) in Hc by done. rewrite seek_tag_ok. pose proof (seek_tag_valid tmp Htmp) as Hv2.
    assert (H1 : internal_order start (internal_key tmp (tag_of kMaxSequenceNumber kValueTypeForSeek)) = Lt)
      by (rewrite Es; by apply internal_order_user).
    assert (H2 : internal_order (internal_key tmp (tag_of kMaxSequenceNumber kValueTypeForSeek)) limit = Lt)
      by (rewrite Et; by apply internal_order_user).
    rewrite !assert_less_ok by done. eexists. split; [done|]. split; [done|]. by rewrite H1.
  - exfalso. unfold internal_order in Hlt. rewrite Es, Et in Hlt. destruct (parts u s Hs) as [E1 _], (parts v t Ht) as [E2 _]. by rewrite E1, E2, E in Hlt.
Qed.

Lemma internal_separator_keep start limit : internal_valid start -> internal_valid limit -> internal_order start limit = Eq ->
  internal_separator user start limit = Some start.
Proof.
  intros (u & s & Hu & Hs & ->) (v & t & Hv & Ht & ->) E. unfold internal_order in E.
  destruct (parts u s Hs) as [E1 _], (parts v t Ht) as [E2 _]. rewrite E1, E2 in E.
  unfold internal_separator. rewrite !extract_ok. destruct (order u v) eqn:Eo; [|done..].
  rewrite separator_keep by done. by rewrite Nat.ltb_irrefl.
Qed.

Lemma internal_successor_ok key : internal_valid key -> exists s, internal_successor user key = Some s /\ internal_valid s /\ internal_order key s <> Gt.
Proof.
  intros Hkey. assert (Hkeep : internal_order key key <> Gt) by (unfold internal_order; rewrite order_refl, Z.compare_refl; done).
  pose proof Hkey as (u & s & Hu & Hs & Es). unfold internal_successor. rewrite Es, extract_ok, <- Es.
  destruct (successor_ok u Hu) as (tmp & -> & Htmp & Hle). destruct (length tmp <? length u)%nat; [|by exists key].
  destruct (compare_ok u tmp Hu Htmp) as (c & -> & Hc). destruct (Z.ltb_spec c 0) as [Hneg|]; [|by exists key]. cbn [andb].
  rewrite (proj2 (Z.compare_lt_iff c 0)) in Hc by done. rewrite seek_tag_ok. pose proof (seek_tag_valid tmp Htmp) as Hv2.
  assert (H1 : internal_order key (internal_key tmp (tag_of kMaxSequenceNumber kValueTypeForSeek)) = Lt)
    by (rewrite Es; by apply internal_order_user).
  rewrite assert_less_ok by done. eexists. split; [done|]. split; [done|]. by rewrite H1.
Qed.

Lemma internal_order_flip a b : internal_order b a = CompOpp (internal_order a b).
Proof.
  unfold internal_order. rewrite (order_flip (user_part a)). destruct (order (user_part a) (user_part b)); cbn; try done.
  by rewrite Z.compare_antisym.
Qed.

(** The internal comparator, for the clients of the interface. *)
Lemma internal_order_refl a : internal_order a a = Eq.
Proof. unfold internal_order. by rewrite order_refl, Z.compare_refl. Qed.

#[export] Instance internal_laws : @ComparatorLaws (internal_comparator user) :=
  @Build_ComparatorLaws (internal_comparator user) internal_valid internal_order internal_compare_ok internal_order_refl
    internal_order_flip internal_lt_le internal_le_lt internal_separator_ok internal_separator_keep internal_successor_ok.

(** ** Lookups *)

Lemma lookup_key_ok u s : 0 <= s <= kMaxSequenceNumber ->
  exists k, new_LookupKey u s = Some k /\ lookup_internal_key k = internal_key u (tag_of s kValueTypeForSeek) /\ lookup_user_key k = u.
Proof.
  intros Hs. unfold new_LookupKey. rewrite pack_ok by done. eexists. split; [done|].
  unfold lookup_internal_key, lookup_user_key. cbn [kstart memtable_key]. rewrite drop_app_length. rewrite fixed64_bytes. split; [done|].
  rewrite !length_app, le_bytes_length. replace (_ - _ - 8)%nat with (length u) by lia. apply take_app_length.
Qed.

End internal.

(** The key that [DBImpl::Get] looks up for a user key at a snapshot divides the versions
    of that key: those written after the snapshot come before it, the others (newest first)
    at or behind it; keys of other users keys are ordered by the user's comparator.  The
    first entry that is not less is thus the newest version that the snapshot sees. *)
Theorem lookup_key_splits `{ComparatorLaws} u s v seq t lk k :
  0 <= s <= kMaxSequenceNumber -> 0 <= seq <= kMaxSequenceNumber -> valid_key u -> valid_key v ->
  new_LookupKey u s = Some lk -> AppendInternalKey [] (mk_parsed v seq t) = Some k ->
  exists c, internal_compare _ k (lookup_internal_key lk) = Some c /\
    match order v u with
    | Lt => c < 0
    | Gt => 0 < c
    | Eq => c < 0 <-> s < seq
    end.
Proof.
  intros Hs Hq Hu Hv El Ek. destruct (lookup_key_ok u s Hs) as (lk' & El' & Ei & _). rewrite El in El'. injection El' as <-. rewrite Ei.
  rewrite append_internal_ok in Ek by done. injection Ek as <-. cbn [user_key sequence type].
  destruct (internal_compare_ok (internal_key v (tag_of seq t)) (internal_key u (tag_of s kValueTypeForSeek))) as (c & E & Hc).
  { exists v, (tag_of seq t). auto using tag_range. } { exists u, (tag_of s kValueTypeForSeek). auto using tag_range. }
  exists c. split; [done|]. unfold internal_order in Hc.
  destruct (parts v (tag_of seq t) (tag_range _ _ Hq)) as [E1 E2], (parts u (tag_of s kValueTypeForSeek) (tag_range _ _ Hs)) as [E3 E4].
  rewrite E1, E2, E3, E4 in Hc. destruct (order v u).
  - rewrite <- Z.compare_lt_iff, Hc, Z.compare_lt_iff. unfold tag_of. cbn. pose proof (type_range t). lia.
  - by apply Z.compare_lt_iff.
  - by apply Z.compare_gt_iff.
Qed.

Lemma lookup_key_splits_witness :
  exists c, internal_compare bytewise [97; 1; 5; 0; 0; 0; 0; 0; 0] (lookup_internal_key (mk_lookup [9; 97; 1; 4; 0; 0; 0; 0; 0; 0] 1)) = Some c /\
    match lex [97] [97] with Lt => c < 0 | Gt => 0 < c | Eq => c < 0 <-> 4 < 5 end.
Proof.
  apply (@lookup_key_splits bytewise bytewise_laws [97] 4 [97] 5 kTypeValue (mk_lookup [9; 97; 1; 4; 0; 0; 0; 0; 0; 0] 1) [97; 1; 5; 0; 0; 0; 0; 0; 0]);
    [by vm_compute|by vm_compute|repeat constructor; lia|repeat constructor; lia|reflexivity|reflexivity].
Defined.
