(* ===== verification/LdbVersionEdit.v ===== *)
(** LevelDB's db/version_edit.h and db/version_edit.cc: the changes from one version of the
    database to the next, and their records in the manifest.

    A [std::set] of pairs is the list of its elements in order.  The reference counts of
    files are not modelled. *)
From stdpp Require Import base list strings numbers option.
From Stdlib Require Import ZArith Lia.
From S2P Require Import Prelude LdbCoding LdbEnv LdbFormat.

Definition kNumLevels : Z := 7.

(** [InternalKey::Encode]: an empty key fails an assertion. *)
Definition InternalKey_Encode (rep : list Z) : option (list Z) := match rep with [] => None | _ => Some rep end.

Record FileMetaData := mk_meta {
  allowed_seeks : Z;
  number : Z;
  file_size : Z;
  smallest : list Z;
  largest : list Z;
}.

#[export] Instance meta_eq_dec : EqDecision FileMetaData.
Proof. solve_decision. Defined.

Record VersionEdit := mk_edit {
  comparator_ : list Z;
  log_number_ : Z;
  prev_log_number_ : Z;
  next_file_number_ : Z;
  last_sequence_ : Z;
  has_comparator_ : bool;
  has_log_number_ : bool;
  has_prev_log_number_ : bool;
  has_next_file_number_ : bool;
  has_last_sequence_ : bool;
  compact_pointers_ : list (Z * list Z);
  deleted_files_ : list (Z * Z);
  new_files_ : list (Z * FileMetaData);
}.

(** [compact_pointers_] stays as it is. *)
Definition Clear (e : VersionEdit) : VersionEdit :=
  mk_edit [] 0 0 0 0 false false false false false (compact_pointers_ e) [] [].

Definition new_VersionEdit : VersionEdit := Clear (mk_edit [] 0 0 0 0 false false false false false [] [] []).

Definition SetComparatorName (name : list Z) e := mk_edit name (log_number_ e) (prev_log_number_ e) (next_file_number_ e) (last_sequence_ e) true (has_log_number_ e) (has_prev_log_number_ e) (has_next_file_number_ e) (has_last_sequence_ e) (compact_pointers_ e) (deleted_files_ e) (new_files_ e).
Definition SetLogNumber (num : Z) e := mk_edit (comparator_ e) num (prev_log_number_ e) (next_file_number_ e) (last_sequence_ e) (has_comparator_ e) true (has_prev_log_number_ e) (has_next_file_number_ e) (has_last_sequence_ e) (compact_pointers_ e) (deleted_files_ e) (new_files_ e).
Definition SetPrevLogNumber (num : Z) e := mk_edit (comparator_ e) (log_number_ e) num (next_file_number_ e) (last_sequence_ e) (has_comparator_ e) (has_log_number_ e) true (has_next_file_number_ e) (has_last_sequence_ e) (compact_pointers_ e) (deleted_files_ e) (new_files_ e).
Definition SetNextFile (num : Z) e := mk_edit (comparator_ e) (log_number_ e) (prev_log_number_ e) num (last_sequence_ e) (has_comparator_ e) (has_log_number_ e) (has_prev_log_number_ e) true (has_last_sequence_ e) (compact_pointers_ e) (deleted_files_ e) (new_files_ e).
Definition SetLastSequence (seq : Z) e := mk_edit (comparator_ e) (log_number_ e) (prev_log_number_ e) (next_file_number_ e) seq (has_comparator_ e) (has_log_number_ e) (has_prev_log_number_ e) (has_next_file_number_ e) true (compact_pointers_ e) (deleted_files_ e) (new_files_ e).
Definition SetCompactPointer (level : Z) (key : list Z) e := mk_edit (comparator_ e) (log_number_ e) (prev_log_number_ e) (next_file_number_ e) (last_sequence_ e) (has_comparator_ e) (has_log_number_ e) (has_prev_log_number_ e) (has_next_file_number_ e) (has_last_sequence_ e) (compact_pointers_ e ++ [(level, key)]) (deleted_files_ e) (new_files_ e).
Definition set_deleted (l : list (Z * Z)) e := mk_edit (comparator_ e) (log_number_ e) (prev_log_number_ e) (next_file_number_ e) (last_sequence_ e) (has_comparator_ e) (has_log_number_ e) (has_prev_log_number_ e) (has_next_file_number_ e) (has_last_sequence_ e) (compact_pointers_ e) l (new_files_ e).
Definition push_new_file (level : Z) (f : FileMetaData) e := mk_edit (comparator_ e) (log_number_ e) (prev_log_number_ e) (next_file_number_ e) (last_sequence_ e) (has_comparator_ e) (has_log_number_ e) (has_prev_log_number_ e) (has_next_file_number_ e) (has_last_sequence_ e) (compact_pointers_ e) (deleted_files_ e) (new_files_ e ++ [(level, f)]).

(** [FileMetaData()] and its assignments. *)
Definition new_FileMetaData (number file_size : Z) (smallest largest : list Z) : FileMetaData :=
  mk_meta (Z.shiftl 1 30) number file_size smallest largest.

Definition AddFile (level file file_size : Z) (smallest largest : list Z) (e : VersionEdit) : VersionEdit :=
  push_new_file level (new_FileMetaData file file_size smallest largest) e.

(** [std::set::insert] *)
Definition pair_ltb (x y : Z * Z) : bool := (x.1 <? y.1) || ((x.1 =? y.1) && (x.2 <? y.2)).

Fixpoint set_insert (x : Z * Z) (l : list (Z * Z)) : list (Z * Z) :=
  match l with
  | [] => [x]
  | y :: l => if pair_ltb x y then x :: y :: l else if pair_ltb y x then y :: set_insert x l else y :: l
  end.

Definition DeleteFile (level file : Z) (e : VersionEdit) : VersionEdit := set_deleted (set_insert (level, file) (deleted_files_ e)) e.

(** * Encoding *)

Definition kComparator : Z := 1.
Definition kLogNumber : Z := 2.
Definition kNextFileNumber : Z := 3.
Definition kLastSequence : Z := 4.
Definition kCompactPointer : Z := 5.
Definition kDeletedFile : Z := 6.
Definition kNewFile : Z := 7.
Definition kPrevLogNumber : Z := 9.

Definition put_number (has : bool) (tag v : Z) (dst : list Z) : list Z :=
  if has then PutVarint64 (PutVarint32 dst tag) v else dst.

Fixpoint put_pointers (l : list (Z * list Z)) (dst : list Z) : option (list Z) :=
  match l with
  | [] => Some dst
  | (level, key) :: l =>
      k ← InternalKey_Encode key;
      put_pointers l (PutLengthPrefixedSlice (PutVarint32 (PutVarint32 dst kCompactPointer) (u32 level)) k)
  end.

Fixpoint put_deleted (l : list (Z * Z)) (dst : list Z) : list Z :=
  match l with
  | [] => dst
  | (level, file) :: l => put_deleted l (PutVarint64 (PutVarint32 (PutVarint32 dst kDeletedFile) (u32 level)) file)
  end.

Fixpoint put_new (l : list (Z * FileMetaData)) (dst : list Z) : option (list Z) :=
  match l with
  | [] => Some dst
  | (level, f) :: l =>
      s ← InternalKey_Encode (smallest f);
      g ← InternalKey_Encode (largest f);
      let dst := PutVarint64 (PutVarint64 (PutVarint32 (PutVarint32 dst kNewFile) (u32 level)) (number f)) (file_size f) in
      put_new l (PutLengthPrefixedSlice (PutLengthPrefixedSlice dst s) g)
  end.

(** [None]: a failed assertion. *)
Definition EncodeTo (e : VersionEdit) (dst : list Z) : option (list Z) :=
  let dst := if has_comparator_ e then PutLengthPrefixedSlice (PutVarint32 dst kComparator) (comparator_ e) else dst in
  let dst := put_number (has_log_number_ e) kLogNumber (log_number_ e) dst in
  let dst := put_number (has_prev_log_number_ e) kPrevLogNumber (prev_log_number_ e) dst in
  let dst := put_number (has_next_file_number_ e) kNextFileNumber (next_file_number_ e) dst in
  let dst := put_number (has_last_sequence_ e) kLastSequence (last_sequence_ e) dst in
  dst ← put_pointers (compact_pointers_ e) dst;
  put_new (new_files_ e) (put_deleted (deleted_files_ e) dst).

(** * Decoding *)

Definition GetInternalKey (input : list Z) : option (list Z * list Z) := GetLengthPrefixedSlice input.

Definition GetLevel (input : list Z) : option (Z * list Z) :=
  match GetVarint32 input with
  | Some (v, input) => if v <? kNumLevels then Some (v, input) else None
  | None => None
  end.

(** The cases of the switch: the edit and the rest of the input, or what is wrong. *)
Definition decode_field (tag : Z) (e : VersionEdit) (input : list Z) : (VersionEdit * list Z) + string :=
  if tag =? kComparator then
    match GetLengthPrefixedSlice input with Some (str, input) => inl (SetComparatorName str e, input) | None => inr "comparator name"%string end
  else if tag =? kLogNumber then
    match GetVarint64 input with Some (n, input) => inl (SetLogNumber n e, input) | None => inr "log number"%string end
  else if tag =? kPrevLogNumber then
    match GetVarint64 input with Some (n, input) => inl (SetPrevLogNumber n e, input) | None => inr "previous log number"%string end
  else if tag =? kNextFileNumber then
    match GetVarint64 input with Some (n, input) => inl (SetNextFile n e, input) | None => inr "next file number"%string end
  else if tag =? kLastSequence then
    match GetVarint64 input with Some (n, input) => inl (SetLastSequence n e, input) | None => inr "last sequence number"%string end
  else if tag =? kCompactPointer then
    match
      '(level, input) ← GetLevel input; '(key, input) ← GetInternalKey input;
      Some (SetCompactPointer level key e, input)
    with Some r => inl r | None => inr "compaction pointer"%string end
  else if tag =? kDeletedFile then
    match
      '(level, input) ← GetLevel input; '(number, input) ← GetVarint64 input;
      Some (DeleteFile level number e, input)
    with Some r => inl r | None => inr "deleted file"%string end
  else if tag =? kNewFile then
    match
      '(level, input) ← GetLevel input; '(number, input) ← GetVarint64 input; '(file_size, input) ← GetVarint64 input;
      '(smallest, input) ← GetInternalKey input; '(largest, input) ← GetInternalKey input;
      Some (push_new_file level (new_FileMetaData number file_size smallest largest) e, input)
    with Some r => inl r | None => inr "new-file entry"%string end
  else inr "unknown tag"%string.

(** The loop; [None]: out of fuel. *)
Fixpoint decode_loop (fuel : nat) (e : VersionEdit) (input : list Z) : option (VersionEdit * list Z * option string) :=
  match fuel with
  | O => None
  | S fuel =>
      match GetVarint32 input with
      | None => Some (e, input, None)
      | Some (tag, input) =>
          match decode_field tag e input with
          | inl (e, input) => decode_loop fuel e input
          | inr msg => Some (e, input, Some msg)
          end
      end
  end.

(** Each round takes a byte at least. *)
Definition DecodeFrom (src : list Z) (e : VersionEdit) : option (Status * VersionEdit) :=
  match decode_loop (S (length src)) (Clear e) src with
  | Some (e, input, msg) =>
      let msg := match msg, input with None, _ :: _ => Some "invalid tag"%string | _, _ => msg end in
      Some (match msg with Some msg => make_status kCorruption "VersionEdit" msg | None => OK end, e)
  | None => None
  end.
