(* ===== verification/LdbVersionEditThms.v ===== *)
(** The records of the manifest: what an edit is written as is read back, and any bytes are
    read to an end. *)
From stdpp Require Import base list strings numbers option sorting.
From Stdlib Require Import ZArith Lia.
From S2P Require Import Prelude LdbCoding LdbCodingThms LdbEnv LdbFormat LdbVersionEdit.

(** * An edit as a list of fields *)

Inductive field :=
  | FComparator (name : list Z)
  | FLogNumber (n : Z)
  | FPrevLogNumber (n : Z)
  | FNextFile (n : Z)
  | FLastSequence (n : Z)
  | FCompactPointer (level : Z) (key : list Z)
  | FDeletedFile (level n : Z)
  | FNewFile (level : Z) (f : FileMetaData).

Definition u64_ok (n : Z) : Prop := 0 <= n < 2 ^ 64.
Definition level_ok (level : Z) : Prop := 0 <= level < kNumLevels.
Definition key_present (s : list Z) : Prop := slice_ok s /\ s <> [].

Definition file_ok (f : FileMetaData) : Prop :=
  allowed_seeks f = Z.shiftl 1 30 /\ u64_ok (number f) /\ u64_ok (file_size f) /\ key_present (smallest f) /\ key_present (largest f).

Definition field_ok (x : field) : Prop :=
  match x with
  | FComparator name => slice_ok name
  | FLogNumber n | FPrevLogNumber n | FNextFile n | FLastSequence n => u64_ok n
  | FCompactPointer level key => level_ok level /\ key_present key
  | FDeletedFile level n => level_ok level /\ u64_ok n
  | FNewFile level f => level_ok level /\ file_ok f
  end.

Definition field_tag (x : field) : Z :=
  match x with
  | FComparator _ => kComparator
  | FLogNumber _ => kLogNumber
  | FPrevLogNumber _ => kPrevLogNumber
  | FNextFile _ => kNextFileNumber
  | FLastSequence _ => kLastSequence
  | FCompactPointer _ _ => kCompactPointer
  | FDeletedFile _ _ => kDeletedFile
  | FNewFile _ _ => kNewFile
  end.

Definition slice_bytes (s : list Z) : list Z := PutLengthPrefixedSlice [] s.

Definition field_body (x : field) : list Z :=
  match x with
  | FComparator name => slice_bytes name
  | FLogNumber n | FPrevLogNumber n | FNextFile n | FLastSequence n => EncodeVarint64 n
  | FCompactPointer level key => EncodeVarint32 level ++ slice_bytes key
  | FDeletedFile level n => EncodeVarint32 level ++ EncodeVarint64 n
  | FNewFile level f => EncodeVarint32 level ++ EncodeVarint64 (number f) ++ EncodeVarint64 (file_size f) ++ slice_bytes (smallest f) ++ slice_bytes (largest f)
  end.

Definition field_bytes (x : field) : list Z := EncodeVarint32 (field_tag x) ++ field_body x.

Definition apply_field (e : VersionEdit) (x : field) : VersionEdit :=
  match x with
  | FComparator name => SetComparatorName name e
  | FLogNumber n => SetLogNumber n e
  | FPrevLogNumber n => SetPrevLogNumber n e
  | FNextFile n => SetNextFile n e
  | FLastSequence n => SetLastSequence n e
  | FCompactPointer level key => SetCompactPointer level key e
  | FDeletedFile level n => DeleteFile level n e
  | FNewFile level f => push_new_file level f e
  end.

Definition when (b : bool) (x : field) : list field := if b then [x] else [].

Definition fields_of (e : VersionEdit) : list field :=
  when (has_comparator_ e) (FComparator (comparator_ e)) ++ when (has_log_number_ e) (FLogNumber (log_number_ e)) ++
  when (has_prev_log_number_ e) (FPrevLogNumber (prev_log_number_ e)) ++ when (has_next_file_number_ e) (FNextFile (next_file_number_ e)) ++
  when (has_last_sequence_ e) (FLastSequence (last_sequence_ e)) ++
  ((fun x => FCompactPointer x.1 x.2) <$> compact_pointers_ e) ++ ((fun x => FDeletedFile x.1 x.2) <$> deleted_files_ e) ++ ((fun x => FNewFile x.1 x.2) <$> new_files_ e).

Definition fields_bytes (l : list field) : list Z := mjoin (field_bytes <$> l).

(** ** Encoding *)

Lemma put_pointers_ok l : forall dst, Forall (fun x => field_ok (FCompactPointer x.1 x.2)) l ->
  put_pointers l dst = Some (dst ++ fields_bytes ((fun x => FCompactPointer x.1 x.2) <$> l)).
Proof.
  induction l as [|[level key] l IH]; intros dst Hl; cbn [put_pointers fmap list_fmap]; [by rewrite app_nil_r|].
  apply Forall_cons_1 in Hl as [([Hl0 Hl1] & _ & Hne) Hl]. cbn [fst snd] in *. destruct key as [|b key]; [done|]. cbn [InternalKey_Encode option_bind mbind]. rewrite IH by done. f_equal.
  unfold fields_bytes. cbn [fmap list_fmap mjoin list_join]. rewrite app_assoc. f_equal. unfold field_bytes, slice_bytes. cbn [field_tag field_body].
  change kNumLevels with 7 in Hl1. rewrite u32_small by lia. rewrite put_slice_app. unfold PutVarint32. by rewrite !app_assoc.
Qed.

Lemma put_deleted_ok l : forall dst, Forall (fun x => field_ok (FDeletedFile x.1 x.2)) l ->
  put_deleted l dst = dst ++ fields_bytes ((fun x => FDeletedFile x.1 x.2) <$> l).
Proof.
  induction l as [|[level n] l IH]; intros dst Hl; cbn [put_deleted fmap list_fmap]; [by rewrite app_nil_r|].
  apply Forall_cons_1 in Hl as [([Hl0 Hl1] & _) Hl]. cbn [fst snd] in *. rewrite IH by done.
  unfold fields_bytes. cbn [fmap list_fmap mjoin list_join]. rewrite app_assoc. f_equal. unfold field_bytes. cbn [field_tag field_body].
  change kNumLevels with 7 in Hl1. rewrite u32_small by lia. unfold PutVarint32, PutVarint64. by rewrite !app_assoc.
Qed.

Lemma put_new_ok l : forall dst, Forall (fun x => field_ok (FNewFile x.1 x.2)) l ->
  put_new l dst = Some (dst ++ fields_bytes ((fun x => FNewFile x.1 x.2) <$> l)).
Proof.
  induction l as [|[level f] l IH]; intros dst Hl; cbn [put_new fmap list_fmap]; [by rewrite app_nil_r|].
  apply Forall_cons_1 in Hl as [([Hl0 Hl1] & _ & _ & _ & [_ Hs] & [_ Hg]) Hl]. cbn [fst snd] in *.
  replace (InternalKey_Encode (smallest f)) with (Some (smallest f)) by (by destruct (smallest f)). replace (InternalKey_Encode (largest f)) with (Some (largest f)) by (by destruct (largest f)).
  cbn [option_bind mbind]. rewrite IH by done. f_equal.
  unfold fields_bytes. cbn [fmap list_fmap mjoin list_join]. rewrite app_assoc. f_equal. unfold field_bytes, slice_bytes. cbn [field_tag field_body].
  change kNumLevels with 7 in Hl1. rewrite u32_small by lia. rewrite put_slice_app. rewrite (put_slice_app _ (smallest f)). unfold PutVarint32, PutVarint64. by rewrite !app_assoc.
Qed.

Lemma put_number_ok has tag v dst x : field_tag x = tag -> field_body x = EncodeVarint64 v -> put_number has tag v dst = dst ++ fields_bytes (when has x).
Proof. intros Ht Hb. unfold put_number, PutVarint64, PutVarint32, when, fields_bytes, field_bytes. destruct has; cbn; [|by rewrite app_nil_r]. by rewrite Ht, Hb, app_nil_r, app_assoc. Qed.

Lemma fields_bytes_app l l' : fields_bytes (l ++ l') = fields_bytes l ++ fields_bytes l'.
Proof. unfold fields_bytes. by rewrite fmap_app, join_app. Qed.

Lemma encode_ok e dst : Forall field_ok (fields_of e) -> EncodeTo e dst = Some (dst ++ fields_bytes (fields_of e)).
Proof.
  intros Hok. unfold fields_of in *. repeat rewrite Forall_app in Hok. destruct Hok as (_ & _ & _ & _ & _ & Hp & Hd & Hn). rewrite Forall_fmap in Hp. rewrite Forall_fmap in Hd. rewrite Forall_fmap in Hn.
  unfold EncodeTo. rewrite (put_number_ok _ kLogNumber _ _ (FLogNumber (log_number_ e))), (put_number_ok _ kPrevLogNumber _ _ (FPrevLogNumber (prev_log_number_ e))),
    (put_number_ok _ kNextFileNumber _ _ (FNextFile (next_file_number_ e))), (put_number_ok _ kLastSequence _ _ (FLastSequence (last_sequence_ e))) by done.
  rewrite put_pointers_ok by done. cbn [option_bind mbind]. rewrite put_deleted_ok, put_new_ok by done. f_equal. rewrite !fields_bytes_app, !app_assoc. do 7 f_equal.
  destruct (has_comparator_ e); cbn [when]; [|by rewrite app_nil_r]. unfold fields_bytes, field_bytes, slice_bytes. cbn. rewrite put_slice_app. unfold PutVarint32. by rewrite app_nil_r, app_assoc.
Qed.

(** ** Decoding *)

Lemma varint32_small n : 0 <= n < 128 -> EncodeVarint32 n = [n].
Proof. intros Hn. unfold EncodeVarint32. rewrite (proj2 (Z.ltb_lt n (Z.shiftl 1 7))) by (change (Z.shiftl 1 7) with 128; lia). by rewrite u8_small by lia. Qed.

Lemma read_level level rest : level_ok level -> is_bytes rest -> GetLevel (EncodeVarint32 level ++ rest) = Some (level, rest).
Proof. intros [H0 H1] Hr. change kNumLevels with 7 in H1. unfold GetLevel. rewrite get_put_varint32 by (done || lia). by rewrite (proj2 (Z.ltb_lt level kNumLevels)) by (change kNumLevels with 7; lia). Qed.

Lemma slice_is_bytes s : slice_ok s -> is_bytes (slice_bytes s).
Proof. intros [Hb Hs]. by apply put_slice_bytes. Qed.

Lemma level_is_bytes level : level_ok level -> is_bytes (EncodeVarint32 level).
Proof. intros [H0 H1]. change kNumLevels with 7 in H1. apply encode_varint32_bytes. lia. Qed.

(** Bytes, piece by piece. *)
Ltac field_bytes := repeat first [done|by apply level_is_bytes|by apply slice_is_bytes|by apply encode_varint64_bytes|apply Forall_app; split].

Lemma body_is_bytes x : field_ok x -> is_bytes (field_body x).
Proof.
  destruct x; cbn [field_ok field_body]; intros Hx; try (by apply encode_varint64_bytes); try (by apply slice_is_bytes);
    [destruct Hx as (Hl & Hk & _)|destruct Hx as (Hl & Hn)|destruct Hx as (Hl & _ & Hn & Hs & [Hk _] & [Hg _])]; field_bytes.
Qed.

Lemma tag_small x : 1 <= field_tag x <= 9.
Proof. destruct x; cbn; unfold kComparator, kLogNumber, kPrevLogNumber, kNextFileNumber, kLastSequence, kCompactPointer, kDeletedFile, kNewFile; lia. Qed.

Lemma tag_byte x : EncodeVarint32 (field_tag x) = [field_tag x].
Proof. apply varint32_small. pose proof (tag_small x). lia. Qed.

Lemma field_is_bytes x : field_ok x -> is_bytes (field_bytes x).
Proof. intros Hx. unfold field_bytes. apply Forall_app. split; [|by apply body_is_bytes]. rewrite tag_byte. apply Forall_singleton. pose proof (tag_small x). lia. Qed.

Lemma fields_are_bytes l : Forall field_ok l -> is_bytes (fields_bytes l).
Proof. induction 1 as [|x l Hx _ IH]; [constructor|]. change (fields_bytes (x :: l)) with (field_bytes x ++ fields_bytes l). apply Forall_app. split; [by apply field_is_bytes|done]. Qed.

Lemma decode_field_ok x e rest : field_ok x -> is_bytes rest -> decode_field (field_tag x) e (field_body x ++ rest) = inl (apply_field e x, rest).
Proof.
  intros Hx Hr. destruct x as [name|n|n|n|n|level key|level n|level f]; cbn [field_tag field_body field_ok apply_field] in *; unfold decode_field; cbn [kComparator kLogNumber kPrevLogNumber kNextFileNumber kLastSequence kCompactPointer kDeletedFile kNewFile Z.eqb Pos.eqb];
    try (by rewrite get_put_varint64).
  - destruct Hx as [Hb Hs]. unfold slice_bytes. by rewrite get_put_slice.
  - destruct Hx as (Hl & [Hb Hs] & _). rewrite <- app_assoc, read_level by field_bytes. cbn [option_bind mbind]. unfold GetInternalKey, slice_bytes. by rewrite get_put_slice.
  - destruct Hx as (Hl & Hn). rewrite <- app_assoc, read_level by field_bytes. cbn [option_bind mbind]. by rewrite get_put_varint64.
  - destruct Hx as (Hl & Hseek & Hn & Hz & [Hs _] & [Hg _]). pose proof (slice_is_bytes _ Hs) as Hsb. pose proof (slice_is_bytes _ Hg) as Hgb.
    pose proof (encode_varint64_bytes _ Hn). pose proof (encode_varint64_bytes _ Hz). rewrite <- !app_assoc, read_level by field_bytes. cbn [option_bind mbind].
    rewrite get_put_varint64 by field_bytes. cbn [option_bind mbind]. rewrite get_put_varint64 by field_bytes. cbn [option_bind mbind].
    destruct Hs as [Hs1 Hs2], Hg as [Hg1 Hg2]. unfold GetInternalKey. unfold slice_bytes at 1. rewrite get_put_slice by field_bytes. cbn [option_bind mbind]. unfold slice_bytes. rewrite get_put_slice by done. cbn [option_bind mbind].
    unfold new_FileMetaData. rewrite <- Hseek. by destruct f.
Qed.

Lemma field_bytes_length x : (1 <= length (field_bytes x))%nat.
Proof. unfold field_bytes. rewrite tag_byte. cbn. lia. Qed.

Lemma fields_bytes_length l : (length l <= length (fields_bytes l))%nat.
Proof. induction l as [|x l IH]; [done|]. change (fields_bytes (x :: l)) with (field_bytes x ++ fields_bytes l). rewrite length_app. pose proof (field_bytes_length x). cbn. lia. Qed.

Lemma decode_loop_ok l : forall fuel e, Forall field_ok l -> (length l < fuel)%nat -> decode_loop fuel e (fields_bytes l) = Some (fold_left apply_field l e, [], None).
Proof.
  induction l as [|x l IH]; intros [|fuel] e Hl Hf; cbn [length] in Hf; try lia; [done|]. apply Forall_cons_1 in Hl as [Hx Hl].
  change (fields_bytes (x :: l)) with (field_bytes x ++ fields_bytes l). cbn [decode_loop fold_left]. unfold field_bytes. rewrite <- app_assoc.
  rewrite get_put_varint32; [|pose proof (tag_small x); lia|apply Forall_app; split; [by apply body_is_bytes|by apply fields_are_bytes]].
  rewrite decode_field_ok by (try done; by apply fields_are_bytes). apply IH; [done|lia].
Qed.

Lemma decode_fields_ok l e : Forall field_ok l -> DecodeFrom (fields_bytes l) e = Some (OK, fold_left apply_field l (Clear e)).
Proof. intros Hl. unfold DecodeFrom. rewrite decode_loop_ok; [done..|]. pose proof (fields_bytes_length l). lia. Qed.

(** * The round trip *)

(** What the code keeps of an edit that it builds: values that are not there are zero, and the
    deleted files are in order. *)
Record edit_ok (e : VersionEdit) : Prop := {
  e_comparator : if has_comparator_ e then slice_ok (comparator_ e) else comparator_ e = [];
  e_log_number : if has_log_number_ e then u64_ok (log_number_ e) else log_number_ e = 0;
  e_prev_log_number : if has_prev_log_number_ e then u64_ok (prev_log_number_ e) else prev_log_number_ e = 0;
  e_next_file_number : if has_next_file_number_ e then u64_ok (next_file_number_ e) else next_file_number_ e = 0;
  e_last_sequence : if has_last_sequence_ e then u64_ok (last_sequence_ e) else last_sequence_ e = 0;
  e_pointers : Forall (fun x => level_ok x.1 /\ key_present x.2) (compact_pointers_ e);
  e_deleted : Forall (fun x => level_ok x.1 /\ u64_ok x.2) (deleted_files_ e);
  e_sorted : StronglySorted (fun x y => pair_ltb x y = true) (deleted_files_ e);
  e_new : Forall (fun x => level_ok x.1 /\ file_ok x.2) (new_files_ e);
}.

Lemma edit_fields e : edit_ok e -> Forall field_ok (fields_of e).
Proof.
  intros []. unfold fields_of, when. repeat rewrite Forall_app. rewrite !Forall_fmap. repeat split; try done.
  all: match goal with |- Forall _ (if ?b then _ else _) => destruct b; [by constructor|constructor] end.
Qed.

Lemma pair_ltb_spec x y : pair_ltb x y = true <-> x.1 < y.1 \/ x.1 = y.1 /\ x.2 < y.2.
Proof. unfold pair_ltb. rewrite orb_true_iff, andb_true_iff, !Z.ltb_lt, Z.eqb_eq. done. Qed.

Lemma set_insert_last l : forall x, Forall (fun y => pair_ltb y x = true) l -> set_insert x l = l ++ [x].
Proof.
  induction l as [|y l IH]; intros x Hl; cbn [set_insert app]; [done|]. apply Forall_cons_1 in Hl as [Hy Hl]. rewrite Hy. destruct (pair_ltb x y) eqn:E; [|by rewrite IH].
  apply pair_ltb_spec in E, Hy. lia.
Qed.

Lemma fold_pointers l : forall e, fold_left apply_field ((fun x => FCompactPointer x.1 x.2) <$> l) e =
  mk_edit (comparator_ e) (log_number_ e) (prev_log_number_ e) (next_file_number_ e) (last_sequence_ e) (has_comparator_ e) (has_log_number_ e) (has_prev_log_number_ e) (has_next_file_number_ e) (has_last_sequence_ e)
    (compact_pointers_ e ++ l) (deleted_files_ e) (new_files_ e).
Proof. induction l as [|[level key] l IH]; intros e; cbn [fmap list_fmap fold_left]; [rewrite app_nil_r; by destruct e|]. rewrite IH. cbn. by rewrite <- app_assoc. Qed.

Lemma fold_new l : forall e, fold_left apply_field ((fun x => FNewFile x.1 x.2) <$> l) e =
  mk_edit (comparator_ e) (log_number_ e) (prev_log_number_ e) (next_file_number_ e) (last_sequence_ e) (has_comparator_ e) (has_log_number_ e) (has_prev_log_number_ e) (has_next_file_number_ e) (has_last_sequence_ e)
    (compact_pointers_ e) (deleted_files_ e) (new_files_ e ++ l).
Proof. induction l as [|[level f] l IH]; intros e; cbn [fmap list_fmap fold_left]; [rewrite app_nil_r; by destruct e|]. rewrite IH. cbn. by rewrite <- app_assoc. Qed.

Lemma fold_deleted l : forall e, StronglySorted (fun x y => pair_ltb x y = true) (deleted_files_ e ++ l) -> fold_left apply_field ((fun x => FDeletedFile x.1 x.2) <$> l) e = set_deleted (deleted_files_ e ++ l) e.
Proof.
  induction l as [|[level n] l IH]; intros e Hs; cbn [fmap list_fmap fold_left fst snd apply_field]; [rewrite app_nil_r; by destruct e|].
  unfold DeleteFile. rewrite set_insert_last.
  - rewrite IH; cbn [deleted_files_ set_deleted]; [by rewrite <- app_assoc|by rewrite <- app_assoc].
  - apply Forall_forall. intros y Hy. apply (StronglySorted_app_1_elem_of _ _ _ _ _ Hs Hy). by left.
Qed.

Lemma edit_decoded e e0 : edit_ok e ->
  exists bytes, EncodeTo e [] = Some bytes /\ is_bytes bytes /\ DecodeFrom bytes e0 = Some (OK, mk_edit (comparator_ e) (log_number_ e) (prev_log_number_ e) (next_file_number_ e) (last_sequence_ e)
      (has_comparator_ e) (has_log_number_ e) (has_prev_log_number_ e) (has_next_file_number_ e) (has_last_sequence_ e)
      (compact_pointers_ e0 ++ compact_pointers_ e) (deleted_files_ e) (new_files_ e)).
Proof.
  intros He. pose proof (edit_fields e He) as Hok. exists (fields_bytes (fields_of e)). split; [by apply (encode_ok e [])|]. split; [by apply fields_are_bytes|].
  rewrite decode_fields_ok by done. do 2 f_equal. destruct He. unfold fields_of. rewrite !fold_left_app, fold_new, fold_deleted, fold_pointers.
  - destruct e as [c l p n s [] [] [] [] [] cp d nf]; cbn in *; by subst.
  - rewrite fold_pointers. destruct e as [c l p n s [] [] [] [] [] cp d nf]; cbn in *; done.
Qed.

(** C36: a record of the manifest gives back the edit it was made of, whatever the edit it is read
    into held before - except that the compaction pointers of that edit stay, because Clear
    forgets to drop them. *)
Theorem version_edit_roundtrip e e0 : edit_ok e ->
  exists bytes, EncodeTo e [] = Some bytes /\ is_bytes bytes /\ DecodeFrom bytes e0 = Some (OK, mk_edit (comparator_ e) (log_number_ e) (prev_log_number_ e) (next_file_number_ e) (last_sequence_ e)
      (has_comparator_ e) (has_log_number_ e) (has_prev_log_number_ e) (has_next_file_number_ e) (has_last_sequence_ e)
      (compact_pointers_ e0 ++ compact_pointers_ e) (deleted_files_ e) (new_files_ e)).
Proof. apply edit_decoded. Qed.

Definition example_edit : VersionEdit :=
  AddFile 0 12 4096 [97; 1; 1; 0; 0; 0; 0; 0; 0] [98; 1; 2; 0; 0; 0; 0; 0; 0] (DeleteFile 1 9 (DeleteFile 1 7 (SetCompactPointer 2 [99; 1; 0; 0; 0; 0; 0; 0; 0] (SetLastSequence 300 (SetLogNumber 11 new_VersionEdit))))).

Lemma version_edit_roundtrip_witness : exists bytes, EncodeTo example_edit [] = Some bytes /\ is_bytes bytes /\ DecodeFrom bytes new_VersionEdit = Some (OK, example_edit) /\ DecodeFrom bytes (SetCompactPointer 5 [1] new_VersionEdit) = Some (OK, mk_edit [] 11 0 0 300 false true false false true [(5, [1]); (2, [99; 1; 0; 0; 0; 0; 0; 0; 0])] [(1, 7); (1, 9)] (new_files_ example_edit)).
Proof.
  assert (Hok : edit_ok example_edit).
  { assert (Hk : forall k, forallb (fun b => (0 <=? b) && (b <? 256)) k && (size k <? 2 ^ 32) && negb (bool_decide (k = [])) = true -> key_present k).
    { intros k Hk. apply andb_true_iff in Hk as [Hk Hne]. apply andb_true_iff in Hk as [Hk Hs]. apply negb_true_iff, bool_decide_eq_false in Hne. split; [|done]. split; [|by apply Z.ltb_lt].
      rewrite forallb_forall in Hk. apply Forall_forall. intros b Hb. specialize (Hk b). rewrite <- list_elem_of_In in Hk. apply Hk in Hb. apply andb_true_iff in Hb as [Hb1 Hb2]. apply Z.leb_le in Hb1. apply Z.ltb_lt in Hb2. lia. }
    change example_edit with (mk_edit [] 11 0 0 300 false true false false true [(2, [99; 1; 0; 0; 0; 0; 0; 0; 0])] [(1, 7); (1, 9)]
      [(0, mk_meta (Z.shiftl 1 30) 12 4096 [97; 1; 1; 0; 0; 0; 0; 0; 0] [98; 1; 2; 0; 0; 0; 0; 0; 0])]).
    constructor; cbn [has_comparator_ has_log_number_ has_prev_log_number_ has_next_file_number_ has_last_sequence_ comparator_ log_number_ prev_log_number_ next_file_number_ last_sequence_ compact_pointers_ deleted_files_ new_files_]; try reflexivity.
    - unfold u64_ok. lia.
    - unfold u64_ok. lia.
    - apply Forall_singleton. split; [unfold level_ok, kNumLevels; cbn; lia|apply Hk; reflexivity].
    - repeat constructor; cbn; unfold kNumLevels; lia.
    - repeat constructor.
    - apply Forall_singleton. split; [unfold level_ok, kNumLevels; cbn; lia|]. split; [reflexivity|]. do 2 (split; [unfold u64_ok; cbn [number file_size snd]; lia|]). split; apply Hk; reflexivity. }
  destruct (version_edit_roundtrip example_edit new_VersionEdit Hok) as (bytes & E & Hb & Hd). exists bytes. split; [exact E|]. split; [exact Hb|]. split; [exact Hd|].
  destruct (version_edit_roundtrip example_edit (SetCompactPointer 5 [1] new_VersionEdit) Hok) as (bytes' & E' & _ & Hd'). rewrite E in E'. injection E' as <-. exact Hd'.
Defined.

(** * Any bytes *)

(** What a field is known to be once it was read: a key may be empty. *)
Definition field_sound (x : field) : Prop :=
  match x with
  | FCompactPointer level key => level_ok level /\ slice_ok key
  | FNewFile level f => level_ok level /\ allowed_seeks f = Z.shiftl 1 30 /\ u64_ok (number f) /\ u64_ok (file_size f) /\ slice_ok (smallest f) /\ slice_ok (largest f)
  | _ => field_ok x
  end.

Lemma read_u64 l v r : is_bytes l -> GetVarint64 l = Some (v, r) -> u64_ok v /\ is_bytes r /\ (length r < length l)%nat.
Proof. intros Hl. rewrite get_varint64 by done. by apply varint_read_shrinks. Qed.

Lemma read_any_level l v r : is_bytes l -> GetLevel l = Some (v, r) -> level_ok v /\ is_bytes r /\ (length r < length l)%nat.
Proof.
  intros Hl. unfold GetLevel. destruct (GetVarint32 l) as [[v' r']|] eqn:E; [|done]. destruct (Z.ltb_spec v' kNumLevels); [|done]. intros [= <- <-].
  rewrite get_varint32 in E by done. apply varint_read_shrinks in E as (Hv & ? & ?); [|done..]. split; [split; [lia|done]|done].
Qed.

(** One reader after the other. *)
Ltac read_next :=
  match goal with
  | H : is_bytes ?l |- context [GetVarint64 ?l] => let E := fresh "E" in destruct (GetVarint64 l) as [[? ?]|] eqn:E; cbn [option_bind mbind]; [apply read_u64 in E as (? & ? & ?); [|done]|]
  | H : is_bytes ?l |- context [GetLevel ?l] => let E := fresh "E" in destruct (GetLevel l) as [[? ?]|] eqn:E; cbn [option_bind mbind]; [apply read_any_level in E as (? & ? & ?); [|done]|]
  | H : is_bytes ?l |- context [GetLengthPrefixedSlice ?l] => let E := fresh "E" in destruct (GetLengthPrefixedSlice l) as [[? ?]|] eqn:E; cbn [option_bind mbind]; [apply slice_shrinks in E as (? & ? & ?); [|done]|]
  end.

Lemma decode_any_field tag e l : is_bytes l ->
  match decode_field tag e l with
  | inl (e', r) => exists x, field_sound x /\ e' = apply_field e x /\ is_bytes r /\ (length r < length l)%nat
  | inr _ => True
  end.
Proof.
  intros Hl. unfold decode_field, GetInternalKey. repeat (match goal with |- context [if tag =? ?k then _ else _] => destruct (tag =? k) end); [..|done]; repeat read_next; try done.
  - by exists (FComparator l0).
  - by exists (FLogNumber z).
  - by exists (FPrevLogNumber z).
  - by exists (FNextFile z).
  - by exists (FLastSequence z).
  - exists (FCompactPointer z l1). do 2 (split; [done|]). split; [done|lia].
  - exists (FDeletedFile z z0). do 2 (split; [done|]). split; [done|lia].
  - exists (FNewFile z (new_FileMetaData z0 z1 l3 l5)). split; [done|]. split; [done|]. split; [done|lia].
Qed.

Lemma decode_any_loop fuel : forall e l, is_bytes l -> (length l < fuel)%nat ->
  exists xs r msg, decode_loop fuel e l = Some (fold_left apply_field xs e, r, msg) /\ Forall field_sound xs.
Proof.
  induction fuel as [|fuel IH]; intros e l Hl Hf; [lia|]. cbn [decode_loop]. destruct (GetVarint32 l) as [[tag r]|] eqn:E; [|by exists [], l, None].
  rewrite get_varint32 in E by done. apply varint_read_shrinks in E as (_ & Hr & Hlen); [|done..]. pose proof (decode_any_field tag e r Hr) as Hd.
  destruct (decode_field tag e r) as [[e' r']|msg]; [|by exists [], r, (Some msg)]. destruct Hd as (x & Hx & -> & Hr' & Hlen').
  destruct (IH (apply_field e x) r' Hr') as (xs & r2 & msg & E & Hxs); [lia|]. exists (x :: xs), r2, msg. split; [exact E|by constructor].
Qed.

(** C37: any bytes are read to an end, and leave an edit of fields that are what they should be:
    levels that exist, numbers of 64 bits, slices within the input. *)
Theorem version_edit_any_bytes src e0 : is_bytes src ->
  exists s xs, DecodeFrom src e0 = Some (s, fold_left apply_field xs (Clear e0)) /\ Forall field_sound xs.
Proof.
  intros Hl. unfold DecodeFrom. destruct (decode_any_loop (S (length src)) (Clear e0) src Hl) as (xs & r & msg & -> & Hxs); [lia|]. by eexists _, xs.
Qed.

Lemma version_edit_any_bytes_witness : exists s xs, DecodeFrom [2; 11; 6; 7; 1] example_edit = Some (s, fold_left apply_field xs (Clear example_edit)) /\ Forall field_sound xs.
Proof. apply (version_edit_any_bytes [2; 11; 6; 7; 1] example_edit). repeat constructor; lia. Defined.

(** The level 7 of this record does not exist; the number before it was read. *)
Example bad_level : DecodeFrom [2; 11; 6; 7; 1] new_VersionEdit = Some (make_status kCorruption "VersionEdit" "deleted file", SetLogNumber 11 new_VersionEdit).
Proof. vm_compute. reflexivity. Qed.

(** A file with an empty key is read without an error, but Encode asserts that no key is empty. *)
Example empty_key_accepted :
  let e := push_new_file 1 (new_FileMetaData 5 6 [] []) new_VersionEdit in DecodeFrom [7; 1; 5; 6; 0; 0] new_VersionEdit = Some (OK, e) /\ EncodeTo e [] = None.
Proof. vm_compute. done. Qed.
