(* ===== verification/LdbSkipList.v ===== *)
(** LevelDB's db/skiplist.h over util/arena.h, util/arena.cc and util/random.h.

    The list's operations are programs of atomic accesses ([Conc]): the loads and stores of
    the links and of [max_height_], the allocation of a node and the use of the random
    number generator.  The memory of the nodes is kept in the list as a map from addresses;
    a link that has not been stored yet ([None]) must not be loaded. *)
From stdpp Require Import base gmap list numbers option.
From Stdlib Require Import ZArith Lia.
From S2P Require Import Prelude Cmem Conc.

(** * Arena *)

Record Arena := mk_arena {
  alloc_ptr_ : Z;
  alloc_bytes_remaining_ : Z;
  blocks_ : list Z;
  memory_usage_ : Z;
}.

Definition kArenaBlockSize : Z := 4096.

Definition new_Arena : Arena := mk_arena NULL 0 [] 0.

(** [new char[n]]: if there is no memory the program ends. *)
Definition new_array {T} (n : Z) : SM T Z := fun s w =>
  Ok (brk w) s (World (mem w) (blocks w) (brk w + Z.max 16 (align16 n))).

Definition AllocateNewBlock (block_bytes : Z) : SM Arena Z :=
  let* result := new_array block_bytes in
  modify (fun a => mk_arena (alloc_ptr_ a) (alloc_bytes_remaining_ a) (blocks_ a ++ [result]) (u64 (memory_usage_ a + (block_bytes + 8))));;
  ret result.

Definition AllocateFallback (bytes : Z) : SM Arena Z :=
  if kArenaBlockSize / 4 <? bytes then AllocateNewBlock bytes
  else
    let* result := AllocateNewBlock kArenaBlockSize in
    modify (fun a => mk_arena (result + bytes) (kArenaBlockSize - bytes) (blocks_ a) (memory_usage_ a));;
    ret result.

Definition Allocate (bytes : Z) : SM Arena Z :=
  assert_ (0 <? bytes);;
  let* a := get in
  if bytes <=? alloc_bytes_remaining_ a then
    put (mk_arena (alloc_ptr_ a + bytes) (alloc_bytes_remaining_ a - bytes) (blocks_ a) (memory_usage_ a));;
    ret (alloc_ptr_ a)
  else AllocateFallback bytes.

Definition AllocateAligned (bytes : Z) : SM Arena Z :=
  let align := 8 in
  let* a := get in
  let current_mod := Z.land (alloc_ptr_ a) (align - 1) in
  let slop := if current_mod =? 0 then 0 else align - current_mod in
  let needed := bytes + slop in
  let* result :=
    if needed <=? alloc_bytes_remaining_ a then
      put (mk_arena (alloc_ptr_ a + needed) (alloc_bytes_remaining_ a - needed) (blocks_ a) (memory_usage_ a));;
      ret (alloc_ptr_ a + slop)
    else AllocateFallback bytes in
  assert_ (Z.land result (align - 1) =? 0);;
  ret result.

Definition MemoryUsage (a : Arena) : Z := memory_usage_ a.

(** * Random *)

Definition kRandomM : Z := 2147483647.

Definition new_Random (s : Z) : Z :=
  let seed := Z.land s 0x7fffffff in
  if (seed =? 0) || (seed =? kRandomM) then 1 else seed.

(** The next seed, which is also the number drawn. *)
Definition RandomNext (seed : Z) : Z :=
  let product := u64 (seed * 16807) in
  let seed := u32 (Z.shiftr product 31 + Z.land product kRandomM) in
  if kRandomM <? seed then u32 (seed - kRandomM) else seed.

(** The next seed and the result; [None] is a division by zero or a shift out of an [int]. *)
Definition Uniform (seed n : Z) : option (Z * Z) :=
  if n =? 0 then None else let seed := RandomNext seed in Some (seed, seed mod u32 n).

Definition OneIn (seed n : Z) : option (Z * bool) :=
  if n =? 0 then None else let seed := RandomNext seed in Some (seed, seed mod u32 n =? 0).

Definition Skewed (seed max_log : Z) : option (Z * Z) :=
  match Uniform seed (max_log + 1) with
  | Some (seed, base) => if base <? 31 then Uniform seed (Z.shiftl 1 base) else None
  | None => None
  end.

(** * SkipList *)

Section skiplist.
Context {Key : Type}.
Variable compare_ : Key -> Key -> option Z.
(** The key of the head: "any key will do". *)
Variable zero : Key.

Record Node := mk_node { node_key : Key; next_ : list (option Z) }.

Record SkipList := mk_skiplist {
  nodes : gmap Z Node;
  arena_ : Arena;
  head_ : Z;
  max_height_ : Z;
  rnd_ : Z;
}.

Definition set_nodes m (l : SkipList) := mk_skiplist m (arena_ l) (head_ l) (max_height_ l) (rnd_ l).
Definition set_arena a (l : SkipList) := mk_skiplist (nodes l) a (head_ l) (max_height_ l) (rnd_ l).
Definition set_head p (l : SkipList) := mk_skiplist (nodes l) (arena_ l) p (max_height_ l) (rnd_ l).
Definition set_max_height h (l : SkipList) := mk_skiplist (nodes l) (arena_ l) (head_ l) h (rnd_ l).
Definition set_rnd r (l : SkipList) := mk_skiplist (nodes l) (arena_ l) (head_ l) (max_height_ l) r.

Definition kMaxHeight : Z := 12.

(** [sizeof(Node)]: a pointer to the key and one link. *)
Definition sizeof_Node : Z := 16.

(** A call on the arena. *)
Definition in_arena {A} (m : SM Arena A) : SM SkipList A := fun l w =>
  match m (arena_ l) w with
  | Ok r a w => Ok r (set_arena a l) w
  | Err a w => Err (set_arena a l) w
  | UB => UB
  | NoFuel => NoFuel
  end.

(** ** Atomic accesses *)

(** [n->Next(i)] and [n->NoBarrier_Next(i)] *)
Definition Next (p i : Z) : SM SkipList Z :=
  assert_ (0 <=? i);;
  let* l := get in
  let* n := must (nodes l !! p) in
  must (mjoin (next_ n !! Z.to_nat i)).

(** [n->SetNext(i, x)] and [n->NoBarrier_SetNext(i, x)] *)
Definition SetNext (p i x : Z) : SM SkipList unit :=
  assert_ (0 <=? i);;
  let* l := get in
  let* n := must (nodes l !! p) in
  let* _ := must (next_ n !! Z.to_nat i) in
  modify (set_nodes (<[p := mk_node (node_key n) (<[Z.to_nat i := Some x]> (next_ n))]> (nodes l))).

Definition key_of (p : Z) : SM SkipList Key := let* l := get in let* n := must (nodes l !! p) in ret (node_key n).

Definition GetMaxHeight : SM SkipList Z := let* l := get in ret (max_height_ l).
Definition SetMaxHeight (h : Z) : SM SkipList unit := modify (set_max_height h).
Definition GetHead : SM SkipList Z := let* l := get in ret (head_ l).

Definition NewNode (key : Key) (height : Z) : SM SkipList Z :=
  let* p := in_arena (AllocateAligned (sizeof_Node + 8 * (height - 1))) in
  modify (fun l => set_nodes (<[p := mk_node key (repeat None (Z.to_nat height))]> (nodes l)) l);;
  ret p.

(** One round of the loop of [RandomHeight]. *)
Definition height_step (height : Z) : SM SkipList (Z + Z) :=
  if height <? kMaxHeight then
    modify (fun l => set_rnd (RandomNext (rnd_ l)) l);;
    let* l := get in
    if rnd_ l mod 4 =? 0 then ret (inl (height + 1)) else ret (inr height)
  else ret (inr height).

Definition RandomHeight : SM SkipList Z :=
  let* height := loop (Z.to_nat kMaxHeight) height_step 1 in
  assert_ (0 <? height);;
  assert_ (height <=? kMaxHeight);;
  ret height.

(** ** Searching *)

Open Scope prog_scope.

Definition Equal (a b : Key) : SM SkipList bool := let* c := must (compare_ a b) in ret (c =? 0).

(** [compare_(n->key, key)] *)
Definition compare_node (n : Z) (key : Key) : prog SkipList Z :=
  let! k := act (key_of n) in act (must (compare_ k key)).

Definition KeyIsAfterNode (key : Key) (n : Z) : prog SkipList bool :=
  if n =? NULL then Ret false else let! c := compare_node n key in Ret (c <? 0).

(** The local variables of the search: the node, the level and the array [prev], where one
    is given. *)
Definition fge_step (key : Key) (st : Z * Z * option (list (option Z))) : prog SkipList ((Z * Z * option (list (option Z))) + (Z * option (list (option Z)))) :=
  let '(x, level, prev) := st in
  let! next := act (Next x level) in
  let! after := KeyIsAfterNode key next in
  if after then Ret (inl (next, level, prev))
  else
    let prev := option_map (fun l => <[Z.to_nat level := Some x]> l) prev in
    if level =? 0 then Ret (inr (next, prev)) else Ret (inl (x, level - 1, prev)).

(** A round goes on in the list or goes down a level. *)
Definition FindGreaterOrEqual (fuel : nat) (key : Key) (prev : option (list (option Z))) : prog SkipList (Z * option (list (option Z))) :=
  let! x := act GetHead in
  let! level := act GetMaxHeight in
  ploop fuel (fge_step key) (x, level - 1, prev).

Definition flt_step (head : Z) (key : Key) (st : Z * Z) : prog SkipList ((Z * Z) + Z) :=
  let '(x, level) := st in
  let! before := if x =? head then Ret true else (let! c := compare_node x key in Ret (c <? 0)) in
  act (assert_ before) >>>
  let! next := act (Next x level) in
  let! stop := if next =? NULL then Ret true else (let! c := compare_node next key in Ret (0 <=? c)) in
  if stop then (if level =? 0 then Ret (inr x) else Ret (inl (x, level - 1)))
  else Ret (inl (next, level)).

Definition FindLessThan (fuel : nat) (key : Key) : prog SkipList Z :=
  let! x := act GetHead in
  let! level := act GetMaxHeight in
  ploop fuel (flt_step x key) (x, level - 1).

Definition last_step (st : Z * Z) : prog SkipList ((Z * Z) + Z) :=
  let '(x, level) := st in
  let! next := act (Next x level) in
  if next =? NULL then (if level =? 0 then Ret (inr x) else Ret (inl (x, level - 1)))
  else Ret (inl (next, level)).

Definition FindLast (fuel : nat) : prog SkipList Z :=
  let! x := act GetHead in
  let! level := act GetMaxHeight in
  ploop fuel last_step (x, level - 1).

(** ** Construction and insertion *)

Definition new_SkipList (a : Arena) : SM unit SkipList := fun _ w =>
  match NewNode zero kMaxHeight (mk_skiplist ∅ a NULL 1 (new_Random 0xdeadbeef)) w with
  | Ok head l w =>
      match loop (S (Z.to_nat kMaxHeight)) (fun i => if i <? kMaxHeight then let* _ := SetNext head i NULL in ret (inl (i + 1)) else ret (inr tt)) 0 (set_head head l) w with
      | Ok _ l w => Ok l tt w
      | Err _ w => Err tt w
      | UB => UB
      | NoFuel => NoFuel
      end
  | Err _ w => Err tt w
  | UB => UB
  | NoFuel => NoFuel
  end.

(** [for (int i = GetMaxHeight(); i < height; i++) prev[i] = head_] *)
Fixpoint fill_prev (n : nat) (i : Z) (head : Z) (prev : list (option Z)) : list (option Z) :=
  match n with
  | O => prev
  | S n => fill_prev n (i + 1) head (<[Z.to_nat i := Some head]> prev)
  end.

(** One round of the loop that links the node in. *)
Definition link_step (x height : Z) (prev : list (option Z)) (i : Z) : prog SkipList (Z + unit) :=
  if i <? height then
    let! p := act (must (mjoin (prev !! Z.to_nat i))) in
    let! next := act (Next p i) in
    act (SetNext x i next) >>>
    act (SetNext p i x) >>>
    Ret (inl (i + 1))
  else Ret (inr tt).

Definition Insert (fuel : nat) (key : Key) : prog SkipList unit :=
  let! (x, prev) := FindGreaterOrEqual fuel key (Some (repeat None (Z.to_nat kMaxHeight))) in
  let! fresh := if x =? NULL then Ret true else (let! k := act (key_of x) in let! e := act (Equal key k) in Ret (negb e)) in
  act (assert_ fresh) >>>
  let! height := act RandomHeight in
  let! max_height := act GetMaxHeight in
  let! head := act GetHead in
  let prev := match prev with Some prev => prev | None => [] end in
  let! prev := if max_height <? height
               then (act (SetMaxHeight height) >>> Ret (fill_prev (Z.to_nat (height - max_height)) max_height head prev))
               else Ret prev in
  let! x := act (NewNode key height) in
  ploop (S (Z.to_nat kMaxHeight)) (link_step x height prev) 0.

Definition Contains (fuel : nat) (key : Key) : prog SkipList bool :=
  let! (x, _) := FindGreaterOrEqual fuel key None in
  if x =? NULL then Ret false else let! k := act (key_of x) in act (Equal key k).

(** ** Iterator: the node that it stands on *)

Definition new_Iterator : Z := NULL.
Definition Valid (node : Z) : bool := negb (node =? NULL).
Definition iter_key (node : Z) : prog SkipList Key := act (assert_ (Valid node)) >>> act (key_of node).
Definition iter_Next (node : Z) : prog SkipList Z := act (assert_ (Valid node)) >>> act (Next node 0).

Definition iter_Prev (fuel : nat) (node : Z) : prog SkipList Z :=
  act (assert_ (Valid node)) >>>
  let! k := act (key_of node) in
  let! node := FindLessThan fuel k in
  let! head := act GetHead in
  Ret (if node =? head then NULL else node).

Definition iter_Seek (fuel : nat) (target : Key) : prog SkipList Z :=
  let! (node, _) := FindGreaterOrEqual fuel target None in Ret node.

Definition iter_SeekToFirst : prog SkipList Z := let! head := act GetHead in act (Next head 0).

Definition iter_SeekToLast (fuel : nat) : prog SkipList Z :=
  let! node := FindLast fuel in
  let! head := act GetHead in
  Ret (if node =? head then NULL else node).

End skiplist.
Arguments Node Key : clear implicits.
Arguments SkipList Key : clear implicits.
