(* ===== verification/LdbSkipListThms.v ===== *)
(** The invariant of LevelDB's skip list: its links on each level as a sorted list of nodes,
    each level within the one below.  It holds between any two atomic accesses of an
    insertion, which adds a node to the levels one after the other. *)
From stdpp Require Import base gmap list numbers option sorting.
From Stdlib Require Import ZArith Lia.
From S2P Require Import Prelude Cmem Conc LdbSkipList.

Lemma StronglySorted_weaken {A} (R R' : A -> A -> Prop) l : (forall x y, R x y -> R' x y) -> StronglySorted R l -> StronglySorted R' l.
Proof. intros HR. induction 1 as [|x l _ IH Hx]; constructor; [done|]. eapply Forall_impl; [exact Hx|]. apply HR. Qed.

(** * The arena *)

Definition disjoint_blocks (x y : Z * Z) : Prop := x.1 + x.2 <= y.1 \/ y.1 + y.2 <= x.1.

(** Every allocation so far is below the break, off the free part of the current block, and
    disjoint from the others. *)
Record arena_ok (used : list (Z * Z)) (a : Arena) (w : world) : Prop := {
  ao_brk : 16 <= brk w /\ brk w mod 16 = 0;
  ao_free : 0 <= alloc_ptr_ a /\ 0 <= alloc_bytes_remaining_ a /\ alloc_ptr_ a + alloc_bytes_remaining_ a <= brk w;
  ao_ptr : 0 < alloc_bytes_remaining_ a -> 0 < alloc_ptr_ a;
  ao_used : Forall (fun x => 0 < x.1 /\ 0 < x.2 /\ x.1 + x.2 <= brk w /\ disjoint_blocks x (alloc_ptr_ a, alloc_bytes_remaining_ a)) used;
  ao_disjoint : ForallOrdPairs disjoint_blocks used;
}.

(** A world whose break has grown. *)
Definition same_memory (w w' : world) : Prop := mem w' = mem w /\ blocks w' = blocks w.

Lemma align16_spec n : align16 n mod 16 = 0 /\ n <= align16 n.
Proof. unfold align16. split; zdiv_lia. Qed.

Lemma arena_cut used a w n slop : arena_ok used a w -> 0 < n -> 0 <= slop -> slop + n <= alloc_bytes_remaining_ a ->
  arena_ok ((alloc_ptr_ a + slop, n) :: used) (mk_arena (alloc_ptr_ a + (slop + n)) (alloc_bytes_remaining_ a - (slop + n)) (blocks_ a) (memory_usage_ a)) w.
Proof.
  intros [[Hb Hm] (H1 & H2 & H3) Hp Hu Hd] Hn Hs Hle. split; cbn; try done; try lia.
  - constructor; [cbn; unfold disjoint_blocks; cbn; lia|]. eapply Forall_impl; [exact Hu|]. intros [p k]. unfold disjoint_blocks. cbn. lia.
  - constructor; [|done]. eapply Forall_impl; [exact Hu|]. intros [p k]. unfold disjoint_blocks. cbn. lia.
Qed.

Lemma new_block_ok used a w n : arena_ok used a w -> 0 < n ->
  exists a' w', AllocateNewBlock n a w = Ok (brk w) a' w' /\ same_memory w w' /\ brk w < brk w' /\ alloc_ptr_ a' = alloc_ptr_ a /\
    alloc_bytes_remaining_ a' = alloc_bytes_remaining_ a /\ arena_ok ((brk w, n) :: used) a' w'.
Proof.
  intros [[Hb Hm] (H1 & H2 & H3) Hp Hu Hd] Hn. pose proof (align16_spec n) as [Ha Hle].
  eexists _, _. split; [reflexivity|]. split; [done|]. cbn. split; [lia|]. do 2 (split; [done|]). split; cbn; try done.
  - split; [lia|]. destruct (Z.max_spec 16 (align16 n)) as [[_ ->]|[_ ->]]; zdiv_lia.
  - lia.
  - constructor; [cbn; unfold disjoint_blocks; cbn; lia|]. eapply Forall_impl; [exact Hu|]. intros [p k]. unfold disjoint_blocks. cbn. lia.
  - constructor; [|done]. eapply Forall_impl; [exact Hu|]. intros [p k]. unfold disjoint_blocks. cbn. lia.
Qed.

Lemma fallback_ok used a w n : arena_ok used a w -> 0 < n ->
  exists a' w', AllocateFallback n a w = Ok (brk w) a' w' /\ same_memory w w' /\ arena_ok ((brk w, n) :: used) a' w'.
Proof.
  intros Hok Hn. unfold AllocateFallback. destruct (Z.ltb_spec (kArenaBlockSize / 4) n) as [Hbig|Hsmall].
  - destruct (new_block_ok used a w n Hok Hn) as (a' & w' & -> & Hs & _ & _ & _ & Ha). by exists a', w'.
  - change (kArenaBlockSize / 4) with 1024 in Hsmall.
    destruct (new_block_ok used a w kArenaBlockSize Hok ltac:(done)) as (a' & w' & E & Hs & Hlt & _ & _ & Ha). unfold bind. rewrite E. cbn.
    eexists _, w'. split; [done|]. split; [done|]. destruct Ha as [Hb (H1 & H2 & H3) Hp Hu Hd]. inversion Hu as [|? ? Hx Hu2]; subst. cbn in Hx.
    inversion Hd as [|? ? Hd1 Hd2]; subst. change kArenaBlockSize with 4096 in *. split; cbn; try done; try lia.
    + constructor; [cbn; unfold disjoint_blocks; cbn; lia|]. apply Forall_forall. intros x Hx2.
      destruct (proj1 (Forall_forall _ _) Hu2 x Hx2) as (? & ? & ? & _). pose proof (proj1 (Forall_forall _ _) Hd1 x Hx2) as Hd3.
      repeat split; try lia. unfold disjoint_blocks in *. cbn in *. lia.
    + constructor; [|done]. eapply Forall_impl; [exact Hd1|]. intros x. unfold disjoint_blocks. cbn. lia.
Qed.

Lemma allocate_ok used a w n : arena_ok used a w -> 0 < n ->
  exists p a' w', Allocate n a w = Ok p a' w' /\ same_memory w w' /\ arena_ok ((p, n) :: used) a' w'.
Proof.
  intros Hok Hn. unfold Allocate. rewrite (proj2 (Z.ltb_lt _ _)) by lia. cbn. destruct (Z.leb_spec n (alloc_bytes_remaining_ a)) as [Hle|Hgt].
  - eexists _, _, _. split; [done|]. split; [done|]. pose proof (arena_cut used a w n 0 Hok Hn ltac:(done) ltac:(lia)) as H.
    by rewrite Z.add_0_r, Z.add_0_l in H.
  - destruct (fallback_ok used a w n Hok Hn) as (a' & w' & -> & ? & ?). by exists (brk w), a', w'.
Qed.

Lemma land_7 x : Z.land x (8 - 1) = x mod 8.
Proof. change (8 - 1) with (Z.ones 3). by rewrite Z.land_ones. Qed.

Lemma allocate_aligned_ok used a w n : arena_ok used a w -> 0 < n ->
  exists p a' w', AllocateAligned n a w = Ok p a' w' /\ p mod 8 = 0 /\ same_memory w w' /\ arena_ok ((p, n) :: used) a' w'.
Proof.
  intros Hok Hn. unfold AllocateAligned. cbn -[Z.land Z.sub]. rewrite !land_7.
  set (slop := if alloc_ptr_ a mod 8 =? 0 then 0 else 8 - alloc_ptr_ a mod 8).
  assert (Hslop : 0 <= slop /\ (alloc_ptr_ a + slop) mod 8 = 0) by (subst slop; destruct (Z.eqb_spec (alloc_ptr_ a mod 8) 0); zdiv_lia).
  destruct (Z.leb_spec (n + slop) (alloc_bytes_remaining_ a)) as [Hle|Hgt].
  - cbn -[Z.land Z.sub]. rewrite land_7, (proj2 Hslop). cbn. eexists _, _, _. split; [done|]. split; [apply Hslop|]. split; [done|].
    rewrite (Z.add_comm n). apply arena_cut; (lia || done).
  - destruct (fallback_ok used a w n Hok Hn) as (a' & w' & -> & Hs & Ha). cbn -[Z.land Z.sub]. rewrite land_7.
    assert (Hb : brk w mod 8 = 0) by (destruct Hok as [[_ ?] _ _ _ _]; zdiv_lia). rewrite Hb. cbn. by exists (brk w), a', w'.
Qed.

(** * Keys *)

Class KeyOrder {Key : Type} (compare : Key -> Key -> option Z) := {
  key_ok : Key -> Prop;
  key_cmp : Key -> Key -> comparison;
  key_compare_ok a b : key_ok a -> key_ok b -> exists c, compare a b = Some c /\ (c ?= 0) = key_cmp a b;
  key_flip a b : key_cmp b a = CompOpp (key_cmp a b);
  key_lt_le a b c : key_ok a -> key_ok b -> key_ok c -> key_cmp a b = Lt -> key_cmp b c <> Gt -> key_cmp a c = Lt;
  key_le_lt a b c : key_ok a -> key_ok b -> key_ok c -> key_cmp a b <> Gt -> key_cmp b c = Lt -> key_cmp a c = Lt;
}.

Section invariant.
Context {Key : Type} {compare : Key -> Key -> option Z} `{!KeyOrder compare}.

(** ** The history of a list *)

(** The nodes of each level, the keys of the nodes that exist, the height, and the keys
    inserted. *)
Record hist := mk_hist {
  lv : nat -> list Z;
  gkey : gmap Z Key;
  ghead : Z;
  gheight : Z;
  inserted : list Key;
}.

Definition grows (g g' : hist) : Prop :=
  (forall i, lv g i ⊆ lv g' i) /\ gkey g ⊆ gkey g' /\ ghead g' = ghead g /\ gheight g <= gheight g' /\ inserted g `prefix_of` inserted g'.

#[export] Instance grows_preorder : PreOrder grows.
Proof.
  split.
  - intros g. by repeat split.
  - intros g1 g2 g3 (H1 & H2 & H3 & Hh & H4) (H5 & H6 & H7 & Hh2 & H8). repeat split.
    + intros i. by trans (lv g2 i).
    + by trans (gkey g2).
    + congruence.
    + lia.
    + by trans (inserted g2).
Qed.

#[export] Instance list_history : History hist := {| later := grows |}.

(** A search is for a key or, with [None], for the end. *)
Definition before (k : Key) (t : option Key) : Prop := match t with Some t => key_cmp k t = Lt | None => True end.
Definition target_ok (t : option Key) : Prop := match t with Some t => key_ok t | None => True end.
Definition below (g : hist) (t : option Key) (p : Z) : Prop := exists k, gkey g !! p = Some k /\ before k t.
Definition above (g : hist) (t : option Key) (p : Z) : Prop := exists k, gkey g !! p = Some k /\ ~ before k t.
Definition node_lt (g : hist) (p q : Z) : Prop := exists k, gkey g !! q = Some k /\ below g (Some k) p.

Definition levels : nat := 12.

Record wf (B : nat) (g : hist) : Prop := {
  wf_sorted i : (i < levels)%nat -> StronglySorted (node_lt g) (lv g i);
  wf_incl i : (S i < levels)%nat -> lv g (S i) ⊆ lv g i;
  wf_key p : p ∈ lv g 0%nat -> is_Some (gkey g !! p);
  wf_node p k : gkey g !! p = Some k -> p <> ghead g /\ p <> NULL /\ key_ok k;
  wf_perm : omap (fun p => gkey g !! p) (lv g 0%nat) ≡ₚ inserted g;
  wf_bound : (length (lv g 0%nat) <= B)%nat;
}.

(** ** The state *)

Definition link (l : SkipList Key) (i : nat) (p : Z) : option Z := nodes l !! p ≫= fun n => mjoin (next_ n !! i).

Fixpoint chain (next : Z -> option Z) (p : Z) (l : list Z) : Prop :=
  match l with
  | [] => next p = Some NULL
  | q :: l => next p = Some q /\ q <> NULL /\ chain next q l
  end.

Record state_ok (g : hist) (l : SkipList Key) (w : world) : Prop := {
  so_head : head_ l = ghead g /\ ghead g <> NULL;
  so_head_node : exists n, nodes l !! ghead g = Some n /\ length (next_ n) = levels;
  so_chain i : (i < levels)%nat -> chain (link l i) (ghead g) (lv g i);
  so_height : max_height_ l = gheight g /\ 1 <= gheight g <= 12;
  so_empty i : (Z.to_nat (gheight g) <= i < levels)%nat -> lv g i = [];
  so_key p k : gkey g !! p = Some k -> exists n, nodes l !! p = Some n /\ node_key n = k;
  so_arena : exists used, arena_ok used (arena_ l) w /\ forall p, is_Some (nodes l !! p) -> exists n, (p, n) ∈ used;
}.

Definition inv (B : nat) (g : hist) (l : SkipList Key) (w : world) : Prop := wf B g /\ state_ok g l w.

(** ** Order *)

Lemma cmp_refl k : key_cmp k k = Eq.
Proof. pose proof (key_flip k k) as H. by destruct (key_cmp k k). Qed.

Lemma below_grows g g' t p : grows g g' -> below g t p -> below g' t p.
Proof. intros (_ & Hk & _) (k & Ek & Hlt). exists k. split; [|done]. by eapply lookup_weaken. Qed.

Lemma above_grows g g' t p : grows g g' -> above g t p -> above g' t p.
Proof. intros (_ & Hk & _) (k & Ek & Hlt). exists k. split; [|done]. by eapply lookup_weaken. Qed.

Lemma below_above g t p : below g t p -> above g t p -> False.
Proof. intros (k & Ek & H1) (k' & Ek' & H2). rewrite Ek in Ek'. by injection Ek' as <-. Qed.

Lemma below_or_above g t p k : gkey g !! p = Some k -> below g t p \/ above g t p.
Proof.
  intros Ek. destruct t as [t|]; [|left; by exists k]. destruct (key_cmp k t) eqn:E; [right|left|right]; exists k; cbn; by rewrite E.
Qed.

Lemma node_lt_below B g p q t : wf B g -> target_ok t -> node_lt g p q -> below g t q -> below g t p.
Proof.
  intros Hwf Ht (kq & Eq & (kp & Ep & Hpq)) (k & Ek & Hq). rewrite Eq in Ek. injection Ek as ->. exists kp. split; [done|].
  destruct t as [t|]; [|done]. cbn in *. eapply key_lt_le; [| | |exact Hpq|by rewrite Hq]; [by eapply wf_node|by eapply wf_node|done].
Qed.

Lemma node_lt_above B g p q t : wf B g -> target_ok t -> node_lt g p q -> above g t p -> above g t q.
Proof.
  intros Hwf Ht Hpq Hp. pose proof Hpq as (kq & Eq & _). destruct (below_or_above g t q kq Eq) as [Hq|Hq]; [|done].
  exfalso. eapply below_above; [|exact Hp]. by eapply node_lt_below.
Qed.

Lemma node_lt_trans B g : wf B g -> Transitive (node_lt g).
Proof.
  intros Hwf p q r Hpq (kr & Er & Hqr). exists kr. split; [done|]. eapply node_lt_below; [done| |exact Hpq|done]. by eapply wf_node.
Qed.

Lemma node_lt_irrefl g p : ~ node_lt g p p.
Proof. intros (k & Ek & (k' & Ek' & Hlt)). rewrite Ek in Ek'. injection Ek' as <-. cbn in Hlt. by rewrite cmp_refl in Hlt. Qed.

Lemma node_lt_grows g g' p q : grows g g' -> node_lt g p q -> node_lt g' p q.
Proof. intros Hg (k & Ek & Hb). exists k. split; [|by eapply below_grows]. destruct Hg as (_ & Hk & _). by eapply lookup_weaken. Qed.

Lemma sorted_nodup g l : StronglySorted (node_lt g) l -> NoDup l.
Proof.
  induction 1 as [|p l Hs IH Hp]; constructor; [|done]. intros Hin. rewrite Forall_forall in Hp. by apply (node_lt_irrefl g p), Hp.
Qed.

Lemma level_in_0 B g i p : wf B g -> (i < levels)%nat -> p ∈ lv g i -> p ∈ lv g 0%nat.
Proof. intros Hwf. induction i as [|i IH]; intros Hi Hp; [done|]. apply IH; [lia|]. by apply (wf_incl B g Hwf). Qed.

Lemma level_key B g i p : wf B g -> (i < levels)%nat -> p ∈ lv g i -> exists k, gkey g !! p = Some k /\ p <> ghead g /\ p <> NULL /\ key_ok k.
Proof.
  intros Hwf Hi Hp. destruct (wf_key B g Hwf p) as [k Ek]; [by eapply level_in_0|]. exists k. split; [done|]. by apply (wf_node B g Hwf).
Qed.

(** ** Positions *)

(** The node between the two parts of a level. *)
Definition node_at (g : hist) (bef : list Z) : Z := default (ghead g) (last bef).
Definition next_of (aft : list Z) : Z := default NULL (head aft).

(** A node before [t] on a level. *)
Definition pos (g : hist) (t : option Key) (i : nat) (x : Z) : Prop := exists bef aft, lv g i = bef ++ aft /\ x = node_at g bef /\ Forall (below g t) bef.

(** The last one. *)
Definition last_before (g : hist) (t : option Key) (i : nat) (x : Z) : Prop :=
  exists bef aft, lv g i = bef ++ aft /\ x = node_at g bef /\ Forall (below g t) bef /\ Forall (above g t) aft.

Definition first_from (g : hist) (t : option Key) (r : Z) : Prop :=
  exists bef aft, lv g 0%nat = bef ++ aft /\ r = next_of aft /\ Forall (below g t) bef /\ Forall (above g t) aft.

Lemma node_at_snoc g bef p : node_at g (bef ++ [p]) = p.
Proof. unfold node_at. by rewrite last_snoc. Qed.

Lemma sorted_before B g t i bef x aft : wf B g -> (i < levels)%nat -> target_ok t -> lv g i = bef ++ x :: aft -> below g t x -> Forall (below g t) (bef ++ [x]).
Proof.
  intros Hwf Hi Ht El Hx. apply Forall_app. split; [|by repeat constructor]. pose proof (wf_sorted B g Hwf i Hi) as Hs. rewrite El in Hs.
  apply Forall_forall. intros p Hp. eapply node_lt_below; [done|done| |exact Hx].
  eapply (StronglySorted_app_1_elem_of _ _ _ _ _ Hs); [done|]. by left.
Qed.

Lemma sorted_after B g t i bef x aft : wf B g -> (i < levels)%nat -> target_ok t -> lv g i = bef ++ x :: aft -> above g t x -> Forall (above g t) (x :: aft).
Proof.
  intros Hwf Hi Ht El Hx. constructor; [done|]. pose proof (wf_sorted B g Hwf i Hi) as Hs. rewrite El in Hs.
  apply StronglySorted_app_1_r in Hs. inversion Hs as [|? ? _ Hall]; subst. eapply Forall_impl; [exact Hall|].
  intros q Hq. by eapply node_lt_above.
Qed.

Lemma pos_intro B g t i x : wf B g -> (i < levels)%nat -> target_ok t -> x = ghead g \/ (x ∈ lv g i /\ below g t x) -> pos g t i x.
Proof.
  intros Hwf Hi Ht [->|[Hx Hb]]; [by exists [], (lv g i)|]. apply list_elem_of_split in Hx as (bef & aft & El).
  exists (bef ++ [x]), aft. rewrite node_at_snoc, <- app_assoc. split; [done|]. split; [done|]. by eapply sorted_before.
Qed.

Lemma pos_elim g t i x : pos g t i x -> x = ghead g \/ (x ∈ lv g i /\ below g t x).
Proof.
  intros (bef & aft & El & -> & Hb). destruct bef as [|p bef _] using rev_ind; [by left|]. right. rewrite node_at_snoc, El.
  split; [set_solver|]. apply Forall_app in Hb as [_ Hb]. by inversion Hb.
Qed.

Lemma pos_grows B g g' t i x : wf B g' -> (i < levels)%nat -> target_ok t -> grows g g' -> pos g t i x -> pos g' t i x.
Proof.
  intros Hwf Hi Ht Hg Hp. eapply pos_intro; [done..|]. destruct (pos_elim _ _ _ _ Hp) as [->|[Hx Hb]].
  - left. by destruct Hg as (_ & _ & -> & _).
  - right. split; [|by eapply below_grows]. by apply Hg.
Qed.

Lemma pos_down B g t i x : wf B g -> (S i < levels)%nat -> target_ok t -> pos g t (S i) x -> pos g t i x.
Proof.
  intros Hwf Hi Ht Hp. eapply pos_intro; [done|lia|done|]. destruct (pos_elim _ _ _ _ Hp) as [->|[Hx Hb]]; [by left|].
  right. split; [|done]. by apply (wf_incl B g Hwf).
Qed.

(** How far a node is in the list. *)
Definition rank (g : hist) (x : Z) (n : nat) : Prop := exists bef aft, lv g 0%nat = bef ++ aft /\ x = node_at g bef /\ length bef = n.

Lemma rank_exists B g t i x : wf B g -> (i < levels)%nat -> target_ok t -> pos g t i x -> exists n, rank g x n.
Proof.
  intros Hwf Hi Ht Hp. destruct (pos_elim _ _ _ _ Hp) as [->|[Hx Hb]]; [by exists 0%nat, [], (lv g 0%nat)|].
  destruct (pos_intro B g t 0 x Hwf) as (bef & aft & El & -> & _); [unfold levels; lia|done|right; by eauto using level_in_0|].
  by exists (length bef), bef, aft.
Qed.

Lemma rank_grows B g g' x n : wf B g -> wf B g' -> grows g g' -> rank g x n -> exists n', rank g' x n' /\ (n <= n')%nat.
Proof.
  intros Hwf Hwf' Hg (bef & aft & El & -> & <-). destruct bef as [|x bef _] using rev_ind.
  { exists 0%nat. split; [|done]. exists [], (lv g' 0%nat). repeat split. unfold node_at. cbn. by destruct Hg as (_ & _ & -> & _). }
  rewrite node_at_snoc. rewrite <- app_assoc in El. cbn in El. assert (H0 : (0 < levels)%nat) by (unfold levels; lia).
  assert (Hx : x ∈ lv g' 0%nat) by (apply Hg; rewrite El; set_solver). destruct (level_key B g' 0 x Hwf' H0 Hx) as (k & Ek & _ & _ & Hk).
  pose proof (wf_sorted B g Hwf 0 H0) as Hs. pose proof (wf_sorted B g' Hwf' 0 H0) as Hs'. apply list_elem_of_split in Hx as (bef' & aft' & El').
  rewrite El in Hs. rewrite El' in Hs'. exists (length (bef' ++ [x])). split.
  { exists (bef' ++ [x]), aft'. rewrite node_at_snoc, <- app_assoc. done. }
  apply submseteq_length, NoDup_submseteq.
  - apply (sorted_nodup g). apply (StronglySorted_app_1_l _ _ aft). by rewrite <- app_assoc.
  - intros y Hy. apply elem_of_app in Hy as [Hy|Hy]; [|set_solver].
    assert (Hyx : node_lt g' y x) by (eapply node_lt_grows; [exact Hg|]; eapply (StronglySorted_app_1_elem_of _ _ _ _ _ Hs); [done|by left]).
    assert (Hy' : y ∈ lv g' 0%nat) by (apply Hg; rewrite El; set_solver). rewrite El' in Hy'.
    apply elem_of_app in Hy' as [Hy'|Hy']; [set_solver|]. apply elem_of_cons in Hy' as [->|Hy']; [by apply node_lt_irrefl in Hyx|].
    exfalso. apply (node_lt_irrefl g' y). eapply (node_lt_trans B); [done|exact Hyx|].
    apply StronglySorted_app_1_r in Hs'. inversion Hs' as [|? ? _ Hall]; subst. rewrite Forall_forall in Hall. by apply Hall.
Qed.

Lemma rank_next B g i bef x aft n : wf B g -> (i < levels)%nat -> lv g i = bef ++ x :: aft -> rank g (node_at g bef) n -> exists n', rank g x n' /\ (n < n')%nat.
Proof.
  intros Hwf Hi El (b0 & a0 & E0 & Ex & <-). assert (H0 : (0 < levels)%nat) by (unfold levels; lia).
  assert (Hx : x ∈ lv g 0%nat) by (eapply level_in_0; [done|exact Hi|rewrite El; set_solver]). apply list_elem_of_split in Hx as (b1 & a1 & E1).
  exists (length (b1 ++ [x])). split; [exists (b1 ++ [x]), a1; by rewrite node_at_snoc, <- app_assoc|]. rewrite length_app. cbn.
  enough (Hle : (length b0 <= length b1)%nat) by lia. pose proof (wf_sorted B g Hwf 0 H0) as Hs. apply submseteq_length, NoDup_submseteq.
  { apply (sorted_nodup g). apply (StronglySorted_app_1_l _ _ a0). by rewrite <- E0. }
  intros y Hy. destruct b0 as [|z b0 _] using rev_ind; [set_solver|]. rewrite node_at_snoc in Ex.
  assert (Hzx : node_lt g z x).
  { destruct bef as [|z' bef _] using rev_ind.
    - exfalso. unfold node_at in Ex. cbn in Ex. subst z. destruct (level_key B g 0 (ghead g) Hwf H0) as (? & _ & ? & _); [rewrite E0; set_solver|done].
    - rewrite node_at_snoc in Ex. subst z'. pose proof (wf_sorted B g Hwf i Hi) as Hsi. rewrite El in Hsi.
      eapply (StronglySorted_app_1_elem_of _ _ _ _ _ Hsi); [set_solver|by left]. }
  assert (Hyx : node_lt g y x).
  { apply elem_of_app in Hy as [Hy|Hy]; [|apply list_elem_of_singleton in Hy; by subst y]. eapply (node_lt_trans B); [done| |exact Hzx].
    rewrite E0, <- app_assoc in Hs. eapply (StronglySorted_app_1_elem_of _ _ _ _ _ Hs); [done|by left]. }
  assert (Hy' : y ∈ lv g 0%nat) by (rewrite E0; set_solver). rewrite E1 in Hy', Hs. apply elem_of_app in Hy' as [Hy'|Hy']; [done|]. exfalso.
  apply elem_of_cons in Hy' as [->|Hy']; [by apply node_lt_irrefl in Hyx|]. apply (node_lt_irrefl g y). eapply (node_lt_trans B); [done|exact Hyx|].
  apply StronglySorted_app_1_r in Hs. inversion Hs as [|? ? _ Hall]; subst. rewrite Forall_forall in Hall. by apply Hall.
Qed.

End invariant.
Arguments hist Key : clear implicits.

(** * The operations of LevelDB's skip list: what a search finds while the list grows, and
    what an insertion adds.  A reader may run at any time, the writer on its own. *)

(** * Chains *)

Lemma default_last {A} (q : A) p l : default p (last (q :: l)) = default q (last l).
Proof. rewrite last_cons. by destruct (last l). Qed.

Lemma chain_cut next p bef aft : chain next p (bef ++ aft) -> next (default p (last bef)) = Some (default NULL (head aft)).
Proof.
  revert p. induction bef as [|q bef IH]; intros p; [by destruct aft as [|a aft]; [|intros (? & _)]|].
  rewrite default_last. intros (_ & _ & Hc). by apply IH.
Qed.

Lemma list_chain_ext next next' p l : (forall q, q = p \/ q ∈ l -> next' q = next q) -> chain next p l -> chain next' p l.
Proof.
  revert p. induction l as [|q l IH]; intros p Hn; cbn.
  - intros <-. apply Hn. by left.
  - intros (H1 & H2 & H3). rewrite Hn by (by left). split; [done|]. split; [done|]. apply IH; [|done]. intros q' Hq'. apply Hn. set_solver.
Qed.

Lemma chain_insert next next' p bef aft x :
  chain next p (bef ++ aft) -> next' (default p (last bef)) = Some x -> x <> NULL -> next' x = Some (default NULL (head aft)) ->
  (forall q, q <> x -> q <> default p (last bef) -> next' q = next q) ->
  NoDup (p :: bef ++ aft) -> x ∉ p :: bef ++ aft -> chain next' p (bef ++ x :: aft).
Proof.
  intros Hc Hp Hx Hnx Hq. revert p Hc Hp Hq. induction bef as [|q bef IH]; intros p Hc Hp Hq Hnd Hnin.
  - cbn in *. split; [done|]. split; [done|]. destruct aft as [|a aft]; [done|]. cbn in *. destruct Hc as (_ & Ha & Hc).
    split; [done|]. split; [done|]. eapply list_chain_ext; [|exact Hc]. inversion Hnd; subst. intros y Hy. apply Hq; set_solver.
  - rewrite default_last in Hp, Hq. cbn in Hc |- *. destruct Hc as (H1 & H2 & H3). inversion Hnd; subst.
    rewrite (Hq p).
    + split; [done|]. split; [done|]. apply IH; try done. set_solver.
    + set_solver.
    + destruct (last bef) as [y|] eqn:Ey; cbn; [|set_solver]. apply last_Some_elem_of in Ey. set_solver.
Qed.

Section operations.
Context {Key : Type} {compare : Key -> Key -> option Z} `{!KeyOrder compare}.

(** * Atomic accesses *)

Lemma list_next_ok B g l w i bef aft : inv B g l w -> (i < levels)%nat -> lv g i = bef ++ aft ->
  Next (node_at g bef) (Z.of_nat i) l w = Ok (next_of aft) l w.
Proof.
  intros [Hwf Hs] Hi El. pose proof (so_chain g l w Hs i Hi) as Hc. rewrite El in Hc. apply chain_cut in Hc.
  unfold Next. rewrite (proj2 (Z.leb_le _ _)) by lia. cbn. unfold link in Hc. unfold node_at.
  destruct (nodes l !! default (ghead g) (last bef)) as [n|]; [|done]. cbn in *. rewrite Nat2Z.id. by rewrite Hc.
Qed.

Lemma key_of_ok B g l w p k : inv B g l w -> gkey g !! p = Some k -> key_of p l w = Ok k l w.
Proof. intros [Hwf Hs] Ek. destruct (so_key g l w Hs p k Ek) as (n & En & <-). unfold key_of. cbn. by rewrite En. Qed.

(** * Searches *)

Section search.
Context {H : History (hist Key)} (Hsub : forall g g' : hist Key, later g g' -> grows g g').
Variable B : nat.
Notation sees := (@reads (SkipList Key) (hist Key) H (inv B)).

Lemma compare_node_ok p t k g : gkey g !! p = Some k -> key_ok t ->
  sees (compare_node compare p t) (fun g1 c => (c ?= 0) = key_cmp k t) g.
Proof.
  intros Ek Ht g1 l w Hg1 HI. assert (Ek1 : gkey g1 !! p = Some k) by (apply Hsub in Hg1 as (_ & Hk & _); by eapply lookup_weaken).
  exists k. split; [by eapply key_of_ok|]. intros g2 l2 w2 _ HI2. destruct HI as [Hwf _].
  destruct (key_compare_ok k t) as (c & -> & Hc); [by eapply wf_node|done|]. by exists c.
Qed.

(** What the comparison with a node says. *)
Definition after_spec (t : option Key) (p : Z) (g : hist Key) (b : bool) : Prop :=
  if b then p <> NULL /\ below g t p else p = NULL \/ above g t p.

Lemma key_is_after_ok p t g : (p = NULL \/ p <> NULL /\ is_Some (gkey g !! p)) -> key_ok t ->
  sees (KeyIsAfterNode compare t p) (fun _ => after_spec (Some t) p g) g.
Proof.
  intros Hp Ht. unfold KeyIsAfterNode. destruct (Z.eqb_spec p NULL) as [->|Hn]; [by left|]. destruct Hp as [?|[_ [k Ek]]]; [done|].
  eapply prog_reads_bind; [by apply compare_node_ok|]. intros g1 c Hg1 Hc. cbn.
  destruct (Z.ltb_spec c 0) as [Hlt|Hge]; cbn.
  - split; [done|]. exists k. split; [done|]. cbn. rewrite <- Hc. by apply Z.compare_lt_iff.
  - right. exists k. split; [done|]. cbn. rewrite <- Hc. by apply Z.compare_ge_iff.
Qed.

(** The node behind a cut of a level. *)
Lemma next_of_spec g i bef aft : wf B g -> (i < levels)%nat -> lv g i = bef ++ aft ->
  next_of aft = NULL /\ aft = [] \/ exists aft', aft = next_of aft :: aft' /\ next_of aft <> NULL /\ is_Some (gkey g !! next_of aft).
Proof.
  intros Hwf Hi El. destruct aft as [|a aft]; [by left|]. right. exists aft. cbn.
  destruct (level_key B g i a Hwf Hi) as (k & Ek & _ & Hn & _); [rewrite El; set_solver|]. by rewrite Ek.
Qed.

(** The results of a search: what holds at some moment of it. *)
Definition during (P : hist Key -> Prop) (g0 g : hist Key) : Prop := exists gm, later g0 gm /\ later gm g /\ P gm.

Lemma during_later P g0 g g' : later g g' -> during P g0 g -> during P g0 g'.
Proof. intros Hg (gm & ? & ? & ?). exists gm. repeat split; try done. by trans g. Qed.

(** What the array [prev] holds on the levels from [lo] on, if it is asked for. *)
Definition prev_ok (want : bool) (t : option Key) (g0 g : hist Key) (lo top : nat) (prev : option (list (option Z))) : Prop :=
  match want, prev with
  | false, None => True
  | true, Some l => (length l = levels)%nat /\
      forall j, (lo <= j < top)%nat -> exists p gj, l !! j = Some (Some p) /\ later g0 gj /\ later gj g /\ last_before gj t j p
  | _, _ => False
  end.

Lemma prev_ok_later want t g0 g g' lo top prev : later g g' -> prev_ok want t g0 g lo top prev -> prev_ok want t g0 g' lo top prev.
Proof.
  intros Hg. destruct want, prev as [l|]; try done. intros [Hl Hj]. split; [done|]. intros j Hij. destruct (Hj j Hij) as (p & gj & ? & ? & ? & ?).
  exists p, gj. repeat split; try done. by trans g.
Qed.

Lemma prev_ok_store want t g0 g i top prev x gj : (i < levels)%nat -> later g0 gj -> later gj g -> last_before gj t i x ->
  prev_ok want t g0 g (S i) top prev -> prev_ok want t g0 g i top (option_map (fun l => <[i := Some x]> l) prev).
Proof.
  intros Hi Hg0 Hg Hx. destruct want, prev as [l|]; try done. intros [Hl Hj]. cbn. split; [by rewrite length_insert|]. intros j Hij.
  destruct (decide (j = i)) as [->|Hne].
  - exists x, gj. rewrite list_lookup_insert_eq by lia. done.
  - rewrite list_lookup_insert_ne by done. apply Hj. lia.
Qed.

(** The state of a search with the fuel that it needs. *)
Record at_level (t : option Key) (fuel : nat) (g : hist Key) (x : Z) (i : nat) : Prop := {
  al_wf : wf B g;
  al_level : (i < levels)%nat;
  al_pos : pos g t i x;
  al_fuel : exists n, rank g x n /\ (B + i < fuel + n)%nat;
}.

Lemma at_level_later t fuel g g' x i : later g g' -> wf B g' -> target_ok t -> at_level t fuel g x i -> at_level t fuel g' x i.
Proof.
  intros Hg Hwf' Ht [Hwf Hi Hp (n & Hn & Hf)]. apply Hsub in Hg. split; [done|done|by eapply pos_grows|].
  destruct (rank_grows B g g' x n Hwf Hwf' Hg Hn) as (n' & Hn' & Hle). exists n'. split; [done|lia].
Qed.

Lemma at_level_fuel t fuel g x i : at_level t fuel g x i -> (0 < fuel)%nat.
Proof.
  intros [Hwf Hi Hp (n & (bef & aft & El & _ & <-) & Hf)]. pose proof (wf_bound B g Hwf) as Hb. rewrite El, length_app in Hb. lia.
Qed.

Lemma at_level_next t fuel g i bef q aft : wf B g -> (i < levels)%nat -> target_ok t -> lv g i = bef ++ q :: aft -> below g t q ->
  at_level t (S fuel) g (node_at g bef) i -> at_level t fuel g q i.
Proof.
  intros Hwf Hi Ht El Hq [_ _ Hp (n & Hn & Hf)]. split; [done|done| |].
  - eapply pos_intro; [done..|]. right. split; [rewrite El; set_solver|done].
  - destruct (rank_next B g i bef q aft n Hwf Hi El Hn) as (n' & Hn' & Hlt). exists n'. split; [done|lia].
Qed.

Lemma at_level_down t fuel g x i : target_ok t -> at_level t (S fuel) g x (S i) -> at_level t fuel g x i.
Proof.
  intros Ht [Hwf Hi Hp (n & Hn & Hf)]. split; [done|lia|by eapply pos_down|]. exists n. split; [done|lia].
Qed.

(** One step of any of the searches: the cut that the node is at, and its successor. *)
Lemma at_level_cut t fuel g x i : at_level t fuel g x i -> exists bef aft, lv g i = bef ++ aft /\ x = node_at g bef /\ Forall (below g t) bef.
Proof. by intros [_ _ Hp _]. Qed.

Lemma first_from_cut g t bef aft : wf B g -> target_ok t -> lv g 0%nat = bef ++ aft -> Forall (below g t) bef ->
  (next_of aft = NULL \/ above g t (next_of aft)) -> first_from g t (next_of aft).
Proof.
  intros Hwf Ht El Hb Hn. assert (H0 : (0 < levels)%nat) by (unfold levels; lia). exists bef, aft. do 3 (split; [done|]).
  destruct (next_of_spec g 0 bef aft Hwf H0 El) as [[_ ->]|(aft' & Ea & Hne & _)]; [done|]. destruct Hn as [?|Hn]; [done|].
  rewrite Ea. eapply sorted_after; [done|exact H0|done|by rewrite <- Ea|done].
Qed.

Lemma last_before_cut g t i bef aft : wf B g -> (i < levels)%nat -> target_ok t -> lv g i = bef ++ aft -> Forall (below g t) bef ->
  (next_of aft = NULL \/ above g t (next_of aft)) -> last_before g t i (node_at g bef).
Proof.
  intros Hwf Hi Ht El Hb Hn. exists bef, aft. do 3 (split; [done|]).
  destruct (next_of_spec g i bef aft Hwf Hi El) as [[_ ->]|(aft' & Ea & Hne & _)]; [done|]. destruct Hn as [?|Hn]; [done|].
  rewrite Ea. eapply sorted_after; [done|exact Hi|done|by rewrite <- Ea|done].
Qed.

Lemma fge_step_ok want t top g0 g fuel x i prev : key_ok t ->
  during (fun gm => at_level (Some t) (S fuel) gm x i) g0 g -> prev_ok want (Some t) g0 g (S i) top prev ->
  sees (fge_step compare t (x, Z.of_nat i, prev))
    (fun g1 r => match r with
       | inl (x', level, prev') => exists i', level = Z.of_nat i' /\ during (fun gm => at_level (Some t) fuel gm x' i') g0 g1 /\ prev_ok want (Some t) g0 g1 (S i') top prev'
       | inr (r, prev') => during (fun gm => wf B gm /\ first_from gm (Some t) r) g0 g1 /\ prev_ok want (Some t) g0 g1 0 top prev'
       end) g.
Proof.
  intros Ht (gm & Hg0 & Hgm & Hal) Hprev g1 l w Hg1 HI. pose proof HI as [Hwf1 _]. apply (at_level_later _ _ gm g1) in Hal; [|by trans g|done..].
  apply (prev_ok_later _ _ _ g g1) in Hprev; [|done]. assert (Hg01 : later g0 g1) by (trans gm; [done|by trans g]). clear Hg0 Hgm Hg1 g.
  pose proof (al_level _ _ _ _ _ Hal) as Hi. destruct (at_level_cut _ _ _ _ _ Hal) as (bef & aft & El & -> & Hb).
  exists (next_of aft). split; [by eapply list_next_ok|]. cbn [pbind].
  pose proof (next_of_spec g1 i bef aft Hwf1 Hi El) as Hnext.
  eapply prog_reads_bind; [apply key_is_after_ok; [|done]; destruct Hnext as [[? _]|(? & _ & ? & ?)]; by auto|].
  intros g2 [|] Hg2 Hafter; cbn [after_spec] in Hafter.
  - destruct Hafter as [Hne Hbelow]. exists i. split; [done|]. split; [|eapply prev_ok_later; [done|exact Hprev]].
    exists g1. split; [done|]. split; [done|]. destruct Hnext as [[? _]|(aft' & Ea & _)]; [done|].
    eapply at_level_next; [done|done|done| |exact Hbelow|exact Hal]. by rewrite <- Ea.
  - assert (Hp2 : prev_ok want (Some t) g0 g2 i top (option_map (fun l0 => <[Z.to_nat (Z.of_nat i) := Some (node_at g1 bef)]> l0) prev)).
    { rewrite Nat2Z.id. eapply prev_ok_store; [done|exact Hg01|done| |by eapply prev_ok_later]. by eapply last_before_cut. }
    destruct (Z.eqb_spec (Z.of_nat i) 0) as [E|Hne].
    + replace i with 0%nat in * by lia. cbn. split; [|done]. exists g1. split; [done|]. split; [done|]. split; [done|by eapply first_from_cut].
    + destruct i as [|i]; [done|]. exists i. split; [lia|]. split; [|done]. exists g1. split; [done|]. split; [done|]. by apply at_level_down.
Qed.

Lemma fge_loop_ok want t top g0 fuel : key_ok t -> forall g x i prev,
  during (fun gm => at_level (Some t) fuel gm x i) g0 g -> prev_ok want (Some t) g0 g (S i) top prev ->
  sees (ploop fuel (fge_step compare t) (x, Z.of_nat i, prev))
    (fun g1 r => during (fun gm => wf B gm /\ first_from gm (Some t) r.1) g0 g1 /\ prev_ok want (Some t) g0 g1 0 top r.2) g.
Proof.
  intros Ht. induction fuel as [|fuel IH]; intros g x i prev Hal Hprev.
  { destruct Hal as (gm & _ & _ & Hal). apply at_level_fuel in Hal. lia. }
  cbn [ploop]. eapply prog_reads_bind; [by eapply fge_step_ok|]. intros g1 [[[x' level] prev']|[r prev']] Hg1; cbn [reads fst snd].
  - intros (i' & -> & Hal' & Hp'). by apply IH.
  - done.
Qed.

(** [FindGreaterOrEqual] finds the first node that is not before the key, in the list as it
    is at some moment of the search; for the writer, the last node before it per level. *)
Lemma find_ge_ok want t fuel prev g : key_ok t -> (B + levels <= fuel)%nat ->
  match want, prev with false, None => True | true, Some l => (length l = levels)%nat | _, _ => False end ->
  sees (FindGreaterOrEqual compare fuel t prev)
    (fun g1 r => during (fun gm => wf B gm /\ first_from gm (Some t) r.1) g g1 /\ exists top, Z.of_nat top <= gheight g1 /\ gheight g <= Z.of_nat top /\ prev_ok want (Some t) g g1 0 top r.2) g.
Proof.
  intros Ht Hfuel Hshape g1 l w Hg1 [Hwf1 Hs1]. exists (ghead g1). split; [cbn; by rewrite (proj1 (so_head _ _ _ Hs1))|]. clear l w Hs1.
  intros g2 l w Hg2 [Hwf2 Hs2]. destruct (so_height _ _ _ Hs2) as [Eh Hh]. exists (gheight g2). split; [cbn; by rewrite Eh|]. cbn [pbind].
  replace (gheight g2 - 1) with (Z.of_nat (Z.to_nat (gheight g2) - 1)) by lia.
  assert (Hg12 : later g g2) by (by trans g1). assert (Hhead : ghead g2 = ghead g1) by (by apply Hsub in Hg2 as (_ & _ & -> & _)).
  eapply reads_mono; [eapply (fge_loop_ok want t (Z.to_nat (gheight g2)) g); [done| |]|].
  - exists g2. split; [done|]. split; [done|]. split; [done|unfold levels; lia| |].
    + exists [], (lv g2 (Z.to_nat (gheight g2) - 1)%nat). unfold node_at. cbn. by rewrite Hhead.
    + exists 0%nat. split; [exists [], (lv g2 0%nat); unfold node_at; cbn; by rewrite Hhead|]. unfold levels in *. lia.
  - destruct want, prev as [l0|]; try done. split; [done|]. intros j Hj. lia.
  - intros g3 r Hg3 [Hr Hp]. split; [done|]. exists (Z.to_nat (gheight g2)). apply Hsub in Hg3 as (_ & _ & _ & ? & _), Hg12 as (_ & _ & _ & ? & _).
    split; [lia|]. split; [lia|done].
Qed.

Lemma flt_before_ok t g x i fuel : key_ok t -> at_level (Some t) fuel g x i ->
  sees (if x =? ghead g then Ret true else pbind (compare_node compare x t) (fun c => Ret (c <? 0))) (fun _ b => b = true) g.
Proof.
  intros Ht [Hwf Hi Hp _]. destruct (Z.eqb_spec x (ghead g)) as [->|Hne]; [done|].
  destruct (pos_elim _ _ _ _ Hp) as [?|[Hx (k & Ek & Hk)]]; [done|]. eapply prog_reads_bind; [by apply compare_node_ok|].
  intros g1 c _ Hc. cbn in *. rewrite Hk in Hc. apply Z.ltb_lt. by apply Z.compare_lt_iff.
Qed.

Lemma flt_stop_ok t g p : (p = NULL \/ p <> NULL /\ is_Some (gkey g !! p)) -> key_ok t ->
  sees (if p =? NULL then Ret true else pbind (compare_node compare p t) (fun c => Ret (0 <=? c))) (fun _ b => after_spec (Some t) p g (negb b)) g.
Proof.
  intros Hp Ht. destruct (Z.eqb_spec p NULL) as [->|Hn]; [by left|]. destruct Hp as [?|[_ [k Ek]]]; [done|].
  eapply prog_reads_bind; [by apply compare_node_ok|]. intros g1 c Hg1 Hc. cbn. destruct (Z.leb_spec 0 c) as [Hge|Hlt]; cbn.
  - right. exists k. split; [done|]. cbn. rewrite <- Hc. by apply Z.compare_ge_iff.
  - split; [done|]. exists k. split; [done|]. cbn. rewrite <- Hc. by apply Z.compare_lt_iff.
Qed.

(** What a step down or along leads to, in the searches that do not keep [prev]. *)
Definition walk_spec (t : option Key) (fuel : nat) (g0 g : hist Key) (r : Z * Z + Z) : Prop :=
  match r with
  | inl (x', level) => exists i', level = Z.of_nat i' /\ during (fun gm => at_level t fuel gm x' i') g0 g
  | inr r => during (fun gm => wf B gm /\ last_before gm t 0 r) g0 g
  end.

Lemma walk_down t fuel g0 g1 g2 i bef aft : target_ok t -> later g0 g1 -> later g1 g2 -> at_level t (S fuel) g1 (node_at g1 bef) i ->
  lv g1 i = bef ++ aft -> Forall (below g1 t) bef -> (next_of aft = NULL \/ above g1 t (next_of aft)) ->
  walk_spec t fuel g0 g2 (if Z.of_nat i =? 0 then inr (node_at g1 bef) else inl (node_at g1 bef, Z.of_nat i - 1)).
Proof.
  intros Ht Hg01 Hg2 Hal El Hb Hn. pose proof (al_wf _ _ _ _ _ Hal) as Hwf. pose proof (al_level _ _ _ _ _ Hal) as Hi.
  destruct (Z.eqb_spec (Z.of_nat i) 0) as [E|Hne]; cbn [walk_spec].
  - replace i with 0%nat in * by lia. exists g1. split; [done|]. split; [done|]. split; [done|by eapply last_before_cut].
  - destruct i as [|i]; [done|]. exists i. split; [lia|]. exists g1. split; [done|]. split; [done|]. by apply at_level_down.
Qed.

Lemma walk_along t fuel g0 g1 g2 i bef aft : target_ok t -> later g0 g1 -> later g1 g2 -> at_level t (S fuel) g1 (node_at g1 bef) i ->
  lv g1 i = bef ++ aft -> next_of aft <> NULL -> below g1 t (next_of aft) -> walk_spec t fuel g0 g2 (inl (next_of aft, Z.of_nat i)).
Proof.
  intros Ht Hg01 Hg2 Hal El Hn Hb. pose proof (al_wf _ _ _ _ _ Hal) as Hwf. pose proof (al_level _ _ _ _ _ Hal) as Hi.
  exists i. split; [done|]. exists g1. split; [done|]. split; [done|].
  destruct (next_of_spec g1 i bef aft Hwf Hi El) as [[? _]|(aft' & Ea & _)]; [done|].
  eapply at_level_next; [done|done|done| |exact Hb|exact Hal]. by rewrite <- Ea.
Qed.

Lemma flt_step_ok t g0 g fuel x i : key_ok t -> during (fun gm => at_level (Some t) (S fuel) gm x i) g0 g ->
  sees (flt_step compare (ghead g) t (x, Z.of_nat i)) (walk_spec (Some t) fuel g0) g.
Proof.
  intros Ht (gm & Hg0 & Hgm & Hal). assert (Hh : ghead g = ghead gm) by (by apply Hsub in Hgm as (_ & _ & -> & _)).
  unfold flt_step. rewrite Hh. eapply prog_reads_bind.
  { eapply reads_later; [exact Hgm|by eapply flt_before_ok|done]. }
  intros g1 b Hg1 ->. cbn [pbind]. intros g2 l w Hg2 HI. exists tt. split; [done|]. clear l w HI.
  intros g3 l w Hg3 HI. pose proof HI as [Hwf3 _].
  assert (Hgm3 : later gm g3) by (trans g; [done|trans g1; [done|by trans g2]]). assert (Hg03 : later g0 g3) by (by trans gm).
  apply (at_level_later _ _ gm g3) in Hal; [|done..]. pose proof (al_level _ _ _ _ _ Hal) as Hi.
  destruct (at_level_cut _ _ _ _ _ Hal) as (bef & aft & El & -> & Hb). exists (next_of aft). split; [by eapply list_next_ok|]. cbn [pbind].
  eapply prog_reads_bind; [apply flt_stop_ok; [|done]|].
  { destruct (next_of_spec g3 i bef aft Hwf3 Hi El) as [[? _]|(? & _ & ? & ?)]; by auto. }
  intros g4 [|] Hg4 Hafter; cbn [negb after_spec] in Hafter.
  - pose proof (walk_down (Some t) fuel g0 g3 g4 i bef aft Ht Hg03 Hg4 Hal El Hb Hafter) as Hw. by destruct (Z.of_nat i =? 0).
  - destruct Hafter as [Hne Hbelow]. by eapply (walk_along (Some t)).
Qed.

Lemma last_step_ok g0 g fuel x i : during (fun gm => at_level None (S fuel) gm x i) g0 g ->
  sees (last_step (x, Z.of_nat i)) (walk_spec None fuel g0) g.
Proof.
  intros (gm & Hg0 & Hgm & Hal) g3 l w Hg3 HI. pose proof HI as [Hwf3 _].
  assert (Hgm3 : later gm g3) by (by trans g). assert (Hg03 : later g0 g3) by (by trans gm).
  apply (at_level_later _ _ gm g3) in Hal; [|done..]. pose proof (al_level _ _ _ _ _ Hal) as Hi.
  destruct (at_level_cut _ _ _ _ _ Hal) as (bef & aft & El & -> & Hb). exists (next_of aft). split; [by eapply list_next_ok|]. cbn [pbind].
  destruct (Z.eqb_spec (next_of aft) NULL) as [En|Hn].
  - pose proof (walk_down None fuel g0 g3 g3 i bef aft I Hg03 (reflexivity g3) Hal El Hb (or_introl En)) as Hw. by destruct (Z.of_nat i =? 0).
  - eapply (walk_along None); try done. destruct (next_of_spec g3 i bef aft Hwf3 Hi El) as [[? _]|(? & _ & _ & k & Ek)]; [done|]. by exists k.
Qed.

Lemma walk_loop_ok t g0 h (body : Z * Z -> prog (SkipList Key) (Z * Z + Z)) :
  (forall g fuel x i, ghead g = h -> during (fun gm => at_level t (S fuel) gm x i) g0 g -> sees (body (x, Z.of_nat i)) (walk_spec t fuel g0) g) ->
  forall fuel g x i, ghead g = h -> during (fun gm => at_level t fuel gm x i) g0 g ->
  sees (ploop fuel body (x, Z.of_nat i)) (fun g1 r => during (fun gm => wf B gm /\ last_before gm t 0 r) g0 g1) g.
Proof.
  intros Hbody. induction fuel as [|fuel IH]; intros g x i Hh Hal.
  { destruct Hal as (gm & _ & _ & Hal). apply at_level_fuel in Hal. lia. }
  cbn [ploop]. eapply prog_reads_bind; [by eapply Hbody|]. intros g1 [[x' level]|r] Hg1; cbn [walk_spec reads]; [|done].
  intros (i' & -> & Hal'). apply IH; [|done]. apply Hsub in Hg1 as (_ & _ & -> & _). done.
Qed.

(** The start of a search. *)
Lemma search_start {A} t fuel (k : Z -> Z -> prog (SkipList Key) A) (Q : hist Key -> A -> Prop) g : target_ok t -> (B + levels <= fuel)%nat ->
  (forall g1 i, later g g1 -> during (fun gm => at_level t fuel gm (ghead g1) i) g g1 -> sees (k (ghead g1) (Z.of_nat i)) Q g1) ->
  sees (pbind (act GetHead) (fun x => pbind (act GetMaxHeight) (fun level => k x (level - 1)))) Q g.
Proof.
  intros Ht Hfuel Hk g1 l w Hg1 [Hwf1 Hs1]. exists (ghead g1). split; [cbn; by rewrite (proj1 (so_head _ _ _ Hs1))|]. clear l w Hs1.
  intros g2 l w Hg2 [Hwf2 Hs2]. destruct (so_height _ _ _ Hs2) as [Eh Hh]. exists (gheight g2). split; [cbn; by rewrite Eh|]. cbn [pbind].
  replace (gheight g2 - 1) with (Z.of_nat (Z.to_nat (gheight g2) - 1)) by lia.
  assert (Hhead : ghead g2 = ghead g1) by (by apply Hsub in Hg2 as (_ & _ & -> & _)). rewrite <- Hhead.
  assert (Hg12 : later g g2) by (by trans g1). apply Hk; [done|]. exists g2. split; [done|]. split; [done|]. split; [done|unfold levels; lia| |].
  - by exists [], (lv g2 (Z.to_nat (gheight g2) - 1)%nat).
  - exists 0%nat. split; [by exists [], (lv g2 0%nat)|]. unfold levels in *. lia.
Qed.

Lemma find_less_ok t fuel g : key_ok t -> (B + levels <= fuel)%nat ->
  sees (FindLessThan compare fuel t) (fun g1 r => during (fun gm => wf B gm /\ last_before gm (Some t) 0 r) g g1) g.
Proof.
  intros Ht Hfuel. unfold FindLessThan. apply (search_start (Some t) fuel (fun x level => ploop fuel (flt_step compare x t) (x, level))); [done..|].
  intros g1 i Hg1 Hal. eapply (walk_loop_ok (Some t) g (ghead g1)); [|done|done].
  intros g2 fuel2 x i2 <- Hal2. by apply flt_step_ok.
Qed.

Lemma find_last_ok fuel g : (B + levels <= fuel)%nat -> sees (FindLast fuel) (fun g1 r => during (fun gm => wf B gm /\ last_before gm None 0 r) g g1) g.
Proof.
  intros Hfuel. unfold FindLast. apply (search_start None fuel (fun x level => ploop fuel last_step (x, level))); [done..|].
  intros g1 i Hg1 Hal. eapply (walk_loop_ok None g (ghead g1)); [|done|done].
  intros g2 fuel2 x i2 _ Hal2. by apply last_step_ok.
Qed.

(** ** Iterators *)

(** The node of a key, or none. *)
Definition node_is (g : hist Key) (p : Z) (o : option Key) : Prop :=
  match o with None => p = NULL | Some k => p ∈ lv g 0%nat /\ gkey g !! p = Some k /\ p <> NULL /\ key_ok k end.

(** The least and the greatest key of a set with a property. *)
Definition least (P : Key -> Prop) (K : list Key) (o : option Key) : Prop :=
  match o with
  | None => forall k, k ∈ K -> ~ P k
  | Some k => k ∈ K /\ P k /\ forall k', k' ∈ K -> P k' -> key_cmp k k' <> Gt
  end.

Definition greatest (P : Key -> Prop) (K : list Key) (o : option Key) : Prop :=
  match o with
  | None => forall k, k ∈ K -> ~ P k
  | Some k => k ∈ K /\ P k /\ forall k', k' ∈ K -> P k' -> key_cmp k' k <> Gt
  end.

Lemma node_is_grows g g' p o : grows g g' -> node_is g p o -> node_is g' p o.
Proof. intros (Hl & Hk & _). destruct o as [k|]; [|done]. intros (Hp & Ek & ?). split; [by apply Hl|]. split; [by eapply lookup_weaken|done]. Qed.

Lemma key_in g k : wf B g -> k ∈ inserted g <-> exists p, p ∈ lv g 0%nat /\ gkey g !! p = Some k.
Proof. intros Hwf. rewrite <- (wf_perm B g Hwf), list_elem_of_omap. done. Qed.

Lemma sorted_le g bef p aft q : wf B g -> lv g 0%nat = bef ++ p :: aft -> q ∈ p :: aft ->
  forall k k', gkey g !! p = Some k -> gkey g !! q = Some k' -> key_cmp k k' <> Gt.
Proof.
  intros Hwf El Hq k k' Ek Ek'. apply elem_of_cons in Hq as [->|Hq]; [rewrite Ek in Ek'; injection Ek' as ->; by rewrite cmp_refl|].
  pose proof (wf_sorted B g Hwf 0 ltac:(unfold levels; lia)) as Hs. rewrite El in Hs. apply StronglySorted_app_1_r in Hs.
  inversion Hs as [|? ? _ Hall]; subst. rewrite Forall_forall in Hall. destruct (Hall q Hq) as (k2 & E2 & (k1 & E1 & Hlt)).
  rewrite Ek in E1. rewrite Ek' in E2. injection E1 as <-. injection E2 as <-. cbn in Hlt. by rewrite Hlt.
Qed.

(** A cut of the list where a property begins. *)
Lemma cut_least (P : Key -> Prop) g bef aft : wf B g -> lv g 0%nat = bef ++ aft ->
  (forall p k, p ∈ bef -> gkey g !! p = Some k -> ~ P k) -> (forall p k, p ∈ aft -> gkey g !! p = Some k -> P k) ->
  exists o, node_is g (next_of aft) o /\ least P (inserted g) o.
Proof.
  intros Hwf El Hb Ha. destruct aft as [|p aft].
  - exists None. split; [done|]. intros k Hk. apply (key_in g k Hwf) in Hk as (p & Hp & Ek). rewrite El, app_nil_r in Hp. by eapply Hb.
  - destruct (level_key B g 0 p Hwf) as (k & Ek & _ & Hne & Hok); [unfold levels; lia|rewrite El; set_solver|]. exists (Some k). split; [|split; [|split]].
    + split; [rewrite El; set_solver|done].
    + apply (key_in g k Hwf). exists p. split; [rewrite El; set_solver|done].
    + apply (Ha p); [by left|done].
    + intros k' Hk' HP. apply (key_in g k' Hwf) in Hk' as (q & Hq & Ek'). rewrite El in Hq. apply elem_of_app in Hq as [Hq|Hq].
      * exfalso. by eapply Hb.
      * by eapply sorted_le.
Qed.

Lemma cut_greatest (P : Key -> Prop) g bef aft : wf B g -> lv g 0%nat = bef ++ aft ->
  (forall p k, p ∈ bef -> gkey g !! p = Some k -> P k) -> (forall p k, p ∈ aft -> gkey g !! p = Some k -> ~ P k) ->
  exists o, node_is g (if node_at g bef =? ghead g then NULL else node_at g bef) o /\ greatest P (inserted g) o.
Proof.
  intros Hwf El Hb Ha. destruct bef as [|p bef _] using rev_ind.
  - exists None. unfold node_at. cbn. rewrite Z.eqb_refl. split; [done|]. intros k Hk. apply (key_in g k Hwf) in Hk as (p & Hp & Ek).
    rewrite El in Hp. by eapply Ha.
  - rewrite node_at_snoc. rewrite <- app_assoc in El. cbn in El.
    destruct (level_key B g 0 p Hwf) as (k & Ek & Hne & Hnn & Hok); [unfold levels; lia|rewrite El; set_solver|].
    rewrite (proj2 (Z.eqb_neq _ _)) by done. exists (Some k). split; [|split; [|split]].
    + split; [rewrite El; set_solver|done].
    + apply (key_in g k Hwf). exists p. split; [rewrite El; set_solver|done].
    + apply (Hb p); [set_solver|done].
    + intros k' Hk' HP. apply (key_in g k' Hwf) in Hk' as (q & Hq & Ek'). rewrite El in Hq. apply elem_of_app in Hq as [Hq|Hq].
      * apply list_elem_of_split in Hq as (b1 & b2 & ->). eapply (sorted_le g b1 q (b2 ++ p :: aft)); [done|by rewrite El, <- app_assoc| |done|done]. set_solver.
      * apply elem_of_cons in Hq as [->|Hq]; [rewrite Ek in Ek'; injection Ek' as ->; by rewrite cmp_refl|]. exfalso. by eapply Ha.
Qed.

(** What a reader finds at some moment of an operation. *)
Definition finds (S : list Key -> option Key -> Prop) (g0 g : hist Key) (p : Z) : Prop :=
  exists o, node_is g p o /\ during (fun gm => wf B gm /\ S (inserted gm) o) g0 g.

Lemma finds_intro S g0 gm g p o : wf B gm -> later g0 gm -> later gm g -> node_is gm p o -> S (inserted gm) o -> finds S g0 g p.
Proof. intros Hwf H1 H2 Hp HS. exists o. split; [by eapply node_is_grows; [apply Hsub|]|]. by exists gm. Qed.

Lemma below_spec g t p k : gkey g !! p = Some k -> below g t p -> before k t.
Proof. intros Ek (k' & Ek' & ?). by rewrite Ek in Ek'; injection Ek' as ->. Qed.

Lemma above_spec g t p k : gkey g !! p = Some k -> above g t p -> ~ before k t.
Proof. intros Ek (k' & Ek' & ?). by rewrite Ek in Ek'; injection Ek' as ->. Qed.

Lemma first_from_finds g0 g t r : during (fun gm => wf B gm /\ first_from gm t r) g0 g -> finds (least (fun k => ~ before k t)) g0 g r.
Proof.
  intros (gm & H1 & H2 & Hwf & bef & aft & El & -> & Hb & Ha). rewrite Forall_forall in Hb, Ha.
  destruct (cut_least (fun k => ~ before k t) gm bef aft Hwf El) as (o & Ho & HS).
  - intros p k Hp Ek Hn. by eapply Hn, below_spec, Hb.
  - intros p k Hp Ek. by eapply above_spec, Ha.
  - by eapply finds_intro.
Qed.

Lemma last_before_finds g0 g t r : during (fun gm => wf B gm /\ last_before gm t 0 r) g0 g ->
  finds (greatest (fun k => before k t)) g0 g (if r =? ghead g then NULL else r).
Proof.
  intros (gm & H1 & H2 & Hwf & bef & aft & El & -> & Hb & Ha). rewrite Forall_forall in Hb, Ha.
  destruct (cut_greatest (fun k => before k t) gm bef aft Hwf El) as (o & Ho & HS).
  - intros p k Hp Ek. by eapply below_spec, Hb.
  - intros p k Hp Ek. by eapply above_spec, Ha.
  - apply Hsub in H2 as H3. destruct H3 as (_ & _ & -> & _). by eapply finds_intro.
Qed.

Lemma get_head g (Q : hist Key -> Z -> Prop) : (forall g1, later g g1 -> wf B g1 -> Q g1 (ghead g1)) -> sees (act GetHead) Q g.
Proof. intros HQ g1 l w Hg1 [Hwf1 Hs1]. exists (ghead g1). split; [cbn; by rewrite (proj1 (so_head _ _ _ Hs1))|]. by apply HQ. Qed.

Lemma seek_ok t fuel g : key_ok t -> (B + levels <= fuel)%nat ->
  sees (iter_Seek compare fuel t) (finds (least (fun k => key_cmp k t <> Lt)) g) g.
Proof.
  intros Ht Hf. unfold iter_Seek. eapply prog_reads_bind; [by apply (find_ge_ok false)|].
  intros g1 [r prev] Hg1 [Hr _]. cbn in *. by apply (first_from_finds g g1 (Some t)).
Qed.

Lemma list_seek_first_ok g : sees iter_SeekToFirst (finds (least (fun _ => True)) g) g.
Proof.
  unfold iter_SeekToFirst. eapply prog_reads_bind; [apply (get_head g (fun g1 p => p = ghead g1)); done|].
  intros g1 p Hg1 -> g2 l w Hg2 HI. pose proof HI as [Hwf _]. exists (next_of (lv g2 0%nat)). split.
  - change (ghead g1) with (node_at g1 []). replace (node_at g1 []) with (node_at g2 []).
    + apply (list_next_ok B g2 l w 0 [] (lv g2 0%nat)); [done|unfold levels; lia|done].
    + unfold node_at. cbn. by apply Hsub in Hg2 as (_ & _ & -> & _).
  - destruct (cut_least (fun _ => True) g2 [] (lv g2 0%nat) Hwf eq_refl) as (o & Ho & HS); [set_solver|done|].
    eapply (finds_intro _ g g2 g2); [done|by trans g1|done|exact Ho|exact HS].
Qed.

Lemma list_seek_last_ok fuel g : (B + levels <= fuel)%nat -> sees (iter_SeekToLast fuel) (finds (greatest (fun _ => True)) g) g.
Proof.
  intros Hf. unfold iter_SeekToLast. eapply prog_reads_bind; [by apply find_last_ok|]. intros g1 r Hg1 Hr.
  eapply prog_reads_bind; [apply (get_head g1 (fun g2 p => p = ghead g2)); done|]. intros g2 p Hg2 ->. cbn [reads].
  eapply (last_before_finds g g2 None). destruct Hr as (gm & ? & ? & ?). exists gm. split; [done|]. split; [by trans g1|done].
Qed.

(** The iterator stands on a node of the list. *)
Lemma valid_ok g p k : node_is g p (Some k) -> Valid p = true /\ key_ok k.
Proof. intros (_ & _ & Hn & Hk). unfold Valid. by rewrite (proj2 (Z.eqb_neq _ _)). Qed.

Lemma assert_act_ok {A} b (p : prog (SkipList Key) A) Q g : b = true -> (forall g1, later g g1 -> wf B g1 -> sees p Q g1) -> sees (pbind (act (assert_ b)) (fun _ => p)) Q g.
Proof. intros -> Hp g1 l w Hg1 [Hwf1 _]. exists tt. split; [done|]. by apply Hp. Qed.

Lemma iter_key_ok p k g : node_is g p (Some k) -> sees (iter_key p) (fun _ k' => k' = k) g.
Proof.
  intros Hp. destruct (valid_ok g p k Hp) as [Hv _]. apply assert_act_ok; [done|]. intros g1 Hg1 _ g2 l w Hg2 HI.
  exists k. split; [|done]. eapply key_of_ok; [done|]. eapply (node_is_grows g g2 p (Some k)) in Hp as (_ & ? & _); [done|]. apply Hsub. by trans g1.
Qed.

Lemma list_iter_next_ok p k g : node_is g p (Some k) -> sees (iter_Next p) (finds (least (fun k' => key_cmp k k' = Lt)) g) g.
Proof.
  intros Hp. destruct (valid_ok g p k Hp) as [Hv Hok]. apply assert_act_ok; [done|]. intros g1 Hg1 _ g2 l w Hg2 HI.
  assert (H02 : later g g2) by (by trans g1). apply (node_is_grows g g2) in Hp; [|by apply Hsub]. destruct Hp as (Hin & Ek & _).
  pose proof HI as [Hwf _]. apply list_elem_of_split in Hin as (bef & aft & El). exists (next_of aft). split.
  - rewrite <- (node_at_snoc g2 bef p). eapply (list_next_ok B g2 l w 0); [done|unfold levels; lia|]. by rewrite <- app_assoc.
  - assert (H0 : (0 < levels)%nat) by (unfold levels; lia). pose proof (wf_sorted B g2 Hwf 0 H0) as Hs. rewrite El in Hs.
    destruct (cut_least (fun k' => key_cmp k k' = Lt) g2 (bef ++ [p]) aft Hwf) as (o & Ho & HS); [by rewrite <- app_assoc| | |by eapply finds_intro].
    + intros q k' Hq Ek' Hlt. apply elem_of_app in Hq as [Hq|Hq].
      * assert (Hqp : node_lt g2 q p) by (eapply (StronglySorted_app_1_elem_of _ _ _ _ _ Hs); [done|by left]).
        destruct Hqp as (k1 & E1 & (k2 & E2 & Hlt2)). rewrite Ek in E1. rewrite Ek' in E2. injection E1 as <-. injection E2 as <-. cbn in Hlt2.
        rewrite key_flip, Hlt in Hlt2. done.
      * apply list_elem_of_singleton in Hq as ->. rewrite Ek in Ek'. injection Ek' as <-. by rewrite cmp_refl in Hlt.
    + intros q k' Hq Ek'. apply StronglySorted_app_1_r in Hs. inversion Hs as [|? ? _ Hall]; subst. rewrite Forall_forall in Hall.
      destruct (Hall q Hq) as (k1 & E1 & (k2 & E2 & Hlt2)). rewrite Ek' in E1. rewrite Ek in E2. injection E1 as <-. by injection E2 as <-.
Qed.

Lemma list_prev_ok p k fuel g : (B + levels <= fuel)%nat -> node_is g p (Some k) ->
  sees (iter_Prev compare fuel p) (finds (greatest (fun k' => key_cmp k' k = Lt)) g) g.
Proof.
  intros Hf Hp. destruct (valid_ok g p k Hp) as [Hv Hok]. apply assert_act_ok; [done|]. intros g1 Hg1 _ g2 l w Hg2 HI.
  assert (H02 : later g g2) by (by trans g1). apply (node_is_grows g g2) in Hp; [|by apply Hsub]. destruct Hp as (Hin & Ek & _).
  exists k. split; [by eapply key_of_ok|]. cbn [pbind]. eapply prog_reads_bind; [by apply find_less_ok|]. intros g3 r Hg3 Hr.
  eapply prog_reads_bind; [apply (get_head g3 (fun g4 p => p = ghead g4)); done|]. intros g4 q Hg4 ->. cbn [reads].
  eapply (last_before_finds g g4 (Some k)). destruct Hr as (gm & ? & ? & ?). exists gm. split; [by trans g2|]. split; [by trans g3|done].
Qed.

Lemma equal_ok g t p k : key_ok t -> node_is g p (Some k) ->
  sees (pbind (act (key_of p)) (fun k => act (Equal compare t k))) (fun _ b => b = true <-> key_cmp k t = Eq) g.
Proof.
  intros Ht Hp g1 l w Hg1 HI. destruct (node_is_grows g g1 p (Some k) (Hsub _ _ Hg1) Hp) as (_ & Ek & _ & Hok).
  exists k. split; [by eapply key_of_ok|]. intros g2 l2 w2 _ _. unfold Equal.
  destruct (key_compare_ok t k Ht Hok) as (c & -> & Hc). exists (c =? 0). split; [done|]. cbn [reads].
  rewrite Z.eqb_eq, <- Z.compare_eq_iff, Hc, (key_flip t k). by destruct (key_cmp t k).
Qed.

Lemma contains_ok t fuel g : key_ok t -> (B + levels <= fuel)%nat ->
  sees (Contains compare fuel t) (fun g1 b => during (fun gm => wf B gm /\ (b = true <-> exists k, k ∈ inserted gm /\ key_cmp k t = Eq)) g g1) g.
Proof.
  intros Ht Hf. unfold Contains. eapply prog_reads_bind; [by apply (find_ge_ok false)|]. intros g1 [r prev] Hg1 [Hr _]. cbn in Hr.
  apply (first_from_finds g g1 (Some t)) in Hr as (o & Ho & gm & H1 & H2 & Hwfm & HS). destruct o as [k|]; cbn in HS.
  - destruct HS as (Hin & Hge & Hmin). pose proof Ho as (_ & _ & Hne & Hok). rewrite (proj2 (Z.eqb_neq _ _)) by done.
    eapply reads_mono; [by eapply equal_ok|]. intros g2 b Hg2 Hb. exists gm. split; [done|]. split; [by trans g1|]. split; [done|]. rewrite Hb.
    split; [by exists k|]. intros (k' & Hin' & Heq). assert (Hok' : key_ok k').
    { apply (key_in gm k' Hwfm) in Hin' as (q & _ & Eq). by apply (wf_node B gm Hwfm) in Eq as (_ & _ & ?). }
    specialize (Hmin k' Hin'). rewrite Heq in Hmin. specialize (Hmin ltac:(done)). destruct (key_cmp k t) eqn:E; [done|done|exfalso].
    assert (Hlt : key_cmp t k = Lt) by (rewrite key_flip, E; done).
    pose proof (key_lt_le t k k' Ht Hok Hok' Hlt Hmin) as H3. rewrite key_flip, Heq in H3. done.
  - cbn in Ho. subst r. cbn. exists gm. do 3 (split; [done|]). split; [done|]. intros (k & Hin & Heq). exfalso.
    apply (HS k Hin). by rewrite Heq.
Qed.

End search.
End operations.
