(* ===== verification/LdbSkipListSpec.v ===== *)
(** The insertion into LevelDB's skip list, access by access, and the list as a sorted set with
    a cursor: for a program on its own, and for readers beside a writer. *)
From stdpp Require Import base gmap list numbers option sorting relations.
From Stdlib Require Import ZArith Lia.
From S2P Require Import Prelude Cmem Conc LdbComparator LdbSkipList LdbSkipListThms.

Section insert.
Context {Key : Type} {compare : Key -> Key -> option Z} `{!KeyOrder compare}.

(** * The height *)

Lemma height_loop_ok fuel : forall h (l : SkipList Key) w, 1 <= h <= 12 -> 12 - h < Z.of_nat fuel ->
  exists h' r, loop fuel height_step h l w = Ok h' (set_rnd r l) w /\ 1 <= h' <= 12.
Proof.
  induction fuel as [|fuel IH]; intros h l w Hh Hf; [lia|]. cbn -[set_rnd]. unfold height_step at 1. change kMaxHeight with 12.
  destruct (Z.ltb_spec h 12); cbn -[set_rnd]; [|exists h, (rnd_ l); by destruct l].
  destruct (_ =? 0); cbn -[set_rnd]; [|by eexists h, _].
  destruct (IH (h + 1) (set_rnd (RandomNext (rnd_ l)) l) w) as (h' & r & -> & ?); [lia..|]. by exists h', r.
Qed.

Lemma random_height_ok (l : SkipList Key) w : exists h r, RandomHeight l w = Ok h (set_rnd r l) w /\ 1 <= h <= 12.
Proof.
  destruct (height_loop_ok (Z.to_nat kMaxHeight) 1 l w) as (h & r & E & Hh); [lia|by vm_compute|].
  exists h, r. unfold RandomHeight, bind. rewrite E. rewrite (proj2 (Z.ltb_lt _ _)), (proj2 (Z.leb_le _ _)) by (change kMaxHeight with 12; lia). done.
Qed.

Lemma inv_set_rnd B g (l : SkipList Key) w r : inv B g l w -> inv B g (set_rnd r l) w.
Proof. intros [Hwf [? ? ? ? ? ? ?]]. split; [done|]. by split. Qed.

Definition raise_height (h : Z) (g : hist Key) : hist Key := mk_hist (lv g) (gkey g) (ghead g) h (inserted g).

Lemma raise_height_ok B g (l : SkipList Key) w h : inv B g l w -> gheight g <= h <= 12 ->
  grows g (raise_height h g) /\ inv B (raise_height h g) (set_max_height h l) w.
Proof.
  intros [[] [? ? ? [? ?] Hempty ? ?]] Hh. split; [split; [done|]; split; [done|]; split; [done|]; cbn; split; [lia|done]|].
  split; [by split|]. split; try done; cbn; [lia|]. intros i Hi. apply Hempty. lia.
Qed.

(** * The new node *)

Lemma new_node_ok B g (l : SkipList Key) w key h : inv B g l w -> key_ok key -> 1 <= h ->
  exists p l' w', NewNode key h l w = Ok p l' w' /\ same_memory w w' /\
    let g' := mk_hist (lv g) (<[p := key]> (gkey g)) (ghead g) (gheight g) (inserted g) in
    gkey g !! p = None /\ grows g g' /\ inv B g' l' w' /\ nodes l' !! p = Some (mk_node key (repeat None (Z.to_nat h))).
Proof.
  intros [Hwf Hs] Hk Hh. destruct (so_arena _ _ _ Hs) as (used & Ha & Hused).
  destruct (allocate_aligned_ok used (arena_ l) w (sizeof_Node + 8 * (h - 1)) Ha ltac:(unfold sizeof_Node; lia)) as (p & a' & w' & E & _ & Hm & Ha').
  unfold NewNode, in_arena, bind. rewrite E. eexists p, _, w'. split; [reflexivity|]. split; [done|].
  assert (Hfresh : nodes l !! p = None).
  { destruct (nodes l !! p) as [n|] eqn:En; [|done]. exfalso. destruct (Hused p) as (m & Hin); [by rewrite En|].
    pose proof (ao_disjoint _ _ _ Ha') as Hd. inversion Hd as [|? ? Hd1 _]; subst. rewrite Forall_forall in Hd1. specialize (Hd1 _ Hin).
    pose proof (ao_used _ _ _ Ha) as Hu. rewrite Forall_forall in Hu. destruct (Hu _ Hin) as (_ & ? & _). unfold disjoint_blocks, sizeof_Node in *. cbn in *. lia. }
  assert (Hkey : gkey g !! p = None).
  { destruct (gkey g !! p) as [k|] eqn:Ek; [|done]. destruct (so_key _ _ _ Hs p k Ek) as (n & En & _). congruence. }
  destruct (so_head_node _ _ _ Hs) as (hn & Ehn & Hlen). assert (Hhead : p <> ghead g) by congruence.
  assert (Hnull : p <> NULL) by (pose proof (ao_used _ _ _ Ha') as Hu; inversion Hu as [|? ? (? & _) _]; subst; cbn in *; unfold NULL; lia).
  assert (Hgrow : grows g (mk_hist (lv g) (<[p := key]> (gkey g)) (ghead g) (gheight g) (inserted g))).
  { split; [done|]. split; [by apply insert_subseteq|]. done. }
  split; [done|]. split; [done|]. split; [|cbn; by rewrite lookup_insert_eq]. split.
  - destruct Hwf as [Hsort Hincl Hkeys Hnode Hperm Hbound]. split; cbn; try done.
    + intros i Hi. eapply StronglySorted_weaken; [|by apply Hsort]. intros q r. by apply node_lt_grows.
    + intros q Hq. destruct (decide (q = p)) as [->|Hne]; [by rewrite lookup_insert_eq|]. rewrite lookup_insert_ne by done. by apply Hkeys.
    + intros q k. destruct (decide (q = p)) as [->|Hne]; [rewrite lookup_insert_eq; intros [= <-]; done|]. rewrite lookup_insert_ne by done. apply Hnode.
    + rewrite <- Hperm. apply reflexive_eq. apply list_omap_ext. apply Forall_Forall2_diag. apply Forall_forall. intros q Hq.
      rewrite lookup_insert_ne; [done|]. intros <-. destruct (Hkeys p Hq) as [k Ek]. congruence.
  - destruct Hs as [Hh1 Hh2 Hchain Hheight Hempty Hkeys _]. split; cbn; try done.
    + exists hn. by rewrite lookup_insert_ne.
    + intros i Hi. eapply list_chain_ext; [|by apply Hchain]. intros q Hq. unfold link. cbn. rewrite lookup_insert_ne; [done|].
      intros <-. destruct Hq as [?|Hq]; [done|]. destruct (level_key B g i p Hwf Hi Hq) as (k & Ek & _). congruence.
    + intros q k. destruct (decide (q = p)) as [->|Hne]; [rewrite !lookup_insert_eq; intros [= <-]; by eexists|]. rewrite !lookup_insert_ne by done. apply Hkeys.
    + exists ((p, sizeof_Node + 8 * (h - 1)) :: used). split; [done|]. intros q. destruct (decide (q = p)) as [->|Hne]; [intros _; eexists; by left|].
      rewrite lookup_insert_ne by done. intros Hq. destruct (Hused q Hq) as (n & ?). exists n. by right.
Qed.

(** * Linking *)

Definition store_link (l : SkipList Key) (p : Z) (n : Node Key) (i : nat) (x : Z) : SkipList Key :=
  set_nodes (<[p := mk_node (node_key n) (<[i := Some x]> (next_ n))]> (nodes l)) l.

Lemma list_set_next_ok (l : SkipList Key) w p n i x : nodes l !! p = Some n -> (i < length (next_ n))%nat ->
  SetNext p (Z.of_nat i) x l w = Ok tt (store_link l p n i x) w.
Proof.
  intros En Hi. unfold SetNext. rewrite (proj2 (Z.leb_le _ _)) by lia. cbn. rewrite En. cbn. rewrite Nat2Z.id.
  destruct (lookup_lt_is_Some_2 _ _ Hi) as [o ->]. done.
Qed.

Lemma link_store (l : SkipList Key) p n i x j q : nodes l !! p = Some n -> (i < length (next_ n))%nat ->
  link (store_link l p n i x) j q = if decide (q = p /\ j = i) then Some x else link l j q.
Proof.
  intros En Hi. unfold link, store_link. cbn. destruct (decide (q = p)) as [->|Hne].
  - rewrite lookup_insert_eq, En. cbn. destruct (decide (j = i)) as [->|Hnj].
    + rewrite decide_True by done. by rewrite list_lookup_insert_eq.
    + rewrite decide_False by naive_solver. by rewrite list_lookup_insert_ne.
  - rewrite decide_False by naive_solver. by rewrite lookup_insert_ne.
Qed.

Lemma store_state_ok g (l : SkipList Key) w p n i x : state_ok g l w -> nodes l !! p = Some n -> (i < length (next_ n))%nat ->
  (forall j, (j < levels)%nat -> chain (link (store_link l p n i x) j) (ghead g) (lv g j)) -> state_ok g (store_link l p n i x) w.
Proof.
  intros [Hh1 (hn & Ehn & Hlen) Hchain Hheight Hempty Hkeys (used & Ha & Hused)] En Hi Hch. split; try done; cbn.
  - destruct (decide (ghead g = p)) as [<-|Hne]; [|rewrite lookup_insert_ne by done; by exists hn].
    rewrite lookup_insert_eq. rewrite En in Ehn. injection Ehn as ->. eexists. split; [done|]. cbn. by rewrite length_insert.
  - intros q k Ek. destruct (Hkeys q k Ek) as (m & Em & Hm). destruct (decide (q = p)) as [->|Hne]; [|rewrite lookup_insert_ne by done; by exists m].
    rewrite lookup_insert_eq. rewrite En in Em. injection Em as ->. by eexists.
  - exists used. split; [done|]. intros q Hq. apply Hused. destruct (decide (q = p)) as [->|Hne]; [by rewrite En|]. by rewrite lookup_insert_ne in Hq.
Qed.

(** A store into a link that is not on its level. *)
Lemma store_off_level B g (l : SkipList Key) w x n i v : inv B g l w -> nodes l !! x = Some n -> (i < length (next_ n))%nat -> x <> ghead g -> x ∉ lv g i ->
  inv B g (store_link l x n i v) w.
Proof.
  intros [Hwf Hs] En Hi Hh Hx. split; [done|]. apply store_state_ok; try done. intros j Hj. eapply list_chain_ext; [|by apply (so_chain _ _ _ Hs)].
  intros q Hq. rewrite link_store by done. rewrite decide_False; [done|]. intros [-> ->]. by destruct Hq.
Qed.

(** The list with the node on one more level. *)
Definition with_node (g : hist Key) (i : nat) (key : Key) (bef : list Z) (x : Z) (aft : list Z) : hist Key :=
  mk_hist (fun j => if decide (j = i) then bef ++ x :: aft else lv g j) (gkey g) (ghead g) (gheight g)
          (if decide (i = 0%nat) then inserted g ++ [key] else inserted g).

(** What holds of the new node while it is linked, below level [i]. *)
Record linking (B : nat) (key : Key) (x : Z) (h : nat) (g : hist Key) (l : SkipList Key) (i : nat) : Prop := {
  lk_node : exists n, nodes l !! x = Some n /\ length (next_ n) = h;
  lk_height : (h <= levels)%nat /\ Z.of_nat h <= gheight g;
  lk_key : gkey g !! x = Some key;
  lk_in j : (j < i)%nat -> x ∈ lv g j;
  lk_out j : (i <= j < levels)%nat -> x ∉ lv g j;
  lk_fresh q k : q ∈ lv g 0%nat -> q <> x -> gkey g !! q = Some k -> key_cmp k key <> Eq;
  lk_room : i = 0%nat -> (length (lv g 0%nat) < B)%nat;
}.

Lemma with_node_grows g i key bef x aft : lv g i = bef ++ aft -> grows g (with_node g i key bef x aft).
Proof.
  intros El. split; [|split; [done|]; split; [done|]; cbn; split; [done|]].
  - intros j. cbn. destruct (decide (j = i)) as [->|]; [|done]. rewrite El. set_solver.
  - destruct (decide (i = 0%nat)); [by eexists|done].
Qed.

Lemma with_node_wf B key x h g l w i bef aft : inv B g l w -> linking B key x h g l i -> (i < h)%nat ->
  lv g i = bef ++ aft -> Forall (below g (Some key)) bef -> Forall (above g (Some key)) aft -> wf B (with_node g i key bef x aft).
Proof.
  intros [Hwf Hs] Hlk Hi El Hb Ha. assert (Hil : (i < levels)%nat) by (destruct (lk_height _ _ _ _ _ _ _ Hlk); lia).
  assert (Hgrow : grows g (with_node g i key bef x aft)) by (by apply with_node_grows).
  pose proof (wf_sorted B g Hwf i Hil) as Hsi. rewrite El in Hsi.
  assert (Hxa : forall q, q ∈ aft -> node_lt g x q).
  { intros q Hq. rewrite Forall_forall in Ha. destruct (Ha q Hq) as (k & Ek & Hk). exists k. split; [done|]. exists key. split; [by eapply lk_key|].
    cbn in Hk |- *. rewrite key_flip. destruct (key_cmp k key) eqn:E; [exfalso|done|done].
    eapply (lk_fresh _ _ _ _ _ _ _ Hlk q k); [| |done|done].
    - eapply level_in_0; [done|exact Hil|rewrite El; set_solver].
    - intros ->. eapply (lk_out _ _ _ _ _ _ _ Hlk i); [lia|rewrite El; set_solver]. }
  split; cbn.
  - intros j Hj. eapply StronglySorted_weaken; [intros q r; by apply (node_lt_grows _ _ q r Hgrow)|].
    destruct (decide (j = i)) as [->|]; [|by apply (wf_sorted B g Hwf)]. apply StronglySorted_app_2.
    + intros p q Hp Hq. rewrite Forall_forall in Hb. apply elem_of_cons in Hq as [->|Hq].
      * exists key. split; [by eapply lk_key|by apply Hb].
      * by eapply (StronglySorted_app_1_elem_of _ _ _ _ _ Hsi).
    + by apply StronglySorted_app_1_l in Hsi.
    + constructor; [by apply StronglySorted_app_1_r in Hsi|]. apply Forall_forall. apply Hxa.
  - intros j Hj. pose proof (wf_incl B g Hwf j Hj) as Hincl. destruct (decide (S j = i)) as [Ej|], (decide (j = i)) as [Ej2|]; try lia; try done.
    + intros q Hq. rewrite elem_of_app, elem_of_cons in Hq. destruct Hq as [Hq|[->|Hq]].
      * apply Hincl. rewrite Ej, El. set_solver.
      * apply (lk_in _ _ _ _ _ _ _ Hlk). lia.
      * apply Hincl. rewrite Ej, El. set_solver.
    + intros q Hq. apply Hincl in Hq. rewrite Ej2, El in Hq. set_solver.
  - intros p. pose proof (lk_key _ _ _ _ _ _ _ Hlk) as Ex. destruct (decide (0%nat = i)) as [<-|]; [|by apply (wf_key B g Hwf)].
    intros Hp. rewrite elem_of_app, elem_of_cons in Hp. pose proof (wf_key B g Hwf p) as Hk. rewrite El in Hk. destruct Hp as [Hp|[->|Hp]]; [|by rewrite Ex|]; apply Hk; set_solver.
  - apply (wf_node B g Hwf).
  - pose proof (wf_perm B g Hwf) as Hperm. destruct (decide (0%nat = i)) as [<-|]; [|by rewrite decide_False by lia]. rewrite decide_True by done.
    rewrite <- Hperm, El, !omap_app. cbn. rewrite (lk_key _ _ _ _ _ _ _ Hlk). rewrite Permutation_app_comm. cbn. rewrite <- Permutation_middle. by rewrite app_nil_r, Permutation_app_comm.
  - pose proof (wf_bound B g Hwf) as Hbd. destruct (decide (0%nat = i)) as [<-|]; [|done]. pose proof (lk_room _ _ _ _ _ _ _ Hlk eq_refl) as Hr.
    rewrite El in Hr. rewrite length_app in *. cbn. lia.
Qed.

Lemma link_at_level B key x h g l w i bef aft : inv B g l w -> linking B key x h g l i -> (i < h)%nat ->
  lv g i = bef ++ aft -> Forall (below g (Some key)) bef -> Forall (above g (Some key)) aft -> link l i x = Some (next_of aft) ->
  exists l', SetNext (node_at g bef) (Z.of_nat i) x l w = Ok tt l' w /\
    inv B (with_node g i key bef x aft) l' w /\ linking B key x h (with_node g i key bef x aft) l' (S i).
Proof.
  intros HI Hlk Hi El Hb Ha Hx. pose proof HI as [Hwf Hs]. assert (Hil : (i < levels)%nat) by (destruct (lk_height _ _ _ _ _ _ _ Hlk); lia).
  pose proof (so_chain _ _ _ Hs i Hil) as Hc. rewrite El in Hc. pose proof (chain_cut _ _ _ _ Hc) as Hp.
  destruct (wf_node B g Hwf x key (lk_key _ _ _ _ _ _ _ Hlk)) as (Hxh & Hxn & _).
  assert (Hxi : x ∉ bef ++ aft) by (rewrite <- El; apply (lk_out _ _ _ _ _ _ _ Hlk); lia).
  assert (Hpx : node_at g bef <> x).
  { unfold node_at. destruct (last bef) as [q|] eqn:E; cbn; [|done]. apply last_Some_elem_of in E. set_solver. }
  fold (node_at g bef) in Hp. unfold link in Hp at 1. destruct (nodes l !! node_at g bef) as [n|] eqn:En; [|done]. cbn in Hp.
  destruct (next_ n !! i) as [o|] eqn:Eo; [|done]. apply lookup_lt_Some in Eo.
  exists (store_link l (node_at g bef) n i x). split; [by apply list_set_next_ok|]. split; [split|].
  - by eapply with_node_wf.
  - pose proof (store_state_ok g l w (node_at g bef) n i x) as Hst. destruct Hs as [Hh1 Hh2 Hchain Hheight Hempty Hkeys Harena].
    split; try done; cbn.
    + destruct Hh2 as (hn & Ehn & Hlen). destruct (decide (ghead g = node_at g bef)) as [E|Hne]; [|rewrite lookup_insert_ne by done; by exists hn].
      rewrite <- E, lookup_insert_eq. rewrite <- E, Ehn in En. injection En as <-. eexists. split; [done|]. cbn. by rewrite length_insert.
    + intros j Hj. destruct (decide (j = i)) as [->|Hne].
      * eapply chain_insert; [exact Hc| |done| | | |].
        -- rewrite link_store by done. by rewrite decide_True.
        -- rewrite link_store by done. rewrite decide_False by naive_solver. done.
        -- intros q Hqx Hqp. rewrite link_store by done. rewrite decide_False by naive_solver. done.
        -- rewrite <- El. constructor; [|by eapply sorted_nodup, wf_sorted]. intros Hin.
           destruct (level_key B g i _ Hwf Hil Hin) as (_ & _ & ? & _). done.
        -- set_solver.
      * eapply list_chain_ext; [|by apply Hchain]. intros q _. rewrite link_store by done. rewrite decide_False by naive_solver. done.
    + intros j Hj. destruct (decide (j = i)) as [->|]; [|by apply Hempty]. destruct (lk_height _ _ _ _ _ _ _ Hlk). lia.
    + intros q k Ek. destruct (Hkeys q k Ek) as (m & Em & Hm). destruct (decide (q = node_at g bef)) as [->|Hne]; [|rewrite lookup_insert_ne by done; by exists m].
      rewrite lookup_insert_eq. rewrite En in Em. injection Em as ->. by eexists.
    + destruct Harena as (used & Hau & Hused). exists used. split; [done|]. intros q Hq. apply Hused.
      destruct (decide (q = node_at g bef)) as [->|Hne]; [by rewrite En|]. by rewrite lookup_insert_ne in Hq.
  - destruct Hlk as [(nx & Enx & Hnx) Hh Hk Hin Hout Hfresh Hroom]. split; try done; cbn.
    + exists nx. rewrite lookup_insert_ne by done. done.
    + intros j Hj. destruct (decide (j = i)); [set_solver|]. apply Hin. lia.
    + intros j Hj. rewrite decide_False by lia. apply Hout. lia.
    + intros q k Hq Hqx Ek. apply (Hfresh q k); [|done|done]. destruct (decide (0%nat = i)) as [<-|]; [|done]. rewrite El. set_solver.
Qed.

Lemma last_before_with_node g i key bef x aft t j p : j <> i -> last_before g t j p -> last_before (with_node g i key bef x aft) t j p.
Proof. intros Hj (b & a & El & -> & Hb & Ha). exists b, a. cbn. by rewrite decide_False. Qed.

Notation does B := (writes (T := SkipList Key) (G := hist Key) (inv B)).

(** The array [prev] for the levels that are not linked yet. *)
Definition prev_for (key : Key) (prev : list (option Z)) (g : hist Key) (i h : nat) : Prop :=
  forall j, (i <= j < h)%nat -> exists p, prev !! j = Some (Some p) /\ last_before g (Some key) j p.

(** What an insertion has done when it is through. *)
Definition added (key : Key) (g : hist Key) (g1 : hist Key) (_ : SkipList Key) (_ : world) (_ : unit) : Prop := inserted g1 = inserted g ++ [key].

Lemma link_step_ok B key x h prev i g l w g0 : inv B g l w -> linking B key x h g l i -> prev_for key prev g i h ->
  (1 <= h)%nat -> inserted g = (if decide (i = 0%nat) then inserted g0 else inserted g0 ++ [key]) ->
  does B (link_step x (Z.of_nat h) prev (Z.of_nat i))
    (fun g1 l1 w1 r => inv B g1 l1 w1 /\ match r with
       | inl j => j = Z.of_nat (S i) /\ (i < h)%nat /\ linking B key x h g1 l1 (S i) /\ prev_for key prev g1 (S i) h /\ inserted g1 = inserted g0 ++ [key]
       | inr _ => (h <= i)%nat /\ inserted g1 = inserted g0 ++ [key] end) g l w.
Proof.
  intros HI Hlk Hprev H1 Hins. unfold link_step. destruct (Z.ltb_spec (Z.of_nat i) (Z.of_nat h)) as [Hlt|Hge].
  2: { cbn. split; [done|]. split; [lia|]. rewrite Hins. rewrite decide_False by lia. done. }
  assert (Hi : (i < h)%nat) by lia. assert (Hil : (i < levels)%nat) by (destruct (lk_height _ _ _ _ _ _ _ Hlk); lia).
  destruct (Hprev i) as (p & Ep & bef & aft & El & -> & Hb & Ha); [lia|]. cbn [pbind act writes].
  exists (node_at g bef), g, l, w. rewrite Nat2Z.id, Ep. split; [done|]. split; [done|]. split; [done|].
  exists (next_of aft), g, l, w. split; [by eapply list_next_ok|]. split; [done|]. split; [done|].
  pose proof Hlk as [(nx & Enx & Hnx) _ Hkx _ Hout _ _]. pose proof HI as [Hwf Hs]. destruct (wf_node B g Hwf x key Hkx) as (Hxh & _ & _).
  assert (HI1 : inv B g (store_link l x nx i (next_of aft)) w) by (apply (store_off_level B); try done; [lia|apply Hout; lia]).
  assert (Hlk1 : linking B key x h g (store_link l x nx i (next_of aft)) i).
  { destruct Hlk as [_ Hh Hk Hin Hout' Hfresh Hroom]. split; try done. cbn. rewrite lookup_insert_eq. eexists. split; [done|]. cbn. by rewrite length_insert. }
  exists tt, g, (store_link l x nx i (next_of aft)), w. split; [apply list_set_next_ok; [done|lia]|]. split; [done|]. split; [done|].
  destruct (link_at_level B key x h g _ w i bef aft HI1 Hlk1 Hi El Hb Ha) as (l2 & E2 & HI2 & Hlk2).
  { rewrite link_store by (done || lia). by rewrite decide_True. }
  exists tt, (with_node g i key bef x aft), l2, w. split; [done|]. split; [by apply with_node_grows|]. split; [done|].
  split; [done|]. split; [lia|]. split; [done|]. split; [done|]. split.
  - intros j Hj. destruct (Hprev j) as (p & Ep' & Hlb); [lia|]. exists p. split; [done|]. apply last_before_with_node; [lia|done].
  - cbn. destruct (decide (i = 0%nat)); by rewrite Hins.
Qed.

Lemma link_loop_ok B key x h prev g0 fuel : (1 <= h)%nat -> forall i g l w, (i <= h < fuel + i)%nat ->
  inv B g l w -> linking B key x h g l i -> prev_for key prev g i h -> inserted g = (if decide (i = 0%nat) then inserted g0 else inserted g0 ++ [key]) ->
  does B (ploop fuel (link_step x (Z.of_nat h) prev) (Z.of_nat i)) (added key g0) g l w.
Proof.
  intros H1. induction fuel as [|fuel IH]; intros i g l w Hf HI Hlk Hprev Hins; [lia|]. cbn [ploop].
  eapply writes_bind; [by eapply link_step_ok|]. intros g1 l1 w1 [j|r] Hg1 [HI1 Hr]; [|by destruct Hr].
  destruct Hr as (-> & Hlt & Hlk1 & Hprev1 & Hins1). apply IH; [lia|done|done|done|]. by rewrite Hins1.
Qed.

(** * Insertion *)

Lemma fill_prev_lookup n : forall i head prev j, fill_prev n (Z.of_nat i) head prev !! j =
  (if decide ((i <= j < i + n)%nat /\ (j < length prev)%nat) then Some (Some head) else prev !! j).
Proof.
  induction n as [|n IH]; intros i head prev j; cbn [fill_prev]; [rewrite decide_False by lia; done|].
  replace (Z.of_nat i + 1) with (Z.of_nat (S i)) by lia. rewrite IH, Nat2Z.id, length_insert.
  destruct (decide (j = i)) as [->|Hne].
  - rewrite decide_False by lia. destruct (decide (i < length prev)%nat).
    + rewrite decide_True by lia. by rewrite list_lookup_insert_eq.
    + rewrite decide_False by lia. rewrite list_insert_ge by lia. done.
  - rewrite list_lookup_insert_ne by done. do 2 (destruct (decide _)); try lia; done.
Qed.

Lemma still_grows (g g' : hist Key) : @later _ still g g' -> grows g g'.
Proof. intros ->. reflexivity. Qed.

(** A read of the writer. *)
Notation same Q g l w := (fun g1 l1 w1 r => g1 = g /\ l1 = l /\ w1 = w /\ Q r).

(** The search of the insertion. *)
Definition found (key : Key) (g : hist Key) (r : Z * option (list (option Z))) : Prop :=
  (exists o, node_is g r.1 o /\ least (fun k => key_cmp k key <> Lt) (inserted g) o) /\
  exists prev, r.2 = Some prev /\ length prev = levels /\ prev_for key prev g 0 (Z.to_nat (gheight g)).

Lemma insert_find_ok B fuel key g l w : inv B g l w -> key_ok key -> (B + levels <= fuel)%nat ->
  does B (FindGreaterOrEqual compare fuel key (Some (repeat None (Z.to_nat kMaxHeight)))) (same (found key g) g l w) g l w.
Proof.
  intros HI Hk Hf. pose proof HI as [Hwf Hs].
  eapply writes_mono; [eapply still_writes; [exact HI|]; eapply (@find_ge_ok _ _ _ still still_grows B true); [done|done|by vm_compute]|].
  cbn. intros g1 l1 w1 [r prev] _ (-> & -> & -> & Hr & top & Ht1 & Ht2 & Hprev). do 3 (split; [done|]). cbn in *. split.
  - apply (first_from_finds (H := still) still_grows B g g (Some key)) in Hr as (o & Ho & gm & <- & _ & _ & HS). by exists o.
  - destruct prev as [prev'|]; [|done]. destruct Hprev as [Hlen Hj]. exists prev'. split; [done|]. split; [done|]. intros j Hj'.
    destruct (Hj j) as (p & gj & ? & <- & _ & ?); [lia|]. by exists p.
Qed.

(** The key is not there. *)
Lemma insert_fresh_ok B key p g l w : inv B g l w -> key_ok key -> (exists o, node_is g p o /\ least (fun k => key_cmp k key <> Lt) (inserted g) o) ->
  (forall k, k ∈ inserted g -> key_cmp k key <> Eq) ->
  does B (if p =? NULL then Ret true else pbind (act (key_of p)) (fun k => pbind (act (Equal compare key k)) (fun e => Ret (negb e))))
    (same (fun b => b = true) g l w) g l w.
Proof.
  intros HI Hk (o & Ho & HS) Hfresh. eapply writes_mono; [eapply (still_writes (inv B) _ (fun _ b => b = true)); [exact HI|]|cbn; by intros g1 l1 w1 r _ (-> & -> & -> & H)].
  destruct o as [k|]; cbn in HS, Ho; [|by subst p]. destruct HS as (Hin & _). pose proof Ho as (_ & Ek & Hne & Hok).
  rewrite (proj2 (Z.eqb_neq _ _)) by done. cbn [pbind act]. intros g2 l2 w2 <- HI2. exists k. split; [by eapply key_of_ok|].
  intros g3 l3 w3 <- HI3. unfold Equal. destruct (key_compare_ok key k Hk Hok) as (c & -> & Hc). exists (c =? 0). split; [done|]. cbn [reads].
  apply negb_true_iff, Z.eqb_neq. intros ->. apply (Hfresh k Hin). cbn in Hc. rewrite key_flip, <- Hc. done.
Qed.

(** The levels between the old height and the new one are empty. *)
Lemma raised_prev B key g l w prev h : inv B g l w -> length prev = levels -> prev_for key prev g 0 (Z.to_nat (gheight g)) ->
  1 <= h <= 12 -> prev_for key (if gheight g <? h then fill_prev (Z.to_nat (h - gheight g)) (gheight g) (ghead g) prev else prev) g 0 (Z.to_nat h).
Proof.
  intros [Hwf Hs] Hlen Hprev Hh j Hj. destruct (so_height _ _ _ Hs) as [_ Hgh]. destruct (Z.ltb_spec (gheight g) h) as [Hlt|Hge]; [|apply Hprev; lia].
  pose proof (fill_prev_lookup (Z.to_nat (h - gheight g)) (Z.to_nat (gheight g)) (ghead g) prev j) as E. rewrite Z2Nat.id in E by lia. rewrite E.
  unfold levels in *.
  destruct (decide _) as [[Hr1 Hr2]|Hn]; [|apply Hprev; lia]. exists (ghead g). split; [done|].
  exists [], []. rewrite (so_empty _ _ _ Hs) by (unfold levels; lia). done.
Qed.

Lemma inserted_length B (g : hist Key) : wf B g -> length (inserted g) = length (lv g 0%nat).
Proof.
  intros Hwf. rewrite <- (Permutation_length (wf_perm B g Hwf)). pose proof (wf_key B g Hwf) as Hk. revert Hk.
  generalize (lv g 0%nat). intros l. induction l as [|p l IH]; intros Hk; [done|]. cbn. destruct (Hk p) as [k ->]; [by left|]. cbn. f_equal. apply IH. set_solver.
Qed.

Lemma raise_ok B key g l w prev h : inv B g l w -> length prev = levels -> prev_for key prev g 0 (Z.to_nat (gheight g)) -> 1 <= h <= 12 ->
  does B (if gheight g <? h then pbind (act (SetMaxHeight h)) (fun _ => Ret (fill_prev (Z.to_nat (h - gheight g)) (gheight g) (ghead g) prev)) else Ret prev)
    (fun g1 l1 w1 p => inv B g1 l1 w1 /\ prev_for key p g1 0 (Z.to_nat h) /\ h <= gheight g1 /\ inserted g1 = inserted g) g l w.
Proof.
  intros HI Hlen Hprev Hh. pose proof (raised_prev B key g l w prev h HI Hlen Hprev Hh) as Hp.
  destruct (Z.ltb_spec (gheight g) h) as [Hlt|Hge]; [|cbn; done]. cbn [pbind act].
  destruct (raise_height_ok B g l w h HI ltac:(lia)) as [Hg HI1]. exists tt, (raise_height h g), (set_max_height h l), w.
  split; [done|]. split; [done|]. split; [done|]. cbn [writes]. split; [done|]. split; [exact Hp|]. split; [cbn; lia|done].
Qed.

Lemma last_before_new (g : hist Key) p key t i x : gkey g !! p = None -> last_before g t i x ->
  last_before (mk_hist (lv g) (<[p := key]> (gkey g)) (ghead g) (gheight g) (inserted g)) t i x.
Proof.
  intros Hp (bef & aft & El & -> & Hb & Ha).
  assert (Hg : grows g (mk_hist (lv g) (<[p := key]> (gkey g)) (ghead g) (gheight g) (inserted g))) by (split; [done|]; split; [by apply insert_subseteq|done]).
  exists bef, aft. split; [done|]. split; [done|].
  split; (eapply Forall_impl; [eassumption|]; intros q; first [exact (below_grows _ _ _ _ Hg)|exact (above_grows _ _ _ _ Hg)]).
Qed.

Lemma link_all_ok B key g l w prev h : inv B g l w -> key_ok key -> 1 <= h <= 12 -> h <= gheight g -> prev_for key prev g 0 (Z.to_nat h) ->
  (length (inserted g) < B)%nat -> (forall k, k ∈ inserted g -> key_cmp k key <> Eq) ->
  does B (pbind (act (NewNode key h)) (fun x => ploop (S (Z.to_nat kMaxHeight)) (link_step x h prev) 0)) (added key g) g l w.
Proof.
  intros HI Hk Hh Hgh Hprev Hroom Hfresh. pose proof HI as [Hwf Hs].
  destruct (new_node_ok B g l w key h HI Hk ltac:(lia)) as (x & l1 & w1 & E & _ & Hx & Hgrow & HI1 & En).
  cbn [pbind act]. eexists x, _, l1, w1. split; [done|]. split; [exact Hgrow|]. split; [exact HI1|].
  remember (S (Z.to_nat kMaxHeight)) as fuel eqn:Ef.
  replace h with (Z.of_nat (Z.to_nat h)) by lia. apply (link_loop_ok B key x (Z.to_nat h) prev g fuel ltac:(lia) 0%nat); [|done| | |done].
  - subst fuel. change (Z.to_nat kMaxHeight) with 12%nat. lia.
  - assert (Hxl : forall j, (j < levels)%nat -> x ∉ lv g j).
    { intros j Hj Hin. destruct (level_key B g j x Hwf Hj Hin) as (k & Ek & _). congruence. }
    split; cbn.
    + eexists. split; [done|]. cbn. by rewrite repeat_length.
    + unfold levels. lia.
    + by rewrite lookup_insert_eq.
    + lia.
    + intros j Hj. apply Hxl. lia.
    + intros q k Hq Hne Ek. rewrite lookup_insert_ne in Ek by done. apply Hfresh, (key_in B g k Hwf). by exists q.
    + intros _. by rewrite <- (inserted_length B g Hwf).
  - intros j Hj. destruct (Hprev j Hj) as (p & Ep & Hp). exists p. split; [done|]. by apply last_before_new.
Qed.

(** [Insert] adds the key, whatever height it draws; the invariant holds after every access. *)
Lemma list_insert_ok B fuel key g l w : inv B g l w -> key_ok key -> (B + levels <= fuel)%nat -> (length (inserted g) < B)%nat ->
  (forall k, k ∈ inserted g -> key_cmp k key <> Eq) -> does B (Insert compare fuel key) (added key g) g l w.
Proof.
  intros HI Hk Hf Hroom Hfresh. unfold Insert. eapply writes_bind; [by apply insert_find_ok|].
  cbn beta. intros g1 l1 w1 [x prev] _ (-> & -> & -> & Hr & prev' & Ep & Hlen & Hprev). cbn [fst snd] in Hr, Ep. subst prev.
  eapply writes_bind; [by apply insert_fresh_ok|]. cbn beta. intros g1 l1 w1 b _ (-> & -> & -> & ->). cbn [pbind act].
  exists tt, g, l, w. do 3 (split; [done|]). destruct (random_height_ok l w) as (h & r & Eh & Hh).
  exists h, g, (set_rnd r l), w. split; [done|]. split; [done|]. apply (inv_set_rnd _ _ _ _ r) in HI. split; [done|].
  remember (set_rnd r l) as l1 eqn:El1. clear l El1 Eh. pose proof HI as [Hwf Hs]. destruct (so_height _ _ _ Hs) as [Emh Hgh].
  exists (gheight g), g, l1, w. split; [cbn; by rewrite Emh|]. do 2 (split; [done|]).
  exists (ghead g), g, l1, w. split; [cbn; by rewrite (proj1 (so_head _ _ _ Hs))|]. do 2 (split; [done|]). cbn [pbind].
  eapply writes_bind; [by eapply raise_ok|]. intros g2 l2 w2 prev2 _ (HI2 & Hprev2 & Hh2 & Hins).
  eapply writes_mono; [apply link_all_ok; try done; rewrite Hins; done|]. intros g3 l3 w3 [] _. unfold added. by rewrite Hins.
Qed.

(** * Construction *)

Definition new_hist (head : Z) : hist Key := mk_hist (fun _ => []) ∅ head 1 [].

Lemma init_loop_ok head n : forall i (l : SkipList Key) w k nx, nodes l !! head = Some (mk_node k nx) -> length nx = levels -> (i + n = levels)%nat ->
  Forall (fun o => o = Some NULL) (take i nx) ->
  exists nx', loop (S n) (fun i => if i <? kMaxHeight then bind (SetNext head i NULL) (fun _ => ret (inl (i + 1))) else ret (inr tt)) (Z.of_nat i) l w =
    Ok tt (set_nodes (<[head := mk_node k nx']> (nodes l)) l) w /\ length nx' = levels /\ Forall (fun o => o = Some NULL) nx'.
Proof.
  induction n as [|n IH]; intros i l w k nx En Hlen Hin Hall.
  - exists nx. cbn -[set_nodes]. change kMaxHeight with (Z.of_nat levels). rewrite (proj2 (Z.ltb_ge _ _)) by lia. cbn -[set_nodes].
    rewrite insert_id by done. split; [by destruct l|]. split; [done|]. by rewrite take_ge in Hall by lia.
  - remember (S n) as m eqn:Em. cbn [loop]. unfold bind at 1. change kMaxHeight with (Z.of_nat levels) at 1. rewrite (proj2 (Z.ltb_lt _ _)) by lia.
    unfold bind at 1. rewrite (list_set_next_ok l w head (mk_node k nx) i NULL En) by (cbn; lia). cbn [ret]. replace (Z.of_nat i + 1) with (Z.of_nat (S i)) by lia.
    destruct (IH (S i) (store_link l head (mk_node k nx) i NULL) w k (<[i := Some NULL]> nx)) as (nx' & E & Hlen' & Hall').
    + cbn. by rewrite lookup_insert_eq.
    + by rewrite length_insert.
    + lia.
    + assert (Hi : (i < length nx)%nat) by lia. rewrite (take_S_r _ _ (Some NULL)) by (by apply list_lookup_insert_eq).
      rewrite take_insert_ge by done. apply Forall_app. by repeat constructor.
    + exists nx'. rewrite E. split; [|done]. unfold store_link. cbn. by rewrite insert_insert_eq.
Qed.

Lemma new_skiplist_ok used a w (zero : Key) : arena_ok used a w ->
  exists l w' head, new_SkipList zero a tt w = Ok l tt w' /\ same_memory w w' /\ forall B, inv B (new_hist head) l w'.
Proof.
  intros Ha. unfold new_SkipList, NewNode, in_arena, bind at 1.
  destruct (allocate_aligned_ok used a w (sizeof_Node + 8 * (kMaxHeight - 1)) Ha ltac:(done)) as (p & a' & w' & E & _ & Hm & Ha').
  cbn [arena_]. rewrite E. cbn [set_arena modify bind ret set_nodes nodes set_head]. match goal with |- context [loop _ _ _ ?l0 _] => remember l0 as l eqn:El end.
  destruct (init_loop_ok p levels 0 l w' zero (repeat None (Z.to_nat kMaxHeight))) as (nx & E2 & Hlen & Hall).
  { subst l. cbn. by rewrite lookup_insert_eq. } { done. } { done. } { constructor. }
  change (Z.of_nat 0) with 0 in E2. change (S (Z.to_nat kMaxHeight)) with (S levels). rewrite E2.
  assert (Hnull : 0 < p) by (pose proof (ao_used _ _ _ Ha') as Hu; inversion Hu as [|? ? (? & _) _]; by subst).
  eexists _, w', p. split; [reflexivity|]. split; [done|]. intros B. subst l. split.
  - split; cbn; try done; try (intros; constructor); try lia. set_solver.
  - split; cbn; try done.
    + split; [done|]. unfold NULL. lia.
    + rewrite lookup_insert_eq. by eexists.
    + intros i Hi. unfold link. cbn. rewrite lookup_insert_eq. cbn. destruct (lookup_lt_is_Some_2 nx i) as [o Eo]; [by rewrite Hlen|].
      rewrite Eo. cbn. by rewrite (proj1 (Forall_lookup _ _) Hall i o Eo).
    + eexists. split; [exact Ha'|]. intros q. destruct (decide (q = p)) as [->|Hne]; [intros _; eexists; by left|].
      rewrite !lookup_insert_ne by done. rewrite lookup_empty. by intros [? ?].
Qed.

End insert.

(** * LevelDB's skip list as a sorted set with a cursor: for a program on its own, and for
    readers that run while one writer inserts. *)

Section spec.
Context {Key : Type} {compare : Key -> Key -> option Z} `{!KeyOrder compare}.

(** * The set *)

Fixpoint insert_key (k : Key) (L : list Key) : list Key :=
  match L with
  | [] => [k]
  | x :: L => if decide (key_cmp x k = Lt) then x :: insert_key k L else k :: x :: L
  end.

Definition sorted_set (K : list Key) : list Key := foldl (fun S k => insert_key k S) [] K.

Inductive op :=
| OInsert (k : Key)
| OContains (k : Key)
| OSeek (k : Key)
| OSeekToFirst
| OSeekToLast
| ONext
| OPrev.

(** What an operation makes of the cursor, and its answer.  A cursor that is nowhere is not
    moved. *)
Definition spec_read (S : list Key) (cur : option Key) (o : op) : option Key * bool :=
  match o with
  | OInsert _ => (cur, false)
  | OContains t => (cur, bool_decide (filter (fun k => key_cmp k t = Eq) S <> []))
  | OSeek t => (head (filter (fun k => key_cmp k t <> Lt) S), false)
  | OSeekToFirst => (head S, false)
  | OSeekToLast => (last S, false)
  | ONext => (cur ≫= fun k => head (filter (fun k' => key_cmp k k' = Lt) S), false)
  | OPrev => (cur ≫= fun k => last (filter (fun k' => key_cmp k' k = Lt) S), false)
  end.

Definition inserts (o : op) : list Key := match o with OInsert k => [k] | _ => [] end.

(** The operations one after the other: the cursor and the answer after each. *)
Fixpoint spec_run (K : list Key) (cur : option Key) (ops : list op) : list (option Key * bool) :=
  match ops with
  | [] => []
  | o :: ops =>
      let '(cur, b) := spec_read (sorted_set K) cur o in
      (cur, b) :: spec_run (K ++ inserts o) cur ops
  end.

Definition op_key_ok (o : op) : Prop := match o with OInsert k | OContains k | OSeek k => key_ok k | _ => True end.
Definition is_read (o : op) : Prop := match o with OInsert _ => False | _ => True end.

(** * The program *)

Open Scope prog_scope.

(** A client looks at [Valid] before it moves an iterator. *)
Definition run_op (fuel : nat) (o : op) (node : Z) : prog (SkipList Key) (Z * bool) :=
  match o with
  | OInsert k => Insert compare fuel k >>> Ret (node, false)
  | OContains k => let! b := Contains compare fuel k in Ret (node, b)
  | OSeek k => let! node := iter_Seek compare fuel k in Ret (node, false)
  | OSeekToFirst => let! node := iter_SeekToFirst in Ret (node, false)
  | OSeekToLast => let! node := iter_SeekToLast fuel in Ret (node, false)
  | ONext => let! node := (if Valid node then iter_Next node else Ret node) in Ret (node, false)
  | OPrev => let! node := (if Valid node then iter_Prev compare fuel node else Ret node) in Ret (node, false)
  end.

(** The key that an iterator stands on. *)
Definition observe (node : Z) : prog (SkipList Key) (option Key) :=
  if Valid node then let! k := iter_key node in Ret (Some k) else Ret None.

Fixpoint run_ops (fuel : nat) (ops : list op) (node : Z) : prog (SkipList Key) (list (option Key * bool)) :=
  match ops with
  | [] => Ret []
  | o :: ops =>
      let! (node, b) := run_op fuel o node in
      let! k := observe node in
      let! answers := run_ops fuel ops node in
      Ret ((k, b) :: answers)
  end.

(** * The sorted set is what the least and the greatest keys are found in *)

Definition klt (a b : Key) : Prop := key_cmp a b = Lt.

Lemma key_eq_sym a b : key_cmp a b = Eq -> key_cmp b a = Eq.
Proof. intros H. by rewrite key_flip, H. Qed.

Lemma insert_key_perm k S : insert_key k S ≡ₚ k :: S.
Proof.
  induction S as [|x S IH]; cbn; [done|]. destruct (decide _); [|done]. rewrite IH. apply Permutation_swap.
Qed.

Lemma insert_key_sorted k S : Forall key_ok (k :: S) -> Forall (fun k' => key_cmp k' k <> Eq) S -> StronglySorted klt S -> StronglySorted klt (insert_key k S).
Proof.
  intros Hok Hfresh. inversion Hok as [|? ? Hk HS]; subst. induction 1 as [|x S Hs IH Hx]; cbn; [by repeat constructor|].
  inversion HS; subst. inversion Hfresh; subst. destruct (decide _) as [Hlt|Hge].
  - constructor; [apply IH; try done; by constructor|]. apply Forall_forall. intros y Hy. rewrite insert_key_perm in Hy.
    apply elem_of_cons in Hy as [->|Hy]; [done|]. rewrite Forall_forall in Hx. by apply Hx.
  - assert (Hkx : klt k x) by (unfold klt; rewrite key_flip; by destruct (key_cmp x k)).
    constructor; [by constructor|]. constructor; [done|]. apply Forall_forall. intros y Hy. rewrite Forall_forall in Hx, HS. unfold klt in *.
    eapply key_lt_le; [done| | |exact Hkx|by rewrite (Hx y Hy)]; [done|]. rewrite Forall_forall in H2. by apply H2.
Qed.

(** Keys inserted one after the other, none twice. *)
Definition distinct (K : list Key) : Prop := forall K1 k K2, K = K1 ++ k :: K2 -> Forall (fun k' => key_cmp k' k <> Eq) K1.

Lemma distinct_snoc K k : distinct K -> Forall (fun k' => key_cmp k' k <> Eq) K -> distinct (K ++ [k]).
Proof.
  intros HK Hk K1 k' K2 E. destruct K2 as [|x K2 _] using rev_ind.
  - apply app_inj_tail in E as [-> ->]. done.
  - rewrite app_comm_cons, app_assoc in E. apply app_inj_tail in E as [-> _]. by eapply HK.
Qed.

Lemma distinct_prefix K K' : distinct (K ++ K') -> distinct K.
Proof. intros H K1 k K2 ->. apply (H K1 k (K2 ++ K')). by rewrite <- app_assoc. Qed.

Lemma sorted_set_snoc K k : sorted_set (K ++ [k]) = insert_key k (sorted_set K).
Proof. unfold sorted_set. by rewrite foldl_snoc. Qed.

Lemma sorted_set_perm K : sorted_set K ≡ₚ K.
Proof.
  induction K as [|k K IH] using rev_ind; [done|]. rewrite sorted_set_snoc, insert_key_perm, IH. apply Permutation_cons_append.
Qed.

Lemma sorted_set_sorted K : Forall key_ok K -> distinct K -> StronglySorted klt (sorted_set K).
Proof.
  induction K as [|k K IH] using rev_ind; intros Hok Hd; [constructor|]. rewrite sorted_set_snoc. apply Forall_app in Hok as [Hok Hk]. apply insert_key_sorted.
  - inversion Hk; subst. constructor; [done|]. by rewrite sorted_set_perm.
  - rewrite sorted_set_perm. by apply (Hd K k []).
  - apply IH; [done|]. by eapply distinct_prefix.
Qed.

Lemma sorted_unique S a b : StronglySorted klt S -> a ∈ S -> b ∈ S -> key_cmp a b <> Gt -> key_cmp b a <> Gt -> a = b.
Proof.
  induction 1 as [|x S _ IH Hx]; intros Ha Hb H1 H2; [set_solver|]. rewrite Forall_forall in Hx. unfold klt in Hx.
  apply elem_of_cons in Ha as [->|Ha], Hb as [->|Hb]; [done| | |by apply IH].
  - rewrite (key_flip x b), (Hx b Hb) in H2. done.
  - rewrite (key_flip x a), (Hx a Ha) in H1. done.
Qed.

Lemma head_filter_least (P : Key -> Prop) `{!forall k, Decision (P k)} S : StronglySorted klt S -> least P S (head (filter P S)).
Proof.
  induction 1 as [|x S _ IH Hx]; [by intros k Hk; set_solver|]. rewrite filter_cons. destruct (decide (P x)) as [HP|HP]; cbn.
  - split; [by left|]. split; [done|]. intros k Hk _. apply elem_of_cons in Hk as [->|Hk]; [by rewrite cmp_refl|].
    rewrite Forall_forall in Hx. by rewrite (Hx k Hk).
  - destruct (head (filter P S)) as [k|] eqn:E; cbn in *.
    + destruct IH as (H1 & H2 & H3). split; [by right|]. split; [done|]. intros k' Hk' HP'. apply elem_of_cons in Hk' as [->|Hk']; [done|by apply H3].
    + intros k Hk. apply elem_of_cons in Hk as [->|Hk]; [done|by apply IH].
Qed.

Lemma last_filter_greatest (P : Key -> Prop) `{!forall k, Decision (P k)} S : StronglySorted klt S -> greatest P S (last (filter P S)).
Proof.
  induction S as [|x S IH] using rev_ind; intros Hs; [by intros k Hk; set_solver|]. rewrite filter_app, filter_cons, filter_nil. destruct (decide (P x)) as [HP|HP].
  - rewrite last_snoc. split; [set_solver|]. split; [done|]. intros k Hk _. apply elem_of_app in Hk as [Hk|Hk].
    + assert (Hkx : klt k x) by (eapply StronglySorted_app_1_elem_of; [exact Hs|done|by left]). by rewrite Hkx.
    + apply list_elem_of_singleton in Hk as ->. by rewrite cmp_refl.
  - rewrite app_nil_r. specialize (IH (StronglySorted_app_1_l _ _ _ Hs)). destruct (last (filter P S)) as [k|] eqn:E; cbn in *.
    + destruct IH as (H1 & H2 & H3). split; [set_solver|]. split; [done|]. intros k' Hk' HP'. apply elem_of_app in Hk' as [Hk'|Hk']; [by apply H3|].
      apply list_elem_of_singleton in Hk' as ->. done.
    + intros k Hk. apply elem_of_app in Hk as [Hk|Hk]; [by apply IH|]. by apply list_elem_of_singleton in Hk as ->.
Qed.

Lemma least_unique (P : Key -> Prop) K S o o' : K ≡ₚ S -> StronglySorted klt S -> least P K o -> least P S o' -> o = o'.
Proof.
  intros HK Hs H1 H2. destruct o as [k|], o' as [k'|]; cbn in *; [|exfalso|exfalso|done].
  - destruct H1 as (H1 & HP & Hmin), H2 as (H2 & HP' & Hmin'). rewrite HK in H1. f_equal.
    eapply (sorted_unique S); [done..| |by apply Hmin']. apply Hmin; [by rewrite HK|done].
  - destruct H1 as (H1 & HP & _). rewrite HK in H1. by eapply H2.
  - destruct H2 as (H2 & HP & _). rewrite <- HK in H2. by eapply H1.
Qed.

Lemma greatest_unique (P : Key -> Prop) K S o o' : K ≡ₚ S -> StronglySorted klt S -> greatest P K o -> greatest P S o' -> o = o'.
Proof.
  intros HK Hs H1 H2. destruct o as [k|], o' as [k'|]; cbn in *; [|exfalso|exfalso|done].
  - destruct H1 as (H1 & HP & Hmax), H2 as (H2 & HP' & Hmax'). rewrite HK in H1. f_equal.
    eapply (sorted_unique S); [done..|by apply Hmax'|]. apply Hmax; [by rewrite HK|done].
  - destruct H1 as (H1 & HP & _). rewrite HK in H1. by eapply H2.
  - destruct H2 as (H2 & HP & _). rewrite <- HK in H2. by eapply H1.
Qed.

Lemma wf_keys_ok B g : wf B g -> Forall key_ok (inserted g).
Proof. intros Hwf. apply Forall_forall. intros k Hk. apply (key_in B g k Hwf) in Hk as (p & _ & Ek). by eapply wf_node. Qed.

Lemma level_keys_sorted B g l : wf B g -> StronglySorted (node_lt g) l -> StronglySorted klt (omap (fun p => gkey g !! p) l).
Proof.
  intros Hwf. induction 1 as [|p l _ IH Hp]; cbn; [constructor|]. destruct (gkey g !! p) as [k|] eqn:Ek; [|done].
  constructor; [done|]. apply Forall_forall. intros k' Hk'. apply list_elem_of_omap in Hk' as (q & Hq & Ek'). rewrite Forall_forall in Hp.
  destruct (Hp q Hq) as (k1 & E1 & (k2 & E2 & Hlt)). rewrite Ek in E2. rewrite Ek' in E1. injection E1 as <-. by injection E2 as <-.
Qed.

Lemma wf_distinct B g : wf B g -> distinct (inserted g).
Proof.
  intros Hwf K1 k K2 E. assert (Hs : StronglySorted klt (omap (fun p => gkey g !! p) (lv g 0%nat))).
  { apply (level_keys_sorted B); [done|]. apply (wf_sorted B g Hwf). unfold levels; lia. }
  assert (Hnd : NoDup (inserted g)).
  { rewrite <- (wf_perm B g Hwf). revert Hs. generalize (omap (fun p => gkey g !! p) (lv g 0%nat)). induction 1 as [|x L _ IH Hx]; constructor; [|done].
    intros Hin. rewrite Forall_forall in Hx. specialize (Hx x Hin). unfold klt in Hx. by rewrite cmp_refl in Hx. }
  apply Forall_forall. intros k' Hk' Heq. assert (Ek : k' = k).
  { eapply sorted_unique; [exact Hs| | |by rewrite Heq|by rewrite (key_eq_sym _ _ Heq)]; rewrite (wf_perm B g Hwf), E; set_solver. }
  subst k'. rewrite E in Hnd. apply NoDup_app in Hnd as (_ & Hnd & _). apply (Hnd k Hk'). by left.
Qed.

Lemma wf_set_sorted B g : wf B g -> StronglySorted klt (sorted_set (inserted g)) /\ inserted g ≡ₚ sorted_set (inserted g).
Proof. intros Hwf. split; [|by rewrite sorted_set_perm]. apply sorted_set_sorted; [by eapply wf_keys_ok|by eapply wf_distinct]. Qed.

(** * One operation of a reader *)

Section readers.
Context {H : History (hist Key)} (Hsub : forall g g' : hist Key, later g g' -> grows g g').
Variable B : nat.
Notation sees := (@reads (SkipList Key) (hist Key) H (inv B)).

(** The answer of an operation is that of the set at some moment of it. *)
Definition answers_to (o : op) (cur : option Key) (g0 g : hist Key) (r : Z * bool) : Prop :=
  exists cur', node_is g r.1 cur' /\ during (fun gm => spec_read (sorted_set (inserted gm)) cur o = (cur', r.2)) g0 g.

Lemma finds_least (P : Key -> Prop) `{!forall k, Decision (P k)} o cur g0 g p :
  (forall S, spec_read S cur o = (head (filter P S), false)) -> finds B (least P) g0 g p -> answers_to o cur g0 g (p, false).
Proof.
  intros Ho (c & Hc & gm & H1 & H2 & Hwf & HS). exists c. split; [done|]. exists gm. do 2 (split; [done|]). rewrite Ho.
  destruct (wf_set_sorted B gm Hwf) as [Hs Hp]. cbn. f_equal. symmetry. eapply least_unique; [exact Hp|done|exact HS|by apply head_filter_least].
Qed.

Lemma finds_greatest (P : Key -> Prop) `{!forall k, Decision (P k)} o cur g0 g p :
  (forall S, spec_read S cur o = (last (filter P S), false)) -> finds B (greatest P) g0 g p -> answers_to o cur g0 g (p, false).
Proof.
  intros Ho (c & Hc & gm & H1 & H2 & Hwf & HS). exists c. split; [done|]. exists gm. do 2 (split; [done|]). rewrite Ho.
  destruct (wf_set_sorted B gm Hwf) as [Hs Hp]. cbn. f_equal. symmetry. eapply greatest_unique; [exact Hp|done|exact HS|by apply last_filter_greatest].
Qed.

Lemma filter_true (S : list Key) : filter (fun _ => True) S = S.
Proof. induction S as [|x S IH]; [done|]. rewrite filter_cons. rewrite decide_True by done. by rewrite IH. Qed.

Lemma list_read_ok fuel o node cur g : is_read o -> op_key_ok o -> (B + levels <= fuel)%nat -> node_is g node cur ->
  sees (run_op fuel o node) (answers_to o cur g) g.
Proof.
  intros Hr Hk Hf Hn.
  assert (Hnone : forall o', o' = ONext \/ o' = OPrev -> cur = None -> answers_to o' cur g g (node, false)).
  { intros o' Ho' ->. cbn in Hn. exists None. split; [done|]. exists g. do 2 (split; [done|]). by destruct Ho' as [-> | ->]. }
  destruct o as [k|k|k| | | |]; cbn [run_op]; try done.
  - eapply prog_reads_bind; [by apply contains_ok|]. intros g1 b Hg1 (gm & H1 & H2 & Hwfm & Hb). exists cur.
    split; [exact (node_is_grows g g1 node cur (Hsub _ _ Hg1) Hn)|]. exists gm. do 2 (split; [done|]). cbn. f_equal.
    destruct (decide (filter (fun k0 => key_cmp k0 k = Eq) (sorted_set (inserted gm)) = [])) as [E|E].
    + rewrite bool_decide_false by tauto. destruct b; [|done]. destruct (proj1 Hb eq_refl) as (k0 & Hin & Heq). exfalso.
      assert (Hin2 : k0 ∈ filter (fun k0 => key_cmp k0 k = Eq) (sorted_set (inserted gm))) by (apply list_elem_of_filter; by rewrite sorted_set_perm).
      rewrite E in Hin2. by apply not_elem_of_nil in Hin2.
    + rewrite bool_decide_true by done. symmetry. apply Hb. destruct (filter _ _) as [|k0 L] eqn:EL; [done|]. exists k0.
      assert (Hin : k0 ∈ filter (fun k0 => key_cmp k0 k = Eq) (sorted_set (inserted gm))) by (rewrite EL; by left).
      apply list_elem_of_filter in Hin as [? Hin]. by rewrite sorted_set_perm in Hin.
  - eapply prog_reads_bind; [by apply seek_ok|]. intros g1 p Hg1 Hp. by eapply (finds_least (fun k' => key_cmp k' k <> Lt)).
  - eapply prog_reads_bind; [by apply (list_seek_first_ok Hsub B)|]. intros g1 p Hg1 Hp. eapply (finds_least (fun _ => True)); [|done]. intros L. cbn. by rewrite filter_true.
  - eapply prog_reads_bind; [by apply (list_seek_last_ok Hsub B)|]. intros g1 p Hg1 Hp. eapply (finds_greatest (fun _ => True)); [|done]. intros L. cbn. by rewrite filter_true.
  - destruct cur as [k|]; [|cbn in Hn; subst node; cbn; by apply Hnone; auto]. destruct (valid_ok g node k Hn) as [-> _].
    eapply prog_reads_bind; [by apply (list_iter_next_ok Hsub B)|]. intros g1 p Hg1 Hp. by eapply (finds_least (fun k' => key_cmp k k' = Lt)).
  - destruct cur as [k|]; [|cbn in Hn; subst node; cbn; by apply Hnone; auto]. destruct (valid_ok g node k Hn) as [-> _].
    eapply prog_reads_bind; [by apply (list_prev_ok Hsub B)|]. intros g1 p Hg1 Hp. by eapply (finds_greatest (fun k' => key_cmp k' k = Lt)).
Qed.

Lemma observe_ok node cur g : node_is g node cur -> sees (observe node) (fun _ k => k = cur) g.
Proof.
  intros Hn. unfold observe. destruct cur as [k|]; [|by cbn in Hn; subst node]. destruct (valid_ok g node k Hn) as [-> _].
  eapply prog_reads_bind; [by apply (iter_key_ok Hsub B)|]. intros g1 k' _ ->. done.
Qed.

End readers.
(** * On its own *)

(** The keys that a sequence of operations inserts. *)
Definition all_inserts (ops : list op) : list Key := mjoin (inserts <$> ops).

Lemma op_done B fuel o node cur g l w : inv B g l w -> node_is g node cur -> op_key_ok o -> distinct (inserted g ++ inserts o) ->
  (length (inserted g ++ inserts o) <= B)%nat -> (B + levels <= fuel)%nat ->
  writes (inv B) (run_op fuel o node) (fun g1 l1 w1 r => inv B g1 l1 w1 /\ inserted g1 = inserted g ++ inserts o /\
    exists cur', node_is g1 r.1 cur' /\ spec_read (sorted_set (inserted g)) cur o = (cur', r.2)) g l w.
Proof.
  intros HI Hn Hk Hd Hlen Hf. pose proof HI as [Hwf _]. 
  assert (Hcase : (exists k, o = OInsert k) \/ is_read o /\ inserts o = []) by (destruct o; [left; by eexists|by right..]). destruct Hcase as [[k ->]|[Hr Hi]].
  - cbn [inserts op_key_ok run_op spec_read] in *. rewrite length_app in Hlen. cbn in Hlen. eapply (writes_inv (inv B)); [exact HI|]. eapply writes_bind.
    + apply (list_insert_ok B); try done; [lia|]. pose proof (Hd (inserted g) k [] eq_refl) as Hall. by rewrite Forall_forall in Hall.
    + intros g1 l1 w1 [] Hg1 Hins. cbn. split; [exact Hins|]. exists cur. split; [|done]. by eapply (node_is_grows g).
  - rewrite Hi, app_nil_r. eapply writes_mono; [eapply (still_writes (inv B)); [exact HI|]; by apply (list_read_ok (H := still) still_grows B)|].
    cbn. intros g1 l1 w1 r _ (-> & -> & -> & cur' & Hn' & gm & <- & _ & Hs). split; [done|]. split; [done|]. by exists cur'.
Qed.

Lemma list_ops_ok B fuel ops : (B + levels <= fuel)%nat -> forall g l w node cur, inv B g l w -> node_is g node cur -> Forall op_key_ok ops ->
  distinct (inserted g ++ all_inserts ops) -> (length (inserted g ++ all_inserts ops) <= B)%nat ->
  writes (inv B) (run_ops fuel ops node) (fun g1 _ _ answers => answers = spec_run (inserted g) cur ops /\ inserted g1 = inserted g ++ all_inserts ops) g l w.
Proof.
  intros Hf. induction ops as [|o ops IH]; intros g l w node cur HI Hn Hk Hd Hlen; [cbn; by rewrite app_nil_r|].
  inversion Hk; subst. change (all_inserts (o :: ops)) with (inserts o ++ all_inserts ops) in *. rewrite app_assoc in Hd, Hlen. cbn [run_ops].
  eapply writes_bind; [apply (op_done B); try done; [by eapply distinct_prefix|rewrite length_app in Hlen; lia]|].
  intros g1 l1 w1 [node1 b] _ (HI1 & Hins & cur1 & Hn1 & Hspec). cbn [fst snd] in *.
  eapply writes_bind; [eapply (still_writes (inv B)); [exact HI1|]; by apply (observe_ok (H := still) still_grows B node1 cur1)|].
  cbn beta. intros g2 l2 w2 k _ (-> & -> & -> & ->). eapply writes_bind; [apply (IH g1 l1 w1 node1 cur1); try done; by rewrite Hins|].
  cbn beta. intros g3 l3 w3 answers _ [-> Hins3]. cbn. rewrite Hspec, Hins3, Hins, <- app_assoc. done.
Qed.

Lemma all_inserts_length ops : (length (all_inserts ops) <= length ops)%nat.
Proof.
  induction ops as [|o ops IH]; [done|]. change (all_inserts (o :: ops)) with (inserts o ++ all_inserts ops). rewrite length_app. destruct o; cbn; lia.
Qed.

(** C22: a skip list is a sorted set with a cursor: whatever heights the insertions draw, any
    sequence of insertions (of keys that are not there), membership tests and moves of an
    iterator gets the answers of the set; allocation and every loop succeed. *)
Theorem skiplist_refines_set used a w zero ops fuel :
  arena_ok used a w -> Forall op_key_ok ops -> distinct (all_inserts ops) -> (length ops + 12 <= fuel)%nat ->
  exists l w1 l2 w2, new_SkipList zero a tt w = Ok l tt w1 /\
    run (run_ops fuel ops new_Iterator) l w1 = Ok (spec_run [] None ops) l2 w2.
Proof.
  intros Ha Hk Hd Hf. destruct (new_skiplist_ok used a w zero Ha) as (l & w1 & head & E & _ & HI). pose proof (all_inserts_length ops) as Hlen.
  pose proof (list_ops_ok (length ops) fuel ops ltac:(unfold levels; lia) _ l w1 new_Iterator None (HI _) eq_refl Hk Hd Hlen) as Hrun.
  destruct (writes_run _ _ _ _ _ _ (HI _) Hrun) as (g2 & l2 & w2 & answers & E2 & _ & _ & -> & _). by exists l, w1, l2, w2.
Qed.

(** * With a writer at work *)

(** The answers of a reader, each from the set as it was at some moment: the keys inserted
    until then, [K1] at the start and [K2] in the end. *)
Inductive explains : list Key -> option Key -> list op -> list (option Key * bool) -> list Key -> Prop :=
| explains_nil K1 cur K2 : K1 `prefix_of` K2 -> explains K1 cur [] [] K2
| explains_cons K1 K cur o ops cur' b answers K2 :
    K1 `prefix_of` K -> spec_read (sorted_set K) cur o = (cur', b) -> explains K cur' ops answers K2 ->
    explains K1 cur (o :: ops) ((cur', b) :: answers) K2.

Lemma explains_later K0 K1 cur ops answers K2 K3 : K0 `prefix_of` K1 -> K2 `prefix_of` K3 -> explains K1 cur ops answers K2 -> explains K0 cur ops answers K3.
Proof.
  intros H0 H3 H. revert K0 H0. induction H as [K1 cur K2 Hp|K1 K cur o ops cur' b answers K2 Hp Hs _ IH]; intros K0 H0.
  - constructor. by trans K1; [|trans K2].
  - econstructor; [by trans K1|done|]. by apply IH.
Qed.

Lemma reader_ok B fuel ops : (B + levels <= fuel)%nat -> Forall is_read ops -> Forall op_key_ok ops -> forall g node cur, node_is g node cur ->
  reads (inv B) (run_ops fuel ops node) (fun g1 answers => explains (inserted g) cur ops answers (inserted g1)) g.
Proof.
  intros Hf Hr Hk. induction ops as [|o ops IH]; intros g node cur Hn; [by constructor|].
  inversion Hr; inversion Hk; subst. cbn [run_ops].
  eapply prog_reads_bind; [apply (list_read_ok (H := list_history) (fun g g' Hg => Hg) B); try done|].
  intros g1 [node1 b] Hg1 (cur1 & Hn1 & gm & Hgm & Hm1 & Hspec). cbn [fst snd] in *.
  eapply prog_reads_bind; [by apply (observe_ok (H := list_history) (fun g g' Hg => Hg) B node1 cur1)|].
  intros g2 k Hg2 ->. eapply prog_reads_bind; [apply (IH ltac:(done) ltac:(done) g2 node1 cur1 (node_is_grows g1 g2 node1 cur1 Hg2 Hn1))|].
  intros g3 answers Hg3 Hex. cbn [reads]. econstructor; [|exact Hspec|].
  - by destruct Hgm as (_ & _ & _ & _ & ?).
  - eapply explains_later; [|reflexivity|exact Hex]. trans (inserted g1); [by destruct Hm1 as (_ & _ & _ & _ & ?)|by destruct Hg2 as (_ & _ & _ & _ & ?)].
Qed.

(** The keys of the lowest level, by walking along it. *)
Fixpoint walk (n : nat) (l : SkipList Key) (p : Z) : list Key :=
  match n, nodes l !! p with
  | S n, Some nd => node_key nd :: match link l 0 p with Some q => walk n l q | None => [] end
  | _, _ => []
  end.

Definition contents (l : SkipList Key) : list Key :=
  match link l 0 (head_ l) with Some p => walk (size (nodes l)) l p | None => [] end.

Lemma walk_level B g l w : inv B g l w -> forall aft p n, chain (link l 0) p aft -> (forall q, q ∈ aft -> q ∈ lv g 0%nat) -> (length aft <= n)%nat ->
  nodes l !! NULL = None -> match link l 0 p with Some q => walk n l q | None => [] end = omap (fun q => gkey g !! q) aft.
Proof.
  intros [Hwf Hs]. induction aft as [|q aft IH]; intros p n; cbn [chain].
  - intros -> _ _ Hn. by destruct n; cbn; rewrite ?Hn.
  - intros (-> & _ & Hc) Hin Hlen Hn. destruct n as [|n]; [cbn in Hlen; lia|]. destruct (wf_key B g Hwf q) as [k Ek]; [apply Hin; by left|].
    destruct (so_key _ _ _ Hs q k Ek) as (nd & En & <-). cbn. rewrite En, Ek. f_equal. apply IH; [done| |cbn in Hlen; lia|done].
    intros q' Hq'. apply Hin. by right.
Qed.

Lemma nodes_bound B g l w : inv B g l w -> (length (inserted g) <= size (nodes l))%nat.
Proof.
  intros [Hwf Hs]. rewrite (inserted_length B g Hwf). assert (Hsub : list_to_set (lv g 0%nat) ⊆ dom (nodes l)).
  { intros q Hq. apply elem_of_list_to_set in Hq. destruct (wf_key B g Hwf q Hq) as [k Ek].
    destruct (so_key _ _ _ Hs q k Ek) as (nd & En & _). apply elem_of_dom. by rewrite En. }
  apply subseteq_size in Hsub. rewrite size_list_to_set, size_dom in Hsub; [done|]. eapply sorted_nodup, wf_sorted; [done|unfold levels; lia].
Qed.

Lemma contents_ok B g l w : inv B g l w -> contents l ≡ₚ inserted g.
Proof.
  intros HI. pose proof (nodes_bound B g l w HI) as Hlen. pose proof HI as [Hwf Hs]. rewrite (inserted_length B g Hwf) in Hlen.
  rewrite <- (wf_perm B g Hwf). apply reflexive_eq. unfold contents.
  assert (H0 : (0 < levels)%nat) by (unfold levels; lia). rewrite (proj1 (so_head _ _ _ Hs)). eapply (walk_level B); [done|by apply (so_chain _ _ _ Hs)|done|done|].
  destruct (nodes l !! NULL) as [n|] eqn:En; [|done]. exfalso. destruct (so_arena _ _ _ Hs) as (used & Ha & Hused).
  destruct (Hused NULL) as (m & Hin); [by rewrite En|]. pose proof (ao_used _ _ _ Ha) as Hu. rewrite Forall_forall in Hu. destruct (Hu _ Hin) as (? & _). done.
Qed.

Definition writer (fuel : nat) (ks : list Key) := run_ops fuel (OInsert <$> ks) new_Iterator.
Definition reader (fuel : nat) (ops : list op) := run_ops fuel ops new_Iterator.

Lemma all_inserts_writer ks : all_inserts (OInsert <$> ks) = ks.
Proof. induction ks as [|k ks IH]; [done|]. change (k :: all_inserts (OInsert <$> ks) = k :: ks). by rewrite IH. Qed.

Lemma writer_ok B fuel ks g l w : (B + levels <= fuel)%nat -> inv B g l w -> Forall key_ok ks -> distinct (inserted g ++ ks) -> (length (inserted g ++ ks) <= B)%nat ->
  writes (inv B) (writer fuel ks) (fun g1 _ _ _ => inserted g1 = inserted g ++ ks) g l w.
Proof.
  intros Hf HI Hk Hd Hlen. rewrite <- (all_inserts_writer ks) in Hd, Hlen. eapply writes_mono; [eapply (list_ops_ok B fuel _ Hf g l w _ None)|]; try done.
  - by apply Forall_fmap.
  - intros g1 l1 w1 answers _ [_ Hi]. by rewrite Hi, all_inserts_writer.
Qed.

(** The pool of one writer and readers that have been started. *)
Definition pool (B : nat) (K : list Key) (QR : nat -> hist Key -> list (option Key * bool) -> Prop) (g : hist Key) (c : config (SkipList Key) (list (option Key * bool))) : Prop :=
  pool_ok (inv B) (fun g1 _ _ _ => inserted g1 = K) QR g c.

Lemma pool_prefix B K QR g c : pool B K QR g c -> inserted g `prefix_of` K /\ contents (shared c) ≡ₚ inserted g.
Proof.
  intros (HI & (p & _ & Hp) & _). split; [|by eapply contents_ok].
  destruct (writes_run _ _ _ _ _ _ HI Hp) as (g1 & l1 & w1 & a & _ & Hg & _ & <-). by destruct Hg as (_ & _ & _ & _ & ?).
Qed.

Definition read_ok (ops : list op) : Prop := Forall is_read ops /\ Forall op_key_ok ops.

Lemma pool_start B K fuel ks rs g l w : (B + levels <= fuel)%nat -> inv B g l w -> Forall key_ok ks -> distinct K -> (length K <= B)%nat -> K = inserted g ++ ks ->
  Forall read_ok rs -> pool B K (fun _ _ _ => True) g (mk_config (writer fuel ks :: (reader fuel <$> rs)) l w).
Proof.
  intros Hf HI Hk Hd Hlen -> Hrs. split; [done|]. split.
  - exists (writer fuel ks). split; [done|]. by apply writer_ok.
  - intros i p Hi. cbn in Hi. apply list_lookup_fmap_Some in Hi as (ops & -> & Hi). rewrite Forall_lookup in Hrs. destruct (Hrs i ops Hi) as [Hr Hok].
    exists g. split; [done|]. eapply reads_mono; [by eapply (reader_ok B fuel ops Hf Hr Hok g new_Iterator None)|done].
Qed.

Lemma pool_spawn B K fuel ops g c : (B + levels <= fuel)%nat -> read_ok ops -> pool B K (fun _ _ _ => True) g c ->
  pool B K (fun i g1 a => S i = length (threads c) -> explains (inserted g) None ops a (inserted g1)) g (spawn (reader fuel ops) c).
Proof.
  intros Hf [Hr Hok] (HI & (p & Ep & Hp) & Hrs). split; [done|]. split.
  - exists p. split; [|done]. cbn. by apply lookup_app_l_Some.
  - intros i q Hi. cbn in Hi. apply lookup_app_Some in Hi as [Hi|[Hlen Hi]].
    + destruct (Hrs i q Hi) as (g1 & Hg1 & Hq). exists g1. split; [done|]. eapply reads_mono; [exact Hq|]. intros g2 a _ _ E. apply lookup_lt_Some in Hi. lia.
    + apply list_lookup_singleton_Some in Hi as [Hi <-]. exists g. split; [done|].
      eapply reads_mono; [by eapply (reader_ok B fuel ops Hf Hr Hok g new_Iterator None)|]. by intros g2 a _ He _.
Qed.

Lemma steps_length {T R} (c c' : config T R) : rtc cstep c c' -> length (threads c') = length (threads c).
Proof. induction 1 as [|c c1 c2 Hs _ IH]; [done|]. rewrite IH. destruct Hs. cbn. by rewrite length_insert. Qed.

(** A list made of the keys [K0] on its own, a writer that is about to insert [ws], and
    readers. *)
Definition started (zero : Key) (fuel : nat) (K0 ws : list Key) (rs : list (list op)) (c : config (SkipList Key) (list (option Key * bool))) : Prop :=
  (exists used a w0 l1 w1 answers l w, arena_ok used a w0 /\ new_SkipList zero a tt w0 = Ok l1 tt w1 /\ run (writer fuel K0) l1 w1 = Ok answers l w /\
     c = mk_config (writer fuel ws :: (reader fuel <$> rs)) l w) /\
  Forall key_ok (K0 ++ ws) /\ distinct (K0 ++ ws) /\ Forall read_ok rs /\ (length (K0 ++ ws) + 12 <= fuel)%nat.

Lemma started_pool zero fuel K0 ws rs c : started zero fuel K0 ws rs c ->
  (length (K0 ++ ws) + levels <= fuel)%nat /\ exists g, pool (length (K0 ++ ws)) (K0 ++ ws) (fun _ _ _ => True) g c.
Proof.
  intros ((used & a & w0 & l1 & w1 & answers & l & w & Ha & E & E0 & ->) & Hk & Hd & Hrs & Hf). apply Forall_app in Hk as [Hk0 Hk]. set (B := length (K0 ++ ws)) in *.
  assert (HB : (B + levels <= fuel)%nat) by (unfold levels; lia). assert (HB0 : (length K0 <= B)%nat) by (unfold B; rewrite length_app; lia). split; [done|].
  destruct (new_skiplist_ok used a w0 zero Ha) as (l0 & w00 & head & E1 & _ & HI). rewrite E in E1. injection E1 as <- <-.
  destruct (writes_run _ _ _ _ _ _ (HI B) (writer_ok B fuel K0 _ _ _ HB (HI B) Hk0 (distinct_prefix _ _ Hd) HB0)) as (g0 & l2 & w2 & a2 & E2 & _ & HI0 & Hins).
  rewrite E0 in E2. injection E2 as <- <- <-. cbn in Hins. exists g0. apply pool_start; try done; by rewrite Hins.
Qed.

(** C11: readers need no lock.  While a writer inserts keys one after the other, in any
    interleaving of its accesses with those of any number of readers, no access is invalid
    and no assertion fails; and a reader that is started at any moment gets, operation by
    operation, the answers of the set as it was at some moment between its start and its
    end: after some of the insertions, never fewer than before. *)
Theorem skiplist_linearizable zero fuel K0 ws rs ops c0 c1 c2 :
  started zero fuel K0 ws rs c0 -> read_ok ops -> rtc cstep c0 c1 -> rtc cstep (spawn (reader fuel ops) c1) c2 ->
  safe c2 /\ forall answers, last (threads c2) = Some (Ret answers) ->
    exists K1 K2, contents (shared c1) ≡ₚ K1 /\ contents (shared c2) ≡ₚ K2 /\ K2 `prefix_of` K0 ++ ws /\ explains K1 None ops answers K2.
Proof.
  intros H0 Hops Hs1 Hs2. destruct (started_pool _ _ _ _ _ _ H0) as (HB & g0 & Hp0). destruct (pool_steps _ _ _ _ _ _ Hp0 Hs1) as (g1 & _ & Hp1).
  destruct (pool_steps _ _ _ _ _ _ (pool_spawn _ _ fuel ops g1 c1 HB Hops Hp1) Hs2) as (g2 & _ & Hp2).
  split; [by eapply pool_safe|]. intros answers Hlast. exists (inserted g1), (inserted g2). split; [by eapply pool_prefix|].
  destruct (pool_prefix _ _ _ _ _ Hp2) as [? ?]. do 2 (split; [done|]). destruct Hp2 as (_ & _ & Hr).
  pose proof (steps_length _ _ Hs2) as Hlen. cbn in Hlen. rewrite length_app, Nat.add_1_r in Hlen. rewrite last_lookup, Hlen in Hlast. cbn in Hlast.
  destruct Hp1 as (_ & (p & Ep & _) & _). apply lookup_lt_Some in Ep. destruct (threads c1) as [|t ts] eqn:Et; [cbn in Ep; lia|].
  destruct (Hr (length ts) _ Hlast) as (g3 & Hg3 & Hex). cbn in Hex. eapply explains_later; [reflexivity| |by apply Hex]. by destruct Hg3 as (_ & _ & _ & _ & ?).
Qed.

(** ** Readers do not wait *)

Lemma compare_node_bounded n k : bounded 2 (compare_node compare n k).
Proof. apply (bounded_bind 1 1); [apply bounded_one|intros; apply bounded_one]. Qed.

Lemma fge_step_bounded k st : bounded 3 (fge_step compare k st).
Proof.
  destruct st as [[x level] prev]. apply (bounded_bind 1 2); [apply bounded_one|]. intros next. apply (bounded_bind 2 0).
  - unfold KeyIsAfterNode. destruct (_ =? _); [exact I|]. apply (bounded_bind 2 0); [apply compare_node_bounded|done].
  - intros [|]; [exact I|]. by destruct (_ =? _).
Qed.

Lemma find_ge_bounded fuel k prev : bounded (3 * fuel + 3) (FindGreaterOrEqual compare fuel k prev).
Proof.
  replace (3 * fuel + 3)%nat with (1 + (1 + (3 * fuel + 1)))%nat by lia. apply bounded_bind; [apply bounded_one|]. intros x.
  apply bounded_bind; [apply bounded_one|]. intros level. apply bounded_loop, fge_step_bounded.
Qed.

Lemma flt_step_bounded h k st : bounded 6 (flt_step compare h k st).
Proof.
  destruct st as [x level]. apply (bounded_bind 2 4).
  - destruct (_ =? _); [exact I|]. apply (bounded_bind 2 0); [apply compare_node_bounded|done].
  - intros b. apply (bounded_bind 1 3); [apply bounded_one|]. intros _. apply (bounded_bind 1 2); [apply bounded_one|]. intros next. apply (bounded_bind 2 0).
    + destruct (_ =? _); [exact I|]. apply (bounded_bind 2 0); [apply compare_node_bounded|done].
    + intros [|]; [|exact I]. by destruct (_ =? _).
Qed.

Lemma last_step_bounded (st : Z * Z) : bounded 1 (last_step (Key := Key) st).
Proof. destruct st as [x level]. apply (bounded_bind 1 0); [apply bounded_one|]. intros next. destruct (_ =? _); [|exact I]. by destruct (_ =? _). Qed.

Lemma find_less_bounded fuel k : bounded (6 * fuel + 3) (FindLessThan compare fuel k).
Proof.
  replace (6 * fuel + 3)%nat with (1 + (1 + (6 * fuel + 1)))%nat by lia. apply bounded_bind; [apply bounded_one|]. intros x.
  apply bounded_bind; [apply bounded_one|]. intros level. apply bounded_loop, flt_step_bounded.
Qed.

Lemma find_last_bounded fuel : bounded (fuel + 3) (FindLast (Key := Key) fuel).
Proof.
  replace (fuel + 3)%nat with (1 + (1 + (1 * fuel + 1)))%nat by lia. apply bounded_bind; [apply bounded_one|]. intros x.
  apply bounded_bind; [apply bounded_one|]. intros level. apply bounded_loop, last_step_bounded.
Qed.

(** Bounds add up. *)
Lemma bounded_seq {A A'} n n' N (p : prog (SkipList Key) A) (k : A -> prog (SkipList Key) A') :
  bounded n p -> (forall a, bounded n' (k a)) -> (n + n' <= N)%nat -> bounded N (pbind p k).
Proof. intros Hp Hk HN. eapply bounded_mono; [by apply bounded_bind|done]. Qed.

Lemma get_head_bounded {A} n (f : Z -> A) : (1 <= n)%nat -> bounded n (pbind (act (GetHead (Key := Key))) (fun h => Ret (f h))).
Proof. intros Hn. apply (bounded_seq 1 0); [apply bounded_one|done|lia]. Qed.

Lemma contains_bounded fuel k : bounded (3 * fuel + 5) (Contains compare fuel k).
Proof.
  apply (bounded_seq (3 * fuel + 3) 2); [apply find_ge_bounded| |lia]. intros [x prev]. destruct (_ =? _); [exact I|].
  apply (bounded_bind 1 1); [apply bounded_one|intros; apply bounded_one].
Qed.

Lemma iter_next_bounded (node : Z) : bounded 2 (iter_Next (Key := Key) node).
Proof. apply (bounded_bind 1 1); [apply bounded_one|intros; apply bounded_one]. Qed.

Lemma iter_prev_bounded fuel node : bounded (6 * fuel + 6) (iter_Prev compare fuel node).
Proof.
  apply (bounded_seq 1 (6 * fuel + 5)); [apply bounded_one| |lia]. intros _. apply (bounded_seq 1 (6 * fuel + 4)); [apply bounded_one| |lia].
  intros k. apply (bounded_seq (6 * fuel + 3) 1); [apply find_less_bounded| |lia]. intros n. apply get_head_bounded. lia.
Qed.

Lemma iter_seek_to_last_bounded fuel : bounded (fuel + 4) (iter_SeekToLast (Key := Key) fuel).
Proof. apply (bounded_seq (fuel + 3) 1); [apply find_last_bounded| |lia]. intros n. apply get_head_bounded. lia. Qed.

Lemma read_op_bounded fuel o node : is_read o -> bounded (6 * fuel + 6) (run_op fuel o node).
Proof.
  intros Hr. destruct o; try done; cbn [run_op].
  - apply (bounded_seq (3 * fuel + 5) 0); [apply contains_bounded|done|lia].
  - apply (bounded_seq (3 * fuel + 3) 0); [|done|lia]. apply (bounded_seq (3 * fuel + 3) 0); [apply find_ge_bounded|by intros []|lia].
  - apply (bounded_seq 2 0); [apply (bounded_bind 1 1); [apply bounded_one|intros; apply bounded_one]|done|lia].
  - apply (bounded_seq (fuel + 4) 0); [apply iter_seek_to_last_bounded|done|lia].
  - destruct (Valid node); [|exact I]. apply (bounded_seq 2 0); [apply iter_next_bounded|done|lia].
  - destruct (Valid node); [|exact I]. apply (bounded_seq (6 * fuel + 6) 0); [apply iter_prev_bounded|done|lia].
Qed.

Lemma observe_bounded (node : Z) : bounded 2 (observe node).
Proof.
  unfold observe. destruct (Valid node); [|exact I]. apply (bounded_seq 2 0); [|done|lia].
  apply (bounded_bind 1 1); [apply bounded_one|intros; apply bounded_one].
Qed.

Lemma reader_bounded fuel ops node : Forall is_read ops -> bounded (length ops * (6 * fuel + 8)) (run_ops fuel ops node).
Proof.
  intros Hr. revert node. induction Hr as [|o ops Ho _ IH]; intros node; [exact I|]. cbn [run_ops length].
  apply (bounded_seq (6 * fuel + 6) (2 + length ops * (6 * fuel + 8))); [by apply read_op_bounded| |lia]. intros [node1 b].
  apply (bounded_seq 2 (length ops * (6 * fuel + 8))); [apply observe_bounded| |lia]. intros k.
  apply (bounded_seq (length ops * (6 * fuel + 8)) 0); [apply IH|done|lia].
Qed.

(** C23: readers are wait-free.  However its accesses interleave with those of the writer
    and of other readers, a reader is through after a number of accesses of its own that is
    linear in the number of its operations, and until then it can always go on. *)
Theorem readers_wait_free zero fuel K0 ws rs ops c0 c1 c2 n :
  started zero fuel K0 ws rs c0 -> read_ok ops -> rtc cstep c0 c1 ->
  steps_of (length (threads c1)) n (spawn (reader fuel ops) c1) c2 ->
  (n <= length ops * (6 * fuel + 8))%nat /\
  ((exists answers, threads c2 !! length (threads c1) = Some (Ret answers)) \/ exists c3, steps_of (length (threads c1)) 1 c2 c3).
Proof.
  intros H0 Hops Hs1 Hs2. destruct (started_pool _ _ _ _ _ _ H0) as (HB & g0 & Hp0). destruct (pool_steps _ _ _ _ _ _ Hp0 Hs1) as (g1 & _ & Hp1).
  pose proof (steps_of_rtc _ _ _ _ Hs2) as Hrtc.
  destruct (pool_steps _ _ _ _ _ _ (pool_spawn _ _ fuel ops g1 c1 HB Hops Hp1) Hrtc) as (g2 & _ & Hp2). split.
  - eapply steps_of_bounded; [exact Hs2| |apply reader_bounded, Hops]. cbn. by apply list_lookup_middle.
  - pose proof (steps_length _ _ Hrtc) as Hlen. cbn in Hlen. rewrite length_app in Hlen. cbn in Hlen.
    destruct (lookup_lt_is_Some_2 (threads c2) (length (threads c1))) as [p Ep]; [lia|]. destruct p as [answers|B m k]; [left; by exists answers|right].
    destruct (pool_safe _ _ _ _ _ Hp2 _ _ _ _ Ep) as (b & s & w & Em). destruct c2 as [ts s2 w2]. cbn in *.
    eexists. eapply steps_of_own; [exact Ep|exact Em|constructor].
Qed.

End spec.
Arguments op Key : clear implicits.

(** * The keys of a comparator *)

#[export] Program Instance comparator_key_order `{ComparatorLaws} : KeyOrder Compare := {|
  key_ok := valid_key;
  key_cmp := order;
|}.
Next Obligation. intros. by apply compare_ok. Qed.
Next Obligation. intros. apply order_flip. Qed.
Next Obligation. intros ? ? a b c. apply order_lt_le. Qed.
Next Obligation. intros ? ? a b c. apply order_le_lt. Qed.

(** ** An example: three keys, one of them inserted while a reader scans *)

Definition example_world : world := World ∅ ∅ 16.

Lemma example_arena : arena_ok [] new_Arena example_world.
Proof. split; cbn; try done. constructor. Qed.

Definition example_ops : list (op (list Z)) := [OInsert [5]; OInsert [3]; OSeek [4]; OPrev; OContains [4]; OPrev].

Lemma skiplist_refines_set_witness :
  spec_run [] None example_ops = [(None, false); (None, false); (Some [5], false); (Some [3], false); (Some [3], false); (None, false)] /\
  exists l w1 l2 w2, new_SkipList [] new_Arena tt example_world = Ok l tt w1 /\
    run (run_ops (compare := Compare) 18 example_ops new_Iterator) l w1 = Ok (spec_run [] None example_ops) l2 w2.
Proof.
  split; [by vm_compute|]. apply (skiplist_refines_set []); [exact example_arena| | |by apply Nat.leb_le].
  - repeat constructor; lia.
  - apply (distinct_snoc [[5]]); [apply (distinct_snoc [])|]; repeat constructor; try done. by intros [].
Defined.

Lemma distinct_two (a b : list Z) : lex a b <> Eq -> distinct [a; b].
Proof. intros H. apply (distinct_snoc [a] b); [|by repeat constructor]. apply (distinct_snoc [] a); [|constructor]. by intros []. Qed.

Definition example_reader : list (op (list Z)) := [OSeekToFirst; ONext].

Definition example_start : option (config (SkipList (list Z)) (list (option (list Z) * bool))) :=
  match new_SkipList ([] : list Z) new_Arena tt example_world with
  | Ok l _ w =>
      match run (writer (compare := Compare) 14 [[5]]) l w with
      | Ok _ l w => Some (mk_config [writer (compare := Compare) 14 [[3]]] l w)
      | _ => None
      end
  | _ => None
  end.

Lemma example_started c0 : example_start = Some c0 -> started (compare := Compare) [] 14 [[5]] [[3]] [] c0.
Proof.
  unfold example_start. intros H. destruct (new_SkipList _ _ _ _) as [l1 [] w1| | |] eqn:E1; [|discriminate H..].
  destruct (run _ _ _) as [answers l w| | |] eqn:E2; [|discriminate H..]. injection H as <-. split; [|split; [|split; [|split]]].
  - exists [], new_Arena, example_world, l1, w1, answers, l, w. exact (conj example_arena (conj E1 (conj E2 eq_refl))).
  - repeat constructor; lia.
  - by apply distinct_two.
  - constructor.
  - by apply Nat.leb_le.
Qed.

(** The reader's first access, the whole insertion, and the rest of the reader. *)
Definition example_schedule : list nat := repeat 1%nat 1 ++ repeat 0%nat 19 ++ repeat 1%nat 7.

Definition example_end := match example_start with Some c0 => schedule example_schedule (spawn (reader (compare := Compare) 14 example_reader) c0) | None => None end.

Lemma skiplist_linearizable_witness : exists c0 c2, example_start = Some c0 /\ example_end = Some c2 /\ safe c2 /\
  exists K1 K2, contents (shared c0) ≡ₚ K1 /\ contents (shared c2) ≡ₚ K2 /\ K2 `prefix_of` [[5]; [3]] /\
    explains (compare := Compare) K1 None example_reader [(Some [3], false); (Some [5], false)] K2.
Proof.
  assert (Hlast : match example_end with Some c2 => last (threads c2) | None => None end = Some (Ret [(Some [3], false); (Some [5], false)])) by (vm_compute; reflexivity).
  unfold example_end in *. destruct example_start as [c0|] eqn:E0; [|discriminate Hlast]. destruct (schedule _ _) as [c2|] eqn:E2; [|discriminate Hlast].
  exists c0, c2. split; [reflexivity|]. split; [reflexivity|].
  destruct (skiplist_linearizable [] 14 [[5]] [[3]] [] example_reader c0 c0 c2 (example_started c0 E0)) as [Hs Hr].
  - split; repeat constructor.
  - apply rtc_refl.
  - by eapply schedule_rtc.
  - split; [exact Hs|]. apply (Hr _ Hlast).
Defined.

Lemma readers_wait_free_witness : exists c0, example_start = Some c0 /\
  ((exists answers, threads (spawn (reader (compare := Compare) 14 example_reader) c0) !! length (threads c0) = Some (Ret answers)) \/
   exists c3, steps_of (length (threads c0)) 1 (spawn (reader (compare := Compare) 14 example_reader) c0) c3).
Proof.
  assert (H : match example_start with Some _ => True | None => False end) by (vm_compute; exact I). destruct example_start as [c0|] eqn:E0; [|destruct H].
  exists c0. split; [reflexivity|].
  apply (readers_wait_free [] 14 [[5]] [[3]] [] example_reader c0 c0 (spawn (reader 14 example_reader) c0) 0 (example_started c0 E0)).
  - split; repeat constructor.
  - apply rtc_refl.
  - apply steps_of_nil.
Defined.
