(* ===== verification/LdbMemTable.v ===== *)
(** LevelDB's db/memtable.h and db/memtable.cc: the table in memory that holds the recent
    writes, a skip list of encoded entries.

    A [const char*] into an entry is the list of the bytes from it on.  The struct is kept
    in [MemTable]; its arena is the one inside the skip list. *)
From stdpp Require Import base gmap list strings numbers option.
From Stdlib Require Import ZArith Lia.
From S2P Require Import Prelude Cmem Conc LdbCoding LdbEnv LdbComparator LdbFormat LdbSkipList.

(** A read of a pointer that is known to be good: [None] if it leaves the entry.  The rest
    of the entry is returned too. *)
Definition mem_slice (data : list Z) : option (list Z * list Z) :=
  match GetVarint32Ptr (take 5 data) with
  | Some (len, rest) =>
      let p := drop (length (take 5 data) - length rest) data in
      if len <=? size p then Some (take (Z.to_nat len) p, drop (Z.to_nat len) p) else None
  | None => None
  end.

Section memtable.
Context (user_comparator : Comparator).

(** [KeyComparator] *)
Definition memtable_compare (aptr bptr : list Z) : option Z :=
  match mem_slice aptr, mem_slice bptr with
  | Some (a, _), Some (b, _) => internal_compare user_comparator a b
  | _, _ => None
  end.

Record MemTable := mk_memtable { table_ : SkipList (list Z); refs_ : Z }.

Definition new_MemTable : SM unit MemTable :=
  let* table := new_SkipList [] new_Arena in ret (mk_memtable table 0).

Definition Ref : SM MemTable unit := modify (fun m => mk_memtable (table_ m) (refs_ m + 1)).

(** The result says whether the table is deleted. *)
Definition Unref : SM MemTable bool :=
  modify (fun m => mk_memtable (table_ m) (refs_ m - 1));;
  let* m := get in
  assert_ (0 <=? refs_ m);;
  ret (refs_ m <=? 0).

Definition ApproximateMemoryUsage (m : MemTable) : Z := MemoryUsage (arena_ (table_ m)).

Definition EncodeKey (target : list Z) : list Z := PutVarint32 [] (u32 (size target)) ++ target.

(** A call on the skip list. *)
Definition in_table {A} (p : SM (SkipList (list Z)) A) : SM MemTable A := fun m w =>
  match p (table_ m) w with
  | Ok a l w => Ok a (mk_memtable l (refs_ m)) w
  | Err l w => Err (mk_memtable l (refs_ m)) w
  | UB => UB
  | NoFuel => NoFuel
  end.

(** More rounds than any search of the table needs. *)
Definition search_fuel (m : MemTable) : nat := stdpp.base.size (nodes (table_ m)) + 13.

Definition Add (s : Z) (t : ValueType) (key value : list Z) : SM MemTable unit :=
  let key_size := size key in
  let val_size := size value in
  let internal_key_size := u64 (key_size + 8) in
  let encoded_len := u64 (VarintLength internal_key_size + internal_key_size + VarintLength val_size + val_size) in
  let* _ := in_table (in_arena (Allocate encoded_len)) in
  let buf := EncodeVarint32 (u32 internal_key_size) in
  let buf := buf ++ key in
  let buf := buf ++ EncodeFixed64 (Z.lor (u64 (Z.shiftl s 8)) (type_val t)) in
  let buf := buf ++ EncodeVarint32 (u32 val_size) in
  let buf := buf ++ value in
  assert_ (size buf =? encoded_len);;
  let* m := get in
  in_table (run (Insert memtable_compare (search_fuel m) buf)).

(** [None]: false; a value, or a status. *)
Definition Get (key : LookupKey) : SM MemTable (option (list Z + Status)) :=
  let memkey := memtable_key key in
  let* m := get in
  let* iter := in_table (run (iter_Seek memtable_compare (search_fuel m) memkey)) in
  if Valid iter then
    let* entry := in_table (run (iter_key iter)) in
    let* (key_length, rest) := must (GetVarint32Ptr (take 5 entry)) in
    let key_ptr := drop (length (take 5 entry) - length rest) entry in
    assert_ (u32 (key_length - 8) <=? size key_ptr);;
    let* c := must (@Compare user_comparator (take (Z.to_nat (u32 (key_length - 8))) key_ptr) (lookup_user_key key)) in
    if c =? 0 then
      assert_ (8 <=? key_length);;
      let* tag := must (DecodeFixed64 (drop (Z.to_nat (key_length - 8)) key_ptr)) in
      let t := Z.land tag 0xff in
      if t =? type_val kTypeValue then
        let* (v, _) := must (mem_slice (drop (Z.to_nat key_length) key_ptr)) in
        ret (Some (inl v))
      else if t =? type_val kTypeDeletion then ret (Some (inr (NotFound "")))
      else ret None
    else ret None
  else ret None.

(** * MemTableIterator: the node of the skip list's iterator *)

Definition mti_Valid (iter : Z) : bool := Valid iter.

Definition mti_Seek (k : list Z) : SM MemTable Z :=
  let* m := get in in_table (run (iter_Seek memtable_compare (search_fuel m) (EncodeKey k))).

Definition mti_SeekToFirst : SM MemTable Z := in_table (run iter_SeekToFirst).
Definition mti_SeekToLast : SM MemTable Z := let* m := get in in_table (run (iter_SeekToLast (search_fuel m))).
Definition mti_Next (iter : Z) : SM MemTable Z := in_table (run (iter_Next iter)).
Definition mti_Prev (iter : Z) : SM MemTable Z := let* m := get in in_table (run (iter_Prev memtable_compare (search_fuel m) iter)).

Definition mti_key (iter : Z) : SM MemTable (list Z) :=
  let* entry := in_table (run (iter_key iter)) in
  let* (k, _) := must (mem_slice entry) in ret k.

Definition mti_value (iter : Z) : SM MemTable (list Z) :=
  let* entry := in_table (run (iter_key iter)) in
  let* (_, rest) := must (mem_slice entry) in
  let* (v, _) := must (mem_slice rest) in ret v.

End memtable.
