(* ===== verification/LdbMemTableThms.v ===== *)
(** What the table in memory promises: a lookup at a sequence number gets the newest entry
    for its key that is not younger, among everything that was added. *)
From stdpp Require Import base gmap list strings numbers option sorting.
From Stdlib Require Import ZArith Lia.
From S2P Require Import Prelude Cmem Conc PbWire LdbCoding LdbCodingThms LdbEnv LdbComparator LdbFormat LdbFormatThms.
From S2P Require Import LdbSkipList LdbSkipListThms LdbSkipListSpec LdbMemTable.

(** * Entries *)

Lemma varint_ptr_take n rest : 0 <= n < 2 ^ 32 -> is_bytes rest ->
  exists r, GetVarint32Ptr (take 5 (EncodeVarint32 n ++ rest)) = Some (n, r) /\
    (length (take 5 (EncodeVarint32 n ++ rest)) - length r)%nat = length (EncodeVarint32 n).
Proof.
  intros Hn Hr. assert (Hlen : (length (EncodeVarint32 n) <= 5)%nat) by (rewrite encode_varint32 by done; by apply varint32_length).
  rewrite take_app_ge by done. exists (take (5 - length (EncodeVarint32 n)) rest). split.
  - apply get_put_varint32; [done|]. by apply Forall_take.
  - rewrite length_app. lia.
Qed.

Lemma mem_slice_ok k rest : size k < 2 ^ 32 -> is_bytes (k ++ rest) -> mem_slice (EncodeVarint32 (size k) ++ k ++ rest) = Some (k, rest).
Proof.
  intros Hk Hb. unfold mem_slice. pose proof (size_nonneg k). destruct (varint_ptr_take (size k) (k ++ rest)) as (r & -> & E); [done|done|].
  rewrite E, drop_app_length, size_app. pose proof (size_nonneg rest). rewrite (proj2 (Z.leb_le _ _)) by lia.
  unfold size. rewrite Nat2Z.id, take_app_length, drop_app_length. done.
Qed.

Section memtable.
Context {user : Comparator} {laws : ComparatorLaws}.

(** An entry as the code reads it: an internal key with its length, and what follows. *)
Definition is_entry (e : list Z) : Prop :=
  exists k rest, e = EncodeVarint32 (size k) ++ k ++ rest /\ internal_valid k /\ size k < 2 ^ 32 /\ is_bytes (k ++ rest).

(** The internal key of an entry. *)
Definition entry_key (e : list Z) : list Z := match mem_slice e with Some (k, _) => k | None => [] end.
Definition entry_cmp (a b : list Z) : comparison := internal_order (entry_key a) (entry_key b).

Lemma entry_key_ok k rest : size k < 2 ^ 32 -> is_bytes (k ++ rest) -> entry_key (EncodeVarint32 (size k) ++ k ++ rest) = k.
Proof. intros Hk Hb. unfold entry_key. by rewrite mem_slice_ok. Qed.

Lemma entry_key_valid e : is_entry e -> internal_valid (entry_key e).
Proof. intros (k & rest & -> & Hv & Hk & Hb). by rewrite entry_key_ok. Qed.

#[export] Program Instance entry_order : KeyOrder (memtable_compare user) := {|
  key_ok := is_entry;
  key_cmp := entry_cmp;
|}.
Next Obligation.
  intros a b Ha Hb. destruct (internal_compare_ok (entry_key a) (entry_key b)) as (c & E & Hc); [by apply entry_key_valid..|].
  exists c. split; [|done]. destruct Ha as (k & rest & -> & _ & Hk & Hr), Hb as (k' & rest' & -> & _ & Hk' & Hr').
  unfold memtable_compare. rewrite !mem_slice_ok by done. by rewrite !entry_key_ok in E by done.
Qed.
Next Obligation. intros a b. apply internal_order_flip. Qed.
Next Obligation. intros a b c Ha Hb Hc. apply internal_lt_le; by apply entry_key_valid. Qed.
Next Obligation. intros a b c Ha Hb Hc. apply internal_le_lt; by apply entry_key_valid. Qed.

(** * Versions *)

Record version := mk_version { v_user : list Z; v_seq : Z; v_type : ValueType; v_value : list Z }.

Definition version_ok (v : version) : Prop :=
  valid_key (v_user v) /\ is_bytes (v_user v) /\ is_bytes (v_value v) /\ 0 <= v_seq v <= kMaxSequenceNumber /\
  size (v_user v) + 8 < 2 ^ 32 /\ size (v_value v) < 2 ^ 32.

Definition version_key (v : version) : list Z := internal_key (v_user v) (tag_of (v_seq v) (v_type v)).
Definition entry_of (v : version) : list Z :=
  EncodeVarint32 (size (version_key v)) ++ version_key v ++ EncodeVarint32 (size (v_value v)) ++ v_value v.

(** The newest version of a key that a snapshot sees, by going through all versions. *)
Definition visible (u : list Z) (s : Z) (v : version) : bool := (match order (v_user v) u with Eq => true | _ => false end) && (v_seq v <=? s).

Fixpoint newest (u : list Z) (s : Z) (vs : list version) : option version :=
  match vs with
  | [] => None
  | v :: vs =>
      if visible u s v then
        match newest u s vs with
        | Some v' => if v_seq v <? v_seq v' then Some v' else Some v
        | None => Some v
        end
      else newest u s vs
  end.

Definition answer (v : option version) : option (list Z + Status) :=
  match v with
  | Some v => match v_type v with kTypeValue => Some (inl (v_value v)) | kTypeDeletion => Some (inr (NotFound "")) end
  | None => None
  end.

(** No key has two versions with the same number. *)
Definition versions_distinct (vs : list version) : Prop :=
  forall vs1 v vs2, vs = vs1 ++ v :: vs2 -> Forall (fun v' => order (v_user v') (v_user v) = Eq -> v_seq v' <> v_seq v) vs1.

Lemma internal_key_bytes u tag : is_bytes u -> is_bytes (internal_key u tag).
Proof. intros Hu. unfold internal_key. apply Forall_app. split; [done|apply le_bytes_bytes]. Qed.

Lemma version_key_valid v : version_ok v -> internal_valid (version_key v).
Proof. intros (Hv & _ & _ & Hs & _). exists (v_user v), (tag_of (v_seq v) (v_type v)). split; [done|]. split; [by apply tag_range|done]. Qed.

Lemma version_key_size v : size (version_key v) = size (v_user v) + 8.
Proof. unfold size, version_key. rewrite internal_key_length. lia. Qed.

Lemma entry_bytes v : version_ok v -> is_bytes (version_key v ++ EncodeVarint32 (size (v_value v)) ++ v_value v).
Proof.
  intros (_ & Hu & Hv & _ & _ & Hs). apply Forall_app. split; [by apply internal_key_bytes|]. apply Forall_app. split; [|done].
  apply encode_varint32_bytes. pose proof (size_nonneg (v_value v)). lia.
Qed.

Lemma entry_is_entry v : version_ok v -> is_entry (entry_of v).
Proof.
  intros Hv. eexists _, _. split; [reflexivity|]. split; [by apply version_key_valid|]. split; [|by apply entry_bytes].
  rewrite version_key_size. apply Hv.
Qed.

Lemma entry_of_key v : version_ok v -> entry_key (entry_of v) = version_key v.
Proof. intros Hv. apply entry_key_ok; [rewrite version_key_size; apply Hv|by apply entry_bytes]. Qed.

Lemma version_parts v : version_ok v -> user_part (version_key v) = v_user v /\ tag_part (version_key v) = tag_of (v_seq v) (v_type v).
Proof. intros (_ & _ & _ & Hs & _). apply parts. by apply tag_range. Qed.

(** The order of entries: by key, and newer versions first. *)
Lemma entry_cmp_spec v v' : version_ok v -> version_ok v' ->
  entry_cmp (entry_of v) (entry_of v') =
    match order (v_user v) (v_user v') with Eq => tag_of (v_seq v') (v_type v') ?= tag_of (v_seq v) (v_type v) | c => c end.
Proof.
  intros Hv Hv'. unfold entry_cmp, internal_order. rewrite !entry_of_key by done.
  destruct (version_parts v Hv) as [-> ->], (version_parts v' Hv') as [-> ->]. done.
Qed.

Lemma tag_lt s t s' t' : s < s' -> tag_of s t < tag_of s' t'.
Proof. intros H. pose proof (type_range t). pose proof (type_range t'). unfold tag_of. lia. Qed.

Lemma entries_distinct vs : Forall version_ok vs -> versions_distinct vs -> distinct (entry_of <$> vs).
Proof.
  intros Hok Hd K1 k K2 E. apply fmap_app_inv in E as (vs1 & vs2 & -> & E & ->). symmetry in E. apply fmap_cons_inv in E as (v & vs3 & -> & -> & ->).
  apply Forall_fmap. pose proof (Hd vs1 v vs3 eq_refl) as H. apply Forall_app in Hok as [Hok1 Hok2]. apply Forall_cons_1 in Hok2 as [Hv _].
  rewrite Forall_forall in H, Hok1 |- *. intros v' Hv' Heq. cbn in Heq. rewrite entry_cmp_spec in Heq by auto.
  destruct (order (v_user v') (v_user v)) eqn:Eo; [|done..]. apply Z.compare_eq in Heq. specialize (H v' Hv' Eo).
  destruct (Z.lt_trichotomy (v_seq v') (v_seq v)) as [Hlt|[He|Hlt]]; [|done|].
  - pose proof (tag_lt _ (v_type v') _ (v_type v) Hlt). lia.
  - pose proof (tag_lt _ (v_type v) _ (v_type v') Hlt). lia.
Qed.

(** * The table *)

(** What was added, in order. *)
Definition holds (vs : list version) (m : MemTable) (w : world) : Prop :=
  Forall version_ok vs /\ versions_distinct vs /\ exists g, inserted g = entry_of <$> vs /\ forall B, (length vs <= B)%nat -> inv B g (table_ m) w.

Lemma new_memtable_ok used w : arena_ok used new_Arena w -> exists m w', new_MemTable tt w = Ok m tt w' /\ holds [] m w' /\ refs_ m = 0.
Proof.
  intros Ha. destruct (new_skiplist_ok (KeyOrder0 := entry_order) used new_Arena w [] Ha) as (l & w' & head & E & _ & HI).
  unfold new_MemTable, bind. rewrite E. eexists _, w'. split; [reflexivity|]. split; [|done]. split; [constructor|]. split; [by intros []|].
  exists (new_hist head). split; [done|]. intros B _. apply HI.
Qed.

Lemma inv_allocate B g (l : SkipList (list Z)) w n : inv B g l w -> 0 < n ->
  exists p l' w', in_arena (Allocate n) l w = Ok p l' w' /\ inv B g l' w'.
Proof.
  intros [Hwf [? ? ? ? ? ? (used & Ha & Hused)]] Hn. destruct (allocate_ok used (arena_ l) w n Ha Hn) as (p & a' & w' & E & _ & Ha').
  unfold in_arena. rewrite E. eexists p, _, w'. split; [reflexivity|]. split; [done|]. split; try done. exists ((p, n) :: used). split; [done|].
  intros q Hq. destruct (Hused q Hq) as (k & ?). exists k. by right.
Qed.

Lemma tag_bits s t : 0 <= s <= kMaxSequenceNumber -> Z.lor (u64 (Z.shiftl s 8)) (type_val t) = tag_of s t.
Proof. intros Hs. pose proof (pack_ok s t Hs) as H. unfold PackSequenceAndType in H. destruct (_ && _); [by injection H|done]. Qed.

Lemma varint32_size n : 0 <= n < 2 ^ 32 -> VarintLength n = size (EncodeVarint32 n).
Proof. intros Hn. rewrite varint_length_ok by lia. unfold size. by rewrite encode_varint64, encode_varint32 by lia. Qed.

Lemma in_table_ok {A} (p : SM (SkipList (list Z)) A) m w a l w' : p (table_ m) w = Ok a l w' -> in_table p m w = Ok a (mk_memtable l (refs_ m)) w'.
Proof. intros E. unfold in_table. by rewrite E. Qed.

Lemma holds_snoc vs v g m w : Forall version_ok vs -> versions_distinct (vs ++ [v]) -> version_ok v -> inserted g = entry_of <$> (vs ++ [v]) ->
  inv (S (length vs)) g (table_ m) w -> holds (vs ++ [v]) m w.
Proof.
  intros Hok Hd Hv Hg [Hwf Hs]. split; [apply Forall_app; split; [done|by apply Forall_singleton]|]. split; [done|]. exists g. split; [done|]. intros B HB. split; [|done].
  destruct Hwf as [H1 H2 H3 H4 H5 H6]. split; try done. rewrite length_app in HB. cbn in HB. lia.
Qed.

(** [Add] adds the version. *)
Lemma add_version_ok vs v m w : holds vs m w -> version_ok v -> versions_distinct (vs ++ [v]) ->
  exists m' w', Add user (v_seq v) (v_type v) (v_user v) (v_value v) m w = Ok tt m' w' /\ holds (vs ++ [v]) m' w' /\ refs_ m' = refs_ m.
Proof.
  intros (Hok & _ & g & Hg & HI) Hv Hd. pose proof Hv as (_ & _ & _ & Hs & Hus & Hvs).
  pose proof (size_nonneg (v_user v)). pose proof (size_nonneg (v_value v)). specialize (HI (S (length vs)) ltac:(lia)).
  assert (Elen : u64 (VarintLength (u64 (size (v_user v) + 8)) + u64 (size (v_user v) + 8) + VarintLength (size (v_value v)) + size (v_value v)) = size (entry_of v) /\ 0 < size (entry_of v)).
  { rewrite (u64_small (size (v_user v) + 8)) by lia. rewrite !varint32_size by lia. unfold entry_of. rewrite !size_app, version_key_size.
    pose proof (size_nonneg (EncodeVarint32 (size (v_user v) + 8))). pose proof (size_nonneg (EncodeVarint32 (size (v_value v)))).
    assert (forall n, 0 <= n < 2 ^ 32 -> size (EncodeVarint32 n) <= 5).
    { intros n Hn. unfold size. rewrite encode_varint32 by done. pose proof (varint32_length n Hn). lia. }
    pose proof (H3 (size (v_user v) + 8) ltac:(lia)). pose proof (H3 (size (v_value v)) ltac:(lia)). rewrite u64_small by lia. lia. }
  destruct Elen as [Elen Hpos]. unfold Add. rewrite Elen.
  destruct (inv_allocate _ _ _ _ _ HI Hpos) as (p & l1 & w1 & E1 & HI1). unfold bind at 1. rewrite (in_table_ok _ _ _ _ _ _ E1).
  assert (Ebuf : ((((EncodeVarint32 (u32 (u64 (size (v_user v) + 8))) ++ v_user v) ++ EncodeFixed64 (Z.lor (u64 (Z.shiftl (v_seq v) 8)) (type_val (v_type v)))) ++
    EncodeVarint32 (u32 (size (v_value v)))) ++ v_value v) = entry_of v).
  { rewrite tag_bits, fixed64_bytes, u64_small, !u32_small by lia. unfold entry_of. rewrite version_key_size. unfold version_key, internal_key. by rewrite <- !app_assoc. }
  rewrite Ebuf, Z.eqb_refl. unfold bind at 1, assert_, ret. unfold bind at 1, get.
  assert (Hfuel : (S (length vs) + levels <= search_fuel (mk_memtable l1 (refs_ m)))%nat).
  { pose proof (nodes_bound _ _ _ _ HI1) as Hn. rewrite Hg, length_fmap in Hn. unfold search_fuel, levels. cbn [table_]. lia. }
  assert (Hdist : forall k, k ∈ inserted g -> entry_cmp k (entry_of v) <> Eq).
  { pose proof (entries_distinct (vs ++ [v])) as Hed. rewrite fmap_app in Hed. intros k Hk.
    specialize (Hed ltac:(apply Forall_app; split; [done|by apply Forall_singleton]) Hd (entry_of <$> vs) (entry_of v) [] eq_refl). rewrite Forall_forall in Hed. apply Hed. by rewrite <- Hg. }
  pose proof (list_insert_ok (S (length vs)) _ (entry_of v) g l1 w1 HI1 (entry_is_entry v Hv) Hfuel ltac:(rewrite Hg, length_fmap; lia) Hdist) as Hins.
  destruct (writes_run _ _ _ _ _ _ HI1 Hins) as (g2 & l2 & w2 & [] & E2 & _ & HI2 & Hg2).
  exists (mk_memtable l2 (refs_ m)), w2. split; [exact (in_table_ok _ (mk_memtable l1 (refs_ m)) _ _ _ _ E2)|]. split; [|done].
  eapply holds_snoc; [done|done|done| |exact HI2]. rewrite Hg2, Hg, fmap_app. done.
Qed.

(** ** Lookups *)

Lemma newest_spec u s vs :
  match newest u s vs with
  | None => forall y, y ∈ vs -> visible u s y = false
  | Some x => x ∈ vs /\ visible u s x = true /\ forall y, y ∈ vs -> visible u s y = true -> v_seq y <= v_seq x
  end.
Proof.
  induction vs as [|v vs IH]; cbn; [by intros y Hy; apply not_elem_of_nil in Hy|]. destruct (visible u s v) eqn:Ev.
  - destruct (newest u s vs) as [x|].
    + destruct IH as (H1 & H2 & H3). destruct (Z.ltb_spec (v_seq v) (v_seq x)) as [Hlt|Hge].
      * split; [by right|]. split; [done|]. intros y Hy Hvis. apply elem_of_cons in Hy as [->|Hy]; [lia|by apply H3].
      * split; [by left|]. split; [done|]. intros y Hy Hvis. apply elem_of_cons in Hy as [->|Hy]; [lia|]. specialize (H3 y Hy Hvis). lia.
    + split; [by left|]. split; [done|]. intros y Hy Hvis. apply elem_of_cons in Hy as [->|Hy]; [lia|]. rewrite IH in Hvis by done. done.
  - destruct (newest u s vs) as [x|].
    + destruct IH as (H1 & H2 & H3). split; [by right|]. split; [done|]. intros y Hy Hvis. apply elem_of_cons in Hy as [->|Hy]; [congruence|by apply H3].
    + intros y Hy. apply elem_of_cons in Hy as [->|Hy]; [done|by apply IH].
Qed.

Lemma order_eq_sym a b : order a b = Eq -> order b a = Eq.
Proof. intros H. by rewrite order_flip, H. Qed.

Lemma same_version vs x y : versions_distinct vs -> x ∈ vs -> y ∈ vs -> order (v_user x) (v_user y) = Eq -> v_seq x = v_seq y -> x = y.
Proof.
  intros Hd Hx Hy Ho Hs. apply list_elem_of_split in Hx as (vs1 & vs2 & ->). rewrite elem_of_app, elem_of_cons in Hy. destruct Hy as [Hy|[->|Hy]]; [|done|].
  - pose proof (Hd vs1 x vs2 eq_refl) as H. rewrite Forall_forall in H. exfalso. apply (H y Hy); [by apply order_eq_sym|done].
  - apply list_elem_of_split in Hy as (vs3 & vs4 & ->). pose proof (Hd (vs1 ++ x :: vs3) y vs4) as H. rewrite <- app_assoc in H. specialize (H eq_refl).
    apply Forall_app in H as [_ H]. apply Forall_cons_1 in H as [H _]. by destruct (H Ho).
Qed.

(** The entry that a lookup at a snapshot seeks: that of a version with the number of the
    snapshot, as far as the order is concerned. *)
Definition lookup_version (u : list Z) (s : Z) : version := mk_version u s kTypeValue [].

Lemma visible_iff u s v : visible u s v = true <-> order (v_user v) u = Eq /\ v_seq v <= s.
Proof. unfold visible. rewrite andb_true_iff, Z.leb_le. destruct (order (v_user v) u); naive_solver. Qed.

Lemma before_lookup u s y : version_ok (lookup_version u s) -> version_ok y ->
  entry_cmp (entry_of y) (entry_of (lookup_version u s)) <> Lt <-> (order (v_user y) u = Eq /\ v_seq y <= s) \/ order (v_user y) u = Gt.
Proof.
  intros Hl Hy. rewrite entry_cmp_spec by done. cbn [v_user v_seq v_type lookup_version]. destruct (order (v_user y) u) eqn:E.
  - rewrite Z.compare_lt_iff. pose proof (type_range (v_type y)). unfold tag_of. cbn. split; [intros H1; left; split; [done|lia]|intros [[_ ?]|?]; [lia|done]].
  - split; [done|]. intros [[? _]|?]; done.
  - split; [by right|done].
Qed.

Lemma seek_newest u s vs o : Forall version_ok vs -> versions_distinct vs -> version_ok (lookup_version u s) ->
  least (fun k => entry_cmp k (entry_of (lookup_version u s)) <> Lt) (entry_of <$> vs) o ->
  match o with
  | None => newest u s vs = None
  | Some e => exists x, x ∈ vs /\ e = entry_of x /\ newest u s vs = match order (v_user x) u with Eq => Some x | _ => None end
  end.
Proof.
  intros Hok Hd Hl Ho. rewrite Forall_forall in Hok. pose proof (newest_spec u s vs) as Hn. destruct o as [e|].
  - destruct Ho as (Hin & Hge & Hmin). apply list_elem_of_fmap in Hin as (x & -> & Hx). exists x. split; [done|]. split; [done|].
    rewrite before_lookup in Hge by auto. destruct (newest u s vs) as [y|].
    + destruct Hn as (Hy & Hvis & Hmax). apply visible_iff in Hvis as [Hyu Hys].
      assert (Hle : entry_cmp (entry_of x) (entry_of y) <> Gt) by (apply Hmin; [by apply list_elem_of_fmap_2|apply before_lookup; auto]).
      rewrite entry_cmp_spec in Hle by auto. destruct Hge as [[Hxu Hxs]|Hgt].
      * rewrite Hxu. f_equal. assert (Exy : order (v_user x) (v_user y) = Eq).
        { apply (order_eq_chain _ u); [by apply Hok|by apply Hl|by apply Hok|done|by apply order_eq_sym]. }
        rewrite Exy in Hle. symmetry. apply (same_version vs); try done.
        assert (v_seq x <= v_seq y) by (apply Hmax; [done|by apply visible_iff]). change (tag_of (v_seq y) (v_type y) <= tag_of (v_seq x) (v_type x)) in Hle. pose proof (type_range (v_type x)). pose proof (type_range (v_type y)).
        unfold tag_of in Hle. lia.
      * exfalso. assert (Hlt : order (v_user y) (v_user x) = Lt).
        { apply (order_le_lt _ u); [by apply Hok|by apply Hl|by apply Hok|by rewrite Hyu|by rewrite order_flip, Hgt]. }
        rewrite order_flip, Hlt in Hle. done.
    + destruct (order (v_user x) u) eqn:E; [|done..]. destruct Hge as [[_ Hxs]|?]; [|done].
      assert (visible u s x = true) by (by apply visible_iff). rewrite Hn in * by done. done.
  - destruct (newest u s vs) as [y|]; [|done]. exfalso. destruct Hn as (Hy & Hvis & _). apply visible_iff in Hvis.
    apply (Ho (entry_of y)); [by apply list_elem_of_fmap_2|]. apply before_lookup; auto.
Qed.

Lemma lookup_entry u s lk : version_ok (lookup_version u s) -> new_LookupKey u s = Some lk ->
  memtable_key lk = EncodeVarint32 (size (version_key (lookup_version u s))) ++ version_key (lookup_version u s) ++ [] /\ lookup_user_key lk = u.
Proof.
  intros (_ & _ & _ & Hs & Hu & _) E. cbn in Hs, Hu. pose proof (size_nonneg u). destruct (lookup_key_ok u s Hs) as (lk' & E' & _ & Hlu).
  rewrite E in E'. injection E' as <-. split; [|done]. unfold new_LookupKey in E. rewrite pack_ok in E by done. injection E as <-. cbn [memtable_key].
  rewrite version_key_size. cbn [v_user lookup_version]. change (Z.of_nat (length u)) with (size u). rewrite u32_small by lia.
  rewrite app_nil_r, fixed64_bytes. unfold version_key, internal_key. done.
Qed.

(** The key of a lookup compares as the entry of its version. *)
Lemma entry_cmp_key k rest rest' e : size k < 2 ^ 32 -> is_bytes (k ++ rest) -> is_bytes (k ++ rest') ->
  entry_cmp e (EncodeVarint32 (size k) ++ k ++ rest) = entry_cmp e (EncodeVarint32 (size k) ++ k ++ rest').
Proof. intros Hk Hb Hb'. unfold entry_cmp. by rewrite !entry_key_ok. Qed.

(** Taking an entry apart. *)
Lemma memtable_decode_entry x : version_ok x -> exists r, GetVarint32Ptr (take 5 (entry_of x)) = Some (size (v_user x) + 8, r) /\
  drop (length (take 5 (entry_of x)) - length r) (entry_of x) = version_key x ++ EncodeVarint32 (size (v_value x)) ++ v_value x.
Proof.
  intros Hx. pose proof Hx as (_ & _ & _ & _ & Hu & _). pose proof (size_nonneg (v_user x)). unfold entry_of. rewrite version_key_size.
  destruct (varint_ptr_take (size (v_user x) + 8) (version_key x ++ EncodeVarint32 (size (v_value x)) ++ v_value x)) as (r & E & El); [lia|by apply entry_bytes|].
  exists r. split; [exact E|]. rewrite El. apply drop_app_length.
Qed.

Lemma run_in_table {A} (p : prog (SkipList (list Z)) A) (Q : hist (list Z) -> A -> Prop) B g m w : inv B g (table_ m) w -> @reads _ _ still (inv B) _ p Q g ->
  exists a, in_table (run p) m w = Ok a m w /\ Q g a.
Proof.
  intros HI Hp. destruct (reads_run (H := still) _ p Q g _ w HI Hp) as (a & E & HQ). exists a. split; [|done]. rewrite (in_table_ok _ _ _ _ _ _ E). by destruct m.
Qed.

(** [Get] finds the newest version that the snapshot sees, and leaves the table alone. *)
Lemma get_version_ok vs u s lk m w : holds vs m w -> version_ok (lookup_version u s) -> new_LookupKey u s = Some lk ->
  Get user lk m w = Ok (answer (newest u s vs)) m w.
Proof.
  intros (Hok & Hd & g & Hg & HI) Hl Elk. specialize (HI (length vs) ltac:(lia)). destruct (lookup_entry u s lk Hl Elk) as [Ekey Euser].
  set (k := version_key (lookup_version u s)) in *. assert (Hk : size k < 2 ^ 32) by (unfold k; rewrite version_key_size; apply Hl).
  assert (Hkb : is_bytes (k ++ [])) by (rewrite app_nil_r; apply internal_key_bytes, Hl).
  assert (Hkey : key_ok (KeyOrder := entry_order) (memtable_key lk)) by (exists k, []; split; [done|]; split; [by apply version_key_valid|done]).
  assert (Hfuel : (length vs + levels <= search_fuel m)%nat).
  { pose proof (nodes_bound _ _ _ _ HI) as Hn. rewrite Hg, length_fmap in Hn. unfold search_fuel, levels. lia. }
  destruct (run_in_table _ _ _ g m w HI (seek_ok (H := still) still_grows (length vs) (memtable_key lk) (search_fuel m) g Hkey Hfuel)) as (node & E1 & o & Hnode & gm & <- & _ & _ & HS).
  unfold Get, bind at 1, get. unfold bind at 1. rewrite E1. assert (HS2 : least (fun e => entry_cmp e (entry_of (lookup_version u s)) <> Lt) (entry_of <$> vs) o).
  { rewrite <- Hg. assert (Ec : forall e, entry_cmp e (memtable_key lk) = entry_cmp e (entry_of (lookup_version u s))).
    { intros e. rewrite Ekey. apply entry_cmp_key; [done|done|]. by apply (entry_bytes (lookup_version u s)). }
    destruct o as [e|]; cbn in HS |- *.
    - rewrite <- Ec. destruct HS as (? & ? & Hmin). split; [done|]. split; [done|]. intros k' Hk'. rewrite <- Ec. by apply Hmin.
    - intros e He. rewrite <- Ec. by apply HS. }
  apply seek_newest in HS2; [|done..]. destruct o as [e|]; [|cbn in Hnode; subst node; cbn; by rewrite HS2].
  destruct HS2 as (x & Hx & -> & ->). destruct (valid_ok g node _ Hnode) as [-> _].
  destruct (run_in_table _ _ _ g m w HI (iter_key_ok (H := still) still_grows (length vs) node (entry_of x) g Hnode)) as (e & E2 & ->).
  unfold bind at 1. rewrite E2. rewrite Forall_forall in Hok. pose proof (Hok x Hx) as Hxok. destruct (memtable_decode_entry x Hxok) as (r & E3 & E4).
  pose proof (size_nonneg (v_user x)). pose proof Hxok as (Hxv & Hxb & _ & Hxs & Hxu & _).
  rewrite E3. unfold bind at 1, must, ret. rewrite E4. replace (size (v_user x) + 8 - 8) with (size (v_user x)) by lia. rewrite u32_small by lia.
  set (body := version_key x ++ EncodeVarint32 (size (v_value x)) ++ v_value x).
  assert (Hbody : size (v_user x) <= size body) by (unfold body; rewrite size_app, version_key_size; pose proof (size_nonneg (EncodeVarint32 (size (v_value x)) ++ v_value x)); lia).
  rewrite (proj2 (Z.leb_le _ _)) by done. unfold bind at 1, assert_, ret.
  assert (Euk : take (Z.to_nat (size (v_user x))) body = v_user x) by (unfold body, version_key, internal_key, size; rewrite Nat2Z.id, <- !app_assoc; apply take_app_length).
  rewrite Euk, Euser. destruct (compare_ok (v_user x) u Hxv ltac:(apply Hl)) as (c & -> & Hc). unfold bind at 1. destruct (Z.eqb_spec c 0) as [->|Hne].
  2: { destruct (order (v_user x) u) eqn:Eo; [|done..]. cbn in Hc. apply Z.compare_eq in Hc. done. }
  rewrite <- Hc. cbn [Z.compare]. rewrite (proj2 (Z.leb_le _ _)) by lia. unfold bind at 1.
  assert (Edrop : drop (Z.to_nat (size (v_user x))) body = EncodeFixed64 (tag_of (v_seq x) (v_type x)) ++ EncodeVarint32 (size (v_value x)) ++ v_value x).
  { unfold body, version_key, internal_key, size. rewrite Nat2Z.id, <- !app_assoc, drop_app_length. reflexivity. }
  rewrite Edrop, decode_encode_fixed64 by (by apply tag_range). unfold bind at 1. rewrite land_0xFF. pose proof (type_range (v_type x)).
  replace (tag_of (v_seq x) (v_type x) mod 256) with (type_val (v_type x)) by (unfold tag_of; rewrite Z.add_comm, Z.mod_add, Z.mod_small by lia; done).
  cbn [answer]. destruct (v_type x); cbn [type_val Z.eqb]; [done|].
  assert (Erest : drop (Z.to_nat (size (v_user x) + 8)) body = EncodeVarint32 (size (v_value x)) ++ v_value x ++ []).
  { unfold body. rewrite app_nil_r. rewrite <- (version_key_size x). unfold size. rewrite Nat2Z.id. apply drop_app_length. }
  rewrite Erest, mem_slice_ok; [done|apply Hxok|rewrite app_nil_r; apply Hxok].
Qed.

End memtable.
