(* ===== verification/LdbVersion.v ===== *)
(** The searches in a version of LevelDB's database, and how edits are applied to it:
    [FindFile], [Version::Get], [GetOverlappingInputs], [PickLevelForMemTableOutput] and
    [VersionSet::Builder] of db/version_set.cc.

    A version is the list of the files of each level.  Files are values: that versions share
    them, their reference counts and the charging of seeks to them are not modelled.  Reading
    a table file through the table cache is a parameter.  [None] is a failed assertion or an
    index out of range. *)
From stdpp Require Import base list strings numbers option sorting gmap.
From Stdlib Require Import ZArith Lia.
From S2P Require Import Prelude LdbCoding LdbEnv LdbComparator LdbFormat LdbVersionEdit.

Definition kMaxMemCompactLevel : Z := 2.

Definition TargetFileSize (max_file_size : Z) : Z := max_file_size.
Definition MaxGrandParentOverlapBytes (max_file_size : Z) : Z := s64 (u64 (10 * TargetFileSize max_file_size)).

Fixpoint sum_sizes (sum : Z) (files : list FileMetaData) : Z :=
  match files with [] => sum | f :: files => sum_sizes (s64 (u64 (sum + file_size f))) files end.
Definition TotalFileSize (files : list FileMetaData) : Z := sum_sizes 0 files.

(** [files_] of class [Version] *)
Definition Version := list (list FileMetaData).
Definition files_ (v : Version) (level : Z) : option (list FileMetaData) := if level <? 0 then None else v !! Z.to_nat level.

Definition num_files (files : list FileMetaData) : Z := Z.of_nat (length files).

(** [f->smallest.user_key()] asserts that the key has eight bytes. *)
Definition smallest_user_key (f : FileMetaData) : option (list Z) := ExtractUserKey (smallest f).
Definition largest_user_key (f : FileMetaData) : option (list Z) := ExtractUserKey (largest f).

(** [InternalKey(user_key, s, t)] *)
Definition InternalKey (user_key : list Z) (s : Z) (t : ValueType) : option (list Z) := AppendInternalKey [] (mk_parsed user_key s t).

Definition slice_string (s : list Z) : string := String.string_of_list_ascii ((fun b => Ascii.ascii_of_nat (Z.to_nat b)) <$> s).

Section version_set.
Context (user_comparator : Comparator).

Definition icmp_Compare (a b : list Z) : option Z := internal_compare user_comparator a b.
Definition ucmp_Compare (a b : list Z) : option Z := Compare (Comparator := user_comparator) a b.

(** [icmp_.Compare] of two [InternalKey]s *)
Definition key_Compare (a b : list Z) : option Z := a ← InternalKey_Encode a; b ← InternalKey_Encode b; icmp_Compare a b.

(** * FindFile *)

Fixpoint find_loop (fuel : nat) (files : list FileMetaData) (key : list Z) (left right : Z) : option Z :=
  match fuel with
  | O => None
  | S fuel =>
      if left <? right then
        let mid := u32 (left + right) / 2 in
        f ← files !! Z.to_nat mid;
        l ← InternalKey_Encode (largest f);
        c ← icmp_Compare l key;
        if c <? 0 then find_loop fuel files key (u32 (mid + 1)) right
        else find_loop fuel files key left mid
      else Some right
  end.

(** Each round makes the range shorter. *)
Definition FindFile (files : list FileMetaData) (key : list Z) : option Z :=
  find_loop (S (length files)) files key 0 (u32 (num_files files)).

(** * SomeFileOverlapsRange *)

Definition AfterFile (user_key : option (list Z)) (f : FileMetaData) : option bool :=
  match user_key with
  | Some u => l ← largest_user_key f; c ← ucmp_Compare u l; Some (0 <? c)
  | None => Some false
  end.

Definition BeforeFile (user_key : option (list Z)) (f : FileMetaData) : option bool :=
  match user_key with
  | Some u => s ← smallest_user_key f; c ← ucmp_Compare u s; Some (c <? 0)
  | None => Some false
  end.

(** The loop over all files. *)
Fixpoint some_overlaps (files : list FileMetaData) (smallest_user largest_user : option (list Z)) : option bool :=
  match files with
  | [] => Some false
  | f :: files =>
      a ← AfterFile smallest_user f;
      b ← (if (a : bool) then Some true else BeforeFile largest_user f);
      if (b : bool) then some_overlaps files smallest_user largest_user else Some true
  end.

Definition SomeFileOverlapsRange (disjoint_sorted_files : bool) (files : list FileMetaData) (smallest_user largest_user : option (list Z)) : option bool :=
  if negb disjoint_sorted_files then some_overlaps files smallest_user largest_user
  else
    index ← match smallest_user with
            | Some u => small_key ← InternalKey u kMaxSequenceNumber kValueTypeForSeek; k ← InternalKey_Encode small_key; FindFile files k
            | None => Some 0
            end;
    if num_files files <=? index then Some false
    else
      f ← files !! Z.to_nat index;
      b ← BeforeFile largest_user f;
      Some (negb b).

Definition OverlapInLevel (v : Version) (level : Z) (smallest_user largest_user : option (list Z)) : option bool :=
  files ← files_ v level; SomeFileOverlapsRange (0 <? level) files smallest_user largest_user.

(** * Version::Get *)

Record GetStats := mk_stats { seek_file : option FileMetaData; seek_file_level : Z }.

Inductive SaverState := SaverNotFound | SaverFound (value : list Z) | SaverDeleted | SaverCorrupt.

(** The state that a [Saver] is left in. *)
Definition SaveValue (user : list Z) (ikey v : list Z) : option SaverState :=
  match ParseInternalKey ikey with
  | None => Some SaverCorrupt
  | Some parsed_key =>
      c ← ucmp_Compare (user_key parsed_key) user;
      Some (if c =? 0 then match type parsed_key with kTypeValue => SaverFound v | kTypeDeletion => SaverDeleted end else SaverNotFound)
  end.

Definition NewestFirst (a b : FileMetaData) : Prop := number b <= number a.
#[global] Instance newest_decision : RelDecision NewestFirst := fun a b => decide (number b <= number a).

(** The files of level 0 whose range has the key. *)
Fixpoint files_with_key (user : list Z) (files : list FileMetaData) : option (list FileMetaData) :=
  match files with
  | [] => Some []
  | f :: files =>
      s ← smallest_user_key f;
      c ← ucmp_Compare user s;
      b ← (if 0 <=? c then l ← largest_user_key f; c ← ucmp_Compare user l; Some (c <=? 0) else Some false);
      rest ← files_with_key user files;
      Some (if (b : bool) then f :: rest else rest)
  end.

(** "Get the list of files to search in this level" *)
Definition files_to_search (level : Z) (files : list FileMetaData) (user ikey : list Z) : option (list FileMetaData) :=
  if level =? 0 then tmp ← files_with_key user files; Some (merge_sort NewestFirst tmp)
  else
    index ← FindFile files ikey;
    if num_files files <=? index then Some []
    else
      f ← files !! Z.to_nat index;
      s ← smallest_user_key f;
      c ← ucmp_Compare user s;
      Some (if c <? 0 then [] else [f]).

(** [table_cache_->Get]: its status, and the entry it calls [SaveValue] with, if it does. *)
Context (table_cache_Get : Z -> Z -> list Z -> Status * option (list Z * list Z)).

(** Go on, with [last_file_read] and its level, or return with a status and a value. *)
Inductive search := Continue (last_file_read : option (FileMetaData * Z)) (stats : GetStats) | Return (s : Status) (value : option (list Z)) (stats : GetStats).

Fixpoint search_files (level : Z) (files : list FileMetaData) (user ikey : list Z) (last : option (FileMetaData * Z)) (stats : GetStats) : option search :=
  match files with
  | [] => Some (Continue last stats)
  | f :: files =>
      let stats := match last, seek_file stats with Some (g, l), None => mk_stats (Some g) l | _, _ => stats end in
      let (s, entry) := table_cache_Get (number f) (file_size f) ikey in
      state ← match entry with Some (k, v) => SaveValue user k v | None => Some SaverNotFound end;
      if negb (ok s) then Some (Return s (match state with SaverFound v => Some v | _ => None end) stats)
      else
        match state with
        | SaverNotFound => search_files level files user ikey (Some (f, level)) stats
        | SaverFound v => Some (Return s (Some v) stats)
        | SaverDeleted => Some (Return (NotFound "") None stats)
        | SaverCorrupt => Some (Return (make_status kCorruption "corrupted key for " (slice_string user)) None stats)
        end
  end.

Fixpoint search_levels (level : Z) (levels : Version) (user ikey : list Z) (last : option (FileMetaData * Z)) (stats : GetStats) : option (Status * option (list Z) * GetStats) :=
  match levels with
  | [] => Some (NotFound "", None, stats)
  | files :: levels =>
      fs ← (if num_files files =? 0 then Some [] else files_to_search level files user ikey);
      r ← search_files level fs user ikey last stats;
      match r with
      | Continue last stats => search_levels (level + 1) levels user ikey last stats
      | Return s value stats => Some (s, value, stats)
      end
  end.

(** The status, what [*value] is set to if it is, and [*stats]. *)
Definition Version_Get (v : Version) (k : LookupKey) : option (Status * option (list Z) * GetStats) :=
  search_levels 0 v (lookup_user_key k) (lookup_internal_key k) None (mk_stats None (-1)).

(** * GetOverlappingInputs *)

Definition before_bound (key : list Z) (bound : option (list Z)) : option bool :=
  match bound with Some u => c ← ucmp_Compare key u; Some (c <? 0) | None => Some false end.
Definition after_bound (key : list Z) (bound : option (list Z)) : option bool :=
  match bound with Some u => c ← ucmp_Compare key u; Some (0 <? c) | None => Some false end.

Fixpoint overlap_loop (fuel : nat) (level : Z) (files rest : list FileMetaData) (user_begin user_end : option (list Z)) (inputs : list FileMetaData) : option (list FileMetaData) :=
  match fuel with
  | O => None
  | S fuel =>
      match rest with
      | [] => Some inputs
      | f :: rest =>
          file_start ← smallest_user_key f;
          file_limit ← largest_user_key f;
          before ← before_bound file_limit user_begin;
          after ← (if (before : bool) then Some true else after_bound file_start user_end);
          if (after : bool) then overlap_loop fuel level files rest user_begin user_end inputs
          else if level =? 0 then
            lower ← before_bound file_start user_begin;
            if (lower : bool) then overlap_loop fuel level files files (Some file_start) user_end []
            else
              higher ← after_bound file_limit user_end;
              if (higher : bool) then overlap_loop fuel level files files user_begin (Some file_limit) []
              else overlap_loop fuel level files rest user_begin user_end (inputs ++ [f])
          else overlap_loop fuel level files rest user_begin user_end (inputs ++ [f])
      end
  end.

(** Each start over moves a bound past a file that was within it. *)
Definition overlap_fuel (files : list FileMetaData) : nat := (2 * length files + 1) * (length files + 1).

Definition user_bound (key : option (list Z)) : option (option (list Z)) :=
  match key with Some k => u ← ExtractUserKey k; Some (Some u) | None => Some None end.

Definition GetOverlappingInputs (v : Version) (level : Z) (begin_ end_ : option (list Z)) : option (list FileMetaData) :=
  files ← files_ v level;
  user_begin ← user_bound begin_;
  user_end ← user_bound end_;
  overlap_loop (overlap_fuel files) level files files user_begin user_end [].

(** * PickLevelForMemTableOutput *)

Context (max_file_size : Z).

Fixpoint pick_loop (fuel : nat) (v : Version) (smallest_user largest_user start limit : list Z) (level : Z) : option Z :=
  match fuel with
  | O => None
  | S fuel =>
      if level <? kMaxMemCompactLevel then
        overlap ← OverlapInLevel v (level + 1) (Some smallest_user) (Some largest_user);
        if (overlap : bool) then Some level
        else
          too_many ← (if level + 2 <? kNumLevels then
                        overlaps ← GetOverlappingInputs v (level + 2) (Some start) (Some limit);
                        Some (MaxGrandParentOverlapBytes max_file_size <? TotalFileSize overlaps)
                      else Some false);
          if (too_many : bool) then Some level else pick_loop fuel v smallest_user largest_user start limit (level + 1)
      else Some level
  end.

Definition PickLevelForMemTableOutput (v : Version) (smallest_user largest_user : list Z) : option Z :=
  overlap ← OverlapInLevel v 0 (Some smallest_user) (Some largest_user);
  if negb overlap then
    start ← InternalKey smallest_user kMaxSequenceNumber kValueTypeForSeek;
    limit ← InternalKey largest_user 0 kTypeDeletion;
    pick_loop 3 v smallest_user largest_user start limit 0
  else Some 0.

(** * VersionSet::Builder *)

Definition BySmallestKey (f1 f2 : FileMetaData) : option bool :=
  r ← key_Compare (smallest f1) (smallest f2);
  Some (if negb (r =? 0) then r <? 0 else number f1 <? number f2).

Record LevelState := mk_level { deleted_files : gset Z; added_files : list FileMetaData }.
Record Builder := mk_builder { base_ : Version; compact_pointer_ : list (list Z); levels_ : list LevelState }.

Definition new_Builder (base : Version) (compact_pointer : list (list Z)) : Builder :=
  mk_builder base compact_pointer (replicate (Z.to_nat kNumLevels) (mk_level ∅ [])).

(** [FileSet::insert]: no change if there is an equal element. *)
Fixpoint added_insert (f : FileMetaData) (l : list FileMetaData) : option (list FileMetaData) :=
  match l with
  | [] => Some [f]
  | g :: l =>
      b ← BySmallestKey f g;
      if (b : bool) then Some (f :: g :: l)
      else
        b ← BySmallestKey g f;
        if (b : bool) then l ← added_insert f l; Some (g :: l) else Some (g :: l)
  end.

Definition alter_level (level : Z) (k : LevelState -> option LevelState) (b : Builder) : option Builder :=
  guard (0 <= level);;
  s ← levels_ b !! Z.to_nat level;
  s ← k s;
  Some (mk_builder (base_ b) (compact_pointer_ b) (<[Z.to_nat level := s]> (levels_ b))).

Fixpoint apply_pointers (l : list (Z * list Z)) (b : Builder) : option Builder :=
  match l with
  | [] => Some b
  | (level, key) :: l =>
      k ← InternalKey_Encode key;
      guard (0 <= level < Z.of_nat (length (compact_pointer_ b)));;
      apply_pointers l (mk_builder (base_ b) (<[Z.to_nat level := k]> (compact_pointer_ b)) (levels_ b))
  end.

Fixpoint apply_deleted (l : list (Z * Z)) (b : Builder) : option Builder :=
  match l with
  | [] => Some b
  | (level, n) :: l => b ← alter_level level (fun s => Some (mk_level ({[n]} ∪ deleted_files s) (added_files s))) b; apply_deleted l b
  end.

(** The copy of the file's metadata: a seek is allowed for every 16 KB, at least a hundred. *)
Definition with_allowed_seeks (f : FileMetaData) : FileMetaData :=
  let n := s32 (file_size f / 16384) in
  mk_meta (if n <? 100 then 100 else n) (number f) (file_size f) (smallest f) (largest f).

Fixpoint apply_new (l : list (Z * FileMetaData)) (b : Builder) : option Builder :=
  match l with
  | [] => Some b
  | (level, f) :: l =>
      b ← alter_level level (fun s => a ← added_insert (with_allowed_seeks f) (added_files s); Some (mk_level (deleted_files s ∖ {[number f]}) a)) b;
      apply_new l b
  end.

Definition Apply (edit : VersionEdit) (b : Builder) : option Builder :=
  b ← apply_pointers (compact_pointers_ edit) b;
  b ← apply_deleted (deleted_files_ edit) b;
  apply_new (new_files_ edit) b.

(** Appends to the level of the new version that [SaveTo] builds. *)
Definition MaybeAddFile (level : Z) (deleted : gset Z) (files : list FileMetaData) (f : FileMetaData) : option (list FileMetaData) :=
  if decide (number f ∈ deleted) then Some files
  else
    match last files with
    | Some g =>
        if 0 <? level then
          c ← key_Compare (largest g) (smallest f);
          guard (c < 0);;
          Some (files ++ [f])
        else Some (files ++ [f])
    | None => Some (files ++ [f])
    end.

Fixpoint add_files (level : Z) (deleted : gset Z) (files l : list FileMetaData) : option (list FileMetaData) :=
  match l with
  | [] => Some files
  | f :: l => files ← MaybeAddFile level deleted files f; add_files level deleted files l
  end.

(** [std::upper_bound] on sorted files: those that the value does not come before, and the rest. *)
Fixpoint upper_bound (f : FileMetaData) (l : list FileMetaData) : option (list FileMetaData * list FileMetaData) :=
  match l with
  | [] => Some ([], [])
  | g :: l =>
      b ← BySmallestKey f g;
      if (b : bool) then Some ([], g :: l) else '(l1, l2) ← upper_bound f l; Some (g :: l1, l2)
  end.

Fixpoint save_level (level : Z) (deleted : gset Z) (files base added : list FileMetaData) : option (list FileMetaData) :=
  match added with
  | [] => add_files level deleted files base
  | f :: added =>
      '(smaller, base) ← upper_bound f base;
      files ← add_files level deleted files smaller;
      files ← MaybeAddFile level deleted files f;
      save_level level deleted files base added
  end.

(** "Make sure there is no overlap in levels > 0" *)
Fixpoint no_overlap (files : list FileMetaData) : option unit :=
  match files with
  | f :: (g :: _) as rest =>
      c ← key_Compare (largest f) (smallest g);
      guard (c < 0);;
      no_overlap rest
  | _ => Some tt
  end.

Fixpoint save_levels (level : Z) (base : Version) (levels : list LevelState) : option Version :=
  match base, levels with
  | base_files :: base, s :: levels =>
      files ← save_level level (deleted_files s) [] base_files (added_files s);
      _ ← (if 0 <? level then no_overlap files else Some tt);
      rest ← save_levels (level + 1) base levels;
      Some (files :: rest)
  | [], [] => Some []
  | _, _ => None
  end.

Definition SaveTo (b : Builder) : option Version := save_levels 0 (base_ b) (levels_ b).

End version_set.
