(* ===== verification/LdbVersionThms.v ===== *)
(** What the searches in a version of LevelDB's database find: binary search is a search, Get
    finds the newest entry, and the inputs of a compaction are all files that overlap. *)
From stdpp Require Import base gmap list strings numbers option sorting.
From Stdlib Require Import ZArith Lia.
From S2P Require Import Prelude LdbCoding LdbCodingThms LdbEnv LdbComparator LdbFormat LdbFormatThms LdbMemTableThms LdbVersionEdit LdbVersion.

Section version.
Context {user : Comparator} {laws : ComparatorLaws}.

(** * Keys and files *)

(** A key that the database makes: its number is one that exists. *)
Definition real_key (k : list Z) : Prop := exists u s t, valid_key u /\ 0 <= s <= kMaxSequenceNumber /\ k = internal_key u (tag_of s t).

Lemma real_valid k : real_key k -> internal_valid k.
Proof. intros (u & s & t & Hu & Hs & ->). exists u, (tag_of s t). split; [done|]. split; [by apply tag_range|done]. Qed.

Lemma real_user_valid k : real_key k -> valid_key (user_part k).
Proof. intros (u & s & t & Hu & Hs & ->). by rewrite (proj1 (parts u _ (tag_range s t Hs))). Qed.

Lemma extract_real k : real_key k -> ExtractUserKey k = Some (user_part k).
Proof. intros (u & s & t & Hu & Hs & ->). by rewrite extract_ok, (proj1 (parts u _ (tag_range s t Hs))). Qed.

Lemma encode_real k : real_key k -> InternalKey_Encode k = Some k.
Proof. intros (u & s & t & Hu & Hs & ->). unfold internal_key. destruct u; [|done]. pose proof (le_bytes_length 8 (tag_of s t)). by destruct (le_bytes 8 (tag_of s t)). Qed.

(** The comparisons, as cases on the orders. *)
Lemma icmp_real a b : real_key a -> real_key b -> exists c, icmp_Compare user a b = Some c /\ (c ?= 0) = internal_order a b.
Proof. intros Ha Hb. by apply internal_compare_ok; apply real_valid. Qed.

Lemma icmp_lt {A} a b (k : bool -> option A) : real_key a -> real_key b -> (c ← icmp_Compare user a b; k (c <? 0)) = k (match internal_order a b with Lt => true | _ => false end).
Proof. intros Ha Hb. destruct (icmp_real a b Ha Hb) as (c & -> & Hc). cbn. rewrite <- Hc. unfold Z.ltb. by destruct (c ?= 0). Qed.

Definition is_lt (c : comparison) : bool := match c with Lt => true | _ => false end.
Definition is_gt (c : comparison) : bool := match c with Gt => true | _ => false end.

Lemma ucmp_ok a b : valid_key a -> valid_key b -> exists c, ucmp_Compare user a b = Some c /\ (c ?= 0) = order a b.
Proof. apply compare_ok. Qed.

Lemma ltb_compare c : (c <? 0) = is_lt (c ?= 0).
Proof. unfold Z.ltb. by destruct (c ?= 0). Qed.

Lemma gtb_compare c : (0 <? c) = is_gt (c ?= 0).
Proof. rewrite Z.ltb_compare, Z.compare_antisym. by destruct (c ?= 0). Qed.

Lemma leb_compare c : (0 <=? c) = negb (is_lt (c ?= 0)).
Proof. rewrite Z.leb_compare, Z.compare_antisym. by destruct (c ?= 0). Qed.

Lemma geb_compare c : (c <=? 0) = negb (is_gt (c ?= 0)).
Proof. rewrite Z.leb_compare. by destruct (c ?= 0). Qed.

Lemma eqb_compare c : (c =? 0) = match c ?= 0 with Eq => true | _ => false end.
Proof. rewrite Z.eqb_compare. by destruct (c ?= 0). Qed.

Definition lo (f : FileMetaData) : list Z := user_part (smallest f).
Definition hi (f : FileMetaData) : list Z := user_part (largest f).

Record file_keys (f : FileMetaData) : Prop := {
  k_smallest : real_key (smallest f);
  k_largest : real_key (largest f);
  k_range : internal_order (smallest f) (largest f) <> Gt;
}.

Lemma lo_valid f : file_keys f -> valid_key (lo f).
Proof. intros []. by apply real_user_valid. Qed.
Lemma hi_valid f : file_keys f -> valid_key (hi f).
Proof. intros []. by apply real_user_valid. Qed.

Lemma smallest_user_ok f : file_keys f -> smallest_user_key f = Some (lo f).
Proof. intros []. by apply extract_real. Qed.
Lemma largest_user_ok f : file_keys f -> largest_user_key f = Some (hi f).
Proof. intros []. by apply extract_real. Qed.

(** ** Orders *)

Lemma user_le a b : internal_order a b <> Gt -> order (user_part a) (user_part b) <> Gt.
Proof. unfold internal_order. destruct (order _ _); [done|done|done]. Qed.

Lemma order_le_trans a b c : valid_key a -> valid_key b -> valid_key c -> order a b <> Gt -> order b c <> Gt -> order a c <> Gt.
Proof.
  intros Ha Hb Hc H1 H2 E. assert (Hca : order c a = Lt) by (rewrite order_flip, E; done).
  pose proof (order_lt_le c a b Hc Ha Hb Hca H1) as Hcb. rewrite order_flip, Hcb in H2. done.
Qed.

Lemma internal_le_trans a b c : internal_valid a -> internal_valid b -> internal_valid c -> internal_order a b <> Gt -> internal_order b c <> Gt -> internal_order a c <> Gt.
Proof.
  intros Ha Hb Hc H1 H2 E. assert (Hca : internal_order c a = Lt) by (rewrite internal_order_flip, E; done).
  pose proof (internal_lt_le c a b Hc Ha Hb Hca H1) as Hcb. rewrite internal_order_flip, Hcb in H2. done.
Qed.

Lemma lt_not_gt {c : comparison} : c = Lt -> c <> Gt.
Proof. by intros ->. Qed.

Lemma lo_hi f : file_keys f -> order (lo f) (hi f) <> Gt.
Proof. intros []. by apply user_le. Qed.

(** One file after the other, without an overlap. *)
Definition before (f g : FileMetaData) : Prop := internal_order (largest f) (smallest g) = Lt.

Lemma before_largest f g : file_keys f -> file_keys g -> before f g -> internal_order (largest f) (largest g) = Lt.
Proof. intros [_ Hf _] [Hg1 Hg2 Hg] Hb. by apply (internal_lt_le _ (smallest g)); [apply real_valid..|exact Hb|exact Hg]. Qed.

Lemma before_smallest f g : file_keys f -> file_keys g -> before f g -> internal_order (smallest f) (smallest g) = Lt.
Proof. intros [Hf1 Hf2 Hf] [Hg1 Hg2 Hg] Hb. by apply (internal_le_lt _ (largest f)); [apply real_valid..|exact Hf|exact Hb]. Qed.

(** * FindFile *)

Definition small_level (files : list FileMetaData) : Prop := Z.of_nat (length files) < 2 ^ 31.

Definition splits_at (files : list FileMetaData) (key : list Z) (n : nat) : Prop :=
  (forall i f, files !! i = Some f -> (i < n)%nat -> internal_order (largest f) key = Lt) /\
  (forall i f, files !! i = Some f -> (n <= i)%nat -> internal_order (largest f) key <> Lt).

Lemma find_loop_ok files key : Forall file_keys files -> StronglySorted before files -> real_key key -> small_level files -> forall fuel left right,
  (left <= right <= length files)%nat -> (right - left < fuel)%nat ->
  (forall i f, files !! i = Some f -> (i < left)%nat -> internal_order (largest f) key = Lt) ->
  (forall i f, files !! i = Some f -> (right <= i)%nat -> internal_order (largest f) key <> Lt) ->
  exists n, find_loop user fuel files key (Z.of_nat left) (Z.of_nat right) = Some (Z.of_nat n) /\ (n <= length files)%nat /\ splits_at files key n.
Proof.
  intros Hk Hs Hkey Hsmall fuel. induction fuel as [|fuel IH]; intros left right Hle Hf Hl Hr; [lia|]. unfold small_level in Hsmall. cbn [find_loop].
  destruct (Z.ltb_spec (Z.of_nat left) (Z.of_nat right)) as [Hlt|Hge].
  - assert (Em : u32 (Z.of_nat left + Z.of_nat right) / 2 = Z.of_nat ((left + right) / 2)).
    { rewrite u32_small by lia. rewrite Nat2Z.inj_div, Nat2Z.inj_add. done. }
    rewrite Em, Nat2Z.id. set (mid := ((left + right) / 2)%nat). assert (Hmid : (left <= mid < right)%nat) by (unfold mid; split; [apply Nat.div_le_lower_bound|apply Nat.Div0.div_lt_upper_bound]; lia).
    destruct (lookup_lt_is_Some_2 files mid) as [f Ef]; [lia|]. rewrite Ef. cbn [option_bind mbind]. pose proof (proj1 (Forall_lookup _ _) Hk mid f Ef) as Hkf.
    rewrite encode_real by apply Hkf. cbn [option_bind mbind].
    assert (Hmono : forall i g, files !! i = Some g -> (i < mid)%nat -> internal_order (largest g) (largest f) = Lt).
    { intros i g Eg Hi. apply before_largest; [by apply (proj1 (Forall_lookup _ _) Hk i)|done|]. by apply (sorted_lookup before files i mid). }
    assert (Hmono2 : forall i g, files !! i = Some g -> (mid < i)%nat -> internal_order (largest f) (largest g) = Lt).
    { intros i g Eg Hi. apply before_largest; [done|by apply (proj1 (Forall_lookup _ _) Hk i)|]. by apply (sorted_lookup before files mid i). }
    destruct (icmp_real (largest f) key) as (c & -> & Hc); [apply Hkf|done|]. cbn [option_bind mbind]. rewrite ltb_compare, Hc. destruct (internal_order (largest f) key) eqn:E; cbn [is_lt].
    2: { replace (u32 (Z.of_nat mid + 1)) with (Z.of_nat (S mid)) by (rewrite u32_small; lia). apply IH; [lia|lia| |done]. intros i g Eg Hi. destruct (decide (i = mid)) as [->|Hne]; [congruence|].
         pose proof (proj1 (Forall_lookup _ _) Hk i g Eg) as Hg. apply (internal_lt_le _ (largest f)); [apply real_valid; apply Hg|apply real_valid; apply Hkf|by apply real_valid|apply Hmono with i; [done|lia]|by rewrite E]. }
    all: apply IH; [lia|lia|done|]; intros i g Eg Hi; destruct (decide (i = mid)) as [->|Hne]; [congruence|]; intros Elt;
      pose proof (proj1 (Forall_lookup _ _) Hk i g Eg) as Hg;
      assert (Hbad : internal_order (largest f) key = Lt); [|congruence];
      apply (internal_lt_le _ (largest g)); [apply real_valid; apply Hkf|apply real_valid; apply Hg|by apply real_valid|apply Hmono2 with i; [done|lia]|by rewrite Elt].
  - assert (left = right) as -> by lia. exists right. split; [done|]. split; [lia|by split].
Qed.

Lemma find_file_ok files key : Forall file_keys files -> StronglySorted before files -> real_key key -> small_level files ->
  exists n, FindFile user files key = Some (Z.of_nat n) /\ (n <= length files)%nat /\ splits_at files key n.
Proof.
  intros Hk Hs Hkey Hsmall. unfold FindFile, num_files. unfold small_level in Hsmall. rewrite u32_small by lia. apply (find_loop_ok files key Hk Hs Hkey Hsmall _ 0%nat); [lia|lia| |].
  - intros i f _ Hi. lia.
  - intros i f Ef Hi. apply lookup_lt_Some in Ef. lia.
Qed.

(** * Overlaps *)

Definition bound_ok (b : option (list Z)) : Prop := match b with Some u => valid_key u | None => True end.
Definition is_after (b : option (list Z)) (f : FileMetaData) : bool := match b with Some u => is_gt (order u (hi f)) | None => false end.
Definition is_before (b : option (list Z)) (f : FileMetaData) : bool := match b with Some u => is_lt (order u (lo f)) | None => false end.

(** The file has keys in the range, as far as its bounds tell. *)
Definition overlaps (a b : option (list Z)) (f : FileMetaData) : bool := negb (is_after a f) && negb (is_before b f).

Lemma after_file_ok a f : bound_ok a -> file_keys f -> AfterFile user a f = Some (is_after a f).
Proof.
  intros Ha Hf. destruct a as [u|]; [|done]. unfold AfterFile. rewrite largest_user_ok by done. cbn [option_bind mbind is_after].
  destruct (ucmp_ok u (hi f)) as (c & -> & Hc); [done|by apply hi_valid|]. cbn [option_bind mbind]. by rewrite gtb_compare, Hc.
Qed.

Lemma before_file_ok b f : bound_ok b -> file_keys f -> BeforeFile user b f = Some (is_before b f).
Proof.
  intros Hb Hf. destruct b as [u|]; [|done]. unfold BeforeFile. rewrite smallest_user_ok by done. cbn [option_bind mbind is_before].
  destruct (ucmp_ok u (lo f)) as (c & -> & Hc); [done|by apply lo_valid|]. cbn [option_bind mbind]. by rewrite ltb_compare, Hc.
Qed.

Lemma some_overlaps_ok a b files : bound_ok a -> bound_ok b -> Forall file_keys files -> some_overlaps user files a b = Some (existsb (overlaps a b) files).
Proof.
  intros Ha Hb. induction 1 as [|f files Hf _ IH]; [done|]. cbn [some_overlaps existsb]. rewrite after_file_ok by done. cbn [option_bind mbind]. unfold overlaps at 1.
  destruct (is_after a f); cbn [option_bind mbind negb andb orb]; [exact IH|]. rewrite before_file_ok by done. cbn [option_bind mbind]. by destruct (is_before b f).
Qed.

(** The highest number, which no key of a file exceeds. *)
Lemma seek_tag_max s t : 0 <= s <= kMaxSequenceNumber -> tag_of s t <= tag_of kMaxSequenceNumber kValueTypeForSeek.
Proof. intros Hs. pose proof (type_range t). unfold tag_of, kValueTypeForSeek. cbn [type_val]. lia. Qed.

Definition seek_key (u : list Z) : list Z := internal_key u (tag_of kMaxSequenceNumber kValueTypeForSeek).

Lemma max_number : 0 <= kMaxSequenceNumber <= kMaxSequenceNumber.
Proof. by vm_compute. Qed.

Lemma seek_key_real u : valid_key u -> real_key (seek_key u).
Proof. intros Hu. exists u, kMaxSequenceNumber, kValueTypeForSeek. split; [done|]. split; [apply max_number|done]. Qed.

(** A key comes before the first possible one of a user key if its own user key does. *)
Lemma before_seek k u : real_key k -> valid_key u -> internal_order k (seek_key u) = Lt <-> order (user_part k) u = Lt.
Proof.
  intros (v & s & t & Hv & Hs & ->) Hu. unfold internal_order, seek_key. destruct (parts v _ (tag_range s t Hs)) as [-> ->], (parts u _ (tag_range _ kValueTypeForSeek max_number)) as [-> ->].
  destruct (order v u); try done. rewrite Z.compare_lt_iff. pose proof (seek_tag_max s t Hs). split; [lia|done].
Qed.

Lemma order_lt_flip a b : order a b = Lt <-> order b a = Gt.
Proof. rewrite (order_flip a b). by destruct (order a b). Qed.

(** The files at and behind the one that binary search finds are all that do not end before the key. *)
Lemma sorted_overlap files a b n : Forall file_keys files -> StronglySorted before files -> bound_ok b ->
  (forall i f, files !! i = Some f -> (i < n)%nat -> is_after a f = true) -> (forall i f, files !! i = Some f -> (n <= i)%nat -> is_after a f = false) ->
  existsb (overlaps a b) files = match files !! n with Some f => negb (is_before b f) | None => false end.
Proof.
  intros Hk Hs Hb Hl Hr. destruct (files !! n) as [f|] eqn:Ef.
  - destruct (is_before b f) eqn:E; cbn [negb].
    + apply not_true_iff_false. rewrite existsb_exists. intros (g & Hg & Ho). apply list_elem_of_In, list_elem_of_lookup in Hg as [i Eg]. unfold overlaps in Ho. apply andb_true_iff in Ho as [Ha Hbf].
      apply negb_true_iff in Ha, Hbf. destruct (decide (i < n)%nat) as [Hi|Hi]; [by rewrite (Hl i g Eg Hi) in Ha|]. destruct (decide (i = n)) as [->|Hne]; [congruence|].
      destruct b as [u|]; [|done]. cbn in E, Hbf. destruct (order u (lo f)) eqn:Eu; try done. pose proof (proj1 (Forall_lookup _ _) Hk n f Ef) as Hkf. pose proof (proj1 (Forall_lookup _ _) Hk i g Eg) as Hkg.
      assert (Hfg : before f g) by (apply (sorted_lookup before files n i); [done|lia|done|done]). apply before_smallest in Hfg; [|done..].
      assert (Hle : order (lo f) (lo g) <> Gt) by (apply user_le; by rewrite Hfg). rewrite (order_lt_le u (lo f) (lo g)) in Hbf; [done|done|by apply lo_valid|by apply lo_valid|done|done].
    + apply existsb_exists. exists f. split; [apply list_elem_of_In; by apply (list_elem_of_lookup_2 files n)|]. unfold overlaps. rewrite (Hr n f Ef) by lia. by rewrite E.
  - apply not_true_iff_false. rewrite existsb_exists. intros (g & Hg & Ho). apply list_elem_of_In, list_elem_of_lookup in Hg as [i Eg]. apply lookup_ge_None in Ef. pose proof (lookup_lt_Some _ _ _ Eg).
    unfold overlaps in Ho. by rewrite (Hl i g Eg) in Ho by lia.
Qed.

(** A level of a version: its files have proper keys, there are not too many, and above level
    0 they follow each other. *)
Record sound_level (level : Z) (files : list FileMetaData) : Prop := {
  l_keys : Forall file_keys files;
  l_small : small_level files;
  l_sorted : 0 < level -> StronglySorted before files;
}.

Lemma some_overlap_ok level files a b : sound_level level files -> bound_ok a -> bound_ok b ->
  SomeFileOverlapsRange user (0 <? level) files a b = Some (existsb (overlaps a b) files).
Proof.
  intros [Hk Hsmall Hs] Ha Hb. unfold SomeFileOverlapsRange. destruct (Z.ltb_spec 0 level) as [Hlev|_]; cbn [negb]; [|by apply some_overlaps_ok]. specialize (Hs Hlev).
  assert (Hn : exists n : nat, (match a with
      | Some u => small_key ← InternalKey u kMaxSequenceNumber kValueTypeForSeek; k ← InternalKey_Encode small_key; FindFile user files k
      | None => Some 0 end) = Some (Z.of_nat n) /\ (n <= length files)%nat /\
      (forall i f, files !! i = Some f -> (i < n)%nat -> is_after a f = true) /\ (forall i f, files !! i = Some f -> (n <= i)%nat -> is_after a f = false)).
  { destruct a as [u|]; [|exists 0%nat; split; [done|]; split; [lia|]; split; [lia|done]]. cbn in Ha. unfold InternalKey. rewrite append_internal_ok by apply max_number. cbn [option_bind mbind user_key sequence type].
    change (internal_key u (tag_of kMaxSequenceNumber kValueTypeForSeek)) with (seek_key u). rewrite encode_real by (by apply seek_key_real). cbn [option_bind mbind].
    destruct (find_file_ok files (seek_key u) Hk Hs (seek_key_real u Ha) Hsmall) as (n & -> & Hn & Hl & Hr). exists n. split; [done|]. split; [done|]. cbn [is_after].
    split; intros i f Ef Hi; pose proof (proj1 (Forall_lookup _ _) Hk i f Ef) as Hkf.
    - specialize (Hl i f Ef Hi). apply before_seek in Hl; [|apply Hkf|done]. apply order_lt_flip in Hl. change (user_part (largest f)) with (hi f) in Hl. by rewrite Hl.
    - specialize (Hr i f Ef Hi). destruct (order u (hi f)) eqn:E; try done. apply order_lt_flip in E. exfalso. apply Hr. apply before_seek; [apply Hkf|done|exact E]. }
  destruct Hn as (n & -> & Hn & Hl & Hr). cbn [option_bind mbind]. rewrite (sorted_overlap files a b n) by done. unfold num_files.
  destruct (Z.leb_spec (Z.of_nat (length files)) (Z.of_nat n)) as [Hge|Hlt].
  - by rewrite lookup_ge_None_2 by lia.
  - destruct (lookup_lt_is_Some_2 files n) as [f Ef]; [lia|]. rewrite Nat2Z.id, Ef. cbn [option_bind mbind]. pose proof (proj1 (Forall_lookup _ _) Hk n f Ef). by rewrite before_file_ok.
Qed.

(** * The inputs of a compaction *)

Definition below (key : list Z) (b : option (list Z)) : bool := match b with Some u => is_lt (order key u) | None => false end.
Definition above (key : list Z) (b : option (list Z)) : bool := match b with Some u => is_gt (order key u) | None => false end.

Lemma before_bound_ok key b : valid_key key -> bound_ok b -> before_bound user key b = Some (below key b).
Proof. intros Hk Hb. destruct b as [u|]; [|done]. unfold before_bound. destruct (ucmp_ok key u) as (c & -> & Hc); [done|done|]. cbn [option_bind mbind below]. by rewrite ltb_compare, Hc. Qed.

Lemma after_bound_ok key b : valid_key key -> bound_ok b -> after_bound user key b = Some (above key b).
Proof. intros Hk Hb. destruct b as [u|]; [|done]. unfold after_bound. destruct (ucmp_ok key u) as (c & -> & Hc); [done|done|]. cbn [option_bind mbind above]. by rewrite gtb_compare, Hc. Qed.

Lemma below_after a f : below (hi f) a = is_after a f.
Proof. destruct a as [u|]; [|done]. cbn. rewrite (order_flip u). by destruct (order u (hi f)). Qed.

Lemma above_before b f : above (lo f) b = is_before b f.
Proof. destruct b as [u|]; [|done]. cbn. rewrite (order_flip u). by destruct (order u (lo f)). Qed.

(** A range with lower bounds and higher ones that are the same or further out. *)
Definition lower_bound (x a : option (list Z)) : Prop := match x, a with Some u, Some v => order u v <> Gt | None, None => True | _, _ => False end.
Definition higher_bound (y b : option (list Z)) : Prop := match y, b with Some u, Some v => order u v <> Lt | None, None => True | _, _ => False end.
Definition wider (x y a b : option (list Z)) : Prop := bound_ok x /\ bound_ok y /\ lower_bound x a /\ higher_bound y b.

(** Every file that overlaps the range lies in it. *)
Definition closed_range (files : list FileMetaData) (a b : option (list Z)) : Prop :=
  forall f, f ∈ files -> overlaps a b f = true -> below (lo f) a = false /\ above (hi f) b = false.

Definition least_range (files : list FileMetaData) (a0 b0 a b : option (list Z)) : Prop :=
  wider a b a0 b0 /\ forall x y, wider x y a0 b0 -> closed_range files x y -> wider x y a b.

Lemma wider_refl a b : bound_ok a -> bound_ok b -> wider a b a b.
Proof. intros Ha Hb. split; [done|]. split; [done|]. destruct a, b; cbn; by rewrite ?order_refl. Qed.

Lemma wider_overlaps x y a b f : wider x y a b -> bound_ok a -> bound_ok b -> file_keys f -> overlaps a b f = true -> overlaps x y f = true.
Proof.
  intros (Hx & Hy & Hl & Hh) Ha Hb Hf Ho. unfold overlaps in *. apply andb_true_iff in Ho as [H1 H2]. apply negb_true_iff in H1, H2. apply andb_true_iff. rewrite !negb_true_iff. pose proof (lo_valid f Hf). pose proof (hi_valid f Hf). split.
  - destruct x as [u|], a as [v|]; try done. cbn in *. destruct (order u (hi f)) eqn:E; try done. exfalso. apply (order_le_trans u v (hi f)); try done. by destruct (order v (hi f)).
  - destruct y as [u|], b as [v|]; try done. cbn in *. destruct (order u (lo f)) eqn:E; try done. exfalso.
    assert (Hvu : order v u <> Gt) by (intros E'; apply Hh; by apply order_lt_flip). rewrite (order_le_lt v u (lo f)) in H2; done.
Qed.

(** How often a bound can move yet. *)
Definition outside (files : list FileMetaData) (a b : option (list Z)) : nat :=
  (length (filter (fun f => below (lo f) a = true) files) + length (filter (fun f => above (hi f) b = true) files))%nat.

Lemma filter_shrinks {A} (P Q : A -> Prop) `{!forall x, Decision (P x)} `{!forall x, Decision (Q x)} l x : (forall y, y ∈ l -> P y -> Q y) -> x ∈ l -> ~ P x -> Q x ->
  (length (filter P l) < length (filter Q l))%nat.
Proof.
  induction l as [|y l IH]; intros HPQ Hx HP HQ; [by apply not_elem_of_nil in Hx|].
  assert (Hle : (length (filter P l) <= length (filter Q l))%nat).
  { clear IH Hx. assert (Hall : forall z, z ∈ l -> P z -> Q z) by (intros z Hz; apply HPQ; by right). clear HPQ. induction l as [|z l IHl]; [done|]. rewrite !filter_cons.
    assert (length (filter P l) <= length (filter Q l))%nat by (apply IHl; intros z' Hz'; apply Hall; by right). destruct (decide (P z)) as [Hp|]; [rewrite decide_True by (apply Hall; [by left|done]); cbn; lia|]. destruct (decide (Q z)); cbn; lia. }
  rewrite !filter_cons. apply elem_of_cons in Hx as [->|Hx].
  - rewrite decide_False, decide_True by done. cbn. lia.
  - assert (length (filter P l) < length (filter Q l))%nat by (apply IH; [intros z Hz; apply HPQ; by right|done..]). destruct (decide (P y)) as [Hp|]; [rewrite decide_True by (apply HPQ; [by left|done]); cbn; lia|]. destruct (decide (Q y)); cbn; lia.
Qed.

Lemma order_lt_trans a b c : valid_key a -> valid_key b -> valid_key c -> order a b = Lt -> order b c = Lt -> order a c = Lt.
Proof. intros Ha Hb Hc H1 H2. apply (order_lt_le a b c); [done..|]. by rewrite H2. Qed.

Lemma lower_moves files a b f : Forall file_keys files -> bound_ok a -> f ∈ files -> below (lo f) a = true -> (outside files (Some (lo f)) b < outside files a b)%nat.
Proof.
  intros Hk Ha Hf Hlow. unfold outside. apply Nat.add_lt_mono_r. rewrite Forall_forall in Hk. apply (filter_shrinks _ _ files f); [|done|cbn; by rewrite order_refl|done].
  intros g Hg. cbn. destruct a as [u|]; [|done]. cbn in *. destruct (order (lo g) (lo f)) eqn:E1; try done. destruct (order (lo f) u) eqn:E2; try done. intros _.
  by rewrite (order_lt_trans (lo g) (lo f) u) by (done || apply lo_valid; by apply Hk).
Qed.

Lemma higher_moves files a b f : Forall file_keys files -> bound_ok b -> f ∈ files -> above (hi f) b = true -> (outside files a (Some (hi f)) < outside files a b)%nat.
Proof.
  intros Hk Hb Hf Hhi. unfold outside. apply Nat.add_lt_mono_l. rewrite Forall_forall in Hk. apply (filter_shrinks _ _ files f); [|done|cbn; by rewrite order_refl|done].
  intros g Hg. cbn. destruct b as [u|]; [|done]. cbn in *. destruct (order (hi g) (hi f)) eqn:E1; try done. destruct (order (hi f) u) eqn:E2; try done. intros _.
  apply order_lt_flip in E1, E2. assert (E : order u (hi g) = Lt) by (apply (order_lt_trans u (hi f) (hi g)); try done; apply hi_valid; by apply Hk). apply order_lt_flip in E. by rewrite E.
Qed.

Lemma outside_bound files a b : (outside files a b <= 2 * length files)%nat.
Proof. unfold outside. pose proof (length_filter (fun f => below (lo f) a = true) files). pose proof (length_filter (fun f => above (hi f) b = true) files). lia. Qed.

Section inputs.
Context (files : list FileMetaData) (Hk : Forall file_keys files).

Notation input a b := (filter (fun f => overlaps a b f = true)).

(** Above level 0, one pass. *)
Lemma overlap_loop_sorted level a b rest : level <> 0 -> bound_ok a -> bound_ok b -> Forall file_keys rest -> forall fuel inputs, (length rest < fuel)%nat ->
  overlap_loop user fuel level files rest a b inputs = Some (inputs ++ input a b rest).
Proof.
  intros Hlev Ha Hb. induction 1 as [|f rest Hf _ IH]; intros [|fuel] inputs Hfuel; cbn [length] in Hfuel; try lia; cbn [overlap_loop]; [by rewrite app_nil_r|].
  rewrite smallest_user_ok, largest_user_ok by done. cbn [option_bind mbind]. pose proof (lo_valid f Hf). pose proof (hi_valid f Hf). rewrite (before_bound_ok (hi f) a) by done. cbn [option_bind mbind]. rewrite below_after.
  assert (Hstep : input a b (f :: rest) = if negb (is_after a f) && negb (is_before b f) then f :: input a b rest else input a b rest).
  { change (negb (is_after a f) && negb (is_before b f)) with (overlaps a b f). destruct (overlaps a b f) eqn:Ho; [by rewrite filter_cons_True|by rewrite filter_cons_False by congruence]. }
  rewrite Hstep. destruct (is_after a f); cbn [option_bind mbind negb andb]; [apply IH; lia|]. rewrite (after_bound_ok (lo f) b) by done. cbn [option_bind mbind]. rewrite above_before.
  destruct (is_before b f); cbn [option_bind mbind negb]; [apply IH; lia|]. rewrite (proj2 (Z.eqb_neq level 0)) by done. rewrite IH by lia. by rewrite <- app_assoc.
Qed.

(** At level 0, with the files that were looked at since the last start. *)
Lemma overlap_loop_closed a0 b0 : forall fuel a b seen rest,
  bound_ok a0 -> bound_ok b0 -> bound_ok a -> bound_ok b -> files = seen ++ rest -> least_range files a0 b0 a b ->
  (forall f, f ∈ seen -> overlaps a b f = true -> below (lo f) a = false /\ above (hi f) b = false) ->
  (outside files a b * (length files + 1) + length rest < fuel)%nat ->
  exists a' b', overlap_loop user fuel 0 files rest a b (input a b seen) = Some (input a' b' files) /\ least_range files a0 b0 a' b' /\ closed_range files a' b'.
Proof.
  induction fuel as [|fuel IH]; intros a b seen rest Ha0 Hb0 Ha Hb Efiles Hleast Hseen Hfuel; [lia|]. cbn [overlap_loop]. destruct rest as [|f rest].
  { rewrite app_nil_r in Efiles. subst seen. by exists a, b. }
  assert (Hf : f ∈ files) by (rewrite Efiles; apply elem_of_app; right; by left). assert (Hkf : file_keys f) by (rewrite Forall_forall in Hk; by apply Hk). cbn [length] in Hfuel.
  assert (Esnoc : files = (seen ++ [f]) ++ rest) by (by rewrite <- app_assoc).
  pose proof (lo_valid f Hkf) as Hlo. pose proof (hi_valid f Hkf) as Hhi. rewrite smallest_user_ok, largest_user_ok by done. cbn [option_bind mbind]. rewrite (before_bound_ok (hi f) a) by done. cbn [option_bind mbind]. rewrite below_after.
  assert (Hskip : overlaps a b f = false -> exists a' b', overlap_loop user fuel 0 files rest a b (input a b seen) = Some (input a' b' files) /\ least_range files a0 b0 a' b' /\ closed_range files a' b').
  { intros Ho. replace (input a b seen) with (input a b (seen ++ [f])) by (by rewrite filter_app, filter_cons_False, app_nil_r by congruence). apply IH; try done; [|lia].
    intros g Hg Hog. apply elem_of_app in Hg as [Hg|Hg%list_elem_of_singleton]; [by apply Hseen|]. subst g. congruence. }
  destruct (is_after a f) eqn:Eaf; cbn [option_bind mbind]; [apply Hskip; unfold overlaps; by rewrite Eaf|]. rewrite (after_bound_ok (lo f) b) by done. cbn [option_bind mbind]. rewrite above_before.
  destruct (is_before b f) eqn:Ebf; cbn [option_bind mbind]; [apply Hskip; unfold overlaps; by rewrite Eaf, Ebf|]. assert (Ho : overlaps a b f = true) by (unfold overlaps; by rewrite Eaf, Ebf). clear Hskip.
  rewrite Z.eqb_refl. rewrite (before_bound_ok (lo f) a) by done. cbn [option_bind mbind]. destruct Hleast as [Hw Hmin]. destruct (below (lo f) a) eqn:Elow.
  - pose proof (lower_moves files a b f Hk Ha Hf Elow) as Hm. apply (IH (Some (lo f)) b [] files); try done; [|intros g Hg; by apply not_elem_of_nil in Hg|nia].
    destruct a as [u|]; [|done]. cbn in Elow. destruct (order (lo f) u) eqn:Eu; try done. split.
    + destruct Hw as (_ & _ & Hwl & Hwh). split; [done|]. split; [done|]. split; [|done]. destruct a0 as [u0|]; [|done]. cbn in *. by rewrite (order_lt_le (lo f) u u0).
    + intros x y Hxy Hcl. pose proof (Hmin x y Hxy Hcl) as Hw'. pose proof (wider_overlaps _ _ _ _ f Hw' Ha Hb Hkf Ho) as Ho'. destruct (Hcl f Hf Ho') as [Hlx _].
      destruct Hw' as (? & ? & Hl & ?). split; [done|]. split; [done|]. split; [|done]. destruct x as [u'|]; [|done]. cbn in *. intros E. apply order_lt_flip in E. by rewrite E in Hlx.
  - rewrite (after_bound_ok (hi f) b) by done. cbn [option_bind mbind]. destruct (above (hi f) b) eqn:Ehi.
    + pose proof (higher_moves files a b f Hk Hb Hf Ehi) as Hm. apply (IH a (Some (hi f)) [] files); try done; [|intros g Hg; by apply not_elem_of_nil in Hg|nia].
      destruct b as [u|]; [|done]. cbn in Ehi. destruct (order (hi f) u) eqn:Eu; try done. apply order_lt_flip in Eu. split.
      * destruct Hw as (_ & _ & Hwl & Hwh). split; [done|]. split; [done|]. split; [done|]. destruct b0 as [u0|]; [|done]. cbn in *. intros E. apply Hwh. by apply (order_lt_trans u (hi f) u0).
      * intros x y Hxy Hcl. pose proof (Hmin x y Hxy Hcl) as Hw'. pose proof (wider_overlaps _ _ _ _ f Hw' Ha Hb Hkf Ho) as Ho'. destruct (Hcl f Hf Ho') as [_ Hly].
        destruct Hw' as (? & ? & ? & Hh). split; [done|]. split; [done|]. split; [done|]. destruct y as [u'|]; [|done]. cbn in *. intros E. rewrite (order_flip u'), E in Hly. done.
    + replace (input a b seen ++ [f]) with (input a b (seen ++ [f])) by (by rewrite filter_app, filter_cons_True). apply IH; try done; [|lia].
      intros g Hg Hog. apply elem_of_app in Hg as [Hg|Hg%list_elem_of_singleton]; [by apply Hseen|]. by subst g.
Qed.
End inputs.

Lemma user_bound_ok key : match key with Some k => real_key k | None => True end -> user_bound key = Some (user_part <$> key) /\ bound_ok (user_part <$> key).
Proof. destruct key as [k|]; [|done]. intros Hk. unfold user_bound. rewrite extract_real by done. split; [done|by apply real_user_valid]. Qed.

Lemma overlapping_ok v level files b e : files_ v level = Some files -> Forall file_keys files ->
  match b with Some k => real_key k | None => True end -> match e with Some k => real_key k | None => True end ->
  exists b' e', GetOverlappingInputs user v level b e = Some (filter (fun f => overlaps b' e' f = true) files) /\
    if level =? 0 then least_range files (user_part <$> b) (user_part <$> e) b' e' /\ closed_range files b' e' else b' = user_part <$> b /\ e' = user_part <$> e.
Proof.
  intros Ev Hk Hb He. destruct (user_bound_ok b Hb) as [Eb Hb'], (user_bound_ok e He) as [Ee He']. unfold GetOverlappingInputs. rewrite Ev, Eb, Ee. cbn [option_bind mbind]. unfold overlap_fuel.
  destruct (Z.eqb_spec level 0) as [->|Hlev].
  - destruct (overlap_loop_closed files Hk (user_part <$> b) (user_part <$> e) ((2 * length files + 1) * (length files + 1)) (user_part <$> b) (user_part <$> e) [] files) as (b' & e' & E & Hl & Hc); try done.
    + split; [by apply wider_refl|done].
    + intros f Hf. by apply not_elem_of_nil in Hf.
    + pose proof (outside_bound files (user_part <$> b) (user_part <$> e)). nia.
    + by exists b', e'.
  - exists (user_part <$> b), (user_part <$> e). split; [|done]. rewrite (overlap_loop_sorted files level) by (try done; nia). done.
Qed.

End version.

(** C14: [GetOverlappingInputs] ends without a failed assertion, however often level 0 makes it
    start over, and returns the files of the level that overlap a range of user keys, in
    their order: above level 0 the range that was asked for, in level 0 the least one around
    it that cuts no file, so that no file left behind shares a user key with one taken. *)
Theorem compaction_inputs {user : Comparator} {laws : ComparatorLaws} v level files b e :
  files_ v level = Some files -> Forall file_keys files -> match b with Some k => real_key k | None => True end -> match e with Some k => real_key k | None => True end ->
  exists b' e' inputs, GetOverlappingInputs user v level b e = Some inputs /\ (forall f, f ∈ inputs <-> f ∈ files /\ overlaps b' e' f = true) /\ inputs `sublist_of` files /\
    (level <> 0 -> b' = user_part <$> b /\ e' = user_part <$> e) /\
    (level = 0 -> least_range files (user_part <$> b) (user_part <$> e) b' e' /\ forall f, f ∈ inputs -> below (lo f) b' = false /\ above (hi f) e' = false).
Proof.
  intros Ev Hk Hb He. destruct (overlapping_ok v level files b e Ev Hk Hb He) as (b' & e' & E & Hr). exists b', e', (filter (fun f => overlaps b' e' f = true) files). split; [exact E|].
  split; [intros f; rewrite list_elem_of_filter; tauto|]. split; [apply sublist_filter|]. split; intros Hlev.
  - by rewrite (proj2 (Z.eqb_neq level 0) Hlev) in Hr.
  - subst level. destruct Hr as [Hl Hc]. split; [done|]. intros f Hf. apply list_elem_of_filter in Hf as [Ho Hf]. by apply Hc.
Qed.

(** ** An example: of three files of level 0, the range of the first reaches the second *)

Definition key_of (b s : Z) : list Z := internal_key [b] (tag_of s kTypeValue).
Definition file_of (n b e : Z) : FileMetaData := mk_meta 100 n 64 (key_of b 9) (key_of e 3).
Definition three_files : list FileMetaData := [file_of 3 98 101; file_of 4 97 99; file_of 5 103 104].

Lemma key_of_real b s : 0 <= b < 256 -> 0 <= s <= 100 -> real_key (user := bytewise) (key_of b s).
Proof. intros Hb Hs. exists [b], s, kTypeValue. split; [constructor; [exact Hb|constructor]|]. split; [|done]. change kMaxSequenceNumber with 72057594037927935. lia. Qed.

Lemma file_of_keys n b e : 0 <= b < 256 -> 0 <= e < 256 -> internal_order (user := bytewise) (key_of b 9) (key_of e 3) <> Gt -> file_keys (user := bytewise) (file_of n b e).
Proof. intros Hb He Hbe. constructor; [apply key_of_real; [done|lia]|apply key_of_real; [done|lia]|exact Hbe]. Qed.

Lemma compaction_inputs_witness : exists b' e' inputs,
  GetOverlappingInputs bytewise [three_files] 0 (Some (key_of 97 9)) (Some (key_of 97 3)) = Some inputs /\ number <$> inputs = [3; 4] /\ (forall f, f ∈ inputs <-> f ∈ three_files /\ overlaps (user := bytewise) b' e' f = true) /\
  number <$> default [] (GetOverlappingInputs bytewise [[]; three_files] 1 (Some (key_of 97 9)) (Some (key_of 97 3))) = [4].
Proof.
  destruct (compaction_inputs (user := bytewise) [three_files] 0 three_files (Some (key_of 97 9)) (Some (key_of 97 3))) as (b' & e' & inputs & E & Hin & _).
  - reflexivity.
  - repeat (apply Forall_cons; split); [..|constructor]; apply file_of_keys; first [lia|by vm_compute].
  - apply key_of_real; lia.
  - apply key_of_real; lia.
  - exists b', e', inputs. split; [exact E|]. split; [vm_compute in E; by injection E as <-|]. split; [exact Hin|reflexivity].
Defined.
