(* ===== verification/LdbVersionSpec.v ===== *)
(** What the files of a LevelDB database hold together: the order of its levels, that Get
    finds the newest entry, and that edits keep the order. *)
From stdpp Require Import base gmap list strings numbers option sorting.
From Stdlib Require Import ZArith Lia.
From S2P Require Import Prelude LdbCoding LdbCodingThms LdbEnv LdbComparator LdbFormat LdbFormatThms LdbMemTableThms LdbVersionEdit LdbVersion LdbVersionThms.

Section tree.
Context {user : Comparator} {laws : ComparatorLaws}.

(** * The entries of files *)

(** What the table file with a number holds, and how the table cache reads it. *)
Context (entries : Z -> list version) (table_cache_Get : Z -> Z -> list Z -> Status * option (list Z * list Z)).

Definition file_entries (f : FileMetaData) : list version := entries (number f).

Definition lookup_at (u : list Z) (s : Z) : list Z := internal_key u (tag_of s kValueTypeForSeek).

(** [TableCache::Get] hands over the first entry at or behind the key, if there is one - it
    may leave out one of another user key, which the filter or the index spares it. *)
Definition table_read (f : FileMetaData) : Prop := forall u s, valid_key u -> 0 <= s <= kMaxSequenceNumber ->
  exists e, table_cache_Get (number f) (file_size f) (lookup_at u s) = (OK, e) /\
    match e with
    | Some (k, val) => exists x, x ∈ file_entries f /\ k = version_key x /\ val = v_value x /\ internal_order (lookup_at u s) (version_key x) <> Gt /\
        forall y, y ∈ file_entries f -> internal_order (lookup_at u s) (version_key y) <> Gt -> internal_order (version_key x) (version_key y) <> Gt
    | None => forall y, y ∈ file_entries f -> visible u s y = false
    end.

Record contents_ok (f : FileMetaData) : Prop := {
  c_versions : Forall version_ok (file_entries f);
  c_low : forall x, x ∈ file_entries f -> internal_order (smallest f) (version_key x) <> Gt;
  c_high : forall x, x ∈ file_entries f -> internal_order (version_key x) (largest f) <> Gt;
  c_last : exists x, x ∈ file_entries f /\ version_key x = largest f;
  c_read : table_read f;
}.

(** * The newest entry *)

Definition is_newest (u : list Z) (s : Z) (vs : list version) (o : option version) : Prop :=
  match o with
  | Some x => x ∈ vs /\ visible u s x = true /\ forall y, y ∈ vs -> visible u s y = true -> v_seq y <= v_seq x
  | None => forall y, y ∈ vs -> visible u s y = false
  end.

Lemma newest_is_newest u s vs : is_newest u s vs (newest u s vs).
Proof.
  induction vs as [|v vs IH]; cbn [newest]; [intros y Hy; by apply not_elem_of_nil in Hy|]. destruct (visible u s v) eqn:Ev.
  - destruct (newest u s vs) as [v'|] eqn:En.
    + destruct IH as (Hin & Hvis & Hmax). destruct (Z.ltb_spec (v_seq v) (v_seq v')).
      * split; [by right|]. split; [done|]. intros y [->|Hy]%elem_of_cons Hy'; [lia|by apply Hmax].
      * split; [by left|]. split; [done|]. intros y [->|Hy]%elem_of_cons Hy'; [lia|]. pose proof (Hmax y Hy Hy'). lia.
    + split; [by left|]. split; [done|]. intros y [->|Hy]%elem_of_cons Hy'; [lia|]. by rewrite (IH y Hy) in Hy'.
  - destruct (newest u s vs) as [v'|].
    + destruct IH as (Hin & Hvis & Hmax). split; [by right|]. split; [done|]. intros y [->|Hy]%elem_of_cons Hy'; [congruence|by apply Hmax].
    + intros y [->|Hy]%elem_of_cons; [done|by apply IH].
Qed.

(** Entries of the same user key and number are the same. *)
Definition one_each (vs : list version) : Prop := forall x y, x ∈ vs -> y ∈ vs -> order (v_user x) (v_user y) = Eq -> v_seq x = v_seq y -> x = y.

Lemma visible_user u s x : visible u s x = true -> order (v_user x) u = Eq /\ v_seq x <= s.
Proof. unfold visible. intros [H1 H2]%andb_true_iff. apply Z.leb_le in H2. by destruct (order (v_user x) u). Qed.

Lemma newest_unique u s vs o o' : valid_key u -> Forall version_ok vs -> one_each vs -> is_newest u s vs o -> is_newest u s vs o' -> o = o'.
Proof.
  intros Hu Hok H1 Ho Ho'. destruct o as [x|], o' as [y|]; [|..|done].
  - destruct Ho as (Hx & Hvx & Hmx), Ho' as (Hy & Hvy & Hmy). f_equal. pose proof (Hmx y Hy Hvy). pose proof (Hmy x Hx Hvx).
    apply visible_user in Hvx as [Ex _], Hvy as [Ey _]. rewrite Forall_forall in Hok. apply H1; try done; [|lia]. apply (order_eq_chain _ u); try done; [by apply (Hok x)|by apply (Hok y)|]. by rewrite order_flip, Ey.
  - destruct Ho as (Hx & Hvx & _). by rewrite (Ho' x Hx) in Hvx.
  - destruct Ho' as (Hy & Hvy & _). by rewrite (Ho y Hy) in Hvy.
Qed.

(** * Levels *)

Definition level_entries (files : list FileMetaData) : list version := mjoin (file_entries <$> files).
Definition newer_than (vs vs' : list version) : Prop := forall x y, x ∈ vs -> y ∈ vs' -> order (v_user x) (v_user y) = Eq -> v_seq y < v_seq x.

Lemma elem_of_level files x : x ∈ level_entries files <-> exists f, f ∈ files /\ x ∈ file_entries f.
Proof.
  unfold level_entries. rewrite list_elem_of_join. split.
  - intros (vs & Hx & Hvs). apply list_elem_of_fmap in Hvs as (f & -> & Hf). by exists f.
  - intros (f & Hf & Hx). exists (file_entries f). split; [done|]. by apply list_elem_of_fmap_2.
Qed.

Lemma level_versions files : Forall contents_ok files -> Forall version_ok (level_entries files).
Proof.
  intros Hc. apply Forall_forall. intros x Hx. apply elem_of_level in Hx as (f & Hf & Hx). rewrite Forall_forall in Hc. pose proof (c_versions f (Hc f Hf)) as Hv. rewrite Forall_forall in Hv. by apply Hv.
Qed.

(** The files of level 0 may overlap, but of two, that with the higher number is newer. *)
Definition newest_files (files : list FileMetaData) : Prop :=
  NoDup (number <$> files) /\ forall f g, f ∈ files -> g ∈ files -> number f < number g -> newer_than (file_entries g) (file_entries f).

(** ** Entries of one user key *)

Lemma tag_le s t s' t' : 0 <= s -> 0 <= s' -> s' < s -> tag_of s' t' < tag_of s t.
Proof. intros H0 H0' Hs. pose proof (type_range t). pose proof (type_range t'). unfold tag_of. lia. Qed.

Lemma lookup_valid u s : valid_key u -> 0 <= s <= kMaxSequenceNumber -> internal_valid (lookup_at u s).
Proof. intros Hu Hs. exists u, (tag_of s kValueTypeForSeek). split; [done|]. split; [by apply tag_range|done]. Qed.

(** An entry is at or behind the place where its user key is looked up if it is visible there. *)
Lemma behind_visible u s x : valid_key u -> 0 <= s <= kMaxSequenceNumber -> version_ok x -> order (v_user x) u = Eq ->
  internal_order (lookup_at u s) (version_key x) <> Gt <-> v_seq x <= s.
Proof.
  intros Hu Hs Hx E. unfold internal_order, lookup_at. destruct (version_parts x Hx) as [-> ->]. destruct (parts u _ (tag_range s kValueTypeForSeek Hs)) as [-> ->].
  rewrite order_flip, E. cbn [CompOpp]. destruct Hx as (_ & _ & _ & Hxs & _). rewrite Z.compare_gt_iff. unfold tag_of, kValueTypeForSeek. pose proof (type_range (v_type x)). cbn [type_val] in *. lia.
Qed.

Lemma version_real x : version_ok x -> real_key (version_key x).
Proof. intros (Hu & _ & _ & Hs & _). by exists (v_user x), (v_seq x), (v_type x). Qed.

Lemma parse_version x : version_ok x -> ParseInternalKey (version_key x) = Some (mk_parsed (v_user x) (v_seq x) (v_type x)).
Proof. intros (_ & _ & _ & Hs & _). apply (internal_key_roundtrip (mk_parsed (v_user x) (v_seq x) (v_type x))); [done|]. by apply append_internal_ok. Qed.

(** * Searching files *)

Definition state_of (o : option version) : SaverState :=
  match o with
  | Some x => match v_type x with kTypeValue => SaverFound (v_value x) | kTypeDeletion => SaverDeleted end
  | None => SaverNotFound
  end.

Section get.
Context (u : list Z) (s : Z) (Hu : valid_key u) (Hs : 0 <= s <= kMaxSequenceNumber).

Lemma search_file_ok f : contents_ok f ->
  exists e o, table_cache_Get (number f) (file_size f) (lookup_at u s) = (OK, e) /\ is_newest u s (file_entries f) o /\
    match e with Some (k, v) => SaveValue user u k v | None => Some SaverNotFound end = Some (state_of o).
Proof.
  intros [Hv _ _ _ Hread]. destruct (Hread u s Hu Hs) as (e & E & He). destruct e as [[k val]|].
  - destruct He as (x & Hx & -> & -> & Hge & Hfirst). rewrite Forall_forall in Hv. pose proof (Hv x Hx) as Hxok.
    assert (Esv : SaveValue user u (version_key x) (v_value x) = Some (match order (v_user x) u with Eq => state_of (Some x) | _ => SaverNotFound end)).
    { unfold SaveValue. rewrite parse_version by done. cbn [user_key type]. destruct (ucmp_ok (v_user x) u) as (c & -> & Hc); [apply Hxok|done|]. cbn [option_bind mbind]. rewrite eqb_compare, Hc. by destruct (order (v_user x) u). }
    assert (Huser : forall y, y ∈ file_entries f -> visible u s y = true -> internal_order (version_key x) (version_key y) <> Gt /\ order (v_user x) u = Eq).
    { intros y Hy Hvy. apply visible_user in Hvy as [Ey Hsy]. pose proof (Hv y Hy) as Hyok. assert (Hby : internal_order (lookup_at u s) (version_key y) <> Gt) by (by apply behind_visible).
      pose proof (Hfirst y Hy Hby) as Hxy. split; [done|]. pose proof (user_le _ _ Hxy) as Hxy'. pose proof (user_le _ _ Hge) as Hux. unfold lookup_at in Hux.
      rewrite (proj1 (parts u _ (tag_range s kValueTypeForSeek Hs))), (proj1 (version_parts x Hxok)) in Hux. rewrite (proj1 (version_parts x Hxok)), (proj1 (version_parts y Hyok)) in Hxy'.
      destruct (order (v_user x) u) eqn:Eux; [done| |].
      - apply order_lt_flip in Eux. done.
      - exfalso. apply (order_le_trans (v_user x) (v_user y) u); try done; [apply Hxok|apply Hyok|by rewrite Ey]. }
    exists (Some (version_key x, v_value x)). destruct (order (v_user x) u) eqn:Eu.
    + exists (Some x). split; [done|]. split; [|exact Esv]. split; [done|]. split.
      * unfold visible. rewrite Eu. apply Z.leb_le. by apply (behind_visible u s x).
      * intros y Hy Hvy. destruct (Huser y Hy Hvy) as [Hxy _]. apply visible_user in Hvy as [Ey Hsy]. pose proof (Hv y Hy) as Hyok.
        destruct (Z.le_gt_cases (v_seq y) (v_seq x)) as [|Hlt]; [done|]. exfalso. apply Hxy. unfold internal_order. destruct (version_parts x Hxok) as [-> ->], (version_parts y Hyok) as [-> ->].
        assert (Exy : order (v_user x) (v_user y) = Eq) by (apply (order_eq_chain _ u); try done; [apply Hxok|apply Hyok|by rewrite order_flip, Ey]). rewrite Exy. apply Z.compare_gt_iff, tag_le; [apply Hyok|apply Hxok|done].
    + exists None. split; [done|]. split; [|exact Esv]. intros y Hy. destruct (visible u s y) eqn:Hvy; [|done]. by destruct (Huser y Hy Hvy).
    + exists None. split; [done|]. split; [|exact Esv]. intros y Hy. destruct (visible u s y) eqn:Hvy; [|done]. by destruct (Huser y Hy Hvy).
  - exists None, None. split; [done|]. split; [exact He|done].
Qed.

(** The first file of a list that has a visible entry. *)
Inductive first_of : list FileMetaData -> option version -> Prop :=
  | first_none : first_of [] None
  | first_here f fs x : is_newest u s (file_entries f) (Some x) -> first_of (f :: fs) (Some x)
  | first_later f fs o : is_newest u s (file_entries f) None -> first_of fs o -> first_of (f :: fs) o.

(** What Get returns for an entry: its status, and the value it stores. *)
Definition outcome_of (x : version) : Status * option (list Z) :=
  match v_type x with kTypeValue => (OK, Some (v_value x)) | kTypeDeletion => (NotFound "", None) end.

Lemma search_files_ok level fs : Forall contents_ok fs -> forall last stats,
  exists o, first_of fs o /\ exists last' stats', search_files user table_cache_Get level fs u (lookup_at u s) last stats =
    Some (match o with Some x => Return (outcome_of x).1 (outcome_of x).2 stats' | None => Continue last' stats' end).
Proof.
  induction 1 as [|f fs Hf _ IH]; intros last stats; [exists None; split; [constructor|]; by exists last, stats|]. cbn [search_files].
  destruct (search_file_ok f Hf) as (e & o & -> & Ho & Es). rewrite Es. cbn [option_bind mbind ok negb]. set (st := match last with Some _ => _ | None => _ end).
  destruct o as [x|].
  - exists (Some x). split; [by constructor|]. exists last, st. unfold outcome_of. cbn [state_of]. by destruct (v_type x).
  - destruct (IH (Some (f, level)) st) as (o & Ho' & last' & stats' & E). exists o. split; [by constructor|]. by exists last', stats'.
Qed.

(** * Searching levels *)

Lemma is_newest_ext vs vs' o : (forall y, visible u s y = true -> y ∈ vs <-> y ∈ vs') -> is_newest u s vs o -> is_newest u s vs' o.
Proof.
  intros Hext. destruct o as [x|].
  - intros (Hx & Hv & Hmax). split; [by apply Hext|]. split; [done|]. intros y Hy Hvy. apply Hmax; [by apply Hext|done].
  - intros Hn y Hy. destruct (visible u s y) eqn:Hvy; [|done]. by rewrite (Hn y) in Hvy by (by apply Hext).
Qed.

(** Where one part is newer than the other, the newest entry is that of the newer part if it has one. *)
Lemma is_newest_app vs vs' o o' : Forall version_ok (vs ++ vs') -> newer_than vs vs' -> is_newest u s vs o -> is_newest u s vs' o' -> is_newest u s (vs ++ vs') (match o with Some x => Some x | None => o' end).
Proof.
  intros Hok Hnew Ho Ho'. destruct o as [x|].
  - destruct Ho as (Hx & Hv & Hmax). split; [apply elem_of_app; by left|]. split; [done|]. intros y [Hy|Hy]%elem_of_app Hvy; [by apply Hmax|].
    apply visible_user in Hv as [Ex _], Hvy as [Ey _]. rewrite Forall_forall in Hok. apply Z.lt_le_incl, Hnew; try done. apply (order_eq_chain _ u); try done; [apply Hok, elem_of_app; by left|apply Hok, elem_of_app; by right|by rewrite order_flip, Ey].
  - destruct o' as [x|]; cbn in *.
    + destruct Ho' as (Hx & Hv & Hmax). split; [apply elem_of_app; by right|]. split; [done|]. intros y [Hy|Hy]%elem_of_app Hvy; [by rewrite Ho in Hvy|by apply Hmax].
    + intros y [Hy|Hy]%elem_of_app; auto.
Qed.

Lemma first_of_newest fs o : Forall contents_ok fs -> StronglySorted (fun f g => newer_than (file_entries f) (file_entries g)) fs -> first_of fs o -> is_newest u s (level_entries fs) o.
Proof.
  intros Hc Hso Ho. assert (Hall : forall fs, exists o', is_newest u s (level_entries fs) o') by (intros gs; eexists; apply newest_is_newest).
  induction Ho as [|f fs x Hx|f fs o Hn Ho IH]; [intros y Hy; by apply not_elem_of_nil in Hy| |].
  - destruct (Hall fs) as [o' Ho']. change (level_entries (f :: fs)) with (file_entries f ++ level_entries fs). apply (is_newest_app _ _ (Some x) o'); try done; [by apply (level_versions (f :: fs))|].
    apply StronglySorted_inv in Hso as [_ Hso]. intros a b Ha Hb. apply elem_of_level in Hb as (g & Hg & Hb). rewrite Forall_forall in Hso. by apply (Hso g Hg).
  - change (level_entries (f :: fs)) with (file_entries f ++ level_entries fs). pose proof Hc as Hc'. apply Forall_cons_1 in Hc' as [_ Hc']. pose proof Hso as Hs'. apply StronglySorted_inv in Hs' as [Hs' Hs2].
    apply (is_newest_app _ _ None o); try done; [by apply (level_versions (f :: fs))| |by apply IH].
    intros a b Ha Hb. apply elem_of_level in Hb as (g & Hg & Hb). rewrite Forall_forall in Hs2. by apply (Hs2 g Hg).
Qed.

(** An entry of the user key lies in the range of its file. *)
Lemma entry_range f x : file_keys f -> contents_ok f -> x ∈ file_entries f -> order (lo f) (v_user x) <> Gt /\ order (v_user x) (hi f) <> Gt.
Proof.
  intros Hk Hc Hx. pose proof (c_versions f Hc) as Hv. rewrite Forall_forall in Hv. pose proof (Hv x Hx) as Hxok. pose proof (c_low f Hc x Hx) as H1. pose proof (c_high f Hc x Hx) as H2. apply user_le in H1, H2.
  by rewrite (proj1 (version_parts x Hxok)) in H1, H2.
Qed.

Lemma in_range f x : file_keys f -> contents_ok f -> x ∈ file_entries f -> order (v_user x) u = Eq -> overlaps (Some u) (Some u) f = true.
Proof.
  intros Hk Hc Hx E. destruct (entry_range f x Hk Hc Hx) as [H1 H2]. pose proof (c_versions f Hc) as Hv. rewrite Forall_forall in Hv. pose proof (Hv x Hx) as (Hxv & _). pose proof (lo_valid f Hk). pose proof (hi_valid f Hk).
  unfold overlaps. cbn. apply andb_true_iff. rewrite !negb_true_iff. split.
  - destruct (order u (hi f)) eqn:E2; try done. exfalso. apply (order_le_trans u (v_user x) (hi f)); try done. by rewrite order_flip, E.
  - destruct (order u (lo f)) eqn:E2; try done. exfalso. apply order_lt_flip in E2. apply (order_le_trans (lo f) (v_user x) u); try done. by rewrite E.
Qed.

Lemma files_with_key_ok files : Forall file_keys files -> files_with_key user u files = Some (filter (fun f => overlaps (Some u) (Some u) f = true) files).
Proof.
  induction 1 as [|f files Hf _ IH]; [done|]. cbn [files_with_key]. rewrite smallest_user_ok by done. cbn [option_bind mbind]. destruct (ucmp_ok u (lo f)) as (c & -> & Hc); [done|by apply lo_valid|]. cbn [option_bind mbind].
  rewrite leb_compare, Hc. destruct (is_lt (order u (lo f))) eqn:E1; cbn [negb].
  - cbn [option_bind mbind]. rewrite IH. cbn [option_bind mbind]. rewrite filter_cons_False; [done|]. unfold overlaps. cbn. by rewrite E1, andb_false_r.
  - rewrite largest_user_ok by done. cbn [option_bind mbind]. destruct (ucmp_ok u (hi f)) as (c' & -> & Hc'); [done|by apply hi_valid|]. cbn [option_bind mbind]. rewrite geb_compare, Hc', IH. cbn [option_bind mbind].
    destruct (is_gt (order u (hi f))) eqn:E2; cbn [negb]; [rewrite filter_cons_False; [done|]|rewrite filter_cons_True; [done|]]; unfold overlaps; cbn; by rewrite E1, E2.
Qed.

Lemma newest_first_trans : Transitive NewestFirst.
Proof. intros a b c. unfold NewestFirst. lia. Qed.
Lemma newest_first_total : Total NewestFirst.
Proof. intros a b. unfold NewestFirst. lia. Qed.

(** Level 0. *)
Lemma level0_ok files : Forall file_keys files -> Forall contents_ok files -> newest_files files ->
  exists fs, files_to_search user 0 files u (lookup_at u s) = Some fs /\ Forall contents_ok fs /\ forall o, first_of fs o -> is_newest u s (level_entries files) o.
Proof.
  intros Hk Hc [Hnd Hnew]. set (P := fun f => overlaps (Some u) (Some u) f = true). set (fs := merge_sort NewestFirst (filter P files)).
  assert (Hperm : fs ≡ₚ filter P files) by apply merge_sort_Permutation.
  assert (Hin : forall f, f ∈ fs <-> P f /\ f ∈ files) by (intros f; rewrite Hperm; apply list_elem_of_filter).
  exists fs. split; [unfold files_to_search; by rewrite Z.eqb_refl, files_with_key_ok|]. rewrite Forall_forall in Hk, Hc.
  assert (Hcfs : Forall contents_ok fs) by (apply Forall_forall; intros f Hf; apply Hc; by apply Hin). split; [done|]. intros o Ho.
  apply (is_newest_ext (level_entries fs)).
  - intros y Hvy. rewrite !elem_of_level. split; intros (f & Hf & Hy); exists f; (split; [|done]); [by apply Hin in Hf as [_ ?]|]. apply Hin. split; [|done].
    apply visible_user in Hvy as [Ey _]. by apply (in_range f y); [apply Hk|apply Hc|..].
  - apply first_of_newest; [done| |done].
    assert (Hnd' : NoDup (number <$> fs)) by (rewrite Hperm; apply (sublist_NoDup _ _ Hnd); apply (fmap_sublist number _ _ (sublist_filter P files))).
    pose proof (@StronglySorted_merge_sort _ NewestFirst _ newest_first_trans newest_first_total (filter P files)) as Hsort. fold fs in Hsort. clear Ho. revert Hnd' Hsort Hin.
    assert (Hsub : forall gs, NoDup (number <$> gs) -> StronglySorted NewestFirst gs -> (forall f, f ∈ gs -> f ∈ files) -> StronglySorted (fun f g => newer_than (file_entries f) (file_entries g)) gs).
    { induction gs as [|f gs IH]; intros Hn Hs' Hsub; [constructor|]. apply NoDup_cons in Hn as [Hnf Hn]. apply StronglySorted_inv in Hs' as [Hs' Hf]. constructor; [apply IH; try done; intros; apply Hsub; by right|].
      rewrite Forall_forall in Hf. apply Forall_forall. intros g Hg. pose proof (Hf g Hg) as Hle. unfold NewestFirst in Hle. apply Hnew; [apply Hsub; by right|apply Hsub; by left|].
      assert (number f <> number g) by (intros E; apply Hnf; rewrite E; by apply list_elem_of_fmap_2). lia. }
    intros Hnd' Hsort Hin. apply Hsub; [done|done|]. intros f Hf. by apply Hin.
Qed.

(** The other levels. *)
Lemma level_search_ok level files : sound_level level files -> 0 < level -> Forall contents_ok files ->
  exists fs, files_to_search user level files u (lookup_at u s) = Some fs /\ Forall contents_ok fs /\ forall o, first_of fs o -> is_newest u s (level_entries files) o.
Proof.
  intros [Hk Hsmall Hso] Hlev Hc. specialize (Hso Hlev). assert (Hkey : real_key (lookup_at u s)) by (by exists u, s, kValueTypeForSeek).
  destruct (find_file_ok files (lookup_at u s) Hk Hso Hkey Hsmall) as (n & En & Hn & Hl & Hr). unfold files_to_search. rewrite (proj2 (Z.eqb_neq level 0)) by lia. rewrite En. cbn [option_bind mbind]. unfold num_files.
  assert (Hat : forall i f, files !! i = Some f -> file_keys f /\ contents_ok f) by (intros i f Ef; split; [by apply (proj1 (Forall_lookup _ _) Hk i)|by apply (proj1 (Forall_lookup _ _) Hc i)]).
  (* entries of the files before the place that is found are not visible *)
  assert (Hbefore : forall i f y, files !! i = Some f -> (i < n)%nat -> y ∈ file_entries f -> visible u s y = false).
  { intros i f y Ef Hi Hy. destruct (visible u s y) eqn:Hvy; [|done]. exfalso. apply visible_user in Hvy as [Ey Hsy]. destruct (Hat i f Ef) as [Hkf Hcf]. pose proof (c_versions f Hcf) as Hv. rewrite Forall_forall in Hv. pose proof (Hv y Hy) as Hyok.
    apply (internal_le_trans (lookup_at u s) (version_key y) (largest f)); [by apply lookup_valid|by apply version_key_valid|apply real_valid, Hkf|by apply behind_visible|by apply c_high|]. rewrite internal_order_flip, (Hl i f Ef Hi). done. }
  destruct (Z.leb_spec (Z.of_nat (length files)) (Z.of_nat n)) as [Hge|Hlt].
  - exists []. split; [done|]. split; [done|]. intros o Ho. inversion Ho; subst. intros y Hy. apply elem_of_level in Hy as (f & Hf & Hy). apply list_elem_of_lookup in Hf as [i Ef]. pose proof (lookup_lt_Some _ _ _ Ef). apply (Hbefore i f y Ef); [lia|done].
  - destruct (lookup_lt_is_Some_2 files n) as [f Ef]; [lia|]. rewrite Nat2Z.id, Ef. cbn [option_bind mbind]. destruct (Hat n f Ef) as [Hkf Hcf]. rewrite smallest_user_ok by done. cbn [option_bind mbind].
    destruct (ucmp_ok u (lo f)) as (c & -> & Ec); [done|by apply lo_valid|]. cbn [option_bind mbind]. rewrite ltb_compare, Ec. destruct (is_lt (order u (lo f))) eqn:Elt.
    + exists []. split; [done|]. split; [done|]. intros o Ho. inversion Ho; subst. intros y Hy. apply elem_of_level in Hy as (g & Hg & Hy). apply list_elem_of_lookup in Hg as [i Eg]. destruct (decide (i < n)%nat) as [Hi|Hi]; [by apply (Hbefore i g)|].
      destruct (visible u s y) eqn:Hvy; [|done]. exfalso. apply visible_user in Hvy as [Ey _]. destruct (Hat i g Eg) as [Hkg Hcg]. destruct (entry_range g y Hkg Hcg Hy) as [Hlo _]. pose proof (c_versions g Hcg) as Hv. rewrite Forall_forall in Hv. destruct (Hv y Hy) as (Hyv & _).
      assert (Hfg : order (lo f) (lo g) <> Gt).
      { destruct (decide (i = n)) as [->|Hne]; [rewrite Ef in Eg; injection Eg as <-; by rewrite order_refl|]. apply user_le. rewrite (before_smallest f g); try done. apply (sorted_lookup before files n i); [done|lia|done|done]. }
      assert (Huy : order u (v_user y) = Lt).
      { apply (order_lt_le u (lo f)); try done; [by apply lo_valid|by destruct (order u (lo f))|]. apply (order_le_trans (lo f) (lo g)); try done; by apply lo_valid. }
      rewrite order_flip, Ey in Huy. done.
    + exists [f]. split; [done|]. split; [by constructor|]. intros o Ho.
      assert (Ho1 : is_newest u s (file_entries f) o) by (inversion Ho as [|? ? ? Hx|? ? ? Hx Hx']; subst; [done|by inversion Hx'; subst]). clear Ho.
      assert (Hlater : forall i g y, files !! i = Some g -> (n < i)%nat -> y ∈ file_entries g -> visible u s y = true -> exists x, o = Some x /\ v_seq y <= v_seq x).
      { intros i g y Eg Hi Hy Hvy. pose proof Hvy as Hvy'. apply visible_user in Hvy' as [Ey Hsy]. destruct (Hat i g Eg) as [Hkg Hcg]. pose proof (c_versions g Hcg) as Hv. rewrite Forall_forall in Hv. pose proof (Hv y Hy) as Hyok.
        destruct (c_last f Hcf) as (z & Hz & Ez). pose proof (c_versions f Hcf) as Hvf. rewrite Forall_forall in Hvf. pose proof (Hvf z Hz) as Hzok.
        assert (Hfg : before f g) by (by apply (sorted_lookup before files n i)).
        assert (Hzy : internal_order (version_key z) (version_key y) = Lt) by (rewrite Ez; apply (internal_lt_le _ (smallest g)); [apply real_valid, Hkf|apply real_valid, Hkg|by apply version_key_valid|done|by apply c_low]).
        assert (Huz : internal_order (lookup_at u s) (version_key z) <> Gt) by (rewrite Ez; intros E; apply (Hr n f Ef); [lia|]; by rewrite internal_order_flip, E).
        pose proof (user_le _ _ Huz) as Huz'. pose proof (user_le _ _ (lt_not_gt Hzy)) as Hzy'. unfold lookup_at in Huz'. rewrite (proj1 (parts u _ (tag_range s kValueTypeForSeek Hs))), (proj1 (version_parts z Hzok)) in Huz'.
        rewrite (proj1 (version_parts z Hzok)), (proj1 (version_parts y Hyok)) in Hzy'.
        assert (Ezu : order (v_user z) u = Eq).
        { destruct (order (v_user z) u) eqn:E; [done|by apply order_lt_flip in E|]. exfalso. apply (order_le_trans (v_user z) (v_user y) u); try done; [apply Hzok|apply Hyok|by rewrite Ey]. }
        assert (Hvz : visible u s z = true) by (unfold visible; rewrite Ezu; apply Z.leb_le; by apply (behind_visible u s z)).
        destruct o as [x|]; [|cbn in Ho1; by rewrite (Ho1 z Hz) in Hvz]. exists x. split; [done|]. destruct Ho1 as (_ & _ & Hmax). pose proof (Hmax z Hz Hvz).
        enough (v_seq y <= v_seq z) by lia. destruct (Z.le_gt_cases (v_seq y) (v_seq z)) as [|Hgt]; [done|]. exfalso. unfold internal_order in Hzy. rewrite (proj1 (version_parts z Hzok)), (proj1 (version_parts y Hyok)) in Hzy.
        assert (Ezy : order (v_user z) (v_user y) = Eq) by (apply (order_eq_chain _ u); try done; [apply Hzok|apply Hyok|by rewrite order_flip, Ey]). rewrite Ezy, (proj2 (version_parts z Hzok)), (proj2 (version_parts y Hyok)) in Hzy.
        rewrite Z.compare_lt_iff in Hzy. destruct Hzok as (_ & _ & _ & [Hz0 _] & _), Hyok as (_ & _ & _ & [Hy0 _] & _). pose proof (tag_le _ (v_type y) _ (v_type z) Hy0 Hz0 Hgt). lia. }
      assert (Hf_in : f ∈ files) by (by apply (list_elem_of_lookup_2 files n)).
      destruct o as [x|].
      * destruct Ho1 as (Hx & Hvx & Hmax). split; [apply elem_of_level; by exists f|]. split; [done|]. intros y Hy Hvy. apply elem_of_level in Hy as (g & Hg & Hy). apply list_elem_of_lookup in Hg as [i Eg].
        destruct (Nat.lt_trichotomy i n) as [Hi|[->|Hi]]; [by rewrite (Hbefore i g y) in Hvy|rewrite Ef in Eg; injection Eg as <-; by apply Hmax|]. destruct (Hlater i g y Eg Hi Hy Hvy) as (x' & [= <-] & Hle). done.
      * intros y Hy. apply elem_of_level in Hy as (g & Hg & Hy). apply list_elem_of_lookup in Hg as [i Eg]. destruct (visible u s y) eqn:Hvy; [|done].
        destruct (Nat.lt_trichotomy i n) as [Hi|[->|Hi]]; [by rewrite (Hbefore i g y) in Hvy|rewrite Ef in Eg; injection Eg as <-; by rewrite (Ho1 y Hy) in Hvy|]. destruct (Hlater i g y Eg Hi Hy Hvy) as (x' & [=] & _).
Qed.
(** * Searching a version *)

Definition version_entries (v : Version) : list version := mjoin (level_entries <$> v).

(** A version as the database keeps it: what was written to a key later lies in a lower level
    than what was written earlier or, within level 0, in a file with a higher number. *)
Record tree_from (level : Z) (v : Version) : Prop := {
  t_levels : forall i files, v !! i = Some files -> sound_level (level + Z.of_nat i) files /\ Forall contents_ok files;
  t_zero : forall files, level = 0 -> head v = Some files -> newest_files files;
  t_order : StronglySorted (fun fs gs => newer_than (level_entries fs) (level_entries gs)) v;
}.

Lemma tree_tail level files v : tree_from level (files :: v) -> 0 <= level -> tree_from (level + 1) v.
Proof.
  intros [Hl _ Ho] Hlev. apply StronglySorted_inv in Ho as [Ho _]. constructor; [|lia|done]. intros i fs Ei. replace (level + 1 + Z.of_nat i) with (level + Z.of_nat (S i)) by lia. by apply Hl.
Qed.

Lemma elem_of_version v x : x ∈ version_entries v <-> exists files, files ∈ v /\ x ∈ level_entries files.
Proof.
  unfold version_entries. rewrite list_elem_of_join. split.
  - intros (vs & Hx & Hvs). apply list_elem_of_fmap in Hvs as (files & -> & Hf). by exists files.
  - intros (files & Hf & Hx). exists (level_entries files). split; [done|]. by apply list_elem_of_fmap_2.
Qed.

Lemma version_versions level v : tree_from level v -> Forall version_ok (version_entries v).
Proof.
  intros [Hl _ _]. apply Forall_forall. intros x Hx. apply elem_of_version in Hx as (files & Hf & Hx). apply list_elem_of_lookup in Hf as [i Ei].
  destruct (Hl i files Ei) as [_ Hc]. pose proof (level_versions files Hc) as Hv. rewrite Forall_forall in Hv. by apply Hv.
Qed.

Lemma files_to_search_ok level files v : tree_from level (files :: v) -> 0 <= level ->
  exists fs, files_to_search user level files u (lookup_at u s) = Some fs /\ Forall contents_ok fs /\ forall o, first_of fs o -> is_newest u s (level_entries files) o.
Proof.
  intros [Hl Hz _] Hlev. destruct (Hl 0%nat files eq_refl) as [Hok Hc]. rewrite Z.add_0_r in Hok. destruct (decide (level = 0)) as [->|Hne].
  - apply level0_ok; [apply Hok|done|by apply Hz].
  - apply level_search_ok; [done|lia|done].
Qed.

Definition get_answer (o : option version) : Status * option (list Z) := match o with Some x => outcome_of x | None => (NotFound "", None) end.

Lemma search_levels_ok v : forall level last stats, tree_from level v -> 0 <= level ->
  exists o stats', search_levels user table_cache_Get level v u (lookup_at u s) last stats = Some (get_answer o, stats') /\ is_newest u s (version_entries v) o.
Proof.
  induction v as [|files v IH]; intros level last stats Ht Hlev; [exists None, stats; split; [done|]; intros y Hy; by apply not_elem_of_nil in Hy|]. cbn [search_levels].
  assert (Hsearch : exists fs, (if num_files files =? 0 then Some [] else files_to_search user level files u (lookup_at u s)) = Some fs /\ Forall contents_ok fs /\ forall o, first_of fs o -> is_newest u s (level_entries files) o).
  { unfold num_files. destruct (Z.eqb_spec (Z.of_nat (length files)) 0) as [E|_]; [|by apply (files_to_search_ok level files v)]. destruct files; [|done]. exists []. split; [done|]. split; [done|].
    intros o Ho. inversion Ho; subst. intros y Hy. by apply not_elem_of_nil in Hy. }
  destruct Hsearch as (fs & -> & Hc & Hfirst). cbn [option_bind mbind]. destruct (search_files_ok level fs Hc last stats) as (o & Ho & last' & stats' & ->). cbn [option_bind mbind]. apply Hfirst in Ho.
  pose proof (version_versions _ _ Ht) as Hver. destruct Ht as [Hl Hz Hord] eqn:Et. clear Et. pose proof (tree_tail level files v (Build_tree_from _ _ Hl Hz Hord) Hlev) as Htail. apply StronglySorted_inv in Hord as [_ Hord].
  assert (Hnew : newer_than (level_entries files) (version_entries v)).
  { intros x y Hx Hy. apply elem_of_version in Hy as (gs & Hgs & Hy). rewrite Forall_forall in Hord. by apply (Hord gs Hgs). }
  change (version_entries (files :: v)) with (level_entries files ++ version_entries v). destruct o as [x|].
  - exists (Some x), stats'. split; [by destruct (outcome_of x) eqn:E; cbn; rewrite E|]. apply (is_newest_app _ _ (Some x) (newest u s (version_entries v))); try done. apply newest_is_newest.
  - destruct (IH (level + 1) last' stats') as (o' & stats'' & E & Ho'); [done|lia|]. exists o', stats''. split; [exact E|]. by apply (is_newest_app _ _ None o').
Qed.

End get.

Record tree_ok (v : Version) : Prop := {
  t_seven : length v = Z.to_nat kNumLevels;
  t_tree : tree_from 0 v;
  t_numbers : forall files, files ∈ v -> NoDup (number <$> files);
  t_one : one_each (version_entries v);
}.

End tree.

(** C7: when a version keeps its files in order - each level above 0 sorted and without
    overlaps, what was written to a key later in a lower level, or in a file of level 0 with
    a higher number - and the table cache reads each file correctly, [Version::Get] at a
    sequence number runs without a failed assertion and finds what going through all entries
    of all files finds: the newest one of the key up to that number, its value or the mark
    of its deletion, and nothing if there is none. *)
Theorem version_get_newest {user : Comparator} {laws : ComparatorLaws} entries table_cache_Get v u s lk :
  tree_ok entries table_cache_Get v -> valid_key u -> 0 <= s <= kMaxSequenceNumber -> new_LookupKey u s = Some lk ->
  exists stats, Version_Get user table_cache_Get v lk = Some (get_answer (newest u s (version_entries entries v)), stats).
Proof.
  intros [_ Ht _ H1] Hu Hs Elk. destruct (lookup_key_ok u s Hs) as (lk' & E & Ei & Eu). rewrite Elk in E. injection E as <-. unfold Version_Get. rewrite Ei, Eu.
  destruct (search_levels_ok entries table_cache_Get u s Hu Hs v 0 None (mk_stats None (-1)) Ht ltac:(done)) as (o & stats & E & Ho). exists stats. fold (lookup_at u s). rewrite E. do 3 f_equal.
  apply (newest_unique u s (version_entries entries v)); [done|by apply (version_versions entries table_cache_Get 0)|done|done|apply newest_is_newest].
Qed.

(** * A table cache *)

Section sorted_tables.
Context {user : Comparator} {laws : ComparatorLaws} (entries : Z -> list version).

Definition entry_before (x y : version) : Prop := internal_order (version_key x) (version_key y) = Lt.

(** Reads a table by going through its entries. *)
Fixpoint first_from (k : list Z) (l : list version) : option (list Z * list Z) :=
  match l with
  | [] => None
  | x :: l => match internal_order k (version_key x) with Gt => first_from k l | _ => Some (version_key x, v_value x) end
  end.
Definition read_table (n size : Z) (k : list Z) : Status * option (list Z * list Z) := (OK, first_from k (entries n)).

Lemma first_from_ok u s l : valid_key u -> 0 <= s <= kMaxSequenceNumber -> Forall version_ok l -> StronglySorted entry_before l ->
  match first_from (lookup_at u s) l with
  | Some (k, val) => exists x, x ∈ l /\ k = version_key x /\ val = v_value x /\ internal_order (lookup_at u s) (version_key x) <> Gt /\
      forall y, y ∈ l -> internal_order (lookup_at u s) (version_key y) <> Gt -> internal_order (version_key x) (version_key y) <> Gt
  | None => forall y, y ∈ l -> visible u s y = false
  end.
Proof.
  intros Hu Hs. induction 1 as [|x l Hx Hl IH]; intros Hso; [intros y Hy; by apply not_elem_of_nil in Hy|]. apply StronglySorted_inv in Hso as [Hso Hxl]. specialize (IH Hso). rewrite Forall_forall in Hxl. cbn [first_from].
  assert (Hhere : internal_order (lookup_at u s) (version_key x) <> Gt -> exists x0, x0 ∈ x :: l /\ version_key x = version_key x0 /\ v_value x = v_value x0 /\ internal_order (lookup_at u s) (version_key x0) <> Gt /\
      forall y, y ∈ x :: l -> internal_order (lookup_at u s) (version_key y) <> Gt -> internal_order (version_key x0) (version_key y) <> Gt).
  { intros Hge. exists x. split; [by left|]. repeat split; [done|]. intros y [->|Hy]%elem_of_cons _; [by rewrite internal_order_refl|]. by apply lt_not_gt, Hxl. }
  destruct (internal_order (lookup_at u s) (version_key x)) eqn:E; [by apply Hhere|by apply Hhere|]. clear Hhere. destruct (first_from (lookup_at u s) l) as [[k val]|].
  - destruct IH as (z & Hz & -> & -> & Hge & Hmin). exists z. split; [by right|]. repeat split; [done|]. intros y [->|Hy]%elem_of_cons Hy'; [congruence|by apply Hmin].
  - intros y [->|Hy]%elem_of_cons; [|by apply IH]. destruct (visible u s x) eqn:Hv; [|done]. apply visible_user in Hv as [Ex Hsx]. by destruct (proj2 (behind_visible u s x Hu Hs Hx Ex) Hsx).
Qed.

Lemma read_sorted f : Forall version_ok (file_entries entries f) -> StronglySorted entry_before (file_entries entries f) -> table_read entries read_table f.
Proof.
  intros Hv Hso u s Hu Hs. exists (first_from (lookup_at u s) (file_entries entries f)). split; [done|]. by apply first_from_ok.
Qed.

(** A file as a table builder makes it of sorted entries. *)
Lemma sorted_contents a n sz x l y : entries n = x :: l -> last (x :: l) = Some y -> Forall version_ok (x :: l) -> StronglySorted entry_before (x :: l) ->
  contents_ok entries read_table (mk_meta a n sz (version_key x) (version_key y)).
Proof.
  intros En Hy Hv Hso. set (f := mk_meta a n sz (version_key x) (version_key y)). assert (Ef : file_entries entries f = x :: l) by done. apply last_Some in Hy as [l' Ey]. constructor.
  - by rewrite Ef.
  - rewrite Ef. intros z [->|Hz]%elem_of_cons; [cbn; by rewrite internal_order_refl|]. apply StronglySorted_inv in Hso as [_ Hx]. rewrite Forall_forall in Hx. by apply lt_not_gt, Hx.
  - rewrite Ef, Ey. rewrite Ey in Hso. apply StronglySorted_app in Hso as (Hso & _). intros z [Hz| ->%list_elem_of_singleton]%elem_of_app; [|cbn; by rewrite internal_order_refl]. apply lt_not_gt, Hso; [done|by left].
  - exists y. split; [|done]. rewrite Ef, Ey. apply elem_of_app. right. by left.
  - apply read_sorted; by rewrite Ef.
Qed.

End sorted_tables.

(** * An example *)

Definition example_entries (n : Z) : list version :=
  if n =? 6 then [mk_version [100] 10 kTypeValue [8]; mk_version [101] 11 kTypeDeletion []]
  else if n =? 5 then [mk_version [98] 9 kTypeValue [1]]
  else if n =? 4 then [mk_version [97] 8 kTypeDeletion []; mk_version [98] 3 kTypeValue [7]]
  else if n =? 2 then [mk_version [97] 1 kTypeValue [5]; mk_version [99] 2 kTypeValue [6]] else [].

Definition example_file (n : Z) (x y : version) : FileMetaData := mk_meta 100 n 64 (version_key x) (version_key y).
Definition file5 : FileMetaData := example_file 5 (mk_version [98] 9 kTypeValue [1]) (mk_version [98] 9 kTypeValue [1]).
Definition file4 : FileMetaData := example_file 4 (mk_version [97] 8 kTypeDeletion []) (mk_version [98] 3 kTypeValue [7]).
Definition file2 : FileMetaData := example_file 2 (mk_version [97] 1 kTypeValue [5]) (mk_version [99] 2 kTypeValue [6]).
Definition file6 : FileMetaData := example_file 6 (mk_version [100] 10 kTypeValue [8]) (mk_version [101] 11 kTypeDeletion []).
Definition example_tree : Version := [[file4; file5]; [file2]; []; []; []; []; []].

Ltac each_member := repeat match goal with
  | H : _ ∈ [] |- _ => by apply not_elem_of_nil in H
  | H : _ ∈ _ :: _ |- _ => apply elem_of_cons in H as [->|H]
  end.

Lemma one_byte k : is_byte k -> is_bytes [k].
Proof. intros Hk. constructor; [exact Hk|constructor]. Qed.

Lemma example_version_ok k sq t val : is_byte k -> 0 <= sq <= 100 -> is_bytes val -> (length val <= 100)%nat -> version_ok (user := bytewise) (mk_version [k] sq t val).
Proof.
  intros Hk Hsq Hval Hlen. pose proof (one_byte k Hk) as Hb. unfold version_ok, size. cbn [v_user v_value v_seq]. split; [exact Hb|]. split; [exact Hb|]. split; [exact Hval|].
  change kMaxSequenceNumber with 72057594037927935. split; [lia|]. split; [cbn; lia|lia].
Qed.

Lemma example_entries_ok n : Forall (version_ok (user := bytewise)) (example_entries n).
Proof. unfold example_entries. repeat case_match; repeat (apply Forall_cons; split); try apply example_version_ok; try apply one_byte; try constructor; cbn; lia. Qed.

Lemma example_sorted n : StronglySorted (entry_before (user := bytewise)) (example_entries n).
Proof. unfold example_entries. repeat case_match; repeat constructor. Qed.

Lemma example_file_ok n x y : x ∈ example_entries n -> y ∈ example_entries n -> internal_order (user := bytewise) (version_key x) (version_key y) <> Gt -> file_keys (user := bytewise) (example_file n x y).
Proof. intros Hx Hy Hxy. pose proof (example_entries_ok n) as Hok. rewrite Forall_forall in Hok. constructor; [by apply version_real, Hok|by apply version_real, Hok|exact Hxy]. Qed.

Lemma example_keys : file_keys (user := bytewise) file5 /\ file_keys (user := bytewise) file4 /\ file_keys (user := bytewise) file2 /\ file_keys (user := bytewise) file6.
Proof. split; [|split; [|split]]; apply example_file_ok; try (by vm_compute); cbn; rewrite ?elem_of_cons; tauto. Qed.

Lemma example_contents : let ok := contents_ok (user := bytewise) example_entries (read_table (user := bytewise) example_entries) in ok file5 /\ ok file4 /\ ok file2 /\ ok file6.
Proof.
  split; [|split; [|split]]; (eapply sorted_contents; [reflexivity|reflexivity|apply (example_entries_ok 6)|apply (example_sorted 6)]) || (eapply sorted_contents; [reflexivity|reflexivity|apply (example_entries_ok 5)|apply (example_sorted 5)]) || (eapply sorted_contents; [reflexivity|reflexivity|apply (example_entries_ok 4)|apply (example_sorted 4)]) || (eapply sorted_contents; [reflexivity|reflexivity|apply (example_entries_ok 2)|apply (example_sorted 2)]).
Qed.

Lemma example_tree_ok : tree_ok (user := bytewise) example_entries (read_table (user := bytewise) example_entries) example_tree.
Proof.
  destruct example_keys as (K5 & K4 & K2 & _), example_contents as (C5 & C4 & C2 & _). constructor; [done|constructor| |].
  - assert (Hk : Forall (Forall (fun f => file_keys (user := bytewise) f /\ contents_ok (user := bytewise) example_entries (read_table (user := bytewise) example_entries) f)) example_tree) by (repeat first [apply Forall_nil|apply Forall_cons; split]; done).
    intros i files E. pose proof (proj1 (Forall_lookup _ _) Hk i files E) as Hf. apply Forall_and in Hf as [Hf Hc]. split; [|exact Hc]. constructor; [exact Hf| |].
    + by destruct i as [|[|[|[|[|[|[|i]]]]]]]; try done; injection E as <-.
    + intros Hi. destruct i as [|[|[|[|[|[|[|i]]]]]]]; try done; injection E as <-; repeat constructor.
  - intros files _ E. injection E as <-. split; [by repeat constructor; cbn; set_solver|]. intros f g Hf Hg Hlt x y Hx Hy. each_member; cbn in *; try lia; each_member; by vm_compute.
  - repeat constructor; intros x y Hx Hy; cbn in *; each_member; by vm_compute.
  - intros files Hf. unfold example_tree in Hf. each_member; cbn; repeat constructor; set_solver.
  - intros x y Hx Hy. cbn in Hx, Hy. each_member; by vm_compute.
Qed.

Lemma version_get_newest_witness : let get u s := lk ← new_LookupKey u s; Version_Get bytewise (read_table (user := bytewise) example_entries) example_tree lk in
  (exists stats, get [98] 10 = Some (OK, Some [1], stats)) /\ (exists stats, get [98] 4 = Some (OK, Some [7], stats)) /\ (exists stats, get [97] 10 = Some (NotFound "", None, stats)) /\
  (exists stats, get [97] 7 = Some (OK, Some [5], stats)) /\ (exists stats, get [100] 7 = Some (NotFound "", None, stats)).
Proof.
  assert (Hget : forall u s, is_byte u -> 0 <= s <= 10 -> exists stats, (lk ← new_LookupKey [u] s; Version_Get bytewise (read_table (user := bytewise) example_entries) example_tree lk) =
    Some (get_answer (newest (user := bytewise) [u] s (version_entries example_entries example_tree)), stats)).
  { intros u s Hu Hs. assert (Hs' : 0 <= s <= kMaxSequenceNumber) by (change kMaxSequenceNumber with 72057594037927935; lia). destruct (lookup_key_ok [u] s Hs') as (lk & E & _). rewrite E.
    exact (version_get_newest (user := bytewise) example_entries (read_table (user := bytewise) example_entries) example_tree [u] s lk example_tree_ok (one_byte u Hu) Hs' E). }
  repeat split; eapply Hget; lia.
Defined.
