(* ===== verification/LdbVersionBuild.v ===== *)
(** How edits change a version of LevelDB's database: [VersionSet::Builder] makes the version
    that an edit stands for, and the level picked for the output of a table in memory keeps
    the order of the levels. *)
From stdpp Require Import base gmap list strings numbers option sorting.
From Stdlib Require Import ZArith Lia.
From S2P Require Import Prelude LdbCoding LdbCodingThms LdbEnv LdbComparator LdbFormat LdbFormatThms LdbMemTableThms LdbVersionEdit LdbVersion LdbVersionThms LdbVersionSpec.

(** * Sorting files by their smallest keys *)

Section builder.
Context {user : Comparator} {laws : ComparatorLaws}.

Definition comes_before (f g : FileMetaData) : bool :=
  match internal_order (smallest f) (smallest g) with Lt => true | Eq => number f <? number g | Gt => false end.

Definition sorted_files : list FileMetaData -> Prop := StronglySorted comes_before.
Definition not_after (f g : FileMetaData) : Prop := comes_before g f = false.

Lemma key_compare_ok a b : real_key a -> real_key b -> exists c, key_Compare user a b = Some c /\ (c ?= 0) = internal_order a b.
Proof. intros Ha Hb. unfold key_Compare. rewrite !encode_real by done. by apply icmp_real. Qed.

Lemma by_smallest_ok f g : file_keys f -> file_keys g -> BySmallestKey user f g = Some (comes_before f g).
Proof.
  intros Hf Hg. unfold BySmallestKey. destruct (key_compare_ok (smallest f) (smallest g)) as (c & -> & E); [apply Hf|apply Hg|]. cbn [option_bind mbind].
  rewrite eqb_compare, ltb_compare, E. unfold comes_before. by destruct (internal_order _ _).
Qed.

Lemma comes_before_trans f g h : file_keys f -> file_keys g -> file_keys h -> comes_before f g -> comes_before g h -> comes_before f h.
Proof.
  intros Hf Hg Hh. pose proof (real_valid _ (k_smallest f Hf)) as Vf. pose proof (real_valid _ (k_smallest g Hg)) as Vg. pose proof (real_valid _ (k_smallest h Hh)) as Vh. unfold comes_before.
  destruct (internal_order (smallest f) (smallest g)) eqn:E1, (internal_order (smallest g) (smallest h)) eqn:E2; try done.
  - rewrite !Is_true_true. pose proof (order_eq_chain (laws := internal_laws) _ _ _ Vf Vg Vh E1 E2) as E3. cbn in E3. rewrite E3, !Z.ltb_lt. lia.
  - intros _ _. rewrite (internal_le_lt _ (smallest g)); try done. by rewrite E1.
  - intros _ _. rewrite (internal_lt_le _ (smallest g)); try done. by rewrite E2.
  - intros _ _. rewrite (internal_lt_le _ (smallest g)); try done. by rewrite E2.
Qed.

Lemma comes_before_asym f g : comes_before f g -> comes_before g f = false.
Proof.
  unfold comes_before. rewrite (internal_order_flip (smallest f) (smallest g)). destruct (internal_order _ _); cbn [CompOpp]; try done. rewrite Is_true_true, Z.ltb_lt, Z.ltb_ge. lia.
Qed.

Lemma comes_before_total f g : comes_before f g = false -> comes_before g f = false -> number f = number g.
Proof.
  unfold comes_before. rewrite (internal_order_flip (smallest f) (smallest g)). destruct (internal_order _ _); cbn; try done. rewrite !Z.ltb_ge. lia.
Qed.

Lemma before_sorted files : Forall file_keys files -> StronglySorted before files -> sorted_files files.
Proof.
  induction 1 as [|f files Hf Hk IH]; [constructor|]. intros [Hs Hb]%StronglySorted_inv. constructor; [by apply IH|]. rewrite Forall_forall in *. intros g Hg.
  unfold comes_before. by rewrite (before_smallest f g) by auto.
Qed.

(** ** The set of the files that are added *)

Lemma added_insert_ok f l : file_keys f -> Forall file_keys l -> number f ∉ number <$> l -> sorted_files l ->
  exists l', added_insert user f l = Some l' /\ l' ≡ₚ f :: l /\ sorted_files l'.
Proof.
  intros Hf. induction 1 as [|g l Hg Hk IH]; intros Hn Hs; [exists [f]; repeat constructor|]. cbn [added_insert]. rewrite (by_smallest_ok f g) by done. cbn [option_bind mbind].
  apply not_elem_of_cons in Hn as [Hne Hn]. pose proof Hs as [Hs' Hgl]%StronglySorted_inv. rewrite Forall_forall in Hk, Hgl. destruct (comes_before f g) eqn:E1.
  - exists (f :: g :: l). split; [done|]. split; [done|]. constructor; [done|]. apply Forall_cons. split; [by rewrite E1|]. apply Forall_forall. intros h Hh. apply (comes_before_trans f g); auto; by rewrite E1.
  - rewrite (by_smallest_ok g f) by done. cbn [option_bind mbind]. destruct (comes_before g f) eqn:E2; [|by destruct Hne; apply comes_before_total]. destruct (IH Hn Hs') as (l' & -> & Hp & Hl'). cbn [option_bind mbind].
    exists (g :: l'). split; [done|]. split; [rewrite Hp; constructor|]. constructor; [done|]. rewrite Hp. apply Forall_cons. split; [by rewrite E2|]. by apply Forall_forall.
Qed.

(** ** Merging *)

Lemma upper_bound_ok f l : file_keys f -> Forall file_keys l ->
  exists l1 l2, upper_bound user f l = Some (l1, l2) /\ l = l1 ++ l2 /\ Forall (fun g => not_after g f) l1 /\ (sorted_files l -> Forall (comes_before f) l2).
Proof.
  intros Hf. induction 1 as [|g l Hg Hk IH]; [exists [], []; repeat constructor|]. cbn [upper_bound]. rewrite by_smallest_ok by done. cbn [option_bind mbind]. destruct (comes_before f g) eqn:E.
  - exists [], (g :: l). split; [done|]. split; [done|]. split; [done|]. intros [_ Hgl]%StronglySorted_inv. rewrite Forall_forall in Hk, Hgl. apply Forall_cons. split; [by rewrite E|]. apply Forall_forall.
    intros h Hh. apply (comes_before_trans f g); auto; by rewrite E.
  - destruct IH as (l1 & l2 & -> & -> & H1 & H2). cbn [option_bind mbind]. exists (g :: l1), l2. split; [done|]. split; [done|]. split; [by constructor|]. intros [Hs _]%StronglySorted_inv. by apply H2.
Qed.

Lemma add_files_app level d l1 : forall files l2, add_files user level d files (l1 ++ l2) = files' ← add_files user level d files l1; add_files user level d files' l2.
Proof. induction l1 as [|f l1 IH]; intros files l2; [done|]. cbn [add_files app]. destruct (MaybeAddFile _ _ _ _ _) as [files'|]; [|done]. cbn [option_bind mbind]. by rewrite IH. Qed.

Lemma sorted_weak l : sorted_files l -> StronglySorted not_after l.
Proof. induction 1 as [|f l _ IH Hf]; [constructor|]. constructor; [done|]. rewrite Forall_forall in *. intros g Hg. by apply comes_before_asym, Hf. Qed.

Lemma save_level_merge level d added : forall base, Forall file_keys base -> Forall file_keys added ->
  exists r, (forall files, save_level user level d files base added = add_files user level d files r) /\ r ≡ₚ base ++ added /\ (sorted_files base -> sorted_files added -> StronglySorted not_after r).
Proof.
  induction added as [|f added IH]; intros base Hb Ha; [exists base; split; [done|]; rewrite app_nil_r; split; [done|]; intros; by apply sorted_weak|].
  apply Forall_cons in Ha as [Hf Ha]. destruct (upper_bound_ok f base Hf Hb) as (l1 & l2 & E & -> & H1 & H2). apply Forall_app in Hb as [Hb1 Hb2].
  destruct (IH l2 Hb2 Ha) as (r & Er & Hp & Hs). exists (l1 ++ f :: r). split; [|split].
  - intros files. cbn [save_level]. rewrite E. cbn [option_bind mbind]. rewrite add_files_app. cbn [add_files]. destruct (add_files user level d files l1) as [files1|]; [|done]. cbn [option_bind mbind].
    destruct (MaybeAddFile user level d files1 f) as [files2|]; [|done]. by cbn [option_bind mbind].
  - rewrite Hp, <- app_assoc. apply Permutation_app_head. by rewrite Permutation_middle.
  - intros Hs1 [Hs2 Hfa]%StronglySorted_inv. specialize (H2 Hs1). apply StronglySorted_app in Hs1 as (Hx & Hs1 & Hs3). specialize (Hs Hs3 Hs2).
    assert (Hfr : Forall (comes_before f) r) by (rewrite Hp; by apply Forall_app).
    rewrite Forall_forall in H1, Hfr, Hb1, Hb2, Ha. apply StronglySorted_app. split; [|split; [by apply sorted_weak|constructor; [done|]; apply Forall_forall; intros g Hg; by apply comes_before_asym, Hfr]].
    intros g h Hg [->|Hh]%elem_of_cons; [by apply H1|]. pose proof (H1 g Hg) as Hgf. specialize (Hfr h Hh). unfold not_after in *. destruct (comes_before h g) eqn:E2; [|done]. rewrite <- Hgf. symmetry.
    apply Is_true_true, (comes_before_trans f h g); [done| |by apply Hb1|done|by rewrite E2]. rewrite Hp in Hh. apply elem_of_app in Hh as [Hh|Hh]; auto.
Qed.

(** ** One level of the new version *)

Definition keep (d : gset Z) (f : FileMetaData) : Prop := number f ∉ d.

Lemma maybe_add_ok level d files f : Forall file_keys (files ++ [f]) -> (0 < level -> keep d f -> forall g, last files = Some g -> before g f) ->
  MaybeAddFile user level d files f = Some (if decide (keep d f) then files ++ [f] else files).
Proof.
  intros Hk Hb. apply Forall_app in Hk as [Hk [Hf _]%Forall_cons]. unfold MaybeAddFile, keep in *. destruct (decide (number f ∈ d)) as [|Hn]; [by rewrite decide_False by tauto|]. rewrite decide_True by done.
  destruct (last files) as [g|] eqn:El; [|done]. destruct (Z.ltb_spec 0 level) as [Hl|_]; [|done]. apply last_Some in El as [l ->]. apply Forall_app in Hk as [_ [Hg _]%Forall_cons].
  destruct (key_compare_ok (largest g) (smallest f)) as (c & -> & Hc); [apply Hg|apply Hf|]. cbn [option_bind mbind]. rewrite (Hb Hl Hn g eq_refl) in Hc. rewrite Z.compare_lt_iff in Hc. by case_guard.
Qed.

Lemma add_files_ok level d r : forall files, Forall file_keys (files ++ r) -> (0 < level -> StronglySorted before (files ++ filter (keep d) r)) ->
  add_files user level d files r = Some (files ++ filter (keep d) r).
Proof.
  induction r as [|f r IH]; intros files Hk Hs; [by rewrite app_nil_r|]. cbn [add_files]. assert (Hk1 : Forall file_keys (files ++ [f])) by (apply Forall_app in Hk as [Hk [Hf _]%Forall_cons]; apply Forall_app; split; [done|by constructor]).
  rewrite maybe_add_ok; [|done|].
  - cbn [option_bind mbind]. rewrite filter_cons in *. destruct (decide (keep d f)) as [Hd|Hd]; rewrite IH.
    + by rewrite <- app_assoc.
    + by rewrite <- app_assoc.
    + intros Hl. rewrite <- app_assoc. by apply Hs.
    + done.
    + apply Forall_app in Hk as [Hk [_ Hr]%Forall_cons]. by apply Forall_app.
    + done.
  - intros Hl Hd g Hg. apply last_Some in Hg as [l ->]. specialize (Hs Hl). rewrite filter_cons_True in Hs by done. apply StronglySorted_app in Hs as (Hs & _). apply Hs; [apply elem_of_app; right; by left|by left].
Qed.

Lemma no_overlap_ok files : Forall file_keys files -> StronglySorted before files -> no_overlap user files = Some tt.
Proof.
  induction 1 as [|f files Hf Hk IH]; [done|]. intros [Hs Hb]%StronglySorted_inv. cbn [no_overlap]. destruct files as [|g files]; [done|].
  apply Forall_cons in Hk as [Hg _]. apply Forall_cons in Hb as [Hb _]. destruct (key_compare_ok (largest f) (smallest g)) as (c & -> & Hc); [apply Hf|apply Hg|]. cbn [option_bind mbind]. rewrite Hb, Z.compare_lt_iff in Hc. case_guard; [|done]. by apply IH.
Qed.

(** Files that do not overlap. *)
Definition disjoint_files (files : list FileMetaData) : Prop :=
  NoDup (number <$> files) /\ forall f g, f ∈ files -> g ∈ files -> number f <> number g -> before f g \/ before g f.

#[global] Instance disjoint_proper : Proper ((≡ₚ) ==> iff) disjoint_files.
Proof.
  intros l l' Hp. unfold disjoint_files. rewrite Hp. apply and_iff_compat_l. split; intros H f g Hf Hg; apply H; by rewrite ?Hp in *.
Qed.

Lemma weak_before files : Forall file_keys files -> StronglySorted not_after files -> disjoint_files files -> StronglySorted before files.
Proof.
  intros Hk. induction 1 as [|f files Hs IH Hf]; [constructor|]. intros [[Hn Hnd]%NoDup_cons Hd]. apply Forall_cons in Hk as [Hkf Hk]. constructor.
  - apply IH; [done|]. split; [done|]. intros g h Hg Hh. apply Hd; by right.
  - rewrite Forall_forall in *. intros g Hg. destruct (Hd f g) as [|Hb]; [by left|by right|intros E; apply Hn; rewrite E; by apply list_elem_of_fmap_2|done|].
    exfalso. specialize (Hf g Hg). unfold not_after, comes_before in Hf. by rewrite (before_smallest g f) in Hf by auto.
Qed.

(** A level to be built: its files, and what the builder knows of it. *)
Record level_fits (level : Z) (base : list FileMetaData) (st : LevelState) : Prop := {
  f_base : Forall file_keys base;
  f_added : Forall file_keys (added_files st);
  f_sorted : sorted_files (added_files st);
  f_above : 0 < level -> sorted_files base /\ disjoint_files (filter (keep (deleted_files st)) (base ++ added_files st));
}.

Lemma save_level_ok level base st : level_fits level base st ->
  exists files, save_level user level (deleted_files st) [] base (added_files st) = Some files /\ files ≡ₚ filter (keep (deleted_files st)) (base ++ added_files st) /\
    (0 < level -> StronglySorted before files) /\ Forall file_keys files.
Proof.
  intros [Hb Ha Hs Hab]. destruct (save_level_merge level (deleted_files st) (added_files st) base Hb Ha) as (r & E & Hp & Hr).
  assert (Hk : Forall file_keys r) by (rewrite Hp; by apply Forall_app). assert (Hkf : Forall file_keys (filter (keep (deleted_files st)) r)) by (apply Forall_forall; intros f [_ Hf]%list_elem_of_filter; rewrite Forall_forall in Hk; by apply Hk).
  assert (Hsb : 0 < level -> StronglySorted before (filter (keep (deleted_files st)) r)).
  { intros Hl. destruct (Hab Hl) as [Hsb Hd]. apply weak_before; [done|by apply filter_sorted, Hr|by rewrite Hp]. }
  exists (filter (keep (deleted_files st)) r). rewrite E, add_files_ok by done. split; [done|]. split; [by rewrite Hp|]. done.
Qed.

Lemma save_levels_ok : forall base level sts, length base = length sts -> 0 <= level ->
  (forall i files st, base !! i = Some files -> sts !! i = Some st -> level_fits (level + Z.of_nat i) files st) ->
  exists v : Version, save_levels user level base sts = Some v /\ length v = length base /\
    forall i files st, base !! i = Some files -> sts !! i = Some st -> exists files', v !! i = Some files' /\
      files' ≡ₚ filter (keep (deleted_files st)) (files ++ added_files st) /\ (0 < level + Z.of_nat i -> StronglySorted before files') /\ Forall file_keys files'.
Proof.
  induction base as [|files base IH]; intros level sts Hlen Hl Hf; destruct sts as [|st sts]; try done; [by exists []|]. cbn [save_levels].
  destruct (save_level_ok level files st) as (files' & -> & H1 & H2 & H3); [rewrite <- (Z.add_0_r level); by apply (Hf 0%nat)|]. cbn [option_bind mbind].
  assert (Hno : (if 0 <? level then no_overlap user files' else Some tt) = Some tt) by (destruct (Z.ltb_spec 0 level); [by apply no_overlap_ok; [|apply H2]|done]). rewrite Hno. cbn [option_bind mbind].
  destruct (IH (level + 1) sts) as (v & -> & Hv & Hall); [by injection Hlen|lia| |].
  { intros i fs s' Ei Es. replace (level + 1 + Z.of_nat i) with (level + Z.of_nat (S i)) by lia. by apply Hf. }
  cbn [option_bind mbind]. exists (files' :: v). split; [done|]. split; [cbn; lia|]. intros [|i] fs s' Ei Es.
  - injection Ei as <-. injection Es as <-. exists files'. rewrite Z.add_0_r. done.
  - replace (level + Z.of_nat (S i)) with (level + 1 + Z.of_nat i) by lia. by apply Hall.
Qed.

(** * Applying an edit *)

(** The parts of an edit that are about one level. *)
Definition at_level {A} (level : Z) (l : list (Z * A)) : list A := snd <$> filter (fun p => fst p = level) l.

Lemma at_level_cons {A} level j (x : A) l : at_level level ((j, x) :: l) = if decide (j = level) then x :: at_level level l else at_level level l.
Proof. unfold at_level. rewrite filter_cons. cbn [fst]. by destruct (decide (j = level)). Qed.

Definition set_pointers (pointers : list (list Z)) (l : list (Z * list Z)) : list (list Z) := foldl (fun ps p => <[Z.to_nat (fst p) := snd p]> ps) pointers l.

Definition in_levels {A} (n : nat) (p : Z * A) : Prop := 0 <= fst p < Z.of_nat n.

Lemma apply_pointers_ok l : forall b, Forall (fun p => in_levels (length (compact_pointer_ b)) p /\ snd p <> []) l ->
  apply_pointers l b = Some (mk_builder (base_ b) (set_pointers (compact_pointer_ b) l) (levels_ b)).
Proof.
  induction l as [|[level k] l IH]; intros b Hl; [by destruct b|]. apply Forall_cons in Hl as [[Hin Hk] Hl]. cbn [fst snd] in *. cbn [apply_pointers]. unfold InternalKey_Encode. destruct k as [|z k]; [done|]. cbn [option_bind mbind].
  case_guard as Hg; [|by destruct Hg]. rewrite IH; [done|]. cbn [compact_pointer_]. unfold in_levels. by rewrite length_insert.
Qed.

Lemma alter_level_ok level k b st st' : in_levels (length (levels_ b)) (level, k) -> levels_ b !! Z.to_nat level = Some st -> k st = Some st' ->
  alter_level level k b = Some (mk_builder (base_ b) (compact_pointer_ b) (<[Z.to_nat level := st']> (levels_ b))).
Proof. intros [H0 _] E1 E2. cbn [fst] in H0. unfold alter_level. case_guard; [|done]. rewrite E1. cbn [option_bind mbind]. by rewrite E2. Qed.

Lemma in_levels_lookup {A} level (x : A) (ls : list LevelState) : in_levels (length ls) (level, x) -> is_Some (ls !! Z.to_nat level).
Proof. intros [H0 H1]. cbn [fst] in *. apply lookup_lt_is_Some. lia. Qed.

Lemma apply_deleted_ok l : forall b, Forall (in_levels (length (levels_ b))) l ->
  exists ls, apply_deleted l b = Some (mk_builder (base_ b) (compact_pointer_ b) ls) /\ length ls = length (levels_ b) /\
    forall i st, levels_ b !! i = Some st -> ls !! i = Some (mk_level (list_to_set (at_level (Z.of_nat i) l) ∪ deleted_files st) (added_files st)).
Proof.
  induction l as [|[level n] l IH]; intros b Hl.
  - exists (levels_ b). split; [by destruct b|]. split; [done|]. intros i [d a] ->. cbn. do 2 f_equal. set_solver.
  - apply Forall_cons in Hl as [Hin Hl]. destruct (in_levels_lookup _ _ _ Hin) as [st0 E0]. cbn [apply_deleted]. rewrite (alter_level_ok level _ b st0 (mk_level ({[n]} ∪ deleted_files st0) (added_files st0))) by done. cbn [option_bind mbind].
    set (b' := mk_builder _ _ _). destruct (IH b') as (ls & -> & Hlen & Hls); [by cbn [b' levels_]; rewrite length_insert|]. cbn [b' base_ compact_pointer_ levels_] in *. rewrite length_insert in Hlen. exists ls. split; [done|]. split; [done|].
    intros i st Ei. rewrite at_level_cons. destruct Hin as [H0 _]. cbn [fst] in H0. case_decide as Ed.
    + assert (Z.to_nat level = i) as Ei' by lia. subst i. rewrite Ei in E0. injection E0 as <-. rewrite (Hls (Z.to_nat level) (mk_level ({[n]} ∪ deleted_files st) (added_files st))).
      * cbn. do 2 f_equal. set_solver.
      * apply list_lookup_insert_eq. by apply lookup_lt_Some in Ei.
    + apply Hls. by rewrite list_lookup_insert_ne by lia.
Qed.

Lemma seeks_keys f : file_keys f -> file_keys (with_allowed_seeks f).
Proof. by intros []. Qed.

(** What the builder knows of a level when new files are still to be added to it. *)
Definition news_fit (st : LevelState) (news : list FileMetaData) : Prop :=
  Forall file_keys (added_files st) /\ sorted_files (added_files st) /\ NoDup (number <$> (news ++ added_files st)).

Lemma news_fit_step st f news a : file_keys f -> news_fit st (f :: news) -> a ≡ₚ with_allowed_seeks f :: added_files st -> sorted_files a -> news_fit (mk_level (deleted_files st ∖ {[number f]}) a) news.
Proof.
  intros Hf (Hk & Hs & Hn) Hp Ha. split; [|split; [done|]]; cbn [added_files].
  - rewrite Hp. constructor; [by apply seeks_keys|done].
  - rewrite Hp. rewrite <- Permutation_middle. exact Hn.
Qed.

Lemma apply_new_ok l : forall b, Forall (fun p => in_levels (length (levels_ b)) p /\ file_keys (snd p)) l -> (forall i st, levels_ b !! i = Some st -> news_fit st (at_level (Z.of_nat i) l)) ->
  exists ls, apply_new user l b = Some (mk_builder (base_ b) (compact_pointer_ b) ls) /\ length ls = length (levels_ b) /\
    forall i st, levels_ b !! i = Some st -> exists a, ls !! i = Some (mk_level (deleted_files st ∖ list_to_set (number <$> at_level (Z.of_nat i) l)) a) /\
      a ≡ₚ (with_allowed_seeks <$> at_level (Z.of_nat i) l) ++ added_files st /\ sorted_files a.
Proof.
  induction l as [|[level f] l IH]; intros b Hl Hfit.
  - exists (levels_ b). split; [by destruct b|]. split; [done|]. intros i [d a] Ei. exists a. split; [rewrite Ei; cbn; do 2 f_equal; set_solver|]. split; [done|]. by destruct (Hfit i _ Ei) as (_ & Hs & _).
  - apply Forall_cons in Hl as [[Hin Hf] Hl]. cbn [snd] in Hf. destruct (in_levels_lookup _ _ _ Hin) as [st0 E0]. pose proof (Hfit _ _ E0) as Hfit0. pose proof Hin as [H0 H1]. cbn [fst] in H0, H1. rewrite Z2Nat.id, at_level_cons, decide_True in Hfit0 by done.
    assert (Hnew : number (with_allowed_seeks f) ∉ number <$> added_files st0).
    { destruct Hfit0 as (_ & _ & Hn). rewrite fmap_app in Hn. apply NoDup_app in Hn as (_ & Hn & _). apply Hn. by left. }
    destruct Hfit0 as (Hk0 & Hs0 & Hn0) eqn:E. clear E. destruct (added_insert_ok (with_allowed_seeks f) (added_files st0) (seeks_keys f Hf) Hk0 Hnew Hs0) as (a & Ea & Hp & Ha). cbn [apply_new].
    rewrite (alter_level_ok level _ b st0 (mk_level (deleted_files st0 ∖ {[number f]}) a)) by (done || by rewrite Ea). cbn [option_bind mbind].
    set (b' := mk_builder _ _ _). assert (Hfit' : forall i st, levels_ b' !! i = Some st -> news_fit st (at_level (Z.of_nat i) l)).
    { cbn [b' levels_]. intros i st Ei. destruct (decide (i = Z.to_nat level)) as [->|Hne].
      - rewrite list_lookup_insert_eq in Ei by lia. injection Ei as <-. rewrite Z2Nat.id by done. by apply news_fit_step.
      - rewrite list_lookup_insert_ne in Ei by done. pose proof (Hfit i st Ei) as Hi. rewrite at_level_cons, decide_False in Hi by lia. exact Hi. }
    destruct (IH b') as (ls & -> & Hlen & Hls); [by cbn [b' levels_]; rewrite length_insert|done|]. cbn [b' base_ compact_pointer_ levels_] in *. rewrite length_insert in Hlen. exists ls. split; [done|]. split; [done|].
    intros i st Ei. rewrite at_level_cons. destruct (decide (level = Z.of_nat i)) as [Ed|Ed].
    + assert (Z.to_nat level = i) as Ei' by lia. subst i. rewrite Ei in E0. injection E0 as <-. destruct (Hls (Z.to_nat level) (mk_level (deleted_files st ∖ {[number f]}) a)) as (a' & Ha' & Hp' & Hs').
      { apply list_lookup_insert_eq. by apply lookup_lt_Some in Ei. }
      exists a'. split; [rewrite Ha'; cbn; do 2 f_equal; set_solver|]. split; [|done]. rewrite Hp'. cbn [added_files]. rewrite Hp, fmap_cons. by rewrite <- Permutation_middle.
    + apply Hls. by rewrite list_lookup_insert_ne by lia.
Qed.

(** * The version an edit stands for *)

(** The numbers that an edit takes from a level: a file that it adds again stays. *)
Definition gone (level : Z) (edit : VersionEdit) : list Z := filter (fun n => n ∉ number <$> at_level level (new_files_ edit)) (at_level level (deleted_files_ edit)).

(** The files of a level after an edit, in some order. *)
Definition edited_level (level : Z) (edit : VersionEdit) (files : list FileMetaData) : list FileMetaData :=
  filter (fun f => number f ∉ gone level edit) files ++ (with_allowed_seeks <$> at_level level (new_files_ edit)).

Record edit_fits (v : Version) (pointers : list (list Z)) (edit : VersionEdit) : Prop := {
  e_seven : length v = Z.to_nat kNumLevels;
  e_pointers : Forall (fun p => in_levels (length pointers) p /\ snd p <> []) (compact_pointers_ edit);
  e_deleted : Forall (in_levels (Z.to_nat kNumLevels)) (deleted_files_ edit);
  e_new : Forall (fun p => in_levels (Z.to_nat kNumLevels) p /\ file_keys (snd p)) (new_files_ edit);
  e_numbers : forall level, NoDup (number <$> at_level level (new_files_ edit));
  e_levels : forall i files, v !! i = Some files -> Forall file_keys files /\ ((0 < i)%nat -> StronglySorted before files /\ disjoint_files (edited_level (Z.of_nat i) edit files));
}.

Lemma at_level_new n edit level : Forall (fun p => in_levels n p /\ file_keys (snd p)) (new_files_ edit) -> Forall file_keys (at_level level (new_files_ edit)).
Proof.
  intros Hn. apply Forall_forall. intros f Hf. unfold at_level in Hf. apply list_elem_of_fmap in Hf as ([l g] & -> & Hg). apply list_elem_of_filter in Hg as [_ Hg]. rewrite Forall_forall in Hn. by apply (Hn _ Hg).
Qed.

(** The numbers of deleted files that the builder keeps for a level, with those of an edit. *)
Definition deleted_after (level : Z) (edit : VersionEdit) (d : gset Z) : gset Z :=
  (list_to_set (at_level level (deleted_files_ edit)) ∪ d) ∖ list_to_set (number <$> at_level level (new_files_ edit)).

(** The files that a level would have if the builder made a version now. *)
Definition content (base : list FileMetaData) (st : LevelState) : list FileMetaData := filter (keep (deleted_files st)) (base ++ added_files st).

Lemma content_after level edit base st a : (forall f, f ∈ base ++ added_files st -> number f ∈ number <$> at_level level (new_files_ edit) -> keep (deleted_files st) f) ->
  a ≡ₚ (with_allowed_seeks <$> at_level level (new_files_ edit)) ++ added_files st ->
  content base (mk_level (deleted_after level edit (deleted_files st)) a) ≡ₚ edited_level level edit (content base st).
Proof.
  intros Hn Hp. unfold content, edited_level. cbn [deleted_files added_files]. rewrite Hp. set (news := at_level level (new_files_ edit)) in *. rewrite (Permutation_app_comm _ (added_files st)), app_assoc, (filter_app (keep (deleted_after _ _ _))). apply Permutation_app.
  - rewrite list_filter_filter. erewrite filter_ext_in; [done|]. intros f Hf. specialize (Hn f Hf). unfold keep, deleted_after, gone in *. rewrite elem_of_difference, elem_of_union, !elem_of_list_to_set, list_elem_of_filter. fold news in Hn |- *.
    destruct (decide (number f ∈ number <$> news)); tauto.
  - rewrite filter_keeps; [done|]. apply Forall_forall. intros f Hf. apply list_elem_of_fmap in Hf as (g & -> & Hg). unfold keep, deleted_after. rewrite elem_of_difference, !elem_of_list_to_set. intros [_ Hno]. apply Hno. change (number (with_allowed_seeks g)) with (number g). by apply list_elem_of_fmap_2.
Qed.

(** What a builder has is in order, and can be added to. *)
Record builder_ok (b : Builder) : Prop := {
  b_levels : length (levels_ b) = Z.to_nat kNumLevels;
  b_added : forall i st, levels_ b !! i = Some st -> Forall file_keys (added_files st) /\ sorted_files (added_files st);
}.

(** The edit can be applied: its levels exist, its files have keys and new numbers. *)
Record edit_applies (b : Builder) (edit : VersionEdit) : Prop := {
  a_pointers : Forall (fun p => in_levels (length (compact_pointer_ b)) p /\ snd p <> []) (compact_pointers_ edit);
  a_deleted : Forall (in_levels (Z.to_nat kNumLevels)) (deleted_files_ edit);
  a_new : Forall (fun p => in_levels (Z.to_nat kNumLevels) p /\ file_keys (snd p)) (new_files_ edit);
  a_numbers : forall i st, levels_ b !! i = Some st -> NoDup (number <$> at_level (Z.of_nat i) (new_files_ edit) ++ added_files st);
}.

Lemma apply_ok b edit : builder_ok b -> edit_applies b edit ->
  exists b', Apply user edit b = Some b' /\ base_ b' = base_ b /\ compact_pointer_ b' = set_pointers (compact_pointer_ b) (compact_pointers_ edit) /\ builder_ok b' /\
    forall i st, levels_ b !! i = Some st -> exists a, levels_ b' !! i = Some (mk_level (deleted_after (Z.of_nat i) edit (deleted_files st)) a) /\
      a ≡ₚ (with_allowed_seeks <$> at_level (Z.of_nat i) (new_files_ edit)) ++ added_files st.
Proof.
  intros [Hlen Hadd] [Hptr Hdel Hnew Hnum]. unfold Apply. rewrite apply_pointers_ok by done. cbn [option_bind mbind]. set (b1 := mk_builder _ _ _).
  destruct (apply_deleted_ok (deleted_files_ edit) b1) as (ls1 & -> & Hl1 & H1); [by cbn [b1 levels_]; rewrite Hlen|]. cbn [option_bind mbind b1 base_ compact_pointer_ levels_] in *.
  set (b2 := mk_builder _ _ _). assert (Hfit : forall i st, levels_ b2 !! i = Some st -> news_fit st (at_level (Z.of_nat i) (new_files_ edit))).
  { cbn [b2 levels_]. intros i st Ei. destruct (lookup_lt_is_Some_2 (levels_ b) i) as [st0 E0]; [rewrite <- Hl1; by apply lookup_lt_Some in Ei|]. rewrite (H1 i st0 E0) in Ei. injection Ei as <-. destruct (Hadd i st0 E0) as [Hk Hs]. split; [done|]. split; [done|]. exact (Hnum i st0 E0). }
  destruct (apply_new_ok (new_files_ edit) b2) as (ls2 & -> & Hl2 & H2); [by cbn [b2 levels_]; rewrite Hl1, Hlen|done|]. cbn [b2 base_ compact_pointer_ levels_] in *. eexists. split; [done|]. cbn [base_ compact_pointer_ levels_]. split; [done|]. split; [done|].
  assert (Hall : forall i st, levels_ b !! i = Some st -> exists a, ls2 !! i = Some (mk_level (deleted_after (Z.of_nat i) edit (deleted_files st)) a) /\ a ≡ₚ (with_allowed_seeks <$> at_level (Z.of_nat i) (new_files_ edit)) ++ added_files st /\ sorted_files a).
  { intros i st E. apply (H2 i _ (H1 i st E)). }
  split; [|intros i st E; destruct (Hall i st E) as (a & ? & ? & _); by exists a]. split; cbn [levels_]; [lia|]. intros i st Ei. destruct (lookup_lt_is_Some_2 (levels_ b) i) as [st0 E0]; [rewrite <- Hl1, <- Hl2; by apply lookup_lt_Some in Ei|].
  destruct (Hall i st0 E0) as (a & Ea & Hp & Hs). rewrite Ei in Ea. injection Ea as ->. cbn [added_files]. split; [|done]. rewrite Hp. apply Forall_app. split; [|by apply (Hadd i)]. apply Forall_fmap. eapply Forall_impl; [by apply (at_level_new _ _ _ Hnew)|]. intros f Hf. by apply seeks_keys.
Qed.

(** A builder whose levels do not overlap makes a version. *)
Lemma save_ok b : builder_ok b -> length (base_ b) = Z.to_nat kNumLevels ->
  (forall i base st, base_ b !! i = Some base -> levels_ b !! i = Some st -> Forall file_keys base /\ ((0 < i)%nat -> StronglySorted before base /\ disjoint_files (content base st))) ->
  exists v : Version, SaveTo user b = Some v /\ length v = Z.to_nat kNumLevels /\
    forall i base st, base_ b !! i = Some base -> levels_ b !! i = Some st -> exists files, v !! i = Some files /\ files ≡ₚ content base st /\ ((0 < i)%nat -> StronglySorted before files) /\ Forall file_keys files.
Proof.
  intros [Hlen Hadd] Hbase Hlev. destruct (save_levels_ok (base_ b) 0 (levels_ b)) as (v & E & Hv & Hall); [congruence|done| |].
  - intros i base st Ei Es. destruct (Hlev i base st Ei Es) as [Hk Hab], (Hadd i st Es) as [Hka Hs]. constructor; [done..|]. intros Hi. destruct Hab as [Hs1 Hd]; [lia|]. split; [by apply before_sorted|done].
  - exists v. split; [done|]. split; [congruence|]. intros i base st Ei Es. destruct (Hall i base st Ei Es) as (files & Ef & Hp & Hs & Hk). exists files. split; [done|]. split; [done|]. split; [|done]. intros Hi. apply Hs. lia.
Qed.

Lemma new_builder_level v pointers i st : levels_ (new_Builder v pointers) !! i = Some st -> st = mk_level ∅ [].
Proof. intros E. apply lookup_replicate_1 in E as [-> _]. done. Qed.

Lemma new_builder_ok v pointers : builder_ok (new_Builder v pointers).
Proof. split; [apply length_replicate|]. intros i st ->%new_builder_level. repeat constructor. Qed.

Lemma new_builder_content files : content files (mk_level ∅ []) = files.
Proof. unfold content. cbn [deleted_files added_files]. rewrite app_nil_r. apply filter_keeps, Forall_forall. intros f _. unfold keep. set_solver. Qed.

(** The new version has the files of the old one that the edit does not delete, and those it
    adds; above level 0 they follow each other. *)
Lemma edited_ok v pointers edit : edit_fits v pointers edit ->
  exists b (v' : Version), Apply user edit (new_Builder v pointers) = Some b /\ compact_pointer_ b = set_pointers pointers (compact_pointers_ edit) /\ SaveTo user b = Some v' /\ length v' = length v /\
    forall i files, v !! i = Some files -> exists files', v' !! i = Some files' /\ files' ≡ₚ edited_level (Z.of_nat i) edit files /\ ((0 < i)%nat -> StronglySorted before files') /\ Forall file_keys files'.
Proof.
  intros [Hv Hptr Hdel Hnew Hnum Hlev]. destruct (apply_ok (new_Builder v pointers) edit) as (b & Eb & Ebase & Ep & Hb & Hall); [apply new_builder_ok| |].
  { constructor; [done..|]. intros i st ->%new_builder_level. cbn [added_files]. by rewrite app_nil_r. }
  cbn [base_ compact_pointer_ new_Builder] in Ebase, Ep. assert (Hst : forall i, (i < Z.to_nat kNumLevels)%nat -> exists a, levels_ b !! i = Some (mk_level (deleted_after (Z.of_nat i) edit ∅) a) /\ a ≡ₚ with_allowed_seeks <$> at_level (Z.of_nat i) (new_files_ edit)).
  { intros i Hi. destruct (Hall i (mk_level ∅ [])) as (a & Ea & Hp); [by apply lookup_replicate_2|]. exists a. cbn [added_files] in Hp. rewrite app_nil_r in Hp. done. }
  assert (Hcon : forall i files st, v !! i = Some files -> levels_ b !! i = Some st -> content files st ≡ₚ edited_level (Z.of_nat i) edit files).
  { intros i files st Ei Es. destruct (Hst i) as (a & Ea & Hp); [by rewrite <- Hv; apply lookup_lt_Some in Ei|]. rewrite Ea in Es. injection Es as <-. pose proof (content_after (Z.of_nat i) edit files (mk_level ∅ []) a) as Hc. rewrite new_builder_content in Hc. apply Hc; [|by cbn [added_files]; rewrite app_nil_r].
    intros f _ _. unfold keep. cbn [deleted_files]. set_solver. }
  destruct (save_ok b Hb) as (v' & Es & Hlen & Hsave); [congruence| |].
  - rewrite Ebase. intros i files st Ei Es. destruct (Hlev i files Ei) as [Hk Hab]. split; [done|]. intros Hi. destruct (Hab Hi) as [Hs Hd]. split; [done|]. by rewrite (Hcon i files st).
  - rewrite Ebase in Hsave. exists b, v'. split; [done|]. split; [done|]. split; [done|]. split; [congruence|]. intros i files Ei. destruct (Hst i) as (a & Ea & _); [by rewrite <- Hv; apply lookup_lt_Some in Ei|].
    destruct (Hsave i files _ Ei Ea) as (files' & Ef & Hp & Hrest). exists files'. split; [done|]. split; [|done]. by rewrite <- (Hcon i files _ Ei Ea).
Qed.

(** * The level for the output of a table in memory *)

Lemma overlap_in_level v i files a b : v !! i = Some files -> sound_level (Z.of_nat i) files -> bound_ok a -> bound_ok b ->
  OverlapInLevel user v (Z.of_nat i) a b = Some (existsb (overlaps a b) files).
Proof. intros Ei Hok Ha Hb. unfold OverlapInLevel, files_. rewrite (proj2 (Z.ltb_ge (Z.of_nat i) 0)), Nat2Z.id, Ei by lia. cbn [option_bind mbind]. by apply some_overlap_ok. Qed.

Section pick.
Context (v : Version) (a b : list Z) (max_file_size : Z).
Context (Hv : length v = Z.to_nat kNumLevels) (Hl : forall i files, v !! i = Some files -> sound_level (Z.of_nat i) files) (Ha : valid_key a) (Hb : valid_key b).

Definition free_to (level : nat) : Prop := forall i files, (i <= level)%nat -> v !! i = Some files -> existsb (overlaps (Some a) (Some b)) files = false.

(** The level that is picked: 0, or one up to which no file has keys of the range. *)
Definition picked (level : Z) : Prop := 0 <= level <= kMaxMemCompactLevel /\ (0 < level -> free_to (Z.to_nat level)).

Lemma level_there i : (i < 7)%nat -> exists files, v !! i = Some files /\ sound_level (Z.of_nat i) files.
Proof. intros Hi. destruct (lookup_lt_is_Some_2 v i) as [files E]; [by rewrite Hv|]. exists files. split; [done|]. by apply Hl. Qed.

Lemma grandparents_ok i start limit : (i < 7)%nat -> real_key start -> real_key limit -> exists inputs, GetOverlappingInputs user v (Z.of_nat i) (Some start) (Some limit) = Some inputs.
Proof.
  intros Hi Hs He. destruct (level_there i Hi) as (files & Ei & Hok). destruct (overlapping_ok v (Z.of_nat i) files (Some start) (Some limit)) as (b' & e' & E & _); [|apply Hok|done|done|by eexists].
  unfold files_. by rewrite (proj2 (Z.ltb_ge (Z.of_nat i) 0)), Nat2Z.id by lia.
Qed.

Lemma pick_loop_ok start limit : real_key start -> real_key limit -> forall fuel level, (level <= 2)%nat -> (3 <= fuel + level)%nat -> free_to level ->
  exists l, pick_loop user max_file_size fuel v a b start limit (Z.of_nat level) = Some l /\ picked l.
Proof.
  intros Hs He. induction fuel as [|fuel IH]; intros level Hlev Hfuel Hfree; [lia|]. cbn [pick_loop]. assert (Hpick : picked (Z.of_nat level)) by (unfold picked, kMaxMemCompactLevel; rewrite Nat2Z.id; split; [lia|done]).
  destruct (Z.ltb_spec (Z.of_nat level) kMaxMemCompactLevel) as [Hlt|_]; [|by eexists]. unfold kMaxMemCompactLevel in Hlt. destruct (level_there (S level)) as (files & Ei & Hok); [lia|].
  replace (Z.of_nat level + 1) with (Z.of_nat (S level)) by lia. rewrite (overlap_in_level v (S level) files) by done. cbn [option_bind mbind]. destruct (existsb _ files) eqn:Eo; [by eexists|].
  assert (Hmany : exists m : bool, (if Z.of_nat level + 2 <? kNumLevels then overlaps ← GetOverlappingInputs user v (Z.of_nat level + 2) (Some start) (Some limit); Some (MaxGrandParentOverlapBytes max_file_size <? TotalFileSize overlaps) else Some false) = Some m).
  { destruct (Z.of_nat level + 2 <? kNumLevels); [|by eexists]. replace (Z.of_nat level + 2) with (Z.of_nat (S (S level))) by lia. destruct (grandparents_ok (S (S level)) start limit) as [inputs ->]; [lia|done|done|by eexists]. }
  destruct Hmany as [m ->]. cbn [option_bind mbind]. destruct m; [by eexists|]. apply IH; [lia|lia|]. intros i fs Hi Efs. destruct (decide (i = S level)) as [->|]; [congruence|]. apply (Hfree i); [lia|done].
Qed.

Lemma pick_ok : exists level, PickLevelForMemTableOutput user max_file_size v a b = Some level /\ picked level.
Proof.
  unfold PickLevelForMemTableOutput. destruct (level_there 0) as (files & E0 & Hok); [lia|]. change 0 with (Z.of_nat 0) at 1. rewrite (overlap_in_level v 0 files) by done. cbn [option_bind mbind].
  destruct (existsb _ files) eqn:Eo; cbn [negb]; [exists 0; split; [done|]; split; [done|lia]|]. unfold InternalKey. rewrite !append_internal_ok by (first [apply max_number|split; by vm_compute]). cbn [option_bind mbind user_key sequence type].
  set (start := internal_key a _). set (limit := internal_key b _). assert (Hs : real_key start) by (exists a, kMaxSequenceNumber, kValueTypeForSeek; split; [done|]; split; [apply max_number|reflexivity]).
  assert (He : real_key limit) by (exists b, 0, kTypeDeletion; split; [done|]; split; [split; by vm_compute|reflexivity]). clearbody start limit.
  destruct (pick_loop_ok start limit Hs He 3 0) as (l & E & Hp); [lia|lia| |by exists l]. intros i fs Hi Efs. assert (i = 0%nat) as -> by lia. congruence.
Qed.

End pick.

(** * The output of a table in memory *)

Section flush.
Context (entries : Z -> list version) (table_cache_Get : Z -> Z -> list Z -> Status * option (list Z * list Z)).

Notation file_entries := (file_entries entries).
Notation level_entries := (level_entries entries).
Notation version_entries := (version_entries entries).
Notation contents_ok := (contents_ok entries table_cache_Get).
Notation tree_ok := (tree_ok entries table_cache_Get).
Notation tree_from := (tree_from entries table_cache_Get).

Lemma in_level_entries f files x : f ∈ files -> x ∈ file_entries f -> x ∈ level_entries files.
Proof. intros Hf Hx. apply elem_of_level. by exists f. Qed.

Lemma contents_same f g : number f = number g -> file_size f = file_size g -> smallest f = smallest g -> largest f = largest g -> contents_ok f -> contents_ok g.
Proof. destruct f, g; cbn. intros -> -> -> -> []. by constructor. Qed.

(** Files that share no user key do not overlap. *)
Lemma apart f g : file_keys f -> file_keys g -> overlaps (Some (lo f)) (Some (hi f)) g = false -> before f g \/ before g f.
Proof.
  intros Hf Hg. unfold overlaps. cbn. rewrite andb_false_iff, !negb_false_iff. intros [E|E]; [right|left]; unfold before, internal_order.
  - destruct (order (lo f) (hi g)) eqn:E2; try done. apply order_lt_flip in E2. unfold lo, hi in E2. by rewrite E2.
  - destruct (order (hi f) (lo g)) eqn:E2; try done. unfold lo, hi in E2. by rewrite E2.
Qed.

Lemma not_overlapping f files g : existsb (overlaps (Some (lo f)) (Some (hi f))) files = false -> g ∈ files -> overlaps (Some (lo f)) (Some (hi f)) g = false.
Proof. intros E Hg. destruct (overlaps _ _ g) eqn:Eo; [|done]. rewrite <- E. symmetry. apply existsb_exists. exists g. split; [by apply list_elem_of_In|done]. Qed.

(** Entries of files that do not overlap have different user keys. *)
Lemma apart_keys f g x y : file_keys f -> file_keys g -> contents_ok f -> contents_ok g -> x ∈ file_entries f -> y ∈ file_entries g ->
  overlaps (Some (lo f)) (Some (hi f)) g = false -> order (v_user x) (v_user y) <> Eq.
Proof.
  intros Hf Hg Hcf Hcg Hx Hy Hov E. destruct (entry_range entries table_cache_Get f x Hf Hcf Hx) as [H1 H2], (entry_range entries table_cache_Get g y Hg Hcg Hy) as [H3 H4].
  pose proof (c_versions _ _ f Hcf) as Hvx. pose proof (c_versions _ _ g Hcg) as Hvy. rewrite Forall_forall in Hvx, Hvy. destruct (Hvx x Hx) as (Vx & _), (Hvy y Hy) as (Vy & _).
  pose proof (lo_valid f Hf). pose proof (hi_valid f Hf). pose proof (lo_valid g Hg). pose proof (hi_valid g Hg). unfold overlaps in Hov. cbn in Hov. rewrite andb_false_iff, !negb_false_iff in Hov. destruct Hov as [Ho|Ho].
  - assert (order (lo f) (hi g) <> Gt); [|by destruct (order (lo f) (hi g))]. apply (order_le_trans _ (v_user y)); try done. apply (order_le_trans _ (v_user x)); try done. by rewrite E.
  - assert (order (lo g) (hi f) <> Gt) as Hn; [|apply Hn; apply order_lt_flip; by destruct (order (hi f) (lo g))]. apply (order_le_trans _ (v_user y)); try done. apply (order_le_trans _ (v_user x)); try done. by rewrite order_flip, E.
Qed.

Lemma sorted_disjoint files : NoDup (number <$> files) -> StronglySorted before files -> disjoint_files files.
Proof.
  intros Hn Hs. split; [done|]. intros f g Hf Hg Hne. apply list_elem_of_lookup in Hf as [i Ei], Hg as [j Ej]. destruct (Nat.lt_trichotomy i j) as [Hij|[->|Hij]]; [left|congruence|right]; by eapply (sorted_lookup before).
Qed.

Lemma disjoint_snoc files f : disjoint_files files -> number f ∉ number <$> files -> (forall g, g ∈ files -> before f g \/ before g f) -> disjoint_files (files ++ [f]).
Proof.
  intros [Hn Hd] Hf Hb. split.
  - rewrite fmap_app. apply NoDup_app. split; [done|]. split; [|apply NoDup_singleton]. intros n Hn1 Hn2. apply list_elem_of_singleton in Hn2. by subst.
  - intros g h [Hg|Hg]%elem_of_app [Hh|Hh]%elem_of_app Hne; rewrite ?list_elem_of_singleton in *; subst; [by apply Hd| | |done]; [destruct (Hb g Hg)|destruct (Hb h Hh)]; tauto.
Qed.

(** A file whose entries are newer than all others, and numbered after the other files. *)
Record newer_file (v : Version) (f : FileMetaData) : Prop := {
  n_keys : file_keys f;
  n_contents : contents_ok f;
  n_one : one_each (file_entries f);
  n_newer : newer_than (file_entries f) (version_entries v);
  n_number : forall files g, files ∈ v -> g ∈ files -> number g < number f;
  n_room : forall files, files ∈ v -> small_level (f :: files);
}.

(** The edit that [WriteLevel0Table] makes for the file. *)
Definition flush_edit (level : Z) (f : FileMetaData) : VersionEdit := AddFile level (number f) (file_size f) (smallest f) (largest f) new_VersionEdit.
Definition flushed (f : FileMetaData) : FileMetaData := with_allowed_seeks (new_FileMetaData (number f) (file_size f) (smallest f) (largest f)).


Lemma flush_level level f i files : edited_level i (flush_edit level f) files = files ++ (if decide (level = i) then [flushed f] else []).
Proof.
  unfold edited_level, gone. cbn [flush_edit AddFile push_new_file deleted_files_ new_files_ new_VersionEdit Clear app]. change (at_level i (@nil (Z * Z))) with (@nil Z). rewrite filter_nil, filter_keeps by (apply Forall_forall; intros g _ Hg; by apply not_elem_of_nil in Hg).
  rewrite at_level_cons. by case_decide.
Qed.

Lemma flushed_keys f : file_keys f -> file_keys (flushed f) /\ file_entries (flushed f) = file_entries f /\ (contents_ok f -> contents_ok (flushed f)).
Proof. intros []. split; [done|]. split; [done|]. by apply contents_same. Qed.

Section flush_to.
Context (v : Version) (f : FileMetaData) (level : nat) (Ht : tree_ok v) (Hf : newer_file v f).
Context (Hlev : (level <= 2)%nat) (Hfree : (0 < level)%nat -> free_to v (lo f) (hi f) level).

Lemma flush_fits pointers : edit_fits v pointers (flush_edit (Z.of_nat level) f).
Proof.
  destruct Ht as [Hv [Hl _ _] Hnum _]. destruct Hf as [Hk _ _ _ Hnumf _]. constructor; cbn [flush_edit AddFile push_new_file compact_pointers_ deleted_files_ new_files_ new_VersionEdit Clear app]; [done|done|done|..].
  - constructor; [|done]. split; [unfold in_levels, kNumLevels; cbn [fst]; lia|]. destruct Hk. by constructor.
  - intros i. rewrite at_level_cons. case_decide; [apply NoDup_singleton|constructor].
  - intros i files Ei. destruct (Hl i files Ei) as [[Hkf _ Hs] _]. rewrite Z.add_0_l in Hs. split; [done|]. intros Hi. split; [apply Hs; lia|]. assert (Hin : files ∈ v) by (by apply list_elem_of_lookup_2 in Ei).
    assert (Hd : disjoint_files files) by (apply sorted_disjoint; [by apply Hnum|apply Hs; lia]). rewrite flush_level. case_decide as Ed; [|by rewrite app_nil_r]. assert (level = i) as -> by lia. apply disjoint_snoc; [done| |].
    + intros Hn. apply list_elem_of_fmap in Hn as (g & Eg & Hg). pose proof (Hnumf files g Hin Hg). cbn in Eg. lia.
    + intros g Hg. rewrite Forall_forall in Hkf. apply apart; [by apply flushed_keys|by apply Hkf|]. apply (not_overlapping (flushed f) files); [|done]. by apply (Hfree Hi i).
Qed.

Context (v' : Version) (Hlen : length v' = length v).
Context (Hv' : forall i files, v !! i = Some files -> exists files', v' !! i = Some files' /\ files' ≡ₚ edited_level (Z.of_nat i) (flush_edit (Z.of_nat level) f) files /\
  ((0 < i)%nat -> StronglySorted before files') /\ Forall file_keys files').

Lemma flush_back i files' : v' !! i = Some files' -> exists files, v !! i = Some files /\ files' ≡ₚ files ++ (if decide (level = i) then [flushed f] else []) /\ ((0 < i)%nat -> StronglySorted before files') /\ Forall file_keys files'.
Proof.
  intros Ei. destruct (lookup_lt_is_Some_2 v i) as [files E]; [rewrite <- Hlen; by apply lookup_lt_Some in Ei|]. destruct (Hv' i files E) as (fs & E' & Hp & Hs & Hk). rewrite Ei in E'. injection E' as <-. exists files. split; [done|]. split; [|done].
  rewrite Hp, flush_level. by case_decide; case_decide; try lia.
Qed.

Lemma flush_entries i files' x : v' !! i = Some files' -> x ∈ level_entries files' ->
  (exists files, v !! i = Some files /\ x ∈ level_entries files) \/ level = i /\ x ∈ file_entries f.
Proof.
  intros Ei Hx. destruct (flush_back i files' Ei) as (files & E & Hp & _). apply elem_of_level in Hx as (g & Hg & Hx). rewrite Hp in Hg. apply elem_of_app in Hg as [Hg|Hg]; [left; exists files; split; [done|]; by apply (in_level_entries g)|].
  right. case_decide; [|by apply not_elem_of_nil in Hg]. apply list_elem_of_singleton in Hg as ->. done.
Qed.

Lemma entries_at i files x : v !! i = Some files -> x ∈ level_entries files -> x ∈ version_entries v.
Proof. intros Ei Hx. apply elem_of_version. exists files. split; [by apply list_elem_of_lookup_2 in Ei|done]. Qed.

Lemma flush_all x : x ∈ version_entries v' <-> x ∈ file_entries f \/ x ∈ version_entries v.
Proof.
  destruct Ht as [Hv _ _ _]. split.
  - intros Hx. apply elem_of_version in Hx as (files' & Hi & Hx). apply list_elem_of_lookup in Hi as [i Ei]. destruct (flush_entries i files' x Ei Hx) as [(files & E & Hin)|[_ Hin]]; [right; by apply (entries_at i files)|by left].
  - intros [Hx|Hx].
    + destruct (lookup_lt_is_Some_2 v level) as [files E]; [rewrite Hv; unfold kNumLevels; lia|]. destruct (Hv' level files E) as (files' & E' & Hp & _). apply elem_of_version. exists files'. split; [by apply list_elem_of_lookup_2 in E'|].
      apply (in_level_entries (flushed f)); [|exact Hx]. rewrite Hp, flush_level, decide_True by done. apply elem_of_app. right. by apply list_elem_of_singleton.
    + apply elem_of_version in Hx as (files & Hi & Hx). apply list_elem_of_lookup in Hi as [i E]. destruct (Hv' i files E) as (files' & E' & Hp & _). apply elem_of_version. exists files'. split; [by apply list_elem_of_lookup_2 in E'|].
      apply elem_of_level in Hx as (g & Hg & Hx). apply (in_level_entries g); [|done]. rewrite Hp, flush_level. apply elem_of_app. by left.
Qed.

(** The file is not in the numbers of the level it is added to. *)
Lemma flush_numbers i files : v !! i = Some files -> NoDup (number <$> files ++ (if decide (level = i) then [flushed f] else [])).
Proof.
  destruct Ht as [_ _ Hnum _]. intros Ei. assert (Hin : files ∈ v) by (by apply list_elem_of_lookup_2 in Ei). case_decide; [|rewrite app_nil_r; by apply Hnum].
  rewrite fmap_app. apply NoDup_app. split; [by apply Hnum|]. split; [|apply NoDup_singleton]. intros n Hn En. apply list_elem_of_singleton in En. cbn in En. subst n.
  apply list_elem_of_fmap in Hn as (g & Eg & Hg). pose proof (n_number v f Hf files g Hin Hg). lia.
Qed.

Lemma flush_levels i files' : v' !! i = Some files' -> sound_level (Z.of_nat i) files' /\ Forall contents_ok files'.
Proof.
  intros Ei. destruct (flush_back i files' Ei) as (files & E & Hp & Hs & Hkf). destruct Ht as [_ [Hl _ _] _ _]. destruct (Hl i files E) as [[_ Hsmall _] Hc]. assert (Hin : files ∈ v) by (by apply list_elem_of_lookup_2 in E). split.
  - constructor; [done| |intros Hi; apply Hs; lia]. unfold small_level in *. rewrite Hp, length_app. pose proof (n_room v f Hf files Hin) as Hr. unfold small_level in Hr. cbn [length] in Hr. case_decide; cbn [length]; lia.
  - rewrite Hp. apply Forall_app. split; [done|]. case_decide; [|done]. constructor; [|done]. apply flushed_keys; [apply Hf|]. apply Hf.
Qed.

(** Entries of the file meet no entry of the same key in the levels above the one it goes to. *)
Lemma flush_above i files x y : (i < level)%nat -> v !! i = Some files -> x ∈ file_entries f -> y ∈ level_entries files -> order (v_user x) (v_user y) <> Eq.
Proof.
  intros Hi E Hx Hy. destruct Ht as [_ [Hl _ _] _ _]. destruct (Hl i files E) as [[Hk _ _] Hc]. apply elem_of_level in Hy as (g & Hg & Hy). rewrite Forall_forall in Hk, Hc. apply (apart_keys f g); auto; [apply Hf|apply Hf|].
  apply (not_overlapping f files); [|done]. apply (Hfree ltac:(lia) i); [lia|done].
Qed.

Lemma flush_tree : tree_ok v'.
Proof.
  pose proof Ht as [Hv [Hl Hz Ho] Hnum H1]. constructor; [congruence| | |].
  - constructor.
    + intros i files' Ei. rewrite Z.add_0_l. by apply flush_levels.
    + intros files' _ Eh. rewrite head_lookup in Eh. destruct (flush_back 0 files' Eh) as (files & E & Hp & _). assert (Hin : files ∈ v) by (by apply list_elem_of_lookup_2 in E). destruct (Hz files eq_refl) as [Hn0 Hnew0]; [by rewrite head_lookup|].
      split; [rewrite Hp; by apply flush_numbers|]. intros g h Hg Hh Hlt. rewrite Hp in Hg, Hh. case_decide; [|rewrite app_nil_r in Hg, Hh; by apply Hnew0].
      apply elem_of_app in Hg as [Hg|Hg], Hh as [Hh|Hh]; rewrite ?list_elem_of_singleton in *; subst; [by apply Hnew0| | |lia].
      * intros x y Hx Hy. apply (n_newer v f Hf); [exact Hx|]. apply (entries_at 0 files); [done|]. by apply (in_level_entries g).
      * pose proof (n_number v f Hf files h Hin Hh). cbn in Hlt. lia.
    + apply sorted_from_lookup. intros i j fs gs Hij Ei Ej x y Hx Hy. destruct (flush_entries i fs x Ei Hx) as [(fs0 & Ei0 & Hx0)|[Ei0 Hx0]], (flush_entries j gs y Ej Hy) as [(gs0 & Ej0 & Hy0)|[Ej0 Hy0]].
      * exact (sorted_lookup _ v i j fs0 gs0 Ho Hij Ei0 Ej0 x y Hx0 Hy0).
      * intros E. exfalso. apply (flush_above i fs0 y x ltac:(lia) Ei0 Hy0 Hx0). by rewrite order_flip, E.
      * apply (n_newer v f Hf); [done|]. by apply (entries_at j gs0).
      * lia.
  - intros files' Hin. apply list_elem_of_lookup in Hin as [i Ei]. destruct (flush_back i files' Ei) as (files & E & Hp & _). rewrite Hp. by apply flush_numbers.
  - intros x y Hx Hy E Es. apply flush_all in Hx as [Hx|Hx], Hy as [Hy|Hy]; [by apply (n_one v f Hf)| | |by apply H1].
    + pose proof (n_newer v f Hf x y Hx Hy E). lia.
    + pose proof (n_newer v f Hf y x Hy Hx) as Hlt. rewrite order_flip, E in Hlt. specialize (Hlt eq_refl). lia.
Qed.
End flush_to.

End flush.
End builder.

(** C13: when the table in memory becomes a file, [PickLevelForMemTableOutput] returns 0 or a level
    up to which no file shares user keys with it, and the edit that adds the file there is
    applied without a failed assertion.  The new version is again in the order that lookups
    rely on, if the entries of the file are newer than all others, and has the entries of the
    file besides its own. *)
Theorem memtable_output_keeps_order {user : Comparator} {laws : ComparatorLaws} entries table_cache_Get v f pointers max_file_size :
  tree_ok entries table_cache_Get v -> newer_file entries table_cache_Get v f ->
  exists level b (v' : Version), PickLevelForMemTableOutput user max_file_size v (lo f) (hi f) = Some level /\ picked v (lo f) (hi f) level /\
    Apply user (flush_edit level f) (new_Builder v pointers) = Some b /\ SaveTo user b = Some v' /\
    tree_ok entries table_cache_Get v' /\ forall x, x ∈ version_entries entries v' <-> x ∈ file_entries entries f \/ x ∈ version_entries entries v.
Proof.
  intros Ht Hf. pose proof Ht as [Hv [Hl _ _] _ _]. pose proof Hf as [Hk _ _ _ _ _].
  destruct (pick_ok v (lo f) (hi f) max_file_size Hv ltac:(intros i files E; by apply (Hl i files E)) ltac:(by apply lo_valid) ltac:(by apply hi_valid)) as (level & Ep & [Hlev Hfree]). unfold kMaxMemCompactLevel in Hlev.
  assert (Efl : level = Z.of_nat (Z.to_nat level)) by lia. assert (Hfr : (0 < Z.to_nat level)%nat -> free_to v (lo f) (hi f) (Z.to_nat level)) by (intros; apply Hfree; lia).
  destruct (edited_ok v pointers _ (flush_fits entries table_cache_Get v f (Z.to_nat level) Ht Hf ltac:(lia) Hfr pointers)) as (b & v' & Eb & _ & Es & Hlen & Hv'). rewrite <- Efl in Eb.
  exists level, b, v'. split; [done|]. split; [by split|]. split; [done|]. split; [done|]. split; [apply (flush_tree entries table_cache_Get v f (Z.to_nat level)); try done; lia|]. apply (flush_all entries table_cache_Get v f (Z.to_nat level)); try done; lia.
Qed.

Lemma example_newer : newer_file (user := bytewise) example_entries (read_table (user := bytewise) example_entries) example_tree file6.
Proof.
  destruct example_keys as (_ & _ & _ & K6), example_contents as (_ & _ & _ & C6). constructor; [exact K6|exact C6| | | |].
  - intros x y Hx Hy. cbn in Hx, Hy. each_member; by vm_compute.
  - intros x y Hx Hy. cbn in Hx, Hy. each_member; by vm_compute.
  - intros files g Hf Hg. unfold example_tree in Hf. each_member; cbn; lia.
  - intros files Hf. unfold example_tree in Hf. each_member; unfold small_level; cbn; lia.
Qed.

Definition numbers (v : Version) : list (list Z) := map (map number) v.

Lemma memtable_output_keeps_order_witness : exists level b (v' : Version), PickLevelForMemTableOutput bytewise (2 ^ 21) example_tree [100] [101] = Some level /\ level = 2 /\
  Apply bytewise (flush_edit level file6) (new_Builder example_tree (replicate 7 [])) = Some b /\ SaveTo bytewise b = Some v' /\ numbers v' = [[4; 5]; [2]; [6]; []; []; []; []] /\
  tree_ok (user := bytewise) example_entries (read_table (user := bytewise) example_entries) v'.
Proof.
  destruct (memtable_output_keeps_order (user := bytewise) example_entries (read_table (user := bytewise) example_entries) example_tree file6 (replicate 7 []) (2 ^ 21) example_tree_ok example_newer) as (level & b & v' & Ep & _ & Eb & Es & Ht & _).
  exists level, b, v'. split; [exact Ep|]. assert (El : level = 2) by (vm_compute in Ep; by injection Ep as <-). subst level. split; [done|]. split; [exact Eb|]. split; [exact Es|]. split; [|exact Ht].
  assert (E : (b ← Apply bytewise (flush_edit 2 file6) (new_Builder example_tree (replicate 7 [])); v ← SaveTo bytewise b; Some (numbers v)) = Some [[4; 5]; [2]; [6]; []; []; []; []]) by (vm_compute; reflexivity).
  rewrite Eb in E. cbn [option_bind mbind] in E. rewrite Es in E. cbn [option_bind mbind] in E. by injection E.
Defined.
