(* ===== verification/LdbManifest.v ===== *)
(** The manifest of a LevelDB database: [VersionSet::LogAndApply], [WriteSnapshot] and
    [Recover] of db/version_set.cc, and that reading the records back gives the version that
    was current, whatever prefix of the records is there.

    The manifest is the list of its records; that it reaches the disk is a parameter, and so
    is what the others do while [LogAndApply] has released the mutex. *)
From stdpp Require Import base gmap list strings numbers option sorting.
From Stdlib Require Import ZArith Lia.
From S2P Require Import Prelude LdbCoding LdbCodingThms LdbEnv LdbComparator LdbFormat LdbFormatThms LdbVersionEdit LdbVersionEditThms LdbMemTableThms LdbVersion LdbVersionThms LdbVersionSpec LdbVersionBuild.

(** What class [VersionSet] keeps; [descriptor_open] is [descriptor_log_ != nullptr]. *)
Record VersionState := mk_vset {
  vs_current : Version;
  vs_pointers : list (list Z);
  vs_next_file_number : Z;
  vs_manifest_file_number : Z;
  vs_last_sequence : Z;
  vs_log_number : Z;
  vs_prev_log_number : Z;
  descriptor_open : bool;
}.

(** [VersionSet::VersionSet] *)
Definition new_VersionState : VersionState :=
  mk_vset (replicate (Z.to_nat kNumLevels) []) (replicate (Z.to_nat kNumLevels) []) 2 0 0 0 0 false.

Definition set_vs_pointers (ps : list (list Z)) (vs : VersionState) : VersionState :=
  mk_vset (vs_current vs) ps (vs_next_file_number vs) (vs_manifest_file_number vs) (vs_last_sequence vs) (vs_log_number vs) (vs_prev_log_number vs) (descriptor_open vs).

Definition MarkNumberUsed (number : Z) (vs : VersionState) : VersionState :=
  if vs_next_file_number vs <=? number then
    mk_vset (vs_current vs) (vs_pointers vs) (u64 (number + 1)) (vs_manifest_file_number vs) (vs_last_sequence vs) (vs_log_number vs) (vs_prev_log_number vs) (descriptor_open vs)
  else vs.

Section manifest.
Context (user : Comparator) (comparator_name : list Z).

(** * Writing *)

(** The edit as [LogAndApply] completes it. *)
Definition complete_edit (vs : VersionState) (edit : VersionEdit) : option VersionEdit :=
  edit ← (if has_log_number_ edit then guard (vs_log_number vs <= log_number_ edit);; guard (log_number_ edit < vs_next_file_number vs);; Some edit
          else Some (SetLogNumber (vs_log_number vs) edit));
  let edit := if has_prev_log_number_ edit then edit else SetPrevLogNumber (vs_prev_log_number vs) edit in
  Some (SetLastSequence (vs_last_sequence vs) (SetNextFile (vs_next_file_number vs) edit)).

Fixpoint snapshot_pointers (level : Z) (ps : list (list Z)) (edit : VersionEdit) : VersionEdit :=
  match ps with
  | [] => edit
  | k :: ps => snapshot_pointers (level + 1) ps (match k with [] => edit | _ => SetCompactPointer level k edit end)
  end.

Fixpoint snapshot_files (level : Z) (files : list FileMetaData) (edit : VersionEdit) : VersionEdit :=
  match files with
  | [] => edit
  | f :: files => snapshot_files level files (AddFile level (number f) (file_size f) (smallest f) (largest f) edit)
  end.

Fixpoint snapshot_levels (level : Z) (v : Version) (edit : VersionEdit) : VersionEdit :=
  match v with
  | [] => edit
  | files :: v => snapshot_levels (level + 1) v (snapshot_files level files edit)
  end.

Definition snapshot_edit (vs : VersionState) : VersionEdit :=
  snapshot_levels 0 (vs_current vs) (snapshot_pointers 0 (vs_pointers vs) (SetComparatorName comparator_name new_VersionEdit)).

(** The record that [WriteSnapshot] adds. *)
Definition WriteSnapshot (vs : VersionState) : option (list Z) := EncodeTo (snapshot_edit vs) [].

(** [written] is the status of what is done with the manifest: making the file, adding the
    records, Sync and making CURRENT.  The records are those that are in the manifest if it
    is OK.  [next_file] and [last_sequence] are the numbers when the mutex is locked again. *)
Definition LogAndApply (vs : VersionState) (edit : VersionEdit) (written : Status) (next_file last_sequence : Z) : option (Status * list (list Z) * VersionState) :=
  edit ← complete_edit vs edit;
  b ← Apply user edit (new_Builder (vs_current vs) (vs_pointers vs));
  v ← SaveTo user b;
  let vs := set_vs_pointers (compact_pointer_ b) vs in
  snapshot ← (if descriptor_open vs then Some [] else r ← WriteSnapshot vs; Some [r]);
  record ← EncodeTo edit [];
  Some (if ok written then
          (written, snapshot ++ [record], mk_vset v (vs_pointers vs) next_file (vs_manifest_file_number vs) last_sequence (log_number_ edit) (prev_log_number_ edit) true)
        else
          (written, [], mk_vset (vs_current vs) (vs_pointers vs) next_file (vs_manifest_file_number vs) last_sequence (vs_log_number vs) (vs_prev_log_number vs) (descriptor_open vs))).

(** * Reading *)

(** The local variables of [Recover]; a number is there if its [have_] is set. *)
Record Manifest := mk_manifest {
  m_status : Status;
  m_builder : Builder;
  m_log_number : option Z;
  m_prev_log_number : option Z;
  m_next_file : option Z;
  m_last_sequence : option Z;
}.

(** [LogReporter::Corruption]: the first report is kept. *)
Definition report (reports : list Status) (m : Manifest) : Manifest :=
  match reports with
  | s :: _ => if ok (m_status m) then mk_manifest s (m_builder m) (m_log_number m) (m_prev_log_number m) (m_next_file m) (m_last_sequence m) else m
  | [] => m
  end.

(** One round of the loop. *)
Definition manifest_record (record : list Z) (m : Manifest) : option Manifest :=
  '(s, edit) ← DecodeFrom record new_VersionEdit;
  let s := if ok s && has_comparator_ edit && negb (bool_decide (comparator_ edit = comparator_name)) then
             make_status kInvalidArgument (slice_string (comparator_ edit) ++ " does not match existing comparator ")%string (slice_string comparator_name) else s in
  b ← (if ok s then Apply user edit (m_builder m) else Some (m_builder m));
  Some (mk_manifest s b
    (if has_log_number_ edit then Some (log_number_ edit) else m_log_number m)
    (if has_prev_log_number_ edit then Some (prev_log_number_ edit) else m_prev_log_number m)
    (if has_next_file_number_ edit then Some (next_file_number_ edit) else m_next_file m)
    (if has_last_sequence_ edit then Some (last_sequence_ edit) else m_last_sequence m)).

(** The loop: for each record that [ReadRecord] returns, what it reports before, and what it
    reports when there is no further one. *)
Fixpoint manifest_loop (reads : list (list Status * list Z)) (at_end : list Status) (m : Manifest) : option Manifest :=
  match reads with
  | [] => Some (report at_end m)
  | (reports, record) :: reads =>
      let m := report reports m in
      if ok (m_status m) then m ← manifest_record record m; manifest_loop reads at_end m else Some m
  end.

Definition missing_number (m : Manifest) : Status :=
  match m_next_file m, m_log_number m, m_last_sequence m with
  | None, _, _ => Corruption "no meta-nextfile entry in descriptor"
  | _, None, _ => Corruption "no meta-lognumber entry in descriptor"
  | _, _, None => Corruption "no last-sequence-number entry in descriptor"
  | _, _, _ => OK
  end.

(** [Recover] from where the manifest is open: the status, [*save_manifest] and the new
    state.  [ReuseManifest] returns the number of the manifest if it can be used again. *)
Definition VersionSet_Recover (vs : VersionState) (reads : list (list Status * list Z)) (at_end : list Status) (ReuseManifest : option Z) (save_manifest : bool) : option (Status * bool * VersionState) :=
  m ← manifest_loop reads at_end (mk_manifest OK (new_Builder (vs_current vs) (vs_pointers vs)) None None None None);
  let vs := set_vs_pointers (compact_pointer_ (m_builder m)) vs in
  if negb (ok (m_status m)) then Some (m_status m, save_manifest, vs)
  else
    let s := missing_number m in
    let log_number := default 0 (m_log_number m) in
    let prev_log_number := default 0 (m_prev_log_number m) in
    let vs := MarkNumberUsed log_number (MarkNumberUsed prev_log_number vs) in
    if negb (ok s) then Some (s, save_manifest, vs)
    else
      v ← SaveTo user (m_builder m);
      let next_file := default 0 (m_next_file m) in
      let vs := mk_vset v (vs_pointers vs) (u64 (next_file + 1)) (default next_file ReuseManifest) (default 0 (m_last_sequence m)) log_number prev_log_number (match ReuseManifest with Some _ => true | None => descriptor_open vs end) in
      Some (s, match ReuseManifest with Some _ => save_manifest | None => true end, vs).

End manifest.

(** * Versions that differ in the seeks that are left *)

Section spec.
Context {user : Comparator} {laws : ComparatorLaws} (comparator_name : list Z).

(** The same files in some order, but for [allowed_seeks], which is not in the manifest. *)
Definition same_files (l l' : list FileMetaData) : Prop := with_allowed_seeks <$> l ≡ₚ with_allowed_seeks <$> l'.
Definition same_version (v v' : Version) : Prop := Forall2 same_files v v'.

Lemma seeks_numbers (l : list FileMetaData) : number <$> (with_allowed_seeks <$> l) = number <$> l.
Proof. by rewrite <- list_fmap_compose. Qed.

Lemma seeks_twice (l : list FileMetaData) : with_allowed_seeks <$> (with_allowed_seeks <$> l) = with_allowed_seeks <$> l.
Proof. by rewrite <- list_fmap_compose. Qed.

#[global] Instance same_files_equiv : Equivalence same_files.
Proof. unfold same_files. split; [intros l|intros l l' ?|intros l l' l'' ? ?]; [done|by symmetry|by etransitivity]. Qed.

#[global] Instance perm_same_files : subrelation (≡ₚ) same_files.
Proof. intros l l' Hp. unfold same_files. by rewrite Hp. Qed.

#[global] Instance same_numbers : Proper (same_files ==> (≡ₚ)) (fmap number : list FileMetaData -> list Z).
Proof. intros l l' Hp. unfold same_files in Hp. by rewrite <- (seeks_numbers l), <- (seeks_numbers l'), Hp. Qed.

Lemma seeks_edited level edit (l : list FileMetaData) : with_allowed_seeks <$> edited_level level edit l = edited_level level edit (with_allowed_seeks <$> l).
Proof.
  unfold edited_level. rewrite fmap_app, seeks_twice. f_equal. induction l as [|f l IH]; [done|]. rewrite fmap_cons, !filter_cons. change (number (with_allowed_seeks f)) with (number f). by case_decide; rewrite ?fmap_cons, IH.
Qed.

#[global] Instance same_edited level edit : Proper (same_files ==> same_files) (edited_level level edit).
Proof. intros l l' Hp. unfold same_files in *. rewrite !seeks_edited. unfold edited_level. by rewrite Hp. Qed.

Lemma seeks_disjoint (l : list FileMetaData) : disjoint_files (with_allowed_seeks <$> l) <-> disjoint_files l.
Proof.
  unfold disjoint_files. rewrite seeks_numbers. apply and_iff_compat_l. split; intros Hd f g Hf Hg Hne.
  - exact (Hd (with_allowed_seeks f) (with_allowed_seeks g) ltac:(by apply list_elem_of_fmap_2) ltac:(by apply list_elem_of_fmap_2) Hne).
  - apply list_elem_of_fmap in Hf as (f' & -> & Hf), Hg as (g' & -> & Hg). exact (Hd f' g' Hf Hg Hne).
Qed.

#[global] Instance same_disjoint : Proper (same_files ==> iff) disjoint_files.
Proof. intros l l' Hp. unfold same_files in Hp. by rewrite <- (seeks_disjoint l), <- (seeks_disjoint l'), Hp. Qed.

(** * Reading a record *)

(** What the reader has after some records, compared with the version that was current when
    the last of them was written; [used] has the numbers of the files added so far. *)
Record mirrors (used : nat -> list Z) (v : Version) (ps : list (list Z)) (m : Manifest) : Prop := {
  mi_status : m_status m = OK;
  mi_base : base_ (m_builder m) = replicate (Z.to_nat kNumLevels) [];
  mi_builder : builder_ok (m_builder m);
  mi_pointers : compact_pointer_ (m_builder m) = ps;
  mi_seven : length v = Z.to_nat kNumLevels /\ length ps = Z.to_nat kNumLevels;
  mi_levels : forall i st files, levels_ (m_builder m) !! i = Some st -> v !! i = Some files -> same_files (content [] st) files /\ number <$> added_files st ≡ₚ used i;
}.

(** An edit that a record can hold. *)
Record edit_stored (edit : VersionEdit) : Prop := {
  s_encodes : edit_ok edit;
  s_comparator : has_comparator_ edit = true -> comparator_ edit = comparator_name;
  s_pointers : Forall (fun p => in_levels (Z.to_nat kNumLevels) p /\ snd p <> []) (compact_pointers_ edit);
  s_deleted : Forall (in_levels (Z.to_nat kNumLevels)) (deleted_files_ edit);
  s_new : Forall (fun p => in_levels (Z.to_nat kNumLevels) p /\ file_keys (snd p)) (new_files_ edit);
}.

Lemma set_pointers_length l : forall ps, length (set_pointers ps l) = length ps.
Proof. induction l as [|[level k] l IH]; intros ps; [done|]. unfold set_pointers in *. cbn [foldl]. rewrite IH. apply length_insert. Qed.

Lemma read_edit edit : edit_ok edit -> exists record, EncodeTo edit [] = Some record /\ DecodeFrom record new_VersionEdit = Some (OK, edit).
Proof.
  intros He. destruct (edit_decoded edit new_VersionEdit He) as (bytes & E & _ & D). exists bytes. split; [done|]. rewrite D. by destruct edit.
Qed.

Lemma read_edit_step used v ps edit m (v' : Version) : mirrors used v ps m -> edit_stored edit ->
  (forall i, NoDup ((number <$> at_level (Z.of_nat i) (new_files_ edit)) ++ used i)) ->
  length v' = Z.to_nat kNumLevels -> (forall i files files', v !! i = Some files -> v' !! i = Some files' -> same_files (edited_level (Z.of_nat i) edit files) files') ->
  exists record, EncodeTo edit [] = Some record /\ exists b, manifest_record user comparator_name record m = Some (mk_manifest OK b
    (if has_log_number_ edit then Some (log_number_ edit) else m_log_number m) (if has_prev_log_number_ edit then Some (prev_log_number_ edit) else m_prev_log_number m)
    (if has_next_file_number_ edit then Some (next_file_number_ edit) else m_next_file m) (if has_last_sequence_ edit then Some (last_sequence_ edit) else m_last_sequence m)) /\
    forall l p n q, mirrors (fun i => (number <$> at_level (Z.of_nat i) (new_files_ edit)) ++ used i) v' (set_pointers ps (compact_pointers_ edit)) (mk_manifest OK b l p n q).
Proof.
  intros [Hs Hbase Hb Hps [Hv Hl] Hlev] [He Hc Hp Hd Hn] Hfresh Hv' Hsame. destruct (read_edit edit He) as (record & Ee & Ed). exists record. split; [done|]. unfold manifest_record. rewrite Ed. cbn [option_bind mbind].
  assert (Hcmp : ok OK && has_comparator_ edit && negb (bool_decide (comparator_ edit = comparator_name)) = false).
  { cbn. destruct (has_comparator_ edit); [|done]. by rewrite bool_decide_true by auto. }
  rewrite Hcmp. cbn [ok]. assert (Hst : forall i st, levels_ (m_builder m) !! i = Some st -> exists files files', v !! i = Some files /\ v' !! i = Some files').
  { intros i st Ei. apply lookup_lt_Some in Ei. rewrite (b_levels _ Hb) in Ei. destruct (lookup_lt_is_Some_2 v i) as [f1 ?]; [lia|]. destruct (lookup_lt_is_Some_2 v' i) as [f2 ?]; [lia|]. by exists f1, f2. }
  assert (Hadd : forall i st, levels_ (m_builder m) !! i = Some st -> NoDup (number <$> at_level (Z.of_nat i) (new_files_ edit) ++ added_files st)).
  { intros i st Ei. destruct (Hst i st Ei) as (files & _ & Ef & _). rewrite fmap_app, (proj2 (Hlev i st files Ei Ef)). apply Hfresh. }
  destruct (apply_ok (m_builder m) edit Hb) as (b & Eb & Ebb & Ebp & Hbok & Hball); [constructor; [by rewrite Hps, Hl|done|done|done]|]. rewrite Eb. cbn [option_bind mbind]. exists b. split; [done|]. intros l p n q. constructor; cbn [m_status m_builder]; [done|congruence|done|congruence| |].
  { split; [done|]. by rewrite set_pointers_length. }
  intros i st' files' Ei' Ef'. destruct (lookup_lt_is_Some_2 (levels_ (m_builder m)) i) as [st Ei]; [rewrite (b_levels _ Hb), <- (b_levels _ Hbok); by apply lookup_lt_Some in Ei'|]. destruct (Hst i st Ei) as (files & fs & Ef & _).
  destruct (Hball i st Ei) as (a & Ea & Hpa). rewrite Ei' in Ea. injection Ea as ->. destruct (Hlev i st files Ei Ef) as [Hcon Hnum]. split.
  - rewrite <- (Hsame i files files' Ef Ef'), <- Hcon. apply perm_same_files, content_after; [|done].
    intros f Hf Hin. exfalso. specialize (Hadd i st Ei). rewrite fmap_app in Hadd. apply NoDup_app in Hadd as (_ & Hadd & _). apply (Hadd _ Hin). by apply list_elem_of_fmap_2.
  - cbn [added_files]. by rewrite Hpa, fmap_app, seeks_numbers, Hnum.
Qed.

(** * The snapshot *)

Fixpoint pointer_list (level : Z) (ps : list (list Z)) : list (Z * list Z) :=
  match ps with [] => [] | k :: ps => (if decide (k = []) then [] else [(level, k)]) ++ pointer_list (level + 1) ps end.

(** A file as an edit adds it. *)
Definition stored (f : FileMetaData) : FileMetaData := new_FileMetaData (number f) (file_size f) (smallest f) (largest f).

Fixpoint file_list (level : Z) (v : Version) : list (Z * FileMetaData) :=
  match v with [] => [] | files :: v => ((fun f => (level, stored f)) <$> files) ++ file_list (level + 1) v end.

Definition add_to_edit (pointers : list (Z * list Z)) (files : list (Z * FileMetaData)) (e : VersionEdit) : VersionEdit :=
  mk_edit (comparator_ e) (log_number_ e) (prev_log_number_ e) (next_file_number_ e) (last_sequence_ e) (has_comparator_ e) (has_log_number_ e) (has_prev_log_number_ e) (has_next_file_number_ e) (has_last_sequence_ e)
    (compact_pointers_ e ++ pointers) (deleted_files_ e) (new_files_ e ++ files).

Lemma add_nothing e : add_to_edit [] [] e = e.
Proof. destruct e. unfold add_to_edit. cbn. by rewrite !app_nil_r. Qed.

Lemma snapshot_pointers_eq ps : forall level e, snapshot_pointers level ps e = add_to_edit (pointer_list level ps) [] e.
Proof.
  induction ps as [|k ps IH]; intros level e; cbn [snapshot_pointers pointer_list]; [by rewrite add_nothing|]. rewrite IH. destruct k as [|b k]; [by rewrite decide_True|]. rewrite decide_False by done. unfold add_to_edit. cbn. by rewrite <- app_assoc.
Qed.

Lemma snapshot_files_eq level files : forall e, snapshot_files level files e = add_to_edit [] ((fun f => (level, stored f)) <$> files) e.
Proof. induction files as [|f files IH]; intros e; cbn [snapshot_files]; [by rewrite add_nothing|]. rewrite IH. unfold add_to_edit. cbn. by rewrite <- app_assoc. Qed.

Lemma snapshot_levels_eq v : forall level e, snapshot_levels level v e = add_to_edit [] (file_list level v) e.
Proof.
  induction v as [|files v IH]; intros level e; cbn [snapshot_levels file_list]; [by rewrite add_nothing|]. rewrite IH, snapshot_files_eq. unfold add_to_edit. cbn. by rewrite !app_nil_r, <- app_assoc.
Qed.

Lemma snapshot_eq vs : snapshot_edit comparator_name vs = mk_edit comparator_name 0 0 0 0 true false false false false (pointer_list 0 (vs_pointers vs)) [] (file_list 0 (vs_current vs)).
Proof. unfold snapshot_edit. rewrite snapshot_pointers_eq, snapshot_levels_eq. unfold add_to_edit. cbn. by rewrite !app_nil_r. Qed.

Lemma at_level_app {A} level (l l' : list (Z * A)) : at_level level (l ++ l') = at_level level l ++ at_level level l'.
Proof. unfold at_level. by rewrite filter_app, fmap_app. Qed.

Lemma at_level_one {A B} level j (g : B -> A) l : at_level level ((fun f => (j, g f)) <$> l) = if decide (j = level) then g <$> l else [].
Proof. induction l as [|f l IH]; [by case_decide|]. rewrite !fmap_cons, at_level_cons, IH. by case_decide. Qed.

Lemma at_level_files v : forall level i, at_level (level + Z.of_nat i) (file_list level v) = stored <$> default [] (v !! i).
Proof.
  induction v as [|files v IH]; intros level i; [by destruct i|]. cbn [file_list]. rewrite at_level_app, at_level_one. destruct i as [|i].
  - rewrite decide_True by lia. cbn [lookup list_lookup default from_option id]. assert (E : forall v j, level < j -> at_level (level + Z.of_nat 0) (file_list j v) = []); [|rewrite E by lia; by rewrite app_nil_r].
    clear. induction v as [|files v IH]; intros j Hj; [done|]. cbn [file_list]. rewrite at_level_app, at_level_one, decide_False, IH by lia. done.
  - rewrite decide_False by lia. replace (level + Z.of_nat (S i)) with (level + 1 + Z.of_nat i) by lia. apply IH.
Qed.

Lemma set_pointers_list ps : forall pre, set_pointers (pre ++ replicate (length ps) []) (pointer_list (Z.of_nat (length pre)) ps) = pre ++ ps.
Proof.
  induction ps as [|k ps IH]; intros pre; [done|]. transitivity ((pre ++ [k]) ++ ps); [|by rewrite <- app_assoc]. rewrite <- (IH (pre ++ [k])), <- app_assoc. cbn [pointer_list length replicate].
  replace (Z.of_nat (length (pre ++ [k]))) with (Z.of_nat (length pre) + 1) by (rewrite length_app; cbn; lia). case_decide as Ek; [by subst|].
  unfold set_pointers. cbn [foldl app fst snd]. f_equal. by rewrite Nat2Z.id, <- (Nat.add_0_r (length pre)), insert_app_r.
Qed.

Lemma set_pointers_lookup l : forall ps i, (i < length ps)%nat -> Forall (fun p => 0 <= fst p) l -> set_pointers ps l !! i = match last (at_level (Z.of_nat i) l) with Some k => Some k | None => ps !! i end.
Proof.
  induction l as [|[level k] l IH]; intros ps i Hi Hl; [done|]. apply Forall_cons in Hl as [H0 Hl]. cbn [fst] in H0. unfold set_pointers in *. cbn [foldl fst snd]. rewrite IH by (rewrite ?length_insert; done). rewrite at_level_cons. case_decide as Ed.
  - rewrite last_cons. destruct (last (at_level _ l)); [done|]. subst level. rewrite Nat2Z.id. by apply list_lookup_insert_eq.
  - destruct (last (at_level _ l)); [done|]. by rewrite list_lookup_insert_ne by lia.
Qed.

Lemma set_pointers_again ps l : Forall (fun p => 0 <= fst p) l -> set_pointers (set_pointers ps l) l = set_pointers ps l.
Proof.
  intros Hl. apply list_eq. intros i. destruct (decide (i < length ps)%nat) as [Hi|Hi].
  - rewrite !set_pointers_lookup by (rewrite ?set_pointers_length; done). by destruct (last _).
  - by rewrite !lookup_ge_None_2 by (rewrite ?set_pointers_length; lia).
Qed.

(** * Calls of [LogAndApply] *)

(** An edit, and the numbers that others leave while the manifest is written. *)
Record call := mk_call { c_edit : VersionEdit; c_next_file : Z; c_last_sequence : Z }.

Definition log_call (vs : VersionState) (c : call) := LogAndApply user comparator_name vs (c_edit c) OK (c_next_file c) (c_last_sequence c).

Fixpoint log_all (vs : VersionState) (calls : list call) : option (list (list Z) * VersionState) :=
  match calls with
  | [] => Some ([], vs)
  | c :: calls => '(_, records, vs) ← log_call vs c; '(more, vs) ← log_all vs calls; Some (records ++ more, vs)
  end.

(** The state before the last call, or [last] if there is no call. *)
Fixpoint before_last (last vs : VersionState) (calls : list call) : VersionState :=
  match calls with
  | [] => last
  | c :: calls => match log_call vs c with Some (_, _, vs') => before_last vs vs' calls | None => vs end
  end.

(** The edit of a call fits the version it meets, and a record can hold it. *)
Definition call_ok (vs : VersionState) (c : call) : Prop := exists e, complete_edit vs (c_edit c) = Some e /\
  edit_ok e /\ (has_comparator_ e = true -> comparator_ e = comparator_name) /\ edit_fits (vs_current vs) (vs_pointers vs) e.

Fixpoint calls_ok (vs : VersionState) (calls : list call) : Prop :=
  match calls with
  | [] => True
  | c :: calls => call_ok vs c /\ forall s records vs', log_call vs c = Some (s, records, vs') -> calls_ok vs' calls
  end.

(** The files that calls add to a level; none of the numbers is used twice there. *)
Definition news_at (level : Z) (calls : list call) : list FileMetaData := mjoin ((fun c => at_level level (new_files_ (c_edit c))) <$> calls).

Lemma complete_ok vs edit e : complete_edit vs edit = Some e ->
  has_log_number_ e = true /\ has_prev_log_number_ e = true /\ has_next_file_number_ e = true /\ has_last_sequence_ e = true /\
  next_file_number_ e = vs_next_file_number vs /\ last_sequence_ e = vs_last_sequence vs /\ new_files_ e = new_files_ edit.
Proof.
  unfold complete_edit. destruct (has_log_number_ edit) eqn:El.
  - case_guard; [|by destruct (guard (vs_log_number vs <= log_number_ edit))]. case_guard; [|done]. cbn [option_bind mbind]. intros [= <-]. destruct (has_prev_log_number_ edit) eqn:Ep; cbn; rewrite ?El, ?Ep; done.
  - cbn [option_bind mbind]. intros [= <-]. destruct (has_prev_log_number_ (SetLogNumber (vs_log_number vs) edit)) eqn:Ep; cbn in *; rewrite ?Ep; done.
Qed.

(** A state whose versions and pointers a snapshot can hold. *)
Record snapshot_ok (vs : VersionState) : Prop := {
  sn_name : slice_ok comparator_name;
  sn_seven : length (vs_current vs) = Z.to_nat kNumLevels;
  sn_pointers : Forall (fun k => k = [] \/ key_present k) (vs_pointers vs);
  sn_files : Forall (Forall (fun f => file_keys f /\ file_ok (stored f))) (vs_current vs);
}.

Lemma pointer_list_ok ps : forall level, Forall (fun k => k = [] \/ key_present k) ps -> Forall (fun p => level <= fst p < level + Z.of_nat (length ps) /\ key_present (snd p)) (pointer_list level ps).
Proof.
  induction ps as [|k ps IH]; intros level Hk; [constructor|]. apply Forall_cons in Hk as [Hk Hps]. cbn [pointer_list]. apply Forall_app. split.
  - case_decide; [constructor|]. destruct Hk as [|Hk]; [done|]. repeat constructor; cbn; [lia|lia|apply Hk|apply Hk|apply Hk].
  - eapply Forall_impl; [by apply IH|]. cbn. intros p [Hp Hkp]. split; [lia|done].
Qed.

Lemma file_list_ok v : forall level, Forall (Forall (fun f => file_keys f /\ file_ok (stored f))) v -> Forall (fun p => level <= fst p < level + Z.of_nat (length v) /\ file_keys (snd p) /\ file_ok (snd p)) (file_list level v).
Proof.
  induction v as [|files v IH]; intros level Hv; [constructor|]. apply Forall_cons in Hv as [Hf Hv]. cbn [file_list]. apply Forall_app. split.
  - apply Forall_fmap. eapply Forall_impl; [exact Hf|]. intros f [Hk Hok]. cbn. split; [lia|]. split; [|done]. destruct Hk. by constructor.
  - eapply Forall_impl; [by apply IH|]. cbn. intros p [Hp Hrest]. split; [lia|done].
Qed.

Lemma snapshot_stored vs : snapshot_ok vs -> length (vs_pointers vs) = Z.to_nat kNumLevels -> edit_stored (snapshot_edit comparator_name vs).
Proof.
  intros [Hname Hv Hps Hf] Hl. rewrite snapshot_eq. pose proof (pointer_list_ok _ 0 Hps) as Hp. pose proof (file_list_ok _ 0 Hf) as Hn. rewrite Hl in Hp. rewrite Hv in Hn.
  constructor; cbn [has_comparator_ comparator_ compact_pointers_ deleted_files_ new_files_]; [|done| |constructor|].
  - constructor; cbn; try done.
    + constructor.
    + eapply Forall_impl; [exact Hn|]. cbn. intros p (Hin & _ & Hk). split; [unfold LdbVersionEditThms.level_ok, kNumLevels in *; lia|done].
  - eapply Forall_impl; [exact Hp|]. cbn. intros p [Hin [_ Hk]]. split; [unfold in_levels; lia|done].
  - eapply Forall_impl; [exact Hn|]. cbn. intros p (Hin & Hk & _). split; [unfold in_levels; lia|done].
Qed.

Lemma call_stored vs e : length (vs_pointers vs) = Z.to_nat kNumLevels -> edit_ok e -> (has_comparator_ e = true -> comparator_ e = comparator_name) -> edit_fits (vs_current vs) (vs_pointers vs) e -> edit_stored e.
Proof. intros Hl He Hc [_ Hp Hd Hn _ _]. constructor; [done|done| |done|done]. by rewrite Hl in Hp. Qed.

(** The pointers are still such that a snapshot can hold them after an edit that a record can hold. *)
Lemma set_pointers_ok l : forall ps, Forall (fun k => k = [] \/ key_present k) ps -> Forall (fun x => LdbVersionEditThms.level_ok x.1 /\ key_present x.2) l -> Forall (fun k => k = [] \/ key_present k) (set_pointers ps l).
Proof.
  induction l as [|[level k] l IH]; intros ps Hps Hl; [done|]. apply Forall_cons in Hl as [[_ Hk] Hl]. unfold set_pointers in *. cbn [foldl]. apply IH; [|done]. apply Forall_insert; [done|]. by right.
Qed.

(** What a call leaves, if it fits. *)
Lemma log_call_ok vs c : call_ok vs c -> length (vs_pointers vs) = Z.to_nat kNumLevels -> (descriptor_open vs = false -> snapshot_ok vs) ->
  exists e record (v' : Version), complete_edit vs (c_edit c) = Some e /\ edit_stored e /\ EncodeTo e [] = Some record /\
    (exists snapshot, (if descriptor_open vs then snapshot = [] else exists r, EncodeTo (snapshot_edit comparator_name (set_vs_pointers (set_pointers (vs_pointers vs) (compact_pointers_ e)) vs)) [] = Some r /\ snapshot = [r]) /\
      log_call vs c = Some (OK, snapshot ++ [record], mk_vset v' (set_pointers (vs_pointers vs) (compact_pointers_ e)) (c_next_file c) (vs_manifest_file_number vs) (c_last_sequence c) (log_number_ e) (prev_log_number_ e) true)) /\
    length v' = Z.to_nat kNumLevels /\ forall i files, vs_current vs !! i = Some files -> exists files', v' !! i = Some files' /\ files' ≡ₚ edited_level (Z.of_nat i) e files /\ ((0 < i)%nat -> StronglySorted before files').
Proof.
  intros (e & Ee & He & Hc & Hfit) Hl Hsnap. pose proof (call_stored vs e Hl He Hc Hfit) as Hst. destruct (edited_ok (vs_current vs) (vs_pointers vs) e Hfit) as (b & v' & Eb & Ep & Es & Hlen & Hv').
  destruct (read_edit e He) as (record & Er & _). exists e, record, v'. split; [done|]. split; [done|]. split; [done|]. split.
  - unfold log_call, LogAndApply. rewrite Ee. cbn [option_bind mbind]. rewrite Eb. cbn [option_bind mbind]. rewrite Es. cbn [option_bind mbind]. rewrite Ep, Er. unfold WriteSnapshot. set (vs1 := set_vs_pointers (set_pointers (vs_pointers vs) (compact_pointers_ e)) vs). change (descriptor_open vs1) with (descriptor_open vs). destruct (descriptor_open vs).
    + exists []. split; [done|]. done.
    + assert (Hs1 : edit_stored (snapshot_edit comparator_name vs1)).
      { destruct (Hsnap eq_refl) as [Hn H7 Hps Hf]. apply snapshot_stored; [|cbn; by rewrite set_pointers_length]. constructor; [exact Hn|exact H7| |exact Hf]. apply set_pointers_ok; [done|apply He]. }
      destruct (read_edit _ (s_encodes _ Hs1)) as (r & Er1 & _). exists [r]. split; [exists r; split; [exact Er1|done]|]. rewrite Er1. done.
  - split; [rewrite Hlen; apply Hfit|]. intros i files Ei. destruct (Hv' i files Ei) as (files' & ? & ? & ? & _). by exists files'.
Qed.

(** The numbers that the reader has seen last. *)
Definition has_numbers (vs last : VersionState) (m : Manifest) : Prop :=
  m_log_number m = Some (vs_log_number vs) /\ m_prev_log_number m = Some (vs_prev_log_number vs) /\ m_next_file m = Some (vs_next_file_number last) /\ m_last_sequence m = Some (vs_last_sequence last).

Definition sorted_version (v : Version) : Prop := forall i files, (0 < i)%nat -> v !! i = Some files -> StronglySorted before files.

Definition without_reports (records : list (list Z)) : list (list Status * list Z) := (fun r => ([], r)) <$> records.

Lemma mirrors_ext used used' v ps m : (forall i, used i = used' i) -> mirrors used v ps m -> mirrors used' v ps m.
Proof. intros Hu [H1 H2 H3 H4 H5 H6]. constructor; try done. intros i st files Es Ef. rewrite <- Hu. by apply H6. Qed.

(** The record of a call, read after the records before it. *)
Lemma read_call used vs c ps m e record (v' : Version) : mirrors used (vs_current vs) ps m -> complete_edit vs (c_edit c) = Some e -> edit_stored e -> EncodeTo e [] = Some record ->
  length v' = Z.to_nat kNumLevels -> (forall i files, vs_current vs !! i = Some files -> exists files', v' !! i = Some files' /\ files' ≡ₚ edited_level (Z.of_nat i) e files /\ ((0 < i)%nat -> StronglySorted before files')) ->
  (forall i, NoDup ((number <$> at_level (Z.of_nat i) (new_files_ (c_edit c))) ++ used i)) ->
  exists m', manifest_record user comparator_name record m = Some m' /\
    mirrors (fun i => (number <$> at_level (Z.of_nat i) (new_files_ (c_edit c))) ++ used i) v' (set_pointers ps (compact_pointers_ e)) m' /\
    m_log_number m' = Some (log_number_ e) /\ m_prev_log_number m' = Some (prev_log_number_ e) /\ m_next_file m' = Some (vs_next_file_number vs) /\ m_last_sequence m' = Some (vs_last_sequence vs) /\ sorted_version v'.
Proof.
  intros Hm Ee Hst Er Hlen Hv' Hfresh. destruct (complete_ok vs _ e Ee) as (E1 & E2 & E3 & E4 & E5 & E6 & E7). rewrite <- E7 in *. destruct (read_edit_step used (vs_current vs) ps e m v' Hm Hst Hfresh Hlen) as (record' & Er' & b & Em & Hmir).
  { intros i files files' Ef Ef'. destruct (Hv' i files Ef) as (fs & Efs & Hp & _). rewrite Ef' in Efs. injection Efs as <-. by rewrite Hp. }
  rewrite Er in Er'. injection Er' as <-. rewrite E1, E2, E3, E4, E5, E6 in Em. eexists. split; [exact Em|]. split; [apply Hmir|]. cbn. do 4 (split; [done|]).
  intros i files' Hi Ei. destruct (lookup_lt_is_Some_2 (vs_current vs) i) as [files Ef]; [rewrite (proj1 (mi_seven _ _ _ _ Hm)), <- Hlen; by apply lookup_lt_Some in Ei|]. destruct (Hv' i files Ef) as (fs & Efs & _ & Hs). rewrite Ei in Efs. injection Efs as <-. by apply Hs.
Qed.

Lemma news_at_cons level c calls : news_at level (c :: calls) = at_level level (new_files_ (c_edit c)) ++ news_at level calls.
Proof. done. Qed.

(** The records of calls after the first one. *)
Lemma read_calls calls : forall used vs last m, descriptor_open vs = true -> mirrors used (vs_current vs) (vs_pointers vs) m -> sorted_version (vs_current vs) -> has_numbers vs last m -> calls_ok vs calls ->
  (forall i, NoDup ((number <$> news_at (Z.of_nat i) calls) ++ used i)) ->
  exists records vs', log_all vs calls = Some (records, vs') /\ exists used' m', manifest_loop user comparator_name (without_reports records) [] m = Some m' /\
    mirrors used' (vs_current vs') (vs_pointers vs') m' /\ sorted_version (vs_current vs') /\ has_numbers vs' (before_last last vs calls) m' /\ forall i, NoDup (used' i).
Proof.
  induction calls as [|c calls IH]; intros used vs last m Hopen Hm Hso Hnum Hok Hfresh; [exists [], vs; split; [done|]; exists used, m; split; [done|]; split; [done|]; by split|]. destruct Hok as [Hc Hok].
  destruct (log_call_ok vs c Hc) as (e & record & v' & Ee & Hst & Er & (snapshot & Hsnap & Elog) & Hlen & Hv'); [apply Hm|by rewrite Hopen|]. rewrite Hopen in Hsnap. subst snapshot. set (vs' := mk_vset _ _ _ _ _ _ _ _) in Elog.
  assert (Hfr : forall i, NoDup ((number <$> news_at (Z.of_nat i) calls) ++ (number <$> at_level (Z.of_nat i) (new_files_ (c_edit c))) ++ used i)).
  { intros i. specialize (Hfresh i). rewrite news_at_cons, fmap_app, <- app_assoc in Hfresh. eapply NoDup_Permutation_proper; [|exact Hfresh]. rewrite !app_assoc. by rewrite (Permutation_app_comm (number <$> news_at _ _)). }
  destruct (read_call used vs c (vs_pointers vs) m e record v' Hm Ee Hst Er Hlen Hv') as (m1 & Em & Hm1 & N1 & N2 & N3 & N4 & Hso'); [intros i; specialize (Hfr i); by apply NoDup_app in Hfr as (_ & _ & ?)|].
  destruct (IH _ vs' vs m1 eq_refl Hm1 Hso') as (records & vs'' & El & used' & m' & Eloop & Hrest); [by repeat split|by apply (Hok _ _ _ Elog)|exact Hfr|].
  exists (record :: records), vs''. cbn [log_all]. rewrite Elog. cbn [option_bind mbind]. rewrite El. split; [done|]. exists used', m'. split; [|cbn [before_last]; by rewrite Elog].
  cbn [without_reports fmap list_fmap manifest_loop report]. rewrite (mi_status _ _ _ _ Hm). cbn [ok]. rewrite Em. cbn [option_bind mbind]. exact Eloop.
Qed.

(** * Recovery *)

Definition no_records (vs : VersionState) : Manifest := mk_manifest OK (new_Builder (vs_current vs) (vs_pointers vs)) None None None None.

Lemma nothing_read : mirrors (fun _ => []) (replicate (Z.to_nat kNumLevels) []) (replicate (Z.to_nat kNumLevels) []) (no_records new_VersionState).
Proof.
  constructor; [done|done|apply new_builder_ok|done|done|]. intros i st files ->%new_builder_level Ef. apply lookup_replicate_1 in Ef as [-> _]. by rewrite new_builder_content.
Qed.

Lemma stored_numbers (l : list FileMetaData) : number <$> (stored <$> l) = number <$> l.
Proof. by rewrite <- list_fmap_compose. Qed.

Lemma seeks_stored (l : list FileMetaData) : same_files (with_allowed_seeks <$> (stored <$> l)) l.
Proof. unfold same_files. by rewrite seeks_twice, <- list_fmap_compose. Qed.

(** The snapshot alone gives the version and the pointers. *)
Lemma read_snapshot vs record : snapshot_ok vs -> length (vs_pointers vs) = Z.to_nat kNumLevels -> (forall files, files ∈ vs_current vs -> NoDup (number <$> files)) ->
  EncodeTo (snapshot_edit comparator_name vs) [] = Some record ->
  exists m, manifest_record user comparator_name record (no_records new_VersionState) = Some m /\ mirrors (fun i => number <$> default [] (vs_current vs !! i)) (vs_current vs) (vs_pointers vs) m.
Proof.
  intros Hsn Hl Hnd Er. pose proof (snapshot_stored vs Hsn Hl) as Hst. assert (Hat : forall i, at_level (Z.of_nat i) (new_files_ (snapshot_edit comparator_name vs)) = stored <$> default [] (vs_current vs !! i)).
  { intros i. rewrite snapshot_eq. cbn [new_files_]. by rewrite <- (at_level_files _ 0), Z.add_0_l. }
  destruct (read_edit_step _ _ _ _ _ (vs_current vs) nothing_read Hst) as (record' & Er' & b & Em & Hm).
  - intros i. rewrite Hat, stored_numbers, app_nil_r. destruct (vs_current vs !! i) as [files|] eqn:E; cbn; [|constructor]. apply Hnd. by apply list_elem_of_lookup_2 in E.
  - apply Hsn.
  - intros i files files' Ef Ef'. apply lookup_replicate_1 in Ef as [-> _]. unfold edited_level. rewrite Hat, Ef'. cbn [default from_option id filter_nil app]. rewrite filter_nil. apply seeks_stored.
  - rewrite Er in Er'. injection Er' as <-. eexists. split; [exact Em|]. eapply mirrors_ext; [|rewrite snapshot_eq in Hm; cbn [compact_pointers_] in Hm]; [|replace (vs_pointers vs) with (set_pointers (replicate (Z.to_nat kNumLevels) []) (pointer_list 0 (vs_pointers vs))) at 1; [apply Hm|]].
    + intros i. cbn beta. pose proof (Hat i) as Hi. rewrite snapshot_eq in Hi. by rewrite Hi, stored_numbers, app_nil_r.
    + rewrite <- Hl. exact (set_pointers_list (vs_pointers vs) []).
Qed.

(** What the builder has at the end makes the version. *)
Lemma recovered used v ps m : mirrors used v ps m -> sorted_version v -> (forall i, NoDup (used i)) -> exists v', SaveTo user (m_builder m) = Some v' /\ same_version v' v.
Proof.
  intros [_ Hbase Hb _ [Hv _] Hlev] Hso Hnd. destruct (save_ok (m_builder m) Hb) as (v' & Es & Hlen & Hall); [rewrite Hbase; apply length_replicate| |].
  - rewrite Hbase. intros i base st Ebase Est. apply lookup_replicate_1 in Ebase as [-> Hi]. split; [constructor|]. intros H0. split; [constructor|]. destruct (lookup_lt_is_Some_2 v i) as [files Ef]; [lia|]. destruct (Hlev i st files Est Ef) as [Hcon Hnum].
    rewrite Hcon. apply sorted_disjoint; [|by apply (Hso i)]. rewrite <- Hcon. specialize (Hnd i). rewrite <- Hnum in Hnd. eapply sublist_NoDup; [exact Hnd|]. apply fmap_sublist. unfold content. cbn [app]. apply sublist_filter.
  - exists v'. split; [done|]. apply Forall2_same_length_lookup. split; [congruence|]. intros i files' files Ef' Ef. destruct (lookup_lt_is_Some_2 (levels_ (m_builder m)) i) as [st Est]; [rewrite (b_levels _ Hb), <- Hv; by apply lookup_lt_Some in Ef|].
    destruct (Hall i [] st) as (fs & Efs & Hp & _); [rewrite Hbase; apply lookup_replicate_2; rewrite <- Hv; by apply lookup_lt_Some in Ef|done|]. pose proof (eq_trans (eq_sym Ef') Efs) as [= <-]. rewrite Hp. by apply (Hlev i st files).
Qed.

(** The first call, that writes a snapshot too. *)
Lemma read_first vs c : descriptor_open vs = false -> length (vs_pointers vs) = Z.to_nat kNumLevels -> snapshot_ok vs -> call_ok vs c ->
  (forall i, NoDup ((number <$> at_level (Z.of_nat i) (new_files_ (c_edit c))) ++ (number <$> default [] (vs_current vs !! i)))) ->
  exists r record vs' m, log_call vs c = Some (OK, [r; record], vs') /\ descriptor_open vs' = true /\
    (forall reads, manifest_loop user comparator_name (([], r) :: ([], record) :: reads) [] (no_records new_VersionState) = manifest_loop user comparator_name reads [] m) /\
    mirrors (fun i => (number <$> at_level (Z.of_nat i) (new_files_ (c_edit c))) ++ (number <$> default [] (vs_current vs !! i))) (vs_current vs') (vs_pointers vs') m /\ sorted_version (vs_current vs') /\ has_numbers vs' vs m.
Proof.
  intros Hopen Hl Hsn Hc Hfresh. destruct (log_call_ok vs c Hc Hl (fun _ => Hsn)) as (e & record & v' & Ee & Hst & Er & (snapshot & Hsnap & Elog) & Hlen & Hv'). rewrite Hopen in Hsnap. destruct Hsnap as (r & Esr & ->).
  set (ps := set_pointers (vs_pointers vs) (compact_pointers_ e)) in *. assert (Hps : length ps = Z.to_nat kNumLevels) by (unfold ps; by rewrite set_pointers_length).
  assert (Hsn1 : snapshot_ok (set_vs_pointers ps vs)).
  { destruct Hsn as [Hn H7 Hp Hf]. constructor; [exact Hn|exact H7| |exact Hf]. apply set_pointers_ok; [done|]. apply (s_encodes _ Hst). }
  destruct (read_snapshot (set_vs_pointers ps vs) r Hsn1 Hps) as (m1 & Em1 & Hm1); [|exact Esr|].
  { intros files Hin. apply list_elem_of_lookup in Hin as [i Ei]. specialize (Hfresh i). assert (Ei1 : vs_current vs !! i = Some files) by exact Ei. rewrite Ei1 in Hfresh. by apply NoDup_app in Hfresh as (_ & _ & ?). }
  destruct (read_call _ vs c ps m1 e record v' Hm1 Ee Hst Er Hlen Hv' Hfresh) as (m2 & Em2 & Hm2 & N1 & N2 & N3 & N4 & Hso). eexists r, record, _, m2. split; [exact Elog|]. split; [done|]. split; [|split; [|split; [exact Hso|by repeat split]]].
  - intros reads. cbn [manifest_loop report]. change (m_status (no_records new_VersionState)) with OK. cbn [ok]. rewrite Em1. cbn [option_bind mbind]. rewrite (mi_status _ _ _ _ Hm1). cbn [ok]. rewrite Em2. done.
  - assert (Eps : set_pointers ps (compact_pointers_ e) = ps); [|rewrite Eps in Hm2; exact Hm2]. apply set_pointers_again. eapply Forall_impl; [apply (s_pointers _ Hst)|]. intros p [[Hp _] _]. exact Hp.
Qed.

End spec.

(** C8: the first call of [LogAndApply] starts a manifest with a snapshot, and each call adds its
    edit.  If edits fit the versions they meet and no file number is used twice in a level,
    the calls succeed, and after a crash [Recover] gets from the records back what was
    current: the same files in every level, the compaction pointers, the numbers of the logs,
    and the last sequence and file numbers as they were when the last call started. *)
Theorem manifest_recovery {user : Comparator} {laws : ComparatorLaws} comparator_name vs calls reuse save :
  descriptor_open vs = false -> calls <> [] -> length (vs_pointers vs) = Z.to_nat kNumLevels -> snapshot_ok comparator_name vs -> calls_ok comparator_name vs calls ->
  (forall i, NoDup (number <$> news_at (Z.of_nat i) calls ++ default [] (vs_current vs !! i))) ->
  exists records vs', log_all comparator_name vs calls = Some (records, vs') /\
  exists save' vs'', VersionSet_Recover user comparator_name new_VersionState (without_reports records) [] reuse save = Some (OK, save', vs'') /\
    same_version (vs_current vs'') (vs_current vs') /\ vs_pointers vs'' = vs_pointers vs' /\ vs_log_number vs'' = vs_log_number vs' /\ vs_prev_log_number vs'' = vs_prev_log_number vs' /\
    vs_last_sequence vs'' = vs_last_sequence (before_last comparator_name vs vs calls) /\ vs_next_file_number vs'' = u64 (vs_next_file_number (before_last comparator_name vs vs calls) + 1).
Proof.
  intros Hopen Hne Hl Hsn Hok Hfresh. destruct calls as [|c calls]; [done|]. destruct Hok as [Hc Hok].
  destruct (read_first comparator_name vs c Hopen Hl Hsn Hc) as (r & record & vs1 & m & Elog & Hopen1 & Eloop & Hm & Hso & Hnum).
  { intros i. specialize (Hfresh i). rewrite news_at_cons, <- app_assoc, fmap_app in Hfresh. apply NoDup_app in Hfresh as (H1 & H2 & H3). rewrite fmap_app in H2, H3. apply NoDup_app in H3 as (_ & _ & H3). apply NoDup_app. split; [done|]. split; [|done]. intros n Hn Hin. apply (H2 n Hn), elem_of_app. by right. }
  destruct (read_calls comparator_name calls _ vs1 vs m Hopen1 Hm Hso Hnum) as (records & vs' & El & used' & m' & Eloop' & Hm' & Hso' & (N1 & N2 & N3 & N4) & Hnd); [by apply (Hok _ _ _ Elog)| |].
  { intros i. specialize (Hfresh i). rewrite news_at_cons, !fmap_app in Hfresh. eapply NoDup_Permutation_proper; [|exact Hfresh]. rewrite !app_assoc. apply Permutation_app; [apply Permutation_app_comm|done]. }
  exists (r :: record :: records), vs'. cbn [log_all]. rewrite Elog. cbn [option_bind mbind]. rewrite El. split; [done|]. destruct (recovered used' _ _ m' Hm' Hso' Hnd) as (v'' & Es & Hsame).
  unfold VersionSet_Recover. change (mk_manifest OK _ None None None None) with (no_records new_VersionState). cbn [without_reports fmap list_fmap]. rewrite Eloop. fold (without_reports records). rewrite Eloop'. cbn [option_bind mbind].
  rewrite (mi_status _ _ _ _ Hm'). unfold missing_number. rewrite N1, N3, N4. cbn [ok negb]. rewrite Es. cbn [option_bind mbind]. do 2 eexists. split; [done|]. cbn [vs_current vs_pointers vs_log_number vs_prev_log_number vs_last_sequence vs_next_file_number].
  rewrite N2. cbn [before_last]. rewrite Elog. repeat split; try done. pose proof (mi_pointers _ _ _ _ Hm') as Hp. unfold MarkNumberUsed. repeat case_match; exact Hp.
Qed.

(** * An example: a file is added, and another is moved a level down *)

Definition example_name : list Z := [108; 101; 118; 101; 108].
Definition example_vs : VersionState := mk_vset example_tree [[]; version_key (mk_version [97] 1 kTypeValue []); []; []; []; []; []] 8 7 11 3 0 false.

Definition example_move : VersionEdit :=
  AddFile 2 2 64 (smallest file2) (largest file2) (DeleteFile 1 2 (SetCompactPointer 1 (largest file2) (SetLogNumber 5 new_VersionEdit))).
Definition example_calls : list call := [mk_call (flush_edit 2 file6) 9 11; mk_call example_move 10 12].

Lemma present k : forallb (fun b => (0 <=? b) && (b <? 256)) k && (size k <? 2 ^ 32) && negb (bool_decide (k = [])) = true -> key_present k.
Proof.
  intros Hk. apply andb_true_iff in Hk as [Hk Hne]. apply andb_true_iff in Hk as [Hk Hs]. apply negb_true_iff, bool_decide_eq_false in Hne. split; [|done]. split; [|by apply Z.ltb_lt].
  apply Forall_forall. intros b Hb. rewrite forallb_forall in Hk. specialize (Hk b (proj1 (list_elem_of_In _ _) Hb)). apply andb_true_iff in Hk as [H1 H2]. lia.
Qed.

Lemma example_stored : file_ok (stored file6) /\ file_ok (stored file5) /\ file_ok (stored file4) /\ file_ok (stored file2).
Proof. split; [|split; [|split]]; (split; [done|]; do 2 (split; [unfold u64_ok; cbn; lia|]); split; by apply present). Qed.

Lemma example_snapshot : snapshot_ok (user := bytewise) example_name example_vs.
Proof.
  destruct example_stored as (_ & S5 & S4 & S2), example_keys as (K5 & K4 & K2 & _). constructor; [by apply (present example_name)|done| |].
  - repeat (apply Forall_cons; split); [..|constructor]; first [by left|right; by apply present].
  - repeat first [apply Forall_nil|apply Forall_cons; split]; done.
Qed.

Lemma fits_same v ps e e' : compact_pointers_ e = compact_pointers_ e' -> deleted_files_ e = deleted_files_ e' -> new_files_ e = new_files_ e' -> edit_fits (user := bytewise) v ps e -> edit_fits (user := bytewise) v ps e'.
Proof.
  destruct e, e'. cbn. intros -> -> -> [H1 H2 H3 H4 H5 H6]. by constructor.
Qed.

Lemma example_encodes e : Forall (fun x => LdbVersionEditThms.level_ok x.1 /\ key_present x.2) (compact_pointers_ e) -> Forall (fun x => LdbVersionEditThms.level_ok x.1 /\ u64_ok x.2) (deleted_files_ e) ->
  StronglySorted (fun x y => pair_ltb x y = true) (deleted_files_ e) -> Forall (fun x => LdbVersionEditThms.level_ok x.1 /\ file_ok x.2) (new_files_ e) ->
  has_comparator_ e = false -> comparator_ e = [] -> u64_ok (log_number_ e) -> u64_ok (prev_log_number_ e) -> u64_ok (next_file_number_ e) -> u64_ok (last_sequence_ e) ->
  has_log_number_ e = true -> has_prev_log_number_ e = true -> has_next_file_number_ e = true -> has_last_sequence_ e = true -> edit_ok e.
Proof. intros. constructor; try done; match goal with H : _ = _ |- context [if ?b then _ else _] => idtac end; repeat match goal with H : ?x = _ |- context [?x] => rewrite H end; done. Qed.

Lemma example_first : call_ok (user := bytewise) example_name example_vs (mk_call (flush_edit 2 file6) 9 11).
Proof.
  eexists. split; [reflexivity|]. split; [|split; [done|]].
  - apply example_encodes; try reflexivity; try (unfold u64_ok; cbn; lia); [by apply Forall_nil|by apply Forall_nil|by apply SSorted_nil|]. apply Forall_singleton. split; [unfold LdbVersionEditThms.level_ok, kNumLevels; cbn; lia|apply example_stored].
  - apply (fits_same _ _ (flush_edit 2 file6)); try reflexivity. apply (flush_fits (user := bytewise) example_entries (read_table (user := bytewise) example_entries) example_tree file6 2 example_tree_ok example_newer); [lia|].
    intros _ i files Hi Ef. destruct i as [|[|[|i]]]; [..|lia]; injection Ef as <-; by vm_compute.
Qed.

Definition example_vs1 : VersionState := mk_vset [[file4; file5]; [file2]; [flushed file6]; []; []; []; []] (vs_pointers example_vs) 9 7 11 3 0 true.

Lemma example_logged : exists records, log_call (user := bytewise) example_name example_vs (mk_call (flush_edit 2 file6) 9 11) = Some (OK, records, example_vs1).
Proof. eexists. vm_compute. reflexivity. Qed.

Lemma example_second : call_ok (user := bytewise) example_name example_vs1 (mk_call example_move 10 12).
Proof.
  destruct example_keys as (K5 & K4 & K2 & K6). assert (K6' : file_keys (user := bytewise) (flushed file6)) by (destruct K6; by constructor). assert (K2' : file_keys (user := bytewise) (stored file2)) by (destruct K2; by constructor).
  eexists. split; [reflexivity|]. split; [|split; [done|]].
  - apply example_encodes; try reflexivity; try (unfold u64_ok; cbn; lia).
    + apply Forall_singleton. split; [unfold LdbVersionEditThms.level_ok, kNumLevels; cbn; lia|by apply present].
    + apply Forall_singleton. split; [unfold LdbVersionEditThms.level_ok, kNumLevels; cbn; lia|unfold u64_ok; cbn; lia].
    + repeat constructor.
    + apply Forall_singleton. split; [unfold LdbVersionEditThms.level_ok, kNumLevels; cbn; lia|apply example_stored].
  - constructor; cbn [compact_pointers_ deleted_files_ new_files_ vs_pointers example_vs1].
    + done.
    + apply Forall_singleton. split; [unfold in_levels; cbn; lia|done].
    + apply Forall_singleton. unfold in_levels, kNumLevels. cbn. lia.
    + apply Forall_singleton. split; [unfold in_levels, kNumLevels; cbn; lia|exact K2'].
    + intros level. change (NoDup (number <$> at_level level [(2, stored file2)])). rewrite at_level_cons. case_decide; [apply NoDup_singleton|constructor].
    + intros i files Ef. destruct i as [|[|[|[|[|[|[|i]]]]]]]; try done; injection Ef as <-; (split; [repeat first [apply Forall_nil|apply Forall_cons; split]; done|]); intros Hi; try lia; (split; [repeat constructor|]);
        match goal with |- disjoint_files ?l => let l' := eval vm_compute in l in change (disjoint_files l') end; (split; [cbn|]); try (by constructor); try (intros f g Hf; by apply not_elem_of_nil in Hf).
      * repeat constructor; set_solver.
      * intros f g Hf Hg Hne. each_member; cbn in Hne; try done; first [left; by vm_compute|right; by vm_compute].
Qed.

Lemma manifest_recovery_witness : exists records vs', log_all (user := bytewise) example_name example_vs example_calls = Some (records, vs') /\ length records = 3%nat /\
  exists save' vs'', VersionSet_Recover bytewise example_name new_VersionState (without_reports records) [] None false = Some (OK, save', vs'') /\ same_version (vs_current vs'') (vs_current vs') /\
  vs_log_number vs'' = 5 /\ vs_last_sequence vs'' = 11 /\ vs_next_file_number vs'' = 10 /\ numbers (vs_current vs'') = [[4; 5]; []; [2; 6]; []; []; []; []].
Proof.
  destruct (manifest_recovery (user := bytewise) example_name example_vs example_calls None false) as (records & vs' & El & save' & vs'' & Er & Hsame & _ & Hlog & _ & Hlast & Hnext).
  - reflexivity.
  - discriminate.
  - reflexivity.
  - exact example_snapshot.
  - split; [exact example_first|]. intros st rs vs1 E. destruct example_logged as [rs' E']. cbn [c_edit c_next_file c_last_sequence] in *. rewrite E' in E. injection E as <- <- <-. split; [exact example_second|done].
  - intros i. destruct i as [|[|[|[|[|[|[|i]]]]]]]; try (cbn; repeat constructor; set_solver). change (news_at _ _) with (at_level (Z.of_nat (7 + i)) [(2, stored file6)] ++ at_level (Z.of_nat (7 + i)) [(2, stored file2)] ++ []).
    rewrite !at_level_cons, !decide_False by lia. constructor.
  - exists records, vs'. split; [exact El|]. assert (E : (fun x => (length x.1, vs_log_number x.2, VersionSet_Recover bytewise example_name new_VersionState (without_reports x.1) [] None false ≫= fun y => Some (numbers (vs_current y.2)))) <$> log_all (user := bytewise) example_name example_vs example_calls =
      Some (3%nat, 5, Some [[4; 5]; []; [2; 6]; []; []; []; []])) by (vm_compute; reflexivity).
    rewrite El in E. cbv beta iota delta [fmap option_fmap option_map fst snd] in E. injection E as E1 E2 E3. split; [exact E1|]. exists save', vs''. split; [exact Er|]. split; [exact Hsame|]. rewrite Er in E3. cbn [option_bind mbind] in E3. injection E3 as E3. rewrite Hlog, E2. split; [done|]. split; [rewrite Hlast; vm_compute; reflexivity|]. split; [rewrite Hnext; vm_compute; reflexivity|exact E3].
Defined.
