(* ===== verification/LdbWriteBatch.v ===== *)
(** LevelDB's db/write_batch.cc and db/write_batch_internal.h: a batch of updates as the
    bytes that go to the log, and its application to a table in memory.

    A batch is its [rep_].  [None] stands for a failed assertion, an access outside of it or
    an overflow of an [int]. *)
From stdpp Require Import base gmap list strings numbers option.
From Stdlib Require Import ZArith Lia.
From S2P Require Import Prelude Cmem LdbCoding LdbEnv LdbComparator LdbFormat LdbSkipList LdbMemTable.

Definition kHeader : Z := 12.

Definition Clear : list Z := repeat 0 (Z.to_nat kHeader).
Definition new_WriteBatch : list Z := Clear.
Definition ApproximateSize (rep : list Z) : Z := size rep.

Definition int_sum (a b : Z) : option Z := if (-2 ^ 31 <=? a + b) && (a + b <? 2 ^ 31) then Some (a + b) else None.

(** [n] bytes of the batch are overwritten. *)
Definition overwrite (rep : list Z) (pos : nat) (l : list Z) : option (list Z) :=
  if (pos + length l <=? length rep)%nat then Some (take pos rep ++ l ++ drop (pos + length l) rep) else None.

Definition Count (b : list Z) : option Z := option_map s32 (DecodeFixed32 (drop 8 b)).
Definition SetCount (b : list Z) (n : Z) : option (list Z) := overwrite b 8 (EncodeFixed32 (u32 n)).
Definition Sequence (b : list Z) : option Z := DecodeFixed64 b.
Definition SetSequence (b : list Z) (seq : Z) : option (list Z) := overwrite b 0 (EncodeFixed64 seq).
Definition Contents (b : list Z) : list Z := b.
Definition ByteSize (b : list Z) : Z := size b.
Definition SetContents (contents : list Z) : option (list Z) := if kHeader <=? size contents then Some contents else None.

(** [SetCount(this, Count(this) + n)] *)
Definition add_count (b : list Z) (n : Z) : option (list Z) :=
  match Count b with
  | Some c => match int_sum c n with Some c => SetCount b c | None => None end
  | None => None
  end.

Definition Put (b key value : list Z) : option (list Z) :=
  match add_count b 1 with
  | Some b => Some (PutLengthPrefixedSlice (PutLengthPrefixedSlice (b ++ [type_val kTypeValue]) key) value)
  | None => None
  end.

Definition Delete (b key : list Z) : option (list Z) :=
  match add_count b 1 with
  | Some b => Some (PutLengthPrefixedSlice (b ++ [type_val kTypeDeletion]) key)
  | None => None
  end.

Definition Append (dst src : list Z) : option (list Z) :=
  match Count src with
  | Some n =>
      match add_count dst n with
      | Some dst => if kHeader <=? size src then Some (dst ++ drop (Z.to_nat kHeader) src) else None
      | None => None
      end
  | None => None
  end.

(** * Iterate *)

Section iterate.
Context {T : Type} (handler_Put : list Z -> list Z -> SM T unit) (handler_Delete : list Z -> SM T unit).

(** One round of the loop; the result of the last is a status if a record is bad, or the
    number of records. *)
Definition iterate_step (st : list Z * Z) : SM T ((list Z * Z) + (Status + Z)) :=
  let (input, found) := st in
  match input with
  | [] => ret (inr (inr found))
  | tag :: input =>
      let* found := must (int_sum found 1) in
      if tag =? type_val kTypeValue then
        match GetLengthPrefixedSlice input with
        | Some (key, input) =>
            match GetLengthPrefixedSlice input with
            | Some (value, input) => handler_Put key value;; ret (inl (input, found))
            | None => ret (inr (inl (Corruption "bad WriteBatch Put")))
            end
        | None => ret (inr (inl (Corruption "bad WriteBatch Put")))
        end
      else if tag =? type_val kTypeDeletion then
        match GetLengthPrefixedSlice input with
        | Some (key, input) => handler_Delete key;; ret (inl (input, found))
        | None => ret (inr (inl (Corruption "bad WriteBatch Delete")))
        end
      else ret (inr (inl (Corruption "unknown WriteBatch tag")))
  end.

(** The loop from wherever it stands, and what follows; every record takes a byte at least. *)
Definition iterate_rest (rep : list Z) (st : list Z * Z) : SM T Status :=
  let* r := loop (S (length (fst st))) iterate_step st in
  match r with
  | inl s => ret s
  | inr found =>
      let* c := must (Count rep) in
      if negb (found =? c) then ret (Corruption "WriteBatch has wrong count") else ret OK
  end.

Definition Iterate (rep : list Z) : SM T Status :=
  if size rep <? kHeader then ret (Corruption "malformed WriteBatch (too small)")
  else iterate_rest rep (drop (Z.to_nat kHeader) rep, 0).

End iterate.

(** * MemTableInserter *)

Section inserter.
Context (user_comparator : Comparator).

Record MemTableInserter := mk_inserter { sequence_ : Z; mem_ : MemTable }.

Definition on_mem {A} (p : SM MemTable A) : SM MemTableInserter A := fun i w =>
  match p (mem_ i) w with
  | Ok a m w => Ok a (mk_inserter (sequence_ i) m) w
  | Err m w => Err (mk_inserter (sequence_ i) m) w
  | UB => UB
  | NoFuel => NoFuel
  end.

Definition next_sequence : SM MemTableInserter unit := modify (fun i => mk_inserter (u64 (sequence_ i + 1)) (mem_ i)).

Definition inserter_Put (key value : list Z) : SM MemTableInserter unit :=
  let* i := get in on_mem (Add user_comparator (sequence_ i) kTypeValue key value);; next_sequence.

Definition inserter_Delete (key : list Z) : SM MemTableInserter unit :=
  let* i := get in on_mem (Add user_comparator (sequence_ i) kTypeDeletion key []);; next_sequence.

(** A program of an inserter that starts at the number [seq]. *)
Definition with_inserter {A} (p : SM MemTableInserter A) (seq : Z) : SM MemTable (A * Z) := fun m w =>
  match p (mk_inserter seq m) w with
  | Ok a i w => Ok (a, sequence_ i) (mem_ i) w
  | Err i w => Err (mem_ i) w
  | UB => UB
  | NoFuel => NoFuel
  end.

Definition InsertInto (b : list Z) : SM MemTable Status :=
  let* seq := must (Sequence b) in
  let* (s, _) := with_inserter (Iterate inserter_Put inserter_Delete b) seq in
  ret s.

(** [InsertInto] in the middle of its loop: the inserter's number, and the loop's variables. *)
Definition insertion : Type := Z * (list Z * Z).

Definition insert_start (b : list Z) : option insertion :=
  if size b <? kHeader then None
  else match Sequence b with Some seq => Some (seq, (drop (Z.to_nat kHeader) b, 0)) | None => None end.

(** One round of the loop; [None]: there is no other record. *)
Definition insert_record (x : insertion) : SM MemTable (option insertion) :=
  let (seq, st) := x in
  let* (r, seq) := with_inserter (iterate_step inserter_Put inserter_Delete st) seq in
  ret (match r with inl st => Some (seq, st) | inr _ => None end).

(** The rest of the loop. *)
Definition insert_rest (b : list Z) (x : insertion) : SM MemTable Status :=
  let (seq, st) := x in
  let* (s, _) := with_inserter (iterate_rest inserter_Put inserter_Delete b st) seq in
  ret s.

End inserter.
