(* ===== verification/LdbWriteBatchThms.v ===== *)
(** Batches: what they hold, that iterating over them gives it back, and that inserting one
    adds a version for each of its updates. *)
From stdpp Require Import base gmap list strings numbers option sorting.
From Stdlib Require Import ZArith Lia.
From S2P Require Import Prelude Cmem PbWire LdbCoding LdbCodingThms LdbEnv LdbComparator LdbFormat LdbFormatThms LdbSkipList LdbSkipListThms LdbSkipListSpec LdbMemTable LdbMemTableThms LdbWriteBatch.

(** * Updates *)

Inductive update := UPut (key value : list Z) | UDelete (key : list Z).

Definition update_ok (u : update) : Prop := match u with UPut k v => slice_ok k /\ slice_ok v | UDelete k => slice_ok k end.

Definition record_of (u : update) : list Z :=
  match u with
  | UPut k v => 1 :: PutLengthPrefixedSlice [] k ++ PutLengthPrefixedSlice [] v
  | UDelete k => 0 :: PutLengthPrefixedSlice [] k
  end.

Definition records (us : list update) : list Z := mjoin (record_of <$> us).

(** The bytes of a batch of updates with a sequence number. *)
Definition batch_rep (seq : Z) (us : list update) : list Z := EncodeFixed64 seq ++ EncodeFixed32 (Z.of_nat (length us)) ++ records us.

Definition batch_ok (seq : Z) (us : list update) : Prop :=
  0 <= seq < 2 ^ 64 /\ Forall update_ok us /\ Z.of_nat (length us) < 2 ^ 31.

(** The calls that make it. *)
Definition apply_update (b : list Z) (u : update) : option (list Z) := match u with UPut k v => Put b k v | UDelete k => Delete b k end.

Fixpoint apply_updates (b : list Z) (us : list update) : option (list Z) :=
  match us with
  | [] => Some b
  | u :: us => match apply_update b u with Some b => apply_updates b us | None => None end
  end.

Lemma records_app us us' : records (us ++ us') = records us ++ records us'.
Proof. unfold records. by rewrite fmap_app, join_app. Qed.

Lemma batch_length seq us : length (batch_rep seq us) = (12 + length (records us))%nat.
Proof. unfold batch_rep. rewrite !length_app, fixed64_bytes, fixed32_bytes, !le_bytes_length. lia. Qed.

Lemma drop_header seq us : drop (Z.to_nat kHeader) (batch_rep seq us) = records us.
Proof.
  unfold batch_rep. rewrite app_assoc. apply drop_app_length'. by rewrite length_app, fixed64_bytes, fixed32_bytes, !le_bytes_length.
Qed.

Lemma count_ok seq us : Z.of_nat (length us) < 2 ^ 31 -> Count (batch_rep seq us) = Some (Z.of_nat (length us)).
Proof.
  intros Hn. unfold Count, batch_rep. rewrite (drop_app_length' (EncodeFixed64 seq)) by (by rewrite fixed64_bytes, le_bytes_length).
  rewrite decode_encode_fixed32 by lia. cbn. f_equal. unfold s32, to_signed. rewrite Z.mod_small by lia. change (2 ^ (32 - 1)) with (2 ^ 31). by rewrite (proj2 (Z.ltb_lt _ _)).
Qed.

Lemma sequence_ok seq us : 0 <= seq < 2 ^ 64 -> Sequence (batch_rep seq us) = Some seq.
Proof. intros Hs. by apply decode_encode_fixed64. Qed.

Lemma overwrite_ok a b b' c : length b' = length b -> overwrite (a ++ b ++ c) (length a) b' = Some (a ++ b' ++ c).
Proof.
  intros Hl. unfold overwrite. rewrite (proj2 (Nat.leb_le _ _)) by (rewrite !length_app; lia).
  rewrite take_app_length. f_equal. f_equal. f_equal. rewrite Hl, app_assoc. apply drop_app_length'. by rewrite length_app.
Qed.

Lemma set_sequence_ok seq seq' us : SetSequence (batch_rep seq us) seq' = Some (batch_rep seq' us).
Proof. unfold SetSequence. apply (overwrite_ok []). by rewrite !fixed64_bytes, !le_bytes_length. Qed.

Lemma set_count_ok seq n n' rest : 0 <= n' < 2 ^ 32 ->
  SetCount (EncodeFixed64 seq ++ EncodeFixed32 n ++ rest) n' = Some (EncodeFixed64 seq ++ EncodeFixed32 n' ++ rest).
Proof.
  intros Hn. unfold SetCount. rewrite u32_small by done. replace 8%nat with (length (EncodeFixed64 seq)) by (by rewrite fixed64_bytes, le_bytes_length).
  apply overwrite_ok. by rewrite !fixed32_bytes, !le_bytes_length.
Qed.

Lemma add_count_ok seq us n : 0 <= n -> Z.of_nat (length us) + n < 2 ^ 31 ->
  add_count (batch_rep seq us) n = Some (EncodeFixed64 seq ++ EncodeFixed32 (Z.of_nat (length us) + n) ++ records us).
Proof.
  intros Hn Hlen. unfold add_count. rewrite count_ok by lia. unfold int_sum. rewrite (proj2 (Z.leb_le _ _)), (proj2 (Z.ltb_lt _ _)) by lia. cbn [andb].
  apply set_count_ok. lia.
Qed.

Lemma apply_update_ok seq us u : Z.of_nat (length us) + 1 < 2 ^ 31 -> apply_update (batch_rep seq us) u = Some (batch_rep seq (us ++ [u])).
Proof.
  intros Hn. unfold batch_rep at 2. rewrite length_app, records_app. cbn [length]. rewrite Nat2Z.inj_add. change (Z.of_nat 1) with 1.
  replace (records [u]) with (record_of u) by (unfold records; cbn; by rewrite app_nil_r).
  destruct u as [k v|k]; cbn [apply_update record_of]; [unfold Put|unfold Delete]; rewrite add_count_ok by lia; f_equal.
  - rewrite (put_slice_app _ v), (put_slice_app _ k), <- !app_assoc. done.
  - rewrite (put_slice_app _ k), <- !app_assoc. done.
Qed.

(** A batch that is built by [Put] and [Delete]. *)
Lemma apply_updates_ok seq us' : forall us, Z.of_nat (length us + length us') < 2 ^ 31 ->
  apply_updates (batch_rep seq us) us' = Some (batch_rep seq (us ++ us')).
Proof.
  induction us' as [|u us' IH]; intros us Hn; [by rewrite app_nil_r|]. cbn [apply_updates length] in *. rewrite apply_update_ok by lia.
  rewrite IH by (rewrite length_app; cbn; lia). by rewrite <- app_assoc.
Qed.

Lemma new_batch : new_WriteBatch = batch_rep 0 [].
Proof. by vm_compute. Qed.

Lemma batch_append_ok seq us seq' us' : Z.of_nat (length us + length us') < 2 ^ 31 -> Append (batch_rep seq us) (batch_rep seq' us') = Some (batch_rep seq (us ++ us')).
Proof.
  intros Hn. unfold Append. rewrite count_ok, add_count_ok by lia. rewrite (proj2 (Z.leb_le _ _)) by (unfold size; rewrite batch_length; change kHeader with 12; lia).
  rewrite drop_header. unfold batch_rep. rewrite length_app, Nat2Z.inj_add, records_app, <- !app_assoc. done.
Qed.

(** * Iterating *)

Lemma slice_bytes k : slice_ok k -> is_bytes (PutLengthPrefixedSlice [] k).
Proof. intros [Hb Hs]. by apply put_slice_bytes. Qed.

Lemma record_bytes u : update_ok u -> is_bytes (record_of u).
Proof.
  destruct u as [k v|k]; intros Hu; (constructor; [lia|]).
  - apply Forall_app. split; by apply slice_bytes, Hu.
  - by apply slice_bytes.
Qed.

Lemma records_bytes us : Forall update_ok us -> is_bytes (records us).
Proof. induction 1 as [|u us Hu _ IH]; [constructor|]. change (records (u :: us)) with (record_of u ++ records us). apply Forall_app. split; [by apply record_bytes|done]. Qed.

Section iterate.
Context {T : Type} (put : list Z -> list Z -> SM T unit) (del : list Z -> SM T unit).

Definition handle (u : update) : SM T unit := match u with UPut k v => put k v | UDelete k => del k end.

Fixpoint handle_all (us : list update) : SM T unit :=
  match us with [] => ret tt | u :: us => bind (handle u) (fun _ => handle_all us) end.

Lemma iterate_step_ok u rest found s w : update_ok u -> is_bytes rest -> 0 <= found < 2 ^ 31 - 1 ->
  iterate_step put del (record_of u ++ rest, found) s w = bind (handle u) (fun _ => ret (inl (rest, found + 1))) s w.
Proof.
  intros Hu Hr Hf. unfold iterate_step, record_of. destruct u as [k v|k]; cbn [app].
  - destruct Hu as [[Hk Hks] [Hv Hvs]]. unfold int_sum. rewrite (proj2 (Z.leb_le _ _)), (proj2 (Z.ltb_lt _ _)) by lia. unfold bind at 1, must, ret at 1. cbn [type_val Z.eqb].
    rewrite <- app_assoc, get_put_slice by first [done|apply Forall_app; split; [by apply slice_bytes|done]]. rewrite get_put_slice by done. done.
  - destruct Hu as [Hk Hks]. unfold int_sum. rewrite (proj2 (Z.leb_le _ _)), (proj2 (Z.ltb_lt _ _)) by lia. unfold bind at 1, must, ret at 1. cbn [type_val Z.eqb].
    rewrite get_put_slice by done. done.
Qed.

(** The handler is called once per update, in order. *)
Lemma iterate_loop_ok us : Forall update_ok us -> forall fuel found s w, (length us < fuel)%nat -> 0 <= found -> found + Z.of_nat (length us) < 2 ^ 31 ->
  loop fuel (iterate_step put del) (records us, found) s w = bind (handle_all us) (fun _ => ret (inr (found + Z.of_nat (length us)))) s w.
Proof.
  induction 1 as [|u us Hu Hus IH]; intros [|fuel] found s w Hf H0 H1; cbn [length] in *; try lia.
  - cbn. by rewrite Z.add_0_r.
  - cbn [loop]. unfold bind at 1. change (records (u :: us)) with (record_of u ++ records us).
    rewrite iterate_step_ok by (done || lia || by apply records_bytes). cbn [handle_all]. unfold bind.
    destruct (handle u s w) as [[] s1 w1| | |]; try done. cbn [ret]. rewrite IH by lia. unfold bind. destruct (handle_all us s1 w1); try done. cbn. do 2 f_equal. lia.
Qed.

Lemma records_length us : (length us <= length (records us))%nat.
Proof. induction us as [|u us IH]; [done|]. change (records (u :: us)) with (record_of u ++ records us). rewrite length_app. destruct u; cbn; lia. Qed.

(** From the middle of a batch. *)
Lemma iterate_rest_ok seq us us' s w : batch_ok seq (us ++ us') ->
  iterate_rest put del (batch_rep seq (us ++ us')) (records us', Z.of_nat (length us)) s w = bind (handle_all us') (fun _ => ret OK) s w.
Proof.
  intros (Hs & Hus & Hn). apply Forall_app in Hus as [_ Hus]. unfold iterate_rest. cbn [fst]. pose proof (records_length us'). rewrite length_app in Hn.
  unfold bind at 1. rewrite iterate_loop_ok by (done || lia). unfold bind. destruct (handle_all us' s w) as [[] s1 w1| | |]; try done.
  cbn [ret]. rewrite count_ok by (rewrite length_app; lia). cbn [must]. rewrite length_app, Nat2Z.inj_add. cbn. by rewrite Z.eqb_refl.
Qed.

Lemma iterate_ok seq us s w : batch_ok seq us ->
  Iterate put del (batch_rep seq us) s w = bind (handle_all us) (fun _ => ret OK) s w.
Proof.
  intros Hb. unfold Iterate. rewrite (proj2 (Z.ltb_ge _ _)) by (unfold size; rewrite batch_length; change kHeader with 12; lia).
  rewrite drop_header. by apply (iterate_rest_ok seq []).
Qed.

End iterate.

(** * Batches in a table *)

Section insert.
Context {user : Comparator} {laws : ComparatorLaws}.

Definition version_of (seq : Z) (u : update) : version :=
  match u with UPut k v => mk_version k seq kTypeValue v | UDelete k => mk_version k seq kTypeDeletion [] end.

Fixpoint versions_of (seq : Z) (us : list update) : list version :=
  match us with [] => [] | u :: us => version_of seq u :: versions_of (seq + 1) us end.

(** The keys are the comparator's, and leave room for the number. *)
Definition keys_fit (us : list update) : Prop :=
  Forall (fun u => let k := match u with UPut k _ | UDelete k => k end in valid_key k /\ size k + 8 < 2 ^ 32) us.

(** Numbers that only go up. *)
Definition ascending (vs : list version) : Prop := StronglySorted (fun v v' => v_seq v < v_seq v') vs.

Lemma ascending_distinct vs : ascending vs -> versions_distinct vs.
Proof.
  intros Ha vs1 v vs2 ->. apply Forall_forall. intros v' Hv' _.
  assert (v_seq v' < v_seq v); [|lia]. by apply (StronglySorted_app_1_elem_of _ _ _ _ _ Ha Hv'); left.
Qed.

Lemma version_of_ok seq u : update_ok u -> keys_fit [u] -> 0 <= seq <= kMaxSequenceNumber -> version_ok (version_of seq u).
Proof.
  intros Hu Hk Hs. apply Forall_cons_1 in Hk as [Hk _]. destruct u as [k v|k]; cbn in *; (split; [apply Hk|]).
  - destruct Hu as [[? ?] [? ?]], Hk as [_ ?]. done.
  - destruct Hu as [? ?], Hk as [_ ?]. split; [done|]. split; [constructor|]. done.
Qed.

Lemma inserter_handle_ok vs u m w seq : holds vs m w -> version_ok (version_of seq u) -> versions_distinct (vs ++ [version_of seq u]) ->
  exists m' w', handle (inserter_Put user) (inserter_Delete user) u (mk_inserter seq m) w = Ok tt (mk_inserter (u64 (seq + 1)) m') w' /\
    holds (vs ++ [version_of seq u]) m' w' /\ refs_ m' = refs_ m.
Proof.
  intros Hm Hv Hd. destruct (add_version_ok vs (version_of seq u) m w Hm Hv Hd) as (m' & w' & E & Hm' & Hr). exists m', w'. split; [|done].
  destruct u as [k v|k]; cbn [handle version_of v_seq v_type v_user v_value] in *;
    [unfold inserter_Put|unfold inserter_Delete]; unfold bind, get, on_mem; cbn [sequence_ mem_]; by rewrite E.
Qed.

Lemma inserter_all_ok us : Forall update_ok us -> keys_fit us -> forall vs m w seq, holds vs m w -> 0 <= seq -> seq + Z.of_nat (length us) - 1 <= kMaxSequenceNumber ->
  versions_distinct (vs ++ versions_of seq us) ->
  exists m' w', handle_all (inserter_Put user) (inserter_Delete user) us (mk_inserter seq m) w = Ok tt (mk_inserter (seq + Z.of_nat (length us)) m') w' /\
    holds (vs ++ versions_of seq us) m' w' /\ refs_ m' = refs_ m.
Proof.
  change kMaxSequenceNumber with (2 ^ 56 - 1). induction 1 as [|u us Hu _ IH]; intros Hk vs m w seq Hm H0 H1 Hd.
  - exists m, w. cbn. by rewrite app_nil_r, Z.add_0_r.
  - apply Forall_cons_1 in Hk as [Hku Hk]. cbn [versions_of handle_all length] in *. change (version_of seq u :: versions_of (seq + 1) us) with ([version_of seq u] ++ versions_of (seq + 1) us) in *.
    rewrite app_assoc in *. destruct (inserter_handle_ok vs u m w seq Hm) as (m1 & w1 & E1 & Hm1 & Hr1).
    + apply version_of_ok; [done|by apply Forall_singleton|]. change kMaxSequenceNumber with (2 ^ 56 - 1). lia.
    + intros vs1 v vs2 E. apply (Hd vs1 v (vs2 ++ versions_of (seq + 1) us)). by rewrite E, <- app_assoc.
    + destruct (IH Hk (vs ++ [version_of seq u]) m1 w1 (seq + 1) Hm1 ltac:(lia) ltac:(lia) Hd) as (m2 & w2 & E2 & Hm2 & Hr2).
      exists m2, w2. unfold bind. rewrite E1, u64_small by lia. rewrite E2. split; [do 2 f_equal; lia|]. split; [done|]. by rewrite Hr2.
Qed.

Lemma insert_into_ok vs seq us m w : holds vs m w -> batch_ok seq us -> keys_fit us -> seq + Z.of_nat (length us) - 1 <= kMaxSequenceNumber ->
  versions_distinct (vs ++ versions_of seq us) ->
  exists m' w', InsertInto user (batch_rep seq us) m w = Ok OK m' w' /\ holds (vs ++ versions_of seq us) m' w' /\ refs_ m' = refs_ m.
Proof.
  intros Hm Hb Hk Hs Hd. pose proof Hb as (Hseq & Hus & Hn). destruct (inserter_all_ok us Hus Hk vs m w seq Hm (proj1 Hseq) Hs Hd) as (m' & w' & E & Hm' & Hr).
  exists m', w'. split; [|done]. unfold InsertInto. rewrite sequence_ok by done. unfold bind, must, ret, with_inserter. rewrite iterate_ok by done. unfold bind. by rewrite E.
Qed.

(** From the middle of a batch: one round, and all that is left. *)
Lemma insert_record_ok vs seq us u us' m w : holds vs m w -> batch_ok seq (us ++ u :: us') -> keys_fit (us ++ u :: us') ->
  seq + Z.of_nat (length (us ++ u :: us')) - 1 <= kMaxSequenceNumber -> versions_distinct (vs ++ [version_of (seq + Z.of_nat (length us)) u]) ->
  exists m' w', insert_record user (seq + Z.of_nat (length us), (records (u :: us'), Z.of_nat (length us))) m w =
      Ok (Some (seq + Z.of_nat (length (us ++ [u])), (records us', Z.of_nat (length (us ++ [u]))))) m' w' /\
    holds (vs ++ [version_of (seq + Z.of_nat (length us)) u]) m' w' /\ refs_ m' = refs_ m.
Proof.
  intros Hm (Hseq & Hus & Hn) Hk Hs Hd. apply Forall_app in Hus as [_ Hus]. apply Forall_cons_1 in Hus as [Hu Hus]. apply Forall_app in Hk as [_ Hk]. apply Forall_cons_1 in Hk as [Hku _].
  rewrite !length_app in *. cbn [length] in *. change kMaxSequenceNumber with (2 ^ 56 - 1) in *.
  destruct (inserter_handle_ok vs u m w (seq + Z.of_nat (length us)) Hm) as (m' & w' & E & Hm' & Hr); [|done|].
  { apply version_of_ok; [done|by apply Forall_singleton|]. change kMaxSequenceNumber with (2 ^ 56 - 1). lia. }
  exists m', w'. split; [|done]. unfold insert_record, with_inserter. unfold bind at 1. change (records (u :: us')) with (record_of u ++ records us').
  rewrite iterate_step_ok by (done || lia || by apply records_bytes). unfold bind. rewrite E. cbn [ret sequence_ mem_]. rewrite u64_small by lia.
  do 3 f_equal; [lia|]. f_equal. lia.
Qed.

Lemma insert_rest_ok vs seq us us' m w : holds vs m w -> batch_ok seq (us ++ us') -> keys_fit (us ++ us') -> seq + Z.of_nat (length (us ++ us')) - 1 <= kMaxSequenceNumber ->
  versions_distinct (vs ++ versions_of (seq + Z.of_nat (length us)) us') ->
  exists m' w', insert_rest user (batch_rep seq (us ++ us')) (seq + Z.of_nat (length us), (records us', Z.of_nat (length us))) m w = Ok OK m' w' /\
    holds (vs ++ versions_of (seq + Z.of_nat (length us)) us') m' w' /\ refs_ m' = refs_ m.
Proof.
  intros Hm Hb Hk Hs Hd. pose proof Hb as (Hseq & Hus & Hn). apply Forall_app in Hus as [_ Hus]. apply Forall_app in Hk as [_ Hk]. rewrite length_app in *.
  destruct (inserter_all_ok us' Hus Hk vs m w (seq + Z.of_nat (length us)) Hm) as (m' & w' & E & Hm' & Hr); [lia|lia|done|].
  exists m', w'. split; [|done]. unfold insert_rest, with_inserter, bind. rewrite iterate_rest_ok by done. unfold bind. by rewrite E.
Qed.

Lemma insert_start_ok seq us : batch_ok seq us -> insert_start (batch_rep seq us) = Some (seq, (records us, 0)).
Proof.
  intros Hb. unfold insert_start. rewrite (proj2 (Z.ltb_ge _ _)) by (unfold size; rewrite batch_length; change kHeader with 12; lia).
  by rewrite sequence_ok, drop_header by apply Hb.
Qed.

(** ** The last write wins *)

(** The last update of a key with a number up to that of the snapshot. *)
Definition last_write (u : list Z) (s : Z) (vs : list version) : option version :=
  fold_left (fun acc v => if visible u s v then Some v else acc) vs None.

Lemma last_write_snoc u s vs v : last_write u s (vs ++ [v]) = if visible u s v then Some v else last_write u s vs.
Proof. unfold last_write. by rewrite fold_left_app. Qed.

Lemma last_write_in u s vs x : last_write u s vs = Some x -> x ∈ vs /\ visible u s x = true.
Proof.
  induction vs as [|v vs IH] using rev_ind; [done|]. rewrite last_write_snoc. destruct (visible u s v) eqn:E.
  - intros [= ->]. split; [set_solver|done].
  - intros Hx. destruct (IH Hx). split; [set_solver|done].
Qed.

Lemma newest_snoc u s vs v : (forall x, x ∈ vs -> v_seq x < v_seq v) -> newest u s (vs ++ [v]) = if visible u s v then Some v else newest u s vs.
Proof.
  induction vs as [|x vs IH]; intros Hx; [cbn; by destruct (visible u s v)|]. cbn. rewrite IH by (intros y Hy; apply Hx; by right).
  destruct (visible u s v); [|done]. destruct (visible u s x); [|done]. rewrite (proj2 (Z.ltb_lt _ _)); [done|]. apply Hx. by left.
Qed.

Lemma newest_last u s vs : ascending vs -> newest u s vs = last_write u s vs.
Proof.
  induction vs as [|v vs IH] using rev_ind; intros Ha; [done|]. rewrite last_write_snoc, newest_snoc; [rewrite IH; [done|]|].
  - by apply StronglySorted_app_1_l in Ha.
  - intros x Hx. apply (StronglySorted_app_1_elem_of _ _ _ _ _ Ha Hx). by left.
Qed.

End insert.

(** * What batches promise: what was put in comes out again, any bytes are taken apart without
    an invalid access, and a table in memory that batches are inserted into answers every
    lookup at every snapshot as the list of all updates does. *)

(** * Round trip *)

(** C34: a batch gives back what was put into it.  Updates are put into two batches, the second
    is appended to the first and a sequence number is set: no assertion fails, the number and
    the count are read back, and iterating calls the handler once for each update, in order,
    with its key and value. *)
Theorem write_batch_roundtrip {T} put del seq us us' (s : T) w :
  Forall update_ok (us ++ us') -> 0 <= seq < 2 ^ 64 -> Z.of_nat (length (us ++ us')) < 2 ^ 31 ->
  exists b b' c r, apply_updates new_WriteBatch us = Some b /\ apply_updates new_WriteBatch us' = Some b' /\
    Append b b' = Some c /\ SetSequence c seq = Some r /\
    Sequence r = Some seq /\ Count r = Some (Z.of_nat (length (us ++ us'))) /\
    Iterate put del r s w = bind (handle_all put del (us ++ us')) (fun _ => ret OK) s w.
Proof.
  intros Hus Hs Hn. pose proof Hn as Hn2. rewrite length_app in Hn2. rewrite new_batch, !apply_updates_ok by (cbn [length]; lia).
  exists (batch_rep 0 us), (batch_rep 0 us'), (batch_rep 0 (us ++ us')), (batch_rep seq (us ++ us')). do 2 (split; [done|]).
  split; [by apply batch_append_ok|]. split; [apply set_sequence_ok|]. split; [by apply sequence_ok|]. split; [by apply count_ok|].
  by apply iterate_ok.
Qed.

(** * Any bytes *)

Section any.
Context {T : Type} (put : list Z -> list Z -> SM T unit) (del : list Z -> SM T unit).

(** A program that handles some updates and then returns a status, or their number. *)
Definition handles (p : SM T (Status + Z)) (found : Z) : Prop :=
  exists us st, Forall update_ok us /\ match st with inl x => x <> OK | inr n => n = found + Z.of_nat (length us) end /\
    forall s w, p s w = bind (handle_all put del us) (fun _ => ret st) s w.

Lemma handles_stop st found : match st with inl x => x <> OK | inr n => n = found end -> handles (ret st) found.
Proof. intros Hst. exists [], st. split; [constructor|]. split; [|done]. destruct st; [done|]. cbn. lia. Qed.

Lemma handles_more u p found : update_ok u -> handles p (found + 1) -> handles (bind (handle put del u) (fun _ => p)) found.
Proof.
  intros Hu (us & st & Hus & Hst & E). exists (u :: us), st. split; [by constructor|]. split; [destruct st; [done|cbn [length]; lia]|].
  intros s w. cbn [handle_all]. unfold bind. destruct (handle put del u s w); [|done..]. apply E.
Qed.

Lemma handles_ext p p' found : (forall s w, p s w = p' s w) -> handles p' found -> handles p found.
Proof. intros Hp (us & st & Hus & Hst & E). exists us, st. split; [done|]. split; [done|]. intros s w. by rewrite Hp. Qed.

Lemma iterate_loop_any fuel : forall input found, is_bytes input -> 0 <= found -> found + Z.of_nat (length input) < 2 ^ 31 -> (length input < fuel)%nat ->
  handles (loop fuel (iterate_step put del) (input, found)) found.
Proof.
  induction fuel as [|fuel IH]; intros input found Hi H0 H1 Hf; [lia|]. destruct input as [|tag input]; [by apply (handles_stop (inr found))|].
  apply Forall_cons_1 in Hi as [_ Hi]. cbn [length] in *.
  assert (Hstep : handles (bind (iterate_step put del (tag :: input, found)) (fun r => match r with inl st => loop fuel (iterate_step put del) st | inr x => ret x end)) found); [|exact Hstep].
  unfold iterate_step. unfold int_sum. rewrite (proj2 (Z.leb_le _ _)), (proj2 (Z.ltb_lt _ _)) by lia. cbn [andb must].
  destruct (tag =? type_val kTypeValue).
  { destruct (GetLengthPrefixedSlice input) as [[k r]|] eqn:E1; [|by apply (handles_stop (inl _))]. destruct (slice_shrinks _ _ _ Hi E1) as (Hk & Hr & Hl).
    destruct (GetLengthPrefixedSlice r) as [[v r']|] eqn:E2; [|by apply (handles_stop (inl _))]. destruct (slice_shrinks _ _ _ Hr E2) as (Hv & Hr' & Hl').
    apply (handles_ext _ (bind (put k v) (fun _ => loop fuel (iterate_step put del) (r', found + 1)))); [intros s w; unfold bind, ret; by destruct (put k v s w)|].
    apply (handles_more (UPut k v)); [done|]. apply IH; done || lia. }
  destruct (tag =? type_val kTypeDeletion); [|by apply (handles_stop (inl _))].
  destruct (GetLengthPrefixedSlice input) as [[k r]|] eqn:E1; [|by apply (handles_stop (inl _))]. destruct (slice_shrinks _ _ _ Hi E1) as (Hk & Hr & Hl).
  apply (handles_ext _ (bind (del k) (fun _ => loop fuel (iterate_step put del) (r, found + 1)))); [intros s w; unfold bind, ret; by destruct (del k s w)|].
  apply (handles_more (UDelete k)); [done|]. apply IH; done || lia.
Qed.

Lemma count_some rep : kHeader <= size rep -> exists c, Count rep = Some c.
Proof.
  change kHeader with 12. unfold size. intros Hge. do 12 (destruct rep as [|? rep]; [cbn in Hge; lia|]). by eexists.
Qed.

(** C35: any bytes of a log record, damaged or not, are taken apart safely: [Iterate] makes no
    invalid access and ends; it calls the handler for a list of updates, and then returns a
    status, which is OK only if there were as many as the count in the header says. *)
Theorem iterate_any_bytes rep : is_bytes rep -> size rep < 2 ^ 31 ->
  exists us st, Forall update_ok us /\ (st = OK -> Count rep = Some (Z.of_nat (length us))) /\
    forall s w, Iterate put del rep s w = bind (handle_all put del us) (fun _ => ret st) s w.
Proof.
  intros Hb Hn. unfold Iterate, iterate_rest. cbn [fst]. destruct (Z.ltb_spec (size rep) kHeader) as [|Hge]; [by exists [], (Corruption "malformed WriteBatch (too small)")|].
  set (input := drop (Z.to_nat kHeader) rep). destruct (count_some rep Hge) as (c & Hc). change kHeader with 12 in Hge. unfold size in *. rewrite Hc.
  destruct (iterate_loop_any (S (length input)) input 0) as (us & st & Hus & Hst & E); [by apply Forall_drop|lia|unfold input; rewrite length_drop; lia|lia|].
  exists us. destruct st as [x|found].
  - exists x. split; [done|]. split; [done|]. intros s w. unfold bind at 1. rewrite E. unfold bind. by destruct (handle_all put del us s w).
  - exists (if negb (found =? c) then Corruption "WriteBatch has wrong count" else OK). split; [done|]. split.
    + destruct (Z.eqb_spec found c) as [->|]; [|done]. intros _. do 2 f_equal. lia.
    + intros s w. unfold bind at 1. rewrite E. unfold bind. destruct (handle_all put del us s w); [|done..]. cbn. by destruct (found =? c).
Qed.

End any.

(** * Batches in a table *)

Section reads.
Context {user : Comparator} {laws : ComparatorLaws}.

(** One batch is made, numbered and inserted; then the next. *)
Definition commit (seq : Z) (us : list update) : SM MemTable unit :=
  let* b := must (apply_updates new_WriteBatch us) in
  let* b := must (SetSequence b seq) in
  let* s := InsertInto user b in
  assert_ (ok s).

Fixpoint commits (seq : Z) (bs : list (list update)) : SM MemTable unit :=
  match bs with
  | [] => ret tt
  | us :: bs => commit seq us;; commits (seq + Z.of_nat (length us)) bs
  end.

Lemma versions_of_app us us' : forall seq, versions_of seq (us ++ us') = versions_of seq us ++ versions_of (seq + Z.of_nat (length us)) us'.
Proof.
  induction us as [|u us IH]; intros seq; cbn [versions_of app length]; [by rewrite Z.add_0_r|]. rewrite IH. do 3 f_equal. lia.
Qed.

Lemma version_of_seq seq u : v_seq (version_of seq u) = seq.
Proof. by destruct u. Qed.

Lemma versions_of_range us : forall seq, Forall (fun v => seq <= v_seq v < seq + Z.of_nat (length us)) (versions_of seq us).
Proof.
  induction us as [|u us IH]; intros seq; cbn [versions_of length]; constructor; [rewrite version_of_seq; lia|].
  eapply Forall_impl; [apply IH|]. cbn. lia.
Qed.

Lemma versions_of_ascending us : forall seq, ascending (versions_of seq us).
Proof.
  induction us as [|u us IH]; intros seq; [constructor|]. apply SSorted_cons; [apply IH|].
  eapply Forall_impl; [apply (versions_of_range us (seq + 1))|]. intros v. cbn. rewrite version_of_seq. lia.
Qed.

Definition keys_ok (us : list update) : Prop := Forall update_ok us /\ keys_fit us.

Lemma commit_ok vs seq us m w : holds vs m w -> keys_ok us -> Z.of_nat (length us) < 2 ^ 31 -> 0 <= seq -> seq + Z.of_nat (length us) - 1 <= kMaxSequenceNumber ->
  ascending (vs ++ versions_of seq us) ->
  exists m' w', commit seq us m w = Ok tt m' w' /\ holds (vs ++ versions_of seq us) m' w' /\ refs_ m' = refs_ m.
Proof.
  intros Hm [Hus Hk] Hn H0 H1 Ha. assert (seq < 2 ^ 64) by (change kMaxSequenceNumber with (2 ^ 56 - 1) in H1; lia). unfold commit. rewrite new_batch, apply_updates_ok by (cbn; lia). unfold bind at 1, must at 1, ret. rewrite set_sequence_ok. unfold bind at 1, must at 1, ret.
  destruct (insert_into_ok vs seq us m w Hm) as (m' & w' & E & Hm' & Hr); [by split|done|done|by apply ascending_distinct|].
  exists m', w'. split; [|done]. unfold bind. cbn [app]. by rewrite E.
Qed.

Lemma commits_ok bs : Forall (fun us => keys_ok us /\ Z.of_nat (length us) < 2 ^ 31) bs -> forall vs seq m w, holds vs m w ->
  0 <= seq -> seq + Z.of_nat (length (mjoin bs)) - 1 <= kMaxSequenceNumber -> ascending (vs ++ versions_of seq (mjoin bs)) ->
  exists m' w', commits seq bs m w = Ok tt m' w' /\ holds (vs ++ versions_of seq (mjoin bs)) m' w'.
Proof.
  induction 1 as [|us bs [Hk Hn] _ IH]; intros vs seq m w Hm H0 H1 Ha; [exists m, w; cbn; by rewrite app_nil_r|]. cbn [commits]. change (mjoin (us :: bs)) with (us ++ mjoin bs) in *.
  rewrite length_app in H1. rewrite versions_of_app, app_assoc in *.
  destruct (commit_ok vs seq us m w Hm Hk Hn) as (m1 & w1 & E1 & Hm1 & _); [lia|lia|by apply StronglySorted_app_1_l in Ha|].
  destruct (IH (vs ++ versions_of seq us) (seq + Z.of_nat (length us)) m1 w1 Hm1) as (m2 & w2 & E2 & Hm2); [lia|lia|done|].
  exists m2, w2. unfold bind. by rewrite E1.
Qed.

(** C10: Snapshot reads.  After any number of batches were made, numbered one after the other
    and inserted into a new table, a lookup of any key at any sequence number - those of
    the past as well - gets the value of the last update of this key up to that number:
    "deleted" if this update is a deletion, and nothing if there is none.  The lookup leaves
    the table as it is. *)
Theorem memtable_snapshot_reads used w (seq : Z) (bs : list (list update)) :
  arena_ok used new_Arena w -> Forall (fun us => keys_ok us /\ Z.of_nat (length us) < 2 ^ 31) bs ->
  0 <= seq -> seq + Z.of_nat (length (mjoin bs)) - 1 <= kMaxSequenceNumber ->
  exists m0 w0 m w', new_MemTable tt w = Ok m0 tt w0 /\ commits seq bs m0 w0 = Ok tt m w' /\
    forall u s lk, valid_key u -> is_bytes u -> size u + 8 < 2 ^ 32 -> 0 <= s <= kMaxSequenceNumber -> new_LookupKey u s = Some lk ->
      Get user lk m w' = Ok (answer (last_write u s (versions_of seq (mjoin bs)))) m w'.
Proof.
  intros Ha Hbs H0 H1. destruct (new_memtable_ok used w Ha) as (m0 & w0 & E0 & Hm0 & _).
  destruct (commits_ok bs Hbs [] seq m0 w0 Hm0 H0 H1 (versions_of_ascending _ _)) as (m & w' & E & Hm). exists m0, w0, m, w'. do 2 (split; [done|]).
  intros u s lk Hu Hb Hsz Hs Elk. rewrite <- newest_last by apply versions_of_ascending. apply (get_version_ok _ u s); [exact Hm| |exact Elk].
  split; [done|]. split; [done|]. split; [constructor|]. done.
Qed.

End reads.

(** * The inputs of the witnesses *)

Definition example_updates : list update := [UPut [1] [10]; UDelete [2]].
Definition more_updates : list update := [UPut [2] [20; 21]; UDelete [1]].

Lemma example_updates_ok : keys_ok example_updates.
Proof. split; repeat constructor; lia. Qed.

Lemma more_updates_ok : keys_ok more_updates.
Proof. split; repeat constructor; lia. Qed.

(** A handler that keeps the calls. *)
Definition note_put (k v : list Z) : SM (list update) unit := modify (fun l => l ++ [UPut k v]).
Definition note_delete (k : list Z) : SM (list update) unit := modify (fun l => l ++ [UDelete k]).

Lemma write_batch_roundtrip_witness :
  exists b b' c r, apply_updates new_WriteBatch example_updates = Some b /\ apply_updates new_WriteBatch more_updates = Some b' /\
    Append b b' = Some c /\ SetSequence c 7 = Some r /\ Sequence r = Some 7 /\ Count r = Some 4 /\
    Iterate note_put note_delete r [] example_world = Ok OK (example_updates ++ more_updates) example_world.
Proof.
  apply (write_batch_roundtrip note_put note_delete 7 example_updates more_updates [] example_world); [|lia|cbn; lia].
  apply Forall_app. split; [apply example_updates_ok|apply more_updates_ok].
Defined.

(** A batch whose second record is cut off. *)
Lemma iterate_any_bytes_witness :
  exists us st, Forall update_ok us /\ (st = OK -> Count (take 20 (batch_rep 7 more_updates)) = Some (Z.of_nat (length us))) /\
    forall s w, Iterate note_put note_delete (take 20 (batch_rep 7 more_updates)) s w = bind (handle_all note_put note_delete us) (fun _ => ret st) s w.
Proof. apply iterate_any_bytes; [apply Forall_take|]; vm_compute; [repeat constructor; done|reflexivity]. Defined.

Lemma memtable_snapshot_reads_witness : exists m0 w0 m w',
  new_MemTable tt example_world = Ok m0 tt w0 /\ commits 5 [example_updates; more_updates] m0 w0 = Ok tt m w' /\
  (forall lk, new_LookupKey [1] 7 = Some lk -> Get bytewise lk m w' = Ok (Some (inl [10])) m w') /\
  (forall lk, new_LookupKey [1] 8 = Some lk -> Get bytewise lk m w' = Ok (Some (inr (NotFound ""))) m w') /\
  (forall lk, new_LookupKey [2] 5 = Some lk -> Get bytewise lk m w' = Ok None m w').
Proof.
  destruct (memtable_snapshot_reads [] example_world 5 [example_updates; more_updates] example_arena) as (m0 & w0 & m & w' & E0 & E & H).
  - repeat constructor; lia.
  - lia.
  - by vm_compute.
  - exists m0, w0, m, w'. do 2 (split; [assumption|]).
    assert (Hlook : forall k s lk, is_byte k -> 0 <= s < 100 -> new_LookupKey [k] s = Some lk ->
      Get bytewise lk m w' = Ok (answer (last_write [k] s (versions_of 5 (mjoin [example_updates; more_updates])))) m w').
    { intros k s lk Hk Hs. assert (is_bytes [k]) by (constructor; [exact Hk|constructor]). apply H; [assumption..|by vm_compute|]. change kMaxSequenceNumber with (2 ^ 56 - 1). lia. }
    split; [|split]; intros lk Elk.
    + rewrite (Hlook 1 7 lk) by (lia || exact Elk). vm_compute. reflexivity.
    + rewrite (Hlook 1 8 lk) by (lia || exact Elk). vm_compute. reflexivity.
    + rewrite (Hlook 2 5 lk) by (lia || exact Elk). vm_compute. reflexivity.
Defined.
