(* ===== verification/LdbWrite.v ===== *)
(** LevelDB's write path: [DBImpl::Write], [BuildBatchGroup] and [MakeRoomForWrite] of
    db/db_impl.cc, and what they share with the background thread.

    Any number of threads call [Write].  A thread owns a [Writer], which waits in
    [writers_] under the mutex; the one at the front writes for a group of those behind it,
    and unlocks the mutex while it writes.  Every stretch that a thread runs without
    releasing the mutex, and every call it makes without holding it, is one step; [threads]
    keeps where each thread stands in between.  A condition variable keeps whether it was
    signalled since the last wait.  The steps are programs of the monad: [Err] means that
    the step is not possible in this state, [UB] a failed assertion, a use of a [Writer]
    that is gone, or [front] of an empty queue. *)
From stdpp Require Import base gmap list strings numbers option.
From Stdlib Require Import ZArith Lia.
From S2P Require Import Prelude Cmem LdbCoding LdbEnv LdbLog LdbComparator LdbFormat LdbSkipList LdbMemTable LdbWriteBatch.

Definition kL0_CompactionTrigger : Z := 4.
Definition kL0_SlowdownWritesTrigger : Z := 8.
Definition kL0_StopWritesTrigger : Z := 12.

(** [struct DBImpl::Writer] on the stack of its thread; [signaled] is that of [cv]. *)
Record DBWriter := mk_dbwriter {
  w_status : Status;
  w_batch : option (list Z);
  w_sync : bool;
  w_done : bool;
  signaled : bool;
}.

(** A pointer to a batch: that of a writer, or [tmp_batch_]. *)
Inductive batch_ptr := Own (w : Z) | Tmp.

(** Where a thread stands in [Write]: waiting for its turn; in [MakeRoomForWrite], asleep
    or waiting for the background thread, with [allow_delay] and [force]; before each of
    the calls of the leader without the mutex, with the local variables [updates],
    [last_sequence] and [last_writer]; before it takes the mutex again; done. *)
Inductive stage :=
  | Waiting
  | Sleeping (force : bool)
  | RoomWaiting (allow_delay force : bool)
  | Logging (updates : batch_ptr) (last_sequence last_writer : Z)
  | Syncing (updates : batch_ptr) (last_sequence last_writer : Z)
  | Inserting (updates : batch_ptr) (last_sequence last_writer : Z) (progress : option insertion)
  | Relocking (status : Status) (sync_error : bool) (updates : batch_ptr) (last_sequence last_writer : Z)
  | Returned (status : Status).

(** What the write path uses of [VersionSet]; [tables] are the memtables that the table
    files were made of. *)
Record VersionSet := mk_versions {
  next_file_number_ : Z;
  last_sequence_ : Z;
  log_number_ : Z;
  prev_log_number_ : Z;
  num_level0 : Z;
  needs_compaction : bool;
  tables : list MemTable;
}.

Section write.
Context `{Placement} {F : Type} `{WritableFile F} `{SyncFile F} (user_comparator : Comparator) (write_buffer_size : Z).

(** [logfile_] is the file of [log_]; [disk] are the older log files, with their numbers. *)
Record DBImpl := mk_db {
  shutting_down_ : bool;
  room_signaled : bool;
  db_mem : MemTable;
  db_imm : option MemTable;
  logfile_number_ : Z;
  log_ : Writer F;
  disk : list (Z * F);
  writers_ : list Z;
  writer_objects : gmap Z DBWriter;
  tmp_batch_ : list Z;
  background_compaction_scheduled_ : bool;
  manual_compaction_ : bool;
  versions_ : VersionSet;
  bg_error_ : Status;
  threads : gmap Z stage;
}.

Definition set_room_signaled b d := mk_db (shutting_down_ d) b (db_mem d) (db_imm d) (logfile_number_ d) (log_ d) (disk d) (writers_ d) (writer_objects d) (tmp_batch_ d) (background_compaction_scheduled_ d) (manual_compaction_ d) (versions_ d) (bg_error_ d) (threads d).
Definition set_mem m d := mk_db (shutting_down_ d) (room_signaled d) m (db_imm d) (logfile_number_ d) (log_ d) (disk d) (writers_ d) (writer_objects d) (tmp_batch_ d) (background_compaction_scheduled_ d) (manual_compaction_ d) (versions_ d) (bg_error_ d) (threads d).
Definition set_imm m d := mk_db (shutting_down_ d) (room_signaled d) (db_mem d) m (logfile_number_ d) (log_ d) (disk d) (writers_ d) (writer_objects d) (tmp_batch_ d) (background_compaction_scheduled_ d) (manual_compaction_ d) (versions_ d) (bg_error_ d) (threads d).
Definition set_log l d := mk_db (shutting_down_ d) (room_signaled d) (db_mem d) (db_imm d) (logfile_number_ d) l (disk d) (writers_ d) (writer_objects d) (tmp_batch_ d) (background_compaction_scheduled_ d) (manual_compaction_ d) (versions_ d) (bg_error_ d) (threads d).
Definition set_logfile_number n d := mk_db (shutting_down_ d) (room_signaled d) (db_mem d) (db_imm d) n (log_ d) (disk d) (writers_ d) (writer_objects d) (tmp_batch_ d) (background_compaction_scheduled_ d) (manual_compaction_ d) (versions_ d) (bg_error_ d) (threads d).
Definition set_disk l d := mk_db (shutting_down_ d) (room_signaled d) (db_mem d) (db_imm d) (logfile_number_ d) (log_ d) l (writers_ d) (writer_objects d) (tmp_batch_ d) (background_compaction_scheduled_ d) (manual_compaction_ d) (versions_ d) (bg_error_ d) (threads d).
Definition set_writers l d := mk_db (shutting_down_ d) (room_signaled d) (db_mem d) (db_imm d) (logfile_number_ d) (log_ d) (disk d) l (writer_objects d) (tmp_batch_ d) (background_compaction_scheduled_ d) (manual_compaction_ d) (versions_ d) (bg_error_ d) (threads d).
Definition set_objects m d := mk_db (shutting_down_ d) (room_signaled d) (db_mem d) (db_imm d) (logfile_number_ d) (log_ d) (disk d) (writers_ d) m (tmp_batch_ d) (background_compaction_scheduled_ d) (manual_compaction_ d) (versions_ d) (bg_error_ d) (threads d).
Definition set_tmp_batch b d := mk_db (shutting_down_ d) (room_signaled d) (db_mem d) (db_imm d) (logfile_number_ d) (log_ d) (disk d) (writers_ d) (writer_objects d) b (background_compaction_scheduled_ d) (manual_compaction_ d) (versions_ d) (bg_error_ d) (threads d).
Definition set_scheduled b d := mk_db (shutting_down_ d) (room_signaled d) (db_mem d) (db_imm d) (logfile_number_ d) (log_ d) (disk d) (writers_ d) (writer_objects d) (tmp_batch_ d) b (manual_compaction_ d) (versions_ d) (bg_error_ d) (threads d).
Definition set_versions v d := mk_db (shutting_down_ d) (room_signaled d) (db_mem d) (db_imm d) (logfile_number_ d) (log_ d) (disk d) (writers_ d) (writer_objects d) (tmp_batch_ d) (background_compaction_scheduled_ d) (manual_compaction_ d) v (bg_error_ d) (threads d).
Definition set_bg_error s d := mk_db (shutting_down_ d) (room_signaled d) (db_mem d) (db_imm d) (logfile_number_ d) (log_ d) (disk d) (writers_ d) (writer_objects d) (tmp_batch_ d) (background_compaction_scheduled_ d) (manual_compaction_ d) (versions_ d) s (threads d).
Definition set_threads m d := mk_db (shutting_down_ d) (room_signaled d) (db_mem d) (db_imm d) (logfile_number_ d) (log_ d) (disk d) (writers_ d) (writer_objects d) (tmp_batch_ d) (background_compaction_scheduled_ d) (manual_compaction_ d) (versions_ d) (bg_error_ d) m.

Definition set_next_file_number n v := mk_versions n (last_sequence_ v) (log_number_ v) (prev_log_number_ v) (num_level0 v) (needs_compaction v) (tables v).
Definition set_last_sequence n v := mk_versions (next_file_number_ v) n (log_number_ v) (prev_log_number_ v) (num_level0 v) (needs_compaction v) (tables v).
Definition set_log_number n v := mk_versions (next_file_number_ v) (last_sequence_ v) n (prev_log_number_ v) (num_level0 v) (needs_compaction v) (tables v).
Definition set_levels n c v := mk_versions (next_file_number_ v) (last_sequence_ v) (log_number_ v) (prev_log_number_ v) n c (tables v).
Definition set_tables l v := mk_versions (next_file_number_ v) (last_sequence_ v) (log_number_ v) (prev_log_number_ v) (num_level0 v) (needs_compaction v) l.

Definition load_writer (p : Z) : SM DBImpl DBWriter := let* d := get in must (writer_objects d !! p).
Definition store_writer (p : Z) (o : DBWriter) : SM DBImpl unit := modify (fun d => set_objects (<[p := o]> (writer_objects d)) d).
Definition set_stage (p : Z) (s : stage) : SM DBImpl unit := modify (fun d => set_threads (<[p := s]> (threads d)) d).

Definition load_batch (p : batch_ptr) : SM DBImpl (list Z) :=
  match p with
  | Own w => let* o := load_writer w in must (w_batch o)
  | Tmp => let* d := get in ret (tmp_batch_ d)
  end.

Definition store_batch (p : batch_ptr) (b : list Z) : SM DBImpl unit :=
  match p with
  | Own w => let* o := load_writer w in store_writer w (mk_dbwriter (w_status o) (Some b) (w_sync o) (w_done o) (signaled o))
  | Tmp => modify (set_tmp_batch b)
  end.

(** Calls on the log and on the table in memory. *)
Definition in_log {A} (m : SM (Writer F) A) : SM DBImpl A := fun d w =>
  match m (log_ d) w with
  | Ok r l w => Ok r (set_log l d) w
  | Err l w => Err (set_log l d) w
  | UB => UB
  | NoFuel => NoFuel
  end.

Definition in_memtable {A} (m : SM MemTable A) : SM DBImpl A := fun d w =>
  match m (db_mem d) w with
  | Ok r t w => Ok r (set_mem t d) w
  | Err t w => Err (set_mem t d) w
  | UB => UB
  | NoFuel => NoFuel
  end.

(** * The background thread, as far as writers see it *)

Definition RecordBackgroundError (s : Status) : SM DBImpl unit :=
  let* d := get in
  if ok (bg_error_ d) then modify (set_bg_error s);; modify (set_room_signaled true) else ret tt.

Definition MaybeScheduleCompaction : SM DBImpl unit :=
  let* d := get in
  if background_compaction_scheduled_ d then ret tt
  else if shutting_down_ d then ret tt
  else if negb (ok (bg_error_ d)) then ret tt
  else if match db_imm d with None => true | _ => false end && negb (manual_compaction_ d) && negb (needs_compaction (versions_ d)) then ret tt
  else modify (set_scheduled true).

(** [VersionSet::NeedsCompaction], of the score that [Finalize] gives level 0; [more] is
    whether another level is too big or a file is read too often. *)
Definition NeedsCompaction (files : Z) (more : bool) : bool := (kL0_CompactionTrigger <=? files) || more.

Definition NewFileNumber : SM DBImpl Z :=
  let* d := get in
  let n := next_file_number_ (versions_ d) in
  modify (set_versions (set_next_file_number (u64 (n + 1)) (versions_ d)));;
  ret n.

Definition ReuseFileNumber (n : Z) : SM DBImpl unit :=
  let* d := get in
  if next_file_number_ (versions_ d) =? u64 (n + 1) then modify (set_versions (set_next_file_number n (versions_ d))) else ret tt.

(** * BuildBatchGroup *)

(** The loop over the writers behind the first one. *)
Fixpoint group_loop (first : Z) (max_size size : Z) (result : batch_ptr) (last_writer : Z) (iter : list Z) : SM DBImpl (batch_ptr * Z) :=
  match iter with
  | [] => ret (result, last_writer)
  | w :: iter =>
      let* o := load_writer w in
      let* f := load_writer first in
      if w_sync o && negb (w_sync f) then ret (result, last_writer)
      else
        match w_batch o with
        | Some b =>
            let size := u64 (size + ByteSize b) in
            if max_size <? size then ret (result, last_writer)
            else
              let* result :=
                match result with
                | Own _ =>
                    let* t := load_batch Tmp in
                    let* n := must (Count t) in
                    assert_ (n =? 0);;
                    let* fb := must (w_batch f) in
                    let* t := must (Append t fb) in
                    store_batch Tmp t;;
                    ret Tmp
                | Tmp => ret Tmp
                end in
              let* t := load_batch result in
              let* t := must (Append t b) in
              store_batch result t;;
              group_loop first max_size size result w iter
        | None => group_loop first max_size size result w iter
        end
  end.

Definition BuildBatchGroup : SM DBImpl (batch_ptr * Z) :=
  let* d := get in
  match writers_ d with
  | [] => ub
  | first :: iter =>
      let* f := load_writer first in
      let* b := must (w_batch f) in
      let size := ByteSize b in
      let max_size := if size <=? Z.shiftl 128 10 then u64 (size + Z.shiftl 128 10) else Z.shiftl 1 20 in
      group_loop first max_size size (Own first) first iter
  end.

(** * MakeRoomForWrite *)

(** The end of a round: out of the loop with a status, another round, or the mutex is
    released to sleep for a millisecond or to wait for the background thread. *)
Inductive room := RGo (s : Status) | RAgain (allow_delay force : bool) | RSleep (force : bool) | RWait (allow_delay force : bool).

(** The switch to a new log and a new table in memory; [lfile] is what [NewWritableFile]
    returns. *)
Definition switch_memtable (lfile : Status * F) (allow_delay : bool) : SM DBImpl room :=
  let* d := get in
  assert_ (prev_log_number_ (versions_ d) =? 0);;
  let* new_log_number := NewFileNumber in
  let (s, f) := lfile in
  if negb (ok s) then
    ReuseFileNumber new_log_number;;
    ret (RGo s)
  else
    modify (set_disk (disk d ++ [(logfile_number_ d, dest (log_ d))]));;
    modify (set_logfile_number new_log_number);;
    modify (set_log (new_Writer f));;
    modify (set_imm (Some (db_mem d)));;
    let* m := no_stream new_MemTable in
    modify (set_mem m);;
    in_memtable Ref;;
    MaybeScheduleCompaction;;
    ret (RAgain allow_delay false).

Definition make_room_round (lfile : Status * F) (allow_delay force : bool) : SM DBImpl room :=
  let* d := get in
  if negb (ok (bg_error_ d)) then ret (RGo (bg_error_ d))
  else if allow_delay && (kL0_SlowdownWritesTrigger <=? num_level0 (versions_ d)) then ret (RSleep force)
  else if negb force && (ApproximateMemoryUsage (db_mem d) <=? write_buffer_size) then ret (RGo OK)
  else if match db_imm d with Some _ => true | None => false end then ret (RWait allow_delay force)
  else if kL0_StopWritesTrigger <=? num_level0 (versions_ d) then ret (RWait allow_delay force)
  else switch_memtable lfile allow_delay.

(** * Write *)

(** The thread returns; its [Writer] is gone. *)
Definition write_return (p : Z) (s : Status) : SM DBImpl unit :=
  modify (fun d => set_objects (delete p (writer_objects d)) d);;
  set_stage p (Returned s).

(** [cv.Signal()] *)
Definition signal (p : Z) : SM DBImpl unit :=
  let* o := load_writer p in store_writer p (mk_dbwriter (w_status o) (w_batch o) (w_sync o) (w_done o) true).

(** The loop that takes the group off the queue. *)
Fixpoint pop_writers (p last_writer : Z) (status : Status) (queue : list Z) : SM DBImpl unit :=
  match queue with
  | [] => ub
  | ready :: queue =>
      modify (set_writers queue);;
      (if negb (ready =? p) then
         let* o := load_writer ready in
         store_writer ready (mk_dbwriter status (w_batch o) (w_sync o) true (signaled o));;
         signal ready
       else ret tt);;
      if ready =? last_writer then ret tt else pop_writers p last_writer status queue
  end.

Definition finish_write (p last_writer : Z) (status : Status) : SM DBImpl unit :=
  let* d := get in
  pop_writers p last_writer status (writers_ d);;
  let* d := get in
  (match writers_ d with front :: _ => signal front | [] => ret tt end);;
  write_return p status.

(** From [MakeRoomForWrite]'s return to the release of the mutex. *)
Definition after_room (p : Z) (status : Status) : SM DBImpl unit :=
  let* d := get in
  let last_sequence := last_sequence_ (versions_ d) in
  let* o := load_writer p in
  if ok status && match w_batch o with Some _ => true | None => false end then
    let* (updates, last_writer) := BuildBatchGroup in
    let* b := load_batch updates in
    let* b := must (SetSequence b (u64 (last_sequence + 1))) in
    store_batch updates b;;
    let* n := must (Count b) in
    set_stage p (Logging updates (u64 (last_sequence + n)) last_writer)
  else finish_write p p status.

(** The loop of [MakeRoomForWrite], until it is left or the mutex is released. *)
Fixpoint room_loop (fuel : nat) (p : Z) (lfile : Status * F) (allow_delay force : bool) : SM DBImpl unit :=
  match fuel with
  | O => nofuel
  | S fuel =>
      let* r := make_room_round lfile allow_delay force in
      match r with
      | RGo s => after_room p s
      | RAgain allow_delay force => room_loop fuel p lfile allow_delay force
      | RSleep force => set_stage p (Sleeping force)
      | RWait allow_delay force => modify (set_room_signaled false);; set_stage p (RoomWaiting allow_delay force)
      end
  end.

(** A round switches to a new table at most once. *)
Definition MakeRoomForWrite := room_loop 2.

(** [while (!w.done && &w != writers_.front()) w.cv.Wait();] and what follows. *)
Definition check_turn (p : Z) (lfile : Status * F) : SM DBImpl unit :=
  let* o := load_writer p in
  if w_done o then write_return p (w_status o)
  else
    let* d := get in
    let* front := must (head (writers_ d)) in
    if negb (p =? front) then
      store_writer p (mk_dbwriter (w_status o) (w_batch o) (w_sync o) (w_done o) false);;
      set_stage p Waiting
    else
      let force := match w_batch o with Some _ => false | None => true end in
      MakeRoomForWrite p lfile (negb force) force.

Definition write_enter (p : Z) (updates : option (list Z)) (sync : bool) (lfile : Status * F) : SM DBImpl unit :=
  let* d := get in
  guard (match threads d !! p with None => true | _ => false end);;
  store_writer p (mk_dbwriter OK updates sync false false);;
  modify (fun d => set_writers (writers_ d ++ [p]) d);;
  check_turn p lfile.

(** The calls of the leader without the mutex. *)
Definition leader_log (p : Z) (updates : batch_ptr) (last_sequence last_writer : Z) : SM DBImpl unit :=
  let* b := load_batch updates in
  let* status := in_log (AddRecord (Contents b)) in
  let* o := load_writer p in
  if ok status then
    set_stage p (if w_sync o then Syncing updates last_sequence last_writer else Inserting updates last_sequence last_writer None)
  else set_stage p (Relocking status false updates last_sequence last_writer).

Definition leader_sync (p : Z) (updates : batch_ptr) (last_sequence last_writer : Z) : SM DBImpl unit :=
  let* status := in_log (let* l := get in let (s, f) := Sync (dest l) in modify (set_dest f);; ret s) in
  set_stage p (if ok status then Inserting updates last_sequence last_writer None else Relocking status true updates last_sequence last_writer).

(** [InsertInto], or what is left of it. *)
Definition leader_insert (p : Z) (updates : batch_ptr) (last_sequence last_writer : Z) (progress : option insertion) : SM DBImpl unit :=
  let* b := load_batch updates in
  let* status := in_memtable (match progress with None => InsertInto user_comparator b | Some x => insert_rest user_comparator b x end) in
  set_stage p (Relocking status false updates last_sequence last_writer).

(** [InsertInto] up to the next record: readers look at the table between one record and the
    next. *)
Definition leader_insert_record (p : Z) (updates : batch_ptr) (last_sequence last_writer : Z) (progress : option insertion) : SM DBImpl unit :=
  let* b := load_batch updates in
  match (match progress with None => insert_start b | Some x => Some x end) with
  | Some x =>
      let* r := in_memtable (insert_record user_comparator x) in
      match r with
      | Some x => set_stage p (Inserting updates last_sequence last_writer (Some x))
      | None => fail
      end
  | None => fail
  end.

Definition leader_finish (p : Z) (status : Status) (sync_error : bool) (updates : batch_ptr) (last_sequence last_writer : Z) : SM DBImpl unit :=
  (if sync_error then RecordBackgroundError status else ret tt);;
  (match updates with Tmp => modify (set_tmp_batch Clear) | Own _ => ret tt end);;
  let* d := get in
  assert_ (last_sequence_ (versions_ d) <=? last_sequence);;
  modify (fun d => set_versions (set_last_sequence last_sequence (versions_ d)) d);;
  finish_write p last_writer status.

(** ** Steps *)

Definition stage_of (p : Z) : SM DBImpl stage :=
  let* d := get in match threads d !! p with Some s => ret s | None => fail end.

(** The next stretch of a thread that has entered. *)
Definition run_thread (p : Z) (lfile : Status * F) : SM DBImpl unit :=
  let* s := stage_of p in
  match s with
  | Waiting => let* o := load_writer p in guard (signaled o);; check_turn p lfile
  | Sleeping force => MakeRoomForWrite p lfile false force
  | RoomWaiting allow_delay force => let* d := get in guard (room_signaled d);; MakeRoomForWrite p lfile allow_delay force
  | Logging u n l => leader_log p u n l
  | Syncing u n l => leader_sync p u n l
  | Inserting u n l x => leader_insert p u n l x
  | Relocking s e u n l => leader_finish p s e u n l
  | Returned _ => fail
  end.

(** The leader inserts one record, and others run before the next one. *)
Definition run_record (p : Z) : SM DBImpl unit :=
  let* s := stage_of p in
  match s with
  | Inserting u n l x => leader_insert_record p u n l x
  | _ => fail
  end.

(** A condition variable may wake a thread for no reason. *)
Definition wake_up (p : Z) : SM DBImpl unit :=
  let* s := stage_of p in
  match s with
  | Waiting => signal p
  | RoomWaiting _ _ => modify (set_room_signaled true)
  | _ => fail
  end.

(** The background thread takes a number for a file. *)
Definition background_number : SM DBImpl unit :=
  let* d := get in
  guard (background_compaction_scheduled_ d);;
  let* _ := NewFileNumber in ret tt.

(** [CompactMemTable], from the return of [LogAndApply] or of the call that failed; the
    new version has [files] files in level 0.  The logs before the current one are then
    obsolete, and [DeleteObsoleteFiles] deletes them. *)
Definition compact_memtable (s : Status) (files : Z) (more : bool) : SM DBImpl unit :=
  let* d := get in
  guard (background_compaction_scheduled_ d);;
  match db_imm d with
  | None => fail
  | Some imm =>
      let s := if ok s && shutting_down_ d then IOError "Deleting DB during memtable compaction" else s in
      if ok s then
        let v := set_levels files (NeedsCompaction files more) (set_log_number (logfile_number_ d) (set_tables (tables (versions_ d) ++ [imm]) (versions_ d))) in
        modify (set_versions v);;
        modify (set_imm None);;
        modify (set_disk (filter (fun x => log_number_ v <= x.1) (disk d)))
      else RecordBackgroundError s
  end.

(** Another new version, or a failure, of the background thread. *)
Definition background_change (files : Z) (more : bool) : SM DBImpl unit :=
  let* d := get in
  guard (background_compaction_scheduled_ d);;
  modify (set_versions (set_levels files (NeedsCompaction files more) (versions_ d))).

Definition background_error (s : Status) : SM DBImpl unit :=
  let* d := get in
  guard (background_compaction_scheduled_ d && negb (ok s));;
  RecordBackgroundError s.

(** The end of [BackgroundCall]. *)
Definition background_end : SM DBImpl unit :=
  let* d := get in
  guard (background_compaction_scheduled_ d);;
  modify (set_scheduled false);;
  MaybeScheduleCompaction;;
  modify (set_room_signaled true).

(** What happens: a thread calls [Write], a thread goes on, or the background thread does. *)
Inductive event :=
  | EWrite (p : Z) (updates : option (list Z)) (sync : bool) (lfile : Status * F)
  | ERun (p : Z) (lfile : Status * F)
  | ERecord (p : Z)
  | EWakeUp (p : Z)
  | ENumber
  | EFlush (s : Status) (files : Z) (more : bool)
  | EChange (files : Z) (more : bool)
  | EError (s : Status)
  | EBackground.

Definition step (e : event) : SM DBImpl unit :=
  match e with
  | EWrite p updates sync lfile => write_enter p updates sync lfile
  | ERun p lfile => run_thread p lfile
  | ERecord p => run_record p
  | EWakeUp p => wake_up p
  | ENumber => background_number
  | EFlush s files more => compact_memtable s files more
  | EChange files more => background_change files more
  | EError s => background_error s
  | EBackground => background_end
  end.

Fixpoint steps (es : list event) : SM DBImpl unit :=
  match es with [] => ret tt | e :: es => step e;; steps es end.

(** * Open *)

(** [DB::Open] once [Recover] has returned, where it did not keep a log and the manifest is
    to be saved, as it always is unless the options ask to reuse logs: the new log and its
    table in memory, and the new version.  [v] is the version that was recovered, with its
    tables, and [applied] what [LogAndApply] returns. *)
Definition Open (v : VersionSet) (lfile : Status * F) (applied : Status) : SM unit (Status + DBImpl) :=
  let new_log_number := next_file_number_ v in
  let (s, f) := lfile in
  if negb (ok s) then ret (inl s)
  else
    let* m := new_MemTable in
    let v := mk_versions (u64 (new_log_number + 1)) (last_sequence_ v) new_log_number 0 (num_level0 v) (needs_compaction v) (tables v) in
    let d := mk_db false false m None new_log_number (new_Writer f) [] [] ∅ new_WriteBatch false false v OK ∅ in
    fun u w =>
      match (in_memtable Ref;; if ok applied then MaybeScheduleCompaction else ret tt) d w with
      | Ok _ d w => Ok (if ok applied then inr d else inl applied) u w
      | Err d w => Err u w
      | UB => UB
      | NoFuel => NoFuel
      end.

(** * Get *)

(** The tables in memory there have been, oldest first: those that became files, which are
    there as long as a reader refers to them, [imm_] and [mem_].  A table keeps its place in
    this list, so that the place stands for the pointer. *)
Definition all_tables (d : DBImpl) : list MemTable := tables (versions_ d) ++ option_list (db_imm d) ++ [db_mem d].

(** What [Get] keeps when it releases the mutex: the key with the snapshot's number, and
    references to [mem_] and [imm_]. *)
Record GetState := mk_get { get_key : LookupKey; get_mem : nat; get_imm : option nat }.

Definition get_begin (snapshot : option Z) (key : list Z) : SM DBImpl GetState :=
  let* d := get in
  let snapshot := match snapshot with Some s => s | None => last_sequence_ (versions_ d) end in
  let* lkey := must (new_LookupKey key snapshot) in
  let n := length (tables (versions_ d)) in
  ret (match db_imm d with Some _ => mk_get lkey (S n) (Some n) | None => mk_get lkey n None end).

(** [MemTable::Get] of the table that is referred to. *)
Definition get_from (i : nat) (lkey : LookupKey) : SM DBImpl (option (list Z + Status)) := fun d w =>
  match all_tables d !! i with
  | Some m =>
      match Get user_comparator lkey m w with
      | Ok r _ w => Ok r d w
      | Err _ w => Err d w
      | UB => UB
      | NoFuel => NoFuel
      end
  | None => UB
  end.

(** [Get] up to the files: what it finds in the tables in memory; [None]: it asks the files.
    [es1] and [es2] are what happens after it has released the mutex, and between its looks at
    the two tables. *)
Definition db_Get (snapshot : option Z) (key : list Z) (es1 es2 : list event) : SM DBImpl (option (list Z + Status)) :=
  let* g := get_begin snapshot key in
  steps es1;;
  let* r := get_from (get_mem g) (get_key g) in
  match r, get_imm g with
  | None, Some i => steps es2;; get_from i (get_key g)
  | _, _ => ret r
  end.

End write.
Arguments DBImpl F : clear implicits.
Arguments event F : clear implicits.
