(* ===== verification/LdbWriteInv.v ===== *)
(** What the steps of LevelDB's write path rest on: tables in memory that others allocate
    beside, and a log to which attempts are appended that may fail. *)
From stdpp Require Import base gmap list strings numbers option sorting.
From Stdlib Require Import ZArith Lia.
From S2P Require Import Prelude Cmem Conc LdbCoding LdbCodingThms LdbEnv LdbLog LdbLogRead LdbLogThms LdbComparator LdbFormat LdbFormatThms.
From S2P Require Import LdbSkipList LdbSkipListThms LdbMemTable LdbMemTableThms LdbWriteBatch LdbWriteBatchThms LdbWrite.

(** * Triples for steps that are possible *)

Definition hoare {T A} (P : T -> Prop) (m : SM T A) (Q : A -> T -> Prop) : Prop :=
  forall s w, P s -> match m s w with Ok a s' _ => Q a s' | _ => True end.

Create HintDb hoare discriminated.

Section rules.
Context {T : Type}.

Lemma hoare_bind {A B} (P : T -> Prop) (m : SM T A) (k : A -> SM T B) Q R : hoare P m Q -> (forall a, hoare (Q a) (k a) R) -> hoare P (bind m k) R.
Proof. intros Hm Hk s w HP. unfold bind. specialize (Hm s w HP). destruct (m s w) as [a s1 w1| | |]; [|done..]. by apply Hk. Qed.

Lemma hoare_conseq {A} (P P' : T -> Prop) (m : SM T A) (Q Q' : A -> T -> Prop) : hoare P' m Q' -> (forall s, P s -> P' s) -> (forall a s, Q' a s -> Q a s) -> hoare P m Q.
Proof. intros Hm HP HQ s w Hs. specialize (Hm s w (HP s Hs)). destruct (m s w); auto. Qed.

Lemma hoare_ret {A} (P : T -> Prop) (a : A) (Q : A -> T -> Prop) : (forall s, P s -> Q a s) -> hoare P (ret a) Q.
Proof. intros HQ s w Hs. by apply HQ. Qed.

Lemma hoare_get (P : T -> Prop) (Q : T -> T -> Prop) : (forall s, P s -> Q s s) -> hoare P get Q.
Proof. intros HQ s w Hs. by apply HQ. Qed.

Lemma hoare_modify (P : T -> Prop) (f : T -> T) (Q : unit -> T -> Prop) : (forall s, P s -> Q tt (f s)) -> hoare P (modify f) Q.
Proof. intros HQ s w Hs. by apply HQ. Qed.

Lemma hoare_must {A} (P : T -> Prop) (o : option A) : hoare P (must o) (fun _ => P).
Proof. intros s w Hs. by destruct o. Qed.

Lemma hoare_fail {A} (P : T -> Prop) (Q : A -> T -> Prop) : hoare P fail Q.
Proof. by intros s w Hs. Qed.

Lemma hoare_ub {A} (P : T -> Prop) (Q : A -> T -> Prop) : hoare P ub Q.
Proof. by intros s w Hs. Qed.

Lemma hoare_guard (P : T -> Prop) b : hoare P (guard b) (fun _ s => P s /\ b = true).
Proof. intros s w Hs. by destruct b. Qed.

Lemma hoare_assert (P : T -> Prop) b : hoare P (assert_ b) (fun _ => P).
Proof. intros s w Hs. by destruct b. Qed.

Lemma hoare_loop {St R} (P : T -> Prop) (body : St -> SM T (St + R)) : (forall st, hoare P (body st) (fun _ => P)) -> forall fuel st, hoare P (loop fuel body st) (fun _ => P).
Proof.
  intros Hb fuel. induction fuel as [|fuel IH]; intros st; [by intros s w|]. cbn [loop]. eapply hoare_bind; [apply Hb|]. intros [st1|r]; [apply IH|by apply hoare_ret].
Qed.

End rules.

(** * The break of the heap only grows *)

Definition extends {T A} (m : SM T A) : Prop := forall s w a s' w', m s w = Ok a s' w' -> brk w <= brk w'.

Create HintDb extends discriminated.

Lemma extends_ret {T A} (a : A) : extends (T := T) (ret a).
Proof. by intros s w a' s' w' [= <- <- <-]. Qed.

Lemma extends_bind {T A B} (m : SM T A) (k : A -> SM T B) : extends m -> (forall a, extends (k a)) -> extends (bind m k).
Proof.
  intros Hm Hk s w b s' w'. unfold bind. destruct (m s w) as [a s1 w1| | |] eqn:E; [|done..]. intros E2. specialize (Hm _ _ _ _ _ E). specialize (Hk _ _ _ _ _ _ E2). lia.
Qed.

Lemma extends_get {T} : extends (T := T) get.
Proof. by intros s w a s' w' [= <- <- <-]. Qed.

Lemma extends_put {T} (s0 : T) : extends (put s0).
Proof. by intros s w a s' w' [= <- <- <-]. Qed.

Lemma extends_modify {T} (f : T -> T) : extends (modify f).
Proof. by intros s w a s' w' [= <- <- <-]. Qed.

Lemma extends_assert {T} b : extends (T := T) (assert_ b).
Proof. unfold assert_. destruct b; [apply extends_ret|done]. Qed.

Lemma extends_must {T A} (o : option A) : extends (T := T) (must o).
Proof. destruct o; [apply extends_ret|done]. Qed.

Lemma extends_loop {T St R} (body : St -> SM T (St + R)) : (forall st, extends (body st)) -> forall fuel st, extends (loop fuel body st).
Proof.
  intros Hb fuel. induction fuel as [|fuel IH]; intros st; [done|]. cbn [loop]. apply extends_bind; [done|]. intros [st1|r]; [apply IH|apply extends_ret].
Qed.

Lemma extends_new_array {T} n : extends (T := T) (new_array n).
Proof. intros s w a s' w' [= <- <- <-]. cbn. lia. Qed.

#[export] Hint Resolve extends_ret extends_bind extends_get extends_put extends_modify extends_assert extends_must extends_loop extends_new_array : extends.

(** Programs. *)
Fixpoint pextends {T A} (p : prog T A) : Prop :=
  match p with Ret _ => True | Act m k => extends m /\ forall b, pextends (k b) end.

Lemma pextends_run {T A} (p : prog T A) : pextends p -> extends (run p).
Proof. induction p as [a|B m k IH]; cbn; [intros _; apply extends_ret|]. intros [Hm Hk]. apply extends_bind; [done|]. intros b. apply IH, Hk. Qed.

Lemma pextends_act {T A} (m : SM T A) : extends m -> pextends (act m).
Proof. done. Qed.

Lemma pextends_bind {T A B} (p : prog T A) (k : A -> prog T B) : pextends p -> (forall a, pextends (k a)) -> pextends (pbind p k).
Proof. induction p as [a|C m k' IH]; cbn; [intros _ Hk; apply Hk|]. intros [Hm Hp] Hk. split; [done|]. intros b. by apply IH. Qed.

Lemma pextends_loop {T St R} (body : St -> prog T (St + R)) : (forall st, pextends (body st)) -> forall fuel st, pextends (ploop fuel body st).
Proof.
  intros Hb fuel. induction fuel as [|fuel IH]; intros st; [by split|]. cbn [ploop]. apply pextends_bind; [done|]. intros [st1|r]; [apply IH|done].
Qed.

#[export] Hint Resolve pextends_run pextends_act pextends_bind pextends_loop : extends.

(** Goes through a definition. *)
Ltac extends_tac := repeat first [progress auto with extends | apply extends_bind; [|intros] | apply pextends_bind; [|intros] | case_match | done].

Section table.
Context {Key : Type} (compare_ : Key -> Key -> option Z) (zero : Key).

Lemma extends_allocate n : extends (Allocate n).
Proof. unfold Allocate, AllocateFallback, AllocateNewBlock. extends_tac. Qed.

Lemma extends_allocate_aligned n : extends (AllocateAligned n).
Proof. unfold AllocateAligned, AllocateFallback, AllocateNewBlock. extends_tac. Qed.

Lemma extends_in_arena {A} (m : SM Arena A) : extends m -> extends (in_arena (Key := Key) m).
Proof. intros Hm s w a s' w'. unfold in_arena. destruct (m (arena_ s) w) as [r l w1| | |] eqn:E; [|done..]. intros [= <- <- <-]. by eapply Hm. Qed.

Lemma extends_random_height : extends (RandomHeight (Key := Key)).
Proof. unfold RandomHeight. apply extends_bind; [|extends_tac]. apply extends_loop. intros st. unfold height_step. extends_tac. Qed.

Lemma extends_new_node k h : extends (NewNode (Key := Key) k h).
Proof. unfold NewNode. apply extends_bind; [apply extends_in_arena, extends_allocate_aligned|extends_tac]. Qed.

Lemma extends_next p i : extends (Next (Key := Key) p i).
Proof. unfold Next. extends_tac. Qed.

Lemma extends_set_next p i x : extends (SetNext (Key := Key) p i x).
Proof. unfold SetNext. extends_tac. Qed.

Lemma extends_key_of p : extends (key_of (Key := Key) p).
Proof. unfold key_of. extends_tac. Qed.

#[local] Hint Resolve extends_next extends_set_next extends_key_of extends_new_node extends_random_height : extends.

Lemma pextends_find_ge fuel k prev : pextends (FindGreaterOrEqual compare_ fuel k prev).
Proof.
  unfold FindGreaterOrEqual, GetHead, GetMaxHeight. extends_tac. apply pextends_loop. intros [[x level] pr]. unfold fge_step, KeyIsAfterNode, compare_node. extends_tac.
Qed.

Lemma pextends_insert fuel k : pextends (Insert compare_ fuel k).
Proof.
  unfold Insert. apply pextends_bind; [apply pextends_find_ge|]. intros [x prev]. unfold Equal, GetHead, GetMaxHeight, SetMaxHeight. extends_tac.
  all: unfold link_step; extends_tac.
Qed.

End table.

Lemma extends_in_table {A} (m : SM (SkipList (list Z)) A) : extends m -> extends (in_table m).
Proof. intros Hm s w a s' w'. unfold in_table. destruct (m (table_ s) w) as [r l w1| | |] eqn:E; [|done..]. intros [= <- <- <-]. by eapply Hm. Qed.

Lemma extends_add user s t k v : extends (Add user s t k v).
Proof.
  unfold Add. apply extends_bind; [apply extends_in_table, extends_in_arena, extends_allocate|]. intros p. apply extends_bind; [extends_tac|]. intros [].
  apply extends_bind; [extends_tac|]. intros m. apply extends_in_table, pextends_run, pextends_insert.
Qed.

Lemma extends_on_mem {A} (m : SM MemTable A) : extends m -> extends (on_mem m).
Proof. intros Hm s w a s' w'. unfold on_mem. destruct (m (mem_ s) w) as [r l w1| | |] eqn:E; [|done..]. intros [= <- <- <-]. by eapply Hm. Qed.

Lemma extends_with_inserter {A} (p : SM MemTableInserter A) seq : extends p -> extends (with_inserter p seq).
Proof. intros Hp m w a m' w'. unfold with_inserter. destruct (p _ w) as [r i w1| | |] eqn:E; [|done..]. intros [= <- <- <-]. by eapply Hp. Qed.

Lemma extends_iterate_step user st : extends (iterate_step (inserter_Put user) (inserter_Delete user) st).
Proof.
  assert (forall k v, extends (inserter_Put user k v)) by (intros k v; unfold inserter_Put, next_sequence; extends_tac; apply extends_on_mem, extends_add).
  assert (forall k, extends (inserter_Delete user k)) by (intros k; unfold inserter_Delete, next_sequence; extends_tac; apply extends_on_mem, extends_add).
  destruct st as [input found]. unfold iterate_step. extends_tac.
Qed.

Lemma extends_iterate_rest user b st : extends (iterate_rest (inserter_Put user) (inserter_Delete user) b st).
Proof. pose proof (extends_iterate_step user). unfold iterate_rest. extends_tac. Qed.

Lemma extends_insert_into user b : extends (InsertInto user b).
Proof.
  unfold InsertInto. apply extends_bind; [extends_tac|]. intros seq. apply extends_bind; [|intros [s q]; apply extends_ret]. apply extends_with_inserter.
  pose proof (extends_iterate_rest user). unfold Iterate. extends_tac.
Qed.

Lemma extends_insert_record user x : extends (insert_record user x).
Proof. destruct x as [seq st]. unfold insert_record. apply extends_bind; [apply extends_with_inserter, extends_iterate_step|]. intros [r q]. apply extends_ret. Qed.

Lemma extends_insert_rest user b x : extends (insert_rest user b x).
Proof. destruct x as [seq st]. unfold insert_rest. apply extends_bind; [apply extends_with_inserter, extends_iterate_rest|]. intros [r q]. apply extends_ret. Qed.

(** ** A table stays as it is *)

Definition heap_ok (w : world) : Prop := 16 <= brk w /\ brk w mod 16 = 0.

Section holds.
Context {user : Comparator} {laws : ComparatorLaws}.

Lemma holds_heap vs m w : holds vs m w -> heap_ok w.
Proof. intros (_ & _ & g & _ & HI). destruct (HI _ (le_n _)) as [_ [_ _ _ _ _ _ (used & Ha & _)]]. apply Ha. Qed.

Lemma holds_grow vs m w w' : holds vs m w -> heap_ok w' -> brk w <= brk w' -> holds vs m w'.
Proof.
  intros (Hok & Hd & g & Hg & HI) Hw' Hle. split; [done|]. split; [done|]. exists g. split; [done|]. intros B HB. destruct (HI B HB) as [Hwf [H1 H2 H3 H4 H5 H6 (used & Ha & Hused)]].
  split; [done|]. split; try done. exists used. split; [|done]. destruct Ha as [_ (? & ? & ?) Hp Hu Hdis]. split; try done; try lia.
  eapply Forall_impl; [exact Hu|]. intros x (? & ? & ? & ?). repeat split; try done. lia.
Qed.

Lemma fresh_arena w : heap_ok w -> arena_ok [] new_Arena w.
Proof. intros [H1 H2]. split; cbn; unfold NULL; [done|lia|lia|apply Forall_nil_2|apply FOP_nil]. Qed.

End holds.

(** * The log *)

(** A batch that was handed to the log: its number, its updates, whether the log was synced
    behind it, and how that ended. *)
Record attempt := mk_attempt { a_seq : Z; a_updates : list update; a_sync : bool; a_status : Status }.

Definition rep_of (a : attempt) : list Z := batch_rep (a_seq a) (a_updates a).
Definition log_of (A : list attempt) : list Z := log_layout 0 (rep_of <$> A).

Lemma rep_bytes seq us : Forall update_ok us -> is_bytes (batch_rep seq us).
Proof.
  intros Hus. unfold batch_rep. rewrite fixed64_bytes, fixed32_bytes. apply Forall_app. split; [apply le_bytes_bytes|].
  apply Forall_app. split; [apply le_bytes_bytes|by apply records_bytes].
Qed.

Section log.
Context `{Placement} {F : Type} `{WritableLaws F} `{!SyncFile F} `{!SyncLaws F}.

(** Every attempt succeeded; every one but the last. *)
Definition all_ok (A : list attempt) : Prop := Forall (fun a => ok (a_status a) = true) A.
Definition sound (A : list attempt) : Prop := forall i a, A !! i = Some a -> (S i < length A)%nat -> ok (a_status a) = true.

Lemma all_ok_snoc A a : all_ok (A ++ [a]) <-> all_ok A /\ ok (a_status a) = true.
Proof. unfold all_ok. by rewrite Forall_app, Forall_singleton. Qed.

Lemma sound_snoc A a : sound (A ++ [a]) <-> all_ok A.
Proof.
  unfold sound, all_ok. rewrite Forall_lookup. split.
  - intros Hs i b Hi. apply (Hs i b); [by apply lookup_app_l_Some|]. rewrite length_app. cbn. apply lookup_lt_Some in Hi. lia.
  - intros Ha i b Hi Hlt. rewrite length_app in Hlt. cbn in Hlt. rewrite lookup_app_l in Hi by lia. by apply (Ha i).
Qed.

Lemma all_ok_sound A : all_ok A -> sound A.
Proof. unfold all_ok, sound. rewrite Forall_lookup. intros Ha i a Hi _. by apply (Ha i). Qed.

(** The file of a log of attempts.  If all of them succeeded it holds them, and nothing is in
    its buffer.  If only the last one failed, the first [n] of them are there, everything that was
    acknowledged is among them, and survives a crash if it was synced; the file holds no more
    than the attempts.  If an attempt followed one that failed, nothing is said. *)
Definition log_state (f : F) (A : list attempt) : Prop :=
  (all_ok A -> contents f = log_of A /\ clean f) /\
  (sound A -> exists n k, contents f = take k (log_of A) /\ (k <= length (log_of A))%nat /\ (length (log_of (take n A)) <= flushed f)%nat /\
    forall i a, A !! i = Some a -> ok (a_status a) = true -> (i < n)%nat /\ (a_sync a = true -> (length (log_of (take (S i) A)) <= durable f)%nat)).

Definition writer_state (l : Writer F) (A : list attempt) : Prop :=
  log_state (dest l) A /\ type_crc l = InitTypeCrc /\ 0 <= block_offset l <= kBlockSize /\
  (all_ok A -> block_offset l = log_end 0 (rep_of <$> A)).

Lemma empty_clean f : contents f = [] -> clean f.
Proof. intros Hc. pose proof (flushed_le f) as Hf. unfold clean. rewrite Hc in *. cbn in *. lia. Qed.

Lemma new_writer_state f : contents f = [] -> writer_state (new_Writer f) [].
Proof.
  intros Hc. split; [|done]. split; [intros _; split; [done|by apply empty_clean]|]. intros _. exists 0%nat, 0%nat. cbn. rewrite Hc. split; [done|]. split; [done|]. split; [lia|].
  intros i a Hi. by rewrite lookup_nil in Hi.
Qed.

Lemma log_of_snoc A a : log_of (A ++ [a]) = log_of A ++ layout (log_end 0 (rep_of <$> A)) (fragments (log_end 0 (rep_of <$> A)) (rep_of a)).
Proof. unfold log_of. rewrite fmap_app, log_layout_app. cbn [fmap list_fmap log_layout]. by rewrite app_nil_r. Qed.

Lemma log_end_snoc recs d : forall b, log_end b (recs ++ [d]) = layout_end (log_end b recs) (fragments (log_end b recs) d).
Proof. induction recs as [|d' recs IH]; intros b; cbn [app log_end]; [done|apply IH]. Qed.

Lemma log_of_status A seq us y y' s s' : log_of (A ++ [mk_attempt seq us y s]) = log_of (A ++ [mk_attempt seq us y' s']).
Proof. unfold log_of. by rewrite !fmap_app. Qed.

Lemma log_of_take A n : (length (log_of (take n A)) <= length (log_of A))%nat.
Proof. unfold log_of. rewrite fmap_take. apply log_layout_take. Qed.

(** Appending makes nothing less durable. *)
Definition durable_from (n : nat) (l : Writer F) : Prop := (n <= durable (dest l))%nat.

Lemma durable_dest_append n d : hoare (durable_from n) (dest_Append d) (fun _ => durable_from n).
Proof. intros l w Hl. unfold dest_Append. cbn [bind get]. destruct (LdbEnv.Append d (dest l)) as [s f] eqn:E. pose proof (durable_append _ _ _ _ E). unfold durable_from in *. cbn. lia. Qed.

Lemma durable_dest_flush n : hoare (durable_from n) dest_Flush (fun _ => durable_from n).
Proof. intros l w Hl. unfold dest_Flush. cbn [bind get]. destruct (Flush (dest l)) as [s f] eqn:E. pose proof (durable_flush _ _ _ E). unfold durable_from in *. cbn. lia. Qed.

Lemma durable_offset n b : hoare (durable_from n) (modify (set_block_offset b)) (fun _ => durable_from n).
Proof. by apply hoare_modify. Qed.

Lemma durable_emit n t d : hoare (durable_from n) (EmitPhysicalRecord t d) (fun _ => durable_from n).
Proof.
  unfold EmitPhysicalRecord. eapply hoare_bind; [by apply (hoare_get _ (fun _ => durable_from n))|]. intros l. do 2 (eapply hoare_bind; [apply hoare_assert|]; intros ?). eapply hoare_bind; [apply durable_dest_append|]. intros s1.
  apply (hoare_bind _ _ _ (fun _ => durable_from n)).
  - destruct (ok s1); [|by apply hoare_ret]. eapply hoare_bind; [apply durable_dest_append|]. intros s2. destruct (ok s2); [apply durable_dest_flush|by apply hoare_ret].
  - intros s. eapply hoare_bind; [apply durable_offset|]. intros ?. by apply hoare_ret.
Qed.

Lemma durable_fragment n st : hoare (durable_from n) (add_fragment st) (fun _ => durable_from n).
Proof.
  destruct st as [begin d]. unfold add_fragment, switch_block. eapply hoare_bind; [by apply (hoare_get _ (fun _ => durable_from n))|]. intros l. eapply hoare_bind; [apply hoare_assert|]. intros ?.
  apply (hoare_bind _ _ _ (fun _ => durable_from n)).
  - destruct (_ <? kHeaderSize); [|by apply hoare_ret]. apply (hoare_bind _ _ _ (fun _ => durable_from n)); [|intros ?; apply durable_offset].
    destruct (0 <? _); [|by apply hoare_ret]. eapply hoare_bind; [apply durable_dest_append|]. intros ?. by apply hoare_ret.
  - intros ?. eapply hoare_bind; [by apply (hoare_get _ (fun _ => durable_from n))|]. intros l'. eapply hoare_bind; [apply hoare_assert|]. intros ?. eapply hoare_bind; [apply durable_emit|]. intros s. destruct (_ && _); by apply hoare_ret.
Qed.

Lemma durable_record d l w s l' w' : AddRecord d l w = Ok s l' w' -> (durable (dest l) <= durable (dest l'))%nat.
Proof.
  intros E. pose proof (hoare_loop _ _ (durable_fragment (durable (dest l))) (S (S (length d))) (true, d) l w (le_n _)) as Hl. unfold AddRecord in E. by rewrite E in Hl.
Qed.

(** Acknowledged attempts, when one more is added that is not synced yet. *)
Lemma acknowledged_snoc A n m D D' a : (D <= D')%nat -> (n <= m)%nat -> a_sync a = false -> (ok (a_status a) = true -> (length A < m)%nat) ->
  (forall i b, A !! i = Some b -> ok (a_status b) = true -> (i < n)%nat /\ (a_sync b = true -> (length (log_of (take (S i) A)) <= D)%nat)) ->
  forall i b, (A ++ [a]) !! i = Some b -> ok (a_status b) = true -> (i < m)%nat /\ (a_sync b = true -> (length (log_of (take (S i) (A ++ [a]))) <= D')%nat).
Proof.
  intros HD Hnm Ha Hnew Hold i b Hi Hb. apply lookup_app_Some in Hi as [Hi|[Hle Hi]].
  - destruct (Hold i b Hi Hb) as [Hin Hd]. split; [lia|]. intros Hs. specialize (Hd Hs). rewrite take_app_le by (apply lookup_lt_Some in Hi; lia). lia.
  - apply list_lookup_singleton_Some in Hi as [Hi <-]. split; [specialize (Hnew Hb); lia|congruence].
Qed.

(** What was acknowledged in a log that all calls succeeded on. *)
Lemma log_acknowledged f A : log_state f A -> all_ok A -> forall i a, A !! i = Some a -> ok (a_status a) = true ->
  (i < length A)%nat /\ (a_sync a = true -> (length (log_of (take (S i) A)) <= durable f)%nat).
Proof.
  intros [_ Hs] Ha i a Hi Hok. destruct (Hs (all_ok_sound A Ha)) as (n & k & _ & _ & _ & Hack). split; [by eapply lookup_lt_Some|]. by apply (Hack i a).
Qed.

(** The next attempt. *)
Lemma log_attempt l A seq us w : writer_state l A -> Forall update_ok us ->
  exists s l', AddRecord (batch_rep seq us) l w = Ok s l' w /\ writer_state l' (A ++ [mk_attempt seq us false s]).
Proof.
  intros (Hst & Hcrc & Hb & Hend) Hus. pose proof (rep_bytes seq us Hus) as Hby. destruct (add_record_ok (batch_rep seq us) l w Hcrc Hby Hb) as (s & l' & E & Hcrc' & Hb' & _ & Hw).
  exists s, l'. split; [done|]. pose proof (durable_record _ _ _ _ _ _ E) as Hdur. set (a := mk_attempt seq us false s).
  pose proof (log_of_snoc A a) as Hl. change (rep_of a) with (batch_rep seq us) in Hl.
  assert (Hkey : all_ok A -> wrote (log_of A) (dest l') s (layout (log_end 0 (rep_of <$> A)) (fragments (log_end 0 (rep_of <$> A)) (batch_rep seq us))) /\
    (ok s = true -> clean (dest l') /\ block_offset l' = log_end 0 (rep_of <$> (A ++ [a])))).
  { intros Ha. destruct (proj1 Hst Ha) as [Hc Hcl]. destruct (Hw Hcl) as [Hw1 Hw2]. rewrite Hc, (Hend Ha) in Hw1. rewrite (Hend Ha) in Hw2. split; [done|]. intros Es. destruct (Hw2 Es) as [? He]. split; [done|].
    rewrite He, fmap_app. symmetry. apply log_end_snoc. }
  set (lay := layout (log_end _ _) _) in *. split; [|split; [done|split; [done|intros [Ha Es]%all_ok_snoc; by apply Hkey]]].
  split.
  - intros [Ha Es]%all_ok_snoc. change (ok s = true) in Es. destruct (Hkey Ha) as [[_ Hc] Hcl]. rewrite Es in Hc. rewrite Hl. split; [done|by apply Hcl].
  - intros Ha%sound_snoc. destruct (Hkey Ha) as [[Hf Hc] Hcl]. pose proof (log_acknowledged _ _ Hst Ha) as Hack. pose proof (log_of_take A (length A)) as Hlt. rewrite firstn_all in Hlt. destruct (ok s) eqn:Es.
    + exists (S (length A)), (length (log_of (A ++ [a]))). rewrite firstn_all. split; [by rewrite Hl|]. split; [done|].
      destruct (Hcl eq_refl) as [Hclean _]. unfold clean in Hclean. split; [rewrite take_ge by (rewrite length_app; cbn; lia); rewrite Hclean, Hc, Hl; done|].
      apply (acknowledged_snoc A (length A) _ (durable (dest l))); [done|lia|done|lia|done].
    + destruct Hc as [k Hc]. exists (length A), (length (log_of A) + Nat.min k (length lay))%nat. rewrite Hl, take_app_add. split; [|split; [rewrite length_app; lia|split]].
      * rewrite Hc. f_equal. destruct (Nat.le_gt_cases k (length lay)); [by rewrite Nat.min_l|]. rewrite Nat.min_r, !take_ge by lia. done.
      * by rewrite take_app_le, firstn_all by done.
      * apply (acknowledged_snoc A (length A) _ (durable (dest l))); [done|lia|done|cbn; congruence|done].
Qed.

(** The last attempt turns out otherwise: it failed, or it was not synced. *)
Lemma log_state_relabel f A seq us y y' s s' : (ok s' = true -> ok s = true /\ (y' = true -> y = true)) ->
  log_state f (A ++ [mk_attempt seq us y s]) -> log_state f (A ++ [mk_attempt seq us y' s']).
Proof.
  intros Hs [Hall Hsnd]. rewrite (log_of_status A seq us y y' s s') in Hall. split.
  - intros [Ha Es]%all_ok_snoc. apply Hall, all_ok_snoc. split; [done|]. by apply Hs.
  - intros Ha%sound_snoc. destruct Hsnd as (n & k & Hc & Hk & Hn & Hok); [by apply sound_snoc|].
    assert (Ht : forall m, log_of (take m (A ++ [mk_attempt seq us y' s'])) = log_of (take m (A ++ [mk_attempt seq us y s]))).
    { intros m. unfold log_of. by rewrite !fmap_take, !fmap_app. }
    exists n, k. rewrite (log_of_status A seq us y' y s' s). split; [done|]. split; [done|]. split; [by rewrite Ht|].
    intros i a Hi Hia. rewrite Ht. apply lookup_app_Some in Hi as [Hi|[Hle Hi]]; [apply (Hok i a); [by apply lookup_app_l_Some|done]|].
    apply list_lookup_singleton_Some in Hi as [Hi <-]. cbn in Hia. destruct (Hs Hia) as [Es Ey]. destruct (Hok i (mk_attempt seq us y s)) as [H1' H2']; [|done|].
    { apply lookup_app_Some. right. split; [done|]. by apply list_lookup_singleton_Some. }
    split; [done|]. cbn. intros Hy. apply H2'. by apply Ey.
Qed.

Lemma writer_state_relabel l A seq us y y' s s' : (ok s' = true -> ok s = true /\ (y' = true -> y = true)) ->
  writer_state l (A ++ [mk_attempt seq us y s]) -> writer_state l (A ++ [mk_attempt seq us y' s']).
Proof.
  intros Hs (Hl & Hc & Hb & He). split; [by eapply log_state_relabel|]. split; [done|]. split; [done|]. intros [Ha Es]%all_ok_snoc.
  rewrite He by (apply all_ok_snoc; split; [done|]; by apply Hs). by rewrite !fmap_app.
Qed.

(** Syncing the log: if it succeeds, everything in it is durable. *)
Lemma writer_sync l A seq us y s f' : writer_state l (A ++ [mk_attempt seq us y OK]) -> Sync (dest l) = (s, f') ->
  writer_state (set_dest f' l) (A ++ [mk_attempt seq us (if ok s then true else y) OK]).
Proof.
  intros (Hst & Hcrc & Hb & Hend) E. unfold writer_state, set_dest. cbn [dest type_crc block_offset]. pose proof (durable_sync _ _ _ E) as Hdur.
  assert (Ho : forall y', all_ok (A ++ [mk_attempt seq us y' OK]) <-> all_ok A) by (intros y'; rewrite all_ok_snoc; cbn; tauto).
  split; [|split; [done|split; [done|rewrite Ho; intros Ha; rewrite Hend by (by apply Ho); by rewrite !fmap_app]]].
  assert (Hf : all_ok A -> contents f' = contents (dest l) /\ clean f' /\ (ok s = true -> (length (contents (dest l)) <= durable f')%nat)).
  { intros Ha. destruct (proj1 Hst (proj2 (Ho y) Ha)) as [_ Hcl]. unfold clean in *. pose proof (flushed_le f'). destruct (ok s) eqn:Es.
    - destruct s; [|done]. destruct (sync_ok _ _ E) as (Hc & Hf & Hd). rewrite Hc in *. split; [done|]. split; [lia|done].
    - destruct (sync_fail _ _ _ E Es) as (Hf & k & Hk & Hc). rewrite take_ge in Hc by lia. rewrite Hc in *. split; [done|]. split; [lia|done]. }
  set (y' := if ok s then true else y) in *. assert (El : log_of (A ++ [mk_attempt seq us y' OK]) = log_of (A ++ [mk_attempt seq us y OK])) by apply log_of_status.
  split.
  - intros Ha%Ho. destruct (Hf Ha) as (Hc & Hcl & _). rewrite Hc, El. split; [|done]. apply Hst. by apply Ho.
  - intros Ha%sound_snoc. destruct (Hf Ha) as (Hc & Hcl & Hd). destruct (proj1 Hst (proj2 (Ho y) Ha)) as [Hc0 _]. set (A1 := A ++ [mk_attempt seq us y OK]) in *.
    exists (length A1), (length (log_of A1)). rewrite El, firstn_all, Hc. split; [done|]. split; [done|].
    assert (Ht : forall m, log_of (take m (A ++ [mk_attempt seq us y' OK])) = log_of (take m A1)) by (intros m; unfold log_of, A1; by rewrite !fmap_take, !fmap_app).
    split; [rewrite Ht, firstn_all; unfold clean in Hcl; by rewrite Hcl, Hc, Hc0|].
    intros i a Hi Hia. rewrite Ht. assert (Hlt : (i < length A1)%nat) by (apply lookup_lt_Some in Hi; unfold A1; rewrite length_app in *; exact Hi). split; [done|]. intros Hy.
    destruct (ok s) eqn:Es; [specialize (Hd eq_refl); rewrite Hc0 in Hd; pose proof (log_of_take A1 (S i)); lia|].
    destruct (log_acknowledged _ _ Hst (proj2 (Ho y) Ha) i a Hi Hia) as [_ Hdd]. specialize (Hdd Hy). lia.
Qed.

End log.
