(* ===== verification/LdbWriteThms.v ===== *)
(** The invariant of LevelDB's write path, and that every step keeps it. *)
From stdpp Require Import base gmap list strings numbers option sorting.
From Stdlib Require Import ZArith Lia.
From S2P Require Import Prelude Cmem LdbCoding LdbCodingThms LdbEnv LdbLog LdbLogRead LdbLogThms LdbComparator LdbFormat LdbFormatThms.
From S2P Require Import LdbSkipList LdbSkipListThms LdbMemTable LdbMemTableThms LdbWriteBatch LdbWriteBatchThms LdbWrite LdbWriteInv.

(** * Weakest preconditions: a step that is possible ends, and its result is as stated *)

Definition wp {T A} (m : SM T A) (Q : A -> T -> world -> Prop) (s : T) (w : world) : Prop :=
  match m s w with Ok a s w => Q a s w | Err _ _ => True | UB | NoFuel => False end.

Lemma wp_seq {T A B} (m : SM T A) (k : A -> SM T B) Q s w : wp m (fun a => wp (k a) Q) s w -> wp (bind m k) Q s w.
Proof. unfold wp, bind. by destruct (m s w). Qed.

Lemma wp_weaken {T A} (m : SM T A) (Q Q' : A -> T -> world -> Prop) s w : wp m Q s w -> (forall a s w, Q a s w -> Q' a s w) -> wp m Q' s w.
Proof. unfold wp. destruct (m s w); auto. Qed.

Lemma wp_eval {T A} (m : SM T A) Q s w a s' w' : m s w = Ok a s' w' -> Q a s' w' -> wp m Q s w.
Proof. unfold wp. by intros ->. Qed.

Lemma wp_guard {T} b (Q : unit -> T -> world -> Prop) s w : (b = true -> Q tt s w) -> wp (guard b) Q s w.
Proof. unfold wp, guard. destruct b; [intros HQ; by apply HQ|done]. Qed.

(** * What the callers asked for, and the groups it was written in *)

Record call := mk_call { c_id : Z; c_updates : option (list update); c_sync : bool }.
Record group := mk_group { members : list call; outcome : Status; numbered : bool }.

Definition updates_of (c : call) : list update := default [] (c_updates c).
Definition group_updates (cs : list call) : list update := mjoin (updates_of <$> cs).
Definition count_updates (cs : list call) : Z := Z.of_nat (length (group_updates cs)).
Definition calls_in (gs : list group) : list call := mjoin (members <$> gs).

(** A group that reached the log used up a number for each of its updates. *)
Definition group_length (g : group) : Z := if numbered g then count_updates (members g) else 0.

Fixpoint total (gs : list group) : Z := match gs with [] => 0 | g :: gs => group_length g + total gs end.

(** The leader asked for the log to be synced. *)
Definition synced (cs : list call) : bool := match cs with c :: _ => c_sync c | [] => false end.

Fixpoint attempts (seq : Z) (gs : list group) : list attempt :=
  match gs with
  | [] => []
  | g :: gs => (if numbered g then [mk_attempt seq (group_updates (members g)) (synced (members g)) (outcome g)] else []) ++ attempts (seq + group_length g) gs
  end.

Definition versions_in (A : list attempt) : list version :=
  mjoin ((fun a => if ok (a_status a) then versions_of (a_seq a) (a_updates a) else []) <$> A).

Lemma group_updates_app cs cs' : group_updates (cs ++ cs') = group_updates cs ++ group_updates cs'.
Proof. unfold group_updates. by rewrite fmap_app, join_app. Qed.

Lemma count_updates_app cs cs' : count_updates (cs ++ cs') = count_updates cs + count_updates cs'.
Proof. unfold count_updates. rewrite group_updates_app, length_app. lia. Qed.

Lemma count_nonneg cs : 0 <= count_updates cs.
Proof. unfold count_updates. lia. Qed.

Lemma group_length_nonneg g : 0 <= group_length g.
Proof. unfold group_length. destruct (numbered g); [apply count_nonneg|lia]. Qed.

Lemma total_nonneg gs : 0 <= total gs.
Proof. induction gs as [|g gs IH]; cbn; [lia|]. pose proof (group_length_nonneg g). lia. Qed.

Lemma total_app gs gs' : total (gs ++ gs') = total gs + total gs'.
Proof. induction gs as [|g gs IH]; cbn; [done|]. rewrite IH. lia. Qed.

Lemma total_calls gs : total gs <= count_updates (calls_in gs).
Proof.
  induction gs as [|g gs IH]; [done|]. change (calls_in (g :: gs)) with (members g ++ calls_in gs). rewrite count_updates_app. cbn [total]. unfold group_length.
  pose proof (count_nonneg (members g)). destruct (numbered g); lia.
Qed.

Lemma calls_in_app gs gs' : calls_in (gs ++ gs') = calls_in gs ++ calls_in gs'.
Proof. unfold calls_in. by rewrite fmap_app, join_app. Qed.

Lemma attempts_app gs gs' : forall seq, attempts seq (gs ++ gs') = attempts seq gs ++ attempts (seq + total gs) gs'.
Proof.
  induction gs as [|g gs IH]; intros seq; cbn [attempts total app]; [by rewrite Z.add_0_r|]. rewrite IH, <- app_assoc. do 3 f_equal. lia.
Qed.

Lemma versions_in_app A A' : versions_in (A ++ A') = versions_in A ++ versions_in A'.
Proof. unfold versions_in. by rewrite fmap_app, join_app. Qed.

(** Later groups have higher numbers. *)
Lemma versions_in_range gs : forall seq, Forall (fun v => seq <= v_seq v < seq + total gs) (versions_in (attempts seq gs)).
Proof.
  induction gs as [|g gs IH]; intros seq; cbn [attempts total]; [constructor|]. rewrite versions_in_app. pose proof (total_nonneg gs). pose proof (group_length_nonneg g). apply Forall_app. split.
  - unfold group_length. destruct (numbered g); [|constructor]. unfold versions_in. cbn. rewrite app_nil_r. destruct (ok (outcome g)); [|constructor].
    eapply Forall_impl; [apply versions_of_range|]. cbn. unfold count_updates. lia.
  - eapply Forall_impl; [apply IH|]. cbn. lia.
Qed.

Lemma ascending_app vs vs' n : ascending vs -> ascending vs' -> Forall (fun v => v_seq v < n) vs -> Forall (fun v => n <= v_seq v) vs' -> ascending (vs ++ vs').
Proof.
  intros H1 H2 H3 H4. induction H1 as [|v vs H1 IH Hv]; [done|]. apply Forall_cons_1 in H3 as [H3 H3']. cbn. apply SSorted_cons; [by apply IH|].
  apply Forall_app. split; [done|]. eapply Forall_impl; [exact H4|]. cbn. lia.
Qed.

Lemma versions_in_ascending gs : forall seq, ascending (versions_in (attempts seq gs)).
Proof.
  induction gs as [|g gs IH]; intros seq; cbn [attempts]; [constructor|]. rewrite versions_in_app. apply (ascending_app _ _ (seq + group_length g)); [|apply IH| |].
  - destruct (numbered g); [|constructor]. unfold versions_in. cbn. rewrite app_nil_r. destruct (ok (outcome g)); [apply versions_of_ascending|constructor].
  - unfold group_length. destruct (numbered g); [|constructor]. unfold versions_in. cbn. rewrite app_nil_r. destruct (ok (outcome g)); [|constructor].
    eapply Forall_impl; [apply versions_of_range|]. cbn. unfold count_updates. lia.
  - eapply Forall_impl; [apply versions_in_range|]. cbn. lia.
Qed.

(** * The invariant *)

Section inv.
Context `{Placement} {F : Type} `{WritableLaws F} `{!SyncFile F} `{!SyncLaws F}.
Context {user : Comparator} {laws : ComparatorLaws} (write_buffer_size : Z).
(** The number of the first update. *)
Context (seq0 : Z).

Notation DB := (DBImpl F).

(** What a caller may ask for: updates whose keys the comparator orders, and not too many. *)
Definition call_ok (c : call) : Prop := keys_ok (updates_of c) /\ size (batch_rep 0 (updates_of c)) < 2 ^ 30.

Definition batch_is (us : option (list update)) (b : option (list Z)) : Prop :=
  match us, b with Some us, Some b => exists s, 0 <= s < 2 ^ 64 /\ b = batch_rep s us | None, None => True | _, _ => False end.

Definition has_object (d : DB) (c : call) : Prop :=
  exists o, writer_objects d !! c_id c = Some o /\ w_done o = false /\ w_sync o = c_sync c /\ batch_is (c_updates c) (w_batch o).

Definition queued (d : DB) (c : call) : Prop := threads d !! c_id c = Some Waiting /\ has_object d c.

(** The leader has set the status; the thread has returned it or is about to. *)
Definition finished (d : DB) (s : Status) (c : call) : Prop :=
  (threads d !! c_id c = Some (Returned s) /\ writer_objects d !! c_id c = None) \/
  (threads d !! c_id c = Some Waiting /\ exists o, writer_objects d !! c_id c = Some o /\ w_done o = true /\ w_status o = s /\ signaled o = true).

(** The queue, but for where the thread at its front stands. *)
Record queue_ok (calls : list call) (gs : list group) (q : list call) (d : DB) : Prop := {
  q_calls : calls = calls_in gs ++ q;
  q_ids : NoDup (c_id <$> calls);
  q_ok : Forall call_ok calls;
  q_writers : writers_ d = c_id <$> q;
  q_threads p : is_Some (threads d !! p) -> p ∈ c_id <$> calls;
  q_done g c : g ∈ gs -> c ∈ members g -> finished d (outcome g) c;
  q_sync g c : g ∈ gs -> c ∈ members g -> c_sync c = true -> synced (members g) = true;
  q_group g : g ∈ gs -> members g <> [] /\ count_updates (members g) < 2 ^ 31;
  q_front c : head q = Some c -> has_object d c;
  q_tail c : c ∈ tail q -> queued d c;
}.

(** The tables and the logs: the groups [gs], of which the last ones are in [db_imm] and in
    [db_mem]; the attempt of the leader may be in the log ([Y]) and in the table ([X])
    already. *)
Record data_ok (files : Z) (gs : list group) (X Y : list attempt) (d : DB) (w : world) : Prop := {
  d_eras : exists g0 g1 g2, gs = g0 ++ g1 ++ g2 /\
    let A0 := attempts seq0 g0 in
    let A1 := attempts (seq0 + total g0) g1 in
    let A2 := attempts (seq0 + total g0 + total g1) g2 in
    (exists vss, mjoin vss = versions_in A0 /\ Forall2 (fun vs m => holds vs m w) vss (tables (versions_ d))) /\
    match db_imm d with
    | Some m => holds (versions_in A1) m w /\ exists n f, disk d = [(n, f)] /\ log_state f A1 /\ log_number_ (versions_ d) <= n < logfile_number_ d
    | None => g1 = [] /\ disk d = []
    end /\
    holds (versions_in (A2 ++ X)) (db_mem d) w /\ writer_state (log_ d) (A2 ++ Y);
  d_sequence : last_sequence_ (versions_ d) = seq0 - 1 + total gs;
  d_numbers : 0 <= log_number_ (versions_ d) <= logfile_number_ d /\ logfile_number_ d < next_file_number_ (versions_ d) <= files;
  d_prev : prev_log_number_ (versions_ d) = 0;
}.

(** The leader is writing for the group [ms]. *)
Record flight (q : list call) (d : DB) (u : batch_ptr) (n l : Z) (ms : list call) : Prop := {
  f_group : exists rest, q = ms ++ rest;
  f_last : last (c_id <$> ms) = Some l;
  f_sync c : c ∈ ms -> c_sync c = true -> synced ms = true;
  f_size : count_updates ms < 2 ^ 31;
  f_sequence : n = last_sequence_ (versions_ d) + count_updates ms;
  f_batch : match u with
            | Own p => tmp_batch_ d = new_WriteBatch /\ exists c rest o, ms = c :: rest /\ p = c_id c /\ writer_objects d !! p = Some o /\
                w_batch o = Some (batch_rep (last_sequence_ (versions_ d) + 1) (group_updates ms))
            | Tmp => tmp_batch_ d = batch_rep (last_sequence_ (versions_ d) + 1) (group_updates ms)
            end;
}.

Definition attempt_of (d : DB) (ms : list call) (sync : bool) (s : Status) : attempt := mk_attempt (last_sequence_ (versions_ d) + 1) (group_updates ms) sync s.

(** What [InsertInto] has done of the updates [us]. *)
Definition inserted (seq : Z) (us done : list update) (progress : option insertion) : Prop :=
  exists rest, us = done ++ rest /\
    match progress with
    | None => done = []
    | Some x => x = (seq + Z.of_nat (length done), (records rest, Z.of_nat (length done)))
    end.

Definition idle (files : Z) (gs : list group) (d : DB) (w : world) : Prop := data_ok files gs [] [] d w /\ tmp_batch_ d = new_WriteBatch.

Definition front_ok (files : Z) (gs : list group) (q : list call) (d : DB) (w : world) : Prop :=
  match q with
  | [] => idle files gs d w
  | c :: _ =>
      match threads d !! c_id c with
      | Some Waiting => idle files gs d w /\ exists o, writer_objects d !! c_id c = Some o /\ signaled o = true
      | Some (Sleeping _) | Some (RoomWaiting _ _) => idle files gs d w
      | Some (Logging u n l) => exists ms, flight q d u n l ms /\ data_ok files gs [] [] d w
      | Some (Syncing u n l) => exists ms, flight q d u n l ms /\ synced ms = true /\ data_ok files gs [] [attempt_of d ms false OK] d w
      | Some (Inserting u n l x) => exists ms us, flight q d u n l ms /\ inserted (last_sequence_ (versions_ d) + 1) (group_updates ms) us x /\
          data_ok files gs [mk_attempt (last_sequence_ (versions_ d) + 1) us (synced ms) OK] [attempt_of d ms (synced ms) OK] d w
      | Some (Relocking s e u n l) => exists ms, flight q d u n l ms /\ data_ok files gs [attempt_of d ms (synced ms) s] [attempt_of d ms (synced ms) s] d w
      | _ => False
      end
  end.

Definition db_inv (files : Z) (calls : list call) (gs : list group) (q : list call) (d : DB) (w : world) : Prop :=
  queue_ok calls gs q d /\ front_ok files gs q d w.

(** In a stretch of the thread at the front, before it is clear where it stops. *)
Definition running (files : Z) (calls : list call) (gs : list group) (q : list call) (p : Z) (d : DB) (w : world) : Prop :=
  queue_ok calls gs q d /\ idle files gs d w /\ head (c_id <$> q) = Some p.

(** After a step from a state in which the groups [gs0] were through. *)
Definition done_inv (files : Z) (calls : list call) (gs0 : list group) (d : DB) (w : world) : Prop := exists gs q, gs0 `prefix_of` gs /\ db_inv files calls gs q d w.

Notation ids := (fmap c_id).

(** ** Frames *)

Lemma queue_front calls gs q d p : queue_ok calls gs q d -> head (ids q) = Some p ->
  exists c rest, q = c :: rest /\ c_id c = p /\ has_object d c /\ (forall c', c' ∈ rest -> c_id c' <> p) /\ (forall g c', g ∈ gs -> c' ∈ members g -> c_id c' <> p).
Proof.
  intros HQ Hp. destruct q as [|c rest]; [done|]. injection Hp as Hp. exists c, rest. split; [done|]. split; [done|]. split; [by apply (q_front _ _ _ _ HQ)|].
  pose proof (q_ids _ _ _ _ HQ) as Hnd. rewrite (q_calls _ _ _ _ HQ), fmap_app in Hnd. apply NoDup_app in Hnd as (_ & Hd & Hq). cbn in Hq. apply NoDup_cons in Hq as [Hc Hq]. split.
  - intros c' Hc' E. apply Hc. rewrite Hp, <- E. by apply list_elem_of_fmap_2.
  - intros g c' Hg Hc' E. apply (Hd (c_id c')).
    + apply list_elem_of_fmap_2. apply list_elem_of_join. exists (members g). split; [done|by apply list_elem_of_fmap_2].
    + rewrite E, <- Hp. by left.
Qed.

(** The thread at the front changes its stage and its batch. *)
Lemma writers_frame calls gs q d d' p : queue_ok calls gs q d -> head (ids q) = Some p -> writers_ d' = writers_ d ->
  (forall p', p' <> p -> threads d' !! p' = threads d !! p' /\ writer_objects d' !! p' = writer_objects d !! p') ->
  (forall c, head q = Some c -> has_object d' c) -> queue_ok calls gs q d'.
Proof.
  intros HQ Hp Hw Hd Hf. destruct (queue_front _ _ _ _ _ HQ Hp) as (c & rest & -> & Hc & _ & Hrest & Hgs). destruct HQ as [? ? ? ? Ht Hdone Hsy Hgr Hfr Htl]. split; try done; [congruence| | |].
  - intros p' Hp'. destruct (decide (p' = p)) as [->|Hne].
    + rewrite q_calls0, fmap_app, elem_of_app. right. rewrite <- Hc. by left.
    + apply Ht. by rewrite <- (proj1 (Hd p' Hne)).
  - intros g c' Hg Hc'. destruct (Hd (c_id c') (Hgs g c' Hg Hc')) as [E1 E2]. specialize (Hdone g c' Hg Hc'). unfold finished in *. by rewrite E1, E2.
  - intros c' Hc'. destruct (Hd (c_id c') (Hrest c' Hc')) as [E1 E2]. specialize (Htl c' Hc'). unfold queued, has_object in *. by rewrite E1, E2.
Qed.

Lemma stage_frame calls gs q d p st : queue_ok calls gs q d -> head (ids q) = Some p -> queue_ok calls gs q (set_threads (<[p := st]> (threads d)) d).
Proof.
  intros HQ Hp. eapply writers_frame; [exact HQ|exact Hp|done| |].
  - intros p' Hne. cbn. by rewrite lookup_insert_ne.
  - apply (q_front _ _ _ _ HQ).
Qed.

(** What [data_ok] looks at. *)
Definition same_data (d d' : DB) : Prop :=
  tables (versions_ d') = tables (versions_ d) /\ db_imm d' = db_imm d /\ disk d' = disk d /\ log_number_ (versions_ d') = log_number_ (versions_ d) /\
  logfile_number_ d' = logfile_number_ d /\ db_mem d' = db_mem d /\ log_ d' = log_ d /\ last_sequence_ (versions_ d') = last_sequence_ (versions_ d) /\
  next_file_number_ (versions_ d') = next_file_number_ (versions_ d) /\ prev_log_number_ (versions_ d') = prev_log_number_ (versions_ d).

Lemma data_frame files files' gs X Y d d' w : data_ok files gs X Y d w -> same_data d d' -> files <= files' -> data_ok files' gs X Y d' w.
Proof.
  intros [He Hs Hn Hp] (E1 & E2 & E3 & E4 & E5 & E6 & E7 & E8 & E9 & E10) Hf. split.
  - by rewrite E1, E2, E3, E4, E5, E6, E7.
  - congruence.
  - rewrite E4, E5, E9. lia.
  - congruence.
Qed.

(** ** The end of a group *)

Lemma pop_one p st x (d : DB) w : (x <> p -> is_Some (writer_objects d !! x)) ->
  exists m, (if negb (x =? p) then let* o := load_writer x in store_writer x (mk_dbwriter st (w_batch o) (w_sync o) true (signaled o));; signal x else ret tt) d w = Ok tt (set_objects m d) w /\
    (forall y, y <> x \/ y = p -> m !! y = writer_objects d !! y) /\
    (x <> p -> exists o, m !! x = Some o /\ w_done o = true /\ w_status o = st /\ signaled o = true).
Proof.
  intros Hobj. destruct (Z.eqb_spec x p) as [E|Hne]; cbn [negb].
  - exists (writer_objects d). split; [by destruct d|]. split; [done|]. by intros [].
  - destruct (Hobj Hne) as [o Ho]. unfold signal, load_writer, store_writer. cbn. rewrite Ho. cbn. rewrite lookup_insert_eq. cbn.
    eexists. split; [reflexivity|]. split.
    + intros y Hy. rewrite insert_insert_eq, lookup_insert_ne by (destruct Hy; congruence). done.
    + intros _. rewrite insert_insert_eq, lookup_insert_eq. by eexists.
Qed.

Lemma pop_cons p l st x queue (d : DB) w :
  pop_writers p l st (x :: queue) d w =
  bind (if negb (x =? p) then let* o := load_writer x in store_writer x (mk_dbwriter st (w_batch o) (w_sync o) true (signaled o));; signal x else ret tt)
    (fun _ => if x =? l then ret tt else pop_writers p l st queue) (set_writers queue d) w.
Proof. done. Qed.

Lemma pop_ok p l st rest w : forall ms (d : DB), NoDup (ids (ms ++ rest)) -> last (ids ms) = Some l ->
  (forall c, c ∈ ms -> c_id c <> p -> is_Some (writer_objects d !! c_id c)) ->
  exists m, pop_writers p l st (ids (ms ++ rest)) d w = Ok tt (set_objects m (set_writers (ids rest) d)) w /\
    (forall x, x ∉ ids ms \/ x = p -> m !! x = writer_objects d !! x) /\
    forall c, c ∈ ms -> c_id c <> p -> exists o, m !! c_id c = Some o /\ w_done o = true /\ w_status o = st /\ signaled o = true.
Proof.
  induction ms as [|c ms IH]; intros d Hnd Hl Hobj; [done|]. cbn [fmap list_fmap app] in Hnd. apply NoDup_cons in Hnd as [Hc Hnd].
  destruct (pop_one p st (c_id c) (set_writers (ids (ms ++ rest)) d) w) as (m1 & E1 & Hm1 & Hc1); [intros Hne; apply Hobj; [by left|done]|]. cbn [writer_objects set_writers] in Hm1.
  change (ids ((c :: ms) ++ rest)) with (c_id c :: ids (ms ++ rest)). rewrite pop_cons. unfold bind at 1. rewrite E1. destruct (Z.eqb_spec (c_id c) l) as [El|Hne].
  - assert (ms = []) as ->.
    { destruct ms as [|c' ms]; [done|]. exfalso. apply Hc. rewrite fmap_app, elem_of_app. left. apply last_Some_elem_of. rewrite El. exact Hl. }
    exists m1. split; [done|]. split.
    + intros x Hx. apply Hm1. destruct Hx as [Hx|Hx]; [left; intros ->; apply Hx; by left|by right].
    + intros c' Hc'. apply list_elem_of_singleton in Hc' as ->. exact Hc1.
  - assert (Hl2 : last (ids ms) = Some l) by (eapply last_cons_Some_ne; [exact Hne|exact Hl]).
    destruct (IH (set_objects m1 (set_writers (ids (ms ++ rest)) d)) Hnd Hl2) as (m & E & Hm & Hms).
    + intros c' Hc' Hp. cbn. rewrite Hm1; [apply Hobj; [by right|done]|]. left. intros E. apply Hc. rewrite <- E, fmap_app, elem_of_app. left. by apply list_elem_of_fmap_2.
    + exists m. split; [exact E|]. cbn [writer_objects set_objects] in Hm. split.
      * intros x Hx. rewrite Hm; [apply Hm1|]; (destruct Hx as [Hx|Hx]; [left|by right]); [intros ->; apply Hx; by left|]. intros Hin. apply Hx. by right.
      * intros c' Hc' Hp. apply elem_of_cons in Hc' as [->|Hc']; [|by apply Hms]. rewrite Hm; [by apply Hc1|]. left. intros Hin. apply Hc. rewrite fmap_app, elem_of_app. by left.
Qed.

Lemma ids_apart (l1 l2 : list call) c c' : NoDup (ids (l1 ++ l2)) -> c ∈ l1 -> c' ∈ l2 -> c_id c <> c_id c'.
Proof.
  intros Hnd Hc Hc' E. rewrite fmap_app in Hnd. apply NoDup_app in Hnd as (_ & Hd & _).
  apply (Hd (c_id c)); [by apply list_elem_of_fmap_2|]. rewrite E. by apply list_elem_of_fmap_2.
Qed.

Lemma in_calls g c gs : g ∈ gs -> c ∈ members g -> c ∈ calls_in gs.
Proof. intros Hg Hc. apply list_elem_of_join. exists (members g). split; [done|by apply list_elem_of_fmap_2]. Qed.

Lemma same_data_trans d1 d2 d3 : same_data d1 d2 -> same_data d2 d3 -> same_data d1 d3.
Proof. unfold same_data. intros H12 H23. decompose [and] H12. decompose [and] H23. repeat split; congruence. Qed.

Lemma idle_frame files gs d d' w : idle files gs d w -> same_data d d' -> tmp_batch_ d' = tmp_batch_ d -> idle files gs d' w.
Proof. intros [Hd Ht] Hs E. split; [eapply data_frame; [exact Hd|done|lia]|congruence]. Qed.

(** The new front of the queue is told. *)
Lemma notify_ok (d : DB) w rest : writers_ d = ids rest -> (forall c, head rest = Some c -> is_Some (writer_objects d !! c_id c)) ->
  exists m, (match writers_ d with front :: _ => signal front | [] => ret tt end) d w = Ok tt (set_objects m d) w /\
    (forall x, head (ids rest) <> Some x -> m !! x = writer_objects d !! x) /\
    forall c, head rest = Some c -> exists o, writer_objects d !! c_id c = Some o /\ m !! c_id c = Some (mk_dbwriter (w_status o) (w_batch o) (w_sync o) (w_done o) true).
Proof.
  intros Hw Hf. rewrite Hw. destruct rest as [|c rest]; cbn.
  - exists (writer_objects d). split; [by destruct d|]. done.
  - destruct (Hf c eq_refl) as [o Ho]. unfold signal, load_writer, store_writer. cbn. rewrite Ho. cbn. eexists. split; [reflexivity|]. split.
    + intros x Hx. rewrite lookup_insert_ne by congruence. done.
    + intros c' [= <-]. exists o. by rewrite lookup_insert_eq.
Qed.

(** The group is off the queue, its members know how it ended, and the next one is told. *)
Lemma finish_write_ok files calls gs ms rest p l st num (d : DB) w :
  queue_ok calls gs (ms ++ rest) d -> head (ids (ms ++ rest)) = Some p -> last (ids ms) = Some l -> (forall c, c ∈ ms -> c_sync c = true -> synced ms = true) -> count_updates ms < 2 ^ 31 -> idle files (gs ++ [mk_group ms st num]) d w ->
  exists d', finish_write p l st d w = Ok tt d' w /\ db_inv files calls (gs ++ [mk_group ms st num]) rest d' w.
Proof.
  intros HQ Hp Hl Hsync Hcount Hidle. destruct (queue_front _ _ _ _ _ HQ Hp) as (c0 & q' & Eq & Hc0 & _ & _ & _).
  destruct ms as [|c1 ms]; [done|]. cbn [app] in Eq. injection Eq as -> <-. pose proof HQ as [Hcalls Hnd Hok Hwr Hth Hdone Hsy Hgr Hfr Htl].
  rewrite Hcalls in Hnd. assert (Hndq : NoDup (ids ((c0 :: ms) ++ rest))) by (rewrite fmap_app in Hnd; apply NoDup_app in Hnd; tauto).
  assert (Hobj : forall c, c ∈ (c0 :: ms) ++ rest -> has_object d c).
  { intros c Hc. cbn [app] in Hc. apply elem_of_cons in Hc as [->|Hc]; [by apply Hfr|]. by apply Htl. }
  destruct (pop_ok p l st rest w (c0 :: ms) d Hndq Hl) as (m & E & Hm & Hms).
  { intros c Hc _. destruct (Hobj c) as (o & Ho & _); [apply elem_of_app; by left|]. by eexists. }
  set (d1 := set_objects m (set_writers (ids rest) d)) in *.
  assert (Hrest : forall c, c ∈ rest -> m !! c_id c = writer_objects d !! c_id c).
  { intros c Hc. apply Hm. left. intros Hin. apply list_elem_of_fmap in Hin as (c' & Ec & Hc'). by apply (ids_apart _ _ c' c Hndq Hc' Hc). }
  destruct (notify_ok d1 w rest eq_refl) as (m2 & E2 & Hm2 & Hfront).
  { intros c Hc. cbn. rewrite Hrest by (destruct rest; [done|]; injection Hc as ->; by left). destruct (Hobj c) as (o & Ho & _); [|by eexists].
    apply elem_of_app. right. destruct rest; [done|]. injection Hc as ->. by left. }
  set (d2 := set_objects m2 d1) in *.
  exists (set_threads (<[p := Returned st]> (threads d2)) (set_objects (delete p m2) d2)). split.
  { unfold finish_write. unfold bind at 1, get at 1. unfold bind at 1. rewrite Hwr. rewrite E. unfold bind at 1, get at 1. unfold bind at 1. rewrite E2. done. }
  assert (Hsame : forall c, c ∈ calls_in gs -> m2 !! c_id c = writer_objects d !! c_id c /\ c_id c <> p).
  { intros c Hc. assert (Hne : forall c', c' ∈ (c0 :: ms) ++ rest -> c_id c <> c_id c') by (intros c' Hc'; by apply (ids_apart _ _ c c' Hnd)).
    split; [|rewrite <- Hc0; apply Hne; by left]. rewrite Hm2.
    - cbn. apply Hm. left. intros Hin. apply list_elem_of_fmap in Hin as (c' & Ec & Hc'). apply (Hne c'); [apply elem_of_app; by left|done].
    - intros Hh. destruct rest as [|c2 rest]; [done|]. injection Hh as Hh. apply (Hne c2); [apply elem_of_app; right; by left|done]. }
  assert (Hprest : forall c, c ∈ rest -> c_id c <> p) by (intros c Hc; rewrite <- Hc0; apply not_eq_sym; apply (ids_apart _ _ c0 c Hndq); [by left|done]).
  assert (Hq : queue_ok calls (gs ++ [mk_group (c0 :: ms) st num]) rest (set_threads (<[p := Returned st]> (threads d2)) (set_objects (delete p m2) d2))).
  { split; cbn [writers_ threads writer_objects set_threads set_objects set_writers].
    - rewrite calls_in_app. unfold calls_in at 2. cbn. rewrite app_nil_r, <- app_assoc. exact Hcalls.
    - by rewrite Hcalls.
    - done.
    - done.
    - intros p' Hp'. destruct (decide (p' = p)) as [->|Hne]; [|apply Hth; by rewrite lookup_insert_ne in Hp' by done]. rewrite Hcalls, fmap_app, elem_of_app. right. cbn. rewrite Hc0. by left.
    - intros g c Hg Hc. unfold finished. cbn. apply elem_of_app in Hg as [Hg|Hg].
      + destruct (Hsame c (in_calls g c gs Hg Hc)) as [Em Hne]. rewrite lookup_insert_ne, lookup_delete_ne, Em by done. apply (Hdone g c Hg Hc).
      + apply list_elem_of_singleton in Hg as ->. cbn [members outcome] in *. destruct (decide (c_id c = p)) as [Ep|Hne].
        * left. rewrite Ep, lookup_insert_eq, lookup_delete_eq. done.
        * right. rewrite lookup_insert_ne, lookup_delete_ne by done. assert (Hcm : c ∈ ms) by (apply elem_of_cons in Hc as [->|Hc]; [by destruct Hne|done]).
          split; [apply (Htl c); cbn; apply elem_of_app; by left|]. destruct (Hms c Hc Hne) as (o & Ho & Hd). exists o. split; [|done]. rewrite Hm2; [done|].
          intros Hh. destruct rest as [|c2 rest]; [done|]. injection Hh as Hh. apply (ids_apart _ _ c c2 Hndq); [done|by left|done].
    - intros g c Hg Hc. apply elem_of_app in Hg as [Hg|Hg]; [by apply Hsy|]. apply list_elem_of_singleton in Hg as ->. by apply Hsync.
    - intros g Hg. apply elem_of_app in Hg as [Hg|Hg]; [by apply Hgr|]. apply list_elem_of_singleton in Hg as ->. by split.
    - intros c Hc. destruct (Hfront c Hc) as (o & Ho & Em). assert (Hcr : c ∈ rest) by (destruct rest; [done|]; injection Hc as ->; by left).
      unfold has_object. cbn. rewrite lookup_delete_ne by (by apply not_eq_sym, Hprest). rewrite Em. eexists. split; [done|]. cbn.
      destruct (Hobj c) as (o' & Ho' & Hrest'); [apply elem_of_app; by right|]. cbn in Ho. rewrite Hrest, Ho' in Ho by done. injection Ho as <-. exact Hrest'.
    - intros c Hc. assert (Hcr : c ∈ rest) by (destruct rest; [done|]; by right). assert (Hcq : c ∈ ms ++ rest) by (apply elem_of_app; by right). destruct (Htl c Hcq) as [Ht Ho].
      split; [cbn; rewrite lookup_insert_ne; [done|by apply not_eq_sym, Hprest]|]. unfold has_object in *. cbn. rewrite lookup_delete_ne by (by apply not_eq_sym, Hprest).
      rewrite Hm2; [cbn; by rewrite Hrest|]. intros Hh. destruct rest as [|c2 rest]; [done|]. injection Hh as Hh.
      rewrite fmap_app in Hndq. apply NoDup_app in Hndq as (_ & _ & Hndr). cbn in Hndr. apply NoDup_cons in Hndr as [Hn _]. apply Hn. rewrite Hh. by apply list_elem_of_fmap_2. }
  split; [exact Hq|].
  assert (Hi : idle files (gs ++ [mk_group (c0 :: ms) st num]) (set_threads (<[p := Returned st]> (threads d2)) (set_objects (delete p m2) d2)) w).
  { eapply idle_frame; [exact Hidle| |done]. done. }
  destruct rest as [|c2 rest]; [exact Hi|]. cbn [front_ok threads set_threads set_objects set_writers].
  assert (Hne : c_id c2 <> p) by (apply Hprest; by left). rewrite lookup_insert_ne by done.
  assert (Ht : threads d !! c_id c2 = Some Waiting) by (apply (Htl c2); cbn; apply elem_of_app; right; by left). cbn. rewrite Ht. split; [exact Hi|].
  destruct (Hfront c2 eq_refl) as (o & _ & Em). rewrite lookup_delete_ne, Em by done. by eexists.
Qed.

(** ** Building the group *)

#[local] Arguments Append : simpl never.
#[local] Arguments Count : simpl never.
#[local] Arguments SetSequence : simpl never.
#[local] Arguments batch_rep : simpl never.
#[local] Arguments new_WriteBatch : simpl never.

Definition gathered (c0 : call) (ms : list call) (u : batch_ptr) (t : list Z) : Prop :=
  match u with
  | Own p => p = c_id c0 /\ t = new_WriteBatch /\ group_updates ms = updates_of c0
  | Tmp => t = batch_rep 0 (group_updates ms)
  end.

Lemma batch_rep_size seq us : size (batch_rep seq us) = 12 + size (records us).
Proof. unfold size. rewrite batch_length. lia. Qed.

Lemma count_size us seq : Z.of_nat (length us) + 12 <= size (batch_rep seq us).
Proof. rewrite batch_rep_size. unfold size. pose proof (records_length us). lia. Qed.

Lemma group_updates_snoc ms c : group_updates (ms ++ [c]) = group_updates ms ++ updates_of c.
Proof. rewrite group_updates_app. f_equal. unfold group_updates. cbn. by rewrite app_nil_r. Qed.

Lemma batch_rep_any us seq seq' : size (batch_rep seq us) = size (batch_rep seq' us).
Proof. by rewrite !batch_rep_size. Qed.

(** A batch is appended to the group. *)
Lemma gather_ok {A} (k : batch_ptr -> SM DB A) c0 ms c u f b (d : DB) w : gathered c0 ms u (tmp_batch_ d) -> w_batch f = Some b -> (exists s, b = batch_rep s (updates_of c0)) ->
  Z.of_nat (length (updates_of c0)) < 2 ^ 30 -> count_updates ms + Z.of_nat (length (updates_of c)) < 2 ^ 31 -> forall s,
  (let* result := match u with
      | Own _ => let* t := load_batch Tmp in let* n := must (Count t) in assert_ (n =? 0);; let* fb := must (w_batch f) in let* t := must (Append t fb) in store_batch Tmp t;; ret Tmp
      | Tmp => ret Tmp
      end in
   let* t := load_batch result in let* t := must (Append t (batch_rep s (updates_of c))) in store_batch result t;; k result) d w =
  k Tmp (set_tmp_batch (batch_rep 0 (group_updates (ms ++ [c]))) d) w.
Proof.
  intros Hg Hf [s0 ->] Hn0 Hn s. unfold count_updates in Hn. rewrite group_updates_snoc.
  assert (Ha : Append (batch_rep 0 (group_updates ms)) (batch_rep s (updates_of c)) = Some (batch_rep 0 (group_updates ms ++ updates_of c))) by (apply batch_append_ok; lia).
  destruct u as [p|]; cbn [gathered] in Hg.
  - destruct Hg as (-> & Ht & Eg). cbn. rewrite Ht. change (Count new_WriteBatch) with (Some 0). cbn. rewrite Hf. cbn. rewrite new_batch.
    assert (Hf0 : Append (batch_rep 0 []) (batch_rep s0 (updates_of c0)) = Some (batch_rep 0 (updates_of c0))) by (apply batch_append_ok; cbn; lia).
    rewrite Hf0. cbn. rewrite Eg in Ha |- *. by rewrite Ha.
  - cbn. rewrite Hg, Ha. done.
Qed.

Lemma group_loop_ok c0 f b w : w_batch f = Some b -> w_sync f = c_sync c0 -> (exists s, b = batch_rep s (updates_of c0)) -> Z.of_nat (length (updates_of c0)) < 2 ^ 30 ->
  forall max_size, max_size <= 2 ^ 20 -> forall rest ms size u (d : DB), writer_objects d !! c_id c0 = Some f ->
  (forall c, c ∈ rest -> has_object d c) -> Forall call_ok rest -> gathered c0 ms u (tmp_batch_ d) -> 0 <= size < 2 ^ 31 -> count_updates ms <= size ->
  forall l, last (ids ms) = Some l ->
  exists u' l' ms' rest' t, group_loop (c_id c0) max_size size u l (ids rest) d w = Ok (u', l') (set_tmp_batch t d) w /\
    rest = ms' ++ rest' /\ last (ids (ms ++ ms')) = Some l' /\ gathered c0 (ms ++ ms') u' t /\ count_updates (ms ++ ms') < 2 ^ 31 /\ forall c, c ∈ ms' -> c_sync c = true -> c_sync c0 = true.
Proof.
  intros Hf Hsy Hb Hn0 max_size Hmax rest. induction rest as [|c rest IH]; intros ms size u d Hfo Hobj Hok Hg Hsz Hcs l Hl.
  - exists u, l, [], [], (tmp_batch_ d). rewrite (app_nil_r ms). split; [by destruct d|]. split; [done|]. split; [done|]. split; [done|]. split; [lia|]. intros c Hc. by apply not_elem_of_nil in Hc.
  - assert (Hstop : exists u' l' ms' rest' t, Ok (u, l) d w = Ok (u', l') (set_tmp_batch t d) w /\ c :: rest = ms' ++ rest' /\
      last (ids (ms ++ ms')) = Some l' /\ gathered c0 (ms ++ ms') u' t /\ count_updates (ms ++ ms') < 2 ^ 31 /\ forall c, c ∈ ms' -> c_sync c = true -> c_sync c0 = true).
    { exists u, l, [], (c :: rest), (tmp_batch_ d). rewrite (app_nil_r ms). split; [by destruct d|]. split; [done|]. split; [done|]. split; [done|]. split; [lia|]. intros c' Hc'. by apply not_elem_of_nil in Hc'. }
    destruct (Hobj c ltac:(by left)) as (o & Ho & _ & Hso & Hbatch). apply Forall_cons_1 in Hok as [[_ Hc] Hok].
    cbn [ids fmap list_fmap group_loop]. unfold load_writer at 1 2. cbn [bind get must]. rewrite Ho. cbn [must ret bind get]. rewrite Hfo. cbn [must ret].
    destruct (w_sync o && negb (w_sync f)) eqn:Esy; [exact Hstop|]. assert (Hcsy : c_sync c = true -> c_sync c0 = true) by (rewrite <- Hso, <- Hsy; destruct (w_sync o), (w_sync f); done).
    assert (Hsnoc : last (ids (ms ++ [c])) = Some (c_id c)) by (rewrite fmap_app; apply last_snoc).
    destruct (w_batch o) as [bo|] eqn:Ebo; destruct (c_updates c) as [us|] eqn:Eus; try done.
    + destruct Hbatch as (s & _ & ->). assert (Eu : us = updates_of c) by (unfold updates_of; by rewrite Eus). subst us.
      pose proof (count_size (updates_of c) s) as Hcnt. rewrite (batch_rep_any _ 0 s) in Hc. unfold ByteSize. rewrite u64_small by lia.
      destruct (max_size <? size + LdbCoding.size (batch_rep s (updates_of c))) eqn:Emax; [exact Hstop|]. apply Z.ltb_ge in Emax.
      assert (Hcn : count_updates (ms ++ [c]) <= size + LdbCoding.size (batch_rep s (updates_of c))).
      { rewrite count_updates_app. unfold count_updates at 2, group_updates. cbn. rewrite app_nil_r. lia. }
      destruct (IH (ms ++ [c]) (size + LdbCoding.size (batch_rep s (updates_of c))) Tmp (set_tmp_batch (batch_rep 0 (group_updates (ms ++ [c]))) d)) with (l := c_id c)
        as (u' & l' & ms' & rest' & t & E2 & -> & Hl' & Hg' & Hn' & Hy'); try done; [|lia|].
      { intros c' Hc'. apply Hobj. by right. }
      exists u', l', (c :: ms'), rest', t. rewrite <- app_assoc in *. split; [|do 4 (split; [done|]); intros c' Hc' Hs'; apply elem_of_cons in Hc' as [->|Hc']; [by apply Hcsy|by apply (Hy' c')]].
      etrans; [|exact E2]. exact (gather_ok (fun r => group_loop (c_id c0) max_size (size + LdbCoding.size (batch_rep s (updates_of c))) r (c_id c) (ids (ms' ++ rest')))
        c0 ms c u f b d w Hg Hf Hb Hn0 ltac:(lia) s).
    + destruct (IH (ms ++ [c]) size u d) with (l := c_id c) as (u' & l' & ms' & rest' & t & E2 & -> & Hl' & Hg' & Hn' & Hy'); try done.
      { intros c' Hc'. apply Hobj. by right. }
      { unfold gathered in *. assert (En : updates_of c = []) by (unfold updates_of; by rewrite Eus). rewrite group_updates_snoc, En, app_nil_r. exact Hg. }
      { rewrite count_updates_app. unfold count_updates at 2, group_updates, updates_of. cbn. rewrite Eus. cbn. lia. }
      exists u', l', (c :: ms'), rest', t. rewrite <- app_assoc in *. do 5 (split; [done|]). intros c' Hc' Hs'. apply elem_of_cons in Hc' as [->|Hc']; [by apply Hcsy|by apply (Hy' c')].
Qed.

Lemma queue_objects calls gs q (d : DB) : queue_ok calls gs q d -> Forall call_ok q /\ forall c, c ∈ q -> has_object d c.
Proof.
  intros HQ. pose proof (q_ok _ _ _ _ HQ) as Hok. rewrite (q_calls _ _ _ _ HQ) in Hok. apply Forall_app in Hok as [_ Hok]. split; [done|].
  intros c Hc. destruct q as [|c0 rest]; [by apply not_elem_of_nil in Hc|]. apply elem_of_cons in Hc as [->|Hc]; [by apply (q_front _ _ _ _ HQ)|by apply (q_tail _ _ _ _ HQ)].
Qed.

Lemma group_build_ok calls gs c0 rest us (d : DB) w : queue_ok calls gs (c0 :: rest) d -> c_updates c0 = Some us -> tmp_batch_ d = new_WriteBatch ->
  exists u l ms rest' t, BuildBatchGroup d w = Ok (u, l) (set_tmp_batch t d) w /\ rest = ms ++ rest' /\ last (ids (c0 :: ms)) = Some l /\
    gathered c0 (c0 :: ms) u t /\ count_updates (c0 :: ms) < 2 ^ 31 /\ forall c, c ∈ c0 :: ms -> c_sync c = true -> synced (c0 :: ms) = true.
Proof.
  intros HQ Hus Ht. destruct (queue_objects _ _ _ _ HQ) as [Hok Hobj]. apply Forall_cons_1 in Hok as [[_ Hc0] Hok]. destruct (Hobj c0 ltac:(by left)) as (f & Hf & _ & Hsf & Hb).
  assert (Eu : updates_of c0 = us) by (unfold updates_of; by rewrite Hus). rewrite Hus in Hb. destruct (w_batch f) as [b|] eqn:Eb; [|done]. destruct Hb as (s & _ & ->). subst us.
  pose proof (count_size (updates_of c0) s) as Hcnt. rewrite (batch_rep_any _ 0 s) in Hc0.
  unfold BuildBatchGroup. cbn [bind get]. rewrite (q_writers _ _ _ _ HQ). cbn [fmap list_fmap]. unfold load_writer at 1. cbn [bind get must]. rewrite Hf. cbn [must ret]. rewrite Eb. cbn [must ret].
  unfold ByteSize. change (Z.shiftl 128 10) with 131072. change (Z.shiftl 1 20) with 1048576.
  set (max := if _ <=? _ then _ else _). assert (Hmax : max <= 2 ^ 20).
  { unfold max. destruct (Z.leb_spec (LdbCoding.size (batch_rep s (updates_of c0))) 131072); [|lia]. rewrite u64_small by lia. lia. }
  destruct (group_loop_ok c0 f (batch_rep s (updates_of c0)) w Eb Hsf ltac:(by eexists) ltac:(lia) max Hmax rest [c0] (LdbCoding.size (batch_rep s (updates_of c0))) (Own (c_id c0)) d Hf)
    with (l := c_id c0) as (u & l & ms & rest' & t & E & Hr & Hl & Hg & Hn & Hy); try done.
  - intros c Hc. apply Hobj. by right.
  - split; [done|]. split; [done|]. unfold group_updates. cbn. by rewrite app_nil_r.
  - lia.
  - unfold count_updates, group_updates. cbn. rewrite app_nil_r. lia.
  - exists u, l, ms, rest', t. do 5 (split; [done|]). intros c Hc Hs. cbn. apply elem_of_cons in Hc as [->|Hc]; [done|by apply (Hy c)].
Qed.

Lemma single_count calls gs c rest (d : DB) : queue_ok calls gs (c :: rest) d -> count_updates [c] < 2 ^ 31.
Proof.
  intros HQ. destruct (queue_objects _ _ _ _ HQ) as [Hok _]. apply Forall_cons_1 in Hok as [[_ Hc] _]. pose proof (count_size (updates_of c) 0).
  unfold count_updates, group_updates. cbn. rewrite app_nil_r. lia.
Qed.

(** ** Leaving MakeRoomForWrite *)

Definition budget (calls : list call) : Prop := 1 <= seq0 /\ seq0 - 1 + count_updates calls <= kMaxSequenceNumber.

Lemma budget_queue calls gs q (d : DB) : queue_ok calls gs q d -> count_updates calls = count_updates (calls_in gs) + count_updates q.
Proof. intros HQ. rewrite (q_calls _ _ _ _ HQ). apply count_updates_app. Qed.

Lemma idle_group files gs g (d : DB) w : idle files gs d w -> numbered g = false -> idle files (gs ++ [g]) d w.
Proof.
  intros [[(g0 & g1 & g2 & -> & He) Hs Hn Hp] Ht] Hg. split; [|done].
  assert (E : forall seq, attempts seq [g] = []) by (intros seq; cbn; by rewrite Hg). assert (Et : total [g] = 0) by (cbn; unfold group_length; by rewrite Hg).
  split; [|by rewrite total_app, Et, Z.add_0_r|done..]. exists g0, g1, (g2 ++ [g]). rewrite <- !app_assoc. split; [done|]. rewrite attempts_app, E, app_nil_r. done.
Qed.

Lemma after_room_ok files calls gs q p st (d : DB) w : running files calls gs q p d w -> budget calls ->
  exists d', after_room p st d w = Ok tt d' w /\ done_inv files calls gs d' w.
Proof.
  intros (HQ & Hi & Hp) [Hb1 Hb2]. destruct (queue_front _ _ _ _ _ HQ Hp) as (c0 & rest & -> & Hc0 & (o & Ho & Hdone & Hsync & Hbatch) & Hrest & Hgs).
  unfold after_room. unfold bind at 1, get at 1. unfold bind at 1, load_writer at 1. cbn [bind get]. rewrite Hc0 in Ho. rewrite Ho. cbn [must ret].
  destruct (ok st && match w_batch o with Some _ => true | None => false end) eqn:Ego.
  2: { destruct (finish_write_ok files calls gs [c0] rest p p st false d w HQ Hp) as (d' & E & Hinv); [cbn; by rewrite Hc0|intros c Hc; by apply list_elem_of_singleton in Hc as ->|by eapply single_count|by apply idle_group|].
       exists d'. split; [exact E|]. eexists _, _. split; [|exact Hinv]. by apply prefix_app_r. }
  apply andb_true_iff in Ego as [_ Eb]. destruct (w_batch o) as [b|] eqn:Ebo; [|done]. destruct (c_updates c0) as [us|] eqn:Eus; [|done]. destruct Hbatch as (s & Hs & ->).
  assert (Eu : updates_of c0 = us) by (unfold updates_of; by rewrite Eus). destruct Hi as [Hd Ht].
  destruct (group_build_ok calls gs c0 rest us d w HQ Eus Ht) as (u & l & ms & rest' & t & E & -> & Hl & Hg & Hn & Hy). unfold bind at 1. rewrite E.
  pose proof (d_sequence _ _ _ _ _ _ Hd) as Hseq. pose proof (total_nonneg gs). pose proof (total_calls gs). pose proof (budget_queue _ _ _ _ HQ) as Hbq.
  change (c0 :: ms ++ rest') with ((c0 :: ms) ++ rest') in *. rewrite count_updates_app in Hbq. pose proof (count_nonneg (c0 :: ms)). pose proof (count_nonneg rest'). change kMaxSequenceNumber with (2 ^ 56 - 1) in Hb2.
  set (seq := last_sequence_ (versions_ d)) in *. assert (Eseq : u64 (seq + 1) = seq + 1) by (rewrite u64_small; lia).
  assert (Hn2 : Z.of_nat (length (group_updates (c0 :: ms))) < 2 ^ 31) by exact Hn.
  destruct u as [p'|]; cbn [gathered] in Hg.
  - destruct Hg as (-> & -> & Hgu). unfold load_batch, store_batch, load_writer, store_writer, set_stage. cbn [bind get must writer_objects set_tmp_batch]. rewrite Hc0, Ho. cbn [must ret]. rewrite Ebo. cbn [must ret bind].
    rewrite Eseq, set_sequence_ok. cbn [must ret bind get]. cbn [writer_objects set_tmp_batch]. rewrite Ho. cbn [must ret bind modify]. rewrite count_ok by (rewrite <- Eu, <- Hgu; exact Hn). cbn [must ret bind modify].
    eexists. split; [reflexivity|]. exists gs, ((c0 :: ms) ++ rest'). split; [done|]. split.
    + eapply writers_frame; [exact HQ|exact Hp|done| |].
      * intros x Hx. cbn. by rewrite !lookup_insert_ne by done.
      * intros c [= <-]. eexists. cbn. rewrite Hc0, lookup_insert_eq. split; [done|]. cbn. do 2 (split; [done|]). rewrite Eus. exists (seq + 1). split; [lia|done].
    + cbn [front_ok app]. cbn. rewrite Hc0, lookup_insert_eq. exists (c0 :: ms). split; [|eapply data_frame; [exact Hd|done|lia]].
      split; cbn [versions_ set_threads set_objects set_tmp_batch tmp_batch_ writer_objects]; try done; [by eexists|..].
      * rewrite u64_small; [|rewrite <- Eu, <- Hgu; fold (count_updates (c0 :: ms)); lia]. unfold count_updates. rewrite Hgu, Eu. done.
      * split; [done|]. eexists c0, ms, _. split; [done|]. split; [by rewrite Hc0|]. rewrite lookup_insert_eq. split; [done|]. cbn [w_batch]. fold seq. by rewrite Hgu, Eu.
  - subst t. unfold load_batch, store_batch, set_stage. cbn [bind get ret tmp_batch_ set_tmp_batch]. rewrite Eseq, set_sequence_ok. cbn [must ret bind modify]. rewrite count_ok by exact Hn. cbn [must ret bind modify].
    assert (En : u64 (seq + Z.of_nat (length (group_updates (c0 :: ms)))) = seq + count_updates (c0 :: ms)) by (rewrite u64_small; unfold count_updates in *; lia). rewrite En.
    eexists. split; [reflexivity|]. exists gs, ((c0 :: ms) ++ rest'). split; [done|]. split.
    + eapply writers_frame; [exact HQ|exact Hp|done| |].
      * intros x Hx. cbn. by rewrite lookup_insert_ne by done.
      * intros c [= <-]. exists o. cbn. rewrite Hc0. split; [done|]. do 2 (split; [done|]). rewrite Eus, Ebo. by exists s.
    + cbn [front_ok app]. cbn. rewrite Hc0, lookup_insert_eq. exists (c0 :: ms). split; [|eapply data_frame; [exact Hd|done|lia]].
      split; cbn [versions_ set_threads set_objects set_tmp_batch tmp_batch_ writer_objects]; try done; by eexists.
Qed.

(** ** MakeRoomForWrite *)

(** A file that was created is empty. *)
Definition lfile_ok (lfile : Status * F) : Prop := ok lfile.1 = true -> contents lfile.2 = [].

Lemma idle_files files files' gs (d : DB) w : idle files gs d w -> files <= files' -> idle files' gs d w.
Proof. intros [Hd Ht] Hf. split; [|done]. by eapply data_frame. Qed.

Lemma holds_refs vs m r w : holds vs m w -> holds vs (mk_memtable (table_ m) r) w.
Proof. done. Qed.

Lemma tables_grow w w' vss ms : heap_ok w' -> brk w <= brk w' -> Forall2 (fun vs m => holds vs m w) vss ms -> Forall2 (fun vs m => holds vs m w') vss ms.
Proof. intros Hh Hb Hf. eapply Forall2_impl; [exact Hf|]. cbn. intros vs m Hm. by apply (holds_grow vs m w). Qed.

Lemma schedule_ok (d : DB) w : exists b, MaybeScheduleCompaction d w = Ok tt (set_scheduled b d) w.
Proof.
  assert (Hsame : exists b, Ok tt d w = Ok tt (set_scheduled b d) w) by (exists (background_compaction_scheduled_ d); by destruct d).
  unfold MaybeScheduleCompaction. cbn [bind get]. repeat match goal with |- context [if ?b then _ else _] => destruct b end; try exact Hsame. by eexists.
Qed.

Lemma extends_new_memtable : extends new_MemTable.
Proof.
  unfold new_MemTable. apply extends_bind; [|intros; apply extends_ret]. intros [] w l [] w'. unfold new_SkipList. set (l0 := mk_skiplist _ _ _ _ _).
  destruct (NewNode _ _ l0 w) as [h l1 w1| | |] eqn:E1; [|done..]. destruct (loop _ _ _ _ w1) as [x l2 w2| | |] eqn:E2; [|done..]. intros [= <- <-].
  pose proof (extends_new_node _ _ _ _ _ _ _ E1). assert (Hl : extends (loop (S (Z.to_nat kMaxHeight)) (fun i => if i <? kMaxHeight then let* _ := SetNext (Key := list Z) h i NULL in ret (inl (i + 1)) else ret (inr tt)) 0)).
  { apply extends_loop. intros i. destruct (i <? kMaxHeight); [|apply extends_ret]. apply extends_bind; [apply extends_set_next|intros; apply extends_ret]. }
  pose proof (Hl _ _ _ _ _ E2). lia.
Qed.

(** The table that was written to is the one to be written out, and its log is kept. *)
Lemma switch_ok files gs lfile a (d : DB) w : idle files gs d w -> lfile_ok lfile -> db_imm d = None -> files + 1 < 2 ^ 64 ->
  exists r d' w', switch_memtable lfile a d w = Ok r d' w' /\ idle (files + 1) gs d' w' /\ writers_ d' = writers_ d /\ writer_objects d' = writer_objects d /\ threads d' = threads d /\
    ((exists s, r = RGo s) \/ (r = RAgain a false /\ is_Some (db_imm d'))).
Proof.
  intros [[(g0 & g1 & g2 & -> & He) Hs Hn Hp] Ht] Hlf Himm Hfl. cbn zeta in He. rewrite Himm in He. destruct He as (Htab & (-> & Hdisk) & Hmem & Hlog). rewrite app_nil_r in Hmem, Hlog.
  unfold switch_memtable. unfold bind at 1, get at 1. rewrite Hp. unfold bind at 1, assert_ at 1. cbn [Z.eqb ret]. unfold bind at 1, NewFileNumber at 1. cbn [bind get modify ret].
  rewrite u64_small by lia. destruct lfile as [s f]. unfold lfile_ok in Hlf. cbn [fst snd] in Hlf. destruct (ok s) eqn:Es; cbn [negb].
  2: { unfold ReuseFileNumber. cbn [bind get versions_ set_versions next_file_number_ set_next_file_number]. rewrite u64_small, Z.eqb_refl by lia. cbn [modify ret]. eexists _, _, w. split; [reflexivity|]. split; [|split; [done|split; [done|split; [done|left; by eexists]]]].
       split; [|exact Ht]. split; cbn; [|done|lia|done]. exists g0, [], g2. split; [done|]. cbn. rewrite Himm, !app_nil_r. done. }
  pose proof (Hlf eq_refl) as Hc. pose proof (holds_heap _ _ _ Hmem) as Hheap.
  destruct (new_memtable_ok [] w (fresh_arena w Hheap)) as (m & w' & Em & Hm & _). pose proof (extends_new_memtable _ _ _ _ _ Em) as Hbrk. pose proof (holds_heap _ _ _ Hm) as Hheap'.
  cbn [bind modify]. unfold no_stream. rewrite Em. cbn [bind modify in_memtable Ref db_mem set_mem].
  match goal with |- context [MaybeScheduleCompaction ?d0 _] => destruct (schedule_ok d0 w') as [b Esch] end. rewrite Esch. cbn [ret].
  eexists _, _, w'. split; [reflexivity|]. split; [|split; [done|split; [done|split; [done|right; split; [done|by eexists]]]]].
  split; [|exact Ht]. split; cbn; [|done|lia|done]. exists g0, g2, []. rewrite app_nil_r. split; [done|]. cbn in Hmem, Hlog |- *. rewrite Z.add_0_r in Hmem, Hlog.
  split; [destruct Htab as (vss & Ev & Hv); exists vss; split; [exact Ev|by apply (tables_grow w)]|].
  split; [split; [by apply (holds_grow _ _ w)|]|split; [by apply holds_refs|by apply new_writer_state]].
  exists (logfile_number_ d), (dest (log_ d)). rewrite Hdisk. split; [done|]. split; [apply Hlog|lia].
Qed.

Lemma running_frame files files' calls gs q p (d d' : DB) w w' : running files calls gs q p d w -> idle files' gs d' w' -> writers_ d' = writers_ d -> writer_objects d' = writer_objects d -> threads d' = threads d ->
  running files' calls gs q p d' w'.
Proof.
  intros (HQ & _ & Hp) Hi Ew Eo Et. split; [|done]. eapply writers_frame; [exact HQ|exact Hp|done| |].
  - intros p' _. by rewrite Ew, Eo, Et || rewrite Eo, Et.
  - intros c Hc. unfold has_object. rewrite Eo. by apply (q_front _ _ _ _ HQ).
Qed.

(** The thread at the front releases the mutex in [MakeRoomForWrite]. *)
Lemma park_ok files calls gs q p (d : DB) w st : running files calls gs q p d w -> (exists f, st = Sleeping f) \/ (exists a f, st = RoomWaiting a f) ->
  done_inv files calls gs (set_threads (<[p := st]> (threads d)) d) w.
Proof.
  intros (HQ & Hi & Hp) Hst. exists gs, q. split; [done|]. split; [by apply stage_frame|]. destruct (queue_front _ _ _ _ _ HQ Hp) as (c & rest & -> & Hc & _). cbn [front_ok threads set_threads]. rewrite Hc, lookup_insert_eq.
  assert (idle files gs (set_threads (<[p:=st]> (threads d)) d) w) by (by eapply idle_frame). destruct Hst as [[f ->]|(a & f & ->)]; done.
Qed.

Definition leaves (r : room) : Prop := match r with RAgain _ _ => False | _ => True end.

Lemma room_end files calls gs q p lfile r n (d : DB) w : running files calls gs q p d w -> budget calls -> leaves r ->
  exists d', (match r with
      | RGo s => after_room p s
      | RAgain allow_delay force => room_loop write_buffer_size n p lfile allow_delay force
      | RSleep force => set_stage p (Sleeping force)
      | RWait allow_delay force => modify (set_room_signaled false);; set_stage p (RoomWaiting allow_delay force)
      end) d w = Ok tt d' w /\ done_inv files calls gs d' w.
Proof.
  intros Hr Hb Hl. destruct r as [s| |f|a f]; [|done| |].
  - by eapply after_room_ok.
  - eexists. split; [reflexivity|]. eapply park_ok; [exact Hr|left; by eexists].
  - eexists. split; [reflexivity|]. apply (park_ok files calls gs q p (set_room_signaled false d) w (RoomWaiting a f)); [|right; by eexists _, _].
    eapply running_frame; [exact Hr| |done..]. destruct Hr as (_ & Hi & _). by eapply idle_frame.
Qed.

(** A round that does not switch leaves everything as it is. *)
Lemma round_cases lfile a f (d : DB) w :
  (exists r, make_room_round write_buffer_size lfile a f d w = Ok r d w /\ leaves r) \/
  (make_room_round write_buffer_size lfile a f d w = switch_memtable lfile a d w /\ db_imm d = None).
Proof.
  unfold make_room_round. cbn [bind get]. destruct (negb (ok (bg_error_ d))); [left; by eexists|]. destruct (a && _); [left; by eexists|].
  destruct (negb f && _); [left; by eexists|]. destruct (db_imm d) eqn:Ei; [left; by eexists|]. destruct (_ <=? num_level0 _); [left; by eexists|]. by right.
Qed.

Lemma make_room_ok files calls gs q p lfile a f (d : DB) w : running files calls gs q p d w -> budget calls -> lfile_ok lfile -> files + 1 < 2 ^ 64 ->
  exists d' w', MakeRoomForWrite write_buffer_size p lfile a f d w = Ok tt d' w' /\ done_inv (files + 1) calls gs d' w'.
Proof.
  intros Hr Hb Hlf Hfl. pose proof Hr as (_ & Hi & _). assert (Hr' : running (files + 1) calls gs q p d w) by (eapply running_frame; [exact Hr|by eapply idle_files; [exact Hi|lia]|done..]).
  unfold MakeRoomForWrite. cbn [room_loop]. destruct (round_cases lfile a f d w) as [(r & E & Hl)|[E Himm]]; unfold bind at 1; rewrite E.
  - destruct (room_end _ _ _ _ _ lfile r 1 _ _ Hr' Hb Hl) as (d' & E2 & Hinv). exists d', w. by split.
  - destruct (switch_ok files gs lfile a d w Hi Hlf Himm Hfl) as (r & d' & w' & -> & Hi' & Ew & Eo & Et & Hcase).
    assert (Hr2 : running (files + 1) calls gs q p d' w') by (by eapply running_frame).
    destruct Hcase as [[s ->]|[-> [imm Himm']]].
    + destruct (room_end _ _ _ _ _ lfile (RGo s) 1 _ _ Hr2 Hb I) as (d2 & E2 & Hinv). exists d2, w'. by split.
    + cbn [room_loop]. destruct (round_cases lfile a false d' w') as [(r & E2 & Hl)|[E2 Hi2]]; [|congruence]. unfold bind at 1. rewrite E2.
      destruct (room_end _ _ _ _ _ lfile r 0 _ _ Hr2 Hb Hl) as (d2 & E3 & Hinv). exists d2, w'. by split.
Qed.

(** ** A thread goes on *)

Lemma queue_at calls gs q d d' p : queue_ok calls gs q d -> writers_ d' = writers_ d -> is_Some (threads d !! p) ->
  (forall x, x <> p -> threads d' !! x = threads d !! x /\ writer_objects d' !! x = writer_objects d !! x) ->
  (forall g c, g ∈ gs -> c ∈ members g -> c_id c = p -> finished d' (outcome g) c) ->
  (forall c, head q = Some c -> c_id c = p -> has_object d' c) ->
  (forall c, c ∈ tail q -> c_id c = p -> queued d' c) -> queue_ok calls gs q d'.
Proof.
  intros [? ? ? ? Ht Hdone Hsy Hgr Hfr Htl] Hw Hp Hd Hg Hf Hq. split; try done; [congruence| | | |].
  - intros x Hx. destruct (decide (x = p)) as [->|Hne]; [by apply Ht|]. apply Ht. by rewrite <- (proj1 (Hd x Hne)).
  - intros g c Hgs Hc. destruct (decide (c_id c = p)) as [E|Hne]; [by apply Hg|]. specialize (Hdone g c Hgs Hc). destruct (Hd _ Hne) as [E1 E2]. unfold finished in *. by rewrite E1, E2.
  - intros c Hc. destruct (decide (c_id c = p)) as [E|Hne]; [by apply Hf|]. specialize (Hfr c Hc). destruct (Hd _ Hne) as [E1 E2]. unfold has_object in *. by rewrite E2.
  - intros c Hc. destruct (decide (c_id c = p)) as [E|Hne]; [by apply Hq|]. specialize (Htl c Hc). destruct (Hd _ Hne) as [E1 E2]. unfold queued, has_object in *. by rewrite E1, E2.
Qed.

Lemma front_frame files files' gs q more (d d' : DB) w w' : (forall X Y, data_ok files gs X Y d w -> data_ok files' gs X Y d' w') -> tmp_batch_ d' = tmp_batch_ d ->
  last_sequence_ (versions_ d') = last_sequence_ (versions_ d) -> (q = [] -> more = []) ->
  (forall c, head q = Some c -> threads d' !! c_id c = threads d !! c_id c /\ writer_objects d' !! c_id c = writer_objects d !! c_id c) ->
  front_ok files gs q d w -> front_ok files' gs (q ++ more) d' w'.
Proof.
  intros Hd Ht Hs Hmore Hh. assert (Hi : idle files gs d w -> idle files' gs d' w') by (intros [Hx Hy]; split; [by apply Hd|congruence]).
  destruct q as [|c rest]; [rewrite Hmore by done; exact Hi|]. cbn [front_ok app]. destruct (Hh c eq_refl) as [E1 E2]. rewrite E1.
  assert (Hfl : forall u n l ms, flight (c :: rest) d u n l ms -> flight (c :: rest ++ more) d' u n l ms).
  { intros u n l ms [[r Hg] Hl Hsy Hn Hseq Hb]. split; [exists (r ++ more); by rewrite app_assoc, <- Hg|done|done|done|by rewrite Hs|].
    destruct u as [p|]; [|by rewrite Ht, Hs]. destruct Hb as (Hb & c1 & r1 & o & Hms & Hp & Ho & Hbo). rewrite Ht, Hs. split; [done|]. exists c1, r1, o. split; [done|]. split; [done|]. split; [|done].
    assert (c1 = c) as -> by (rewrite Hms in Hg; by injection Hg). by rewrite Hp, E2, <- Hp. }
  assert (Ha : forall ms y s, attempt_of d' ms y s = attempt_of d ms y s) by (intros ms y s; unfold attempt_of; by rewrite Hs).
  destruct (threads d !! c_id c) as [[]|]; try done.
  - intros [Hx (o & Ho & Hsg)]. split; [by apply Hi|]. exists o. by rewrite E2.
  - intros (ms & Hf & Hx). exists ms. split; [by apply Hfl|by apply Hd].
  - intros (ms & Hf & Hy & Hx). exists ms. split; [by apply Hfl|]. split; [done|]. rewrite Ha. by apply Hd.
  - intros (ms & us & Hf & Hus & Hx). exists ms, us. split; [by apply Hfl|]. rewrite Ha, Hs. split; [done|by apply Hd].
  - intros (ms & Hf & Hx). exists ms. split; [by apply Hfl|rewrite Ha; by apply Hd].
Qed.

Lemma data_files files files' gs X Y (d d' : DB) w : same_data d d' -> files <= files' -> data_ok files gs X Y d w -> data_ok files' gs X Y d' w.
Proof. intros Hs Hf Hd. by eapply data_frame. Qed.

Lemma front_thread files gs c rest (d : DB) w : front_ok files gs (c :: rest) d w -> is_Some (threads d !! c_id c).
Proof. cbn. destruct (threads d !! c_id c); [by eexists|done]. Qed.

Lemma finished_thread (d : DB) s c : finished d s c -> is_Some (threads d !! c_id c).
Proof. intros [[-> _]|[-> _]]; by eexists. Qed.

Lemma in_calls_in c gs : c ∈ calls_in gs -> exists g, g ∈ gs /\ c ∈ members g.
Proof. intros Hc. apply list_elem_of_join in Hc as (l & Hc & Hl). apply list_elem_of_fmap in Hl as (g & -> & Hg). by exists g. Qed.

(** Where the thread of a call may stand. *)
Lemma which_call files calls gs q (d : DB) w p : db_inv files calls gs q d w -> p ∈ ids calls ->
  (exists g c, g ∈ gs /\ c ∈ members g /\ c_id c = p /\ finished d (outcome g) c) \/ head (ids q) = Some p \/ (exists c, c ∈ tail q /\ c_id c = p /\ queued d c).
Proof.
  intros [HQ _] Hp. rewrite (q_calls _ _ _ _ HQ), fmap_app in Hp. apply elem_of_app in Hp as [Hp|Hp]; apply list_elem_of_fmap in Hp as (c & -> & Hc).
  - left. destruct (in_calls_in c gs Hc) as (g & Hg & Hm). exists g, c. split; [done|]. split; [done|]. split; [done|]. by apply (q_done _ _ _ _ HQ).
  - right. destruct q as [|c0 rest]; [by apply not_elem_of_nil in Hc|]. apply elem_of_cons in Hc as [->|Hc]; [by left|]. right. exists c. split; [done|]. split; [done|]. by apply (q_tail _ _ _ _ HQ).
Qed.

Lemma known_thread files calls gs q (d : DB) w p : db_inv files calls gs q d w -> p ∈ ids calls -> is_Some (threads d !! p).
Proof.
  intros Hinv Hp. destruct (which_call _ _ _ _ _ _ _ Hinv Hp) as [(g & c & _ & _ & <- & Hf)|[Hh|(c & _ & <- & Hq & _)]]; [by eapply finished_thread| |by eexists].
  destruct q as [|c rest]; [done|]. injection Hh as <-. eapply front_thread. apply Hinv.
Qed.

(** Only the leader is anywhere else than waiting for its turn. *)
Lemma leader_front files calls gs q (d : DB) w p st : db_inv files calls gs q d w -> threads d !! p = Some st -> st <> Waiting -> (forall s, st <> Returned s) -> head (ids q) = Some p.
Proof.
  intros Hinv Hst Hw Hr. assert (Hp : p ∈ ids calls) by (apply (q_threads _ _ _ _ (proj1 Hinv)); by eexists).
  destruct (which_call _ _ _ _ _ _ _ Hinv Hp) as [(g & c & _ & _ & <- & [[E _]|[E _]])|[Hh|(c & _ & <- & E & _)]]; [congruence|congruence|done|congruence].
Qed.

Lemma db_files files files' calls gs q (d : DB) w : db_inv files calls gs q d w -> files <= files' -> db_inv files' calls gs q d w.
Proof.
  intros [HQ Hf] Hle. split; [done|]. rewrite <- (app_nil_r q). eapply front_frame; [|done|done|done|done|exact Hf]. intros X Y. by apply data_files.
Qed.

(** ** Write, up to its turn *)

Lemma finished_agree (d : DB) s s' c c' : finished d s c -> finished d s' c' -> c_id c = c_id c' -> s = s'.
Proof.
  intros Hf Hf' E. unfold finished in *. rewrite E in Hf. destruct Hf as [[Ht Ho]|[Ht (o & Ho & _ & Hs & _)]], Hf' as [[Ht' Ho']|[Ht' (o' & Ho' & _ & Hs' & _)]]; congruence.
Qed.

(** A thread whose group is through returns. *)
Lemma return_ok files calls gs q (d : DB) w p g c : db_inv files calls gs q d w -> g ∈ gs -> c ∈ members g -> c_id c = p -> is_Some (threads d !! p) ->
  db_inv files calls gs q (set_threads (<[p := Returned (outcome g)]> (threads d)) (set_objects (delete p (writer_objects d)) d)) w.
Proof.
  intros [HQ Hf] Hg Hc Hp Ht. assert (Hnd : NoDup (ids (calls_in gs ++ q))) by (rewrite <- (q_calls _ _ _ _ HQ); apply (q_ids _ _ _ _ HQ)).
  pose proof (in_calls g c gs Hg Hc) as Hcg. split.
  - eapply (queue_at calls gs q d _ p); [exact HQ|done|exact Ht|..].
    + intros x Hx. cbn. by rewrite lookup_insert_ne, lookup_delete_ne.
    + intros g' c' Hg' Hc' Ep. left. cbn. rewrite Ep, lookup_insert_eq, lookup_delete_eq. split; [|done]. do 2 f_equal.
      eapply finished_agree; [apply (q_done _ _ _ _ HQ g c); done|apply (q_done _ _ _ _ HQ g' c'); done|congruence].
    + intros c' Hc' Ep. exfalso. assert (c' ∈ q) by (destruct q; [done|]; injection Hc' as ->; by left). apply (ids_apart _ _ c c' Hnd); [done|done|congruence].
    + intros c' Hc' Ep. exfalso. assert (c' ∈ q) by (destruct q; [by apply not_elem_of_nil in Hc'|]; by right). apply (ids_apart _ _ c c' Hnd); [done|done|congruence].
  - rewrite <- (app_nil_r q). eapply front_frame; [| | | | |exact Hf]; [intros X Y; by apply data_files|done|done|done|].
    intros c' Hc'. assert (Hne : c_id c' <> p). { intros Ep. assert (c' ∈ q) by (destruct q; [done|]; injection Hc' as ->; by left). apply (ids_apart _ _ c c' Hnd); [done|done|congruence]. }
    cbn. by rewrite lookup_insert_ne, lookup_delete_ne by congruence.
Qed.

(** The loop that waits for the turn, for a thread that was told to go on. *)
Lemma check_turn_ok files calls gs q (d : DB) w p lfile o : db_inv files calls gs q d w -> threads d !! p = Some Waiting -> writer_objects d !! p = Some o ->
  budget calls -> lfile_ok lfile -> files + 1 < 2 ^ 64 ->
  exists d' w', check_turn write_buffer_size p lfile d w = Ok tt d' w' /\ done_inv (files + 1) calls gs d' w'.
Proof.
  intros Hinv Ht Ho Hb Hlf Hfl. assert (Hle : files <= files + 1) by lia. pose proof Hinv as [HQ Hf]. assert (Hp : p ∈ ids calls) by (apply (q_threads _ _ _ _ HQ); by eexists).
  unfold check_turn, load_writer. cbn [bind get]. rewrite Ho. cbn [must ret].
  destruct (which_call _ _ _ _ _ _ _ Hinv Hp) as [(g & c & Hg & Hc & Ep & Hfin)|[Hh|(c & Hc & Ep & Hq & (o' & Ho' & Hdone & Hsync & Hbatch))]].
  - unfold finished in Hfin. rewrite Ep, Ht in Hfin. destruct Hfin as [[? _]|[_ (o' & Ho' & Hd & Hs & _)]]; [done|]. rewrite Ho in Ho'. injection Ho' as <-. rewrite Hd.
    eexists _, w. split; [reflexivity|]. exists gs, q. split; [done|]. rewrite Hs. eapply db_files; [|exact Hle]. apply (return_ok files calls gs q d w p g c Hinv Hg Hc Ep). by eexists.
  - destruct (queue_front _ _ _ _ _ HQ Hh) as (c & rest & -> & Ec & (o' & Ho' & Hdone & _) & _). rewrite Ec, Ho in Ho'. injection Ho' as <-. rewrite Hdone. cbn [bind get]. rewrite (q_writers _ _ _ _ HQ). cbn [fmap list_fmap head must ret].
    rewrite Ec, Z.eqb_refl. cbn [negb]. apply (make_room_ok files calls gs (c :: rest)); [|done..]. split; [done|]. split; [|done]. cbn [front_ok] in Hf. rewrite Ec, Ht in Hf. apply Hf.
  - rewrite Ep, Ho in Ho'. injection Ho' as <-. rewrite Hdone. cbn [bind get]. rewrite (q_writers _ _ _ _ HQ). destruct q as [|c0 rest]; [by apply not_elem_of_nil in Hc|]. cbn [fmap list_fmap head must ret tail] in *.
    assert (Hnd : NoDup (ids ([c0] ++ rest))) by (pose proof (q_ids _ _ _ _ HQ) as Hn; rewrite (q_calls _ _ _ _ HQ), fmap_app in Hn; apply NoDup_app in Hn; tauto).
    assert (Hne : c_id c0 <> p) by (rewrite <- Ep; apply (ids_apart _ _ c0 c Hnd); [by left|done]). rewrite (proj2 (Z.eqb_neq p (c_id c0))) by congruence. cbn [negb].
    eexists _, w. split; [reflexivity|]. exists gs, (c0 :: rest). split; [done|]. split.
    + eapply (queue_at calls gs (c0 :: rest) d _ p); [exact HQ|done|by eexists|..].
      * intros x Hx. cbn. by rewrite !lookup_insert_ne by done.
      * intros g c' Hg Hc' Ep'. exfalso. pose proof (q_ids _ _ _ _ HQ) as Hn. rewrite (q_calls _ _ _ _ HQ) in Hn. apply (ids_apart _ _ c' c Hn); [by eapply in_calls|by right|congruence].
      * intros c' [= <-] Ep'. congruence.
      * intros c' Hc' Ep'. split; [cbn; by rewrite Ep', lookup_insert_eq|]. eexists. cbn. rewrite Ep', lookup_insert_eq. split; [done|]. cbn.
        destruct (q_tail _ _ _ _ HQ c' Hc') as [_ (o2 & Ho2 & Hd2 & Hs2 & Hb2)]. rewrite Ep', Ho in Ho2. injection Ho2 as <-. done.
    + rewrite <- (app_nil_r (c0 :: rest)). eapply front_frame; [| | | | |exact Hf]; [intros X Y; by apply data_files|done|done|done|].
      intros c' [= <-]. cbn. by rewrite !lookup_insert_ne by congruence.
Qed.

(** A call that comes in. *)
Lemma enter_ok files calls gs q (d : DB) w c updates lfile : db_inv files calls gs q d w -> call_ok c -> batch_is (c_updates c) updates -> budget (calls ++ [c]) -> lfile_ok lfile -> files + 1 < 2 ^ 64 ->
  wp (write_enter write_buffer_size (c_id c) updates (c_sync c) lfile) (fun _ d' w' => done_inv (files + 1) (calls ++ [c]) gs d' w') d w.
Proof.
  intros Hinv Hok Hbatch Hb Hlf Hfl. assert (Hle : files <= files + 1) by lia. pose proof Hinv as [HQ Hf]. unfold write_enter. apply wp_seq. eapply (wp_eval _ _ _ _ d); [reflexivity|]. apply wp_seq, wp_guard. intros Hfresh.
  destruct (threads d !! c_id c) as [?|] eqn:Et; [done|]. clear Hfresh.
  assert (Hnew : c_id c ∉ ids calls) by (intros Hp; destruct (known_thread _ _ _ _ _ _ _ Hinv Hp) as [? E]; congruence).
  pose proof HQ as [Hcalls Hnd Hoks Hw Hth Hdone Hsy Hgr Hfr Htl].
  assert (Hnd' : NoDup (ids (calls ++ [c]))).
  { rewrite fmap_app. apply NoDup_app. split; [done|]. split; [|apply NoDup_singleton]. intros x Hx Hx'. apply list_elem_of_singleton in Hx' as ->. done. }
  assert (Hne : forall c', c' ∈ calls -> c_id c' <> c_id c) by (intros c' Hc' E; apply Hnew; rewrite <- E; by apply list_elem_of_fmap_2).
  assert (Hne1 : forall c', c' ∈ calls_in gs -> c_id c' <> c_id c) by (intros c' Hc'; apply Hne; rewrite Hcalls; apply elem_of_app; by left).
  assert (Hne2 : forall c', c' ∈ q -> c_id c' <> c_id c) by (intros c' Hc'; apply Hne; rewrite Hcalls; apply elem_of_app; by right).
  set (o := mk_dbwriter OK updates (c_sync c) false false). set (d1 := set_writers (writers_ d ++ [c_id c]) (set_objects (<[c_id c := o]> (writer_objects d)) d)).
  apply wp_seq. eapply (wp_eval _ _ _ _ tt (set_objects (<[c_id c := o]> (writer_objects d)) d)); [reflexivity|]. apply wp_seq. eapply (wp_eval _ _ _ _ tt d1); [reflexivity|].
  assert (Hold : forall c', c_id c' <> c_id c -> threads d1 !! c_id c' = threads d !! c_id c' /\ writer_objects d1 !! c_id c' = writer_objects d !! c_id c').
  { intros c' Hc'. split; [done|]. cbn. by rewrite lookup_insert_ne. }
  destruct q as [|c0 rest].
  - assert (Hr : running files (calls ++ [c]) gs [c] (c_id c) d1 w).
    { split; [|split; [|done]]; [|by eapply idle_frame]. rewrite app_nil_r in Hcalls. split; [by rewrite Hcalls|done|apply Forall_app; split; [done|by apply Forall_singleton]|by cbn; rewrite Hw| | |done|done| |].
      - intros x Hx. rewrite fmap_app. apply elem_of_app. left. by apply Hth.
      - intros g c' Hg Hc'. destruct (Hold c') as [E1 E2]; [apply Hne1; by eapply in_calls|]. unfold finished. rewrite E1, E2. by apply Hdone.
      - intros c' [= <-]. exists o. cbn. by rewrite lookup_insert_eq.
      - intros c' Hc'. by apply not_elem_of_nil in Hc'. }
    unfold check_turn. apply wp_seq. eapply (wp_eval _ _ _ _ o d1 w); [unfold load_writer; cbn; by rewrite lookup_insert_eq|]. cbn [w_done o]. apply wp_seq. eapply (wp_eval _ _ _ _ d1); [reflexivity|]. cbn [writers_ d1 set_writers]. rewrite Hw.
    cbn [fmap list_fmap app head]. apply wp_seq. eapply (wp_eval _ _ _ _ (c_id c)); [reflexivity|]. rewrite Z.eqb_refl. cbn [negb].
    destruct (make_room_ok files (calls ++ [c]) gs [c] (c_id c) lfile (negb (match w_batch o with Some _ => false | None => true end)) (match w_batch o with Some _ => false | None => true end) d1 w Hr Hb Hlf Hfl) as (d' & w' & E & Hd).
    by apply (wp_eval _ _ _ _ tt d' w').
  - unfold check_turn. apply wp_seq. eapply (wp_eval _ _ _ _ o d1 w); [unfold load_writer; cbn; by rewrite lookup_insert_eq|]. cbn [w_done o]. apply wp_seq. eapply (wp_eval _ _ _ _ d1); [reflexivity|]. cbn [writers_ d1 set_writers]. rewrite Hw.
    cbn [fmap list_fmap app head]. apply wp_seq. eapply (wp_eval _ _ _ _ (c_id c0)); [reflexivity|]. rewrite (proj2 (Z.eqb_neq (c_id c) (c_id c0))) by (apply not_eq_sym, Hne2; by left). cbn [negb].
    eapply wp_eval; [reflexivity|]. exists gs, ((c0 :: rest) ++ [c]). split; [done|]. split.
    + split; cbn [writers_ threads writer_objects set_threads set_objects set_writers d1].
      * by rewrite Hcalls, <- app_assoc.
      * done.
      * apply Forall_app; split; [done|by apply Forall_singleton].
      * by rewrite Hw, fmap_app.
      * intros x Hx. rewrite fmap_app, elem_of_app. destruct (decide (x = c_id c)) as [->|Hx2]; [right; by left|left; apply Hth; by rewrite lookup_insert_ne in Hx by done].
      * intros g c' Hg Hc'. assert (Hn : c_id c' <> c_id c) by (apply Hne1; by eapply in_calls). specialize (Hdone g c' Hg Hc'). unfold finished in *. cbn. by rewrite !lookup_insert_ne by congruence.
      * done.
      * done.
      * intros c' [= <-]. assert (Hn : c_id c0 <> c_id c) by (apply Hne2; by left). specialize (Hfr c0 eq_refl). unfold has_object in *. cbn. by rewrite !lookup_insert_ne by congruence.
      * cbn [tail app]. intros c' Hc'. apply elem_of_app in Hc' as [Hc'|Hc'].
        -- assert (Hn : c_id c' <> c_id c) by (apply Hne2; by right). specialize (Htl c' Hc'). unfold queued, has_object in *. cbn. by rewrite !lookup_insert_ne by congruence.
        -- apply list_elem_of_singleton in Hc' as ->. split; cbn; [by rewrite lookup_insert_eq|]. eexists. cbn. rewrite lookup_insert_eq. split; [done|]. done.
    + eapply front_frame; [| | | | |exact Hf]; [intros X Y; by apply data_files|done|done|done|].
      intros c' [= <-]. assert (Hn : c_id c0 <> c_id c) by (apply Hne2; by left). cbn. by rewrite !lookup_insert_ne by congruence.
Qed.

(** ** The leader *)

Lemma flight_updates calls gs q u n l ms (d : DB) : queue_ok calls gs q d -> flight q d u n l ms -> Forall update_ok (group_updates ms) /\ keys_fit (group_updates ms).
Proof.
  intros HQ [[rest ->] _ _ _ _ _]. destruct (queue_objects _ _ _ _ HQ) as [Hok _]. apply Forall_app in Hok as [Hok _]. unfold group_updates, keys_fit. clear HQ.
  induction Hok as [|c ms [[Hu Hk] _] _ [IH1 IH2]]; [done|]. cbn. split; apply Forall_app; by split.
Qed.

Lemma flight_batch q u n l ms (d : DB) w : flight q d u n l ms -> load_batch u d w = Ok (batch_rep (last_sequence_ (versions_ d) + 1) (group_updates ms)) d w.
Proof.
  intros [_ _ _ _ _ Hb]. destruct u as [p|]; cbn in Hb |- *; [|by rewrite Hb]. destruct Hb as (_ & c & rest & o & _ & _ & Ho & Hbo). rewrite Ho. cbn. by rewrite Hbo.
Qed.

(** The numbers of the group are in range. *)
Lemma flight_numbers calls gs q u n l ms files X Y (d : DB) w : queue_ok calls gs q d -> budget calls -> data_ok files gs X Y d w -> flight q d u n l ms ->
  0 <= last_sequence_ (versions_ d) /\ last_sequence_ (versions_ d) + count_updates ms <= kMaxSequenceNumber.
Proof.
  intros HQ [Hb1 Hb2] Hd [[rest ->] _ _ _ _ _]. pose proof (d_sequence _ _ _ _ _ _ Hd) as Hseq. pose proof (total_nonneg gs). pose proof (total_calls gs). pose proof (budget_queue _ _ _ _ HQ) as Hq.
  rewrite count_updates_app in Hq. pose proof (count_nonneg rest). lia.
Qed.

(** The leader's stage changes, and with it what the log and the table hold. *)
Lemma leader_step files calls gs q p u n l ms st X Y (d d' : DB) (w' : world) : queue_ok calls gs q d -> head (ids q) = Some p -> flight q d u n l ms ->
  writers_ d' = writers_ d -> writer_objects d' = writer_objects d -> threads d' = <[p := st]> (threads d) -> tmp_batch_ d' = tmp_batch_ d -> last_sequence_ (versions_ d') = last_sequence_ (versions_ d) ->
  data_ok files gs X Y d' w' ->
  (match st with
   | Logging u' n' l' => (u', n', l') = (u, n, l) /\ X = [] /\ Y = []
   | Syncing u' n' l' => (u', n', l') = (u, n, l) /\ X = [] /\ Y = [attempt_of d ms false OK] /\ synced ms = true
   | Inserting u' n' l' x => (u', n', l') = (u, n, l) /\ Y = [attempt_of d ms (synced ms) OK] /\
       exists us, inserted (last_sequence_ (versions_ d) + 1) (group_updates ms) us x /\ X = [mk_attempt (last_sequence_ (versions_ d) + 1) us (synced ms) OK]
   | Relocking s _ u' n' l' => (u', n', l') = (u, n, l) /\ X = [attempt_of d ms (synced ms) s] /\ Y = [attempt_of d ms (synced ms) s]
   | _ => False
   end) -> db_inv files calls gs q d' w'.
Proof.
  intros HQ Hp Hf Ew Eo Et Eb Es Hd Hst. destruct (queue_front _ _ _ _ _ HQ Hp) as (c & rest & -> & Hc & _). split.
  - eapply writers_frame; [exact HQ|exact Hp|exact Ew| |].
    + intros x Hx. by rewrite Et, Eo, lookup_insert_ne.
    + intros c' Hc'. unfold has_object. rewrite Eo. by apply (q_front _ _ _ _ HQ).
  - assert (Hf' : flight (c :: rest) d' u n l ms) by (destruct Hf; split; rewrite ?Es, ?Eo, ?Eb; done).
    assert (Ha : forall y s, attempt_of d' ms y s = attempt_of d ms y s) by (intros y s; unfold attempt_of; by rewrite Es).
    cbn [front_ok]. rewrite Hc, Et, lookup_insert_eq. destruct st; try done;
      [destruct Hst as ([= -> -> ->] & -> & ->)|destruct Hst as ([= -> -> ->] & -> & -> & ?)|destruct Hst as ([= -> -> ->] & -> & us & Hus & ->)|destruct Hst as ([= -> -> ->] & -> & ->)]; exists ms; [| |exists us|]; rewrite ?Ha, ?Es; done.
Qed.

(** The table in memory and the log of a data invariant, on their own. *)
Lemma data_parts files gs X Y (d : DB) w : data_ok files gs X Y d w -> exists A, (exists g2 seq, A = attempts seq g2 /\ seq + total g2 = seq0 + total gs) /\
  holds (versions_in (A ++ X)) (db_mem d) w /\ writer_state (log_ d) (A ++ Y) /\
  forall X' Y' m' l' w', holds (versions_in (A ++ X')) m' w' -> brk w <= brk w' -> writer_state l' (A ++ Y') -> data_ok files gs X' Y' (set_log l' (set_mem m' d)) w'.
Proof.
  intros [(g0 & g1 & g2 & -> & He) Hs Hn Hp]. cbn zeta in He. destruct He as (Htab & Himm & Hmem & Hlog). eexists. split; [exists g2, (seq0 + total g0 + total g1); split; [reflexivity|rewrite !total_app; lia]|].
  split; [exact Hmem|]. split; [exact Hlog|]. intros X' Y' m' l' w' Hm' Hb Hl'. pose proof (holds_heap _ _ _ Hm') as Hh. split; try done. exists g0, g1, g2. split; [done|]. cbn.
  split; [destruct Htab as (vss & Ev & Hv); exists vss; split; [exact Ev|by apply (tables_grow w)]|]. split; [|by split].
  destruct (db_imm d); [|done]. destruct Himm as [Hi ?]. split; [by apply (holds_grow _ _ w)|done].
Qed.

Lemma versions_in_fail A seq us y s : ok s = false -> versions_in (A ++ [mk_attempt seq us y s]) = versions_in A.
Proof. intros Hs. rewrite versions_in_app. unfold versions_in at 2. cbn. by rewrite Hs, app_nil_r. Qed.

(** The leader is the first of its group. *)
Lemma flight_leader q u n l ms (d : DB) p o : flight q d u n l ms -> head (ids q) = Some p -> (forall c, head q = Some c -> has_object d c) -> writer_objects d !! p = Some o -> synced ms = w_sync o.
Proof.
  intros [[rest ->] Hl _ _ _ _] Hp Hobj Ho. destruct ms as [|c ms]; [done|]. injection Hp as <-. destruct (Hobj c eq_refl) as (o' & Ho' & _ & Hs & _). rewrite Ho in Ho'. injection Ho' as <-. done.
Qed.

(** Nothing of the group is in the table yet. *)
Lemma versions_in_none A seq y : versions_in (A ++ [mk_attempt seq [] y OK]) = versions_in A.
Proof. rewrite versions_in_app. unfold versions_in at 2. cbn. by rewrite app_nil_r. Qed.

Lemma log_ok files calls gs q p u n l ms (d : DB) w : queue_ok calls gs q d -> head (ids q) = Some p -> flight q d u n l ms -> data_ok files gs [] [] d w ->
  exists d', leader_log p u n l d w = Ok tt d' w /\ db_inv files calls gs q d' w.
Proof.
  intros HQ Hp Hf Hd. destruct (flight_updates _ _ _ _ _ _ _ _ HQ Hf) as [Hu _]. destruct (data_parts _ _ _ _ _ _ Hd) as (A & _ & Hmem & Hlog & Hnew). rewrite app_nil_r in Hmem, Hlog.
  destruct (log_attempt (log_ d) A (last_sequence_ (versions_ d) + 1) (group_updates ms) w Hlog Hu) as (s & lg & E & Hlog').
  destruct (queue_front _ _ _ _ _ HQ Hp) as (c & rest & Eq & Hc & (o & Ho & _) & _). rewrite Hc in Ho. pose proof (flight_leader _ _ _ _ _ _ _ _ Hf Hp (q_front _ _ _ _ HQ) Ho) as Hsy.
  unfold leader_log. unfold bind at 1. rewrite (flight_batch _ _ _ _ _ _ _ Hf). unfold bind at 1, in_log. unfold Contents. rewrite E. unfold bind at 1, load_writer. cbn [bind get writer_objects set_log]. rewrite Ho. cbn [must ret].
  destruct (ok s) eqn:Es.
  - destruct s; [|done]. eexists. split; [reflexivity|].
    assert (Hd' : forall X, versions_in (A ++ X) = versions_in A -> data_ok files gs X [attempt_of d ms false OK] (set_log lg (set_mem (db_mem d) d)) w) by (intros X HX; apply Hnew; [by rewrite HX|done|exact Hlog']).
    destruct (w_sync o).
    + eapply (leader_step files calls gs q p u n l ms _ [] [attempt_of d ms false OK] d); [exact HQ|exact Hp|exact Hf|done|done|reflexivity|done|done| |done].
      eapply data_frame; [apply Hd'; by rewrite app_nil_r|done|lia].
    + eapply (leader_step files calls gs q p u n l ms _ [_] [attempt_of d ms false OK] d); [exact HQ|exact Hp|exact Hf|done|done|reflexivity|done|done| |].
      * eapply data_frame; [apply Hd', versions_in_none|done|lia].
      * rewrite Hsy. split; [done|]. split; [done|]. exists []. split; [by eexists|done].
  - eexists. split; [reflexivity|].
    assert (Hd' : data_ok files gs [attempt_of d ms (synced ms) s] [attempt_of d ms (synced ms) s] (set_log lg (set_mem (db_mem d) d)) w).
    { apply Hnew; [|done|]; [unfold attempt_of; by rewrite versions_in_fail|]. eapply writer_state_relabel; [|exact Hlog']. by rewrite Es. }
    eapply (leader_step files calls gs q p u n l ms _ [attempt_of d ms (synced ms) s] [attempt_of d ms (synced ms) s] d); [exact HQ|exact Hp|exact Hf|done|done|reflexivity|done|done| |done].
    eapply data_frame; [exact Hd'|done|lia].
Qed.

Lemma leader_sync_ok files calls gs q p u n l ms (d : DB) w : queue_ok calls gs q d -> head (ids q) = Some p -> flight q d u n l ms -> synced ms = true -> data_ok files gs [] [attempt_of d ms false OK] d w ->
  exists d', leader_sync p u n l d w = Ok tt d' w /\ db_inv files calls gs q d' w.
Proof.
  intros HQ Hp Hf Hsy Hd. destruct (data_parts _ _ _ _ _ _ Hd) as (A & _ & Hmem & Hlog & Hnew). unfold leader_sync, in_log. cbn [bind get]. destruct (Sync (dest (log_ d))) as [s f] eqn:E. cbn [bind modify ret].
  pose proof (writer_sync _ _ _ _ _ _ _ Hlog E) as Hlog'. destruct (ok s) eqn:Es; (eexists; split; [reflexivity|]).
  - rewrite app_nil_r in Hmem. pose proof (Hnew [mk_attempt (last_sequence_ (versions_ d) + 1) [] (synced ms) OK] [attempt_of d ms (synced ms) OK] (db_mem d) (set_dest f (log_ d)) w ltac:(by rewrite versions_in_none) (Z.le_refl _)) as Hd'. rewrite Hsy in Hd'. specialize (Hd' Hlog').
    eapply (leader_step files calls gs q p u n l ms _ [_] [attempt_of d ms (synced ms) OK] d); [exact HQ|exact Hp|exact Hf|done|done|reflexivity|done|done| |].
    + rewrite Hsy. eapply data_frame; [exact Hd'|done|lia].
    + split; [done|]. split; [done|]. exists []. rewrite Hsy. split; [by eexists|done].
  - assert (Hd' : data_ok files gs [attempt_of d ms (synced ms) s] [attempt_of d ms (synced ms) s] (set_log (set_dest f (log_ d)) (set_mem (db_mem d) d)) w).
    { apply Hnew; [|done|eapply writer_state_relabel; [|exact Hlog']; by rewrite Es]. unfold attempt_of. rewrite versions_in_fail by done. by rewrite app_nil_r in Hmem. }
    eapply (leader_step files calls gs q p u n l ms _ [attempt_of d ms (synced ms) s] [attempt_of d ms (synced ms) s] d); [exact HQ|exact Hp|exact Hf|done|done|reflexivity|done|done| |done].
    eapply data_frame; [exact Hd'|done|lia].
Qed.

(** What the table holds while the group is being inserted, and what comes next. *)
Lemma inserting_ok files calls gs q p u n l ms us x (d : DB) w : queue_ok calls gs q d -> budget calls -> head (ids q) = Some p -> flight q d u n l ms ->
  inserted (last_sequence_ (versions_ d) + 1) (group_updates ms) us x ->
  data_ok files gs [mk_attempt (last_sequence_ (versions_ d) + 1) us (synced ms) OK] [attempt_of d ms (synced ms) OK] d w ->
  let seq := last_sequence_ (versions_ d) + 1 in
  exists vs rest, group_updates ms = us ++ rest /\ holds (vs ++ versions_of seq us) (db_mem d) w /\ batch_ok seq (us ++ rest) /\ keys_fit (us ++ rest) /\
    seq + Z.of_nat (length (us ++ rest)) - 1 <= kMaxSequenceNumber /\ ascending (vs ++ versions_of seq us ++ versions_of (seq + Z.of_nat (length us)) rest) /\
    match x with None => us = [] | Some x => x = (seq + Z.of_nat (length us), (records rest, Z.of_nat (length us))) end /\
    forall us' m' w', holds (vs ++ versions_of seq us') m' w' -> brk w <= brk w' ->
      data_ok files gs [mk_attempt seq us' (synced ms) OK] [attempt_of d ms (synced ms) OK] (set_mem m' d) w'.
Proof.
  intros HQ Hb Hp Hf (rest & Eus & Hx) Hd seq. destruct (flight_updates _ _ _ _ _ _ _ _ HQ Hf) as [Hu Hk]. destruct (flight_numbers _ _ _ _ _ _ _ _ _ _ _ _ HQ Hb Hd Hf) as [Hs0 Hs1].
  pose proof (d_sequence _ _ _ _ _ _ Hd) as Hseq. destruct (data_parts _ _ _ _ _ _ Hd) as (A & (g2 & seq1 & EA & Et) & Hmem & Hlog & Hnew).
  change kMaxSequenceNumber with (2 ^ 56 - 1) in *. pose proof (f_size _ _ _ _ _ _ Hf) as Hn. unfold count_updates in Hs1, Hn. rewrite Eus in *.
  assert (Hv : forall us', versions_in (A ++ [mk_attempt seq us' (synced ms) OK]) = versions_in A ++ versions_of seq us') by (intros us'; rewrite versions_in_app; unfold versions_in at 2; cbn; by rewrite app_nil_r).
  fold seq in Hmem. rewrite Hv in Hmem. exists (versions_in A), rest. split; [done|]. split; [exact Hmem|]. split; [split; [lia|by split]|]. split; [done|]. split; [lia|]. split; [|split; [done|]].
  - rewrite <- versions_of_app. apply (ascending_app _ _ seq).
    + rewrite EA. apply versions_in_ascending.
    + apply versions_of_ascending.
    + rewrite EA. eapply Forall_impl; [apply versions_in_range|]. cbn. lia.
    + eapply Forall_impl; [apply versions_of_range|]. cbn. lia.
  - intros us' m' w' Hm' Hbrk. replace (set_mem m' d) with (set_log (log_ d) (set_mem m' d)) by (by destruct d). apply Hnew; [by rewrite Hv|exact Hbrk|exact Hlog].
Qed.

(** The table has got versions that no snapshot of the past sees. *)
Definition mem_grows (d : DB) (w : world) (d' : DB) (w' : world) : Prop :=
  exists vs more, Forall (fun v => last_sequence_ (versions_ d) < v_seq v) more /\ ascending (vs ++ more) /\ holds vs (db_mem d) w /\ holds (vs ++ more) (db_mem d') w' /\
    db_imm d' = db_imm d /\ versions_ d' = versions_ d /\ brk w <= brk w'.

Lemma leader_insert_ok files calls gs q p u n l ms us x (d : DB) w : queue_ok calls gs q d -> budget calls -> head (ids q) = Some p -> flight q d u n l ms ->
  inserted (last_sequence_ (versions_ d) + 1) (group_updates ms) us x ->
  data_ok files gs [mk_attempt (last_sequence_ (versions_ d) + 1) us (synced ms) OK] [attempt_of d ms (synced ms) OK] d w ->
  exists d' w', leader_insert user p u n l x d w = Ok tt d' w' /\ db_inv files calls gs q d' w' /\ mem_grows d w d' w'.
Proof.
  intros HQ Hb Hp Hf Hus Hd. destruct (inserting_ok _ _ _ _ _ _ _ _ _ _ _ _ _ HQ Hb Hp Hf Hus Hd) as (vs & rest & Eus & Hm & Hbat & Hk & Hs & Ha & Hx & Hnew).
  assert (Hrun : exists m' w', (match x with None => InsertInto user (batch_rep (last_sequence_ (versions_ d) + 1) (group_updates ms)) | Some x => insert_rest user (batch_rep (last_sequence_ (versions_ d) + 1) (group_updates ms)) x end) (db_mem d) w = Ok OK m' w' /\
    holds (vs ++ versions_of (last_sequence_ (versions_ d) + 1) (group_updates ms)) m' w' /\ brk w <= brk w').
  { rewrite Eus, versions_of_app. destruct x as [x|]; subst.
    - destruct (insert_rest_ok _ _ us rest _ _ Hm Hbat Hk Hs) as (m' & w' & E & Hm' & _); [rewrite <- app_assoc; by apply ascending_distinct|].
      exists m', w'. split; [exact E|]. rewrite app_assoc. split; [done|]. by eapply extends_insert_rest.
    - cbn [versions_of app length] in *. rewrite app_nil_r, Z.add_0_r in *. destruct (insert_into_ok _ _ rest _ _ Hm Hbat Hk Hs) as (m' & w' & E & Hm' & _); [by apply ascending_distinct|].
      exists m', w'. split; [exact E|]. split; [done|]. by eapply extends_insert_into. }
  destruct Hrun as (m' & w' & E & Hm' & Hbrk). unfold leader_insert. unfold bind at 1. rewrite (flight_batch _ _ _ _ _ _ _ Hf). unfold bind at 1, in_memtable. rewrite E. eexists _, w'. split; [reflexivity|].
  split; [|exists (vs ++ versions_of (last_sequence_ (versions_ d) + 1) us), (versions_of (last_sequence_ (versions_ d) + 1 + Z.of_nat (length us)) rest); split;
    [eapply Forall_impl; [apply versions_of_range|]; cbn; lia|rewrite <- app_assoc; split; [done|]; split; [done|]; split; [by rewrite <- versions_of_app, <- Eus|done]]].
  eapply (leader_step files calls gs q p u n l ms _ [attempt_of d ms (synced ms) OK] [attempt_of d ms (synced ms) OK] d); [exact HQ|exact Hp|exact Hf|done|done|reflexivity|done|done| |done].
  eapply data_frame; [by apply Hnew|done|lia].
Qed.

(** One record: if there is none left, the step is not possible. *)
Lemma leader_record_ok files calls gs q p u n l ms us x (d : DB) w : queue_ok calls gs q d -> budget calls -> head (ids q) = Some p -> flight q d u n l ms ->
  inserted (last_sequence_ (versions_ d) + 1) (group_updates ms) us x ->
  data_ok files gs [mk_attempt (last_sequence_ (versions_ d) + 1) us (synced ms) OK] [attempt_of d ms (synced ms) OK] d w ->
  wp (leader_insert_record user p u n l x) (fun _ d' w' => db_inv files calls gs q d' w' /\ mem_grows d w d' w') d w.
Proof.
  intros HQ Hb Hp Hf Hus Hd. destruct (inserting_ok _ _ _ _ _ _ _ _ _ _ _ _ _ HQ Hb Hp Hf Hus Hd) as (vs & rest & Eus & Hm & Hbat & Hk & Hs & Ha & Hx & Hnew).
  set (seq := last_sequence_ (versions_ d) + 1) in *. unfold leader_insert_record. apply wp_seq. eapply wp_eval; [by apply (flight_batch _ _ _ _ _ _ _ Hf)|]. rewrite Eus.
  assert (Ex : match x with None => insert_start (batch_rep seq (us ++ rest)) | Some x => Some x end = Some (seq + Z.of_nat (length us), (records rest, Z.of_nat (length us)))).
  { destruct x as [x|]; [by rewrite Hx|]. subst us. cbn [app length] in *. rewrite insert_start_ok by done. by rewrite Z.add_0_r. }
  fold seq. rewrite Ex. apply wp_seq. destruct rest as [|v rest].
  - eapply wp_eval; [unfold in_memtable, insert_record, with_inserter, bind, iterate_step; reflexivity|]. by unfold wp, fail.
  - cbn [versions_of] in Ha. destruct (insert_record_ok (vs ++ versions_of seq us) seq us v rest (db_mem d) w Hm Hbat Hk Hs) as (m' & w' & E & Hm' & _).
    { apply ascending_distinct. rewrite <- app_assoc. rewrite (app_assoc _ [_]) || idtac. apply (StronglySorted_app_1_l _ _ (versions_of (seq + Z.of_nat (length us) + 1) rest)). rewrite <- !app_assoc. exact Ha. }
    eapply wp_eval; [unfold in_memtable; by rewrite E|]. eapply wp_eval; [reflexivity|]. pose proof (extends_insert_record _ _ _ _ _ _ _ E) as Hbrk. split.
    + eapply (leader_step files calls gs q p u n l ms _ [_] [attempt_of d ms (synced ms) OK] d); [exact HQ|exact Hp|exact Hf|done|done|reflexivity|done|done| |].
      * eapply data_frame; [apply (Hnew (us ++ [v]) m' w')|done|lia]; [|done]. rewrite versions_of_app. cbn [versions_of]. by rewrite app_assoc.
      * split; [done|]. split; [done|]. exists (us ++ [v]). split; [|done]. exists rest. rewrite <- app_assoc. split; [done|done].
    + exists (vs ++ versions_of seq us), [version_of (seq + Z.of_nat (length us)) v]. split; [apply Forall_singleton; rewrite version_of_seq; unfold seq; lia|]. split; [|done].
      apply (StronglySorted_app_1_l _ _ (versions_of (seq + Z.of_nat (length us) + 1) rest)). rewrite <- !app_assoc. exact Ha.
Qed.

(** The group becomes one of those that are through. *)
Lemma data_group files gs ms s (d : DB) w : data_ok files gs [attempt_of d ms (synced ms) s] [attempt_of d ms (synced ms) s] d w ->
  data_ok files (gs ++ [mk_group ms s true]) [] [] (set_versions (set_last_sequence (last_sequence_ (versions_ d) + count_updates ms) (versions_ d)) d) w.
Proof.
  intros [(g0 & g1 & g2 & -> & He) Hs Hn Hp]. assert (Et : total [mk_group ms s true] = count_updates ms) by (cbn; unfold group_length; cbn; lia).
  split; cbn; [|rewrite total_app, Et; lia|done|done]. exists g0, g1, (g2 ++ [mk_group ms s true]). rewrite <- !app_assoc. split; [done|].
  rewrite attempts_app. cbn [attempts numbered members outcome]. rewrite !app_nil_r. unfold attempt_of in He. rewrite Hs, !total_app in He. cbn zeta in He.
  replace (seq0 + total g0 + total g1 + total g2) with (seq0 - 1 + (total g0 + (total g1 + total g2)) + 1) by lia. exact He.
Qed.

Lemma leader_finish_ok files calls gs q p s e u n l ms (d : DB) w : queue_ok calls gs q d -> head (ids q) = Some p -> flight q d u n l ms -> data_ok files gs [attempt_of d ms (synced ms) s] [attempt_of d ms (synced ms) s] d w ->
  exists d', leader_finish p s e u n l d w = Ok tt d' w /\ done_inv files calls gs d' w.
Proof.
  intros HQ Hp Hf Hd. pose proof (f_sequence _ _ _ _ _ _ Hf) as En. destruct (f_group _ _ _ _ _ _ Hf) as [rest Eq]. pose proof (count_nonneg ms) as Hc.
  assert (Hrec : exists b s', (if e then RecordBackgroundError s else ret tt) d w = Ok tt (set_room_signaled b (set_bg_error s' d)) w).
  { assert (Hsame : exists b s', Ok tt d w = Ok tt (set_room_signaled b (set_bg_error s' d)) w) by (exists (room_signaled d), (bg_error_ d); by destruct d).
    destruct e; [|exact Hsame]. unfold RecordBackgroundError. cbn [bind get]. destruct (ok (bg_error_ d)); [|exact Hsame]. by eexists _, _. }
  destruct Hrec as (b & s' & Erec). unfold leader_finish. unfold bind at 1. rewrite Erec. set (d1 := set_room_signaled b (set_bg_error s' d)).
  assert (Htmp : (match u with Tmp => modify (set_tmp_batch Clear) | Own _ => ret tt end) d1 w = Ok tt (set_tmp_batch new_WriteBatch d1) w).
  { pose proof (f_batch _ _ _ _ _ _ Hf) as Hb. destruct u as [x|]; [|done]. destruct Hb as [Hb _]. cbn [ret]. f_equal. unfold set_tmp_batch. cbn. rewrite <- Hb. by destruct d. }
  unfold bind at 1. rewrite Htmp. cbn [bind get]. cbn [versions_ set_tmp_batch]. assert (Ev : versions_ d1 = versions_ d) by done. rewrite Ev. rewrite (proj2 (Z.leb_le _ n)) by lia. cbn [assert_ ret bind modify].
  set (d2 := set_versions (set_last_sequence n (versions_ d)) (set_tmp_batch new_WriteBatch d1)).
  destruct (finish_write_ok files calls gs ms rest p l s true d2 w) as (d' & E & Hinv).
  - rewrite <- Eq. eapply writers_frame; [exact HQ|exact Hp|done|done|]. intros c Hcc. by apply (q_front _ _ _ _ HQ).
  - by rewrite <- Eq.
  - apply (f_last _ _ _ _ _ _ Hf).
  - apply (f_sync _ _ _ _ _ _ Hf).
  - apply (f_size _ _ _ _ _ _ Hf).
  - split; [|done]. rewrite En in *. eapply data_frame; [apply (data_group _ _ _ _ _ _ Hd)|done|lia].
  - exists d'. split; [exact E|]. eexists _, _. split; [|exact Hinv]. by apply prefix_app_r.
Qed.

(** ** Wake-ups and the background thread *)

(** A waiting thread is told to go on. *)
Lemma signal_ok files calls gs q (d : DB) w p : db_inv files calls gs q d w -> threads d !! p = Some Waiting -> exists d', signal p d w = Ok tt d' w /\ db_inv files calls gs q d' w.
Proof.
  intros Hinv Ht. pose proof Hinv as [HQ Hf]. assert (Hp : p ∈ ids calls) by (apply (q_threads _ _ _ _ HQ); by eexists).
  assert (Ho : exists o, writer_objects d !! p = Some o).
  { destruct (which_call _ _ _ _ _ _ _ Hinv Hp) as [(g & c & _ & _ & <- & [[E _]|[_ (o & Ho & _)]])|[Hh|(c & _ & <- & _ & (o & Ho & _))]]; [congruence|by exists o| |by exists o].
    destruct (queue_front _ _ _ _ _ HQ Hh) as (c & rest & _ & <- & (o & Ho & _) & _). by exists o. }
  destruct Ho as [o Ho]. unfold signal, load_writer. cbn [bind get]. rewrite Ho. cbn [must ret]. eexists. split; [reflexivity|]. set (o' := mk_dbwriter _ _ _ _ _). set (d' := set_objects _ _). split.
  - eapply (queue_at calls gs q d _ p); [exact HQ|done|by eexists|..].
    + intros x Hx. cbn. by rewrite lookup_insert_ne.
    + intros g c Hg Hc Ep. destruct (q_done _ _ _ _ HQ g c Hg Hc) as [[E _]|[_ (o2 & Ho2 & Hd2)]]; rewrite Ep in *; [congruence|]. rewrite Ho in Ho2. injection Ho2 as <-.
      right. rewrite Ep. split; [done|]. exists o'. cbn. rewrite lookup_insert_eq. split; [done|]. cbn. tauto.
    + intros c Hc Ep. destruct (q_front _ _ _ _ HQ c Hc) as (o2 & Ho2 & Hd2). rewrite Ep, Ho in Ho2. injection Ho2 as <-. exists o'. cbn. rewrite Ep, lookup_insert_eq. done.
    + intros c Hc Ep. destruct (q_tail _ _ _ _ HQ c Hc) as [Hw (o2 & Ho2 & Hd2)]. rewrite Ep, Ho in Ho2. injection Ho2 as <-. split; [by rewrite Ep|]. exists o'. cbn. rewrite Ep, lookup_insert_eq. done.
  - destruct q as [|c rest]; [by eapply idle_frame|]. destruct (decide (c_id c = p)) as [Ep|Hne].
    + cbn [front_ok] in *. change (threads d') with (threads d). rewrite Ep, Ht in *. destruct Hf as [Hi _]. split; [by eapply idle_frame|]. exists o'. cbn. by rewrite lookup_insert_eq.
    + rewrite <- (app_nil_r (c :: rest)). eapply front_frame; [| | | | |exact Hf]; [intros X Y; by apply data_files|done|done|done|].
      intros c' [= <-]. cbn. by rewrite lookup_insert_ne by congruence.
Qed.

(** A step of the background thread leaves the queue alone. *)
Lemma background_frame files files' calls gs q (d d' : DB) w : db_inv files calls gs q d w -> writers_ d' = writers_ d -> writer_objects d' = writer_objects d -> threads d' = threads d ->
  tmp_batch_ d' = tmp_batch_ d -> last_sequence_ (versions_ d') = last_sequence_ (versions_ d) -> (forall X Y, data_ok files gs X Y d w -> data_ok files' gs X Y d' w) -> db_inv files' calls gs q d' w.
Proof.
  intros [HQ Hf] Ew Eo Et Eb Es Hd. split.
  - destruct HQ. split; try done; [congruence| | | |]; unfold finished, queued, has_object; by rewrite ?Et, ?Eo.
  - rewrite <- (app_nil_r q). eapply front_frame; [exact Hd|exact Eb|exact Es|done| |exact Hf]. intros c _. by rewrite Et, Eo.
Qed.

Lemma error_ok files calls gs q s (d : DB) w : db_inv files calls gs q d w -> exists d', RecordBackgroundError s d w = Ok tt d' w /\ db_inv files calls gs q d' w.
Proof.
  intros Hinv. unfold RecordBackgroundError. cbn [bind get]. destruct (ok (bg_error_ d)); (eexists; split; [reflexivity|]); [|done].
  eapply background_frame; [exact Hinv|done..|]. intros X Y. by apply data_files.
Qed.

Lemma number_ok files calls gs q (d : DB) w : db_inv files calls gs q d w -> files + 1 < 2 ^ 64 ->
  db_inv (files + 1) calls gs q (set_versions (set_next_file_number (u64 (next_file_number_ (versions_ d) + 1)) (versions_ d)) d) w.
Proof.
  intros Hinv Hfl. eapply background_frame; [exact Hinv|done..|]. intros X Y [He Hs Hn Hp]. split; [exact He|exact Hs| |exact Hp]. cbn. rewrite u64_small; lia.
Qed.

(** The older table has become a file, and the log before the current one is gone. *)
Lemma flushed_ok files gs X Y m k b (d : DB) w : db_imm d = Some m -> data_ok files gs X Y d w ->
  let v := set_levels k b (set_log_number (logfile_number_ d) (set_tables (tables (versions_ d) ++ [m]) (versions_ d))) in
  data_ok files gs X Y (set_disk (filter (fun x => log_number_ v <= x.1) (disk d)) (set_imm None (set_versions v d))) w.
Proof.
  intros Him [(g0 & g1 & g2 & -> & He) Hs Hn Hp]. cbn zeta in He. rewrite Him in He. destruct He as ((vss & Ev & Hv) & (Hm & n & f & Hdisk & _ & Hnum) & Hmem & Hlog).
  intros v. split; cbn; [|done|lia|done]. exists (g0 ++ g1), [], g2. split; [by rewrite <- app_assoc|]. cbn. rewrite total_app, Z.add_0_r, Z.add_assoc. split; [|split; [|done]].
  - exists (vss ++ [versions_in (attempts (seq0 + total g0) g1)]). split; [rewrite attempts_app, versions_in_app, join_app, Ev; cbn; by rewrite app_nil_r|].
    apply Forall2_app; [done|]. by constructor.
  - split; [done|]. rewrite Hdisk. rewrite filter_cons_False by (cbn; lia). done.
Qed.

Lemma compact_ok files calls gs q s k b (d : DB) w : db_inv files calls gs q d w -> wp (compact_memtable s k b) (fun _ d' w' => db_inv files calls gs q d' w') d w.
Proof.
  intros Hinv. unfold compact_memtable. apply wp_seq. eapply (wp_eval _ _ _ _ d); [reflexivity|]. apply wp_seq, wp_guard. intros _.
  destruct (db_imm d) as [m|] eqn:Him; [|done]. cbn zeta. set (s1 := if ok s && shutting_down_ d then _ else _). destruct (ok s1).
  - apply wp_seq. eapply (wp_eval _ _ _ _ tt); [reflexivity|]. apply wp_seq. eapply (wp_eval _ _ _ _ tt); [reflexivity|]. eapply wp_eval; [reflexivity|].
    eapply background_frame; [exact Hinv|done..|]. intros X Y. by apply flushed_ok.
  - destruct (error_ok _ _ _ _ s1 _ _ Hinv) as (d' & E & Hd). eapply wp_eval; [exact E|]. exact Hd.
Qed.

Lemma end_ok files calls gs q (d : DB) w : db_inv files calls gs q d w -> wp background_end (fun _ d' w' => db_inv files calls gs q d' w') d w.
Proof.
  intros Hinv. unfold background_end. apply wp_seq. eapply (wp_eval _ _ _ _ d); [reflexivity|]. apply wp_seq, wp_guard. intros _.
  apply wp_seq. eapply (wp_eval _ _ _ _ tt); [reflexivity|]. apply wp_seq. destruct (schedule_ok (set_scheduled false d) w) as [b E]. eapply wp_eval; [exact E|]. eapply wp_eval; [reflexivity|].
  eapply background_frame; [exact Hinv|done..|]. intros X Y. by apply data_files.
Qed.

(** ** Any step *)

Definition calls_of (e : event F) (cs : list call) : Prop :=
  match e with
  | EWrite p updates sync _ => exists c, cs = [c] /\ c_id c = p /\ c_sync c = sync /\ call_ok c /\ batch_is (c_updates c) updates
  | _ => cs = []
  end.

Definition file_of (e : event F) : Prop := match e with EWrite _ _ _ lfile | ERun _ lfile => lfile_ok lfile | _ => True end.

Lemma done_intro files files' calls gs q (d : DB) w : db_inv files calls gs q d w -> files <= files' -> done_inv files' calls gs d w.
Proof. intros Hinv Hf. exists gs, q. split; [done|]. by eapply db_files. Qed.

Lemma done_mono files files' calls gs gs' (d : DB) w : done_inv files calls gs' d w -> gs `prefix_of` gs' -> files <= files' -> done_inv files' calls gs d w.
Proof. intros (gs2 & q & Hpre & Hinv) Hp Hf. exists gs2, q. split; [by etrans|]. by eapply db_files. Qed.

(** A thread that can go on. *)
Definition ready (d : DB) (p : Z) : Prop :=
  match threads d !! p with
  | Some Waiting => exists o, writer_objects d !! p = Some o /\ signaled o = true
  | Some (RoomWaiting _ _) => room_signaled d = true
  | Some (Returned _) | None => False
  | Some _ => True
  end.

Lemma run_not_ready p lfile (d : DB) w : ~ ready d p -> (threads d !! p = Some Waiting -> is_Some (writer_objects d !! p)) -> exists d' w', run_thread user write_buffer_size p lfile d w = Err d' w'.
Proof.
  unfold ready, run_thread, stage_of. intros Hn Ho. cbn [bind get]. destruct (threads d !! p) as [[]|]; cbn [bind ret fail]; try (by exfalso; apply Hn); try (by eexists _, _).
  - destruct (Ho eq_refl) as [o Eo]. unfold load_writer. cbn [bind get]. rewrite Eo. cbn [must ret]. unfold guard. destruct (signaled o) eqn:Es; [exfalso; apply Hn; by exists o|]. by eexists _, _.
  - cbn [bind get]. unfold guard. destruct (room_signaled d); [by exfalso; apply Hn|]. by eexists _, _.
Qed.

Lemma front_at files calls gs q p st (d : DB) w : db_inv files calls gs q d w -> threads d !! p = Some st -> st <> Waiting -> (forall s, st <> Returned s) ->
  exists c rest, q = c :: rest /\ c_id c = p /\ front_ok files gs (c :: rest) d w /\ threads d !! c_id c = Some st /\ head (ids q) = Some p.
Proof.
  intros Hinv Et Hw Hr. pose proof (leader_front _ _ _ _ _ _ _ _ Hinv Et Hw Hr) as Hh. destruct (queue_front _ _ _ _ _ (proj1 Hinv) Hh) as (c & rest & -> & Ec & _). exists c, rest. rewrite Ec. by destruct Hinv.
Qed.

Lemma waiting_object files calls gs q p (d : DB) w : db_inv files calls gs q d w -> threads d !! p = Some Waiting -> is_Some (writer_objects d !! p).
Proof.
  intros Hinv Et. destruct (signal_ok _ _ _ _ _ _ p Hinv Et) as (d' & E & _). unfold signal, load_writer in E. cbn [bind get] in E. destruct (writer_objects d !! p); [by eexists|done].
Qed.

Lemma run_ok files calls gs q p lfile (d : DB) w : db_inv files calls gs q d w -> budget calls -> lfile_ok lfile -> files + 1 < 2 ^ 64 -> ready d p ->
  exists d' w', run_thread user write_buffer_size p lfile d w = Ok tt d' w' /\ done_inv (files + 1) calls gs d' w'.
Proof.
  intros Hinv Hb Hlf Hfl Hready. pose proof Hinv as [HQ Hf]. assert (Hle : files <= files + 1) by lia. unfold run_thread, stage_of. unfold ready in Hready. cbn [bind get].
  destruct (threads d !! p) as [st|] eqn:Et; [|done]. cbn [ret bind].
  pose proof (front_at files calls gs q p st d w Hinv Et) as Hfront.
  destruct st as [|f|a f|u n l|u n l|u n l x|s e u n l|s]; [| | | | | | |done].
  - destruct Hready as (o & Ho & Hs). unfold load_writer. cbn [bind get]. rewrite Ho. cbn [must ret]. unfold guard. rewrite Hs. by apply (check_turn_ok files calls gs q d w p lfile o Hinv Et Ho).
  - destruct Hfront as (c & rest & -> & Ec & Hfr & Etc & Hh); [done..|]. cbn [front_ok] in Hfr. rewrite Etc in Hfr. apply (make_room_ok files calls gs (c :: rest) p lfile false f d w); [by split|done..].
  - destruct Hfront as (c & rest & -> & Ec & Hfr & Etc & Hh); [done..|]. cbn [front_ok] in Hfr. rewrite Etc in Hfr. cbn [bind get]. unfold guard. rewrite Hready.
    apply (make_room_ok files calls gs (c :: rest) p lfile a f d w); [by split|done..].
  - destruct Hfront as (c & rest & -> & Ec & Hfr & Etc & Hh); [done..|]. cbn [front_ok] in Hfr. rewrite Etc in Hfr. destruct Hfr as (ms & Hfl2 & Hd).
    destruct (log_ok files calls gs (c :: rest) p u n l ms d w HQ Hh Hfl2 Hd) as (d' & E & Hd'). exists d', w. split; [exact E|]. by eapply done_intro.
  - destruct Hfront as (c & rest & -> & Ec & Hfr & Etc & Hh); [done..|]. cbn [front_ok] in Hfr. rewrite Etc in Hfr. destruct Hfr as (ms & Hfl2 & Hsy & Hd).
    destruct (leader_sync_ok files calls gs (c :: rest) p u n l ms d w HQ Hh Hfl2 Hsy Hd) as (d' & E & Hd'). exists d', w. split; [exact E|]. by eapply done_intro.
  - destruct Hfront as (c & rest & -> & Ec & Hfr & Etc & Hh); [done..|]. cbn [front_ok] in Hfr. rewrite Etc in Hfr. destruct Hfr as (ms & us & Hfl2 & Hus & Hd).
    destruct (leader_insert_ok files calls gs (c :: rest) p u n l ms us x d w HQ Hb Hh Hfl2 Hus Hd) as (d' & w' & E & Hd' & _). exists d', w'. split; [exact E|]. by eapply done_intro.
  - destruct Hfront as (c & rest & -> & Ec & Hfr & Etc & Hh); [done..|]. cbn [front_ok] in Hfr. rewrite Etc in Hfr. destruct Hfr as (ms & Hfl2 & Hd).
    destruct (leader_finish_ok files calls gs (c :: rest) p s e u n l ms d w HQ Hh Hfl2 Hd) as (d' & E & Hd'). exists d', w. split; [exact E|]. by eapply done_mono.
Qed.

Lemma run_record_ok files calls gs q p (d : DB) w : db_inv files calls gs q d w -> budget calls ->
  wp (run_record user p) (fun _ d' w' => db_inv files calls gs q d' w' /\ mem_grows d w d' w') d w.
Proof.
  intros Hinv Hb. unfold run_record, stage_of. apply wp_seq, wp_seq. eapply (wp_eval _ _ _ _ d); [reflexivity|].
  destruct (threads d !! p) as [st|] eqn:Et; [|done]. eapply wp_eval; [reflexivity|]. destruct st as [| | | | |u n l x| |]; try done.
  destruct (front_at files calls gs q p _ d w Hinv Et) as (c & rest & -> & Ec & Hfr & Etc & Hh); [done..|]. cbn [front_ok] in Hfr. rewrite Etc in Hfr. destruct Hfr as (ms & us & Hfl & Hus & Hd).
  by apply (leader_record_ok files calls gs (c :: rest) p u n l ms us x d w (proj1 Hinv) Hb Hh Hfl Hus Hd).
Qed.

Lemma ready_dec (d : DB) p : ready d p \/ ~ ready d p.
Proof.
  unfold ready. destruct (threads d !! p) as [[]|]; try (by left); try (by right; intros ?).
  - destruct (writer_objects d !! p) as [o|]; [|right; by intros (? & ? & _)]. destruct (signaled o) eqn:E; [left; by exists o|]. right. intros (o' & [= <-] & ?). congruence.
  - destruct (room_signaled d); [by left|by right].
Qed.

Lemma step_ok files calls gs q e cs (d : DB) w : db_inv files calls gs q d w -> calls_of e cs -> file_of e -> budget (calls ++ cs) -> files + 1 < 2 ^ 64 ->
  wp (step user write_buffer_size e) (fun _ d' w' => done_inv (files + 1) (calls ++ cs) gs d' w') d w.
Proof.
  intros Hinv Hcs Hlf Hb Hfl. assert (Hle : files <= files + 1) by lia.
  assert (Hmono : forall m, cs = [] -> wp m (fun _ d' w' => db_inv files calls gs q d' w') d w -> wp m (fun (_ : unit) d' w' => done_inv (files + 1) (calls ++ cs) gs d' w') d w).
  { intros m -> Hwp. rewrite app_nil_r. eapply wp_weaken; [exact Hwp|]. cbn. intros _ d' w' Hd. by eapply done_intro. }
  assert (Herr : forall s, cs = [] -> wp (RecordBackgroundError s) (fun _ d' w' => db_inv files calls gs q d' w') d w).
  { intros s _. destruct (error_ok _ _ _ _ s _ _ Hinv) as (d' & E & Hd). by eapply wp_eval. }
  destruct e as [p us sy lf|p lf|p|p| |s n b|n b|s|]; cbn [step calls_of file_of] in *.
  - destruct Hcs as (c & -> & <- & <- & Hok & Hbatch). by eapply enter_ok.
  - subst cs. rewrite app_nil_r in *. destruct (ready_dec d p) as [Hr|Hr].
    + destruct (run_ok files calls gs q p lf d w Hinv Hb Hlf Hfl Hr) as (d' & w' & E & Hd). by eapply wp_eval.
    + destruct (run_not_ready p lf d w Hr) as (d' & w' & E); [by eapply waiting_object|]. unfold wp. by rewrite E.
  - apply Hmono; [done|]. subst cs. rewrite app_nil_r in Hb. eapply wp_weaken; [by apply run_record_ok|]. by intros _ d' w' [Hd _].
  - apply Hmono; [done|]. unfold wake_up, stage_of. apply wp_seq, wp_seq. eapply (wp_eval _ _ _ _ d); [reflexivity|].
    destruct (threads d !! p) as [st|] eqn:Et; [|done]. eapply wp_eval; [reflexivity|]. destruct st; try done.
    + destruct (signal_ok _ _ _ _ _ _ p Hinv Et) as (d' & E & Hd). by eapply wp_eval.
    + eapply wp_eval; [reflexivity|]. eapply background_frame; [exact Hinv|done..|]. intros X Y. by apply data_files.
  - subst cs. rewrite app_nil_r. unfold background_number. apply wp_seq. eapply (wp_eval _ _ _ _ d); [reflexivity|]. apply wp_seq, wp_guard. intros _. eapply wp_eval; [reflexivity|]. exists gs, q. split; [done|].
    by apply number_ok.
  - apply Hmono; [done|]. by apply compact_ok.
  - apply Hmono; [done|]. unfold background_change. apply wp_seq. eapply (wp_eval _ _ _ _ d); [reflexivity|]. apply wp_seq, wp_guard. intros _.
    eapply wp_eval; [reflexivity|]. eapply background_frame; [exact Hinv|done..|]. intros X Y. by apply data_files.
  - apply Hmono; [done|]. unfold background_error. apply wp_seq. eapply (wp_eval _ _ _ _ d); [reflexivity|]. apply wp_seq, wp_guard. intros _. by apply Herr.
  - apply Hmono; [done|]. by apply end_ok.
Qed.

(** The calls of a sequence of events. *)
Inductive asked : list (event F) -> list call -> Prop :=
  | asked_nil : asked [] []
  | asked_cons e es cs cs' : calls_of e cs -> asked es cs' -> asked (e :: es) (cs ++ cs').

Lemma steps_ok es : forall files calls gs cs (d : DB) w, done_inv files calls gs d w -> asked es cs -> Forall file_of es -> budget (calls ++ cs) -> files + Z.of_nat (length es) < 2 ^ 64 ->
  wp (steps user write_buffer_size es) (fun _ d' w' => done_inv (files + Z.of_nat (length es)) (calls ++ cs) gs d' w') d w.
Proof.
  induction es as [|e es IH]; intros files calls gs cs d w Hinv Hcs Hlf Hb Hfl; inversion Hcs; subst.
  - rewrite app_nil_r, Z.add_0_r. by eapply wp_eval.
  - apply Forall_cons_1 in Hlf as [Hlf1 Hlf2]. cbn [length] in *. cbn [steps]. apply wp_seq. rewrite app_assoc in *. assert (Hb1 : budget (calls ++ cs0)).
    { destruct Hb as [Hb1 Hb2]. split; [done|]. rewrite count_updates_app in Hb2. pose proof (count_nonneg cs'). lia. }
    destruct Hinv as (gs1 & q & Hpre & Hinv). eapply wp_weaken; [eapply (step_ok files calls gs1 q e cs0); try done; lia|]. cbn. intros _ d' w' Hd.
    eapply wp_weaken; [apply (IH (files + 1) (calls ++ cs0) gs1 cs'); try done; lia|]. cbn. intros _ d2 w2 Hd2. eapply done_mono; [exact Hd2|done|lia].
Qed.

End inv.
