(* ===== verification/LdbWriteSpec.v ===== *)
(** What LevelDB's write path promises: no thread waits in vain, writes are atomic and in the
    order of arrival, and readers see whole groups only; and a run of four writers. *)
From stdpp Require Import base gmap list strings numbers option sorting.
From Stdlib Require Import ZArith Lia.
From S2P Require Import Prelude Cmem LdbCoding LdbCodingThms LdbEnv LdbLog LdbLogRead LdbLogThms LdbComparator LdbFormat LdbFormatThms LdbSkipList LdbSkipListThms LdbSkipListSpec LdbMemTable LdbMemTableThms LdbWriteBatch LdbWriteBatchThms LdbWrite LdbWriteInv LdbWriteThms.

Section live.
Context `{Placement} {F : Type} `{WritableFile F} `{!SyncFile F} (user : Comparator) (write_buffer_size : Z).

Notation DB := (DBImpl F).

(** * What is scheduled *)

(** While there is work for the background thread and no error, it is scheduled; and
    whoever waits for it is signalled or waits for a thread that is scheduled. *)
Record calm (d : DB) : Prop := {
  l_shutting_down : shutting_down_ d = false;
  l_levels : kL0_CompactionTrigger <= num_level0 (versions_ d) -> needs_compaction (versions_ d) = true;
  l_room p a f : threads d !! p = Some (RoomWaiting a f) -> room_signaled d = false -> background_compaction_scheduled_ d = true;
}.

Definition busy (d : DB) : Prop := ok (bg_error_ d) = true -> db_imm d <> None \/ needs_compaction (versions_ d) = true -> background_compaction_scheduled_ d = true.

Definition live (d : DB) : Prop := calm d /\ busy d.

(** A change to anything else. *)
Definition unseen (d d' : DB) : Prop :=
  shutting_down_ d' = shutting_down_ d /\ num_level0 (versions_ d') = num_level0 (versions_ d) /\ needs_compaction (versions_ d') = needs_compaction (versions_ d) /\
  room_signaled d' = room_signaled d /\ background_compaction_scheduled_ d' = background_compaction_scheduled_ d /\ bg_error_ d' = bg_error_ d /\ db_imm d' = db_imm d /\
  forall p a f, threads d' !! p = Some (RoomWaiting a f) -> threads d !! p = Some (RoomWaiting a f).

Lemma calm_unseen d d' : calm d -> unseen d d' -> calm d'.
Proof. intros [H1 H2 H3] (E1 & E2 & E3 & E4 & E5 & E6 & E7 & E8). split; [congruence|by rewrite E2, E3|]. intros p a f Hp Hs. rewrite E5. eapply H3; [by apply E8|congruence]. Qed.

Lemma live_unseen d d' : live d -> unseen d d' -> live d'.
Proof. intros [Hc Hb] Hu. split; [by eapply calm_unseen|]. destruct Hu as (_ & _ & E3 & _ & E5 & E6 & E7 & _). unfold busy. by rewrite E3, E5, E6, E7. Qed.

(** A program that changes nothing else. *)
Definition hidden {A} (m : SM DB A) : Prop := forall d w, match m d w with Ok _ d' _ => unseen d d' | _ => True end.

Lemma unseen_refl d : unseen d d.
Proof. done. Qed.

Lemma unseen_trans d1 d2 d3 : unseen d1 d2 -> unseen d2 d3 -> unseen d1 d3.
Proof. intros H12 H23. destruct H12 as (?&?&?&?&?&?&?&?), H23 as (?&?&?&?&?&?&?&?). repeat split; try congruence. eauto. Qed.

Lemma hidden_bind {A B} (m : SM DB A) (k : A -> SM DB B) : hidden m -> (forall a, hidden (k a)) -> hidden (bind m k).
Proof.
  intros Hm Hk d w. unfold bind. specialize (Hm d w). destruct (m d w) as [a d1 w1| | |]; [|done..]. specialize (Hk a d1 w1). destruct (k a d1 w1); [|done..]. by eapply unseen_trans.
Qed.

Lemma hidden_ret {A} (a : A) : hidden (ret a).
Proof. by intros d w. Qed.

Lemma hidden_get : hidden get.
Proof. by intros d w. Qed.

Lemma hidden_must {A} (o : option A) : hidden (must o).
Proof. intros d w. by destruct o. Qed.

Lemma hidden_assert b : hidden (assert_ b).
Proof. intros d w. by destruct b. Qed.

Lemma hidden_modify f : (forall d, unseen d (f d)) -> hidden (modify f).
Proof. intros Hf d w. apply Hf. Qed.

Lemma hidden_stage p st : (forall a f, st <> RoomWaiting a f) -> hidden (set_stage p st).
Proof.
  intros Hst d w. cbn. do 7 (split; [done|]). intros x a f. cbn. destruct (decide (x = p)) as [->|Hne]; [|by rewrite lookup_insert_ne].
  rewrite lookup_insert_eq. intros [= E]. by destruct (Hst a f).
Qed.

Lemma hidden_log {A} (m : SM (Writer F) A) : hidden (in_log m).
Proof. intros d w. unfold in_log. by destruct (m _ _). Qed.

Lemma hidden_memtable {A} (m : SM MemTable A) : hidden (in_memtable m).
Proof. intros d w. unfold in_memtable. by destruct (m _ _). Qed.

Lemma hidden_no_stream {A} (m : SM unit A) : hidden (no_stream m).
Proof. intros d w. unfold no_stream. by destruct (m _ _). Qed.

#[local] Hint Resolve hidden_bind hidden_ret hidden_get hidden_must hidden_assert hidden_modify hidden_log hidden_memtable hidden_no_stream : hoare.
Ltac hide := repeat first [progress auto with hoare | apply hidden_bind; [|intros] | by apply hidden_modify | by apply hidden_stage | by intros d w | case_match].

Lemma hidden_load_batch u : hidden (load_batch u).
Proof. unfold load_batch, load_writer. hide. Qed.

Lemma hidden_store_batch u b : hidden (store_batch u b).
Proof. unfold store_batch, load_writer, store_writer. hide. Qed.

Lemma hidden_group_loop first max iter : forall size u l, hidden (group_loop first max size u l iter).
Proof.
  pose proof hidden_load_batch. pose proof hidden_store_batch. induction iter as [|x iter IH]; intros size u l; cbn [group_loop]; [hide|].
  unfold load_writer. hide.
Qed.

Lemma hidden_build : hidden BuildBatchGroup.
Proof. unfold BuildBatchGroup, load_writer. apply hidden_bind; [hide|]. intros d. case_match; [by intros ? ?|]. pose proof hidden_group_loop. hide. Qed.

Lemma hidden_signal p : hidden (signal p).
Proof. unfold signal, load_writer, store_writer. hide. Qed.

Lemma hidden_return p s : hidden (write_return p s).
Proof. unfold write_return. hide. Qed.

Lemma hidden_pop p l s queue : hidden (pop_writers p l s queue).
Proof.
  induction queue as [|x queue IH]; cbn [pop_writers]; [by intros d w|]. pose proof hidden_signal. unfold load_writer, store_writer. hide.
Qed.

Lemma hidden_finish p l s : hidden (finish_write p l s).
Proof. unfold finish_write. pose proof hidden_pop. pose proof hidden_signal. pose proof hidden_return. hide. Qed.

Lemma hidden_after_room p s : hidden (after_room p s).
Proof.
  unfold after_room, load_writer. pose proof hidden_build. pose proof hidden_finish. pose proof hidden_load_batch. pose proof hidden_store_batch. hide.
Qed.

Lemma hidden_new_number : hidden NewFileNumber.
Proof. unfold NewFileNumber. intros d w. done. Qed.

Lemma hidden_reuse n : hidden (ReuseFileNumber n).
Proof. unfold ReuseFileNumber. intros d w. cbn [bind get]. by destruct (_ =? _). Qed.

Lemma hidden_hoare {A} (m : SM DB A) : hidden m -> hoare live m (fun _ => live).
Proof. intros Hm d w Hl. specialize (Hm d w). destruct (m d w); [|done..]. by eapply live_unseen. Qed.

Lemma hidden_calm {A} (m : SM DB A) : hidden m -> hoare calm m (fun _ => calm).
Proof. intros Hm d w Hl. specialize (Hm d w). destruct (m d w); [|done..]. by eapply calm_unseen. Qed.

(** Scheduling makes good what was broken. *)
Lemma schedule_live : hoare calm MaybeScheduleCompaction (fun _ => live).
Proof.
  intros d w Hc. unfold MaybeScheduleCompaction. cbn [bind get]. destruct (background_compaction_scheduled_ d) eqn:Es; [cbn; split; [done|by intros ? ?]|].
  destruct (shutting_down_ d) eqn:Eh; [destruct Hc; congruence|]. destruct (negb (ok (bg_error_ d))) eqn:Eb; [cbn; split; [done|]; intros Hb; by rewrite Hb in Eb|].
  destruct (match db_imm d with None => true | _ => false end && negb (manual_compaction_ d) && negb (needs_compaction (versions_ d))) eqn:Ew.
  - cbn. split; [done|]. intros _ [Hi|Hn]; exfalso; [destruct (db_imm d); done|]. rewrite Hn, andb_false_r in Ew. done.
  - cbn. split; [destruct Hc as [? ? ?]; by split|done].
Qed.

(** A round of [MakeRoomForWrite]; whoever has to wait waits for a thread that will run. *)
Lemma round_live lfile a f : hoare live (make_room_round write_buffer_size lfile a f) (fun r d => live d /\ match r with RWait _ _ => background_compaction_scheduled_ d = true | _ => True end).
Proof.
  intros d w Hl. unfold make_room_round. cbn [bind get]. destruct (negb (ok (bg_error_ d))) eqn:Eb; [done|]. apply negb_false_iff in Eb. destruct (a && _); [done|]. destruct (negb f && _); [done|].
  pose proof Hl as [[_ Hlev _] Hbusy]. destruct (db_imm d) as [m|] eqn:Ei; [split; [done|]; apply Hbusy; [done|left; congruence]|].
  destruct (Z.leb_spec kL0_StopWritesTrigger (num_level0 (versions_ d))) as [Hle|_].
  - split; [done|]. apply Hbusy; [done|]. right. apply Hlev. unfold kL0_StopWritesTrigger, kL0_CompactionTrigger in *. lia.
  - assert (Hsw : hoare live (switch_memtable lfile a) (fun r d => live d /\ match r with RWait _ _ => background_compaction_scheduled_ d = true | _ => True end)); [|by apply Hsw].
    unfold switch_memtable. pose proof hidden_new_number. pose proof hidden_reuse. apply (hoare_bind _ _ _ (fun _ => live)); [by apply hoare_get|]. intros d1. apply (hoare_bind _ _ _ (fun _ => live)); [apply hidden_hoare; hide|]. intros [].
    apply (hoare_bind _ _ _ (fun _ => live)); [by apply hidden_hoare|]. intros n. destruct lfile as [s lf]. destruct (negb (ok s)).
    + apply (hoare_bind _ _ _ (fun _ => live)); [by apply hidden_hoare|]. intros []. by apply hoare_ret.
    + apply (hoare_bind _ _ _ (fun _ => calm)); [apply hoare_modify; intros d2 [Hc _]; by apply (calm_unseen d2)|]. intros [].
      apply (hoare_bind _ _ _ (fun _ => calm)); [apply hidden_calm; hide|]. intros [].
      apply (hoare_bind _ _ _ (fun _ => calm)); [apply hidden_calm; hide|]. intros [].
      apply (hoare_bind _ _ _ (fun _ => calm)); [apply hoare_modify; intros d2 [? ? ?]; by split|]. intros [].
      apply (hoare_bind _ _ _ (fun _ => calm)); [apply hidden_calm; hide|]. intros m.
      apply (hoare_bind _ _ _ (fun _ => calm)); [apply hidden_calm; hide|]. intros [].
      apply (hoare_bind _ _ _ (fun _ => calm)); [apply hidden_calm; hide|]. intros [].
      apply (hoare_bind _ _ _ (fun _ => live)); [apply schedule_live|]. intros []. by apply hoare_ret.
Qed.

Lemma room_live fuel p lfile : forall a f, hoare live (room_loop write_buffer_size fuel p lfile a f) (fun _ => live).
Proof.
  induction fuel as [|fuel IH]; intros a f; cbn [room_loop]; [by intros d w|]. eapply hoare_bind; [apply round_live|]. intros [s|a' f'|f'|a' f']; cbn beta iota.
  - eapply hoare_conseq; [apply hidden_hoare, hidden_after_room|by intros d []|done].
  - eapply hoare_conseq; [apply IH|by intros d []|done].
  - eapply hoare_conseq; [apply hidden_hoare, hidden_stage|by intros d []|]; done.
  - intros d w [[[Hs Hl Hr] Hb] Hsch]. cbn. split; [|exact Hb]. split; [exact Hs|exact Hl|]. cbn. done.
Qed.

Lemma check_turn_live p lfile : hoare live (check_turn write_buffer_size p lfile) (fun _ => live).
Proof.
  unfold check_turn, load_writer, store_writer. pose proof hidden_return. apply (hoare_bind _ _ _ (fun _ => live)); [apply hidden_hoare; hide|]. intros o. destruct (w_done o); [by apply hidden_hoare|].
  apply (hoare_bind _ _ _ (fun _ => live)); [by apply hoare_get|]. intros d. apply (hoare_bind _ _ _ (fun _ => live)); [apply hidden_hoare; hide|]. intros front.
  destruct (negb _); [apply hidden_hoare; hide|]. apply room_live.
Qed.

Lemma record_live s : hoare live (RecordBackgroundError s) (fun _ => live).
Proof.
  intros d w Hl. unfold RecordBackgroundError. cbn [bind get]. destruct (ok (bg_error_ d)) eqn:Eb; [|done]. destruct Hl as [[Hs Hlev Hr] Hb]. cbn. split.
  - split; cbn; [done|done|discriminate].
  - unfold busy in *. cbn. intros _. by apply Hb.
Qed.

Lemma step_live e : hoare live (step user write_buffer_size e) (fun _ => live).
Proof.
  pose proof hidden_load_batch. pose proof hidden_store_batch. pose proof hidden_finish. pose proof hidden_signal. destruct e as [p us sy lf|p lf|p|p| |s n b|n b|s|]; cbn [step].
  - unfold write_enter, store_writer. apply (hoare_bind _ _ _ (fun _ => live)); [by apply hoare_get|]. intros d. apply (hoare_bind _ _ _ (fun _ => live)); [eapply hoare_conseq; [apply (hoare_guard live)|done|by intros ? ? []]|]. intros [].
    apply (hoare_bind _ _ _ (fun _ => live)); [apply hidden_hoare; hide|]. intros []. apply (hoare_bind _ _ _ (fun _ => live)); [apply hidden_hoare; hide|]. intros []. apply check_turn_live.
  - unfold run_thread, stage_of. apply (hoare_bind _ _ _ (fun _ => live)); [intros d w Hl; cbn; by destruct (threads d !! p)|]. intros st.
    assert (Hg : forall b, hoare live (guard b) (fun _ => live)) by (intros b; eapply hoare_conseq; [apply (hoare_guard live)|done|by intros ? ? []]).
    destruct st as [|f|a f|u n l|u n l|u n l x|s e u n l|s].
    + apply (hoare_bind _ _ _ (fun _ => live)); [apply hidden_hoare; unfold load_writer; hide|]. intros o. apply (hoare_bind _ _ _ (fun _ => live)); [apply Hg|]. intros []. apply check_turn_live.
    + apply room_live.
    + apply (hoare_bind _ _ _ (fun _ => live)); [by apply hoare_get|]. intros d. apply (hoare_bind _ _ _ (fun _ => live)); [apply Hg|]. intros []. apply room_live.
    + apply hidden_hoare. unfold leader_log, load_writer. hide.
    + apply hidden_hoare. unfold leader_sync. hide.
    + apply hidden_hoare. unfold leader_insert. hide.
    + unfold leader_finish. apply (hoare_bind _ _ _ (fun _ => live)); [destruct e; [apply record_live|apply hidden_hoare; hide]|]. intros []. apply hidden_hoare. hide.
    + by intros d w.
  - unfold run_record, stage_of. apply (hoare_bind _ _ _ (fun _ => live)); [intros d w Hl; cbn; by destruct (threads d !! p)|]. intros []; try by intros d w. apply hidden_hoare. unfold leader_insert_record. hide.
  - unfold wake_up, stage_of. apply (hoare_bind _ _ _ (fun _ => live)); [intros d w Hl; cbn; by destruct (threads d !! p)|]. intros []; try by intros d w.
    + by apply hidden_hoare.
    + intros d w [[Hs Hl Hr] Hb]. cbn. split; [|exact Hb]. split; [done|done|]. cbn. discriminate.
  - unfold background_number. intros d w Hl. cbn. unfold guard. destruct (background_compaction_scheduled_ d); [|done]. by apply (live_unseen d).
  - unfold compact_memtable. intros d w Hl. cbn [bind get]. unfold guard. destruct (background_compaction_scheduled_ d) eqn:Es; [|done]. cbn [bind ret]. destruct (db_imm d); [|done].
    cbn zeta. destruct (ok _); [|by apply record_live]. destruct Hl as [[Hs Hl Hr] Hb]. cbn. split.
    + split; [done| |by intros]. cbn. intros Hn. unfold NeedsCompaction. by rewrite (proj2 (Z.leb_le _ _) Hn).
    + unfold busy. cbn. done.
  - unfold background_change. intros d w Hl. cbn [bind get]. unfold guard. destruct (background_compaction_scheduled_ d) eqn:Es; [|done]. destruct Hl as [[Hs Hl Hr] Hb]. cbn. split.
    + split; [done| |by intros]. cbn. intros Hn. unfold NeedsCompaction. by rewrite (proj2 (Z.leb_le _ _) Hn).
    + unfold busy. cbn. done.
  - unfold background_error. intros d w Hl. cbn [bind get]. unfold guard. destruct (_ && _); [|done]. by apply record_live.
  - unfold background_end. intros d w [[Hs Hl Hr] Hb]. cbn [bind get]. unfold guard. destruct (background_compaction_scheduled_ d) eqn:Es; [|done]. cbn [bind ret modify].
    unfold MaybeScheduleCompaction. cbn. rewrite Hs. destruct (negb (ok (bg_error_ d))) eqn:Eb; cbn.
    + split; [by split|]. unfold busy. cbn. intros E. by rewrite E in Eb.
    + destruct (match db_imm d with None => true | _ => false end && negb (manual_compaction_ d) && negb (needs_compaction (versions_ d))) eqn:Ew; cbn; (split; [by split|]); [|done].
      unfold busy. cbn. intros _ [Hi|Hn]; exfalso; [by destruct (db_imm d)|]. by rewrite Hn, andb_false_r in Ew.
Qed.

Lemma steps_live es : hoare live (steps user write_buffer_size es) (fun _ => live).
Proof. induction es as [|e es IH]; [by intros d w|]. cbn [steps]. eapply hoare_bind; [apply step_live|]. by intros []. Qed.

(** * Where a step of the thread at the front ends *)

(** How many steps are left until it returns, or waits for the background thread. *)
Definition rank (st : stage) : nat :=
  match st with
  | Waiting => 6
  | Sleeping _ => 5
  | Logging _ _ _ => 4
  | Syncing _ _ _ => 3
  | Inserting _ _ _ _ => 2
  | Relocking _ _ _ _ _ => 1
  | RoomWaiting _ _ | Returned _ => 0
  end.

Definition reached (p : Z) (n : nat) (d : DB) : Prop :=
  exists st, threads d !! p = Some st /\ (rank st < n)%nat /\ match st with RoomWaiting _ _ => room_signaled d = false | _ => True end.

Definition anywhere (d : DB) : Prop := True.

Definition ends {A} (m : SM DB A) (Q : DB -> Prop) : Prop := hoare anywhere m (fun _ => Q).

Lemma any_bind {A B} (m : SM DB A) (k : A -> SM DB B) Q : (forall a, hoare anywhere (k a) Q) -> hoare anywhere (bind m k) Q.
Proof. intros Hk. eapply hoare_bind; [|exact Hk]. intros d w _. by destruct (m d w). Qed.

Lemma ends_bind {A B} (m : SM DB A) (k : A -> SM DB B) Q : (forall a, ends (k a) Q) -> ends (bind m k) Q.
Proof. apply any_bind. Qed.

Lemma ends_stage p st n : (rank st < n)%nat -> (forall a f, st <> RoomWaiting a f) -> ends (set_stage p st) (reached p n).
Proof. intros Hr Hst d w _. exists st. cbn. rewrite lookup_insert_eq. split; [done|]. split; [done|]. destruct st; try done. by destruct (Hst allow_delay force). Qed.

Lemma ends_finish p l s n : (0 < n)%nat -> ends (finish_write p l s) (reached p n).
Proof. intros Hn. unfold finish_write, write_return. do 5 (apply ends_bind; intros ?). by apply ends_stage. Qed.

Lemma ends_after_room p s n : (4 < n)%nat -> ends (after_room p s) (reached p n).
Proof.
  intros Hn. unfold after_room. do 2 (apply ends_bind; intros ?). destruct (_ && _); [|apply ends_finish; lia]. apply ends_bind. intros [u l]. do 4 (apply ends_bind; intros ?). by apply ends_stage.
Qed.

Lemma switch_awake lfile a : hoare anywhere (switch_memtable lfile a) (fun r _ => match r with RGo _ => True | RAgain a' _ => a' = a | _ => False end).
Proof.
  unfold switch_memtable. do 3 (apply any_bind; intros ?). destruct lfile as [s lf]. destruct (negb (ok s)); [apply any_bind; intros ?; by intros ? ? _|].
  do 8 (apply any_bind; intros ?). by intros ? ? _.
Qed.

(** A thread that has slept once does not sleep again. *)
Lemma round_awake lfile a f : hoare anywhere (make_room_round write_buffer_size lfile a f)
  (fun r _ => match r with RSleep _ => a = true | RAgain a' _ => a' = a | _ => True end).
Proof.
  unfold make_room_round. apply any_bind. intros d. destruct (negb (ok _)); [by intros d1 w1 _|]. destruct (a && _) eqn:Ea; [apply andb_true_iff in Ea as [-> _]; by intros d1 w1 _|].
  destruct (negb f && _); [by intros d1 w1 _|]. destruct (db_imm d); [by intros d1 w1 _|]. destruct (kL0_StopWritesTrigger <=? _); [by intros d1 w1 _|].
  eapply hoare_conseq; [apply switch_awake|done|]. by intros [].
Qed.

Lemma room_ends fuel p lfile n : forall a f, (4 < n)%nat -> (a = true -> (5 < n)%nat) -> ends (room_loop write_buffer_size fuel p lfile a f) (reached p n).
Proof.
  induction fuel as [|fuel IH]; intros a f Hn Ha; cbn [room_loop]; [by intros d w|]. eapply hoare_bind; [apply round_awake|]. intros [s|a' f'|f'|a' f']; cbn beta iota.
  - eapply hoare_conseq; [by apply ends_after_room|done|done].
  - intros d w ->. by apply IH.
  - intros d w Ea. apply (ends_stage p (Sleeping f') n); [by apply Ha|done|done].
  - intros d w _. cbn. exists (RoomWaiting a' f'). cbn. rewrite lookup_insert_eq. split; [done|]. split; [lia|done].
Qed.

(** Every step of the thread at the front is closer to the end. *)
Lemma front_ends p lfile st : hoare (fun d => head (writers_ d) = Some p /\ threads d !! p = Some st) (run_thread user write_buffer_size p lfile)
  (fun _ => reached p (match st with RoomWaiting _ _ => 6%nat | _ => rank st end)).
Proof.
  intros d w [Hh Et]. unfold run_thread, stage_of. cbn [bind get]. rewrite Et. cbn [ret].
  assert (Hend : forall (m : SM DB unit) Q, ends m Q -> match m d w with Ok _ d' _ => Q d' | _ => True end) by (intros m Q Hm; by apply Hm).
  destruct st as [|f|a f|u n l|u n l|u n l x|s e u n l|s]; cbn [rank].
  - unfold load_writer. cbn [bind get]. destruct (writer_objects d !! p) as [o|] eqn:Eo; [|done]. cbn [must ret]. unfold guard. destruct (signaled o); [|done]. cbn [ret]. unfold check_turn, load_writer. cbn [bind get]. rewrite Eo. cbn [must ret].
    destruct (w_done o); [apply (Hend (write_return p (w_status o))); unfold write_return; apply ends_bind; intros ?; apply ends_stage; [cbn; lia|done]|].
    cbn [bind get]. rewrite Hh. cbn [must ret]. rewrite Z.eqb_refl. cbn [negb]. apply (Hend (MakeRoomForWrite write_buffer_size p lfile _ _)). apply room_ends; lia.
  - apply (Hend (MakeRoomForWrite write_buffer_size p lfile _ _)). apply room_ends; [lia|done].
  - cbn [bind get]. unfold guard. destruct (room_signaled d); [|done]. cbn [ret]. apply (Hend (MakeRoomForWrite write_buffer_size p lfile _ _)). apply room_ends; lia.
  - apply (Hend (leader_log p u n l)). unfold leader_log. do 3 (apply ends_bind; intros ?). destruct (ok _); [destruct (w_sync _)|]; (apply ends_stage; [cbn; lia|done]).
  - apply (Hend (leader_sync p u n l)). unfold leader_sync. apply ends_bind; intros s. destruct (ok s); (apply ends_stage; [cbn; lia|done]).
  - apply (Hend (leader_insert user p u n l x)). unfold leader_insert. do 2 (apply ends_bind; intros ?). apply ends_stage; [cbn; lia|done].
  - apply (Hend (leader_finish p s e u n l)). unfold leader_finish. do 5 (apply ends_bind; intros ?). apply ends_finish; lia.
  - done.
Qed.

End live.

(** * What LevelDB's write path promises: writes are atomic and in the order of arrival, and
    nobody waits for ever. *)

(** * The specification *)

Section serial.
Context `{Placement} {F : Type} `{WritableLaws F} `{!SyncFile F} `{!SyncLaws F}.
Context {user : Comparator} {laws : ComparatorLaws} (write_buffer_size : Z).

Notation DB := (DBImpl F).

(** What the writes of the groups [gs] left, from the number [seq] on: in each group that
    succeeded, every update has the next number. *)
Definition committed (seq : Z) (gs : list group) : list version := versions_in (attempts seq gs).

(** The group of the front of the queue may be in the table already, with higher numbers. *)
Definition in_flight (d : DB) (q : list call) (X : list attempt) : Prop :=
  X = [] \/ exists ms rest y s, q = ms ++ rest /\ ms <> [] /\ count_updates ms < 2 ^ 31 /\ X = [mk_attempt (last_sequence_ (versions_ d) + 1) (group_updates ms) y s].

(** While the group is being inserted, a part of it is in the table. *)
Definition in_table (d : DB) (q : list call) (X : list attempt) : Prop :=
  X = [] \/ exists ms rest us more y s, q = ms ++ rest /\ ms <> [] /\ count_updates ms < 2 ^ 31 /\ group_updates ms = us ++ more /\
    X = [mk_attempt (last_sequence_ (versions_ d) + 1) us y s] /\
    (more = [] \/ exists c u n l x, head q = Some c /\ threads d !! c_id c = Some (Inserting u n l x)).

(** The calls [cs] were made in this order; the first of them, those of the groups [gs], are
    through, and the others wait in the queue.  The status that a call returns is that of
    its group, and a call that asks for a sync is in a group that is synced; the number of the
    last update is that of the database; the tables hold the updates of the groups that
    succeeded, one table after the other, and the current one may hold those of the group that
    is being written behind them, with numbers above that of the last update. *)
Record serial (seq : Z) (cs : list call) (gs : list group) (d : DB) (w : world) : Prop := {
  s_order : exists q, cs = calls_in gs ++ q /\ writers_ d = c_id <$> q /\ (forall c s, c ∈ q -> threads d !! c_id c <> Some (Returned s)) /\
    exists X g0 g1 g2, in_table d q X /\ gs = g0 ++ g1 ++ g2 /\
      (exists vss, mjoin vss = committed seq g0 /\ Forall2 (fun vs m => holds vs m w) vss (tables (versions_ d))) /\
      match db_imm d with Some m => holds (committed (seq + total g0) g1) m w | None => g1 = [] end /\
      holds (committed (seq + total g0 + total g1) g2 ++ versions_in X) (db_mem d) w;
  s_status g c : g ∈ gs -> c ∈ members g -> finished d (outcome g) c;
  s_synced g c : g ∈ gs -> c ∈ members g -> c_sync c = true -> synced (members g) = true;
  s_sequence : last_sequence_ (versions_ d) = seq - 1 + total gs;
}.

Notation inv v := (db_inv (last_sequence_ v + 1)).

(** ** What is assumed of a run *)

(** The version that [Recover] leaves; no table in memory has been written out yet. *)
Definition recovered (v : VersionSet) : Prop :=
  tables v = [] /\ 0 <= last_sequence_ v /\ 0 <= next_file_number_ v /\ (kL0_CompactionTrigger <= num_level0 v -> needs_compaction v = true).

(** A database is opened and the events [es] follow, in which the calls [cs] come in.  The
    new files are empty, the numbers do not run out, and what is written is a batch of
    updates whose keys the comparator orders. *)
Record run_of (v : VersionSet) (lfile : Status * F) (es : list (event F)) (cs : list call) (w : world) : Prop := {
  r_version : recovered v;
  r_heap : heap_ok w;
  r_created : ok lfile.1 = true;
  r_log : lfile_ok lfile;
  r_calls : asked es cs;
  r_files : Forall file_of es;
  r_sequence : last_sequence_ v + count_updates cs <= kMaxSequenceNumber;
  r_numbers : next_file_number_ v + 1 + Z.of_nat (length es) < 2 ^ 64;
}.

Lemma db_open_ok v lfile es cs w : run_of v lfile es cs w ->
  exists d w', Open v lfile OK tt w = Ok (inr d) tt w' /\ inv v (next_file_number_ v + 1) [] [] [] d w' /\ live d.
Proof.
  intros [(Htab & Hseq & Hnum & Hlev) Hheap Hok Hlf _ _ _ Hn]. destruct lfile as [s f]. cbn [fst] in Hok. pose proof (Hlf Hok) as Hc. cbn [snd] in *.
  unfold Open. rewrite Hok. cbn [negb]. destruct (new_memtable_ok [] w (fresh_arena w Hheap)) as (m & w' & Em & Hm & _). unfold bind at 1. rewrite Em. cbn zeta.
  rewrite u64_small by lia. set (v1 := mk_versions _ _ _ _ _ _ _). set (d := mk_db _ _ _ _ _ _ _ _ _ _ _ _ _ _ _). unfold in_memtable, Ref, bind, modify. change (ok OK) with true. cbn [db_mem d].
  set (d1 := set_mem (mk_memtable (table_ m) (refs_ m + 1)) d). destruct (schedule_ok d1 w') as [b Es]. assert (Hcalm : calm d1) by (split; [done|done|]; intros p a fo; cbn; by rewrite lookup_empty).
  pose proof (schedule_live d1 w' Hcalm) as Hl. rewrite Es in Hl |- *. exists (set_scheduled b d1), w'. split; [reflexivity|]. split; [|exact Hl]. split.
  - assert (Hnone : forall A (x : A), x ∉ []) by (intros A x; apply not_elem_of_nil).
    split; cbn; try done; [apply NoDup_nil_2|..]; try (intros; exfalso; by eapply Hnone). intros p [st Hst]. by rewrite lookup_empty in Hst.
  - split; [|done]. split; cbn; [|lia|lia|done]. exists [], [], []. split; [done|]. rewrite Htab. split; [by exists []|]. split; [done|]. split; [by apply holds_refs|by apply new_writer_state].
Qed.

Lemma run_ok_inv v lfile es cs w : run_of v lfile es cs w -> exists d0 w0, Open v lfile OK tt w = Ok (inr d0) tt w0 /\
  wp (steps user write_buffer_size es) (fun _ d w => done_inv (last_sequence_ v + 1) (next_file_number_ v + 1 + Z.of_nat (length es)) cs [] d w /\ live d) d0 w0.
Proof.
  intros Hrun. destruct (db_open_ok _ _ _ _ _ Hrun) as (d0 & w0 & E & Hinv & Hl). exists d0, w0. split; [done|]. destruct Hrun as [(_ & Hseq & _) _ _ _ Hcs Hlf Hs Hn].
  pose proof (steps_ok write_buffer_size (last_sequence_ v + 1) es (next_file_number_ v + 1) [] [] cs d0 w0) as Hsteps. unfold wp in *.
  pose proof (steps_live user write_buffer_size es d0 w0 Hl) as Hl'. destruct (steps _ _ _ _) as [[] d w1| | |]; try done; (assert (Hsteps' : _) by (apply Hsteps; try done; [by exists [], []|split; cbn; lia]); done).
Qed.

(** ** The invariant gives the specification *)

Lemma front_data seq files gs q (d : DB) w : front_ok seq files gs q d w -> exists X Y, data_ok seq files gs X Y d w /\ in_table d q X /\ in_flight d q Y.
Proof.
  assert (Hidle : idle seq files gs d w -> exists X Y, data_ok seq files gs X Y d w /\ in_table d q X /\ in_flight d q Y) by (intros [Hd _]; exists [], []; split; [done|]; split; by left).
  assert (Hflight : forall u n l ms y s, flight q d u n l ms -> in_flight d q [attempt_of d ms y s]).
  { intros u n l ms y s [[rest Hq] Hl _ Hn _ _]. right. exists ms, rest, y, s. split; [exact Hq|]. split; [by intros ->|]. by split. }
  assert (Hpart : forall u n l ms us more y s, flight q d u n l ms -> group_updates ms = us ++ more -> (more = [] \/ exists c u n l x, head q = Some c /\ threads d !! c_id c = Some (Inserting u n l x)) ->
    in_table d q [mk_attempt (last_sequence_ (versions_ d) + 1) us y s]).
  { intros u n l ms us more y s [[rest Hq] Hl _ Hn _ _] Eus Hm. right. exists ms, rest, us, more, y, s. split; [exact Hq|]. split; [by intros ->|]. done. }
  destruct q as [|c rest]; [exact Hidle|]. cbn [front_ok]. destruct (threads d !! c_id c) as [[]|] eqn:Et; try done.
  - intros [Hi _]. by apply Hidle.
  - intros (ms & Hf & Hd). exists [], []. split; [done|]. split; by left.
  - intros (ms & Hf & _ & Hd). eexists [], _. split; [exact Hd|]. split; [by left|by eapply Hflight].
  - intros (ms & us & Hf & (more & Eus & _) & Hd). eexists _, _. split; [exact Hd|]. split; [|by eapply Hflight]. eapply Hpart; [exact Hf|exact Eus|]. right. by exists c, updates, last_sequence, last_writer, progress.
  - intros (ms & Hf & Hd). eexists _, _. split; [exact Hd|]. split; [|by eapply Hflight]. eapply Hpart; [exact Hf|by rewrite app_nil_r|by left].
Qed.

Lemma queue_unanswered seq files cs gs q (d : DB) w c s : db_inv seq files cs gs q d w -> c ∈ q -> threads d !! c_id c <> Some (Returned s).
Proof.
  intros [HQ Hf] Hc E. destruct q as [|c0 rest]; [by apply not_elem_of_nil in Hc|]. apply elem_of_cons in Hc as [->|Hc].
  - cbn [front_ok] in Hf. by rewrite E in Hf.
  - destruct (q_tail _ _ _ _ HQ c Hc) as [Hw _]. congruence.
Qed.

Lemma inv_serial seq files cs gs q (d : DB) w : db_inv seq files cs gs q d w -> serial seq cs gs d w.
Proof.
  intros Hinv. pose proof Hinv as [HQ Hf]. destruct (front_data _ _ _ _ _ _ Hf) as (X & Y & [(g0 & g1 & g2 & Eg & He) Hs _ _] & HX & _). cbn zeta in He. destruct He as (Htab & Himm & Hmem & _).
  split; [|apply (q_done _ _ _ _ HQ)|apply (q_sync _ _ _ _ HQ)|exact Hs]. exists q. split; [apply (q_calls _ _ _ _ HQ)|]. split; [apply (q_writers _ _ _ _ HQ)|]. split; [intros c s; by eapply queue_unanswered|].
  exists X, g0, g1, g2. split; [done|]. split; [done|]. split; [done|]. split; [destruct (db_imm d); by destruct Himm|]. by rewrite versions_in_app in Hmem.
Qed.

(** A run that goes on. *)
Lemma steps_app es es' : forall (d : DB) w, steps user write_buffer_size (es ++ es') d w = bind (steps user write_buffer_size es) (fun _ => steps user write_buffer_size es') d w.
Proof.
  induction es as [|e es IH]; intros d w; [done|]. cbn [steps app]. unfold bind at 1 2 3. destruct (step _ _ e d w); [|done..]. rewrite IH. unfold bind. done.
Qed.

Lemma asked_app es es' cs cs' : asked (F := F) es cs -> asked es' cs' -> asked (es ++ es') (cs ++ cs').
Proof. induction 1 as [|e es c cs He _ IH]; [done|]. intros H'. rewrite <- app_assoc. cbn. constructor; auto. Qed.

(** ** Reading *)

Lemma last_write_app u s vs vs' : last_write u s (vs ++ vs') = match last_write u s vs' with Some x => Some x | None => last_write u s vs end.
Proof.
  induction vs' as [|v vs' IH] using rev_ind; [by rewrite app_nil_r|]. rewrite app_assoc, !last_write_snoc, IH. by destruct (visible u s v).
Qed.

(** What has a higher number is not seen. *)
Lemma last_write_later u s vs : Forall (fun v => s < v_seq v) vs -> last_write u s vs = None.
Proof.
  induction vs as [|v vs IH] using rev_ind; [done|]. intros Hv. apply Forall_app in Hv as [Hvs Hv]. apply Forall_cons_1 in Hv as [Hv _]. rewrite last_write_snoc, IH by done.
  unfold visible. rewrite (proj2 (Z.leb_gt _ _)) by done. by rewrite andb_false_r.
Qed.

Lemma answer_none v : answer v = None -> v = None.
Proof. destruct v as [v|]; [|done]. cbn. by destruct (v_type v). Qed.

(** The lookup of one table. *)
Lemma get_in_table vs u s lk m w : holds vs m w -> ascending vs -> valid_key u -> is_bytes u -> size u + 8 < 2 ^ 32 -> 0 <= s <= kMaxSequenceNumber -> new_LookupKey u s = Some lk ->
  Get user lk m w = Ok (answer (last_write u s vs)) m w.
Proof.
  intros Hm Ha Hu Hb Hsz Hs Elk. rewrite <- newest_last by done. apply (get_version_ok _ u s); [exact Hm| |exact Elk]. split; [done|]. split; [done|]. split; [constructor|]. done.
Qed.

Lemma committed_ascending seq gs : ascending (committed seq gs).
Proof. apply versions_in_ascending. Qed.

Lemma committed_app seq gs gs' : committed seq (gs ++ gs') = committed seq gs ++ committed (seq + total gs) gs'.
Proof. unfold committed. by rewrite attempts_app, versions_in_app. Qed.

Lemma flight_range (d : DB) q X : in_table d q X -> Forall (fun v => last_sequence_ (versions_ d) < v_seq v) (versions_in X) /\ ascending (versions_in X).
Proof.
  intros [->|(ms & rest & us & more & y & s & _ & _ & _ & _ & -> & _)]; [split; constructor|]. unfold versions_in. cbn. rewrite app_nil_r. destruct (ok s); [|split; constructor].
  split; [|apply versions_of_ascending]. eapply Forall_impl; [apply versions_of_range|]. cbn. lia.
Qed.

(** ** Going on *)

Definition settled (d : DB) (p : Z) : Prop :=
  (exists s, threads d !! p = Some (Returned s)) \/
  (exists a f, threads d !! p = Some (RoomWaiting a f) /\ room_signaled d = false /\ background_compaction_scheduled_ d = true).

Lemma front_runs seq cs lfile p n : lfile_ok lfile -> forall files gs q st (d : DB) w, db_inv seq files cs gs q d w -> live d -> budget seq cs -> files + Z.of_nat n < 2 ^ 64 ->
  head (c_id <$> q) = Some p -> threads d !! p = Some st -> (rank st <= n)%nat -> match st with RoomWaiting _ _ => room_signaled d = false | _ => True end ->
  exists k d' w', (k <= n)%nat /\ steps user write_buffer_size (repeat (ERun p lfile) k) d w = Ok tt d' w' /\ settled d' p.
Proof.
  intros Hlf. induction n as [|n IH]; intros files gs q st d w Hinv Hl Hb Hfl Hh Et Hrank Hroom.
  - exists 0%nat, d, w. split; [lia|]. split; [done|]. destruct st; cbn in Hrank; try lia; [right|left; by eexists].
    exists allow_delay, force. split; [done|]. split; [done|]. by eapply l_room; [apply Hl|exact Et|].
  - assert (Hfront : front_ok seq files gs q d w) by apply Hinv. destruct (queue_front _ _ _ _ _ (proj1 Hinv) Hh) as (c & rest & -> & Ec & _). cbn [front_ok] in Hfront. rewrite Ec, Et in Hfront.
    assert (Hnext : ready d p -> exists k d' w', (k <= S n)%nat /\ steps user write_buffer_size (repeat (ERun p lfile) k) d w = Ok tt d' w' /\ settled d' p).
    2: { destruct st; try (apply Hnext; unfold ready; rewrite Et; done); [apply Hnext; unfold ready; rewrite Et; by destruct Hfront|].
         exists 0%nat, d, w. split; [lia|]. split; [done|]. right. exists allow_delay, force. split; [done|]. split; [done|]. by eapply l_room; [apply Hl|exact Et|]. }
    intros Hr. assert (Hst : match st with RoomWaiting _ _ => False | _ => True end) by (destruct st; try done; unfold ready in Hr; rewrite Et in Hr; congruence).
    destruct (run_ok write_buffer_size seq files cs gs (c :: rest) p lfile d w Hinv Hb Hlf ltac:(lia) Hr) as (d1 & w1 & E & gs1 & q1 & _ & Hinv1).
    pose proof (step_live user write_buffer_size (ERun p lfile) d w Hl) as Hl1. cbn [step] in Hl1. rewrite E in Hl1.
    pose proof (front_ends user write_buffer_size p lfile st d w) as He. rewrite E in He. destruct He as (st1 & Et1 & Hr1 & Hroom1).
    { split; [|done]. rewrite (q_writers _ _ _ _ (proj1 Hinv)). done. }
    assert (Hlt : (rank st1 <= n /\ rank st1 < 6)%nat) by (destruct st; cbn in *; try lia; done).
    assert (Hstep : forall k d' w', steps user write_buffer_size (repeat (ERun p lfile) k) d1 w1 = Ok tt d' w' -> steps user write_buffer_size (repeat (ERun p lfile) (S k)) d w = Ok tt d' w').
    { intros k d' w' Ek. cbn [repeat steps step]. unfold bind. by rewrite E. }
    assert (Hend : (exists s, st1 = Returned s) \/ forall s, st1 <> Returned s) by (destruct st1; try (right; done); left; by eexists).
    destruct Hend as [[s ->]|Hne].
    + exists 1%nat, d1, w1. split; [lia|]. split; [by apply (Hstep 0%nat)|]. left. by eexists.
    + assert (Hw : st1 <> Waiting) by (intros ->; cbn in Hlt; lia). pose proof (leader_front _ _ _ _ _ _ _ _ _ Hinv1 Et1 Hw Hne) as Hh1.
      destruct (IH (files + 1) gs1 q1 st1 d1 w1) as (k & d' & w' & Hk & Ek & Hs); try done; try lia. exists (S k), d', w'. split; [lia|]. split; [by apply Hstep|done].
Qed.

(** The end of the background call wakes whoever waits for it. *)
Lemma background_wakes (d : DB) w : background_compaction_scheduled_ d = true -> exists d', step user write_buffer_size EBackground d w = Ok tt d' w /\ room_signaled d' = true.
Proof.
  intros Hs. cbn [step]. unfold background_end, bind, get, guard, modify. rewrite Hs. cbn [ret].
  destruct (schedule_ok (set_scheduled false d) w) as [b E]. rewrite E. by eexists.
Qed.

(** A thread whose call is through returns when it runs. *)
Lemma finished_returns (d : DB) w s c lfile : finished d s c -> threads d !! c_id c = Some (Returned s) \/
  exists d', run_thread user write_buffer_size (c_id c) lfile d w = Ok tt d' w /\ threads d' !! c_id c = Some (Returned s).
Proof.
  intros [[Ht _]|[Ht (o & Ho & Hd & Hs & Hg)]]; [by left|right]. unfold run_thread, stage_of. cbn [bind get]. rewrite Ht. cbn [ret]. unfold load_writer. cbn [bind get]. rewrite Ho. cbn [must ret].
  unfold guard. rewrite Hg. cbn [bind ret]. unfold check_turn, load_writer. cbn [bind get]. rewrite Ho. cbn [must ret]. rewrite Hd, Hs. eexists. split; [reflexivity|]. cbn. by rewrite lookup_insert_eq.
Qed.

(** The thread has returned, or it waits for the background thread, which is going to wake it. *)
Definition settles (d : DB) (w : world) (p : Z) : Prop :=
  (exists s, threads d !! p = Some (Returned s)) \/
  (exists a f d', threads d !! p = Some (RoomWaiting a f) /\ step user write_buffer_size EBackground d w = Ok tt d' w /\ room_signaled d' = true).

Lemma settled_settles (d : DB) w p : settled d p -> settles d w p.
Proof. intros [?|(a & f & Ht & _ & Hsch)]; [by left|]. right. destruct (background_wakes d w Hsch) as (d3 & E3 & Hr3). by exists a, f, d3. Qed.

(** The thread at the front, from wherever it stands. *)
Lemma front_progress seq files cs gs c rest (d : DB) w lf : db_inv seq files cs gs (c :: rest) d w -> live d -> budget seq cs -> files + 6 < 2 ^ 64 -> lfile_ok lf ->
  exists k d' w', (k <= 6)%nat /\ steps user write_buffer_size (repeat (ERun (c_id c) lf) k) d w = Ok tt d' w' /\ settles d' w' (c_id c).
Proof.
  intros Hinv Hl Hb Hfl Hlf. pose proof Hinv as [HQ Hf]. destruct (front_thread _ _ _ _ _ _ _ Hf) as [st Et].
  assert (Hcase : (exists a f, st = RoomWaiting a f /\ room_signaled d = true) \/ match st with RoomWaiting _ _ => room_signaled d = false | _ => True end).
  { destruct st; try (by right). destruct (room_signaled d); [left; by eexists _, _|by right]. }
  destruct Hcase as [(a & f & -> & Hsig)|Hcase].
  - assert (Hr : ready d (c_id c)) by (unfold ready; by rewrite Et).
    destruct (run_ok write_buffer_size _ _ cs gs (c :: rest) (c_id c) lf d w Hinv Hb Hlf ltac:(lia) Hr) as (d2 & w2 & E2 & gs2 & q2 & _ & Hinv2).
    pose proof (step_live user write_buffer_size (ERun (c_id c) lf) d w Hl) as Hl2. cbn [step] in Hl2. rewrite E2 in Hl2.
    assert (Hw : head (writers_ d) = Some (c_id c)) by (by rewrite (q_writers _ _ _ _ HQ)).
    pose proof (front_ends user write_buffer_size (c_id c) lf _ d w (conj Hw Et)) as He. rewrite E2 in He. destruct He as (st2 & Et2 & Hr2 & Hroom2).
    assert (Hstep : forall k d' w', steps user write_buffer_size (repeat (ERun (c_id c) lf) k) d2 w2 = Ok tt d' w' -> steps user write_buffer_size (repeat (ERun (c_id c) lf) (S k)) d w = Ok tt d' w').
    { intros k d' w' Ek. cbn [repeat steps step]. unfold bind. by rewrite E2. }
    assert (Hend : (exists s, st2 = Returned s) \/ forall s, st2 <> Returned s) by (destruct st2; try (right; done); left; by eexists). destruct Hend as [[s ->]|Hne].
    + exists 1%nat, d2, w2. split; [lia|]. split; [by apply (Hstep 0%nat)|]. left. by eexists.
    + assert (Hwt : st2 <> Waiting) by (intros ->; cbn in Hr2; lia). pose proof (leader_front _ _ _ _ _ _ _ _ _ Hinv2 Et2 Hwt Hne) as Hh2.
      destruct (front_runs seq cs lf (c_id c) 5 Hlf _ gs2 q2 st2 d2 w2 Hinv2 Hl2 Hb ltac:(lia) Hh2 Et2 ltac:(lia) Hroom2) as (k & d3 & w3 & Hk & E3 & Hset).
      exists (S k), d3, w3. split; [lia|]. split; [by apply Hstep|by apply settled_settles].
  - destruct (front_runs seq cs lf (c_id c) 6 Hlf _ gs (c :: rest) st d w Hinv Hl Hb ltac:(lia) eq_refl Et ltac:(destruct st; cbn; lia) Hcase) as (k & d3 & w3 & Hk & E3 & Hset).
    exists k, d3, w3. split; [lia|]. split; [done|by apply settled_settles].
Qed.

(** * The properties *)

(** C4: writes are atomic, in the order in which they came.  Take any sequence of events after a
    database was opened: threads call Write, go on or wake up in any order, the background
    thread writes tables out or fails, files cannot be created, written or synced.  No
    assertion fails, no thread touches a Writer that is gone, no loop runs for ever.  The
    calls that came in are, in this order, those of the groups that are through and
    then those in the queue; the status that a call returns is that of its whole group;
    the tables hold exactly the updates of the groups that succeeded, numbered in this
    order, each group as a whole or not at all; updates of the group at the front of the queue,
    which the leader inserts record by record without the mutex, may be in the current table
    before the group is through, with numbers above the last sequence number.  Later events
    only add groups. *)
Theorem group_commit_serial v lfile w es1 es2 cs1 cs2 : run_of v lfile (es1 ++ es2) (cs1 ++ cs2) w -> asked es1 cs1 -> asked es2 cs2 ->
  exists d0 w0, Open v lfile OK tt w = Ok (inr d0) tt w0 /\
    match steps user write_buffer_size es1 d0 w0 with
    | Ok _ d1 w1 => exists gs1, serial (last_sequence_ v + 1) cs1 gs1 d1 w1 /\
        match steps user write_buffer_size es2 d1 w1 with
        | Ok _ d2 w2 => exists gs2, gs1 `prefix_of` gs2 /\ serial (last_sequence_ v + 1) (cs1 ++ cs2) gs2 d2 w2
        | Err _ _ => True
        | UB | NoFuel => False
        end
    | Err _ _ => True
    | UB | NoFuel => False
    end.
Proof.
  intros Hrun Hc1 Hc2. destruct (db_open_ok _ _ _ _ _ Hrun) as (d0 & w0 & E & Hinv & _). exists d0, w0. split; [done|]. destruct Hrun as [(_ & Hseq & _) _ _ _ _ Hlf Hs Hn].
  apply Forall_app in Hlf as [Hlf1 Hlf2]. rewrite count_updates_app in Hs. rewrite length_app in Hn. pose proof (count_nonneg cs2) as Hp2.
  pose proof (steps_ok write_buffer_size (last_sequence_ v + 1) es1 (next_file_number_ v + 1) [] [] cs1 d0 w0) as H1'. unfold wp in H1'.
  specialize (H1' ltac:(by exists [], []) Hc1 Hlf1 ltac:(split; cbn; lia) ltac:(lia)). destruct (steps user write_buffer_size es1 d0 w0) as [[] d1 w1| | |]; [|done..].
  destruct H1' as (gs1 & q1 & _ & Hinv1). exists gs1. split; [by eapply inv_serial|].
  pose proof (steps_ok write_buffer_size (last_sequence_ v + 1) es2 (next_file_number_ v + 1 + Z.of_nat (length es1)) cs1 gs1 cs2 d1 w1) as H2'. unfold wp in H2'.
  specialize (H2' ltac:(by exists gs1, q1) Hc2 Hlf2 ltac:(split; [lia|]; rewrite count_updates_app; lia) ltac:(lia)). destruct (steps user write_buffer_size es2 d1 w1) as [[] d2 w2| | |]; [|done..].
  destruct H2' as (gs2 & q2 & Hpre & Hinv2). exists gs2. split; [done|]. by eapply inv_serial.
Qed.

(** C6: no wake-up is lost and nobody waits for ever.  In any state that such a run reaches, a
    thread that has not returned either returns with its next step, or it is in the queue,
    and then the thread at the front can run: after at most six steps of its own it has
    returned, and its group is through, or it waits in MakeRoomForWrite for the background
    thread; that one is scheduled then, and when it ends it wakes the thread. *)
Theorem writers_never_stuck v lfile w es cs d0 w0 d1 w1 p st : run_of v lfile es cs w -> next_file_number_ v + 7 + Z.of_nat (length es) < 2 ^ 64 ->
  Open v lfile OK tt w = Ok (inr d0) tt w0 -> steps user write_buffer_size es d0 w0 = Ok tt d1 w1 -> threads d1 !! p = Some st ->
  (exists s, st = Returned s) \/
  (exists s, forall lf, exists d', run_thread user write_buffer_size p lf d1 w1 = Ok tt d' w1 /\ threads d' !! p = Some (Returned s)) \/
  (p ∈ writers_ d1 /\ exists front rest, writers_ d1 = front :: rest /\ forall lf, lfile_ok lf ->
    exists k d2 w2, (k <= 6)%nat /\ steps user write_buffer_size (repeat (ERun front lf) k) d1 w1 = Ok tt d2 w2 /\ settles d2 w2 front).
Proof.
  intros Hrun Hn Eo Es Et. destruct (run_ok_inv _ _ _ _ _ Hrun) as (d0' & w0' & Eo' & Hwp). rewrite Eo in Eo'. injection Eo' as <- <-. unfold wp in Hwp. rewrite Es in Hwp.
  destruct Hwp as [(gs & q & _ & Hinv) Hl]. destruct Hrun as [(_ & Hseq & _) _ _ _ _ _ Hs _]. pose proof Hinv as [HQ Hf].
  assert (Hb : budget (last_sequence_ v + 1) cs) by (split; lia).
  assert (Hp : p ∈ c_id <$> cs) by (apply (q_threads _ _ _ _ HQ); by eexists).
  assert (Hqueue : p ∈ c_id <$> q -> p ∈ writers_ d1 /\ exists front rest, writers_ d1 = front :: rest /\ forall lf, lfile_ok lf ->
    exists k d2 w2, (k <= 6)%nat /\ steps user write_buffer_size (repeat (ERun front lf) k) d1 w1 = Ok tt d2 w2 /\ settles d2 w2 front).
  { intros Hpq. pose proof (q_writers _ _ _ _ HQ) as Hw. split; [by rewrite Hw|]. destruct q as [|c rest]; [by apply not_elem_of_nil in Hpq|]. exists (c_id c), (c_id <$> rest). split; [exact Hw|]. intros lf Hlf.
    eapply front_progress; try done. lia. }
  destruct (which_call _ _ _ _ _ _ _ _ Hinv Hp) as [(g & c & Hg & Hc & <- & Hfin)|[Hh|(c & Hc & <- & _)]].
  - assert (Hcase : (exists s, st = Returned s) \/ forall s, st <> Returned s) by (destruct st; try (right; done); left; by eexists). destruct Hcase as [?|Hne]; [by left|]. right. left.
    exists (outcome g). intros lf. destruct (finished_returns d1 w1 _ c lf Hfin) as [Hr|Hr]; [|exact Hr]. exfalso. apply (Hne (outcome g)). congruence.
  - right. right. apply Hqueue. destruct q as [|c rest]; [done|]. injection Hh as <-. by left.
  - right. right. apply Hqueue. destruct q as [|c0 rest]; [by apply not_elem_of_nil in Hc|]. right. by apply list_elem_of_fmap_2.
Qed.

End serial.

(** * Examples *)

#[local] Instance somewhere : Placement := fun _ => 1001.

(** A file of a disk on which no call fails. *)
Definition new_file : Status * posix_file := (OK, new_posix "000003.log" [] []).

(** A database whose last update has the number 6. *)
Definition old_version : VersionSet := mk_versions 2 6 0 0 0 false [].

(** Four threads: the second and the third are a group, the fourth asks for a sync. *)
Definition four_calls : list call :=
  [mk_call 1 (Some [UPut [1] [10]]) false; mk_call 2 (Some [UDelete [1]; UPut [2] [20]]) false; mk_call 3 (Some [UPut [3] [30]]) false; mk_call 4 (Some [UPut [1] [11]]) true].
Definition write_of (c : call) : event posix_file := EWrite (c_id c) (batch_rep 0 <$> c_updates c) (c_sync c) new_file.
Definition first_events : list (event posix_file) := (write_of <$> four_calls) ++ repeat (ERun 1 new_file) 3.
Definition more_events : list (event posix_file) := repeat (ERun 2 new_file) 4 ++ [ERun 4 new_file; ERun 4 new_file].

Definition after (es : list (event posix_file)) : option (DBImpl posix_file * world) :=
  match Open old_version new_file OK tt example_world with
  | Ok (inr d) _ w => match steps bytewise 10000 es d w with Ok _ d w => Some (d, w) | _ => None end
  | _ => None
  end.

Lemma new_file_ok : lfile_ok new_file.
Proof. intros _. reflexivity. Qed.

Lemma four_asked : asked (user := bytewise) (write_of <$> four_calls) four_calls.
Proof.
  assert (Hw : forall c, call_ok (user := bytewise) c -> calls_of (user := bytewise) (write_of c) [c]).
  { intros c Hc. exists c. do 3 (split; [reflexivity|]). split; [exact Hc|]. unfold write_of. destruct (c_updates c) as [us|]; [|exact I]. exists 0. split; [lia|reflexivity]. }
  assert (Ha : forall cs, Forall (call_ok (user := bytewise)) cs -> asked (user := bytewise) (write_of <$> cs) cs).
  { induction 1 as [|c cs Hc _ IH]; [constructor|]. change (c :: cs) with ([c] ++ cs) at 2. constructor; [by apply Hw|exact IH]. }
  apply Ha. repeat (constructor; [split; [split; repeat constructor; lia|reflexivity]|]). constructor.
Qed.

Lemma runs_asked es : Forall (fun e => match e with ERun _ _ | EWakeUp _ | ERecord _ | ENumber | EFlush _ _ _ | EChange _ _ | EError _ | EBackground => True | _ => False end) es -> asked (user := bytewise) (F := posix_file) es [].
Proof. induction 1 as [|e es He _ IH]; [constructor|]. change ([] : list call) with ([] ++ [] : list call). constructor; [by destruct e|exact IH]. Qed.

Lemma first_asked : asked (user := bytewise) first_events four_calls.
Proof. unfold first_events. rewrite <- (app_nil_r four_calls). apply asked_app; [exact four_asked|]. apply runs_asked. repeat constructor. Qed.

Lemma more_asked : asked (user := bytewise) more_events [].
Proof. apply runs_asked. repeat constructor. Qed.

Lemma example_heap : heap_ok example_world.
Proof. split; [vm_compute; discriminate|reflexivity]. Qed.

Lemma example_run es cs : asked (user := bytewise) es cs -> Forall file_of es -> (length es < 1000)%nat -> count_updates cs < 1000 ->
  run_of (user := bytewise) old_version new_file es cs example_world.
Proof.
  intros Hc Hf Hn Hs. split; [|exact example_heap|reflexivity|exact new_file_ok|exact Hc|exact Hf| |].
  - split; [reflexivity|]. split; [vm_compute; discriminate|]. split; [vm_compute; discriminate|]. intros H. by vm_compute in H.
  - change kMaxSequenceNumber with (2 ^ 56 - 1). cbn. lia.
  - cbn. lia.
Qed.

Lemma all_files : Forall file_of (first_events ++ more_events).
Proof. repeat (constructor; [exact new_file_ok|]). constructor. Qed.

Lemma after_open es d w : after es = Some (d, w) -> exists d0 w0, Open old_version new_file OK tt example_world = Ok (inr d0) tt w0 /\ steps bytewise 10000 es d0 w0 = Ok tt d w.
Proof.
  unfold after. destruct (Open _ _ _ _ _) as [[s|d0] [] w0| | |]; try discriminate. intros E. exists d0, w0. split; [reflexivity|]. destruct (steps _ _ _ _) as [[] d' w'| | |]; try discriminate. by injection E as -> ->.
Qed.

Lemma group_commit_serial_witness : exists d1 w1 d2 w2 gs1 gs2, after first_events = Some (d1, w1) /\ after (first_events ++ more_events) = Some (d2, w2) /\
  gs1 `prefix_of` gs2 /\ serial (user := bytewise) 7 four_calls gs1 d1 w1 /\ serial (user := bytewise) 7 four_calls gs2 d2 w2 /\
  writers_ d1 = [2; 3; 4] /\ writers_ d2 = [4] /\ last_sequence_ (versions_ d2) = 10.
Proof.
  destruct (group_commit_serial 10000 old_version new_file example_world first_events more_events four_calls []) as (d0 & w0 & Eo & Hs).
  { rewrite app_nil_r. apply example_run; [|exact all_files|vm_compute; lia|vm_compute; reflexivity]. rewrite <- (app_nil_r four_calls). apply asked_app; [exact first_asked|exact more_asked]. }
  { exact first_asked. } { exact more_asked. }
  destruct (after first_events) as [[d1 w1]|] eqn:E1; [|vm_compute in E1; discriminate]. destruct (after (first_events ++ more_events)) as [[d2 w2]|] eqn:E2; [|vm_compute in E2; discriminate].
  destruct (after_open _ _ _ E1) as (d0' & w0' & Eo1 & Es1). rewrite Eo in Eo1. injection Eo1 as <- <-. rewrite Es1 in Hs. destruct Hs as (gs1 & Hs1 & Hs2).
  destruct (after_open _ _ _ E2) as (d0' & w0' & Eo2 & Es2). rewrite Eo in Eo2. injection Eo2 as <- <-. rewrite steps_app in Es2. unfold bind in Es2. rewrite Es1 in Es2. rewrite Es2 in Hs2.
  destruct Hs2 as (gs2 & Hpre & Hs2). exists d1, w1, d2, w2, gs1, gs2. do 2 (split; [reflexivity|]). split; [exact Hpre|]. split; [exact Hs1|]. split; [exact Hs2|].
  assert (Ew1 : (fun x => writers_ x.1) <$> after first_events = Some [2; 3; 4]) by (vm_compute; reflexivity). rewrite E1 in Ew1. injection Ew1 as Ew1.
  assert (Ew2 : (fun x => (writers_ x.1, last_sequence_ (versions_ x.1))) <$> after (first_events ++ more_events) = Some ([4], 10)) by (vm_compute; reflexivity). rewrite E2 in Ew2. injection Ew2 as Ew2 Ew3.
  split; [exact Ew1|]. split; [exact Ew2|exact Ew3].
Defined.

Lemma writers_never_stuck_witness : exists d1 w1, after (first_events ++ more_events) = Some (d1, w1) /\
  ((exists s, Waiting = Returned s) \/
   (exists s, forall lf, exists d', run_thread bytewise 10000 3 lf d1 w1 = Ok tt d' w1 /\ threads d' !! 3 = Some (Returned s)) \/
   (3 ∈ writers_ d1 /\ exists front rest, writers_ d1 = front :: rest /\ forall lf, lfile_ok lf ->
     exists k d2 w2, (k <= 6)%nat /\ steps bytewise 10000 (repeat (ERun front lf) k) d1 w1 = Ok tt d2 w2 /\ settles (user := bytewise) 10000 d2 w2 front)).
Proof.
  destruct (after (first_events ++ more_events)) as [[d1 w1]|] eqn:E1; [|vm_compute in E1; discriminate]. exists d1, w1. split; [reflexivity|].
  destruct (after_open _ _ _ E1) as (d0 & w0 & Eo & Es).
  apply (writers_never_stuck 10000 old_version new_file example_world (first_events ++ more_events) four_calls d0 w0 d1 w1 3 Waiting).
  - apply example_run; [|exact all_files|vm_compute; lia|vm_compute; reflexivity]. rewrite <- (app_nil_r four_calls). apply asked_app; [exact first_asked|exact more_asked].
  - vm_compute. reflexivity.
  - exact Eo.
  - exact Es.
  - assert (Et : (fun x => threads x.1 !! 3) <$> after (first_events ++ more_events) = Some (Some Waiting)) by (vm_compute; reflexivity). rewrite E1 in Et. by injection Et.
Defined.

(** A call with no batch, which is to switch to a new table, comes in behind a write that waits:
    it is answered OK with that write's group, and no switch takes place. *)
Definition null_batch_events : list (event posix_file) :=
  (write_of <$> [mk_call 1 (Some [UPut [1] [10]]) false; mk_call 2 (Some [UPut [2] [20]]) false; mk_call 3 None false]) ++ repeat (ERun 1 new_file) 3 ++ repeat (ERun 2 new_file) 4 ++ [ERun 3 new_file].

Example null_batch_absorbed :
  (fun x => (threads x.1 !! 3, db_imm x.1, logfile_number_ x.1, tables (versions_ x.1))) <$> after null_batch_events = Some (Some (Returned OK), None, 2, []).
Proof. vm_compute. reflexivity. Qed.
