(* ===== verification/LdbGet.v ===== *)
(** Reading a LevelDB database while others write: [DBImpl::Get] of db/db_impl.cc, which looks at
    the tables in memory without the mutex, and what it finds there. *)
From stdpp Require Import base gmap list strings numbers option sorting.
From Stdlib Require Import ZArith Lia.
From S2P Require Import Prelude Cmem LdbCoding LdbCodingThms LdbEnv LdbLog LdbLogRead LdbLogThms LdbComparator LdbFormat LdbFormatThms LdbSkipList LdbSkipListThms LdbSkipListSpec LdbMemTable LdbMemTableThms LdbWriteBatch LdbWriteBatchThms LdbWrite LdbWriteInv LdbWriteThms LdbWriteSpec.

(** * Tables stay where they are *)

Section grows.
Context `{Placement} {F : Type} `{WritableFile F} `{!SyncFile F} (user : Comparator) (write_buffer_size : Z).

Notation DB := (DBImpl F).

(** Programs that leave the tables as they are, but may add one. *)
Definition grows {A} (m : SM DB A) : Prop := forall d w,
  match m d w with Ok _ d' w' => all_tables d `prefix_of` all_tables d' /\ brk w <= brk w' | _ => True end.

Lemma grows_bind {A B} (m : SM DB A) (k : A -> SM DB B) : grows m -> (forall a, grows (k a)) -> grows (bind m k).
Proof.
  intros Hm Hk d w. unfold bind. specialize (Hm d w). destruct (m d w) as [a d1 w1| | |]; [|done..]. specialize (Hk a d1 w1).
  destruct (k a d1 w1) as [b d2 w2| | |]; [|done..]. destruct Hm, Hk. split; [by etrans|lia].
Qed.

Lemma grows_ret {A} (a : A) : grows (ret a).
Proof. by intros d w. Qed.

Lemma grows_get : grows get.
Proof. by intros d w. Qed.

Lemma grows_must {A} (o : option A) : grows (must o).
Proof. intros d w. by destruct o. Qed.

Lemma grows_assert b : grows (assert_ b).
Proof. intros d w. by destruct b. Qed.

Lemma grows_guard b : grows (guard b).
Proof. intros d w. by destruct b. Qed.

Lemma grows_modify f : (forall d, all_tables (f d) = all_tables d) -> grows (modify f).
Proof. intros Hf d w. cbn. by rewrite Hf. Qed.

Lemma grows_log {A} (m : SM (Writer F) A) : extends m -> grows (in_log m).
Proof. intros Hm d w. unfold in_log. destruct (m _ _) as [a l w'| | |] eqn:E; [|done..]. split; [done|]. by eapply Hm. Qed.

#[local] Hint Resolve grows_bind grows_ret grows_get grows_must grows_assert grows_guard grows_modify : grows.
Ltac grow := repeat first [progress auto with grows | apply grows_bind; [|intros] | by apply grows_modify | by intros d w | case_match].

Lemma grows_load_writer p : grows (load_writer p).
Proof. unfold load_writer. grow. Qed.

Lemma grows_store_writer p o : grows (store_writer p o).
Proof. unfold store_writer. grow. Qed.

Lemma grows_stage p st : grows (set_stage p st).
Proof. unfold set_stage. grow. Qed.

#[local] Hint Resolve grows_load_writer grows_store_writer grows_stage : grows.

Lemma grows_load_batch u : grows (load_batch u).
Proof. unfold load_batch. grow. Qed.

Lemma grows_store_batch u b : grows (store_batch u b).
Proof. unfold store_batch. grow. Qed.

#[local] Hint Resolve grows_load_batch grows_store_batch : grows.

Lemma grows_group_loop first max iter : forall size u l, grows (group_loop first max size u l iter).
Proof. induction iter as [|x iter IH]; intros size u l; cbn [group_loop]; grow. Qed.

Lemma grows_build : grows BuildBatchGroup.
Proof. unfold BuildBatchGroup. pose proof grows_group_loop. grow. Qed.

Lemma grows_signal p : grows (signal p).
Proof. unfold signal. grow. Qed.

Lemma grows_return p s : grows (write_return p s).
Proof. unfold write_return. grow. Qed.

#[local] Hint Resolve grows_build grows_signal grows_return : grows.

Lemma grows_pop p l s queue : grows (pop_writers p l s queue).
Proof. induction queue as [|x queue IH]; cbn [pop_writers]; [by intros d w|]. grow. Qed.

#[local] Hint Resolve grows_pop : grows.

Lemma grows_finish p l s : grows (finish_write p l s).
Proof. unfold finish_write. grow. Qed.

#[local] Hint Resolve grows_finish : grows.

Lemma grows_after_room p s : grows (after_room p s).
Proof. unfold after_room. grow. Qed.

Lemma grows_number : grows NewFileNumber.
Proof. unfold NewFileNumber. grow. Qed.

Lemma grows_reuse n : grows (ReuseFileNumber n).
Proof. unfold ReuseFileNumber. intros d w. cbn [bind get]. by destruct (_ =? _). Qed.

Lemma grows_record s : grows (RecordBackgroundError s).
Proof. unfold RecordBackgroundError. grow. Qed.

Lemma grows_schedule : grows MaybeScheduleCompaction.
Proof. unfold MaybeScheduleCompaction. grow. Qed.

#[local] Hint Resolve grows_after_room grows_number grows_reuse grows_record grows_schedule : grows.

(** The switch puts the current table behind the others, and a new one in its place. *)
Lemma switch_tables lfile a (d : DB) w : db_imm d = None ->
  match switch_memtable lfile a d w with Ok _ d' w' => all_tables d `prefix_of` all_tables d' /\ brk w <= brk w' | _ => True end.
Proof.
  intros Hi. unfold switch_memtable, bind at 1, get at 1. unfold bind at 1. destruct (assert_ _ d w) as [[] d1 w1| | |] eqn:Ea; [|done..].
  assert (d1 = d /\ w1 = w) as [-> ->] by (unfold assert_ in Ea; destruct (_ =? _); [|done]; by injection Ea as -> ->).
  unfold NewFileNumber, bind at 1 2, get at 1, modify at 1. unfold bind at 1. cbn [ret]. destruct lfile as [s f]. destruct (negb (ok s)).
  - pose proof (grows_bind _ (fun _ => ret (RGo s)) (grows_reuse (next_file_number_ (versions_ d)))) as Hg. match goal with |- context [bind ?m ?k ?d0 ?w0] => specialize (Hg (fun _ => grows_ret _) d0 w0); destruct (bind m k d0 w0) end; done.
  - unfold bind at 1 2 3 4, modify at 1 2 3 4. unfold bind at 1, no_stream. destruct (new_MemTable tt w) as [m [] w'| | |] eqn:Em; [|done..]. pose proof (extends_new_memtable _ _ _ _ _ Em) as Hb.
    unfold bind at 1 2, modify at 1, in_memtable, Ref, modify. cbn [set_mem db_mem].
    match goal with |- context [bind MaybeScheduleCompaction ?k ?d0 ?w0] => pose proof (grows_bind _ k grows_schedule (fun _ => grows_ret _) d0 w0) as Hg; destruct (bind MaybeScheduleCompaction k d0 w0) as [r d' w''| | |]; [|done..] end.
    destruct Hg as [Hg Hb2]. split; [|lia]. etrans; [|exact Hg]. unfold all_tables. cbn. rewrite Hi. cbn. eexists. by rewrite <- app_assoc.
Qed.

Lemma grows_round lfile a f : grows (make_room_round write_buffer_size lfile a f).
Proof.
  intros d w. unfold make_room_round, bind, get. do 2 (destruct (_ : bool); [done|]). destruct (negb f && _); [done|].
  destruct (db_imm d) eqn:Hi; [done|]. destruct (kL0_StopWritesTrigger <=? _); [done|]. by apply switch_tables.
Qed.

Lemma grows_room fuel p lfile : forall a f, grows (room_loop write_buffer_size fuel p lfile a f).
Proof. pose proof grows_round. induction fuel as [|fuel IH]; intros a f; cbn [room_loop]; grow. Qed.

Lemma grows_check_turn p lfile : grows (check_turn write_buffer_size p lfile).
Proof. pose proof grows_room. unfold check_turn, MakeRoomForWrite. grow. Qed.

Lemma extends_dest_append l : extends (dest_Append (F := F) l).
Proof. intros x w a s' w'. unfold dest_Append, bind, get, modify. destruct (LdbEnv.Append l (dest x)). cbn. by intros [= <- <- <-]. Qed.

Lemma extends_dest_flush : extends (dest_Flush (F := F)).
Proof. intros x w a s' w'. unfold dest_Flush, bind, get, modify. destruct (Flush (dest x)). cbn. by intros [= <- <- <-]. Qed.

Lemma extends_record d : extends (AddRecord (F := F) d).
Proof.
  pose proof extends_dest_append. pose proof extends_dest_flush. unfold AddRecord. apply extends_loop. intros [begin l].
  unfold add_fragment, switch_block, EmitPhysicalRecord. extends_tac.
Qed.

(** Everything but the insertion of records. *)
Lemma grows_step e : (forall p lf, e = ERun p lf -> False) -> (forall p, e <> ERecord p) -> grows (step user write_buffer_size e).
Proof.
  intros Hrun Hrec. destruct e as [p us sy lf|p lf|p|p| |s n b|n b|s|]; cbn [step]; [|by destruct (Hrun p lf)|by destruct (Hrec p)| | | | | |].
  - pose proof grows_check_turn. unfold write_enter. grow.
  - unfold wake_up, stage_of. grow.
  - unfold background_number. grow.
  - intros d w. unfold compact_memtable, bind, get, guard. destruct (background_compaction_scheduled_ d); [|done]. cbn [ret]. destruct (db_imm d) as [m|] eqn:Hi; [|done].
    set (s1 := if ok s && shutting_down_ d then _ else _). cbv zeta. destruct (ok s1); [|apply grows_record]. unfold modify. split; [|done].
    unfold all_tables. cbn. rewrite Hi. cbn. by rewrite <- app_assoc.
  - unfold background_change. intros d w. unfold bind, get, guard. by destruct (background_compaction_scheduled_ d).
  - unfold background_error. grow.
  - unfold background_end. grow.
Qed.

(** A thread that is not inserting. *)
Lemma grows_run p lf d w : (forall u n l x, threads d !! p <> Some (Inserting u n l x)) ->
  match run_thread user write_buffer_size p lf d w with Ok _ d' w' => all_tables d `prefix_of` all_tables d' /\ brk w <= brk w' | _ => True end.
Proof.
  intros Hst. unfold run_thread, stage_of. unfold bind at 1 2, get at 1. destruct (threads d !! p) as [st|]; [|done]. cbn [ret].
  assert (Hg : forall m : SM DB unit, grows m -> match m d w with Ok _ d' w' => all_tables d `prefix_of` all_tables d' /\ brk w <= brk w' | _ => True end) by (intros m Hm; apply Hm).
  pose proof grows_check_turn. pose proof grows_room. destruct st as [|f|a f|u n l|u n l|u n l x|s e u n l|s]; [| | | | |by destruct (Hst u n l x)| |done]; apply Hg; unfold MakeRoomForWrite.
  - grow.
  - grow.
  - grow.
  - assert (forall b, grows (in_log (AddRecord b))) by (intros b; apply grows_log, extends_record). unfold leader_log. grow.
  - unfold leader_sync. apply grows_bind; [|grow]. apply grows_log. intros x w1 a s' w'. unfold bind, get, modify. destruct (Sync (dest x)). cbn. by intros [= <- <- <-].
  - unfold leader_finish. grow.
Qed.

End grows.

(** * What a reader finds *)

Section reads.
Context `{Placement} {F : Type} `{WritableLaws F} `{!SyncFile F} `{!SyncLaws F}.
Context {user : Comparator} {laws : ComparatorLaws} (write_buffer_size : Z).

Notation DB := (DBImpl F).

Definition good_key (key : list Z) : Prop := valid_key key /\ is_bytes key /\ size key + 8 < 2 ^ 32.

(** A table keeps its place, and gets only versions that no snapshot of the past sees. *)
Definition later (d : DB) (w : world) (d' : DB) (w' : world) : Prop :=
  forall i m, all_tables d !! i = Some m -> exists m' vs more, all_tables d' !! i = Some m' /\ ascending (vs ++ more) /\
    holds vs m w /\ holds (vs ++ more) m' w' /\ Forall (fun v => last_sequence_ (versions_ d) < v_seq v) more.

(** Looking at any table at a snapshot gives the same as before. *)
Definition reads_kept (d : DB) (w : world) (d' : DB) (w' : world) : Prop :=
  last_sequence_ (versions_ d) <= last_sequence_ (versions_ d') /\
  forall i key s lk r, good_key key -> 0 <= s <= last_sequence_ (versions_ d) -> s <= kMaxSequenceNumber -> new_LookupKey key s = Some lk ->
    get_from user i lk d w = Ok r d w -> get_from user i lk d' w' = Ok r d' w'.

Lemma reads_kept_refl (d : DB) w : reads_kept d w d w.
Proof. by split. Qed.

Lemma reads_kept_trans (d1 : DB) w1 (d2 : DB) w2 (d3 : DB) w3 : reads_kept d1 w1 d2 w2 -> reads_kept d2 w2 d3 w3 -> reads_kept d1 w1 d3 w3.
Proof. intros [H12 R12] [H23 R23]. split; [lia|]. intros i key s lk r Hk Hs Hmax El E. eapply R23; try done; [lia|]. by eapply R12. Qed.

(** The lookup of one table, at its place. *)
Lemma get_from_ok i m vs key s lk (d : DB) w : all_tables d !! i = Some m -> holds vs m w -> ascending vs -> good_key key -> 0 <= s <= kMaxSequenceNumber -> new_LookupKey key s = Some lk ->
  get_from user i lk d w = Ok (answer (last_write key s vs)) d w.
Proof. intros Hi Hm Ha (Hv & Hb & Hsz) Hs El. unfold get_from. rewrite Hi. by rewrite (get_in_table vs key s lk m w). Qed.

Lemma later_reads (d : DB) w (d' : DB) w' : later d w d' w' -> last_sequence_ (versions_ d) <= last_sequence_ (versions_ d') -> reads_kept d w d' w'.
Proof.
  intros Hl Hs. split; [done|]. intros i key s lk r Hk Hs1 Hmax El E. destruct (all_tables d !! i) as [m|] eqn:Hi; [|unfold get_from in E; by rewrite Hi in E].
  destruct (Hl i m Hi) as (m' & vs & more & Hi' & Ha & Hm & Hm' & Hmore). pose proof (StronglySorted_app_1_l _ _ _ Ha) as Ha1.
  rewrite (get_from_ok i m vs key s lk) in E by (done || lia). injection E as <-. rewrite (get_from_ok i m' (vs ++ more) key s lk) by (done || lia).
  rewrite last_write_app, last_write_later; [done|]. eapply Forall_impl; [exact Hmore|]. cbn. lia.
Qed.

Lemma ascending_part vss : forall vs, ascending (mjoin vss) -> vs ∈ vss -> ascending vs.
Proof.
  induction vss as [|vs1 vss IH]; intros vs Ha Hin; [by apply not_elem_of_nil in Hin|]. cbn in Ha. apply elem_of_cons in Hin as [->|Hin].
  - by apply StronglySorted_app_1_l in Ha.
  - apply IH; [|done]. by apply StronglySorted_app_1_r in Ha.
Qed.

(** What each table holds. *)
Lemma tables_hold seq files calls gs q (d : DB) w : db_inv seq files calls gs q d w -> forall i m, all_tables d !! i = Some m -> exists vs, holds vs m w /\ ascending vs.
Proof.
  intros [HQ Hf] i m Hi. destruct (front_data _ _ _ _ _ _ Hf) as (X & Y & [(g0 & g1 & g2 & -> & He) Hs _ _] & HX & _). cbn zeta in He. destruct He as ((vss & Ev & Hv) & Himm & Hmem & _).
  destruct (flight_range _ _ _ HX) as [Hr Ha]. rewrite !total_app in Hs. unfold all_tables in Hi. apply lookup_app_Some in Hi as [Hi|[_ Hi]].
  - destruct (Forall2_lookup_r _ _ _ _ _ Hv Hi) as (vs & Hvs & Hm). exists vs. split; [done|]. apply (ascending_part vss); [rewrite Ev; apply versions_in_ascending|by eapply list_elem_of_lookup_2].
  - apply lookup_app_Some in Hi as [Hi|[_ Hi]].
    + destruct (db_imm d) as [imm|]; [|done]. apply list_lookup_singleton_Some in Hi as [_ <-]. eexists. split; [apply Himm|apply versions_in_ascending].
    + apply list_lookup_singleton_Some in Hi as [_ <-]. eexists. split; [exact Hmem|]. rewrite versions_in_app. apply (ascending_app _ _ (last_sequence_ (versions_ d) + 1)); [apply versions_in_ascending|done| |].
      * eapply Forall_impl; [apply versions_in_range|]. cbn. lia.
      * eapply Forall_impl; [exact Hr|]. cbn. lia.
Qed.

Lemma inv_heap seq files calls gs q (d : DB) w : db_inv seq files calls gs q d w -> heap_ok w.
Proof.
  intros Hinv. destruct (tables_hold _ _ _ _ _ _ _ Hinv (length (tables (versions_ d) ++ option_list (db_imm d))) (db_mem d)) as (vs & Hm & _); [|by eapply holds_heap].
  unfold all_tables. rewrite app_assoc, lookup_app_r, Nat.sub_diag by lia. done.
Qed.

Lemma inv_last seq files calls gs q (d : DB) w : db_inv seq files calls gs q d w -> last_sequence_ (versions_ d) = seq - 1 + total gs.
Proof. intros Hinv. by apply (s_sequence _ _ _ _ _ (inv_serial _ _ _ _ _ _ _ Hinv)). Qed.

Lemma grows_later seq files calls gs q (d d' : DB) w w' : db_inv seq files calls gs q d w -> heap_ok w' -> all_tables d `prefix_of` all_tables d' /\ brk w <= brk w' -> later d w d' w'.
Proof.
  intros Hinv Hh [Hpre Hb] i m Hi. destruct (tables_hold _ _ _ _ _ _ _ Hinv i m Hi) as (vs & Hm & Ha). exists m, vs, []. rewrite app_nil_r.
  split; [by eapply prefix_lookup_Some|]. split; [done|]. split; [done|]. split; [by apply (holds_grow _ _ w)|constructor].
Qed.

Lemma mem_later seq files calls gs q (d d' : DB) w w' : db_inv seq files calls gs q d w -> heap_ok w' -> mem_grows d w d' w' -> later d w d' w'.
Proof.
  intros Hinv Hh (vs & more & Hmore & Ha & Hm & Hm' & Ei & Ev & Hb) i m Hi. destruct (tables_hold _ _ _ _ _ _ _ Hinv i m Hi) as (vs1 & Hm1 & Ha1).
  unfold all_tables in *. rewrite Ei, Ev, (app_assoc _ (option_list _)) in *. apply lookup_app_Some in Hi as [Hi|[Hle Hi]].
  - exists m, vs1, []. rewrite app_nil_r. split; [by apply lookup_app_l_Some|]. split; [done|]. split; [done|]. split; [by apply (holds_grow _ _ w)|constructor].
  - apply list_lookup_singleton_Some in Hi as [Hi <-]. exists (db_mem d'), vs, more. split; [|done]. apply lookup_app_Some. right. split; [done|]. by apply list_lookup_singleton_Some.
Qed.

(** ** One event, and many *)

Lemma run_later seq files calls gs q p lf (d d' : DB) w w' : db_inv seq files calls gs q d w -> heap_ok w' -> budget seq calls ->
  run_thread user write_buffer_size p lf d w = Ok tt d' w' -> later d w d' w'.
Proof.
  intros Hinv Hh Hb E. assert (Hcase : (exists u n l x, threads d !! p = Some (Inserting u n l x)) \/ forall u n l x, threads d !! p <> Some (Inserting u n l x)).
  { destruct (threads d !! p) as [[]|]; try (by right); left; by eexists _, _, _, _. }
  destruct Hcase as [(u & n & l & x & Et)|Hn].
  - unfold run_thread, stage_of in E. cbn [bind get] in E. rewrite Et in E. cbn [ret bind] in E.
    destruct (front_at seq files calls gs q p _ d w Hinv Et) as (c & rest & -> & Ec & Hfr & Etc & Hhd); [done..|]. cbn [front_ok] in Hfr. rewrite Etc in Hfr. destruct Hfr as (ms & us & Hfl & Hus & Hd).
    destruct (leader_insert_ok seq files calls gs (c :: rest) p u n l ms us x d w (proj1 Hinv) Hb Hhd Hfl Hus Hd) as (d2 & w2 & E2 & _ & Hg). rewrite E in E2. injection E2 as <- <-. by eapply mem_later.
  - pose proof (grows_run user write_buffer_size p lf d w Hn) as Hg. rewrite E in Hg. by eapply grows_later.
Qed.

Lemma step_reads seq files calls gs q e cs (d : DB) w : db_inv seq files calls gs q d w -> calls_of e cs -> file_of e -> budget seq (calls ++ cs) -> files + 1 < 2 ^ 64 ->
  wp (step user write_buffer_size e) (fun _ d' w' => done_inv seq (files + 1) (calls ++ cs) gs d' w' /\ reads_kept d w d' w') d w.
Proof.
  intros Hinv Hcs Hlf Hb Hfl. pose proof (step_ok write_buffer_size seq files calls gs q e cs d w Hinv Hcs Hlf Hb Hfl) as Hok. unfold wp in *.
  destruct (step user write_buffer_size e d w) as [[] d' w'| | |] eqn:E; [|done..]. split; [done|]. destruct Hok as (gs' & q' & [gs2 ->] & Hinv'). pose proof (inv_heap _ _ _ _ _ _ _ Hinv') as Hh.
  pose proof (total_nonneg gs2). apply later_reads; [|rewrite (inv_last _ _ _ _ _ _ _ Hinv), (inv_last _ _ _ _ _ _ _ Hinv'), total_app; lia].
  destruct e as [p us sy lf|p lf|p|p| |s n b|n b|s|].
  2: { cbn [calls_of] in Hcs. subst cs. rewrite app_nil_r in Hb. by eapply run_later. }
  2: { cbn [calls_of] in Hcs. subst cs. rewrite app_nil_r in Hb. pose proof (run_record_ok seq files calls gs q p d w Hinv Hb) as Hr. unfold wp in Hr. cbn [step] in E. rewrite E in Hr. destruct Hr as [_ Hg]. by eapply mem_later. }
  all: match type of E with step _ _ ?e _ _ = _ => pose proof (grows_step user write_buffer_size e ltac:(done) ltac:(done) d w) as Hg end; rewrite E in Hg; by eapply grows_later.
Qed.

Lemma steps_reads seq es : forall files calls gs cs (d : DB) w, done_inv seq files calls gs d w -> asked es cs -> Forall file_of es -> budget seq (calls ++ cs) -> files + Z.of_nat (length es) < 2 ^ 64 ->
  wp (steps user write_buffer_size es) (fun _ d' w' => done_inv seq (files + Z.of_nat (length es)) (calls ++ cs) gs d' w' /\ reads_kept d w d' w') d w.
Proof.
  induction es as [|e es IH]; intros files calls gs cs d w Hinv Hcs Hlf Hb Hfl; inversion Hcs; subst.
  - rewrite app_nil_r, Z.add_0_r. eapply wp_eval; [reflexivity|]. split; [done|apply reads_kept_refl].
  - apply Forall_cons_1 in Hlf as [Hlf1 Hlf2]. cbn [length] in *. cbn [steps]. apply wp_seq. rewrite app_assoc in *. assert (Hb1 : budget seq (calls ++ cs0)).
    { destruct Hb as [Hb1 Hb2]. split; [done|]. rewrite count_updates_app in Hb2. pose proof (count_nonneg cs'). lia. }
    destruct Hinv as (gs1 & q & Hpre & Hinv). eapply wp_weaken; [eapply (step_reads seq files calls gs1 q e cs0); try done; lia|]. cbn. intros _ d' w' [Hd Hr].
    eapply wp_weaken; [apply (IH (files + 1) (calls ++ cs0) gs1 cs'); try done; lia|]. cbn. intros _ d2 w2 [Hd2 Hr2]. split; [eapply done_mono; [exact Hd2|done|lia]|by eapply reads_kept_trans].
Qed.

(** ** Get *)

(** What [Get] refers to, and what it would find at once. *)
Lemma get_begin_ok seq cs gs (d : DB) w key snapshot : serial seq cs gs d w -> good_key key ->
  let s := default (last_sequence_ (versions_ d)) snapshot in 0 <= s <= last_sequence_ (versions_ d) -> s <= kMaxSequenceNumber ->
  exists flushed older current, gs = flushed ++ older ++ current /\
    (exists vss, mjoin vss = committed seq flushed /\ Forall2 (fun vs m => holds vs m w) vss (tables (versions_ d))) /\
    exists lk g, new_LookupKey key s = Some lk /\ get_begin snapshot key d w = Ok g d w /\ get_key g = lk /\
      get_from user (get_mem g) lk d w = Ok (answer (last_write key s (committed (seq + total flushed + total older) current))) d w /\
      match get_imm g with
      | Some i => get_from user i lk d w = Ok (answer (last_write key s (committed (seq + total flushed) older))) d w
      | None => older = []
      end.
Proof.
  intros [(q & _ & _ & _ & X & g0 & g1 & g2 & HX & -> & Htab & Himm & Hmem) _ _ Hseq] Hk s Hs Hmax. exists g0, g1, g2. split; [done|]. split; [done|].
  destruct (lookup_key_ok key s) as (lk & Elk & _); [lia|]. rewrite !total_app in Hseq. destruct (flight_range _ _ _ HX) as [Hr Ha].
  assert (Hgm : forall i, all_tables d !! i = Some (db_mem d) -> get_from user i lk d w = Ok (answer (last_write key s (committed (seq + total g0 + total g1) g2))) d w).
  { intros i Hi. rewrite (get_from_ok i (db_mem d) _ key s lk d w Hi Hmem); [|apply (ascending_app _ _ (last_sequence_ (versions_ d) + 1)); [apply committed_ascending|done| |]|done|lia|done].
    - rewrite last_write_app, (last_write_later _ _ (versions_in X)); [done|]. eapply Forall_impl; [exact Hr|]. cbn. lia.
    - eapply Forall_impl; [apply versions_in_range|]. cbn. lia.
    - eapply Forall_impl; [exact Hr|]. cbn. lia. }
  exists lk. unfold get_begin, bind, get. change (match snapshot with Some s => s | None => last_sequence_ (versions_ d) end) with s. rewrite Elk. cbn [must ret].
  destruct (db_imm d) as [imm|] eqn:Ei; (eexists; split; [done|]; split; [reflexivity|]; split; [done|]); cbn [get_mem get_imm]; unfold all_tables in Hgm; rewrite Ei in Hgm; cbn [option_list app] in Hgm.
  - split; [apply Hgm; by rewrite lookup_app_r, Nat.sub_succ_l, Nat.sub_diag by lia|].
    apply (get_from_ok _ imm); [unfold all_tables; rewrite Ei; by rewrite lookup_app_r, Nat.sub_diag by lia|exact Himm|apply committed_ascending|done|lia|done].
  - split; [apply Hgm; by rewrite lookup_app_r, Nat.sub_diag by lia|done].
Qed.

(** C9: what a reader sees while others write.  In any state that a run reaches, also with a part
    of a group in the table, Get takes a snapshot - the last sequence number, or one that was
    taken before - and references to the two tables in memory, and releases the mutex.
    Whatever happens before it looks at the first table and between its looks at the two -
    records are inserted, groups end, the tables are switched, the older one is written out -
    it finds the newest update of its key up to the snapshot among the groups that were through
    when it began and were still in memory then - "deleted" if it is a deletion - and asks
    the files, which hold the groups before those, only if there is none.  It never sees an
    update of a later group, nor a part of a group.  ([Err]: the events that were asked for
    cannot happen in this order.) *)
Theorem db_snapshot_reads v lfile w es es1 es2 cs cs1 cs2 d0 w0 d1 w1 : run_of v lfile (es ++ es1 ++ es2) (cs ++ cs1 ++ cs2) w -> asked es cs -> asked es1 cs1 -> asked es2 cs2 ->
  Open v lfile OK tt w = Ok (inr d0) tt w0 -> steps user write_buffer_size es d0 w0 = Ok tt d1 w1 ->
  exists gs, serial (last_sequence_ v + 1) cs gs d1 w1 /\
    forall key snapshot, let s := default (last_sequence_ (versions_ d1)) snapshot in good_key key -> 0 <= s <= last_sequence_ (versions_ d1) ->
      exists flushed kept, gs = flushed ++ kept /\
        (exists vss, mjoin vss = committed (last_sequence_ v + 1) flushed /\ Forall2 (fun vs m => holds vs m w1) vss (tables (versions_ d1))) /\
        match db_Get user write_buffer_size snapshot key es1 es2 d1 w1 with
        | Ok r _ _ => r = answer (last_write key s (committed (last_sequence_ v + 1 + total flushed) kept))
        | Err _ _ => True
        | UB | NoFuel => False
        end.
Proof.
  intros Hrun Hc Hc1 Hc2 Eo Es. destruct (db_open_ok _ _ _ _ _ Hrun) as (d0' & w0' & Eo' & Hinv & _). rewrite Eo in Eo'. injection Eo' as <- <-. destruct Hrun as [(_ & Hseq & _) _ _ _ _ Hlf Hb Hn].
  set (seq := last_sequence_ v + 1) in *. set (files := next_file_number_ v + 1) in *. apply Forall_app in Hlf as [Hlf Hlf12]. apply Forall_app in Hlf12 as [Hlf1 Hlf2].
  rewrite !length_app in Hn. rewrite !count_updates_app in Hb. pose proof (count_nonneg cs). pose proof (count_nonneg cs1). pose proof (count_nonneg cs2).
  pose proof (steps_ok write_buffer_size seq es files [] [] cs d0 w0 ltac:(by exists [], []) Hc Hlf ltac:(split; cbn; lia) ltac:(lia)) as H1'. unfold wp in H1'. rewrite Es in H1'. destruct H1' as (gs & q & _ & Hinv1).
  pose proof (inv_serial _ _ _ _ _ _ _ Hinv1) as Hser. exists gs. split; [exact Hser|]. intros key snapshot s Hk Hs.
  assert (Hmax : s <= kMaxSequenceNumber).
  { pose proof (inv_last _ _ _ _ _ _ _ Hinv1) as Hl. pose proof (total_calls gs) as Ht. pose proof (q_calls _ _ _ _ (proj1 Hinv1)) as Hq. cbn in Hq. apply (f_equal count_updates) in Hq. rewrite count_updates_app in Hq. pose proof (count_nonneg q). lia. }
  destruct (get_begin_ok seq cs gs d1 w1 key snapshot Hser Hk Hs Hmax) as (flushed & older & current & -> & Htab & lk & g & Elk & Eg & Ekey & Hmem & Himm).
  exists flushed, (older ++ current). split; [done|]. split; [done|]. rewrite committed_app, last_write_app. fold s in Hmem, Himm, Elk.
  unfold db_Get. unfold bind at 1. rewrite Eg, Ekey. cbn [app] in Hinv1.
  pose proof (steps_reads seq es1 (files + Z.of_nat (length es)) cs (flushed ++ older ++ current) cs1 d1 w1 ltac:(by exists (flushed ++ older ++ current), q) Hc1 Hlf1 ltac:(split; [lia|]; rewrite count_updates_app; lia) ltac:(lia)) as Hr1. unfold wp in Hr1. unfold bind at 1.
  destruct (steps user write_buffer_size es1 d1 w1) as [[] d2 w2| | |]; [|done..]. destruct Hr1 as [Hinv2 Hkept1]. unfold bind at 1.
  rewrite (proj2 Hkept1 _ key s lk _ Hk Hs Hmax Elk Hmem). destruct (last_write key s (committed (seq + total flushed + total older) current)) as [x|] eqn:E2.
  { destruct (answer (Some x)) as [r|] eqn:Er; [|by apply answer_none in Er]. destruct (get_imm g); done. }
  cbn [answer]. destruct (get_imm g) as [i|]; [|by subst older].
  pose proof (steps_reads seq es2 (files + Z.of_nat (length es) + Z.of_nat (length es1)) (cs ++ cs1) (flushed ++ older ++ current) cs2 d2 w2 Hinv2 Hc2 Hlf2 ltac:(split; [lia|]; rewrite !count_updates_app; lia) ltac:(lia)) as Hr2. unfold wp in Hr2. unfold bind at 1.
  destruct (steps user write_buffer_size es2 d2 w2) as [[] d3 w3| | |]; [|done..]. destruct Hr2 as [_ Hkept2].
  by rewrite (proj2 (reads_kept_trans _ _ _ _ _ _ Hkept1 Hkept2) _ key s lk _ Hk Hs Hmax Elk Himm).
Qed.

End reads.

(** * An example *)

#[local] Instance somewhere : Placement := fun _ => 1001.

(** The second thread has inserted the first of its records, which deletes the key, when the
    reader begins; it goes on and returns before the reader looks. *)
Definition half_events : list (event posix_file) := first_events ++ [ERun 2 new_file; ERun 2 new_file; ERecord 2].
Definition rest_events : list (event posix_file) := [ERecord 2; ERun 2 new_file; ERun 2 new_file].

Definition found_after (es es1 : list (event posix_file)) : option (option (list Z + Status)) :=
  match after es with
  | Some (d, w) => match db_Get bytewise 10000 None [1] es1 [] d w with Ok r _ _ => Some r | _ => None end
  | None => None
  end.

Lemma db_snapshot_reads_witness : exists d1 w1 gs, after half_events = Some (d1, w1) /\ serial (user := bytewise) 7 four_calls gs d1 w1 /\
  (exists flushed kept, gs = flushed ++ kept /\
    match db_Get bytewise 10000 None [1] rest_events [] d1 w1 with
    | Ok r _ _ => r = answer (last_write (user := bytewise) [1] (last_sequence_ (versions_ d1)) (committed (7 + total flushed) kept))
    | Err _ _ => True
    | UB | NoFuel => False
    end) /\
  found_after half_events rest_events = Some (Some (inl [10])) /\ found_after (half_events ++ rest_events) [] = Some (Some (inr (NotFound ""))).
Proof.
  destruct (after half_events) as [[d1 w1]|] eqn:E1; [|vm_compute in E1; discriminate]. destruct (after_open _ _ _ E1) as (d0 & w0 & Eo & Es).
  destruct (db_snapshot_reads 10000 old_version new_file example_world half_events rest_events [] four_calls [] [] d0 w0 d1 w1) as (gs & Hs & Hget).
  - rewrite !app_nil_r. apply example_run; [|repeat (constructor; [exact new_file_ok || exact I|]); constructor|vm_compute; lia|vm_compute; reflexivity].
    rewrite <- (app_nil_r four_calls). apply asked_app; [|by apply runs_asked; repeat constructor]. unfold half_events. rewrite <- (app_nil_r four_calls). apply asked_app; [exact first_asked|]. apply runs_asked. repeat constructor.
  - unfold half_events. rewrite <- (app_nil_r four_calls). apply asked_app; [exact first_asked|]. apply runs_asked. repeat constructor.
  - apply runs_asked. repeat constructor.
  - constructor.
  - exact Eo.
  - exact Es.
  - exists d1, w1, gs. split; [reflexivity|]. split; [exact Hs|]. assert (Eq : (fun x => last_sequence_ (versions_ x.1)) <$> after half_events = Some 7) by (vm_compute; reflexivity). rewrite E1 in Eq. injection Eq as Eq. split.
    + assert (Hb : is_bytes [1]) by (repeat constructor; lia). pose proof (Hget [1] None) as Hr. cbn zeta in Hr. cbn [default from_option id] in Hr.
      destruct Hr as (flushed & kept & Eg & _ & Hr); [split; [exact Hb|split; [exact Hb|by vm_compute]]|rewrite Eq; lia|]. exists flushed, kept. split; [exact Eg|exact Hr].
    + split; vm_compute; reflexivity.
Defined.
