(* ===== verification/LdbRecover.v ===== *)
(** Opening a LevelDB database after a crash: [DBImpl::RecoverLogFile] of db/db_impl.cc, and
    the part of [DBImpl::Recover] that goes through the logs.

    What [BuildTable] makes of a table in memory is a parameter; the tables that became
    files are kept, oldest first.  The file that [NewAppendableFile] opens, if the options
    ask for it, comes with the number of the log. *)
From stdpp Require Import base gmap list strings numbers option sorting.
From Stdlib Require Import ZArith Lia.
From S2P Require Import Prelude Cmem LdbCoding LdbEnv LdbLog LdbComparator LdbFormat LdbSkipList LdbMemTable LdbWriteBatch LdbWrite.

(** [options_] *)
Record RecoveryOptions := mk_options {
  paranoid_checks : bool;
  reuse_logs : bool;
  opt_write_buffer_size : Z;
}.

Section recover.
Context `{Placement} {F G : Type} `{WritableFile F} `{SequentialFile G} (user_comparator : Comparator) (options_ : RecoveryOptions) (BuildTable : MemTable -> Status).

(** What [Recover] keeps from log to log: the version that the manifest describes, the
    tables of the edit, and the fields of the database that are set when the last log is
    used again. *)
Record Recovery := mk_recovery {
  rec_versions : VersionSet;
  save_manifest : bool;
  max_sequence : Z;
  reused : option (Writer F * Z * MemTable);
}.

(** The local variables of [RecoverLogFile]. *)
Record LogRecovery := mk_log_recovery {
  reader : Reader G;
  rec_mem : option MemTable;
  rec_status : Status;
  compactions : Z;
  recovery : Recovery;
}.

Definition set_reader r s := mk_log_recovery r (rec_mem s) (rec_status s) (compactions s) (recovery s).
Definition set_rec_mem m s := mk_log_recovery (reader s) m (rec_status s) (compactions s) (recovery s).
Definition set_rec_status e s := mk_log_recovery (reader s) (rec_mem s) e (compactions s) (recovery s).
Definition set_compactions n s := mk_log_recovery (reader s) (rec_mem s) (rec_status s) n (recovery s).
Definition set_recovery r s := mk_log_recovery (reader s) (rec_mem s) (rec_status s) (compactions s) r.

Definition set_rec_versions v r := mk_recovery v (save_manifest r) (max_sequence r) (reused r).
Definition set_save_manifest r := mk_recovery (rec_versions r) true (max_sequence r) (reused r).
Definition set_max_sequence n r := mk_recovery (rec_versions r) (save_manifest r) n (reused r).
Definition set_reused x r := mk_recovery (rec_versions r) (save_manifest r) (max_sequence r) (Some x).

Definition MaybeIgnoreError (s : Status) : Status := if ok s || paranoid_checks options_ then s else OK.

(** [LogReporter::Corruption]: [status] is set only if the checks are paranoid. *)
Definition report_corruption (e : Status) : SM LogRecovery unit :=
  let* s := get in
  if paranoid_checks options_ && ok (rec_status s) then modify (set_rec_status e) else ret tt.

Definition in_reader {A} (m : SM (Reader G) A) : SM LogRecovery A := fun s w =>
  match m (reader s) w with
  | Ok a r w => Ok a (set_reader r s) w
  | Err r w => Err (set_reader r s) w
  | UB => UB
  | NoFuel => NoFuel
  end.

Definition on_table {A} (m : SM MemTable A) (mem : MemTable) : SM LogRecovery (A * MemTable) := fun s w =>
  match m mem w with
  | Ok a mem w => Ok (a, mem) s w
  | Err _ w => Err s w
  | UB => UB
  | NoFuel => NoFuel
  end.

(** The calls that the reader made of the reporter since it had made [n]. *)
Definition report_drops (n : nat) : SM LogRecovery unit :=
  let* s := get in
  match drop n (drops (reader s)) with (_, e) :: _ => report_corruption e | [] => ret tt end.

(** [reader.ReadRecord(&record, &scratch) && status.ok()] *)
Definition next_record (fuel : nat) : SM LogRecovery (option (list Z)) :=
  let* s := get in
  let* record := in_reader (ReadRecord fuel) in
  report_drops (length (drops (reader s)));;
  let* s := get in
  ret (if ok (rec_status s) then record else None).

(** A table in memory without entries leaves no file; in [tables] it counts for nothing. *)
Definition WriteLevel0Table (mem : MemTable) : SM LogRecovery Status :=
  let s := BuildTable mem in
  modify (fun x =>
    let v := rec_versions (recovery x) in
    let v := set_next_file_number (u64 (next_file_number_ v + 1)) v in
    set_recovery (set_rec_versions (if ok s then set_tables (tables v ++ [mem]) v else v) (recovery x)) x);;
  ret s.

(** [new MemTable(internal_comparator_)] and [Ref] *)
Definition new_table : SM LogRecovery MemTable :=
  let* m := no_stream new_MemTable in
  let* (_, m) := on_table Ref m in
  ret m.

(** One round of the loop of [RecoverLogFile]. *)
Definition recover_step (fuel : nat) (_ : unit) : SM LogRecovery (unit + unit) :=
  let* record := next_record fuel in
  match record with
  | None => ret (inr tt)
  | Some record =>
      if size record <? 12 then report_corruption (Corruption "log record too small");; ret (inl tt)
      else
        let* batch := must (SetContents record) in
        let* s := get in
        let* mem := match rec_mem s with Some m => ret m | None => new_table end in
        let* (status, mem) := on_table (InsertInto user_comparator batch) mem in
        modify (set_rec_mem (Some mem));;
        modify (set_rec_status (MaybeIgnoreError status));;
        if negb (ok (MaybeIgnoreError status)) then ret (inr tt)
        else
          let* n := must (Sequence batch) in
          let* c := must (Count batch) in
          let last_seq := u64 (n + c - 1) in
          modify (fun s => if max_sequence (recovery s) <? last_seq then set_recovery (set_max_sequence last_seq (recovery s)) s else s);;
          if opt_write_buffer_size options_ <? ApproximateMemoryUsage mem then
            modify (fun s => set_recovery (set_save_manifest (recovery s)) (set_compactions (compactions s + 1) s));;
            let* status := WriteLevel0Table mem in
            modify (set_rec_status status);;
            let* _ := on_table Unref mem in
            modify (set_rec_mem None);;
            ret (if ok status then inl tt else inr tt)
          else ret (inl tt)
  end.

(** The end of [RecoverLogFile]; [reopened] is what [GetFileSize] and [NewAppendableFile]
    return, if both succeed. *)
Definition finish_log (log_number : Z) (last_log : bool) (reopened : option (Z * F)) : SM LogRecovery Status :=
  let* s := get in
  (if ok (rec_status s) && reuse_logs options_ && last_log && (compactions s =? 0) then
     assert_ (match reused (recovery s) with None => true | Some _ => false end);;
     match reopened with
     | Some (lfile_size, f) =>
         let* mem := match rec_mem s with Some m => ret m | None => new_table end in
         modify (fun s => set_rec_mem None (set_recovery (set_reused (reopen_Writer f lfile_size, log_number, mem) (recovery s)) s))
     | None => ret tt
     end
   else ret tt);;
  let* s := get in
  (match rec_mem s with
   | Some mem =>
       (if ok (rec_status s) then
          modify (fun s => set_recovery (set_save_manifest (recovery s)) s);;
          let* status := WriteLevel0Table mem in
          modify (set_rec_status status)
        else ret tt);;
       let* _ := on_table Unref mem in
       modify (set_rec_mem None)
   | None => ret tt
   end);;
  let* s := get in
  ret (rec_status s).

(** [file] is what [NewSequentialFile] returns. *)
Definition RecoverLogFile (fuel : nat) (log_number : Z) (last_log : bool) (file : Status * G) (reopened : option (Z * F)) : SM Recovery Status := fun r w =>
  let (status, file) := file in
  if negb (ok status) then Ok (MaybeIgnoreError status) r w
  else
    let s := mk_log_recovery (new_Reader file true true 0) None status 0 r in
    match (loop fuel (recover_step fuel) tt;; finish_log log_number last_log reopened) s w with
    | Ok e s w => Ok e (recovery s) w
    | Err s w => Err (recovery s) w
    | UB => UB
    | NoFuel => NoFuel
    end.

Definition MarkFileNumberUsed (number : Z) (v : VersionSet) : VersionSet :=
  if next_file_number_ v <=? number then set_next_file_number (u64 (number + 1)) v else v.

(** A file of the directory, as far as [Recover] looks at it: the number of a log and what
    opening it returns. *)
Record LogFile := mk_log_file {
  lf_number : Z;
  lf_file : Status * G;
  lf_reopened : option (Z * F);
}.

Definition earlier (a b : LogFile) : Prop := lf_number a <= lf_number b.

#[global] Instance earlier_decision : RelDecision earlier := fun a b => decide (lf_number a <= lf_number b).

(** The loop over the logs, in the order of their numbers. *)
Fixpoint recover_logs (fuel : nat) (logs : list LogFile) : SM Recovery Status :=
  match logs with
  | [] => ret OK
  | l :: logs =>
      let* s := RecoverLogFile fuel (lf_number l) (match logs with [] => true | _ => false end) (lf_file l) (lf_reopened l) in
      if negb (ok s) then ret s
      else
        modify (fun r => set_rec_versions (MarkFileNumberUsed (lf_number l) (rec_versions r)) r);;
        recover_logs fuel logs
  end.

(** [Recover] once the manifest is read and all tables it names are there: [v] is the
    version that it describes. *)
Definition Recover (fuel : nat) (v : VersionSet) (dir : list LogFile) : SM unit (Status * Recovery) :=
  let min_log := log_number_ v in
  let prev_log := prev_log_number_ v in
  let logs := filter (fun l => min_log <= lf_number l \/ lf_number l = prev_log) dir in
  let logs := merge_sort earlier logs in
  fun u w =>
    match recover_logs fuel logs (mk_recovery v false 0 None) w with
    | Ok s r w =>
        if negb (ok s) then Ok (s, r) u w
        else Ok (OK, if last_sequence_ (rec_versions r) <? max_sequence r then set_rec_versions (set_last_sequence (max_sequence r) (rec_versions r)) r else r) u w
    | Err _ w => Err u w
    | UB => UB
    | NoFuel => NoFuel
    end.

End recover.
Arguments Recovery F : clear implicits.
Arguments LogRecovery F G : clear implicits.
Arguments LogFile F G : clear implicits.
