(* ===== verification/LdbRecoverThms.v ===== *)
(** Recovery after a crash: what the logs of a LevelDB database give back. *)
From stdpp Require Import base gmap list strings numbers option sorting.
From Stdlib Require Import ZArith Lia.
From S2P Require Import Prelude Cmem LdbCoding LdbCodingThms LdbEnv LdbLog LdbLogRead LdbLogThms LdbComparator LdbFormat LdbFormatThms.
From S2P Require Import LdbSkipList LdbSkipListThms LdbSkipListSpec LdbMemTable LdbMemTableThms LdbWriteBatch LdbWriteBatchThms LdbWrite LdbWriteInv LdbWriteThms LdbWriteSpec LdbRecover.

(** The versions that the attempts in a log stand for, however they ended. *)
Definition all_versions (A : list attempt) : list version := mjoin ((fun a => versions_of (a_seq a) (a_updates a)) <$> A).

(** The number of the last update. *)
Definition last_number (n : Z) (A : list attempt) : Z := foldl (fun n a => Z.max n (a_seq a + Z.of_nat (length (a_updates a)) - 1)) n A.

Lemma all_versions_app A A' : all_versions (A ++ A') = all_versions A ++ all_versions A'.
Proof. unfold all_versions. by rewrite fmap_app, join_app. Qed.

(** ** The length of a log *)

Lemma cut_short n : forall b begin d, (length d + (if (B - start b - 7 =? 0)%Z then 1%nat else 0%nat) < n)%nat -> 0 <= b <= B ->
  (length (layout b (cut n b begin d)) <= 14 * length d + 13 + (if (B - start b - 7 =? 0)%Z then 13 else 0))%nat.
Proof.
  induction n as [|n IH]; intros b begin d Hn Hb; [lia|]. destruct (cut_range (S n) b d Hb Hn) as (Hs & Ha & Hmore). cbn [cut]. pose proof (size_trailer b Hb) as Ht. unfold size in Ht at 1.
  set (avail := B - start b - 7) in *. pose proof (size_physical (fragment_type begin true) d) as Hp1. pose proof (size_physical (fragment_type begin false) (take (Z.to_nat avail) d)) as Hp2.
  assert (Htr : (length (trailer b) <= 6)%nat) by (destruct (Z.ltb_spec (B - b) 7); lia).
  destruct (Z.leb_spec (size d) avail) as [Hle|Hgt]; cbn [layout]; rewrite !length_app; cbn [length].
  - unfold size, avail in *. lia.
  - destruct (Hmore Hgt) as (Hn2 & HB & Hfr). rewrite Hfr in *. replace (start b + 7 + avail) with B by lia.
    pose proof (IH B false (drop (Z.to_nat avail) d) Hn2 ltac:(unfold kBlockSize; lia)) as HI. change (B - start B - 7 =? 0) with false in HI. cbn iota in HI. rewrite length_drop in HI.
    destruct (Z.eqb_spec avail 0); unfold size in *; lia.
Qed.

Lemma group_record_bytes b d : 0 <= b <= B -> (length (layout b (fragments b d)) <= 14 * length d + 26)%nat.
Proof. intros Hb. pose proof (cut_short (S (S (length d))) b true d (fragments_enough b d) Hb). unfold fragments. destruct (_ =? 0); lia. Qed.

Lemma records_bytes_bound recs : forall b, 0 <= b <= B -> (length (log_layout b recs) <= sum_list_with (fun d => 14 * length d + 26) recs)%nat.
Proof.
  induction recs as [|d recs IH]; intros b Hb; cbn [log_layout sum_list_with length]; [lia|]. rewrite length_app. pose proof (group_record_bytes b d Hb). destruct (fragments_long b d Hb) as [_ He]. specialize (IH _ He). lia.
Qed.

(** No log of these calls is longer. *)
Definition log_bytes (cs : list call) : nat := sum_list_with (fun c => 14 * (12 + length (records (updates_of c))) + 26)%nat cs.

Lemma log_bytes_app cs cs' : log_bytes (cs ++ cs') = (log_bytes cs + log_bytes cs')%nat.
Proof. apply sum_list_with_app. Qed.

Lemma group_bytes seq ms : ms <> [] -> (14 * length (batch_rep seq (group_updates ms)) + 26 <= log_bytes ms)%nat.
Proof.
  rewrite batch_length. induction ms as [|c ms IH]; intros Hne; [done|]. change (group_updates (c :: ms)) with (updates_of c ++ group_updates ms). rewrite records_app, length_app.
  change (log_bytes (c :: ms)) with ((14 * (12 + length (records (updates_of c))) + 26) + log_bytes ms)%nat.
  destruct ms as [|c' ms]; [change (length (records (group_updates []))) with 0%nat; lia|]. specialize (IH ltac:(done)). lia.
Qed.

Lemma attempts_bytes gs Y : Forall (fun g => members g <> []) gs -> forall seq,
  (sum_list_with (fun d => 14 * length d + 26) (rep_of <$> attempts seq gs ++ Y) <= log_bytes (calls_in gs) + sum_list_with (fun d => 14 * length d + 26) (rep_of <$> Y))%nat.
Proof.
  induction 1 as [|g gs Hg _ IH]; intros seq; [cbn; lia|]. change (calls_in (g :: gs)) with (members g ++ calls_in gs). rewrite log_bytes_app. cbn [attempts]. specialize (IH (seq + group_length g)).
  destruct (numbered g); cbn [app fmap list_fmap sum_list_with]; [|lia]. unfold rep_of at 1. cbn [a_seq a_updates]. pose proof (group_bytes seq (members g) Hg). lia.
Qed.

(** ** The numbers of the attempts *)

Lemma all_versions_range gs : forall seq, Forall (fun v => seq <= v_seq v < seq + total gs) (all_versions (attempts seq gs)).
Proof.
  induction gs as [|g gs IH]; intros seq; cbn [attempts total]; [constructor|]. rewrite all_versions_app. pose proof (total_nonneg gs). pose proof (group_length_nonneg g). apply Forall_app. split.
  - unfold group_length. destruct (numbered g); [|constructor]. unfold all_versions. cbn. rewrite app_nil_r. eapply Forall_impl; [apply versions_of_range|]. cbn. unfold count_updates. lia.
  - eapply Forall_impl; [apply IH|]. cbn. lia.
Qed.

Lemma all_versions_ascending gs : forall seq, ascending (all_versions (attempts seq gs)).
Proof.
  induction gs as [|g gs IH]; intros seq; cbn [attempts]; [constructor|]. rewrite all_versions_app. apply (ascending_app _ _ (seq + group_length g)); [|apply IH| |].
  - destruct (numbered g); [|constructor]. unfold all_versions. cbn. rewrite app_nil_r. apply versions_of_ascending.
  - unfold group_length. destruct (numbered g); [|constructor]. unfold all_versions. cbn. rewrite app_nil_r. eapply Forall_impl; [apply versions_of_range|]. cbn. unfold count_updates. lia.
  - eapply Forall_impl; [apply all_versions_range|]. cbn. lia.
Qed.

Lemma last_number_app n A A' : last_number n (A ++ A') = last_number (last_number n A) A'.
Proof. apply foldl_app. Qed.

Section recover.
Context `{Placement} {F G : Type} `{WritableFile F} `{SequentialLaws G} {user : Comparator} {laws : ComparatorLaws}.
Context (options_ : RecoveryOptions) (build : MemTable -> Status) (build_ok : forall m, build m = OK).

Notation LR := (LogRecovery F G).

Lemma group_keys cs : Forall call_ok cs -> keys_ok (group_updates cs).
Proof.
  unfold group_updates, keys_ok, keys_fit. induction 1 as [|c cs [[Hu Hk] _] _ [IH1 IH2]]; [done|]. cbn. split; apply Forall_app; by split.
Qed.

Definition attempt_ok (a : attempt) : Prop :=
  keys_ok (a_updates a) /\ Z.of_nat (length (a_updates a)) < 2 ^ 31 /\ 1 <= a_seq a /\ a_seq a + Z.of_nat (length (a_updates a)) - 1 <= kMaxSequenceNumber.

Lemma attempt_batch a : attempt_ok a -> batch_ok (a_seq a) (a_updates a).
Proof. intros ([Hu _] & Hn & Hs & He). change kMaxSequenceNumber with (2 ^ 56 - 1) in He. split; [lia|]. by split. Qed.

(** ** One record *)

(** The tables that were written, and the one that is filled. *)
Record recovering (vs : list version) (s : LR) (w : world) : Prop := {
  rc_tables : exists vss vm, vs = mjoin vss ++ vm /\ Forall2 (fun vs m => holds vs m w) vss (tables (rec_versions (recovery s))) /\
    match rec_mem s with Some m => holds vm m w /\ refs_ m = 1 | None => vm = [] end;
  rc_status : rec_status s = OK;
  rc_heap : heap_ok w;
}.

Lemma recovery_table_ok (s : LR) w : heap_ok w -> exists m w', new_table s w = Ok m s w' /\ holds [] m w' /\ refs_ m = 1 /\ brk w <= brk w'.
Proof.
  intros Hh. destruct (new_memtable_ok [] w (fresh_arena w Hh)) as (m & w' & E & Hm & Hr). pose proof (extends_new_memtable _ _ _ _ _ E) as Hb.
  exists (mk_memtable (table_ m) (refs_ m + 1)), w'. split; [|split; [by apply holds_refs|split; [cbn; lia|done]]].
  unfold new_table, no_stream, on_table, bind. rewrite E. done.
Qed.

(** The table to insert into. *)
Lemma current_table_ok vm (s : LR) w : heap_ok w -> match rec_mem s with Some m => holds vm m w /\ refs_ m = 1 | None => vm = [] end ->
  exists m w', (match rec_mem s with Some m => ret m | None => new_table end) s w = Ok m s w' /\ holds vm m w' /\ refs_ m = 1 /\ brk w <= brk w'.
Proof.
  intros Hh Hm. destruct (rec_mem s) as [m|].
  - destruct Hm as [Hm Hr]. exists m, w. split; [done|]. split; [done|]. split; [done|lia].
  - subst vm. by apply recovery_table_ok.
Qed.

Lemma record_size a : (size (rep_of a) <? 12) = false.
Proof. apply Z.ltb_ge. unfold rep_of. rewrite batch_rep_size. unfold size. lia. Qed.

Lemma set_contents_ok a : SetContents (rep_of a) = Some (rep_of a).
Proof. unfold SetContents. rewrite (proj2 (Z.leb_le _ _)); [done|]. unfold rep_of. rewrite batch_rep_size. change kHeader with 12. unfold size. lia. Qed.

(** Reading a record that is there. *)
Lemma next_record_ok fuel (s : LR) r' d ds w : drops (reader s) = ds -> drops r' = ds -> rec_status s = OK ->
  ReadRecord fuel (reader s) w = Ok d r' w -> next_record options_ fuel s w = Ok d (set_reader r' s) w.
Proof.
  intros Hd Hd' Hs E. unfold next_record, in_reader, bind, get. rewrite E. unfold report_drops, bind, get. cbn [reader set_reader rec_status]. rewrite Hd, Hd', drop_all. cbn [ret rec_status set_reader]. by rewrite Hs.
Qed.

(** A table is written out. *)
Lemma write_table_ok vs (s : LR) m vm vss w : vs = mjoin vss ++ vm -> Forall2 (fun vs m => holds vs m w) vss (tables (rec_versions (recovery s))) -> holds vm m w -> refs_ m = 1 -> rec_status s = OK ->
  exists s', (let* status := WriteLevel0Table build m in modify (set_rec_status status);; let* _ := on_table Unref m in modify (set_rec_mem None);; ret (if ok status then inl tt else inr tt)) s w = Ok (inl tt) s' w /\
    recovering vs s' w /\ reader s' = reader s /\ max_sequence (recovery s') = max_sequence (recovery s) /\ reused (recovery s') = reused (recovery s) /\ last_sequence_ (rec_versions (recovery s')) = last_sequence_ (rec_versions (recovery s)).
Proof.
  intros -> Ht Hm Hr Hs. pose proof (holds_heap _ _ _ Hm) as Hh. unfold WriteLevel0Table. rewrite build_ok. unfold bind, modify, on_table, Unref, bind, get, modify, assert_. cbn [ret refs_]. rewrite Hr. cbn.
  eexists. split; [reflexivity|]. split; [|done]. split; [|done|done]. exists (vss ++ [vm]), []. cbn. split; [rewrite join_app, !app_nil_r; cbn; by rewrite app_nil_r|].
  split; [|done]. apply Forall2_app; [done|]. by constructor.
Qed.

(** A record is inserted, and the table is written out if it has become too big. *)
Lemma record_ok fuel a rest pos b vs ds (s : LR) w : attempt_ok a -> reading (reader s) pos b (layout b (fragments b (rep_of a)) ++ rest) ds -> (S (S (length (rep_of a))) <= fuel)%nat ->
  recovering vs s w -> ascending (vs ++ versions_of (a_seq a) (a_updates a)) ->
  exists s' w', recover_step user options_ build fuel tt s w = Ok (inl tt) s' w' /\ recovering (vs ++ versions_of (a_seq a) (a_updates a)) s' w' /\
    reading (reader s') (pos + size (layout b (fragments b (rep_of a)))) (layout_end b (fragments b (rep_of a))) rest ds /\
    max_sequence (recovery s') = Z.max (max_sequence (recovery s)) (a_seq a + Z.of_nat (length (a_updates a)) - 1) /\
    reused (recovery s') = reused (recovery s) /\ last_sequence_ (rec_versions (recovery s')) = last_sequence_ (rec_versions (recovery s)).
Proof.
  intros Ha Hr Hf [(vss & vm & -> & Ht & Hmem) Hs Hh] Hasc. pose proof (attempt_batch a Ha) as Hb. pose proof Ha as ([Hu Hk] & Hn & Hs1 & Hs2). change kMaxSequenceNumber with (2 ^ 56 - 1) in Hs2.
  destruct (read_record_ok fuel (reader s) pos b (rep_of a) rest ds w Hr (rep_bytes _ _ Hu) Hf) as (r' & Er & Hr' & _).
  unfold recover_step. unfold bind at 1. rewrite (next_record_ok fuel s r' _ ds w (rd_drops _ _ _ _ _ Hr) (rd_drops _ _ _ _ _ Hr') Hs Er). rewrite record_size, set_contents_ok.
  cbn [bind must ret get]. set (s1 := set_reader r' s). change (rec_mem s1) with (rec_mem s).
  destruct (current_table_ok vm s1 w Hh Hmem) as (m & w1 & Em & Hm & Hrm & Hb1). change (rec_mem s1) with (rec_mem s) in Em. unfold bind at 1. rewrite Em.
  assert (Hasc2 : ascending (vm ++ versions_of (a_seq a) (a_updates a))) by (rewrite <- app_assoc in Hasc; by apply StronglySorted_app_1_r in Hasc).
  destruct (insert_into_ok vm (a_seq a) (a_updates a) m w1 Hm Hb Hk ltac:(change kMaxSequenceNumber with (2 ^ 56 - 1); lia) (ascending_distinct _ Hasc2)) as (m' & w' & Ei & Hm' & Hrm').
  pose proof (extends_insert_into _ _ _ _ _ _ _ Ei) as Hb2. pose proof (holds_heap _ _ _ Hm') as Hh'. unfold bind at 1, on_table at 1. unfold rep_of. rewrite Ei. cbn [bind modify].
  rewrite (sequence_ok _ _ (proj1 Hb)), (count_ok _ _ Hn). unfold MaybeIgnoreError. cbn [ok orb negb must ret bind]. rewrite u64_small by lia. set (last := a_seq a + Z.of_nat (length (a_updates a)) - 1).
  set (s0 := set_rec_status OK (set_rec_mem (Some m') s1)). unfold modify at 1. cbv beta iota.
  set (s2 := (if max_sequence (recovery s0) <? last then set_recovery (set_max_sequence last (recovery s0)) s0 else s0)).
  assert (Hs2' : recovering ((mjoin vss ++ vm) ++ versions_of (a_seq a) (a_updates a)) s2 w' /\ reader s2 = r' /\ rec_mem s2 = Some m' /\ tables (rec_versions (recovery s2)) = tables (rec_versions (recovery s)) /\
    max_sequence (recovery s2) = Z.max (max_sequence (recovery s)) last /\ reused (recovery s2) = reused (recovery s) /\ last_sequence_ (rec_versions (recovery s2)) = last_sequence_ (rec_versions (recovery s))).
  { assert (Hrec : forall s3 : LR, tables (rec_versions (recovery s3)) = tables (rec_versions (recovery s)) -> rec_mem s3 = Some m' -> rec_status s3 = OK -> recovering ((mjoin vss ++ vm) ++ versions_of (a_seq a) (a_updates a)) s3 w').
    { intros s3 E1 E2 E3. split; [|done|done]. exists vss, (vm ++ versions_of (a_seq a) (a_updates a)). rewrite E1, E2. split; [by rewrite app_assoc|]. split; [|split; [done|congruence]].
      apply (tables_grow w); [done|lia|done]. }
    unfold s2. cbn. destruct (Z.ltb_spec (max_sequence (recovery s)) last); (split; [by apply Hrec|]); repeat (split; [done|]); cbn; try lia; split; [lia|done|lia|done]. }
  clearbody s2. destruct Hs2' as (Hrec & Hrd & Hmm & Htab & Hmax & Hre & Hls).
  destruct (opt_write_buffer_size options_ <? _).
  - destruct (rc_tables _ _ _ Hrec) as (vss2 & vm2 & Ev & Ht2 & Hmem2). rewrite Hmm in Hmem2. destruct Hmem2 as [Hm2 Hr2].
    set (s3 := set_recovery (set_save_manifest (recovery s2)) (set_compactions (compactions s2 + 1) s2)).
    destruct (write_table_ok _ s3 m' vm2 vss2 w' Ev Ht2 Hm2 Hr2 (rc_status _ _ _ Hrec)) as (s4 & E4 & Hrec4 & Hrd4 & Hmax4 & Hre4 & Hls4).
    exists s4, w'. split; [exact E4|]. split; [exact Hrec4|]. rewrite Hrd4, Hmax4, Hre4, Hls4. change (reader s3) with (reader s2). rewrite Hrd. split; [exact Hr'|]. split; [exact Hmax|]. split; [exact Hre|exact Hls].
  - exists s2, w'. split; [reflexivity|]. split; [exact Hrec|]. rewrite Hrd. split; [exact Hr'|]. split; [exact Hmax|]. split; [exact Hre|exact Hls].
Qed.

(** ** The records of a log, of which a part may be missing *)

Lemma recover_loop_ok fuel A : forall n pos b k vs ds (s : LR) w, Forall attempt_ok A -> (length A < n)%nat -> Forall (fun a => (S (S (length (rep_of a))) <= fuel)%nat) A -> (2 <= fuel)%nat ->
  reading (reader s) pos b (take k (log_layout b (rep_of <$> A))) ds -> recovering vs s w -> ascending (vs ++ all_versions A) ->
  exists s' w', loop n (recover_step user options_ build fuel) tt s w = Ok tt s' w' /\
    let A' := take (length (whole pos b (rep_of <$> A) k)) A in
    recovering (vs ++ all_versions A') s' w' /\ max_sequence (recovery s') = last_number (max_sequence (recovery s)) A' /\
    reused (recovery s') = reused (recovery s) /\ last_sequence_ (rec_versions (recovery s')) = last_sequence_ (rec_versions (recovery s)).
Proof.
  assert (Hend : forall vs ds d k (s : LR) w b pos, reading (reader s) pos b (take k (layout b (fragments b d))) ds -> is_bytes d -> (k < length (layout b (fragments b d)))%nat -> (S (S (length d)) <= fuel)%nat ->
    recovering vs s w -> exists s', recover_step user options_ build fuel tt s w = Ok (inr tt) s' w /\ recovering vs s' w /\ recovery s' = recovery s).
  { intros vs ds d k s w b pos Hr Hd Hk Hf Hrec. destruct (read_record_cut fuel (reader s) pos b d k ds w Hr Hd Hk Hf) as (r' & Er & Hr').
    exists (set_reader r' s). unfold recover_step. unfold bind at 1. rewrite (next_record_ok fuel s r' _ ds w (rd_drops _ _ _ _ _ Hr) (end_drops _ _ Hr') (rc_status _ _ _ Hrec) Er).
    split; [reflexivity|]. split; [|reflexivity]. destruct Hrec. by split. }
  induction A as [|a A IH]; intros [|n] pos b k vs ds s w HA Hn Hf Hf2 Hr Hrec Hasc; [cbn in Hn; lia| |cbn in Hn; lia|];
    pose proof (rd_block _ _ _ _ _ Hr) as Hb; cbn [loop fmap list_fmap log_layout whole length] in *.
  - destruct (fragments_long b [] Hb) as [Hlen _].
    destruct (Hend vs ds [] 0%nat s w b pos) as (s' & E & Hrec' & Erec); [by rewrite take_nil in Hr|constructor|lia|done|done|].
    unfold bind at 1. rewrite E. exists s', w. split; [reflexivity|]. cbn [take]. change (all_versions []) with ([] : list version). rewrite (app_nil_r vs), Erec. done.
  - apply Forall_cons_1 in HA as [Ha HA]. apply Forall_cons_1 in Hf as [Hf1 Hf]. destruct (fragments_long b (rep_of a) Hb) as [Hlen _]. set (l := layout b (fragments b (rep_of a))) in *.
    change (all_versions (a :: A)) with (versions_of (a_seq a) (a_updates a) ++ all_versions A) in Hasc. rewrite app_assoc in Hasc.
    destruct (Nat.leb_spec (length l) k) as [Hle|Hgt].
    + rewrite take_app_ge in Hr by done.
      destruct (record_ok fuel a _ pos b vs ds s w Ha Hr Hf1 Hrec) as (s1 & w1 & E & Hrec1 & Hr1 & Hmax & Hre & Hls); [by apply StronglySorted_app_1_l in Hasc|].
      destruct (IH n _ _ _ (vs ++ versions_of (a_seq a) (a_updates a)) ds s1 w1 HA ltac:(lia) Hf Hf2 Hr1 Hrec1 Hasc) as (s2 & w2 & E2 & Hrec2 & Hmax2 & Hre2 & Hls2).
      exists s2, w2. unfold bind at 1. rewrite E. split; [exact E2|]. cbn [length take]. rewrite Hre2, Hls2, Hmax2, Hre, Hls, Hmax. split; [|done].
      rewrite <- app_assoc in Hrec2. exact Hrec2.
    + rewrite take_app_le in Hr by lia. destruct (Hend vs ds (rep_of a) k s w b pos) as (s' & E & Hrec' & Erec); [done|apply rep_bytes, Ha|done|done|done|].
      unfold bind at 1. rewrite E. exists s', w. split; [reflexivity|]. cbn [length take]. change (all_versions []) with ([] : list version). rewrite (app_nil_r vs), Erec. done.
Qed.

(** What [Recover] has of the tables between two logs. *)
Definition recovered_tables (vs : list version) (r : Recovery F) (w : world) : Prop :=
  exists vss vm, vs = mjoin vss ++ vm /\ Forall2 (fun vs m => holds vs m w) vss (tables (rec_versions r)) /\
    match reused r with Some (_, _, m) => holds vm m w /\ refs_ m = 1 | None => vm = [] end.

(** The end: the table goes to the database, with its log, or to a file. *)
Lemma finish_log_ok number last_log reopened vs (s : LR) w : recovering vs s w -> reused (recovery s) = None ->
  exists s' w', finish_log options_ build number last_log reopened s w = Ok OK s' w' /\ recovered_tables vs (recovery s') w' /\ heap_ok w' /\ brk w <= brk w' /\
    max_sequence (recovery s') = max_sequence (recovery s) /\ last_sequence_ (rec_versions (recovery s')) = last_sequence_ (rec_versions (recovery s)) /\ (last_log = false -> reused (recovery s') = None).
Proof.
  intros [(vss & vm & -> & Ht & Hmem) Hs Hh] Hre. unfold finish_log. unfold bind at 1, get at 1. rewrite Hs. cbn [ok andb].
  assert (Hflush : exists s' w', (let* s := get in
      (match rec_mem s with
       | Some mem => (if ok (rec_status s) then modify (fun s => set_recovery (set_save_manifest (recovery s)) s);; let* status := WriteLevel0Table build mem in modify (set_rec_status status) else ret tt);;
           let* _ := on_table Unref mem in modify (set_rec_mem None)
       | None => ret tt
       end);; let* s := get in ret (rec_status s)) s w = Ok OK s' w' /\ recovered_tables (mjoin vss ++ vm) (recovery s') w' /\ heap_ok w' /\ brk w <= brk w' /\
    max_sequence (recovery s') = max_sequence (recovery s) /\ last_sequence_ (rec_versions (recovery s')) = last_sequence_ (rec_versions (recovery s)) /\ (last_log = false -> reused (recovery s') = None)).
  { unfold bind at 1, get at 1. destruct (rec_mem s) as [m|] eqn:Em.
    - destruct Hmem as [Hm Hr]. rewrite Hs. cbn [ok]. unfold WriteLevel0Table, bind, modify, on_table, Unref, bind, get, modify, assert_. rewrite build_ok. cbn [ret refs_ ok]. rewrite Hr. cbn.
      eexists _, w. split; [reflexivity|]. split; [|split; [done|split; [lia|done]]]. exists (vss ++ [vm]), []. cbn. rewrite Hre. split; [rewrite join_app, !app_nil_r; cbn; by rewrite app_nil_r|].
      split; [|done]. apply Forall2_app; [done|]. by constructor.
    - subst vm. exists s, w. unfold bind, get, ret. rewrite Hs. split; [done|]. split; [|split; [done|split; [lia|done]]]. exists vss, []. rewrite Hre. done. }
  destruct (reuse_logs options_ && last_log && (compactions s =? 0)) eqn:Euse; [|exact Hflush]. rewrite Hre. cbn [assert_ ret bind].
  destruct reopened as [[size f]|]; [|exact Hflush].
  destruct (current_table_ok vm s w Hh Hmem) as (m & w' & Em & Hm & Hrm & Hb). unfold bind, modify, get. rewrite Em. cbn. rewrite Hs. cbn [ret].
  pose proof (holds_heap _ _ _ Hm) as Hh'. eexists _, w'. split; [reflexivity|]. split; [|split; [done|split; [done|split; [done|split; [done|]]]]].
  - exists vss, vm. cbn. split; [done|]. split; [|done]. by apply (tables_grow w).
  - intros ->. rewrite andb_false_r in Euse. done.
Qed.

(** ** One log *)

(** What is there of a log: its first attempts. *)
Definition left_of (A : list attempt) (k : nat) : nat := length (whole 0 B (rep_of <$> A) k).

Lemma recover_file_ok fuel number last_log g reopened A k vs (r : Recovery F) w : Forall attempt_ok A -> remaining g = take k (log_of A) -> size (log_of A) < 2 ^ 64 -> (length (log_of A) + 1 < fuel)%nat ->
  recovered_tables vs r w -> reused r = None -> heap_ok w -> ascending (vs ++ all_versions A) ->
  exists r' w', RecoverLogFile user options_ build fuel number last_log (OK, g) reopened r w = Ok OK r' w' /\ recovered_tables (vs ++ all_versions (take (left_of A k) A)) r' w' /\ heap_ok w' /\
    max_sequence r' = last_number (max_sequence r) (take (left_of A k) A) /\ last_sequence_ (rec_versions r') = last_sequence_ (rec_versions r) /\ (last_log = false -> reused r' = None).
Proof.
  intros HA Hg Hs Hf (vss & vm & -> & Ht & Hre') Hre Hh Hasc. rewrite Hre in Hre'. subst vm. destruct (log_long (rep_of <$> A) 0 ltac:(unfold kBlockSize; lia)) as [H1' H2']. rewrite length_fmap in H1'.
  set (s := mk_log_recovery (new_Reader g true true 0) None OK 0 r). fold (log_of A) in H1', H2'.
  destruct (recover_loop_ok fuel A fuel 0 B k (mjoin vss ++ []) [] s w HA ltac:(lia)) as (s1 & w1 & E & Hrec & Hmax & Hre1 & Hls).
  - apply Forall_fmap in H2'. eapply Forall_impl; [exact H2'|]. cbn. lia.
  - lia.
  - rewrite <- (log_layout_mod B) by (unfold kBlockSize; lia). change (B mod B) with 0. fold (log_of A). rewrite <- Hg. apply new_reading. rewrite Hg. unfold size in *. rewrite length_take. lia.
  - split; [|done|done]. exists vss, []. done.
  - done.
  - destruct (finish_log_ok number last_log reopened _ s1 w1 Hrec) as (s2 & w2 & E2 & Htab & Hh2 & _ & Hmax2 & Hls2 & Hlast); [by rewrite Hre1|].
    exists (recovery s2), w2. split; [unfold RecoverLogFile; cbn [ok negb]; fold s; unfold bind; by rewrite E, E2|]. split; [exact Htab|]. split; [done|].
    rewrite Hmax2, Hls2, Hmax, Hls. done.
Qed.

(** A crash leaves a part of a file: at least what is durable, or, if only the process died
    ([full]), what it had flushed. *)
Definition crashed `{!WritableLaws F} `{!SyncFile F} `{!SyncLaws F} (full : bool) (f : F) (g : G) : Prop :=
  exists k, remaining g = take k (LdbEnv.contents f) /\ (durable f <= k)%nat /\ (full = true -> (flushed f <= k)%nat).

(** Every attempt that was acknowledged is among the first [m], if it was synced or only the
    process died. *)
Definition keeps (full : bool) (A : list attempt) (m : nat) : Prop :=
  forall i a, A !! i = Some a -> ok (a_status a) = true -> full = true \/ a_sync a = true -> (i < m)%nat.

Lemma crashed_log `{!WritableLaws F} `{!SyncFile F} `{!SyncLaws F} full (f : F) (g : G) A : log_state f A -> sound A -> crashed full f g ->
  exists k, remaining g = take k (log_of A) /\ keeps full A (left_of A k).
Proof.
  intros [_ Hst] Hsnd (k & Hg & Hd & Hfull). destruct (Hst Hsnd) as (n & k0 & Hc & Hk0 & Hn & Hok). exists (Nat.min k k0). split; [by rewrite Hg, Hc, take_take|].
  pose proof (flushed_le f) as Hfl. assert (Hlen : length (LdbEnv.contents f) = k0) by (rewrite Hc, length_take; lia).
  intros i a Hi Ha Hcase. destruct (Hok i a Hi Ha) as [Hin Hsync]. assert (Hi2 : (i < length A)%nat) by (by eapply lookup_lt_Some).
  assert (Hle : (length (log_of (take (S i) A)) <= flushed f)%nat).
  { etrans; [|exact Hn]. replace (take (S i) A) with (take (S i) (take n A)) by (rewrite take_take; f_equal; lia). apply log_of_take. }
  unfold left_of. enough (S i <= length (whole 0 B (rep_of <$> A) (Nat.min k k0)))%nat by lia. apply whole_least; [|rewrite length_fmap; lia].
  rewrite <- fmap_take, <- (log_layout_mod B) by (unfold kBlockSize; lia). change (B mod B) with 0. fold (log_of (take (S i) A)).
  destruct Hcase as [E|E]; [specialize (Hfull E)|specialize (Hsync E)]; lia.
Qed.

(** ** The logs of a directory *)

#[local] Instance earlier_total : Total (earlier (F := F) (G := G)).
Proof. intros a b. unfold earlier. lia. Qed.

Lemma filter_every {A} (P : A -> Prop) `{!forall x, Decision (P x)} l : Forall P l -> filter P l = l.
Proof. induction 1 as [|x l Hx _ IH]; [done|]. by rewrite filter_cons_True, IH. Qed.

Lemma filter_no {A} (P : A -> Prop) `{!forall x, Decision (P x)} l : Forall (fun x => ~ P x) l -> filter P l = [].
Proof. induction 1 as [|x l Hx _ IH]; [done|]. by rewrite filter_cons_False, IH. Qed.

(** The logs that count, in order, whatever else is there and in whatever order they are found. *)
Lemma sorted_logs v (kept stale dir : list (LogFile F G)) : dir ≡ₚ kept ++ stale -> prev_log_number_ v = 0 ->
  Forall (fun l => log_number_ v <= lf_number l) kept -> Forall (fun l => lf_number l < log_number_ v /\ lf_number l <> 0) stale ->
  (exists a, kept = [a]) \/ (exists a b, kept = [a; b] /\ lf_number a < lf_number b) ->
  merge_sort earlier (filter (fun l => log_number_ v <= lf_number l \/ lf_number l = prev_log_number_ v) dir) = kept.
Proof.
  intros Hp Hprev Hk Hs Hcase. set (P := fun l : LogFile F G => _ \/ _). assert (Ef : kept ≡ₚ merge_sort earlier (filter P dir)).
  { rewrite merge_sort_Permutation, Hp, filter_app, (filter_every P kept), (filter_no P stale); [by rewrite app_nil_r| |].
    - eapply Forall_impl; [exact Hs|]. unfold P. cbn. lia.
    - eapply Forall_impl; [exact Hk|]. unfold P. cbn. lia. }
  destruct Hcase as [[a ->]|(a & b & -> & Hab)].
  - by apply Permutation_length_1_inv.
  - destruct (Permutation_length_2_inv Ef) as [E|E]; [exact E|]. exfalso. pose proof (Sorted_merge_sort earlier (filter P dir)) as Hsort. rewrite E in Hsort.
    inversion Hsort as [|? ? _ Hd]. inversion Hd as [|? ? He]. unfold earlier in He. lia.
Qed.

(** ** All logs *)

Lemma attempts_ok gs : Forall (fun g => Forall call_ok (members g) /\ count_updates (members g) < 2 ^ 31) gs -> forall seq, 1 <= seq -> seq + total gs - 1 <= kMaxSequenceNumber -> Forall attempt_ok (attempts seq gs).
Proof.
  induction 1 as [|g gs [Hg Hn] _ IH]; intros seq Hs Ht; cbn [attempts total] in *; [constructor|]. pose proof (total_nonneg gs). pose proof (group_length_nonneg g). apply Forall_app. split; [|apply IH; lia].
  unfold group_length in *. destruct (numbered g); [|constructor]. constructor; [|constructor]. unfold attempt_ok. cbn. unfold count_updates in *. split; [by apply group_keys|]. lia.
Qed.

Lemma ascending_drop vs vs' vs'' : ascending (vs ++ vs' ++ vs'') -> ascending (vs ++ vs'').
Proof.
  induction vs as [|v vs IH]; cbn [app]; intros Ha; [by apply StronglySorted_app_1_r in Ha|]. apply StronglySorted_inv in Ha as [Ha Hv]. apply SSorted_cons; [by apply IH|].
  apply Forall_app in Hv as [Hv1 Hv2]. apply Forall_app in Hv2 as [_ Hv2]. apply Forall_app. by split.
Qed.

Lemma mark_tables number vs (r : Recovery F) w : recovered_tables vs r w -> recovered_tables vs (set_rec_versions (MarkFileNumberUsed number (rec_versions r)) r) w.
Proof. unfold recovered_tables, MarkFileNumberUsed. cbn. by destruct (_ <=? number). Qed.

Lemma mark_sequence number v : last_sequence_ (MarkFileNumberUsed number v) = last_sequence_ v.
Proof. unfold MarkFileNumberUsed. by destruct (_ <=? number). Qed.

(** A log that is there up to [k] bytes. *)
Definition log_left (fuel : nat) (l : LogFile F G) (x : list attempt * nat) : Prop :=
  exists g, lf_file l = (OK, g) /\ remaining g = take x.2 (log_of x.1) /\ size (log_of x.1) < 2 ^ 64 /\ (length (log_of x.1) + 1 < fuel)%nat /\ Forall attempt_ok x.1.

Definition read_from (x : list attempt * nat) : list attempt := take (left_of x.1 x.2) x.1.

Lemma recover_logs_ok fuel logs xs : Forall2 (log_left fuel) logs xs -> forall vs (r : Recovery F) w, recovered_tables vs r w -> reused r = None -> heap_ok w ->
  ascending (vs ++ all_versions (mjoin (fst <$> xs))) ->
  exists r' w', recover_logs user options_ build fuel logs r w = Ok OK r' w' /\ recovered_tables (vs ++ all_versions (mjoin (read_from <$> xs))) r' w' /\
    max_sequence r' = last_number (max_sequence r) (mjoin (read_from <$> xs)) /\ last_sequence_ (rec_versions r') = last_sequence_ (rec_versions r).
Proof.
  induction 1 as [|l [A k] logs xs (g & El & Hg & Hs & Hf & HA) Hrest IH]; intros vs r w Htab Hre Hh Hasc.
  - exists r, w. cbn [fmap list_fmap mjoin list_join]. change (all_versions []) with ([] : list version). by rewrite app_nil_r.
  - cbn [fst snd] in *. cbn [fmap list_fmap mjoin list_join] in Hasc |- *. rewrite all_versions_app in Hasc |- *. cbn [fst] in Hasc. cbn [recover_logs]. rewrite El.
    destruct (recover_file_ok fuel (lf_number l) (match logs with [] => true | _ => false end) g (lf_reopened l) A k vs r w HA Hg Hs Hf Htab Hre Hh) as (r1 & w1 & E & Htab1 & Hh1 & Hmax1 & Hls1 & Hlast).
    { by rewrite app_assoc in Hasc; apply StronglySorted_app_1_l in Hasc. }
    unfold bind at 1. rewrite E. cbn [ok negb]. unfold bind at 1, modify at 1. set (r2 := set_rec_versions _ r1). pose proof (mark_tables (lf_number l) _ _ _ Htab1) as Htab2. fold r2 in Htab2.
    rewrite last_number_app. change (read_from (A, k)) with (take (left_of A k) A). rewrite <- Hmax1, <- Hls1. change (max_sequence r1) with (max_sequence r2).
    assert (Els : last_sequence_ (rec_versions r1) = last_sequence_ (rec_versions r2)) by (unfold r2; cbn; by rewrite mark_sequence). rewrite Els.
    destruct logs as [|l2 logs].
    + inversion Hrest; subst. exists r2, w1. cbn [fmap list_fmap mjoin list_join]. change (all_versions []) with ([] : list version). by rewrite app_nil_r.
    + rewrite app_assoc. apply IH; [exact Htab2|by apply Hlast|done|].
      rewrite <- (take_drop (left_of A k) A) in Hasc. rewrite all_versions_app, <- app_assoc, app_assoc in Hasc. by apply ascending_drop in Hasc.
Qed.

Lemma recover_ok fuel v dir kept stale xs w : Forall2 (log_left fuel) kept xs -> dir ≡ₚ kept ++ stale -> prev_log_number_ v = 0 -> tables v = [] ->
  Forall (fun l => log_number_ v <= lf_number l) kept -> Forall (fun l => lf_number l < log_number_ v /\ lf_number l <> 0) stale ->
  (exists a, kept = [a]) \/ (exists a b, kept = [a; b] /\ lf_number a < lf_number b) -> heap_ok w -> ascending (all_versions (mjoin (fst <$> xs))) ->
  exists r w', Recover user options_ build fuel v dir tt w = Ok (OK, r) tt w' /\ recovered_tables (all_versions (mjoin (read_from <$> xs))) r w' /\
    last_sequence_ (rec_versions r) = Z.max (last_sequence_ v) (last_number 0 (mjoin (read_from <$> xs))).
Proof.
  intros Hxs Hp Hprev Htab Hk Hs Hcase Hh Hasc. unfold Recover. rewrite (sorted_logs v kept stale dir) by done.
  destruct (recover_logs_ok fuel kept xs Hxs [] (mk_recovery v false 0 None) w) as (r & w' & E & Htab' & Hmax & Hls); [exists [], []; cbn; by rewrite Htab|done|done|done|].
  rewrite E. cbn [ok negb]. cbn [max_sequence rec_versions] in Hmax, Hls. destruct (Z.ltb_spec (last_sequence_ (rec_versions r)) (max_sequence r)); (eexists _, w'; split; [reflexivity|]).
  - split; [exact Htab'|]. cbn. lia.
  - split; [exact Htab'|]. lia.
Qed.

End recover.

(** * When a table cannot be built *)

(** [m'] ends as [m] does, or in a way that is [bad]. *)
Definition follows {S A} (bad : A -> S -> Prop) (m m' : SM S A) : Prop := forall s w x s1 w1, m s w = Ok x s1 w1 ->
  m' s w = Ok x s1 w1 \/ exists x' s2 w2, m' s w = Ok x' s2 w2 /\ bad x' s2.

Lemma follows_refl {S A} (bad : A -> S -> Prop) m : follows bad m m.
Proof. intros s w x s1 w1. by left. Qed.

Lemma follows_bind {S A B} (bad : B -> S -> Prop) (m : SM S A) k k' : (forall a, follows bad (k a) (k' a)) -> follows bad (bind m k) (bind m k').
Proof. intros Hk s w x s1 w1. unfold bind. destruct (m s w) as [a s0 w0| | |]; [|done..]. apply Hk. Qed.

(** The first part may go wrong already. *)
Lemma follows_seq {S A B} (bad1 : A -> S -> Prop) (bad : B -> S -> Prop) (m m' : SM S A) k k' :
  follows bad1 m m' -> (forall a, follows bad (k a) (k' a)) ->
  (forall a s w, bad1 a s -> exists x' s2 w2, k' a s w = Ok x' s2 w2 /\ bad x' s2) -> follows bad (bind m k) (bind m' k').
Proof.
  intros Hm Hk Hb s w x s1 w1. unfold bind. destruct (m s w) as [a s0 w0| | |] eqn:E; [|done..]. intros E1.
  destruct (Hm _ _ _ _ _ E) as [E'|(a' & s2 & w2 & E' & Hbad)]; rewrite E'; [by apply (Hk a)|right; by apply Hb].
Qed.

Section build.
Context `{Placement} {F G : Type} `{WritableFile F} `{SequentialFile G} (user : Comparator) (options_ : RecoveryOptions) (build : MemTable -> Status).

Notation LR := (LogRecovery F G).
Notation fine := (fun _ : MemTable => OK).

(** A status that [BuildTable] failed with. *)
Definition build_error (e : Status) : Prop := ok e = false /\ exists m, e = build m.

Definition build_failed (s : LR) : Prop := build_error (rec_status s) /\ rec_mem s = None.

Lemma build_cases m : build m = OK \/ build_error (build m).
Proof. unfold build_error. destruct (build m) eqn:E; [by left|]. right. split; [done|by exists m]. Qed.

Lemma step_follows fuel : follows (fun x s => x = inr tt /\ build_failed s) (recover_step (F := F) user options_ fine fuel tt) (recover_step user options_ build fuel tt).
Proof.
  unfold recover_step. apply follows_bind. intros [record|]; [|apply follows_refl]. destruct (_ <? 12); [apply follows_refl|].
  apply follows_bind. intros batch. apply follows_bind. intros s0. apply follows_bind. intros mem0. apply follows_bind. intros [status mem].
  do 2 (apply follows_bind; intros _). destruct (negb _); [apply follows_refl|]. do 2 (apply follows_bind; intros ?). apply follows_bind. intros _.
  destruct (_ <? ApproximateMemoryUsage mem); [|apply follows_refl]. apply follows_bind. intros _. intros s w x s1 w1. unfold WriteLevel0Table.
  destruct (build_cases mem) as [->|[Hb Hm]]; [by left|]. unfold bind, modify, on_table. cbn [ret]. destruct (Unref mem w) as [u m' w'| | |]; [|done..]. intros _. right.
  rewrite Hb. eexists _, _, _. split; [reflexivity|]. split; [done|]. by split.
Qed.

Lemma loop_follows fuel n : follows (fun _ s => build_failed s) (loop n (recover_step (F := F) user options_ fine fuel) tt) (loop n (recover_step user options_ build fuel) tt).
Proof.
  induction n as [|n IH]; [by intros s w x s1 w1|]. cbn [loop]. eapply follows_seq; [apply step_follows| |].
  - intros [[]|[]]; [exact IH|apply follows_refl].
  - intros a s w [-> Hb]. by exists tt, s, w.
Qed.

Lemma finish_follows number last_log reopened :
  follows (fun x _ => build_error x) (finish_log (F := F) (G := G) options_ fine number last_log reopened) (finish_log options_ build number last_log reopened).
Proof.
  unfold finish_log. do 3 (apply follows_bind; intros ?). destruct (rec_mem _) as [mem|]; [|apply follows_refl].
  destruct (ok (rec_status _)); [|apply follows_refl].
  intros s w x s1 w1. unfold WriteLevel0Table. destruct (build_cases mem) as [->|Hb]; [by left|]. unfold bind, modify, on_table. cbn [ret].
  destruct (Unref mem w) as [u m' w'| | |]; [|done..]. intros _. right. eexists _, _, _. split; [reflexivity|]. exact Hb.
Qed.

(** Once a table could not be built nothing else happens. *)
Lemma finish_failed number last_log reopened (s : LR) w : build_failed s -> finish_log options_ build number last_log reopened s w = Ok (rec_status s) s w.
Proof. intros [[Hb _] Hm]. unfold finish_log, bind, get. rewrite Hb. cbn. by rewrite Hm. Qed.

Lemma file_follows fuel number last_log file reopened :
  follows (fun x _ => build_error x) (RecoverLogFile (F := F) user options_ fine fuel number last_log file reopened) (RecoverLogFile user options_ build fuel number last_log file reopened).
Proof.
  intros r w x r1 w1. unfold RecoverLogFile. destruct file as [status f]. destruct (negb (ok status)); [by left|]. set (s := mk_log_recovery _ _ _ _ _).
  pose proof (follows_seq (fun _ s => build_failed s) (fun x _ => build_error x) _ _ (fun _ => finish_log (F := F) options_ fine number last_log reopened) (fun _ => finish_log options_ build number last_log reopened)
    (loop_follows fuel fuel) (fun _ => finish_follows number last_log reopened)) as Hf.
  destruct (bind (loop fuel (recover_step user options_ fine fuel) tt) _ s w) as [e s1 w2| | |] eqn:E; [|done..]. intros [= <- <- <-].
  destruct (Hf ltac:(intros [] s2 w3 Hb; exists (rec_status s2), s2, w3; split; [by apply finish_failed|apply Hb]) s w e s1 w2 E) as [->|(x' & s2 & w3 & -> & Hb)]; [by left|right].
  by exists x', (recovery s2), w3.
Qed.

Lemma logs_follows fuel logs : follows (fun x _ => build_error x) (recover_logs (F := F) (G := G) user options_ fine fuel logs) (recover_logs user options_ build fuel logs).
Proof.
  induction logs as [|l logs IH]; cbn [recover_logs]; [apply follows_refl|]. eapply follows_seq; [apply file_follows| |].
  - intros s. destruct (negb (ok s)); [apply follows_refl|]. apply follows_bind. by intros _.
  - intros s r w [Hs Hm]. rewrite Hs. cbn [negb]. exists s, r, w. by split.
Qed.

(** [Recover] either does what it would do if every table could be built, or returns the error of
    one that could not. *)
Lemma recover_follows fuel v dir w r w' : Recover (F := F) (G := G) user options_ fine fuel v dir tt w = Ok (OK, r) tt w' ->
  Recover user options_ build fuel v dir tt w = Ok (OK, r) tt w' \/ exists e r2 w2, Recover (F := F) user options_ build fuel v dir tt w = Ok (e, r2) tt w2 /\ build_error e.
Proof.
  unfold Recover. set (logs := merge_sort _ _). destruct (recover_logs user options_ fine fuel logs _ w) as [s r1 w1| | |] eqn:E; [|done..].
  destruct (logs_follows fuel logs _ _ _ _ _ E) as [->|(x' & r2 & w2 & -> & Hb)]; [by left|]. intros _. right. pose proof Hb as [Hs _]. rewrite Hs. cbn [negb]. by exists x', r2, w2.
Qed.

End build.

(** * Crashes *)

Section crash.
Context `{Placement} {F G : Type} `{WritableLaws F} `{!SyncFile F} `{!SyncLaws F} `{SequentialLaws G} {user : Comparator} {laws : ComparatorLaws}.
Context (write_buffer_size : Z) (options_ : RecoveryOptions) (build : MemTable -> Status).

Notation DB := (DBImpl F).

(** The logs of the database, oldest first. *)
Definition log_files (d : DB) : list (Z * F) := disk d ++ [(logfile_number_ d, dest (log_ d))].

(** What the manifest says after the crash; the tables in its files are not counted. *)
Definition manifest (d : DB) (v : VersionSet) : Prop :=
  log_number_ v = log_number_ (versions_ d) /\ prev_log_number_ v = 0 /\ last_sequence_ v <= last_sequence_ (versions_ d) /\ tables v = [].

Definition left_over (full : bool) (x : Z * F) (l : LogFile F G) : Prop := lf_number l = x.1 /\ exists g, lf_file l = (OK, g) /\ crashed full x.2 g.

(** The attempts in the logs are numbered one after the other, and fit. *)
Lemma logged_ok seq files cs gs q (d : DB) w g0 g1 g2 Y : db_inv seq files cs gs q d w -> budget seq cs -> gs = g0 ++ g1 ++ g2 -> in_flight d q Y -> last_sequence_ (versions_ d) = seq - 1 + total gs ->
  let A1 := attempts (seq + total g0) g1 in let A2 := attempts (seq + total g0 + total g1) g2 ++ Y in
  Forall attempt_ok A1 /\ Forall attempt_ok A2 /\ ascending (all_versions (A1 ++ A2)) /\ (length (log_of A1) <= log_bytes cs)%nat /\ (length (log_of A2) <= log_bytes cs)%nat.
Proof.
  intros [HQ _] [Hb1 Hb2] -> HY Hseq. cbn zeta. destruct (queue_objects _ _ _ _ HQ) as [Hq _]. pose proof (q_ok _ _ _ _ HQ) as Hok. rewrite (q_calls _ _ _ _ HQ) in Hok. pose proof (q_group _ _ _ _ HQ) as Hgr.
  rewrite !total_app in Hseq. pose proof (total_nonneg g0). pose proof (total_nonneg g1). pose proof (total_nonneg g2). pose proof (total_calls (g0 ++ g1 ++ g2)) as Htc. rewrite !total_app in Htc.
  pose proof (budget_queue _ _ _ _ HQ) as Hbq. pose proof (count_nonneg q) as Hcq. apply Forall_app in Hok as [Hok _].
  assert (Hall : Forall (fun g => Forall call_ok (members g) /\ count_updates (members g) < 2 ^ 31) (g0 ++ g1 ++ g2)).
  { apply Forall_forall. intros g Hg. split; [|by apply Hgr]. apply Forall_forall. intros c Hc. rewrite Forall_forall in Hok. apply Hok. by eapply in_calls. }
  apply Forall_app in Hall as [_ Hall]. apply Forall_app in Hall as [Hall1 Hall2].
  assert (HY' : Forall attempt_ok Y /\ Forall (fun v => seq + total g0 + total g1 + total g2 <= v_seq v) (all_versions Y) /\ ascending (all_versions Y) /\
    (sum_list_with (fun d => 14 * length d + 26) (rep_of <$> Y) <= log_bytes q)%nat).
  { destruct HY as [->|(ms & rest & y & s & -> & Hne & Hn & ->)]; [repeat split; try constructor; cbn; lia|]. apply Forall_app in Hq as [Hms _]. rewrite !count_updates_app in *. pose proof (count_nonneg rest).
    unfold all_versions. cbn [fmap list_fmap mjoin list_join a_seq a_updates]. rewrite app_nil_r. split; [|split; [|split; [apply versions_of_ascending|]]].
    - constructor; [|constructor]. unfold attempt_ok. cbn. unfold count_updates in *. split; [by apply group_keys|]. lia.
    - eapply Forall_impl; [apply versions_of_range|]. cbn. lia.
    - rewrite log_bytes_app. cbn [sum_list_with]. unfold rep_of. cbn [a_seq a_updates]. pose proof (group_bytes (last_sequence_ (versions_ d) + 1) ms Hne). lia. }
  destruct HY' as (HYok & HYr & HYa & HYb). assert (Hne : Forall (fun g => members g <> []) (g0 ++ g1 ++ g2)) by (apply Forall_forall; intros g Hg; by apply Hgr).
  apply Forall_app in Hne as [_ Hne]. apply Forall_app in Hne as [Hne1 Hne2]. assert (Hbound : forall gs' seq' Y', Forall (fun g => members g <> []) gs' -> (length (log_of (attempts seq' gs' ++ Y')) <=
    log_bytes (calls_in gs') + sum_list_with (fun d => 14 * length d + 26) (rep_of <$> Y'))%nat).
  { intros gs' seq' Y' Hg. unfold log_of. etrans; [apply records_bytes_bound; unfold kBlockSize; lia|]. by apply attempts_bytes. }
  rewrite (q_calls _ _ _ _ HQ), !calls_in_app, !log_bytes_app. split; [apply attempts_ok; [done|lia|lia]|]. split; [apply Forall_app; split; [apply attempts_ok; [done|lia|lia]|done]|]. split; [|split].
  - rewrite app_assoc, <- attempts_app, all_versions_app. apply (ascending_app _ _ (seq + total g0 + total g1 + total g2)); [apply all_versions_ascending|done| |done].
    eapply Forall_impl; [apply all_versions_range|]. cbn. rewrite total_app. lia.
  - pose proof (Hbound g1 (seq + total g0) [] Hne1) as Hb. rewrite app_nil_r in Hb. cbn [fmap list_fmap sum_list_with] in Hb. lia.
  - pose proof (Hbound g2 (seq + total g0 + total g1) Y Hne2). lia.
Qed.

(** What the crash leaves of the logs, and how much of them is read. *)
Lemma left_logs seq files cs gs X Y (d : DB) w full kept fuel : data_ok seq files gs X Y d w -> Forall2 (left_over full) (log_files d) kept -> Z.of_nat (log_bytes cs) < 2 ^ 64 -> (log_bytes cs + 1 < fuel)%nat ->
  forall g0 g1 g2, gs = g0 ++ g1 ++ g2 ->
  let A1 := attempts (seq + total g0) g1 in let A2 := attempts (seq + total g0 + total g1) g2 ++ Y in
  match db_imm d with
  | Some m => exists n f, disk d = [(n, f)] /\ log_state f A1 /\ log_number_ (versions_ d) <= n < logfile_number_ d
  | None => g1 = [] /\ disk d = []
  end -> writer_state (log_ d) A2 -> sound A1 -> sound A2 ->
  Forall attempt_ok A1 -> Forall attempt_ok A2 -> (length (log_of A1) <= log_bytes cs)%nat -> (length (log_of A2) <= log_bytes cs)%nat ->
  exists xs m1 m2, Forall2 (log_left fuel) kept xs /\ mjoin (fst <$> xs) = A1 ++ A2 /\ mjoin (read_from <$> xs) = take m1 A1 ++ take m2 A2 /\ keeps full A1 m1 /\ keeps full A2 m2 /\
    Forall (fun l => log_number_ (versions_ d) <= lf_number l) kept /\ ((exists a, kept = [a]) \/ (exists a b, kept = [a; b] /\ lf_number a < lf_number b)).
Proof.
  intros Hd Hkept Hsz Hfuel g0 g1 g2 _ A1 A2 Himm [Hlog _] Hs1 Hs2 HA1 HA2 Hl1 Hl2. pose proof (d_numbers _ _ _ _ _ _ _ Hd) as Hnum. unfold log_files in Hkept.
  assert (Hleft : forall f g A, log_state f A -> sound A -> crashed full f g -> Forall attempt_ok A -> (length (log_of A) <= log_bytes cs)%nat ->
    exists k, keeps full A (left_of A k) /\ forall l : LogFile F G, lf_file l = (OK, g) -> log_left fuel l (A, k)).
  { intros f g A Hst Hsnd Hc HA Hl. destruct (crashed_log full f g A Hst Hsnd Hc) as (k & Hg & Hk). exists k. split; [done|]. intros l El. exists g. split; [done|]. split; [done|]. split; [change (Z.of_nat (length (log_of A)) < 2 ^ 64); lia|]. split; [change (length (log_of A) + 1 < fuel)%nat; lia|done]. }
  destruct (db_imm d) as [m|].
  - destruct Himm as (n & f & Hdisk & Hst & Hn). rewrite Hdisk in Hkept. cbn [app] in Hkept. inversion Hkept as [|? l1 ? ? [En1 (g & El1 & Hc1)] Hk2]; subst. inversion Hk2 as [|? l2 ? ? [En2 (g' & El2 & Hc2)] Hk3]; subst. inversion Hk3; subst.
    destruct (Hleft _ _ A1 Hst Hs1 Hc1 HA1 Hl1) as (k1 & Hk1 & Hx1). destruct (Hleft _ _ A2 Hlog Hs2 Hc2 HA2 Hl2) as (k2 & Hk2' & Hx2). exists [(A1, k1); (A2, k2)], (left_of A1 k1), (left_of A2 k2).
    split; [constructor; [by apply Hx1|constructor; [by apply Hx2|constructor]]|]. cbn in En1, En2. cbn. rewrite !app_nil_r. do 4 (split; [done|]). split; [constructor; [lia|constructor; [lia|constructor]]|].
    right. exists l1, l2. split; [done|lia].
  - destruct Himm as [Eg Hdisk]. rewrite Hdisk in Hkept. cbn [app] in Hkept. inversion Hkept as [|? l2 ? ? [En2 (g' & El2 & Hc2)] Hk3]; subst. inversion Hk3; subst.
    destruct (Hleft _ _ A2 Hlog Hs2 Hc2 HA2 Hl2) as (k2 & Hk2' & Hx2). exists [(A2, k2)], 0%nat, (left_of A2 k2).
    split; [constructor; [by apply Hx2|constructor]|]. cbn in En2. cbn. rewrite !app_nil_r. do 2 (split; [done|]). split; [by intros i a Hi|]. split; [done|]. split; [constructor; [lia|constructor]|].
    left. by exists l2.
Qed.

(** C5: nothing that was acknowledged is lost.  Writers and the background thread run in any
    order, any call on a file may fail - also once, with later calls that succeed; only an Append of up to
    six bytes to an empty buffer may not - and then the
    process or the machine dies, at any moment, in the middle of a write as well.  The logs that
    are left to recover from are that of the older table, with the groups [older], and the
    current one, with [current] and perhaps the group [Y] that is being written.  If on each of
    them nothing was written behind a group that failed ([sound]: Write does go on after an
    AddRecord that failed, and [failed_append_forgotten] shows what is lost then), opening the
    database again - with the logs in any order, among older ones that were not deleted - reads
    them without an error and gives back, in the order in which they were written, a prefix
    of the groups of the older log and a prefix of those of the current one, a group as a whole
    or not at all.  If only the process died, every group that was acknowledged is there; if
    the machine did, every one that was synced - and a call that asked for a sync is in such
    a group.  The last sequence number is that of the last update that was found.  Only
    if BuildTable fails for a table, Recover returns its error instead. *)
Theorem crash_recovery v lfile w es cs d0 w0 d1 w1 : run_of v lfile es cs w -> Open v lfile OK tt w = Ok (inr d0) tt w0 -> steps user write_buffer_size es d0 w0 = Ok tt d1 w1 -> Z.of_nat (log_bytes cs) < 2 ^ 64 ->
  exists gs flushed older current Y, serial (last_sequence_ v + 1) cs gs d1 w1 /\ gs = flushed ++ older ++ current /\
    (exists vss, mjoin vss = committed (last_sequence_ v + 1) flushed /\ Forall2 (fun vs m => holds vs m w1) vss (tables (versions_ d1))) /\ (forall g, g ∈ gs -> members g <> []) /\ (length Y <= 1)%nat /\
    let A1 := attempts (last_sequence_ v + 1 + total flushed) older in
    let A2 := attempts (last_sequence_ v + 1 + total flushed + total older) current ++ Y in
    sound A1 -> sound A2 -> forall full kept stale dir v2 w2 fuel, manifest d1 v2 -> Forall2 (left_over full) (log_files d1) kept -> dir ≡ₚ kept ++ stale ->
      Forall (fun l => lf_number l < log_number_ v2 /\ lf_number l <> 0) stale -> heap_ok w2 -> (log_bytes cs + 1 < fuel)%nat ->
      exists e r w3, Recover user options_ build fuel v2 dir tt w2 = Ok (e, r) tt w3 /\
        (build_error build e \/ e = OK /\ exists m1 m2,
          recovered_tables (all_versions (take m1 A1 ++ take m2 A2)) r w3 /\ keeps full A1 m1 /\ keeps full A2 m2 /\
          last_sequence_ (rec_versions r) = Z.max (last_sequence_ v2) (last_number 0 (take m1 A1 ++ take m2 A2))).
Proof.
  intros Hrun Eo Es Hsz. destruct (run_ok_inv write_buffer_size _ _ _ _ _ Hrun) as (d0' & w0' & Eo' & Hwp). rewrite Eo in Eo'. injection Eo' as <- <-. unfold wp in Hwp. rewrite Es in Hwp.
  destruct Hwp as [(gs & q & _ & Hinv) _]. destruct Hrun as [(_ & Hs0 & _) _ _ _ _ _ Hbud _]. pose proof (inv_serial _ _ _ _ _ _ _ Hinv) as Hser.
  destruct (front_data _ _ _ _ _ _ (proj2 Hinv)) as (X & Y & Hd & _ & HY). pose proof Hd as [(g0 & g1 & g2 & Eg & He) Hseq _ _]. cbn zeta in He. destruct He as (Htab & Himm & _ & Hlog).
  exists gs, g0, g1, g2, Y. split; [done|]. split; [done|]. split; [exact Htab|]. split; [intros g Hg; by apply (q_group _ _ _ _ (proj1 Hinv))|]. split; [destruct HY as [->|(ms & rest & y & s & _ & _ & _ & ->)]; cbn; lia|].
  intros A1 A2 Hs1 Hs2 full kept stale dir v2 w2 fuel (Hln & Hprev & Hls & Htab2) Hkept Hdir Hstale Hh Hfuel.
  destruct (logged_ok _ _ _ _ _ _ _ g0 g1 g2 Y Hinv ltac:(split; lia) Eg HY Hseq) as (HA1 & HA2 & Hasc & Hl1 & Hl2).
  assert (Himm' : match db_imm d1 with Some m => exists n f, disk d1 = [(n, f)] /\ log_state f A1 /\ log_number_ (versions_ d1) <= n < logfile_number_ d1 | None => g1 = [] /\ disk d1 = [] end) by (destruct (db_imm d1); by destruct Himm).
  destruct (left_logs _ _ cs gs X Y d1 w1 full kept fuel Hd Hkept Hsz Hfuel g0 g1 g2 Eg Himm' Hlog Hs1 Hs2 HA1 HA2 Hl1 Hl2) as (xs & m1 & m2 & Hxs & Efst & Eread & Hk1 & Hk2 & Hnums & Hcase).
  destruct (recover_ok options_ (fun _ => OK) (fun _ => eq_refl) fuel v2 dir kept stale xs w2 Hxs Hdir Hprev Htab2) as (r & w3 & E & Htab3 & Hls3); [by rewrite Hln|done|done|done|by rewrite Efst|].
  rewrite Eread in Htab3, Hls3. destruct (recover_follows user options_ build fuel v2 dir w2 r w3 E) as [E'|(e & r' & w' & E' & Hb)].
  - exists OK, r, w3. split; [exact E'|]. right. split; [done|]. by exists m1, m2.
  - exists e, r', w'. split; [exact E'|by left].
Qed.

End crash.

(** Groups that succeeded, and an attempt that may not. *)
Lemma attempts_sound gs Y : (forall g, g ∈ gs -> ok (outcome g) = true) -> (length Y <= 1)%nat -> forall seq, sound (attempts seq gs ++ Y).
Proof.
  intros Hgs HY seq i a Hi Hlt. rewrite length_app in Hlt. rewrite lookup_app_l in Hi by lia. clear Hlt HY. revert seq i Hi.
  induction gs as [|g gs IH]; intros seq i Hi; [done|]. cbn [attempts] in Hi. apply lookup_app_Some in Hi as [Hi|[_ Hi]].
  - destruct (numbered g); [|done]. apply list_lookup_singleton_Some in Hi as [_ <-]. cbn. apply Hgs. by left.
  - eapply IH; [|exact Hi]. intros g' Hg'. apply Hgs. by right.
Qed.

(** * Examples *)

Definition recovery_options : RecoveryOptions := mk_options true false 10000.
Definition table_built (m : MemTable) : Status := OK.

(** The machine dies while the log is synced: sixty bytes of it are there, and a log that was not deleted. *)
Definition old_log : LogFile posix_file (list Z) := mk_log_file 1 (OK, [1; 2; 3]) None.
Definition torn_log (d : DBImpl posix_file) : LogFile posix_file (list Z) := mk_log_file (logfile_number_ d) (OK, take 60 (LdbEnv.contents (dest (log_ d)))) None.
Definition old_manifest : VersionSet := mk_versions 3 6 2 0 0 false [].

#[local] Instance somewhere_else : Placement := fun _ => 1001.

(** Where the four threads stand: the fourth is syncing the log. *)
Definition standing (d : DBImpl posix_file) (c : call) : option (option stage * option Status) :=
  Some (threads d !! c_id c, w_status <$> (writer_objects d !! c_id c)).

Lemma four_fine d1 w1 : after (first_events ++ more_events) = Some (d1, w1) -> forall c s, c ∈ four_calls -> finished d1 s c -> s = OK.
Proof.
  intros E1 c s Hc Hf. assert (Es : forallb (fun c => match standing d1 c with Some (Some (Returned OK), _) | Some (Some Waiting, Some OK) | Some (Some (Syncing _ _ _), _) => true | _ => false end) four_calls = true).
  { assert (E : (fun x => forallb (fun c => match standing x.1 c with Some (Some (Returned OK), _) | Some (Some Waiting, Some OK) | Some (Some (Syncing _ _ _), _) => true | _ => false end) four_calls) <$> after (first_events ++ more_events) = Some true) by (vm_compute; reflexivity).
    rewrite E1 in E. by injection E. }
  rewrite forallb_forall in Es. specialize (Es c (proj1 (list_elem_of_In _ _) Hc)). unfold standing in Es. destruct Hf as [[Et Ho]|[Et (o & Ho & _ & Hs & _)]]; rewrite Et in Es; cbn in Es.
  - by destruct s.
  - rewrite Ho in Es. cbn in Es. subst s. by destruct (w_status o).
Qed.

Lemma crash_recovery_witness : exists d1 w1, after (first_events ++ more_events) = Some (d1, w1) /\
  exists e r w3, Recover bytewise recovery_options table_built 3000 old_manifest [torn_log d1; old_log] tt example_world = Ok (e, r) tt w3 /\
    (build_error table_built e \/ e = OK /\ exists vs, recovered_tables (user := bytewise) vs r w3 /\ 6 <= last_sequence_ (rec_versions r)).
Proof.
  destruct (after (first_events ++ more_events)) as [[d1 w1]|] eqn:E1; [|vm_compute in E1; discriminate]. destruct (after_open _ _ _ E1) as (d0 & w0 & Eo & Es). exists d1, w1. split; [reflexivity|].
  assert (En : (fun x => (log_number_ (versions_ x.1), last_sequence_ (versions_ x.1), disk x.1, (durable (dest (log_ x.1)) <=? 60)%nat)) <$> after (first_events ++ more_events) = Some (2, 10, [], true)) by (vm_compute; reflexivity).
  rewrite E1 in En. injection En as Eln Els Edisk Ew.
  destruct (crash_recovery (G := list Z) 10000 recovery_options table_built old_version new_file example_world (first_events ++ more_events) four_calls d0 w0 d1 w1)
    as (gs & flushed & older & current & Y & Hser & Eg & _ & Hne & HY & Hrec).
  - apply example_run; [|exact all_files|vm_compute; lia|vm_compute; reflexivity]. rewrite <- (app_nil_r four_calls). apply asked_app; [exact first_asked|exact more_asked].
  - exact Eo.
  - exact Es.
  - vm_compute. reflexivity.
  - assert (Hok : forall g, g ∈ gs -> ok (outcome g) = true).
    { intros g Hg. destruct (members g) as [|c ms] eqn:Em; [by destruct (Hne g Hg)|]. assert (Hc : c ∈ members g) by (rewrite Em; left).
      rewrite (four_fine _ _ E1 c (outcome g)); [reflexivity| |by apply (s_status _ _ _ _ _ Hser)]. destruct (s_order _ _ _ _ _ Hser) as (q & -> & _). apply elem_of_app. left. by eapply in_calls. }
    cbn zeta in Hrec. rewrite Eg in Hok.
    assert (Hs1 : forall seq, sound (attempts seq older)).
    { intros seq. rewrite <- (app_nil_r (attempts seq older)). apply attempts_sound; [|cbn; lia]. intros g Hg. apply Hok. rewrite !elem_of_app. tauto. }
    assert (Hs2 : forall seq, sound (attempts seq current ++ Y)) by (apply attempts_sound; [|exact HY]; intros g Hg; apply Hok; rewrite !elem_of_app; tauto).
    destruct (Hrec (Hs1 _) (Hs2 _) false [torn_log d1] [old_log] [torn_log d1; old_log] old_manifest example_world 3000%nat) as (e & r & w3 & E & Hcase).
    + split; [symmetry; exact Eln|]. split; [reflexivity|]. split; [rewrite Els; vm_compute; discriminate|reflexivity].
    + unfold log_files. rewrite Edisk. constructor; [|constructor]. split; [reflexivity|]. eexists. split; [reflexivity|]. exists 60%nat. split; [reflexivity|]. split; [by apply Nat.leb_le|discriminate].
    + reflexivity.
    + constructor; [|constructor]. split; [reflexivity|discriminate].
    + exact example_heap.
    + vm_compute. lia.
    + exists e, r, w3. split; [exact E|]. destruct Hcase as [Hb|(-> & m1 & m2 & Htab & _ & _ & Hl)]; [by left|right]. split; [reflexivity|]. eexists. split; [exact Htab|]. rewrite Hl. cbn [last_sequence_ old_manifest]. lia.
Defined.

(** ** A failure that is forgotten *)

(** The first call of [write] for this file writes five bytes and the second one fails; the
    others succeed. *)
Definition torn_new : Status * posix_file := (OK, new_posix "000003.log" [Wrote 5; WriteError false "No space left on device"] []).

(** A write whose record the log does not take, and then one that asks for a sync. *)
Definition torn_events : list (event posix_file) :=
  [EWrite 1 (Some (batch_rep 0 [UPut [1] [10]])) false torn_new; ERun 1 torn_new; ERun 1 torn_new;
   EWrite 2 (Some (batch_rep 0 [UPut [2] [20]])) true torn_new; ERun 2 torn_new; ERun 2 torn_new; ERun 2 torn_new; ERun 2 torn_new].

Definition torn_end : option (DBImpl posix_file * world) :=
  match Open old_version torn_new OK tt example_world with
  | Ok (inr d) _ w => match steps bytewise 10000 torn_events d w with Ok _ d w => Some (d, w) | _ => None end
  | _ => None
  end.

(** Both statuses, what the table in memory has of the second key, and the status, the tables and
    the last number of a recovery from the whole log. *)
Definition torn_outcome (x : DBImpl posix_file * world) : option (option stage * option stage * option (list Z + Status) * (Status * list MemTable * Z)) :=
  let (d, w) := x in
  match new_LookupKey [2] (last_sequence_ (versions_ d)) with
  | Some lkey =>
      match Get bytewise lkey (db_mem d) w, Recover (F := posix_file) bytewise (mk_options false false 10000) table_built 100 old_manifest [mk_log_file (logfile_number_ d) (OK, LdbEnv.contents (dest (log_ d))) None] tt example_world with
      | Ok g _ _, Ok (s, r) _ _ => Some (threads d !! 1, threads d !! 2, g, (s, tables (rec_versions r), last_sequence_ (rec_versions r)))
      | _, _ => None
      end
  | None => None
  end.

(** Write puts the database into its error state only when Sync fails.  If the call of [write]
    for a record fails once, in the middle of the record, that write is refused, but later ones
    are acknowledged, even synced, and readable - and recovery from the undamaged file finds none
    of them, and returns OK. *)
Example failed_append_forgotten :
  torn_end ≫= torn_outcome = Some (Some (Returned (IOError "000003.log: No space left on device")), Some (Returned OK), Some (inl [20]), (OK, [], 6)).
Proof. vm_compute. reflexivity. Qed.
