(* ===== verification/LdbBlock.v ===== *)
(** LevelDB's blocks of sorted entries: table/block_builder.h, table/block_builder.cc,
    table/block.h and table/block.cc.

    Keys are compressed by the prefix they share with the key before, except at the restart
    points, whose offsets follow the entries.  The computations own the builder or the
    iterator; [UB] is a failed assertion or a read outside the block. *)
From stdpp Require Import base list strings numbers option.
From Stdlib Require Import ZArith Lia.
From S2P Require Import Prelude Cmem LdbCoding LdbEnv LdbComparator.

(** * BlockBuilder *)

Section builder.
Context `{Comparator} (block_restart_interval : Z).

Record BlockBuilder := mk_builder {
  buffer_ : list Z;
  restarts_ : list Z;
  counter_ : Z;
  finished_ : bool;
  last_key_ : list Z;
}.

Definition new_BlockBuilder : BlockBuilder := mk_builder [] [0] 0 false [].

Definition Reset : SM BlockBuilder unit := modify (fun _ => mk_builder [] [0] 0 false []).

Definition CurrentSizeEstimate (b : BlockBuilder) : Z :=
  size (buffer_ b) + Z.of_nat (length (restarts_ b)) * 4 + 4.

Definition empty (b : BlockBuilder) : bool := size (buffer_ b) =? 0.

Definition Finish : SM BlockBuilder (list Z) :=
  let* b := get in
  let buffer := fold_left PutFixed32 (restarts_ b) (buffer_ b) in
  let buffer := PutFixed32 buffer (u32 (Z.of_nat (length (restarts_ b)))) in
  put (mk_builder buffer (restarts_ b) (counter_ b) true (last_key_ b));;
  ret buffer.

Definition Add (key value : list Z) : SM BlockBuilder unit :=
  let* b := get in
  let last_key_piece := last_key_ b in
  assert_ (negb (finished_ b));;
  assert_ (counter_ b <=? block_restart_interval);;
  (if empty b then ret tt else let* c := must (Compare key last_key_piece) in assert_ (0 <? c));;
  let restart := negb (counter_ b <? block_restart_interval) in
  let shared :=
    if restart then O
    else common_prefix (Nat.min (length last_key_piece) (length key)) last_key_piece key in
  let restarts := if restart then restarts_ b ++ [u32 (size (buffer_ b))] else restarts_ b in
  let counter := if restart then 0 else counter_ b in
  let non_shared := size key - Z.of_nat shared in
  let buffer := PutVarint32 (buffer_ b) (u32 (Z.of_nat shared)) in
  let buffer := PutVarint32 buffer (u32 non_shared) in
  let buffer := PutVarint32 buffer (u32 (size value)) in
  let buffer := buffer ++ drop shared key ++ value in
  let last_key := take shared last_key_piece ++ drop shared key in
  assert_ (slice_eq last_key key);;
  put (mk_builder buffer restarts (counter + 1) (finished_ b) last_key).

End builder.

(** * Block *)

Record Block := mk_block { data_ : list Z; size_ : Z; restart_offset_ : Z }.

(** [data_ + size_ - sizeof(uint32_t)] *)
Definition num_restarts_at (data : list Z) (size : Z) : option Z :=
  if 4 <=? size then DecodeFixed32 (drop (Z.to_nat (size - 4)) data) else None.

Definition NumRestarts (b : Block) : option Z := num_restarts_at (data_ b) (size_ b).

(** The constructor; [None] only if a read leaves the contents. *)
Definition new_Block (contents : list Z) : option Block :=
  let n := size contents in
  if n <? 4 then Some (mk_block contents 0 0)
  else
    match num_restarts_at contents n with
    | Some num =>
        let max_restarts_allowed := (n - 4) / 4 in
        if max_restarts_allowed <? num then Some (mk_block contents 0 0)
        else Some (mk_block contents n (u32 (n - u32 (1 + num) * 4)))
    | None => None
    end.

(** Offsets in the block stand for pointers.  The result is the three lengths and the
    offset of the key. *)
Definition DecodeEntry (data : list Z) (p limit : Z) : option (Z * Z * Z * Z) :=
  if limit - p <? 3 then None
  else
    let l := take (Z.to_nat (limit - p)) (drop (Z.to_nat p) data) in
    let b i := nth i l 0 in
    let lengths :=
      if Z.lor (Z.lor (b 0%nat) (b 1%nat)) (b 2%nat) <? 128 then Some (b 0%nat, b 1%nat, b 2%nat, drop 3 l)
      else
        match GetVarint32Ptr l with
        | Some (shared, l) =>
            match GetVarint32Ptr l with
            | Some (non_shared, l) =>
                match GetVarint32Ptr l with
                | Some (value_length, l) => Some (shared, non_shared, value_length, l)
                | None => None
                end
            | None => None
            end
        | None => None
        end in
    match lengths with
    | Some (shared, non_shared, value_length, l) =>
        if u32 (size l) <? u32 (non_shared + value_length) then None
        else Some (shared, non_shared, value_length, limit - size l)
    | None => None
    end.

Section iterator.
Context `{Comparator}.

(** [value_] is an offset and a length, or the empty slice outside the block; [data] is the
    memory of the block. *)
Record Iter := mk_iter {
  data : list Z;
  restarts : Z;
  num_restarts : Z;
  current_ : Z;
  restart_index_ : Z;
  key_ : list Z;
  value_ : option (Z * Z);
  status_ : Status;
}.

Definition set_current n (i : Iter) := mk_iter (data i) (restarts i) (num_restarts i) n (restart_index_ i) (key_ i) (value_ i) (status_ i).
Definition set_restart_index n (i : Iter) := mk_iter (data i) (restarts i) (num_restarts i) (current_ i) n (key_ i) (value_ i) (status_ i).
Definition set_key k (i : Iter) := mk_iter (data i) (restarts i) (num_restarts i) (current_ i) (restart_index_ i) k (value_ i) (status_ i).
Definition set_value v (i : Iter) := mk_iter (data i) (restarts i) (num_restarts i) (current_ i) (restart_index_ i) (key_ i) v (status_ i).
Definition set_status s (i : Iter) := mk_iter (data i) (restarts i) (num_restarts i) (current_ i) (restart_index_ i) (key_ i) (value_ i) s.

Definition new_Iter (data : list Z) (restarts num_restarts : Z) : option Iter :=
  if 0 <? num_restarts then Some (mk_iter data restarts num_restarts restarts num_restarts [] None OK) else None.

(** The bytes of a slice of the block, if it is within. *)
Definition block_bytes (i : Iter) (p n : Z) : option (list Z) :=
  if (0 <=? p) && (p + n <=? size (data i)) then Some (take (Z.to_nat n) (drop (Z.to_nat p) (data i))) else None.

Definition Valid (i : Iter) : bool := current_ i <? restarts i.
Definition status (i : Iter) : Status := status_ i.
Definition key : SM Iter (list Z) := let* i := get in assert_ (Valid i);; ret (key_ i).
Definition value : SM Iter (list Z) :=
  let* i := get in
  assert_ (Valid i);;
  match value_ i with Some (p, n) => must (block_bytes i p n) | None => ret [] end.

Definition NextEntryOffset : SM Iter Z :=
  let* i := get in must (option_map (fun v => u32 (fst v + snd v)) (value_ i)).

Definition GetRestartPoint (index : Z) : SM Iter Z :=
  let* i := get in
  assert_ (index <? num_restarts i);;
  let* b := must (block_bytes i (restarts i + index * 4) 4) in
  must (DecodeFixed32 b).

Definition SeekToRestartPoint (index : Z) : SM Iter unit :=
  modify (set_key []);;
  modify (set_restart_index index);;
  let* offset := GetRestartPoint index in
  modify (set_value (Some (offset, 0))).

Definition CorruptionError : SM Iter unit :=
  let* i := get in
  modify (set_current (restarts i));;
  modify (set_restart_index (num_restarts i));;
  modify (set_status (Corruption "bad entry in block"));;
  modify (set_key []);;
  modify (set_value None).

(** The loop that moves [restart_index_] up to the current entry. *)
Definition advance_step (_ : unit) : SM Iter (unit + unit) :=
  let* i := get in
  if u32 (restart_index_ i + 1) <? num_restarts i then
    let* point := GetRestartPoint (u32 (restart_index_ i + 1)) in
    if point <? current_ i then modify (set_restart_index (u32 (restart_index_ i + 1)));; ret (inl tt) else ret (inr tt)
  else ret (inr tt).

Definition ParseNextKey : SM Iter bool :=
  let* p := NextEntryOffset in
  modify (set_current p);;
  let* i := get in
  let limit := restarts i in
  if limit <=? p then
    modify (set_current (restarts i));;
    modify (set_restart_index (num_restarts i));;
    ret false
  else
    match DecodeEntry (data i) p limit with
    | None => CorruptionError;; ret false
    | Some (shared, non_shared, value_length, p) =>
        if size (key_ i) <? shared then CorruptionError;; ret false
        else
          let* delta := must (block_bytes i p non_shared) in
          modify (set_key (take (Z.to_nat shared) (key_ i) ++ delta));;
          modify (set_value (Some (p + non_shared, value_length)));;
          loop (S (Z.to_nat (num_restarts i))) advance_step tt;;
          ret true
    end.

Definition Next : SM Iter unit :=
  let* i := get in assert_ (Valid i);; let* _ := ParseNextKey in ret tt.

(** One round of the backward scan; [inr false]: no more entries. *)
Definition scan_back_step (original : Z) (_ : unit) : SM Iter (unit + bool) :=
  let* i := get in
  let* point := GetRestartPoint (restart_index_ i) in
  if original <=? point then
    if restart_index_ i =? 0 then
      modify (set_current (restarts i));;
      modify (set_restart_index (num_restarts i));;
      ret (inr false)
    else modify (set_restart_index (restart_index_ i - 1));; ret (inl tt)
  else ret (inr true).

(** [while (ParseNextKey() && NextEntryOffset() < bound)] *)
Definition skip_step (bound : Z) (_ : unit) : SM Iter (unit + unit) :=
  let* more := ParseNextKey in
  if more then
    let* next := NextEntryOffset in
    ret (if next <? bound then inl tt else inr tt)
  else ret (inr tt).

(** Every entry takes three bytes at least. *)
Definition skip_to (bound : Z) : SM Iter unit :=
  let* i := get in loop (S (Z.to_nat (restarts i))) (skip_step bound) tt.

Definition Prev : SM Iter unit :=
  let* i := get in
  assert_ (Valid i);;
  let original := current_ i in
  let* found := loop (S (Z.to_nat (num_restarts i))) (scan_back_step original) tt in
  if found then
    let* i := get in
    SeekToRestartPoint (restart_index_ i);;
    skip_to original
  else ret tt.

(** One round of the binary search; [inr None]: a corrupt entry. *)
Definition search_step (target : list Z) (lr : Z * Z) : SM Iter ((Z * Z) + option Z) :=
  let (left_, right_) := lr in
  if left_ <? right_ then
    let mid := u32 (left_ + right_ + 1) / 2 in
    let* region_offset := GetRestartPoint mid in
    let* i := get in
    match DecodeEntry (data i) region_offset (restarts i) with
    | None => CorruptionError;; ret (inr None)
    | Some (shared, non_shared, value_length, key_ptr) =>
        if negb (shared =? 0) then CorruptionError;; ret (inr None)
        else
          let* mid_key := must (block_bytes i key_ptr non_shared) in
          let* c := must (Compare mid_key target) in
          if c <? 0 then ret (inl (mid, right_)) else ret (inl (left_, mid - 1))
    end
  else ret (inr (Some left_)).

(** One round of the linear search. *)
Definition seek_step (target : list Z) (_ : unit) : SM Iter (unit + unit) :=
  let* more := ParseNextKey in
  if negb more then ret (inr tt)
  else
    let* i := get in
    let* c := must (Compare (key_ i) target) in
    ret (if 0 <=? c then inr tt else inl tt).

Definition Seek (target : list Z) : SM Iter unit :=
  let* i := get in
  let* left_ := loop (S (Z.to_nat (num_restarts i))) (search_step target) (0, num_restarts i - 1) in
  match left_ with
  | None => ret tt
  | Some left_ =>
      SeekToRestartPoint left_;;
      let* i := get in loop (S (Z.to_nat (restarts i))) (seek_step target) tt
  end.

Definition SeekToFirst : SM Iter unit := SeekToRestartPoint 0;; let* _ := ParseNextKey in ret tt.

Definition SeekToLast : SM Iter unit :=
  let* i := get in
  SeekToRestartPoint (num_restarts i - 1);;
  skip_to (restarts i).

End iterator.

(** [NewIterator]: an iterator that only has a status, or one over the entries. *)
Inductive block_iterator := ErrorIterator (s : Status) | EmptyIterator | BlockIter (i : Iter).

Definition NewIterator (b : Block) : option block_iterator :=
  if size_ b <? 4 then Some (ErrorIterator (Corruption "bad block contents"))
  else
    match NumRestarts b with
    | Some num =>
        if num =? 0 then Some EmptyIterator
        else option_map BlockIter (new_Iter (data_ b) (restart_offset_ b) num)
    | None => None
    end.
