(* ===== verification/LdbBlockIter.v ===== *)
(** The format of a block as a function of its entries, and what the decoder finds in it.

    [block_layout es points] are the bytes of the entries [es] with restart points at the
    entries of the indices [points]; [well_formed] says that the entries can be decoded. *)
From stdpp Require Import base list strings numbers option.
From Stdlib Require Import ZArith Lia.
From S2P Require Import Prelude Cmem PbWire LdbCoding LdbCodingThms LdbEnv LdbComparator LdbBlock.

Record entry := mk_entry { shared : nat; ekey : list Z; evalue : list Z }.

Definition entry_header (e : entry) : list Z :=
  EncodeVarint32 (Z.of_nat (shared e)) ++ EncodeVarint32 (size (ekey e) - Z.of_nat (shared e)) ++ EncodeVarint32 (size (evalue e)).
Definition entry_bytes (e : entry) : list Z := entry_header e ++ drop (shared e) (ekey e) ++ evalue e.
Definition entries_bytes (es : list entry) : list Z := concat (map entry_bytes es).

(** Where the entry of an index starts. *)
Definition offset (es : list entry) (i : nat) : Z := size (entries_bytes (take i es)).

Definition trailer_bytes (es : list entry) (points : list nat) : list Z :=
  concat (map (fun p => EncodeFixed32 (offset es p)) points) ++ EncodeFixed32 (Z.of_nat (length points)).
Definition block_layout (es : list entry) (points : list nat) : list Z := entries_bytes es ++ trailer_bytes es points.

(** The prefix that an entry shares is that of the key before. *)
Fixpoint chained (prev : list Z) (es : list entry) : Prop :=
  match es with
  | [] => True
  | e :: es => (shared e <= length prev)%nat /\ (shared e <= length (ekey e))%nat /\ take (shared e) prev = take (shared e) (ekey e) /\ chained (ekey e) es
  end.

Definition byte_entry (e : entry) : Prop := is_bytes (ekey e) /\ is_bytes (evalue e).

Record well_formed (es : list entry) (points : list nat) : Prop := {
  wf_chained : chained [] es;
  wf_bytes : Forall byte_entry es;
  wf_first : exists rest, points = O :: rest;
  wf_points : Forall (fun p => forall e, es !! p = Some e -> shared e = O) points;
  wf_within : Forall (fun p => (p < length es \/ p = O)%nat) points;
  wf_empty : es = [] -> points = [O];
  wf_size : size (block_layout es points) < 2 ^ 32;
}.

(** * Sizes *)

Lemma encode_varint32_pos v : 0 <= v < 2 ^ 32 -> 1 <= size (EncodeVarint32 v).
Proof.
  intros Hv. rewrite encode_varint32 by done. unfold varint. cbn [varint_groups]. unfold size. destruct (_ <? _); cbn [length]; lia.
Qed.

Lemma entries_bytes_app es1 es2 : entries_bytes (es1 ++ es2) = entries_bytes es1 ++ entries_bytes es2.
Proof. unfold entries_bytes. by rewrite map_app, concat_app. Qed.

Lemma entry_size e : size (entry_bytes e) = size (entry_header e) + size (drop (shared e) (ekey e)) + size (evalue e).
Proof. unfold entry_bytes. rewrite !size_app. lia. Qed.

Lemma offset_succ es i e : es !! i = Some e -> offset es (S i) = offset es i + size (entry_bytes e).
Proof.
  intros He. unfold offset. rewrite (take_S_r _ _ _ He), entries_bytes_app, size_app. unfold entries_bytes at 2. cbn. by rewrite app_nil_r.
Qed.

Lemma split_at es i e : es !! i = Some e -> entries_bytes es = entries_bytes (take i es) ++ entry_bytes e ++ entries_bytes (drop (S i) es).
Proof.
  intros He. rewrite <- (take_drop_middle es i e He) at 1. rewrite entries_bytes_app. done.
Qed.

Lemma offset_end es : offset es (length es) = size (entries_bytes es).
Proof. unfold offset. by rewrite take_ge. Qed.

Lemma chained_at es : forall prev i e, chained prev es -> es !! i = Some e ->
  (shared e <= length (ekey e))%nat /\ (forall e', es !! S i = Some e' -> (shared e' <= length (ekey e))%nat /\ take (shared e') (ekey e) = take (shared e') (ekey e')).
Proof.
  induction es as [|e0 es IH]; intros prev [|i] e Hc He; cbn in *; try done.
  - injection He as <-. destruct Hc as (H1 & H2 & H3 & H4). split; [done|]. intros e' He'. destruct es as [|e1 es]; [done|]. cbn in *.
    injection He' as <-. tauto.
  - eapply IH; [apply Hc|done].
Qed.

Lemma entries_cons e es : entries_bytes (e :: es) = entry_bytes e ++ entries_bytes es.
Proof. done. Qed.

Lemma drop_size e : (shared e <= length (ekey e))%nat -> size (drop (shared e) (ekey e)) = size (ekey e) - Z.of_nat (shared e).
Proof. intros Hs. unfold size. rewrite length_drop. lia. Qed.

(** A key is not longer than the bytes so far. *)
Lemma key_bound es : forall prev i e, chained prev es -> es !! i = Some e -> size (ekey e) <= size prev + offset es (S i).
Proof.
  induction es as [|e0 es IH]; intros prev [|i] e Hc He; cbn in He; try done; destruct Hc as (H1 & H2 & H3 & H4); unfold offset; rewrite firstn_cons, entries_cons, size_app, entry_size, drop_size by done;
    pose proof (size_nonneg (entry_header e0)); pose proof (size_nonneg (evalue e0)).
  - injection He as <-. pose proof (size_nonneg (entries_bytes (take 0 es))). unfold size in *. lia.
  - specialize (IH _ _ _ H4 He). unfold offset in IH. unfold size in *. lia.
Qed.

(** * Decoding *)

Lemma lor_ge a b n : 0 <= n -> 0 <= a -> 0 <= b -> 2 ^ n <= a \/ 2 ^ n <= b -> 2 ^ n <= Z.lor a b.
Proof.
  intros Hn Ha Hb Hc. assert (Hpos : 0 < 2 ^ n) by (apply Z.pow_pos_nonneg; lia).
  assert (Hl : Z.lor a b <> 0) by (intros E; apply Z.lor_eq_0_iff in E; lia).
  assert (0 <= Z.lor a b) by (apply Z.lor_nonneg; lia). apply Z.log2_le_pow2; [lia|]. rewrite Z.log2_lor by lia.
  destruct Hc; [etrans; [|apply Z.le_max_l]|etrans; [|apply Z.le_max_r]]; by apply Z.log2_le_pow2; [lia|].
Qed.

Lemma varint_head v : 0 <= v < 2 ^ 32 ->
  exists x t, EncodeVarint32 v = x :: t /\ 0 <= x < 256 /\ (v < 128 -> x = v /\ t = []) /\ (128 <= v -> 128 <= x).
Proof.
  intros Hv. rewrite encode_varint32 by done. unfold varint. cbn [varint_groups].
  pose proof (Z.mod_pos_bound v 128 ltac:(lia)). destruct (Z.ltb_spec v 128); do 2 eexists; (split; [done|]); lia || (split; [lia|]; split; [done|lia]).
Qed.

(** The fast path is right, and agrees with the slow one. *)
Lemma header_lengths a b c r :
  0 <= a < 2 ^ 32 -> 0 <= b < 2 ^ 32 -> 0 <= c < 2 ^ 32 -> is_bytes r ->
  let l := EncodeVarint32 a ++ EncodeVarint32 b ++ EncodeVarint32 c ++ r in
  (if Z.lor (Z.lor (nth 0 l 0) (nth 1 l 0)) (nth 2 l 0) <? 128 then Some (nth 0 l 0, nth 1 l 0, nth 2 l 0, drop 3 l)
   else
     match GetVarint32Ptr l with
     | Some (shared, l) =>
         match GetVarint32Ptr l with
         | Some (non_shared, l) =>
             match GetVarint32Ptr l with
             | Some (value_length, l) => Some (shared, non_shared, value_length, l)
             | None => None
             end
         | None => None
         end
     | None => None
     end) = Some (a, b, c, r) /\ 3 <= size l.
Proof.
  intros Ha Hb Hc Hr l.
  assert (Hslow : GetVarint32Ptr l = Some (a, EncodeVarint32 b ++ EncodeVarint32 c ++ r) /\
    GetVarint32Ptr (EncodeVarint32 b ++ EncodeVarint32 c ++ r) = Some (b, EncodeVarint32 c ++ r) /\
    GetVarint32Ptr (EncodeVarint32 c ++ r) = Some (c, r)).
  { pose proof (encode_varint32_bytes a Ha). pose proof (encode_varint32_bytes b Hb). pose proof (encode_varint32_bytes c Hc).
    repeat split; apply (get_put_varint32 _ _); try done; repeat (apply Forall_app; split); done. }
  destruct Hslow as (-> & -> & ->).
  destruct (varint_head a Ha) as (x & t1 & E1 & Hx & Hx1 & Hx2), (varint_head b Hb) as (y & t2 & E2 & Hy & Hy1 & Hy2), (varint_head c Hc) as (z & t3 & E3 & Hz & Hz1 & Hz2).
  assert (Hlen : 3 <= size l) by (unfold l, size; rewrite E1, E2, E3; cbn [app length]; rewrite !length_app; cbn [length]; rewrite !length_app; cbn [length]; rewrite !length_app; lia).
  split; [|done]. destruct (Z.ltb_spec (Z.lor (Z.lor (nth 0 l 0) (nth 1 l 0)) (nth 2 l 0)) 128) as [Hlt|]; [|done].
  assert (Hnn : is_bytes l) by (unfold l; repeat (apply Forall_app; split); auto using encode_varint32_bytes).
  assert (Hn : forall i, 0 <= nth i l 0) by (intros i; destruct (nth_in_or_default i l 0) as [Hin| ->]; [|done]; rewrite List.Forall_forall in Hnn; by apply Hnn).
  assert (H0 : nth 0 l 0 < 128 /\ nth 1 l 0 < 128 /\ nth 2 l 0 < 128).
  { destruct (Z.lt_ge_cases (nth 0 l 0) 128), (Z.lt_ge_cases (nth 1 l 0) 128), (Z.lt_ge_cases (nth 2 l 0) 128); try done;
      exfalso; change 128 with (2 ^ 7) in *; pose proof (Z.lor_nonneg (nth 0 l 0) (nth 1 l 0)) as Hp; pose proof (Hn 0%nat); pose proof (Hn 1%nat); pose proof (Hn 2%nat);
      pose proof (lor_ge (nth 0 l 0) (nth 1 l 0) 7); pose proof (lor_ge (Z.lor (nth 0 l 0) (nth 1 l 0)) (nth 2 l 0) 7); lia. }
  unfold l in H0 |- *. rewrite E1 in *. cbn [app nth] in H0 |- *.
  destruct (Z.lt_ge_cases a 128) as [Ha'|Ha']; [|specialize (Hx2 Ha'); lia]. destruct (Hx1 Ha') as [-> ->].
  rewrite E2 in *. cbn [app nth] in H0 |- *. destruct (Z.lt_ge_cases b 128) as [Hb'|Hb']; [|specialize (Hy2 Hb'); lia]. destruct (Hy1 Hb') as [-> ->].
  rewrite E3 in *. cbn [app nth] in H0 |- *. destruct (Z.lt_ge_cases c 128) as [Hc'|Hc']; [|specialize (Hz2 Hc'); lia]. destruct (Hz1 Hc') as [-> ->].
  done.
Qed.

Section layout.
Context (es : list entry) (points : list nat) (Hwf : well_formed es points).

Notation D := (block_layout es points).
Notation R := (size (entries_bytes es)).
Notation N := (Z.of_nat (length points)).

Lemma entry_in i e : es !! i = Some e -> byte_entry e /\ (shared e <= length (ekey e))%nat.
Proof.
  intros He. split; [by eapply Forall_lookup_1; [apply Hwf|exact He]|]. by destruct (chained_at es [] i e (wf_chained _ _ Hwf) He).
Qed.

Lemma trailer_size : size (trailer_bytes es points) = 4 * N + 4.
Proof.
  unfold trailer_bytes. rewrite size_app. assert (E : forall ps, size (concat (map (fun p => EncodeFixed32 (offset es p)) ps)) = 4 * Z.of_nat (length ps)).
  { induction ps as [|p ps IH]; [done|]. cbn [map concat length]. rewrite size_app, IH. unfold size at 1. rewrite fixed32_bytes, le_bytes_length. lia. }
  rewrite E. unfold size. rewrite fixed32_bytes, le_bytes_length. lia.
Qed.

Lemma layout_size : size D = R + 4 * N + 4.
Proof. unfold block_layout. rewrite size_app, trailer_size. lia. Qed.

Lemma small : R + 4 * N + 4 < 2 ^ 32 /\ 0 < N.
Proof. rewrite <- layout_size. split; [apply Hwf|]. destruct (wf_first _ _ Hwf) as [r ->]. cbn. lia. Qed.

Lemma offset_range i : (i <= length es)%nat -> 0 <= offset es i <= R.
Proof.
  intros Hi. split; [apply size_nonneg|]. unfold offset. rewrite <- (take_drop i es) at 2. rewrite entries_bytes_app, size_app.
  pose proof (size_nonneg (entries_bytes (drop i es))). lia.
Qed.

Lemma entry_fits i e : es !! i = Some e ->
  0 <= Z.of_nat (shared e) < 2 ^ 32 /\ 0 <= size (ekey e) - Z.of_nat (shared e) < 2 ^ 32 /\ 0 <= size (evalue e) < 2 ^ 32 /\
  size (drop (shared e) (ekey e)) = size (ekey e) - Z.of_nat (shared e) /\ offset es i + size (entry_bytes e) <= R.
Proof.
  intros He. destruct (entry_in i e He) as [_ Hsh]. pose proof small as [Hs _].
  assert (Hb : offset es i + size (entry_bytes e) <= R) by (rewrite <- (offset_succ es i e He); apply offset_range; apply lookup_lt_Some in He; lia).
  assert (Hd : size (drop (shared e) (ekey e)) = size (ekey e) - Z.of_nat (shared e)) by (unfold size; rewrite length_drop; lia).
  pose proof (size_nonneg (entries_bytes (take i es))) as H0. fold (offset es i) in H0. rewrite entry_size in Hb.
  pose proof (size_nonneg (entry_header e)). pose proof (size_nonneg (evalue e)). pose proof (size_nonneg (drop (shared e) (ekey e))).
  pose proof (key_bound es [] i e (wf_chained _ _ Hwf) He) as Hk. unfold size at 2 in Hk. cbn [length] in Hk.
  rewrite (offset_succ es i e He), entry_size in Hk. split; [unfold size in *; lia|]. split; [lia|]. split; [lia|]. split; [done|].
  rewrite entry_size. lia.
Qed.

Lemma entries_are_bytes l : Forall byte_entry l -> Forall (fun e => 0 <= size (ekey e) - Z.of_nat (shared e) < 2 ^ 32 /\ Z.of_nat (shared e) < 2 ^ 32 /\ size (evalue e) < 2 ^ 32) l -> is_bytes (entries_bytes l).
Proof.
  induction 1 as [|e l [Hk Hv] _ IH]; intros Hf; [constructor|]. inversion Hf as [|? ? (H1 & H2 & H3) Hf']; subst. rewrite entries_cons. unfold entry_bytes, entry_header.
  pose proof (size_nonneg (evalue e)). repeat (apply Forall_app; split); auto using Forall_drop; apply encode_varint32_bytes; lia.
Qed.

Lemma rest_bytes i : is_bytes (entries_bytes (drop i es)).
Proof.
  apply entries_are_bytes; [apply Forall_drop, Hwf|]. apply Forall_drop, Forall_lookup_2. intros j e He.
  destruct (entry_fits j e He) as (H1 & H2 & H3 & _). lia.
Qed.

Lemma decode_entry i e : es !! i = Some e ->
  DecodeEntry D (offset es i) R = Some (Z.of_nat (shared e), size (ekey e) - Z.of_nat (shared e), size (evalue e), offset es i + size (entry_header e)).
Proof.
  intros He. destruct (entry_fits i e He) as (H1 & H2 & H3 & H4 & H5). destruct (entry_in i e He) as [[Hk Hv] Hsh].
  pose proof (split_at es i e He) as Hs. pose proof (size_nonneg (entries_bytes (take i es))) as H0. fold (offset es i) in H0.
  pose proof (rest_bytes (S i)) as Hr. set (rest := entries_bytes (drop (S i) es)) in *.
  assert (Hl : take (Z.to_nat (R - offset es i)) (drop (Z.to_nat (offset es i)) D) = entry_bytes e ++ rest).
  { unfold block_layout. rewrite Hs, <- !app_assoc. rewrite drop_app_length' by (unfold offset, size; lia). rewrite (app_assoc (entry_bytes e) rest). apply take_app_length'.
    unfold offset, size. rewrite !length_app. lia. }
  assert (Hb : is_bytes (drop (shared e) (ekey e) ++ evalue e ++ rest)) by (repeat (apply Forall_app; split); auto using Forall_drop).
  destruct (header_lengths (Z.of_nat (shared e)) (size (ekey e) - Z.of_nat (shared e)) (size (evalue e)) _ H1 H2 H3 Hb) as [Hlen H3l].
  unfold DecodeEntry. rewrite Hl. unfold entry_bytes, entry_header. rewrite <- !app_assoc.
  assert (HR : R - offset es i = size (entry_header e) + size (drop (shared e) (ekey e) ++ evalue e ++ rest)).
  { rewrite Hs, !size_app. unfold entry_bytes, offset. rewrite !size_app. lia. }
  rewrite (proj2 (Z.ltb_ge _ _)).
  2: { rewrite HR. unfold entry_header. rewrite !size_app in *. lia. }
  cbv zeta. rewrite Hlen. pose proof small as [Hsm _]. rewrite !size_app, H4 in *. pose proof (size_nonneg rest).
  pose proof (size_nonneg (entry_header e)). rewrite !u32_small by lia. rewrite (proj2 (Z.ltb_ge _ _)) by lia. do 2 f_equal.
  unfold entry_header in HR. rewrite !size_app in HR. lia.
Qed.

(** A part of the block. *)
Lemma slice_app (l1 l2 l3 : list Z) p n : p = size l1 -> n = size l2 ->
  take (Z.to_nat n) (drop (Z.to_nat p) (l1 ++ l2 ++ l3)) = l2 /\ 0 <= p /\ p + n <= size (l1 ++ l2 ++ l3).
Proof.
  intros -> ->. rewrite drop_app_length' by (unfold size; lia). rewrite take_app_length' by (unfold size; lia). split; [done|].
  rewrite !size_app. pose proof (size_nonneg l1). pose proof (size_nonneg l3). lia.
Qed.

Lemma key_slice i e : es !! i = Some e ->
  let p := offset es i + size (entry_header e) in let n := size (ekey e) - Z.of_nat (shared e) in
  take (Z.to_nat n) (drop (Z.to_nat p) D) = drop (shared e) (ekey e) /\ 0 <= p /\ p + n <= size D.
Proof.
  intros He p n. destruct (entry_fits i e He) as (_ & _ & _ & H4 & _).
  assert (ED : D = (entries_bytes (take i es) ++ entry_header e) ++ drop (shared e) (ekey e) ++ evalue e ++ entries_bytes (drop (S i) es) ++ trailer_bytes es points)
    by (unfold block_layout; rewrite (split_at es i e He); unfold entry_bytes; by rewrite <- !app_assoc).
  rewrite ED. apply slice_app; [|by rewrite H4]. rewrite size_app. done.
Qed.

Lemma value_slice i e : es !! i = Some e ->
  let p := offset es i + size (entry_header e) + (size (ekey e) - Z.of_nat (shared e)) in
  take (Z.to_nat (size (evalue e))) (drop (Z.to_nat p) D) = evalue e /\ 0 <= p /\ p + size (evalue e) <= size D /\ p + size (evalue e) = offset es (S i).
Proof.
  intros He p. destruct (entry_fits i e He) as (_ & _ & _ & H4 & _).
  assert (ED : D = (entries_bytes (take i es) ++ entry_header e ++ drop (shared e) (ekey e)) ++ evalue e ++ entries_bytes (drop (S i) es) ++ trailer_bytes es points)
    by (unfold block_layout; rewrite (split_at es i e He); unfold entry_bytes; by rewrite <- !app_assoc).
  rewrite ED. destruct (slice_app (entries_bytes (take i es) ++ entry_header e ++ drop (shared e) (ekey e)) (evalue e)
    (entries_bytes (drop (S i) es) ++ trailer_bytes es points) p (size (evalue e))) as (E1 & E2 & E3);
    [by unfold p, offset; rewrite !size_app, H4; lia|done|].
  split; [done|]. split; [done|]. split; [done|]. rewrite (offset_succ es i e He), entry_size, H4. unfold p. lia.
Qed.

Lemma points_slice k p : points !! k = Some p ->
  take 4 (drop (Z.to_nat (R + Z.of_nat k * 4)) D) = EncodeFixed32 (offset es p) /\ 0 <= R + Z.of_nat k * 4 /\ R + Z.of_nat k * 4 + 4 <= size D.
Proof.
  intros Hp. set (f := fun p => EncodeFixed32 (offset es p)).
  assert (E : forall ps, size (concat (map f ps)) = 4 * Z.of_nat (length ps)).
  { induction ps as [|q ps IH]; [done|]. cbn [map concat length]. rewrite size_app, IH. unfold f, size at 1. rewrite fixed32_bytes, le_bytes_length. lia. }
  assert (ED : D = (entries_bytes es ++ concat (map f (take k points))) ++ f p ++ concat (map f (drop (S k) points)) ++ EncodeFixed32 N).
  { unfold block_layout, trailer_bytes. fold f. rewrite <- (take_drop_middle points k p Hp) at 1. rewrite map_app, concat_app. cbn [map concat]. by rewrite <- !app_assoc. }
  rewrite ED. change 4%nat with (Z.to_nat 4). apply slice_app; [|unfold f, size; by rewrite fixed32_bytes, le_bytes_length].
  rewrite size_app, E, length_take. apply lookup_lt_Some in Hp. lia.
Qed.

Lemma point_value k p : points !! k = Some p -> DecodeFixed32 (EncodeFixed32 (offset es p)) = Some (offset es p) /\ (p <= length es)%nat /\
  (forall e, es !! p = Some e -> shared e = O).
Proof.
  intros Hp. pose proof (Forall_lookup_1 _ _ _ _ (wf_points _ _ Hwf) Hp). pose proof (Forall_lookup_1 _ _ _ _ (wf_within _ _ Hwf) Hp) as Hw. cbn in Hw.
  assert (Hl : (p <= length es)%nat) by lia. pose proof (offset_range p Hl). pose proof small. split; [|split; [lia|done]].
  rewrite <- (app_nil_r (EncodeFixed32 _)). apply decode_encode_fixed32. lia.
Qed.

Lemma offset_lt i j : (i < j)%nat -> (j <= length es)%nat -> offset es i < offset es j.
Proof.
  intros Hij Hj. induction j as [|j IH]; [lia|]. destruct (lookup_lt_is_Some_2 es j ltac:(lia)) as [e He]. rewrite (offset_succ es j e He).
  assert (1 <= size (entry_bytes e)).
  { destruct (entry_fits j e He) as (H1 & _). rewrite entry_size. unfold entry_header. rewrite size_app.
    pose proof (encode_varint32_pos _ H1). pose proof (size_nonneg (evalue e)). pose proof (size_nonneg (drop (shared e) (ekey e))).
    pose proof (size_nonneg (EncodeVarint32 (size (ekey e) - Z.of_nat (shared e)) ++ EncodeVarint32 (size (evalue e)))). lia. }
  destruct (Nat.eq_dec i j) as [->|]; [lia|]. specialize (IH ltac:(lia) ltac:(lia)). lia.
Qed.

Lemma offset_le_iff i j : (i <= length es)%nat -> (j <= length es)%nat -> offset es i <= offset es j <-> (i <= j)%nat.
Proof.
  intros Hi Hj. split; intros Hle.
  - destruct (Nat.le_gt_cases i j) as [|Hlt]; [done|]. pose proof (offset_lt j i Hlt Hi). lia.
  - destruct (Nat.eq_dec i j) as [->|]; [lia|]. pose proof (offset_lt i j ltac:(lia) Hj). lia.
Qed.

Lemma offset_lt_iff i j : (i <= length es)%nat -> (j <= length es)%nat -> (i < j)%nat <-> offset es i < offset es j.
Proof. intros Hi Hj. pose proof (offset_le_iff j i Hj Hi). lia. Qed.

End layout.

(** * The iterator of a well-formed block: every operation, as a move from one index of the
    entries to another. *)

Section iterator.
Context (es : list entry) (points : list nat) (Hwf : well_formed es points).
Context `{ComparatorLaws}.

Notation D := (block_layout es points).
Notation R := (size (entries_bytes es)).
Notation N := (Z.of_nat (length points)).

Record on_block (it : Iter) : Prop := {
  on_data : data it = D;
  on_restarts : restarts it = R;
  on_num : num_restarts it = N;
  on_status : status_ it = OK;
}.

(** The restart index is that of a point that is not behind the entry [i]. *)
Definition index_ok (it : Iter) (i : nat) : Prop :=
  exists k p, restart_index_ it = Z.of_nat k /\ points !! k = Some p /\ (p <= i)%nat.

(** The next entry to be parsed is that of index [i]. *)
Record before (i : nat) (it : Iter) : Prop := {
  bf_block : on_block it;
  bf_range : (i <= length es)%nat;
  bf_value : exists p n, value_ it = Some (p, n) /\ p + n = offset es i;
  bf_index : index_ok it i;
  bf_key : forall e, es !! i = Some e -> (shared e <= length (key_ it))%nat /\ take (shared e) (key_ it) = take (shared e) (ekey e);
}.

Record at_entry (i : nat) (e : entry) (it : Iter) : Prop := {
  at_block : on_block it;
  at_lookup : es !! i = Some e;
  at_current : current_ it = offset es i;
  at_key : key_ it = ekey e;
  at_value : value_ it = Some (offset es i + size (entry_header e) + (size (ekey e) - Z.of_nat (shared e)), size (evalue e));
  at_index : index_ok it i;
}.

Definition invalid (it : Iter) : Prop := on_block it /\ current_ it = R.

Lemma sizes : 0 <= R /\ R + 4 * N + 4 < 2 ^ 32 /\ 0 < N.
Proof. split; [apply size_nonneg|exact (small es points Hwf)]. Qed.

Lemma at_before i e it : at_entry i e it -> before (S i) it.
Proof.
  intros [Hb Hl Hc Hk Hv Hi]. pose proof (value_slice es points Hwf i e Hl) as (_ & _ & _ & Hval).
  split; [done|by apply lookup_lt_Some in Hl| |destruct Hi as (k & p & ? & ? & ?); exists k, p; split; [done|split; [done|lia]]|].
  - do 2 eexists. split; [exact Hv|done].
  - intros e' He'. rewrite Hk. by apply (chained_at es [] i e (wf_chained _ _ Hwf) Hl).
Qed.

(** * The parts *)

Lemma block_bytes_ok it p n l : on_block it -> take (Z.to_nat n) (drop (Z.to_nat p) D) = l /\ 0 <= p /\ p + n <= size D -> block_bytes it p n = Some l.
Proof.
  intros Hb (E & H1 & H2). unfold block_bytes. rewrite (on_data _ Hb). rewrite (proj2 (Z.leb_le _ _)), (proj2 (Z.leb_le _ _)) by done. cbn. by rewrite E.
Qed.

Lemma get_point it k p w : on_block it -> points !! k = Some p -> GetRestartPoint (Z.of_nat k) it w = Ok (offset es p) it w.
Proof.
  intros Hb Hp. unfold GetRestartPoint. cbn [bind get]. rewrite (on_num _ Hb). pose proof (lookup_lt_Some _ _ _ Hp).
  rewrite (proj2 (Z.ltb_lt _ _)) by lia. cbn [assert_ ret]. rewrite (on_restarts _ Hb), (block_bytes_ok it _ 4 _ Hb (points_slice es points k p Hp)). cbn [must ret].
  by destruct (point_value es points Hwf k p Hp) as [-> _].
Qed.

Lemma next_offset i it w : before i it -> NextEntryOffset it w = Ok (offset es i) it w.
Proof.
  intros Hb. destruct (bf_value _ _ Hb) as (p & n & Hv & E). unfold NextEntryOffset. cbn [bind get]. rewrite Hv. cbn [option_map fst snd must ret].
  rewrite E, u32_small; [done|]. pose proof (offset_range es i (bf_range _ _ Hb)). pose proof sizes. lia.
Qed.

Lemma advance_ok n : forall it i w, on_block it -> current_ it = offset es i -> (i <= length es)%nat -> index_ok it i ->
  N - restart_index_ it <= Z.of_nat n ->
  exists r, loop (S n) advance_step tt it w = Ok tt (set_restart_index r it) w /\ index_ok (set_restart_index r it) i.
Proof.
  induction n as [|n IH]; intros it i w Hb Hc Hi Hx Hn; pose proof Hx as (k & p & Hk & Hp & Hle); pose proof (lookup_lt_Some _ _ _ Hp); [lia|].
  pose proof sizes. assert (Hsame : it = set_restart_index (restart_index_ it) it) by (by destruct it).
  assert (Hstay : exists r, @Ok Iter unit tt it w = Ok tt (set_restart_index r it) w /\ index_ok (set_restart_index r it) i)
    by (exists (restart_index_ it); by rewrite <- Hsame).
  cbn [loop bind]. unfold advance_step at 1. cbn [bind get]. rewrite u32_small by lia. rewrite (on_num _ Hb).
  destruct (Z.ltb_spec (restart_index_ it + 1) N) as [Hlt|]; [|exact Hstay].
  rewrite Hk. replace (Z.of_nat k + 1) with (Z.of_nat (S k)) by lia.
  destruct (lookup_lt_is_Some_2 points (S k) ltac:(lia)) as [q Hq]. cbn [bind]. rewrite (get_point it (S k) q w Hb Hq), Hc.
  destruct (point_value es points Hwf _ q Hq) as (_ & Hql & _).
  destruct (Z.ltb_spec (offset es q) (offset es i)) as [Hqi|]; cbn [bind modify ret]; [|exact Hstay].
  destruct (IH (set_restart_index (Z.of_nat (S k)) it) i w) as (r & Hrun & Hr); [by destruct Hb; split|done|done| |cbn [restart_index_ set_restart_index]; lia|].
  - exists (S k), q. split; [done|]. split; [done|]. apply (offset_le_iff es points Hwf); lia.
  - exists r. split; [exact Hrun|exact Hr].
Qed.

Lemma parse_end it w : before (length es) it -> exists it', ParseNextKey it w = Ok false it' w /\ invalid it'.
Proof.
  intros Hb. unfold ParseNextKey. cbn [bind]. rewrite (next_offset _ _ _ Hb). cbn [modify get bind]. destruct (bf_block _ _ Hb).
  cbn [restarts set_current]. rewrite offset_end, on_restarts0, Z.leb_refl. cbn [bind modify ret]. eexists. split; [done|]. by repeat split; cbn.
Qed.

Lemma parse_ok i e it w : before i it -> es !! i = Some e -> exists it', ParseNextKey it w = Ok true it' w /\ at_entry i e it'.
Proof.
  intros Hb He. unfold ParseNextKey. cbn [bind]. rewrite (next_offset _ _ _ Hb). cbn [modify get bind]. pose proof (bf_block _ _ Hb) as Ho.
  cbn [restarts set_current data key_ num_restarts]. rewrite (on_restarts _ Ho). pose proof (lookup_lt_Some _ _ _ He).
  pose proof (offset_lt es points Hwf i (length es) ltac:(lia) ltac:(lia)) as Hlt. rewrite offset_end in Hlt.
  rewrite (proj2 (Z.leb_gt _ _)) by lia. rewrite (on_data _ Ho), (decode_entry es points Hwf i e He). destruct (bf_key _ _ Hb e He) as [Hsh Htk].
  rewrite (proj2 (Z.ltb_ge _ _)) by (unfold size; lia). cbn [bind].
  assert (Ho2 : on_block (set_current (offset es i) it)) by (by destruct Ho; split).
  rewrite (block_bytes_ok _ _ _ _ Ho2 (key_slice es points Hwf i e He)). cbn [must ret modify bind]. rewrite Nat2Z.id, Htk, take_drop.
  set (it2 := set_value _ _). rewrite (on_num _ Ho). destruct (bf_index _ _ Hb) as (k & p & Hk & Hp & Hle).
  destruct (advance_ok (length points) it2 i w) as (r & Hrun & Hr).
  - by destruct Ho; split.
  - done.
  - lia.
  - by exists k, p.
  - unfold it2. cbn. lia.
  - rewrite Nat2Z.id, Hrun. cbn [ret]. eexists. split; [done|]. split; [by destruct Ho; split|done|done|done|done|exact Hr].
Qed.

Lemma seek_point_ok it k p w : on_block it -> points !! k = Some p -> exists it', SeekToRestartPoint (Z.of_nat k) it w = Ok tt it' w /\ before p it'.
Proof.
  intros Ho Hp. unfold SeekToRestartPoint. cbn [bind modify].
  assert (Ho2 : on_block (set_restart_index (Z.of_nat k) (set_key [] it))) by (by destruct Ho; split).
  rewrite (get_point _ _ _ _ Ho2 Hp). cbn [modify]. eexists. split; [done|]. destruct (point_value es points Hwf k p Hp) as (_ & Hl & Hz).
  split; [by destruct Ho; split|done| | |].
  - exists (offset es p), 0. split; [done|lia].
  - exists k, p. done.
  - intros e He. rewrite (Hz e He). cbn. split; [lia|done].
Qed.

Lemma entries_many i : (i <= length es)%nat -> Z.of_nat i <= offset es i.
Proof.
  induction i as [|i IH]; intros Hi; [apply size_nonneg|]. pose proof (offset_lt es points Hwf i (S i) ltac:(lia) Hi). specialize (IH ltac:(lia)). lia.
Qed.

(** Skipping stops at the entry before the bound. *)
Lemma skip_ok n : forall j i it w, before j it -> (j <= i)%nat -> (S i <= length es)%nat -> (i - j < n)%nat ->
  exists e it', loop n (skip_step (offset es (S i))) tt it w = Ok tt it' w /\ at_entry i e it'.
Proof.
  induction n as [|n IH]; intros j i it w Hb Hj Hi Hn; [lia|]. destruct (lookup_lt_is_Some_2 es j ltac:(lia)) as [e He].
  destruct (parse_ok j e it w Hb He) as (it1 & Hrun & Ha). cbn [loop bind]. unfold skip_step at 1. cbn [bind]. rewrite Hrun. cbn [bind].
  rewrite (next_offset (S j) it1 w (at_before _ _ _ Ha)). cbn [ret]. destruct (Z.ltb_spec (offset es (S j)) (offset es (S i))) as [Hlt|Hge].
  - destruct (Nat.eq_dec j i) as [->|]; [lia|]. apply (IH (S j) i it1 w (at_before _ _ _ Ha)); lia.
  - assert (i = j) as ->; [|by exists e, it1]. apply (offset_le_iff es points Hwf) in Hge; lia.
Qed.

Lemma skip_to_ok j i it w : before j it -> (j <= i)%nat -> (S i <= length es)%nat ->
  exists e it', skip_to (offset es (S i)) it w = Ok tt it' w /\ at_entry i e it'.
Proof.
  intros Hb Hj Hi. unfold skip_to. cbn [bind get]. apply (skip_ok _ j); [done|done|done|]. rewrite (on_restarts _ (bf_block _ _ Hb)).
  pose proof (entries_many (length es) ltac:(done)) as He. rewrite offset_end in He. lia.
Qed.

(** * The operations *)

(** The iterator is at the entry of index [i], or invalid if there is none. *)
Definition represents (it : Iter) (i : nat) : Prop :=
  match es !! i with
  | Some e => at_entry i e it
  | None => i = length es /\ invalid it
  end.

Lemma represents_block it i : represents it i -> on_block it.
Proof. unfold represents. destruct (es !! i); [apply at_block|]. intros [_ [? _]]. done. Qed.

Lemma represents_valid it i : represents it i -> Valid it = (i <? length es)%nat.
Proof.
  intros Hr. unfold represents in Hr. destruct (es !! i) as [e|] eqn:E.
  - apply lookup_lt_Some in E as Hl. unfold Valid. rewrite (at_current _ _ _ Hr), (on_restarts _ (at_block _ _ _ Hr)), (proj2 (Nat.ltb_lt _ _)) by done.
    pose proof (offset_lt es points Hwf i (length es) ltac:(lia) ltac:(lia)) as Hlt. rewrite offset_end in Hlt. by apply Z.ltb_lt.
  - destruct Hr as [-> [Ho Hc]]. unfold Valid. by rewrite Hc, (on_restarts _ Ho), Z.ltb_irrefl, Nat.ltb_irrefl.
Qed.

Lemma key_value_ok it i e w : represents it i -> es !! i = Some e ->
  key it w = Ok (ekey e) it w /\ value it w = Ok (evalue e) it w.
Proof.
  intros Hr He. pose proof (represents_valid it i Hr) as Hv. unfold represents in Hr. rewrite He in Hr.
  rewrite (proj2 (Nat.ltb_lt _ _)) in Hv by (by eapply lookup_lt_Some).
  unfold key, value. cbn [bind get]. rewrite Hv. cbn [assert_ ret]. rewrite (at_key _ _ _ Hr), (at_value _ _ _ Hr). split; [done|].
  rewrite (block_bytes_ok it _ _ (evalue e) (at_block _ _ _ Hr)); [done|].
  destruct (value_slice es points Hwf i e He) as (E1 & E2 & E3 & _). done.
Qed.

Lemma parse_represents i it w : before i it -> exists b it', ParseNextKey it w = Ok b it' w /\ represents it' i.
Proof.
  intros Hb. pose proof (bf_range _ _ Hb). destruct (es !! i) as [e|] eqn:E.
  - destruct (parse_ok i e it w Hb E) as (it' & Hrun & Ha). exists true, it'. split; [done|]. unfold represents. by rewrite E.
  - assert (i = length es) as -> by (apply lookup_ge_None in E; lia). destruct (parse_end it w Hb) as (it' & Hrun & Hi).
    exists false, it'. split; [done|]. unfold represents. by rewrite E.
Qed.

Lemma first_point : points !! O = Some O.
Proof. destruct (wf_first _ _ Hwf) as [r ->]. done. Qed.

Lemma seek_to_first_ok it w : on_block it -> exists it', SeekToFirst it w = Ok tt it' w /\ represents it' 0.
Proof.
  intros Ho. destruct (seek_point_ok it 0 0 w Ho first_point) as (it1 & Hrun & Hb). destruct (parse_represents 0 it1 w Hb) as (b & it2 & Hrun2 & Hr).
  exists it2. split; [|done]. unfold SeekToFirst. cbn [bind]. change 0 with (Z.of_nat 0). rewrite Hrun. cbn [bind]. by rewrite Hrun2.
Qed.

Lemma block_next_ok it i w : represents it i -> (i < length es)%nat -> exists it', Next it w = Ok tt it' w /\ represents it' (S i).
Proof.
  intros Hr Hi. pose proof (represents_valid it i Hr) as Hv. rewrite (proj2 (Nat.ltb_lt _ _)) in Hv by done.
  unfold represents in Hr. destruct (lookup_lt_is_Some_2 es i Hi) as [e He]. rewrite He in Hr.
  destruct (parse_represents (S i) it w (at_before _ _ _ Hr)) as (b & it2 & Hrun2 & Hr2). exists it2. split; [|done].
  unfold Next. cbn [bind get]. rewrite Hv. cbn [assert_ ret bind]. by rewrite Hrun2.
Qed.

Lemma seek_to_last_ok it w : on_block it -> exists it', SeekToLast it w = Ok tt it' w /\ represents it' (Nat.pred (length es)).
Proof.
  intros Ho. pose proof sizes as (_ & _ & HN). unfold SeekToLast. cbn [bind get]. rewrite (on_num _ Ho), (on_restarts _ Ho).
  destruct (lookup_lt_is_Some_2 points (Nat.pred (length points)) ltac:(lia)) as [p Hp].
  replace (N - 1) with (Z.of_nat (Nat.pred (length points))) by lia. destruct (seek_point_ok it _ p w Ho Hp) as (it1 & Hrun & Hb). rewrite Hrun.
  destruct (Nat.eq_dec (length es) 0) as [E0|Hne].
  - pose proof (bf_range _ _ Hb). assert (p = length es) as -> by lia. destruct (parse_end it1 w Hb) as (it2 & Hrun2 & Hi).
    exists it2. split.
    + unfold skip_to. cbn [bind get loop]. unfold skip_step at 1. cbn [bind]. by rewrite Hrun2.
    + unfold represents. rewrite E0. cbn. rewrite lookup_ge_None_2 by lia. by split.
  - destruct (Forall_lookup_1 _ _ _ _ (wf_within _ _ Hwf) Hp) as [Hpl|Hp0];
      (destruct (skip_to_ok _ (Nat.pred (length es)) it1 w Hb) as (e & it2 & Hrun2 & Ha); [lia|lia|]);
      replace (S (Nat.pred (length es))) with (length es) in Hrun2 by lia; rewrite offset_end in Hrun2; exists it2; (split; [done|]);
      unfold represents; by rewrite (at_lookup _ _ _ Ha).
Qed.

Lemma scan_back_ok i : (i < length es)%nat -> forall k p it n w, on_block it -> restart_index_ it = Z.of_nat k -> points !! k = Some p -> (k < n)%nat ->
  exists found it', loop n (scan_back_step (offset es i)) tt it w = Ok found it' w /\ on_block it' /\
    if found : bool then exists k' p', restart_index_ it' = Z.of_nat k' /\ points !! k' = Some p' /\ (p' < i)%nat
    else i = O /\ current_ it' = R.
Proof.
  intros Hi. induction k as [|k IH]; intros p it n w Ho Hk Hp Hn; (destruct n as [|n]; [lia|]); cbn [loop bind]; unfold scan_back_step at 1; cbn [bind get];
    rewrite Hk, (get_point it _ p w Ho Hp); destruct (point_value es points Hwf _ p Hp) as (_ & Hpl & _);
    (destruct (Z.leb_spec (offset es i) (offset es p)) as [Hge|Hlt];
      [|exists true, it; split; [done|]; split; [done|]; do 2 eexists; split; [exact Hk|split; [exact Hp|]]; by apply (offset_lt_iff es points Hwf); lia]).
  - rewrite first_point in Hp. injection Hp as <-. cbn [Z.eqb]. cbn [bind modify ret]. exists false.
    eexists. split; [done|]. split; [by destruct Ho; split|]. split; [apply (offset_le_iff es points Hwf) in Hge; lia|apply Ho].
  - rewrite (proj2 (Z.eqb_neq _ _)) by lia. cbn [bind modify ret].
    destruct (lookup_lt_is_Some_2 points k) as [q Hq]; [apply lookup_lt_Some in Hp; lia|].
    apply (IH q (set_restart_index (Z.of_nat (S k) - 1) it)); [by destruct Ho; split|cbn [restart_index_ set_restart_index]; lia|done|lia].
Qed.

Lemma iter_prev_ok it i w : represents it i -> (i < length es)%nat ->
  exists it', Prev it w = Ok tt it' w /\ represents it' (match i with O => length es | S j => j end).
Proof.
  intros Hr Hi. pose proof (represents_valid it i Hr) as Hv. rewrite (proj2 (Nat.ltb_lt _ _)) in Hv by done.
  unfold represents in Hr. destruct (lookup_lt_is_Some_2 es i Hi) as [e He]. rewrite He in Hr. pose proof (at_block _ _ _ Hr) as Ho.
  unfold Prev. cbn [bind get]. rewrite Hv. cbn [assert_ ret bind]. rewrite (at_current _ _ _ Hr), (on_num _ Ho).
  destruct (at_index _ _ _ Hr) as (k & p & Hk & Hp & Hle). pose proof (lookup_lt_Some _ _ _ Hp).
  destruct (scan_back_ok i Hi k p it (S (Z.to_nat N)) w Ho Hk Hp ltac:(lia)) as (found & it1 & Hrun & Ho1 & Hf). rewrite Hrun.
  destruct found.
  - destruct Hf as (k' & p' & Hk' & Hp' & Hlt). cbn [bind get]. rewrite Hk'.
    destruct (seek_point_ok it1 k' p' w Ho1 Hp') as (it2 & Hrun2 & Hb2). rewrite Hrun2. destruct i as [|j]; [lia|].
    destruct (skip_to_ok p' j it2 w Hb2 ltac:(lia) ltac:(lia)) as (e2 & it3 & Hrun3 & Ha). exists it3. split; [done|].
    unfold represents. by rewrite (at_lookup _ _ _ Ha).
  - destruct Hf as [-> Hc]. exists it1. split; [done|]. unfold represents. rewrite lookup_ge_None_2 by lia. by split.
Qed.

(** * Seeking *)

(** The first entry from the index [i] on whose key is not less than the target. *)
Fixpoint first_ge (target : list Z) (l : list entry) (i : nat) : nat :=
  match l with
  | [] => i
  | e :: l => match order (ekey e) target with Lt => first_ge target l (S i) | _ => i end
  end.

Lemma seek_linear_ok target n : forall i it w, before i it -> valid_key target -> Forall (fun e => valid_key (ekey e)) es ->
  (length es - i < n)%nat ->
  exists it', loop n (seek_step target) tt it w = Ok tt it' w /\ represents it' (first_ge target (drop i es) i).
Proof.
  induction n as [|n IH]; intros i it w Hb Ht Hv Hn; [lia|]. pose proof (bf_range _ _ Hb). cbn [loop bind]. unfold seek_step at 1. cbn [bind].
  destruct (es !! i) as [e|] eqn:E.
  - destruct (parse_ok i e it w Hb E) as (it1 & Hrun & Ha). rewrite Hrun. cbn [negb bind get].
    rewrite (at_key _ _ _ Ha). assert (Hke : valid_key (ekey e)) by (by apply (Forall_lookup_1 _ _ _ _ Hv E)).
    destruct (compare_ok (ekey e) target Hke Ht) as (c & Hc1 & Hc2). rewrite Hc1. cbn [must ret]. rewrite (drop_S _ _ _ E). cbn [first_ge].
    rewrite <- Hc2. destruct (Z.leb_spec 0 c) as [Hge|Hlt].
    + exists it1. split; [done|]. destruct (Z.compare_spec c 0); [| lia|]; unfold represents; by rewrite E.
    + rewrite (proj2 (Z.compare_lt_iff c 0)) by lia. apply IH; [by eapply at_before|done|done|apply lookup_lt_Some in E; lia].
  - apply lookup_ge_None in E as Hl. assert (i = length es) as -> by lia. destruct (parse_end it w Hb) as (it' & Hrun & Hi).
    rewrite Hrun. exists it'. split; [done|]. rewrite drop_all. cbn. unfold represents. by rewrite E.
Qed.

(** The search of the restart points ends at one whose key is less than the target, or
    at the first. *)
Lemma point_search_ok target n : forall l r it w, on_block it -> valid_key target -> Forall (fun e => valid_key (ekey e)) es ->
  0 <= l < N -> l <= r < N -> r - l < Z.of_nat n ->
  (l = 0 \/ exists p e, points !! Z.to_nat l = Some p /\ es !! p = Some e /\ order (ekey e) target = Lt) ->
  exists l', loop n (search_step target) (l, r) it w = Ok (Some l') it w /\ 0 <= l' < N /\
    (l' = 0 \/ exists p e, points !! Z.to_nat l' = Some p /\ es !! p = Some e /\ order (ekey e) target = Lt).
Proof.
  induction n as [|n IH]; intros l r it w Ho Ht Hv Hl Hr Hn Hinv; pose proof sizes as (HR & Hs & _); [lia|]. cbn [loop bind]. unfold search_step at 1.
  destruct (Z.ltb_spec l r) as [Hlt|]; [|exists l; by split].
  rewrite u32_small by lia. set (mid := (l + r + 1) / 2).
  assert (Hm : l < mid <= r) by (unfold mid; pose proof (Z.div_mod (l + r + 1) 2 ltac:(lia)); pose proof (Z.mod_pos_bound (l + r + 1) 2 ltac:(lia)); lia).
  clearbody mid. destruct (lookup_lt_is_Some_2 points (Z.to_nat mid) ltac:(lia)) as [p Hp].
  assert (Hg : GetRestartPoint mid it w = Ok (offset es p) it w) by (rewrite <- (Z2Nat.id mid) by lia; by apply get_point).
  cbn [bind]. rewrite Hg. cbn [get bind].
  destruct (point_value es points Hwf _ p Hp) as (_ & Hpl & Hz).
  destruct (es !! p) as [e|] eqn:E.
  2: { apply lookup_ge_None in E. destruct (Forall_lookup_1 _ _ _ _ (wf_within _ _ Hwf) Hp) as [|Hp0]; [lia|].
       assert (es = []) as Ee by (by apply length_zero_iff_nil; lia). rewrite (wf_empty _ _ Hwf Ee) in Hr. cbn in Hr. lia. }
  rewrite (on_data _ Ho), (on_restarts _ Ho), (decode_entry es points Hwf p e E), (Hz e eq_refl). cbn [Z.of_nat Z.eqb negb bind].
  pose proof (key_slice es points Hwf p e E) as Hks. rewrite (Hz e eq_refl) in Hks. rewrite (block_bytes_ok it _ _ _ Ho Hks). cbn [must ret]. change (drop 0 (ekey e)) with (ekey e).
  change (Z.of_nat 0 =? 0) with true. cbn [negb bind ret].
  assert (Hke : valid_key (ekey e)) by (by apply (Forall_lookup_1 _ _ _ _ Hv E)).
  destruct (compare_ok (ekey e) target Hke Ht) as (c & Hc1 & Hc2). rewrite Hc1. cbn [must ret].
  destruct (Z.ltb_spec c 0) as [Hc|Hc]; cbn [ret].
  - apply IH; try done; try lia. right. exists p, e. split; [done|]. split; [done|]. rewrite <- Hc2. by apply Z.compare_lt_iff.
  - apply IH; try done; lia.
Qed.

Lemma first_ge_skip target l1 : forall l2 i, Forall (fun e => order (ekey e) target = Lt) l1 -> first_ge target (l1 ++ l2) i = first_ge target l2 (i + length l1).
Proof.
  induction l1 as [|e l1 IH]; intros l2 i Hf; cbn; [by rewrite Nat.add_0_r|]. inversion Hf as [|? ? He Hf']; subst. rewrite He, IH by done. f_equal. lia.
Qed.

(** The keys increase. *)
Definition sorted_keys : Prop := forall i j e e', (i < j)%nat -> es !! i = Some e -> es !! j = Some e' -> order (ekey e) (ekey e') = Lt.

Lemma iter_seek_ok target it w : on_block it -> valid_key target -> Forall (fun e => valid_key (ekey e)) es -> sorted_keys ->
  exists it', Seek target it w = Ok tt it' w /\ represents it' (first_ge target es 0).
Proof.
  intros Ho Ht Hv Hsort. pose proof sizes as (HR & Hs & HN). unfold Seek. cbn [bind get]. rewrite (on_num _ Ho).
  destruct (point_search_ok target (S (Z.to_nat N)) 0 (N - 1) it w) as (l & Hrun & Hl & Hless); [done|done|done|lia|lia|lia|by left|]. rewrite Hrun.
  destruct (lookup_lt_is_Some_2 points (Z.to_nat l) ltac:(lia)) as [p Hp]. replace l with (Z.of_nat (Z.to_nat l)) by lia.
  cbn [bind]. destruct (seek_point_ok it _ p w Ho Hp) as (it1 & Hrun1 & Hb). rewrite Hrun1. cbn [get].
  pose proof (entries_many (length es) ltac:(done)) as He. rewrite offset_end in He. rewrite (on_restarts _ (bf_block _ _ Hb)).
  destruct (seek_linear_ok target (S (Z.to_nat R)) p it1 w Hb Ht Hv) as (it2 & Hrun2 & Hr); [lia|]. exists it2. split; [done|].
  assert (Hf : Forall (fun e => order (ekey e) target = Lt) (take p es)).
  { destruct Hless as [->|(p' & e & Hp' & Hpe & Hlt)].
    - change (Z.to_nat 0) with O in Hp. rewrite first_point in Hp. injection Hp as <-. constructor.
    - rewrite Hp in Hp'. injection Hp' as <-. apply Forall_lookup_2. intros i e' Hi. apply lookup_take_Some in Hi as [Hi Hip].
      apply (order_lt_le _ (ekey e)); [by apply (Forall_lookup_1 _ _ _ _ Hv Hi)|by apply (Forall_lookup_1 _ _ _ _ Hv Hpe)|done|by apply (Hsort i p)|by rewrite Hlt]. }
  rewrite <- (take_drop p es) at 1. rewrite first_ge_skip by done. rewrite length_take, Nat.min_l by apply (bf_range _ _ Hb). exact Hr.
Qed.

End iterator.
