(* ===== verification/LdbBlockThms.v ===== *)
(** LevelDB's blocks as sorted lists: what the builder makes is a well-formed block of the
    pairs that were added, and the iterator over it is a cursor over the list of pairs. *)
From stdpp Require Import base sorting list strings numbers option.
From Stdlib Require Import ZArith Lia.
From S2P Require Import Prelude Cmem PbWire LdbCoding LdbCodingThms LdbEnv LdbComparator LdbBlock LdbBlockIter.

Notation last := list.last.
Notation pair_of := (fun e => (ekey e, evalue e)).

(** A bound of the bytes of the entries and the restart points of some pairs. *)
Fixpoint pairs_size (kvs : list (list Z * list Z)) : Z :=
  match kvs with
  | [] => 0
  | (k, v) :: kvs => size k + size v + 19 + pairs_size kvs
  end.

Lemma encode_varint32_size v : 0 <= v < 2 ^ 32 -> size (EncodeVarint32 v) <= 5.
Proof. intros Hv. rewrite encode_varint32 by done. pose proof (varint32_length v Hv). unfold size. lia. Qed.

Lemma memcmp_refl n : forall a, memcmp n a a = 0.
Proof. induction n as [|n IH]; intros [|x a]; cbn; try done. by rewrite Z.ltb_irrefl. Qed.

Lemma slice_eq_refl a : slice_eq a a = true.
Proof. unfold slice_eq. by rewrite Nat.eqb_refl, memcmp_refl. Qed.

Lemma offset_app es e p : (p <= length es)%nat -> offset (es ++ [e]) p = offset es p.
Proof. intros Hp. unfold offset. by rewrite take_app_le. Qed.

Lemma chained_snoc es e : forall prev, chained prev es ->
  (let l := match last es with Some e0 => ekey e0 | None => prev end in
   (shared e <= length l)%nat /\ (shared e <= length (ekey e))%nat /\ take (shared e) l = take (shared e) (ekey e)) ->
  chained prev (es ++ [e]).
Proof.
  induction es as [|e0 es IH]; intros prev Hc Hl; cbn in *; [tauto|]. destruct Hc as (H1 & H2 & H3 & H4).
  do 3 (split; [done|]). apply IH; [done|]. destruct es as [|e1 es]; [exact Hl|].
  rewrite last_cons_cons in Hl. destruct (last (e1 :: es)) eqn:E; [exact Hl|by apply last_None in E].
Qed.

Section builder.
Context `{ComparatorLaws} (interval : Z) (Hinterval : 1 <= interval).

(** The builder after some entries. *)
Record building (b : BlockBuilder) (es : list entry) (points : list nat) : Prop := {
  bd_buffer : buffer_ b = entries_bytes es;
  bd_restarts : restarts_ b = map (offset es) points;
  bd_counter : 0 <= counter_ b <= interval;
  bd_finished : finished_ b = false;
  bd_last : last_key_ b = match last es with Some e => ekey e | None => [] end;
  bd_chained : chained [] es;
  bd_bytes : Forall byte_entry es;
  bd_first : exists rest, points = O :: rest;
  bd_points : Forall (fun p => forall e, es !! p = Some e -> shared e = O) points;
  bd_within : Forall (fun p => (p < length es \/ p = O)%nat) points;
  bd_many : (length points <= S (length es))%nat;
  bd_empty : es = [] -> points = [O] /\ counter_ b = 0;
  bd_size : size (entries_bytes es) + 4 * Z.of_nat (length points) <= pairs_size (map pair_of es) + 4;
}.

Lemma building_new : building new_BlockBuilder [] [O].
Proof. split; cbn; try done; try lia; [by exists []|by repeat constructor|repeat constructor; by right]. Qed.

Lemma pairs_size_app l1 l2 : pairs_size (l1 ++ l2) = pairs_size l1 + pairs_size l2.
Proof. induction l1 as [|[k v] l1 IH]; cbn; [done|]. rewrite IH. lia. Qed.

Lemma entry_bound e : (shared e <= length (ekey e))%nat -> Z.of_nat (shared e) < 2 ^ 32 ->
  size (ekey e) < 2 ^ 32 -> size (evalue e) < 2 ^ 32 -> size (entry_bytes e) <= size (ekey e) + size (evalue e) + 15.
Proof.
  intros H1 H2 H3 H4. rewrite entry_size, drop_size by done. unfold entry_header. rewrite !size_app.
  pose proof (encode_varint32_size (Z.of_nat (shared e)) ltac:(lia)). pose proof (encode_varint32_size (size (evalue e)) ltac:(pose proof (size_nonneg (evalue e)); lia)).
  pose proof (encode_varint32_size (size (ekey e) - Z.of_nat (shared e)) ltac:(unfold size in *; lia)). lia.
Qed.

Lemma builder_add_ok key value b es points w :
  building b es points -> is_bytes key -> is_bytes value -> valid_key key ->
  (forall e, last es = Some e -> valid_key (ekey e) /\ order (ekey e) key = Lt) ->
  pairs_size (map pair_of es) + size key + size value + 19 + 8 < 2 ^ 32 ->
  exists b' e points', Add interval key value b w = Ok tt b' w /\ ekey e = key /\ evalue e = value /\ building b' (es ++ [e]) points'.
Proof.
  intros Hb Hk Hv Hvk Hlast Hsize. pose proof Hb as [Hbuf Hrs Hcnt Hfin Hlk Hch Hby Hfst Hpts Hwi Hmany Hemp Hsz].
  pose proof (size_nonneg key). pose proof (size_nonneg value). unfold Add. cbn [bind get]. rewrite Hfin. cbn [negb assert_ ret].
  rewrite (proj2 (Z.leb_le _ _)) by lia. cbn [assert_ ret].
  assert (Hcmp : (if empty b then ret tt else let* c := must (Compare key (last_key_ b)) in assert_ (0 <? c)) b w = Ok tt b w).
  { unfold empty. destruct (Z.eqb_spec (size (buffer_ b)) 0) as [|Hne]; [done|]. rewrite Hlk. destruct (last es) as [e|] eqn:El.
    - destruct (Hlast e eq_refl) as [He Hlt]. destruct (compare_ok key (ekey e) Hvk He) as (c & Hc & Ho). cbn [bind]. rewrite Hc. cbn [must ret].
      rewrite order_flip, Hlt in Ho. cbn in Ho. apply Z.compare_gt_iff in Ho. by rewrite (proj2 (Z.ltb_lt _ _)).
    - apply last_None in El. subst es. by rewrite Hbuf in Hne. }
  rewrite Hcmp. set (restart := negb (counter_ b <? interval)). set (sh := if restart then O else _).
  set (e := mk_entry sh key value). set (points' := if restart then points ++ [length es] else points).
  assert (Hpre : (sh <= length (last_key_ b))%nat /\ (sh <= length key)%nat /\ take sh (last_key_ b) = take sh key).
  { unfold sh. destruct restart; [split; [lia|split; [lia|done]]|].
    destruct (common_prefix_ok _ (last_key_ b) key eq_refl) as (p & x & y & E1 & E2 & E3 & _). rewrite E3, E1, E2, !length_app, !take_app_length. split; [lia|split; [lia|done]]. }
  destruct Hpre as (Hsh1 & Hsh2 & Htk). rewrite Htk, take_drop, slice_eq_refl. cbn [assert_ ret put].
  assert (Hlast_len : size (last_key_ b) < 2 ^ 32).
  { rewrite Hlk. destruct (last es) as [e0|] eqn:El; [|done]. pose proof El as El2. rewrite last_lookup in El2.
    pose proof (key_bound es [] _ e0 Hch El2) as Hkb. apply lookup_lt_Some in El2 as Hl. replace (S (Nat.pred (length es))) with (length es) in Hkb by lia.
    rewrite offset_end in Hkb. change (size []) with 0 in Hkb. lia. }
  assert (Hnn : forall l, 0 <= pairs_size l) by (induction l as [|[k0 v0] l IH]; cbn; [lia|]; pose proof (size_nonneg k0); pose proof (size_nonneg v0); lia).
  pose proof (Hnn (map pair_of es)). unfold size in Hlast_len.
  assert (Heb : size (entry_bytes e) <= size key + size value + 15) by (apply (entry_bound e); cbn; [done|lia|lia|lia]).
  assert (Hbytes : PutVarint32 (PutVarint32 (PutVarint32 (buffer_ b) (u32 (Z.of_nat sh))) (u32 (size key - Z.of_nat sh))) (u32 (size value)) ++ drop sh key ++ value
      = entries_bytes (es ++ [e])).
  { rewrite entries_bytes_app, entries_cons. unfold PutVarint32, entry_bytes, entry_header. cbn [shared ekey evalue e]. rewrite Hbuf.
    rewrite !u32_small by (unfold size in *; lia). by rewrite app_nil_r, <- !app_assoc. }
  eexists. exists e, points'. split; [reflexivity|]. split; [reflexivity|]. split; [reflexivity|]. rewrite Hbytes.
  assert (Hlast2 : last (es ++ [e]) = Some e) by apply last_snoc.
  apply (Build_building _ (es ++ [e]) points'); cbn [buffer_ restarts_ counter_ finished_ last_key_].
  - done.
  - unfold points'. rewrite Hrs. destruct restart.
    + rewrite map_app. f_equal; [apply map_ext_Forall; eapply Forall_impl; [|exact Hwi]; cbn; intros p Hp; symmetry; apply offset_app; lia|].
      cbn. rewrite Hbuf, offset_app, offset_end by done. f_equal. apply u32_small. pose proof (size_nonneg (entries_bytes es)). lia.
    + apply map_ext_Forall. eapply Forall_impl; [|exact Hwi]. cbn. intros p Hp. symmetry. apply offset_app. lia.
  - unfold restart. destruct (Z.ltb_spec (counter_ b) interval); cbn; lia.
  - done.
  - by rewrite Hlast2.
  - apply chained_snoc; [done|]. cbn [shared ekey e]. rewrite <- Hlk. done.
  - apply Forall_app. split; [done|]. repeat constructor; done.
  - unfold points'. destruct Hfst as [r ->]. destruct restart; [by exists (r ++ [length es])|by exists r].
  - assert (Hold : Forall (fun p => forall e', (es ++ [e]) !! p = Some e' -> shared e' = O) points).
    { apply Forall_lookup_2. intros j p Hp e' He'. destruct (Forall_lookup_1 _ _ _ _ Hwi Hp) as [Hlt| ->].
      - rewrite lookup_app_l in He' by done. by apply (Forall_lookup_1 _ _ _ _ Hpts Hp).
      - destruct es as [|e1 es']; cbn in He'; injection He' as <-; [cbn; rewrite Hlk in Hsh1; cbn in Hsh1; lia|].
        by apply (Forall_lookup_1 _ _ _ _ Hpts Hp). }
    unfold points'. destruct restart eqn:Er; [|done]. apply Forall_app. split; [done|]. constructor; [|done].
    intros e' He'. rewrite lookup_app_r, Nat.sub_diag in He' by done. injection He' as <-. done.
  - assert (Hold : Forall (fun p => (p < length (es ++ [e]) \/ p = O)%nat) points)
      by (eapply Forall_impl; [|exact Hwi]; cbn; intros p Hp; rewrite length_app; cbn; lia).
    unfold points'. destruct restart; [|done]. apply Forall_app. split; [done|]. constructor; [|done]. left. rewrite length_app. cbn. lia.
  - unfold points'. destruct restart; rewrite ?length_app; cbn; lia.
  - by destruct es.
  - rewrite entries_bytes_app, size_app, map_app, pairs_size_app, entries_cons, size_app. cbn [map pairs_size]. change (size (entries_bytes [])) with 0.
    cbn [ekey evalue e]. unfold points'. destruct restart; rewrite ?length_app; cbn [length]; lia.
Qed.

(** The pairs that are added, one after the other. *)
Fixpoint add_all (kvs : list (list Z * list Z)) : SM BlockBuilder unit :=
  match kvs with
  | [] => ret tt
  | (k, v) :: kvs => Add interval k v;; add_all kvs
  end.

Notation key_lt := (fun a b : list Z * list Z => order (fst a) (fst b) = Lt).
Definition good_pair (kv : list Z * list Z) : Prop := is_bytes (fst kv) /\ is_bytes (snd kv) /\ valid_key (fst kv).

Lemma add_pairs_ok kvs : forall b es points w,
  building b es points -> Forall good_pair (map pair_of es ++ kvs) -> StronglySorted key_lt (map pair_of es ++ kvs) ->
  pairs_size (map pair_of es ++ kvs) + 8 < 2 ^ 32 ->
  exists b' es' points', add_all kvs b w = Ok tt b' w /\ building b' es' points' /\ map pair_of es' = map pair_of es ++ kvs.
Proof.
  induction kvs as [|[k v] kvs IH]; intros b es points w Hb Hg Hs Hsz.
  - exists b, es, points. by rewrite app_nil_r.
  - assert (Hge : forall l, 0 <= pairs_size l) by (induction l as [|[k0 v0] l IHl]; cbn; [lia|]; pose proof (size_nonneg k0); pose proof (size_nonneg v0); lia).
    pose proof Hsz as Hsz2. rewrite pairs_size_app in Hsz2. cbn [pairs_size] in Hsz2. pose proof (Hge kvs).
    apply Forall_app in Hg as Hg2. destruct Hg2 as [Hg1 Hg2]. inversion Hg2 as [|? ? (Hk & Hv & Hvk) Hg3]; subst.
    destruct (builder_add_ok k v b es points w Hb Hk Hv Hvk) as (b1 & e & points1 & Hrun & Ek & Ev & Hb1).
    + intros e El. rewrite last_lookup in El. split.
      * rewrite Forall_map in Hg1. by apply (Forall_lookup_1 _ _ _ _ Hg1 El).
      * apply (StronglySorted_app_1_elem_of key_lt _ _ (ekey e, evalue e) (k, v) Hs); [|by apply list_elem_of_here].
        apply list_elem_of_lookup_2 with (Nat.pred (length es)). by rewrite list_lookup_fmap, El.
    + lia.
    + destruct (IH b1 (es ++ [e]) points1 w) as (b2 & es2 & points2 & Hrun2 & Hb2 & E2); [done| | | |].
      all: rewrite ?map_app, <- ?app_assoc; cbn [map app]; rewrite ?Ek, ?Ev; try done.
      exists b2, es2, points2. split; [|split; [done|]].
      * cbn [add_all bind]. by rewrite Hrun.
      * rewrite E2, map_app, <- app_assoc. cbn [map app]. by rewrite Ek, Ev.
Qed.

Lemma put_fixed_all l : forall buf, fold_left PutFixed32 l buf = buf ++ concat (map EncodeFixed32 l).
Proof. induction l as [|x l IH]; intros buf; cbn; [by rewrite app_nil_r|]. rewrite IH. unfold PutFixed32. by rewrite <- app_assoc. Qed.

Lemma finish_ok b es points w : building b es points -> pairs_size (map pair_of es) + 8 < 2 ^ 32 ->
  exists b', Finish b w = Ok (block_layout es points) b' w /\ well_formed es points.
Proof.
  intros Hb Hsz. pose proof Hb as [Hbuf Hrs Hcnt Hfin Hlk Hch Hby Hfst Hpts Hwi Hmany Hemp Hs].
  pose proof (size_nonneg (entries_bytes es)).
  assert (E : PutFixed32 (fold_left PutFixed32 (restarts_ b) (buffer_ b)) (u32 (Z.of_nat (length (restarts_ b)))) = block_layout es points).
  { rewrite put_fixed_all, Hbuf, Hrs, length_map, map_map, u32_small by lia. unfold PutFixed32, block_layout, trailer_bytes. by rewrite <- app_assoc. }
  unfold Finish. cbn [bind get put ret]. rewrite E. eexists. split; [done|]. split; try done; [intros E0; by destruct (Hemp E0)|].
  rewrite layout_size. lia.
Qed.

End builder.

(** * The iterator as a cursor *)

Inductive block_op :=
| op_seek_to_first
| op_seek_to_last
| op_next
| op_prev
| op_seek (target : list Z).

Section cursor.
Context `{ComparatorLaws}.

Definition run_op (op : block_op) : SM Iter unit :=
  match op with
  | op_seek_to_first => SeekToFirst
  | op_seek_to_last => SeekToLast
  | op_next => Next
  | op_prev => Prev
  | op_seek target => Seek target
  end.

Fixpoint run_ops (ops : list block_op) : SM Iter unit :=
  match ops with
  | [] => ret tt
  | op :: ops => run_op op;; run_ops ops
  end.

(** The first pair whose key is not less than the target. *)
Fixpoint lower_bound (target : list Z) (kvs : list (list Z * list Z)) : nat :=
  match kvs with
  | [] => O
  | (k, _) :: kvs => match order k target with Lt => S (lower_bound target kvs) | _ => O end
  end.

(** The cursor: an index, or the length of the list where it is not valid.  [None]: the
    operation asks for a valid cursor. *)
Definition cursor_op (kvs : list (list Z * list Z)) (op : block_op) (i : nat) : option nat :=
  match op with
  | op_seek_to_first => Some O
  | op_seek_to_last => Some (Nat.pred (length kvs))
  | op_next => if (i <? length kvs)%nat then Some (S i) else None
  | op_prev => if (i <? length kvs)%nat then Some (match i with O => length kvs | S j => j end) else None
  | op_seek target => Some (lower_bound target kvs)
  end.

Fixpoint cursor_ops (kvs : list (list Z * list Z)) (ops : list block_op) (i : nat) : option nat :=
  match ops with
  | [] => Some i
  | op :: ops => match cursor_op kvs op i with Some i => cursor_ops kvs ops i | None => None end
  end.

Definition valid_target (op : block_op) : Prop := match op with op_seek target => valid_key target | _ => True end.

Lemma first_ge_lower target es : forall i, first_ge target es i = (i + lower_bound target (map pair_of es))%nat.
Proof.
  induction es as [|e es IH]; intros i; cbn; [lia|]. destruct (order (ekey e) target); [lia| |lia]. rewrite IH. lia.
Qed.

Section block.
Context (es : list entry) (points : list nat) (Hwf : well_formed es points).
Context (Hv : Forall (fun e => valid_key (ekey e)) es) (Hs : sorted_keys es).

Lemma run_op_ok op it i i' w : represents es points it i -> valid_target op -> cursor_op (map pair_of es) op i = Some i' ->
  exists it', run_op op it w = Ok tt it' w /\ represents es points it' i'.
Proof.
  intros Hr Ht Hc. pose proof (represents_block es points it i Hr) as Ho. destruct op; cbn [cursor_op run_op valid_target] in *; rewrite ?length_map in Hc.
  - injection Hc as <-. by apply seek_to_first_ok.
  - injection Hc as <-. by apply seek_to_last_ok.
  - destruct (Nat.ltb_spec i (length es)); [|done]. injection Hc as <-. by apply block_next_ok.
  - destruct (Nat.ltb_spec i (length es)); [|done]. injection Hc as <-. by apply iter_prev_ok.
  - injection Hc as <-. destruct (iter_seek_ok es points Hwf target it w Ho Ht Hv Hs) as (it' & Hrun & Hr'). exists it'. split; [done|].
    by rewrite first_ge_lower in Hr'.
Qed.

Lemma run_ops_ok ops : forall it i i' w, represents es points it i -> Forall valid_target ops -> cursor_ops (map pair_of es) ops i = Some i' ->
  exists it', run_ops ops it w = Ok tt it' w /\ represents es points it' i'.
Proof.
  induction ops as [|op ops IH]; intros it i i' w Hr Ht Hc; cbn [cursor_ops run_ops bind ret] in *; [injection Hc as <-; by exists it|]. inversion Ht; subst.
  destruct (cursor_op _ op i) as [j|] eqn:E; [|done]. destruct (run_op_ok op it i j w Hr ltac:(done) E) as (it1 & Hrun & Hr1).
  rewrite Hrun. by apply (IH it1 j).
Qed.

Lemma open_ok : exists blk it, new_Block (block_layout es points) = Some blk /\ NewIterator blk = Some (BlockIter it) /\ represents es points it (length es).
Proof.
  pose proof (small es points Hwf) as [Hsm HN]. pose proof (size_nonneg (entries_bytes es)). pose proof (layout_size es points) as Hl.
  set (R := size (entries_bytes es)) in *. set (N := Z.of_nat (length points)) in *.
  assert (Hnum : num_restarts_at (block_layout es points) (size (block_layout es points)) = Some N).
  { unfold num_restarts_at. rewrite Hl, (proj2 (Z.leb_le _ _)) by lia. unfold block_layout, trailer_bytes. rewrite app_assoc.
    rewrite drop_app_length'.
    - rewrite <- (app_nil_r (EncodeFixed32 _)). apply decode_encode_fixed32. lia.
    - pose proof Hl as Hl2. unfold block_layout, trailer_bytes in Hl2. rewrite app_assoc, size_app in Hl2. unfold size in Hl2 at 2.
      rewrite fixed32_bytes, le_bytes_length in Hl2. unfold size in Hl2. lia. }
  exists (mk_block (block_layout es points) (size (block_layout es points)) R), (mk_iter (block_layout es points) R N R N [] None OK).
  split; [|split].
  - unfold new_Block. rewrite Hnum, Hl. rewrite (proj2 (Z.ltb_ge _ 4)) by lia.
    rewrite (proj2 (Z.ltb_ge _ N)) by (replace (R + 4 * N + 4 - 4) with (R + N * 4) by lia; rewrite Z.div_add by lia; pose proof (Z.div_pos R 4); lia).
    rewrite (u32_small (1 + N)) by lia. do 2 f_equal. rewrite u32_small; lia.
  - unfold NewIterator. cbn [size_ data_ restart_offset_]. unfold NumRestarts. cbn [size_ data_]. rewrite Hnum, Hl.
    rewrite (proj2 (Z.ltb_ge _ 4)) by lia. rewrite (proj2 (Z.eqb_neq _ _)) by lia. unfold new_Iter. by rewrite (proj2 (Z.ltb_lt _ _)) by lia.
  - unfold represents. rewrite lookup_ge_None_2 by lia. split; [done|]. by repeat split.
Qed.

End block.

(** C12: a block built from pairs in the order of their keys is a sorted list to its readers.
    The iterator over the finished block moves exactly as a cursor over the list of the
    pairs under every sequence of operations: SeekToFirst, SeekToLast, Next, Prev (through
    the restart points) and Seek, which finds the first key that is not less than its
    target; wherever it is, its key and value are those of the pair, its status is OK and
    it is valid exactly on a pair. *)
Theorem block_refines_list interval kvs w :
  1 <= interval -> Forall good_pair kvs -> StronglySorted (fun a b => order (fst a) (fst b) = Lt) kvs -> pairs_size kvs + 8 < 2 ^ 32 ->
  exists contents b blk it,
    (add_all interval kvs;; Finish) new_BlockBuilder w = Ok contents b w /\
    new_Block contents = Some blk /\ NewIterator blk = Some (BlockIter it) /\
    forall ops i, Forall valid_target ops -> cursor_ops kvs ops (length kvs) = Some i ->
      exists it', run_ops ops it w = Ok tt it' w /\ status it' = OK /\ Valid it' = (i <? length kvs)%nat /\
        forall k v, kvs !! i = Some (k, v) -> key it' w = Ok k it' w /\ value it' w = Ok v it' w.
Proof.
  intros Hi Hg Hs Hsz. destruct (add_pairs_ok interval Hi kvs _ [] [O] w (building_new interval Hi) Hg Hs Hsz) as (b1 & es & points & Hrun & Hb & E).
  cbn [map app] in E. subst kvs. destruct (finish_ok interval b1 es points w Hb Hsz) as (b2 & Hfin & Hwf).
  assert (Hv : Forall (fun e => valid_key (ekey e)) es) by (rewrite Forall_map in Hg; eapply Forall_impl; [|exact Hg]; by intros e (_ & _ & ?)).
  assert (Hsk : sorted_keys es).
  { intros i j e e' Hij Hi' Hj'. apply (sorted_lookup _ _ i j (ekey e, evalue e) (ekey e', evalue e') Hs Hij); by rewrite list_lookup_fmap, ?Hi', ?Hj'. }
  destruct (open_ok es points Hwf) as (blk & it & Hblk & Hnew & Hr). exists (block_layout es points), b2, blk, it.
  split; [cbn [bind]; rewrite Hrun; exact Hfin|]. split; [done|]. split; [done|]. intros ops i Ht Hc. rewrite length_map in *.
  destruct (run_ops_ok es points Hwf Hv Hsk ops it _ i w Hr Ht Hc) as (it' & Hrun2 & Hr'). exists it'. split; [done|].
  split; [apply (on_status _ _ _ (represents_block _ _ _ _ Hr'))|]. split; [exact (represents_valid es points Hwf it' i Hr')|].
  intros k v Hkv. rewrite list_lookup_fmap in Hkv. destruct (es !! i) as [e|] eqn:Ee; [|done]. injection Hkv as <- <-. by apply (key_value_ok es points Hwf it' i e).
Qed.

End cursor.

(** * Blocks to compute with: the input of a witness, and a block whose value leaves it. *)

Definition some_pairs : list (list Z * list Z) := [([97], [1]); ([97; 98], [2; 3]); ([97; 98; 99], []); ([98], [4])].

Lemma block_refines_list_witness :
  exists contents b blk it,
    (add_all 2 some_pairs;; Finish) new_BlockBuilder (World ∅ ∅ 0) = Ok contents b (World ∅ ∅ 0) /\
    new_Block contents = Some blk /\ NewIterator blk = Some (BlockIter it) /\
    forall ops i, Forall valid_target ops -> cursor_ops some_pairs ops (length some_pairs) = Some i ->
      exists it', run_ops ops it (World ∅ ∅ 0) = Ok tt it' (World ∅ ∅ 0) /\ status it' = OK /\ Valid it' = (i <? length some_pairs)%nat /\
        forall k v, some_pairs !! i = Some (k, v) -> key it' (World ∅ ∅ 0) = Ok k it' (World ∅ ∅ 0) /\ value it' (World ∅ ∅ 0) = Ok v it' (World ∅ ∅ 0).
Proof.
  apply (@block_refines_list bytewise bytewise_laws 2 some_pairs (World ∅ ∅ 0)).
  - lia.
  - repeat constructor; cbn; lia.
  - repeat constructor.
  - by vm_compute.
Defined.

(** The sequence of operations ends where the list says. *)
Example cursor_moves :
  cursor_ops some_pairs [op_seek_to_last; op_prev; op_prev; op_seek [97; 98; 98]; op_next; op_prev; op_prev; op_prev; op_prev; op_next] 4 = None /\
  cursor_ops some_pairs [op_seek_to_last; op_prev; op_prev; op_seek [97; 98; 98]; op_next; op_prev; op_prev; op_prev] 4 = Some 0%nat.
Proof. split; reflexivity. Qed.

(** One entry: nothing shared, a key of one byte, a value of 4294967295 bytes. *)
Definition bad_block : list Z := [0; 1; 255; 255; 255; 255; 15; 97] ++ EncodeFixed32 0 ++ EncodeFixed32 1.

Definition bad_iter : Iter := mk_iter bad_block 8 1 8 1 [] None OK.

(** [DecodeEntry] adds the length of the key and that of the value in 32 bits before it
    compares the sum with the bytes that are left.  In this block of sixteen bytes the sum is 0: the
    iterator is valid, reports no corruption, and hands out a value of four gigabytes. *)
Example block_value_overflow w :
  new_Block bad_block = Some (mk_block bad_block 16 8) /\ NewIterator (mk_block bad_block 16 8) = Some (BlockIter bad_iter) /\
  exists it', SeekToFirst bad_iter w = Ok tt it' w /\ Valid it' = true /\ status it' = OK /\
    key it' w = Ok [97] it' w /\ value_ it' = Some (8, 4294967295) /\ value it' w = UB.
Proof. split; [reflexivity|]. split; [reflexivity|]. eexists. split; [reflexivity|]. repeat split. Qed.
