(* ===== verification/LdbFilter.v ===== *)
(** LevelDB's filters: include/leveldb/filter_policy.h, util/bloom.cc, the filter policy of
    internal keys (db/dbformat.cc) and table/filter_block.cc.

    A filter may say that a key is absent only if it is.  [None] and [UB] stand for a failed
    assertion or an access out of bounds. *)
From stdpp Require Import base list numbers option.
From Stdlib Require Import ZArith Lia.
From S2P Require Import Prelude Cmem LdbCoding LdbComparator LdbFormat.

Class FilterPolicy := {
  CreateFilter : list (list Z) -> list Z -> option (list Z);
  KeyMayMatch : list Z -> list Z -> option bool;
}.

(** What a policy promises for a list of keys: it appends a filter that matches them. *)
Class FilterLaws `{FilterPolicy} := {
  filter_key : list Z -> Prop;
  create_ok keys dst : Forall filter_key keys -> Z.of_nat (length keys) < 2 ^ 31 ->
    exists f, CreateFilter keys dst = Some (dst ++ f) /\ forall k, k ∈ keys -> KeyMayMatch k f = Some true;
}.

(** * bloom.cc *)

Definition BloomHash (key : list Z) : Z := Hash key 0xbc9f1d34.

Record Bloom := mk_bloom { bits_per_key_ : Z; k_ : Z }.

(** [bits_per_key * 0.69] in doubles: below the limit of 30 no product is near an integer,
    so that its integral part is that of the exact product. *)
Definition new_Bloom (bits_per_key : Z) : Bloom :=
  let k := bits_per_key * 69 / 100 in
  let k := if k <? 1 then 1 else k in
  let k := if 30 <? k then 30 else k in
  mk_bloom bits_per_key k.

Definition rotate_17 (h : Z) : Z := Z.lor (Z.shiftr h 17) (u32 (Z.shiftl h 15)).

Definition set_bit (array : list Z) (bitpos : Z) : option (list Z) :=
  let i := Z.to_nat (bitpos / 8) in
  match array !! i with
  | Some b => Some (<[i := Z.lor b (Z.shiftl 1 (bitpos mod 8))]> array)
  | None => None
  end.

Definition get_bit (array : list Z) (bitpos : Z) : option bool :=
  match array !! Z.to_nat (bitpos / 8) with
  | Some b => Some (negb (Z.land b (Z.shiftl 1 (bitpos mod 8)) =? 0))
  | None => None
  end.

(** The probes of a key. *)
Fixpoint add_probes (k : nat) (h delta bits : Z) (array : list Z) : option (list Z) :=
  match k with
  | O => Some array
  | S k =>
      match set_bit array (h mod bits) with
      | Some array => add_probes k (u32 (h + delta)) delta bits array
      | None => None
      end
  end.

Fixpoint check_probes (k : nat) (h delta bits : Z) (array : list Z) : option bool :=
  match k with
  | O => Some true
  | S k =>
      match get_bit array (h mod bits) with
      | Some true => check_probes k (u32 (h + delta)) delta bits array
      | b => b
      end
  end.

Fixpoint add_keys (k : nat) (bits : Z) (keys : list (list Z)) (array : list Z) : option (list Z) :=
  match keys with
  | [] => Some array
  | key :: keys =>
      let h := BloomHash key in
      match add_probes k h (rotate_17 h) bits array with
      | Some array => add_keys k bits keys array
      | None => None
      end
  end.

Definition bloom_create (p : Bloom) (keys : list (list Z)) (dst : list Z) : option (list Z) :=
  let n := Z.of_nat (length keys) in
  let bits := u64 (n * bits_per_key_ p) in
  let bits := if bits <? 64 then 64 else bits in
  let bytes := u64 (bits + 7) / 8 in
  let bits := u64 (bytes * 8) in
  let array := repeat 0 (Z.to_nat bytes) ++ [u8 (k_ p)] in
  option_map (app dst) (add_keys (Z.to_nat (k_ p)) bits keys array).

Definition bloom_match (key bloom_filter : list Z) : option bool :=
  let len := size bloom_filter in
  if len <? 2 then Some false
  else
    let array := bloom_filter in
    let bits := u64 ((len - 1) * 8) in
    match array !! Z.to_nat (len - 1) with
    | Some c =>
        let k := u64 (s8 c) in
        if 30 <? k then Some true
        else
          let h := BloomHash key in
          check_probes (Z.to_nat k) h (rotate_17 h) bits array
    | None => None
    end.

Definition bloom_policy (bits_per_key : Z) : FilterPolicy := {|
  CreateFilter := bloom_create (new_Bloom bits_per_key);
  KeyMayMatch := bloom_match;
|}.

(** * InternalFilterPolicy *)

Definition internal_filter_policy (user : FilterPolicy) : FilterPolicy := {|
  CreateFilter keys dst := match mapM ExtractUserKey keys with Some keys => CreateFilter keys dst | None => None end;
  KeyMayMatch key f := match ExtractUserKey key with Some key => KeyMayMatch key f | None => None end;
|}.

(** * filter_block.cc *)

Section filter_block.
Context `{FilterPolicy}.

Definition kFilterBaseLg : Z := 11.
Definition kFilterBase : Z := Z.shiftl 1 kFilterBaseLg.

(** The keys since the last filter are flattened in [keys_], the start of each is in [start_]. *)
Record FilterBlockBuilder := mk_fbb {
  keys_ : list Z;
  start_ : list nat;
  result_ : list Z;
  filter_offsets_ : list Z;
}.

Definition new_FilterBlockBuilder : FilterBlockBuilder := mk_fbb [] [] [] [].

(** The keys between consecutive starts. *)
Fixpoint unflatten (keys : list Z) (start : list nat) : list (list Z) :=
  match start with
  | s :: ((e :: _) as start') => take (e - s) (drop s keys) :: unflatten keys start'
  | _ => []
  end.

Definition GenerateFilter : SM FilterBlockBuilder unit :=
  let* b := get in
  let num_keys := length (start_ b) in
  if (num_keys =? 0)%nat then
    put (mk_fbb (keys_ b) (start_ b) (result_ b) (filter_offsets_ b ++ [u32 (size (result_ b))]))
  else
    let start := start_ b ++ [length (keys_ b)] in
    let tmp_keys := unflatten (keys_ b) start in
    let offsets := filter_offsets_ b ++ [u32 (size (result_ b))] in
    let* result := must (CreateFilter tmp_keys (result_ b)) in
    put (mk_fbb [] [] result offsets).

(** The loop of [StartBlock]. *)
Definition start_block_step (filter_index : Z) (_ : unit) : SM FilterBlockBuilder (unit + unit) :=
  let* b := get in
  if Z.of_nat (length (filter_offsets_ b)) <? filter_index then GenerateFilter;; ret (inl tt) else ret (inr tt).

Definition StartBlock (block_offset : Z) : SM FilterBlockBuilder unit :=
  let filter_index := block_offset / kFilterBase in
  let* b := get in
  assert_ (Z.of_nat (length (filter_offsets_ b)) <=? filter_index);;
  loop (S (Z.to_nat filter_index)) (start_block_step filter_index) tt.

Definition AddKey (key : list Z) : SM FilterBlockBuilder unit :=
  modify (fun b => mk_fbb (keys_ b ++ key) (start_ b ++ [length (keys_ b)]) (result_ b) (filter_offsets_ b)).

Definition FinishFilters : SM FilterBlockBuilder (list Z) :=
  let* b := get in
  (if negb (length (start_ b) =? 0)%nat then GenerateFilter else ret tt);;
  let* b := get in
  let array_offset := u32 (size (result_ b)) in
  let result := fold_left PutFixed32 (filter_offsets_ b) (result_ b) in
  let result := PutFixed32 result array_offset in
  let result := result ++ [u8 kFilterBaseLg] in
  put (mk_fbb (keys_ b) (start_ b) result (filter_offsets_ b));;
  ret result.

(** [None]: the filter block is not usable ([num_] is 0); [fr_offset] is the offset in the
    contents that [offset_] points to. *)
Record FilterBlockReader := mk_fbr { fr_data : list Z; fr_offset : Z; fr_num : Z; fr_base_lg : Z }.

Definition new_FilterBlockReader (contents : list Z) : FilterBlockReader :=
  let n := size contents in
  if n <? 5 then mk_fbr [] 0 0 0
  else
    let base_lg := u64 (s8 (nth (Z.to_nat (n - 1)) contents 0)) in
    let last_word := match DecodeFixed32 (drop (Z.to_nat (n - 5)) contents) with Some v => v | None => 0 end in
    if n - 5 <? last_word then mk_fbr [] 0 0 base_lg
    else mk_fbr contents last_word ((n - 5 - last_word) / 4) base_lg.

(** [None]: a shift by more than the width of the offset, or a read outside. *)
Definition FilterMayMatch (r : FilterBlockReader) (block_offset : Z) (key : list Z) : option bool :=
  if 64 <=? fr_base_lg r then None
  else
    let index := Z.shiftr block_offset (fr_base_lg r) in
    if index <? fr_num r then
      match DecodeFixed32 (drop (Z.to_nat (fr_offset r + index * 4)) (fr_data r)),
            DecodeFixed32 (drop (Z.to_nat (fr_offset r + index * 4 + 4)) (fr_data r)) with
      | Some start, Some limit =>
          if (start <=? limit) && (limit <=? fr_offset r) then
            KeyMayMatch key (take (Z.to_nat (limit - start)) (drop (Z.to_nat start) (fr_data r)))
          else if start =? limit then Some false
          else Some true
      | _, _ => None
      end
    else Some true.

End filter_block.
