(* ===== verification/LdbFilterThms.v ===== *)
(** Filters have no false negatives: Bloom filters, the policy of internal keys built on
    another, and the filter block of a table. *)
From stdpp Require Import base list numbers option.
From Stdlib Require Import ZArith Lia.
From S2P Require Import Prelude Cmem PbWire LdbCoding LdbCodingThms LdbComparator LdbFormat LdbFormatThms LdbFilter.

(** * Bits *)

Lemma set_bit_ok array p : 0 <= p < 8 * size array -> exists array', set_bit array p = Some array' /\ length array' = length array /\
  get_bit array' p = Some true /\ forall q, 0 <= q -> get_bit array q = Some true -> get_bit array' q = Some true.
Proof.
  intros Hp. assert (Hi : (Z.to_nat (p / 8) < length array)%nat).
  { pose proof (Z.div_lt_upper_bound p 8 (size array) ltac:(lia) ltac:(lia)). pose proof (Z.div_pos p 8). unfold size in *. lia. }
  destruct (lookup_lt_is_Some_2 _ _ Hi) as [b Hb]. unfold set_bit. rewrite Hb. eexists. split; [done|]. split; [by rewrite length_insert|].
  pose proof (Z.mod_pos_bound p 8 ltac:(lia)). assert (Hone : forall b n, 0 <= n -> negb (Z.land b (Z.shiftl 1 n) =? 0) = Z.testbit b n).
  { intros c n Hn. rewrite Z.shiftl_1_l. destruct (Z.testbit c n) eqn:E.
    - apply negb_true_iff, Z.eqb_neq. intros E0. assert (Ht : Z.testbit (Z.land c (2 ^ n)) n = false) by (rewrite E0; apply Z.bits_0).
      by rewrite Z.land_spec, E, Z.pow2_bits_true in Ht.
    - apply negb_false_iff, Z.eqb_eq. apply Z.bits_inj'. intros m Hm. rewrite Z.land_spec, Z.bits_0. destruct (Z.eq_dec m n) as [->|]; [by rewrite E|].
      rewrite Z.pow2_bits_false by lia. by rewrite andb_false_r. }
  unfold get_bit. rewrite list_lookup_insert_eq by done. split.
  - f_equal. rewrite Hone, Z.lor_spec by lia. rewrite Z.shiftl_1_l, Z.pow2_bits_true by lia. apply orb_true_r.
  - intros q Hq0 Hq. pose proof (Z.mod_pos_bound q 8 ltac:(lia)). destruct (decide (Z.to_nat (p / 8) = Z.to_nat (q / 8))) as [Ei|Ei].
    + rewrite <- Ei, Hb in Hq. rewrite <- Ei, list_lookup_insert_eq by done. injection Hq as Hq. rewrite Hone in Hq by lia.
      f_equal. rewrite Hone, Z.lor_spec, Hq by lia. done.
    + by rewrite list_lookup_insert_ne.
Qed.

Lemma set_bit_keeps array p array' j : 0 <= p < 8 * Z.of_nat j -> set_bit array p = Some array' -> array' !! j = array !! j.
Proof.
  intros Hp. unfold set_bit. destruct (array !! _) eqn:E; [|done]. intros [= <-]. apply list_lookup_insert_ne.
  pose proof (Z.div_lt_upper_bound p 8 (Z.of_nat j) ltac:(lia) ltac:(lia)). pose proof (Z.div_pos p 8). lia.
Qed.

(** Every bit of [a] is in [a']. *)
Definition covers (a a' : list Z) : Prop := forall q, 0 <= q -> get_bit a q = Some true -> get_bit a' q = Some true.

Lemma covers_refl a : covers a a.
Proof. by intros q. Qed.

Lemma covers_trans a b c : covers a b -> covers b c -> covers a c.
Proof. intros H1 H2 q Hq H. auto. Qed.

Lemma check_covers a a' k : forall h d bits, 0 < bits -> covers a a' -> check_probes k h d bits a = Some true -> check_probes k h d bits a' = Some true.
Proof.
  induction k as [|k IH]; intros h d bits Hb Hc; cbn; [done|]. destruct (get_bit a (h mod bits)) as [[]|] eqn:E; [|done..].
  rewrite (Hc _ (proj1 (Z.mod_pos_bound h bits Hb)) E). by apply IH.
Qed.

Lemma add_probes_ok k : forall h d j a, let bits := 8 * Z.of_nat j in 0 < bits <= 8 * size a -> exists a', add_probes k h d bits a = Some a' /\ length a' = length a /\
  covers a a' /\ a' !! j = a !! j /\ check_probes k h d bits a' = Some true.
Proof.
  induction k as [|k IH]; intros h d j a bits Hb; cbn; [exists a; auto using covers_refl|]. pose proof (Z.mod_pos_bound h bits ltac:(lia)) as Hm.
  destruct (set_bit_ok a (h mod bits) ltac:(lia)) as (a1 & E1 & Hl & Hg & Hc1). rewrite E1.
  destruct (IH (u32 (h + d)) d j a1) as (a2 & E2 & Hl2 & Hc2 & Hj2 & Hp2); [unfold size in *; rewrite Hl; lia|]. exists a2.
  split; [done|]. split; [congruence|]. split; [by eapply covers_trans|]. split; [by rewrite Hj2; eapply set_bit_keeps|].
  by rewrite (Hc2 _ (proj1 Hm) Hg).
Qed.

Lemma add_keys_ok k j keys : forall a, let bits := 8 * Z.of_nat j in 0 < bits <= 8 * size a -> exists a', add_keys k bits keys a = Some a' /\ length a' = length a /\
  covers a a' /\ a' !! j = a !! j /\ forall key, key ∈ keys -> check_probes k (BloomHash key) (rotate_17 (BloomHash key)) bits a' = Some true.
Proof.
  induction keys as [|key keys IH]; intros a bits Hb; cbn [add_keys].
  - exists a. do 2 (split; [done|]). split; [apply covers_refl|]. split; [done|]. intros key Hin. by apply not_elem_of_nil in Hin.
  - destruct (add_probes_ok k (BloomHash key) (rotate_17 (BloomHash key)) j a Hb) as (a1 & E1 & Hl & Hc & Hj & Hp). fold bits in E1, Hp. rewrite E1.
    destruct (IH a1) as (a2 & E2 & Hl2 & Hc2 & Hj2 & Hall); [unfold size in *; rewrite Hl; lia|]. exists a2. split; [done|]. split; [congruence|].
    split; [by eapply covers_trans|]. split; [congruence|]. intros key' [->|Hin]%elem_of_cons; [|by apply Hall]. eapply check_covers; [lia|done|done].
Qed.

Lemma new_bloom_k bits_per_key : 1 <= k_ (new_Bloom bits_per_key) <= 30.
Proof.
  unfold new_Bloom. cbn [k_]. destruct (Z.ltb_spec (bits_per_key * 69 / 100) 1); [done|]. destruct (Z.ltb_spec 30 (bits_per_key * 69 / 100)); lia.
Qed.

Lemma bloom_ok bits_per_key keys dst :
  0 <= bits_per_key < 2 ^ 31 -> Z.of_nat (length keys) < 2 ^ 31 ->
  exists f, bloom_create (new_Bloom bits_per_key) keys dst = Some (dst ++ f) /\ forall k, k ∈ keys -> bloom_match k f = Some true.
Proof.
  intros Hbpk Hn. pose proof (new_bloom_k bits_per_key) as Hk. unfold bloom_create. set (p := new_Bloom bits_per_key) in *.
  change (bits_per_key_ p) with bits_per_key. set (n := Z.of_nat (length keys)) in *.
  assert (Hprod : 0 <= n * bits_per_key < 2 ^ 62) by (split; [lia|]; change (2 ^ 62) with (2 ^ 31 * 2 ^ 31); nia).
  rewrite (u64_small (n * bits_per_key)) by lia. set (bits0 := if _ <? 64 then 64 else _).
  assert (Hb0 : 64 <= bits0 < 2 ^ 62) by (unfold bits0; destruct (Z.ltb_spec (n * bits_per_key) 64); lia). clearbody bits0.
  rewrite (u64_small (bits0 + 7)) by lia. set (m := Z.to_nat ((bits0 + 7) / 8)).
  assert (Hm : (bits0 + 7) / 8 = Z.of_nat m) by (unfold m; rewrite Z2Nat.id; [done|apply Z.div_pos; lia]).
  assert (Hm8 : 8 <= Z.of_nat m < 2 ^ 60).
  { rewrite <- Hm. split; [apply Z.div_le_lower_bound; lia|apply Z.div_lt_upper_bound; lia]. }
  rewrite Hm, u64_small by lia. rewrite (Z.mul_comm (Z.of_nat m) 8). set (a := repeat 0 m ++ [u8 (k_ p)]).
  assert (Ha : size a = Z.of_nat m + 1) by (unfold a, size; rewrite length_app, repeat_length; cbn; lia).
  destruct (add_keys_ok (Z.to_nat (k_ p)) m keys a) as (f & E & Hl & _ & Hj & Hall); [lia|]. rewrite E. cbn. exists f. split; [done|].
  intros key Hin. unfold bloom_match. assert (Hsf : size f = Z.of_nat m + 1) by (unfold size in *; rewrite Hl; lia). rewrite Hsf.
  rewrite (proj2 (Z.ltb_ge _ _)) by lia. rewrite Z.add_simpl_r. rewrite Nat2Z.id, Hj. unfold a. rewrite lookup_app_r by (by rewrite repeat_length).
  rewrite repeat_length, Nat.sub_diag. cbn [lookup list_lookup]. rewrite (u8_small (k_ p)) by lia.
  assert (Hs8 : s8 (k_ p) = k_ p) by (unfold s8, to_signed; rewrite Z.mod_small by lia; change (2 ^ (8 - 1)) with 128; by rewrite (proj2 (Z.ltb_lt _ _)) by lia).
  rewrite Hs8, (u64_small (k_ p)) by lia. rewrite (proj2 (Z.ltb_ge _ _)) by lia. rewrite u64_small by lia. rewrite Z.mul_comm. by apply Hall.
Qed.

#[export] Instance bloom_laws bits_per_key (Hb : 0 <= bits_per_key < 2 ^ 31) : @FilterLaws (bloom_policy bits_per_key) :=
  @Build_FilterLaws (bloom_policy bits_per_key) (fun _ => True) (fun keys dst _ Hn => bloom_ok bits_per_key keys dst Hb Hn).

(** C27: a Bloom filter has no false negatives: whatever the number of bits per key, the filter
    that is appended for a list of keys matches every one of them. *)
Theorem bloom_no_false_negatives bits_per_key keys dst :
  0 <= bits_per_key < 2 ^ 31 -> Z.of_nat (length keys) < 2 ^ 31 ->
  exists f, bloom_create (new_Bloom bits_per_key) keys dst = Some (dst ++ f) /\ forall k, k ∈ keys -> bloom_match k f = Some true.
Proof. apply bloom_ok. Qed.

Lemma bloom_no_false_negatives_witness :
  exists f, bloom_create (new_Bloom 10) [[1; 2]; []; [3]] [7] = Some ([7] ++ f) /\ forall k, k ∈ [[1; 2]; []; [3]] -> bloom_match k f = Some true.
Proof. apply (bloom_no_false_negatives 10 [[1; 2]; []; [3]] [7]); [lia|cbn; lia]. Defined.

(** * Internal keys *)

Lemma map_extract keys us : mapM ExtractUserKey keys = Some us -> length us = length keys /\ forall k, k ∈ keys -> exists u, ExtractUserKey k = Some u /\ u ∈ us.
Proof.
  intros Hm. apply mapM_Some in Hm. split; [symmetry; by eapply Forall2_length|]. intros k Hk.
  apply list_elem_of_lookup in Hk as [i Hi]. destruct (Forall2_lookup_l _ _ _ _ _ Hm Hi) as (u & Hu & E). exists u. split; [done|]. by eapply list_elem_of_lookup_2.
Qed.

Lemma internal_filter_ok (user : FilterPolicy) (laws : FilterLaws) keys dst :
  Forall (fun k => exists u tag, filter_key u /\ k = internal_key u tag) keys -> Z.of_nat (length keys) < 2 ^ 31 ->
  exists f, @CreateFilter (internal_filter_policy user) keys dst = Some (dst ++ f) /\ forall k, k ∈ keys -> @KeyMayMatch (internal_filter_policy user) k f = Some true.
Proof.
  intros Hk Hn. assert (Hm : exists us, mapM ExtractUserKey keys = Some us /\ Forall filter_key us).
  { clear Hn. induction Hk as [|k keys (u & tag & Hu & ->) _ (us & IH & Hus)]; [by exists []|]. exists (u :: us). cbn. rewrite extract_ok. cbn. rewrite IH. split; [done|by constructor]. }
  destruct Hm as (us & Hm & Hus). destruct (map_extract keys us Hm) as [Hl Hall]. cbn. rewrite Hm.
  destruct (create_ok us dst Hus) as (f & -> & Hf); [by rewrite Hl|]. exists f. split; [done|]. intros k Hin.
  destruct (Hall k Hin) as (u & -> & Hu). by apply Hf.
Qed.

#[export] Instance internal_filter_laws (user : FilterPolicy) (laws : FilterLaws) : @FilterLaws (internal_filter_policy user) :=
  @Build_FilterLaws (internal_filter_policy user) (fun k => exists u tag, filter_key u /\ k = internal_key u tag) (internal_filter_ok user laws).

(** * The filter block of a table: a key that was added after [StartBlock] with some offset is
    matched at that offset. *)

(** A filter with the keys it was made for. *)
Notation filter_with_keys := (list Z * list (list Z))%type.

Definition filters_bytes (fs : list filter_with_keys) : list Z := concat (map fst fs).
Definition filter_offset (fs : list filter_with_keys) (i : nat) : Z := size (filters_bytes (take i fs)).

Fixpoint starts (n : nat) (keys : list (list Z)) : list nat :=
  match keys with
  | [] => []
  | k :: keys => n :: starts (n + length k) keys
  end.

Lemma starts_app l1 l2 : forall n, starts n (l1 ++ l2) = starts n l1 ++ starts (n + length (concat l1)) l2.
Proof.
  induction l1 as [|k l1 IH]; intros n; cbn; [by rewrite Nat.add_0_r|]. rewrite IH, length_app. do 2 f_equal. f_equal. lia.
Qed.

Lemma unflatten_ok keys : forall pre, unflatten (pre ++ concat keys) (starts (length pre) keys ++ [length (pre ++ concat keys)]) = keys.
Proof.
  induction keys as [|k keys IH]; intros pre; [done|]. cbn [starts concat]. specialize (IH (pre ++ k)). rewrite <- app_assoc in IH. rewrite length_app in IH at 1.
  assert (Hk : forall e, e = (length pre + length k)%nat -> take (e - length pre) (drop (length pre) (pre ++ k ++ concat keys)) = k).
  { intros e ->. rewrite drop_app_length. replace (_ + _ - _)%nat with (length k) by lia. apply take_app_length. }
  destruct keys as [|k2 keys]; cbn [starts app unflatten concat] in *.
  - f_equal. apply Hk. rewrite !length_app. cbn. lia.
  - f_equal; [by apply Hk|exact IH].
Qed.

Lemma starts_length keys : forall n, length (starts n keys) = length keys.
Proof. induction keys as [|k keys IH]; intros n; cbn; [done|]. by rewrite IH. Qed.

Section block.
Context `{FilterLaws}.

(** The builder has finished the filters [fs] and holds the keys [pending]. *)
Record filtering (b : FilterBlockBuilder) (fs : list filter_with_keys) (pending : list (list Z)) : Prop := {
  fb_keys : keys_ b = concat pending;
  fb_start : start_ b = starts 0 pending;
  fb_result : result_ b = filters_bytes fs;
  fb_offsets : filter_offsets_ b = map (fun i => u32 (filter_offset fs i)) (seq 0 (length fs));
  fb_match : Forall (fun fk : filter_with_keys => forall k, k ∈ snd fk -> KeyMayMatch k (fst fk) = Some true) fs;
  fb_valid : Forall filter_key pending;
}.

Lemma filters_app fs1 fs2 : filters_bytes (fs1 ++ fs2) = filters_bytes fs1 ++ filters_bytes fs2.
Proof. unfold filters_bytes. by rewrite map_app, concat_app. Qed.

Lemma filter_offset_end fs : filter_offset fs (length fs) = size (filters_bytes fs).
Proof. unfold filter_offset. by rewrite take_ge. Qed.

Lemma offsets_snoc fs x : map (fun i => u32 (filter_offset (fs ++ [x]) i)) (seq 0 (length (fs ++ [x]))) =
  map (fun i => u32 (filter_offset fs i)) (seq 0 (length fs)) ++ [u32 (size (filters_bytes fs))].
Proof.
  rewrite length_app, Nat.add_1_r, seq_S, map_app. cbn [map]. f_equal.
  - apply map_ext_in. intros i Hi%in_seq. unfold filter_offset. by rewrite take_app_le by lia.
  - unfold filter_offset. by rewrite Nat.add_0_l, take_app_length.
Qed.

Lemma generate_ok b fs pending w : filtering b fs pending -> Z.of_nat (length pending) < 2 ^ 31 ->
  exists b' f, GenerateFilter b w = Ok tt b' w /\ filtering b' (fs ++ [(f, pending)]) [].
Proof.
  intros [Hk Hs Hr Ho Hm Hv] Hn. unfold GenerateFilter. cbn [bind get]. rewrite Hs, starts_length. destruct (Nat.eqb_spec (length pending) 0) as [E|E].
  - apply length_zero_iff_nil in E. subst pending. eexists. exists []. split; [done|]. rewrite Hk, Hr, Ho. split; cbn; try done.
    + by rewrite filters_app, app_nil_r.
    + by rewrite offsets_snoc.
    + apply Forall_app. split; [done|]. constructor; [|done]. intros k Hin. by apply not_elem_of_nil in Hin.
  - pose proof (unflatten_ok pending []) as Hun. cbn [app length] in Hun. rewrite Hk, Hun. destruct (create_ok pending (result_ b) Hv Hn) as (f & Ef & Hf). rewrite Ef. cbn [must ret bind put].
    eexists. exists f. split; [done|]. split; cbn; try done.
    + rewrite filters_app, Hr. unfold filters_bytes at 2. cbn. by rewrite app_nil_r.
    + by rewrite offsets_snoc, Ho, Hr.
    + apply Forall_app. split; [done|]. by constructor.
Qed.

(** A key that belongs to the filter of an index: in a finished filter, or in the next one. *)
Definition recorded (fs : list filter_with_keys) (pending : list (list Z)) (i : nat) (k : list Z) : Prop :=
  (exists f ks, fs !! i = Some (f, ks) /\ k ∈ ks) \/ (i = length fs /\ k ∈ pending).

Lemma recorded_generate fs pending f i k : recorded fs pending i k -> recorded (fs ++ [(f, pending)]) [] i k.
Proof.
  intros [(f0 & ks & E & Hk)|[-> Hk]]; left.
  - exists f0, ks. split; [|done]. by apply lookup_app_l_Some.
  - exists f, pending. split; [|done]. by rewrite lookup_app_r, Nat.sub_diag.
Qed.

Lemma start_loop_ok n idx : forall b fs pending w, filtering b fs pending -> Z.of_nat (length pending) < 2 ^ 31 ->
  Z.of_nat (length fs) <= idx -> idx - Z.of_nat (length fs) < Z.of_nat n ->
  exists b' fs' pending', loop n (start_block_step idx) tt b w = Ok tt b' w /\ filtering b' fs' pending' /\ Z.of_nat (length fs') = idx /\
    (length pending' <= length pending)%nat /\ forall i k, recorded fs pending i k -> recorded fs' pending' i k.
Proof.
  induction n as [|n IH]; intros b fs pending w Hb Hp Hle Hn; [lia|]. cbn [loop bind]. unfold start_block_step at 1. cbn [bind get].
  rewrite (fb_offsets _ _ _ Hb), length_map, length_seq. destruct (Z.ltb_spec (Z.of_nat (length fs)) idx) as [Hlt|Hge].
  - destruct (generate_ok b fs pending w Hb Hp) as (b1 & f & E1 & Hb1). cbn [bind]. rewrite E1. cbn [ret].
    destruct (IH b1 (fs ++ [(f, pending)]) [] w Hb1) as (b2 & fs2 & p2 & E2 & Hb2 & Hl2 & Hp2 & Hr2); [cbn; lia|rewrite length_app; cbn; lia|rewrite length_app; cbn; lia|].
    exists b2, fs2, p2. split; [done|]. split; [done|]. split; [done|]. split; [cbn in Hp2; lia|]. intros i k Hi. by apply Hr2, recorded_generate.
  - exists b, fs, pending. cbn [ret]. split; [done|]. split; [done|]. split; [lia|]. by split.
Qed.

Lemma start_block_ok off b fs pending w : filtering b fs pending -> Z.of_nat (length pending) < 2 ^ 31 -> Z.of_nat (length fs) <= off / 2048 ->
  exists b' fs' pending', StartBlock off b w = Ok tt b' w /\ filtering b' fs' pending' /\ Z.of_nat (length fs') = off / 2048 /\
    (length pending' <= length pending)%nat /\ forall i k, recorded fs pending i k -> recorded fs' pending' i k.
Proof.
  intros Hb Hp Hle. unfold StartBlock. change kFilterBase with 2048. cbn [bind get].
  rewrite (fb_offsets _ _ _ Hb), length_map, length_seq, (proj2 (Z.leb_le _ _)) by done. cbn [assert_ ret]. apply start_loop_ok; [done|done|done|lia].
Qed.

(** ** The calls of a table builder *)

Fixpoint add_block_keys (keys : list (list Z)) : SM FilterBlockBuilder unit :=
  match keys with
  | [] => ret tt
  | k :: keys => AddKey k;; add_block_keys keys
  end.

Fixpoint add_blocks (blocks : list (Z * list (list Z))) : SM FilterBlockBuilder unit :=
  match blocks with
  | [] => ret tt
  | (off, keys) :: blocks => StartBlock off;; add_block_keys keys;; add_blocks blocks
  end.

Lemma add_block_keys_ok keys : forall b fs pending w, filtering b fs pending -> Forall filter_key keys ->
  exists b', add_block_keys keys b w = Ok tt b' w /\ filtering b' fs (pending ++ keys).
Proof.
  induction keys as [|k keys IH]; intros b fs pending w Hb Hk; [exists b; by rewrite app_nil_r|]. inversion Hk; subst.
  assert (Hb1 : filtering (mk_fbb (keys_ b ++ k) (start_ b ++ [length (keys_ b)]) (result_ b) (filter_offsets_ b)) fs (pending ++ [k])).
  { destruct Hb as [H1' H2' H3' H4' H5' H6']. split; cbn; try done.
    - by rewrite H1', concat_app, <- (app_nil_r k) at 1.
    - rewrite H1', H2', starts_app. done.
    - apply Forall_app. split; [done|]. by repeat constructor. }
  destruct (IH _ fs (pending ++ [k]) w Hb1) as (b2 & E2 & Hb2); [done|]. rewrite <- app_assoc in Hb2. exists b2. split; [exact E2|exact Hb2].
Qed.

(** The offsets of the blocks of a table increase. *)
Fixpoint ascending (lo : Z) (blocks : list (Z * list (list Z))) : Prop :=
  match blocks with
  | [] => True
  | (off, _) :: blocks => lo <= off /\ ascending off blocks
  end.

Fixpoint key_count (blocks : list (Z * list (list Z))) : Z :=
  match blocks with
  | [] => 0
  | (_, keys) :: blocks => Z.of_nat (length keys) + key_count blocks
  end.

Lemma add_blocks_ok blocks : forall lo b fs pending w, filtering b fs pending -> Forall (fun bk => Forall filter_key (snd bk)) blocks ->
  0 <= lo -> Z.of_nat (length fs) <= lo / 2048 -> ascending lo blocks -> Z.of_nat (length pending) + key_count blocks < 2 ^ 31 ->
  exists b' fs' pending', add_blocks blocks b w = Ok tt b' w /\ filtering b' fs' pending' /\ Z.of_nat (length pending') < 2 ^ 31 /\
    (forall i k, recorded fs pending i k -> recorded fs' pending' i k) /\
    (forall off keys k, (off, keys) ∈ blocks -> k ∈ keys -> 0 <= off /\ recorded fs' pending' (Z.to_nat (off / 2048)) k).
Proof.
  induction blocks as [|[off keys] blocks IH]; intros lo b fs pending w Hb Hv Hlo Hle Ha Hn; cbn [ascending key_count snd] in *.
  - exists b, fs, pending. split; [done|]. split; [done|]. split; [lia|]. split; [done|]. intros ? ? ? Hin. by apply not_elem_of_nil in Hin.
  - inversion Hv as [|? ? Hk Hv']; subst. destruct Ha as [Hlt Ha].
    assert (Hkc : 0 <= key_count blocks) by (clear; induction blocks as [|[]]; cbn; lia).
    assert (Hq : Z.of_nat (length fs) <= off / 2048) by (pose proof (Z.div_le_mono lo off 2048); lia).
    destruct (start_block_ok off b fs pending w Hb ltac:(lia) Hq) as (b1 & fs1 & p1 & E1 & Hb1 & Hl1 & Hp1 & Hr1).
    destruct (add_block_keys_ok keys b1 fs1 p1 w Hb1 Hk) as (b2 & E2 & Hb2).
    destruct (IH off b2 fs1 (p1 ++ keys) w Hb2 Hv' ltac:(lia) ltac:(lia) Ha) as (b3 & fs3 & p3 & E3 & Hb3 & Hn3 & Hr3 & Hall); [rewrite length_app; lia|].
    exists b3, fs3, p3. split; [cbn [add_blocks bind]; rewrite E1; cbn [bind]; by rewrite E2|]. split; [done|]. split; [done|].
    assert (Hmid : forall i k, recorded fs1 p1 i k -> recorded fs1 (p1 ++ keys) i k)
      by (intros i k [?|[? ?]]; [by left|right; split; [done|]; apply elem_of_app; by left]).
    split; [intros i k Hi; by apply Hr3, Hmid, Hr1|]. intros o ks k Hin Hkk. apply elem_of_cons in Hin as [[= -> ->]|Hin]; [|by eapply Hall].
    split; [lia|]. apply Hr3. right. split; [lia|]. apply elem_of_app. by right.
Qed.

(** ** Reading *)

Lemma word_at (pre post : list Z) (ws : list Z) i x : ws !! i = Some x -> 0 <= x < 2 ^ 32 ->
  DecodeFixed32 (drop (Z.to_nat (size pre + Z.of_nat i * 4)) (pre ++ concat (map EncodeFixed32 ws) ++ post)) = Some x.
Proof.
  intros Hi Hx. rewrite <- (take_drop_middle ws i x Hi). rewrite map_app, concat_app. cbn [map concat].
  assert (E : forall l, length (concat (map EncodeFixed32 l)) = (4 * length l)%nat).
  { induction l as [|y l IHl]; [done|]. cbn [map concat length]. rewrite length_app, IHl, fixed32_bytes, le_bytes_length. lia. }
  rewrite <- !app_assoc, app_assoc. rewrite drop_app_length'.
  - by apply decode_encode_fixed32.
  - rewrite length_app, E, length_take. apply lookup_lt_Some in Hi. unfold size. lia.
Qed.

Lemma filter_offset_succ fs i f ks : fs !! i = Some (f, ks) -> filter_offset fs (S i) = filter_offset fs i + size f.
Proof.
  intros Hi. unfold filter_offset. rewrite (take_S_r _ _ _ Hi), filters_app, size_app. unfold filters_bytes at 2. cbn. by rewrite app_nil_r.
Qed.

Lemma filter_offset_le fs i : filter_offset fs i <= size (filters_bytes fs).
Proof. unfold filter_offset. rewrite <- (take_drop i fs) at 2. rewrite filters_app, size_app. pose proof (size_nonneg (filters_bytes (drop i fs))). lia. Qed.

(** The contents of the finished filter block. *)
Definition filter_layout (fs : list filter_with_keys) : list Z :=
  filters_bytes fs ++ concat (map EncodeFixed32 (map (filter_offset fs) (seq 0 (S (length fs))))) ++ [11].

Lemma finish_filters_ok b fs w : filtering b fs [] -> exists contents b',
  FinishFilters b w = Ok contents b' w /\ (size contents < 2 ^ 32 -> contents = filter_layout fs).
Proof.
  intros [Hk Hs Hr Ho Hm Hv]. unfold FinishFilters. cbn [bind get]. rewrite Hs. cbn [starts length Nat.eqb negb ret get put bind].
  do 2 eexists. split; [done|].
  assert (Hput : forall l buf, fold_left PutFixed32 l buf = buf ++ concat (map EncodeFixed32 l)).
  { induction l as [|x l IHl]; intros buf; cbn; [by rewrite app_nil_r|]. rewrite IHl. unfold PutFixed32. by rewrite <- app_assoc. }
  rewrite Hput, Ho, Hr. unfold PutFixed32. rewrite !size_app. intros Hsz. pose proof (size_nonneg (filters_bytes fs)).
  assert (Hsm : size (filters_bytes fs) < 2 ^ 32).
  { match type of Hsz with ?a + ?b + ?c + ?d < _ => pose proof (size_nonneg [u8 kFilterBaseLg]); assert (0 <= b /\ 0 <= c) by (split; apply size_nonneg); lia end. }
  unfold filter_layout. rewrite seq_S, !map_app, concat_app. cbn [map concat]. rewrite Nat.add_0_l, filter_offset_end.
  assert (E : map (fun i => u32 (filter_offset fs i)) (seq 0 (length fs)) = map (filter_offset fs) (seq 0 (length fs))).
  { apply map_ext. intros i. apply u32_small. pose proof (filter_offset_le fs i). pose proof (size_nonneg (filters_bytes (take i fs))). unfold filter_offset in *. lia. }
  rewrite E, u32_small by lia. change (u8 kFilterBaseLg) with 11. by rewrite app_nil_r, <- !app_assoc.
Qed.

Lemma read_filters_ok fs off i f ks k : size (filter_layout fs) < 2 ^ 32 -> 0 <= off -> Z.to_nat (off / 2048) = i -> fs !! i = Some (f, ks) ->
  FilterMayMatch (new_FilterBlockReader (filter_layout fs)) off k = KeyMayMatch k f.
Proof.
  intros Hsz Hoff <- Hi. set (m := length fs). set (ws := map (filter_offset fs) (seq 0 (S m))).
  assert (Hws : forall j, (j <= m)%nat -> ws !! j = Some (filter_offset fs j)).
  { intros j Hj. unfold ws. rewrite list_lookup_fmap, lookup_seq_lt by lia. done. }
  assert (Hwl : length ws = S m) by (unfold ws; by rewrite length_map, length_seq).
  assert (Hlen : size (filter_layout fs) = size (filters_bytes fs) + 4 * Z.of_nat m + 5).
  { unfold filter_layout. fold m ws. rewrite !size_app. assert (E : forall l, size (concat (map EncodeFixed32 l)) = 4 * Z.of_nat (length l)).
    { induction l as [|y l IHl]; [done|]. cbn [map concat length]. rewrite size_app, IHl. unfold size at 1. rewrite fixed32_bytes, le_bytes_length. lia. }
    rewrite E, Hwl. change (size [11]) with 1. lia. }
  pose proof (size_nonneg (filters_bytes fs)) as HR. pose proof (lookup_lt_Some _ _ _ Hi) as Hlt. fold m in Hlt.
  assert (Hrange : forall j, 0 <= filter_offset fs j < 2 ^ 32) by (intros j; pose proof (filter_offset_le fs j); split; [apply size_nonneg|lia]).
  assert (Hword : forall j, (j <= m)%nat -> DecodeFixed32 (drop (Z.to_nat (size (filters_bytes fs) + Z.of_nat j * 4)) (filter_layout fs)) = Some (filter_offset fs j))
    by (intros j Hj; apply (word_at (filters_bytes fs) [11] ws j); [by apply Hws|apply Hrange]).
  assert (Hnew : new_FilterBlockReader (filter_layout fs) = mk_fbr (filter_layout fs) (size (filters_bytes fs)) (Z.of_nat m) 11).
  { unfold new_FilterBlockReader. rewrite Hlen, (proj2 (Z.ltb_ge _ 5)) by lia.
    assert (Hw : DecodeFixed32 (drop (Z.to_nat (size (filters_bytes fs) + 4 * Z.of_nat m + 5 - 5)) (filter_layout fs)) = Some (size (filters_bytes fs))).
    { replace (size (filters_bytes fs) + 4 * Z.of_nat m + 5 - 5) with (size (filters_bytes fs) + Z.of_nat m * 4) by lia.
      rewrite Hword by done. unfold m. by rewrite filter_offset_end. }
    assert (Hl : u64 (s8 (nth (Z.to_nat (size (filters_bytes fs) + 4 * Z.of_nat m + 5 - 1)) (filter_layout fs) 0)) = 11).
    { unfold filter_layout. rewrite app_assoc, app_nth2; rewrite length_app;
        (assert (E : forall l, length (concat (map EncodeFixed32 l)) = (4 * length l)%nat) by
          (induction l as [|y l IHl]; [done|]; cbn [map concat length]; rewrite length_app, IHl, fixed32_bytes, le_bytes_length; lia)); rewrite E; fold m ws; rewrite Hwl; unfold size in *; [|lia].
      replace (_ - _)%nat with O by lia. done. }
    rewrite Hw, Hl. rewrite (proj2 (Z.ltb_ge _ _)) by lia. f_equal. replace (_ - 5 - _) with (Z.of_nat m * 4) by lia. by apply Z.div_mul. }
  rewrite Hnew. unfold FilterMayMatch. cbn [fr_base_lg fr_num fr_offset fr_data]. change (64 <=? 11) with false. cbn iota.
  rewrite shiftr_div by lia. change (2 ^ 11) with 2048. assert (Hq : 0 <= off / 2048) by (apply Z.div_pos; lia).
  rewrite (proj2 (Z.ltb_lt _ _)) by lia. set (q := Z.to_nat (off / 2048)) in *. replace (off / 2048) with (Z.of_nat q) by lia.
  rewrite (Hword q) by lia.
  replace (size (filters_bytes fs) + Z.of_nat q * 4 + 4) with (size (filters_bytes fs) + Z.of_nat (S q) * 4) by lia.
  rewrite (Hword (S q)) by lia.
  rewrite (filter_offset_succ fs q f ks Hi). pose proof (size_nonneg f). pose proof (filter_offset_le fs (S q)) as Hle. rewrite (filter_offset_succ fs q f ks Hi) in Hle.
  rewrite (proj2 (Z.leb_le _ _)), (proj2 (Z.leb_le _ _)) by lia. cbn [andb]. f_equal. unfold filter_layout.
  assert (Hsplit : filters_bytes fs = filters_bytes (take q fs) ++ f ++ filters_bytes (drop (S q) fs))
    by (rewrite <- (take_drop_middle fs q _ Hi) at 1; rewrite filters_app; done).
  rewrite Hsplit, <- !app_assoc.
  rewrite drop_app_length' by (unfold filter_offset, size; lia). apply take_app_length'. unfold size. lia.
Qed.

(** C24: a filter block has no false negatives: for every policy that has none, whatever calls
    StartBlock and AddKey a table builder makes (with offsets that do not decrease), the
    reader matches every key at the offset of its block. *)
Theorem filter_block_no_false_negatives blocks w :
  Forall (fun bk => Forall filter_key (snd bk)) blocks -> ascending 0 blocks -> key_count blocks < 2 ^ 31 ->
  exists contents b', (add_blocks blocks;; FinishFilters) new_FilterBlockBuilder w = Ok contents b' w /\
    (size contents < 2 ^ 32 -> forall off keys k, (off, keys) ∈ blocks -> k ∈ keys ->
      FilterMayMatch (new_FilterBlockReader contents) off k = Some true).
Proof.
  intros Hv Ha Hn. assert (H00 : filtering new_FilterBlockBuilder [] []) by (by split).
  destruct (add_blocks_ok blocks 0 _ [] [] w H00 Hv ltac:(lia) ltac:(done) Ha) as (b1 & fs & p & E1 & Hb1 & Hp & _ & Hall); [cbn; lia|].
  assert (Hfin : exists b2 fs2, (if negb (length (start_ b1) =? 0)%nat then GenerateFilter else ret tt) b1 w = Ok tt b2 w /\ filtering b2 fs2 [] /\
    forall i k, recorded fs p i k -> recorded fs2 [] i k).
  { rewrite (fb_start _ _ _ Hb1), starts_length. destruct (Nat.eqb_spec (length p) 0) as [E|E]; cbn [negb].
    - apply length_zero_iff_nil in E. subst p. by exists b1, fs.
    - destruct (generate_ok b1 fs p w Hb1 Hp) as (b2 & f & E2 & Hb2). exists b2, (fs ++ [(f, p)]). split; [done|]. split; [done|]. intros i k. apply recorded_generate. }
  destruct Hfin as (b2 & fs2 & E2 & Hb2 & Hr2). destruct (finish_filters_ok b2 fs2 w Hb2) as (c & b3 & E3 & Hc).
  exists c, b3. split.
  - cbn [bind]. rewrite E1. rewrite <- E3. unfold FinishFilters. cbn [bind get]. rewrite E2, (fb_start _ _ _ Hb2). cbn [starts length Nat.eqb negb ret put]. by rewrite (fb_start _ _ _ Hb2).
  - intros Hsz off keys k Hin Hk. pose proof (Hc Hsz) as Ec. subst c. destruct (Hall off keys k Hin Hk) as [Hoff Hrec].
    destruct (Hr2 _ _ Hrec) as [(f & ks & Hi & Hks)|[_ Hin2]]; [|by apply not_elem_of_nil in Hin2].
    rewrite (read_filters_ok fs2 off _ f ks k Hsz Hoff eq_refl Hi). exact (Forall_lookup_1 _ _ _ _ (fb_match _ _ _ Hb2) Hi k Hks).
Qed.

End block.

Definition some_blocks : list (Z * list (list Z)) := [(0, [[1]; [2; 3]]); (1000, [[4]]); (9000, []); (10000, [[5]; []])].

Lemma filter_block_no_false_negatives_witness :
  exists contents b', (@add_blocks (bloom_policy 10) some_blocks;; @FinishFilters (bloom_policy 10)) new_FilterBlockBuilder (World ∅ ∅ 0) = Ok contents b' (World ∅ ∅ 0) /\
    (size contents < 2 ^ 32 -> forall off keys k, (off, keys) ∈ some_blocks -> k ∈ keys ->
      @FilterMayMatch (bloom_policy 10) (new_FilterBlockReader contents) off k = Some true).
Proof.
  apply (@filter_block_no_false_negatives (bloom_policy 10) (bloom_laws 10 ltac:(lia)) some_blocks (World ∅ ∅ 0)).
  - by repeat constructor.
  - cbn. lia.
  - by vm_compute.
Defined.
